(* ===== verification/_CoqProject ===== *)
-Q . S2P
Prelude.v
RBCode.v
RBTree.v
RBOrder.v
RBInsert.v
RBErase.v
RBTraverse.v
MapCode.v
MapSpec.v
MapRange.v
MapBuiltins.v
CString.v
Value.v
MooMap.v
Streams.v
StrUtils.v
Base64.v
SymTable.v
ListCode.v
ListFree.v
ListSpec.v
ListEqual.v
ListBuiltins.v
ListFun.v
MooList.v
ObjCode.v
ObjGraph.v
ObjParents.v
ObjChange.v
ObjLife.v
ObjFun.v
ObjTask.v
ObjRun.v
ObjMake.v
ObjRecycle.v
ObjQuery.v
Objects.v
ObjMore.v
NumCode.v
Numbers.v
CmdCode.v
CmdLex.v
Commands.v
PropCode.v
PropSpec.v
PropFind.v
PropSplice.v
PropEdit.v
PropFun.v
PropOps.v
PropInfo.v
PropVM.v
PropAccess.v
Properties.v
VerbCode.v
VerbSpec.v
VerbFind.v
VerbFun.v
VerbOps.v
VerbStep.v
Verbs.v
TaskCode.v
TaskInput.v
TaskSpec.v
TaskKeep.v
TaskOps.v
TaskCall.v
TaskLoop.v
TaskFair.v
TaskFun.v
Tasks.v
GcCode.v
GcSearch.v
GcScan.v
GcMark.v
Garbage.v
DbCode.v
DbIO.v
DbFile.v
ObjCheck.v
