(* ===== verification/Prelude.v ===== *)
(** * ToastStunt: a verification library

    ToastStunt is a server for the MOO programming language: a persistent
    object database, values of a small dynamically typed language, a byte code
    interpreter, and a network front end.  This library models the parts of
    [src/src/] that keep the data right - values, the object database with its
    hierarchies, properties and verbs, commands, the queues of tasks, the collector of cycles - and proves what they promise.
    Every definition is translated from the function of the same name, or from
    the statements that its entry in the manifest names; strings, lists and
    structures are immutable values unless the aliasing matters, and then they
    are addresses in a heap (the trees of map.cc, the arrays of list.cc, the
    objects).

    ** Parts

    - [Prelude]: machine integers ([wrapS], [to_num], [to_int]), the state
      monad [M], whose failure is undefined behaviour or a panic or a null
      dereference, and lemmas on lists and options.
    - [RBCode] to [RBTraverse]: the red-black tree of map.cc, pointer code over
      a heap of nodes.  [RBOrder.KeyOrder] is the interface to the comparison of
      keys.  [rbinsert_correct] and [rberase_correct] are refinements to a sorted
      list with the colour invariants and with framing of the rest of the heap.
    - [MapCode] to [MapBuiltins], [MooMap]: map values: reference-counted trees,
      copied when shared; [repr] relates a store to abstract maps.  [MooMap]
      instantiates the keys with MOO values and [compare].
    - [CString], [Value]: C strings, [str_hash], [verbcasecmp]; the values of the
      language, their types, comparison and equality (utils.cc).
    - [Streams], [StrUtils], [Base64], [SymTable]: streams.cc, string functions
      of utils.cc, base64.cc and sym_table.cc.
    - [ListCode] to [ListFun], [MooList]: list values of list.cc and
      collection.cc with exact reference counts ([ListFree.owns]) and the built-ins
      on lists; the operations update in place exactly when they own the list.
    - [ObjCode] to [ObjRecycle], [ObjQuery], [Objects], [ObjMore]: the object
      table of db_objects.cc and the built-ins of objects.cc.  [ObjGraph.db_ok] is
      the invariant: the table is one to one, parents and children and locations
      and contents are inverse and acyclic, the ancestor cache is right.  A
      built-in that calls a verb ends with [Call] and is entered again at its
      next program counter in whatever state other tasks have left.
    - [PropCode] to [Properties]: db_properties.cc, property.cc and the two
      instructions of execute.cc that read and assign properties.  A state [pdb]
      is an object table and, under the same addresses, the definitions and the
      slots of each object; [PropSpec.props_ok] is the invariant: as many slots
      as definitions along the ancestors, in their order.
    - [NumCode], [Numbers]: numbers.cc on 64-bit integers and binary64 floats.
    - [CmdCode] to [Commands]: parse_cmd.cc, match.cc and the prepositions of
      db_verbs.cc.
    - [VerbCode] to [Verbs]: the verbs of db_verbs.cc with their cache, and
      verbs.cc.  A state [vdb] is an object table, the list of verbs of each
      object and the cache, an array of chains.  [VerbSpec.resolves] is the
      search that a call means; [VerbSpec.verbs_ok] says that every entry of the
      cache is an answer of it.

    - [TaskCode] to [Tasks]: the queues of tasks.cc.  The input of a queue is two
      threads of pointers in a heap ([TaskInput.threads]), which implement a
      list; [TaskSpec.sched] is the invariant of all queues, [TaskKeep.keeps] what
      a call leaves of their order.  A [TaskCall.call] is what other code may do
      and [TaskCall.may] the calls that the theorems speak of;
      the machine that runs a task is a function that makes any such calls.
      [TaskFun.passes] and [TaskFun.runs] say which task a queue runs next,
      without the queues' pointers.

    - [GcCode] to [Garbage]: garbage.cc.  A state [gcst] is a heap of the values
      that can form cycles, with the colour, mark and count of each, the list of
      possible roots and the queue of objects to recycle.  [GcSearch.search] is
      the search that four of the collector's functions are; [Garbage.garbage]
      is what they look for, in terms of references alone, and
      [Garbage.gc_ok] the invariant between two runs.

    - [DbCode], [DbIO], [DbFile]: the text of the database, of db_io.cc and
      db_file.cc.  A [wst] is what has been written and the numbers that
      anonymous objects got, an [rst] the rest of the file and the table that
      is filled; [DbioEnv] and [DbioLaws] are what they need of [printf],
      [strtod], waifs and iterators.  [DbIO.Writes] and [DbIO.Reads] say what a
      computation writes and reads, given the numbers of the objects, and the
      rules for them compose the round trips of [DbFile].  [ObjCheck] is the
      check of the hierarchies of the loaded table; what it accepts is compared
      with the invariant of the object table.

    The components meet in the values ([Value.Var]), in the object table and in
    the strings; maps of values rest on [Value.compare], properties on the
    traversals of the objects, verbs on the parents of objects and on the
    commands' prepositions, commands on the contents of objects.

    ** Theorems

    Refinement of the tree, of its iterator and of map and list values to sequences; the
    invariants of the object table, of the property slots, of the verb cache
    and of the queues of tasks over sequences of calls, with tasks
    interleaved; which task a pass over the queues runs; that a queue is
    served after a bounded number of runs, when each takes a second or more; that a
    run of the collector on recyclable garbage ends, what it queues and what it leaves of the counts; for each built-in its errors, each
    exactly under its condition, its effect and what it leaves alone; round trips
    (base 64, raw bytes, numbers, words of a command, assignment of a property, arguments of a
    verb, values and objects in a database file); the transparency of the cache of verbs;
    termination of the loops that have no counter; bounds of the iterator's
    path; the wrap-around of integer arithmetic and undefined behaviour (a
    negative shift, a stale [errno], a cast out of range).

    Where an invariant does not hold after every call, the comment of its
    theorem says which calls are left out, and an example shows what they do:
    [ObjMore.recreate_own_parent] (an object that becomes its own parent),
    [Tasks.switch_player_loses_tasks] and [Tasks.clock_back_crashes],
    [Verbs.call_identity] (a word that is the string of a verb's names),
    [Garbage.gc_asserts_recycled] and [Garbage.gc_takes_referenced] (garbage
    that leads to what is not),
    [MooMap.wide_keys_collide] and [MooMap.bool_key_lost] (keys that [compare]
    does not order), [Properties.chparent_diamond_fails].

    ** Fuel and parameters

    A loop whose end is not structural takes fuel.  [None] from lack of fuel is
    excluded by theorems that bound it: the height of a tree, the size of the
    object table ([ObjGraph.walk_fuel]) for traversals, the length of a string,
    the number of tasks of input or of queues, the size of the heap of the
    collector ([GcCode.gc_fuel]), the levels of a value and the length of its
    text, the number of anonymous objects for the batches of a database file.
    Theorems take [fuel] as any number above that bound.  Parameters stand for
    what is not under src/ or not modelled: [strtod] and the transcendental
    functions of the C library, with the facts used of them as hypotheses that a
    witness discharges; [call_verb] and the interleaving of other tasks;
    [check_properties] in the object table alone ([PropCode] defines it);
    [run_task], the machine, and [external_kill], the queues of other modules;
    the time of day and the seconds that a task takes, which are no less than 0;
    [last_move], the time of the last move of an object; [option_cached], the
    cached server options; the aliases of an object, read from its properties by
    a command; the generated parser and the addresses of
    strings and objects for verbs.  The order in which a set of anonymous objects is enumerated is
    that of [gset].

    ** Not modelled

    The compiler and the virtual machine but for the instructions named above,
    of tasks the parsing of HTTP, .program, the lists that queued_tasks makes and
    the saved queue, of reference counting what frees a value and makes it a
    possible root of the collector ([gc_possible_root] itself is), waifs, input and output, of
    database files the header, the users, version 4, the programs
    and the checkpoint process, string interning, the bindings to libraries and the vendored
    code: the manifest lists each with its files.  Memory is not bounded and
    [malloc] does not fail.  The cached size of a value is left out, and the colours of the
    collector but for [GcCode]; the assertions of the code are failures of the model,
    as in a build that has them. *)
From Stdlib Require Import ZArith Lia.
From stdpp Require Import prelude gmap.

Local Open Scope Z_scope.

(** ** Machine integers *)

(** Two's complement wrap-around of [z] at [w] bits: what the compiled code
    leaves in a [w]-bit signed integer. *)
Definition wrapS (w z : Z) : Z := (z + 2 ^ (w - 1)) `mod` 2 ^ w - 2 ^ (w - 1).
Definition wrapU (w z : Z) : Z := z `mod` 2 ^ w.

(** [int], [unsigned], [Num] (int64_t) and [UNum] of the source. *)
Definition to_int (z : Z) : Z := wrapS 32 z.
Definition to_uint (z : Z) : Z := wrapU 32 z.
Definition to_num (z : Z) : Z := wrapS 64 z.
Definition to_unum (z : Z) : Z := wrapU 64 z.

Lemma wrapS_id w z : 0 < w -> - 2 ^ (w - 1) <= z < 2 ^ (w - 1) -> wrapS w z = z.
Proof.
  intros Hw Hz. unfold wrapS.
  assert (2 ^ w = 2 * 2 ^ (w - 1)) as E.
  { rewrite <- Z.pow_succ_r by lia. f_equal. lia. }
  rewrite Z.mod_small by lia. lia.
Qed.

Lemma wrapS_range w z : 0 < w -> - 2 ^ (w - 1) <= wrapS w z < 2 ^ (w - 1).
Proof.
  intros Hw. unfold wrapS.
  assert (2 ^ w = 2 * 2 ^ (w - 1)) as E.
  { rewrite <- Z.pow_succ_r by lia. f_equal. lia. }
  pose proof (Z.mod_pos_bound (z + 2 ^ (w - 1)) (2 ^ w) ltac:(lia)). lia.
Qed.

Lemma wrapS_mod w z : 0 < w -> wrapS w z `mod` 2 ^ w = z `mod` 2 ^ w.
Proof.
  intros Hw. unfold wrapS.
  rewrite Zminus_mod_idemp_l. f_equal. lia.
Qed.

Lemma wrapU_range w z : 0 <= w -> 0 <= wrapU w z < 2 ^ w.
Proof. intros. apply Z.mod_pos_bound. lia. Qed.

Lemma wrapU_id w z : 0 <= z < 2 ^ w -> wrapU w z = z.
Proof. intros. apply Z.mod_small. lia. Qed.

(** ** Memory *)

(** Addresses of heap cells; a C pointer is an [option loc], with [None]
    for the null pointer. *)
Abbreviation loc := positive (only parsing).
Abbreviation ptr := (option positive) (only parsing).

(** ** The memory monad

    A computation over a store [S] either produces a result and a new store,
    or has no result: a null or dangling pointer was dereferenced, a
    [panic_moo] was reached, or the fuel of a loop ran out.  Theorems about a
    computation show that it equals [Some _], so none of these happens. *)
Definition M (S A : Type) : Type := S -> option (A * S).

Section monad.
Context {S : Type}.

Definition mreturn {A} (x : A) : M S A := fun s => Some (x, s).
Definition mfail {A} : M S A := fun _ => None.
Definition mbindM {A B} (m : M S A) (k : A -> M S B) : M S B :=
  fun s => match m s with Some (x, s') => k x s' | None => None end.
Definition mget : M S S := fun s => Some (s, s).
Definition mput (s : S) : M S unit := fun _ => Some (tt, s).

Lemma mbind_Some {A B} (m : M S A) (k : A -> M S B) s x s' :
  m s = Some (x, s') -> mbindM m k s = k x s'.
Proof. unfold mbindM. by intros ->. Qed.

Lemma mbind_assoc {A B C} (m : M S A) (k : A -> M S B) (j : B -> M S C) s :
  mbindM (mbindM m k) j s = mbindM m (fun x => mbindM (k x) j) s.
Proof. unfold mbindM. by destruct (m s) as [[x s']|]. Qed.
Lemma mbind_inv {A B} (m : M S A) (k : A -> M S B) s y s2 :
  mbindM m k s = Some (y, s2) -> exists x s1, m s = Some (x, s1) /\ k x s1 = Some (y, s2).
Proof. unfold mbindM. destruct (m s) as [[x s1]|]; [eauto|done]. Qed.
End monad.

Declare Scope moo_scope.
Delimit Scope moo_scope with moo.
Notation "'let!' x := m 'in' k" := (mbindM m (fun x => k))
  (at level 10, x pattern, m at level 100, k at level 200, only parsing) : moo_scope.
Notation "m ;; k" := (mbindM m (fun _ => k))
  (at level 100, right associativity, only parsing) : moo_scope.

(** [agree P m m']: the two memories have the same cells allocated and
    differ at most at addresses in [P]. *)
Definition agree {A} (P : positive -> Prop) (m m' : gmap positive A) : Prop :=
  forall l, (~ P l -> m' !! l = m !! l) /\ (is_Some (m' !! l) <-> is_Some (m !! l)).

Lemma agree_refl {A} P (m : gmap positive A) : agree P m m.
Proof. done. Qed.

Lemma agree_trans {A} (P Q R : positive -> Prop) (m1 m2 m3 : gmap positive A) :
  agree P m1 m2 -> agree Q m2 m3 -> (forall l, P l \/ Q l -> R l) -> agree R m1 m3.
Proof.
  intros H1 H2 HR l. destruct (H1 l) as [E1 D1], (H2 l) as [E2 D2]. split.
  - intros Hl. rewrite E2, E1; [done|naive_solver..].
  - by rewrite D2.
Qed.

Lemma agree_insert {A} (P : positive -> Prop) (m : gmap positive A) l x y :
  m !! l = Some y -> P l -> agree P m (<[l:=x]> m).
Proof.
  intros Hy Hl l'. destruct (decide (l = l')) as [->|].
  - rewrite lookup_insert_eq, Hy. naive_solver.
  - by rewrite lookup_insert_ne.
Qed.

Lemma agree_weaken {A} (P Q : positive -> Prop) (m m' : gmap positive A) :
  agree P m m' -> (forall l, P l -> Q l) -> agree Q m m'.
Proof. intros H HPQ l. destruct (H l). naive_solver. Qed.

Lemma agree_insert2 {A} (P : positive -> Prop) (m m' : gmap positive A) l x y :
  agree P m m' -> m' !! l = Some y -> P l -> agree P m (<[l:=x]> m').
Proof.
  intros H Hy Hl. eapply agree_trans; [exact H|by eapply agree_insert|naive_solver].
Qed.

(** ** Tactics *)

(** Splits conjunctions in the hypotheses. *)
Ltac split_hyps :=
  repeat match goal with
         | H : _ /\ _ |- _ => destruct H
         | H : exists _, _ |- _ => destruct H
         end.

(** Case analysis on every [if] and [match] of the goal whose scrutinee is
    not itself a match. *)
Ltac case_all :=
  repeat (case_match; simplify_eq/=; try done).
