(* ===== verification/RBCode.v ===== *)
(** * The red-black tree of map.cc, as pointer code over a heap

    Each definition transcribes one static function of [src/src/map.cc]
    (lines 60 to 530).  The heap maps addresses to [rbnode] structures; a
    dereference of a null or unmapped address has no result.  Loops carry
    fuel; [RBInsert], [RBErase] and [RBTraverse] show how much is enough. *)
From Stdlib Require Import ZArith Lia.
From stdpp Require Import prelude gmap.
From S2P Require Import Prelude.

Local Open Scope Z_scope.
Local Open Scope moo_scope.

(** [struct rbnode]: [red] is true for 1, [link0]/[link1] are [link[0]] and
    [link[1]]. *)
Record rbnode {K V : Type} := mk_rbnode {
  key : K; value : V; red : bool; link0 : ptr; link1 : ptr }.
Arguments rbnode : clear implicits.
Arguments mk_rbnode {K V}.

(** [struct rbtree] *)
Record rbtree := mk_rbtree { root : ptr; size : Z }.

(** [struct rbtrav]: [path] holds [path[0..top-1]], most recent first, so
    [top] is its length. *)
Record rbtrav := mk_rbtrav { it : ptr; path : list loc }.

Definition HEIGHT_LIMIT : nat := 64.

Section code.
Context {K V : Type}.
Abbreviation heap := (gmap loc (rbnode K V)).

(** [node_compare]'s call of [compare]: [cmp cm a b] with [cm] the
    [case_matters] flag. *)
Variable cmp : bool -> K -> K -> Z.

(** The zero-initialised key and value of [rbnode head = {}]. *)
Variable key0 : K.
Variable value0 : V.

(** *** Reads and writes through a node pointer *)

Definition deref (p : ptr) : M heap (rbnode K V) := fun h =>
  match p with
  | Some a => match h !! a with Some n => Some (n, h) | None => None end
  | None => None
  end.

Definition store (p : ptr) (n : rbnode K V) : M heap unit := fun h =>
  match p with
  | Some a => match h !! a with Some _ => Some (tt, <[a:=n]> h) | None => None end
  | None => None
  end.

(** [n.link[d]], with [d = false] for index 0 *)
Definition link (n : rbnode K V) (d : bool) : ptr := if d then link1 n else link0 n.

Definition with_link (n : rbnode K V) (d : bool) (p : ptr) : rbnode K V :=
  if d then mk_rbnode (key n) (value n) (red n) (link0 n) p
  else mk_rbnode (key n) (value n) (red n) p (link1 n).

Definition with_red (n : rbnode K V) (c : bool) : rbnode K V :=
  mk_rbnode (key n) (value n) c (link0 n) (link1 n).

Definition with_data (n : rbnode K V) (k : K) (v : V) : rbnode K V :=
  mk_rbnode k v (red n) (link0 n) (link1 n).

Definition get_link (p : ptr) (d : bool) : M heap ptr :=
  let! n := deref p in mreturn (link n d).
Definition set_link (p : ptr) (d : bool) (q : ptr) : M heap unit :=
  let! n := deref p in store p (with_link n d q).
Definition set_red (p : ptr) (c : bool) : M heap unit :=
  let! n := deref p in store p (with_red n c).

(** pointer equality *)
Definition ptr_eqb (p q : ptr) : bool := bool_decide (p = q).
Definition is_null (p : ptr) : bool := ptr_eqb p None.

(** [myfree(p, M_NODE)] *)
Definition free_node (p : ptr) : M heap unit := fun h =>
  match p with
  | Some a => match h !! a with Some _ => Some (tt, delete a h) | None => None end
  | None => None
  end.

Definition node_compare (cm : bool) (p : ptr) (k : K) : M heap Z :=
  let! n := deref p in mreturn (cmp cm (key n) k).

Definition is_red (p : ptr) : M heap bool :=
  match p with
  | None => mreturn false
  | Some _ => let! n := deref p in mreturn (red n)
  end.

(** *** Rotations *)

Definition rbsingle (root : ptr) (dir : bool) : M heap ptr :=
  let! save := get_link root (negb dir) in
  let! sl := get_link save dir in
  set_link root (negb dir) sl ;;
  set_link save dir root ;;
  set_red root true ;;
  set_red save false ;;
  mreturn save.

Definition rbdouble (root : ptr) (dir : bool) : M heap ptr :=
  let! c := get_link root (negb dir) in
  let! c' := rbsingle c (negb dir) in
  set_link root (negb dir) c' ;;
  rbsingle root dir.

(** [mymalloc] returns an address that is not in use. *)
Definition new_node (k : K) (v : V) : M heap ptr := fun h =>
  let a := fresh (dom h) in
  Some (Some a, <[a := mk_rbnode k v true None None]> h).

Definition rbnew : rbtree := mk_rbtree None 0.

(** *** Release of a tree *)

Fixpoint rbdelete_loop (fuel : nat) (it : ptr) : M heap unit :=
  match fuel with
  | O => mfail
  | S fuel =>
    match it with
    | None => mreturn tt
    | Some _ =>
      let! l := get_link it false in
      match l with
      | None =>
        let! save := get_link it true in
        free_node it ;;
        rbdelete_loop fuel save
      | Some _ =>
        let! save := get_link it false in
        let! sl := get_link save true in
        set_link it false sl ;;
        set_link save true it ;;
        rbdelete_loop fuel save
      end
    end
  end.

Definition rbdelete (fuel : nat) (t : rbtree) : M heap unit :=
  rbdelete_loop fuel (root t).

(** *** Search *)

Fixpoint rbfind_loop (fuel : nat) (it : ptr) (k : K) (cm : bool) : M heap ptr :=
  match fuel with
  | O => mfail
  | S fuel =>
    match it with
    | None => mreturn None
    | Some _ =>
      let! c := node_compare cm it k in
      if c =? 0 then mreturn it
      else
        let! c' := (if cm then node_compare false it k else mreturn c) in
        let! it' := get_link it (c' <? 0) in
        rbfind_loop fuel it' k cm
    end
  end.

Definition rbfind (fuel : nat) (t : rbtree) (k : K) (cm : bool) : M heap ptr :=
  rbfind_loop fuel (root t) k cm.

(** [trav->path[trav->top++] = p]: out of the array's bounds when
    [top = HEIGHT_LIMIT]. *)
Definition push_path (p : ptr) (path : list loc) : M heap (list loc) :=
  match p with
  | Some a => if decide (length path < HEIGHT_LIMIT)%nat then mreturn (a :: path) else mfail
  | None => mfail
  end.

Fixpoint rbseek_loop (fuel : nat) (tr : rbtrav) (k : K) (cm : bool) : M heap rbtrav :=
  match fuel with
  | O => mfail
  | S fuel =>
    match it tr with
    | None => mreturn tr
    | Some _ =>
      let! c := node_compare cm (it tr) k in
      if c =? 0 then mreturn tr
      else
        let! path' := push_path (it tr) (path tr) in
        let! it' := get_link (it tr) (c <? 0) in
        rbseek_loop fuel (mk_rbtrav it' path') k cm
    end
  end.

(** A null result stands for the freed traversal object. *)
Definition rbseek (fuel : nat) (t : rbtree) (k : K) (cm : bool) : M heap (option rbtrav) :=
  let! tr := rbseek_loop fuel (mk_rbtrav (root t) []) k cm in
  mreturn (match it tr with None => None | Some _ => Some tr end).
(** *** Insertion *)

(** The local variables of [rbinsert]'s search loop. *)
Record ins_locals := mk_ins {
  i_t : ptr; i_g : ptr; i_p : ptr; i_q : ptr; i_dir : bool; i_last : bool }.

(** First part of an iteration: insert at a null link, or flip colours.
    Returns the new value of [q]. *)
Definition ins_visit (st : ins_locals) (k : K) (v : V) : M heap ptr :=
  match i_q st with
  | None =>
    let! q := new_node k v in
    set_link (i_p st) (i_dir st) q ;;
    mreturn q
  | Some _ =>
    let! l := get_link (i_q st) false in
    let! r := get_link (i_q st) true in
    let! rl := is_red l in
    let! rr := (if rl then is_red r else mreturn false) in
    (if rr then
       set_red (i_q st) true ;;
       set_red l false ;;
       set_red r false
     else mreturn tt) ;;
    mreturn (i_q st)
  end.

(** Second part: rotate on a hard red violation. *)
Definition ins_fix (st : ins_locals) (q : ptr) : M heap unit :=
  let! rq := is_red q in
  let! rp := (if rq then is_red (i_p st) else mreturn false) in
  if rp then
    let! tl := get_link (i_t st) true in
    let dir2 := ptr_eqb tl (i_g st) in
    let! pl := get_link (i_p st) (i_last st) in
    let! n := (if ptr_eqb q pl
               then rbsingle (i_g st) (negb (i_last st))
               else rbdouble (i_g st) (negb (i_last st))) in
    set_link (i_t st) dir2 n
  else mreturn tt.

Fixpoint ins_loop (fuel : nat) (st : ins_locals) (k : K) (v : V) : M heap unit :=
  match fuel with
  | O => mfail
  | S fuel =>
    let! q := ins_visit st k v in
    ins_fix st q ;;
    let! c := node_compare false q k in
    if c =? 0 then mreturn tt
    else
      let! c' := node_compare false q k in
      let dir := c' <? 0 in
      let t := if is_null (i_g st) then i_t st else i_g st in
      let! q' := get_link q dir in
      ins_loop fuel (mk_ins t (i_p st) q q' dir (i_dir st)) k v
  end.

(** [rbnode head = {}] on the stack, released on return *)
Definition with_head {A} (f : loc -> M heap A) : M heap A := fun h =>
  let a := fresh (dom h) in
  match f a (<[a := mk_rbnode key0 value0 false None None]> h) with
  | Some (x, h') => Some (x, delete a h')
  | None => None
  end.

(** [tree->root->red = 0; ++tree->size; return 1;] *)
Definition rbinsert (fuel : nat) (tree : rbtree) (k : K) (v : V) : M heap (Z * rbtree) :=
  let! r :=
    (if is_null (root tree) then new_node k v
     else with_head (fun head =>
            set_link (Some head) true (root tree) ;;
            ins_loop fuel
              (mk_ins (Some head) None None (root tree) false false) k v ;;
            get_link (Some head) true)) in
  set_red r false ;;
  mreturn (1, mk_rbtree r (size tree + 1)).

(** *** Removal *)

Record era_locals := mk_era {
  e_q : ptr; e_p : ptr; e_g : ptr; e_f : ptr; e_dir : bool }.

(** The part of an iteration that pushes a red node down.  [q], [p], [g]
    and [dir] have their new values, [last] is the previous [dir].
    Returns the new value of [p].  [era_sibling] is the branch in which
    both children of [q] are black. *)
Definition era_sibling (q p g : ptr) (last : bool) : M heap ptr :=
  let! s := get_link p (negb last) in
  match s with
  | None => mreturn p
  | Some _ =>
    let! snl := get_link s (negb last) in
    let! rsn := is_red snl in
    let! sl := get_link s last in
    let! rsl := is_red sl in
    if negb rsn && negb rsl then
      set_red p false ;;
      set_red s true ;;
      set_red q true ;;
      mreturn p
    else
      let! gl := get_link g true in
      let dir2 := ptr_eqb gl p in
      (if rsl then let! n := rbdouble p last in set_link g dir2 n
       else if rsn then let! n := rbsingle p last in set_link g dir2 n
       else mreturn tt) ;;
      let! n := get_link g dir2 in
      set_red n true ;;
      set_red q true ;;
      let! n0 := get_link n false in
      set_red n0 false ;;
      let! n1 := get_link n true in
      set_red n1 false ;;
      mreturn p
  end.

Definition era_push (q p g : ptr) (dir last : bool) : M heap ptr :=
  let! rq := is_red q in
  if rq then mreturn p else
  let! qd := get_link q dir in
  let! rqd := is_red qd in
  if rqd then mreturn p else
  let! qn := get_link q (negb dir) in
  let! rqn := is_red qn in
  if rqn then
    let! n := rbsingle q dir in
    set_link p last n ;;
    mreturn n
  else era_sibling q p g last.

Fixpoint era_loop (fuel : nat) (st : era_locals) (k : K) : M heap era_locals :=
  match fuel with
  | O => mfail
  | S fuel =>
    let! nx := get_link (e_q st) (e_dir st) in
    match nx with
    | None => mreturn st
    | Some _ =>
      let last := e_dir st in
      let g := e_p st in
      let p := e_q st in
      let q := nx in
      let! c := node_compare false q k in
      let dir := c <? 0 in
      let! c' := node_compare false q k in
      let f := if c' =? 0 then q else e_f st in
      let! p' := era_push q p g dir last in
      era_loop fuel (mk_era q p' g f dir) k
    end
  end.

(** Replace and remove the saved node; the new size and the return value *)
Definition era_remove (st : era_locals) (size : Z) : M heap (Z * Z) :=
  match e_f st with
  | Some _ =>
    let! nq := deref (e_q st) in
    let! nf := deref (e_f st) in
    store (e_f st) (with_data nf (key nq) (value nq)) ;;
    let! p1 := get_link (e_p st) true in
    let! q0 := get_link (e_q st) false in
    let! c := get_link (e_q st) (is_null q0) in
    set_link (e_p st) (ptr_eqb p1 (e_q st)) c ;;
    free_node (e_q st) ;;
    mreturn (1, size - 1)
  | None => mreturn (0, size)
  end.

Definition rberase (fuel : nat) (tree : rbtree) (k : K) : M heap (Z * rbtree) :=
  if is_null (root tree) then mreturn (0, tree)
  else
    let! (ret, sz, r) :=
      with_head (fun head =>
        set_link (Some head) true (root tree) ;;
        let! st := era_loop fuel (mk_era (Some head) None None None true) k in
        let! (ret, sz) := era_remove st (size tree) in
        let! r := get_link (Some head) true in
        mreturn (ret, sz, r)) in
    (if is_null r then mreturn tt else set_red r false) ;;
    mreturn (ret, mk_rbtree r sz).

(** *** Traversal *)

(** Follows [link[dir]] to the last node, saving the path. *)
Fixpoint descend (fuel : nat) (tr : rbtrav) (dir : bool) : M heap rbtrav :=
  match fuel with
  | O => mfail
  | S fuel =>
    let! l := get_link (it tr) dir in
    match l with
    | None => mreturn tr
    | Some _ =>
      let! path' := push_path (it tr) (path tr) in
      let! it' := get_link (it tr) dir in
      descend fuel (mk_rbtrav it' path') dir
    end
  end.

Definition rbstart (fuel : nat) (tree : rbtree) (dir : bool) : M heap rbtrav :=
  match root tree with
  | None => mreturn (mk_rbtrav None [])
  | Some _ => descend fuel (mk_rbtrav (root tree) []) dir
  end.

(** The [do ... while] loop that climbs to the next branch. *)
Fixpoint climb (last : ptr) (path : list loc) (dir : bool) : M heap rbtrav :=
  match path with
  | [] => mreturn (mk_rbtrav None [])
  | a :: path' =>
    let! l := get_link (Some a) dir in
    if ptr_eqb last l then climb (Some a) path' dir
    else mreturn (mk_rbtrav (Some a) path')
  end.

Definition rbmove (fuel : nat) (tr : rbtrav) (dir : bool) : M heap rbtrav :=
  let! l := get_link (it tr) dir in
  match l with
  | Some _ =>
    let! path' := push_path (it tr) (path tr) in
    let! it' := get_link (it tr) dir in
    descend fuel (mk_rbtrav it' path') (negb dir)
  | None => climb (it tr) (path tr) dir
  end.

Definition rbtfirst (fuel : nat) (tree : rbtree) : M heap rbtrav := rbstart fuel tree false.
Definition rbtlast (fuel : nat) (tree : rbtree) : M heap rbtrav := rbstart fuel tree true.
Definition rbtnext (fuel : nat) (tr : rbtrav) : M heap rbtrav := rbmove fuel tr true.
Definition rbtprev (fuel : nat) (tr : rbtrav) : M heap rbtrav := rbmove fuel tr false.

(** [for (pnode = rbtfirst(&trav, tree); pnode; pnode = rbtnext(&trav))],
    collecting the nodes visited *)
Fixpoint walk (fuel : nat) (tr : rbtrav) : M heap (list (K * V)) :=
  match fuel with
  | O => mfail
  | S fuel =>
    match it tr with
    | None => mreturn []
    | Some _ =>
      let! n := deref (it tr) in
      let! tr' := rbtnext fuel tr in
      let! rest := walk fuel tr' in
      mreturn ((key n, value n) :: rest)
    end
  end.

Definition rbwalk (fuel : nat) (tree : rbtree) : M heap (list (K * V)) :=
  let! tr := rbtfirst fuel tree in walk fuel tr.
End code.
