(* ===== verification/RBTree.v ===== *)
(** * Trees in the heap, contexts, and the rotations

    The abstract side of [RBCode]: trees whose nodes carry their address,
    contexts (the path from the root to a node), the predicate that a heap
    holds a tree, and what each pointer operation does to it.  Everything
    here is independent of the key order. *)
From Stdlib Require Import ZArith Lia.
From stdpp Require Import prelude gmap.
From S2P Require Import Prelude RBCode.

Local Open Scope Z_scope.
Local Open Scope moo_scope.

Section tree.
Context {K V : Type}.
Abbreviation heap := (gmap loc (rbnode K V)).
Implicit Types (h : heap) (d c : bool) (a b : loc) (p q : ptr).

(** ** Trees *)

Inductive tree : Type :=
| E
| T (c : bool) (l : tree) (a : loc) (k : K) (v : V) (r : tree).

Definition root_of (t : tree) : ptr :=
  match t with E => None | T _ _ a _ _ _ => Some a end.
Definition tred (t : tree) : bool :=
  match t with E => false | T c _ _ _ _ _ => c end.

(** Occurrences of an address in a tree: address arguments become linear
    arithmetic. *)
Definition one (x a : loc) : nat := if decide (x = a) then 1%nat else 0%nat.
Fixpoint occ (x : loc) (t : tree) : nat :=
  match t with E => 0 | T _ l a _ _ r => one x a + occ x l + occ x r end.
Definition uniq (t : tree) : Prop := forall x, (occ x t <= 1)%nat.

Fixpoint elems (t : tree) : list (K * V) :=
  match t with E => [] | T _ l _ k v r => elems l ++ (k, v) :: elems r end.

(** The node with child [x] in direction [d] and child [y] in the other. *)
Definition mkT d c a (k : K) (v : V) (x y : tree) : tree :=
  if d then T c y a k v x else T c x a k v y.
Definition mkN d c (k : K) (v : V) p q : rbnode K V :=
  if d then mk_rbnode k v c q p else mk_rbnode k v c p q.

Fixpoint rep h (t : tree) : Prop :=
  match t with
  | E => True
  | T c l a k v r =>
    h !! a = Some (mk_rbnode k v c (root_of l) (root_of r)) /\ rep h l /\ rep h r
  end.

Lemma root_of_mkT d c a k v x y : root_of (mkT d c a k v x y) = Some a.
Proof. by destruct d. Qed.
Lemma tred_mkT d c a k v x y : tred (mkT d c a k v x y) = c.
Proof. by destruct d. Qed.
Lemma rep_mkT h d c a k v x y :
  rep h (mkT d c a k v x y) <->
  h !! a = Some (mkN d c k v (root_of x) (root_of y)) /\ rep h x /\ rep h y.
Proof. destruct d; simpl; tauto. Qed.
Lemma occ_mkT l d c a k v x y :
  occ l (mkT d c a k v x y) = (one l a + occ l x + occ l y)%nat.
Proof. destruct d; simpl; lia. Qed.
Lemma one_same a : one a a = 1%nat.
Proof. unfold one. by rewrite decide_True. Qed.
Lemma one_pos x a : one x a <> 0%nat <-> x = a.
Proof. unfold one. case_decide; naive_solver. Qed.
Lemma T_mkT d c l a k v r :
  T c l a k v r = mkT d c a k v (if d then r else l) (if d then l else r).
Proof. by destruct d. Qed.

Lemma mkT_swap d c a k v x y : mkT (negb d) c a k v x y = mkT d c a k v y x.
Proof. by destruct d. Qed.
Lemma mkN_swap d c k v p q : mkN (negb d) c k v p q = mkN d c k v q p.
Proof. by destruct d. Qed.
Lemma mkT_inj d c a k v x y d' c' a' k' v' x' y' :
  mkT d c a k v x y = mkT d' c' a' k' v' x' y' ->
  c = c' /\ a = a' /\ k = k' /\ v = v' /\ (d = d' -> x = x' /\ y = y').
Proof. destruct d, d'; simpl; intros; simplify_eq; split_and!; intros; simplify_eq; done. Qed.
(** Every nonempty tree, seen from direction [d] *)
Lemma tree_dir d t :
  t <> E -> exists c a k v x y, t = mkT d c a k v x y.
Proof. destruct t as [|c l a k v r]; [done|]. intros _. rewrite (T_mkT d). eauto 10. Qed.

Fixpoint nodes (t : tree) : nat :=
  match t with E => 0 | T _ l _ _ _ r => S (nodes l + nodes r) end.
Lemma nodes_mkT d c a k v x y : nodes (mkT d c a k v x y) = S (nodes x + nodes y).
Proof. destruct d; simpl; lia. Qed.
Lemma nodes_elems t : length (elems t) = nodes t.
Proof. induction t; simpl; rewrite ?length_app; simpl; lia. Qed.

Lemma link_mkN_same d c k v p q : link (mkN d c k v p q) d = p.
Proof. by destruct d. Qed.
Lemma link_mkN_other d c k v p q : link (mkN d c k v p q) (negb d) = q.
Proof. by destruct d. Qed.
Lemma link_mkN_negb d c k v p q : link (mkN (negb d) c k v p q) d = q.
Proof. by destruct d. Qed.
Lemma with_link_mkN_same d c k v p q r :
  with_link (mkN d c k v p q) d r = mkN d c k v r q.
Proof. by destruct d. Qed.
Lemma with_link_mkN_other d c k v p q r :
  with_link (mkN d c k v p q) (negb d) r = mkN d c k v p r.
Proof. by destruct d. Qed.
Lemma with_link_mkN_negb d c k v p q r :
  with_link (mkN (negb d) c k v p q) d r = mkN (negb d) c k v p r.
Proof. by destruct d. Qed.
Lemma with_red_mkN d c c' k v p q :
  with_red (mkN d c k v p q) c' = mkN d c' k v p q.
Proof. by destruct d. Qed.
Lemma red_mkN d c k v p q : red (mkN d c k v p q) = c.
Proof. by destruct d. Qed.
Lemma key_mkN d c k v p q : key (mkN d c k v p q) = k.
Proof. by destruct d. Qed.
Lemma value_mkN d c k v p q : value (mkN d c k v p q) = v.
Proof. by destruct d. Qed.

Lemma root_of_Some t a : root_of t = Some a -> (1 <= occ a t)%nat.
Proof. destruct t; simpl; intros; simplify_eq. rewrite one_same. lia. Qed.

Lemma rep_agree h h' t P :
  rep h t -> agree P h h' -> (forall l, P l -> occ l t = 0%nat) -> rep h' t.
Proof.
  intros Ht HX. induction t as [|c l IHl a k v r IHr]; simpl in *; [done|].
  intros Hd. destruct Ht as (Ha & Hl & Hr).
  rewrite (proj1 (HX _)) by (intros HP; specialize (Hd _ HP); rewrite one_same in Hd; lia).
  split_and!; [done|apply IHl|apply IHr]; try done; intros l' HP; specialize (Hd _ HP); lia.
Qed.

(** ** Primitive operations *)

Lemma deref_eq h a n : h !! a = Some n -> deref (Some a) h = Some (n, h).
Proof. unfold deref. by intros ->. Qed.
Lemma store_eq h a n n' : h !! a = Some n -> store (Some a) n' h = Some (tt, <[a:=n']> h).
Proof. unfold store. by intros ->. Qed.
Lemma get_link_eq h a d n : h !! a = Some n -> get_link (Some a) d h = Some (link n d, h).
Proof. intros H. unfold get_link. by rewrite (mbind_Some _ _ _ _ _ (deref_eq _ _ _ H)). Qed.
Lemma set_link_eq h a d q n :
  h !! a = Some n -> set_link (Some a) d q h = Some (tt, <[a:=with_link n d q]> h).
Proof.
  intros H. unfold set_link. rewrite (mbind_Some _ _ _ _ _ (deref_eq _ _ _ H)).
  by apply (store_eq _ _ n).
Qed.
Lemma set_red_eq h a c n :
  h !! a = Some n -> set_red (Some a) c h = Some (tt, <[a:=with_red n c]> h).
Proof.
  intros H. unfold set_red. rewrite (mbind_Some _ _ _ _ _ (deref_eq _ _ _ H)).
  by apply (store_eq _ _ n).
Qed.
Lemma is_red_eq h t : rep h t -> is_red (root_of t) h = Some (tred t, h).
Proof.
  destruct t; simpl; [done|]. intros (Ha & _).
  by rewrite (mbind_Some _ _ _ _ _ (deref_eq _ _ _ Ha)).
Qed.
Lemma is_red_at h a n : h !! a = Some n -> is_red (Some a) h = Some (red n, h).
Proof. intros H. unfold is_red. by rewrite (mbind_Some _ _ _ _ _ (deref_eq _ _ _ H)). Qed.
End tree.
Arguments tree : clear implicits.

(** ** Symbolic execution

    [mlook] finds the cell at an address in a chain of updates; [mspec]
    closes the specification of one primitive; [mstep] executes the first
    primitive of a computation. *)
Ltac mlook :=
  first [ eassumption
        | apply lookup_insert_eq
        | rewrite lookup_insert_ne by congruence; mlook ].
Ltac mspec :=
  lazymatch goal with
  | |- get_link (Some _) _ _ = _ => eapply get_link_eq; mlook
  | |- set_link (Some _) _ _ _ = _ => eapply set_link_eq; mlook
  | |- set_red (Some _) _ _ = _ => eapply set_red_eq; mlook
  | |- deref (Some _) _ = _ => eapply deref_eq; mlook
  | |- is_red (Some _) _ = _ => eapply is_red_at; mlook
  | |- is_red (root_of _) _ = _ => eapply is_red_eq; eassumption
  | |- store (Some _) _ _ = _ => eapply store_eq; mlook
  | |- mreturn _ _ = _ => reflexivity
  | |- _ => eassumption
  end.
Create Rewrite HintDb rb.
#[export] Hint Rewrite @root_of_mkT @tred_mkT @link_mkN_same @link_mkN_other @link_mkN_negb
  @with_link_mkN_same @with_link_mkN_other @with_link_mkN_negb @with_red_mkN
  @red_mkN @key_mkN @value_mkN negb_involutive : rb.
Ltac mnorm := autorewrite with rb.
Ltac mstep := erewrite mbind_Some; [ | solve [mspec] ]; cbv beta; mnorm.

#[export] Hint Rewrite @occ_mkT @one_same : rb.

(** [occ_at H x]: what the uniqueness hypothesis [H] says at address [x]. *)
Ltac occ_at H x :=
  let H' := fresh "Ho" in
  pose proof (H x) as H'; cbn [occ] in H'; autorewrite with rb in H'; cbn [occ] in H'.
(** Disequality of two addresses of a tree without repetition *)
Ltac occ_ne H a := intros ->; occ_at H a; lia.

(** A subtree outside the footprint of [Hag] is kept. *)
Ltac keep_rep Hu Hag :=
  eapply rep_agree; [eassumption|exact Hag|];
  intros ? ?; cbv beta in *; destruct_or?; subst;
  match goal with |- occ ?a _ = _ => occ_at Hu a; lia end.

Section rotations.
Context {K V : Type}.
Abbreviation heap := (gmap loc (rbnode K V)).
Implicit Types (h : heap) (d c : bool) (a b : loc) (p q : ptr) (x y z : tree K V).

Lemma rbsingle_eq h d ca a ka va cb b kb vb (x y z : ptr) :
  h !! a = Some (mkN (negb d) ca ka va (Some b) z) ->
  h !! b = Some (mkN d cb kb vb x y) ->
  a <> b ->
  rbsingle (Some a) d h =
    Some (Some b, <[b:=mkN d false kb vb (Some a) y]>
                    (<[a:=mkN (negb d) true ka va x z]> h)).
Proof.
  intros Ha Hb Hab. unfold rbsingle. do 6 mstep. unfold mreturn. do 2 f_equal.
  apply map_eq. intros l.
  destruct (decide (b = l)), (decide (a = l)); simplify_map_eq; done.
Qed.

Lemma rbsingle_spec h d ca a ka va cb b kb vb x y z :
  let t := mkT (negb d) ca a ka va (mkT d cb b kb vb x y) z in
  rep h t -> uniq t ->
  exists h', rbsingle (Some a) d h = Some (Some b, h') /\
    rep h' (mkT d false b kb vb (mkT (negb d) true a ka va x z) y) /\
    agree (fun l => l = a \/ l = b) h h'.
Proof.
  intros t Ht Hu. unfold t in *. rewrite !rep_mkT in Ht. autorewrite with rb in Ht.
  destruct Ht as (Ha & (Hb & Hx & Hy) & Hz).
  assert (a <> b) as Hab by occ_ne Hu b.
  eexists. split; [by eapply rbsingle_eq|].
  match goal with |- rep ?h' _ /\ ?A => assert A as Hag end.
  { repeat first [ apply agree_refl | eapply agree_insert2; [|mlook|cbv beta; tauto] ]. }
  split; [|done]. rewrite !rep_mkT. autorewrite with rb.
  split_and!; try (by simplify_map_eq); keep_rep Hu Hag.
Qed.

Lemma rbdouble_spec h d ca a ka va cb b kb vb ce e ke ve x1 x2 y z :
  let t := mkT (negb d) ca a ka va
             (mkT d cb b kb vb (mkT d ce e ke ve x1 x2) y) z in
  rep h t -> uniq t ->
  exists h', rbdouble (Some a) d h = Some (Some e, h') /\
    rep h' (mkT d false e ke ve (mkT (negb d) true a ka va x1 z)
                                (mkT d true b kb vb x2 y)) /\
    agree (fun l => l = a \/ l = b \/ l = e) h h'.
Proof.
  intros t Ht Hu. unfold t in *. rewrite !rep_mkT in Ht. autorewrite with rb in Ht.
  destruct Ht as (Ha & (Hb & (He & Hx1 & Hx2) & Hy) & Hz).
  assert (a <> b) as Hab by occ_ne Hu b.
  assert (a <> e) as Hae by occ_ne Hu e.
  assert (b <> e) as Hbe by occ_ne Hu e.
  eexists. split.
  { unfold rbdouble. mstep.
    erewrite mbind_Some; [|apply (rbsingle_eq h (negb d) cb b kb vb ce e ke ve
       (root_of x2) (root_of x1) (root_of y)); [..|done]].
    2, 3: destruct d; assumption.
    cbv beta. mstep.
    eapply (rbsingle_eq _ d); [apply lookup_insert_eq| |done].
    rewrite lookup_insert_ne, lookup_insert_eq by done. destruct d; reflexivity. }
  match goal with |- rep ?h' _ /\ ?A => assert A as Hag end.
  { repeat first [ apply agree_refl | eapply agree_insert2; [|mlook|cbv beta; tauto] ]. }
  split; [|done]. rewrite !rep_mkT. autorewrite with rb.
  destruct d; simpl in *; split_and!; try (by simplify_map_eq); keep_rep Hu Hag.
Qed.
End rotations.

(** ** Contexts

    The path from the head node to the node the code works on: one frame per
    ancestor, the closest first.  A frame holds the direction taken and the
    subtree on the other side.  The head node [rbnode head = {}] of the code
    ends every path; its [link[1]] is the tree. *)
Record frame {K V : Type} := mk_frame {
  fd : bool; fc : bool; fa : loc; fk : K; fv : V; fo : tree K V }.
Arguments frame : clear implicits.
Arguments mk_frame {K V}.

Section contexts.
Context {K V : Type} (key0 : K) (value0 : V) (hd : loc).
Abbreviation heap := (gmap loc (rbnode K V)).
Implicit Types (h : heap) (d c : bool) (a b : loc) (p q : ptr).
Implicit Types (s t : tree K V) (f : frame K V) (ctx : list (frame K V)).

Definition plug1 f s : tree K V := mkT (fd f) (fc f) (fa f) (fk f) (fv f) s (fo f).
Fixpoint plug ctx s : tree K V :=
  match ctx with [] => s | f :: ctx' => plug ctx' (plug1 f s) end.

(** The parent of the hole and the direction from it *)
Definition cptr ctx : loc := match ctx with [] => hd | f :: _ => fa f end.
Definition cdir ctx : bool := match ctx with [] => true | f :: _ => fd f end.

Fixpoint rep_ctx h ctx p : Prop :=
  match ctx with
  | [] => h !! hd = Some (mkN true false key0 value0 p None)
  | f :: ctx' =>
    h !! fa f = Some (mkN (fd f) (fc f) (fk f) (fv f) p (root_of (fo f))) /\
    rep h (fo f) /\ rep_ctx h ctx' (Some (fa f))
  end.
Fixpoint occ_ctx (x : loc) ctx : nat :=
  match ctx with
  | [] => one x hd
  | f :: ctx' => one x (fa f) + occ x (fo f) + occ_ctx x ctx'
  end.

(** The heap holds the tree [plug ctx s] under the head node. *)
Record holds h ctx s : Prop := mk_holds {
  holds_ctx : rep_ctx h ctx (root_of s);
  holds_sub : rep h s;
  holds_uniq : forall x, (occ x s + occ_ctx x ctx <= 1)%nat }.

Lemma rep_ctx_agree h h' ctx p P :
  rep_ctx h ctx p -> agree P h h' -> (forall l, P l -> occ_ctx l ctx = 0%nat) ->
  rep_ctx h' ctx p.
Proof.
  intros Hc HX. revert p Hc. induction ctx as [|f ctx IH]; simpl; intros p Hc HP.
  - rewrite (proj1 (HX _)); [done|]. intros Hl. specialize (HP _ Hl).
    rewrite one_same in HP. lia.
  - destruct Hc as (Ha & Ho & Hc). split_and!.
    + rewrite (proj1 (HX _)); [done|]. intros Hl. specialize (HP _ Hl).
      rewrite one_same in HP. lia.
    + eapply rep_agree; [done..|]. intros l Hl. specialize (HP _ Hl). lia.
    + apply IH; [done|]. intros l Hl. specialize (HP _ Hl). lia.
Qed.

Lemma cptr_occ ctx : (1 <= occ_ctx (cptr ctx) ctx)%nat.
Proof. destruct ctx; simpl; rewrite one_same; lia. Qed.

Lemma ctx_lookup h ctx p :
  rep_ctx h ctx p ->
  exists c k v (o : tree K V), h !! cptr ctx = Some (mkN (cdir ctx) c k v p (root_of o)) /\
    forall x, (occ x o + one x (cptr ctx) <= occ_ctx x ctx)%nat.
Proof.
  destruct ctx as [|f ctx]; simpl; intros Hc.
  - exists false, key0, value0, E. split; [done|]. intros. simpl. lia.
  - destruct Hc as (Ha & Ho & Hc). eexists _, _, _, _. split; [done|]. intros. lia.
Qed.

Lemma ctx_get_link h ctx p :
  rep_ctx h ctx p -> get_link (Some (cptr ctx)) (cdir ctx) h = Some (p, h).
Proof.
  intros (c & k & v & o & Hl & _)%ctx_lookup.
  rewrite (get_link_eq _ _ _ _ Hl). by autorewrite with rb.
Qed.

Lemma ctx_set_link h ctx p q :
  rep_ctx h ctx p -> (forall x, (occ_ctx x ctx <= 1)%nat) ->
  exists h', set_link (Some (cptr ctx)) (cdir ctx) q h = Some (tt, h') /\
    rep_ctx h' ctx q /\ agree (fun l => l = cptr ctx) h h'.
Proof.
  intros Hc Hu. destruct (ctx_lookup _ _ _ Hc) as (c & k & v & o & Hl & _).
  eexists. split; [by eapply set_link_eq|]. autorewrite with rb.
  match goal with |- _ /\ ?A => assert A as Hag by (by eapply agree_insert) end.
  split; [|done]. destruct ctx as [|f ctx]; simpl in *.
  - rewrite lookup_insert_eq. simplify_map_eq. congruence.
  - destruct Hc as (Ha & Ho & Hc). simplify_map_eq. split_and!.
    + destruct (fd f); simpl in *; congruence.
    + eapply rep_agree; [done..|]. intros l ->. specialize (Hu (fa f)).
      rewrite one_same in Hu. lia.
    + eapply rep_ctx_agree; [done..|]. intros l ->. specialize (Hu (fa f)).
      rewrite one_same in Hu. lia.
Qed.

(** [dir2 = t->link[1] == g]: the test finds the side [g] hangs on. *)
Lemma ctx_dir2 h ctx g :
  rep_ctx h ctx (Some g) -> (forall x, (occ_ctx x ctx + one x g <= 1)%nat) ->
  exists p, get_link (Some (cptr ctx)) true h = Some (p, h) /\
    ptr_eqb p (Some g) = cdir ctx.
Proof.
  intros Hc Hu. destruct (ctx_lookup _ _ _ Hc) as (c & k & v & o & Hl & Ho).
  eexists. split; [by apply (get_link_eq _ _ _ _ Hl)|].
  destruct (cdir ctx); simpl; unfold ptr_eqb; [by rewrite bool_decide_true|].
  apply bool_decide_false. intros Hg%root_of_Some.
  specialize (Hu g). specialize (Ho g). rewrite one_same in Hu. lia.
Qed.

Lemma holds_cons h f ctx s :
  holds h (f :: ctx) s <-> holds h ctx (plug1 f s).
Proof.
  unfold plug1. split; intros [Hc Hs Hu]; split.
  - autorewrite with rb. apply Hc.
  - apply rep_mkT. simpl in Hc. tauto.
  - intros x. specialize (Hu x). simpl in Hu. autorewrite with rb. lia.
  - rewrite rep_mkT in Hs. autorewrite with rb in Hc. simpl. tauto.
  - rewrite rep_mkT in Hs. tauto.
  - intros x. specialize (Hu x). autorewrite with rb in Hu. simpl. lia.
Qed.

Lemma holds_plug h ctx s : holds h ctx s <-> holds h [] (plug ctx s).
Proof.
  revert s. induction ctx as [|f ctx IH]; intros s; simpl; [done|].
  by rewrite holds_cons, IH.
Qed.

Lemma holds_occ_ctx h ctx s : holds h ctx s -> forall x, (occ_ctx x ctx <= 1)%nat.
Proof. intros [_ _ Hu] x. specialize (Hu x). lia. Qed.

(** The subtree at the hole was replaced: storing its new root in the
    parent restores the tree. *)
Lemma holds_replace h h1 ctx s s' P :
  holds h ctx s -> agree P h h1 -> (forall l, P l -> occ_ctx l ctx = 0%nat) ->
  rep h1 s' -> (forall x, (occ x s' + occ_ctx x ctx <= 1)%nat) ->
  exists h2, set_link (Some (cptr ctx)) (cdir ctx) (root_of s') h1 = Some (tt, h2) /\
    holds h2 ctx s' /\ agree (fun l => l = cptr ctx) h1 h2.
Proof.
  intros [Hc Hs Hu] Hag HP Hs' Hu'.
  pose proof (rep_ctx_agree _ _ _ _ _ Hc Hag HP) as Hc1.
  destruct (ctx_set_link _ _ _ (root_of s') Hc1) as (h2 & E2 & Hc2 & Hag2).
  { intros x. specialize (Hu' x). lia. }
  exists h2. split; [done|]. split; [|done]. split; [done| |done].
  eapply rep_agree; [done..|]. intros l ->.
  pose proof (cptr_occ ctx). specialize (Hu' (cptr ctx)). lia.
Qed.

(** ** In-order sequence of a tree seen from a hole *)

Definition f_lefts f : list (K * V) :=
  if fd f then elems (fo f) ++ [(fk f, fv f)] else [].
Definition f_rights f : list (K * V) :=
  if fd f then [] else (fk f, fv f) :: elems (fo f).
Fixpoint lefts ctx : list (K * V) :=
  match ctx with [] => [] | f :: ctx' => lefts ctx' ++ f_lefts f end.
Fixpoint rights ctx : list (K * V) :=
  match ctx with [] => [] | f :: ctx' => f_rights f ++ rights ctx' end.

Lemma elems_mkT d c a (k : K) (v : V) (x y : tree K V) :
  elems (mkT d c a k v x y) =
    if d then elems y ++ (k, v) :: elems x else elems x ++ (k, v) :: elems y.
Proof. by destruct d. Qed.

Lemma elems_plug1 f s : elems (plug1 f s) = f_lefts f ++ elems s ++ f_rights f.
Proof.
  unfold plug1, f_lefts, f_rights. rewrite elems_mkT. destruct (fd f).
  - by rewrite app_nil_r, <- app_assoc.
  - done.
Qed.

Lemma plug_app A B s : plug (A ++ B) s = plug B (plug A s).
Proof. revert s. induction A as [|f A IH]; intros s; simpl; [done|apply IH]. Qed.

Lemma rights_nil ctx : Forall (fun f => fd f = true) ctx -> rights ctx = [].
Proof. induction 1 as [|f ctx Hf _ IH]; simpl; [done|]. unfold f_rights. by rewrite Hf, IH. Qed.

Lemma elems_plug ctx s : elems (plug ctx s) = lefts ctx ++ elems s ++ rights ctx.
Proof.
  revert s. induction ctx as [|f ctx IH]; intros s; simpl; [by rewrite app_nil_r|].
  rewrite IH, elems_plug1. by rewrite !app_assoc.
Qed.

Lemma occ_plug ctx s x :
  (occ x (plug ctx s) + one x hd = occ x s + occ_ctx x ctx)%nat.
Proof.
  revert s. induction ctx as [|f ctx IH]; intros s; simpl; [done|].
  rewrite IH. unfold plug1. autorewrite with rb. lia.
Qed.
End contexts.

(** ** Red-black trees

    [rb t c n]: no red node has a red child, every path from the root of [t]
    to a leaf has [n] black nodes, and [c] tells whether the root is red. *)
Section balance.
Context {K V : Type}.
Implicit Types (d c : bool) (s t x y : tree K V) (n : nat) (ctx : list (frame K V)).

Inductive rb : tree K V -> bool -> nat -> Prop :=
| rb_E : rb E false 0
| rb_red l a k v r n : rb l false n -> rb r false n -> rb (T true l a k v r) true n
| rb_black l a k v r cl cr n :
    rb l cl n -> rb r cr n -> rb (T false l a k v r) false (S n).

Lemma rb_tred t c n : rb t c n -> tred t = c.
Proof. by destruct 1. Qed.

Lemma rb_mkT_red d a k v x y n :
  rb x false n -> rb y false n -> rb (mkT d true a k v x y) true n.
Proof. destruct d; by constructor. Qed.
Lemma rb_mkT_black d a k v x y cx cy n :
  rb x cx n -> rb y cy n -> rb (mkT d false a k v x y) false (S n).
Proof. destruct d; by econstructor. Qed.
Lemma rb_mkT_inv d c a k v x y c' n :
  rb (mkT d c a k v x y) c' n ->
  c' = c /\
  if c then rb x false n /\ rb y false n
  else exists m cx cy, n = S m /\ rb x cx m /\ rb y cy m.
Proof. destruct d; simpl; inversion 1; subst; naive_solver. Qed.

(** The context turns a tree of root colour [c] and black height [n] into
    a red-black tree. *)
Fixpoint ctx_ok ctx c n : Prop :=
  match ctx with
  | [] => True
  | f :: ctx' =>
    if fc f then c = false /\ rb (fo f) false n /\ ctx_ok ctx' true n
    else (exists co, rb (fo f) co n) /\ ctx_ok ctx' false (S n)
  end.

Lemma rb_plug ctx s c n :
  rb s c n -> ctx_ok ctx c n -> exists c' n', rb (plug ctx s) c' n'.
Proof.
  revert s c n. induction ctx as [|f ctx IH]; simpl; intros s c n Hs Hc; [eauto|].
  destruct (fc f) eqn:Ef.
  - destruct Hc as (-> & Ho & Hc). eapply IH; [|exact Hc].
    unfold plug1. rewrite Ef. by apply rb_mkT_red.
  - destruct Hc as ((co & Ho) & Hc). eapply IH; [|exact Hc].
    unfold plug1. rewrite Ef. by eapply rb_mkT_black.
Qed.

Lemma ctx_ok_descend d c a k v x y c' n ctx :
  rb (mkT d c a k v x y) c' n -> ctx_ok ctx c' n ->
  exists cx m, rb x cx m /\ ctx_ok (mk_frame d c a k v y :: ctx) cx m.
Proof.
  intros [-> Hr]%rb_mkT_inv Hc. destruct c; simpl.
  - exists false, n. naive_solver.
  - destruct Hr as (m & cx & cy & -> & Hx & Hy). exists cx, m. eauto.
Qed.

(** Blackening the root *)
Definition blacken t : tree K V :=
  match t with E => E | T _ l a k v r => T false l a k v r end.
Lemma rb_blacken t c n : rb t c n -> exists n', rb (blacken t) false n'.
Proof. destruct 1; simpl; eexists; by econstructor. Qed.
Lemma elems_blacken t : elems (blacken t) = elems t.
Proof. by destruct t. Qed.
Lemma root_of_blacken t : root_of (blacken t) = root_of t.
Proof. by destruct t. Qed.
Lemma occ_blacken t a : occ a (blacken t) = occ a t.
Proof. by destruct t. Qed.

Lemma set_red_blacken (h : gmap loc (rbnode K V)) t a :
  rep h t -> uniq t -> root_of t = Some a ->
  exists h', set_red (Some a) false h = Some (tt, h') /\ rep h' (blacken t) /\
    agree (fun l => l = a) h h'.
Proof.
  intros Ht Hu Ha. destruct t as [|c l a' k v r]; simpl in *; simplify_eq.
  destruct Ht as (Hl & H1 & H2).
  eexists. split; [by eapply set_red_eq|].
  match goal with |- _ /\ ?A => assert A as Hag by (by eapply agree_insert) end.
  split; [|done]. split_and!; [apply lookup_insert_eq|..]; keep_rep Hu Hag.
Qed.
End balance.

(** ** Ownership

    [upd O O' h h']: the code that took [h] to [h'] owned the cells counted
    by [O] before and those counted by [O'] after: other cells are as they
    were, gained cells were free before, and cells given up are free after. *)
Section ownership.
Context {K V : Type}.
Abbreviation heap := (gmap loc (rbnode K V)).
Implicit Types (h : heap) (O : loc -> nat) (s t : tree K V) (ctx : list (frame K V)).

Definition upd O O' h h' : Prop := forall l,
  (O l = 0%nat -> O' l = 0%nat -> h' !! l = h !! l) /\
  (O l = 0%nat -> O' l <> 0%nat -> h !! l = None) /\
  (O l <> 0%nat -> O' l = 0%nat -> h' !! l = None).

Lemma upd_agree O O' P h h' :
  agree P h h' -> (forall l, P l -> O l <> 0%nat) -> (forall l, O' l = O l) -> upd O O' h h'.
Proof.
  intros Hag HP HO l. rewrite HO. split_and!; try lia.
  intros H _. apply Hag. intros Hl. by apply HP in Hl.
Qed.

Lemma upd_refl O h : upd O O h h.
Proof. intros l. split_and!; [done|lia..]. Qed.

Lemma upd_trans O1 O2 O3 h1 h2 h3 : upd O1 O2 h1 h2 -> upd O2 O3 h2 h3 -> upd O1 O3 h1 h3.
Proof.
  intros H12 H23 l. destruct (H12 l) as (A1 & A2 & A3), (H23 l) as (B1 & B2 & B3).
  destruct (decide (O2 l = 0%nat)) as [E2|E2].
  - split_and!; intros X Y.
    + rewrite B1, A1; auto.
    + rewrite <- A1; auto.
    + rewrite B1; auto.
  - split_and!; intros X Y; auto. rewrite A2, B3; auto.
Qed.

Lemma upd_ext O1 O1' O2 O2' h h' :
  upd O1 O1' h h' -> (forall l, O2 l = O1 l) -> (forall l, O2' l = O1' l) -> upd O2 O2' h h'.
Proof. intros H E1 E2 l. rewrite E1, E2. apply H. Qed.

(** A new cell is none of the tree's. *)
Lemma rep_dom h t a : rep h t -> h !! a = None -> occ a t = 0%nat.
Proof.
  induction t as [|c l IHl b k v r IHr]; simpl; [done|]. intros (Hb & Hl & Hr) Ha.
  rewrite IHl, IHr by done. unfold one. case_decide; [congruence|done].
Qed.
Lemma rep_alloc h t a n : rep h t -> h !! a = None -> rep (<[a:=n]> h) t.
Proof.
  induction t as [|c l IHl b k v r IHr]; simpl; [done|]. intros (Hb & Hl & Hr) Ha.
  split_and!; auto. rewrite lookup_insert_ne; congruence.
Qed.
Lemma rep_delete h t a : rep h t -> occ a t = 0%nat -> rep (delete a h) t.
Proof.
  induction t as [|c l IHl b k v r IHr]; simpl; [done|]. intros (Hb & Hl & Hr) Ha.
  split_and!; [|apply IHl; [done|lia]|apply IHr; [done|lia]].
  rewrite lookup_delete_ne; [done|]. intros ->. rewrite one_same in Ha. lia.
Qed.

Section head.
Context (key0 : K) (value0 : V) (hd : loc).
Abbreviation rep_ctx := (rep_ctx key0 value0 hd).
Abbreviation holds := (holds key0 value0 hd).

Lemma rep_ctx_dom h ctx p a :
  rep_ctx h ctx p -> h !! a = None -> occ_ctx hd a ctx = 0%nat.
Proof.
  revert p. induction ctx as [|f ctx IH]; simpl; intros p.
  - intros Hh Ha. unfold one. case_decide; [congruence|done].
  - intros (Hf & Ho & Hc) Ha. rewrite (IH _ Hc Ha), (rep_dom _ _ _ Ho Ha).
    unfold one. case_decide; [congruence|done].
Qed.
Lemma rep_ctx_alloc h ctx p a n :
  rep_ctx h ctx p -> h !! a = None -> rep_ctx (<[a:=n]> h) ctx p.
Proof.
  revert p. induction ctx as [|f ctx IH]; simpl; intros p.
  - intros Hh Ha. rewrite lookup_insert_ne; congruence.
  - intros (Hf & Ho & Hc) Ha. split_and!; [|by apply rep_alloc|by apply IH].
    rewrite lookup_insert_ne; congruence.
Qed.

Lemma rep_ctx_delete h ctx p a :
  rep_ctx h ctx p -> occ_ctx hd a ctx = 0%nat -> rep_ctx (delete a h) ctx p.
Proof.
  revert p. induction ctx as [|f ctx IH]; simpl; intros p.
  - intros Hh Ha. rewrite lookup_delete_ne; [done|]. intros ->. rewrite one_same in Ha. lia.
  - intros (Hf & Ho & Hc) Ha. split_and!; [|apply rep_delete; [done|lia]|apply IH; [done|lia]].
    rewrite lookup_delete_ne; [done|]. intros ->. rewrite one_same in Ha. lia.
Qed.

(** The data of a frame is overwritten. *)
Definition frame_data f (k : K) (v : V) : frame K V :=
  mk_frame (fd f) (fc f) (fa f) k v (fo f).

Lemma occ_ctx_data (A : list (frame K V)) f B k v l :
  occ_ctx hd l (A ++ frame_data f k v :: B) = occ_ctx hd l (A ++ f :: B).
Proof. induction A as [|g A IH]; simpl; [done|by rewrite IH]. Qed.
Lemma cptr_data (A : list (frame K V)) f B k v : cptr hd (A ++ frame_data f k v :: B) = cptr hd (A ++ f :: B).
Proof. by destruct A. Qed.
Lemma ctx_ok_data (A : list (frame K V)) f B k v c n :
  ctx_ok (A ++ f :: B) c n -> ctx_ok (A ++ frame_data f k v :: B) c n.
Proof.
  revert c n. induction A as [|g A IH]; simpl; intros c n; [done|].
  destruct (fc g); naive_solver.
Qed.
Lemma occ_ctx_frame (A : list (frame K V)) f B : (1 <= occ_ctx hd (fa f) (A ++ f :: B))%nat.
Proof. induction A as [|g A IH]; simpl; [rewrite one_same|]; lia. Qed.

Lemma rep_ctx_data h A f B p k v :
  rep_ctx h (A ++ f :: B) p -> (forall x, (occ_ctx hd x (A ++ f :: B) <= 1)%nat) ->
  exists p', h !! fa f = Some (mkN (fd f) (fc f) (fk f) (fv f) p' (root_of (fo f))) /\
    rep_ctx (<[fa f := mkN (fd f) (fc f) k v p' (root_of (fo f))]> h)
            (A ++ frame_data f k v :: B) p.
Proof.
  revert p. induction A as [|g A IH]; simpl; intros p (Hf & Ho & Hc) Hu.
  - exists p. split; [done|]. rewrite lookup_insert_eq.
    assert (agree (fun l => l = fa f) h
      (<[fa f := mkN (fd f) (fc f) k v p (root_of (fo f))]> h)) as Hag by (by eapply agree_insert).
    pose proof (Hu (fa f)) as Hu'. rewrite one_same in Hu'.
    split_and!; [done|eapply rep_agree|eapply rep_ctx_agree]; try done; intros l ->; lia.
  - destruct (IH _ Hc) as (p' & Hl & Hc'); [intros x; specialize (Hu x); lia|].
    exists p'. split; [done|].
    pose proof (occ_ctx_frame A f B) as Hof.
    pose proof (Hu (fa f)) as Hu'.
    assert (one (fa f) (fa g) = 0 /\ occ (fa f) (fo g) = 0)%nat as [Hg Hog] by lia.
    split_and!; [|eapply rep_agree; [done| |]|done].
    + rewrite lookup_insert_ne; [done|]. intros E. rewrite E, one_same in Hg. lia.
    + eapply (agree_insert (fun l => l = fa f)); done.
    + by intros l ->.
Qed.

(** The cells of a state: those of the tree and the head node *)
Definition own ctx s : loc -> nat := fun x => (occ x s + occ_ctx hd x ctx)%nat.
Lemma own_cons f ctx s x : own (f :: ctx) s x = own ctx (plug1 f s) x.
Proof. unfold own, plug1. autorewrite with rb. simpl. lia. Qed.

(** A new leaf is attached at the hole. *)
Lemma holds_alloc h ctx a k v :
  holds h ctx E -> h !! a = None ->
  exists h', set_link (Some (cptr hd ctx)) (cdir ctx) (Some a)
               (<[a := mk_rbnode k v true None None]> h) = Some (tt, h') /\
    holds h' ctx (T true E a k v E) /\ upd (own ctx E) (own ctx (T true E a k v E)) h h'.
Proof.
  intros [Hc _ Hu] Ha. simpl in Hc.
  pose proof (rep_ctx_dom _ _ _ _ Hc Ha) as Hd.
  destruct (ctx_set_link key0 value0 hd (<[a:=mk_rbnode k v true None None]> h) ctx None (Some a))
    as (h' & E & Hc' & Hag); [by apply rep_ctx_alloc|intros x; specialize (Hu x); lia|].
  assert (cptr hd ctx <> a) as Hne.
  { intros <-. pose proof (cptr_occ hd ctx). lia. }
  exists h'. split_and!; [done|split|].
  - done.
  - simpl. split; [|done]. rewrite (proj1 (Hag _)) by done. apply lookup_insert_eq.
  - intros x. specialize (Hu x). simpl. unfold one. case_decide; simplify_eq; lia.
  - intros l. unfold own. simpl.
    assert (l = a \/ one l a = 0%nat) as [->|Hl] by (unfold one; case_decide; auto).
    { rewrite one_same. split_and!; try lia. done. }
    assert (l <> a) by (intros ->; by rewrite one_same in Hl).
    split_and!; try lia. intros X Y.
    rewrite (proj1 (Hag _)), lookup_insert_ne; [done..|].
    intros ->. pose proof (cptr_occ hd ctx). lia.
Qed.

(** The subtree at the hole was changed in place. *)
Lemma holds_inplace h h' ctx s s' :
  holds h ctx s -> agree (fun l => occ l s <> 0%nat) h h' -> rep h' s' ->
  (forall x, occ x s' = occ x s) -> root_of s' = root_of s ->
  holds h' ctx s'.
Proof.
  intros [Hc Hs Hu] Hag Hs' Ho Hr. split; [|done|].
  - rewrite Hr. eapply rep_ctx_agree; [done..|]. intros l Hl. specialize (Hu l). simpl in *. lia.
  - intros x. rewrite Ho. apply Hu.
Qed.

(** A rotation [m] of the subtree at the hole, and the store of its new
    root in the parent *)
Lemma rotate_at (m : M heap ptr) h h1 ctx s s' P :
  holds h ctx s -> m h = Some (root_of s', h1) -> rep h1 s' ->
  agree P h h1 -> (forall l, P l -> occ l s <> 0%nat) ->
  (forall l, occ l s' = occ l s) ->
  exists h2, (let! n := m in set_link (Some (cptr hd ctx)) (cdir ctx) n) h = Some (tt, h2) /\
    holds h2 ctx s' /\ upd (own ctx s) (own ctx s') h h2.
Proof.
  intros Hh Hm Hs' Hag HP Ho. pose proof Hh as [Hc Hs Hu].
  destruct (holds_replace key0 value0 hd h h1 ctx s s' P Hh Hag) as (h2 & E2 & Hh2 & Hag2).
  - intros l Hl%HP. specialize (Hu l). lia.
  - done.
  - intros x. rewrite Ho. apply Hu.
  - exists h2. split_and!; [by erewrite mbind_Some by exact Hm|done|].
    eapply upd_agree.
    + eapply agree_trans; [exact Hag|exact Hag2|]. intros l Hl. exact Hl.
    + intros l [Hl%HP| ->]; unfold own; [lia|]. pose proof (cptr_occ hd ctx). lia.
    + intros l. unfold own. rewrite Ho. done.
Qed.

Lemma rbsingle_at h ctx d ca a ka va cb b kb vb x y z :
  let s := mkT (negb d) ca a ka va (mkT d cb b kb vb x y) z in
  let s' := mkT d false b kb vb (mkT (negb d) true a ka va x z) y in
  holds h ctx s ->
  exists h2,
    (let! n := rbsingle (Some a) d in set_link (Some (cptr hd ctx)) (cdir ctx) n) h
      = Some (tt, h2) /\
    holds h2 ctx s' /\ upd (own ctx s) (own ctx s') h h2.
Proof.
  intros s s' Hh.
  destruct (rbsingle_spec h d ca a ka va cb b kb vb x y z) as (h1 & E1 & Hr & Hag).
  - apply Hh.
  - intros l. pose proof (holds_uniq _ _ _ _ _ _ Hh l). unfold s in *. lia.
  - eapply rotate_at; [exact Hh| |exact Hr|exact Hag|..].
    + unfold s'. rewrite root_of_mkT. exact E1.
    + unfold s. intros l [->| ->]; autorewrite with rb; lia.
    + unfold s, s'. intros l. autorewrite with rb. lia.
Qed.

Lemma rbdouble_at h ctx d ca a ka va cb b kb vb ce e ke ve x1 x2 y z :
  let s := mkT (negb d) ca a ka va
             (mkT d cb b kb vb (mkT d ce e ke ve x1 x2) y) z in
  let s' := mkT d false e ke ve (mkT (negb d) true a ka va x1 z)
                                (mkT d true b kb vb x2 y) in
  holds h ctx s ->
  exists h2,
    (let! n := rbdouble (Some a) d in set_link (Some (cptr hd ctx)) (cdir ctx) n) h
      = Some (tt, h2) /\
    holds h2 ctx s' /\ upd (own ctx s) (own ctx s') h h2.
Proof.
  intros s s' Hh.
  destruct (rbdouble_spec h d ca a ka va cb b kb vb ce e ke ve x1 x2 y z) as (h1 & E1 & Hr & Hag).
  - apply Hh.
  - intros l. pose proof (holds_uniq _ _ _ _ _ _ Hh l). unfold s in *. lia.
  - eapply rotate_at; [exact Hh| |exact Hr|exact Hag|..].
    + unfold s'. rewrite root_of_mkT. exact E1.
    + unfold s. intros l [->|[->| ->]]; autorewrite with rb; lia.
    + unfold s, s'. intros l. autorewrite with rb. lia.
Qed.
End head.

(** Recolouring a node and its two children *)
Lemma recolor3 h d c1 c2 c3 c1' c2' c3' a1 k1 v1 d2 a2 k2 v2 x2 y2 d3 a3 k3 v3 x3 y3 :
  let t := mkT d c1 a1 k1 v1 (mkT d2 c2 a2 k2 v2 x2 y2) (mkT d3 c3 a3 k3 v3 x3 y3) in
  rep h t -> uniq t ->
  exists h1 h2 h', set_red (Some a1) c1' h = Some (tt, h1) /\
    set_red (Some a2) c2' h1 = Some (tt, h2) /\
    set_red (Some a3) c3' h2 = Some (tt, h') /\
    rep h' (mkT d c1' a1 k1 v1 (mkT d2 c2' a2 k2 v2 x2 y2) (mkT d3 c3' a3 k3 v3 x3 y3)) /\
    agree (fun l => occ l t <> 0%nat) h h'.
Proof.
  intros t Ht Hu. unfold t in *. rewrite !rep_mkT in Ht. autorewrite with rb in Ht.
  destruct Ht as (H1 & (H2 & Hx2 & Hy2) & (H3 & Hx3 & Hy3)).
  assert (a1 <> a2) as N12 by occ_ne Hu a2.
  assert (a1 <> a3) as N13 by occ_ne Hu a3.
  assert (a2 <> a3) as N23 by occ_ne Hu a3.
  eexists _, _, _. do 3 (split; [mspec|]). mnorm.
  match goal with |- rep ?h' _ /\ _ =>
    assert (agree (fun l => l = a1 \/ l = a2 \/ l = a3) h h') as Hag end.
  { repeat first [ apply agree_refl | eapply agree_insert2; [|mlook|cbv beta; tauto] ]. }
  split.
  - rewrite !rep_mkT. autorewrite with rb.
    split_and!; try (simplify_map_eq; autorewrite with rb; done); keep_rep Hu Hag.
  - eapply agree_weaken; [exact Hag|]. intros l Hl. simpl.
    autorewrite with rb. destruct Hl as [->|[->| ->]]; rewrite one_same; lia.
Qed.
Lemma own_plug hd ctx s x : own hd ctx s x = own hd [] (plug ctx s) x.
Proof. unfold own. simpl. rewrite occ_plug. done. Qed.

(** A computation [g] that works on the tree under a fresh head node *)
Lemma with_head_ok {A} (key0 : K) (value0 : V) (g : loc -> M heap A)
    (R : A -> tree K V -> Prop) h s :
  rep h s -> uniq s ->
  (forall hd h0, holds key0 value0 hd h0 [] s ->
    exists x h1 s', g hd h0 = Some (x, h1) /\ holds key0 value0 hd h1 [] s' /\
      upd (own hd [] s) (own hd [] s') h0 h1 /\ R x s') ->
  exists x h' s',
    with_head key0 value0 (fun hd => set_link (Some hd) true (root_of s) ;; g hd) h = Some (x, h') /\
    rep h' s' /\ uniq s' /\ upd (fun l => occ l s) (fun l => occ l s') h h' /\ R x s'.
Proof.
  intros Hs Hu Hg. set (a := fresh (dom h)).
  assert (h !! a = None) as Ha by (apply not_elem_of_dom, is_fresh).
  pose proof (rep_dom _ _ _ Hs Ha) as Hoa.
  set (h0 := <[a := mk_rbnode key0 value0 false None (root_of s)]> h).
  destruct (Hg a h0) as (x & h1 & s' & E1 & [Hc1 Hs1 Hu1] & Hupd & HR).
  { split; [by apply lookup_insert_eq|by apply rep_alloc|].
    intros l. specialize (Hu l). simpl. unfold one. case_decide; subst; lia. }
  simpl in *. assert (occ a s' = 0)%nat as Hoa'.
  { specialize (Hu1 a). rewrite one_same in Hu1. lia. }
  exists x, (delete a h1), s'. split_and!; [|by apply rep_delete| | |done].
  - unfold with_head. fold a. erewrite mbind_Some by (apply set_link_eq, lookup_insert_eq).
    unfold with_link. simpl. rewrite insert_insert_eq. fold h0. by rewrite E1.
  - intros l. specialize (Hu1 l). lia.
  - intros l. destruct (Hupd l) as (U1 & U2 & U3). unfold own in *. simpl in *.
    destruct (decide (l = a)) as [->|Hne].
    + rewrite lookup_delete_eq. split_and!; [congruence|done|done].
    + assert (one l a = 0%nat) as E0 by (unfold one; by rewrite decide_False).
      rewrite E0 in *. unfold h0 in *. rewrite lookup_insert_ne in * by done.
      rewrite lookup_delete_ne by done. rewrite !Nat.add_0_r in *. done.
Qed.

(** The tree object [tr] owns the tree [s]: no red root, no red node with a
    red child, the same number of black nodes on every path. *)
Record tree_at h (tr : rbtree) s : Prop := {
  ta_root : root tr = root_of s;
  ta_rep : rep h s;
  ta_uniq : uniq s;
  ta_rb : exists n, rb s false n }.
End ownership.
#[export] Hint Rewrite @nodes_mkT : rb.
