(* ===== verification/RBOrder.v ===== *)
(** * The key order, and the abstract map a tree stands for

    [KeyOrder] is the interface between the tree and the comparison of keys:
    the tree's theorems are proved against it, and [MooMap] discharges it for
    [compare] of utils.cc.  The abstract map is the in-order list of
    key/value pairs. *)
From Stdlib Require Import ZArith Lia Sorted.
From stdpp Require Import prelude gmap.
From S2P Require Import Prelude RBCode RBTree.

Local Open Scope Z_scope.

(** [cmp cm a b] compares keys, with [cm] the [case_matters] flag; [ok] is
    the set of keys on which it is an order. *)
Class KeyOrder {K : Type} (cmp : bool -> K -> K -> Z) (ok : K -> Prop) := {
  cmp_antisym : forall a b, ok a -> ok b ->
    Z.sgn (cmp false b a) = - Z.sgn (cmp false a b);
  cmp_trans_le : forall a b c, ok a -> ok b -> ok c ->
    cmp false a b <= 0 -> cmp false b c <= 0 -> cmp false a c <= 0;
  cmp_case : forall a b, ok a -> ok b -> cmp true a b = 0 -> cmp false a b = 0
}.

Section order.
Context {K V : Type} (cmp : bool -> K -> K -> Z) (ok : K -> Prop) `{!KeyOrder cmp ok}.
Implicit Types (a b k : K) (L A B : list (K * V)).

Lemma cmp_refl a : ok a -> cmp false a a = 0.
Proof. intros Ha. pose proof (cmp_antisym a a Ha Ha). lia. Qed.

Lemma cmp_flip a b : ok a -> ok b ->
  (cmp false a b < 0 <-> 0 < cmp false b a) /\ (cmp false a b = 0 <-> cmp false b a = 0).
Proof. intros Ha Hb. pose proof (cmp_antisym a b Ha Hb). lia. Qed.

Lemma cmp_lt_le a b c : ok a -> ok b -> ok c ->
  cmp false a b < 0 -> cmp false b c <= 0 -> cmp false a c < 0.
Proof.
  intros Ha Hb Hc Hab Hbc.
  assert (cmp false a c <= 0) by (eapply (cmp_trans_le a b c); eauto with lia).
  destruct (decide (cmp false a c = 0)) as [E0|]; [|lia].
  pose proof (cmp_flip a c Ha Hc). pose proof (cmp_flip a b Ha Hb).
  assert (cmp false b a <= 0); [|lia].
  eapply (cmp_trans_le b c a); eauto. lia.
Qed.

Lemma cmp_le_lt a b c : ok a -> ok b -> ok c ->
  cmp false a b <= 0 -> cmp false b c < 0 -> cmp false a c < 0.
Proof.
  intros Ha Hb Hc Hab Hbc.
  assert (cmp false a c <= 0) by (eapply (cmp_trans_le a b c); eauto with lia).
  destruct (decide (cmp false a c = 0)) as [E0|]; [|lia].
  pose proof (cmp_flip a c Ha Hc). pose proof (cmp_flip b c Hb Hc).
  assert (cmp false c b <= 0); [|lia].
  eapply (cmp_trans_le c a b); eauto. lia.
Qed.

(** ** Sorted sequences *)

Definition klt (x y : K * V) : Prop := cmp false (fst x) (fst y) < 0.
Definition ksorted L : Prop := StronglySorted klt L /\ Forall (fun x => ok (fst x)) L.

Lemma sorted_app_inv {X} (R : X -> X -> Prop) (l1 l2 : list X) :
  StronglySorted R (l1 ++ l2) <->
  StronglySorted R l1 /\ StronglySorted R l2 /\ Forall (fun x => Forall (R x) l2) l1.
Proof.
  induction l1 as [|x l1 IH]; simpl; split.
  - intros. split_and!; [constructor|done|constructor].
  - tauto.
  - inversion 1 as [|? ? Hs Hf]; subst. apply IH in Hs as (H1 & H2 & H3).
    apply Forall_app in Hf as [Hf1 Hf2]. split_and!; [by constructor|done|by constructor].
  - intros (H1 & H2 & H3). inversion H1; subst. inversion H3; subst.
    constructor; [by apply IH|]. by apply Forall_app.
Qed.

Lemma ksorted_app A B :
  ksorted (A ++ B) <->
  ksorted A /\ ksorted B /\ (forall x y, x ∈ A -> y ∈ B -> klt x y).
Proof.
  unfold ksorted. rewrite sorted_app_inv, !Forall_app. split.
  - intros [(? & ? & Hf) [? ?]]. split_and!; try done. intros x y Hx Hy.
    rewrite Forall_forall in Hf. specialize (Hf x Hx).
    rewrite Forall_forall in Hf. by apply Hf.
  - intros ([? ?] & [? ?] & Hf). split_and!; try done.
    apply Forall_forall. intros x Hx. apply Forall_forall. auto.
Qed.

Lemma ksorted_cons x L :
  ksorted (x :: L) <-> ok (fst x) /\ ksorted L /\ (forall y, y ∈ L -> klt x y).
Proof.
  unfold ksorted. rewrite Forall_cons. split.
  - intros [Hs [? ?]]. apply StronglySorted_inv in Hs as [? Hx].
    rewrite Forall_forall in Hx. auto.
  - intros (? & [? ?] & ?). split; [|auto]. constructor; [done|].
    by apply Forall_forall.
Qed.

(** ** The abstract map *)

(** [below k L], [above k L]: the entries before and after [k]. *)
Definition below k L : list (K * V) := filter (fun x => cmp false (fst x) k < 0) L.
Definition above k L : list (K * V) := filter (fun x => 0 < cmp false (fst x) k) L.
(** [amem]: is there an entry for [k]; [aput]: the entry of [k] becomes
    [(k, v)]; [adel]: the entry of [k] is removed. *)
Definition amem k L : bool := existsb (fun x => cmp false (fst x) k =? 0) L.
Definition aput k (v : V) L : list (K * V) := below k L ++ (k, v) :: above k L.
Definition adel k L : list (K * V) := below k L ++ above k L.
Definition aget k L : option (K * V) := find (fun x => cmp false (fst x) k =? 0) L.

Lemma filter_all {X} (P : X -> Prop) `{forall x, Decision (P x)} (l : list X) :
  Forall P l -> filter P l = l.
Proof.
  induction 1; [done|]. rewrite filter_cons_True by done. by f_equal.
Qed.
Lemma filter_none {X} (P : X -> Prop) `{forall x, Decision (P x)} (l : list X) :
  Forall (fun x => ~ P x) l -> filter P l = [].
Proof. induction 1; [done|]. by rewrite filter_cons_False. Qed.

Definition all_lt k L : Prop := Forall (fun x => cmp false (fst x) k < 0) L.
Definition all_gt k L : Prop := Forall (fun x => 0 < cmp false (fst x) k) L.

Lemma all_lt_before k x A :
  ok k -> ksorted (A ++ [x]) -> cmp false (fst x) k <= 0 -> all_lt k A.
Proof.
  intros Hk [HA [Hx HAx]]%ksorted_app Hlt. apply Forall_forall. intros y Hy.
  destruct HA as [_ HA]. rewrite Forall_forall in HA. destruct Hx as [_ Hx].
  apply Forall_cons in Hx as [Hx _].
  apply (cmp_lt_le _ (fst x)); auto. apply HAx; [done|set_solver].
Qed.
Lemma all_gt_after k x B :
  ok k -> ksorted (x :: B) -> 0 <= cmp false (fst x) k -> all_gt k B.
Proof.
  intros Hk (Hx & HB & HxB)%ksorted_cons Hlt. apply Forall_forall. intros y Hy.
  destruct HB as [_ HB]. rewrite Forall_forall in HB. specialize (HB y Hy).
  pose proof (cmp_flip (fst x) k Hx Hk). pose proof (cmp_flip k (fst y) Hk HB).
  pose proof (cmp_flip k (fst x) Hk Hx).
  pose proof (cmp_le_lt k (fst x) (fst y) Hk Hx HB) as Hl.
  specialize (HxB y Hy). unfold klt in HxB. lia.
Qed.

Lemma below_split k A M B :
  all_lt k A -> Forall (fun x => cmp false (fst x) k = 0) M -> all_gt k B ->
  below k (A ++ M ++ B) = A.
Proof.
  intros HA HM HB. unfold below. rewrite !filter_app, (filter_all _ A) by done.
  rewrite (filter_none _ M), (filter_none _ B), !app_nil_r; [done|..];
    (eapply Forall_impl; [done|]); simpl; intros; lia.
Qed.
Lemma above_split k A M B :
  all_lt k A -> Forall (fun x => cmp false (fst x) k = 0) M -> all_gt k B ->
  above k (A ++ M ++ B) = B.
Proof.
  intros HA HM HB. unfold above. rewrite !filter_app, (filter_all _ B) by done.
  rewrite (filter_none _ A), (filter_none _ M); [done|..];
    (eapply Forall_impl; [done|]); simpl; intros; lia.
Qed.
Lemma amem_split k A M B :
  all_lt k A -> Forall (fun x => cmp false (fst x) k = 0) M -> all_gt k B ->
  amem k (A ++ M ++ B) = match M with [] => false | _ => true end.
Proof.
  intros HA HM HB. unfold amem. rewrite !existsb_app.
  assert (existsb (fun x => cmp false (fst x) k =? 0) A = false) as ->.
  { induction HA; simpl; [done|]. rewrite IHHA, orb_false_r. lia. }
  assert (existsb (fun x => cmp false (fst x) k =? 0) B = false) as ->.
  { induction HB; simpl; [done|]. rewrite IHHB, orb_false_r. lia. }
  destruct HM as [|x M Hx]; simpl; [done|].
  rewrite orb_false_r. apply orb_true_iff. left. lia.
Qed.

(** ** The search path of a key *)

(** At every ancestor the search for [k] went the way the comparison says. *)
Definition on_path k (ctx : list (frame K V)) : Prop :=
  Forall (fun f => fd f = (cmp false (fk f) k <? 0) /\ cmp false (fk f) k <> 0) ctx.

Lemma on_path_bounds k ctx M :
  ok k -> ksorted (lefts ctx ++ M ++ rights ctx) -> on_path k ctx ->
  all_lt k (lefts ctx) /\ all_gt k (rights ctx).
Proof.
  intros Hk. revert M. induction ctx as [|f ctx IH]; intros M Hs Hp; [split; constructor|].
  apply Forall_cons in Hp as [[Hd Hne] Hp]. simpl in *.
  destruct (IH (f_lefts f ++ M ++ f_rights f)) as [HA HB]; [|done|].
  { by rewrite <- !app_assoc in *. }
  rewrite <- app_assoc in Hs. apply ksorted_app in Hs as (_ & Hs & _).
  unfold f_lefts, f_rights, all_lt, all_gt in *. destruct (fd f).
  - split; [|done]. rewrite app_assoc in Hs. apply ksorted_app in Hs as (Hs & _ & _).
    apply ksorted_app in Hs as (Hs & _ & _).
    repeat (apply Forall_app; split); [done| |constructor; [simpl; lia|constructor]].
    apply (all_lt_before k (fk f, fv f)); [done..|simpl; lia].
  - split; [by rewrite app_nil_r|].
    rewrite app_nil_l in Hs. apply ksorted_app in Hs as (_ & Hs & _).
    apply ksorted_app in Hs as (Hs & _ & _).
    apply Forall_app; split; [|done]. constructor; [simpl; lia|].
    apply (all_gt_after k (fk f, fv f)); [done..|simpl; lia].
Qed.

(** What an insertion of a new key leaves *)
Definition ains k v L : list (K * V) := if amem k L then L else aput k v L.
Lemma ains_absent k v ctx :
  ok k -> ksorted (lefts ctx ++ rights ctx) -> on_path k ctx ->
  amem k (lefts ctx ++ rights ctx) = false /\
  aput k v (lefts ctx ++ rights ctx) = lefts ctx ++ (k, v) :: rights ctx.
Proof.
  intros Hk Hs Hp. destruct (on_path_bounds k ctx [] Hk Hs Hp) as [HA HB].
  pose proof (amem_split k (lefts ctx) [] (rights ctx) HA ltac:(constructor) HB).
  unfold aput. split; [done|].
  pose proof (below_split k (lefts ctx) [] (rights ctx) HA ltac:(constructor) HB) as E1.
  pose proof (above_split k (lefts ctx) [] (rights ctx) HA ltac:(constructor) HB) as E2.
  simpl in E1, E2. by rewrite E1, E2.
Qed.
Lemma amem_in k x L : x ∈ L -> cmp false (fst x) k = 0 -> amem k L = true.
Proof.
  intros Hx Hc. unfold amem. apply existsb_exists. exists x. split.
  - by apply list_elem_of_In.
  - by rewrite Hc.
Qed.

Lemma ksorted_filter (P : K * V -> Prop) `{forall x, Decision (P x)} L :
  ksorted L -> ksorted (filter P L).
Proof.
  induction L as [|x L IH]; [done|]. intros (Hx & HL & HxL)%ksorted_cons.
  rewrite filter_cons. case_decide; [|auto]. apply ksorted_cons. split_and!; auto.
  intros y [_ Hy]%list_elem_of_filter. auto.
Qed.

Lemma ksorted_ok L x : ksorted L -> x ∈ L -> ok (fst x).
Proof. intros [_ H] Hx. rewrite Forall_forall in H. auto. Qed.

Lemma ksorted_adel k L : ok k -> ksorted L -> ksorted (adel k L).
Proof.
  intros Hk HL. unfold adel. apply ksorted_app. split_and!; [by apply ksorted_filter..|].
  intros x y [Hx HxL]%list_elem_of_filter [Hy HyL]%list_elem_of_filter.
  pose proof (ksorted_ok _ _ HL HxL) as Ox. pose proof (ksorted_ok _ _ HL HyL) as Oy.
  pose proof (cmp_flip k (fst y) Hk Oy). unfold klt.
  apply (cmp_lt_le _ k); auto. lia.
Qed.

Lemma ksorted_aput k v L : ok k -> ksorted L -> ksorted (aput k v L).
Proof.
  intros Hk HL. pose proof (ksorted_adel k L Hk HL) as Hd.
  unfold adel, aput in *. apply ksorted_app in Hd as (Hb & Ha & Hba).
  assert (forall y, y ∈ above k L -> klt (k, v) y) as Hka.
  { intros y [Hy HyL]%list_elem_of_filter.
    pose proof (ksorted_ok _ _ HL HyL) as Oy.
    pose proof (cmp_flip k (fst y) Hk Oy). unfold klt. simpl. lia. }
  apply ksorted_app. split_and!; [done|by apply ksorted_cons|].
  intros x y Hx [->|Hy]%elem_of_cons; [|auto].
  by apply list_elem_of_filter in Hx as [Hx _].
Qed.

Lemma ksorted_ains k v L : ok k -> ksorted L -> ksorted (ains k v L).
Proof. intros. unfold ains. destruct (amem k L); [done|by apply ksorted_aput]. Qed.

Lemma ains_nonempty k v L : ains k v L <> [].
Proof.
  unfold ains. destruct (amem k L) eqn:Ek; [by destruct L|].
  unfold aput. by destruct (below k L).
Qed.

Lemma ksorted_around A x B :
  ksorted (A ++ x :: B) -> ksorted (A ++ [x]) /\ ksorted (x :: B).
Proof.
  intros Hs. split; [|by apply ksorted_app in Hs as (_ & ? & _)].
  replace (A ++ x :: B) with ((A ++ [x]) ++ B) in Hs by (by rewrite <- app_assoc).
  by apply ksorted_app in Hs as [? _].
Qed.

Lemma adel_split k X x Y :
  ok k -> ksorted (X ++ x :: Y) -> cmp false (fst x) k = 0 ->
  all_lt k X /\ amem k (X ++ x :: Y) = true /\ adel k (X ++ x :: Y) = X ++ Y.
Proof.
  intros Hk Hs Hx.
  assert (all_lt k X) as HX.
  { apply (all_lt_before k x); [done| |lia]. replace (X ++ x :: Y) with ((X ++ [x]) ++ Y) in Hs.
    - by apply ksorted_app in Hs as [? _].
    - by rewrite <- app_assoc. }
  assert (all_gt k Y) as HY.
  { apply (all_gt_after k x); [done| |lia]. by apply ksorted_app in Hs as (_ & ? & _). }
  assert (Forall (fun z => cmp false (fst z) k = 0) [x]) as HM by (by constructor).
  unfold adel. change (X ++ x :: Y) with (X ++ [x] ++ Y).
  by rewrite below_split, above_split, amem_split.
Qed.

Lemma adel_absent k X Y :
  all_lt k X -> all_gt k Y -> amem k (X ++ Y) = false /\ adel k (X ++ Y) = X ++ Y.
Proof.
  intros HX HY. unfold adel. change (X ++ Y) with (X ++ [] ++ Y).
  by rewrite below_split, above_split, amem_split.
Qed.

(** Lengths, and a key after or before all others *)
Lemma filter_split k L :
  (length (below k L) + length (filter (fun x => cmp false (fst x) k = 0%Z) L)
    + length (above k L))%nat = length L.
Proof.
  unfold below, above. induction L as [|x L IH]; [done|]. rewrite !filter_cons.
  repeat case_decide; simpl; lia.
Qed.
Lemma amem_false k L :
  amem k L = false -> Forall (fun x => cmp false (fst x) k <> 0) L.
Proof.
  intros H. apply Forall_forall. intros x Hx Hc. by rewrite (amem_in k x) in H.
Qed.
Lemma aput_length k v L : amem k L = false -> length (aput k v L) = S (length L).
Proof.
  intros H. pose proof (filter_split k L) as Hl.
  rewrite (filter_none (fun x => cmp false (fst x) k = 0)) in Hl by (by apply amem_false).
  unfold aput. rewrite length_app. simpl in *. lia.
Qed.

Lemma adel_length k L :
  ok k -> ksorted L ->
  Z.of_nat (length L) - (if amem k L then 1 else 0) = Z.of_nat (length (adel k L)).
Proof.
  intros Hk Hs. destruct (amem k L) eqn:Em.
  - unfold amem in Em. apply existsb_exists in Em as (x & Hx%list_elem_of_In & Hc).
    apply list_elem_of_split in Hx as (X & Y & ->).
    destruct (adel_split k X x Y Hk Hs) as (_ & _ & ->); [lia|].
    rewrite !length_app. simpl. lia.
  - pose proof (filter_split k L) as Hl.
    rewrite (filter_none (fun x => cmp false (fst x) k = 0)) in Hl by (by apply amem_false).
    unfold adel. rewrite length_app. simpl in *. lia.
Qed.
End order.

(** ** A small example: integer keys *)

Definition Zcmp (cm : bool) (a b : Z) : Z := a - b.
#[export] Instance Zcmp_order : KeyOrder Zcmp (fun _ => True).
Proof. split; unfold Zcmp; intros; lia. Qed.

Definition ex_tree : tree Z Z :=
  T false (T true E 1%positive 10 100 E) 2%positive 20 200 (T true E 3%positive 30 300 E).
Definition ex_heap : gmap loc (rbnode Z Z) :=
  list_to_map [(1%positive, mk_rbnode 10 100 true None None);
               (2%positive, mk_rbnode 20 200 false (Some 1%positive) (Some 3%positive));
               (3%positive, mk_rbnode 30 300 true None None)].
Definition ex_root : rbtree := mk_rbtree (Some 2%positive) 3.

Lemma ex_tree_at : tree_at ex_heap ex_root ex_tree.
Proof.
  split; [done|by vm_compute| |].
  - intros x. simpl. unfold one. repeat case_decide; subst; try lia; try congruence.
  - exists 1%nat. repeat econstructor.
Qed.
Lemma ex_sorted : ksorted Zcmp (fun _ => True) (elems ex_tree).
Proof. split; simpl; repeat constructor; unfold klt, Zcmp; simpl; lia. Qed.
