(* ===== verification/RBInsert.v ===== *)
(** * Insertion into the red-black tree ([rbinsert] of map.cc)

    The top-down algorithm keeps, at every iteration, a red-black tree under
    the head node; the three ways its saved ancestor pointers relate to the
    path ([exact], [after_single], [after_double]) are the cases of the loop
    invariant. *)
From Stdlib Require Import ZArith Lia Sorted.
From stdpp Require Import prelude gmap.
From S2P Require Import Prelude RBCode RBTree RBOrder.

Local Open Scope Z_scope.
Local Open Scope moo_scope.

Section insert.
Context {K V : Type} (cmp : bool -> K -> K -> Z) (ok : K -> Prop) `{!KeyOrder cmp ok}.
Context (key0 : K) (value0 : V) (hd : loc) (k : K) (v : V).
Abbreviation heap := (gmap loc (rbnode K V)).
Implicit Types (h : heap) (s x y : tree K V) (f : frame K V) (ctx rest : list (frame K V)).
Abbreviation holds := (holds key0 value0 hd).
Abbreviation cptr := (cptr hd).
Abbreviation own := (own hd).

(** The direction the search takes at a node with key [kq] *)
Definition toward (kq : K) : bool := cmp false kq k <? 0.

(** A node that an iteration leaves as it is: red, or without two red
    children. *)
Definition still s : Prop :=
  match s with
  | E => False
  | T c l _ _ _ r => c = true \/ tred l = false \/ tred r = false
  end.

Lemma still_mkT d c a kq vq x y :
  still (mkT d c a kq vq x y) <-> c = true \/ tred x = false \/ tred y = false.
Proof. destruct d; simpl; tauto. Qed.

Lemma rb_not_still s c n :
  rb s c n -> s <> E -> ~ still s ->
  exists a kq vq cl cr l1 r1 al kl vl ar kr vr l2 r2 m,
    s = T false (T true l1 al kl vl r1) a kq vq (T true l2 ar kr vr r2) /\
    c = false /\ n = S m /\ cl = false /\ cr = false /\
    rb l1 cl m /\ rb r1 cl m /\ rb l2 cr m /\ rb r2 cr m.
Proof.
  destruct 1 as [|l a kq vq r n Hl Hr|l a kq vq r cl cr n Hl Hr]; [done|simpl; tauto|].
  simpl. intros _ Hs. destruct Hl, Hr; simpl in Hs; try (exfalso; tauto).
  repeat eexists; done.
Qed.

Lemma rb_still_not_both c l a kq vq r c' n :
  rb (T c l a kq vq r) c' n -> still (T c l a kq vq r) -> tred l && tred r = false.
Proof.
  intros Hr Hs. apply andb_false_iff. simpl in Hs. inversion Hr; subst.
  - left. by eapply rb_tred.
  - destruct Hs as [|[]]; auto; discriminate.
Qed.

(** ** One iteration *)

Definition parent ctx : ptr := match ctx with [] => None | f :: _ => Some (fa f) end.
Definition red_under ctx : bool := match ctx with [] => false | f :: _ => fc f end.

Lemma ctx_ok_colour ctx c c' n : red_under ctx = false -> ctx_ok ctx c n -> ctx_ok ctx c' n.
Proof. destruct ctx as [|f ctx]; simpl; [done|]. by intros ->. Qed.

Lemma parent_red h ctx s c n :
  holds h ctx s -> ctx_ok ctx c n -> is_red (parent ctx) h = Some (red_under ctx, h).
Proof.
  intros [Hc _ _] _. destruct ctx as [|f ctx]; simpl; [done|].
  destruct Hc as (Hf & _). rewrite (mbind_Some _ _ _ _ _ (deref_eq _ _ _ Hf)).
  cbv beta. by rewrite red_mkN.
Qed.

Lemma still_visit h ctx s t g p d l c n :
  holds h ctx s -> rb s c n -> still s ->
  ins_visit (mk_ins t g p (root_of s) d l) k v h = Some (root_of s, h).
Proof.
  intros Hh Hr Hs. destruct s as [|c0 x a kq vq y]; [done|].
  pose proof (holds_sub _ _ _ _ _ _ Hh) as (Ha & Hx & Hy).
  pose proof (rb_still_not_both _ _ _ _ _ _ _ _ Hr Hs) as Hb.
  unfold ins_visit. simpl.
  mstep. mstep. erewrite mbind_Some by (apply (is_red_eq _ x Hx)). cbv beta.
  destruct (tred x) eqn:Ex; cbn [link link0 link1]; [|done].
  erewrite mbind_Some by (apply (is_red_eq _ y Hy)). cbv beta. simpl in Hb. by rewrite Hb.
Qed.

Lemma still_fix h ctx s t g q d l c n :
  holds h ctx s -> ctx_ok ctx c n -> (tred s = true -> red_under ctx = false) ->
  ins_fix (mk_ins t g (parent ctx) q d l) (root_of s) h = Some (tt, h).
Proof.
  intros Hh Hc Hs. unfold ins_fix.
  erewrite mbind_Some by (apply is_red_eq, Hh). cbv beta.
  destruct (tred s); [|done]. simpl.
  erewrite mbind_Some by (by eapply parent_red). cbv beta. by rewrite Hs.
Qed.

(** A null link becomes a red leaf. *)
Lemma visit_leaf h f ctx t g l :
  holds h (f :: ctx) E ->
  exists h' a,
    ins_visit (mk_ins t g (parent (f :: ctx)) None (fd f) l) k v h = Some (Some a, h') /\
    holds h' (f :: ctx) (T true E a k v E) /\
    upd (own (f :: ctx) E) (own (f :: ctx) (T true E a k v E)) h h'.
Proof.
  intros Hh.
  destruct (holds_alloc key0 value0 hd h (f :: ctx) (fresh (dom h)) k v Hh)
    as (h' & E1 & Hh' & Hu); [apply not_elem_of_dom, is_fresh|].
  exists h', (fresh (dom h)). split_and!; try done.
  unfold ins_visit. cbn [i_q i_p i_dir parent].
  erewrite mbind_Some by reflexivity. cbv beta.
  by erewrite mbind_Some by exact E1.
Qed.

(** A node with two red children is recoloured: red, with black children
    that have black children. *)
Definition ripe s : Prop :=
  match s with
  | T true l _ _ _ r => still l /\ still r
  | _ => False
  end.

Lemma visit_flip h ctx s t g p d l n :
  holds h ctx s -> rb s false n -> s <> E -> ~ still s ->
  exists h' s',
    ins_visit (mk_ins t g p (root_of s) d l) k v h = Some (root_of s', h') /\
    holds h' ctx s' /\ upd (own ctx s) (own ctx s') h h' /\
    rb s' true n /\ ripe s' /\ nodes s' = nodes s /\ elems s' = elems s.
Proof.
  intros Hh Hr HE Hs.
  destruct (rb_not_still _ _ _ Hr HE Hs) as (a & kq & vq & cl & cr & l1 & r1 & al & kl & vl
    & ar & kr & vr & l2 & r2 & m & -> & _ & -> & -> & -> & R1 & R2 & R3 & R4).
  pose proof (holds_sub _ _ _ _ _ _ Hh) as Hrep.
  destruct (recolor3 h false false true true true false false a kq vq false al kl vl l1 r1
    false ar kr vr l2 r2 Hrep) as (h1 & h2 & h' & E1 & E2 & E3 & Hrep' & Hag).
  { intros z. pose proof (holds_uniq _ _ _ _ _ _ Hh z). simpl in *. lia. }
  exists h', (T true (T false l1 al kl vl r1) a kq vq (T false l2 ar kr vr r2)).
  assert (forall z, occ z (T true (T false l1 al kl vl r1) a kq vq (T false l2 ar kr vr r2)) =
    occ z (T false (T true l1 al kl vl r1) a kq vq (T true l2 ar kr vr r2))) as Hocc by done.
  split_and!; try done.
  - destruct Hrep as (Ha & Hl & Hr'). unfold ins_visit. cbn [i_q root_of].
    mstep. mstep. cbn [link link0 link1].
    erewrite mbind_Some by (exact (is_red_eq _ _ Hl)). cbn [tred].
    erewrite mbind_Some by (exact (is_red_eq _ _ Hr')). cbn [tred root_of].
    erewrite mbind_Some; [reflexivity|].
    erewrite mbind_Some by exact E1. cbv beta.
    erewrite mbind_Some by exact E2. cbv beta. exact E3.
  - by eapply holds_inplace.
  - eapply upd_agree; [done| |done]. intros z. unfold RBTree.own. simpl in *. lia.
  - by repeat econstructor.
  - simpl. rewrite (rb_tred _ _ _ R1), (rb_tred _ _ _ R3). tauto.
Qed.

(** The tests of [ins_fix] on a red node under a red parent *)
Lemma fix_tests h f1 f2 rest s q d :
  holds h (f1 :: f2 :: rest) s -> tred s = true -> fc f1 = true ->
  ins_fix (mk_ins (Some (cptr rest)) (Some (fa f2)) (Some (fa f1)) q d (fd f2)) (root_of s) h =
  (let! n := (if Bool.eqb (fd f1) (fd f2) then rbsingle (Some (fa f2)) (negb (fd f2))
              else rbdouble (Some (fa f2)) (negb (fd f2))) in
   set_link (Some (cptr rest)) (cdir rest) n) h.
Proof.
  intros Hh Hs Hf1. pose proof Hh as [Hc Hrep Hu].
  destruct (Hc) as (H1 & Ho1 & H2 & Ho2 & Hrest).
  unfold ins_fix. cbn [i_p i_t i_g i_last].
  erewrite mbind_Some by (apply is_red_eq, Hrep). cbv beta. rewrite Hs.
  erewrite mbind_Some; [|unfold is_red; mstep; reflexivity]. cbv beta. mnorm. rewrite Hf1.
  destruct (ctx_dir2 key0 value0 hd h rest (fa f2) Hrest) as (tl & E1 & E2).
  { intros x. specialize (Hu x). simpl in Hu. lia. }
  erewrite mbind_Some by exact E1. cbv beta. rewrite E2. mstep.
  assert (ptr_eqb (root_of s) (link (mkN (fd f1) (fc f1) (fk f1) (fv f1) (root_of s)
            (root_of (fo f1))) (fd f2)) = Bool.eqb (fd f1) (fd f2)) as ->; [|done].
  unfold ptr_eqb. destruct s as [|c l a kq vq r]; [done|].
  specialize (Hu a). simpl in Hu. rewrite one_same in Hu.
  assert (Some a <> root_of (fo f1)).
  { intros He. symmetry in He. apply root_of_Some in He. lia. }
  destruct (fd f1), (fd f2); simpl; first [by apply bool_decide_true | by apply bool_decide_false].
Qed.

(** A rotation keeps the sequence, and the hole is at the same node or, for
    a double rotation, at the parent of its old place. *)
Lemma fix_single h f1 f2 rest s n q d :
  holds h (f1 :: f2 :: rest) s -> rb s true n -> ctx_ok (f1 :: f2 :: rest) false n ->
  fc f1 = true -> tred (fo f2) = false -> fd f1 = fd f2 ->
  let f := mk_frame (fd f1) false (fa f1) (fk f1) (fv f1)
             (mkT (fd f2) true (fa f2) (fk f2) (fv f2) (fo f1) (fo f2)) in
  exists h',
    ins_fix (mk_ins (Some (cptr rest)) (Some (fa f2)) (Some (fa f1)) q d (fd f2)) (root_of s) h
      = Some (tt, h') /\
    holds h' (f :: rest) s /\ upd (own (f1 :: f2 :: rest) s) (own (f :: rest) s) h h' /\
    ctx_ok (f :: rest) true n /\
    elems (plug (f :: rest) s) = elems (plug (f1 :: f2 :: rest) s).
Proof.
  intros Hh Hr Hc Hf1 Ho2 Hd f. rewrite (fix_tests h f1 f2 rest s) by (try done; by apply rb_tred in Hr).
  rewrite Hd, Bool.eqb_reflx. subst f.
  pose proof Hh as Hg. rewrite !holds_cons in Hg.
  destruct f1 as [d1 c1 a1 k1 v1 o1], f2 as [d2 c2 a2 k2 v2 o2].
  unfold plug1 in Hg. simpl in *. subst d1 c1.
  destruct Hc as (_ & Ro1 & Hc2). destruct c2; [by destruct Hc2|].
  destruct Hc2 as ((co & Ro2) & Hc2). rewrite (rb_tred _ _ _ Ro2) in Ho2. subst co.
  assert (exists d', d2 = negb d') as [d' ->] by (exists (negb d2); by rewrite negb_involutive).
  rewrite (mkT_swap d' true a1) in Hg. rewrite negb_involutive.
  apply rbsingle_at in Hg as (h2 & E2 & Hh2 & Hu2). exists h2.
  rewrite <- mkT_swap in Hh2. split_and!; [done|..].
  - by rewrite holds_cons.
  - eapply upd_ext; [exact Hu2|..]; intros l; rewrite !own_cons; unfold plug1; simpl;
      rewrite ?mkT_swap; done.
  - exists true. by apply rb_mkT_red.
  - done.
  - rewrite !elems_plug. cbn [plug lefts rights]. unfold f_lefts, f_rights. simpl.
destruct d'; simpl; simplify_list_eq; done.
Qed.

Lemma fix_double h f1 f2 rest s n q d :
  holds h (f1 :: f2 :: rest) s -> rb s true n -> ctx_ok (f1 :: f2 :: rest) false n ->
  fc f1 = true -> tred (fo f2) = false -> fd f1 <> fd f2 ->
  exists h' a kq vq x y,
    let u := mkT (fd f2) true (fa f2) (fk f2) (fv f2) x (fo f2) in
    let w := mkT (fd f1) true (fa f1) (fk f1) (fv f1) y (fo f1) in
    let s' := mkT (fd f1) false a kq vq u w in
    s = mkT (fd f1) true a kq vq x y /\
    ins_fix (mk_ins (Some (cptr rest)) (Some (fa f2)) (Some (fa f1)) q d (fd f2)) (root_of s) h
      = Some (tt, h') /\
    holds h' rest s' /\ upd (own (f1 :: f2 :: rest) s) (own rest s') h h' /\
    rb s' false (S n) /\ ctx_ok rest false (S n) /\
    elems (plug rest s') = elems (plug (f1 :: f2 :: rest) s).
Proof.
  intros Hh Hr Hc Hf1 Ho2 Hd. rewrite (fix_tests h f1 f2 rest s) by (try done; by apply rb_tred in Hr).
  rewrite (proj2 (Bool.eqb_false_iff _ _)) by done.
  destruct (tree_dir (fd f1) s) as (cq & a & kq & vq & x & y & ->); [by intros ->; inversion Hr|].
  apply rb_mkT_inv in Hr as [<- [Rx Ry]].
  pose proof Hh as Hg. rewrite !holds_cons in Hg.
  destruct f1 as [d1 c1 a1 k1 v1 o1], f2 as [d2 c2 a2 k2 v2 o2].
  unfold plug1 in Hg. simpl in *. subst c1.
  assert (d2 = negb d1) as -> by (destruct d1, d2; done).
  destruct Hc as (_ & Ro1 & Hc2). destruct c2; [by destruct Hc2|].
  destruct Hc2 as ((co & Ro2) & Hc2). rewrite (rb_tred _ _ _ Ro2) in Ho2. subst co.
  rewrite negb_involutive.
  apply rbdouble_at in Hg as (h2 & E2 & Hh2 & Hu2). exists h2, a, kq, vq, x, y.
  split_and!; try done.
  - eapply upd_ext; [exact Hu2|..]; intros l; rewrite ?own_cons; unfold plug1; simpl;
      rewrite ?own_cons; done.
  - eapply rb_mkT_black; by apply rb_mkT_red.
  - rewrite !elems_plug. cbn [lefts rights]. unfold f_lefts, f_rights. simpl.
    rewrite !elems_mkT. destruct d1; simpl; rewrite ?elems_mkT; simplify_list_eq; done.
Qed.

(** ** The loop invariant *)

Definition linked (st : ins_locals) ctx s : Prop :=
  i_p st = parent ctx /\ i_q st = root_of s /\ (ctx <> [] -> i_dir st = cdir ctx).

Lemma visit_red h st ctx s n :
  holds h ctx s -> rb s false n -> ~ still s -> (s = E -> ctx <> []) -> linked st ctx s ->
  exists h' x a kq vq y,
    let s' := T true x a kq vq y in
    ins_visit st k v h = Some (Some a, h') /\
    holds h' ctx s' /\ upd (own ctx s) (own ctx s') h h' /\ rb s' true n /\
    (s = E -> kq = k /\ elems s' = [(k, v)]) /\
    (s <> E -> still x /\ still y /\ nodes s' = nodes s /\ elems s' = elems s).
Proof.
  intros Hh Hr Hs Hctx (Lp & Lq & Ld). destruct st as [t g p q d l]. simpl in *. subst p q.
  destruct s as [|c l0 b kb vb r0].
  - destruct ctx as [|f ctx]; [by destruct Hctx|]. rewrite Ld by done.
    destruct (visit_leaf h f ctx t g l Hh) as (h' & a & E1 & Hh' & Hu).
    inversion Hr; subst. exists h', E, a, k, v, E. split_and!; try done. by repeat constructor.
  - destruct (visit_flip h ctx _ t g (parent ctx) d l n Hh Hr ltac:(done) Hs)
      as (h' & s' & E1 & Hh' & Hu & Rs' & Hri & Hn & He).
    destruct s' as [|[] x a kq vq y]; try done.
    exists h', x, a, kq, vq, y. destruct Hri. split_and!; done.
Qed.

(** How the saved pointers stand to the path *)
Definition grand ctx : ptr := match ctx with _ :: f2 :: _ => Some (fa f2) | _ => None end.
Definition exact_ptrs (st : ins_locals) ctx : Prop :=
  match ctx with
  | _ :: f2 :: rest => i_t st = Some (cptr rest) /\ i_g st = Some (fa f2) /\ i_last st = fd f2
  | _ => i_t st = Some hd /\ i_g st = None
  end.
Definition near_exact (st : ins_locals) ctx : Prop :=
  i_g st = grand ctx /\ (grand ctx = None -> i_t st = Some hd).

(** The three phases, with the fuel each needs *)
Inductive phase (st : ins_locals) : list (frame K V) -> tree K V -> nat -> Prop :=
| phase_exact ctx s :
    exact_ptrs st ctx -> (s = E -> ctx <> []) ->
    (tred s = true -> match ctx with [] => False | f :: _ => tred (fo f) = false end) ->
    (red_under ctx = true -> still s \/
       exists f1 f2 rest, ctx = f1 :: f2 :: rest /\ tred (fo f2) = false) ->
    phase st ctx s (2 * nodes s + 1)
| phase_single ctx s :
    near_exact st ctx -> still s -> tred s = false -> phase st ctx s (2 * nodes s + 1)
| phase_double ctx d a kq vq x y :
    i_g st <> None -> ctx <> [] -> d = toward kq -> still x ->
    phase st ctx (mkT d true a kq vq x y) (2 * nodes x + 2).

(** The local variables of the next iteration *)
Definition ins_next (st : ins_locals) (a : loc) (q' : ptr) (d : bool) : ins_locals :=
  mk_ins (if is_null (i_g st) then i_t st else i_g st) (i_p st) (Some a) q' d (i_dir st).

Lemma exact_next st ctx s d c a kq vq x y :
  near_exact st ctx -> linked st ctx s ->
  exact_ptrs (ins_next st a (root_of x) d) (mk_frame d c a kq vq y :: ctx).
Proof.
  intros (Hg & Ht) (Hp & _ & Hd). unfold exact_ptrs, ins_next.
  destruct ctx as [|f1 ctx]; simpl in *; [rewrite Hg; auto|].
  rewrite Hg, Hp, (Hd ltac:(done)). destruct ctx as [|f2 ctx]; simpl in *; auto.
Qed.
Lemma exact_near st ctx : exact_ptrs st ctx -> near_exact st ctx.
Proof. unfold exact_ptrs, near_exact. destruct ctx as [|? [|]]; simpl; intuition congruence. Qed.

(** A still node is left alone, and the next iteration has a phase. *)
Lemma next_still st ctx d c a kq vq x y m cq n :
  rb (mkT d c a kq vq x y) cq n -> still (mkT d c a kq vq x y) -> d = toward kq ->
  linked st ctx (mkT d c a kq vq x y) -> phase st ctx (mkT d c a kq vq x y) m ->
  exists m', (m' < m)%nat /\
    phase (ins_next st a (root_of x) d) (mk_frame d c a kq vq y :: ctx) x m'.
Proof.
  intros Hr Hs Hd HL Hph.
  apply still_mkT in Hs. apply rb_mkT_inv in Hr as [-> Hr].
  assert (tred x = true -> tred y = false) as Hxy.
  { destruct Hs as [->|[Hx|Hy]]; [|congruence|done].
    destruct Hr as [Hx _]. apply rb_tred in Hx. congruence. }
  remember (mkT d c a kq vq x y) as s eqn:Es. destruct Hph as [ctx s He Hne Hc1 Hc2|ctx s Hne Hst Hc|].
  - exists (2 * nodes x + 1)%nat. subst s. split; [rewrite nodes_mkT; lia|].
    apply phase_exact; [by eapply exact_next; [apply exact_near|]|done|done|].
    simpl. intros ->. rewrite tred_mkT in *. specialize (Hc1 eq_refl).
    destruct Hr as [Hx Hy].
    right. destruct ctx as [|f1 ctx]; [done|]. eauto.
  - exists (2 * nodes x + 1)%nat. subst s. split; [rewrite nodes_mkT; lia|].
    rewrite tred_mkT in Hc. subst c.
    apply phase_exact; [by eapply exact_next|done|done|done].
  - apply mkT_inj in Es as (<- & <- & <- & <- & Exy). subst d d0. destruct Exy as [<- <-]; [done|].
    exists (2 * nodes x0 + 1)%nat. split; [lia|].
    apply phase_single; [|done|destruct Hr as [Hx _]; by apply rb_tred in Hx].
    destruct HL as (Hp & _). unfold near_exact, ins_next. simpl. rewrite Hp.
    destruct ctx as [|f1 ctx]; [done|]. simpl. done.
Qed.

(** What one iteration (visit and rotation) leaves: the node [q] points to
    is the root of [s'], at the end of the path [ctx']. *)
Record visited (st : ins_locals) h ctx s m h' ctx' (d c : bool) a kq vq x y : Prop := {
  vis_holds : holds h' ctx' (mkT d c a kq vq x y);
  vis_upd : upd (own ctx s) (own ctx' (mkT d c a kq vq x y)) h h';
  vis_rb : exists cq n, rb (mkT d c a kq vq x y) cq n /\ ctx_ok ctx' cq n;
  vis_path : on_path cmp k ctx';
  vis_new : s = E -> kq = k /\
    elems (plug ctx' (mkT d c a kq vq x y)) = lefts ctx ++ (k, v) :: rights ctx;
  vis_old : s <> E ->
    elems (plug ctx' (mkT d c a kq vq x y)) = elems (plug ctx s) /\
    exists m', (m' < m)%nat /\
      phase (ins_next st a (root_of x) d) (mk_frame d c a kq vq y :: ctx') x m' }.

Definition iterates st h ctx s m : Prop :=
  exists h1 h' ctx' c a kq vq x y,
    ins_visit st k v h = Some (Some a, h1) /\
    ins_fix st (Some a) h1 = Some (tt, h') /\
    visited st h ctx s m h' ctx' (toward kq) c a kq vq x y.

Lemma red_parent_black ctx s c n :
  rb s c n -> ctx_ok ctx c n -> tred s = true -> red_under ctx = false.
Proof.
  intros Hr Hc Hs. apply rb_tred in Hr. destruct ctx as [|f ctx]; simpl in *; [done|].
  destruct (fc f); [|done]. destruct Hc. congruence.
Qed.

Lemma iterate_still st h ctx s m c n :
  holds h ctx s -> rb s c n -> ctx_ok ctx c n -> on_path cmp k ctx -> linked st ctx s ->
  phase st ctx s m -> still s -> iterates st h ctx s m.
Proof.
  intros Hh Hr Hc Hp HL Hph Hs.
  assert (s <> E) as HE by (by intros ->).
  assert (exists c0 a kq vq x y, s = mkT (toward kq) c0 a kq vq x y)
    as (c0 & a & kq & vq & x & y & ->).
  { destruct s as [|c0 l a kq vq r]; [done|]. rewrite (T_mkT (toward kq)). eauto 10. }
  exists h, h, ctx, c0, a, kq, vq, x, y.
  pose proof HL as (Lp & Lq & Ld). destruct st as [t g p q d l]. simpl in Lp, Lq, Ld. subst p q.
  pose proof (still_visit h ctx _ t g (parent ctx) d l c n Hh Hr Hs) as Hv.
  pose proof (still_fix h ctx _ t g (root_of (mkT (toward kq) c0 a kq vq x y)) d l c n Hh Hc
    (red_parent_black _ _ _ _ Hr Hc)) as Hf.
  rewrite root_of_mkT in *.
  split; [done|]. split; [done|].
  split; [done|apply upd_refl|eauto|done|done|].
  intros _. split; [done|]. by eapply next_still.
Qed.

(** A red node, just made red at [ctx], whose iteration rotates or not *)
Record reddened (st : ins_locals) h ctx s h1 n a kq vq x y : Prop := {
  red_visit : ins_visit st k v h = Some (Some a, h1);
  red_holds : holds h1 ctx (mkT (toward kq) true a kq vq x y);
  red_upd : upd (own ctx s) (own ctx (mkT (toward kq) true a kq vq x y)) h h1;
  red_rb : rb (mkT (toward kq) true a kq vq x y) true n;
  red_new : s = E -> kq = k /\
    elems (plug ctx (mkT (toward kq) true a kq vq x y)) = lefts ctx ++ (k, v) :: rights ctx;
  red_old : s <> E -> still x /\ still y /\ S (nodes x + nodes y) = nodes s /\
    elems (plug ctx (mkT (toward kq) true a kq vq x y)) = elems (plug ctx s) }.

Lemma visit_reddened st h ctx s n :
  holds h ctx s -> rb s false n -> ~ still s -> (s = E -> ctx <> []) -> linked st ctx s ->
  exists h1 a kq vq x y, reddened st h ctx s h1 n a kq vq x y.
Proof.
  intros Hh Hr Hs Hne HL.
  destruct (visit_red h st ctx s n Hh Hr Hs Hne HL)
    as (h1 & l & a & kq & vq & r & Ev & Hh1 & Hu1 & Rs1 & Hnew & Hold).
  rewrite (T_mkT (toward kq)) in *.
  exists h1, a, kq, vq, (if toward kq then r else l), (if toward kq then l else r).
  split; try done; rewrite !elems_plug.
  - intros HE. destruct (Hnew HE) as [-> ->]. done.
  - intros HE. destruct (Hold HE) as (Sl & Sr & Hn & ->). rewrite nodes_mkT in Hn.
    split_and!; try done; by destruct (toward kq).
Qed.

Lemma iterate_recoloured st h ctx s h1 n a kq vq x y :
  reddened st h ctx s h1 n a kq vq x y ->
  ctx_ok ctx false n -> on_path cmp k ctx -> linked st ctx s -> exact_ptrs st ctx ->
  red_under ctx = false -> iterates st h ctx s (2 * nodes s + 1).
Proof.
  intros [Ev Hh1 Hu1 R1 Hnew Hold] Hc Hp HL He Hru.
  assert (ctx_ok ctx true n) as Hc1 by (by eapply ctx_ok_colour).
  exists h1, h1, ctx, true, a, kq, vq, x, y. split; [done|]. split.
  - destruct HL as (Lp & _). destruct st as [t g p q d l']. simpl in *. subst p.
    pose proof (still_fix h1 ctx _ t g q d l' true n Hh1) as Hf.
    rewrite root_of_mkT in Hf. by apply Hf.
  - split; [done|done|eauto|done|done|].
    intros HE. destruct (Hold HE) as (Sl & Sr & Hn & ?). split; [done|].
    exists (2 * nodes x + 1)%nat. split; [lia|].
    apply rb_mkT_inv in R1 as [_ [Rx Ry]].
    apply phase_exact; [by eapply exact_next; [apply exact_near|]|done| |by left].
    rewrite (rb_tred _ _ _ Rx). done.
Qed.

Lemma iterate_rotated st h f1 f2 rest s h1 n a kq vq x y :
  reddened st h (f1 :: f2 :: rest) s h1 n a kq vq x y ->
  ctx_ok (f1 :: f2 :: rest) false n -> on_path cmp k (f1 :: f2 :: rest) ->
  linked st (f1 :: f2 :: rest) s -> exact_ptrs st (f1 :: f2 :: rest) ->
  fc f1 = true -> tred (fo f2) = false -> iterates st h (f1 :: f2 :: rest) s (2 * nodes s + 1).
Proof.
  intros [Ev Hh1 Hu1 R1 Hnew Hold] Hc Hp (Lp & Lq & Ld) He Hf1 Ho2.
  destruct st as [t g p q d l]. simpl in Lp, Lq, Ld, He. destruct He as (-> & -> & ->). subst p.
  apply Forall_cons in Hp as [Hp1 Hp]. apply Forall_cons in Hp as [Hp2 Hp].
  destruct (decide (fd f1 = fd f2)) as [Hd|Hd].
  - destruct (fix_single _ _ _ _ _ _ q d Hh1 R1 Hc Hf1 Ho2 Hd) as (h2 & Ef & Hh2 & Hu2 & Hc2 & He2).
    rewrite root_of_mkT in Ef.
    eexists h1, h2, _, _, a, kq, vq, x, y. split; [done|]. split; [exact Ef|].
    split; [done|by eapply upd_trans|eauto|by constructor|by rewrite He2|rewrite He2].
    intros HE. destruct (Hold HE) as (Sx & Sy & Hn & ?). split; [done|].
    exists (2 * nodes x + 1)%nat. split; [lia|].
    apply rb_mkT_inv in R1 as [_ [Rx Ry]].
    apply phase_single; [done|done|by apply rb_tred in Rx].
  - destruct (fix_double _ _ _ _ _ _ q d Hh1 R1 Hc Hf1 Ho2 Hd)
      as (h2 & a' & kq' & vq' & x0 & y0 & Es & Ef & Hh2 & Hu2 & R2 & Hc2 & He2).
    rewrite root_of_mkT in Ef.
    assert (a = a' /\ kq = kq' /\ vq = vq' /\
      (fd f1 = toward kq /\ x = x0 /\ y = y0 \/ fd f1 = negb (toward kq) /\ x = y0 /\ y = x0))
      as (<- & <- & <- & Hxy).
    { destruct (fd f1), (toward kq); simpl in Es; simplify_eq; naive_solver. }
    clear Es. set (u := mkT (fd f2) true _ _ _ _ _) in *. set (w := mkT (fd f1) true _ _ _ _ _) in *.
    assert (mkT (fd f1) false a kq vq u w =
      mkT (toward kq) false a kq vq (if Bool.eqb (fd f1) (toward kq) then u else w)
                                    (if Bool.eqb (fd f1) (toward kq) then w else u)) as Eu.
    { by destruct (fd f1), (toward kq). }
    rewrite Eu in *. eexists h1, h2, rest, false, a, kq, vq, _, _. split; [done|]. split; [exact Ef|].
    split; [done|by eapply upd_trans|eauto|done|by rewrite He2|rewrite He2].
    intros HE. destruct (Hold HE) as (Sx & Sy & Hn & ?). split; [done|].
    destruct Hxy as [(-> & -> & ->)|(-> & -> & ->)].
    + rewrite Bool.eqb_reflx. exists (2 * nodes x0 + 2)%nat. split; [lia|].
      apply phase_double; naive_solver.
    + rewrite Bool.eqb_negb1. exists (2 * nodes y0 + 2)%nat. split; [lia|].
      apply phase_double; naive_solver.
Qed.

Lemma iterate st h ctx s m c n :
  holds h ctx s -> rb s c n -> ctx_ok ctx c n -> on_path cmp k ctx -> linked st ctx s ->
  phase st ctx s m -> iterates st h ctx s m.
Proof.
  intros Hh Hr Hc Hp HL Hph.
  assert (still s \/ ~ still s /\ c = false) as [Hs|[Hs ->]].
  { destruct Hr; simpl; [right; tauto|tauto|]. destruct (tred l), (tred r); try tauto.
    right. split; [|done]. by intros [|[|]]. }
  { by eapply iterate_still. }
  destruct Hph as [ctx s He Hne Hc1 Hc2| |]; [|done|by destruct Hs; apply still_mkT; left].
  destruct (visit_reddened st h ctx s n Hh Hr Hs Hne HL) as (h1 & a & kq & vq & x & y & Hred).
  destruct (red_under ctx) eqn:Hru.
  - destruct (Hc2 eq_refl) as [|(f1 & f2 & rest & -> & Ho2)]; [done|].
    by eapply iterate_rotated.
  - by eapply iterate_recoloured.
Qed.

Lemma ins_loop_ok fuel : forall st h ctx s m c n,
  (m <= fuel)%nat -> ok k -> ksorted cmp ok (elems (plug ctx s)) ->
  holds h ctx s -> rb s c n -> ctx_ok ctx c n -> on_path cmp k ctx -> linked st ctx s ->
  phase st ctx s m ->
  exists h' s' c' n', ins_loop cmp fuel st k v h = Some (tt, h') /\ holds h' [] s' /\
    upd (own ctx s) (own [] s') h h' /\ rb s' c' n' /\
    elems s' = ains cmp k v (elems (plug ctx s)).
Proof.
  induction fuel as [|fuel IH]; intros st h ctx s m c n Hm Hk Hs Hh Hr Hc Hp HL Hph.
  { destruct Hph; lia. }
  destruct (iterate st h ctx s m c n) as (h1 & h2 & ctx2 & c2 & a & kq & vq & x & y & E1 & E2 & Hvis);
    [done..|]. destruct Hvis as [Hh2 Hu (cq & n2 & R2 & Hc2) Hp2 Hnew Hold].
  set (s2 := mkT (toward kq) c2 a kq vq x y) in *.
  pose proof (holds_sub _ _ _ _ _ _ Hh2) as Hrep. apply rep_mkT in Hrep as (Ha & _ & _).
  assert (node_compare cmp false (Some a) k h2 = Some (cmp false kq k, h2)) as Ecmp.
  { unfold node_compare. mstep. done. }
  cbn [ins_loop]. erewrite mbind_Some by exact E1. cbv beta.
  erewrite mbind_Some by exact E2. cbv beta.
  erewrite mbind_Some by exact Ecmp. cbv beta.
  destruct (cmp false kq k =? 0) eqn:Eq0.
  - destruct (rb_plug _ _ _ _ R2 Hc2) as (c' & n' & Rp).
    exists h2, (plug ctx2 s2), c', n'. split; [done|]. split; [by apply (proj1 (holds_plug _ _ _ _ _ _))|].
    split; [by eapply upd_ext; [exact Hu|done|intros l; symmetry; apply own_plug]|].
    split; [done|]. unfold ains. destruct s as [|sc sl sa sk sv sr].
    + destruct (Hnew eq_refl) as [_ ->]. rewrite elems_plug in *. simpl in *.
      by destruct (ains_absent cmp ok k v ctx) as [-> ->].
    + destruct (Hold ltac:(done)) as [He _]. rewrite <- He.
      rewrite (amem_in cmp k (kq, vq)); [done| |simpl; lia].
      rewrite elems_plug. unfold s2. rewrite elems_mkT. destruct (toward kq); set_solver.
  - assert (s <> E) as HE.
    { intros ->. destruct (Hnew eq_refl) as [-> _]. rewrite (cmp_refl cmp ok) in Eq0; done. }
    destruct (Hold HE) as (He & m' & Hm' & Hph').
    erewrite mbind_Some by exact Ecmp. cbv beta zeta. mstep. fold (toward kq).
    destruct (ctx_ok_descend _ _ _ _ _ _ _ _ _ _ R2 Hc2) as (cx & nx & Rx & Hcx).
    destruct (IH (ins_next st a (root_of x) (toward kq)) h2 (mk_frame (toward kq) c2 a kq vq y :: ctx2) x m' cx nx)
      as (h' & s' & c' & n' & El & Hh' & Hu' & R' & He'); try done.
    + lia.
    + simpl. unfold s2 in He. unfold plug1. simpl. by rewrite He.
    + by apply holds_cons.
    + constructor; [|done]. simpl. split; [done|]. lia.
    + exists h', s', c', n'. split; [exact El|]. split; [done|]. split.
      { eapply upd_trans; [exact Hu|]. eapply upd_ext; [exact Hu'|intros l; symmetry; apply own_cons|done]. }
      split; [done|]. rewrite He', <- He. done.
Qed.

End insert.

(** ** The whole operation *)

Section rbinsert.
Context {K V : Type} (cmp : bool -> K -> K -> Z) (ok : K -> Prop) `{!KeyOrder cmp ok}.
Context (key0 : K) (value0 : V).
Implicit Types (h : gmap loc (rbnode K V)) (s : tree K V).

Lemma insert_at_head h s n k v fuel :
  rep h s -> uniq s -> rb s false n -> s <> E ->
  ksorted cmp ok (elems s) -> ok k -> (2 * nodes s + 1 <= fuel)%nat ->
  exists h1 (s1 : tree K V) c1 n1,
    with_head key0 value0 (fun head =>
      set_link (Some head) true (root_of s) ;;
      ins_loop cmp fuel (mk_ins (Some head) None None (root_of s) false false) k v ;;
      get_link (Some head) true) h = Some (root_of s1, h1) /\
    rep h1 s1 /\ uniq s1 /\ upd (fun l => occ l s) (fun l => occ l s1) h h1 /\
    rb s1 c1 n1 /\ elems s1 = ains cmp k v (elems s).
Proof.
  intros Hrep Hu Hr Hne Hs Hk Hf.
  destruct (with_head_ok key0 value0 (fun head =>
      ins_loop cmp fuel (mk_ins (Some head) None None (root_of s) false false) k v ;;
      get_link (Some head) true)
    (fun p s1 => p = root_of s1 /\ (exists c n, rb s1 c n) /\ elems s1 = ains cmp k v (elems s))
    h s Hrep Hu) as (p & h1 & s1 & E1 & Hrep1 & Hu1 & Hupd & -> & (c1 & n1 & R1) & He).
  - intros hd h0 Hh.
    destruct (ins_loop_ok cmp ok key0 value0 hd k v fuel
      (mk_ins (Some hd) None None (root_of s) false false) h0 [] s (2 * nodes s + 1) false n)
      as (h' & s' & c' & n' & E' & Hh' & Hu' & R' & He'); try done.
    + constructor.
    + apply phase_exact; [done|done| |done]. simpl. rewrite (rb_tred _ _ _ Hr). done.
    + exists (root_of s'), h', s'. split_and!; [|done|done|done|eauto|done].
      erewrite mbind_Some by exact E'. cbv beta. exact (ctx_get_link _ _ _ _ [] _ (holds_ctx _ _ _ _ _ _ Hh')).
  - by exists h1, s1, c1, n1.
Qed.

Lemma insert_new h k v :
  exists h1 (s1 : tree K V), new_node k v h = Some (root_of s1, h1) /\ rep h1 s1 /\ uniq s1 /\
    upd (fun _ => 0%nat) (fun l => occ l s1) h h1 /\ rb s1 true 0 /\ elems s1 = [(k, v)].
Proof.
  set (a := fresh (dom h)).
  assert (h !! a = None) as Ha by (apply not_elem_of_dom, is_fresh).
  exists (<[a := mk_rbnode k v true None None]> h), (T true E a k v E).
  split_and!; try done.
  - simpl. split; [apply lookup_insert_eq|done].
  - intros l. simpl. unfold one. case_decide; lia.
  - intros l. simpl. unfold one. case_decide; subst; split_and!; try lia; try done.
    intros _ _. by rewrite lookup_insert_ne.
  - by repeat constructor.
Qed.

Lemma rbinsert_ok h tr s k v fuel :
  tree_at h tr s -> ksorted cmp ok (elems s) -> ok k -> (2 * nodes s + 1 <= fuel)%nat ->
  exists h' tr' s', rbinsert cmp key0 value0 fuel tr k v h = Some ((1, tr'), h') /\
    tree_at h' tr' s' /\ size tr' = size tr + 1 /\
    elems s' = ains cmp k v (elems s) /\
    upd (fun l => occ l s) (fun l => occ l s') h h'.
Proof.
  intros [Hroot Hrep Hu [n Hr]] Hs Hk Hf.
  assert (exists h1 s1 c1 n1,
    (if is_null (root tr) then new_node k v
     else with_head key0 value0 (fun head =>
            set_link (Some head) true (root tr) ;;
            ins_loop cmp fuel
              (mk_ins (Some head) None None (root tr) false false) k v ;;
            get_link (Some head) true)) h = Some (root_of s1, h1) /\
    rep h1 s1 /\ uniq s1 /\ upd (fun l => occ l s) (fun l => occ l s1) h h1 /\
    s1 <> E /\ rb s1 c1 n1 /\ elems s1 = ains cmp k v (elems s))
    as (h1 & s1 & c1 & n1 & E1 & Hrep1 & Hu1 & Hupd1 & Hne & R1 & He1).
  { rewrite Hroot. destruct s as [|c l a ka va r].
    - destruct (insert_new h k v) as (h1 & s1 & E1 & Hr1 & Hu1 & Hupd & R1 & He).
      exists h1, s1, true, 0%nat. split_and!; try done. by intros ->.
    - destruct (insert_at_head h _ n k v fuel Hrep Hu Hr ltac:(done) Hs Hk Hf)
        as (h1 & s1 & c1 & n1 & E1 & Hr1 & Hu1 & Hupd & R1 & He).
      exists h1, s1, c1, n1. split_and!; try done.
      intros ->. symmetry in He. by apply ains_nonempty in He. }
  destruct (root_of s1) as [a|] eqn:Ea; [|by destruct s1].
  destruct (set_red_blacken h1 s1 a Hrep1 Hu1 Ea) as (h2 & E2 & Hrep2 & Hag).
  exists h2, (mk_rbtree (Some a) (size tr + 1)), (blacken s1).
  split_and!.
  - unfold rbinsert. erewrite mbind_Some by exact E1. cbv beta.
    by erewrite mbind_Some by exact E2.
  - split; [by rewrite root_of_blacken|done| |by eapply rb_blacken].
    intros l. rewrite occ_blacken. apply Hu1.
  - done.
  - by rewrite elems_blacken.
  - eapply upd_trans; [exact Hupd1|]. eapply upd_agree; [exact Hag| |].
    + intros l ->. apply root_of_Some in Ea. lia.
    + intros l. apply occ_blacken.
Qed.
End rbinsert.

(** C2: [rbinsert] on a red-black tree of sorted keys terminates without
    dereferencing a bad pointer and returns 1; the result is a red-black
    tree with a black root that holds the same entries when the key was
    present, and otherwise the entries with the new one in its place.  The
    code reads and writes only cells of the tree and cells that were free. *)
Theorem rbinsert_correct {K V : Type} (cmp : bool -> K -> K -> Z) (ok : K -> Prop)
    {HO : KeyOrder cmp ok} (key0 : K) (value0 : V) h tr s k v fuel
    (Htree : tree_at h tr s) (Hsorted : ksorted cmp ok (elems s)) (Hok : ok k)
    (Hfuel : (2 * nodes s + 1 <= fuel)%nat) :
  exists h' tr' s', rbinsert cmp key0 value0 fuel tr k v h = Some ((1, tr'), h') /\
    tree_at h' tr' s' /\ ksorted cmp ok (elems s') /\ size tr' = size tr + 1 /\
    elems s' = (if amem cmp k (elems s) then elems s else aput cmp k v (elems s)) /\
    upd (fun l => occ l s) (fun l => occ l s') h h'.
Proof.
  destruct (rbinsert_ok cmp ok key0 value0 h tr s k v fuel Htree Hsorted Hok Hfuel)
    as (h' & tr' & s' & E & Ht & Hsz & He & Hu).
  exists h', tr', s'. split_and!; try done. rewrite He. by apply (ksorted_ains cmp ok).
Qed.

Lemma rbinsert_correct_witness :
  exists h' tr' s', rbinsert Zcmp 0 0 7 ex_root 25 250 ex_heap = Some ((1, tr'), h') /\
    tree_at h' tr' s' /\ ksorted Zcmp (fun _ => True) (elems s') /\ size tr' = 4 /\
    elems s' = [(10, 100); (20, 200); (25, 250); (30, 300)] /\
    upd (fun l => occ l ex_tree) (fun l => occ l s') ex_heap h'.
Proof.
  exact (rbinsert_correct Zcmp (fun _ => True) 0 0 ex_heap ex_root ex_tree 25 250 7
    ex_tree_at ex_sorted I (le_n 7)).
Defined.
