(* ===== verification/RBErase.v ===== *)
(** * Removal from the red-black tree ([rberase] of map.cc)

    The state of the loop is a path to the place below [q] in direction
    [dir]: the first frame of the path is [q] itself, the second [p].  The
    invariant [hot] says that the node above the hole can be removed without
    disturbing the black heights. *)
From Stdlib Require Import ZArith Lia Sorted.
From stdpp Require Import prelude gmap.
From S2P Require Import Prelude RBCode RBTree RBOrder.

Local Open Scope Z_scope.
Local Open Scope moo_scope.

Section erase.
Context {K V : Type} (cmp : bool -> K -> K -> Z) (ok : K -> Prop) `{!KeyOrder cmp ok}.
Context (key0 : K) (value0 : V) (hd : loc) (k : K).
Abbreviation heap := (gmap loc (rbnode K V)).
Implicit Types (h : heap) (s x y : tree K V) (f : frame K V) (C : list (frame K V)).
Abbreviation holds := (holds key0 value0 hd).
Abbreviation cptr := (cptr hd).
Abbreviation own := (own hd).

Definition toward_e (kq : K) : bool := cmp false kq k <? 0.

(** The search went the way of the comparison at every frame. *)
Definition follows C : Prop := Forall (fun f => fd f = toward_e (fk f)) C.

(** The frame whose key matches, the [f] of the code *)
Fixpoint found C : ptr :=
  match C with
  | [] => None
  | f :: C' => if cmp false (fk f) k =? 0 then Some (fa f) else found C'
  end.

Definition hot C s : Prop :=
  match C with
  | [] => True
  | f :: C' => fc f = true \/ tred s = true \/ (C' = [] /\ tred (fo f) = false)
  end.

(** Keys on the other side of a frame compare like its own. *)
Lemma other_side f s L R z :
  ok k -> ksorted cmp ok (L ++ elems (plug1 f s) ++ R) -> fd f = toward_e (fk f) ->
  z ∈ elems (fo f) -> toward_e (fst z) = fd f /\ cmp false (fst z) k <> 0.
Proof.
  intros Hk Hs Hd Hz. apply (ksorted_app cmp ok) in Hs as (_ & Hs & _).
  apply (ksorted_app cmp ok) in Hs as (Hs & _ & _).
  rewrite elems_plug1 in Hs. unfold f_lefts, f_rights, toward_e in *. destruct (fd f).
  - apply (ksorted_app cmp ok) in Hs as (Hs & _ & _).
    apply (all_lt_before cmp ok k) in Hs; [|done|simpl; lia].
    unfold all_lt in Hs. rewrite Forall_forall in Hs. apply Hs in Hz. lia.
  - simpl in Hs. apply (ksorted_app cmp ok) in Hs as (_ & Hs & _).
    apply (all_gt_after cmp ok k) in Hs; [|done|simpl; lia].
    unfold all_gt in Hs. rewrite Forall_forall in Hs. apply Hs in Hz. lia.
Qed.

(** What pushing a red node down to [q] leaves: [q] is the node [a] at the
    end of the path [C'], and the search goes on in [x]. *)
Record pushed h C s a kq vq x h' C' c' y' : Prop := {
  pu_holds : holds h' (mk_frame (toward_e kq) c' a kq vq y' :: C') x;
  pu_upd : upd (own C s) (own (mk_frame (toward_e kq) c' a kq vq y' :: C') x) h h';
  pu_rb : exists cx n, rb x cx n /\ ctx_ok (mk_frame (toward_e kq) c' a kq vq y' :: C') cx n;
  pu_hot : hot (mk_frame (toward_e kq) c' a kq vq y' :: C') x;
  pu_follows : follows C';
  pu_found : found C' = found C;
  pu_elems : elems (plug (mk_frame (toward_e kq) c' a kq vq y' :: C') x) = elems (plug C s) }.

Definition pushes h C s a kq vq x (m : M heap ptr) : Prop :=
  exists h' C' c' y', m h = Some (Some (cptr C'), h') /\ pushed h C s a kq vq x h' C' c' y'.

Lemma push_noop h C c a kq vq x y cs n m :
  let s := mkT (toward_e kq) c a kq vq x y in
  holds h C s -> rb s cs n -> ctx_ok C cs n -> follows C ->
  m h = Some (Some (cptr C), h) ->
  c = true \/ tred x = true \/ (C = [] /\ tred y = false) ->
  pushes h C s a kq vq x m.
Proof.
  intros s Hh Hr Hc Hp Hm Hhot. exists h, C, c, y. split; [done|].
  split; [by apply holds_cons| |by eapply ctx_ok_descend|done|done|done|done].
  eapply upd_ext; [apply upd_refl|done|]. intros l. by rewrite own_cons.
Qed.

(** [q] and its child on the way are black, the other child is red: it is
    rotated above [q]. *)
Lemma push_up h C a kq vq x y n m :
  let s := mkT (toward_e kq) false a kq vq x y in
  holds h C s -> rb s false n -> ctx_ok C false n -> follows C ->
  ok k -> ksorted cmp ok (elems (plug C s)) ->
  tred x = false -> tred y = true ->
  m h = (let! n := rbsingle (Some a) (toward_e kq) in
         set_link (Some (cptr C)) (cdir C) n ;; mreturn n) h ->
  pushes h C s a kq vq x m.
Proof.
  intros s Hh Hr Hc Hp Hk Hs Ex Ey Hm. set (d := toward_e kq) in *.
  destruct (tree_dir d y) as (cy & b & kb & vb & y1 & y2 & ->); [by intros ->|].
  rewrite tred_mkT in Ey. subst cy.
  unfold s in *. pose proof Hh as Hg. rewrite <- (mkT_swap d false a) in Hg.
  destruct (rbsingle_at _ _ _ _ _ _ _ _ _ _ _ _ _ _ _ _ _ Hg) as (h2 & E2 & Hh2 & Hu2).
  destruct (rbsingle_spec h d false a kq vq true b kb vb y1 y2 x) as (h1 & E1 & _ & _).
  { apply Hg. } { intros l. pose proof (holds_uniq _ _ _ _ _ _ Hg l). lia. }
  erewrite mbind_Some in E2 by exact E1. cbv beta in E2.
  destruct (other_side (mk_frame d false a kq vq (mkT d true b kb vb y1 y2)) x (lefts C) (rights C) (kb, vb))
    as [Hdb Hnb]; [done|by rewrite elems_plug in Hs|done|simpl; rewrite elems_mkT; destruct d; set_solver|].
  simpl in Hdb, Hnb.
  exists h2, (mk_frame d false b kb vb y2 :: C), true, y1. split.
  { rewrite Hm. erewrite mbind_Some by exact E1. cbv beta. by erewrite mbind_Some by exact E2. }
  assert (plug1 (mk_frame d false b kb vb y2) (plug1 (mk_frame d true a kq vq y1) x) =
    mkT d false b kb vb (mkT (negb d) true a kq vq y1 x) y2) as Ep.
  { unfold plug1. simpl. by rewrite mkT_swap. }
  apply rb_mkT_inv in Hr as (_ & m' & cx & cy & -> & Rx & Ry).
  apply rb_mkT_inv in Ry as (-> & Ry1 & Ry2).
  rewrite (rb_tred _ _ _ Rx) in Ex. subst cx. split; fold d.
  - rewrite !holds_cons, Ep. done.
  - eapply upd_ext; [exact Hu2|intros l; by rewrite mkT_swap|].
    intros l. rewrite !own_cons, Ep. done.
  - exists false, m'. simpl. split_and!; eauto.
  - by left.
  - by constructor.
  - simpl. destruct (cmp false kb k =? 0) eqn:E0; [lia|done].
  - cbn [plug]. rewrite Ep, !elems_plug, !elems_mkT. destruct d; simpl; simplify_list_eq; done.
Qed.

Lemma ctx_ok_red_black C n : ctx_ok C true n -> ctx_ok C false n.
Proof. destruct C as [|f C]; simpl; [done|]. destruct (fc f); [by intros []|done]. Qed.

(** Everything around [q] is black: [p] gives its colour (or, at the root,
    a level of blackness) to [q] and its sibling. *)
Lemma push_flip h f C a kq vq x y b kb vb xo yo n m :
  let s := mkT (toward_e kq) false a kq vq x y in
  fo f = mkT (fd f) false b kb vb xo yo ->
  holds h (f :: C) s -> rb s false n -> ctx_ok (f :: C) false n -> follows (f :: C) ->
  fc f = true \/ C = [] ->
  tred x = false -> tred y = false -> tred xo = false -> tred yo = false ->
  m h = (set_red (Some (fa f)) false ;; set_red (Some b) true ;; set_red (Some a) true ;;
         mreturn (Some (fa f))) h ->
  pushes h (f :: C) s a kq vq x m.
Proof.
  intros s Ho Hh Hr Hc Hp Hpr Ex Ey Exo Eyo Hm. set (d := toward_e kq) in *.
  destruct f as [df cf p kp vp o]. simpl in Ho. subst o.
  pose proof Hh as Hg. rewrite holds_cons in Hg. unfold plug1, s in Hg. simpl in Hg.
  rewrite <- mkT_swap in Hg.
  destruct (recolor3 h (negb df) cf false false false true true p kp vp df b kb vb xo yo
    d a kq vq x y) as (h1 & h2 & h3 & E1 & E2 & E3 & Hrep & Hag).
  { apply Hg. } { intros l. pose proof (holds_uniq _ _ _ _ _ _ Hg l). lia. }
  exists h3, (mk_frame df false p kp vp (mkT df true b kb vb xo yo) :: C), true, y.
  split.
  { rewrite Hm. simpl. erewrite mbind_Some by exact E1. cbv beta.
    erewrite mbind_Some by exact E2. cbv beta. by erewrite mbind_Some by exact E3. }
  assert (plug1 (mk_frame df false p kp vp (mkT df true b kb vb xo yo))
      (plug1 (mk_frame d true a kq vq y) x) =
    mkT (negb df) false p kp vp (mkT df true b kb vb xo yo) (mkT d true a kq vq x y)) as Ep.
  { unfold plug1. simpl. by rewrite mkT_swap. }
  unfold s in Hr. apply rb_mkT_inv in Hr as (_ & m' & cx & cy & -> & Rx & Ry).
  rewrite (rb_tred _ _ _ Rx) in Ex. rewrite (rb_tred _ _ _ Ry) in Ey. subst cx cy.
  assert (rb (mkT df true b kb vb xo yo) true m' /\ ctx_ok C false (S m')) as [Ro Hc'].
  { assert ((exists co, rb (mkT df false b kb vb xo yo) co (S m')) /\ ctx_ok C false (S m'))
      as [[co Ro] Hc'].
    { simpl in Hc. destruct cf; [|destruct Hpr as [| ->]; [done|naive_solver]].
      destruct Hc as (_ & Ro & Hc). split; [eauto|by apply ctx_ok_red_black]. }
    split; [|done]. apply rb_mkT_inv in Ro as (_ & m2 & cx & cy & E & Rxo & Ryo).
    injection E as <-. rewrite (rb_tred _ _ _ Rxo) in Exo. rewrite (rb_tred _ _ _ Ryo) in Eyo.
    subst. by apply rb_mkT_red. }
  split; fold d.
  - rewrite !holds_cons, Ep. eapply holds_inplace; [exact Hg|exact Hag|exact Hrep| |].
    + intros l. by autorewrite with rb.
    + by rewrite !root_of_mkT.
  - eapply upd_agree; [exact Hag| |]; intros l; rewrite !own_cons.
    + unfold plug1, s, RBTree.own. simpl. cbv beta. intros Hl. autorewrite with rb in *. lia.
    + rewrite Ep. unfold plug1, s, RBTree.own. simpl. autorewrite with rb. lia.
  - exists false, m'. simpl. split_and!; eauto.
  - by left.
  - by apply Forall_cons in Hp as [? ?]; constructor.
  - done.
  - cbn [plug]. rewrite Ep. unfold plug1, s. simpl. rewrite !elems_plug, !elems_mkT.
    by destruct df.
Qed.

(** The recolouring after a rotation at [p]: the new top [t] and [q] become
    red, the children of [t] black. *)
Definition era_paint (n q : ptr) : M heap unit :=
  set_red n true ;; set_red q true ;;
  let! n0 := get_link n false in set_red n0 false ;;
  let! n1 := get_link n true in set_red n1 false.

Lemma era_paint_ok h d ct t kt vt cp p kp vp e cq a kq vq x y z e2 cb b kb vb u w :
  let s := mkT d ct t kt vt (mkT d cp p kp vp (mkT e cq a kq vq x y) z)
                            (mkT e2 cb b kb vb u w) in
  rep h s -> uniq s ->
  exists h', era_paint (Some t) (Some a) h = Some (tt, h') /\
    rep h' (mkT d true t kt vt (mkT d false p kp vp (mkT e true a kq vq x y) z)
                               (mkT e2 false b kb vb u w)) /\
    agree (fun l => occ l s <> 0%nat) h h'.
Proof.
  intros s Hs Hu. unfold s in *. rewrite !rep_mkT in Hs. autorewrite with rb in Hs.
  destruct Hs as (Ht & (Hp & (Ha & Hx & Hy) & Hz) & (Hb & Hu1 & Hw)).
  assert (t <> p) by occ_ne Hu p. assert (t <> a) by occ_ne Hu a. assert (t <> b) by occ_ne Hu b.
  assert (p <> a) by occ_ne Hu a. assert (p <> b) by occ_ne Hu b. assert (a <> b) by occ_ne Hu b.
  assert (exists h', era_paint (Some t) (Some a) h = Some (tt, h') /\
    h' !! t = Some (mkN d true kt vt (Some p) (Some b)) /\
    h' !! p = Some (mkN d false kp vp (Some a) (root_of z)) /\
    h' !! a = Some (mkN e true kq vq (root_of x) (root_of y)) /\
    h' !! b = Some (mkN e2 false kb vb (root_of u) (root_of w)) /\
    agree (fun l => l = t \/ l = a \/ l = p \/ l = b) h h')
    as (h' & E1 & Ht' & Hp' & Ha' & Hb' & Hag).
  { destruct d; (eexists; split;
      [unfold era_paint; do 5 mstep; eapply set_red_eq; mlook|]);
    mnorm; (split_and!; [mlook..|]);
    repeat first [ apply agree_refl | eapply agree_insert2; [|mlook|cbv beta; tauto] ]. }
  exists h'. split; [done|]. rewrite !rep_mkT. autorewrite with rb.
  split; [split_and!; try done; keep_rep Hu Hag|].
  eapply agree_weaken; [exact Hag|]. intros l Hl. cbv beta.
  autorewrite with rb. destruct Hl as [->|[->|[->| ->]]]; rewrite one_same; lia.
Qed.

Lemma era_paint_ret n q (p : ptr) h h' :
  era_paint n q h = Some (tt, h') ->
  (set_red n true ;; set_red q true ;;
   let! n0 := get_link n false in set_red n0 false ;;
   let! n1 := get_link n true in set_red n1 false ;; mreturn p) h = Some (p, h').
Proof.
  unfold era_paint. intros H.
  apply mbind_inv in H as ([] & h1 & E1 & H). erewrite mbind_Some by exact E1.
  apply mbind_inv in H as ([] & h2 & E2 & H). erewrite mbind_Some by exact E2.
  apply mbind_inv in H as (n0 & h3 & E3 & H). erewrite mbind_Some by exact E3.
  apply mbind_inv in H as ([] & h4 & E4 & H). erewrite mbind_Some by exact E4.
  apply mbind_inv in H as (n1 & h5 & E5 & H). erewrite mbind_Some by exact E5.
  by erewrite mbind_Some by exact H.
Qed.

(** A rotation at [p] that brings [t] up, followed by the recolouring *)
Lemma push_rotated h f C a kq vq x y n ct t kt vt cp z e2 cb b kb vb u w h2 rot m :
  let s := mkT (toward_e kq) false a kq vq x y in
  let s0 := mkT (fd f) ct t kt vt (mkT (fd f) cp (fa f) (fk f) (fv f) s z)
                                  (mkT e2 cb b kb vb u w) in
  rot h = Some (tt, h2) -> holds h2 C s0 ->
  upd (own C (plug1 f s)) (own C s0) h h2 ->
  elems s0 = elems (plug1 f s) ->
  rb x false n -> rb y false n -> (exists cz, rb z cz n) ->
  rb (mkT e2 false b kb vb u w) false (S n) -> ctx_ok C true (S n) ->
  follows (f :: C) -> toward_e kt = fd f -> cmp false kt k <> 0 ->
  m h = (rot ;; let! n := get_link (Some (cptr C)) (cdir C) in
         set_red n true ;; set_red (Some a) true ;;
         let! n0 := get_link n false in set_red n0 false ;;
         let! n1 := get_link n true in set_red n1 false ;; mreturn (Some (fa f))) h ->
  pushes h (f :: C) s a kq vq x m.
Proof.
  intros s s0 Erot Hh2 Hu2 He Rx Ry Rz Rb Hc Hp Hkt Hkt0 Hm.
  pose proof (ctx_get_link _ _ _ _ _ _ (holds_ctx _ _ _ _ _ _ Hh2)) as Eg.
  unfold s0 in Eg. rewrite root_of_mkT in Eg.
  destruct (era_paint_ok h2 (fd f) ct t kt vt cp (fa f) (fk f) (fv f) (toward_e kq) false a kq vq
    x y z e2 cb b kb vb u w) as (h3 & E3 & Hrep & Hag).
  { apply Hh2. } { intros l. pose proof (holds_uniq _ _ _ _ _ _ Hh2 l). unfold s0, s in *. lia. }
  exists h3, (mk_frame (fd f) false (fa f) (fk f) (fv f) z ::
              mk_frame (fd f) true t kt vt (mkT e2 false b kb vb u w) :: C), true, y.
  apply Forall_cons in Hp as [Hpf Hp].
  split.
  { rewrite Hm. erewrite mbind_Some by exact Erot. cbv beta.
    erewrite mbind_Some by exact Eg. cbv beta. by apply era_paint_ret. }
  split.
  - rewrite !holds_cons. unfold plug1. simpl.
    eapply holds_inplace; [exact Hh2|exact Hag|exact Hrep| |].
    + intros l. unfold s0, s. by autorewrite with rb.
    + unfold s0. by rewrite !root_of_mkT.
  - eapply upd_trans; [eapply upd_ext; [exact Hu2|intros l; apply own_cons|done]|].
    eapply upd_agree; [exact Hag| |].
    + intros l Hl. unfold RBTree.own, s0, s. cbv beta in Hl. autorewrite with rb in *. lia.
    + intros l. rewrite !own_cons. unfold RBTree.own, s0, s, plug1. simpl. autorewrite with rb. lia.
  - exists false, n. simpl. split_and!; eauto.
  - by left.
  - constructor; [done|]. by constructor.
  - simpl. destruct (cmp false kt k =? 0) eqn:E0; [lia|done].
  - cbn [plug]. rewrite !(elems_plug C). f_equal. f_equal. rewrite <- He. unfold plug1, s0, s. simpl.
    by rewrite !elems_mkT.
Qed.

(** The facts the two rotations of the sibling share *)
Lemma sibling_rb f C a kq vq x y n b kb vb xo yo :
  let s := mkT (toward_e kq) false a kq vq x y in
  fo f = mkT (fd f) false b kb vb xo yo ->
  rb s false n -> ctx_ok (f :: C) false n -> fc f = true \/ C = [] ->
  tred x = false -> tred y = false ->
  exists m, n = S m /\ rb x false m /\ rb y false m /\
    (exists co, rb xo co m) /\ (exists co, rb yo co m) /\ ctx_ok C true (S m).
Proof.
  intros s Ho Hr Hc Hpr Ex Ey. unfold s in Hr.
  apply rb_mkT_inv in Hr as (_ & m' & cx & cy & -> & Rx & Ry).
  rewrite (rb_tred _ _ _ Rx) in Ex. rewrite (rb_tred _ _ _ Ry) in Ey. subst cx cy.
  assert ((exists co, rb (fo f) co (S m')) /\ ctx_ok C true (S m')) as [[co Ro] Hc'].
  { simpl in Hc. destruct (fc f); [|destruct Hpr as [| ->]; [done|naive_solver]].
    destruct Hc as (_ & Ro & Hc). eauto. }
  rewrite Ho in Ro. apply rb_mkT_inv in Ro as (_ & m2 & cxo & cyo & E & Rxo & Ryo).
  injection E as <-. exists m'. split_and!; eauto.
Qed.

(** The near child of the sibling is red: double rotation. *)
Lemma push_double h f C a kq vq x y b kb vb xo yo n m :
  let s := mkT (toward_e kq) false a kq vq x y in
  fo f = mkT (fd f) false b kb vb xo yo ->
  holds h (f :: C) s -> rb s false n -> ctx_ok (f :: C) false n -> follows (f :: C) ->
  ok k -> ksorted cmp ok (elems (plug (f :: C) s)) -> fc f = true \/ C = [] ->
  tred x = false -> tred y = false -> tred xo = true ->
  m h = ((let! n := rbdouble (Some (fa f)) (fd f) in set_link (Some (cptr C)) (cdir C) n) ;;
         let! n := get_link (Some (cptr C)) (cdir C) in
         set_red n true ;; set_red (Some a) true ;;
         let! n0 := get_link n false in set_red n0 false ;;
         let! n1 := get_link n true in set_red n1 false ;; mreturn (Some (fa f))) h ->
  pushes h (f :: C) s a kq vq x m.
Proof.
  intros s Ho Hh Hr Hc Hp Hk Hs Hpr Ex Ey Exo Hm.
  destruct (sibling_rb _ _ _ _ _ _ _ _ _ _ _ _ _ Ho Hr Hc Hpr Ex Ey)
    as (n' & -> & Rx & Ry & [cxo Rxo] & [cyo Ryo] & Hc').
  destruct (tree_dir (fd f) xo) as (ce & e & ke & ve & x1 & x2 & ->); [by intros ->|].
  rewrite tred_mkT in Exo. subst ce. apply rb_mkT_inv in Rxo as (_ & Rx1 & Rx2).
  pose proof Hh as Hg. rewrite holds_cons in Hg. unfold plug1 in Hg. rewrite Ho in Hg.
  rewrite <- (mkT_swap (fd f) (fc f)) in Hg.
  destruct (rbdouble_at _ _ _ _ _ _ _ _ _ _ _ _ _ _ _ _ _ _ _ _ _ _ Hg) as (h2 & E2 & Hh2 & Hu2).
  destruct (other_side f s (lefts C) (rights C) (ke, ve)) as [Hde Hne];
    [done|by rewrite <- elems_plug|by apply Forall_cons in Hp as []| |].
  { rewrite Ho, elems_mkT. destruct (fd f); rewrite elems_mkT; set_solver. }
  rewrite (mkT_swap (fd f) true (fa f)) in *.
  eapply push_rotated; [exact E2|exact Hh2| | |exact Rx|exact Ry|eauto| | |exact Hp|exact Hde|exact Hne|exact Hm].
  - unfold plug1. rewrite Ho, <- mkT_swap. exact Hu2.
  - unfold plug1. rewrite Ho, !elems_mkT.
    destruct (fd f); rewrite ?elems_mkT; simplify_list_eq; done.
  - eapply rb_mkT_black; [exact Rx2|exact Ryo].
  - done.
Qed.

(** Only the far child of the sibling is red: single rotation. *)
Lemma push_single h f C a kq vq x y b kb vb xo yo n m :
  let s := mkT (toward_e kq) false a kq vq x y in
  fo f = mkT (fd f) false b kb vb xo yo ->
  holds h (f :: C) s -> rb s false n -> ctx_ok (f :: C) false n -> follows (f :: C) ->
  ok k -> ksorted cmp ok (elems (plug (f :: C) s)) -> fc f = true \/ C = [] ->
  tred x = false -> tred y = false -> tred yo = true ->
  m h = ((let! n := rbsingle (Some (fa f)) (fd f) in set_link (Some (cptr C)) (cdir C) n) ;;
         let! n := get_link (Some (cptr C)) (cdir C) in
         set_red n true ;; set_red (Some a) true ;;
         let! n0 := get_link n false in set_red n0 false ;;
         let! n1 := get_link n true in set_red n1 false ;; mreturn (Some (fa f))) h ->
  pushes h (f :: C) s a kq vq x m.
Proof.
  intros s Ho Hh Hr Hc Hp Hk Hs Hpr Ex Ey Eyo Hm.
  destruct (sibling_rb _ _ _ _ _ _ _ _ _ _ _ _ _ Ho Hr Hc Hpr Ex Ey)
    as (n' & -> & Rx & Ry & [cxo Rxo] & [cyo Ryo] & Hc').
  destruct (tree_dir (fd f) yo) as (ce & e & ke & ve & y1 & y2 & ->); [by intros ->|].
  rewrite tred_mkT in Eyo. subst ce. apply rb_mkT_inv in Ryo as (_ & Ry1 & Ry2).
  pose proof Hh as Hg. rewrite holds_cons in Hg. unfold plug1 in Hg. rewrite Ho in Hg.
  rewrite <- (mkT_swap (fd f) (fc f)) in Hg.
  destruct (rbsingle_at _ _ _ _ _ _ _ _ _ _ _ _ _ _ _ _ _ Hg) as (h2 & E2 & Hh2 & Hu2).
  destruct (other_side f s (lefts C) (rights C) (kb, vb)) as [Hde Hne];
    [done|by rewrite <- elems_plug|by apply Forall_cons in Hp as []| |].
  { rewrite Ho, elems_mkT. destruct (fd f); set_solver. }
  rewrite (mkT_swap (fd f) true (fa f)) in *.
  eapply push_rotated; [exact E2|exact Hh2| | |exact Rx|exact Ry|eauto| | |exact Hp|exact Hde|exact Hne|exact Hm].
  - unfold plug1. rewrite Ho, <- mkT_swap. exact Hu2.
  - unfold plug1. rewrite Ho, !elems_mkT.
    destruct (fd f); rewrite ?elems_mkT; simplify_list_eq; done.
  - eapply rb_mkT_black; [exact Ry1|exact Ry2].
  - done.
Qed.

(** The parent of the parent, as the code's [g] when [p] is the hole's parent *)
Definition above_ptr C : ptr := match C with [] => None | _ :: C' => Some (cptr C') end.

(** The tests of [era_push] on the colours of [q] and its children *)
Lemma push_tests h C s' c a kq vq x y p g last :
  holds h C s' -> s' = mkT (toward_e kq) c a kq vq x y ->
  era_push (Some a) p g (toward_e kq) last h =
    if c then Some (p, h)
    else if tred x then Some (p, h)
    else if tred y then
      (let! n := rbsingle (Some a) (toward_e kq) in set_link p last n ;; mreturn n) h
    else (era_sibling (Some a) p g last) h.
Proof.
  intros Hh ->. pose proof (holds_sub _ _ _ _ _ _ Hh) as Hrep.
  apply rep_mkT in Hrep as (Ha & Hx & Hy).
  unfold era_push. mstep. destruct c; [done|]. mstep. mstep.
  destruct (tred x); [done|]. mstep. mstep. by destruct (tred y).
Qed.

(** The tests of [era_sibling], with [o] the sibling of [q] *)
Lemma sibling_tests h f C s a co b kb vb xo yo :
  holds h (f :: C) s -> fo f = mkT (fd f) co b kb vb xo yo ->
  era_sibling (Some a) (Some (fa f)) (Some (cptr C)) (fd f) h =
    if negb (tred yo) && negb (tred xo)
    then (set_red (Some (fa f)) false ;; set_red (Some b) true ;; set_red (Some a) true ;;
          mreturn (Some (fa f))) h
    else
     ((if tred xo
       then let! n := rbdouble (Some (fa f)) (fd f) in set_link (Some (cptr C)) (cdir C) n
       else if tred yo
       then let! n := rbsingle (Some (fa f)) (fd f) in set_link (Some (cptr C)) (cdir C) n
       else mreturn tt) ;;
      let! n := get_link (Some (cptr C)) (cdir C) in
      set_red n true ;; set_red (Some a) true ;;
      let! n0 := get_link n false in set_red n0 false ;;
      let! n1 := get_link n true in set_red n1 false ;; mreturn (Some (fa f))) h.
Proof.
  intros Hh Ho. pose proof Hh as [Hc Hs Hu].
  destruct Hc as (Hf & Hrepo & Hrest). rewrite Ho in Hf, Hrepo.
  apply rep_mkT in Hrepo as (Hb & Hxo & Hyo).
  destruct (ctx_dir2 key0 value0 hd h C (fa f) Hrest) as (gl & E1 & E2).
  { intros l. specialize (Hu l). simpl in Hu. lia. }
  unfold era_sibling. mstep. mstep. mstep. mstep. mstep.
  destruct (negb (tred yo) && negb (tred xo)); [done|].
  erewrite mbind_Some by exact E1. cbv beta zeta. by rewrite E2.
Qed.

Lemma push h C c a kq vq x y cs n :
  let s := mkT (toward_e kq) c a kq vq x y in
  holds h C s -> rb s cs n -> ctx_ok C cs n -> follows C -> hot C s ->
  ok k -> ksorted cmp ok (elems (plug C s)) ->
  pushes h C s a kq vq x
    (era_push (Some a) (Some (cptr C)) (above_ptr C) (toward_e kq) (cdir C)).
Proof.
  intros s Hh Hr Hc Hp Hhot Hk Hs.
  pose proof (push_tests h C s c a kq vq x y (Some (cptr C)) (above_ptr C) (cdir C) Hh eq_refl) as Ht.
  assert (cs = c) as -> by (apply rb_tred in Hr; unfold s in Hr; by rewrite tred_mkT in Hr).
  destruct c; [eapply push_noop; eauto|]. destruct (tred x) eqn:Ex; [eapply push_noop; eauto|].
  destruct (tred y) eqn:Ey; [by eapply push_up|].
  destruct C as [|f C].
  { eapply push_noop; eauto. rewrite Ht. unfold era_sibling. simpl.
    pose proof (holds_ctx _ _ _ _ _ _ Hh) as Hhd. simpl in Hhd. by mstep. }
  assert (fc f = true \/ C = []) as Hpr.
  { destruct Hhot as [|[Hss|[]]]; auto. unfold s in Hss. by rewrite tred_mkT in Hss. }
  assert (exists b kb vb xo yo, fo f = mkT (fd f) false b kb vb xo yo) as (b & kb & vb & xo & yo & Ho).
  { assert (rb (fo f) false n) as Ro.
    { simpl in Hc. destruct (fc f) eqn:Ef; [naive_solver|]. destruct Hc as [[co Ro] _].
      destruct Hhot as [|[Hss|[_ Hto]]]; [congruence|unfold s in Hss; by rewrite tred_mkT in Hss|].
      apply rb_tred in Ro as Hco. congruence. }
    unfold s in Hr. apply rb_mkT_inv in Hr as (_ & m & ? & ? & -> & _).
    destruct (tree_dir (fd f) (fo f)) as (co & b & kb & vb & xo & yo & Eo).
    { intros E. rewrite E in Ro. inversion Ro. }
    rewrite Eo in Ro. apply rb_tred in Ro. rewrite tred_mkT in Ro. subst co. eauto 10. }
  pose proof (sibling_tests h f C s a false b kb vb xo yo Hh Ho) as Hst.
  simpl in Ht. rewrite Hst in Ht. clear Hst.
  destruct (tred xo) eqn:Exo; [|destruct (tred yo) eqn:Eyo].
  - rewrite andb_false_r in Ht. by eapply push_double.
  - by eapply push_single.
  - by eapply push_flip.
Qed.

(** ** The loop *)

Definition era_linked (st : era_locals) C : Prop :=
  e_q st = Some (cptr C) /\ e_p st = above_ptr C /\ e_f st = found C /\ e_dir st = cdir C.

Lemma era_loop_ok fuel : forall st h C s c n,
  (nodes s < fuel)%nat -> ok k -> ksorted cmp ok (elems (plug C s)) ->
  holds h C s -> rb s c n -> ctx_ok C c n -> follows C -> hot C s -> era_linked st C ->
  exists st' h' C', era_loop cmp fuel st k h = Some (st', h') /\
    holds h' C' E /\ ctx_ok C' false 0 /\ follows C' /\ hot C' E /\ era_linked st' C' /\
    upd (own C s) (own C' E) h h' /\ elems (plug C' E) = elems (plug C s).
Proof.
  induction fuel as [|fuel IH]; intros st h C s c n Hf Hk Hs Hh Hr Hc Hp Hhot (Lq & Lp & Lf & Ld).
  { lia. }
  cbn [era_loop]. rewrite Lq, Ld.
  erewrite mbind_Some by (eapply ctx_get_link, Hh). cbv beta.
  destruct s as [|c0 l a kq vq r].
  { inversion Hr; subst. exists st, h, C. split_and!; done. }
  rewrite (T_mkT (toward_e kq)) in *. set (x := if toward_e kq then r else l) in *.
  set (y := if toward_e kq then l else r) in *. rewrite root_of_mkT.
  assert (node_compare cmp false (Some a) k h = Some (cmp false kq k, h)) as Ecmp.
  { pose proof (holds_sub _ _ _ _ _ _ Hh) as Hrep. apply rep_mkT in Hrep as (Ha & _).
    unfold node_compare. by mstep. }
  cbv zeta. erewrite mbind_Some by exact Ecmp. cbv beta.
  erewrite mbind_Some by exact Ecmp. cbv beta. fold (toward_e kq).
  destruct (push h C c0 a kq vq x y c n Hh Hr Hc Hp Hhot Hk Hs)
    as (h1 & C1 & c1 & y1 & E1 & [Hh1 Hu1 (cx & nx & Rx & Hcx) Hhot1 Hp1 Hf1 He1]).
  rewrite Lp. erewrite mbind_Some by exact E1. cbv beta.
  destruct (IH (mk_era (Some a) (Some (cptr C1)) (above_ptr C)
      (if cmp false kq k =? 0 then Some a else e_f st) (toward_e kq)) h1
      (mk_frame (toward_e kq) c1 a kq vq y1 :: C1) x cx nx)
    as (st' & h' & C' & E' & Hh' & Hc' & Hp' & Hhot' & HL' & Hu' & He'); try done.
  - rewrite nodes_mkT in Hf. lia.
  - by rewrite He1.
  - by constructor.
  - split_and!; try done. simpl. by rewrite Hf1, Lf.
  - exists st', h', C'. split_and!; try done.
    + by eapply upd_trans.
    + by rewrite He'.
Qed.

(** ** The removal *)

Lemma found_None C : follows C -> found C = None -> on_path cmp k C.
Proof.
  induction 1 as [|f C Hf HC IH]; simpl; [by constructor|].
  destruct (cmp false (fk f) k =? 0) eqn:E0; [done|]. intros HN.
  constructor; [|by apply IH]. split; [exact Hf|lia].
Qed.

Lemma found_Some C af :
  found C = Some af ->
  exists A f B, C = A ++ f :: B /\ fa f = af /\ cmp false (fk f) k = 0 /\
    Forall (fun f => cmp false (fk f) k <> 0) A.
Proof.
  induction C as [|f C IH]; simpl; [done|].
  destruct (cmp false (fk f) k =? 0) eqn:E0.
  - intros [= <-]. exists [], f, C. split_and!; [done|done|lia|constructor].
  - intros (A & g & B & -> & Hg & Hc & HA)%IH. exists (f :: A), g, B.
    split_and!; [done|done|done|]. constructor; [lia|done].
Qed.

Lemma frame_in_elems f A s : f ∈ A -> (fk f, fv f) ∈ elems (plug A s).
Proof.
  revert s. induction A as [|g A IH]; intros s; [by intros ?%elem_of_nil|].
  intros [->|Hf]%elem_of_cons; simpl; [|by apply IH].
  rewrite elems_plug, elems_plug1. unfold f_lefts, f_rights. destruct (fd g); set_solver.
Qed.

(** The sequence below the frame [f] whose key matches *)
Lemma erase_split A f B s :
  ok k -> ksorted cmp ok (elems (plug (A ++ f :: B) s)) -> follows (A ++ f :: B) ->
  cmp false (fk f) k = 0 ->
  fd f = false /\
  amem cmp k (elems (plug (A ++ f :: B) s)) = true /\
  adel cmp k (elems (plug (A ++ f :: B) s)) =
    lefts B ++ elems (plug A s) ++ elems (fo f) ++ rights B /\
  Forall (fun z => cmp false (fst z) k < 0) (elems (plug A s)).
Proof.
  intros Hk Hs Hp Hf. apply Forall_app in Hp as [_ Hp]. apply Forall_cons in Hp as [Hd _].
  assert (fd f = false) as Hd' by (rewrite Hd; unfold toward_e; lia).
  rewrite plug_app in *. cbn [plug] in *. rewrite elems_plug, elems_plug1 in *.
  unfold f_lefts, f_rights in *. rewrite Hd' in *.
  assert (forall X Y : list (K * V), X ++ ([] ++ Y ++ (fk f, fv f) :: elems (fo f)) ++ rights B =
    (X ++ Y) ++ (fk f, fv f) :: (elems (fo f) ++ rights B)) as Eapp.
  { intros. by simplify_list_eq. }
  rewrite Eapp in *.
  destruct (adel_split cmp ok k _ _ _ Hk Hs Hf) as (Hlt & Hm & Hdel).
  apply Forall_app in Hlt as [_ Hlt]. split_and!; try done.
  rewrite Hdel. by rewrite <- app_assoc.
Qed.

(** Below the matching frame the path only turns right, so [q] holds its
    predecessor. *)
Lemma plug_predecessor g A f B :
  follows ((g :: A) ++ f :: B) -> fd f = false ->
  Forall (fun z => cmp false (fst z) k < 0) (elems (plug (g :: A) E)) ->
  elems (plug (A ++ frame_data f (fk g) (fv g) :: B) (fo g)) =
    lefts B ++ elems (plug (g :: A) E) ++ elems (fo f) ++ rights B.
Proof.
  intros [Hp _]%Forall_app Hdf Hlt. rewrite Forall_forall in Hlt.
  assert (Forall (fun f => fd f = true) (g :: A)) as Hd.
  { apply Forall_forall. intros f' Hf'. unfold follows in Hp. rewrite Forall_forall in Hp.
    rewrite (Hp f' Hf'). apply (frame_in_elems f' _ E) in Hf'. apply Hlt in Hf'.
    unfold toward_e. simpl in Hf'. lia. }
  apply Forall_cons in Hd as [Hg HdA]. rewrite plug_app. cbn [plug].
  rewrite !(elems_plug B), (elems_plug A (plug1 g E)), !elems_plug1, (elems_plug A).
  rewrite (rights_nil A) by done. unfold f_lefts, f_rights. simpl. rewrite Hg, Hdf.
  simpl. by simplify_list_eq.
Qed.

(** The data of [q] (the frame [fq]) is copied to the matching frame. *)
Lemma copy_data h fq C af :
  holds h (fq :: C) E -> follows (fq :: C) -> found (fq :: C) = Some af ->
  ok k -> ksorted cmp ok (elems (plug (fq :: C) E)) ->
  exists nf h1 C1,
    h !! af = Some nf /\
    store (Some af) (with_data nf (fk fq) (fv fq)) h = Some (tt, h1) /\
    holds h1 (fq :: C1) E /\ agree (fun l => l = af) h h1 /\ (1 <= occ_ctx hd af (fq :: C))%nat /\
    (forall l, occ_ctx hd l C1 = occ_ctx hd l C) /\ cptr C1 = cptr C /\
    (forall c n, ctx_ok C c n -> ctx_ok C1 c n) /\ (C = [] -> C1 = []) /\
    amem cmp k (elems (plug (fq :: C) E)) = true /\
    elems (plug C1 (fo fq)) = adel cmp k (elems (plug (fq :: C) E)).
Proof.
  intros [Hc Hs Hu] Hp Hf Hk Hso.
  destruct (found_Some _ _ Hf) as (A & f & B & EC & <- & Hfk & HA).
  destruct (rep_ctx_data key0 value0 hd h A f B None (fk fq) (fv fq))
    as (p' & Hl & Hc1); [by rewrite <- EC|rewrite <- EC; intros x; specialize (Hu x); simpl in *; lia|].
  rewrite EC in Hso, Hp. destruct (erase_split A f B E Hk Hso Hp Hfk) as (Hdf & Hm & Hdel & Hlt).
  rewrite <- EC in Hm, Hdel.
  assert (with_data (mkN (fd f) (fc f) (fk f) (fv f) p' (root_of (fo f))) (fk fq) (fv fq) =
    mkN (fd f) (fc f) (fk fq) (fv fq) p' (root_of (fo f))) as Ed by (by destruct (fd f)).
  assert (exists C1, A ++ frame_data f (fk fq) (fv fq) :: B = fq :: C1 /\
    (forall l, occ_ctx hd l C1 = occ_ctx hd l C) /\ cptr C1 = cptr C /\
    (forall c n, ctx_ok C c n -> ctx_ok C1 c n) /\ (C = [] -> C1 = []) /\
    elems (plug C1 (fo fq)) = adel cmp k (elems (plug (fq :: C) E)))
    as (C1 & EC1 & Ho & Hcp & Hok & Hnil & Hel).
  { destruct A as [|g A]; simpl in EC; injection EC as -> ->.
    - exists B. unfold frame_data. split_and!; try done; [by destruct f|].
      rewrite Hdel. by rewrite elems_plug.
    - exists (A ++ frame_data f (fk g) (fv g) :: B).
      split_and!; try done; intros; [apply occ_ctx_data|apply cptr_data|by apply ctx_ok_data|by destruct A|].
      rewrite Hdel. by apply plug_predecessor. }
  eexists _, _, C1. split; [exact Hl|]. rewrite Ed. split; [by eapply store_eq|].
  rewrite EC1 in Hc1. split_and!; try done.
  - split; [done|done|]. intros l. specialize (Hu l). simpl in *. by rewrite Ho.
  - by eapply agree_insert.
  - rewrite EC. apply occ_ctx_frame.
Qed.

(** [q] is unlinked and released. *)
Lemma unlink h fq C af :
  holds h (fq :: C) E -> found (fq :: C) = Some af ->
  forall nf h1 C1 sz g d,
    h !! af = Some nf ->
    store (Some af) (with_data nf (fk fq) (fv fq)) h = Some (tt, h1) ->
    holds h1 (fq :: C1) E -> agree (fun l => l = af) h h1 ->
    (1 <= occ_ctx hd af (fq :: C))%nat -> (forall l, occ_ctx hd l C1 = occ_ctx hd l C) ->
    cptr C1 = cptr C ->
    exists h2, era_remove (mk_era (Some (fa fq)) (Some (cptr C)) g (Some af) d) sz h =
        Some ((1, sz - 1), h2) /\
      holds h2 C1 (fo fq) /\ upd (own (fq :: C) E) (own C1 (fo fq)) h h2.
Proof.
  intros Hh Hf nf h1 C1 sz g d Hnf Est [(Hq & Hfo & Hc1) _ Hu] Hag Haf Ho Hcp.
  assert (h !! fa fq = Some (mkN (fd fq) (fc fq) (fk fq) (fv fq) None (root_of (fo fq)))) as Hq0.
  { apply (holds_ctx _ _ _ _ _ _ Hh). }
  simpl in Hu. pose proof (Hu (fa fq)) as Huq. rewrite one_same in Huq.
  destruct (ctx_dir2 key0 value0 hd h1 C1 (fa fq) Hc1) as (p1 & E1 & E2).
  { intros x. specialize (Hu x). lia. }
  destruct (ctx_set_link key0 value0 hd h1 C1 _ (root_of (fo fq)) Hc1) as (h2 & E3 & Hc2 & Hag2).
  { intros x. specialize (Hu x). lia. }
  assert (cptr C1 <> fa fq) as Hne.
  { intros E. pose proof (cptr_occ hd C1). rewrite E in *. lia. }
  assert (h2 !! fa fq = h1 !! fa fq) as Hq2 by (by apply Hag2).
  assert (link (mkN (fd fq) (fc fq) (fk fq) (fv fq) None (root_of (fo fq)))
      (is_null (link (mkN (fd fq) (fc fq) (fk fq) (fv fq) None (root_of (fo fq))) false)) =
    root_of (fo fq)) as Echild.
  { by destruct (fd fq), (fo fq). }
  exists (delete (fa fq) h2). split; [|split].
  - unfold era_remove. cbn [e_q e_p e_f]. do 2 mstep.
    erewrite mbind_Some; [|exact Est]. cbv beta. rewrite <- Hcp.
    cbn [root_of] in Hq.
    erewrite mbind_Some by exact E1. cbv beta.
    erewrite mbind_Some by (eapply get_link_eq, Hq). cbv beta.
    erewrite mbind_Some by (eapply get_link_eq, Hq). cbv beta. rewrite Echild, E2.
    erewrite mbind_Some by exact E3. cbv beta.
    unfold free_node, mbindM. rewrite Hq2, Hq. done.
  - split.
    + apply rep_ctx_delete; [done|]. lia.
    + apply rep_delete; [|lia]. eapply rep_agree; [exact Hfo|exact Hag2|].
      intros l ->. pose proof (cptr_occ hd C1). specialize (Hu (cptr C1)). lia.
    + intros x. specialize (Hu x). lia.
  - pose proof (cptr_occ hd C1) as Hcpo. simpl in Haf. rewrite <- Ho in Haf.
    intros l. unfold RBTree.own. simpl. rewrite <- Ho. specialize (Hu l).
    destruct (decide (l = fa fq)) as [->|Hl].
    + rewrite lookup_delete_eq, one_same. split_and!; [lia|lia|done].
    + assert (one l (fa fq) = 0%nat) as E0 by (unfold one; by rewrite decide_False).
      rewrite E0. rewrite lookup_delete_ne by done. split_and!; try lia.
      intros Hl1 _. rewrite (proj1 (Hag2 l)), (proj1 (Hag l)); [done|intros ->; lia|intros ->; lia].
Qed.

(** Removing the node above the hole keeps the black heights. *)
Lemma hole_rb fq C C1 :
  ctx_ok (fq :: C) false 0 -> hot (fq :: C) E -> (C = [] -> C1 = []) ->
  (forall c n, ctx_ok C c n -> ctx_ok C1 c n) ->
  exists c n, rb (plug C1 (fo fq)) c n.
Proof.
  simpl. intros Hc Hhot Hnil Hok. destruct (fc fq).
  - destruct Hc as (_ & Ro & Hc). eapply rb_plug; [exact Ro|].
    apply ctx_ok_red_black. by apply Hok.
  - destruct Hc as [[co Ro] _]. destruct Hhot as [|[|[EC _]]]; [done|done|].
    rewrite (Hnil EC). simpl. eauto.
Qed.

Definition era_body (fuel : nat) (sz : Z) (head : loc) : M heap (Z * Z * ptr) :=
  let! st := era_loop cmp fuel (mk_era (Some head) None None None true) k in
  let! (ret, sz) := era_remove st sz in
  let! r := get_link (Some head) true in
  mreturn (ret, sz, r).

Lemma era_body_ok fuel sz h s n :
  (nodes s < fuel)%nat -> s <> E -> ok k -> ksorted cmp ok (elems s) -> rb s false n ->
  holds h [] s ->
  exists h' s', let d := if amem cmp k (elems s) then 1 else 0 in
    era_body fuel sz hd h = Some ((d, sz - d, root_of s'), h') /\
    holds h' [] s' /\ upd (own [] s) (own [] s') h h' /\
    (exists c n, rb s' c n) /\ elems s' = adel cmp k (elems s).
Proof.
  intros Hf Hne Hk Hs Hr Hh.
  destruct (era_loop_ok fuel (mk_era (Some hd) None None None true) h [] s false n)
    as (st & h1 & C & E1 & Hh1 & Hc & Hp & Hhot & (Lq & Lp & Lf & Ld) & Hu & He); try done.
  { constructor. }
  destruct C as [|fq C]. { simpl in He. destruct s; [done|]. simpl in He. by destruct (elems s1). }
  assert (forall h2 s2 r d, era_remove st sz h1 = Some ((d, sz - d), h2) -> holds h2 [] s2 ->
    r = root_of s2 -> era_body fuel sz hd h = Some ((d, sz - d, r), h2)) as Hbody.
  { intros h2 s2 r d E2 Hh2 ->. unfold era_body. erewrite mbind_Some by exact E1. cbv beta.
    erewrite mbind_Some by exact E2. cbv beta iota.
    by erewrite mbind_Some by (exact (ctx_get_link _ _ _ _ [] _ (holds_ctx _ _ _ _ _ _ Hh2))). }
  destruct (found (fq :: C)) as [af|] eqn:Hfound.
  - destruct (copy_data h1 fq C af Hh1 Hp Hfound Hk)
      as (nf & h2 & C1 & Hnf & Est & Hh2 & Hag & Haf & Ho & Hcp & Hok & Hnil & Hm & Hel);
      [by rewrite He|].
    rewrite He in Hm, Hel. cbn [plug] in Hm, Hel.
    destruct (unlink h1 fq C af Hh1 Hfound nf h2 C1 sz (e_g st) (e_dir st))
      as (h3 & E3 & Hh3 & Hu3); try done.
    destruct (hole_rb fq C C1 Hc Hhot Hnil Hok) as (c' & n' & R').
    rewrite Hm. exists h3, (plug C1 (fo fq)).
    pose proof (proj1 (holds_plug key0 value0 hd h3 C1 (fo fq)) Hh3) as Hp3.
    split; [eapply Hbody; [|exact Hp3|done]; by destruct st; simpl in *; subst|].
    split; [done|]. split; [|by eauto].
    eapply upd_trans; [exact Hu|]. eapply upd_ext; [exact Hu3|done|intros l; symmetry; apply own_plug].
  - assert (on_path cmp k (fq :: C)) as Hon by (by apply found_None).
    pose proof He as He'. rewrite elems_plug in He'. cbn [elems plug] in He'. rewrite app_nil_l in He'.
    destruct (on_path_bounds cmp ok k (fq :: C) [] Hk) as [HA HB]; [by rewrite app_nil_l, He'|done|].
    destruct (adel_absent cmp k _ _ HA HB) as [Hm Hdel]. rewrite He' in Hm, Hdel.
    rewrite Hm, Hdel. exists h1, (plug (fq :: C) E).
    pose proof (proj1 (holds_plug key0 value0 hd h1 (fq :: C) E) Hh1) as Hp1.
    split; [eapply Hbody; [|exact Hp1|done]; unfold era_remove; by rewrite Lf, Z.sub_0_r|].
    split; [done|]. split; [|split; [eapply rb_plug; [constructor|exact Hc]|done]].
    eapply upd_ext; [exact Hu|done|intros l; symmetry; apply own_plug].
Qed.
End erase.

(** ** The whole operation *)

Section rberase.
Context {K V : Type} (cmp : bool -> K -> K -> Z) (ok : K -> Prop) `{!KeyOrder cmp ok}.
Context (key0 : K) (value0 : V).
Implicit Types (h : gmap loc (rbnode K V)) (s : tree K V).

Lemma rberase_ok h tr s k fuel :
  tree_at h tr s -> ksorted cmp ok (elems s) -> ok k -> (nodes s < fuel)%nat ->
  exists h' tr' s', let d := if amem cmp k (elems s) then 1 else 0 in
    rberase cmp key0 value0 fuel tr k h = Some ((d, tr'), h') /\
    tree_at h' tr' s' /\ size tr' = size tr - d /\
    elems s' = adel cmp k (elems s) /\
    upd (fun l => occ l s) (fun l => occ l s') h h'.
Proof.
  intros [Hroot Hrep Hu [n Hr]] Hs Hk Hf. unfold rberase. rewrite Hroot.
  destruct s as [|c l a ka va r].
  { exists h, tr, E. simpl. split; [done|]. split; [by split; eauto|].
    split; [lia|]. split; [done|apply upd_refl]. }
  set (s := T c l a ka va r) in *.
  destruct (with_head_ok key0 value0 (era_body cmp k fuel (size tr))
    (fun x s1 => x = (if amem cmp k (elems s) then 1 else 0,
                      size tr - (if amem cmp k (elems s) then 1 else 0), root_of s1) /\
      (exists c n, rb s1 c n) /\ elems s1 = adel cmp k (elems s)) h s Hrep Hu)
    as (x & h1 & s1 & E1 & Hrep1 & Hu1 & Hupd & -> & (c1 & n1 & R1) & He).
  { intros hd h0 Hh.
    destruct (era_body_ok cmp ok key0 value0 hd k fuel (size tr) h0 s n)
      as (h1 & s1 & E1 & Hh1 & Hu1 & R1 & He); try done. eauto 10. }
  change (is_null (root_of s)) with false. cbv iota.
  erewrite mbind_Some by exact E1. cbv beta iota.
  destruct (root_of s1) as [b|] eqn:Eb.
  - destruct (set_red_blacken h1 s1 b Hrep1 Hu1 Eb) as (h2 & E2 & Hrep2 & Hag).
    exists h2, (mk_rbtree (Some b) (size tr - (if amem cmp k (elems s) then 1 else 0))), (blacken s1).
    split; [by erewrite mbind_Some by exact E2|]. split; [|split; [done|split]].
    + split; [by rewrite root_of_blacken|done| |by eapply rb_blacken].
      intros l'. rewrite occ_blacken. apply Hu1.
    + by rewrite elems_blacken.
    + eapply upd_trans; [exact Hupd|]. eapply upd_agree; [exact Hag| |].
      * intros l' ->. apply root_of_Some in Eb. lia.
      * intros l'. apply occ_blacken.
  - exists h1, (mk_rbtree None (size tr - (if amem cmp k (elems s) then 1 else 0))), s1.
    destruct s1; [|done]. split; [done|]. split; [|done].
    split; [done|done|done|]. exists 0%nat. constructor.
Qed.
End rberase.

(** C4: [rberase] on a red-black tree of sorted keys terminates without
    dereferencing a bad pointer, returns 1 exactly when the key was present,
    and leaves a red-black tree with a black root that holds the other
    entries; the removed node is released and no other cell is touched. *)
Theorem rberase_correct {K V : Type} (cmp : bool -> K -> K -> Z) (ok : K -> Prop)
    {HO : KeyOrder cmp ok} (key0 : K) (value0 : V) h tr s k fuel
    (Htree : tree_at h tr s) (Hsorted : ksorted cmp ok (elems s)) (Hok : ok k)
    (Hfuel : (nodes s < fuel)%nat) :
  exists h' tr' s', let found := amem cmp k (elems s) in
    rberase cmp key0 value0 fuel tr k h = Some ((if found then 1 else 0, tr'), h') /\
    tree_at h' tr' s' /\ ksorted cmp ok (elems s') /\
    size tr' = size tr - (if found then 1 else 0) /\
    elems s' = adel cmp k (elems s) /\
    upd (fun l => occ l s) (fun l => occ l s') h h'.
Proof.
  destruct (rberase_ok cmp ok key0 value0 h tr s k fuel Htree Hsorted Hok Hfuel)
    as (h' & tr' & s' & E & Ht & Hsz & He & Hu).
  exists h', tr', s'. split_and!; try done. rewrite He. by apply (ksorted_adel cmp ok).
Qed.

Lemma rberase_correct_witness :
  exists h' tr' s',
    rberase Zcmp 0 0 4 ex_root 20 ex_heap = Some ((1, tr'), h') /\
    tree_at h' tr' s' /\ ksorted Zcmp (fun _ => True) (elems s') /\ size tr' = 2 /\
    elems s' = [(10, 100); (30, 300)] /\
    upd (fun l => occ l ex_tree) (fun l => occ l s') ex_heap h'.
Proof.
  exact (rberase_correct Zcmp (fun _ => True) 0 0 ex_heap ex_root ex_tree 20 4
    ex_tree_at ex_sorted I (le_n 4)).
Defined.
