(* ===== verification/RBTraverse.v ===== *)
(** * Search, traversal and release of the red-black tree (map.cc)

    [rbfind] and [rbseek] against the sequence of the tree, the iterator of
    [rbtfirst]/[rbtnext]/[rbtlast]/[rbtprev] as an index into that sequence,
    the bound on the iterator's path, and [rbdelete]. *)
From Stdlib Require Import ZArith Lia Sorted.
From stdpp Require Import prelude gmap.
From S2P Require Import Prelude RBCode RBTree RBOrder.

Local Open Scope Z_scope.
Local Open Scope moo_scope.

Section height.
Context {K V : Type}.
Implicit Types (s : tree K V).

Fixpoint height s : nat :=
  match s with E => 0 | T _ l _ _ _ r => S (Nat.max (height l) (height r)) end.

Lemma rb_height s c n : rb s c n -> (height s <= 2 * n + (if c then 1 else 0))%nat.
Proof.
  induction 1 as [|l a k v r n _ IHl _ IHr|l a k v r cl cr n _ IHl _ IHr]; simpl; [lia|lia|].
  destruct cl, cr; lia.
Qed.

Lemma rb_nodes s c n : rb s c n -> (2 ^ n <= nodes s + 1)%nat.
Proof. induction 1; simpl in *; lia. Qed.

(** A red-black tree of less than 2^33 - 1 nodes is no higher than the
    iterator's path. *)
Lemma height_limit s n :
  rb s false n -> Z.of_nat (nodes s) < 2 ^ 33 - 1 -> (height s <= HEIGHT_LIMIT)%nat.
Proof.
  intros Hr Hn. pose proof (rb_height _ _ _ Hr) as Hh. pose proof (rb_nodes _ _ _ Hr) as Hp.
  simpl in Hh. unfold HEIGHT_LIMIT. destruct (decide (n <= 32)%nat); [lia|].
  assert (2 ^ 33 <= 2 ^ n)%nat as H33 by (apply Nat.pow_le_mono_r; lia).
  apply inj_le in Hp. apply inj_le in H33. rewrite Nat2Z.inj_pow in H33 at 1.
  change (Z.of_nat 2) with 2 in H33. change (Z.of_nat 33) with 33 in H33. lia.
Qed.

Lemma height_le_nodes s : (height s <= nodes s)%nat.
Proof. induction s; simpl; lia. Qed.
End height.

Section find.
Context {K V : Type} (cmp : bool -> K -> K -> Z) (ok : K -> Prop) `{!KeyOrder cmp ok}.
Implicit Types (h : gmap loc (rbnode K V)) (s : tree K V) (L : list (K * V)).

(** The entry of [k], compared with or without case *)
Definition afind (cm : bool) (k : K) L : option (K * V) :=
  match aget cmp k L with
  | Some x => if cmp cm (fst x) k =? 0 then Some x else None
  | None => None
  end.

Lemma aget_none k L : Forall (fun x => cmp false (fst x) k <> 0) L -> aget cmp k L = None.
Proof.
  unfold aget. induction 1 as [|x L Hx _ IH]; simpl; [done|].
  destruct (cmp false (fst x) k =? 0) eqn:E; [lia|done].
Qed.
Lemma aget_app k L1 L2 :
  aget cmp k (L1 ++ L2) = match aget cmp k L1 with Some x => Some x | None => aget cmp k L2 end.
Proof.
  unfold aget. induction L1 as [|x L1 IH]; simpl; [done|].
  destruct (cmp false (fst x) k =? 0); [done|exact IH].
Qed.
Lemma aget_lt k L : all_lt cmp k L -> aget cmp k L = None.
Proof. intros H. apply aget_none. eapply Forall_impl; [done|]. simpl. lia. Qed.
Lemma aget_gt k L : all_gt cmp k L -> aget cmp k L = None.
Proof. intros H. apply aget_none. eapply Forall_impl; [done|]. simpl. lia. Qed.

Lemma aget_node k l kq (vq : V) r :
  ok k -> ksorted cmp ok (l ++ (kq, vq) :: r) ->
  aget cmp k (l ++ (kq, vq) :: r) =
    if cmp false kq k =? 0 then Some (kq, vq)
    else if cmp false kq k <? 0 then aget cmp k r else aget cmp k l.
Proof.
  intros Hk Hs. rewrite aget_app.
  assert (cmp false kq k <= 0 -> all_lt cmp k l) as Hl.
  { intros Hc. apply (all_lt_before cmp ok k (kq, vq)); [done| |done].
    by apply (ksorted_around cmp ok) in Hs as [? _]. }
  assert (0 <= cmp false kq k -> all_gt cmp k r) as Hr.
  { intros Hc. apply (all_gt_after cmp ok k (kq, vq)); [done| |done].
    by apply (ksorted_app cmp ok) in Hs as (_ & ? & _). }
  unfold aget at 2. simpl. fold (aget cmp k r).
  destruct (cmp false kq k =? 0) eqn:E0; [by rewrite aget_lt by (apply Hl; lia)|].
  destruct (cmp false kq k <? 0) eqn:E1; [by rewrite aget_lt by (apply Hl; lia)|].
  rewrite (aget_gt k r) by (apply Hr; lia). by case_match.
Qed.

(** Looking up after an update *)
Lemma aget_filter_other k' (P : K * V -> Prop) `{forall x, Decision (P x)} L :
  (forall x, x ∈ L -> cmp false (fst x) k' = 0 -> P x) -> aget cmp k' (filter P L) = aget cmp k' L.
Proof.
  unfold aget. induction L as [|x L IH]; intros HP; [done|]. rewrite filter_cons. simpl.
  destruct (cmp false (fst x) k' =? 0) eqn:E.
  - rewrite decide_True by (apply HP; [by left|lia]). simpl. by rewrite E.
  - case_decide; simpl; rewrite ?E; apply IH; intros y Hy; apply HP; by right.
Qed.

Lemma afind_aput k v k' L :
  ok k -> ok k' -> ksorted cmp ok L ->
  afind false k' (aput cmp k v L) =
    if cmp false k k' =? 0 then Some (k, v) else afind false k' L.
Proof.
  intros Hk Hk' Hs. unfold afind.
  pose proof (ksorted_aput cmp ok k v L Hk Hs) as Hs'. unfold aput in *.
  rewrite (aget_node k') by done.
  destruct (cmp false k k' =? 0) eqn:E0; [simpl; by rewrite E0|].
  assert (forall x, x ∈ L -> cmp false (fst x) k' = 0 ->
    if cmp false k k' <? 0 then 0 < cmp false (fst x) k else cmp false (fst x) k < 0) as Hx.
  { intros x Hx Hc. pose proof (ksorted_ok cmp ok L x Hs Hx) as Ox.
    pose proof (cmp_flip cmp ok (fst x) k Ox Hk) as F1. pose proof (cmp_flip cmp ok (fst x) k' Ox Hk') as F2.
    pose proof (cmp_flip cmp ok k k' Hk Hk') as F3.
    destruct (cmp false k k' <? 0) eqn:E1.
    - pose proof (cmp_lt_le cmp ok k k' (fst x) Hk Hk' Ox ltac:(lia) ltac:(lia)). lia.
    - pose proof (cmp_le_lt cmp ok (fst x) k' k Ox Hk' Hk ltac:(lia) ltac:(lia)). lia. }
  destruct (cmp false k k' <? 0) eqn:E1.
  - unfold above. by rewrite (aget_filter_other k') by exact Hx.
  - unfold below. by rewrite (aget_filter_other k') by exact Hx.
Qed.

(** The pointer [p] is the node of entry [x]. *)
Definition node_at h s (x : option (K * V)) (p : ptr) : Prop :=
  match x with
  | None => p = None
  | Some (k, v) => exists a n, p = Some a /\ h !! a = Some n /\ key n = k /\ value n = v /\
      occ a s <> 0%nat
  end.

Lemma rbfind_loop_ok fuel : forall h s k cm,
  (height s < fuel)%nat -> rep h s -> ksorted cmp ok (elems s) -> ok k ->
  exists p, rbfind_loop cmp fuel (root_of s) k cm h = Some (p, h) /\
    node_at h s (afind cm k (elems s)) p.
Proof.
  induction fuel as [|fuel IH]; intros h s k cm Hf Hrep Hs Hk; [lia|].
  destruct s as [|c l a kq vq r]; [by exists None|].
  cbn [rbfind_loop root_of elems]. simpl in Hf.
  pose proof Hrep as (Ha & Hl & Hr).
  assert (forall b, node_compare cmp b (Some a) k h = Some (cmp b kq k, h)) as Ecmp.
  { intros b. unfold node_compare. by mstep. }
  erewrite mbind_Some by apply Ecmp. cbv beta.
  pose proof Hs as Hs'. cbn [elems] in Hs'. apply (ksorted_app cmp ok) in Hs' as (Hsl & Hsr & _).
  pose proof (proj1 (ksorted_cons cmp ok _ _) Hsr) as (Hok & Hsr' & _).
  unfold afind. rewrite aget_node by done. simpl in Hok.
  destruct (cmp cm kq k =? 0) eqn:Ecm.
  - assert (cmp false kq k = 0) as E0.
    { destruct cm; [|lia]. apply (cmp_case kq k Hok Hk). lia. }
    exists (Some a). split; [done|]. rewrite E0. simpl. rewrite Ecm.
    exists a. eexists. split_and!; try done. simpl. rewrite one_same. lia.
  - assert ((if cm then node_compare cmp false (Some a) k else mreturn (cmp cm kq k)) h =
      Some (cmp false kq k, h)) as E2 by (destruct cm; [apply Ecmp|done]).
    erewrite mbind_Some by exact E2. cbv beta. mstep.
    destruct (cmp false kq k =? 0) eqn:E0.
    + destruct (IH h l k cm) as (p & Ep & Hp); [lia|done..|]. exists p.
      replace (cmp false kq k <? 0) with false by lia. split; [exact Ep|].
      simpl. rewrite Ecm. unfold afind in Hp.
      assert (aget cmp k (elems l) = None) as HN; [|by rewrite HN in Hp].
      apply aget_lt, (all_lt_before cmp ok k (kq, vq)); [done| |simpl; lia].
      by apply (ksorted_around cmp ok) in Hs as [? _].
    + assert (forall t p, node_at h t (afind cm k (elems t)) p ->
        (forall b, (occ b t <= occ b (T c l a kq vq r))%nat) ->
        node_at h (T c l a kq vq r) (afind cm k (elems t)) p) as Hmono.
      { intros t p Hp Ho. unfold node_at in *. destruct (afind cm k (elems t)) as [[]|]; [|done].
        destruct Hp as (b & n & -> & Hb & ? & ? & Hob). exists b, n.
        split_and!; try done. specialize (Ho b). lia. }
      destruct (cmp false kq k <? 0).
      * destruct (IH h r k cm) as (p & Ep & Hp); [lia|done..|]. exists p.
        split; [exact Ep|]. apply Hmono; [done|]. intros b. simpl. lia.
      * destruct (IH h l k cm) as (p & Ep & Hp); [lia|done..|]. exists p.
        split; [exact Ep|]. apply Hmono; [done|]. intros b. simpl. lia.
Qed.
End find.

(** ** The iterator *)

Section iterate.
Context {K V : Type}.
Implicit Types (h : gmap loc (rbnode K V)) (s x y : tree K V) (d c : bool)
  (f : frame K V) (ctx : list (frame K V)).

(** A path to a node, without the head node: the heap holds the tree. *)
Definition holdsT h ctx s : Prop := rep h (plug ctx s) /\ uniq (plug ctx s).

(** The number of entries before the hole (for [false]) or after it *)
Definition beyond d ctx : nat := length (if d then rights ctx else lefts ctx).

Lemma beyond_cons d f ctx :
  beyond d (f :: ctx) =
    (if Bool.eqb (fd f) d then beyond d ctx else S (nodes (fo f)) + beyond d ctx)%nat.
Proof.
  unfold beyond. destruct d; simpl; rewrite length_app; unfold f_lefts, f_rights;
    destruct (fd f); simpl; rewrite ?length_app, ?nodes_elems; simpl; lia.
Qed.

Lemma beyond_both d ctx s :
  (beyond d ctx + nodes s + beyond (negb d) ctx = nodes (plug ctx s))%nat.
Proof.
  rewrite <- (nodes_elems (plug ctx s)), elems_plug, !length_app, nodes_elems.
  unfold beyond. destruct d; simpl; lia.
Qed.

Lemma height_mkT d c a k v x y :
  height (mkT (V:=V) (K:=K) d c a k v x y) = S (Nat.max (height x) (height y)).
Proof. destruct d; simpl; lia. Qed.

Lemma plug_height ctx s : (length ctx + height s <= height (plug ctx s))%nat.
Proof.
  revert s. induction ctx as [|f ctx IH]; intros s; simpl; [lia|].
  specialize (IH (plug1 f s)). unfold plug1 in *. rewrite height_mkT in IH. lia.
Qed.

(** What the heap holds along the path *)
Lemma holdsT_sub h ctx s : holdsT h ctx s -> rep h s.
Proof.
  intros [Hr _]. revert s Hr. induction ctx as [|f ctx IH]; intros s; simpl; [done|].
  intros Hr%IH. unfold plug1 in Hr. by apply rep_mkT in Hr as (_ & ? & _).
Qed.
Lemma holdsT_ne h f ctx s a :
  holdsT h (f :: ctx) s -> root_of s = Some a -> root_of (fo f) <> Some a.
Proof.
  intros [_ Hu] Ha%root_of_Some Hb%root_of_Some. specialize (Hu a). simpl in Hu.
  pose proof (occ_plug a ctx (plug1 f s) a) as Ho.
  pose proof (cptr_occ a ctx). unfold plug1 in *. autorewrite with rb in Ho.
  assert (1 <= occ_ctx a a ctx)%nat; [|lia].
  clear. induction ctx as [|g ctx IH]; simpl; [rewrite one_same|]; lia.
Qed.

(** The iterator is at the node with [j] entries beyond it in direction
    [d]. *)
Definition at_node d h s (j : nat) (tr : rbtrav) : Prop :=
  exists ctx c a k v x y, s = plug ctx (mkT d c a k v x y) /\
    it tr = Some a /\ path tr = map fa ctx /\ j = (nodes x + beyond d ctx)%nat.

Lemma at_node_eq d h s j j' tr : j = j' -> at_node d h s j tr -> at_node d h s j' tr.
Proof. by intros ->. Qed.

Lemma descend_ok fuel : forall d h ctx t,
  (height t < fuel)%nat -> t <> E -> holdsT h ctx t ->
  (height (plug ctx t) <= HEIGHT_LIMIT)%nat ->
  exists tr j, descend fuel (mk_rbtrav (root_of t) (map fa ctx)) d h = Some (tr, h) /\
    at_node d h (plug ctx t) j tr /\ j = beyond d ctx.
Proof.
  induction fuel as [|fuel IH]; intros d h ctx t Hf Ht Hh Hlim; [lia|].
  destruct (tree_dir d t Ht) as (c & a & k & v & x & y & ->).
  pose proof (holdsT_sub _ _ _ Hh) as Hrep. apply rep_mkT in Hrep as (Ha & _).
  cbn [descend it]. rewrite root_of_mkT. mstep.
  destruct x as [|cx xl b kx vx xr] eqn:Ex.
  - exists (mk_rbtrav (Some a) (map fa ctx)), (beyond d ctx). split; [done|]. split; [|done].
    exists ctx, c, a, k, v, E, y. done.
  - rewrite <- Ex in *. assert (root_of x = Some b) as Er by (by rewrite Ex). rewrite Er.
    rewrite height_mkT in Hf.
    pose proof (plug_height ctx (mkT d c a k v x y)) as Hph. rewrite height_mkT in Hph.
    assert (1 <= height x)%nat by (rewrite Ex; simpl; lia).
    unfold push_path at 1. cbn [path].
    rewrite (decide_True (P := (length (map fa ctx) < HEIGHT_LIMIT)%nat)) by (rewrite length_map; lia).
    erewrite mbind_Some by reflexivity. cbv beta. mstep. 
    destruct (IH d h (mk_frame d c a k v y :: ctx) x) as (tr & j & E1 & Hat & Hj).
    + lia.
    + by rewrite Ex.
    + done.
    + done.
    + exists tr, j. split; [exact E1|]. split; [exact Hat|].
      rewrite Hj, beyond_cons. simpl. by rewrite Bool.eqb_reflx.
Qed.

Lemma at_node_flip d h s j tr :
  at_node d h s j tr -> at_node (negb d) h s (nodes s - 1 - j)%nat tr /\ (j < nodes s)%nat.
Proof.
  intros (ctx & c & a & k & v & x & y & -> & Hit & Hpath & ->).
  pose proof (beyond_both d ctx (mkT d c a k v x y)) as Hb. rewrite nodes_mkT in Hb.
  split; [|lia]. exists ctx, c, a, k, v, y, x. rewrite mkT_swap. split_and!; try done. lia.
Qed.

Lemma climb_ok h d ctx : forall t a,
  holdsT h ctx t -> root_of t = Some a ->
  exists tr, climb (Some a) (map fa ctx) d h = Some (tr, h) /\
    match beyond d ctx with
    | O => it tr = None
    | S j => at_node d h (plug ctx t) j tr
    end.
Proof.
  induction ctx as [|f ctx IH]; intros t a Hh Ha.
  { exists (mk_rbtrav None []). split; [done|]. unfold beyond. by destruct d. }
  cbn [climb map]. pose proof Hh as Hh1. change (holdsT h ctx (plug1 f t)) in Hh1.
  pose proof (holdsT_sub _ _ _ Hh1) as Hrep. unfold plug1 in Hrep.
  apply rep_mkT in Hrep as (Hf & _ & _). mstep. rewrite beyond_cons.
  destruct (decide (fd f = d)) as [<-|Hd].
  - rewrite link_mkN_same, Ha, Bool.eqb_reflx. unfold ptr_eqb. rewrite bool_decide_true by done.
    destruct (IH (plug1 f t) (fa f) Hh1) as (tr & E1 & Htr); [unfold plug1; by rewrite root_of_mkT|].
    by exists tr.
  - assert (d = negb (fd f)) as -> by (by destruct d, (fd f)).
    rewrite link_mkN_other. rewrite Bool.eqb_negb2. cbv iota. unfold ptr_eqb.
    rewrite bool_decide_false by (intros E; symmetry in E; revert E; by eapply holdsT_ne).
    exists (mk_rbtrav (Some (fa f)) (map fa ctx)). split; [done|].
    change (S (nodes (fo f)) + beyond (negb (fd f)) ctx)%nat
      with (S (nodes (fo f) + beyond (negb (fd f)) ctx)).
    exists ctx, (fc f), (fa f), (fk f), (fv f), (fo f), t. rewrite mkT_swap. done.
Qed.

Lemma rbmove_ok fuel d h s j tr :
  at_node d h s j tr -> rep h s -> uniq s ->
  (height s < fuel)%nat -> (height s <= HEIGHT_LIMIT)%nat ->
  exists tr', rbmove fuel tr d h = Some (tr', h) /\
    match j with O => it tr' = None | S j' => at_node d h s j' tr' end.
Proof.
  intros (ctx & c & a & k & v & x & y & -> & Hit & Hpath & ->) Hrep Hu Hf Hlim.
  assert (holdsT h ctx (mkT d c a k v x y)) as Hh by done.
  pose proof (holdsT_sub _ _ _ Hh) as Hs. apply rep_mkT in Hs as (Ha & _).
  unfold rbmove. rewrite Hit. mstep.
  destruct x as [|cx xl b kx vx xr] eqn:Ex.
  - cbn [root_of nodes]. rewrite Hpath.
    apply (climb_ok h d ctx (mkT d c a k v E y) a); [done|by rewrite root_of_mkT].
  - rewrite <- Ex in *. assert (root_of x = Some b) as Er by (by rewrite Ex). rewrite Er.
    pose proof (plug_height ctx (mkT d c a k v x y)) as Hph. rewrite height_mkT in Hph.
    assert (1 <= height x)%nat by (rewrite Ex; simpl; lia).
    unfold push_path. rewrite Hpath, decide_True by (rewrite length_map; lia).
    erewrite mbind_Some by reflexivity. cbv beta. mstep.
    destruct (descend_ok fuel (negb d) h (mk_frame d c a k v y :: ctx) x)
      as (tr' & j & E1 & Hat & Hj); [lia|by rewrite Ex|done|done|].
    exists tr'. split; [exact E1|].
    pose proof (beyond_both d ctx (mkT d c a k v x y)) as Hb. rewrite nodes_mkT in Hb.
    rewrite beyond_cons in Hj. simpl in Hj. rewrite Bool.eqb_negb2 in Hj.
    apply at_node_flip in Hat as [Hat _]. rewrite negb_involutive in Hat.
    change (plug (mk_frame d c a k v y :: ctx) x) with (plug ctx (mkT d c a k v x y)) in Hat.
    assert (exists nx, nodes x = S nx) as [nx Hnx] by (rewrite Ex; simpl; eauto).
    rewrite Hnx in *. simpl. eapply at_node_eq; [|exact Hat]; lia.
Qed.

(** The iterator at index [i] of the tree's sequence *)
Definition at_index h s (i : nat) (tr : rbtrav) : Prop := at_node false h s i tr.

Lemma at_index_data h s i tr :
  rep h s -> at_index h s i tr ->
  exists a n, it tr = Some a /\ h !! a = Some n /\ elems s !! i = Some (key n, value n).
Proof.
  intros Hrep (ctx & c & a & k & v & x & y & -> & Hit & _ & ->).
  exists a. assert (rep h (mkT false c a k v x y)) as Hs.
  { clear Hit. revert Hrep. generalize (mkT false c a k v x y). induction ctx as [|f ctx IH];
      intros t; simpl; [done|]. intros Hr%IH. unfold plug1 in Hr. by apply rep_mkT in Hr as (_ & ? & _). }
  apply rep_mkT in Hs as (Ha & _). eexists. split; [done|]. split; [exact Ha|]. autorewrite with rb.
  rewrite elems_plug. unfold beyond. simpl.
  rewrite lookup_app_r by lia. rewrite Nat.add_sub.
  rewrite <- app_assoc, lookup_app_r by (by rewrite nodes_elems).
  by rewrite nodes_elems, Nat.sub_diag.
Qed.

(** The addresses of the nodes, in order *)
Fixpoint addrs s : list loc :=
  match s with E => [] | T _ l a _ _ r => addrs l ++ a :: addrs r end.

Lemma addrs_length s : length (addrs s) = nodes s.
Proof. induction s; simpl; rewrite ?length_app; simpl; lia. Qed.
Lemma addrs_occ s i a : addrs s !! i = Some a -> occ a s <> 0%nat.
Proof.
  intros Ha%list_elem_of_lookup_2. revert Ha.
  induction s as [|c l IHl b k v r IHr]; simpl; [by intros ?%elem_of_nil|].
  intros [Ha|[->|Ha]%elem_of_cons]%elem_of_app; [apply IHl in Ha|rewrite one_same|apply IHr in Ha]; lia.
Qed.
Lemma addrs_plug ctx t :
  exists A B, addrs (plug ctx t) = A ++ addrs t ++ B /\ length A = beyond false ctx.
Proof.
  revert t. induction ctx as [|f ctx IH]; intros t; simpl.
  - exists [], []. by rewrite app_nil_r.
  - destruct (IH (plug1 f t)) as (A & B & -> & HA). rewrite beyond_cons.
    unfold plug1, mkT. destruct (fd f); simpl.
    + exists (A ++ addrs (fo f) ++ [fa f]), B. rewrite !length_app, addrs_length, HA.
      simpl. split; [by simplify_list_eq|lia].
    + exists A, (fa f :: addrs (fo f) ++ B). simplify_list_eq. done.
Qed.
Lemma addrs_inj s i j a :
  uniq s -> addrs s !! i = Some a -> addrs s !! j = Some a -> i = j.
Proof.
  revert i j. induction s as [|c l IHl b k v r IHr]; intros i j Hu; simpl; [done|].
  assert (uniq l) as Hul by (intros x; specialize (Hu x); simpl in Hu; lia).
  assert (uniq r) as Hur by (intros x; specialize (Hu x); simpl in Hu; lia).
  rewrite !lookup_app, !addrs_length. pose proof (Hu a) as Ha. simpl in Ha.
  destruct (addrs l !! i) as [a1|] eqn:Ei, (addrs l !! j) as [a2|] eqn:Ej; intros Hi Hj; simplify_eq.
  - eauto.
  - apply addrs_occ in Ei. destruct (j - nodes l)%nat as [|j'] eqn:Ejn; simpl in Hj; simplify_eq.
    + rewrite one_same in Ha. lia.
    + apply addrs_occ in Hj. lia.
  - apply addrs_occ in Ej. destruct (i - nodes l)%nat as [|i'] eqn:Ein; simpl in Hi; simplify_eq.
    + rewrite one_same in Ha. lia.
    + apply addrs_occ in Hi. lia.
  - apply lookup_ge_None in Ei, Ej. rewrite addrs_length in Ei, Ej.
    destruct (i - nodes l)%nat as [|i'] eqn:Ein, (j - nodes l)%nat as [|j'] eqn:Ejn;
      simpl in Hi, Hj; simplify_eq; try lia.
    + apply addrs_occ in Hj. rewrite one_same in Ha. lia.
    + apply addrs_occ in Hi. rewrite one_same in Ha. lia.
    + specialize (IHr i' j' Hur Hi Hj). lia.
Qed.

Lemma at_index_addr h s i tr a :
  at_index h s i tr -> it tr = Some a -> addrs s !! i = Some a.
Proof.
  intros (ctx & c & a' & k & v & x & y & -> & Hit & _ & ->) Ha. rewrite Ha in Hit. simplify_eq.
  destruct (addrs_plug ctx (mkT false c a' k v x y)) as (A & B & -> & HA). simpl.
  rewrite lookup_app_r by lia. rewrite HA, Nat.add_sub, <- app_assoc.
  rewrite lookup_app_r by (by rewrite addrs_length).
  by rewrite addrs_length, Nat.sub_diag.
Qed.

(** The iterator at an index does not mention the heap. *)
Lemma at_index_heap h h' s i tr : at_index h s i tr -> at_index h' s i tr.
Proof. done. Qed.

Section on_tree.
Context (fuel : nat) h (tree : rbtree) s (n : nat).
Hypothesis Htree : tree_at h tree s.
Hypothesis Hn : nodes s = n.
Hypothesis Hsmall : Z.of_nat n < 2 ^ 33 - 1.
Hypothesis Hfuel : (height s < fuel)%nat.

Lemma tree_limit : (height s <= HEIGHT_LIMIT)%nat.
Proof. destruct Htree as [_ _ _ [m Hr]]. subst n. by eapply height_limit. Qed.

Lemma rbtfirst_ok :
  exists tr, rbtfirst fuel tree h = Some (tr, h) /\
    if decide (n = 0)%nat then it tr = None else at_index h s 0 tr.
Proof.
  pose proof tree_limit as Hlim. destruct Htree as [Hroot Hrep Hu _].
  unfold rbtfirst, rbstart. rewrite Hroot.
  destruct s as [|c l a k v r] eqn:Es; simpl in Hn; subst n; [by exists (mk_rbtrav None [])|].
  destruct (descend_ok fuel false h [] s) as (tr & j & E1 & Hat & ->); subst s; try done.
  exists tr. split; [exact E1|]. exact Hat.
Qed.

Lemma rbtlast_ok :
  exists tr, rbtlast fuel tree h = Some (tr, h) /\
    if decide (n = 0)%nat then it tr = None else at_index h s (n - 1) tr.
Proof.
  pose proof tree_limit as Hlim. destruct Htree as [Hroot Hrep Hu _].
  unfold rbtlast, rbstart. rewrite Hroot.
  destruct s as [|c l a k v r] eqn:Es; simpl in Hn; [subst n; by exists (mk_rbtrav None [])|].
  destruct (descend_ok fuel true h [] s) as (tr & j & E1 & Hat & ->); subst s; try done.
  exists tr. split; [exact E1|]. apply at_node_flip in Hat as [Hat _].
  destruct (decide (n = 0)%nat); [lia|]. unfold at_index.
  change (negb true) with false in Hat. simpl in Hat. unfold beyond in Hat. simpl in Hat.
  eapply at_node_eq; [|exact Hat]; lia.
Qed.

Lemma rbtnext_ok i tr :
  at_index h s i tr ->
  exists tr', rbtnext fuel tr h = Some (tr', h) /\
    if decide (S i < n)%nat then at_index h s (S i) tr' else it tr' = None.
Proof.
  intros Hat. pose proof tree_limit as Hlim. destruct Htree as [_ Hrep Hu _].
  apply at_node_flip in Hat as [Hat Hi]. simpl in Hat. rewrite Hn in *.
  destruct (rbmove_ok fuel true h s _ tr Hat Hrep Hu Hfuel Hlim) as (tr' & E1 & Htr).
  exists tr'. split; [exact E1|]. destruct (decide (S i < n)%nat).
  - replace (n - 1 - i)%nat with (S (n - 1 - S i)) in Htr by lia.
    apply at_node_flip in Htr as [Htr _]. rewrite Hn in Htr. simpl in Htr.
    eapply at_node_eq; [|exact Htr]; lia.
  - by replace (n - 1 - i)%nat with 0%nat in Htr by lia.
Qed.

Lemma rbtprev_ok i tr :
  at_index h s i tr ->
  exists tr', rbtprev fuel tr h = Some (tr', h) /\
    match i with O => it tr' = None | S j => at_index h s j tr' end.
Proof.
  intros Hat. pose proof tree_limit as Hlim. destruct Htree as [_ Hrep Hu _].
  by apply rbmove_ok.
Qed.
End on_tree.

Lemma walk_ok h tree s : forall m fuel i tr,
  tree_at h tree s -> Z.of_nat (nodes s) < 2 ^ 33 - 1 ->
  (height s + m + 1 <= fuel)%nat -> (nodes s - i <= m)%nat ->
  (if decide (i < nodes s)%nat then at_index h s i tr else it tr = None) ->
  walk fuel tr h = Some (drop i (elems s), h).
Proof.
  induction m as [|m IH]; intros fuel i tr Ht Hsmall Hf Hm Hat;
    (destruct fuel as [|fuel]; [lia|]); cbn [walk].
  - rewrite decide_False in Hat by lia. rewrite Hat.
    rewrite drop_ge; [done|]. rewrite nodes_elems. lia.
  - destruct (decide (i < nodes s)%nat) as [Hi|Hi].
    + destruct (at_index_data h s i tr) as (a & nd & Hit & Ha & He); [apply Ht|done|].
      destruct (rbtnext_ok fuel h tree s (nodes s) Ht eq_refl Hsmall ltac:(lia) i tr Hat)
        as (tr' & E1 & Hat').
      rewrite Hit. mstep. erewrite mbind_Some by exact E1. cbv beta.
      erewrite mbind_Some by (apply (IH fuel (S i)); [done|done|lia|lia|exact Hat']). cbv beta.
      unfold mreturn. by rewrite (drop_S _ _ _ He).
    + rewrite Hat. rewrite drop_ge; [done|]. rewrite nodes_elems. lia.
Qed.

Lemma rbwalk_ok h tree s fuel :
  tree_at h tree s -> Z.of_nat (nodes s) < 2 ^ 33 - 1 -> (2 * nodes s + 1 <= fuel)%nat ->
  rbwalk fuel tree h = Some (elems s, h).
Proof.
  intros Ht Hsmall Hf. pose proof (height_le_nodes s) as Hle. unfold rbwalk.
  destruct (rbtfirst_ok fuel h tree s (nodes s) Ht eq_refl Hsmall) as (tr & E1 & Hat); [lia|].
  erewrite mbind_Some by exact E1. cbv beta.
  rewrite (walk_ok h tree s (nodes s) fuel 0 tr); try done; [lia|lia|].
  destruct (decide (0 < nodes s)%nat), (decide (nodes s = 0)%nat); try lia; done.
Qed.
End iterate.

Section seek.
Context {K V : Type} (cmp : bool -> K -> K -> Z) (ok : K -> Prop) `{!KeyOrder cmp ok}.
Implicit Types (h : gmap loc (rbnode K V)) (s : tree K V) (ctx : list (frame K V)).

(** The search without case ends at the index of the key's entry. *)
Lemma rbseek_loop_ok fuel : forall h ctx t k,
  (height t < fuel)%nat -> holdsT h ctx t -> (height (plug ctx t) <= HEIGHT_LIMIT)%nat ->
  ok k -> ksorted cmp ok (elems (plug ctx t)) -> on_path cmp k ctx ->
  exists tr, rbseek_loop cmp fuel (mk_rbtrav (root_of t) (map fa ctx)) k false h = Some (tr, h) /\
    if amem cmp k (elems (plug ctx t))
    then exists i x, at_index h (plug ctx t) i tr /\
           elems (plug ctx t) !! i = Some x /\ cmp false (fst x) k = 0
    else it tr = None.
Proof.
  induction fuel as [|fuel IH]; intros h ctx t k Hf Hh Hlim Hk Hs Hp; [lia|].
  cbn [rbseek_loop it]. destruct t as [|c l a kq vq r].
  { exists (mk_rbtrav None (map fa ctx)). split; [done|].
    rewrite elems_plug in *. simpl in *.
    destruct (on_path_bounds cmp ok k ctx [] Hk Hs Hp) as [HA HB].
    destruct (adel_absent cmp k _ _ HA HB) as [-> _]. done. }
  rewrite (T_mkT (cmp false kq k <? 0)) in *. set (d := cmp false kq k <? 0) in *.
  set (x := if d then r else l) in *. set (y := if d then l else r) in *.
  pose proof (holdsT_sub _ _ _ Hh) as Hrep. apply rep_mkT in Hrep as (Ha & _).
  assert (node_compare cmp false (Some a) k h = Some (cmp false kq k, h)) as Ecmp.
  { unfold node_compare. by mstep. }
  rewrite root_of_mkT. erewrite mbind_Some by exact Ecmp. cbv beta.
  assert ((kq, vq) ∈ elems (plug ctx (mkT d c a kq vq x y))) as Hin.
  { rewrite elems_plug, elems_mkT. destruct d; set_solver. }
  destruct (cmp false kq k =? 0) eqn:E0.
  - exists (mk_rbtrav (Some a) (map fa ctx)). split; [done|].
    rewrite (amem_in cmp k (kq, vq)) by (done || (simpl; lia)).
    assert (at_node d h (plug ctx (mkT d c a kq vq x y)) (nodes x + beyond d ctx)
      (mk_rbtrav (Some a) (map fa ctx))) as Hat by (by exists ctx, c, a, kq, vq, x, y).
    assert (d = false) as Hd by (unfold d; lia).
    clearbody d. subst d. exists (nodes x + beyond false ctx)%nat.
    destruct (at_index_data h (plug ctx (mkT false c a kq vq x y)) _ _ (proj1 Hh) Hat)
      as (a' & n & Hit & Hn & He).
    exists (key n, value n). split; [exact Hat|]. split; [exact He|].
    simpl in Hit. simplify_eq. simpl in *. simplify_eq. simpl. lia.
  - rewrite height_mkT in Hf. pose proof (plug_height ctx (mkT d c a kq vq x y)) as Hph.
    rewrite height_mkT in Hph. unfold push_path. cbn [path].
    rewrite decide_True by (rewrite length_map; lia).
    erewrite mbind_Some by reflexivity. cbv beta. fold d. mstep.
    apply (IH h (mk_frame d c a kq vq y :: ctx) x k); try done; [lia|].
    constructor; [|done]. simpl. split; [done|lia].
Qed.

Lemma rbseek_ok fuel h tree s k :
  tree_at h tree s -> Z.of_nat (nodes s) < 2 ^ 33 - 1 -> (height s < fuel)%nat ->
  ok k -> ksorted cmp ok (elems s) ->
  exists r, rbseek cmp fuel tree k false h = Some (r, h) /\
    match r with
    | Some tr => exists i x, at_index h s i tr /\ elems s !! i = Some x /\ cmp false (fst x) k = 0
    | None => amem cmp k (elems s) = false
    end.
Proof.
  intros Ht Hsmall Hf Hk Hs.
  pose proof (tree_limit h tree s (nodes s) Ht eq_refl Hsmall) as Hlim.
  destruct Ht as [Hroot Hrep Hu _]. unfold rbseek. rewrite Hroot.
  destruct (rbseek_loop_ok fuel h [] s k) as (tr & E1 & Htr); try done. { constructor. }
  erewrite mbind_Some by exact E1. cbv beta. simpl in Htr.
  destruct (amem cmp k (elems s)) eqn:Em.
  - exists (Some tr). destruct Htr as (i & x & Hat & Hx & Hc).
    split; [|by exists i, x]. destruct (at_index_data h s i tr Hrep Hat) as (a & n & -> & _). done.
  - exists None. by rewrite Htr.
Qed.
End seek.

Section delete.
Context {K V : Type}.
Implicit Types (h : gmap loc (rbnode K V)) (s l r : tree K V).

(** The nodes on the right spine *)
Fixpoint spine s : nat := match s with E => 0 | T _ _ _ _ _ r => S (spine r) end.

Lemma spine_nodes s : (spine s <= nodes s)%nat.
Proof. induction s; simpl; lia. Qed.

(** Every node is released, whatever the shape of the tree. *)
Lemma rbdelete_loop_ok fuel : forall h s,
  rep h s -> uniq s -> (2 * nodes s - spine s < fuel)%nat ->
  exists h', rbdelete_loop fuel (root_of s) h = Some (tt, h') /\
    upd (fun x => occ x s) (fun _ => 0%nat) h h'.
Proof.
  induction fuel as [|fuel IH]; intros h s Hrep Hu Hf; [lia|].
  destruct s as [|c l a k v r]; [exists h; split; [done|apply upd_refl]|].
  cbn [rbdelete_loop root_of]. pose proof Hrep as (Ha & Hl & Hr). simpl in Hf.
  pose proof (spine_nodes l). pose proof (spine_nodes r).
  mstep. cbn [link link0]. destruct l as [|cl ll b kb vb lr]; cbn [root_of].
  - mstep. cbn [link link1]. unfold free_node at 1, mbindM at 1. rewrite Ha.
    assert (occ a r = 0%nat) as Hoa by (occ_at Hu a; lia).
    destruct (IH (delete a h) r) as (h' & E1 & Hupd).
    { by apply rep_delete. } { intros x. specialize (Hu x). simpl in Hu. lia. } { lia. }
    exists h'. split; [exact E1|].
    intros x. destruct (Hupd x) as (U1 & U2 & U3). simpl.
    destruct (decide (x = a)) as [->|Hx].
    + rewrite one_same. split_and!; try lia. intros _ _.
      rewrite U1 by done. apply lookup_delete_eq.
    + assert (one x a = 0%nat) as -> by (unfold one; by rewrite decide_False).
      rewrite lookup_delete_ne in U1, U2 by done. done.
  - destruct Hl as (Hb & Hll & Hlr).
    assert (a <> b) as Hab by occ_ne Hu b.
    do 4 (mstep; cbn [link link0 link1 root_of with_link key value red]).
    set (h1 := <[b:=_]> _).
    assert (agree (fun x : loc => x = a \/ x = b) h h1) as Hag.
    { unfold h1. repeat first [ apply agree_refl | eapply agree_insert2; [|mlook|cbv beta; tauto] ]. }
    destruct (IH h1 (T cl ll b kb vb (T c lr a k v r))) as (h' & E1 & Hupd).
    + simpl. unfold h1. simplify_map_eq.
      split; [done|]. split; [keep_rep Hu Hag|]. split; [done|]. split; keep_rep Hu Hag.
    + intros x. specialize (Hu x). simpl in *. lia.
    + simpl in *. lia.
    + exists h'. split; [exact E1|].
      eapply upd_trans; [eapply upd_agree; [exact Hag| |]|exact Hupd].
      * intros x [->| ->]; simpl; rewrite one_same; lia.
      * intros x. simpl. lia.
Qed.

Lemma rbdelete_ok h tree s fuel :
  tree_at h tree s -> (2 * nodes s < fuel)%nat ->
  exists h', rbdelete fuel tree h = Some (tt, h') /\
    upd (fun x => occ x s) (fun _ => 0%nat) h h'.
Proof.
  intros [Hroot Hrep Hu _] Hf. unfold rbdelete. rewrite Hroot. apply rbdelete_loop_ok; [done..|lia].
Qed.
End delete.

(** [rbfind] finds the node of the key's entry, comparing with or
    without case, and the null pointer when there is none, without changing
    memory. *)
Theorem rbfind_correct {K V : Type} (cmp : bool -> K -> K -> Z) (ok : K -> Prop)
    {HO : KeyOrder cmp ok} (h : gmap loc (rbnode K V)) tr s k cm fuel
    (Htree : tree_at h tr s) (Hsorted : ksorted cmp ok (elems s)) (Hok : ok k)
    (Hfuel : (height s < fuel)%nat) :
  exists p, rbfind cmp fuel tr k cm h = Some (p, h) /\ node_at h s (afind cmp cm k (elems s)) p.
Proof.
  destruct Htree as [Hroot Hrep _ _]. unfold rbfind. rewrite Hroot.
  by apply (rbfind_loop_ok cmp ok).
Qed.

Lemma rbfind_correct_witness :
  exists p, rbfind Zcmp 3 ex_root 30 true ex_heap = Some (p, ex_heap) /\
    node_at ex_heap ex_tree (Some (30, 300)) p.
Proof.
  exact (rbfind_correct Zcmp (fun _ => True) ex_heap ex_root ex_tree 30 true 3
    ex_tree_at ex_sorted I (le_n 3)).
Defined.

(** The height of a red-black tree of [n] nodes is at most
    [2 * log2 (n + 1)], and so within [HEIGHT_LIMIT] below 2^33 - 1 nodes. *)
Lemma height_bound {K V : Type} (h : gmap loc (rbnode K V)) tree s (Htree : tree_at h tree s) :
  (height s <= 2 * Nat.log2 (nodes s + 1))%nat /\
  (Z.of_nat (nodes s) < 2 ^ 33 - 1 -> (height s <= HEIGHT_LIMIT)%nat).
Proof.
  destruct Htree as [_ _ _ [n Hr]]. split; [|by apply (height_limit s n)].
  pose proof (rb_height _ _ _ Hr) as Hh. pose proof (rb_nodes _ _ _ Hr) as Hn.
  apply Nat.log2_le_mono in Hn. rewrite Nat.log2_pow2 in Hn by lia. simpl in Hh. lia.
Qed.

Lemma at_index_path {K V : Type} (h : gmap loc (rbnode K V)) s i tr : at_index h s i tr -> (length (path tr) < height s)%nat.
Proof.
  intros (ctx & c & a & k & v & x & y & -> & _ & Hp & _). rewrite Hp, length_map.
  pose proof (plug_height ctx (mkT false c a k v x y)) as Hh. rewrite height_mkT in Hh. lia.
Qed.

(** C38: the iterator over a tree of less than 2^33 - 1 nodes is an index into
    its sequence of entries: [rbtfirst] is at the first and [rbtlast] at the
    last (or nowhere, if the tree is empty); from index [i], [rbtnext] moves to
    [i + 1] and ends after the last entry, [rbtprev] moves to [i - 1] and ends
    before the first; and the iterator's node has the key and the value of
    entry [i].  No push leaves the array [path] of [HEIGHT_LIMIT] = 64 entries
    (which would give no result): at index [i] it holds less than
    2 log2 (n + 1) nodes. *)
Theorem iterator_correct {K V : Type} (h : gmap loc (rbnode K V)) tree s i tr fuel
    (Htree : tree_at h tree s) (Hsize : Z.of_nat (nodes s) < 2 ^ 33 - 1)
    (Hfuel : (height s < fuel)%nat) :
  (exists tr0, rbtfirst fuel tree h = Some (tr0, h) /\ if decide (nodes s = 0)%nat then it tr0 = None else at_index h s 0 tr0) /\
  (exists tr0, rbtlast fuel tree h = Some (tr0, h) /\ if decide (nodes s = 0)%nat then it tr0 = None else at_index h s (nodes s - 1) tr0) /\
  (at_index h s i tr ->
   (exists tr', rbtnext fuel tr h = Some (tr', h) /\
     if decide (S i < nodes s)%nat then at_index h s (S i) tr' else it tr' = None) /\
   (exists tr', rbtprev fuel tr h = Some (tr', h) /\
     match i with O => it tr' = None | S j => at_index h s j tr' end) /\
   (exists a n, it tr = Some a /\ h !! a = Some n /\ elems s !! i = Some (key n, value n)) /\
   (length (path tr) < 2 * Nat.log2 (nodes s + 1))%nat /\ (length (path tr) < HEIGHT_LIMIT)%nat).
Proof.
  split; [by eapply rbtfirst_ok|]. split; [by eapply rbtlast_ok|]. intros Hat.
  split; [by eapply rbtnext_ok|]. split; [by eapply rbtprev_ok|].
  split; [apply at_index_data; [apply Htree|done]|].
  apply at_index_path in Hat. destruct (height_bound h tree s Htree) as [Hb Hl]. specialize (Hl Hsize). lia.
Qed.

Lemma iterator_correct_witness :
  let tr := mk_rbtrav (Some 1%positive) [2%positive] in
  at_index ex_heap ex_tree 0 tr /\
  (exists tr', rbtnext 3 tr ex_heap = Some (tr', ex_heap) /\
    if decide (1 < nodes ex_tree)%nat then at_index ex_heap ex_tree 1 tr' else it tr' = None) /\
  (exists tr', rbtprev 3 tr ex_heap = Some (tr', ex_heap) /\ it tr' = None) /\
  (exists a n, it tr = Some a /\ ex_heap !! a = Some n /\ elems ex_tree !! 0%nat = Some (key n, value n)).
Proof.
  intros tr. assert (at_index ex_heap ex_tree 0 tr) as Hat.
  { exists [mk_frame false false 2%positive 20 200 (T true E 3%positive 30 300 E)],
      true, 1%positive, 10, 100, E, E. done. }
  split; [exact Hat|].
  destruct (iterator_correct ex_heap ex_root ex_tree 0 tr 3 ex_tree_at) as (_ & _ & H); [done|vm_compute; lia|].
  destruct (H Hat) as (H1 & H2 & H3 & _). exact (conj H1 (conj H2 H3)).
Defined.

(** iterating a tree with [rbtfirst] and [rbtnext] visits every entry
    once, in key order. *)
Theorem rbwalk_correct {K V : Type} (h : gmap loc (rbnode K V)) tree s fuel
    (Htree : tree_at h tree s) (Hsize : Z.of_nat (nodes s) < 2 ^ 33 - 1)
    (Hfuel : (2 * nodes s + 1 <= fuel)%nat) :
  rbwalk fuel tree h = Some (elems s, h).
Proof. by apply rbwalk_ok. Qed.

Lemma rbwalk_correct_witness :
  rbwalk 7 ex_root ex_heap = Some ([(10, 100); (20, 200); (30, 300)], ex_heap).
Proof. apply (rbwalk_correct ex_heap ex_root ex_tree 7 ex_tree_at); [done|vm_compute; lia]. Defined.

(** [rbdelete] terminates and releases exactly the nodes of the tree. *)
Theorem rbdelete_correct {K V : Type} (h : gmap loc (rbnode K V)) tree s fuel
    (Htree : tree_at h tree s) (Hfuel : (2 * nodes s < fuel)%nat) :
  exists h', rbdelete fuel tree h = Some (tt, h') /\
    (forall l, occ l s <> 0%nat -> h' !! l = None) /\
    (forall l, occ l s = 0%nat -> h' !! l = h !! l).
Proof.
  destruct (rbdelete_ok h tree s fuel Htree Hfuel) as (h' & E & Hu).
  exists h'. split; [done|]. split; intros l Hl; destruct (Hu l) as (U1 & _ & U3); auto.
Qed.

Lemma rbdelete_correct_witness :
  exists h', rbdelete 7 ex_root ex_heap = Some (tt, h') /\
    (forall l, occ l ex_tree <> 0%nat -> h' !! l = None) /\
    (forall l, occ l ex_tree = 0%nat -> h' !! l = ex_heap !! l).
Proof. apply (rbdelete_correct ex_heap ex_root ex_tree 7 ex_tree_at). vm_compute. lia. Defined.

