(* ===== verification/MapCode.v ===== *)
(** * Map values of map.cc: reference-counted tree objects

    [mstore] is the part of the memory that map values occupy: the nodes of
    all trees, and the tree objects with their reference counts.  Each
    definition transcribes one function of [src/src/map.cc] (lines 585 to
    1140) over the tree code of [RBCode].  Keys and values are stored by
    content; the reference counts of the values inside a map are not
    modelled, nor are the colours and buffers of the cycle collector and the
    memoised byte size. *)
From Stdlib Require Import ZArith Lia.
From stdpp Require Import prelude gmap.
From S2P Require Import Prelude RBCode.

Local Open Scope Z_scope.
Local Open Scope moo_scope.

(** A tree object and its reference count *)
Record mapobj := mk_mapobj { m_tree : rbtree; m_refs : Z }.

Section mapcode.
Context {K V : Type}.
Variable cmp : bool -> K -> K -> Z.
Variable key0 : K.
Variable value0 : V.

(** [static_map] is the static [map] of [new_map]. *)
Record mstore := mk_mstore {
  nodes_of : gmap loc (rbnode K V); objs : gmap loc mapobj; static_map : option loc }.

(** A computation on the nodes *)
Definition on_nodes {A} (m : M (gmap loc (rbnode K V)) A) : M mstore A := fun s =>
  match m (nodes_of s) with
  | Some (x, h) => Some (x, mk_mstore h (objs s) (static_map s))
  | None => None
  end.

Definition get_obj (m : loc) : M mstore mapobj := fun s =>
  match objs s !! m with Some o => Some (o, s) | None => None end.
Definition put_obj (m : loc) (o : mapobj) : M mstore unit := fun s =>
  match objs s !! m with
  | Some _ => Some (tt, mk_mstore (nodes_of s) (<[m := o]> (objs s)) (static_map s))
  | None => None
  end.
Definition get_tree (m : loc) : M mstore rbtree := let! o := get_obj m in mreturn (m_tree o).
Definition put_tree (m : loc) (t : rbtree) : M mstore unit :=
  let! o := get_obj m in put_obj m (mk_mapobj t (m_refs o)).

(** [addref] and [var_refcount] on a map *)
Definition addref (m : loc) : M mstore loc :=
  let! o := get_obj m in put_obj m (mk_mapobj (m_tree o) (m_refs o + 1)) ;; mreturn m.
Definition var_refcount (m : loc) : M mstore Z := let! o := get_obj m in mreturn (m_refs o).

Definition empty_map : M mstore loc := fun s =>
  let m := fresh (dom (objs s)) in
  Some (m, mk_mstore (nodes_of s) (<[m := mk_mapobj rbnew 1]> (objs s)) (static_map s)).

Definition new_map : M mstore loc := fun s =>
  match static_map s with
  | Some m => addref m s
  | None =>
    match empty_map s with
    | Some (m, s') => addref m (mk_mstore (nodes_of s') (objs s') (Some m))
    | None => None
    end
  end.

Definition destroy_map (fuel : nat) (m : loc) : M mstore unit :=
  let! t := get_tree m in on_nodes (rbdelete fuel t).

(** [free_var] on a map: [delref], and the release of the tree and of the
    object at 0 *)
Definition free_var (fuel : nat) (m : loc) : M mstore unit :=
  let! o := get_obj m in
  put_obj m (mk_mapobj (m_tree o) (m_refs o - 1)) ;;
  if m_refs o - 1 =? 0 then
    destroy_map fuel m ;;
    fun s => Some (tt, mk_mstore (nodes_of s) (delete m (objs s)) (static_map s))
  else mreturn tt.

(** [rbinsert(t, &node)] with the panic of the callers on failure *)
Definition insert_or_panic (fuel : nat) (m : loc) (k : K) (v : V) : M mstore unit :=
  let! t := get_tree m in
  let! (r, t') := on_nodes (rbinsert cmp key0 value0 fuel t k v) in
  put_tree m t' ;;
  if r =? 0 then mfail else mreturn tt.
Definition erase_from (fuel : nat) (m : loc) (k : K) : M mstore Z :=
  let! t := get_tree m in
  let! (r, t') := on_nodes (rberase cmp key0 value0 fuel t k) in
  put_tree m t' ;;
  mreturn r.

(** [for (pnode = rbtfirst(&trav, tree); pnode; pnode = rbtnext(&trav))]:
    [body] gets the node, its data and the loop's state, and says whether
    the loop goes on. *)
Fixpoint for_nodes {B} (fuel : nat) (tr : rbtrav)
    (body : loc -> K -> V -> B -> M mstore (bool * B)) (acc : B) : M mstore B :=
  match fuel with
  | O => mfail
  | S fuel =>
    match it tr with
    | None => mreturn acc
    | Some a =>
      let! n := on_nodes (deref (Some a)) in
      let! (go, acc') := body a (key n) (value n) acc in
      if go : bool then
        let! tr' := on_nodes (rbtnext fuel tr) in
        for_nodes fuel tr' body acc'
      else mreturn acc'
    end
  end.
Definition for_tree {B} (fuel : nat) (t : rbtree)
    (body : loc -> K -> V -> B -> M mstore (bool * B)) (acc : B) : M mstore B :=
  let! tr := on_nodes (rbtfirst fuel t) in for_nodes fuel tr body acc.

Definition map_dup (fuel : nat) (map : loc) : M mstore loc :=
  let! new := empty_map in
  let! t := get_tree map in
  for_tree fuel t (fun _ k v _ =>
    insert_or_panic fuel new k v ;; mreturn (true, tt)) tt ;;
  mreturn new.

(** [valid_key]: not the panic of [mapinsert] *)
Definition mapinsert (valid_key : K -> bool) (fuel : nat) (map : loc) (key : K) (value : V) :
    M mstore loc :=
  if negb (valid_key key) then mfail
  else
    let! rc := var_refcount map in
    let! new := (if 1 <? rc then
                   let! new := map_dup fuel map in free_var fuel map ;; mreturn new
                 else mreturn map) in
    erase_from fuel new key ;;
    insert_or_panic fuel new key value ;;
    mreturn new.

(** The node found, as its data *)
Definition maplookup (fuel : nat) (map : loc) (k : K) (case_matters : bool) :
    M mstore (option (K * V)) :=
  let! t := get_tree map in
  let! p := on_nodes (rbfind cmp fuel t k case_matters) in
  match p with
  | None => mreturn None
  | Some _ => let! n := on_nodes (deref p) in mreturn (Some (key n, value n))
  end.

(** [None] for the iterator [none] *)
Definition mapseek (fuel : nat) (map : loc) (k : K) (case_matters : bool) :
    M mstore (option rbtrav) :=
  let! t := get_tree map in on_nodes (rbseek cmp fuel t k case_matters).

Definition mapempty (map : loc) : M mstore bool :=
  let! t := get_tree map in mreturn (size t =? 0).
Definition maplength (map : loc) : M mstore Z :=
  let! t := get_tree map in mreturn (size t).

(** [mapequal]: [eqk] and [eqv] are [equality] with the caller's
    [case_matters]. *)
Fixpoint mapequal_loop (fuel : nat) (eqk : K -> K -> bool) (eqv : V -> V -> bool)
    (tl tr : rbtrav) : M mstore bool :=
  match fuel with
  | O => mfail
  | S fuel =>
    match it tl, it tr with
    | None, None => mreturn true
    | None, Some _ | Some _, None => mreturn false
    | Some _, Some _ =>
      let! nl := on_nodes (deref (it tl)) in
      let! nr := on_nodes (deref (it tr)) in
      if negb (eqk (key nl) (key nr)) || negb (eqv (value nl) (value nr)) then mreturn false
      else
        let! tl' := on_nodes (rbtnext fuel tl) in
        let! tr' := on_nodes (rbtnext fuel tr) in
        mapequal_loop fuel eqk eqv tl' tr'
    end
  end.
Definition mapequal (fuel : nat) (eqk : K -> K -> bool) (eqv : V -> V -> bool) (lhs rhs : loc) :
    M mstore bool :=
  if bool_decide (lhs = rhs) then mreturn true
  else
    let! t1 := get_tree lhs in
    let! t2 := get_tree rhs in
    let! tl := on_nodes (rbtfirst fuel t1) in
    let! tr := on_nodes (rbtfirst fuel t2) in
    mapequal_loop fuel eqk eqv tl tr.

(** [func] gets the key, the value, its data and [first], and stops the
    iteration with a nonzero result. *)
Definition mapforeach {D} (fuel : nat) (map : loc) (func : K -> V -> D -> bool -> Z * D) (data : D) :
    M mstore (Z * D) :=
  let! t := get_tree map in
  let! r :=
    for_tree fuel t (fun _ k v '(_, data, first) =>
      let '(ret, data') := func k v data first in
      mreturn (ret =? 0, (ret, data', false))) (0, data, true) in
  mreturn (fst r).

(** The end of the tree in direction [d], for [mapfirst] and [maplast] *)
Fixpoint end_loop (fuel : nat) (p : ptr) (d : bool) : M (gmap loc (rbnode K V)) ptr :=
  match fuel with
  | O => mfail
  | S fuel =>
    let! q := get_link p d in
    match q with
    | None => mreturn p
    | Some _ => end_loop fuel q d
    end
  end.
Definition map_end (fuel : nat) (map : loc) (d : bool) : M mstore (option (K * V)) :=
  let! t := get_tree map in
  match root t with
  | None => mreturn None
  | Some _ =>
    let! p := on_nodes (end_loop fuel (root t) d) in
    let! n := on_nodes (deref p) in
    mreturn (Some (key n, value n))
  end.
Definition mapfirst (fuel : nat) (map : loc) := map_end fuel map false.
Definition maplast (fuel : nat) (map : loc) := map_end fuel map true.

(** [do { ... } while (pnode != to->it)]; a null [pnode] is dereferenced
    when the iterator runs off the end. *)
Fixpoint range_loop (fuel : nat) (new : loc) (from : rbtrav) (stop : ptr) : M mstore unit :=
  match fuel with
  | O => mfail
  | S fuel =>
    let! n := on_nodes (deref (it from)) in
    insert_or_panic fuel new (key n) (value n) ;;
    if ptr_eqb (it from) stop then mreturn tt
    else
      let! from' := on_nodes (rbtnext fuel from) in
      range_loop fuel new from' stop
  end.
Definition maprange (fuel : nat) (map : loc) (from to : rbtrav) : M mstore loc :=
  let! new := empty_map in
  range_loop fuel new from (it to) ;;
  free_var fuel map ;;
  mreturn new.

Definition maprangeset (fuel : nat) (map : loc) (from to : rbtrav) (value : loc) : M mstore loc :=
  let! new := empty_map in
  let! t := get_tree map in
  for_tree fuel t (fun a k v _ =>
    if ptr_eqb (Some a) (it from) then mreturn (false, tt)
    else insert_or_panic fuel new k v ;; mreturn (true, tt)) tt ;;
  let! tv := get_tree value in
  for_tree fuel tv (fun _ k v _ =>
    erase_from fuel new k ;; insert_or_panic fuel new k v ;; mreturn (true, tt)) tt ;;
  let! to' := on_nodes (rbtnext fuel to) in
  for_nodes fuel to' (fun _ k v _ =>
    erase_from fuel new k ;; insert_or_panic fuel new k v ;; mreturn (true, tt)) tt ;;
  free_var fuel map ;;
  free_var fuel value ;;
  mreturn new.

Definition new_iter (fuel : nat) (map : loc) : M mstore rbtrav :=
  let! t := get_tree map in on_nodes (rbtfirst fuel t).
Definition iterget (iter : rbtrav) : M mstore (option (K * V)) :=
  match it iter with
  | None => mreturn None
  | Some _ => let! n := on_nodes (deref (it iter)) in mreturn (Some (key n, value n))
  end.
Definition iternext (fuel : nat) (iter : rbtrav) : M mstore rbtrav :=
  on_nodes (rbtnext fuel iter).

(** *** [OP_RANGE_REF] and [EOP_RANGESET] of [run] (execute.cc) on a map;
    [None] for [E_RANGE].  The operands that are not collections. *)
Definition range_ref (fuel : nat) (base : loc) (from to : K) : M mstore (option loc) :=
  let rel := cmp false from to in
  let! iterfrom := mapseek fuel base from false in
  let! iterto := mapseek fuel base to false in
  match iterfrom, iterto with
  | Some f, Some t =>
    if 0 <? rel then
      let! r := new_map in free_var fuel base ;; mreturn (Some r)
    else
      let! r := maprange fuel base f t in mreturn (Some r)
  | _, _ =>
    if rel <=? 0 then free_var fuel base ;; mreturn None
    else let! r := new_map in free_var fuel base ;; mreturn (Some r)
  end.
Definition range_set (fuel : nat) (base : loc) (from to : K) (value : loc) : M mstore (option loc) :=
  let! iterfrom := mapseek fuel base from false in
  let! iterto := mapseek fuel base to false in
  match iterfrom, iterto with
  | Some f, Some t =>
    let! r := maprangeset fuel base f t value in mreturn (Some r)
  | _, _ => free_var fuel base ;; free_var fuel value ;; mreturn None
  end.

(** *** Built-in functions *)

(** The result of a built-in: a value, an error, or an error raised with
    the value it is about *)
Inductive map_pack (A : Type) :=
| PackValue (x : A)
| PackType
| PackRange
| PackRaiseRange (k : K).
Arguments PackValue {A}.
Arguments PackType {A}.
Arguments PackRange {A}.
Arguments PackRaiseRange {A}.

(** The loop of [bf_mapdelete] over a list of keys; [None] when every key
    was deleted *)
Fixpoint delete_keys (is_collection : K -> bool) (fuel : nat) (r : loc) (keys : list K) :
    M mstore (map_pack loc) :=
  match keys with
  | [] => mreturn (PackValue r)
  | key :: keys' =>
    if is_collection key then free_var fuel r ;; mreturn PackType
    else
      let! ret := erase_from fuel r key in
      if ret =? 0 then free_var fuel r ;; mreturn (PackRaiseRange key)
      else delete_keys is_collection fuel r keys'
  end.

(** [key_arg]: a list of keys, or one key.  The argument list is consumed:
    the map argument loses a reference. *)
Definition bf_mapdelete (is_collection : K -> bool) (fuel : nat) (map : loc) (key_arg : list K + K) :
    M mstore (map_pack loc) :=
  let! rc := var_refcount map in
  let! r := (if rc =? 1 then addref map else map_dup fuel map) in
  let! res :=
    match key_arg with
    | inl keys => delete_keys is_collection fuel r keys
    | inr key =>
      if is_collection key then free_var fuel r ;; mreturn PackType
      else
        let! ret := erase_from fuel r key in
        if ret =? 0 then free_var fuel r ;; mreturn PackRange
        else mreturn (PackValue r)
    end in
  free_var fuel map ;;
  mreturn res.

Definition bf_mapkeys (fuel : nat) (map : loc) : M mstore (list K) :=
  let! r := mapforeach fuel map (fun k _ data _ => (0, data ++ [k])) [] in
  free_var fuel map ;;
  mreturn (snd r).

(** [keys] are the arguments after the map. *)
Fixpoint lookup_values (fuel : nat) (map : loc) (keys : list K) (r : list V) :
    M mstore (map_pack (list V)) :=
  match keys with
  | [] => mreturn (PackValue r)
  | k :: keys' =>
    let! x := maplookup fuel map k true in
    match x with
    | None => mreturn PackRange
    | Some (_, v) => lookup_values fuel map keys' (r ++ [v])
    end
  end.
Definition bf_mapvalues (fuel : nat) (map : loc) (keys : list K) : M mstore (map_pack (list V)) :=
  let! res :=
    (if (length keys =? 0)%nat then
       let! r := mapforeach fuel map (fun _ v data _ => (0, data ++ [v])) [] in
       mreturn (PackValue (snd r))
     else lookup_values fuel map keys []) in
  free_var fuel map ;;
  mreturn res.

Definition bf_maphaskey (is_collection : K -> bool) (fuel : nat) (map : loc) (k : K) (cm : bool) :
    M mstore (map_pack bool) :=
  if is_collection k then free_var fuel map ;; mreturn PackType
  else
    let! x := maplookup fuel map k cm in
    free_var fuel map ;;
    mreturn (PackValue (match x with None => false | Some _ => true end)).
End mapcode.
Arguments mstore : clear implicits.
Arguments mk_mstore {K V}.
Arguments map_pack : clear implicits.
Arguments PackValue {K A}.
Arguments PackType {K A}.
Arguments PackRange {K A}.
Arguments PackRaiseRange {K A}.
