(* ===== verification/MapSpec.v ===== *)
(** * The map operations against abstract maps

    An abstract store [astore] gives every map object its sequence of entries
    and its reference count.  [repr] relates it to the memory: each object's
    tree is a red-black tree holding the sequence, and distinct objects share
    no node.  The operations of [MapCode] refine the abstract ones, and every
    other map of the store keeps its contents and count. *)
From Stdlib Require Import ZArith Lia Sorted.
From stdpp Require Import prelude gmap.
From S2P Require Import Prelude RBCode RBTree RBOrder RBInsert RBErase RBTraverse MapCode.

Local Open Scope Z_scope.
Local Open Scope moo_scope.

Section spec.
Context {K V : Type} (cmp : bool -> K -> K -> Z) (ok : K -> Prop) `{!KeyOrder cmp ok}.
Context (key0 : K) (value0 : V).
Abbreviation mstore := (mstore K V).
Abbreviation amap := (list (K * V)).
Abbreviation astore := (gmap loc (amap * Z)).
Implicit Types (σ : mstore) (A : astore) (L : amap) (m : loc) (T : loc -> tree K V).

Record repr_by σ A T : Prop := {
  repr_objs : forall m,
    match A !! m with
    | None => objs σ !! m = None /\ T m = E
    | Some (L, rc) => exists tr, objs σ !! m = Some (mk_mapobj tr rc) /\
        tree_at (nodes_of σ) tr (T m) /\ elems (T m) = L /\
        size tr = Z.of_nat (length L) /\ ksorted cmp ok L
    end;
  repr_disj : forall m1 m2 x,
    occ x (T m1) <> 0%nat -> occ x (T m2) <> 0%nat -> m1 = m2 }.
Definition repr σ A : Prop := exists T, repr_by σ A T.

(** The fuel and the size at which the iterators' paths suffice *)
Definition fits L (fuel : nat) : Prop :=
  (2 * length L + 3 <= fuel)%nat /\ Z.of_nat (length L) < 2 ^ 33 - 1.

Lemma fits_nodes L fuel (s : tree K V) :
  fits L fuel -> elems s = L ->
  (2 * nodes s + 3 <= fuel)%nat /\ Z.of_nat (nodes s) < 2 ^ 33 - 1 /\ (height s < fuel)%nat.
Proof.
  intros [Hf Hs] <-. rewrite nodes_elems in *. pose proof (height_le_nodes s). lia.
Qed.

(** ** The tree of one object changes *)

Lemma rep_upd (h h' : gmap loc (rbnode K V)) O O' s :
  rep h s -> upd O O' h h' -> (forall x, occ x s <> 0%nat -> O x = 0%nat) -> rep h' s.
Proof.
  intros Hs Hu. assert (forall x, occ x s <> 0%nat -> h !! x <> None) as Hd.
  { intros x Hx HN. by apply (rep_dom h s x Hs) in HN. }
  induction s as [|c l IHl a k v r IHr]; simpl in *; [done|]. intros HO.
  destruct Hs as (Ha & Hl & Hr).
  assert (O a = 0%nat) as Oa by (apply HO; rewrite one_same; lia).
  destruct (Hu a) as (U1 & U2 & _).
  assert (O' a = 0%nat) as Oa'.
  { destruct (decide (O' a = 0%nat)) as [|HN]; [done|]. by rewrite (U2 Oa HN) in Ha. }
  rewrite U1 by done. split_and!; [done|apply IHl|apply IHr]; try done;
    intros x Hx; (apply Hd || apply HO); lia.
Qed.

Lemma repr_tree σ A T m rc h' tr' s' :
  repr_by σ A T ->
  upd (fun x => occ x (T m)) (fun x => occ x s') (nodes_of σ) h' ->
  tree_at h' tr' s' -> size tr' = Z.of_nat (length (elems s')) -> ksorted cmp ok (elems s') ->
  repr_by (mk_mstore h' (<[m := mk_mapobj tr' rc]> (objs σ)) (static_map σ))
    (<[m := (elems s', rc)]> A) (fun m' => if decide (m' = m) then s' else T m').
Proof.
  intros [Ho Hd] Hu Ht Hsz Hs. split.
  - intros m'. simpl. destruct (decide (m' = m)) as [->|Hne].
    + rewrite !lookup_insert_eq. exists tr'. done.
    + rewrite !lookup_insert_ne by done. specialize (Ho m').
      destruct (A !! m') as [[L' rc']|]; [|done].
      destruct Ho as (tr1 & Ho & [Hr1 Hr2 Hr3 Hr4] & He & Hz & Hk).
      exists tr1. split_and!; try done. split; try done.
      eapply rep_upd; [exact Hr2|exact Hu|]. intros x Hx.
      destruct (decide (occ x (T m) = 0)%nat); [done|]. by destruct Hne; apply (Hd _ _ x).
  - assert (forall m' x, m' <> m -> occ x (T m') <> 0%nat -> occ x s' = 0%nat) as Hx.
    { intros m' x Hne Hx. destruct (decide (occ x s' = 0)%nat) as [|Hs']; [done|].
      destruct (decide (occ x (T m) = 0)%nat) as [H0|H0]; [|by destruct Hne; apply (Hd _ _ x)].
      destruct (Hu x) as (_ & U2 & _). specialize (U2 H0 Hs').
      specialize (Ho m'). destruct (A !! m') as [[L' rc']|].
      - destruct Ho as (tr1 & _ & [_ Hr2 _ _] & _). by apply (rep_dom _ _ _ Hr2) in U2.
      - destruct Ho as [_ HE]. by rewrite HE in Hx. }
    intros m1 m2 x H1 H2.
    destruct (decide (m1 = m)) as [->|N1], (decide (m2 = m)) as [->|N2]; try done.
    + by rewrite (Hx m2) in H1.
    + by rewrite (Hx m1) in H2.
    + by apply (Hd _ _ x).
Qed.

Lemma repr_lookup σ A T m L rc :
  repr_by σ A T -> A !! m = Some (L, rc) ->
  exists tr, objs σ !! m = Some (mk_mapobj tr rc) /\ tree_at (nodes_of σ) tr (T m) /\
    elems (T m) = L /\ size tr = Z.of_nat (length L) /\ ksorted cmp ok L.
Proof. intros [Ho _] Hm. specialize (Ho m). by rewrite Hm in Ho. Qed.

Lemma get_tree_eq σ m tr rc :
  objs σ !! m = Some (mk_mapobj tr rc) -> get_tree m σ = Some (tr, σ).
Proof. unfold get_tree, get_obj, mbindM. by intros ->. Qed.

(** ** Primitive operations *)

Lemma on_nodes_eq {X} (f : M (gmap loc (rbnode K V)) X) σ x h' :
  f (nodes_of σ) = Some (x, h') -> on_nodes f σ = Some (x, mk_mstore h' (objs σ) (static_map σ)).
Proof. unfold on_nodes. by intros ->. Qed.
Lemma on_nodes_read {X} (f : M (gmap loc (rbnode K V)) X) σ x :
  f (nodes_of σ) = Some (x, nodes_of σ) -> on_nodes f σ = Some (x, σ).
Proof. intros ->%on_nodes_eq. by destruct σ. Qed.

Lemma put_tree_eq σ m tr tr' rc :
  objs σ !! m = Some (mk_mapobj tr rc) ->
  put_tree m tr' σ =
    Some (tt, mk_mstore (nodes_of σ) (<[m := mk_mapobj tr' rc]> (objs σ)) (static_map σ)).
Proof.
  intros H. unfold put_tree, get_obj, put_obj, mbindM. rewrite H. cbn [m_refs]. by rewrite H.
Qed.

(** The source of a loop stays as it is while another object changes. *)
Definition kept T T' m : Prop := forall m', m' <> m -> T' m' = T m'.

Lemma insert_or_panic_ok σ A T m L rc k v fuel :
  repr_by σ A T -> A !! m = Some (L, rc) -> ok k -> amem cmp k L = false ->
  (2 * length L + 1 <= fuel)%nat ->
  exists σ' T', insert_or_panic cmp key0 value0 fuel m k v σ = Some (tt, σ') /\
    repr_by σ' (<[m := (aput cmp k v L, rc)]> A) T' /\ kept T T' m /\
    static_map σ' = static_map σ.
Proof.
  intros Hr Hm Hk Ha Hf. destruct (repr_lookup _ _ _ _ _ _ Hr Hm) as (tr & Ho & Ht & He & Hz & Hs).
  destruct (rbinsert_ok cmp ok key0 value0 (nodes_of σ) tr (T m) k v fuel)
    as (h' & tr' & s' & E1 & Ht' & Hsz & He' & Hu); [done|by rewrite He|done|..].
  { rewrite <- nodes_elems, He. lia. }
  rewrite He in He'. unfold ains in He'. rewrite Ha in He'.
  eexists _, _. split.
  - unfold insert_or_panic. erewrite mbind_Some by (by eapply get_tree_eq). cbv beta.
    erewrite mbind_Some by (by eapply on_nodes_eq). cbv beta iota.
    erewrite mbind_Some by (by eapply put_tree_eq). done.
  - rewrite <- He'. split; [apply (repr_tree σ A T m rc h' tr' s'); [done|done|done| |]|].
    + rewrite Hsz, Hz, He', aput_length by done. lia.
    + rewrite He'. by apply (ksorted_aput cmp ok).
    + split; [|done]. intros m' Hne. simpl. by rewrite decide_False.
Qed.

Lemma erase_from_ok σ A T m L rc k fuel :
  repr_by σ A T -> A !! m = Some (L, rc) -> ok k -> (length L < fuel)%nat ->
  exists σ' T', erase_from cmp key0 value0 fuel m k σ =
      Some (if amem cmp k L then 1 else 0, σ') /\
    repr_by σ' (<[m := (adel cmp k L, rc)]> A) T' /\ kept T T' m /\
    static_map σ' = static_map σ.
Proof.
  intros Hr Hm Hk Hf. destruct (repr_lookup _ _ _ _ _ _ Hr Hm) as (tr & Ho & Ht & He & Hz & Hs).
  destruct (rberase_ok cmp ok key0 value0 (nodes_of σ) tr (T m) k fuel)
    as (h' & tr' & s' & E1 & Ht' & Hsz & He' & Hu); [done|by rewrite He|done|..].
  { rewrite <- nodes_elems, He. lia. }
  rewrite He in *.
  eexists _, _. split.
  - unfold erase_from. erewrite mbind_Some by (by eapply get_tree_eq). cbv beta.
    erewrite mbind_Some by (by eapply on_nodes_eq). cbv beta iota.
    erewrite mbind_Some by (by eapply put_tree_eq). done.
  - rewrite <- He'. split; [apply (repr_tree σ A T m rc h' tr' s'); [done|done|done| |]|].
    + rewrite Hsz, Hz, He'. by apply (adel_length cmp ok).
    + rewrite He'. by apply (ksorted_adel cmp ok).
    + split; [|done]. intros m' Hne. simpl. by rewrite decide_False.
Qed.

Lemma empty_map_ok σ A T :
  repr_by σ A T ->
  exists m σ', empty_map σ = Some (m, σ') /\ A !! m = None /\
    repr_by σ' (<[m := ([], 1)]> A) T /\ static_map σ' = static_map σ.
Proof.
  intros Hr. set (m := fresh (dom (objs σ))).
  assert (objs σ !! m = None) as Hm by (apply not_elem_of_dom, is_fresh).
  assert (A !! m = None /\ T m = E) as [HA HT].
  { pose proof (repr_objs _ _ _ Hr m) as Ho. destruct (A !! m) as [[]|]; [|naive_solver].
    destruct Ho as (? & ? & _). congruence. }
  eexists m, _. split; [done|]. split; [done|]. split; [|done]. destruct Hr as [Ho Hd].
  split; [|done]. intros m'. simpl. destruct (decide (m' = m)) as [->|Hne].
  - rewrite !lookup_insert_eq, HT. exists rbnew. split; [done|]. split; [|repeat constructor].
    split; try done; [intros x; simpl; lia|by exists 0%nat; constructor].
  - rewrite !lookup_insert_ne by done. apply Ho.
Qed.

Lemma put_refs σ A T m L rc rc' :
  repr_by σ A T -> A !! m = Some (L, rc) ->
  exists tr, objs σ !! m = Some (mk_mapobj tr rc) /\
    let σ' := mk_mstore (nodes_of σ) (<[m := mk_mapobj tr rc']> (objs σ)) (static_map σ) in
    put_obj m (mk_mapobj tr rc') σ = Some (tt, σ') /\
    repr_by σ' (<[m := (L, rc')]> A) T.
Proof.
  intros Hr Hm. destruct (repr_lookup _ _ _ _ _ _ Hr Hm) as (tr & Ho & Ht & He & Hz & Hs).
  exists tr. split; [done|]. split; [unfold put_obj; by rewrite Ho|].
  destruct Hr as [Hr Hd]. split; [|done]. intros m'. simpl.
  destruct (decide (m' = m)) as [->|Hne].
  - rewrite !lookup_insert_eq. exists tr. done.
  - rewrite !lookup_insert_ne by done. apply Hr.
Qed.

Lemma addref_ok σ A T m L rc :
  repr_by σ A T -> A !! m = Some (L, rc) ->
  exists σ', addref m σ = Some (m, σ') /\ repr_by σ' (<[m := (L, rc + 1)]> A) T.
Proof.
  intros Hr Hm. destruct (put_refs _ _ _ _ _ _ (rc + 1) Hr Hm) as (tr & Ho & E1 & Hr').
  eexists. split; [|exact Hr']. unfold addref, get_obj, mbindM. rewrite Ho. cbn [m_tree m_refs].
  by rewrite E1.
Qed.

Lemma repr_delete σ A T m :
  repr_by σ A T -> T m = E ->
  repr_by (mk_mstore (nodes_of σ) (delete m (objs σ)) (static_map σ)) (delete m A) T.
Proof.
  intros [Hr Hd] HT. split; [|done]. intros m'. simpl.
  destruct (decide (m' = m)) as [->|Hne]; [by rewrite !lookup_delete_eq|].
  rewrite !lookup_delete_ne by done. apply Hr.
Qed.

(** [free_var] gives back one reference; the last one releases the nodes. *)
Definition drop_ref A m L (rc : Z) : astore :=
  if rc =? 1 then delete m A else <[m := (L, rc - 1)]> A.

Lemma free_var_ok σ A T m L rc fuel :
  repr_by σ A T -> A !! m = Some (L, rc) -> (2 * length L < fuel)%nat ->
  exists σ' T', free_var fuel m σ = Some (tt, σ') /\ repr_by σ' (drop_ref A m L rc) T' /\
    kept T T' m /\ static_map σ' = static_map σ.
Proof.
  intros Hr Hm Hf. unfold drop_ref.
  destruct (put_refs _ _ _ _ _ _ (rc - 1) Hr Hm) as (tr & Ho & E1 & Hr').
  assert (free_var fuel m σ = (if rc - 1 =? 0 then
    destroy_map fuel m ;;
    fun s => Some (tt, mk_mstore (nodes_of s) (delete m (objs s)) (static_map s))
    else mreturn tt) (mk_mstore (nodes_of σ) (<[m := mk_mapobj tr (rc - 1)]> (objs σ)) (static_map σ))) as ->.
  { unfold free_var. unfold get_obj at 1, mbindM at 1. rewrite Ho. cbn [m_tree m_refs].
    by erewrite mbind_Some by exact E1. }
  destruct (rc =? 1) eqn:Erc; destruct (rc - 1 =? 0) eqn:Erc'; try lia.
  - destruct (repr_lookup _ _ _ _ _ _ Hr Hm) as (tr1 & Ho1 & Ht & He & Hz & Hs).
    rewrite Ho in Ho1. simplify_eq.
    destruct (rbdelete_ok (nodes_of σ) tr1 (T m) fuel Ht) as (h' & E2 & Hu).
    { rewrite <- nodes_elems. lia. }
    assert (repr_by (mk_mstore h' (<[m := mk_mapobj rbnew 1]> (objs σ)) (static_map σ))
      (<[m := ([], 1)]> A) (fun m' => if decide (m' = m) then E else T m')) as Hr2.
    { apply (repr_tree σ A T m 1 h' rbnew E Hr Hu); [|done|repeat constructor].
      split; [done|done|intros x; simpl; lia|by exists 0%nat; constructor]. }
    apply (repr_delete _ _ _ m) in Hr2; [|by apply decide_True].
    simpl in Hr2. rewrite !delete_insert_eq in Hr2.
    eexists _, _. split; [|split; [exact Hr2|split; [intros m' Hne; by apply decide_False|done]]].
    unfold destroy_map. erewrite mbind_Some;
      [|erewrite mbind_Some; [|eapply get_tree_eq, lookup_insert_eq]; by eapply on_nodes_eq].
    simpl. by rewrite delete_insert_eq.
  - eexists _, T. by split; [done|].
Qed.

(** ** Loops over the nodes of a tree *)

Section loop.
Context {B : Type} (body : loc -> K -> V -> B -> M mstore (bool * B)) (s : tree K V).
Context (Inv : nat -> B -> mstore -> Prop) (Post : B -> mstore -> Prop).
Hypothesis Hsmall : Z.of_nat (nodes s) < 2 ^ 33 - 1.
Hypothesis Hinv : forall i acc σ, Inv i acc σ -> exists tr, tree_at (nodes_of σ) tr s.
Hypothesis Hbody : forall i a k v acc σ,
  Inv i acc σ -> elems s !! i = Some (k, v) -> addrs s !! i = Some a ->
  exists go acc' σ', body a k v acc σ = Some ((go, acc'), σ') /\
    if go : bool then Inv (S i) acc' σ' else Post acc' σ'.
Hypothesis Hend : forall acc σ, Inv (nodes s) acc σ -> Post acc σ.

Lemma for_nodes_ok n : forall fuel i tr acc σ,
  (height s + n + 1 <= fuel)%nat -> (nodes s - i <= n)%nat -> (i <= nodes s)%nat ->
  Inv i acc σ ->
  (if decide (i < nodes s)%nat then at_index (nodes_of σ) s i tr else it tr = None) ->
  exists acc' σ', for_nodes fuel tr body acc σ = Some (acc', σ') /\ Post acc' σ'.
Proof.
  induction n as [|n IH]; intros fuel i tr acc σ Hf Hn Hi HI Hat;
    (destruct fuel as [|fuel]; [lia|]); cbn [for_nodes].
  { rewrite decide_False in Hat by lia. rewrite Hat. exists acc, σ. split; [done|].
    apply Hend. by replace (nodes s) with i by lia. }
  destruct (decide (i < nodes s)%nat) as [Hlt|Hge].
  - destruct (Hinv _ _ _ HI) as [t Ht].
    destruct (at_index_data (nodes_of σ) s i tr) as (a & nd & Hit & Ha & He); [apply Ht|done|].
    rewrite Hit. erewrite mbind_Some by (by eapply on_nodes_read, deref_eq). cbv beta.
    destruct (Hbody i a (key nd) (value nd) acc σ HI He) as (go & acc' & σ' & E1 & Hgo).
    { by eapply at_index_addr. }
    erewrite mbind_Some by exact E1. cbv beta iota.
    destruct go; [|by exists acc', σ'].
    destruct (Hinv _ _ _ Hgo) as [t' Ht'].
    destruct (rbtnext_ok fuel (nodes_of σ') t' s (nodes s) Ht' eq_refl Hsmall ltac:(lia) i tr)
      as (tr' & E2 & Hat'); [by eapply at_index_heap|].
    erewrite mbind_Some by (by eapply on_nodes_read). cbv beta.
    apply (IH fuel (S i)); try done; lia.
  - rewrite Hat. exists acc, σ. split; [done|]. apply Hend. by replace (nodes s) with i by lia.
Qed.

Lemma for_tree_ok fuel t acc σ :
  tree_at (nodes_of σ) t s -> (2 * nodes s + 1 <= fuel)%nat -> Inv 0 acc σ ->
  exists acc' σ', for_tree fuel t body acc σ = Some (acc', σ') /\ Post acc' σ'.
Proof.
  intros Ht Hf HI. pose proof (height_le_nodes s).
  destruct (rbtfirst_ok fuel (nodes_of σ) t s (nodes s) Ht eq_refl Hsmall) as (tr & E1 & Hat); [lia|].
  unfold for_tree. erewrite mbind_Some by (by eapply on_nodes_read). cbv beta.
  apply (for_nodes_ok (nodes s) fuel 0); try done; try lia.
  destruct (decide (0 < nodes s)%nat), (decide (nodes s = 0)%nat); try lia; done.
Qed.
End loop.

(** ** [map_dup] and [mapinsert] *)

(** Entries in order, each new: insertion appends. *)
Lemma put_last L i k v :
  ksorted cmp ok L -> L !! i = Some (k, v) ->
  amem cmp k (take i L) = false /\ aput cmp k v (take i L) = take (S i) L /\ ok k.
Proof.
  intros Hs Hi. pose proof (take_drop_middle L i (k, v) Hi) as HL.
  rewrite <- HL in Hs. apply (ksorted_around cmp ok) in Hs as [Hs Hs2].
  apply (ksorted_cons cmp ok) in Hs2 as (Hk & _). simpl in Hk.
  pose proof (all_lt_before cmp ok k (k, v) (take i L) Hk Hs) as Hlt.
  rewrite (cmp_refl cmp ok) in Hlt by done. specialize (Hlt ltac:(simpl; lia)).
  rewrite <- (app_nil_r (take i L)). change (take i L ++ []) with (take i L ++ [] ++ []).
  split_and!; [|unfold aput|done].
  - by rewrite amem_split by (done || constructor).
  - rewrite (below_split cmp), (above_split cmp) by (done || constructor).
    by rewrite (take_S_r _ _ _ Hi).
Qed.

Lemma map_dup_ok σ A T m L rc fuel :
  repr_by σ A T -> A !! m = Some (L, rc) -> fits L fuel ->
  exists m' σ' T', map_dup cmp key0 value0 fuel m σ = Some (m', σ') /\
    A !! m' = None /\ repr_by σ' (<[m' := (L, 1)]> A) T' /\ kept T T' m' /\
    static_map σ' = static_map σ.
Proof.
  intros Hr Hm Hfit.
  destruct (empty_map_ok σ A T Hr) as (m' & σ1 & E1 & Hnew & Hr1 & Hst1).
  assert (m <> m') as Hne by (intros ->; congruence).
  assert (<[m' := ([], 1)]> A !! m = Some (L, rc)) as Hm1 by (by rewrite lookup_insert_ne).
  destruct (repr_lookup _ _ _ _ _ _ Hr1 Hm1) as (tr & Ho & Ht & He & Hz & Hs).
  destruct (fits_nodes _ _ _ Hfit He) as (Hf & Hsm & _).
  destruct (for_tree_ok (fun _ k v _ => insert_or_panic cmp key0 value0 fuel m' k v ;; mreturn (true, tt))
    (T m) (fun i _ σ' => exists T', repr_by σ' (<[m' := (take i L, 1)]> A) T' /\ kept T T' m' /\
              static_map σ' = static_map σ)
    (fun _ σ' => exists T', repr_by σ' (<[m' := (L, 1)]> A) T' /\ kept T T' m' /\
              static_map σ' = static_map σ) Hsm) with (fuel := fuel) (t := tr) (acc := tt) (σ := σ1)
    as ([] & σ' & E2 & T' & Hr' & Hk' & Hst').
  - intros i _ σ' (T' & Hr' & Hk' & _).
    destruct (repr_lookup σ' _ T' m L rc Hr') as (tr' & _ & Ht' & _); [by rewrite lookup_insert_ne|].
    exists tr'. by rewrite (Hk' m Hne) in Ht'.
  - intros i a k v _ σ' (T' & Hr' & Hk' & Hst') Hi _. rewrite He in Hi.
    destruct (put_last L i k v Hs Hi) as (Ha & Hput & Hok).
    destruct (insert_or_panic_ok σ' _ T' m' (take i L) 1 k v fuel Hr')
      as (σ'' & T'' & E2 & Hr'' & Hk'' & Hst''); [by rewrite lookup_insert_eq|done|done| |].
    { rewrite length_take. destruct Hfit. lia. }
    exists true, tt, σ''. split; [by erewrite mbind_Some by exact E2|].
    exists T''. rewrite Hput, insert_insert_eq in Hr''. split; [done|].
    split; [|congruence]. intros m2 H2. rewrite Hk'', Hk'; done.
  - intros _ σ' (T' & Hr' & Hk' & Hst'). exists T'. split; [|done].
    rewrite take_ge in Hr'; [done|]. rewrite <- He, nodes_elems. lia.
  - done.
  - lia.
  - exists T. rewrite take_0. done.
  - exists m', σ', T'. split; [|done]. unfold map_dup.
    erewrite mbind_Some by exact E1. cbv beta.
    erewrite mbind_Some by (by eapply get_tree_eq). cbv beta.
    by erewrite mbind_Some by exact E2.
Qed.

(** Insertion replaces the entry of an equal key. *)
Lemma put_after_delete k v L :
  ok k -> ksorted cmp ok L ->
  amem cmp k (adel cmp k L) = false /\ aput cmp k v (adel cmp k L) = aput cmp k v L.
Proof.
  intros Hk Hs. unfold adel, aput.
  assert (all_lt cmp k (below cmp k L)) as Hb.
  { apply Forall_forall. by intros x [? _]%list_elem_of_filter. }
  assert (all_gt cmp k (above cmp k L)) as Ha.
  { apply Forall_forall. by intros x [? _]%list_elem_of_filter. }
  change (below cmp k L ++ above cmp k L) with (below cmp k L ++ [] ++ above cmp k L).
  rewrite (amem_split cmp k _ [] _ Hb) by (done || constructor).
  rewrite (below_split cmp k _ [] _ Hb), (above_split cmp k _ [] _ Hb) by (done || constructor).
  done.
Qed.

(** The erase-then-insert idiom: the entry of [k] becomes [(k, v)]. *)
Lemma replace_ok σ A T m L rc k v fuel :
  repr_by σ A T -> A !! m = Some (L, rc) -> ok k -> (2 * length L + 3 <= fuel)%nat ->
  exists r σ1 σ' T', erase_from cmp key0 value0 fuel m k σ = Some (r, σ1) /\
    insert_or_panic cmp key0 value0 fuel m k v σ1 = Some (tt, σ') /\
    repr_by σ' (<[m := (aput cmp k v L, rc)]> A) T' /\ kept T T' m /\
    static_map σ' = static_map σ.
Proof.
  intros Hr Hm Hk Hf. destruct (repr_lookup _ _ _ _ _ _ Hr Hm) as (tr & _ & _ & _ & _ & Hs).
  destruct (erase_from_ok σ A T m L rc k fuel Hr Hm Hk) as (σ1 & T1 & E1 & Hr1 & Hk1 & Hst1); [lia|].
  destruct (put_after_delete k v L Hk Hs) as [Ha Hput].
  pose proof (adel_length cmp ok k L Hk Hs) as Hlen.
  destruct (insert_or_panic_ok σ1 _ T1 m (adel cmp k L) rc k v fuel Hr1)
    as (σ2 & T2 & E2 & Hr2 & Hk2 & Hst2); [by rewrite lookup_insert_eq|done|done| |].
  { destruct (amem cmp k L); lia. }
  rewrite insert_insert_eq, Hput in Hr2.
  eexists _, σ1, σ2, T2. split; [exact E1|]. split; [exact E2|]. split; [done|].
  split; [|congruence]. intros m2 H2. rewrite Hk2, Hk1; done.
Qed.

Lemma mapinsert_ok valid_key σ A T m L rc k v fuel :
  repr_by σ A T -> A !! m = Some (L, rc) -> 0 < rc -> ok k -> valid_key k = true -> fits L fuel ->
  exists m' σ' T', mapinsert cmp key0 value0 valid_key fuel m k v σ = Some (m', σ') /\
    repr_by σ' (<[m' := (aput cmp k v L, 1)]> (if 1 <? rc then <[m := (L, rc - 1)]> A else A)) T' /\
    (if 1 <? rc then A !! m' = None else m' = m) /\ static_map σ' = static_map σ.
Proof.
  intros Hr Hm Hrc Hk Hv Hfit. unfold mapinsert. rewrite Hv. cbn [negb].
  destruct (repr_lookup _ _ _ _ _ _ Hr Hm) as (tr & Ho & _ & _ & _ & _).
  assert (var_refcount m σ = Some (rc, σ)) as Erc.
  { unfold var_refcount, get_obj, mbindM. by rewrite Ho. }
  erewrite mbind_Some by exact Erc. cbv beta. destruct (1 <? rc) eqn:E1rc.
  - destruct (map_dup_ok σ A T m L rc fuel Hr Hm Hfit) as (m' & σ1 & T1 & E1 & Hnew & Hr1 & Hk1 & Hst1).
    assert (m <> m') as Hne by (intros ->; congruence).
    destruct (free_var_ok σ1 _ T1 m L rc fuel Hr1) as (σ2 & T2 & E2 & Hr2 & Hk2 & Hst2);
      [by rewrite lookup_insert_ne|destruct Hfit; lia|].
    unfold drop_ref in Hr2. replace (rc =? 1) with false in Hr2 by lia.
    rewrite (insert_insert_ne A m m') in Hr2 by done.
    destruct (replace_ok σ2 _ T2 m' L 1 k v fuel Hr2) as (r & σ3 & σ4 & T4 & E3 & E4 & Hr4 & _ & Hst4);
      [by rewrite lookup_insert_eq|done|destruct Hfit; lia|].
    exists m', σ4, T4. rewrite insert_insert_eq in Hr4.
    split; [|split; [done|split; [done|congruence]]].
    erewrite mbind_Some; [|erewrite mbind_Some by exact E1; erewrite mbind_Some by exact E2; done].
    cbv beta. erewrite mbind_Some by exact E3. cbv beta. by erewrite mbind_Some by exact E4.
  - assert (rc = 1) as -> by lia.
    destruct (replace_ok σ _ T m L 1 k v fuel Hr Hm Hk) as (r & σ3 & σ4 & T4 & E3 & E4 & Hr4 & _ & Hst4);
      [destruct Hfit; lia|].
    exists m, σ4, T4. split; [|done].
    erewrite mbind_Some by done. cbv beta.
    erewrite mbind_Some by exact E3. cbv beta. by erewrite mbind_Some by exact E4.
Qed.

Lemma maplookup_ok σ A T m L rc k cm fuel :
  repr_by σ A T -> A !! m = Some (L, rc) -> ok k -> (length L < fuel)%nat ->
  maplookup cmp fuel m k cm σ = Some (afind cmp cm k L, σ).
Proof.
  intros Hr Hm Hk Hf. destruct (repr_lookup _ _ _ _ _ _ Hr Hm) as (tr & Ho & Ht & He & Hz & Hs).
  pose proof (height_le_nodes (T m)) as Hh. rewrite <- nodes_elems, He in Hh.
  destruct (rbfind_loop_ok cmp ok fuel (nodes_of σ) (T m) k cm) as (p & Ep & Hp);
    [lia|apply Ht|by rewrite He|done|].
  unfold maplookup. erewrite mbind_Some by (by eapply get_tree_eq). cbv beta.
  erewrite mbind_Some by (eapply on_nodes_read; unfold rbfind; rewrite (ta_root _ _ _ Ht); exact Ep).
  cbv beta. rewrite He in Hp. destruct (afind cmp cm k L) as [[k' v']|]; simpl in Hp.
  - destruct Hp as (a & n & -> & Ha & <- & <- & _).
    by erewrite mbind_Some by (by eapply on_nodes_read, deref_eq).
  - by rewrite Hp.
Qed.

Lemma maplength_ok σ A T m L rc :
  repr_by σ A T -> A !! m = Some (L, rc) ->
  maplength m σ = Some (Z.of_nat (length L), σ) /\
  mapempty m σ = Some (bool_decide (L = []), σ).
Proof.
  intros Hr Hm. destruct (repr_lookup _ _ _ _ _ _ Hr Hm) as (tr & Ho & Ht & He & Hz & Hs).
  unfold maplength, mapempty. split; erewrite mbind_Some by (by eapply get_tree_eq); cbv beta; rewrite Hz.
  - done.
  - unfold mreturn. f_equal. f_equal. by destruct L.
Qed.

Lemma mapseek_ok σ A T m L rc k fuel :
  repr_by σ A T -> A !! m = Some (L, rc) -> ok k -> fits L fuel ->
  exists r, mapseek cmp fuel m k false σ = Some (r, σ) /\
    match r with
    | Some tr => exists i x, at_index (nodes_of σ) (T m) i tr /\ L !! i = Some x /\
                   cmp false (fst x) k = 0
    | None => amem cmp k L = false
    end.
Proof.
  intros Hr Hm Hk Hfit. destruct (repr_lookup _ _ _ _ _ _ Hr Hm) as (tr & Ho & Ht & He & Hz & Hs).
  destruct (fits_nodes _ _ _ Hfit He) as (Hf & Hsm & Hh).
  destruct (rbseek_ok cmp ok fuel (nodes_of σ) tr (T m) k) as (r & E1 & Hres);
    [done|done|done|done|by rewrite He|]. rewrite He in Hres.
  exists r. split; [|done]. unfold mapseek. erewrite mbind_Some by (by eapply get_tree_eq). cbv beta.
  by eapply on_nodes_read.
Qed.

(** The pure counterpart of [mapforeach] *)
Fixpoint foreach_list {D} (func : K -> V -> D -> bool -> Z * D) (L : amap) (data : D) (first : bool) :
    Z * D :=
  match L with
  | [] => (0, data)
  | (k, v) :: L' =>
    let '(ret, data') := func k v data first in
    if ret =? 0 then foreach_list func L' data' false else (ret, data')
  end.

Lemma mapforeach_ok {D} (func : K -> V -> D -> bool -> Z * D) data σ A T m L rc fuel :
  repr_by σ A T -> A !! m = Some (L, rc) -> fits L fuel ->
  mapforeach fuel m func data σ = Some (foreach_list func L data true, σ).
Proof.
  intros Hr Hm Hfit. destruct (repr_lookup _ _ _ _ _ _ Hr Hm) as (tr & Ho & Ht & He & Hz & Hs).
  destruct (fits_nodes _ _ _ Hfit He) as (Hf & Hsm & _).
  destruct (for_tree_ok (fun _ k v '(_, data, first) =>
      let '(ret, data') := func k v data first in mreturn (ret =? 0, (ret, data', false)))
    (T m) (fun i '(ret, d, first) σ' => σ' = σ /\ ret = 0 /\
        foreach_list func (drop i L) d first = foreach_list func L data true)
    (fun '(ret, d, _) σ' => σ' = σ /\ (ret, d) = foreach_list func L data true) Hsm)
    with (fuel := fuel) (t := tr) (acc := (0, data, true)) (σ := σ) as ([[ret d] first] & σ' & E2 & -> & Hd).
  - intros i [[ret d] first] σ' (-> & _). by exists tr.
  - intros i a k v [[ret d] first] σ' (-> & _ & Hd) Hi _. rewrite He in Hi.
    rewrite (drop_S _ _ _ Hi) in Hd. simpl in Hd. destruct (func k v d first) as [ret' d'].
    eexists _, _, _. split; [done|]. destruct (ret' =? 0) eqn:Er; [|done]. split_and!; [done|lia|done].
  - intros [[ret d] first] σ' (-> & -> & Hd). split; [done|].
    rewrite drop_ge in Hd; [done|]. rewrite <- He, nodes_elems. lia.
  - done.
  - lia.
  - by rewrite drop_0.
  - unfold mapforeach. erewrite mbind_Some by (by eapply get_tree_eq). cbv beta.
    erewrite mbind_Some by exact E2. cbv beta. unfold mreturn. simpl. by rewrite Hd.
Qed.

(** ** The shared empty map *)

(** The static map of [new_map] is empty and keeps a reference of its own. *)
Definition static_ok σ A : Prop :=
  match static_map σ with
  | None => True
  | Some m0 => exists rc, A !! m0 = Some ([], rc) /\ 1 <= rc
  end.

Lemma new_map_ok σ A T :
  repr_by σ A T -> static_ok σ A ->
  exists m σ' A' T', new_map σ = Some (m, σ') /\ repr_by σ' A' T' /\ static_ok σ' A' /\
    (exists rc, A' !! m = Some ([], rc) /\ 1 < rc) /\
    (forall m', m' <> m -> A' !! m' = A !! m') /\ (forall L rc, A !! m = Some (L, rc) -> L = []).
Proof.
  intros Hr Hst. unfold new_map, static_ok in *. destruct (static_map σ) as [m0|] eqn:Es.
  - destruct Hst as (rc & Hm0 & Hrc).
    destruct (repr_lookup _ _ _ _ _ _ Hr Hm0) as (tr & Ho & _).
    destruct (addref_ok σ A T m0 [] rc Hr Hm0) as (σ1 & E1 & Hr1).
    exists m0, σ1, (<[m0 := ([], rc + 1)]> A), T. split; [done|]. split; [done|].
    assert (static_map σ1 = Some m0) as ->.
    { unfold addref, get_obj, put_obj, mbindM in E1. rewrite Ho in E1. cbn in E1. rewrite Ho in E1.
      by injection E1 as <-. }
    rewrite lookup_insert_eq. split; [exists (rc + 1); split; [done|lia]|].
    split; [exists (rc + 1); split; [done|lia]|]. split; [|intros; congruence].
    intros m' Hne. by rewrite lookup_insert_ne.
  - destruct (empty_map_ok σ A T Hr) as (m & σ1 & E1 & Hnew & Hr1 & Hs1). rewrite E1.
    assert (repr_by (mk_mstore (nodes_of σ1) (objs σ1) (Some m)) (<[m := ([], 1)]> A) T) as Hr1'.
    { destruct Hr1 as [R1 R2]. by split. }
    destruct (addref_ok _ _ T m [] 1 Hr1' (lookup_insert_eq _ _ _)) as (σ2 & E2 & Hr2).
    exists m, σ2, (<[m := ([], 2)]> A), T. rewrite insert_insert_eq in Hr2.
    split; [done|]. split; [done|].
    assert (static_map σ2 = Some m) as ->.
    { destruct (repr_lookup _ _ _ _ _ _ Hr1' (lookup_insert_eq _ _ _)) as (tr & Ho & _). cbn in Ho.
      unfold addref, get_obj, put_obj, mbindM in E2. cbn in E2. rewrite Ho in E2. cbn in E2.
      rewrite Ho in E2. by injection E2 as <-. }
    rewrite lookup_insert_eq. split; [exists 2; split; [done|lia]|].
    split; [exists 2; split; [done|lia]|]. split; [|intros; congruence].
    intros m' Hne. by rewrite lookup_insert_ne.
Qed.
End spec.
