(* ===== verification/MapRange.v ===== *)
(** * Ranges, comparison and the built-in functions on maps

    The rest of the refinement of [MapCode]: [mapequal], [mapfirst],
    [maplast], [maprange], [maprangeset] and the built-ins [mapdelete],
    [mapkeys], [mapvalues], [maphaskey]. *)
From Stdlib Require Import ZArith Lia Sorted.
From stdpp Require Import prelude gmap.
From S2P Require Import Prelude RBCode RBTree RBOrder RBInsert RBErase RBTraverse MapCode MapSpec.

Local Open Scope Z_scope.
Local Open Scope moo_scope.

Section range.
Context {K V : Type} (cmp : bool -> K -> K -> Z) (ok : K -> Prop) `{!KeyOrder cmp ok}.
Context (key0 : K) (value0 : V).
Abbreviation mstore := (mstore K V).
Abbreviation amap := (list (K * V)).
Abbreviation astore := (gmap loc (amap * Z)).
Abbreviation repr_by := (repr_by cmp ok).
Implicit Types (σ : mstore) (A : astore) (L : amap) (m : loc) (T : loc -> tree K V).

(** ** Comparison *)

(** Entry by entry, in order *)
Fixpoint equal_list (eqk : K -> K -> bool) (eqv : V -> V -> bool) L1 L2 : bool :=
  match L1, L2 with
  | [], [] => true
  | (k1, v1) :: L1', (k2, v2) :: L2' => eqk k1 k2 && eqv v1 v2 && equal_list eqk eqv L1' L2'
  | _, _ => false
  end.

Lemma mapequal_loop_ok eqk eqv t1 t2 s1 s2 σ :
  tree_at (nodes_of σ) t1 s1 -> tree_at (nodes_of σ) t2 s2 ->
  Z.of_nat (nodes s1) < 2 ^ 33 - 1 -> Z.of_nat (nodes s2) < 2 ^ 33 - 1 ->
  forall n fuel i tr1 tr2,
    (height s1 + n + 1 <= fuel)%nat -> (height s2 + n + 1 <= fuel)%nat -> (nodes s1 - i <= n)%nat ->
    (if decide (i < nodes s1)%nat then at_index (nodes_of σ) s1 i tr1 else it tr1 = None) ->
    (if decide (i < nodes s2)%nat then at_index (nodes_of σ) s2 i tr2 else it tr2 = None) ->
    mapequal_loop fuel eqk eqv tr1 tr2 σ =
      Some (equal_list eqk eqv (drop i (elems s1)) (drop i (elems s2)), σ).
Proof.
  intros Ht1 Ht2 Hn1 Hn2. induction n as [|n IH]; intros fuel i tr1 tr2 Hf1 Hf2 Hn H1 H2;
    (destruct fuel as [|fuel]; [lia|]); cbn [mapequal_loop].
  - rewrite decide_False in H1 by lia. rewrite H1, (drop_ge (elems s1)) by (rewrite nodes_elems; lia).
    destruct (decide (i < nodes s2)%nat) as [Hi|Hi].
    + destruct (at_index_data (nodes_of σ) s2 i tr2) as (a & nd & -> & _ & He); [apply Ht2|done|].
      by rewrite (drop_S _ _ _ He).
    + rewrite H2, drop_ge by (rewrite nodes_elems; lia). done.
  - destruct (decide (i < nodes s1)%nat) as [Hi1|Hi1].
    + destruct (at_index_data (nodes_of σ) s1 i tr1) as (a1 & nd1 & Hit1 & Ha1 & He1); [apply Ht1|done|].
      rewrite Hit1, (drop_S _ _ _ He1).
      destruct (decide (i < nodes s2)%nat) as [Hi2|Hi2].
      * destruct (at_index_data (nodes_of σ) s2 i tr2) as (a2 & nd2 & Hit2 & Ha2 & He2); [apply Ht2|done|].
        rewrite Hit2, (drop_S _ _ _ He2).
        erewrite mbind_Some by (by eapply on_nodes_read, deref_eq). cbv beta.
        erewrite mbind_Some by (by eapply on_nodes_read, deref_eq). cbv beta. cbn [equal_list].
        destruct (eqk (key nd1) (key nd2)); [|done]. destruct (eqv (value nd1) (value nd2)); [|done].
        destruct (rbtnext_ok fuel (nodes_of σ) t1 s1 _ Ht1 eq_refl Hn1 ltac:(lia) i tr1 H1) as (tr1' & E1 & H1').
        destruct (rbtnext_ok fuel (nodes_of σ) t2 s2 _ Ht2 eq_refl Hn2 ltac:(lia) i tr2 H2) as (tr2' & E2 & H2').
        simpl. erewrite mbind_Some by (by eapply on_nodes_read). cbv beta.
        erewrite mbind_Some by (by eapply on_nodes_read). cbv beta.
        apply IH; try done; lia.
      * rewrite H2, (drop_ge (elems s2)) by (rewrite nodes_elems; lia). done.
    + rewrite H1, (drop_ge (elems s1)) by (rewrite nodes_elems; lia).
      destruct (decide (i < nodes s2)%nat) as [Hi|Hi].
      * destruct (at_index_data (nodes_of σ) s2 i tr2) as (a & nd & -> & _ & He); [apply Ht2|done|].
        by rewrite (drop_S _ _ _ He).
      * rewrite H2, drop_ge by (rewrite nodes_elems; lia). done.
Qed.

Lemma mapequal_ok eqk eqv σ A T m1 m2 L1 L2 rc1 rc2 fuel :
  repr_by σ A T -> A !! m1 = Some (L1, rc1) -> A !! m2 = Some (L2, rc2) ->
  fits L1 fuel -> fits L2 fuel -> (length L1 + length L2 + 2 <= fuel)%nat -> m1 <> m2 ->
  mapequal fuel eqk eqv m1 m2 σ = Some (equal_list eqk eqv L1 L2, σ).
Proof.
  intros Hr Hm1 Hm2 Hf1 Hf2 Hf Hne.
  destruct (repr_lookup _ _ _ _ _ _ _ _ Hr Hm1) as (t1 & Ho1 & Ht1 & He1 & _).
  destruct (repr_lookup _ _ _ _ _ _ _ _ Hr Hm2) as (t2 & Ho2 & Ht2 & He2 & _).
  destruct (fits_nodes _ _ _ Hf1 He1) as (Hg1 & Hs1 & Hh1).
  destruct (fits_nodes _ _ _ Hf2 He2) as (Hg2 & Hs2 & Hh2).
  unfold mapequal. rewrite bool_decide_false by done.
  erewrite mbind_Some by (by eapply get_tree_eq). cbv beta.
  erewrite mbind_Some by (by eapply get_tree_eq). cbv beta.
  destruct (rbtfirst_ok fuel (nodes_of σ) t1 (T m1) _ Ht1 eq_refl Hs1 Hh1) as (tr1 & E1 & H1).
  destruct (rbtfirst_ok fuel (nodes_of σ) t2 (T m2) _ Ht2 eq_refl Hs2 Hh2) as (tr2 & E2 & H2).
  erewrite mbind_Some by (by eapply on_nodes_read). cbv beta.
  erewrite mbind_Some by (by eapply on_nodes_read). cbv beta.
  pose proof (height_le_nodes (T m1)). pose proof (height_le_nodes (T m2)).
  pose proof (nodes_elems (T m1)) as N1. rewrite He1 in N1.
  pose proof (nodes_elems (T m2)) as N2. rewrite He2 in N2.
  rewrite (mapequal_loop_ok eqk eqv t1 t2 (T m1) (T m2) σ Ht1 Ht2 Hs1 Hs2 (nodes (T m1)) fuel 0);
    [by rewrite He1, He2|lia|lia|lia| |].
  - by destruct (decide (0 < nodes (T m1))%nat), (decide (nodes (T m1) = 0)%nat); try lia.
  - by destruct (decide (0 < nodes (T m2))%nat), (decide (nodes (T m2) = 0)%nat); try lia.
Qed.

(** ** The ends *)

Lemma end_loop_ok (h : gmap loc (rbnode K V)) d fuel : forall s,
  rep h s -> s <> E -> (height s < fuel)%nat ->
  exists a n, end_loop fuel (root_of s) d h = Some (Some a, h) /\ h !! a = Some n /\
    (if d then last (elems s) else head (elems s)) = Some (key n, value n).
Proof.
  induction fuel as [|fuel IH]; intros s Hs Hne Hf; [lia|].
  destruct (tree_dir d s Hne) as (c & a & k & v & x & y & ->).
  pose proof Hs as Hs'. apply rep_mkT in Hs' as (Ha & Hx & Hy).
  rewrite root_of_mkT. cbn [end_loop]. mstep. rewrite elems_mkT, height_mkT in *.
  destruct x as [|cx xl b kx vx xr] eqn:Ex.
  - exists a, (mkN d c k v (root_of (E : tree K V)) (root_of y)). split; [done|].
    split; [done|]. autorewrite with rb. destruct d; simpl; [by rewrite last_snoc|done].
  - rewrite <- Ex in *. assert (root_of x = Some b) as Er by (by rewrite Ex). rewrite Er.
    rewrite <- Er. destruct (IH x Hx) as (a' & n & E1 & Hn & He); [by rewrite Ex|lia|].
    exists a', n. split; [done|]. split; [done|]. rewrite <- He. destruct d.
    + rewrite last_app, last_cons. destruct (last (elems x)) eqn:El; [done|].
      apply last_None in El. rewrite Ex in El. simpl in El. by destruct (elems xl).
    + destruct (elems x) eqn:El; [|done]. rewrite Ex in El. simpl in El. by destruct (elems xl).
Qed.

Lemma map_end_ok d σ A T m L rc fuel :
  repr_by σ A T -> A !! m = Some (L, rc) -> fits L fuel ->
  map_end fuel m d σ = Some ((if d then last L else head L), σ).
Proof.
  intros Hr Hm Hfit. destruct (repr_lookup _ _ _ _ _ _ _ _ Hr Hm) as (tr & Ho & Ht & He & Hz & Hs).
  destruct (fits_nodes _ _ _ Hfit He) as (Hf & Hsm & Hh).
  unfold map_end. erewrite mbind_Some by (by eapply get_tree_eq). cbv beta.
  rewrite (ta_root _ _ _ Ht). destruct (T m) as [|c l a k v r] eqn:ET.
  - simpl in He. subst L. by destruct d.
  - rewrite <- ET in *. assert (root_of (T m) = Some a) as Er by (by rewrite ET). rewrite Er, <- Er.
    destruct (end_loop_ok (nodes_of σ) d fuel (T m)) as (b & n & E1 & Hb & Hx);
      [apply Ht|by rewrite ET|done|]. rewrite He in Hx.
    erewrite mbind_Some by (by eapply on_nodes_read). cbv beta.
    erewrite mbind_Some by (by eapply on_nodes_read, deref_eq). cbv beta. by rewrite Hx.
Qed.

(** ** Ranges *)

Lemma ksorted_drop L i : ksorted cmp ok L -> ksorted cmp ok (drop i L).
Proof. intros Hs. rewrite <- (take_drop i L) in Hs. by apply (ksorted_app cmp ok) in Hs as (_ & ? & _). Qed.
Lemma ksorted_take L i : ksorted cmp ok L -> ksorted cmp ok (take i L).
Proof. intros Hs. rewrite <- (take_drop i L) in Hs. by apply (ksorted_app cmp ok) in Hs as (? & _ & _). Qed.

(** Copies the entries at indices [i + p] to [j] of the object [m]. *)
Lemma range_loop_ok A m m' L rc i j s af :
  ksorted cmp ok L -> elems s = L -> Z.of_nat (length L) < 2 ^ 33 - 1 -> (j < length L)%nat ->
  addrs s !! j = Some af -> A !! m = Some (L, rc) -> m <> m' ->
  forall n fuel p from σ T,
    (2 * length L + n + 1 <= fuel)%nat -> (j - (i + p) < n)%nat -> (i + p <= j)%nat ->
    T m = s -> repr_by σ (<[m' := (take p (drop i L), 1)]> A) T ->
    at_index (nodes_of σ) s (i + p) from ->
    exists σ' T', range_loop cmp key0 value0 fuel m' from (Some af) σ = Some (tt, σ') /\
      repr_by σ' (<[m' := (take (S j - i) (drop i L), 1)]> A) T' /\ kept T T' m'.
Proof.
  intros Hs He Hsm Hj Haf Hm Hne. induction n as [|n IH]; intros fuel p from σ T Hf Hn Hp HT Hr Hat; [lia|].
  destruct fuel as [|fuel]; [lia|]. cbn [range_loop].
  destruct (repr_lookup _ _ _ _ _ m L rc Hr) as (tr & Ho & Ht & _); [by rewrite lookup_insert_ne|].
  rewrite HT in Ht.
  destruct (at_index_data (nodes_of σ) s (i + p) from) as (a & nd & Hit & Ha & Hel); [apply Ht|done|].
  rewrite Hit. erewrite mbind_Some by (by eapply on_nodes_read, deref_eq). cbv beta.
  rewrite He in Hel.
  assert (drop i L !! p = Some (key nd, value nd)) as Hel' by (by rewrite lookup_drop).
  destruct (put_last cmp ok (drop i L) p _ _ (ksorted_drop L i Hs) Hel') as (Hm1 & Hput & Hok).
  destruct (insert_or_panic_ok cmp ok key0 value0 σ _ T m' (take p (drop i L)) 1 (key nd) (value nd) fuel Hr)
    as (σ1 & T1 & E1 & Hr1 & Hk1 & _); [by rewrite lookup_insert_eq|done|done| |].
  { rewrite length_take, length_drop. lia. }
  erewrite mbind_Some by exact E1. cbv beta. rewrite insert_insert_eq, Hput in Hr1.
  pose proof (at_index_addr _ _ _ _ _ Hat Hit) as Haddr.
  destruct (decide (i + p = j)%nat) as [Hij|Hij].
  - rewrite Hij, Haf in Haddr. simplify_eq. unfold ptr_eqb. rewrite bool_decide_true by done.
    exists σ1, T1. split; [done|]. replace (S (i + p) - i)%nat with (S p) by lia. done.
  - unfold ptr_eqb. rewrite bool_decide_false.
    2:{ intros [= ->]. destruct Hij. eapply addrs_inj; [apply Ht|done|done]. }
    destruct (repr_lookup _ _ _ _ _ m L rc Hr1) as (tr1 & _ & Ht1 & _); [by rewrite lookup_insert_ne|].
    rewrite (Hk1 m Hne), HT in Ht1.
    pose proof (height_le_nodes s) as Hh. pose proof (nodes_elems s) as HL. rewrite He in HL.
    destruct (rbtnext_ok fuel (nodes_of σ1) tr1 s _ Ht1 eq_refl ltac:(lia) ltac:(lia) (i + p) from)
      as (from' & E2 & Hat'); [by eapply at_index_heap|].
    erewrite mbind_Some by (by eapply on_nodes_read). cbv beta.
    rewrite decide_True in Hat' by lia.
    destruct (IH fuel (S p) from' σ1 T1) as (σ2 & T2 & E3 & Hr2 & Hk2); try done; try lia.
    + by rewrite (Hk1 m Hne).
    + by replace (i + S p)%nat with (S (i + p)) by lia.
    + exists σ2, T2. split; [done|]. split; [done|]. intros m2 H2. rewrite Hk2, Hk1; done.
Qed.

Lemma maprange_ok σ A T m L rc i j from to fuel :
  repr_by σ A T -> A !! m = Some (L, rc) -> fits L fuel ->
  (3 * length L + 3 <= fuel)%nat -> (i <= j < length L)%nat ->
  at_index (nodes_of σ) (T m) i from -> at_index (nodes_of σ) (T m) j to ->
  exists m' σ' T', maprange cmp key0 value0 fuel m from to σ = Some (m', σ') /\ A !! m' = None /\
    repr_by σ' (drop_ref (<[m' := (take (S j - i) (drop i L), 1)]> A) m L rc) T'.
Proof.
  intros Hr Hm [Hf Hsm] Hf3 Hij Hfrom Hto.
  destruct (repr_lookup _ _ _ _ _ _ _ _ Hr Hm) as (tr & Ho & Ht & He & Hz & Hs).
  destruct (empty_map_ok cmp ok σ A T Hr) as (m' & σ1 & E1 & Hnew & Hr1 & _).
  assert (m <> m') as Hne by (intros ->; congruence).
  destruct (at_index_data (nodes_of σ) (T m) j to) as (af & nd & Hit & Ha & Hel); [apply Ht|done|].
  pose proof (at_index_addr _ _ _ _ _ Hto Hit) as Haf.
  destruct (range_loop_ok A m m' L rc i j (T m) af Hs He Hsm (proj2 Hij) Haf Hm Hne
    (S (j - i)) fuel 0 from σ1 T) as (σ2 & T2 & E2 & Hr2 & Hk2); try lia; try done.
  { by rewrite Nat.add_0_r. }
  destruct (free_var_ok cmp ok σ2 _ T2 m L rc fuel Hr2) as (σ3 & T3 & E3 & Hr3 & _);
    [by rewrite lookup_insert_ne|lia|].
  exists m', σ3, T3. split; [|done]. unfold maprange.
  erewrite mbind_Some by exact E1. cbv beta. rewrite Hit.
  erewrite mbind_Some by exact E2. cbv beta. by erewrite mbind_Some by exact E3.
Qed.

(** Entries put one after the other *)
Definition puts L1 L2 : amap := fold_left (fun L x => aput cmp (fst x) (snd x) L) L2 L1.

Lemma puts_snoc L1 L2 i k v :
  L2 !! i = Some (k, v) -> puts L1 (take (S i) L2) = aput cmp k v (puts L1 (take i L2)).
Proof. intros Hi. rewrite (take_S_r _ _ _ Hi). unfold puts. by rewrite fold_left_app. Qed.
Lemma puts_app L1 L2 L3 : puts L1 (L2 ++ L3) = puts (puts L1 L2) L3.
Proof. apply fold_left_app. Qed.
Lemma aput_bound k v L : (length (aput cmp k v L) <= S (length L))%nat.
Proof.
  pose proof (filter_split cmp k L). unfold aput. rewrite length_app. simpl. lia.
Qed.
Lemma puts_bound L1 L2 : (length (puts L1 L2) <= length L1 + length L2)%nat.
Proof.
  revert L1. induction L2 as [|[k v] L2 IH]; intros L1; simpl; [lia|].
  specialize (IH (aput cmp k v L1)). pose proof (aput_bound k v L1). unfold puts in *. simpl. lia.
Qed.

(** The body of the second and third loop of [maprangeset] *)
Abbreviation put_body fuel m' := (fun (_ : loc) k v (_ : unit) =>
  erase_from cmp key0 value0 fuel m' k ;; insert_or_panic cmp key0 value0 fuel m' k v ;;
  mreturn (true, tt)).

(** Putting the entries of the object [m], from an index on, into [m'] *)
Section put_from.
Context (A : astore) (m m' : loc) (L L0 : amap) (rc : Z) (i : nat) (s : tree K V) (fuel : nat)
  (T0 : loc -> tree K V).
Hypothesis Hm : A !! m = Some (L, rc).
Hypothesis Hne : m <> m'.
Hypothesis He : elems s = L.
Hypothesis HT0 : T0 m = s.
Hypothesis Hsm : Z.of_nat (length L) < 2 ^ 33 - 1.
Hypothesis Hs : ksorted cmp ok L.
Hypothesis Hf : (2 * (length L0 + length L) + 3 <= fuel)%nat.

Definition put_inv (p : nat) (_ : unit) σ : Prop :=
  (i <= p)%nat /\ exists T, repr_by σ (<[m' := (puts L0 (take (p - i) (drop i L)), 1)]> A) T /\ kept T0 T m'.
Definition put_post (_ : unit) σ : Prop :=
  exists T, repr_by σ (<[m' := (puts L0 (drop i L), 1)]> A) T /\ kept T0 T m'.

Lemma put_inv_tree p acc σ : put_inv p acc σ -> exists tr, tree_at (nodes_of σ) tr s.
Proof.
  intros (_ & T & Hr & Hk).
  destruct (repr_lookup _ _ _ _ _ m L rc Hr) as (tr & _ & Ht & _); [by rewrite lookup_insert_ne|].
  exists tr. by rewrite (Hk m Hne), HT0 in Ht.
Qed.

Lemma put_inv_body p a k v acc σ :
  put_inv p acc σ -> elems s !! p = Some (k, v) -> addrs s !! p = Some a ->
  exists go acc' σ', put_body fuel m' a k v acc σ = Some ((go, acc'), σ') /\
    if go : bool then put_inv (S p) acc' σ' else put_post acc' σ'.
Proof.
  clear Hm Hne HT0 Hsm. intros (Hp & T & Hr & Hk) Hx _. rewrite He in Hx.
  assert (ok k) as Hok by (apply (ksorted_ok cmp ok L (k, v)); [done|by eapply list_elem_of_lookup_2]).
  assert (drop i L !! (p - i)%nat = Some (k, v)) as Hx'.
  { rewrite lookup_drop. by replace (i + (p - i))%nat with p by lia. }
  pose proof (puts_bound L0 (take (p - i) (drop i L))) as Hb.
  rewrite length_take, length_drop in Hb.
  destruct (replace_ok cmp ok key0 value0 σ _ T m' (puts L0 (take (p - i) (drop i L))) 1 k v fuel Hr)
    as (r & σ1 & σ2 & T2 & E1 & E2 & Hr2 & Hk2 & _); [by rewrite lookup_insert_eq|done|lia|].
  exists true, tt, σ2. split.
  - erewrite mbind_Some by exact E1. cbv beta. by erewrite mbind_Some by exact E2.
  - split; [lia|]. exists T2. rewrite insert_insert_eq in Hr2.
    replace (S p - i)%nat with (S (p - i)) by lia. rewrite (puts_snoc _ _ _ _ _ Hx').
    split; [done|]. intros m2 H2. rewrite Hk2, Hk; done.
Qed.

Lemma put_inv_end acc σ : put_inv (nodes s) acc σ -> put_post acc σ.
Proof.
  clear Hm Hne HT0 Hsm Hf. intros (Hp & T & Hr & Hk). exists T. split; [|done].
  rewrite take_ge in Hr; [done|]. rewrite length_drop, <- He, nodes_elems. lia.
Qed.

Lemma put_start σ : repr_by σ (<[m' := (L0, 1)]> A) T0 -> put_inv i tt σ.
Proof. clear Hm Hne He HT0 Hsm Hs Hf. intros Hr. split; [lia|]. exists T0. by rewrite Nat.sub_diag, take_0. Qed.
End put_from.

(** The first loop of [maprangeset] copies the entries before index [i]. *)
Lemma copy_before σ A T m m' L rc i s ai fuel :
  repr_by σ (<[m' := ([], 1)]> A) T -> A !! m = Some (L, rc) -> m <> m' -> T m = s ->
  fits L fuel -> (i < length L)%nat -> addrs s !! i = Some ai ->
  forall t, tree_at (nodes_of σ) t s -> elems s = L -> ksorted cmp ok L ->
  exists σ' T', for_tree fuel t (fun a k v _ =>
      if ptr_eqb (Some a) (Some ai) then mreturn (false, tt)
      else insert_or_panic cmp key0 value0 fuel m' k v ;; mreturn (true, tt)) tt σ = Some (tt, σ') /\
    repr_by σ' (<[m' := (take i L, 1)]> A) T' /\ kept T T' m'.
Proof.
  intros Hr Hm Hne HT Hfit Hi Hai t Ht He Hs.
  destruct (fits_nodes _ _ _ Hfit He) as (Hf & Hsm & _).
  destruct (for_tree_ok (fun a k v (_ : unit) =>
      if ptr_eqb (Some a) (Some ai) then mreturn (false, tt)
      else insert_or_panic cmp key0 value0 fuel m' k v ;; mreturn (true, tt)) s
    (fun p _ σ' => (p <= i)%nat /\ exists T', repr_by σ' (<[m' := (take p L, 1)]> A) T' /\ kept T T' m')
    (fun _ σ' => exists T', repr_by σ' (<[m' := (take i L, 1)]> A) T' /\ kept T T' m') Hsm)
    with (fuel := fuel) (t := t) (acc := tt) (σ := σ) as ([] & σ' & E2 & T' & Hr' & Hk').
  - intros p _ σ' (_ & T' & Hr' & Hk').
    destruct (repr_lookup _ _ _ _ _ m L rc Hr') as (tr & _ & Ht' & _); [by rewrite lookup_insert_ne|].
    exists tr. by rewrite (Hk' m Hne), HT in Ht'.
  - intros p a k v _ σ' (Hp & T' & Hr' & Hk') Hx Ha. rewrite He in Hx. unfold ptr_eqb.
    destruct (decide (a = ai)) as [->|Hna].
    + rewrite bool_decide_true by done. exists false, tt, σ'. split; [done|].
      assert (p = i) as -> by (eapply addrs_inj; [apply Ht|done|done]). by exists T'.
    + rewrite bool_decide_false by congruence.
      destruct (put_last cmp ok L p k v Hs Hx) as (Hm1 & Hput & Hok).
      destruct (insert_or_panic_ok cmp ok key0 value0 σ' _ T' m' (take p L) 1 k v fuel Hr')
        as (σ1 & T1 & E1 & Hr1 & Hk1 & _); [by rewrite lookup_insert_eq|done|done| |].
      { rewrite length_take. destruct Hfit. lia. }
      exists true, tt, σ1. split; [by erewrite mbind_Some by exact E1|]. split.
      * assert (p <> i); [|lia]. intros ->. congruence.
      * exists T1. rewrite insert_insert_eq, Hput in Hr1. split; [done|].
        intros m2 H2. rewrite Hk1, Hk'; done.
  - intros _ σ' (Hp & _). pose proof (nodes_elems s) as HL. rewrite He in HL. lia.
  - done.
  - lia.
  - split; [lia|]. exists T. by rewrite take_0.
  - by exists σ', T'.
Qed.

Lemma maprangeset_ok σ A T m mv L Lv rc rcv i j from to fuel :
  repr_by σ A T -> A !! m = Some (L, rc) -> A !! mv = Some (Lv, rcv) -> m <> mv ->
  fits L fuel -> fits Lv fuel -> (4 * (length L + length Lv) + 6 <= fuel)%nat ->
  (i < length L)%nat -> (j < length L)%nat ->
  at_index (nodes_of σ) (T m) i from -> at_index (nodes_of σ) (T m) j to ->
  exists m' σ' T', maprangeset cmp key0 value0 fuel m from to mv σ = Some (m', σ') /\ A !! m' = None /\
    repr_by σ' (drop_ref (drop_ref
      (<[m' := (puts (puts (take i L) Lv) (drop (S j) L), 1)]> A) m L rc) mv Lv rcv) T'.
Proof.
  intros Hr Hm Hmv Hmne Hfit Hfitv Hf3 Hi Hj Hfrom Hto.
  destruct (repr_lookup _ _ _ _ _ _ _ _ Hr Hm) as (tr & Ho & Ht & He & Hz & Hs).
  destruct (repr_lookup _ _ _ _ _ _ _ _ Hr Hmv) as (trv & _ & _ & Hev & _ & Hsv).
  destruct (empty_map_ok cmp ok σ A T Hr) as (m' & σ1 & E1 & Hnew & Hr1 & _).
  assert (m <> m') as Hne by (intros ->; congruence).
  assert (mv <> m') as Hnev by (intros ->; congruence).
  destruct (repr_lookup _ _ _ _ _ m L rc Hr1) as (tr1 & Ho1 & Ht1 & _); [by rewrite lookup_insert_ne|].
  destruct (at_index_data (nodes_of σ) (T m) i from) as (ai & ndi & Hiti & _); [apply Ht|done|].
  pose proof (at_index_addr _ _ _ _ _ Hfrom Hiti) as Hai.
  destruct (copy_before σ1 A T m m' L rc i (T m) ai fuel Hr1 Hm Hne eq_refl Hfit Hi Hai tr1 Ht1 He Hs)
    as (σ2 & T2 & E2 & Hr2 & Hk2).
  destruct (repr_lookup _ _ _ _ _ mv Lv rcv Hr2) as (tr2 & Ho2 & Ht2 & He2 & _); [by rewrite lookup_insert_ne|].
  destruct (fits_nodes _ _ _ Hfitv He2) as (Hfv & Hsmv & _).
  assert (2 * (length (take i L) + length Lv) + 3 <= fuel)%nat as Hfa by (rewrite length_take; lia).
  destruct (for_tree_ok _ (T2 mv) (put_inv A m' Lv (take i L) 0 T2)
    (put_post A m' Lv (take i L) 0 T2) Hsmv
    (put_inv_tree A mv m' Lv (take i L) rcv 0 _ T2 Hmv Hnev eq_refl)
    (put_inv_body A m' Lv (take i L) 0 _ fuel T2 He2 Hsv Hfa)
    (put_inv_end A m' Lv (take i L) 0 _ T2 He2) fuel tr2 tt σ2)
    as ([] & σ3 & E3 & T3 & Hr3 & Hk3); [done|lia|by apply put_start|].
  rewrite drop_0 in Hr3.
  assert (T3 m = T m) as HT3 by (rewrite (Hk3 m Hne), (Hk2 m Hne); done).
  destruct (repr_lookup _ _ _ _ _ m L rc Hr3) as (tr3 & Ho3 & Ht3 & He3 & _); [by rewrite lookup_insert_ne|].
  destruct (fits_nodes _ _ _ Hfit He3) as (Hfm & Hsmm & Hhm).
  destruct (rbtnext_ok fuel (nodes_of σ3) tr3 (T3 m) _ Ht3 eq_refl Hsmm Hhm j to) as (to' & E4 & Hto').
  { rewrite HT3. by eapply at_index_heap. }
  pose proof (puts_bound (take i L) Lv) as Hpb. rewrite length_take in Hpb.
  assert (2 * (length (puts (take i L) Lv) + length L) + 3 <= fuel)%nat as Hfb by lia.
  pose proof (nodes_elems (T3 m)) as HL3. rewrite He3 in HL3.
  pose proof (height_le_nodes (T3 m)) as Hh3.
  destruct (for_nodes_ok _ (T3 m) (put_inv A m' L (puts (take i L) Lv) (S j) T3)
    (put_post A m' L (puts (take i L) Lv) (S j) T3) Hsmm
    (put_inv_tree A m m' L (puts (take i L) Lv) rc (S j) _ T3 Hm Hne eq_refl)
    (put_inv_body A m' L (puts (take i L) Lv) (S j) _ fuel T3 He3 Hs Hfb)
    (put_inv_end A m' L (puts (take i L) Lv) (S j) _ T3 He3) (nodes (T3 m)) fuel (S j) to' tt σ3)
    as ([] & σ4 & E5 & T4 & Hr4 & Hk4); [lia|lia|lia|by apply put_start|done|].
  destruct (free_var_ok cmp ok σ4 _ T4 m L rc fuel Hr4) as (σ5 & T5 & E6 & Hr5 & _);
    [by rewrite lookup_insert_ne|destruct Hfit; lia|].
  destruct (free_var_ok cmp ok σ5 _ T5 mv Lv rcv fuel Hr5) as (σ6 & T6 & E7 & Hr6 & _);
    [|destruct Hfitv; lia|].
  { unfold drop_ref. destruct (rc =? 1); rewrite ?lookup_delete_ne, ?lookup_insert_ne; done. }
  exists m', σ6, T6. split; [|done]. unfold maprangeset.
  erewrite mbind_Some by exact E1. cbv beta.
  erewrite mbind_Some by (by eapply get_tree_eq). cbv beta. rewrite Hiti.
  erewrite mbind_Some by exact E2. cbv beta.
  erewrite mbind_Some by (by eapply get_tree_eq). cbv beta.
  erewrite mbind_Some by exact E3. cbv beta.
  erewrite mbind_Some by (by eapply on_nodes_read). cbv beta.
  erewrite mbind_Some by exact E5. cbv beta.
  erewrite mbind_Some by exact E6. cbv beta. by erewrite mbind_Some by exact E7.
Qed.
(** ** Ranges by their keys *)

(** The entries from [k1] to [k2] *)
Definition between k1 k2 L : amap :=
  filter (fun x => cmp false k1 (fst x) <= 0 /\ cmp false (fst x) k2 <= 0) L.

Lemma key_index L i x k :
  ksorted cmp ok L -> ok k -> L !! i = Some x -> cmp false (fst x) k = 0 ->
  all_lt cmp k (take i L) /\ all_gt cmp k (drop (S i) L).
Proof.
  intros Hs Hk Hi Hc. rewrite <- (take_drop_middle L i x Hi) in Hs.
  apply (ksorted_around cmp ok) in Hs as [HA HB].
  split; [eapply (all_lt_before cmp ok)|eapply (all_gt_after cmp ok)]; try done; lia.
Qed.

Lemma key_index_split L i x k :
  ksorted cmp ok L -> ok k -> L !! i = Some x -> cmp false (fst x) k = 0 ->
  take i L = below cmp k L /\ drop (S i) L = above cmp k L.
Proof.
  intros Hs Hk Hi Hc. destruct (key_index L i x k Hs Hk Hi Hc) as [HA HB].
  assert (Forall (fun y => cmp false (fst y) k = 0) [x]) as HM by (by constructor).
  rewrite <- (take_drop_middle L i x Hi) at 2 4. change (x :: drop (S i) L) with ([x] ++ drop (S i) L).
  by rewrite below_split, above_split.
Qed.

Lemma key_index_le L i j x y k1 k2 :
  ksorted cmp ok L -> ok k1 -> ok k2 -> L !! i = Some x -> L !! j = Some y ->
  cmp false (fst x) k1 = 0 -> cmp false (fst y) k2 = 0 -> cmp false k1 k2 <= 0 -> (i <= j)%nat.
Proof.
  intros Hs Hk1 Hk2 Hi Hj Hx Hy Hle. destruct (decide (i <= j)%nat) as [|Hn]; [done|].
  destruct (key_index L i x k1 Hs Hk1 Hi Hx) as [HA _]. unfold all_lt in HA. rewrite Forall_forall in HA.
  assert (y ∈ take i L) as Hin by (apply list_elem_of_lookup; exists j; rewrite lookup_take_lt by lia; done).
  specialize (HA y Hin). assert (ok (fst y)) as Oy.
  { apply (ksorted_ok cmp ok L); [done|by eapply list_elem_of_lookup_2]. }
  pose proof (cmp_flip cmp ok (fst y) k2 Oy Hk2) as F1. pose proof (cmp_flip cmp ok k1 k2 Hk1 Hk2) as F2.
  pose proof (cmp_le_lt cmp ok k2 (fst y) k1 Hk2 Oy Hk1 ltac:(lia) HA). lia.
Qed.

Lemma between_slice L i j x y k1 k2 :
  ksorted cmp ok L -> ok k1 -> ok k2 -> L !! i = Some x -> L !! j = Some y ->
  cmp false (fst x) k1 = 0 -> cmp false (fst y) k2 = 0 -> (i <= j)%nat ->
  take (S j - i) (drop i L) = between k1 k2 L.
Proof.
  intros Hs Hk1 Hk2 Hi Hj Hx Hy Hij.
  destruct (key_index L i x k1 Hs Hk1 Hi Hx) as [HA1 HB1].
  destruct (key_index L j y k2 Hs Hk2 Hj Hy) as [HA2 HB2].
  assert (forall z, z ∈ L -> (cmp false (fst z) k1 < 0 <-> 0 < cmp false k1 (fst z))) as Hflip.
  { intros z Hz. pose proof (cmp_flip cmp ok (fst z) k1 (ksorted_ok cmp ok L z Hs Hz) Hk1).
    pose proof (cmp_flip cmp ok k1 (fst z) Hk1 (ksorted_ok cmp ok L z Hs Hz)). lia. }
  unfold all_lt, all_gt in *. rewrite !Forall_forall in HA1, HB1, HA2, HB2.
  assert (L = take i L ++ take (S j - i) (drop i L) ++ drop (S j) L) as E.
  { rewrite <- (take_drop i L) at 1. f_equal. rewrite <- (take_drop (S j - i) (drop i L)) at 1.
    by rewrite drop_drop, Nat.add_sub_assoc, Nat.add_comm, Nat.add_sub by lia. }
  unfold between. rewrite E at 2. rewrite !filter_app.
  rewrite (filter_none _ (take i L)), (filter_none _ (drop (S j) L)), app_nil_r.
  - simpl. symmetry. apply filter_all, Forall_forall. intros z Hz.
    assert (z ∈ drop i L) as Hz1 by (by eapply subseteq_take).
    assert (z ∈ take (S j) L) as Hz2.
    { rewrite take_drop_commute in Hz. replace (i + (S j - i))%nat with (S j) in Hz by lia.
      by eapply subseteq_drop. }
    rewrite (drop_S _ _ _ Hi), elem_of_cons in Hz1.
    rewrite (take_S_r _ _ _ Hj), elem_of_app, list_elem_of_singleton in Hz2.
    assert (z ∈ L) as HzL by (rewrite E; set_solver).
    specialize (Hflip z HzL). split.
    + destruct Hz1 as [->|Hz1]; [|specialize (HB1 z Hz1)]; lia.
    + destruct Hz2 as [Hz2| ->]; [specialize (HA2 z Hz2)|]; lia.
  - apply Forall_forall. intros z Hz [_ ?]. specialize (HB2 z Hz). lia.
  - apply Forall_forall. intros z Hz [Hz1 _]. specialize (HA1 z Hz).
    apply Hflip in HA1; [lia|]. by eapply subseteq_take.
Qed.

(** What [mapseek] finds says whether the key is present. *)
Lemma seek_amem (h : gmap loc (rbnode K V)) (s : tree K V) k L (r : option rbtrav) :
  match r with
  | Some tr => exists i x, at_index h s i tr /\ L !! i = Some x /\ cmp false (fst x) k = 0
  | None => amem cmp k L = false
  end -> amem cmp k L = match r with Some _ => true | None => false end.
Proof.
  destruct r as [tr|]; [|done]. intros (i & x & _ & Hx & Hc).
  apply (amem_in cmp k x); [by eapply list_elem_of_lookup_2|done].
Qed.

Lemma range_ref_empty σ A T m L rc fuel :
  repr_by σ A T -> static_ok σ A -> A !! m = Some (L, rc) -> fits L fuel ->
  exists r σ' A' T', (let! r := new_map in free_var fuel m ;; mreturn (Some r)) σ = Some (Some r, σ') /\
    repr_by σ' A' T' /\ exists n, A' !! r = Some ([], n) /\ 0 < n /\
    forall m', m' <> r -> m' <> m -> A' !! m' = A !! m'.
Proof.
  intros Hr Hst Hm [Hf _].
  destruct (new_map_ok cmp ok σ A T Hr Hst) as (r & σ1 & A1 & T1 & E1 & Hr1 & _ & (n & Hn & Hn1) & Hfr & Hemp).
  erewrite mbind_Some by exact E1. cbv beta.
  assert (exists L1 rc1, A1 !! m = Some (L1, rc1) /\ (length L1 <= length L)%nat /\ (m = r -> L1 = [] /\ rc1 = n))
    as (L1 & rc1 & Hm1 & Hlen & Heq).
  { destruct (decide (m = r)) as [->|Hne]; [exists [], n; split; [done|]; simpl; split; [lia|done]|].
    exists L, rc. rewrite Hfr by done. done. }
  destruct (free_var_ok cmp ok σ1 A1 T1 m L1 rc1 fuel Hr1 Hm1) as (σ2 & T2 & E2 & Hr2 & _); [lia|].
  erewrite mbind_Some by exact E2. exists r, σ2, (drop_ref A1 m L1 rc1), T2. split; [done|]. split; [done|].
  exists (if decide (m = r) then n - 1 else n). unfold drop_ref. destruct (decide (m = r)) as [->|Hne].
  - destruct Heq as [-> ->]; [done|]. replace (n =? 1) with false by lia.
    rewrite lookup_insert_eq. split; [done|]. split; [lia|]. intros m' H1 H2.
    by rewrite lookup_insert_ne, Hfr.
  - split; [by case_match; rewrite ?lookup_delete_ne, ?lookup_insert_ne by done|]. split; [lia|].
    intros m' H1 H2. rewrite <- Hfr by done. by case_match; rewrite ?lookup_delete_ne, ?lookup_insert_ne by done.
Qed.

Lemma range_ref_ok σ A T m L rc k1 k2 fuel :
  repr_by σ A T -> static_ok σ A -> A !! m = Some (L, rc) -> fits L fuel ->
  (3 * length L + 3 <= fuel)%nat -> ok k1 -> ok k2 ->
  exists res σ' A' T', range_ref cmp key0 value0 fuel m k1 k2 σ = Some (res, σ') /\ repr_by σ' A' T' /\
    if 0 <? cmp false k1 k2 then
      exists r n, res = Some r /\ A' !! r = Some ([], n) /\ 0 < n /\
        forall m', m' <> r -> m' <> m -> A' !! m' = A !! m'
    else if amem cmp k1 L && amem cmp k2 L then
      exists r, res = Some r /\ A !! r = None /\
        A' = drop_ref (<[r := (between k1 k2 L, 1)]> A) m L rc
    else res = None /\ A' = drop_ref A m L rc.
Proof.
  intros Hr Hst Hm Hfit Hf Hk1 Hk2. pose proof (repr_lookup _ _ _ _ _ _ _ _ Hr Hm) as (tr & _ & _ & _ & _ & Hs).
  destruct (mapseek_ok cmp ok σ A T m L rc k1 fuel Hr Hm Hk1 Hfit) as (r1 & E1 & H1).
  destruct (mapseek_ok cmp ok σ A T m L rc k2 fuel Hr Hm Hk2 Hfit) as (r2 & E2 & H2).
  unfold range_ref. erewrite mbind_Some by exact E1. cbv beta. erewrite mbind_Some by exact E2. cbv beta.
  destruct (0 <? cmp false k1 k2) eqn:Erel.
  - replace (cmp false k1 k2 <=? 0) with false by lia.
    destruct (range_ref_empty σ A T m L rc fuel Hr Hst Hm Hfit) as (r & σ' & A' & T' & Ec & Hr' & H).
    exists (Some r), σ', A', T'. split; [by destruct r1, r2|]. split; [done|].
    destruct H as (n & ? & ? & ?). by exists r, n.
  - replace (cmp false k1 k2 <=? 0) with true by lia.
    rewrite (seek_amem _ _ _ _ _ H1), (seek_amem _ _ _ _ _ H2).
    destruct (free_var_ok cmp ok σ A T m L rc fuel Hr Hm) as (σ' & T' & E3 & Hr' & _); [lia|].
    destruct r1 as [t1|], r2 as [t2|];
      try (exists None, σ', (drop_ref A m L rc), T'; split; [by erewrite mbind_Some by exact E3|done]).
    destruct H1 as (i & x & Hati & Hi & Hci), H2 as (j & y & Hatj & Hj & Hcj).
    pose proof (key_index_le L i j x y k1 k2 Hs Hk1 Hk2 Hi Hj Hci Hcj ltac:(lia)) as Hij.
    pose proof (lookup_lt_Some _ _ _ Hj) as Hjl.
    destruct (maprange_ok σ A T m L rc i j t1 t2 fuel) as (r & σ2 & T2 & E4 & Hnew & Hr2); try done.
    exists (Some r), σ2, (drop_ref (<[r := (between k1 k2 L, 1)]> A) m L rc), T2.
    split; [by erewrite mbind_Some by exact E4|].
    rewrite <- (between_slice L i j x y k1 k2) by done. split; [done|]. by exists r.
Qed.

Lemma range_set_ok σ A T m mv L Lv rc rcv k1 k2 fuel :
  repr_by σ A T -> A !! m = Some (L, rc) -> A !! mv = Some (Lv, rcv) -> m <> mv ->
  fits L fuel -> fits Lv fuel -> (4 * (length L + length Lv) + 6 <= fuel)%nat -> ok k1 -> ok k2 ->
  exists res σ' A' T', range_set cmp key0 value0 fuel m k1 k2 mv σ = Some (res, σ') /\ repr_by σ' A' T' /\
    if amem cmp k1 L && amem cmp k2 L then
      exists r, res = Some r /\ A !! r = None /\
        A' = drop_ref (drop_ref
          (<[r := (puts (puts (below cmp k1 L) Lv) (above cmp k2 L), 1)]> A) m L rc) mv Lv rcv
    else res = None /\ A' = drop_ref (drop_ref A m L rc) mv Lv rcv.
Proof.
  intros Hr Hm Hmv Hne Hfit Hfitv Hf Hk1 Hk2. pose proof (repr_lookup _ _ _ _ _ _ _ _ Hr Hm) as (tr & _ & _ & _ & _ & Hs).
  destruct (mapseek_ok cmp ok σ A T m L rc k1 fuel Hr Hm Hk1 Hfit) as (r1 & E1 & H1).
  destruct (mapseek_ok cmp ok σ A T m L rc k2 fuel Hr Hm Hk2 Hfit) as (r2 & E2 & H2).
  unfold range_set. erewrite mbind_Some by exact E1. cbv beta. erewrite mbind_Some by exact E2. cbv beta.
  rewrite (seek_amem _ _ _ _ _ H1), (seek_amem _ _ _ _ _ H2).
  destruct r1 as [t1|], r2 as [t2|]; cbn [andb];
    try (destruct (free_var_ok cmp ok σ A T m L rc fuel Hr Hm) as (σ1 & T1 & E3 & Hr1 & _); [lia|];
         destruct (free_var_ok cmp ok σ1 _ T1 mv Lv rcv fuel Hr1) as (σ2 & T2 & E4 & Hr2 & _);
           [unfold drop_ref; case_match; by rewrite ?lookup_delete_ne, ?lookup_insert_ne by done|lia|];
         exists None, σ2, (drop_ref (drop_ref A m L rc) mv Lv rcv), T2;
         split; [by erewrite mbind_Some, mbind_Some by done|done]).
  destruct H1 as (i & x & Hati & Hi & Hci), H2 as (j & y & Hatj & Hj & Hcj).
  destruct (maprangeset_ok σ A T m mv L Lv rc rcv i j t1 t2 fuel) as (r & σ2 & T2 & E4 & Hnew & Hr2);
    try done; try (by eapply lookup_lt_Some).
  destruct (key_index_split L i x k1 Hs Hk1 Hi Hci) as [<- _].
  destruct (key_index_split L j y k2 Hs Hk2 Hj Hcj) as [_ <-].
  eexists (Some r), σ2, _, T2. split; [by erewrite mbind_Some by exact E4|]. split; [exact Hr2|]. by exists r.
Qed.

End range.
