(* ===== verification/MapBuiltins.v ===== *)
(** * The built-in functions on maps, and the shared empty map

    [bf_mapdelete], [bf_mapkeys], [bf_mapvalues], [bf_maphaskey] and
    [new_map] of map.cc against the abstract maps, with the reference counts
    of the arguments on every path. *)
From Stdlib Require Import ZArith Lia Sorted.
From stdpp Require Import prelude gmap.
From S2P Require Import Prelude RBCode RBTree RBOrder RBInsert RBErase RBTraverse MapCode MapSpec MapRange.

Local Open Scope Z_scope.
Local Open Scope moo_scope.

Section builtins.
Context {K V : Type} (cmp : bool -> K -> K -> Z) (ok : K -> Prop) `{!KeyOrder cmp ok}.
Context (key0 : K) (value0 : V) (is_collection : K -> bool).
Abbreviation mstore := (mstore K V).
Abbreviation amap := (list (K * V)).
Abbreviation astore := (gmap loc (amap * Z)).
Abbreviation repr_by := (repr_by cmp ok).
Implicit Types (σ : mstore) (A : astore) (L : amap) (m : loc) (T : loc -> tree K V).

(** ** [mapdelete] *)

(** The entries left after deleting [keys] one by one, or the error *)
Fixpoint del_keys L (keys : list K) : map_pack K amap :=
  match keys with
  | [] => PackValue L
  | k :: keys' =>
    if is_collection k then PackType
    else if amem cmp k L then del_keys (adel cmp k L) keys'
    else PackRaiseRange k
  end.

(** The same for one key *)
Definition del_key L (k : K) : map_pack K amap :=
  if is_collection k then PackType
  else if amem cmp k L then PackValue (adel cmp k L) else PackRange.

Definition del_arg L (arg : list K + K) : map_pack K amap :=
  match arg with inl keys => del_keys L keys | inr k => del_key L k end.

Definition arg_keys (arg : list K + K) : list K :=
  match arg with inl keys => keys | inr k => [k] end.

(** After an error the object [r], with some of the keys deleted, has lost
    one reference. *)
Definition deletion_failed A r (rcr : Z) L T σ : Prop :=
  exists Lp, (length Lp <= length L)%nat /\ repr_by σ (drop_ref (<[r := (Lp, rcr)]> A) r Lp rcr) T.

(** The result [res] and the store agree with the abstract result. *)
Definition delete_result A r (rcr : Z) L (abs : map_pack K amap) (res : map_pack K loc) σ : Prop :=
  exists T,
  match abs with
  | PackValue L' => res = PackValue r /\ (length L' <= length L)%nat /\
      repr_by σ (<[r := (L', rcr)]> A) T
  | PackType => res = PackType /\ deletion_failed A r rcr L T σ
  | PackRange => res = PackRange /\ deletion_failed A r rcr L T σ
  | PackRaiseRange k => res = PackRaiseRange k /\ deletion_failed A r rcr L T σ
  end.

Lemma adel_bound k L : (length (adel cmp k L) <= length L)%nat.
Proof. pose proof (filter_split cmp k L). unfold adel. rewrite length_app. lia. Qed.

Lemma deletion_fails σ A T r L rcr fuel :
  repr_by σ A T -> A !! r = Some (L, rcr) -> (2 * length L < fuel)%nat ->
  exists σ' T', free_var fuel r σ = Some (tt, σ') /\ deletion_failed A r rcr L T' σ'.
Proof.
  intros Hr Hm Hf. destruct (free_var_ok cmp ok σ A T r L rcr fuel Hr Hm Hf) as (σ' & T' & E1 & Hr' & _).
  exists σ', T'. split; [done|]. exists L. split; [done|]. by rewrite insert_id.
Qed.

Lemma delete_result_insert A r rcr L1 L L2 abs res σ :
  delete_result (<[r := (L1, rcr)]> A) r rcr L2 abs res σ -> (length L2 <= length L)%nat ->
  delete_result A r rcr L abs res σ.
Proof.
  intros [T H] Hlen. exists T. unfold deletion_failed in *.
  destruct abs; destruct H as [-> H]; (split; [done|]).
  - rewrite insert_insert_eq in H. destruct H as [? ?]. split; [lia|done].
  - destruct H as (Lp & ? & H). exists Lp. rewrite insert_insert_eq in H. split; [lia|done].
  - destruct H as (Lp & ? & H). exists Lp. rewrite insert_insert_eq in H. split; [lia|done].
  - destruct H as (Lp & ? & H). exists Lp. rewrite insert_insert_eq in H. split; [lia|done].
Qed.

Definition keys_ok (keys : list K) : Prop :=
  Forall (fun k => is_collection k = false -> ok k) keys.

Lemma delete_keys_ok keys fuel : forall σ A T r L rcr,
  repr_by σ A T -> A !! r = Some (L, rcr) -> keys_ok keys -> (2 * length L + 1 <= fuel)%nat ->
  exists res σ', delete_keys cmp key0 value0 is_collection fuel r keys σ = Some (res, σ') /\
    delete_result A r rcr L (del_keys L keys) res σ'.
Proof.
  induction keys as [|k keys IH]; intros σ A T r L rcr Hr Hm Hok Hf; simpl.
  { exists (PackValue r), σ. split; [done|]. exists T. by rewrite insert_id. }
  apply Forall_cons in Hok as [Hk Hok]. destruct (is_collection k) eqn:Ec.
  { destruct (deletion_fails σ A T r L rcr fuel Hr Hm) as (σ' & T' & E1 & H); [lia|].
    exists PackType, σ'. split; [by erewrite mbind_Some by exact E1|]. by exists T'. }
  destruct (erase_from_ok cmp ok key0 value0 σ A T r L rcr k fuel Hr Hm (Hk eq_refl)) as (σ1 & T1 & E1 & Hr1 & _); [lia|].
  erewrite mbind_Some by exact E1. cbv beta.
  assert (<[r := (adel cmp k L, rcr)]> A !! r = Some (adel cmp k L, rcr)) as Hm1 by apply lookup_insert_eq.
  pose proof (adel_bound k L) as Hb.
  destruct (amem cmp k L); cbn [Z.eqb].
  - destruct (IH σ1 _ T1 r _ rcr Hr1 Hm1 Hok) as (res & σ' & E2 & H); [lia|].
    exists res, σ'. split; [done|]. by eapply delete_result_insert.
  - destruct (deletion_fails σ1 _ T1 r _ rcr fuel Hr1 Hm1) as (σ' & T' & E2 & Lp & HLp & H); [lia|].
    exists (PackRaiseRange k), σ'. split; [by erewrite mbind_Some by exact E2|].
    exists T'. split; [done|]. exists Lp. rewrite insert_insert_eq in H. split; [lia|done].
Qed.

Lemma delete_arg_ok arg fuel σ A T r L rcr :
  repr_by σ A T -> A !! r = Some (L, rcr) -> keys_ok (arg_keys arg) -> (2 * length L + 1 <= fuel)%nat ->
  exists res σ',
    match arg with
    | inl keys => delete_keys cmp key0 value0 is_collection fuel r keys
    | inr key =>
      if is_collection key then free_var fuel r ;; mreturn PackType
      else
        let! ret := erase_from cmp key0 value0 fuel r key in
        if ret =? 0 then free_var fuel r ;; mreturn PackRange
        else mreturn (PackValue r)
    end σ = Some (res, σ') /\
    delete_result A r rcr L (del_arg L arg) res σ'.
Proof.
  intros Hr Hm Hok Hf. destruct arg as [keys|k]; simpl in *; [by eapply delete_keys_ok|].
  apply Forall_cons in Hok as [Hk _]. unfold del_key. destruct (is_collection k) eqn:Ec.
  { destruct (deletion_fails σ A T r L rcr fuel Hr Hm) as (σ' & T' & E1 & H); [lia|].
    exists PackType, σ'. split; [by erewrite mbind_Some by exact E1|]. by exists T'. }
  destruct (erase_from_ok cmp ok key0 value0 σ A T r L rcr k fuel Hr Hm (Hk eq_refl)) as (σ1 & T1 & E1 & Hr1 & _); [lia|].
  erewrite mbind_Some by exact E1. cbv beta.
  pose proof (adel_bound k L) as Hb.
  destruct (amem cmp k L); cbn [Z.eqb].
  - exists (PackValue r), σ1. split; [done|]. by exists T1.
  - destruct (deletion_fails σ1 _ T1 r (adel cmp k L) rcr fuel Hr1) as (σ' & T' & E2 & Lp & HLp & H);
      [by rewrite lookup_insert_eq|lia|].
    exists PackRange, σ'. split; [by erewrite mbind_Some by exact E2|].
    exists T'. split; [done|]. exists Lp. rewrite insert_insert_eq in H. split; [lia|done].
Qed.

(** What [mapdelete] leaves: the argument's reference is given back on
    every path, and a successful call returns an object with one
    reference, the argument itself when nobody else refers to it. *)
Definition mapdelete_result A m L (rc : Z) (abs : map_pack K amap) (res : map_pack K loc) σ : Prop :=
  exists T,
  match abs with
  | PackValue L' => exists r, res = PackValue r /\
      (if rc =? 1 then r = m else A !! r = None) /\
      repr_by σ (<[r := (L', 1)]> (drop_ref A m L rc)) T
  | PackType => res = PackType /\ repr_by σ (drop_ref A m L rc) T
  | PackRange => res = PackRange /\ repr_by σ (drop_ref A m L rc) T
  | PackRaiseRange k => res = PackRaiseRange k /\ repr_by σ (drop_ref A m L rc) T
  end.

Lemma free_after_delete σ A T m Lp rc fuel B :
  repr_by σ A T -> A !! m = Some (Lp, rc) -> (2 * length Lp < fuel)%nat ->
  drop_ref A m Lp rc = B ->
  exists σ' T', free_var fuel m σ = Some (tt, σ') /\ repr_by σ' B T'.
Proof.
  intros Hr Hm Hf <-. destruct (free_var_ok cmp ok σ A T m Lp rc fuel Hr Hm Hf) as (σ' & T' & E1 & Hr' & _).
  eauto.
Qed.

Lemma mapdelete_in_place σ A m L abs res fuel :
  delete_result (<[m := (L, 2)]> A) m 2 L abs res σ -> (2 * length L < fuel)%nat ->
  exists σ', free_var fuel m σ = Some (tt, σ') /\ mapdelete_result A m L 1 abs res σ'.
Proof.
  intros [T H] Hf.
  assert (forall Lp T, (length Lp <= length L)%nat ->
      repr_by σ (drop_ref (<[m := (Lp, 2)]> (<[m := (L, 2)]> A)) m Lp 2) T ->
      exists σ' T', free_var fuel m σ = Some (tt, σ') /\ repr_by σ' (drop_ref A m L 1) T') as Hfail.
  { intros Lp T1 Hlen Hr. unfold drop_ref in Hr. simpl in Hr. rewrite !insert_insert_eq in Hr.
    apply (free_after_delete σ _ T1 m Lp 1 fuel _ Hr); [apply lookup_insert_eq|lia|].
    unfold drop_ref. simpl. by rewrite delete_insert_eq. }
  destruct abs as [L'| | |k]; destruct H as [-> H].
  - destruct H as [Hlen Hr]. rewrite insert_insert_eq in Hr.
    destruct (free_after_delete σ _ T m L' 2 fuel _ Hr (lookup_insert_eq _ _ _) ltac:(lia) eq_refl)
      as (σ' & T' & E1 & Hr').
    exists σ'. split; [done|]. exists T', m. unfold drop_ref in *. simpl in *.
    rewrite insert_insert_eq in Hr'. by rewrite insert_delete_eq.
  - destruct H as (Lp & Hl & Hr). destruct (Hfail Lp T Hl Hr) as (σ' & T' & E1 & Hr').
    exists σ'. split; [done|]. by exists T'.
  - destruct H as (Lp & Hl & Hr). destruct (Hfail Lp T Hl Hr) as (σ' & T' & E1 & Hr').
    exists σ'. split; [done|]. by exists T'.
  - destruct H as (Lp & Hl & Hr). destruct (Hfail Lp T Hl Hr) as (σ' & T' & E1 & Hr').
    exists σ'. split; [done|]. by exists T'.
Qed.

Lemma mapdelete_copied σ A m r L rc abs res fuel :
  A !! m = Some (L, rc) -> A !! r = None -> rc <> 1 ->
  delete_result (<[r := (L, 1)]> A) r 1 L abs res σ -> (2 * length L < fuel)%nat ->
  exists σ', free_var fuel m σ = Some (tt, σ') /\ mapdelete_result A m L rc abs res σ'.
Proof.
  intros Hm Hnew Hrc [T H] Hf. assert (m <> r) as Hne by congruence.
  assert (forall Lp T, repr_by σ (drop_ref (<[r := (Lp, 1)]> (<[r := (L, 1)]> A)) r Lp 1) T ->
      exists σ' T', free_var fuel m σ = Some (tt, σ') /\ repr_by σ' (drop_ref A m L rc) T') as Hfail.
  { intros Lp T1 Hr. unfold drop_ref in Hr at 1. simpl in Hr.
    rewrite !delete_insert_eq, delete_id in Hr by done.
    by apply (free_after_delete σ A T1 m L rc fuel). }
  assert (rc =? 1 = false) as Erc by lia.
  destruct abs as [L'| | |k]; destruct H as [-> H].
  - destruct H as [Hlen Hr]. rewrite insert_insert_eq in Hr.
    destruct (free_after_delete σ _ T m L rc fuel (<[r := (L', 1)]> (drop_ref A m L rc)) Hr)
      as (σ' & T' & E1 & Hr'); [by rewrite lookup_insert_ne|lia| |].
    { unfold drop_ref. rewrite Erc. by rewrite insert_insert_ne. }
    exists σ'. split; [done|]. exists T', r. by rewrite Erc.
  - destruct H as (Lp & Hl & Hr). destruct (Hfail Lp T Hr) as (σ' & T' & E1 & Hr').
    exists σ'. split; [done|]. by exists T'.
  - destruct H as (Lp & Hl & Hr). destruct (Hfail Lp T Hr) as (σ' & T' & E1 & Hr').
    exists σ'. split; [done|]. by exists T'.
  - destruct H as (Lp & Hl & Hr). destruct (Hfail Lp T Hr) as (σ' & T' & E1 & Hr').
    exists σ'. split; [done|]. by exists T'.
Qed.

Lemma bf_mapdelete_ok arg fuel σ A T m L rc :
  repr_by σ A T -> A !! m = Some (L, rc) -> fits L fuel -> keys_ok (arg_keys arg) ->
  exists res σ', bf_mapdelete cmp key0 value0 is_collection fuel m arg σ = Some (res, σ') /\
    mapdelete_result A m L rc (del_arg L arg) res σ'.
Proof.
  intros Hr Hm Hfit Hok.
  destruct (repr_lookup _ _ _ _ _ _ _ _ Hr Hm) as (tr & Ho & _).
  assert (var_refcount m σ = Some (rc, σ)) as Erc.
  { unfold var_refcount, get_obj, mbindM. by rewrite Ho. }
  unfold bf_mapdelete. erewrite mbind_Some by exact Erc. cbv beta.
  destruct (rc =? 1) eqn:E1rc.
  - assert (rc = 1) as -> by lia.
    destruct (addref_ok cmp ok σ A T m L 1 Hr Hm) as (σ1 & E1 & Hr1).
    erewrite mbind_Some by exact E1. cbv beta.
    destruct (delete_arg_ok arg fuel σ1 _ T m L 2 Hr1) as (res & σ2 & E2 & H2);
      [apply lookup_insert_eq|done|destruct Hfit; lia|].
    erewrite mbind_Some by exact E2. cbv beta.
    destruct (mapdelete_in_place σ2 A m L _ res fuel H2) as (σ3 & E3 & H3); [destruct Hfit; lia|].
    exists res, σ3. split; [by erewrite mbind_Some by exact E3|done].
  - destruct (map_dup_ok cmp ok key0 value0 σ A T m L rc fuel Hr Hm Hfit)
      as (r & σ1 & T1 & E1 & Hnew & Hr1 & _).
    erewrite mbind_Some by exact E1. cbv beta.
    destruct (delete_arg_ok arg fuel σ1 _ T1 r L 1 Hr1) as (res & σ2 & E2 & H2);
      [apply lookup_insert_eq|done|destruct Hfit; lia|].
    erewrite mbind_Some by exact E2. cbv beta.
    destruct (mapdelete_copied σ2 A m r L rc _ res fuel Hm Hnew ltac:(lia) H2) as (σ3 & E3 & H3);
      [destruct Hfit; lia|].
    exists res, σ3. split; [by erewrite mbind_Some by exact E3|done].
Qed.

(** ** [mapkeys], [mapvalues], [maphaskey] *)

Lemma foreach_collect {X} (g : K -> V -> X) L d first :
  foreach_list (fun k v data _ => (0, data ++ [g k v])) L d first =
    (0, d ++ map (fun x => g (fst x) (snd x)) L).
Proof.
  revert d first. induction L as [|[k v] L IH]; intros d first; simpl; [by rewrite app_nil_r|].
  rewrite IH. by rewrite <- app_assoc.
Qed.

Lemma bf_mapkeys_ok fuel σ A T m L rc :
  repr_by σ A T -> A !! m = Some (L, rc) -> fits L fuel ->
  exists σ' T', bf_mapkeys fuel m σ = Some (map fst L, σ') /\ repr_by σ' (drop_ref A m L rc) T'.
Proof.
  intros Hr Hm Hfit.
  destruct (free_var_ok cmp ok σ A T m L rc fuel Hr Hm) as (σ' & T' & E1 & Hr' & _); [destruct Hfit; lia|].
  exists σ', T'. split; [|done]. unfold bf_mapkeys.
  erewrite mbind_Some by (by eapply mapforeach_ok). cbv beta.
  erewrite mbind_Some by exact E1. cbv beta.
  by rewrite (foreach_collect (fun k _ => k)).
Qed.

(** The values of [keys], compared with case, or the error of a missing
    one *)
Fixpoint values_of L (keys : list K) : option (list V) :=
  match keys with
  | [] => Some []
  | k :: keys' =>
    match afind cmp true k L with
    | Some (_, v) => match values_of L keys' with Some vs => Some (v :: vs) | None => None end
    | None => None
    end
  end.

Lemma lookup_values_ok σ A T m L rc fuel keys : forall r,
  repr_by σ A T -> A !! m = Some (L, rc) -> Forall ok keys -> (length L < fuel)%nat ->
  lookup_values cmp fuel m keys r σ =
    Some (match values_of L keys with Some vs => PackValue (r ++ vs) | None => PackRange end, σ).
Proof.
  induction keys as [|k keys IH]; intros r Hr Hm Hok Hf; simpl; [by rewrite app_nil_r|].
  apply Forall_cons in Hok as [Hk Hok].
  erewrite mbind_Some by (by eapply maplookup_ok). cbv beta.
  destruct (afind cmp true k L) as [[k' v]|]; [|done].
  rewrite IH by done. destruct (values_of L keys); [|done]. by rewrite <- app_assoc.
Qed.

Definition mapvalues_abs L (keys : list K) : map_pack K (list V) :=
  match keys with
  | [] => PackValue (map snd L)
  | _ => match values_of L keys with Some vs => PackValue vs | None => PackRange end
  end.

Lemma bf_mapvalues_ok fuel σ A T m L rc keys :
  repr_by σ A T -> A !! m = Some (L, rc) -> fits L fuel -> Forall ok keys ->
  exists σ' T', bf_mapvalues cmp fuel m keys σ = Some (mapvalues_abs L keys, σ') /\
    repr_by σ' (drop_ref A m L rc) T'.
Proof.
  intros Hr Hm Hfit Hok.
  destruct (free_var_ok cmp ok σ A T m L rc fuel Hr Hm) as (σ' & T' & E1 & Hr' & _); [destruct Hfit; lia|].
  exists σ', T'. split; [|done]. unfold bf_mapvalues, mapvalues_abs.
  destruct keys as [|k keys]; cbn [length Nat.eqb].
  - erewrite mbind_Some.
    2:{ erewrite mbind_Some by (by eapply mapforeach_ok). reflexivity. }
    cbv beta. erewrite mbind_Some by exact E1. by rewrite (foreach_collect (fun _ v => v)).
  - erewrite mbind_Some by (eapply lookup_values_ok; try done; destruct Hfit; lia).
    cbv beta. by erewrite mbind_Some by exact E1.
Qed.

Lemma bf_maphaskey_ok fuel σ A T m L rc k cm :
  repr_by σ A T -> A !! m = Some (L, rc) -> fits L fuel -> (is_collection k = false -> ok k) ->
  exists σ' T', bf_maphaskey cmp is_collection fuel m k cm σ =
      Some (if is_collection k then PackType
            else PackValue (match afind cmp cm k L with None => false | Some _ => true end), σ') /\
    repr_by σ' (drop_ref A m L rc) T'.
Proof.
  intros Hr Hm Hfit Hk.
  destruct (free_var_ok cmp ok σ A T m L rc fuel Hr Hm) as (σ' & T' & E1 & Hr' & _); [destruct Hfit; lia|].
  exists σ', T'. split; [|done]. unfold bf_maphaskey. destruct (is_collection k).
  - by erewrite mbind_Some by exact E1.
  - erewrite mbind_Some by (eapply maplookup_ok; try done; [auto|destruct Hfit; lia]).
    cbv beta. by erewrite mbind_Some by exact E1.
Qed.
End builtins.
