(* ===== verification/CString.v ===== *)
(** * C strings

    A string is the list of its bytes, unsigned values between 1 and 255,
    without the terminating NUL.  [cmap], [verbcasecmp] and [str_hash] are
    those of [src/src/utils.cc]; [strcmp], [strncmp], [strcasecmp],
    [strncasecmp], [tolower], [toupper], [isalpha] and [isgraph] are the C
    library's, in the C locale. *)
From Stdlib Require Import ZArith Lia.
From stdpp Require Import prelude strings.
From S2P Require Import Prelude.

Local Open Scope Z_scope.

Abbreviation bytes := (list Z) (only parsing).

(** A C string: no NUL, every element a byte *)
Definition is_cstr (s : bytes) : Prop := Forall (fun c => 0 < c < 256) s.
Definition is_ascii (s : bytes) : Prop := Forall (fun c => 0 < c < 128) s.

(** A string literal *)
Definition str (s : Stdlib.Strings.String.string) : bytes :=
  map (fun a => Z.of_nat (Stdlib.Strings.Ascii.nat_of_ascii a))
    (Stdlib.Strings.String.list_ascii_of_string s).
Arguments str s%_string_scope.

Definition isupper (c : Z) : bool := (65 <=? c) && (c <=? 90).
Definition islower (c : Z) : bool := (97 <=? c) && (c <=? 122).
Definition isalpha (c : Z) : bool := isupper c || islower c.
Definition isdigit (c : Z) : bool := (48 <=? c) && (c <=? 57).
Definition isgraph (c : Z) : bool := (33 <=? c) && (c <=? 126).
Definition tolower (c : Z) : Z := if isupper c then c + 32 else c.
Definition toupper (c : Z) : Z := if islower c then c - 32 else c.

(** [(char) c] on a machine where [char] is signed *)
Definition to_char (c : Z) : Z := wrapS 8 c.

(** The table [cmap]: upper case ASCII letters to lower case, the rest to
    themselves; its elements have type [char]. *)
Definition cmap (c : Z) : Z := to_char (tolower c).

(** The difference of the first bytes that differ, with 0 for the end *)
Fixpoint strcmp_by (f : Z -> Z) (a b : bytes) : Z :=
  match a, b with
  | [], [] => 0
  | [], y :: _ => 0 - f y
  | x :: _, [] => f x
  | x :: a', y :: b' => if f x =? f y then strcmp_by f a' b' else f x - f y
  end.
Definition strcmp : bytes -> bytes -> Z := strcmp_by (fun c => c).
Definition strcasecmp : bytes -> bytes -> Z := strcmp_by tolower.
Definition strncmp (a b : bytes) (n : nat) : Z := strcmp (take n a) (take n b).
Definition strncasecmp (a b : bytes) (n : nat) : Z := strcasecmp (take n a) (take n b).

(** ** [str_hash]: [ans = (ans << 3) + (ans >> 28) + cmap[c]] in [unsigned] *)

Definition hash_step (ans c : Z) : Z :=
  to_uint (to_uint (Z.shiftl ans 3) + Z.shiftr ans 28 + cmap c).
Definition str_hash (s : bytes) : Z := fold_left hash_step s 0.

(** ** [verbcasecmp] *)

Inductive star_kind := star_none | star_inner | star_end.

Definition at_end (v : bytes) : bool :=
  match v with [] => true | c :: _ => c =? 32 end.
Definition is_nil {A} (l : list A) : bool := match l with [] => true | _ => false end.

(** The loop over the stars of the pattern: [star] becomes [end] when the
    star ends the name, [inner] otherwise *)
Fixpoint skip_stars (v : bytes) (star : star_kind) : bytes * star_kind :=
  match v with
  | c :: v' => if c =? 42 then skip_stars v' (if at_end v' then star_end else star_inner) else (v, star)
  | [] => (v, star)
  end.

(** The [while (1)] loop; [v] gets shorter at every iteration. *)
Fixpoint match_loop (fuel : nat) (v w : bytes) (star : star_kind) : bytes * bytes * star_kind :=
  let '(v, star) := skip_stars v star in
  match fuel, v, w with
  | S fuel, cv :: v', cw :: w' =>
    if (cv =? 32) || negb (cmap cw =? cmap cv) then (v, w, star) else match_loop fuel v' w' star
  | _, _, _ => (v, w, star)
  end.

Definition skip_word (v : bytes) : bytes :=
  (fix go v := match v with [] => [] | c :: v' => if c =? 32 then v else go v' end) v.
Definition skip_spaces (v : bytes) : bytes :=
  (fix go v := match v with [] => [] | c :: v' => if c =? 32 then go v' else v end) v.

(** The test after the inner loop *)
Definition name_matches (v w : bytes) (star : star_kind) : bool :=
  match w with
  | [] => (match star with star_none => false | _ => true end) || at_end v
  | _ => match star with star_end => true | _ => false end
  end.

Fixpoint verb_loop (fuel : nat) (v word : bytes) : bool :=
  match fuel, v with
  | S fuel, _ :: _ =>
    let '(v, w, star) := match_loop (length v) v word star_none in
    if name_matches v w star then true
    else verb_loop fuel (skip_spaces (skip_word v)) word
  | _, _ => false
  end.

(** [same] says that the two pointers are equal. *)
Definition verbcasecmp (same : bool) (verb word : bytes) : bool :=
  if same then true else verb_loop (length verb) verb word.

(** ** The comparisons *)

Definition byte_map (f : Z -> Z) : Prop := forall c, 0 < c < 256 -> 0 < f c.

Lemma id_byte_map : byte_map (fun c => c).
Proof. unfold byte_map. lia. Qed.
Lemma tolower_byte_map : byte_map tolower.
Proof. unfold byte_map, tolower, isupper. intros c Hc. case_match; lia. Qed.
Lemma tolower_range c : 0 < c < 256 -> 0 < tolower c < 256.
Proof. unfold tolower, isupper. intros Hc. case_match; lia. Qed.

Section compare.
Context (f : Z -> Z) (Hf : byte_map f).

Lemma strcmp_by_antisym a b :
  is_cstr a -> is_cstr b -> strcmp_by f b a = - strcmp_by f a b.
Proof.
  revert b. induction a as [|x a IH]; intros [|y b] Ha Hb; simpl; [done|lia|lia|].
  apply Forall_cons in Ha as [Hx Ha]. apply Forall_cons in Hb as [Hy Hb].
  rewrite (Z.eqb_sym (f y)). destruct (f x =? f y); [by apply IH|lia].
Qed.

Lemma strcmp_by_trans a b c :
  is_cstr a -> is_cstr b -> is_cstr c ->
  strcmp_by f a b <= 0 -> strcmp_by f b c <= 0 -> strcmp_by f a c <= 0.
Proof.
  revert b c. induction a as [|x a IH]; intros b c Ha Hb Hc.
  - intros _ _. destruct c as [|z c]; simpl; [done|]. apply Forall_cons in Hc as [Hz _].
    specialize (Hf _ Hz). lia.
  - apply Forall_cons in Ha as [Hx Ha]. destruct b as [|y b]; simpl.
    { specialize (Hf _ Hx). lia. }
    apply Forall_cons in Hb as [Hy Hb]. destruct c as [|z c]; simpl.
    { specialize (Hf _ Hy). lia. }
    apply Forall_cons in Hc as [Hz Hc].
    destruct (f x =? f y) eqn:E1, (f y =? f z) eqn:E2, (f x =? f z) eqn:E3; try lia.
    by apply IH.
Qed.

Lemma strcmp_by_zero a b :
  is_cstr a -> is_cstr b -> strcmp_by f a b = 0 <-> map f a = map f b.
Proof.
  revert b. induction a as [|x a IH]; intros [|y b] Ha Hb; simpl; [done|..].
  - apply Forall_cons in Hb as [Hy _]. specialize (Hf _ Hy). split; [lia|done].
  - apply Forall_cons in Ha as [Hx _]. specialize (Hf _ Hx). split; [lia|done].
  - apply Forall_cons in Ha as [Hx Ha]. apply Forall_cons in Hb as [Hy Hb].
    specialize (IH b Ha Hb). destruct (f x =? f y) eqn:E; [|split; [lia|intros [=]; lia]].
    rewrite IH. split; [|by intros [=]]. intros ->. f_equal. lia.
Qed.
End compare.

Lemma cmap_inj c d : 0 < c < 256 -> 0 < d < 256 -> cmap c = cmap d <-> tolower c = tolower d.
Proof.
  intros Hc%tolower_range Hd%tolower_range. unfold cmap, to_char. split; [|by intros ->].
  intros E. pose proof (wrapS_mod 8 (tolower c) ltac:(lia)) as E1.
  pose proof (wrapS_mod 8 (tolower d) ltac:(lia)) as E2. rewrite E, E2 in E1.
  change (2 ^ 8) with 256 in E1. rewrite !Z.mod_small in E1 by lia. done.
Qed.

(** Strings equal without case have the same hash. *)
Lemma str_hash_tolower a b : map tolower a = map tolower b -> str_hash a = str_hash b.
Proof.
  unfold str_hash. generalize 0. revert b.
  induction a as [|x a IH]; intros [|y b] h E; simpl; simplify_eq/=; [done|].
  unfold hash_step at 2 4, cmap. rewrite H. by apply IH.
Qed.

Lemma str_hash_range s : 0 <= str_hash s < 2 ^ 32.
Proof.
  unfold str_hash. assert (forall h, 0 <= h < 2 ^ 32 -> 0 <= fold_left hash_step s h < 2 ^ 32) as H.
  { induction s as [|x s IH]; intros h Hh; simpl; [done|]. apply IH. by apply wrapU_range. }
  apply H. lia.
Qed.

(** ** What [verbcasecmp] accepts

    A verb's name is a list of names separated by blanks; a star in a name
    marks the shortest abbreviation, and a star at its end accepts every
    extension. *)

(** The names, as the code cuts them *)
Definition first_word (v : bytes) : bytes :=
  (fix go v := match v with [] => [] | c :: v' => if c =? 32 then [] else c :: go v' end) v.
Fixpoint names_loop (fuel : nat) (v : bytes) : list bytes :=
  match fuel, v with
  | S fuel, _ :: _ => first_word v :: names_loop fuel (skip_spaces (skip_word v))
  | _, _ => []
  end.
Definition names (v : bytes) : list bytes := names_loop (length v) v.

Definition letters (p : bytes) : bytes := filter (fun c => c <> 42) p.
Definition same_letters (a b : bytes) : Prop := map tolower a = map tolower b.

(** [w] is the whole name or a prefix at least as long as the part before
    some star, or the name ends in a star and [w] extends it. *)
Definition name_accepts (p w : bytes) : Prop :=
  ((length w <= length (letters p))%nat /\ same_letters w (take (length w) (letters p)) /\
     (length w = length (letters p) \/
      exists p1 p2, p = p1 ++ 42 :: p2 /\ (length (letters p1) <= length w)%nat)) \/
  ((exists p1, p = p1 ++ [42]) /\ (length (letters p) <= length w)%nat /\
     same_letters (take (length (letters p)) w) (letters p)).

(** The same, by recursion on the name *)
Fixpoint name_ref (p w : bytes) (seen : star_kind) : bool :=
  match p with
  | [] => match w with [] => true | _ => match seen with star_end => true | _ => false end end
  | c :: p' =>
    if c =? 42 then name_ref p' w (if is_nil p' then star_end else star_inner)
    else
      match w with
      | [] => match seen with star_none => false | _ => true end
      | d :: w' => if cmap d =? cmap c then name_ref p' w' seen
                   else match seen with star_end => true | _ => false end
      end
  end.

Definition no_blank (p : bytes) : Prop := Forall (fun c => c <> 32) p.

Lemma match_loop_stars fuel v w star v2 star2 :
  skip_stars v star = skip_stars v2 star2 -> match_loop fuel v w star = match_loop fuel v2 w star2.
Proof. intros H. destruct fuel; simpl; by rewrite H. Qed.

Lemma at_end_app p rest : no_blank p -> at_end rest = true -> at_end (p ++ rest) = is_nil p.
Proof.
  intros Hp Hr. destruct p as [|c p]; [done|]. apply Forall_cons in Hp as [Hc _]. simpl. lia.
Qed.

Lemma skip_stars_stop c v star : c <> 42 -> skip_stars (c :: v) star = (c :: v, star).
Proof. intros H. simpl. by replace (c =? 42) with false by lia. Qed.

Lemma match_loop_ref p : forall fuel w star rest,
  no_blank p -> at_end rest = true -> (length p <= fuel)%nat ->
  exists v w' s p2, match_loop fuel (p ++ rest) w star = (v, w', s) /\
    v = p2 ++ rest /\ no_blank p2 /\ name_matches v w' s = name_ref p w star.
Proof.
  induction p as [|c p IH]; intros fuel w star rest Hp Hr Hf.
  - assert (skip_stars rest star = (rest, star)) as Es.
    { destruct rest as [|c r]; [done|]. simpl in Hr. apply skip_stars_stop. lia. }
    assert (match_loop fuel ([] ++ rest) w star = (rest, w, star)) as Em.
    { destruct fuel; simpl; rewrite Es; [done|].
      destruct rest as [|c r], w as [|d w]; try done. simpl in Hr. by rewrite Hr. }
    exists rest, w, star, []. split; [done|]. split; [done|]. split; [constructor|].
    destruct w; simpl; [|done]. by rewrite Hr, orb_true_r.
  - apply Forall_cons in Hp as [Hc Hp]. simpl in Hf. cbn [name_ref].
    destruct (c =? 42) eqn:E42.
    + assert (c = 42) as -> by lia.
      destruct (IH fuel w (if is_nil p then star_end else star_inner) rest Hp Hr)
        as (v & w' & s & p2 & Em & -> & Hp2 & Hres); [lia|].
      exists (p2 ++ rest), w', s, p2. split; [|done]. rewrite <- Em. apply match_loop_stars. simpl.
      by rewrite at_end_app.
    + destruct fuel as [|fuel]; [lia|].
      assert (skip_stars ((c :: p) ++ rest) star = ((c :: p) ++ rest, star)) as Es
        by (apply skip_stars_stop; lia).
      cbn [match_loop]. rewrite Es. cbn [app].
      assert (no_blank (c :: p)) as Hcp by (by constructor).
      destruct w as [|d w].
      * exists (c :: p ++ rest), [], star, (c :: p). split; [done|]. split; [done|]. split; [done|].
        simpl. replace (c =? 32) with false by lia. by rewrite orb_false_r.
      * replace (c =? 32) with false by lia. cbn [orb].
        destruct (cmap d =? cmap c) eqn:Ed; cbn [negb].
        -- apply IH; [done|done|lia].
        -- exists (c :: p ++ rest), (d :: w), star, (c :: p). done.
Qed.

Lemma skip_word_app p rest : no_blank p -> at_end rest = true -> skip_word (p ++ rest) = rest.
Proof.
  intros Hp Hr. induction Hp as [|c p Hc _ IH]; simpl.
  - destruct rest as [|c r]; [done|]. simpl in *. by rewrite Hr.
  - by replace (c =? 32) with false by lia.
Qed.

Lemma first_word_split v :
  v = first_word v ++ skip_word v /\ no_blank (first_word v) /\ at_end (skip_word v) = true.
Proof.
  induction v as [|c v (IH1 & IH2 & IH3)]; simpl; [by repeat constructor|].
  destruct (c =? 32) eqn:E; simpl; [by repeat constructor|].
  split; [by f_equal|]. split; [|done]. constructor; [lia|done].
Qed.

Lemma verb_loop_names word fuel : forall v,
  verb_loop fuel v word = existsb (fun p => name_ref p word star_none) (names_loop fuel v).
Proof.
  induction fuel as [|fuel IH]; intros v; [done|]. destruct v as [|c v]; [done|].
  cbn [verb_loop names_loop existsb].
  destruct (first_word_split (c :: v)) as (Ev & Hp & Hr).
  destruct (match_loop_ref (first_word (c :: v)) (length (c :: v)) word star_none (skip_word (c :: v)) Hp Hr)
    as (v' & w' & s & p2 & Em & -> & Hp2 & Hres).
  { rewrite Ev at 2. rewrite length_app. lia. }
  rewrite <- Ev in Em. rewrite Em, Hres, (skip_word_app p2) by done.
  rewrite <- IH. by destruct (name_ref (first_word (c :: v)) word star_none).
Qed.

Definition accepts_from (p w : bytes) (seen : star_kind) : Prop :=
  ((length w <= length (letters p))%nat /\ same_letters w (take (length w) (letters p)) /\
     (length w = length (letters p) \/ seen <> star_none \/
      exists p1 p2, p = p1 ++ 42 :: p2 /\ (length (letters p1) <= length w)%nat)) \/
  ((p = [] /\ seen = star_end \/ exists p1, p = p1 ++ [42]) /\ (length (letters p) <= length w)%nat /\
     same_letters (take (length (letters p)) w) (letters p)).

Lemma letters_star p : letters (42 :: p) = letters p.
Proof. unfold letters. by rewrite filter_cons_False by naive_solver. Qed.
Lemma letters_cons c p : c <> 42 -> letters (c :: p) = c :: letters p.
Proof. intros H. unfold letters. by rewrite filter_cons_True. Qed.

Lemma accepts_star p w seen :
  accepts_from p w (if is_nil p then star_end else star_inner) <-> accepts_from (42 :: p) w seen.
Proof.
  unfold accepts_from. rewrite letters_star.
  assert ((exists p1 : bytes, 42 :: p = p1 ++ [42]) <->
    (p = [] /\ (if is_nil p then star_end else star_inner) = star_end \/ exists p1, p = p1 ++ [42])) as Hr.
  { split.
    - intros [[|c p1] E]; simplify_eq/=; [by left|]. right. eauto.
    - intros [[-> _]|[p1 ->]]; [by exists []|by exists (42 :: p1)]. }
  rewrite Hr. split; intros [(H1 & H2 & H3)|(H1 & H2)]; [left|right|left|right]; try done.
  - split; [done|]. split; [done|]. right. right. exists [], p. simpl. split; [done|lia].
  - split; [by right|done].
  - split; [done|]. split; [done|]. right. left. by destruct p.
  - destruct H1 as [[H1 _]|H1]; [done|]. done.
Qed.

Lemma accepts_letter c p d w seen :
  c <> 42 -> seen <> star_end -> tolower d = tolower c ->
  accepts_from p w seen <-> accepts_from (c :: p) (d :: w) seen.
Proof.
  intros Hc Hs Ed. unfold accepts_from, same_letters. rewrite letters_cons by done. simpl. rewrite Ed.
  assert ((exists p1 p2 : bytes, c :: p = p1 ++ 42 :: p2 /\ (length (letters p1) <= S (length w))%nat) <->
    (exists p1 p2, p = p1 ++ 42 :: p2 /\ (length (letters p1) <= length w)%nat)) as H1.
  { split.
    - intros ([|c1 p1] & p2 & E & Hl); simplify_eq/=. rewrite letters_cons in Hl by done. simpl in Hl.
      exists p1, p2. split; [done|lia].
    - intros (p1 & p2 & -> & Hl). exists (c :: p1), p2. rewrite letters_cons by done. simpl. split; [done|lia]. }
  assert ((exists p1, c :: p = p1 ++ [42]) <-> (exists p1, p = p1 ++ [42])) as H2.
  { split; [intros [[|c1 p1] E]; simplify_eq/=; eauto|intros [p1 ->]; by exists (c :: p1)]. }
  rewrite H1, H2. split; intros [(A1 & A2 & A3)|(A1 & A2 & A3)].
  - left. split; [lia|]. split; [by f_equal|]. destruct A3 as [A3|[A3|A3]]; auto.
  - right. split; [|split; [lia|by f_equal]]. destruct A1 as [[_ A1]|A1]; [done|by right].
  - left. split; [lia|]. split; [by injection A2|]. destruct A3 as [A3|[A3|A3]]; auto.
  - right. split; [|split; [lia|by injection A3]]. destruct A1 as [[A1 _]|A1]; [done|by right].
Qed.

Lemma name_ref_accepts p : forall w seen,
  is_cstr p -> is_cstr w -> (seen = star_end -> p = []) ->
  name_ref p w seen = true <-> accepts_from p w seen.
Proof.
  induction p as [|c p IH]; intros w seen Hp Hw Hs.
  - unfold accepts_from. simpl. destruct w as [|d w]; simpl.
    + split; [|done]. intros _. left. split; [lia|]. split; [done|by left].
    + split.
      * destruct seen; try done. intros _. right. split; [by left|]. split; [lia|done].
      * intros [(H & _)|([[_ ->]|[p1 H]] & _)]; [lia|done|by destruct p1].
  - apply Forall_cons in Hp as [Hcr Hp]. cbn [name_ref]. destruct (c =? 42) eqn:E42.
    + assert (c = 42) as -> by lia. rewrite <- accepts_star. apply IH; [done..|]. by destruct p.
    + assert (seen <> star_end) as Hse by (intros E; by apply Hs in E).
      destruct w as [|d w].
      * unfold accepts_from. rewrite letters_cons by lia. simpl. split.
        -- intros H. left. split; [lia|]. split; [done|]. right. left. by destruct seen.
        -- intros [(_ & _ & [H|[H|(p1 & p2 & E & Hl)]])|(_ & H & _)]; [done|by destruct seen| |lia].
           destruct p1 as [|c1 p1]; simplify_eq/=. rewrite letters_cons in Hl by lia. simpl in Hl. lia.
      * apply Forall_cons in Hw as [Hdr Hw]. destruct (cmap d =? cmap c) eqn:Ed.
        -- rewrite <- accepts_letter; [|lia|done|apply cmap_inj; [done|done|lia]]. apply IH; [done..|].
           intros E. done.
        -- assert (tolower d <> tolower c) as Hne by (intros E; apply cmap_inj in E; [lia|done|done]).
           unfold accepts_from, same_letters. rewrite letters_cons by lia. simpl. split.
           ++ by destruct seen.
           ++ intros [(_ & H & _)|(_ & _ & H)]; injection H; intros; congruence.
Qed.

Lemma names_loop_cstr fuel : forall v, is_cstr v -> Forall is_cstr (names_loop fuel v).
Proof.
  assert (forall v, is_cstr v -> is_cstr (skip_spaces v)) as Hsk.
  { intros v Hv. induction Hv as [|c v Hc Hv IH]; simpl; [constructor|]. case_match; [done|]. by constructor. }
  induction fuel as [|fuel IH]; intros v Hv; [constructor|]. destruct v as [|c v]; [constructor|].
  cbn [names_loop]. destruct (first_word_split (c :: v)) as (Ev & _ & _). rewrite Ev in Hv.
  apply Forall_app in Hv as [H1 H2]. constructor; [done|]. apply IH. by apply Hsk.
Qed.

Lemma verbcasecmp_names verb word :
  is_cstr verb -> is_cstr word ->
  verbcasecmp false verb word = true <-> exists p, p ∈ names verb /\ name_accepts p word.
Proof.
  intros Hv Hw. unfold verbcasecmp. rewrite verb_loop_names, existsb_exists. fold (names verb).
  pose proof (names_loop_cstr (length verb) verb Hv) as Hn. fold (names verb) in Hn.
  rewrite Forall_forall in Hn.
  assert (forall p, p ∈ names verb -> name_ref p word star_none = true <-> name_accepts p word) as H.
  { intros p Hp. rewrite name_ref_accepts by (done || by apply Hn).
    unfold accepts_from, name_accepts. naive_solver. }
  split.
  - intros (p & Hp%list_elem_of_In & Hr). exists p. by rewrite <- H.
  - intros (p & Hp & Hr). exists p. rewrite <- list_elem_of_In. by rewrite H.
Qed.

(** [verbcasecmp] accepts a word exactly if some name of the verb does:
    the name without its star, a prefix that reaches the star, or any
    extension if the star ends the name, ASCII case aside. *)
Theorem verbcasecmp_correct verb word (Hv : is_cstr verb) (Hw : is_cstr word) :
  verbcasecmp false verb word = true <-> exists p, p ∈ names verb /\ name_accepts p word.
Proof. by apply verbcasecmp_names. Qed.

Lemma verbcasecmp_correct_witness :
  verbcasecmp false (str "get take*n") (str "TAKE") = true <->
  exists p, p ∈ names (str "get take*n") /\ name_accepts p (str "TAKE").
Proof. apply verbcasecmp_correct; repeat constructor; vm_compute; done. Defined.

(** [str_hash] is an [unsigned] value that depends on a string only up to
    ASCII case, so strings that [strcasecmp] equates hash alike. *)
Theorem str_hash_correct a b (Ha : is_cstr a) (Hb : is_cstr b) (H : strcasecmp a b = 0) :
  str_hash a = str_hash b /\ 0 <= str_hash a < 2 ^ 32.
Proof.
  split; [|apply str_hash_range]. apply str_hash_tolower.
  by apply strcmp_by_zero in H; [|apply tolower_byte_map|..].
Qed.

Lemma str_hash_correct_witness : str_hash (str "Look") = str_hash (str "LOOK") /\ 0 <= str_hash (str "Look") < 2 ^ 32.
Proof. apply str_hash_correct; repeat constructor; vm_compute; done. Defined.
