(* ===== verification/Value.v ===== *)
(** * MOO values ([Var] of structures.h) and their comparison (utils.cc)

    Lists and maps are represented by their contents: a list by its elements,
    a map by its entries in key order (the sequence the tree of [RBTree]
    holds).  Objects, anonymous objects and WAIFs are identified by their
    address or number. *)
From Stdlib Require Import ZArith Lia.
From Stdlib Require Import Floats.SpecFloat.
From stdpp Require Import prelude strings.
From S2P Require Import Prelude CString RBOrder.

Local Open Scope Z_scope.

(** [enum error] *)
Inductive error :=
| E_NONE | E_TYPE | E_DIV | E_PERM | E_PROPNF | E_VERBNF | E_VARNF | E_INVIND
| E_RECMOVE | E_MAXREC | E_RANGE | E_ARGS | E_NACC | E_INVARG | E_QUOTA | E_FLOAT
| E_FILE | E_EXEC | E_INTRPT.
#[export] Instance error_eq_dec : EqDecision error.
Proof. solve_decision. Defined.

Definition error_code (e : error) : Z :=
  match e with
  | E_NONE => 0 | E_TYPE => 1 | E_DIV => 2 | E_PERM => 3 | E_PROPNF => 4 | E_VERBNF => 5
  | E_VARNF => 6 | E_INVIND => 7 | E_RECMOVE => 8 | E_MAXREC => 9 | E_RANGE => 10 | E_ARGS => 11
  | E_NACC => 12 | E_INVARG => 13 | E_QUOTA => 14 | E_FLOAT => 15 | E_FILE => 16 | E_EXEC => 17
  | E_INTRPT => 18
  end.

(** [double]: IEEE 754 binary64 *)
Definition prec : Z := 53.
Definition emax : Z := 1024.
Abbreviation double := spec_float (only parsing).
Definition fzero : double := S754_zero false.

Inductive Var :=
| VInt (n : Z)
| VObj (o : Z)
| VStr (s : bytes)
| VErr (e : error)
| VList (l : list Var)
| VClear
| VNone
| VCatch (n : Z)
| VFinally (n : Z)
| VFloat (f : double)
| VMap (m : list (Var * Var))
| VIter (it : positive)
| VAnon (a : option positive)
| VWaif (w : positive)
| VBool (b : bool).

(** [var_type], with the [TYPE_COMPLEX_FLAG] the values carry in memory *)
Definition TYPE_INT := 0.
Definition TYPE_OBJ := 1.
Definition TYPE_ERR := 3.
Definition TYPE_CLEAR := 5.
Definition TYPE_NONE := 6.
Definition TYPE_CATCH := 7.
Definition TYPE_FINALLY := 8.
Definition TYPE_FLOAT := 9.
Definition TYPE_BOOL := 14.
Definition TYPE_STR := Z.lor 2 128.
Definition TYPE_LIST := Z.lor 4 128.
Definition TYPE_MAP := Z.lor 10 128.
Definition TYPE_ITER := Z.lor 11 128.
Definition TYPE_ANON := Z.lor 12 128.
Definition TYPE_WAIF := Z.lor 13 128.

Definition type_of (v : Var) : Z :=
  match v with
  | VInt _ => TYPE_INT | VObj _ => TYPE_OBJ | VStr _ => TYPE_STR | VErr _ => TYPE_ERR
  | VList _ => TYPE_LIST | VClear => TYPE_CLEAR | VNone => TYPE_NONE | VCatch _ => TYPE_CATCH
  | VFinally _ => TYPE_FINALLY | VFloat _ => TYPE_FLOAT | VMap _ => TYPE_MAP | VIter _ => TYPE_ITER
  | VAnon _ => TYPE_ANON | VWaif _ => TYPE_WAIF | VBool _ => TYPE_BOOL
  end.

Definition is_collection (v : Var) : bool :=
  match v with VList _ | VMap _ | VAnon _ => true | _ => false end.
Definition is_object (v : Var) : bool :=
  match v with VObj _ | VAnon _ | VWaif _ => true | _ => false end.

Definition is_true (v : Var) : bool :=
  match v with
  | VInt n => negb (n =? 0)
  | VFloat f => negb (SFeqb f fzero)
  | VStr s => negb (is_nil s)
  | VList l => negb (Z.of_nat (length l) =? 0)
  | VMap m => negb (is_nil m)
  | VBool b => b
  | _ => false
  end.

(** The results of built-in functions ([package] of functions.h): a value, an
    error with the default message and value, an error raised with both, or
    the end of the task *)
Inductive package :=
| PVar (v : Var)
| PError (e : error)
| PRaise (e : error) (msg : bytes) (v : Var)
| PAbort.

(** The 64-bit difference of two [Num]s, returned as an [int] *)
Definition num_difference (a b : Z) : Z := to_int (to_num (a - b)).

Definition compare_str (case_matters : bool) (a b : bytes) : Z :=
  if case_matters then strcmp a b else strcasecmp a b.

Definition same_truth {A} `{EqDecision A} (a b : A) : Z := if decide (a = b) then 0 else 1.

(** [compare]: no result where the code panics *)
Definition compare (lhs rhs : Var) (case_matters : bool) : option Z :=
  match lhs, rhs with
  | VInt a, VInt b => Some (num_difference a b)
  | VObj a, VObj b => Some (num_difference a b)
  | VErr a, VErr b => Some (error_code a - error_code b)
  | VStr a, VStr b => Some (compare_str case_matters a b)
  | VFloat a, VFloat b =>
    Some (if SFeqb a b then 0 else if SFltb (SFsub prec emax a b) fzero then -1 else 1)
  | VWaif a, VWaif b => Some (same_truth a b)
  | VAnon a, VAnon b => Some (same_truth a b)
  | VBool a, VBool b => Some (same_truth a b)
  | _, _ => if type_of lhs =? type_of rhs then None else Some (type_of lhs - type_of rhs)
  end.

(** [equality], with the comparison of the elements of lists and maps in
    place; [None] where the code panics *)
Definition equal_str (case_matters : bool) (a b : bytes) : bool :=
  if negb (length a =? length b)%nat then false else compare_str case_matters a b =? 0.

Fixpoint equality (lhs rhs : Var) (case_matters : bool) {struct lhs} : option bool :=
  let fix listequal (l1 l2 : list Var) : option bool :=
    match l1, l2 with
    | x :: l1', y :: l2' =>
      match equality x y case_matters with
      | Some true => listequal l1' l2'
      | r => r
      end
    | [], [] => Some true
    | _, _ => Some false
    end in
  let fix mapequal (m1 m2 : list (Var * Var)) : option bool :=
    match m1, m2 with
    | (k1, v1) :: m1', (k2, v2) :: m2' =>
      match equality k1 k2 case_matters with
      | Some true =>
        match equality v1 v2 case_matters with
        | Some true => mapequal m1' m2'
        | r => r
        end
      | r => r
      end
    | [], [] => Some true
    | _, _ => Some false
    end in
  match lhs, rhs with
  | VClear, VClear | VNone, VNone => Some true
  | VInt a, VInt b => Some (a =? b)
  | VObj a, VObj b => Some (a =? b)
  | VErr a, VErr b => Some (bool_decide (a = b))
  | VStr a, VStr b => Some (equal_str case_matters a b)
  | VFloat a, VFloat b => Some (SFeqb a b)
  | VList l1, VList l2 =>
    if negb (length l1 =? length l2)%nat then Some false else listequal l1 l2
  | VMap m1, VMap m2 => mapequal m1 m2
  | VAnon a, VAnon b => Some (bool_decide (a = b))
  | VWaif a, VWaif b => Some (bool_decide (a = b))
  | VBool a, VBool b => Some (Bool.eqb a b)
  | VBool a, VInt b => Some (b =? Z.b2z a)
  | VInt a, VBool b => Some (a =? Z.b2z b)
  | _, _ => if type_of lhs =? type_of rhs then None else Some false
  end.

(** ** The order of keys

    The comparison the trees use; the keys a map can hold never make
    [compare] panic, except through NaN-free floats it is total. *)
Definition compare_key (case_matters : bool) (a b : Var) : Z :=
  match compare a b case_matters with Some z => z | None => 0 end.

(** Keys on which [compare] is an order: errors, strings, and integers and
    object numbers within a window of 2^31 values, where differences fit in
    an [int]. *)
Definition in_window (lo n : Z) : Prop := lo <= n < lo + 2 ^ 31.
Definition ok_key (lo : Z) (v : Var) : Prop :=
  match v with
  | VInt n => in_window lo n
  | VObj n => in_window lo n
  | VErr _ => True
  | VStr s => is_cstr s
  | _ => False
  end.

Lemma num_difference_window lo a b :
  in_window lo a -> in_window lo b -> num_difference a b = a - b.
Proof.
  unfold in_window, num_difference, to_int, to_num. intros Ha Hb.
  rewrite (wrapS_id 64) by lia. apply wrapS_id; lia.
Qed.

Lemma tolower_eq_of_strcmp a b : is_cstr a -> is_cstr b -> strcmp a b = 0 -> strcasecmp a b = 0.
Proof.
  intros Ha Hb H. apply strcmp_by_zero in H; [|apply id_byte_map|done|done]. rewrite !map_id in H.
  apply strcmp_by_zero; [apply tolower_byte_map|done|done|by rewrite H].
Qed.

#[export] Instance compare_order (lo : Z) : KeyOrder compare_key (ok_key lo).
Proof.
  split.
  - intros a b Ha Hb. destruct a, b; simpl in Ha, Hb; try done; unfold compare_key; simpl; try lia.
    + rewrite !(num_difference_window lo) by done. lia.
    + rewrite !(num_difference_window lo) by done. lia.
    + unfold strcasecmp. rewrite (strcmp_by_antisym tolower s s0) by done. lia.
  - intros a b c Ha Hb Hc. destruct a, b; simpl in Ha, Hb; try done; destruct c; simpl in Hc; try done;
      unfold compare_key; simpl; rewrite ?(num_difference_window lo) by done; try lia.
    apply strcmp_by_trans; [apply tolower_byte_map|done..].
  - intros a b Ha Hb. destruct a, b; simpl in Ha, Hb; try done; unfold compare_key; simpl; try done.
    by apply tolower_eq_of_strcmp.
Qed.

(** On keys, comparing equal is being equal. *)
Lemma compare_equality lo cm a b :
  ok_key lo a -> ok_key lo b ->
  equality a b cm = Some (compare_key cm a b =? 0).
Proof.
  assert (forall e1 e2, bool_decide (e1 = e2) = (error_code e1 - error_code e2 =? 0)) as He.
  { by intros [] []. }
  assert (forall s1 s2, is_cstr s1 -> is_cstr s2 -> equal_str cm s1 s2 = (compare_str cm s1 s2 =? 0)) as Hs.
  { intros s1 s2 H1 H2. unfold equal_str. destruct (length s1 =? length s2)%nat eqn:El; [done|]. simpl.
    destruct (compare_str cm s1 s2 =? 0) eqn:Ec; [|done].
    assert (map tolower s1 = map tolower s2) as E.
    { apply Z.eqb_eq in Ec. destruct cm; simpl in Ec.
      - pose proof Ec as E.
        apply strcmp_by_zero in E; [|apply id_byte_map|done|done]. rewrite !map_id in E. by rewrite E.
      - by apply strcmp_by_zero; [apply tolower_byte_map|..]. }
    apply (f_equal length) in E. rewrite !length_map in E. by apply Nat.eqb_neq in El. }
  intros Ha Hb. destruct a, b; simpl in Ha, Hb; try done; unfold compare_key; simpl; f_equal;
    rewrite ?(num_difference_window lo) by done; try done; try lia; auto.
Qed.

(** ** Induction over nested values *)

Section var_ind.
Context (P : Var -> Prop).
Hypothesis Hlist : forall l, Forall P l -> P (VList l).
Hypothesis Hmap : forall m, Forall (fun x => P (fst x) /\ P (snd x)) m -> P (VMap m).
Hypothesis Hatom : forall v, match v with VList _ | VMap _ => False | _ => True end -> P v.

Fixpoint Var_nested_ind (v : Var) : P v :=
  match v with
  | VList l => Hlist l
      ((fix go l : Forall P l :=
          match l with
          | [] => @List.Forall_nil _ P
          | x :: l' => @List.Forall_cons _ P x l' (Var_nested_ind x) (go l')
          end) l)
  | VMap m => Hmap m
      ((fix go m : Forall (fun x => P (fst x) /\ P (snd x)) m :=
          match m with
          | [] => @List.Forall_nil _ _
          | x :: m' => @List.Forall_cons _ (fun x => P (fst x) /\ P (snd x)) x m' (conj (Var_nested_ind (fst x)) (Var_nested_ind (snd x))) (go m')
          end) m)
  | v => Hatom v I
  end.
End var_ind.

(** Values a program can hold: no stack markers or iterators, no NaN, no
    NUL in a string *)
Fixpoint plain (v : Var) : Prop :=
  match v with
  | VCatch _ | VFinally _ | VIter _ => False
  | VFloat f => SFeqb f f = true
  | VStr s => is_cstr s
  | VList l => (fix go l := match l with [] => True | x :: l' => plain x /\ go l' end) l
  | VMap m => (fix go m := match m with [] => True | (k, x) :: m' => plain k /\ plain x /\ go m' end) m
  | _ => True
  end.

Lemma equal_str_refl cm s : is_cstr s -> equal_str cm s s = true.
Proof.
  intros Hs. unfold equal_str. rewrite Nat.eqb_refl. simpl. unfold compare_str.
  destruct cm; apply Z.eqb_eq; (apply strcmp_by_zero; [|done|done|done]);
    [apply id_byte_map|apply tolower_byte_map].
Qed.

(** [equality] on two lists, and on the entries of two maps *)
Fixpoint listequal (cm : bool) (l1 l2 : list Var) : option bool :=
  match l1, l2 with
  | x :: l1', y :: l2' =>
    match equality x y cm with Some true => listequal cm l1' l2' | r => r end
  | [], [] => Some true
  | _, _ => Some false
  end.
Fixpoint mapequal (cm : bool) (m1 m2 : list (Var * Var)) : option bool :=
  match m1, m2 with
  | (k1, v1) :: m1', (k2, v2) :: m2' =>
    match equality k1 k2 cm with
    | Some true => match equality v1 v2 cm with Some true => mapequal cm m1' m2' | r => r end
    | r => r
    end
  | [], [] => Some true
  | _, _ => Some false
  end.

Lemma equality_list cm l1 l2 :
  equality (VList l1) (VList l2) cm =
    if negb (length l1 =? length l2)%nat then Some false else listequal cm l1 l2.
Proof.
  simpl. case_match; [done|]. clear H. revert l2. induction l1 as [|x l1 IH]; intros [|y l2]; simpl; try done.
  by rewrite IH.
Qed.
Lemma equality_map cm m1 m2 : equality (VMap m1) (VMap m2) cm = mapequal cm m1 m2.
Proof.
  simpl. revert m2. induction m1 as [|[k x] m1 IH]; intros [|[k' y] m2]; simpl; try done.
  by rewrite IH.
Qed.

Lemma equality_plain_refl cm v : plain v -> equality v v cm = Some true.
Proof.
  induction v as [l IH|m IH|v Hv] using Var_nested_ind.
  - intros Hp. rewrite equality_list, Nat.eqb_refl. simpl in *.
    induction IH as [|x l Hx _ IHl]; [done|]. destruct Hp as [Hp1 Hp2]. simpl.
    rewrite Hx by done. by apply IHl.
  - intros Hp. rewrite equality_map. simpl in *.
    induction IH as [|[k x] m [Hk Hx] _ IHm]; [done|]. destruct Hp as (Hp1 & Hp2 & Hp3). simpl in *.
    rewrite Hk, Hx by done. by apply IHm.
  - destruct v; simpl in *; intros Hp; try done; f_equal; try lia;
      try (by apply bool_decide_true).
    + by apply equal_str_refl.
    + done.
    + by apply eqb_reflx.
Qed.

(** C39: on errors, strings, and numbers less than 2^31 apart, [compare] is
    the order the trees need: transitive, antisymmetric up to sign, and equal
    exactly where [equality] holds, with and without case; comparing with
    case refines comparing without. *)
Theorem compare_order_correct lo a b c (Ha : ok_key lo a) (Hb : ok_key lo b) (Hc : ok_key lo c) :
  (compare_key false a b < 0 <-> 0 < compare_key false b a) /\
  (compare_key false a b <= 0 -> compare_key false b c <= 0 -> compare_key false a c <= 0) /\
  (forall cm, compare a b cm <> None /\ equality a b cm = Some (compare_key cm a b =? 0)) /\
  (compare_key true a b = 0 -> compare_key false a b = 0).
Proof.
  split_and!.
  - pose proof (cmp_flip compare_key (ok_key lo) a b Ha Hb). pose proof (cmp_flip compare_key (ok_key lo) b a Hb Ha).
    lia.
  - by apply (cmp_trans_le (ok := ok_key lo)).
  - intros cm. split; [by destruct a, b|by apply (compare_equality lo)].
  - by apply (cmp_case (ok := ok_key lo)).
Qed.

Lemma compare_order_correct_witness :
  let a := VStr (str "Ab") in let b := VStr (str "aB") in let c := VStr (str "b") in
  (compare_key false a b < 0 <-> 0 < compare_key false b a) /\
  (compare_key false a b <= 0 -> compare_key false b c <= 0 -> compare_key false a c <= 0) /\
  (forall cm, compare a b cm <> None /\ equality a b cm = Some (compare_key cm a b =? 0)) /\
  (compare_key true a b = 0 -> compare_key false a b = 0).
Proof.
  apply (compare_order_correct 0 (VStr (str "Ab")) (VStr (str "aB")) (VStr (str "b")));
    repeat constructor; vm_compute; done.
Defined.

(** [equality] is reflexive on the values a program can build: nested
    lists and maps included, it neither panics nor says false. *)
Theorem equality_reflexive v cm (Hv : plain v) : equality v v cm = Some true.
Proof. by apply equality_plain_refl. Qed.

Lemma equality_reflexive_witness :
  equality (VList [VInt 1; VMap [(VStr (str "k"), VList [VBool true])]])
    (VList [VInt 1; VMap [(VStr (str "k"), VList [VBool true])]]) false = Some true.
Proof. apply equality_reflexive. simpl. repeat split; repeat constructor; vm_compute; done. Defined.
