(* ===== verification/MooMap.v ===== *)
(** * Maps of MOO values

    The operations of [MapCode] at [Var] keys and values with [compare] of
    utils.cc, and the theorems about them. *)
From Stdlib Require Import ZArith Lia Sorted.
From stdpp Require Import prelude gmap strings.
From S2P Require Import Prelude CString RBCode RBTree RBOrder RBInsert RBErase RBTraverse.
From S2P Require Import MapCode MapSpec MapRange MapBuiltins Value.

Local Open Scope Z_scope.
Local Open Scope moo_scope.

(** The check of [mapinsert]: not NONE or CLEAR, not a list or a map *)
Definition map_valid_key (key : Var) : bool :=
  negb (match key with VNone | VClear => true | _ => false end ||
        (is_collection key && match key with VAnon _ => false | _ => true end)).

Definition moo_mapinsert := mapinsert compare_key VNone VNone map_valid_key.
Definition moo_range_ref := range_ref compare_key VNone VNone.
Definition moo_range_set := range_set compare_key VNone VNone.
Definition moo_maplookup := maplookup (V:=Var) compare_key.
Definition moo_mapdelete := bf_mapdelete compare_key VNone VNone is_collection.
Definition moo_mapvalues := bf_mapvalues (V:=Var) compare_key.
Definition moo_maphaskey := bf_maphaskey (V:=Var) compare_key is_collection.

Abbreviation moo_repr lo := (repr_by compare_key (ok_key lo)).
Abbreviation mput := (aput compare_key).
Abbreviation mget cm k L := (afind compare_key cm k L).

Lemma ok_key_valid lo k : ok_key lo k -> map_valid_key k = true.
Proof. by destruct k. Qed.

(** A store with two map objects: one of two entries and two references, and
    one of one entry and one reference *)
Definition ex_one : Var := VStr (str "one").
Definition ex_two : Var := VStr (str "two").
Definition ex_zwei : Var := VStr (str "zwei").
Definition ex_tree7 : tree Var Var :=
  T false (T true E 1%positive (VInt 1) ex_one E) 2%positive (VInt 2) ex_two E.
Definition ex_tree8 : tree Var Var := T false E 3%positive (VInt 2) ex_zwei E.
Definition ex_store : mstore Var Var :=
  mk_mstore
    (list_to_map [(1%positive, mk_rbnode (VInt 1) ex_one true None None);
                  (2%positive, mk_rbnode (VInt 2) ex_two false (Some 1%positive) None);
                  (3%positive, mk_rbnode (VInt 2) ex_zwei false None None)])
    (<[7%positive := mk_mapobj (mk_rbtree (Some 2%positive) 2) 2]>
      {[8%positive := mk_mapobj (mk_rbtree (Some 3%positive) 1) 1]}) None.
Definition ex_entries7 : list (Var * Var) := [(VInt 1, ex_one); (VInt 2, ex_two)].
Definition ex_entries8 : list (Var * Var) := [(VInt 2, ex_zwei)].
Definition ex_objs : gmap loc (list (Var * Var) * Z) :=
  <[7%positive := (ex_entries7, 2)]> {[8%positive := (ex_entries8, 1)]}.
Definition ex_T (m : loc) : tree Var Var :=
  if decide (m = 7%positive) then ex_tree7 else if decide (m = 8%positive) then ex_tree8 else E.

Lemma ex_repr : moo_repr (- 2 ^ 30) ex_store ex_objs ex_T.
Proof.
  split.
  - intros m. unfold ex_objs, ex_T. destruct (decide (m = 7%positive)) as [->|H7].
    { exists (mk_rbtree (Some 2%positive) 2).
      split; [done|]. split; [|split; [done|split; [done|]]].
      - split; [done|by vm_compute| |exists 1%nat; repeat econstructor].
        intros x. simpl. unfold one. repeat case_decide; subst; try lia; congruence.
      - split; simpl; repeat constructor; unfold klt, in_window; simpl; vm_compute; congruence. }
    destruct (decide (m = 8%positive)) as [->|H8].
    { exists (mk_rbtree (Some 3%positive) 1).
      split; [done|]. split; [|split; [done|split; [done|]]].
      - split; [done|by vm_compute| |exists 1%nat; repeat econstructor].
        intros x. simpl. unfold one. repeat case_decide; subst; try lia; congruence.
      - split; simpl; repeat constructor; unfold klt, in_window; simpl; vm_compute; congruence. }
    rewrite lookup_insert_ne, lookup_singleton_ne by done. split; [|done]. simpl.
    by rewrite lookup_insert_ne, lookup_singleton_ne by done.
  - intros m1 m2 x. unfold ex_T. repeat case_decide; subst; simpl; unfold one;
      repeat case_decide; subst; simpl; try lia; done.
Qed.
Lemma ex_fits7 n : (20 <= n)%nat -> fits ex_entries7 n.
Proof. unfold fits, ex_entries7. simpl. lia. Qed.
Lemma ex_fits8 n : (20 <= n)%nat -> fits ex_entries8 n.
Proof. unfold fits, ex_entries8. simpl. lia. Qed.

(** C5: [mapinsert] on maps whose keys are errors, strings without NUL, and
    integers and object numbers that lie, each, in one window of 2^31
    consecutive ones ([ok_key lo]; a new key in it too): it replaces or adds
    the entry of the key, in key order.  If the caller held the only reference
    it changes the map in place; if not, it returns a new object, and the
    shared map keeps its entries and loses the caller's reference.  No other
    map of the store changes.  Integers further apart and booleans are not
    ordered by the comparison ([wide_keys_collide], [bool_key_lost]); floats
    and anonymous objects as keys are not covered. *)
Theorem mapinsert_correct lo σ A T m L rc k v fuel
    (Hr : moo_repr lo σ A T) (Hm : A !! m = Some (L, rc)) (Hrc : 0 < rc)
    (Hk : ok_key lo k) (Hfit : fits L fuel) :
  exists m' σ' T', moo_mapinsert fuel m k v σ = Some (m', σ') /\
    (if 1 <? rc then A !! m' = None else m' = m) /\
    moo_repr lo σ' (<[m' := (mput k v L, 1)]> (if 1 <? rc then <[m := (L, rc - 1)]> A else A)) T'.
Proof.
  destruct (mapinsert_ok compare_key (ok_key lo) VNone VNone map_valid_key σ A T m L rc k v fuel)
    as (m' & σ' & T' & E & Hr' & Hm' & _); try done; [by eapply ok_key_valid|].
  by exists m', σ', T'.
Qed.

Lemma mapinsert_correct_witness :
  exists m' σ' T', moo_mapinsert 20 7%positive (VInt 2) ex_zwei ex_store = Some (m', σ') /\
    ex_objs !! m' = None /\
    moo_repr (- 2 ^ 30) σ' (<[m' := ([(VInt 1, ex_one); (VInt 2, ex_zwei)], 1)]>
      (<[7%positive := (ex_entries7, 1)]> ex_objs)) T'.
Proof.
  apply (mapinsert_correct (- 2 ^ 30) ex_store ex_objs ex_T 7%positive ex_entries7 2);
    [apply ex_repr|done|lia| |by apply ex_fits7].
  simpl. unfold in_window. lia.
Defined.

(** after [mapinsert], looking up the key finds the new value, and
    looking up any key that compares different finds what it found before. *)
Theorem mapinsert_lookup lo σ A T m L rc k v k' fuel
    (Hr : moo_repr lo σ A T) (Hm : A !! m = Some (L, rc)) (Hrc : 0 < rc)
    (Hk : ok_key lo k) (Hk' : ok_key lo k') (Hfit : fits L fuel) :
  exists m' σ', moo_mapinsert fuel m k v σ = Some (m', σ') /\
    moo_maplookup fuel m' k' false σ' =
      Some (if compare_key false k k' =? 0 then Some (k, v) else mget false k' L, σ').
Proof.
  destruct (mapinsert_ok compare_key (ok_key lo) VNone VNone map_valid_key σ A T m L rc k v fuel)
    as (m' & σ' & T' & E & Hr' & Hm' & _); try done; [by eapply ok_key_valid|].
  exists m', σ'. split; [done|]. unfold moo_maplookup.
  pose proof (aput_bound compare_key k v L) as Hb.
  rewrite (maplookup_ok compare_key (ok_key lo) σ' _ T' m' (mput k v L) 1 k' false fuel Hr');
    [|apply lookup_insert_eq|done|destruct Hfit; lia].
  destruct (repr_lookup _ _ _ _ _ _ _ _ Hr Hm) as (tr & _ & _ & _ & _ & Hs).
  by rewrite (afind_aput compare_key (ok_key lo)).
Qed.

Lemma mapinsert_lookup_witness :
  exists m' σ', moo_mapinsert 20 7%positive (VInt 2) ex_zwei ex_store = Some (m', σ') /\
    moo_maplookup 20 m' (VInt 2) false σ' = Some (Some (VInt 2, ex_zwei), σ').
Proof.
  apply (mapinsert_lookup (- 2 ^ 30) ex_store ex_objs ex_T 7%positive ex_entries7 2
    (VInt 2) ex_zwei (VInt 2) 20);
    [apply ex_repr|done|lia|simpl; unfold in_window; lia..|by apply ex_fits7].
Defined.

(** [mapdelete] removes the entry of one key, or of every key of a
    list, and reports a missing or unsuitable key with the error of the code;
    the map argument loses one reference and is changed in place only when
    that was its only one, and after an error no copy is left behind. *)
Theorem bf_mapdelete_correct lo arg σ A T m L rc fuel
    (Hr : moo_repr lo σ A T) (Hm : A !! m = Some (L, rc)) (Hfit : fits L fuel)
    (Hok : keys_ok (ok_key lo) is_collection (arg_keys arg)) :
  exists res σ', moo_mapdelete fuel m arg σ = Some (res, σ') /\
    mapdelete_result compare_key (ok_key lo) A m L rc (del_arg compare_key is_collection L arg) res σ'.
Proof.
  by apply (bf_mapdelete_ok compare_key (ok_key lo) VNone VNone is_collection arg fuel σ A T m L rc).
Qed.

Lemma bf_mapdelete_correct_witness :
  exists res σ', moo_mapdelete 20 7%positive (inl [VInt 1; VInt 3]) ex_store = Some (res, σ') /\
    mapdelete_result compare_key (ok_key (- 2 ^ 30)) ex_objs 7%positive ex_entries7 2
      (PackRaiseRange (VInt 3)) res σ'.
Proof.
  apply (bf_mapdelete_correct (- 2 ^ 30) (inl [VInt 1; VInt 3]) ex_store ex_objs ex_T 7%positive ex_entries7 2);
    [apply ex_repr|done|by apply ex_fits7|].
  unfold keys_ok. simpl. unfold in_window. repeat constructor; simpl; lia.
Defined.

(** [map[k1..k2]] is a new map of the entries from [k1] to [k2] when
    both keys are present, [E_RANGE] when one is missing, and an empty map
    when [k1] comes after [k2], present or not; the base loses a reference. *)
Theorem range_ref_correct lo σ A T m L rc k1 k2 fuel
    (Hr : moo_repr lo σ A T) (Hst : static_ok σ A) (Hm : A !! m = Some (L, rc)) (Hfit : fits L fuel)
    (Hf : (3 * length L + 3 <= fuel)%nat) (Hk1 : ok_key lo k1) (Hk2 : ok_key lo k2) :
  exists res σ' A' T', moo_range_ref fuel m k1 k2 σ = Some (res, σ') /\ moo_repr lo σ' A' T' /\
    if 0 <? compare_key false k1 k2 then
      exists r n, res = Some r /\ A' !! r = Some ([], n) /\ 0 < n /\
        forall m', m' <> r -> m' <> m -> A' !! m' = A !! m'
    else if amem compare_key k1 L && amem compare_key k2 L then
      exists r, res = Some r /\ A !! r = None /\
        A' = drop_ref (<[r := (between compare_key k1 k2 L, 1)]> A) m L rc
    else res = None /\ A' = drop_ref A m L rc.
Proof. by apply (range_ref_ok compare_key (ok_key lo) VNone VNone σ A T m L rc k1 k2 fuel). Qed.

Lemma range_ref_correct_witness :
  exists res σ' A' T', moo_range_ref 20 7%positive (VInt 2) (VInt 2) ex_store = Some (res, σ') /\
    moo_repr (- 2 ^ 30) σ' A' T' /\
    exists r, res = Some r /\ ex_objs !! r = None /\
      A' = drop_ref (<[r := ([(VInt 2, ex_two)], 1)]> ex_objs) 7%positive ex_entries7 2.
Proof.
  apply (range_ref_correct (- 2 ^ 30) ex_store ex_objs ex_T 7%positive ex_entries7 2);
    [apply ex_repr|done|done|by apply ex_fits7|simpl; lia|simpl; unfold in_window; lia..].
Defined.

(** [map[k1..k2] = value] builds a new map of the entries before [k1],
    then those of [value], then those after [k2], later entries replacing
    earlier ones of an equal key; a missing key is [E_RANGE].  Both operands
    lose a reference. *)
Theorem range_set_correct lo σ A T m mv L Lv rc rcv k1 k2 fuel
    (Hr : moo_repr lo σ A T) (Hm : A !! m = Some (L, rc)) (Hmv : A !! mv = Some (Lv, rcv))
    (Hne : m <> mv) (Hfit : fits L fuel) (Hfitv : fits Lv fuel)
    (Hf : (4 * (length L + length Lv) + 6 <= fuel)%nat) (Hk1 : ok_key lo k1) (Hk2 : ok_key lo k2) :
  exists res σ' A' T', moo_range_set fuel m k1 k2 mv σ = Some (res, σ') /\ moo_repr lo σ' A' T' /\
    if amem compare_key k1 L && amem compare_key k2 L then
      exists r, res = Some r /\ A !! r = None /\
        A' = drop_ref (drop_ref
          (<[r := (puts compare_key (puts compare_key (below compare_key k1 L) Lv) (above compare_key k2 L), 1)]> A)
          m L rc) mv Lv rcv
    else res = None /\ A' = drop_ref (drop_ref A m L rc) mv Lv rcv.
Proof.
  by apply (range_set_ok compare_key (ok_key lo) VNone VNone σ A T m mv L Lv rc rcv k1 k2 fuel).
Qed.

Lemma range_set_correct_witness :
  exists res σ' A' T', moo_range_set 30 7%positive (VInt 1) (VInt 1) 8%positive ex_store = Some (res, σ') /\
    moo_repr (- 2 ^ 30) σ' A' T' /\
    exists r, res = Some r /\ ex_objs !! r = None /\
      A' = drop_ref (drop_ref (<[r := ([(VInt 2, ex_two)], 1)]> ex_objs)
        7%positive ex_entries7 2) 8%positive ex_entries8 1.
Proof.
  apply (range_set_correct (- 2 ^ 30) ex_store ex_objs ex_T 7%positive 8%positive ex_entries7 ex_entries8 2 1);
    [apply ex_repr|done|done|done|apply ex_fits7; lia|apply ex_fits8; lia|simpl; lia|simpl; unfold in_window; lia..].
Defined.

(** [mapequal] compares two distinct maps entry by entry in key order
    and changes nothing; it is true iff the keys and values are pairwise
    equal and the lengths agree. *)
Theorem mapequal_correct lo σ A T m1 m2 L1 L2 rc1 rc2 (eqk eqv : Var -> Var -> bool) fuel
    (Hr : moo_repr lo σ A T) (Hm1 : A !! m1 = Some (L1, rc1)) (Hm2 : A !! m2 = Some (L2, rc2))
    (Hf1 : fits L1 fuel) (Hf2 : fits L2 fuel) (Hf : (length L1 + length L2 + 2 <= fuel)%nat)
    (Hne : m1 <> m2) :
  exists b, MapCode.mapequal fuel eqk eqv m1 m2 σ = Some (b, σ) /\
    (b = true <-> Forall2 (fun x y => eqk (fst x) (fst y) = true /\ eqv (snd x) (snd y) = true) L1 L2).
Proof.
  exists (equal_list eqk eqv L1 L2).
  split; [by apply (mapequal_ok compare_key (ok_key lo) eqk eqv σ A T m1 m2 L1 L2 rc1 rc2)|]. clear -L1 L2.
  revert L2. induction L1 as [|[k1 v1] L1 IH]; intros [|[k2 v2] L2]; simpl.
  - by split; [constructor|].
  - by split; [|inversion 1].
  - by split; [|inversion 1].
  - rewrite !andb_true_iff, IH, Forall2_cons. simpl. tauto.
Qed.

Lemma mapequal_correct_witness :
  exists b, MapCode.mapequal 20 (fun a b => compare_key false a b =? 0) (fun a b => compare_key false a b =? 0)
      7%positive 8%positive ex_store = Some (b, ex_store) /\
    (b = true <-> Forall2 (fun x y => (compare_key false (fst x) (fst y) =? 0) = true /\
        (compare_key false (snd x) (snd y) =? 0) = true) ex_entries7 ex_entries8).
Proof.
  apply (mapequal_correct (- 2 ^ 30) ex_store ex_objs ex_T 7%positive 8%positive ex_entries7 ex_entries8 2 1);
    [apply ex_repr|done|done|by apply ex_fits7|by apply ex_fits8|simpl; lia|done].
Defined.

(** [mapkeys] lists the keys in order; [mapvalues] lists the values in
    the order of their keys, or those of the given keys, compared with case,
    with [E_RANGE] for a missing one; [maphaskey] says whether a lookup finds
    an entry.  Each consumes one reference to the map, on every path. *)
Theorem map_builtins_correct lo σ A T m L rc keys k cm fuel
    (Hr : moo_repr lo σ A T) (Hm : A !! m = Some (L, rc)) (Hfit : fits L fuel)
    (Hkeys : Forall (ok_key lo) keys) (Hk : is_collection k = false -> ok_key lo k) :
  (exists σ' T', bf_mapkeys fuel m σ = Some (map fst L, σ') /\ moo_repr lo σ' (drop_ref A m L rc) T') /\
  (exists σ' T', moo_mapvalues fuel m keys σ = Some (mapvalues_abs compare_key L keys, σ') /\
     moo_repr lo σ' (drop_ref A m L rc) T') /\
  (exists σ' T', moo_maphaskey fuel m k cm σ =
     Some (if is_collection k then PackType else PackValue (bool_decide (mget cm k L <> None)), σ') /\
     moo_repr lo σ' (drop_ref A m L rc) T').
Proof.
  split_and!; [by apply (bf_mapkeys_ok compare_key (ok_key lo) fuel σ A T)
    |by apply (bf_mapvalues_ok compare_key (ok_key lo) fuel σ A T)|].
  destruct (bf_maphaskey_ok compare_key (ok_key lo) is_collection fuel σ A T m L rc k cm)
    as (σ' & T' & E1 & Hr'); try done.
  exists σ', T'. split; [|done]. unfold moo_maphaskey. rewrite E1. by destruct (mget cm k L).
Qed.

Lemma map_builtins_correct_witness :
  (exists σ' T', bf_mapkeys 20 7%positive ex_store = Some ([VInt 1; VInt 2], σ') /\
     moo_repr (- 2 ^ 30) σ' (drop_ref ex_objs 7%positive ex_entries7 2) T') /\
  (exists σ' T', moo_mapvalues 20 7%positive [VInt 2; VInt 1] ex_store = Some (PackValue [ex_two; ex_one], σ') /\
     moo_repr (- 2 ^ 30) σ' (drop_ref ex_objs 7%positive ex_entries7 2) T') /\
  (exists σ' T', moo_maphaskey 20 7%positive (VInt 5) false ex_store = Some (PackValue false, σ') /\
     moo_repr (- 2 ^ 30) σ' (drop_ref ex_objs 7%positive ex_entries7 2) T').
Proof.
  apply (map_builtins_correct (- 2 ^ 30) ex_store ex_objs ex_T 7%positive ex_entries7 2
    [VInt 2; VInt 1] (VInt 5) false 20); [apply ex_repr|done|by apply ex_fits7|..];
    repeat constructor; simpl; unfold in_window; lia.
Defined.

(** ** Where [compare] is not an order

    Both computations start from the empty store and insert into a new map. *)
Definition empty_store : mstore Var Var := mk_mstore empty empty None.
Fixpoint insert_all (fuel : nat) (m : loc) (l : list (Var * Var)) : M (mstore Var Var) loc :=
  match l with
  | [] => mreturn m
  | (k, v) :: l' => let! m' := moo_mapinsert fuel m k v in insert_all fuel m' l'
  end.

(** the keys 0 and 4294967296 are different values that a map takes for
    the same key: inserting the second replaces the entry of the first. *)
Theorem wide_keys_collide :
  equality (VInt 0) (VInt (2 ^ 32)) true = Some false /\
  match (let! m := empty_map in
         let! m := insert_all 10 m [(VInt 0, ex_one); (VInt (2 ^ 32), ex_two)] in
         bf_mapkeys 10 m) empty_store with
  | Some (keys, _) => keys = [VInt (2 ^ 32)]
  | None => False
  end.
Proof. by vm_compute. Qed.

(** after inserting true, false and 1, a lookup of true finds nothing. *)
Theorem bool_key_lost :
  match (let! m := empty_map in
         let! m := insert_all 10 m [(VBool true, ex_one); (VBool false, ex_two); (VInt 1, ex_zwei)] in
         let! n := maplength m in
         let! r := moo_maplookup 10 m (VBool true) false in
         mreturn (n, r)) empty_store with
  | Some ((n, r), _) => n = 3 /\ r = None
  | None => False
  end.
Proof. by vm_compute. Qed.
