(* ===== verification/Streams.v ===== *)
(** * Growing buffers (streams.cc)

    A [Stream] is a buffer of [buflen] bytes of which the first [current] are
    written.  A computation ends with a value, with the exception
    [stream_too_big], or with an access outside the buffer ([Crash]).
    [int] arithmetic wraps, and the comparisons with the [size_t]
    [stream_alloc_maximum] convert to 64 unsigned bits. *)
From Stdlib Require Import ZArith Lia.
From stdpp Require Import prelude strings.
From S2P Require Import Prelude CString.

Local Open Scope Z_scope.

Record Stream := mk_stream { buffer : list Z; buflen : Z; current : Z }.

Inductive outcome (A : Type) := Done (x : A) | TooBig | Crash.
Arguments Done {A}.
Arguments TooBig {A}.
Arguments Crash {A}.
Definition obind {A B} (m : outcome A) (k : A -> outcome B) : outcome B :=
  match m with Done x => k x | TooBig => TooBig | Crash => Crash end.

Section streams.
(** [stream_alloc_maximum], [allow_stream_exceptions], and the value of a
    byte the allocator has not written *)
Variables (stream_alloc_maximum allow junk : Z).

Definition new_stream (size : Z) : Stream :=
  let size := if size <? 1 then 1 else size in
  mk_stream (replicate (Z.to_nat size) junk) size 0.

Definition myrealloc (b : list Z) (n : Z) : list Z :=
  take (Z.to_nat n) b ++ replicate (Z.to_nat n - length b) junk.

Definition resize (s : Stream) (newlen : Z) : outcome Stream :=
  if newlen <? 0 then Crash
  else Done (mk_stream (myrealloc (buffer s) newlen) newlen (current s)).

Definition grow (s : Stream) (newlen need : Z) : outcome Stream :=
  if (0 <? allow) && (stream_alloc_maximum <? to_unum newlen) then
    if to_unum (to_int (current s + need)) <? stream_alloc_maximum
    then resize s (to_int stream_alloc_maximum)
    else TooBig
  else resize s newlen.

(** Writes [bytes] at position [pos]. *)
Definition write (s : Stream) (pos : Z) (bs : bytes) : outcome Stream :=
  if (0 <=? pos) && (pos + Z.of_nat (length bs) <=? Z.of_nat (length (buffer s))) then
    Done (mk_stream (take (Z.to_nat pos) (buffer s) ++ bs ++ drop (Z.to_nat pos + length bs) (buffer s))
            (buflen s) (current s))
  else Crash.
Definition advance (s : Stream) (n : Z) : Stream := mk_stream (buffer s) (buflen s) (to_int (current s + n)).

Definition stream_add_char (s : Stream) (c : Z) : outcome Stream :=
  obind (if buflen s <=? to_int (current s + 1) then grow s (to_int (buflen s * 2)) 1 else Done s) (fun s =>
  obind (write s (current s) [c]) (fun s => Done (advance s 1))).

Definition stream_delete_char (s : Stream) : Stream :=
  if 0 <? current s then mk_stream (buffer s) (buflen s) (current s - 1) else s.

(** The new length when [len] bytes do not fit *)
Definition new_length (s : Stream) (len : Z) : Z :=
  let newlen := to_int (buflen s * 2) in
  if newlen <=? to_int (current s + len) then to_int (current s + len + 1) else newlen.

Definition stream_add_string (s : Stream) (string : bytes) : outcome Stream :=
  let len := to_int (Z.of_nat (length string)) in
  obind (if buflen s <=? to_int (current s + len) then grow s (new_length s len) len else Done s) (fun s =>
  obind (write s (current s) (string ++ [0])) (fun s => Done (advance s len))).

(** [vsnprintf(s->buffer + s->current, s->buflen - s->current, ...)], which
    formats [text]: what fits, and a NUL *)
Definition vsnprintf (s : Stream) (text : bytes) : outcome Stream :=
  let room := buflen s - current s in
  if room <=? 0 then Done s
  else write s (current s) (take (Z.to_nat (room - 1)) text ++ [0]).

Definition stream_printf (s : Stream) (text : bytes) : outcome Stream :=
  let len := to_int (Z.of_nat (length text)) in
  obind (vsnprintf s text) (fun s =>
  obind (if buflen s <=? to_int (current s + len)
         then obind (grow s (new_length s len) len) (fun s => vsnprintf s text)
         else Done s) (fun s =>
  Done (advance s len))).

(** The C string a buffer holds: the bytes before the first NUL *)
Fixpoint c_string (b : list Z) : bytes :=
  match b with [] => [] | c :: b' => if c =? 0 then [] else c :: c_string b' end.

Definition stream_contents (s : Stream) : outcome (bytes * Stream) :=
  obind (write s (current s) [0]) (fun s => Done (c_string (buffer s), s)).
Definition reset_stream (s : Stream) : outcome (bytes * Stream) :=
  obind (write s (current s) [0]) (fun s =>
  Done (c_string (buffer s), mk_stream (buffer s) (buflen s) 0)).
Definition stream_length (s : Stream) : Z := current s.

(** ** The invariant *)

(** There is always room for the terminating NUL. *)
Record stream_ok (s : Stream) : Prop := {
  ok_buflen : Z.of_nat (length (buffer s)) = buflen s;
  ok_current : 0 <= current s < buflen s }.

(** The bytes written so far *)
Definition written (s : Stream) : bytes := take (Z.to_nat (current s)) (buffer s).

Lemma write_ok s pos bs :
  0 <= pos -> pos + Z.of_nat (length bs) <= Z.of_nat (length (buffer s)) ->
  exists b, write s pos bs = Done (mk_stream b (buflen s) (current s)) /\ length b = length (buffer s) /\
    take (Z.to_nat pos + length bs) b = take (Z.to_nat pos) (buffer s) ++ bs.
Proof.
  intros H0 H1. unfold write. replace (_ && _) with true by lia.
  eexists. split; [done|]. rewrite !length_app, length_take, length_drop. split; [lia|].
  rewrite app_assoc, take_app_le; [|rewrite length_app, length_take; lia].
  apply take_ge. rewrite length_app, length_take. lia.
Qed.

Lemma resize_ok s n :
  stream_ok s -> current s < n ->
  exists s', resize s n = Done s' /\ buflen s' = n /\ current s' = current s /\
    written s' = written s /\ stream_ok s'.
Proof.
  intros [Hb Hc] Hn. unfold resize. replace (n <? 0) with false by lia.
  eexists. split; [done|]. unfold written, myrealloc. simpl. split_and!; [done..| |].
  - rewrite take_app_le by (rewrite length_take; lia). rewrite take_take. f_equal. lia.
  - split; simpl; [|lia]. rewrite length_app, length_take, length_replicate. lia.
Qed.

(** [stream_too_big] is thrown only if exceptions are enabled and the bytes
    do not fit in the maximum. *)
Definition grown (s : Stream) (need : Z) (o : outcome Stream) : Prop :=
  (o = TooBig /\ 0 < allow /\ stream_alloc_maximum <= current s + need) \/
  (exists s', o = Done s' /\ current s' = current s /\ written s' = written s /\ stream_ok s' /\
     current s + need < buflen s').

Hypothesis maximum_int : 0 <= stream_alloc_maximum < 2 ^ 31.

Lemma grow_ok s newlen need :
  stream_ok s -> 0 <= need -> current s + need < newlen < 2 ^ 31 -> grown s need (grow s newlen need).
Proof.
  intros Hs Hneed Hnew. pose proof (ok_current s Hs) as Hc. unfold grow, grown.
  unfold to_unum, to_int. rewrite (wrapU_id 64), !(wrapS_id 32), (wrapU_id 64) by lia.
  destruct ((0 <? allow) && _) eqn:E.
  - destruct (current s + need <? stream_alloc_maximum) eqn:E2; [|left; split; [done|lia]].
    destruct (resize_ok s stream_alloc_maximum Hs) as (s' & -> & H1 & H2 & H3 & H4); [lia|].
    right. exists s'. split_and!; try done. lia.
  - destruct (resize_ok s newlen Hs) as (s' & -> & H1 & H2 & H3 & H4); [lia|].
    right. exists s'. split_and!; try done. lia.
Qed.

Lemma new_length_ok s len :
  stream_ok s -> 0 <= len -> buflen s < 2 ^ 30 -> current s + len + 1 < 2 ^ 31 ->
  current s + len < new_length s len < 2 ^ 31.
Proof.
  intros [Hb Hc] Hl H1 H2. unfold new_length, to_int. rewrite !(wrapS_id 32) by lia. case_match; lia.
Qed.

(** The outcome of adding [bs]: they follow what was written *)
Definition appended (s : Stream) (bs : bytes) (o : outcome Stream) : Prop :=
  (o = TooBig /\ 0 < allow /\ stream_alloc_maximum <= current s + Z.of_nat (length bs)) \/
  (exists s', o = Done s' /\ stream_ok s' /\ written s' = written s ++ bs).

Lemma written_length s : stream_ok s -> Z.of_nat (length (written s)) = current s.
Proof. intros [Hb Hc]. unfold written. rewrite length_take. lia. Qed.

(** The writing step, once there is room: [k] further bytes may be written *)
Lemma append_room s bs k :
  stream_ok s -> (k <= 1)%nat -> current s + Z.of_nat (length bs) < buflen s ->
  current s + Z.of_nat (length bs) < 2 ^ 31 ->
  exists s', obind (write s (current s) (bs ++ replicate k 0)) (fun s => Done (advance s (Z.of_nat (length bs)))) = Done s' /\
    stream_ok s' /\ written s' = written s ++ bs.
Proof.
  intros [Hb Hc] Hk H1 H2.
  destruct (write_ok s (current s) (bs ++ replicate k 0)) as (b & -> & Hl & Ht); [lia| |].
  { rewrite length_app, length_replicate. lia. }
  simpl. eexists. split; [done|]. unfold advance, to_int, written. simpl. rewrite (wrapS_id 32) by lia.
  split; [split; simpl; lia|].
  rewrite length_app, length_replicate in Ht.
  apply (f_equal (take (Z.to_nat (current s) + length bs))) in Ht.
  rewrite take_take in Ht. rewrite Nat.min_l in Ht by lia.
  rewrite Z2Nat.inj_add, Nat2Z.id by lia. rewrite Ht. rewrite app_assoc, take_app_le.
  - apply take_ge. rewrite length_app, length_take. lia.
  - rewrite length_app, length_take. lia.
Qed.

Lemma grown_append s bs o k :
  grown s (Z.of_nat (length bs)) o -> (k <= 1)%nat -> current s + Z.of_nat (length bs) < 2 ^ 31 ->
  appended s bs (obind o (fun s =>
    obind (write s (current s) (bs ++ replicate k 0)) (fun s => Done (advance s (Z.of_nat (length bs)))))).
Proof.
  intros [(-> & H)|(s1 & -> & Hc & Hw & Hs & Hr)] Hk Hsm; [by left|]. right. simpl.
  destruct (append_room s1 bs k Hs Hk) as (s2 & -> & H1 & H2); [lia..|]. exists s2. by rewrite <- Hw.
Qed.

(** What the appending operations assume: lengths below 2^30 *)
Definition small (s : Stream) (len : nat) : Prop :=
  buflen s < 2 ^ 30 /\ Z.of_nat len < 2 ^ 30.

Lemma grown_id s need : stream_ok s -> current s + need < buflen s -> grown s need (Done s).
Proof. intros Hs H. right. by exists s. Qed.

Lemma stream_add_string_ok s bs :
  stream_ok s -> small s (length bs) -> appended s bs (stream_add_string s bs).
Proof.
  intros Hs [H1 H2]. pose proof (ok_current s Hs). unfold stream_add_string, to_int.
  rewrite (wrapS_id 32 (Z.of_nat _)), (wrapS_id 32 (current s + _)) by lia. change [0] with (replicate 1 0).
  apply grown_append; [|lia..]. case_match; [|by apply grown_id; [|lia]].
  apply grow_ok; [done|lia|]. apply new_length_ok; [done|lia..].
Qed.

Lemma stream_add_char_ok s c : stream_ok s -> small s 1 -> appended s [c] (stream_add_char s c).
Proof.
  intros Hs [H1 H2]. pose proof (ok_current s Hs). unfold stream_add_char, to_int.
  rewrite !(wrapS_id 32) by lia. change [c] with ([c] ++ replicate 0 0).
  apply grown_append; simpl; [|lia..]. case_match; [|by apply grown_id; [|lia]].
  apply grow_ok; [done|lia..].
Qed.

Lemma vsnprintf_ok s text :
  stream_ok s ->
  exists b, vsnprintf s text = Done (mk_stream b (buflen s) (current s)) /\ length b = length (buffer s) /\
    take (Z.to_nat (current s)) b = written s /\
    (current s + Z.of_nat (length text) < buflen s ->
     take (Z.to_nat (current s) + length text) b = written s ++ text).
Proof.
  intros [Hb Hc]. unfold vsnprintf. replace (_ <=? 0) with false by lia.
  set (t := take (Z.to_nat (buflen s - current s - 1)) text).
  assert (length t <= Z.to_nat (buflen s - current s - 1))%nat as Ht by apply firstn_le_length.
  destruct (write_ok s (current s) (t ++ [0])) as (b & -> & Hl & Hw); [lia|rewrite length_app; simpl; lia|].
  exists b. split; [done|]. split; [done|]. rewrite length_app in Hw.
  assert (forall n, (n <= length t)%nat ->
    take (Z.to_nat (current s) + n) b = written s ++ take n t) as H.
  { intros n Hn. apply (f_equal (take (Z.to_nat (current s) + n))) in Hw.
    rewrite take_take, Nat.min_l in Hw by lia. rewrite Hw.
    change (take (Z.to_nat (current s)) (buffer s)) with (written s).
    pose proof (written_length s (Build_stream_ok s Hb Hc)).
    rewrite take_app_ge by lia. f_equal. rewrite take_app_le by lia. f_equal. lia. }
  split.
  - specialize (H 0%nat ltac:(lia)). by rewrite Nat.add_0_r, app_nil_r in H.
  - intros Hroom. assert (t = text) as -> by (apply take_ge; lia).
    rewrite H by done. f_equal. by apply take_ge.
Qed.

Lemma stream_printf_ok s text :
  stream_ok s -> small s (length text) -> appended s text (stream_printf s text).
Proof.
  intros Hs [H1 H2]. pose proof (ok_current s Hs) as Hc. unfold stream_printf, to_int.
  rewrite (wrapS_id 32 (Z.of_nat _)) by lia.
  destruct (vsnprintf_ok s text Hs) as (b & -> & Hl & Hb & Ht). simpl. rewrite (wrapS_id 32) by lia.
  set (s1 := mk_stream b (buflen s) (current s)).
  assert (stream_ok s1) as Hs1 by (destruct Hs; split; simpl; [by rewrite Hl|done]).
  assert (written s1 = written s) as Hw1 by done.
  destruct (buflen s <=? _) eqn:E.
  - destruct (grow_ok s1 (new_length s1 (Z.of_nat (length text))) (Z.of_nat (length text)) Hs1)
      as [(-> & ?)|(s2 & -> & Hc2 & Hw2 & Hs2 & Hr)]; [lia|by apply new_length_ok; simpl; try lia|by left|].
    right. simpl. destruct (vsnprintf_ok s2 text Hs2) as (b2 & -> & Hl2 & Hb2 & Ht2). simpl.
    eexists. split; [done|]. unfold advance, to_int. simpl. simpl in Hc2. rewrite Hc2 in *. simpl in *.
    rewrite (wrapS_id 32) by lia. destruct Hs2 as [Hs2 Hs2']. split; [split; simpl; lia|].
    unfold written at 1. simpl. rewrite Z2Nat.inj_add, Nat2Z.id by lia. rewrite Ht2 by lia. by rewrite Hw2, Hw1.
  - right. simpl. eexists. split; [done|]. unfold advance, to_int. simpl. rewrite (wrapS_id 32) by lia.
    destruct Hs1 as [Hb1 Hc1]. simpl in *. split; [split; simpl; lia|].
    unfold written at 1. simpl. rewrite Z2Nat.inj_add, Nat2Z.id by lia. by rewrite Ht by lia.
Qed.

Lemma c_string_app bs b : is_cstr bs -> c_string (bs ++ 0 :: b) = bs.
Proof.
  induction 1 as [|c bs Hc _ IH]; [done|]. simpl. replace (c =? 0) with false by lia. by rewrite IH.
Qed.

Lemma reset_stream_ok s :
  stream_ok s -> is_cstr (written s) ->
  exists s', reset_stream s = Done (written s, s') /\ stream_ok s' /\ current s' = 0.
Proof.
  intros [Hb Hc] Hs. unfold reset_stream.
  destruct (write_ok s (current s) [0]) as (b & -> & Hl & Ht); [lia|simpl; lia|]. simpl.
  exists (mk_stream b (buflen s) 0). split; [|split; [split; simpl; lia|done]]. do 2 f_equal.
  rewrite <- (take_drop (Z.to_nat (current s) + 1) b). simpl in Ht. rewrite Ht.
  change (take (Z.to_nat (current s)) (buffer s)) with (written s).
  rewrite <- app_assoc. simpl. by apply c_string_app.
Qed.
End streams.

(** A sequence of additions *)
Inductive addition := AddChar (c : Z) | AddString (s : bytes) | AddFormatted (text : bytes).
Definition added (a : addition) : bytes :=
  match a with AddChar c => [c] | AddString s => s | AddFormatted t => t end.
Definition add_to max allow junk (s : Stream) (a : addition) : outcome Stream :=
  match a with
  | AddChar c => stream_add_char max allow junk s c
  | AddString bs => stream_add_string max allow junk s bs
  | AddFormatted t => stream_printf max allow junk s t
  end.

(** from any state in which the buffer has room for a terminating NUL,
    adding a character, a string or formatted text of less than 2^30 bytes
    never writes outside the buffer: either the bytes follow what was
    written, and there is room for the NUL again, or [stream_too_big] is
    thrown, which happens only when exceptions are enabled and the contents
    would reach the maximum.  Resetting then returns what was written. *)
Theorem stream_correct max allow junk s a
    (Hmax : 0 <= max < 2 ^ 31) (Hs : stream_ok s) (Hsmall : small s (length (added a))) :
  match add_to max allow junk s a with
  | Done s' => stream_ok s' /\ written s' = written s ++ added a /\
      (is_cstr (written s') -> exists s2, reset_stream s' = Done (written s', s2) /\ stream_ok s2 /\ written s2 = [])
  | TooBig => 0 < allow /\ max <= current s + Z.of_nat (length (added a))
  | Crash => False
  end.
Proof.
  assert (appended max allow s (added a) (add_to max allow junk s a)) as H.
  { destruct a; [apply stream_add_char_ok|apply stream_add_string_ok|apply stream_printf_ok]; done. }
  destruct H as [(-> & H)|(s' & -> & Hs' & Hw)]; [done|]. split_and!; [done..|].
  intros Hc. destruct (reset_stream_ok s' Hs' Hc) as (s2 & E & H2 & H0).
  exists s2. split_and!; [done..|]. unfold written. by rewrite H0.
Qed.

Lemma stream_correct_witness :
  match add_to 100 1 7 (new_stream 7 2) (AddFormatted (str "abcdef")) with
  | Done s' => stream_ok s' /\ written s' = written (new_stream 7 2) ++ str "abcdef" /\
      (is_cstr (written s') -> exists s2, reset_stream s' = Done (written s', s2) /\ stream_ok s2 /\ written s2 = [])
  | TooBig => 0 < 1 /\ 100 <= current (new_stream 7 2) + Z.of_nat (length (str "abcdef"))
  | Crash => False
  end.
Proof. apply (stream_correct 100 1 7); [lia|by split|by vm_compute]. Defined.

Example stream_growth :
  match add_to 100 1 7 (new_stream 7 2) (AddString (str "abcdef")) with
  | Done s => buflen s = 7 /\ written s = str "abcdef"
  | _ => False
  end.
Proof. by vm_compute. Qed.
