(* ===== verification/StrUtils.v ===== *)
(** * String utilities (utils.cc)

    Substitution, translation, searching, and the two encodings of raw bytes
    as printable strings.  The streams the functions write to are represented
    by the bytes they hold (see [Streams]). *)
From Stdlib Require Import ZArith Lia.
From stdpp Require Import prelude strings.
From S2P Require Import Prelude CString.

Local Open Scope Z_scope.

(** ** [stream_add_strsub] *)

(** [what] is a prefix of [source], by [strncmp] or [strncasecmp] *)
Definition match_at (case_counts : bool) (source what : bytes) : bool :=
  (if case_counts then strncmp source what (length what) else strncasecmp source what (length what)) =? 0.

(** The loop consumes nothing when [what] is empty and [source] is not. *)
Fixpoint stream_add_strsub (fuel : nat) (str source what with_ : bytes) (case_counts : bool) : option bytes :=
  match fuel, source with
  | _, [] => Some str
  | O, _ => None
  | S fuel, c :: source' =>
    if match_at case_counts source what
    then stream_add_strsub fuel (str ++ with_) (drop (length what) source) what with_ case_counts
    else stream_add_strsub fuel (str ++ [c]) source' what with_ case_counts
  end.

(** ** [strtr] *)

(** [temp] as 128 [char]s; [None] for an access outside it *)
Definition ascii_table : list Z := map Z.of_nat (seq 0 128).
Definition temp_set (temp : list Z) (c x : Z) : option (list Z) :=
  if (0 <=? c) && (c <? 128) then Some (<[Z.to_nat c := x]> temp) else None.

(** [f(to[i])] for [i < to_len], and 0 after the end *)
Definition to_at (f : Z -> Z) (to : bytes) (i : nat) : Z :=
  match to !! i with Some t => f t | None => 0 end.

(** The C library's case mappings on [int]s that a [char] promotes to *)
Definition toupper_char (c : Z) : Z := to_char (toupper (to_char c)).
Definition tolower_char (c : Z) : Z := to_char (tolower (to_char c)).

Fixpoint strtr_table (i : nat) (temp : list Z) (from to : bytes) (case_counts : bool) : option (list Z) :=
  match from with
  | [] => Some temp
  | b :: from' =>
    let c := to_char b in
    match
      (if negb case_counts && isalpha c then
         match temp_set temp (toupper c) (to_at toupper_char to i) with
         | Some temp => temp_set temp (tolower c) (to_at tolower_char to i)
         | None => None
         end
       else temp_set temp c (to_at to_char to i))
    with
    | Some temp => strtr_table (S i) temp from' to case_counts
    | None => None
    end
  end.

Fixpoint strtr_map (temp : list Z) (source : bytes) : option bytes :=
  match source with
  | [] => Some []
  | b :: source' =>
    match temp !! Z.to_nat b with
    | Some c =>
      match strtr_map temp source' with
      | Some r => Some (if 0 <? c then c :: r else r)
      | None => None
      end
    | None => None
    end
  end.

Definition strtr (source from to : bytes) (case_counts : bool) : option bytes :=
  match strtr_table 0 ascii_table from to case_counts with
  | Some temp => strtr_map temp source
  | None => None
  end.

(** ** [strindex] and [strrindex] *)

(** The loop from [s] up to [e], as offsets into [source] *)
Fixpoint index_up (n : nat) (s : nat) (source what : bytes) (case_counts : bool) : Z :=
  match n with
  | O => 0
  | S n => if match_at case_counts (drop s source) what then Z.of_nat s + 1
           else index_up n (S s) source what case_counts
  end.
Fixpoint index_down (n : nat) (source what : bytes) (case_counts : bool) : Z :=
  match n with
  | O => 0
  | S s => if match_at case_counts (drop s source) what then Z.of_nat s + 1
           else index_down s source what case_counts
  end.
(** The number of positions at which [what] fits *)
Definition positions (source what : bytes) : nat := S (length source) - length what.
Definition strindex (source what : bytes) (case_counts : bool) : Z :=
  index_up (positions source what) 0 source what case_counts.
Definition strrindex (source what : bytes) (case_counts : bool) : Z :=
  index_down (positions source what) source what case_counts.

(** ** Raw bytes *)

Definition printable (c : Z) : bool := isgraph c || (c =? 32).

Fixpoint raw_bytes_to_clean (buffer : bytes) : bytes :=
  match buffer with
  | [] => []
  | c :: b => if printable c then c :: raw_bytes_to_clean b else raw_bytes_to_clean b
  end.

(** ["%02X"] of a byte *)
Definition hex_digit (d : Z) : Z := if d <? 10 then 48 + d else 55 + d.
Definition hex_byte (c : Z) : bytes := [126; hex_digit (c / 16); hex_digit (c `mod` 16)].

Fixpoint raw_bytes_to_binary (buffer : bytes) : bytes :=
  match buffer with
  | [] => []
  | c :: b => (if negb (c =? 126) && printable c then [c] else hex_byte c) ++ raw_bytes_to_binary b
  end.

(** The value of a hexadecimal digit, after [toupper]; the NUL at the end of
    the string is not one. *)
Definition hex_value (c : Z) : option Z :=
  let c := toupper c in
  if ((48 <=? c) && (c <=? 57)) || ((65 <=? c) && (c <=? 70))
  then Some (if c <=? 57 then c - 48 else c - 65 + 10) else None.

Fixpoint binary_to_raw_bytes (binary : bytes) : option bytes :=
  match binary with
  | [] => Some []
  | c :: ptr =>
    if negb (c =? 126) then
      match binary_to_raw_bytes ptr with Some r => Some (c :: r) | None => None end
    else
      match ptr with
      | a :: b :: ptr' =>
        match hex_value a, hex_value b with
        | Some x, Some y =>
          match binary_to_raw_bytes ptr' with
          | Some r => Some ((x * 16 + y) `mod` 256 :: r)
          | None => None
          end
        | _, _ => None
        end
      | _ => None
      end
  end.

(** ** Matching at a position *)

Lemma match_at_spec cc source what :
  is_cstr source -> is_cstr what ->
  match_at cc source what = true <->
    (length what <= length source)%nat /\
    (if cc then take (length what) source = what
     else map tolower (take (length what) source) = map tolower what).
Proof.
  intros Hs Hw. unfold match_at.
  assert (is_cstr (take (length what) source)) as Ht by (by apply Forall_take).
  assert (take (length what) what = what) as Ew by (by apply take_ge).
  rewrite Z.eqb_eq. unfold strncmp, strncasecmp, strcmp, strcasecmp. destruct cc; rewrite Ew.
  - rewrite strcmp_by_zero by (done || apply id_byte_map). rewrite !map_id. split; [|naive_solver].
    intros E. split; [|done]. apply (f_equal length) in E. rewrite length_take in E. lia.
  - rewrite strcmp_by_zero by (done || apply tolower_byte_map). split; [|naive_solver].
    intros E. split; [|done]. apply (f_equal length) in E. rewrite !length_map, length_take in E. lia.
Qed.

Lemma match_at_length cc source what :
  is_cstr source -> is_cstr what -> match_at cc source what = true -> (length what <= length source)%nat.
Proof. intros Hs Hw H. by apply match_at_spec in H as [? _]. Qed.

Lemma match_at_short cc s source what :
  is_cstr source -> is_cstr what -> (positions source what <= s)%nat ->
  match_at cc (drop s source) what = true -> (s > length source)%nat.
Proof.
  intros Hs Hw Hp H. apply match_at_length in H; [|by apply Forall_drop|done].
  rewrite length_drop in H. unfold positions in Hp. lia.
Qed.

(** ** Searching *)

(** [what] occurs in [source] at offset [s] *)
Definition occurs_at (cc : bool) (source what : bytes) (s : nat) : Prop :=
  (s <= length source)%nat /\ match_at cc (drop s source) what = true.

Lemma occurs_position cc source what s :
  is_cstr source -> is_cstr what -> occurs_at cc source what s -> (s < positions source what)%nat.
Proof.
  intros Hs Hw [Hl H]. apply match_at_length in H; [|by apply Forall_drop|done].
  rewrite length_drop in H. unfold positions. lia.
Qed.

Lemma index_up_spec cc source what n : forall s,
  (forall k, (s <= k < s + n)%nat -> match_at cc (drop k source) what = false) /\
    index_up n s source what cc = 0 \/
  exists k, (s <= k < s + n)%nat /\ match_at cc (drop k source) what = true /\
    (forall j, (s <= j < k)%nat -> match_at cc (drop j source) what = false) /\
    index_up n s source what cc = Z.of_nat k + 1.
Proof.
  induction n as [|n IH]; intros s; simpl; [left; split; [intros; lia|done]|].
  destruct (match_at cc (drop s source) what) eqn:E.
  - right. exists s. split_and!; [lia|lia|done|intros; lia|done].
  - destruct (IH (S s)) as [[H E2]|(k & Hk & H1 & H2 & E2)].
    + left. split; [|done]. intros k Hk. destruct (decide (k = s)) as [->|]; [done|apply H; lia].
    + right. exists k. split_and!; [lia|lia|done| |done].
      intros j Hj. destruct (decide (j = s)) as [->|]; [done|apply H2; lia].
Qed.

Lemma index_down_spec cc source what n :
  (forall k, (k < n)%nat -> match_at cc (drop k source) what = false) /\
    index_down n source what cc = 0 \/
  exists k, (k < n)%nat /\ match_at cc (drop k source) what = true /\
    (forall j, (k < j < n)%nat -> match_at cc (drop j source) what = false) /\
    index_down n source what cc = Z.of_nat k + 1.
Proof.
  induction n as [|n IH]; simpl; [left; split; [intros; lia|done]|].
  destruct (match_at cc (drop n source) what) eqn:E.
  - right. exists n. split_and!; [lia|done|intros; lia|done].
  - destruct IH as [[H E2]|(k & Hk & H1 & H2 & E2)].
    + left. split; [|done]. intros k Hk. destruct (decide (k = n)) as [->|]; [done|apply H; lia].
    + right. exists k. split_and!; [lia|done| |done].
      intros j Hj. destruct (decide (j = n)) as [->|]; [done|apply H2; lia].
Qed.

(** [strindex] and [strrindex] return the 1-based position of the first
    and of the last occurrence, or 0 when there is none, with or without
    case. *)
Theorem strindex_correct cc source what (Hs : is_cstr source) (Hw : is_cstr what) :
  ((strindex source what cc = 0 /\ strrindex source what cc = 0 /\
      forall k, ~ occurs_at cc source what k) \/
   exists i j, strindex source what cc = Z.of_nat i + 1 /\ strrindex source what cc = Z.of_nat j + 1 /\
     occurs_at cc source what i /\ occurs_at cc source what j /\
     forall k, occurs_at cc source what k -> (i <= k <= j)%nat).
Proof.
  unfold strindex, strrindex.
  pose proof (fun k => occurs_position cc source what k Hs Hw) as Hp.
  destruct (index_up_spec cc source what (positions source what) 0) as [[H1 ->]|(i & Hi & Mi & Fi & ->)];
  destruct (index_down_spec cc source what (positions source what)) as [[H2 ->]|(j & Hj & Mj & Fj & ->)].
  - left. split_and!; [done..|]. intros k Hk. pose proof (Hp k Hk). destruct Hk as [_ Hk].
    by rewrite H1 in Hk by lia.
  - by rewrite H1 in Mj by lia.
  - by rewrite H2 in Mi by lia.
  - right. exists i, j. split_and!; [done|done|..].
    + split; [unfold positions in Hi; lia|done].
    + split; [unfold positions in Hj; lia|done].
    + intros k Hk. pose proof (Hp k Hk). destruct Hk as [_ Hk].
      split; [destruct (decide (i <= k)%nat); [done|]; by rewrite Fi in Hk by lia|].
      destruct (decide (k <= j)%nat); [done|]. by rewrite Fj in Hk by lia.
Qed.

Lemma strindex_correct_witness :
  ((strindex (str "Foobar") (str "O") false = 0 /\ strrindex (str "Foobar") (str "O") false = 0 /\
      forall k, ~ occurs_at false (str "Foobar") (str "O") k) \/
   exists i j, strindex (str "Foobar") (str "O") false = Z.of_nat i + 1 /\
     strrindex (str "Foobar") (str "O") false = Z.of_nat j + 1 /\
     occurs_at false (str "Foobar") (str "O") i /\ occurs_at false (str "Foobar") (str "O") j /\
     forall k, occurs_at false (str "Foobar") (str "O") k -> (i <= k <= j)%nat).
Proof. apply strindex_correct; repeat constructor; vm_compute; done. Defined.

(** ** Substitution *)

Lemma strsub_acc cc what with_ fuel : forall acc source,
  stream_add_strsub fuel acc source what with_ cc =
    match stream_add_strsub fuel [] source what with_ cc with
    | Some r => Some (acc ++ r)
    | None => None
    end.
Proof.
  induction fuel as [|fuel IH]; intros acc [|c source]; simpl; rewrite ?app_nil_r; try done.
  destruct (match_at cc (c :: source) what).
  - rewrite (IH (acc ++ with_)), (IH with_). case_match; [|done]. by rewrite app_assoc.
  - rewrite (IH (acc ++ [c])), (IH [c]). case_match; [|done]. by rewrite <- app_assoc.
Qed.

Lemma strsub_total cc what with_ n : what <> [] -> forall fuel source,
  (length source <= n)%nat -> (length source <= fuel)%nat ->
  exists r, stream_add_strsub n [] source what with_ cc = Some r /\
    stream_add_strsub fuel [] source what with_ cc = Some r.
Proof.
  intros Hw. induction n as [|n IH]; intros [|fuel] [|c source] Hn Hf; simpl in *; try lia; try (by exists []).
  rewrite !(strsub_acc cc what with_ _ (_ :: _)), !(strsub_acc cc what with_ _ with_).
  destruct (match_at cc (c :: source) what).
  - destruct (IH fuel (drop (length what) (c :: source))) as (r & -> & ->);
      [rewrite length_drop; destruct what; simpl in *; try done; lia..|]. by eexists.
  - destruct (IH fuel source) as (r & -> & ->); [lia..|]. by eexists.
Qed.

Lemma strsub_skip cc what with_ fuel k : forall source,
  (k <= length source)%nat ->
  (forall j, (j < k)%nat -> match_at cc (drop j source) what = false) ->
  stream_add_strsub (k + fuel) [] source what with_ cc =
    match stream_add_strsub fuel [] (drop k source) what with_ cc with
    | Some r => Some (take k source ++ r)
    | None => None
    end.
Proof.
  induction k as [|k IH]; intros source Hk H.
  { rewrite drop_0. simpl. by destruct (stream_add_strsub fuel [] source what with_ cc). }
  cbn [Nat.add stream_add_strsub].
  destruct source as [|c source]; simpl in *; [lia|].
  pose proof (H 0%nat ltac:(lia)) as H0. simpl in H0. rewrite H0, strsub_acc.
  rewrite IH by (try lia; intros j Hj; apply (H (S j)); lia).
  cbn [drop take]. by destruct (stream_add_strsub fuel [] (drop k source) what with_ cc).
Qed.

(** [strsub] with a nonempty pattern terminates.  It leaves a string
    without an occurrence alone; otherwise it replaces the first occurrence
    and goes on after it.  With an empty pattern the loop never ends on a
    nonempty string, whatever the fuel. *)
Theorem strsub_correct cc source what with_ fuel
    (Hs : is_cstr source) (Hw : is_cstr what) (Hf : (length source <= fuel)%nat) :
  (what <> [] ->
    if strindex source what cc =? 0 then stream_add_strsub fuel [] source what with_ cc = Some source
    else exists r,
      let i := Z.to_nat (strindex source what cc - 1) in
      stream_add_strsub fuel [] (drop (i + length what) source) what with_ cc = Some r /\
      stream_add_strsub fuel [] source what with_ cc = Some (take i source ++ with_ ++ r)) /\
  (what = [] -> source <> [] -> stream_add_strsub fuel [] source what with_ cc = None).
Proof.
  split.
  - intros Hne. unfold strindex.
    destruct (strsub_total cc what with_ (length source + 0) Hne fuel source) as (r & E1 & E2); [lia..|].
    destruct (index_up_spec cc source what (positions source what) 0) as [[H1 ->]|(i & Hi & Mi & Fi & ->)].
    + rewrite E2, <- E1. simpl. rewrite strsub_skip; [|done|].
      * rewrite drop_ge, take_ge by done. cbn. by rewrite app_nil_r.
      * intros j Hj. destruct (match_at cc (drop j source) what) eqn:E; [|done].
        rewrite <- E. apply H1. split; [lia|]. apply occurs_position with (cc := cc); [done..|split; [lia|done]].
    + replace (Z.of_nat i + 1 =? 0) with false by lia. replace (Z.to_nat (Z.of_nat i + 1 - 1)) with i by lia.
      assert (i < length source)%nat as Hil.
      { assert (is_cstr (drop i source)) as Hc by (by apply Forall_drop).
        apply match_at_length in Mi; [|done..]. rewrite length_drop in Mi.
        destruct what; simpl in *; [done|lia]. }
      destruct (strsub_total cc what with_ (length source - i - 1) Hne fuel (drop (i + length what) source))
        as (r' & E3 & E4); [rewrite length_drop; destruct what; simpl in *; try done; lia..|].
      exists r'. simpl. split; [done|]. rewrite E2, <- E1.
      replace (length source + 0)%nat with (i + S (length source - i - 1))%nat by lia.
      rewrite strsub_skip; [|lia|intros j Hj; apply Fi; lia].
      destruct (drop i source) as [|c rest] eqn:Ed.
      { apply (f_equal length) in Ed. rewrite length_drop in Ed. simpl in Ed. lia. }
      cbn [stream_add_strsub]. rewrite Mi, strsub_acc, <- Ed, drop_drop, E3. done.
  - intros -> Hne. clear Hf. destruct source as [|c source]; [done|].
    assert (match_at cc (c :: source) [] = true) as E by (by destruct cc).
    enough (forall acc, stream_add_strsub fuel acc (c :: source) [] with_ cc = None) as H by apply H.
    induction fuel as [|fuel IH]; intros acc; cbn [stream_add_strsub]; [done|].
    rewrite E. apply IH.
Qed.

Lemma strsub_correct_witness :
  (str "a" <> [] ->
    if strindex (str "banana") (str "a") false =? 0
    then stream_add_strsub 6 [] (str "banana") (str "a") (str "oo") false = Some (str "banana")
    else exists r,
      let i := Z.to_nat (strindex (str "banana") (str "a") false - 1) in
      stream_add_strsub 6 [] (drop (i + length (str "a")) (str "banana")) (str "a") (str "oo") false = Some r /\
      stream_add_strsub 6 [] (str "banana") (str "a") (str "oo") false =
        Some (take i (str "banana") ++ str "oo" ++ r)) /\
  (str "a" = [] -> str "banana" <> [] ->
    stream_add_strsub 6 [] (str "banana") (str "a") (str "oo") false = None).
Proof. apply strsub_correct; [repeat constructor; vm_compute; done..|by vm_compute; lia]. Defined.

(** ** Raw bytes *)

Definition is_bytes (b : bytes) : Prop := Forall (fun c => 0 <= c < 256) b.

Lemma hex_value_digit d : 0 <= d < 16 -> hex_value (hex_digit d) = Some d.
Proof.
  intros Hd. assert (d ∈ map Z.of_nat (seq 0 16)) as Hin.
  { apply list_elem_of_In, in_map_iff. exists (Z.to_nat d). split; [lia|]. apply in_seq. lia. }
  assert (Forall (fun d => hex_value (hex_digit d) = Some d) (map Z.of_nat (seq 0 16))) as H
    by (repeat constructor).
  rewrite Forall_forall in H. by apply H.
Qed.

(** every string of bytes has a binary string of printable characters
    only, from which [binary_to_raw_bytes] recovers it; dropping the
    unprintable bytes also leaves printable characters only, and nothing is
    dropped from a printable string. *)
Theorem raw_bytes_roundtrip b (Hb : is_bytes b) :
  binary_to_raw_bytes (raw_bytes_to_binary b) = Some b /\
  Forall (fun c => printable c = true) (raw_bytes_to_binary b) /\
  Forall (fun c => printable c = true) (raw_bytes_to_clean b) /\
  (Forall (fun c => printable c = true) b -> raw_bytes_to_clean b = b).
Proof.
  assert (forall d, 0 <= d < 16 -> printable (hex_digit d) = true) as Hd.
  { intros d Hd. unfold printable, hex_digit, isgraph. case_match; lia. }
  split_and!.
  - induction Hb as [|c b Hc _ IH]; [done|]. simpl.
    pose proof (Z.div_mod c 16 ltac:(lia)). pose proof (Z.mod_pos_bound c 16 ltac:(lia)).
    destruct (negb (c =? 126) && printable c) eqn:E; simpl.
    + apply andb_true_iff in E as [-> _]. by rewrite IH.
    + rewrite !hex_value_digit, IH by lia. repeat f_equal. rewrite Z.mod_small; lia.
  - induction Hb as [|c b Hc _ IH]; [constructor|]. simpl. apply Forall_app. split; [|done].
    pose proof (Z.mod_pos_bound c 16 ltac:(lia)). pose proof (Z.div_mod c 16 ltac:(lia)).
    destruct (negb (c =? 126) && printable c) eqn:E.
    + apply andb_true_iff in E as [_ E]. by constructor.
    + repeat constructor; apply Hd; lia.
  - clear Hb. induction b as [|c b IH]; simpl; [constructor|]. case_match; [by constructor|done].
  - clear Hb. induction 1 as [|c b Hc _ IH]; simpl; [done|]. by rewrite Hc, IH.
Qed.

Lemma raw_bytes_roundtrip_witness :
  binary_to_raw_bytes (raw_bytes_to_binary [65; 126; 0; 255]) = Some [65; 126; 0; 255] /\
  Forall (fun c => printable c = true) (raw_bytes_to_binary [65; 126; 0; 255]) /\
  Forall (fun c => printable c = true) (raw_bytes_to_clean [65; 126; 0; 255]) /\
  (Forall (fun c => printable c = true) [65; 126; 0; 255] -> raw_bytes_to_clean [65; 126; 0; 255] = [65; 126; 0; 255]).
Proof. apply raw_bytes_roundtrip. repeat constructor; vm_compute; done. Defined.

(** ** Translation *)

(** [f], a character of [from], translates [c]. *)
Definition same_char (case_counts : bool) (f c : Z) : bool :=
  if case_counts then f =? c else tolower f =? tolower c.

(** The last position of [from], counted from [i], that translates [c] *)
Fixpoint last_position (cc : bool) (i : nat) (from : bytes) (c : Z) : option nat :=
  match from with
  | [] => None
  | f :: from' =>
    match last_position cc (S i) from' c with
    | Some j => Some j
    | None => if same_char cc f c then Some i else None
    end
  end.

(** The replacement keeps the case of a letter when case does not count. *)
Definition recase (cc : bool) (c t : Z) : Z :=
  if negb cc && isalpha c then (if isupper c then toupper t else tolower t) else t.
Definition translate (cc : bool) (from to : bytes) (c : Z) : option Z :=
  match last_position cc 0 from c with
  | None => Some c
  | Some i => match to !! i with None => None | Some t => Some (recase cc c t) end
  end.

Definition entry (cc : bool) (to : bytes) (i : nat) (c : Z) : Z :=
  match to !! i with None => 0 | Some t => recase cc c t end.

Lemma to_char_ascii c : 0 <= c < 128 -> to_char c = c.
Proof. intros H. apply wrapS_id; lia. Qed.

Lemma case_ascii c : 0 < c < 128 -> 0 < toupper c < 128 /\ 0 < tolower c < 128.
Proof. intros H. unfold toupper, tolower, islower, isupper. repeat case_match; lia. Qed.

Lemma to_at_ascii to i f g :
  is_ascii to -> (forall t, 0 < t < 128 -> f t = g t) ->
  to_at f to i = match to !! i with None => 0 | Some t => g t end.
Proof.
  intros Ht Hf. unfold to_at. destruct (to !! i) as [t|] eqn:E; [|done]. apply Hf.
  unfold is_ascii in Ht. rewrite Forall_lookup in Ht. by apply (Ht i).
Qed.

Lemma temp_set_ok temp c x :
  length temp = 128%nat -> 0 <= c < 128 ->
  exists temp', temp_set temp c x = Some temp' /\ length temp' = 128%nat /\
    forall d, 0 <= d < 128 -> temp' !! Z.to_nat d = if d =? c then Some x else temp !! Z.to_nat d.
Proof.
  intros Hl Hc. unfold temp_set. replace (_ && _) with true by lia. eexists. split; [done|].
  rewrite length_insert. split; [done|]. intros d Hd. destruct (d =? c) eqn:E.
  - apply Z.eqb_eq in E as ->. apply list_lookup_insert_eq. lia.
  - apply list_lookup_insert_ne. lia.
Qed.

(** One step of the loop that fills the table *)
Lemma table_step cc b i temp to :
  length temp = 128%nat -> 0 < b < 128 -> is_ascii to ->
  exists temp',
    (if negb cc && isalpha (to_char b) then
       match temp_set temp (toupper (to_char b)) (to_at toupper_char to i) with
       | Some temp => temp_set temp (tolower (to_char b)) (to_at tolower_char to i)
       | None => None
       end
     else temp_set temp (to_char b) (to_at to_char to i)) = Some temp' /\
    length temp' = 128%nat /\
    forall c, 0 < c < 128 -> temp' !! Z.to_nat c =
      if same_char cc b c then Some (entry cc to i c) else temp !! Z.to_nat c.
Proof.
  intros Hl Hb Ht. rewrite to_char_ascii by lia. destruct (case_ascii b Hb) as [Hu Hlo].
  rewrite (to_at_ascii to i toupper_char toupper Ht).
  2:{ intros t H. destruct (case_ascii t H). unfold toupper_char. rewrite (to_char_ascii t), to_char_ascii; lia. }
  rewrite (to_at_ascii to i tolower_char tolower Ht).
  2:{ intros t H. destruct (case_ascii t H). unfold tolower_char. rewrite (to_char_ascii t), to_char_ascii; lia. }
  rewrite (to_at_ascii to i to_char (fun t => t) Ht) by (intros t H; apply to_char_ascii; lia).
  destruct (negb cc && isalpha b) eqn:E.
  - apply andb_true_iff in E as [E1 E2]. destruct cc; [done|].
    destruct (temp_set_ok temp (toupper b) (match to !! i with None => 0 | Some t => toupper t end) Hl)
      as (t1 & -> & Hl1 & H1); [lia|].
    destruct (temp_set_ok t1 (tolower b) (match to !! i with None => 0 | Some t => tolower t end) Hl1)
      as (t2 & -> & Hl2 & H2); [lia|].
    exists t2. split_and!; [done..|]. intros c Hc. rewrite H2, H1 by lia.
    unfold same_char, entry, recase, isalpha in *. simpl.
    destruct (isupper c) eqn:Eu; destruct (islower c) eqn:El;
      unfold tolower, toupper, isupper, islower in *; repeat case_match; simpl in *; try lia; try done.
  - destruct (temp_set_ok temp b (match to !! i with None => 0 | Some t => t end) Hl)
      as (t1 & -> & Hl1 & H1); [lia|].
    exists t1. split_and!; [done..|]. intros c Hc. rewrite H1 by lia.
    unfold same_char, entry, recase. destruct cc; simpl in *.
    + by rewrite (Z.eqb_sym b c).
    + assert ((tolower b =? tolower c) = (c =? b)) as ->.
      { unfold isalpha, tolower, isupper, islower in *. repeat case_match; lia. }
      destruct (c =? b) eqn:Ecb; [|done]. apply Z.eqb_eq in Ecb as ->. by rewrite E.
Qed.

Lemma strtr_table_ok cc to : is_ascii to -> forall from i temp,
  is_ascii from -> length temp = 128%nat ->
  exists temp', strtr_table i temp from to cc = Some temp' /\ length temp' = 128%nat /\
    forall c, 0 < c < 128 -> temp' !! Z.to_nat c =
      match last_position cc i from c with
      | Some j => Some (entry cc to j c)
      | None => temp !! Z.to_nat c
      end.
Proof.
  intros Ht. induction from as [|b from IH]; intros i temp Hf Hl; simpl; [by exists temp|].
  apply Forall_cons in Hf as [Hb Hf].
  destruct (table_step cc b i temp to Hl Hb Ht) as (t1 & -> & Hl1 & H1).
  destruct (IH (S i) t1 Hf Hl1) as (t2 & -> & Hl2 & H2). exists t2. split_and!; [done..|].
  intros c Hc. rewrite H2 by done. case_match; [done|]. rewrite H1 by done. by case_match.
Qed.

(** on ASCII strings [strtr] translates each character by its last
    occurrence in [from], and drops it when [to] is too short; when case does
    not count, a letter is translated as the letter of either case and the
    result takes its case.  Any other byte in the source is an access outside
    the table of 128 characters. *)
Theorem strtr_correct cc source from to (Hf : is_ascii from) (Ht : is_ascii to) :
  (is_ascii source -> strtr source from to cc = Some (omap (translate cc from to) source)) /\
  (Exists (fun c => 128 <= c) source -> strtr source from to cc = None).
Proof.
  unfold strtr.
  destruct (strtr_table_ok cc to Ht from 0 ascii_table Hf) as (temp & -> & Hl & H); [done|]. split.
  - induction 1 as [|c source Hc _ IH]; [done|]. simpl. rewrite H, IH by done. unfold translate, entry.
    destruct (last_position cc 0 from c) as [j|].
    + destruct (to !! j) as [t|] eqn:E; [|done].
      assert (0 < t < 128) as Htt by (unfold is_ascii in Ht; rewrite Forall_lookup in Ht; by apply (Ht j)).
      destruct (case_ascii t Htt). replace (0 <? recase cc c t) with true; [done|].
      unfold recase. repeat case_match; lia.
    + unfold ascii_table. rewrite list_lookup_fmap, lookup_seq_lt by lia. simpl.
      rewrite Z2Nat.id by lia. by replace (0 <? c) with true by lia.
  - induction 1 as [c source Hc|c source _ IH]; simpl.
    + rewrite (lookup_ge_None_2 temp) by lia. done.
    + rewrite IH. by case_match.
Qed.

Lemma strtr_correct_witness :
  (is_ascii (str "Hello") ->
    strtr (str "Hello") (str "lo") (str "w") false = Some (omap (translate false (str "lo") (str "w")) (str "Hello"))) /\
  (Exists (fun c => 128 <= c) (str "Hello") -> strtr (str "Hello") (str "lo") (str "w") false = None).
Proof. apply strtr_correct; repeat constructor; vm_compute; done. Defined.
Example strtr_hello : strtr (str "Hello") (str "hlo") (str "jw") false = Some (str "Jeww").
Proof. done. Qed.
