(* ===== verification/Base64.v ===== *)
(** * Base 64 (base64.cc)

    [encode] and [decode] are the loops of [bf_encode_base64] and
    [bf_decode_base64] on raw bytes; the built-ins convert from and to binary
    strings.  The memory limit [stream_alloc_maximum] and the server option
    that says whether exceeding it is catchable are parameters. *)
From Stdlib Require Import ZArith Lia.
From stdpp Require Import prelude strings.
From S2P Require Import Prelude CString Value StrUtils.

Local Open Scope Z_scope.

Definition base64_chars : bytes :=
  str "ABCDEFGHIJKLMNOPQRSTUVWXYZabcdefghijklmnopqrstuvwxyz0123456789+/".
Definition url_safe_base64_chars : bytes :=
  str "ABCDEFGHIJKLMNOPQRSTUVWXYZabcdefghijklmnopqrstuvwxyz0123456789-_".
Definition chars_of (safe : bool) : bytes := if safe then url_safe_base64_chars else base64_chars.
Definition char_at (safe : bool) (i : Z) : Z := nth (Z.to_nat i) (chars_of safe) 0.

Fixpoint encode (safe : bool) (inp : bytes) : bytes :=
  match inp with
  | a :: b :: c :: inp' =>
    [char_at safe (Z.shiftr a 2);
     char_at safe (Z.lor (Z.shiftl (Z.land a 3) 4) (Z.shiftr b 4));
     char_at safe (Z.lor (Z.shiftl (Z.land b 15) 2) (Z.shiftr c 6));
     char_at safe (Z.land c 63)] ++ encode safe inp'
  | [a; b] =>
    [char_at safe (Z.shiftr a 2);
     char_at safe (Z.lor (Z.shiftl (Z.land a 3) 4) (Z.shiftr b 4));
     char_at safe (Z.shiftl (Z.land b 15) 2)] ++ (if safe then [] else [61])
  | [a] =>
    [char_at safe (Z.shiftr a 2); char_at safe (Z.shiftl (Z.land a 3) 4)] ++
    (if safe then [] else [61; 61])
  | [] => []
  end.

Section base64.
Variables (stream_alloc_maximum : Z) (max_concat_catchable : bool).

Definition make_space_pack : package := if max_concat_catchable then PError E_QUOTA else PAbort.

Definition bf_encode_base64 (arg : bytes) (safe : bool) : package :=
  match binary_to_raw_bytes arg with
  | None => PRaise E_INVARG (str "Invalid binary string") (VStr arg)
  | Some inp =>
    if stream_alloc_maximum <? (Z.of_nat (length inp) / 3) * 4 then make_space_pack
    else PVar (VStr (encode safe inp))
  end.

(** The tables, by the runs of their elements *)
Definition table_at (safe : bool) (c : Z) : Z :=
  if (65 <=? c) && (c <=? 90) then c - 65
  else if (97 <=? c) && (c <=? 122) then c - 97 + 26
  else if (48 <=? c) && (c <=? 57) then c - 48 + 52
  else if c =? 61 then 90
  else if safe then (if c =? 45 then 62 else if c =? 95 then 63 else 80)
  else (if c =? 43 then 62 else if c =? 47 then 63 else 80).

(** The first loop: the message of the error, or the number of pads *)
Fixpoint check_input (safe : bool) (inp : bytes) (pad : Z) : bytes + Z :=
  match inp with
  | [] => inr pad
  | tmp :: inp' =>
    if table_at safe tmp =? 80 then inl (str "Invalid character in encoded data")
    else if negb (pad =? 0) && negb (tmp =? 61) then inl (str "Pad character in encoded data")
    else check_input safe inp' (if tmp =? 61 then pad + 1 else pad)
  end.

(** The second loop.  [cells] are the positions that are left: those of the
    input, and then [len % 4] past its end.  [block] and [ar] have four
    elements, all of them written before they are read. *)
Fixpoint decode_loop (safe : bool) (cells : list (option Z)) (i : nat) (block ar : list Z) (buffer : bytes) :
    bytes * list Z :=
  match cells with
  | [] => (buffer, ar)
  | cell :: cells' =>
    let '(b, a) := match cell with Some c => (table_at safe c, c) | None => (0, 61) end in
    let block := <[(i mod 4)%nat := b]> block in
    let ar := <[(i mod 4)%nat := a]> ar in
    let blk k := nth k block 0 in
    let buffer :=
      if (i mod 4 =? 3)%nat then
        buffer ++ [(Z.lor (Z.shiftl (blk 0%nat) 2) (Z.shiftr (blk 1%nat) 4)) `mod` 256;
                   (Z.lor (Z.shiftl (blk 1%nat) 4) (Z.shiftr (blk 2%nat) 2)) `mod` 256;
                   (Z.lor (Z.shiftl (blk 2%nat) 6) (blk 3%nat)) `mod` 256]
      else buffer in
    decode_loop safe cells' (S i) block ar buffer
  end.

Definition decode_cells (inp : bytes) : list (option Z) :=
  map Some inp ++ replicate (length inp mod 4) None.

Definition decode (safe : bool) (inp : bytes) : bytes :=
  let '(out, ar) := decode_loop safe (decode_cells inp) 0 [0; 0; 0; 0] [0; 0; 0; 0] [] in
  let size := Z.of_nat (length out) in
  let size :=
    if size =? 0 then size
    else if nth 2 ar 0 =? 61 then size - 2
    else if nth 3 ar 0 =? 61 then size - 1
    else size in
  take (Z.to_nat size) out.

Definition bf_decode_base64 (arg : bytes) (safe : bool) : package :=
  match check_input safe arg 0 with
  | inl msg => PRaise E_INVARG msg (VStr arg)
  | inr pad =>
    let len := Z.of_nat (length arg) in
    if 2 <? pad then PRaise E_INVARG (str "Too many pad characters") (VStr arg)
    else if (to_uint (len - pad) =? 1) || (negb safe && negb (len `mod` 4 =? 0))
    then PRaise E_INVARG (str "Invalid length") (VStr arg)
    else if stream_alloc_maximum <? (len / 4) * 3 then make_space_pack
    else PVar (VStr (raw_bytes_to_binary (decode safe arg)))
  end.
End base64.

(** ** The alphabet *)

Lemma table_chars safe x : 0 <= x < 64 ->
  table_at safe (char_at safe x) = x /\ char_at safe x <> 61 /\ 0 < char_at safe x < 128.
Proof.
  intros Hx. assert (x ∈ map Z.of_nat (seq 0 64)) as Hin.
  { apply list_elem_of_In, in_map_iff. exists (Z.to_nat x). split; [lia|]. apply in_seq. lia. }
  assert (forall safe, Forall (fun x => table_at safe (char_at safe x) = x /\ char_at safe x <> 61 /\
      0 < char_at safe x < 128) (map Z.of_nat (seq 0 64))) as H.
  { intros []; repeat constructor; vm_compute; done. }
  specialize (H safe). rewrite Forall_forall in H. by apply H.
Qed.

(** ** Bits *)

Lemma lor_low k x y : 0 <= k -> 0 <= x -> 0 <= y < 2 ^ k -> Z.lor (Z.shiftl x k) y = x * 2 ^ k + y.
Proof.
  intros Hk Hx Hy. rewrite <- (Z.shiftl_mul_pow2 x k) by lia.
  assert (Z.land (Z.shiftl x k) y = 0) as E; [|pose proof (Z.add_lor_land (Z.shiftl x k) y); lia].
  apply Z.bits_inj'. intros n Hn. rewrite Z.land_spec, Z.bits_0. destruct (decide (n < k)).
  - by rewrite Z.shiftl_spec_low.
  - rewrite <- (Z.mod_small y (2 ^ k)), Z.mod_pow2_bits_high by lia. apply andb_false_r.
Qed.
Lemma low_bits k x : 0 <= k -> Z.land x (2 ^ k - 1) = x `mod` 2 ^ k.
Proof. intros Hk. rewrite <- Z.land_ones by done. f_equal. rewrite Z.ones_equiv. lia. Qed.

(** The four indices of three bytes *)
Definition sextets (a b c : Z) : list Z :=
  [a / 4; (a mod 4) * 16 + b / 16; (b mod 16) * 4 + c / 64; c mod 64].

Lemma sextet_bits a b c :
  0 <= a < 256 -> 0 <= b < 256 -> 0 <= c < 256 ->
  [Z.shiftr a 2; Z.lor (Z.shiftl (Z.land a 3) 4) (Z.shiftr b 4);
   Z.lor (Z.shiftl (Z.land b 15) 2) (Z.shiftr c 6); Z.land c 63] = sextets a b c /\
  Forall (fun x => 0 <= x < 64) (sextets a b c).
Proof.
  intros Ha Hb Hc. rewrite !Z.shiftr_div_pow2 by lia.
  change 3 with (2 ^ 2 - 1). change 15 with (2 ^ 4 - 1). change 63 with (2 ^ 6 - 1).
  rewrite !low_bits by lia.
  pose proof (Z.div_mod a 4 ltac:(lia)). pose proof (Z.mod_pos_bound a 4 ltac:(lia)).
  pose proof (Z.div_mod b 16 ltac:(lia)). pose proof (Z.mod_pos_bound b 16 ltac:(lia)).
  pose proof (Z.div_mod c 64 ltac:(lia)). pose proof (Z.mod_pos_bound c 64 ltac:(lia)).
  change (2 ^ 2) with 4. change (2 ^ 4) with 16. change (2 ^ 6) with 64.
  rewrite (lor_low 4), (lor_low 2) by (simpl; lia).
  split; [done|]. repeat constructor; lia.
Qed.

(** The three bytes of four indices *)
Definition octets (w x y z : Z) : bytes :=
  [(Z.lor (Z.shiftl w 2) (Z.shiftr x 4)) `mod` 256; (Z.lor (Z.shiftl x 4) (Z.shiftr y 2)) `mod` 256;
   (Z.lor (Z.shiftl y 6) z) `mod` 256].

Lemma octets_sextets a b c y z :
  0 <= a < 256 -> 0 <= b < 256 -> 0 <= c < 256 -> 0 <= y < 256 ->
  let x := (a mod 4) * 16 + b / 16 in let y' := (b mod 16) * 4 + c / 64 in
  octets (a / 4) x y' (c mod 64) = [a; b; c] /\
  (exists o, octets (a / 4) x y' z = a :: b :: o) /\ (exists o, octets (a / 4) x y z = a :: o).
Proof.
  intros Ha Hb Hc Hy x y'. subst x y'. unfold octets. rewrite !Z.shiftr_div_pow2 by lia.
  pose proof (Z.div_mod a 4 ltac:(lia)). pose proof (Z.mod_pos_bound a 4 ltac:(lia)).
  pose proof (Z.div_mod b 16 ltac:(lia)). pose proof (Z.mod_pos_bound b 16 ltac:(lia)).
  pose proof (Z.div_mod c 64 ltac:(lia)). pose proof (Z.mod_pos_bound c 64 ltac:(lia)).
  assert (((a mod 4) * 16 + b / 16) / 2 ^ 4 = a mod 4) as E1.
  { change (2 ^ 4) with 16. rewrite Z.div_add_l, (Z.div_small (b / 16)); lia. }
  assert (((b mod 16) * 4 + c / 64) / 2 ^ 2 = b mod 16) as E2.
  { change (2 ^ 2) with 4. rewrite Z.div_add_l, (Z.div_small (c / 64)); lia. }
  rewrite E1, E2. rewrite (lor_low 2) by (simpl; lia).
  rewrite (lor_low 4 _ (b mod 16)) by (simpl; lia). rewrite (lor_low 6 _ (c mod 64)) by (simpl; lia).
  change (2 ^ 2) with 4. change (2 ^ 4) with 16. change (2 ^ 6) with 64.
  assert ((a / 4 * 4 + a mod 4) mod 256 = a) as -> by (rewrite Z.mod_small; lia).
  assert ((((a mod 4) * 16 + b / 16) * 16 + b mod 16) mod 256 = b) as ->.
  { replace (((a mod 4) * 16 + b / 16) * 16 + b mod 16) with (b + (a mod 4) * 256) by lia.
    rewrite Z.mod_add by lia. apply Z.mod_small. lia. }
  assert ((((b mod 16) * 4 + c / 64) * 64 + c mod 64) mod 256 = c) as ->.
  { replace (((b mod 16) * 4 + c / 64) * 64 + c mod 64) with (c + (b mod 16) * 256) by lia.
    rewrite Z.mod_add by lia. apply Z.mod_small. lia. }
  split_and!; [done|by eexists|by eexists].
Qed.

(** ** Round trip *)

Lemma triples_ind (P : bytes -> Prop) :
  P [] -> (forall a, P [a]) -> (forall a b, P [a; b]) ->
  (forall a b c l, P l -> P (a :: b :: c :: l)) -> forall l, P l.
Proof.
  intros H0 H1 H2 H3. fix IH 1. intros [|a [|b [|c l]]]; [done|apply H1|apply H2|apply H3, IH].
Qed.

(** The encoding by sextets *)
Lemma encode_3 safe a b c inp : 0 <= a < 256 -> 0 <= b < 256 -> 0 <= c < 256 ->
  encode safe (a :: b :: c :: inp) = map (char_at safe) (sextets a b c) ++ encode safe inp.
Proof. intros Ha Hb Hc. destruct (sextet_bits a b c Ha Hb Hc) as [<- _]. done. Qed.
Lemma encode_2 safe a b : 0 <= a < 256 -> 0 <= b < 256 ->
  encode safe [a; b] = map (char_at safe) (take 3 (sextets a b 0)) ++ (if safe then [] else [61]).
Proof.
  intros Ha Hb. destruct (sextet_bits a b 0 Ha Hb) as [<- _]; [lia|]. simpl.
  by rewrite Z.lor_0_r.
Qed.
Lemma encode_1 safe a : 0 <= a < 256 ->
  encode safe [a] = map (char_at safe) (take 2 (sextets a 0 0)) ++ (if safe then [] else [61; 61]).
Proof.
  intros Ha. destruct (sextet_bits a 0 0 Ha) as [<- _]; [lia..|]. simpl. by rewrite Z.lor_0_r.
Qed.

(** The number of bytes in the last, incomplete group *)
Fixpoint rest3 (inp : bytes) : nat :=
  match inp with _ :: _ :: _ :: inp' => rest3 inp' | l => length l end.

Lemma encode_length safe inp :
  (exists q, length (encode safe inp) = 4 * q +
      (if safe then match rest3 inp with 0 => 0 | 1 => 2 | _ => 3 end
       else match rest3 inp with 0 => 0 | _ => 4 end) /\
    length inp = 3 * q + rest3 inp /\ rest3 inp < 3)%nat.
Proof.
  induction inp as [|a|a b|a b c inp (q & E1 & E2 & E3)] using triples_ind.
  - exists 0%nat. destruct safe; simpl; lia.
  - exists 0%nat. destruct safe; simpl; lia.
  - exists 0%nat. destruct safe; simpl; lia.
  - exists (S q). cbn [encode rest3]. rewrite length_app, E1. simpl length. rewrite E2. lia.
Qed.

Lemma check_chars safe l rest :
  Forall (fun x => 0 <= x < 64) l ->
  check_input safe (map (char_at safe) l ++ rest) 0 = check_input safe rest 0.
Proof.
  induction 1 as [|x l Hx _ IH]; [done|]. simpl. destruct (table_chars safe x Hx) as (-> & H61 & _).
  replace (x =? 80) with false by lia. replace (char_at safe x =? 61) with false by lia. apply IH.
Qed.

Definition pads (safe : bool) (inp : bytes) : nat :=
  (if safe then 0 else match rest3 inp with 0 => 0 | 1 => 2 | _ => 1 end)%nat.

Lemma check_encode safe inp :
  is_bytes inp -> check_input safe (encode safe inp) 0 = inr (Z.of_nat (pads safe inp)).
Proof.
  induction inp as [|a|a b|a b c inp IH] using triples_ind; intros H;
    repeat (apply Forall_cons in H as [? H]).
  - by destruct safe.
  - rewrite encode_1, check_chars by (done || apply Forall_take, sextet_bits; lia). by destruct safe.
  - rewrite encode_2, check_chars by (done || apply Forall_take, sextet_bits; lia). by destruct safe.
  - rewrite encode_3, check_chars by (done || apply sextet_bits; lia). rewrite IH by done. by destruct safe.
Qed.

(** Four cells starting at a multiple of four make three bytes. *)
Definition cell_value (safe : bool) (cell : option Z) : Z :=
  match cell with Some c => table_at safe c | None => 0 end.
Definition cell_char (cell : option Z) : Z := match cell with Some c => c | None => 61 end.

Lemma decode_four safe c0 c1 c2 c3 cells k block ar buf :
  length block = 4%nat -> length ar = 4%nat ->
  decode_loop safe (c0 :: c1 :: c2 :: c3 :: cells) (4 * k) block ar buf =
  decode_loop safe cells (4 * S k) (map (cell_value safe) [c0; c1; c2; c3]) (map cell_char [c0; c1; c2; c3])
    (buf ++ octets (cell_value safe c0) (cell_value safe c1) (cell_value safe c2) (cell_value safe c3)).
Proof.
  intros Hb Ha.
  destruct block as [|b0 [|b1 [|b2 [|b3 [|]]]]]; try done. destruct ar as [|a0 [|a1 [|a2 [|a3 [|]]]]]; try done.
  assert (forall j, (j < 4)%nat -> ((4 * k + j) mod 4 = j)%nat) as Hmod.
  { intros j Hj. symmetry. apply (Nat.mod_unique _ _ k); lia. }
  pose proof (Hmod 0%nat ltac:(lia)) as M0. pose proof (Hmod 1%nat ltac:(lia)) as M1.
  pose proof (Hmod 2%nat ltac:(lia)) as M2. pose proof (Hmod 3%nat ltac:(lia)) as M3.
  replace (4 * k + 0)%nat with (4 * k)%nat in M0 by lia.
  replace (4 * k + 1)%nat with (S (4 * k)) in M1 by lia.
  replace (4 * k + 2)%nat with (S (S (4 * k))) in M2 by lia.
  replace (4 * k + 3)%nat with (S (S (S (4 * k)))) in M3 by lia.
  replace (4 * S k)%nat with (S (S (S (S (4 * k))))) by lia.
  cbn [decode_loop]. rewrite M0, M1, M2, M3.
  destruct c0, c1, c2, c3; done.
Qed.

Lemma decode_tail safe cells k block ar buf :
  (length cells < 3)%nat -> length ar = 4%nat ->
  exists ar', decode_loop safe cells (4 * k) block ar buf = (buf, ar') /\
    nth 2 ar' 0 = nth 2 ar 0 /\ nth 3 ar' 0 = nth 3 ar 0.
Proof.
  intros Hc Ha. destruct ar as [|a0 [|a1 [|a2 [|a3 [|]]]]]; try done.
  assert ((4 * k) mod 4 = 0)%nat as M0 by (symmetry; apply (Nat.mod_unique _ _ k); lia).
  assert ((S (4 * k)) mod 4 = 1)%nat as M1 by (symmetry; apply (Nat.mod_unique _ _ k); lia).
  destruct cells as [|[] [|[] [|]]]; simpl in Hc; try lia; cbn [decode_loop]; rewrite ?M0, ?M1;
    simpl; eexists; split_and!; done.
Qed.

(** What the loop leaves: the bytes, then those the pads make *)
Definition padding (ar : list Z) : nat :=
  if nth 2 ar 0 =? 61 then 2%nat else if nth 3 ar 0 =? 61 then 1%nat else 0%nat.

Lemma decode_encode safe inp : is_bytes inp -> forall k block ar buf,
  length block = 4%nat -> length ar = 4%nat -> padding ar = 0%nat ->
  exists g ar', decode_loop safe (map Some (encode safe inp) ++ replicate (length (encode safe inp) mod 4) None)
      (4 * k) block ar buf = (buf ++ inp ++ g, ar') /\ length g = padding ar'.
Proof.
  assert (forall x, 0 <= x < 64 -> table_at safe (char_at safe x) = x) as Ht by (intros; by apply table_chars).
  assert (forall x, 0 <= x < 64 -> char_at safe x =? 61 = false) as H61.
  { intros x Hx. destruct (table_chars safe x Hx) as (_ & ? & _). lia. }
  assert (table_at safe 61 = 90) as T61 by (by destruct safe).
  induction inp as [|a|a b|a b c inp IH] using triples_ind; intros H k block ar buf Hb Ha Hp;
    repeat (apply Forall_cons in H as [? H]).
  - exists [], ar. by rewrite !app_nil_r.
  - rewrite encode_1 by done. destruct (sextet_bits a 0 0) as [_ Hs]; [lia..|].
    do 2 (apply Forall_cons in Hs as [? Hs]).
    assert (map Some (map (char_at safe) (take 2 (sextets a 0 0)) ++ (if safe then [] else [61; 61])) ++
      replicate (length (map (char_at safe) (take 2 (sextets a 0 0)) ++ (if safe then [] else [61; 61])) mod 4) None
      = [Some (char_at safe (a / 4)); Some (char_at safe ((a mod 4) * 16 + 0 / 16))] ++
        (if safe then [None; None] else [Some 61; Some 61])) as -> by (by destruct safe).
    set (y := if safe then 0 else 90).
    destruct (octets_sextets a 0 0 y y) as (_ & _ & o & Ho); [destruct safe; simpl; lia..|].
    exists o, [char_at safe (a / 4); char_at safe ((a mod 4) * 16 + 0 / 16); 61; 61].
    assert (length o = 2%nat) as Hlo by (by apply (f_equal length) in Ho; simplify_eq/=).
    split; [|by rewrite Hlo; destruct safe].
    change ([a] ++ o) with (a :: o). rewrite <- Ho. destruct safe; simpl app; rewrite decode_four by done; cbn [cell_value];
      rewrite !Ht by done; rewrite ?T61; done.
  - rewrite encode_2 by done. destruct (sextet_bits a b 0) as [_ Hs]; [lia..|].
    do 3 (apply Forall_cons in Hs as [? Hs]).
    assert (exists tail, (length tail < 3)%nat /\
      map Some (map (char_at safe) (take 3 (sextets a b 0)) ++ (if safe then [] else [61])) ++
      replicate (length (map (char_at safe) (take 3 (sextets a b 0)) ++ (if safe then [] else [61])) mod 4) None
      = Some (char_at safe (a / 4)) :: Some (char_at safe ((a mod 4) * 16 + b / 16)) ::
        Some (char_at safe ((b mod 16) * 4 + 0 / 64)) :: (if safe then None else Some 61) :: tail)
      as (tail & Hlt & ->).
    { destruct safe; [exists [None; None]|exists []]; split; simpl; try lia; done. }
    set (z := if safe then 0 else 90).
    destruct (octets_sextets a b 0 0 z) as (_ & (o & Ho) & _); [lia..|].
    rewrite decode_four by done.
    destruct (decode_tail safe tail (S k) (map (cell_value safe)
        [Some (char_at safe (a / 4)); Some (char_at safe ((a mod 4) * 16 + b / 16));
         Some (char_at safe ((b mod 16) * 4 + 0 / 64)); if safe then None else Some 61])
      [char_at safe (a / 4); char_at safe ((a mod 4) * 16 + b / 16); char_at safe ((b mod 16) * 4 + 0 / 64); 61]
      (buf ++ a :: b :: o)) as (ar' & E & N2 & N3); [done..|].
    exists o, ar'. assert (length o = 1%nat) as Hlo by (by apply (f_equal length) in Ho; simplify_eq/=).
    split.
    + change ([a; b] ++ o) with (a :: b :: o). rewrite <- E, <- Ho.
      cbn [cell_value]. rewrite !Ht by done.
      replace (cell_value safe (if safe then None else Some 61)) with z by (by destruct safe).
      by destruct safe.
    + unfold padding. rewrite N2, N3. simpl. by rewrite H61, Hlo.
  - rewrite encode_3 by done. destruct (sextet_bits a b c) as [_ Hs]; [lia..|].
    do 4 (apply Forall_cons in Hs as [? Hs]).
    rewrite length_app. simpl length.
    replace ((4 + length (encode safe inp)) mod 4)%nat with (length (encode safe inp) mod 4)%nat.
    2:{ rewrite Nat.add_comm. symmetry. apply (Nat.Div0.mod_add _ 1 4). }
    simpl map. simpl app. rewrite decode_four by done. cbn [cell_value]. rewrite !Ht by done.
    destruct (octets_sextets a b c 0 0) as (-> & _ & _); [lia..|].
    destruct (IH H (S k) (map (cell_value safe) [Some (char_at safe (a / 4)); Some (char_at safe ((a mod 4) * 16 + b / 16));
         Some (char_at safe ((b mod 16) * 4 + c / 64)); Some (char_at safe (c mod 64))])
       [char_at safe (a / 4); char_at safe ((a mod 4) * 16 + b / 16); char_at safe ((b mod 16) * 4 + c / 64);
        char_at safe (c mod 64)] (buf ++ [a; b; c])) as (g & ar' & E & Hg); [done..| |].
    { unfold padding. simpl. by rewrite !H61. }
    exists g, ar'. split; [|done]. cbn [map] in E. rewrite <- app_assoc in E. exact E.
Qed.

Lemma binary_bytes n : forall arg raw, (length arg <= n)%nat -> is_cstr arg ->
  binary_to_raw_bytes arg = Some raw -> is_bytes raw.
Proof.
  induction n as [|n IH]; intros [|c arg] raw Hn Hc; simpl in *; try lia; try (by intros [= <-]; constructor).
  apply Forall_cons in Hc as [Hc Hs]. case_match.
  - destruct (binary_to_raw_bytes arg) as [r|] eqn:E; [|done]. intros [= <-].
    constructor; [lia|]. eapply IH; [|done..]. lia.
  - destruct arg as [|a [|b arg]]; try done. case_match; [|done]. case_match; [|done]. simpl in *.
    destruct (binary_to_raw_bytes arg) as [r|] eqn:E; [|done]. intros [= <-].
    constructor; [apply Z.mod_pos_bound; lia|]. apply Forall_cons in Hs as [_ Hs]. apply Forall_cons in Hs as [_ Hs].
    eapply IH; [|done..]. lia.
Qed.

(** C40: decoding what [encode_base64] returns gives back the encoded bytes
    (as a binary string), in both alphabets, as long as the memory limit
    leaves room for one more group. *)
Theorem base64_roundtrip max catchable arg raw safe
    (Harg : is_cstr arg) (Hraw : binary_to_raw_bytes arg = Some raw)
    (Hroom : (Z.of_nat (length raw) / 3) * 4 + 4 <= max < 2 ^ 31) :
  exists e, bf_encode_base64 max catchable arg safe = PVar (VStr e) /\
    bf_decode_base64 max catchable e safe = PVar (VStr (raw_bytes_to_binary raw)).
Proof.
  exists (encode safe raw). pose proof (binary_bytes _ arg raw (le_n _) Harg Hraw) as Hb.
  unfold bf_encode_base64, bf_decode_base64. rewrite Hraw. replace (_ <? _) with false by lia. split; [done|].
  rewrite check_encode by done. destruct (encode_length safe raw) as (q & E1 & E2 & E3).
  assert (Z.of_nat (length raw) / 3 = Z.of_nat q) as Eq.
  { rewrite E2. symmetry. apply (Z.div_unique _ _ _ (Z.of_nat (rest3 raw))); lia. }
  assert (exists r, Z.of_nat (length (encode safe raw)) = 4 * Z.of_nat q + r /\ 0 <= r <= 4 /\
    (safe = false -> r = 0 \/ r = 4) /\ (q = 0%nat -> r <> 1) /\ r - Z.of_nat (pads safe raw) <> 1 /\
    0 <= Z.of_nat (pads safe raw) <= 2 /\ (Z.of_nat (pads safe raw) <= r)) as (r & El & Hr & Hs & H0 & Hp & Hp2 & Hp3).
  { unfold pads. exists (Z.of_nat (length (encode safe raw)) - 4 * Z.of_nat q).
    destruct safe; destruct (rest3 raw) as [|[|[|]]]; split_and!; lia. }
  assert ((Z.of_nat (length (encode safe raw)) / 4) * 3 <= max) as Hm.
  { assert (Z.of_nat (length (encode safe raw)) / 4 <= Z.of_nat q + 1); [|lia].
    apply Z.div_le_upper_bound; lia. }
  replace (2 <? _) with false by lia.
  replace (to_uint _ =? 1) with false.
  2:{ unfold to_uint. rewrite wrapU_id by lia. destruct q; simpl in *; lia. }
  replace (negb safe && _) with false.
  2:{ destruct safe; [done|]. simpl. rewrite El. destruct (Hs eq_refl) as [-> | ->].
      - rewrite Z.add_0_r, Z.mul_comm, Z.mod_mul by lia. done.
      - replace (4 * Z.of_nat q + 4) with ((Z.of_nat q + 1) * 4) by lia. by rewrite Z.mod_mul. }
  replace (_ <? _) with false by lia. simpl. do 3 f_equal.
  unfold decode, decode_cells.
  destruct (decode_encode safe raw Hb 0 [0; 0; 0; 0] [0; 0; 0; 0] []) as (g & ar & E & Hg); [done..|].
  change (4 * 0)%nat with 0%nat in E. rewrite E. clear E. simpl app. set (size := Z.of_nat (length (raw ++ g))).
  assert (size = Z.of_nat (length raw + length g)) as Hsize by (unfold size; by rewrite length_app).
  replace (Z.to_nat _) with (length raw); [apply take_app_length|].
  unfold padding in Hg. destruct (size =? 0) eqn:E0; [lia|]. repeat case_match; lia.
Qed.

Lemma base64_roundtrip_witness :
  exists e, bf_encode_base64 100 true (str "Hi~FF") true = PVar (VStr e) /\
    bf_decode_base64 100 true e true = PVar (VStr (raw_bytes_to_binary [72; 105; 255])).
Proof.
  apply (base64_roundtrip 100 true (str "Hi~FF") [72; 105; 255] true);
    [repeat constructor; vm_compute; done|done|by vm_compute].
Defined.
Example base64_padded : bf_encode_base64 100 true (str "Hi~FF!") false = PVar (VStr (str "SGn/IQ==")).
Proof. done. Qed.

(** In the URL-safe alphabet the length is not checked modulo four: a lone
    character after the last group is dropped. *)
Example base64_dropped : bf_decode_base64 100 true (str "QUJDR") true = PVar (VStr (str "ABC")).
Proof. done. Qed.
