(* ===== verification/SymTable.v ===== *)
(** * Variable names of a program (sym_table.cc)

    A [Names] is an array of [max_size] cells, the first [size] of which hold
    names; a name's index is the number of its variable in the environment. *)
From Stdlib Require Import ZArith Lia.
From stdpp Require Import prelude strings.
From S2P Require Import Prelude CString.

Local Open Scope Z_scope.

Record Names := mk_names { max_size : Z; size : Z; names : list (option bytes) }.

#[export] Instance Names_eq_dec : EqDecision Names.
Proof. solve_decision. Defined.

Definition new_names (max : Z) : Names := mk_names max 0 (replicate (Z.to_nat max) None).

(** [names[i]] and [names[i] = x], within the array *)
Definition get_name (n : Names) (i : nat) : option bytes :=
  match names n !! i with Some (Some s) => Some s | _ => None end.
Definition set_name (n : Names) (i : nat) (s : bytes) : option Names :=
  match names n !! i with
  | Some _ => Some (mk_names (max_size n) (size n) (<[i := Some s]> (names n)))
  | None => None
  end.

(** [for (i = 0; i < count; i++) _new->names[i] = old->names[i]], [n] more *)
Fixpoint copy_loop (n : nat) (i : nat) (old new : Names) : option Names :=
  match n with
  | O => Some new
  | S n =>
    match get_name old i with
    | Some s => match set_name new i s with Some new => copy_loop n (S i) old new | None => None end
    | None => None
    end
  end.

Definition copy_names (old : Names) : option Names :=
  let new := new_names (size old) in
  copy_loop (Z.to_nat (size old)) 0 old (mk_names (max_size new) (size old) (names new)).

(** [for (i = 0; i < names->size; i++) if (!strcasecmp(names->names[i], str))]:
    the index, or [None] at the end; no result for a cell without a name *)
Fixpoint find_loop (n : nat) (i : nat) (t : Names) (s : bytes) : option (option nat) :=
  match n with
  | O => Some None
  | S n =>
    match get_name t i with
    | Some x => if strcasecmp x s =? 0 then Some (Some i) else find_loop n (S i) t s
    | None => None
    end
  end.

Definition find_name (t : Names) (s : bytes) : option Z :=
  match find_loop (Z.to_nat (size t)) 0 t s with
  | Some (Some i) => Some (Z.of_nat i)
  | Some None => Some (-1)
  | None => None
  end.

Definition find_or_add_name (t : Names) (s : bytes) : option (Z * Names) :=
  match find_loop (Z.to_nat (size t)) 0 t s with
  | None => None
  | Some (Some i) => Some (Z.of_nat i, t)
  | Some None =>
    match
      (if size t =? max_size t then
         let old_max := max_size t in
         let new := new_names (to_uint (old_max * 2)) in
         match copy_loop (Z.to_nat old_max) 0 t new with
         | Some new => Some (mk_names (max_size new) old_max (names new))
         | None => None
         end
       else Some t)
    with
    | Some t =>
      match set_name t (Z.to_nat (size t)) s with
      | Some t => Some (size t, mk_names (max_size t) (to_uint (size t + 1)) (names t))
      | None => None
      end
    | None => None
    end
  end.

(** ** The built-in variables *)

(** [DB_Version]: the database formats that added variables *)
Definition DBV_Float := 3.
Definition DBV_Map := 7.
Definition DBV_Anon := 13.
Definition DBV_Waif := 14.
Definition DBV_Bool := 17.
Definition Num_DB_Versions := 18.

Definition first_user_slot (version : Z) : Z :=
  let count := 16 in
  let count := if DBV_Float <=? version then count + 2 else count in
  let count := if DBV_Map <=? version then count + 1 else count in
  let count := if DBV_Anon <=? version then count + 1 else count in
  let count := if DBV_Waif <=? version then count + 1 else count in
  if DBV_Bool <=? version then count + 3 else count.

Fixpoint set_names (t : Names) (l : list (nat * bytes)) : option Names :=
  match l with
  | [] => Some t
  | (i, s) :: l' => match set_name t i s with Some t => set_names t l' | None => None end
  end.

(** The slots and names of [new_builtin_names], each guarded by a version *)
Definition builtin_slots (version : Z) : list (nat * bytes) :=
  [(0%nat, str "NUM"); (1%nat, str "OBJ"); (2%nat, str "STR"); (3%nat, str "LIST"); (4%nat, str "ERR");
   (5%nat, str "player"); (6%nat, str "this"); (7%nat, str "caller"); (8%nat, str "verb");
   (9%nat, str "args"); (10%nat, str "argstr"); (11%nat, str "dobj"); (12%nat, str "dobjstr");
   (13%nat, str "prepstr"); (14%nat, str "iobj"); (15%nat, str "iobjstr")] ++
  (if DBV_Float <=? version then [(16%nat, str "INT"); (17%nat, str "FLOAT")] else []) ++
  (if DBV_Map <=? version then [(18%nat, str "MAP")] else []) ++
  (if DBV_Anon <=? version then [(19%nat, str "ANON")] else []) ++
  (if DBV_Waif <=? version then [(20%nat, str "WAIF")] else []) ++
  (if DBV_Bool <=? version then [(21%nat, str "BOOL"); (22%nat, str "true"); (23%nat, str "false")] else []).

Definition new_builtin_names (version : Z) : option Names :=
  let bi := new_names (first_user_slot version) in
  match set_names (mk_names (max_size bi) (max_size bi) (names bi)) (builtin_slots version) with
  | Some bi => copy_names bi
  | None => None
  end.

(** ** The table *)

(** The two names are the same variable. *)
Definition same_name (a b : bytes) : Prop := map tolower a = map tolower b.
#[export] Instance same_name_dec a b : Decision (same_name a b).
Proof. unfold same_name. apply _. Defined.

(** The cells below [size] hold distinct names. *)
Record names_ok (t : Names) : Prop := {
  no_length : Z.of_nat (length (names t)) = max_size t;
  no_size : 0 <= size t <= max_size t;
  no_max : 0 < max_size t;
  no_named : forall i, Z.of_nat i < size t -> exists s, get_name t i = Some s /\ is_cstr s;
  no_distinct : forall i j a b, Z.of_nat i < size t -> Z.of_nat j < size t ->
    get_name t i = Some a -> get_name t j = Some b -> same_name a b -> i = j }.

Lemma strcasecmp_same a b : is_cstr a -> is_cstr b -> (strcasecmp a b =? 0) = bool_decide (same_name a b).
Proof.
  intros Ha Hb. pose proof (strcmp_by_zero tolower tolower_byte_map a b Ha Hb) as H. unfold strcasecmp.
  case_bool_decide as D; unfold same_name in D; [|]; destruct (strcmp_by tolower a b =? 0) eqn:E; try done;
    [apply H in D; lia|apply Z.eqb_eq in E; by apply H in E].
Qed.

Lemma find_loop_ok t s : names_ok t -> is_cstr s -> forall n i,
  Z.of_nat (i + n) = size t ->
  exists r, find_loop n i t s = Some r /\
    match r with
    | Some j => (i <= j)%nat /\ Z.of_nat j < size t /\ exists x, get_name t j = Some x /\ same_name x s
    | None => forall j x, (i <= j)%nat -> Z.of_nat j < size t -> get_name t j = Some x -> ~ same_name x s
    end.
Proof.
  intros Ht Hs. induction n as [|n IH]; intros i Hi; simpl; [exists None; split; [done|intros; lia]|].
  destruct (no_named t Ht i) as (x & Hx & Hcx); [lia|]. rewrite Hx, strcasecmp_same by done.
  case_bool_decide as D.
  - exists (Some i). split; [done|]. split_and!; [lia|lia|by exists x].
  - destruct (IH (S i)) as (r & -> & Hr); [lia|]. exists r. split; [done|]. destruct r as [j|].
    + destruct Hr as (? & ? & ?). split_and!; [lia|done..].
    + intros j y Hj1 Hj2 Hy. destruct (decide (j = i)) as [->|]; [by simplify_eq|]. apply (Hr j y); [lia|done..].
Qed.

Lemma get_name_set t i s j t' :
  set_name t i s = Some t' ->
  get_name t' j = (if decide (j = i) then Some s else get_name t j) /\
  max_size t' = max_size t /\ size t' = size t /\ length (names t') = length (names t).
Proof.
  unfold set_name. destruct (names t !! i) as [x|] eqn:E; [|done]. intros [= <-]. unfold get_name. simpl.
  split_and!; [|done|done|apply length_insert]. case_decide as D.
  - subst. by rewrite list_lookup_insert_eq by (by eapply lookup_lt_Some).
  - by rewrite list_lookup_insert_ne.
Qed.
Lemma set_name_total t i s : (i < length (names t))%nat -> exists t', set_name t i s = Some t'.
Proof.
  intros Hi. unfold set_name. destruct (lookup_lt_is_Some_2 (names t) i Hi) as [x ->]. by eexists.
Qed.

Lemma copy_loop_ok old : forall n i new,
  (forall j, (i <= j < i + n)%nat -> exists s, get_name old j = Some s) -> (i + n <= length (names new))%nat ->
  exists new', copy_loop n i old new = Some new' /\
    max_size new' = max_size new /\ size new' = size new /\ length (names new') = length (names new) /\
    forall j, get_name new' j = if decide (i <= j < i + n)%nat then get_name old j else get_name new j.
Proof.
  induction n as [|n IH]; intros i new Hold Hl; simpl.
  { exists new. split_and!; try done. intros j. by rewrite decide_False by lia. }
  destruct (Hold i) as (s & Hs); [lia|]. rewrite Hs.
  destruct (set_name_total new i s) as (new1 & E1); [lia|]. rewrite E1.
  destruct (get_name_set new i s 0%nat new1 E1) as (_ & M1 & S1 & L1).
  destruct (IH (S i) new1) as (new' & -> & M2 & S2 & L2 & H2); [intros; apply Hold; lia|lia|].
  exists new'. split_and!; [done|congruence|congruence|congruence|].
  intros j. rewrite H2. destruct (get_name_set new i s j new1 E1) as (G & _). rewrite G.
  destruct (decide (j = i)) as [->|]; [rewrite decide_False, decide_True by lia; done|].
  repeat case_decide; try lia; done.
Qed.

(** The table with room for one more name *)
Lemma enlarge_ok t :
  names_ok t -> max_size t < 2 ^ 31 ->
  exists t1,
    (if size t =? max_size t then
       match copy_loop (Z.to_nat (max_size t)) 0 t (new_names (to_uint (max_size t * 2))) with
       | Some new => Some (mk_names (max_size new) (max_size t) (names new))
       | None => None
       end
     else Some t) = Some t1 /\
    size t1 = size t /\ size t1 < max_size t1 /\ Z.of_nat (length (names t1)) = max_size t1 /\
    forall j, Z.of_nat j < size t -> get_name t1 j = get_name t j.
Proof.
  intros Ht Hmax. pose proof (no_size t Ht). pose proof (no_max t Ht). pose proof (no_length t Ht).
  destruct (size t =? max_size t) eqn:E; [|exists t; split_and!; [done|done|lia|done|done]].
  unfold to_uint. rewrite wrapU_id by lia.
  destruct (copy_loop_ok t (Z.to_nat (max_size t)) 0 (new_names (max_size t * 2))) as (n1 & -> & M & S1 & L & G).
  - intros j Hj. destruct (no_named t Ht j) as (s & Hs & _); [lia|]. by exists s.
  - simpl. rewrite length_replicate. lia.
  - simpl in *. rewrite length_replicate in L. eexists. split; [done|]. simpl. split_and!; [lia|lia|lia|].
    intros j Hj. unfold get_name in *. simpl. rewrite G. by rewrite decide_True by lia.
Qed.

(** [find_or_add_name] keeps the names distinct up to case and the array
    large enough.  It returns the index of the name: that of the name already
    in the table, which it leaves alone, or the next free one.  The names
    that were in the table keep their indices, and looking the name up again,
    in either way, gives the same index and changes nothing. *)
Theorem find_or_add_name_correct t s (Ht : names_ok t) (Hs : is_cstr s) (Hmax : max_size t < 2 ^ 30) :
  exists i t', find_or_add_name t s = Some (i, t') /\ names_ok t' /\
    (exists x, get_name t' (Z.to_nat i) = Some x /\ same_name x s) /\
    (forall j, Z.of_nat j < size t -> get_name t' j = get_name t j) /\
    size t' = (if bool_decide (find_name t s = Some (-1)) then size t + 1 else size t) /\
    find_name t' s = Some i /\ find_or_add_name t' s = Some (i, t').
Proof.
  assert (forall u, names_ok u -> forall i x, Z.of_nat i < size u -> get_name u i = Some x -> same_name x s ->
    find_loop (Z.to_nat (size u)) 0 u s = Some (Some i)) as Hfound.
  { intros u Hu i x Hi Hx Hxs. pose proof (no_size u Hu).
    destruct (find_loop_ok u s Hu Hs (Z.to_nat (size u)) 0) as (r & -> & Hr); [lia|].
    destruct r as [j|]; [|by destruct (Hr i x ltac:(lia) Hi Hx)].
    destruct Hr as (_ & Hj & y & Hy & Hys). do 2 f_equal.
    apply (no_distinct u Hu j i y x); try done. unfold same_name in *. congruence. }
  pose proof (no_size t Ht) as Hsz.
  destruct (find_loop_ok t s Ht Hs (Z.to_nat (size t)) 0) as (r & E & Hr); [lia|].
  unfold find_or_add_name, find_name. rewrite E. destruct r as [i|].
  - destruct Hr as (_ & Hi & x & Hx & Hxs). exists (Z.of_nat i), t. rewrite Nat2Z.id, E.
    split_and!; try done; [by exists x|]. rewrite bool_decide_false by (intros [=]; lia). done.
  - destruct (enlarge_ok t Ht) as (t1 & -> & Hs1 & Hlt & Hl1 & G1); [lia|].
    destruct (set_name_total t1 (Z.to_nat (size t1)) s) as (t2 & E2); [lia|]. rewrite E2.
    pose proof (fun j => get_name_set t1 (Z.to_nat (size t1)) s j t2 E2) as G2.
    destruct (G2 0%nat) as (_ & M2 & S2 & L2).
    unfold to_uint. rewrite wrapU_id by (rewrite S2, Hs1; lia).
    set (t' := mk_names (max_size t2) (size t2 + 1) (names t2)).
    assert (forall j, get_name t' j = if decide (j = Z.to_nat (size t)) then Some s else get_name t1 j) as G'.
    { intros j. change (get_name t' j) with (get_name t2 j). destruct (G2 j) as [-> _]. by rewrite Hs1. }
    assert (names_ok t') as Ht'.
    { split; simpl; try lia.
      - intros j Hj. rewrite G'. case_decide as D; [by exists s|]. rewrite G1 by lia. apply (no_named t Ht). lia.
      - intros j1 j2 a b H1 H2. rewrite !G'. intros Ha Hb Hab.
        destruct (decide (j1 = Z.to_nat (size t))) as [->|], (decide (j2 = Z.to_nat (size t))) as [->|];
          try done; simplify_eq/=.
        + rewrite G1 in Hb by lia. destruct (Hr j2 b ltac:(lia) ltac:(lia) Hb). unfold same_name in *. congruence.
        + rewrite G1 in Ha by lia. by destruct (Hr j1 a ltac:(lia) ltac:(lia) Ha).
        + rewrite G1 in Ha, Hb by lia. apply (no_distinct t Ht j1 j2 a b); try done; lia. }
    assert (find_loop (Z.to_nat (size t')) 0 t' s = Some (Some (Z.to_nat (size t)))) as Ef.
    { apply (Hfound t' Ht' _ s); [simpl; lia| |done]. by rewrite G', decide_True. }
    exists (size t2), t'. rewrite Ef, bool_decide_true by done.
    rewrite S2, Hs1, Z2Nat.id by lia. split_and!; try done.
    + exists s. by rewrite G', decide_True.
    + intros j Hj. rewrite G', decide_False by lia. by apply G1.
    + simpl. lia.
Qed.

Definition ex_names : Names := mk_names 1 1 [Some (str "x")].
Lemma ex_names_ok : names_ok ex_names.
Proof.
  split; simpl; try lia.
  - intros [|i] Hi; [|lia]. exists (str "x"). split; [done|]. repeat constructor; vm_compute; done.
Qed.

Lemma find_or_add_name_correct_witness :
  exists i t', find_or_add_name ex_names (str "Y") = Some (i, t') /\ names_ok t' /\
    (exists x, get_name t' (Z.to_nat i) = Some x /\ same_name x (str "Y")) /\
    (forall j, Z.of_nat j < 1 -> get_name t' j = get_name ex_names j) /\
    size t' = 2 /\ find_name t' (str "Y") = Some i /\ find_or_add_name t' (str "Y") = Some (i, t').
Proof.
  apply (find_or_add_name_correct ex_names (str "Y") ex_names_ok);
    [repeat constructor; vm_compute; done|done].
Defined.

(** ** The built-in names *)

Definition names_table (version : Z) : Names :=
  mk_names (first_user_slot version) (first_user_slot version) ((fun x => Some (snd x)) <$> builtin_slots version).

(** for every database version [new_builtin_names] fills all the slots
    it counts, in order, with distinct names. *)
Theorem new_builtin_names_correct version (Hv : 0 <= version < Num_DB_Versions) :
  new_builtin_names version = Some (names_table version) /\ names_ok (names_table version) /\
  forall k s, builtin_slots version !! k = Some s -> fst s = k.
Proof.
  assert (version ∈ map Z.of_nat (seq 0 18)) as Hin.
  { apply list_elem_of_In, in_map_iff. exists (Z.to_nat version). unfold Num_DB_Versions in Hv.
    split; [lia|]. apply in_seq. lia. }
  assert (Forall (fun v => new_builtin_names v = Some (names_table v) /\
    Z.of_nat (length (builtin_slots v)) = first_user_slot v /\
    NoDup ((fun x => map tolower (snd x)) <$> builtin_slots v) /\
    Forall (fun x => is_cstr (snd x)) (builtin_slots v) /\
    fst <$> builtin_slots v = seq 0 (length (builtin_slots v))) (map Z.of_nat (seq 0 18))) as H.
  { unfold is_cstr. by apply (bool_decide_unpack _); vm_compute. }
  rewrite Forall_forall in H. destruct (H version Hin) as (H1 & H2 & H3 & H4 & H5). split_and!; [done| |].
  - assert (0 < first_user_slot version) as Hpos by (rewrite <- H2; simpl; lia).
    assert (forall i, get_name (names_table version) i = option_map snd (builtin_slots version !! i)) as G.
    { intros i. unfold get_name, names_table. cbn [names]. rewrite list_lookup_fmap.
      by destruct (builtin_slots version !! i). }
    split; unfold names_table; cbn [names max_size size]; rewrite ?length_fmap; try lia; fold (names_table version).
    + intros i Hi. rewrite G. destruct (lookup_lt_is_Some_2 (builtin_slots version) i) as [x Hx]; [lia|].
      rewrite Hx. exists (snd x). split; [done|]. rewrite Forall_lookup in H4. by apply (H4 i).
    + intros i j a b _ _. rewrite !G. destruct (builtin_slots version !! i) as [x|] eqn:Ex; [|done].
      destruct (builtin_slots version !! j) as [y|] eqn:Ey; [|done]. intros [= <-] [= <-] E.
      apply (NoDup_lookup _ i j (map tolower (snd x)) H3); rewrite list_lookup_fmap, ?Ex, ?Ey; simpl; [done|].
      unfold same_name in E. congruence.
  - intros k s Hs. assert ((fst <$> builtin_slots version) !! k = Some (fst s)) as E.
    { rewrite list_lookup_fmap, Hs. done. }
    rewrite H5 in E. apply lookup_seq in E as [? _]. lia.
Qed.

Lemma new_builtin_names_correct_witness :
  new_builtin_names 17 = Some (names_table 17) /\ names_ok (names_table 17) /\
  forall k s, builtin_slots 17 !! k = Some s -> fst s = k.
Proof. apply new_builtin_names_correct. vm_compute. done. Defined.
