(* ===== verification/ListCode.v ===== *)
(** * List values of list.cc: reference-counted arrays

    A value in memory ([rval]) is the address of a list object, or an atom:
    a value of any other type, by content.  A list object is its cells and
    its reference count; a cell that [new_list] has not filled is [None].
    Each definition transcribes one function of [src/src/list.cc] or
    [src/src/collection.cc].  The counts of strings and maps, the colours and
    buffers of the cycle collector and the memoised byte size are not
    modelled. *)
From Stdlib Require Import ZArith Lia.
From stdpp Require Import prelude gmap.
From S2P Require Import Prelude CString Value.

Local Open Scope Z_scope.
Local Open Scope moo_scope.

Inductive rval := RAtom (a : Var) | RList (l : loc).
#[export] Instance rval_inhabited : Inhabited rval := populate (RAtom VNone).

Abbreviation cells := (list (option rval)) (only parsing).

(** [emptylist] is the shared empty list, once it is allocated. *)
Record lstore := mk_lstore { heap : gmap loc (cells * Z); emptylist : option loc }.

Definition get_list (l : loc) : M lstore (cells * Z) := fun s =>
  match heap s !! l with Some o => Some (o, s) | None => None end.
Definition put_list (l : loc) (o : cells * Z) : M lstore unit := fun s =>
  match heap s !! l with
  | Some _ => Some (tt, mk_lstore (<[l := o]> (heap s)) (emptylist s))
  | None => None
  end.
Definition release (l : loc) : M lstore unit := fun s =>
  Some (tt, mk_lstore (delete l (heap s)) (emptylist s)).
Definition alloc (o : cells * Z) : M lstore loc := fun s =>
  let l := fresh (dom (heap s)) in Some (l, mk_lstore (<[l := o]> (heap s)) (emptylist s)).
Definition is_emptylist (l : loc) : M lstore bool := fun s =>
  Some (bool_decide (emptylist s = Some l), s).

(** [list.v.list[0].v.num], [list.v.list[i]] and its assignment *)
Definition list_len (l : loc) : M lstore nat := let! o := get_list l in mreturn (length (fst o)).
Definition read_cell (l : loc) (i : Z) : M lstore rval :=
  let! o := get_list l in
  if 1 <=? i then
    match fst o !! Z.to_nat (i - 1) with Some (Some v) => mreturn v | _ => mfail end
  else mfail.
Definition write_cell (l : loc) (i : Z) (v : rval) : M lstore unit :=
  let! o := get_list l in
  if (1 <=? i) && (i <=? Z.of_nat (length (fst o)))
  then put_list l (<[Z.to_nat (i - 1) := Some v]> (fst o), snd o) else mfail.

(** ** Reference counts *)

Definition addref (l : loc) : M lstore unit :=
  let! o := get_list l in put_list l (fst o, snd o + 1).
Definition var_ref (v : rval) : M lstore rval :=
  match v with RAtom _ => mreturn v | RList l => addref l ;; mreturn v end.
Definition var_refcount (l : loc) : M lstore Z := let! o := get_list l in mreturn (snd o).

(** [free_var], with [destroy_list]: the cases of a list and of a value without
    a count.  A list whose count stays above 0 becomes a possible root of the
    cycle collector ([GcCode.gc_possible_root]), which changes no count and no
    cell and is left out here. *)
Fixpoint free_var (fuel : nat) (v : rval) : M lstore unit :=
  match v with
  | RAtom _ => mreturn tt
  | RList l =>
    match fuel with
    | O => mfail
    | S fuel =>
      let! e := is_emptylist l in
      if e : bool then mreturn tt
      else
        let! o := get_list l in
        put_list l (fst o, snd o - 1) ;;
        if snd o - 1 =? 0 then
          (fix destroy (cs : cells) : M lstore unit :=
             match cs with
             | [] => mreturn tt
             | Some c :: cs' => free_var fuel c ;; destroy cs'
             | None :: _ => mfail
             end) (fst o) ;;
          release l
        else mreturn tt
    end
  end.

(** ** The operations *)

Definition new_list (size : nat) : M lstore loc :=
  match size with
  | O => fun s =>
    match emptylist s with
    | Some e => (addref e ;; mreturn e) s
    | None =>
      match alloc ([], 1) s with
      | Some (e, s') => (addref e ;; mreturn e) (mk_lstore (heap s') (Some e))
      | None => None
      end
    end
  | _ => alloc (replicate size None, 1)
  end.

(** [n] times [dst[j++] = var_ref(src[i++])] *)
Fixpoint copy_cells (n : nat) (src : loc) (i : Z) (dst : loc) (j : Z) : M lstore unit :=
  match n with
  | O => mreturn tt
  | S n =>
    let! v := read_cell src i in
    let! v := var_ref v in
    write_cell dst j v ;;
    copy_cells n src (i + 1) dst (j + 1)
  end.

Definition list_dup (list : loc) : M lstore loc :=
  let! n := list_len list in
  let! new := new_list n in
  copy_cells n list 1 new 1 ;;
  mreturn new.

Definition listset (fuel : nat) (list : loc) (value : rval) (pos : Z) : M lstore loc :=
  let! rc := var_refcount list in
  let! new := (if 1 <? rc then
                 let! new := list_dup list in free_var fuel (RList list) ;; mreturn new
               else mreturn list) in
  let! old := read_cell new pos in
  free_var fuel old ;;
  write_cell new pos value ;;
  mreturn new.

Definition doinsert (fuel : nat) (list : loc) (value : rval) (pos : Z) : M lstore loc :=
  let! n := list_len list in
  let size := Z.of_nat n + 1 in
  let! e := is_emptylist list in
  let! rc := var_refcount list in
  if negb e && (rc =? 1) && (pos =? size) then
    let! o := get_list list in
    put_list list (fst o ++ [Some value], snd o) ;;
    mreturn list
  else
    let! new := new_list (S n) in
    copy_cells (Z.to_nat (pos - 1)) list 1 new 1 ;;
    write_cell new pos value ;;
    copy_cells (Z.to_nat (Z.of_nat n - pos + 1)) list pos new (pos + 1) ;;
    free_var fuel (RList list) ;;
    mreturn new.

Definition listinsert (fuel : nat) (list : loc) (value : rval) (pos : Z) : M lstore loc :=
  let! n := list_len list in
  doinsert fuel list value
    (if pos <=? 0 then 1 else if Z.of_nat n <? pos then Z.of_nat n + 1 else pos).

Definition listappend (fuel : nat) (list : loc) (value : rval) : M lstore loc :=
  let! n := list_len list in doinsert fuel list value (Z.of_nat n + 1).

Definition listdelete (fuel : nat) (list : loc) (pos : Z) : M lstore loc :=
  let! n := list_len list in
  let! new := new_list (n - 1) in
  copy_cells (Z.to_nat (pos - 1)) list 1 new 1 ;;
  copy_cells (Z.to_nat (Z.of_nat n - pos)) list (pos + 1) new pos ;;
  free_var fuel (RList list) ;;
  mreturn new.

Definition listconcat (fuel : nat) (first second : loc) : M lstore loc :=
  let! lsecond := list_len second in
  let! lfirst := list_len first in
  let! new := new_list (lsecond + lfirst) in
  copy_cells lfirst first 1 new 1 ;;
  copy_cells lsecond second 1 new (1 + Z.of_nat lfirst) ;;
  free_var fuel (RList first) ;;
  free_var fuel (RList second) ;;
  mreturn new.

Definition listrangeset (fuel : nat) (base : loc) (from to : Z) (value : loc) : M lstore loc :=
  let! val_len := list_len value in
  let! base_len := list_len base in
  let lenleft := if 1 <? from then from - 1 else 0 in
  let lenmiddle := Z.of_nat val_len in
  let lenright := if to <? Z.of_nat base_len then Z.of_nat base_len - to else 0 in
  let! ans := new_list (Z.to_nat (lenleft + lenmiddle + lenright)) in
  copy_cells (Z.to_nat lenleft) base 1 ans 1 ;;
  copy_cells (Z.to_nat lenmiddle) value 1 ans (1 + lenleft) ;;
  copy_cells (Z.to_nat lenright) base (to + 1) ans (1 + lenleft + lenmiddle) ;;
  free_var fuel (RList base) ;;
  free_var fuel (RList value) ;;
  mreturn ans.

Definition sublist (fuel : nat) (list : loc) (lower upper : Z) : M lstore loc :=
  if upper <? lower then
    let! empty := new_list 0 in free_var fuel (RList list) ;; mreturn empty
  else
    let! r := new_list (Z.to_nat (upper - lower + 1)) in
    copy_cells (Z.to_nat (upper - lower + 1)) list lower r 1 ;;
    free_var fuel (RList list) ;;
    mreturn r.

(** ** Equality and membership *)

(** [equality] of utils.cc, with [listequal] on list objects *)
Fixpoint equality_in (fuel : nat) (lhs rhs : rval) (case_matters : bool) : M lstore bool :=
  match lhs, rhs with
  | RAtom a, RAtom b =>
    match equality a b case_matters with Some r => mreturn r | None => mfail end
  | RList l, RList m =>
    match fuel with
    | O => mfail
    | S fuel =>
      if bool_decide (l = m) then mreturn true
      else
        let! ol := get_list l in
        let! om := get_list m in
        if negb (length (fst ol) =? length (fst om))%nat then mreturn false
        else
          (fix loop (cl cm : cells) : M lstore bool :=
             match cl, cm with
             | Some x :: cl', Some y :: cm' =>
               let! e := equality_in fuel x y case_matters in
               if e : bool then loop cl' cm' else mreturn false
             | [], _ => mreturn true
             | _, _ => mfail
             end) (fst ol) (fst om)
    end
  | _, _ => mreturn false
  end.

(** [ismember] in a list: the index of the first equal element, or 0 *)
Fixpoint member_loop (fuel : nat) (lhs : rval) (case_matters : bool) (i : Z) (cs : cells) : M lstore Z :=
  match cs with
  | [] => mreturn 0
  | Some x :: cs' =>
    let! e := equality_in fuel lhs x case_matters in
    if e : bool then mreturn i else member_loop fuel lhs case_matters (i + 1) cs'
  | None :: _ => mfail
  end.
Definition ismember (fuel : nat) (lhs : rval) (rhs : loc) (case_matters : bool) : M lstore Z :=
  let! o := get_list rhs in member_loop fuel lhs case_matters 1 (fst o).

Definition setadd (fuel : nat) (list : loc) (value : rval) : M lstore loc :=
  let! i := ismember fuel value list false in
  if negb (i =? 0) then free_var fuel value ;; mreturn list
  else listappend fuel list value.

Definition setremove (fuel : nat) (list : loc) (value : rval) : M lstore loc :=
  let! i := ismember fuel value list false in
  if negb (i =? 0) then listdelete fuel list i else mreturn list.
