(* ===== verification/ListFree.v ===== *)
(** * Releasing and building list objects

    [free_var] gives back exactly what its argument owned; a list under
    construction ([building]) owns the cells that are filled. *)
From Stdlib Require Import ZArith Lia.
From stdpp Require Import prelude gmap.
From S2P Require Import Prelude CString Value ListCode.

(** ** Ownership of list objects

    [owns s R] says that the reference counts of the store [s] are exact when
    the references held outside the store (in variables, on stacks, in
    argument lists) are those of the values in [R]: every count is the number
    of references, nothing is referenced that does not exist, and nothing
    exists that is not referenced.  [den h x v] says that in the heap [h] the
    value in memory [v] is the MOO value [x].

    An operation is specified by the roots it consumes and those it produces,
    for any other roots [K]: their values do not change. *)
Local Open Scope Z_scope.
Local Open Scope moo_scope.

Abbreviation lheap := (gmap loc (list (option rval) * Z)).

(** ** Counting references *)

Definition ref1 (l : loc) (v : rval) : nat :=
  match v with RList m => if decide (l = m) then 1 else 0 | RAtom _ => 0 end.
Fixpoint count (l : loc) (vs : list rval) : nat :=
  match vs with [] => 0 | v :: vs' => ref1 l v + count l vs' end.
Fixpoint cellvals (cs : list (option rval)) : list rval :=
  match cs with [] => [] | Some v :: cs' => v :: cellvals cs' | None :: cs' => cellvals cs' end.
Definition heaprefs (h : lheap) : list rval := concat (map (fun x => cellvals (fst (snd x))) (map_to_list h)).
Definition refs (h : lheap) (l : loc) : nat := count l (heaprefs h).

Lemma count_app l vs ws : count l (vs ++ ws) = (count l vs + count l ws)%nat.
Proof. induction vs as [|v vs IH]; simpl; lia. Qed.
#[export] Instance count_perm l : Proper ((≡ₚ) ==> (=)) (count l).
Proof. induction 1; simpl; lia. Qed.
Lemma count_in l vs : RList l ∈ vs -> (0 < count l vs)%nat.
Proof.
  induction vs as [|v vs IH]; [by intros ?%not_elem_of_nil|]. intros [<-|H]%elem_of_cons; simpl.
  - rewrite decide_True by done. lia.
  - specialize (IH H). lia.
Qed.
Lemma cellvals_some vs : cellvals (Some <$> vs) = vs.
Proof. induction vs as [|v vs IH]; [done|]. simpl. by rewrite <- IH at 2. Qed.
Lemma cellvals_app cs ds : cellvals (cs ++ ds) = cellvals cs ++ cellvals ds.
Proof. induction cs as [|[v|] cs IH]; simpl; by rewrite ?IH. Qed.
Lemma cellvals_none n : cellvals (replicate n None) = [].
Proof. by induction n. Qed.

Lemma refs_insert h l o k :
  h !! l = None -> refs (<[l := o]> h) k = (count k (cellvals (fst o)) + refs h k)%nat.
Proof.
  intros Hl. unfold refs, heaprefs. rewrite (map_to_list_insert h l o Hl). simpl. by rewrite count_app.
Qed.
Lemma refs_lookup h l o k :
  h !! l = Some o -> refs h k = (count k (cellvals (fst o)) + refs (delete l h) k)%nat.
Proof.
  intros Hl. rewrite <- (insert_delete_id h l o Hl) at 1. apply refs_insert. apply lookup_delete_eq.
Qed.
Lemma refs_count h l cs rc rc' k :
  h !! l = Some (cs, rc) -> refs (<[l := (cs, rc')]> h) k = refs h k.
Proof.
  intros Hl. rewrite (refs_lookup h l (cs, rc)) by done. rewrite <- (insert_delete_eq h l (cs, rc')).
  apply (refs_insert _ _ (cs, rc')), lookup_delete_eq.
Qed.

(** ** Exact counts *)

Record owns (s : lstore) (R : list rval) : Prop := {
  own_count : forall l,
    match heap s !! l with
    | None => (count l R + refs (heap s) l)%nat = 0%nat
    | Some (cs, rc) =>
      if decide (emptylist s = Some l) then cs = [] /\ Z.of_nat (count l R + refs (heap s) l) < rc
      else rc = Z.of_nat (count l R + refs (heap s) l) /\ 0 < rc
    end;
  own_full : forall l cs rc, heap s !! l = Some (cs, rc) -> exists vs, cs = Some <$> vs;
  own_empty : forall e, emptylist s = Some e -> is_Some (heap s !! e) }.

Lemma owns_perm s R R' : R ≡ₚ R' -> owns s R -> owns s R'.
Proof.
  intros HR [Hc Hf He]. split; [|done|done]. intros l. specialize (Hc l).
  assert (count l R = count l R') as E by (by rewrite HR). by rewrite E in Hc.
Qed.

Lemma owns_root s R l : owns s R -> RList l ∈ R -> exists vs rc, heap s !! l = Some (Some <$> vs, rc) /\ 0 < rc.
Proof.
  intros H Hin. pose proof (own_count s R H l) as Hc. apply count_in in Hin.
  destruct (heap s !! l) as [[cs rc]|] eqn:E; [|lia].
  destruct (own_full s R H l cs rc E) as (vs & ->). exists vs, rc. split; [done|]. case_decide; lia.
Qed.
Lemma owns_cell s R l vs rc m :
  owns s R -> heap s !! l = Some (Some <$> vs, rc) -> RList m ∈ vs -> is_Some (heap s !! m).
Proof.
  intros H Hl Hin. pose proof (own_count s R H m) as Hc. apply count_in in Hin.
  rewrite (refs_lookup _ _ _ _ Hl) in Hc. simpl in Hc. rewrite cellvals_some in Hc.
  destruct (heap s !! m); [done|lia].
Qed.

(** ** Values in memory *)

Fixpoint den (h : lheap) (x : Var) (v : rval) : Prop :=
  match x with
  | VList xs =>
    match v with
    | RList l => exists vs rc, h !! l = Some (Some <$> vs, rc) /\
        (fix go (xs : list Var) (vs : list rval) : Prop :=
           match xs, vs with
           | [], [] => True
           | x :: xs', v :: vs' => den h x v /\ go xs' vs'
           | _, _ => False
           end) xs vs
    | RAtom _ => False
    end
  | _ => v = RAtom x
  end.

Lemma den_list h xs v :
  den h (VList xs) v <-> exists l vs rc, v = RList l /\ h !! l = Some (Some <$> vs, rc) /\ Forall2 (den h) xs vs.
Proof.
  assert (forall xs vs, (fix go (xs : list Var) (vs : list rval) : Prop :=
      match xs, vs with [], [] => True | x :: xs', v :: vs' => den h x v /\ go xs' vs' | _, _ => False end) xs vs
      <-> Forall2 (den h) xs vs) as H.
  { clear. induction xs as [|x xs IH]; intros [|v vs]; try (split; [done|by inversion 1]).
    - rewrite Forall2_cons, IH. done. }
  destruct v as [a|l]; simpl; [naive_solver|]. split.
  - intros (vs & rc & Hl & Hgo). exists l, vs, rc. by rewrite H in Hgo.
  - intros (l' & vs & rc & [= <-] & Hl & Hf). exists vs, rc. by rewrite H.
Qed.
Lemma den_atom h x v : (forall xs, x <> VList xs) -> den h x v <-> v = RAtom x.
Proof. intros Hx. destruct x; simpl; try done. by destruct (Hx l). Qed.

Lemma den_inj h x : forall y v, den h x v -> den h y v -> x = y.
Proof.
  induction x as [xs IH|m _|a Ha] using Var_nested_ind; intros y v Hx Hy.
  - apply den_list in Hx as (l & vs & rc & -> & Hl & Hf).
    destruct y; try done. apply den_list in Hy as (l' & vs' & rc' & [= <-] & Hl' & Hf').
    rewrite Hl in Hl'. injection Hl' as Hv _. apply list_fmap_eq_inj in Hv; [|by intros ?? [= ->]]. subst vs'.
    f_equal. clear Hl. revert l0 vs Hf Hf'. induction IH as [|x xs Hx _ IHxs]; intros ys vs Hf Hf'.
    + inversion Hf; subst. by inversion Hf'.
    + inversion Hf; subst. inversion Hf'; subst. f_equal; [by eapply Hx|by eapply IHxs].
  - simpl in Hx. subst. destruct y; simpl in Hy; congruence || done.
  - assert (v = RAtom a) as -> by (by destruct a). destruct y; simpl in Hy; congruence || done.
Qed.

(** [h'] has the objects of [h] with the same cells. *)
Definition extends (h h' : lheap) : Prop :=
  forall l cs rc, h !! l = Some (cs, rc) -> exists rc', h' !! l = Some (cs, rc').

Lemma extends_refl h : extends h h.
Proof. intros l cs rc Hl. by exists rc. Qed.
Lemma extends_trans h1 h2 h3 : extends h1 h2 -> extends h2 h3 -> extends h1 h3.
Proof. intros H12 H23 l cs rc Hl. destruct (H12 _ _ _ Hl) as (rc' & Hl'). by eapply H23. Qed.
Lemma extends_insert h l o : h !! l = None -> extends h (<[l := o]> h).
Proof.
  intros Hl k cs rc Hk. exists rc. rewrite lookup_insert_ne; [done|]. intros ->. congruence.
Qed.
Lemma extends_count h l cs rc rc' : h !! l = Some (cs, rc) -> extends h (<[l := (cs, rc')]> h).
Proof.
  intros Hl k cs' rc1 Hk. destruct (decide (l = k)) as [->|].
  - rewrite lookup_insert_eq. exists rc'. congruence.
  - rewrite lookup_insert_ne by done. by exists rc1.
Qed.

Lemma den_extends h h' x : extends h h' -> forall v, den h x v -> den h' x v.
Proof.
  intros He. induction x as [xs IH|m _|a Ha] using Var_nested_ind; intros v Hv; [|done|by destruct a].
  apply den_list in Hv as (l & vs & rc & -> & Hl & Hf). apply den_list.
  destruct (He _ _ _ Hl) as (rc' & Hl'). exists l, vs, rc'. split_and!; [done..|].
  clear Hl Hl'. revert vs Hf. induction IH as [|x xs Hx _ IHxs]; intros vs Hf; inversion Hf; subst; constructor; auto.
Qed.

(** Values reachable from the roots survive when only objects without
    references are removed. *)
Lemma den_shrinks s s' R x :
  owns s' R -> extends (heap s') (heap s) -> forall v,
  (forall m, v = RList m -> is_Some (heap s' !! m)) -> den (heap s) x v -> den (heap s') x v.
Proof.
  intros Ho He. induction x as [xs IH|m _|a Ha] using Var_nested_ind; intros v Hlive Hv; [|done|by destruct a].
  apply den_list in Hv as (l & vs & rc & -> & Hl & Hf). apply den_list.
  destruct (Hlive l eq_refl) as [[cs rc'] Hl']. destruct (He _ _ _ Hl') as (rc2 & Hl2).
  rewrite Hl in Hl2. injection Hl2 as <- _. exists l, vs, rc'. split_and!; [done..|].
  assert (forall v, v ∈ vs -> forall m, v = RList m -> is_Some (heap s' !! m)) as Hcells.
  { intros v Hv m ->. by eapply owns_cell. }
  clear Hl Hl' Hlive. revert vs Hf Hcells.
  induction IH as [|x xs Hx _ IHxs]; intros vs Hf Hcells; inversion Hf; subst; constructor.
  - apply Hx; [|done]. apply Hcells. by left.
  - apply IHxs; [done|]. intros v Hv. apply Hcells. by right.
Qed.

(** The values of the roots [K] are the same in both stores. *)
Definition preserves (s s' : lstore) (K : list rval) : Prop :=
  forall v x, v ∈ K -> den (heap s) x v -> den (heap s') x v.

Lemma preserves_refl s K : preserves s s K.
Proof. by intros v x. Qed.
Lemma preserves_trans s1 s2 s3 K : preserves s1 s2 K -> preserves s2 s3 K -> preserves s1 s3 K.
Proof. intros H1 H2 v x Hv Hx. apply H2, H1; done. Qed.
Lemma preserves_extends s s' K : extends (heap s) (heap s') -> preserves s s' K.
Proof. intros He v x _ Hx. by eapply den_extends. Qed.
Lemma preserves_shrinks s s' R K :
  owns s' R -> (forall v, v ∈ K -> v ∈ R) -> extends (heap s') (heap s) -> preserves s s' K.
Proof.
  intros Ho HK He v x Hv Hx. eapply den_shrinks; [done..| |done].
  intros m ->. destruct (owns_root s' R m Ho (HK _ Hv)) as (vs & rc & Hm & _). by rewrite Hm.
Qed.
Lemma preserves_sub s s' K K' : (forall v, v ∈ K' -> v ∈ K) -> preserves s s' K -> preserves s s' K'.
Proof. intros HK Hp v x Hv Hx. apply Hp; auto. Qed.

(** ** Ownership moves *)

Definition ins (l : loc) (o : list (option rval) * Z) (s : lstore) : lstore :=
  mk_lstore (<[l := o]> (heap s)) (emptylist s).
Definition del (l : loc) (s : lstore) : lstore := mk_lstore (delete l (heap s)) (emptylist s).

Lemma owns_addref s K l cs rc :
  owns s K -> heap s !! l = Some (cs, rc) -> owns (ins l (cs, rc + 1) s) (RList l :: K).
Proof.
  intros [Hc Hf He] Hl. split; simpl.
  - intros k. rewrite (refs_count _ _ _ _ _ _ Hl). specialize (Hc k). destruct (decide (k = l)) as [->|Hne].
    + rewrite lookup_insert_eq. rewrite Hl in Hc. case_decide; [split; [tauto|lia]|lia].
    + by rewrite lookup_insert_ne.
  - intros k cs' rc' Hk. destruct (decide (l = k)) as [->|].
    + rewrite lookup_insert_eq in Hk. simplify_eq. by eapply Hf.
    + rewrite lookup_insert_ne in Hk by done. by eapply Hf.
  - intros e E. destruct (decide (l = e)) as [->|]; [by rewrite lookup_insert_eq|].
    rewrite lookup_insert_ne by done. by apply He.
Qed.

Lemma owns_delref s K l cs rc :
  owns s (RList l :: K) -> heap s !! l = Some (cs, rc) -> emptylist s <> Some l -> rc <> 1 ->
  owns (ins l (cs, rc - 1) s) K.
Proof.
  intros [Hc Hf He] Hl Hne Hrc. split; simpl.
  - intros k. rewrite (refs_count _ _ _ _ _ _ Hl). specialize (Hc k). simpl in Hc. destruct (decide (k = l)) as [->|Hkl].
    + rewrite lookup_insert_eq. rewrite Hl in Hc. case_decide; [done|lia].
    + by rewrite lookup_insert_ne.
  - intros k cs' rc' Hk. destruct (decide (l = k)) as [->|].
    + rewrite lookup_insert_eq in Hk. simplify_eq. by eapply Hf.
    + rewrite lookup_insert_ne in Hk by done. by eapply Hf.
  - intros e E. destruct (decide (l = e)) as [->|]; [by rewrite lookup_insert_eq|].
    rewrite lookup_insert_ne by done. by apply He.
Qed.

(** The shared empty list may lose roots. *)
Lemma owns_drop_empty s K e : owns s (RList e :: K) -> emptylist s = Some e -> owns s K.
Proof.
  intros [Hc Hf He] E. split; [|done|done]. intros k. specialize (Hc k). simpl in Hc.
  destruct (heap s !! k) as [[cs rc]|]; [|lia]. case_decide; [split; [tauto|lia]|].
  rewrite decide_False in Hc by congruence. done.
Qed.

(** The only reference to an object gives its cells. *)
Lemma owns_unpack s K l cs rc :
  owns s (RList l :: K) -> heap s !! l = Some (cs, rc) -> emptylist s <> Some l -> rc = 1 ->
  owns (del l s) (cellvals cs ++ K).
Proof.
  intros [Hc Hf He] Hl Hne ->. split; simpl.
  - intros k. specialize (Hc k). rewrite (refs_lookup _ _ _ _ Hl) in Hc. simpl in Hc. rewrite count_app.
    destruct (decide (k = l)) as [->|Hkl].
    + rewrite lookup_delete_eq. rewrite Hl in Hc. rewrite decide_False in Hc by done. lia.
    + rewrite lookup_delete_ne by done. destruct (heap s !! k) as [[cs' rc']|]; [|lia].
      case_decide; [split; [tauto|lia]|lia].
  - intros k cs' rc' Hk. apply lookup_delete_Some in Hk as [_ Hk]. by eapply Hf.
  - intros e E. rewrite lookup_delete_ne by congruence. by apply He.
Qed.

Lemma owns_pack s K l vs :
  owns s (vs ++ K) -> heap s !! l = None -> owns (ins l (Some <$> vs, 1) s) (RList l :: K).
Proof.
  intros [Hc Hf He] Hl.
  assert (emptylist s <> Some l) as Hne by (intros E; destruct (He l E); congruence).
  split; simpl.
  - intros k. specialize (Hc k). rewrite refs_insert by done. simpl. rewrite cellvals_some. rewrite count_app in Hc.
    destruct (decide (k = l)) as [->|Hkl].
    + rewrite lookup_insert_eq, decide_False by done. rewrite Hl in Hc. lia.
    + rewrite lookup_insert_ne by done. destruct (heap s !! k) as [[cs' rc']|]; [|lia].
      case_decide; [split; [tauto|lia]|lia].
  - intros k cs' rc' Hk. destruct (decide (l = k)) as [->|].
    + rewrite lookup_insert_eq in Hk. simplify_eq. by exists vs.
    + rewrite lookup_insert_ne in Hk by done. by eapply Hf.
  - intros e E. rewrite lookup_insert_ne by congruence. by apply He.
Qed.

Local Open Scope Z_scope.
Local Open Scope moo_scope.

(** ** The primitive steps *)

Lemma get_list_eq l o s : heap s !! l = Some o -> get_list l s = Some (o, s).
Proof. unfold get_list. by intros ->. Qed.
Lemma put_list_eq l o o' s : heap s !! l = Some o' -> put_list l o s = Some (tt, ins l o s).
Proof. unfold put_list. by intros ->. Qed.
Lemma addref_eq l cs rc s : heap s !! l = Some (cs, rc) -> addref l s = Some (tt, ins l (cs, rc + 1) s).
Proof.
  intros Hl. unfold addref. erewrite mbind_Some by (by apply get_list_eq). by apply (put_list_eq _ _ (cs, rc)).
Qed.
Lemma read_cell_eq l vs rc i v s :
  heap s !! l = Some (Some <$> vs, rc) -> vs !! i = Some v -> read_cell l (Z.of_nat i + 1) s = Some (v, s).
Proof.
  intros Hl Hv. unfold read_cell. erewrite mbind_Some by (by apply get_list_eq). cbn [fst].
  pose proof (Nat2Z.is_nonneg i). replace (1 <=? Z.of_nat i + 1) with true by lia.
  replace (Z.to_nat (Z.of_nat i + 1 - 1)) with i by lia.
  by rewrite list_lookup_fmap, Hv.
Qed.
Lemma write_cell_eq l cs rc i v s :
  heap s !! l = Some (cs, rc) -> (i < length cs)%nat ->
  write_cell l (Z.of_nat i + 1) v s = Some (tt, ins l (<[i := Some v]> cs, rc) s).
Proof.
  intros Hl Hi. unfold write_cell. erewrite mbind_Some by (by apply get_list_eq). cbn [fst snd].
  replace (_ && _) with true by lia. replace (Z.to_nat (Z.of_nat i + 1 - 1)) with i by lia.
  by apply (put_list_eq _ _ (cs, rc)).
Qed.
Lemma ins_ins l o o' s : ins l o (ins l o' s) = ins l o s.
Proof. unfold ins. simpl. by rewrite insert_insert_eq. Qed.
Lemma ins_comm l k o o' s : l <> k -> ins l o (ins k o' s) = ins k o' (ins l o s).
Proof. intros H. unfold ins. simpl. by rewrite insert_insert_ne. Qed.
Lemma heap_ins_eq l o s : heap (ins l o s) !! l = Some o.
Proof. apply lookup_insert_eq. Qed.
Lemma heap_ins_ne l k o s : l <> k -> heap (ins l o s) !! k = heap s !! k.
Proof. apply lookup_insert_ne. Qed.

(** ** [free_var] *)

(** [destroy_list]: the loop of [free_var] over the cells *)
Definition destroy_list (fuel : nat) : list (option rval) -> M lstore unit :=
  fix destroy (cs : list (option rval)) : M lstore unit :=
    match cs with
    | [] => mreturn tt
    | Some c :: cs' => free_var fuel c ;; destroy cs'
    | None :: _ => mfail
    end.

Lemma free_var_list fuel l s cs rc :
  heap s !! l = Some (cs, rc) -> emptylist s <> Some l ->
  free_var (S fuel) (RList l) s =
    if rc - 1 =? 0 then (destroy_list fuel cs ;; release l) (ins l (cs, rc - 1) s)
    else Some (tt, ins l (cs, rc - 1) s).
Proof.
  intros Hl Hne. cbn [free_var]. unfold is_emptylist, mbindM at 1. rewrite bool_decide_false by done.
  unfold get_list, mbindM at 1. rewrite Hl. unfold mbindM at 1, put_list. rewrite Hl. cbn [fst snd].
  destruct (rc - 1 =? 0); done.
Qed.
Lemma free_var_empty fuel l s : emptylist s = Some l -> free_var (S fuel) (RList l) s = Some (tt, s).
Proof.
  intros E. cbn [free_var]. unfold is_emptylist, mbindM. by rewrite bool_decide_true.
Qed.

(** An object that is not in the store is not touched. *)
Lemma put_list_frame l o k x s s' :
  put_list l o s = Some (tt, s') -> heap s !! k = None ->
  put_list l o (ins k x s) = Some (tt, ins k x s') /\ heap s' !! k = None.
Proof.
  unfold put_list. destruct (heap s !! l) as [o'|] eqn:E; [|done]. intros [= <-] Hk. simpl.
  assert (k <> l) by congruence. rewrite !lookup_insert_ne, E, Hk by done. split; [|done].
  unfold ins. simpl. do 3 f_equal. by rewrite insert_insert_ne.
Qed.

Definition frames (m : M lstore unit) : Prop := forall k x s s',
  m s = Some (tt, s') -> heap s !! k = None ->
  m (ins k x s) = Some (tt, ins k x s') /\ heap s' !! k = None.

Lemma destroy_list_frames fuel :
  (forall v, frames (free_var fuel v)) -> forall cs, frames (destroy_list fuel cs).
Proof.
  intros IH. induction cs as [|[c|] cs IHcs]; intros k x s s' H Hk; [by injection H as <-| |done]. simpl in *.
  apply mbind_inv in H as ([] & s1 & H1 & H2). destruct (IH c k x _ _ H1 Hk) as [E1 Hk1].
  destruct (IHcs k x _ _ H2 Hk1) as [E2 Hk2]. erewrite mbind_Some by exact E1. done.
Qed.

Lemma free_var_frames fuel : forall v, frames (free_var fuel v).
Proof.
  induction fuel as [|fuel IH]; intros [a|l] k x s s' H Hk; try (by injection H as <-); [done|].
  pose proof (destroy_list_frames fuel IH) as Hd.
  destruct (decide (emptylist s = Some l)) as [He|He].
  { rewrite free_var_empty in H |- * by done. by injection H as <-. }
  destruct (heap s !! l) as [[cs rc]|] eqn:El.
  2:{ cbn [free_var] in H. unfold is_emptylist, mbindM at 1 in H. rewrite bool_decide_false in H by done.
      unfold get_list, mbindM at 1 in H. by rewrite El in H. }
  assert (k <> l) as Hkl by congruence.
  rewrite (free_var_list fuel l s cs rc) in H by done.
  rewrite (free_var_list fuel l (ins k x s) cs rc) by (simpl; by rewrite ?lookup_insert_ne).
  assert (ins l (cs, rc - 1) (ins k x s) = ins k x (ins l (cs, rc - 1) s)) as ->.
  { unfold ins. simpl. f_equal. by rewrite insert_insert_ne. }
  assert (heap (ins l (cs, rc - 1) s) !! k = None) as Hk1 by (simpl; by rewrite lookup_insert_ne).
  destruct (rc - 1 =? 0); [|by injection H as <-].
  apply mbind_inv in H as ([] & s1 & H1 & H2). destruct (Hd _ k x _ _ H1 Hk1) as [E1 Hk2].
  erewrite mbind_Some by exact E1. unfold release in *. injection H2 as <-. simpl.
  split; [|by rewrite lookup_delete_ne by done]. unfold ins. simpl. do 3 f_equal.
  by rewrite delete_insert_ne.
Qed.

(** What is left has its cells, and no more references than before. *)
Definition lighter (h' h : lheap) : Prop :=
  forall l cs rc', h' !! l = Some (cs, rc') -> exists rc, h !! l = Some (cs, rc) /\ rc' <= rc.
Definition freed (s s' : lstore) : Prop :=
  lighter (heap s') (heap s) /\ emptylist s' = emptylist s /\ (size (heap s') <= size (heap s))%nat.

Lemma lighter_refl h : lighter h h.
Proof. intros l cs rc Hl. by exists rc. Qed.
Lemma lighter_trans h1 h2 h3 : lighter h1 h2 -> lighter h2 h3 -> lighter h1 h3.
Proof.
  intros H12 H23 l cs rc Hl. destruct (H12 _ _ _ Hl) as (rc2 & H2 & L2).
  destruct (H23 _ _ _ H2) as (rc3 & H3 & L3). exists rc3. split; [done|lia].
Qed.
Lemma lighter_extends h h' : lighter h' h -> extends h' h.
Proof. intros H l cs rc Hl. destruct (H _ _ _ Hl) as (rc' & ? & _). by exists rc'. Qed.
Lemma lighter_delete h l : lighter (delete l h) h.
Proof. intros k cs rc Hk. apply lookup_delete_Some in Hk as [_ Hk]. by exists rc. Qed.

Lemma freed_trans s1 s2 s3 : freed s1 s2 -> freed s2 s3 -> freed s1 s3.
Proof. intros (H1 & E1 & S1) (H2 & E2 & S2). split_and!; [by eapply lighter_trans|congruence|lia]. Qed.

Lemma free_rval_ok fuel : forall v s K,
  owns s (v :: K) -> (size (heap s) < fuel)%nat ->
  exists s', free_var fuel v s = Some (tt, s') /\ owns s' K /\ freed s s'.
Proof.
  induction fuel as [|fuel IH]; intros [a|l] s K Ho Hf; try lia.
  { exists s. split; [done|]. split; [by destruct Ho; split|]. split_and!; [apply lighter_refl|done|lia]. }
  destruct (owns_root _ _ l Ho) as (vs & rc & Hl & Hpos); [by left|].
  destruct (decide (emptylist s = Some l)) as [He|He].
  { exists s. rewrite free_var_empty by done. split; [done|]. split; [by eapply owns_drop_empty|].
    split_and!; [apply lighter_refl|done|lia]. }
  rewrite (free_var_list fuel l s (Some <$> vs) rc Hl He). destruct (rc - 1 =? 0) eqn:Erc.
  2:{ exists (ins l (Some <$> vs, rc - 1) s). split; [done|]. split; [apply owns_delref; try done; lia|].
      split_and!; simpl; [|done|].
      - intros k cs rck Hk. destruct (decide (l = k)) as [->|].
        + rewrite lookup_insert_eq in Hk. simplify_eq. exists rc. split; [done|lia].
        + rewrite lookup_insert_ne in Hk by done. by exists rck.
      - rewrite map_size_insert_Some by (by rewrite Hl). lia. }
  pose proof (owns_unpack s K l _ rc Ho Hl He ltac:(lia)) as Ho1. rewrite cellvals_some in Ho1.
  assert (heap (del l s) !! l = None) as Hdel by apply lookup_delete_eq.
  assert (size (heap (del l s)) < fuel)%nat as Hf1.
  { simpl. rewrite map_size_delete_Some by (by rewrite Hl). assert (size (heap s) <> 0)%nat; [|lia].
    intros E. apply map_size_empty_inv in E. by rewrite E in Hl. }
  assert (forall vs s K, owns s (vs ++ K) -> (size (heap s) < fuel)%nat ->
    exists s', destroy_list fuel (Some <$> vs) s = Some (tt, s') /\ owns s' K /\ freed s s') as Hd.
  { clear -IH. induction vs as [|v vs IHvs]; intros s K Ho Hf; simpl in *.
    { exists s. split; [done|]. split; [done|]. split_and!; [apply lighter_refl|done|lia]. }
    destruct (IH v s _ Ho Hf) as (s1 & E1 & Ho1 & Hfr1).
    destruct (IHvs s1 K Ho1) as (s2 & E2 & Ho2 & Hfr2); [destruct Hfr1 as (_ & _ & ?); lia|].
    exists s2. erewrite mbind_Some by exact E1. split; [done|]. split; [done|]. by eapply freed_trans. }
  destruct (Hd vs (del l s) K Ho1 Hf1) as (s1 & E1 & Ho2 & Hfr).
  destruct (destroy_list_frames fuel (free_var_frames fuel) _ l (Some <$> vs, rc - 1) _ _ E1 Hdel) as [E2 Hn].
  replace (ins l (Some <$> vs, rc - 1) s) with (ins l (Some <$> vs, rc - 1) (del l s)).
  2:{ unfold ins, del. simpl. f_equal. apply insert_delete_eq. }
  exists s1. erewrite mbind_Some by exact E2. unfold release. simpl. split.
  - do 2 f_equal. destruct s1 as [h1 e1]. simpl in *. f_equal. by apply delete_insert_id.
  - split; [done|]. destruct Hfr as (X & E & Z). split_and!; [|done|].
    + eapply lighter_trans; [exact X|]. apply lighter_delete.
    + simpl in Z. rewrite map_size_delete_Some in Z by (by rewrite Hl). lia.
Qed.

Lemma freed_preserves s s' R K :
  owns s' R -> (forall v, v ∈ K -> v ∈ R) -> freed s s' -> preserves s s' K.
Proof. intros Ho HK (He & _). eapply preserves_shrinks; [done..|]. by apply lighter_extends. Qed.

(** ** A list under construction *)

(** [d] is the address [new_list] returned, [cd] its cells; the filled ones
    are owned by it.  The list of no cells is the shared one. *)
Definition building (s : lstore) (d : loc) (cd : list (option rval)) (K : list rval) : Prop :=
  match cd with
  | [] => emptylist s = Some d /\ owns s (RList d :: K) /\ exists rc, heap s !! d = Some ([], rc)
  | _ => exists s0, s = ins d (cd, 1) s0 /\ heap s0 !! d = None /\ owns s0 (cellvals cd ++ K)
  end.

(** The objects other than [d] have the same cells. *)
Definition others (d : loc) (s s' : lstore) : Prop :=
  (forall k cs rc, k <> d -> heap s !! k = Some (cs, rc) -> exists rc', heap s' !! k = Some (cs, rc')) /\
  size (heap s') = size (heap s) /\ emptylist s' = emptylist s.

Lemma others_refl d s : others d s s.
Proof. split; [|done]. intros k cs rc _ Hk. by exists rc. Qed.
Lemma others_trans d s1 s2 s3 : others d s1 s2 -> others d s2 s3 -> others d s1 s3.
Proof.
  intros (H1 & Z1 & E1) (H2 & Z2 & E2). split_and!; [|congruence..]. intros k cs rc Hd Hk.
  destruct (H1 _ _ _ Hd Hk) as (rc' & Hk'). by eapply H2.
Qed.

Lemma owns_alloc_empty s K d :
  owns s K -> emptylist s = None -> heap s !! d = None ->
  owns (mk_lstore (<[d := ([], 2)]> (heap s)) (Some d)) (RList d :: K).
Proof.
  intros [Hc Hf He] E Hd. split; simpl.
  - intros k. rewrite refs_insert by done. simpl. specialize (Hc k). destruct (decide (k = d)) as [->|Hne].
    + rewrite lookup_insert_eq, decide_True by done. rewrite Hd in Hc. split; [done|]. lia.
    + rewrite lookup_insert_ne by done. rewrite E in Hc. destruct (heap s !! k) as [[cs rc]|]; [|lia].
      rewrite decide_False in Hc by done. rewrite decide_False by congruence. done.
  - intros k cs rc Hk. destruct (decide (d = k)) as [->|].
    + rewrite lookup_insert_eq in Hk. simplify_eq. by exists [].
    + rewrite lookup_insert_ne in Hk by done. by eapply Hf.
  - intros e [= <-]. by rewrite lookup_insert_eq.
Qed.

Lemma fresh_none (h : lheap) : h !! fresh (dom h) = None.
Proof. apply not_elem_of_dom, is_fresh. Qed.

Lemma new_list_ok n s K :
  owns s K ->
  exists d s', new_list n s = Some (d, s') /\ building s' d (replicate n None) K /\
    extends (heap s) (heap s') /\ (size (heap s') <= size (heap s) + 1)%nat /\
    (n <> 0%nat -> heap s !! d = None).
Proof.
  intros Ho. destruct n as [|n].
  - unfold new_list. destruct (emptylist s) as [e|] eqn:Ee.
    + destruct (own_empty s K Ho e Ee) as [[cs rc] Hl].
      assert (cs = []) as ->.
      { pose proof (own_count s K Ho e) as Hc. rewrite Hl, decide_True in Hc by done. tauto. }
      exists e, (ins e ([], rc + 1) s).
      split; [by erewrite mbind_Some by (by apply addref_eq)|]. split; [|split_and!; [| |done]].
      * split_and!; [done|by apply owns_addref|exists (rc + 1); simpl; by rewrite lookup_insert_eq].
      * by apply extends_count with (rc := rc).
      * simpl. rewrite map_size_insert_Some by (by rewrite Hl). lia.
    + unfold alloc. pose proof (fresh_none (heap s)) as Hd. set (d := fresh (dom (heap s))) in *.
      exists d, (mk_lstore (<[d := ([], 2)]> (heap s)) (Some d)). split.
      { erewrite mbind_Some by (apply addref_eq, lookup_insert_eq). unfold ins. simpl.
        by rewrite insert_insert_eq. }
      split; [|split_and!; [by apply extends_insert| |done]].
      * split_and!; [done|by apply owns_alloc_empty|exists 2; apply lookup_insert_eq].
      * simpl. rewrite map_size_insert_None by done. lia.
  - pose proof (fresh_none (heap s)) as Hd. exists (fresh (dom (heap s))), (ins (fresh (dom (heap s))) (replicate (S n) None, 1) s).
    split; [done|]. split; [|split_and!].
    + exists s. split_and!; [done..|]. by rewrite cellvals_none.
    + by apply extends_insert.
    + simpl. rewrite map_size_insert_None by done. lia.
    + done.
Qed.

Lemma cellvals_fill cd i v :
  cd !! i = Some None -> cellvals (<[i := Some v]> cd) ≡ₚ v :: cellvals cd.
Proof.
  intros Hi. pose proof (lookup_lt_Some _ _ _ Hi) as Hl.
  rewrite insert_take_drop by done. rewrite <- (take_drop_middle cd i None Hi) at 3.
  rewrite !cellvals_app. simpl. by rewrite Permutation_middle.
Qed.

Lemma building_write s d cd K v i :
  building s d cd (v :: K) -> cd !! i = Some None ->
  exists s', write_cell d (Z.of_nat i + 1) v s = Some (tt, s') /\
    building s' d (<[i := Some v]> cd) K /\ others d s s'.
Proof.
  intros Hb Hi. destruct cd as [|c0 cd]; [done|]. destruct Hb as (s0 & -> & Hd & Ho).
  pose proof (lookup_lt_Some _ _ _ Hi) as Hl. set (cs := c0 :: cd) in *.
  exists (ins d (<[i := Some v]> cs, 1) s0). split.
  - by rewrite (write_cell_eq d cs 1) by (done || apply heap_ins_eq); rewrite ins_ins.
  - split.
    + assert (owns s0 (cellvals (<[i := Some v]> cs) ++ K)) as Ho'.
      { eapply owns_perm; [|exact Ho]. rewrite (cellvals_fill cs i v Hi). symmetry. apply Permutation_middle. }
      assert (length (<[i := Some v]> cs) = length cs) as Hlen by apply length_insert.
      destruct (<[i := Some v]> cs) as [|c1 cs1] eqn:E; [done|]. by exists s0.
    + split_and!; [|unfold ins; cbn [heap]; by rewrite !map_size_insert|done]. intros k cs' rc Hk. unfold ins. simpl.
      rewrite !lookup_insert_ne by done. intros H. by exists rc.
Qed.

Lemma building_ref s d cd K l vs rc v i :
  building s d cd K -> cd <> [] -> l <> d -> heap s !! l = Some (Some <$> vs, rc) -> vs !! i = Some v ->
  exists s', var_ref v s = Some (v, s') /\ building s' d cd (v :: K) /\ others d s s'.
Proof.
  intros Hb Hne Hld Hl Hi. destruct cd as [|c0 cd]; [done|]. destruct Hb as (s0 & -> & Hd & Ho).
  destruct v as [a|m]; simpl.
  - exists (ins d (c0 :: cd, 1) s0). split; [done|]. split; [|apply others_refl]. exists s0. split_and!; [done..|].
    eapply owns_perm; [apply Permutation_middle|]. destruct Ho as [Hc Hf He]. by split.
  - simpl in Hl. rewrite lookup_insert_ne in Hl by done.
    destruct (owns_cell s0 _ l vs rc m Ho Hl) as [[cs rcm] Hm]; [by eapply list_elem_of_lookup_2|].
    assert (m <> d) as Hmd by congruence.
    exists (ins d (c0 :: cd, 1) (ins m (cs, rcm + 1) s0)). split.
    + erewrite mbind_Some by (apply (addref_eq m cs rcm); by rewrite heap_ins_ne). cbv beta.
      by rewrite ins_comm.
    + split.
      * exists (ins m (cs, rcm + 1) s0). split_and!; [done|simpl; by rewrite lookup_insert_ne|].
        eapply owns_perm; [apply Permutation_middle|]. by apply owns_addref.
      * split_and!; [|unfold ins; cbn [heap]; by rewrite !map_size_insert, lookup_insert_ne, Hd, Hm|done].
        intros k cs' rc' Hk. simpl. rewrite !lookup_insert_ne by done.
        intros Hk'. destruct (decide (m = k)) as [->|]; [|rewrite lookup_insert_ne by done; by exists rc'].
        rewrite lookup_insert_eq. exists (rcm + 1). congruence.
Qed.

Lemma copy_cells_ok l d K vs n : forall s i j cd,
  building s d cd K -> (n <> 0%nat -> l <> d /\ exists rc, heap s !! l = Some (Some <$> vs, rc)) ->
  (i + n <= length vs)%nat -> (forall k, (j <= k < j + n)%nat -> cd !! k = Some None) ->
  exists s', copy_cells n l (Z.of_nat i + 1) d (Z.of_nat j + 1) s = Some (tt, s') /\
    building s' d (take j cd ++ (Some <$> take n (drop i vs)) ++ drop (j + n) cd) K /\ others d s s'.
Proof.
  induction n as [|n IH]; intros s i j cd Hb Hsrc Hi Hj.
  { exists s. split; [done|]. split; [|apply others_refl]. simpl. by rewrite Nat.add_0_r, take_drop. }
  destruct Hsrc as (Hld & rc & Hl); [done|].
  destruct (lookup_lt_is_Some_2 vs i) as [v Hv]; [lia|].
  assert (cd !! j = Some None) as Hcj by (apply Hj; lia).
  destruct (building_ref s d cd K l vs rc v i Hb) as (s1 & E1 & Hb1 & O1); [by intros ->|done..|].
  destruct (building_write s1 d cd K v j Hb1 Hcj) as (s2 & E2 & Hb2 & O2).
  pose proof (others_trans _ _ _ _ O1 O2) as O12. destruct (proj1 O12 _ _ _ Hld Hl) as (rc2 & Hl2).
  destruct (IH s2 (S i) (S j) (<[j := Some v]> cd) Hb2) as (s3 & E3 & Hb3 & O3);
    [by eauto|lia| |].
  { intros k Hk. rewrite list_lookup_insert_ne by lia. apply Hj. lia. }
  exists s3. split; [|split; [|by eapply others_trans]].
  - cbn [copy_cells].
    erewrite mbind_Some by (by eapply read_cell_eq). cbv beta. erewrite mbind_Some by exact E1. cbv beta.
    erewrite mbind_Some by exact E2. cbv beta.
    replace (Z.of_nat i + 1 + 1) with (Z.of_nat (S i) + 1) by lia.
    by replace (Z.of_nat j + 1 + 1) with (Z.of_nat (S j) + 1) by lia.
  - pose proof (lookup_lt_Some _ _ _ Hcj) as Hlt.
    rewrite (drop_S vs v i Hv). cbn [take fmap list_fmap]. simpl in Hb3.
    replace (S j + n)%nat with (j + S n)%nat in Hb3 by lia.
    rewrite drop_insert_lt in Hb3 by lia.
    rewrite (take_S_r _ j (Some v)) in Hb3 by (by apply list_lookup_insert_eq).
    rewrite take_insert_ge, <- app_assoc in Hb3 by lia. replace (j + S n)%nat with (S (j + n)) by lia. exact Hb3.
Qed.

Lemma building_finish s d vs K :
  building s d (Some <$> vs) K -> owns s (RList d :: K) /\ exists rc, heap s !! d = Some (Some <$> vs, rc).
Proof.
  destruct vs as [|v vs]; [intros (_ & Ho & rc & Hd); by eauto|].
  intros (s0 & -> & Hd & Ho). change (Some v :: (Some <$> vs)) with (Some <$> (v :: vs)) in *.
  rewrite cellvals_some in Ho. split; [by apply owns_pack|]. exists 1. simpl. by rewrite lookup_insert_eq.
Qed.
