(* ===== verification/ListSpec.v ===== *)
(** * The list operations as operations on values

    [yields K xs m s]: from the store [s] the computation [m] returns a list
    whose value is [xs], owned by the caller besides the roots [K], whose
    values it leaves alone.  Each operation consumes the references its
    comment in list.cc says, whether it updates in place or copies. *)
From Stdlib Require Import ZArith Lia.
From stdpp Require Import prelude gmap.
From S2P Require Import Prelude CString Value ListCode ListFree.

Local Open Scope Z_scope.
Local Open Scope moo_scope.

Definition yields (K : list rval) (xs : list Var) (m : M lstore loc) (s : lstore) : Prop :=
  exists d s', m s = Some (d, s') /\ owns s' (RList d :: K) /\ den (heap s') (VList xs) (RList d) /\
    preserves s s' K /\ (size (heap s') <= size (heap s) + 1)%nat.

(** The list [l] holds the value [xs] in the cells [vs]. *)
Definition holds (s : lstore) (l : loc) (vs : list rval) (xs : list Var) : Prop :=
  (exists rc, heap s !! l = Some (Some <$> vs, rc)) /\ Forall2 (den (heap s)) xs vs.

Lemma den_holds s xs l : den (heap s) (VList xs) (RList l) <-> exists vs, holds s l vs xs.
Proof.
  rewrite den_list. unfold holds. split.
  - intros (l' & vs & rc & [= <-] & Hl & Hf). by eauto.
  - intros (vs & (rc & Hl) & Hf). by exists l, vs, rc.
Qed.

Lemma holds_length s l vs xs : holds s l vs xs -> length vs = length xs.
Proof. intros [_ Hf]. symmetry. by eapply Forall2_length. Qed.

Lemma list_len_eq s l vs xs : holds s l vs xs -> list_len l s = Some (length xs, s).
Proof.
  intros H. pose proof (holds_length _ _ _ _ H) as Hl. destruct H as [[rc Hh] _].
  unfold list_len. erewrite mbind_Some by (by apply get_list_eq). cbn [fst]. by rewrite length_fmap, Hl.
Qed.

(** ** Filling a new list *)

(** [s'] is reached from [s] by allocating [d] and filling its first cells
    with [ws], whose values in [s] are [ys]; [m] cells are left. *)
Record filling (s s' : lstore) (d : loc) (ws : list rval) (ys : list Var) (m : nat) (K : list rval) : Prop := {
  fl_building : building s' d ((Some <$> ws) ++ replicate m None) K;
  fl_den : Forall2 (den (heap s)) ys ws;
  fl_fresh : (length ws + m <> 0)%nat -> heap s !! d = None;
  fl_others : forall k cs rc, k <> d -> heap s !! k = Some (cs, rc) -> exists rc', heap s' !! k = Some (cs, rc');
  fl_empty : forall cs rc, heap s !! d = Some (cs, rc) -> cs = [];
  fl_size : (size (heap s') <= size (heap s) + 1)%nat }.

Lemma fill_start s n K :
  owns s K -> exists d s', new_list n s = Some (d, s') /\ filling s s' d [] [] n K.
Proof.
  intros Ho. destruct (new_list_ok n s K Ho) as (d & s' & E & Hb & He & Hz & Hd).
  exists d, s'. split; [done|]. split; try done.
  - intros k cs rc _ Hk. by eapply He.
  - intros cs rc Hk. destruct n as [|n]; [|by rewrite Hd in Hk].
    destruct Hb as (_ & _ & rcd & Hd1). destruct (He _ _ _ Hk) as (rc1 & Hk1). by simplify_eq.
Qed.

Lemma fill_copy s s' d ws ys n m K l vs xs i :
  filling s s' d ws ys (n + m) K -> holds s l vs xs -> (i + n <= length xs)%nat ->
  exists s2, copy_cells n l (Z.of_nat i + 1) d (Z.of_nat (length ws) + 1) s' = Some (tt, s2) /\
    filling s s2 d (ws ++ take n (drop i vs)) (ys ++ take n (drop i xs)) m K.
Proof.
  intros [Hb Hf Hd Ho He Hz] Hh Hi. pose proof (holds_length _ _ _ _ Hh) as Hlen. destruct Hh as [[rc Hl] Hxs].
  destruct (copy_cells_ok l d K vs n s' i (length ws) ((Some <$> ws) ++ replicate (n + m) None) Hb)
    as (s2 & E & Hb2 & (Ho2 & Hz2 & _)).
  { intros Hn. assert (l <> d) as Hne by (intros ->; rewrite Hd in Hl; [done|lia]).
    split; [done|]. by eapply Ho. }
  { lia. }
  { intros k Hk. rewrite lookup_app_r by (rewrite length_fmap; lia). apply lookup_replicate. rewrite length_fmap.
    split; [done|lia]. }
  exists s2. split; [done|]. split.
  - rewrite take_app_length' in Hb2 by (by rewrite length_fmap).
    rewrite drop_app_ge, drop_replicate, length_fmap in Hb2 by (rewrite length_fmap; lia).
    replace (n + m - (length ws + n - length ws))%nat with m in Hb2 by lia.
    by rewrite fmap_app, <- app_assoc.
  - apply Forall2_app; [done|]. by apply Forall2_take, Forall2_drop.
  - rewrite length_app, length_take, length_drop. intros Hn. apply Hd. lia.
  - intros k cs rck Hk Hk1. destruct (Ho _ _ _ Hk Hk1) as (rc1 & Hk2). by eapply Ho2.
  - done.
  - lia.
Qed.

Lemma fill_write s s' d ws ys m K y v :
  filling s s' d ws ys (S m) (v :: K) -> den (heap s) y v ->
  exists s2, write_cell d (Z.of_nat (length ws) + 1) v s' = Some (tt, s2) /\
    filling s s2 d (ws ++ [v]) (ys ++ [y]) m K.
Proof.
  intros [Hb Hf Hd Ho He Hz] Hy.
  destruct (building_write s' d _ K v (length ws) Hb) as (s2 & E & Hb2 & (Ho2 & Hz2 & _)).
  { rewrite lookup_app_r by (rewrite length_fmap; lia). by rewrite length_fmap, Nat.sub_diag. }
  exists s2. split; [done|]. split.
  - rewrite insert_app_r_alt in Hb2 by (rewrite length_fmap; lia).
    rewrite length_fmap, Nat.sub_diag in Hb2. simpl in Hb2. by rewrite fmap_app, <- app_assoc.
  - apply Forall2_app; [done|]. by repeat constructor.
  - rewrite length_app. simpl. intros Hn. apply Hd. lia.
  - intros k cs rck Hk Hk1. destruct (Ho _ _ _ Hk Hk1) as (rc1 & Hk2). by eapply Ho2.
  - done.
  - lia.
Qed.

Lemma fill_finish s s' d ws ys K :
  filling s s' d ws ys 0 K ->
  owns s' (RList d :: K) /\ den (heap s') (VList ys) (RList d) /\ preserves s s' K /\
  (size (heap s') <= size (heap s) + 1)%nat /\
  (ys <> [] -> heap s' !! d = Some (Some <$> ws, 1) /\ emptylist s' <> Some d).
Proof.
  intros [Hb Hf Hd Ho He Hz]. simpl in Hb. rewrite app_nil_r in Hb.
  destruct (building_finish s' d ws K Hb) as (Hown & rc & Hl).
  assert (extends (heap s) (heap s')) as Hext.
  { intros k cs rck Hk. destruct (decide (k = d)) as [->|Hkd]; [|by eapply Ho].
    pose proof (He _ _ Hk) as ->. destruct ws as [|w ws]; [by exists rc|]. rewrite Hd in Hk; [done|simpl; lia]. }
  split_and!; [done| |by apply preserves_extends|done|].
  - apply den_list. exists d, ws, rc. split_and!; [done..|].
    eapply Forall2_impl; [exact Hf|]. intros x v. by apply den_extends.
  - intros Hne. destruct ws as [|w ws]; [by inversion Hf; subst|].
    destruct Hb as (s0 & -> & Hs0 & Hown0). split; [apply heap_ins_eq|]. simpl.
    intros E. destruct (own_empty _ _ Hown0 d E) as [o Hod]. by rewrite Hs0 in Hod.
Qed.

(** Releasing an argument *)
Lemma free_arg fuel s l K :
  owns s (RList l :: K) -> (size (heap s) < fuel)%nat ->
  exists s', free_var fuel (RList l) s = Some (tt, s') /\ owns s' K /\ preserves s s' K /\
    (size (heap s') <= size (heap s))%nat /\ freed s s'.
Proof.
  intros Ho Hf. destruct (free_rval_ok fuel (RList l) s K Ho Hf) as (s' & E & Ho' & Hfr).
  exists s'. split_and!; [done..| |apply Hfr|done]. by eapply freed_preserves.
Qed.

Lemma owns_swap s v w K : owns s (v :: w :: K) -> owns s (w :: v :: K).
Proof. apply owns_perm. apply perm_swap. Qed.

(** ** Copies of parts of lists *)

Lemma preserves_roots s1 s2 s3 K1 K2 K :
  preserves s1 s2 K1 -> preserves s2 s3 K2 -> (forall v, v ∈ K -> v ∈ K1 /\ v ∈ K2) -> preserves s1 s3 K.
Proof. intros H1 H2 HK v x Hv Hx. destruct (HK v Hv). apply H2; [done|]. by apply H1. Qed.

(** The list is finished and one argument released. *)
Lemma finish_free fuel s s1 d ws ys l K :
  filling s s1 d ws ys 0 (RList l :: K) -> (size (heap s) + 2 <= fuel)%nat ->
  exists s2, free_var fuel (RList l) s1 = Some (tt, s2) /\
    owns s2 (RList d :: K) /\ den (heap s2) (VList ys) (RList d) /\ preserves s s2 K /\
    (size (heap s2) <= size (heap s) + 1)%nat.
Proof.
  intros Hfl Hf. destruct (fill_finish _ _ _ _ _ _ Hfl) as (Ho1 & Hd1 & Hp1 & Hz1 & _).
  destruct (free_arg fuel s1 l (RList d :: K)) as (s2 & E2 & Ho2 & Hp2 & Hz2 & _); [by apply owns_swap|lia|].
  exists s2. split_and!; [done..| | |lia].
  - apply Hp2; [by left|done].
  - eapply preserves_roots; [done..|]. set_solver.
Qed.

Lemma sublist_ok fuel s list xs K lower upper :
  owns s (RList list :: K) -> den (heap s) (VList xs) (RList list) -> (size (heap s) + 2 <= fuel)%nat ->
  (lower <= upper -> 1 <= lower /\ upper <= Z.of_nat (length xs)) ->
  yields K (take (Z.to_nat (upper - lower + 1)) (drop (Z.to_nat (lower - 1)) xs))
    (sublist fuel list lower upper) s.
Proof.
  intros Ho [vs Hh]%den_holds Hf Hr. unfold yields, sublist. destruct (upper <? lower) eqn:E.
  - destruct (fill_start s 0 _ Ho) as (d & s1 & E1 & Hfl).
    destruct (finish_free fuel _ _ _ _ _ _ _ Hfl Hf) as (s2 & E2 & Ho2 & Hd2 & Hp2 & Hz2).
    exists d, s2. erewrite mbind_Some by exact E1. cbv beta. erewrite mbind_Some by exact E2.
    replace (Z.to_nat (upper - lower + 1)) with 0%nat by lia. done.
  - set (n := Z.to_nat (upper - lower + 1)). set (i := Z.to_nat (lower - 1)).
    destruct (fill_start s n _ Ho) as (d & s1 & E1 & Hfl). rewrite <- (Nat.add_0_r n) in Hfl.
    destruct (fill_copy _ _ _ _ _ _ _ _ list vs xs i Hfl Hh) as (s2 & E2 & Hfl2); [lia|].
    destruct (finish_free fuel _ _ _ _ _ _ _ Hfl2 Hf) as (s3 & E3 & Ho3 & Hd3 & Hp3 & Hz3).
    exists d, s3. erewrite mbind_Some by exact E1. cbv beta.
    assert (Z.of_nat i + 1 = lower) as Ei by (unfold i; lia). rewrite Ei in E2.
    erewrite mbind_Some by exact E2. by erewrite mbind_Some by exact E3.
Qed.

Lemma listdelete_ok fuel s list xs K pos :
  owns s (RList list :: K) -> den (heap s) (VList xs) (RList list) -> (size (heap s) + 2 <= fuel)%nat ->
  1 <= pos <= Z.of_nat (length xs) ->
  yields K (take (Z.to_nat (pos - 1)) xs ++ drop (Z.to_nat pos) xs) (listdelete fuel list pos) s.
Proof.
  intros Ho [vs Hh]%den_holds Hf Hr. unfold yields, listdelete.
  erewrite (mbind_Some (list_len list)) by (by eapply list_len_eq). cbv beta.
  set (n1 := Z.to_nat (pos - 1)). set (n2 := Z.to_nat (Z.of_nat (length xs) - pos)).
  assert (Z.of_nat n1 = pos - 1 /\ Z.of_nat n2 = Z.of_nat (length xs) - pos) as [N1 N2] by (unfold n1, n2; lia).
  clearbody n1 n2. destruct (fill_start s (n1 + n2) _ Ho) as (d & s1 & E1 & Hfl).
  destruct (fill_copy _ _ _ _ _ _ _ _ list vs xs 0 Hfl Hh) as (s2 & E2 & Hfl2); [lia|].
  rewrite <- (Nat.add_0_r n2) in Hfl2.
  destruct (fill_copy _ _ _ _ _ _ _ _ list vs xs (S n1) Hfl2 Hh) as (s3 & E3 & Hfl3); [lia|].
  destruct (finish_free fuel _ _ _ _ _ _ _ Hfl3 Hf) as (s4 & E4 & Ho4 & Hd4 & Hp4 & Hz4).
  pose proof (holds_length _ _ _ _ Hh) as Hlen. rewrite !drop_0 in *. simpl app in *.
  rewrite length_take, Nat.min_l in E3 by lia.
  replace (Z.of_nat (S n1) + 1) with (pos + 1) in E3 by lia. replace (Z.of_nat n1 + 1) with pos in E3 by lia.
  exists d, s4. replace (length xs - 1)%nat with (n1 + n2)%nat by lia.
  erewrite mbind_Some by exact E1. cbv beta. erewrite mbind_Some by exact E2.
  erewrite mbind_Some by exact E3. erewrite mbind_Some by exact E4.
  rewrite (take_ge (drop _ xs)) in Hd4 by (rewrite length_drop; lia).
  by replace (Z.to_nat pos) with (S n1) by lia.
Qed.

Lemma listconcat_ok fuel s l1 l2 xs1 xs2 K :
  owns s (RList l1 :: RList l2 :: K) -> den (heap s) (VList xs1) (RList l1) -> den (heap s) (VList xs2) (RList l2) ->
  (size (heap s) + 2 <= fuel)%nat ->
  yields K (xs1 ++ xs2) (listconcat fuel l1 l2) s.
Proof.
  intros Ho [vs1 Hh1]%den_holds [vs2 Hh2]%den_holds Hf. unfold yields, listconcat.
  erewrite (mbind_Some (list_len l2)) by (by eapply list_len_eq). cbv beta.
  erewrite (mbind_Some (list_len l1)) by (by eapply list_len_eq). cbv beta.
  destruct (fill_start s (length xs1 + length xs2) _ Ho) as (d & s1 & E1 & Hfl).
  destruct (fill_copy _ _ _ _ _ _ _ _ l1 vs1 xs1 0 Hfl Hh1) as (s2 & E2 & Hfl2); [lia|].
  rewrite <- (Nat.add_0_r (length xs2)) in Hfl2.
  destruct (fill_copy _ _ _ _ _ _ _ _ l2 vs2 xs2 0 Hfl2 Hh2) as (s3 & E3 & Hfl3); [lia|].
  destruct (finish_free fuel _ _ _ _ _ _ _ Hfl3 Hf) as (s4 & E4 & Ho4 & Hd4 & Hp4 & Hz4).
  destruct (free_arg fuel s4 l2 (RList d :: K)) as (s5 & E5 & Ho5 & Hp5 & Hz5 & _); [by apply owns_swap|lia|].
  pose proof (holds_length _ _ _ _ Hh1) as Hlen1. pose proof (holds_length _ _ _ _ Hh2) as Hlen2.
  rewrite !drop_0 in *. simpl app in *.
  rewrite (take_ge vs1) in E3 by lia. rewrite Hlen1 in E3. rewrite (Z.add_comm 1).
  rewrite (take_ge xs1), (take_ge xs2) in Hd4 by lia.
  exists d, s5. rewrite (Nat.add_comm (length xs2)). erewrite mbind_Some by exact E1. cbv beta.
  erewrite mbind_Some by exact E2. erewrite mbind_Some by exact E3. erewrite mbind_Some by exact E4.
  erewrite mbind_Some by exact E5. split_and!; [done..| | |lia].
  - apply Hp5; [by left|done].
  - eapply preserves_roots; [done..|]. set_solver.
Qed.

Lemma listrangeset_ok fuel s base value xs ys K from to :
  owns s (RList base :: RList value :: K) -> den (heap s) (VList xs) (RList base) ->
  den (heap s) (VList ys) (RList value) -> (size (heap s) + 2 <= fuel)%nat ->
  from <= Z.of_nat (length xs) + 1 -> 0 <= to ->
  yields K (take (Z.to_nat (from - 1)) xs ++ ys ++ drop (Z.to_nat to) xs) (listrangeset fuel base from to value) s.
Proof.
  intros Ho [vs Hh]%den_holds [ws Hw]%den_holds Hf Hfrom Hto. unfold yields, listrangeset.
  erewrite (mbind_Some (list_len value)) by (by eapply list_len_eq). cbv beta.
  erewrite (mbind_Some (list_len base)) by (by eapply list_len_eq). cbv beta.
  set (lenleft := if 1 <? from then from - 1 else 0).
  set (lenright := if to <? Z.of_nat (length xs) then Z.of_nat (length xs) - to else 0).
  set (n1 := Z.to_nat (from - 1)). set (n3 := (length xs - Z.to_nat to)%nat).
  assert (lenleft = Z.of_nat n1) as E1 by (unfold lenleft, n1; case_match; lia).
  assert (lenright = Z.of_nat n3) as E3 by (unfold lenright, n3; case_match; lia).
  rewrite E1, E3. assert (n1 <= length xs)%nat as L1 by (unfold n1; lia).
  assert (n3 <> 0%nat -> (Z.to_nat to + n3 = length xs)%nat) as L3 by (unfold n3; lia).
  clearbody lenleft lenright. rewrite !Nat2Z.id.
  replace (Z.to_nat (Z.of_nat n1 + Z.of_nat (length ys) + Z.of_nat n3)) with (n1 + (length ys + n3))%nat by lia.
  destruct (fill_start s (n1 + (length ys + n3)) _ Ho) as (d & s1 & F1 & Hfl).
  destruct (fill_copy _ _ _ _ _ _ _ _ base vs xs 0 Hfl Hh) as (s2 & F2 & Hfl2); [lia|].
  destruct (fill_copy _ _ _ _ _ _ _ _ value ws ys 0 Hfl2 Hw) as (s3 & F3 & Hfl3); [lia|].
  rewrite <- (Nat.add_0_r n3) in Hfl3.
  destruct (fill_copy _ _ _ _ _ _ _ _ base vs xs (length xs - n3) Hfl3 Hh) as (s4 & F4 & Hfl4); [lia|].
  destruct (finish_free fuel _ _ _ _ _ _ _ Hfl4 Hf) as (s5 & F5 & Ho5 & Hd5 & Hp5 & Hz5).
  destruct (free_arg fuel s5 value (RList d :: K)) as (s6 & F6 & Ho6 & Hp6 & Hz6 & _); [by apply owns_swap|lia|].
  pose proof (holds_length _ _ _ _ Hh) as Hlen1. pose proof (holds_length _ _ _ _ Hw) as Hlen2.
  rewrite !drop_0 in *. simpl app in *. rewrite (take_ge ws) in F4 by lia.
  rewrite length_take, Nat.min_l in F3 by lia.
  rewrite length_app, length_take, Nat.min_l in F4 by lia.
  exists d, s6. erewrite mbind_Some by exact F1. cbv beta. erewrite mbind_Some by exact F2.
  rewrite (Z.add_comm 1). erewrite mbind_Some by exact F3.
  assert (copy_cells n3 base (to + 1) d (Z.of_nat n1 + 1 + Z.of_nat (length ys)) s3 = Some (tt, s4)) as F4'.
  { destruct n3 as [|n3]; [exact F4|].
    replace (to + 1) with (Z.of_nat (length xs - S n3) + 1) by lia.
    by replace (Z.of_nat n1 + 1 + Z.of_nat (length ys)) with (Z.of_nat (n1 + length ws) + 1) by lia. }
  erewrite mbind_Some by exact F4'. erewrite mbind_Some by exact F5. erewrite mbind_Some by exact F6.
  split_and!; [done..| | |lia].
  - apply Hp6; [by left|]. rewrite (take_ge ys) in Hd5 by lia.
    rewrite (take_ge (drop _ xs)) in Hd5 by (rewrite length_drop; lia).
    rewrite <- app_assoc in Hd5. replace (drop (length xs - n3) xs) with (drop (Z.to_nat to) xs) in Hd5; [done|].
    destruct (decide (n3 = 0%nat)) as [Hz|Hz]; [|f_equal; lia].
    rewrite !drop_ge; [done|lia|]. unfold n3 in Hz. lia.
  - eapply preserves_roots; [done..|]. set_solver.
Qed.

(** ** Updates in place *)

Lemma den_del s l (K R : list rval) x v :
  owns (del l s) R -> (forall w, w ∈ K -> w ∈ R) -> v ∈ K -> den (heap s) x v -> den (heap (del l s)) x v.
Proof.
  intros Ho HK Hv Hx. eapply (preserves_shrinks s (del l s) R K); try done.
  apply lighter_extends, lighter_delete.
Qed.

Lemma ins_del s l o o' : heap s !! l = Some o' -> ins l o (del l s) = ins l o s.
Proof. intros _. unfold ins, del. simpl. f_equal. apply insert_delete_eq. Qed.
Lemma ins_id s l o : heap s !! l = Some o -> ins l o s = s.
Proof. intros Hl. destruct s. unfold ins. simpl in *. f_equal. by apply insert_id. Qed.

Lemma Forall2_den_impl h h' xs vs :
  Forall2 (den h) xs vs -> (forall x v, v ∈ vs -> den h x v -> den h' x v) -> Forall2 (den h') xs vs.
Proof.
  induction 1 as [|x v xs vs Hx _ IH]; intros H; constructor; [apply H; [by left|done]|].
  apply IH. intros y w Hw. apply H. by right.
Qed.

(** A list with one reference gets one more cell. *)
Lemma append_in_place s list vs xs K y v :
  owns s (RList list :: v :: K) -> heap s !! list = Some (Some <$> vs, 1) -> emptylist s <> Some list ->
  Forall2 (den (heap s)) xs vs -> den (heap s) y v ->
  owns (ins list (Some <$> (vs ++ [v]), 1) s) (RList list :: K) /\
  den (heap (ins list (Some <$> (vs ++ [v]), 1) s)) (VList (xs ++ [y])) (RList list) /\
  preserves s (ins list (Some <$> (vs ++ [v]), 1) s) K.
Proof.
  intros Ho Hl He Hf Hy. pose proof (owns_unpack s _ list _ 1 Ho Hl He eq_refl) as Hu. rewrite cellvals_some in Hu.
  assert (heap (del list s) !! list = None) as Hn by apply lookup_delete_eq.
  rewrite <- (ins_del s list _ _ Hl).
  assert (forall x w, w ∈ vs ++ v :: K -> den (heap s) x w ->
    den (heap (ins list (Some <$> (vs ++ [v]), 1) (del list s))) x w) as Hk.
  { intros x w Hw Hx. eapply den_extends; [by apply extends_insert|].
    by eapply (den_del s list (vs ++ v :: K)). }
  split_and!.
  - apply owns_pack; [|done]. rewrite <- app_assoc. exact Hu.
  - apply den_list. exists list, (vs ++ [v]), 1. split_and!; [done|apply heap_ins_eq|].
    apply Forall2_app; [|repeat constructor; apply Hk; [set_solver|done]].
    eapply Forall2_den_impl; [done|]. intros x w Hw. apply Hk. set_solver.
  - intros w x Hw. apply Hk. set_solver.
Qed.

(** One cell of a list with one reference is replaced. *)
Lemma set_in_place fuel s list vs xs K y v i :
  owns s (RList list :: v :: K) -> heap s !! list = Some (Some <$> vs, 1) -> emptylist s <> Some list ->
  Forall2 (den (heap s)) xs vs -> den (heap s) y v -> (i < length vs)%nat -> (size (heap s) < fuel)%nat ->
  exists s',
    (let! old := read_cell list (Z.of_nat i + 1) in
     free_var fuel old ;; write_cell list (Z.of_nat i + 1) v ;; mreturn list) s = Some (list, s') /\
    owns s' (RList list :: K) /\ den (heap s') (VList (<[i := y]> xs)) (RList list) /\ preserves s s' K /\
    (size (heap s') <= size (heap s))%nat.
Proof.
  intros Ho Hl He Hf Hy Hi Hfuel. pose proof (owns_unpack s _ list _ 1 Ho Hl He eq_refl) as Hu.
  rewrite cellvals_some in Hu. destruct (lookup_lt_is_Some_2 vs i Hi) as [old Hold].
  set (rest := take i vs ++ drop (S i) vs ++ v :: K).
  assert (owns (del list s) (old :: rest)) as Hu2.
  { eapply owns_perm; [|exact Hu]. rewrite <- (take_drop_middle vs i old Hold) at 1. rewrite <- app_assoc.
    symmetry. apply Permutation_middle. }
  assert (heap (del list s) !! list = None) as Hn by apply lookup_delete_eq.
  destruct (free_rval_ok fuel old (del list s) rest Hu2) as (s1 & E1 & Ho1 & Hfr).
  { simpl. rewrite map_size_delete_Some by (by rewrite Hl). lia. }
  destruct (free_var_frames fuel old list (Some <$> vs, 1) _ _ E1 Hn) as [E2 Hn1].
  rewrite (ins_del s list _ _ Hl), (ins_id s) in E2 by done.
  exists (ins list (Some <$> <[i := v]> vs, 1) s1).
  assert (forall x w, w ∈ rest -> den (heap s) x w ->
    den (heap (ins list (Some <$> <[i := v]> vs, 1) s1)) x w) as Hk.
  { intros x w Hw Hx. eapply den_extends; [by apply extends_insert|].
    eapply (freed_preserves (del list s) s1 rest rest); try done.
    eapply (den_del s list rest (old :: rest)); try done. set_solver. }
  split_and!.
  - erewrite mbind_Some by (by eapply read_cell_eq). cbv beta. erewrite mbind_Some by exact E2.
    erewrite mbind_Some by (apply (write_cell_eq list (Some <$> vs) 1); [apply heap_ins_eq|by rewrite length_fmap]).
    rewrite ins_ins. by rewrite list_fmap_insert.
  - apply owns_pack; [|done]. eapply owns_perm; [|exact Ho1]. unfold rest.
    rewrite insert_take_drop by done. rewrite <- app_assoc. apply Permutation_app_head. simpl.
    symmetry. apply Permutation_middle.
  - apply den_list. exists list, (<[i := v]> vs), 1. split_and!; [done|apply heap_ins_eq|].
    generalize dependent (ins list (Some <$> <[i := v]> vs, 1) s1). intros s2 Hk.
    pose proof (Forall2_length _ _ _ Hf) as Hlen.
    rewrite !insert_take_drop by lia. apply Forall2_app.
    + eapply Forall2_den_impl; [by apply Forall2_take|]. intros x w Hw; apply Hk. set_solver.
    + constructor; [apply Hk; [set_solver|done]|].
      eapply Forall2_den_impl; [by apply Forall2_drop|]. intros x w Hw; apply Hk. set_solver.
  - intros w x Hw. apply Hk. set_solver.
  - unfold ins. cbn [heap]. rewrite map_size_insert_None by done. destruct Hfr as (_ & _ & Hz). simpl in Hz.
    rewrite map_size_delete_Some in Hz by (by rewrite Hl). assert (size (heap s) <> 0)%nat; [|lia].
    intros E. apply map_size_empty_inv in E. by rewrite E in Hl.
Qed.

(** An object that is a root: its count says whether it is shared. *)
Lemma root_count s l K vs rc :
  owns s (RList l :: K) -> heap s !! l = Some (Some <$> vs, rc) -> rc <= 1 -> rc = 1 /\ emptylist s <> Some l.
Proof.
  intros Ho Hl Hrc. pose proof (own_count s _ Ho l) as Hc. rewrite Hl in Hc. simpl in Hc.
  rewrite (decide_True (P:=l = l)) in Hc by done. case_decide; [lia|]. split; [lia|done].
Qed.

Lemma preserves_cons s s' v K x :
  preserves s s' (v :: K) -> den (heap s) x v -> den (heap s') x v /\ preserves s s' K.
Proof. intros H Hx. split; [apply H; [by left|done]|]. eapply preserves_sub; [|exact H]. set_solver. Qed.

Lemma list_dup_ok s list xs K :
  owns s K -> den (heap s) (VList xs) (RList list) ->
  exists d s', list_dup list s = Some (d, s') /\ owns s' (RList d :: K) /\ den (heap s') (VList xs) (RList d) /\
    preserves s s' K /\ (size (heap s') <= size (heap s) + 1)%nat /\
    (xs <> [] -> exists vs, heap s' !! d = Some (Some <$> vs, 1) /\ emptylist s' <> Some d).
Proof.
  intros Ho [vs Hh]%den_holds. unfold list_dup.
  destruct (fill_start s (length xs) _ Ho) as (d & s1 & E1 & Hfl). rewrite <- (Nat.add_0_r (length xs)) in Hfl.
  destruct (fill_copy _ _ _ _ _ _ _ _ list vs xs 0 Hfl Hh) as (s2 & E2 & Hfl2); [lia|].
  rewrite !drop_0, (take_ge xs) in Hfl2 by lia.
  destruct (fill_finish _ _ _ _ _ _ Hfl2) as (Ho2 & Hd2 & Hp2 & Hz2 & Hn).
  exists d, s2. split_and!; [|done..|].
  - erewrite (mbind_Some (list_len list)) by (by eapply list_len_eq). cbv beta.
    erewrite mbind_Some by exact E1. cbv beta. by erewrite mbind_Some by exact E2.
  - intros Hne. destruct (Hn Hne) as [H1 H2]. by exists (take (length xs) vs).
Qed.

Lemma listset_ok fuel s list xs K y v pos :
  owns s (RList list :: v :: K) -> den (heap s) (VList xs) (RList list) -> den (heap s) y v ->
  (size (heap s) + 2 <= fuel)%nat -> 1 <= pos <= Z.of_nat (length xs) ->
  yields K (<[Z.to_nat (pos - 1) := y]> xs) (listset fuel list v pos) s.
Proof.
  intros Ho Hx Hy Hf Hpos. unfold listset.
  set (i := Z.to_nat (pos - 1)). assert (Z.of_nat i + 1 = pos) as Ei by (unfold i; lia).
  assert (i < length xs)%nat as Hi by lia. clearbody i. rewrite <- Ei. clear pos Hpos Ei.
  pose proof Hx as [vs [[rc Hl] Hvs]]%den_holds.
  assert (var_refcount list s = Some (rc, s)) as Erc.
  { unfold var_refcount. by erewrite mbind_Some by (by apply get_list_eq). }
  destruct (1 <? rc) eqn:E1.
  - destruct (list_dup_ok s list xs _ Ho Hx) as (d & s1 & Ed & Ho1 & Hd1 & Hp1 & Hz1 & Hn).
    destruct Hn as (ws & Hw & He1); [intros ->; simpl in Hi; lia|].
    destruct (free_arg fuel s1 list (RList d :: v :: K)) as (s2 & E2 & Ho2 & Hp2 & Hz2 & Hfr);
      [by apply owns_swap|lia|].
    assert (den (heap s1) y v) as Hy1 by (apply Hp1; [set_solver|done]).
    destruct (preserves_cons _ _ _ _ _ Hp2 Hd1) as [Hd2 Hp2'].
    destruct (preserves_cons _ _ _ _ _ Hp2' Hy1) as [Hy2 Hp2''].
    apply den_holds in Hd2 as (ws' & [rc2 Hw2] & Hws).
    destruct Hfr as (Hlight & He & _). destruct (Hlight _ _ _ Hw2) as (rc3 & Hw3 & Hle).
    rewrite Hw in Hw3. injection Hw3 as Hww <-. apply list_fmap_eq_inj in Hww; [|by intros ?? [= ->]]. subst ws'.
    destruct (root_count s2 d _ ws rc2 Ho2 Hw2 Hle) as [-> He2].
    destruct (set_in_place fuel s2 d ws xs K y v i Ho2 Hw2 He2 Hws Hy2) as (s3 & E3 & Ho3 & Hd3 & Hp3 & Hz3);
      [by rewrite <- (Forall2_length _ _ _ Hws)|lia|].
    exists d, s3. split_and!; [|done|done| |lia].
    + erewrite mbind_Some by exact Erc. cbv beta. rewrite E1. rewrite mbind_assoc.
      erewrite mbind_Some by exact Ed. cbv beta. rewrite mbind_assoc. erewrite mbind_Some by exact E2.
      exact E3.
    + eapply preserves_trans; [|exact Hp3]. eapply preserves_roots; [exact Hp1|exact Hp2''|]. set_solver.
  - destruct (root_count s list _ vs rc Ho Hl) as [-> He]; [lia|].
    destruct (set_in_place fuel s list vs xs K y v i Ho Hl He Hvs Hy) as (s3 & E3 & Ho3 & Hd3 & Hp3 & Hz3);
      [by rewrite <- (Forall2_length _ _ _ Hvs)|lia|].
    exists list, s3. split_and!; [|done|done|done|lia]. erewrite mbind_Some by exact Erc. cbv beta. rewrite E1.
    exact E3.
Qed.

Lemma doinsert_ok fuel s list xs K y v pos :
  owns s (RList list :: v :: K) -> den (heap s) (VList xs) (RList list) -> den (heap s) y v ->
  (size (heap s) + 2 <= fuel)%nat -> 1 <= pos <= Z.of_nat (length xs) + 1 ->
  yields K (take (Z.to_nat (pos - 1)) xs ++ y :: drop (Z.to_nat (pos - 1)) xs) (doinsert fuel list v pos) s.
Proof.
  intros Ho Hx Hy Hf Hpos. unfold doinsert, yields.
  set (i := Z.to_nat (pos - 1)). assert (Z.of_nat i + 1 = pos) as Ei by (unfold i; lia). clearbody i.
  pose proof Hx as [vs Hh]%den_holds. pose proof (holds_length _ _ _ _ Hh) as Hlen.
  pose proof Hh as [[rc Hl] Hvs].
  erewrite (mbind_Some (list_len list)) by (by eapply list_len_eq). cbv beta.
  erewrite (mbind_Some (is_emptylist list)) by done. cbv beta.
  erewrite (mbind_Some (var_refcount list)).
  2:{ unfold var_refcount. by erewrite mbind_Some by (by apply get_list_eq). }
  cbn [snd]. set (in_place := negb _ && _ && _). destruct in_place eqn:E0; subst in_place.
  - apply andb_true_iff in E0 as [[E1 E2]%andb_true_iff E3]. apply Z.eqb_eq in E2 as ->.
    assert (emptylist s <> Some list) as He by (by case_bool_decide).
    destruct (append_in_place s list vs xs K y v Ho Hl He Hvs Hy) as (H1 & H2 & H3).
    assert (i = length xs) as -> by lia. rewrite take_ge, drop_ge by done.
    exists list, (ins list (Some <$> (vs ++ [v]), 1) s). split_and!; [|done|done|done|].
    2:{ unfold ins. cbn [heap]. rewrite map_size_insert_Some by (by rewrite Hl). lia. }
    erewrite mbind_Some by (by apply get_list_eq). cbn [fst snd].
    erewrite mbind_Some by (by apply (put_list_eq list _ (Some <$> vs, 1))). by rewrite fmap_app.
  - clear E0. destruct (fill_start s (S (length xs)) (v :: RList list :: K)) as (d & s1 & F1 & Hfl);
      [by apply owns_swap|].
    replace (S (length xs)) with (i + S (length xs - i))%nat in Hfl by lia.
    destruct (fill_copy _ _ _ _ _ _ _ _ list vs xs 0 Hfl Hh) as (s2 & F2 & Hfl2); [lia|].
    destruct (fill_write _ _ _ _ _ _ _ y v Hfl2 Hy) as (s3 & F3 & Hfl3).
    rewrite <- (Nat.add_0_r (length xs - i)) in Hfl3.
    destruct (fill_copy _ _ _ _ _ _ _ _ list vs xs i Hfl3 Hh) as (s4 & F4 & Hfl4); [lia|].
    destruct (finish_free fuel _ _ _ _ _ _ _ Hfl4 Hf) as (s5 & F5 & Ho5 & Hd5 & Hp5 & Hz5).
    rewrite !drop_0 in *. simpl app in *. rewrite length_take, Nat.min_l in F3 by lia.
    rewrite length_app, length_take, Nat.min_l in F4 by lia. simpl length in F4.
    exists d, s5. erewrite (mbind_Some (new_list _)) by exact F1. cbv beta.
    replace (Z.to_nat (pos - 1)) with i by lia. erewrite mbind_Some by exact F2.
    rewrite Ei in F3. erewrite mbind_Some by exact F3.
    replace (Z.to_nat (Z.of_nat (length xs) - pos + 1)) with (length xs - i)%nat by lia.
    replace (Z.of_nat (i + 1) + 1) with (pos + 1) in F4 by lia. rewrite Ei in F4.
    erewrite mbind_Some by exact F4. erewrite mbind_Some by exact F5. split_and!; [done..| |done|done].
    rewrite (take_ge (drop i xs)), <- app_assoc in Hd5 by (rewrite length_drop; lia). exact Hd5.
Qed.
