(* ===== verification/ListEqual.v ===== *)
(** * Equality and membership of list objects

    [equality] on values in memory compares the values, whatever objects
    hold them; [ismember], [setadd] and [setremove] are search, addition and
    removal of the first element found. *)
From Stdlib Require Import ZArith Lia.
From stdpp Require Import prelude gmap.
From S2P Require Import Prelude CString Value ListCode ListFree ListSpec.

Local Open Scope Z_scope.
Local Open Scope moo_scope.

(** ** Depth of nested lists *)

Fixpoint depth (x : Var) : nat :=
  match x with VList xs => S (foldr (fun y n => Nat.max (depth y) n) 0%nat xs) | _ => 0%nat end.

Lemma depth_elem x xs : x ∈ xs -> (depth x < depth (VList xs))%nat.
Proof.
  simpl. induction xs as [|y xs IH]; [by intros ?%not_elem_of_nil|].
  intros [->|H]%elem_of_cons; simpl; [lia|]. specialize (IH H). lia.
Qed.

Lemma plain_list xs : plain (VList xs) <-> Forall plain xs.
Proof.
  simpl. induction xs as [|x xs IH]; [done|]. by rewrite Forall_cons, <- IH.
Qed.

Lemma equality_plain_total cm x : forall y, plain x -> plain y -> exists b, equality x y cm = Some b.
Proof.
  induction x as [xs IH|xs IH|x Hx] using Var_nested_ind; intros y Hp Hq.
  - destruct y as [| | | |ys| | | | | | | | | |]; try (by eexists). rewrite equality_list.
    case_match; [by eexists|]. clear H. apply plain_list in Hp, Hq.
    revert ys Hq. induction IH as [|x xs Hx _ IHxs]; intros [|y ys] Hq; simpl; try by eexists.
    inversion Hp; subst. inversion Hq; subst. destruct (Hx y) as [[] ->]; [done..| |by eexists].
    by apply IHxs.
  - destruct y as [| | | | | | | | | |ys| | | |]; try (by eexists). rewrite equality_map. simpl in Hp, Hq.
    revert ys Hq. induction IH as [|[k x] xs [Hk Hx] _ IHxs]; intros [|[k' y] ys] Hq; simpl; try by eexists.
    destruct Hp as (P1 & P2 & P3), Hq as (Q1 & Q2 & Q3). simpl in Hk, Hx.
    destruct (Hk k') as [[] ->]; [done..| |by eexists]. destruct (Hx y) as [[] ->]; [done..| |by eexists].
    by apply IHxs.
  - destruct x; try done; destruct y; try done; by eexists.
Qed.

(** ** Equality *)

Lemma equality_in_ok cm x : forall fuel s y v w,
  den (heap s) x v -> den (heap s) y w -> plain x -> plain y -> (depth x <= fuel)%nat ->
  exists b, equality x y cm = Some b /\ equality_in fuel v w cm s = Some (b, s).
Proof.
  induction x as [xs IH|xs _|x Hx] using Var_nested_ind; intros fuel s y v w Hv Hw Hp Hq Hf.
  - pose proof Hv as Hv0. apply den_list in Hv as (l & vs & rc & -> & Hl & Hvs).
    destruct fuel as [|fuel]; [simpl in Hf; lia|].
    destruct w as [b|m].
    { exists false. split; [|done]. destruct y; simpl in Hw; try done; by injection Hw as ->. }
    assert (exists ys, y = VList ys) as [ys ->] by (destruct y; simpl in Hw; try done; by eexists).
    pose proof Hw as Hw0. apply den_list in Hw as (m' & ws & rc' & [= <-] & Hm & Hws).
    cbn [equality_in]. case_bool_decide as Hlm.
    { subst m. rewrite (den_inj _ _ _ _ Hv0 Hw0) in *. exists true. split; [by apply equality_plain_refl|done]. }
    rewrite equality_list. erewrite mbind_Some by (by apply get_list_eq). erewrite mbind_Some by (by apply get_list_eq).
    cbn [fst]. rewrite !length_fmap, <- (Forall2_length _ _ _ Hvs), <- (Forall2_length _ _ _ Hws).
    destruct (length xs =? length ys)%nat eqn:El; [|by exists false]. apply Nat.eqb_eq in El. cbn [negb].
    apply plain_list in Hp, Hq.
    assert (Forall (fun x => (depth x <= fuel)%nat) xs) as Hd.
    { apply Forall_forall. intros x Hx%depth_elem. lia. }
    clear Hl Hm Hv0 Hw0 Hf Hlm. revert ys vs ws Hvs Hws Hp Hq El Hd.
    induction IH as [|x xs Hx _ IHxs]; intros ys vs ws Hvs Hws Hp Hq El Hd.
    { inversion Hvs; subst. destruct ys; [|done]. inversion Hws; subst. by exists true. }
    destruct ys as [|y ys]; [done|]. inversion Hvs; subst. inversion Hws; subst.
    apply Forall_cons in Hp as [Hp1 Hp], Hq as [Hq1 Hq], Hd as [Hd1 Hd]. simpl in El.
    destruct (Hx fuel s y y0 y1) as (b & E1 & E2); [done..|]. cbn [listequal fmap list_fmap]. rewrite E1.
    erewrite mbind_Some by exact E2. destruct b; [|by exists false]. apply (IHxs ys); try done. lia.
  - simpl in Hv. subst v. destruct w as [b|m].
    + assert (b = y) as -> by (destruct y; simpl in Hw; try done; by injection Hw).
      destruct (equality_plain_total cm (VMap xs) y Hp Hq) as [r E]. exists r. split; [done|].
      destruct fuel; cbn [equality_in]; by rewrite E.
    + exists false. split; [|by destruct fuel]. destruct y; simpl in Hw; by try done.
  - assert (v = RAtom x) as -> by (by destruct x). destruct w as [b|m].
    + assert (b = y) as -> by (destruct y; simpl in Hw; try done; by injection Hw).
      destruct (equality_plain_total cm x y Hp Hq) as [r E]. exists r. split; [done|].
      destruct fuel; cbn [equality_in]; by rewrite E.
    + exists false. split; [|by destruct fuel]. destruct y; simpl in Hw; try done. by destruct x.
Qed.

(** ** Membership *)

Definition equal (cm : bool) (x y : Var) : bool := default false (equality x y cm).

(** The index of the first element of [xs] equal to [x], from [i]; 0 if
    there is none *)
Fixpoint member_from (cm : bool) (x : Var) (i : Z) (xs : list Var) : Z :=
  match xs with
  | [] => 0
  | y :: xs' => if equal cm x y then i else member_from cm x (i + 1) xs'
  end.

Lemma member_loop_ok cm fuel s x v xs vs : forall i,
  den (heap s) x v -> Forall2 (den (heap s)) xs vs -> plain x -> Forall plain xs -> (depth x <= fuel)%nat ->
  member_loop fuel v cm i (Some <$> vs) s = Some (member_from cm x i xs, s).
Proof.
  intros i Hx Hf Hp Hps Hd. revert i. induction Hf as [|y w xs vs Hy Hf IH]; intros i; [done|].
  apply Forall_cons in Hps as [Hp1 Hps]. destruct (equality_in_ok cm x fuel s y v w) as (b & E1 & E2); try done.
  cbn [fmap list_fmap member_loop]. erewrite mbind_Some by exact E2. simpl. unfold equal. rewrite E1. simpl.
  destruct b; [done|]. by apply IH.
Qed.

Lemma ismember_ok cm fuel s list x v xs :
  den (heap s) x v -> den (heap s) (VList xs) (RList list) -> plain x -> plain (VList xs) -> (depth x <= fuel)%nat ->
  ismember fuel v list cm s = Some (member_from cm x 1 xs, s).
Proof.
  intros Hx Hl Hp Hps Hd. apply den_list in Hl as (l & vs & rc & [= <-] & Hl & Hf). unfold ismember.
  erewrite mbind_Some by (by apply get_list_eq). cbn [fst]. apply plain_list in Hps. by apply member_loop_ok.
Qed.

(** The first of the elements equal to [x] *)
Lemma member_from_spec cm x xs : forall i, 0 < i ->
  (member_from cm x i xs = 0 /\ forall y, y ∈ xs -> equal cm x y = false) \/
  (exists xs1 y xs2, xs = xs1 ++ y :: xs2 /\ member_from cm x i xs = i + Z.of_nat (length xs1) /\
    equal cm x y = true /\ forall z, z ∈ xs1 -> equal cm x z = false).
Proof.
  induction xs as [|y xs IH]; intros i Hi.
  - left. split; [done|]. by intros y ?%not_elem_of_nil.
  - simpl. destruct (equal cm x y) eqn:E.
    + right. exists [], y, xs. split_and!; [done|simpl; lia|done|by intros z ?%not_elem_of_nil].
    + destruct (IH (i + 1)) as [[H1 H2]|(xs1 & z & xs2 & -> & H1 & H2 & H3)]; [lia|left|right].
      * split; [done|]. intros z [->|Hz]%elem_of_cons; auto.
      * exists (y :: xs1), z, xs2. split_and!; [done|simpl; lia|done|].
        intros z' [->|Hz]%elem_of_cons; auto.
Qed.

(** The list without the first element equal to [x] *)
Fixpoint remove_first (cm : bool) (x : Var) (xs : list Var) : list Var :=
  match xs with
  | [] => []
  | y :: xs' => if equal cm x y then xs' else y :: remove_first cm x xs'
  end.

Lemma remove_first_app cm x xs1 y xs2 :
  equal cm x y = true -> (forall z, z ∈ xs1 -> equal cm x z = false) ->
  remove_first cm x (xs1 ++ y :: xs2) = xs1 ++ xs2.
Proof.
  intros Hy H. induction xs1 as [|z xs1 IH]; simpl; [by rewrite Hy|].
  rewrite H by (by left). f_equal. apply IH. intros w Hw. apply H. by right.
Qed.
Lemma remove_first_none cm x xs : (forall z, z ∈ xs -> equal cm x z = false) -> remove_first cm x xs = xs.
Proof.
  intros H. induction xs as [|z xs IH]; simpl; [done|]. rewrite H by (by left). f_equal. apply IH.
  intros w Hw. apply H. by right.
Qed.

Definition contains (cm : bool) (x : Var) (xs : list Var) : bool := existsb (equal cm x) xs.

Lemma contains_app cm x xs1 y xs2 : equal cm x y = true -> contains cm x (xs1 ++ y :: xs2) = true.
Proof. intros H. unfold contains. rewrite existsb_app. simpl. rewrite H. by rewrite orb_true_r. Qed.
Lemma contains_none cm x xs : (forall z, z ∈ xs -> equal cm x z = false) -> contains cm x xs = false.
Proof.
  intros H. induction xs as [|z xs IH]; simpl; [done|]. rewrite H by (by left). apply IH.
  intros w Hw. apply H. by right.
Qed.

(** ** Sets *)

Lemma listappend_ok fuel s list xs K y v :
  owns s (RList list :: v :: K) -> den (heap s) (VList xs) (RList list) -> den (heap s) y v ->
  (size (heap s) + 2 <= fuel)%nat -> yields K (xs ++ [y]) (listappend fuel list v) s.
Proof.
  intros Ho Hx Hy Hf. unfold listappend. pose proof Hx as [vs Hh]%den_holds. unfold yields.
  erewrite (mbind_Some (list_len list)) by (by eapply list_len_eq). cbv beta.
  pose proof (doinsert_ok fuel s list xs K y v (Z.of_nat (length xs) + 1) Ho Hx Hy Hf ltac:(lia)) as H.
  rewrite take_ge, drop_ge in H by lia. exact H.
Qed.

Lemma setadd_ok fuel s list xs K y v :
  owns s (RList list :: v :: K) -> den (heap s) (VList xs) (RList list) -> den (heap s) y v ->
  plain y -> plain (VList xs) -> (depth y <= fuel)%nat -> (size (heap s) + 2 <= fuel)%nat ->
  yields K (if contains false y xs then xs else xs ++ [y]) (setadd fuel list v) s.
Proof.
  intros Ho Hx Hy Hp Hps Hd Hf. unfold setadd, yields.
  erewrite mbind_Some by (by eapply ismember_ok). cbv beta.
  destruct (member_from_spec false y xs 1) as [[-> Hn]|(xs1 & z & xs2 & -> & -> & Hz & _)]; [lia| |].
  - rewrite contains_none by done. by apply listappend_ok.
  - rewrite contains_app by done. rewrite (proj2 (Z.eqb_neq _ _)) by lia. cbn [negb].
    destruct (free_rval_ok fuel v s (RList list :: K)) as (s1 & E1 & Ho1 & Hfr); [by apply owns_swap|lia|].
    exists list, s1. erewrite mbind_Some by exact E1. split_and!; [done..| | |destruct Hfr as (_ & _ & ?); lia].
    + eapply (freed_preserves s s1 _ [RList list]); [done| |done|by left|done]. set_solver.
    + eapply freed_preserves; [done| |done]. set_solver.
Qed.

Lemma setremove_ok fuel s list xs K y v :
  owns s (RList list :: K) -> den (heap s) (VList xs) (RList list) -> den (heap s) y v ->
  plain y -> plain (VList xs) -> (depth y <= fuel)%nat -> (size (heap s) + 2 <= fuel)%nat ->
  yields K (remove_first false y xs) (setremove fuel list v) s.
Proof.
  intros Ho Hx Hy Hp Hps Hd Hf. unfold setremove, yields.
  erewrite mbind_Some by (by eapply ismember_ok). cbv beta.
  destruct (member_from_spec false y xs 1) as [[-> Hn]|(xs1 & z & xs2 & -> & -> & Hz & H1)]; [lia| |].
  - rewrite remove_first_none by done. exists list, s. split_and!; [done..|apply preserves_refl|lia].
  - rewrite remove_first_app by done. rewrite (proj2 (Z.eqb_neq _ _)) by lia. cbn [negb].
    pose proof (listdelete_ok fuel s list _ K (1 + Z.of_nat (length xs1)) Ho Hx Hf) as H.
    replace (Z.to_nat (1 + Z.of_nat (length xs1) - 1)) with (length xs1) in H by lia.
    replace (Z.to_nat (1 + Z.of_nat (length xs1))) with (S (length xs1)) in H by lia.
    rewrite take_app_length, (cons_middle z xs1 xs2), app_assoc, drop_app_length' in H
      by (rewrite length_app; simpl; lia).
    rewrite <- app_assoc in H. apply H. rewrite !length_app. simpl. lia.
Qed.
