(* ===== verification/ListBuiltins.v ===== *)
(** * The built-in functions on lists

    [value_bytes] of utils.cc and the [bf_] functions of list.cc on lists.
    The argument list is a list object that the function releases; the types
    and the number of the arguments have been checked by the caller
    ([call_bi_func]), so a read of another type has no result here. *)
From Stdlib Require Import ZArith Lia.
From stdpp Require Import prelude gmap.
From S2P Require Import Prelude CString Value ListCode ListFree ListSpec ListEqual.

Local Open Scope Z_scope.
Local Open Scope moo_scope.

(** ** Definitions *)

(** Sizes of the x86-64 layout: [Var], [rbtree], and [rbnode] without its
    two values *)
Definition sizeof_Var : Z := 16.
Definition sizeof_rbtree : Z := 16.
Definition sizeof_rbnode : Z := 56.

Section bytes.
Context (waif_bytes : positive -> Z).

(** [value_bytes], with [list_sizeof] and [map_sizeof] *)
Fixpoint value_bytes (v : Var) : Z :=
  match v with
  | VStr s => to_int (sizeof_Var + (Z.of_nat (length s) + 1))
  | VFloat _ => to_int (sizeof_Var + 8)
  | VList l => to_int (sizeof_Var +
      (fix list_sizeof (size : Z) (l : list Var) : Z :=
         match l with [] => size | x :: l' => list_sizeof (to_int (size + value_bytes x)) l' end) sizeof_Var l)
  | VMap m => to_int (sizeof_Var +
      (fix map_sizeof (size : Z) (m : list (Var * Var)) : Z :=
         match m with
         | [] => size
         | (k, x) :: m' =>
           map_sizeof (to_int (to_int (to_int (size + (sizeof_rbnode - 2 * sizeof_Var)) + value_bytes k) + value_bytes x)) m'
         end) sizeof_rbtree m)
  | VWaif w => to_int (sizeof_Var + waif_bytes w)
  | _ => sizeof_Var
  end.

(** The same on a value in memory *)
Fixpoint value_bytes_in (fuel : nat) (v : rval) : M lstore Z :=
  match v with
  | RAtom a => mreturn (value_bytes a)
  | RList l =>
    match fuel with
    | O => mfail
    | S fuel =>
      let! o := get_list l in
      let! n :=
        (fix list_sizeof (size : Z) (cs : cells) : M lstore Z :=
           match cs with
           | [] => mreturn size
           | Some c :: cs' => let! b := value_bytes_in fuel c in list_sizeof (to_int (size + b)) cs'
           | None :: _ => mfail
           end) sizeof_Var (fst o) in
      mreturn (to_int (sizeof_Var + n))
    end
  end.

(** [package], with the value in memory *)
Inductive lpack := LVar (v : rval) | LError (e : error) | LAbort.

(** The options [max_concat_catchable] and [max_list_value_bytes] *)
Context (catchable : bool) (max_list_value_bytes : Z).

Definition make_space_pack : lpack := if catchable then LError E_QUOTA else LAbort.

Definition make_list_pack (fuel : nat) (r : loc) : M lstore lpack :=
  let! n := value_bytes_in fuel (RList r) in
  if n <=? max_list_value_bytes then mreturn (LVar (RList r))
  else free_var fuel (RList r) ;; mreturn make_space_pack.

Definition list_arg (v : rval) : M lstore loc :=
  match v with RList l => mreturn l | RAtom _ => mfail end.
Definition num_arg (v : rval) : M lstore Z :=
  match v with RAtom (VInt n) => mreturn n | _ => mfail end.

Definition bf_length (fuel : nat) (arglist : loc) : M lstore lpack :=
  let! v := read_cell arglist 1 in
  match v with
  | RList l =>
    let! n := list_len l in
    free_var fuel (RList arglist) ;; mreturn (LVar (RAtom (VInt (Z.of_nat n))))
  | RAtom (VMap m) => free_var fuel (RList arglist) ;; mreturn (LVar (RAtom (VInt (Z.of_nat (length m)))))
  | RAtom (VStr s) => free_var fuel (RList arglist) ;; mreturn (LVar (RAtom (VInt (Z.of_nat (length s)))))
  | _ => free_var fuel (RList arglist) ;; mreturn (LError E_TYPE)
  end.

Definition bf_setadd (fuel : nat) (arglist : loc) : M lstore lpack :=
  let! lst := read_cell arglist 1 in
  let! lst := var_ref lst in
  let! elt := read_cell arglist 2 in
  let! elt := var_ref elt in
  free_var fuel (RList arglist) ;;
  let! lst := list_arg lst in
  let! r := setadd fuel lst elt in
  make_list_pack fuel r.

Definition bf_setremove (fuel : nat) (arglist : loc) : M lstore lpack :=
  let! lst := read_cell arglist 1 in
  let! lst := var_ref lst in
  let! elt := read_cell arglist 2 in
  let! lst := list_arg lst in
  let! r := setremove fuel lst elt in
  free_var fuel (RList arglist) ;;
  make_list_pack fuel r.

(** [append1] is 1 or 0; [pos] is an [int]. *)
Definition insert_or_append (fuel : nat) (arglist : loc) (append1 : Z) : M lstore lpack :=
  let! lst := read_cell arglist 1 in
  let! lst := var_ref lst in
  let! elt := read_cell arglist 2 in
  let! elt := var_ref elt in
  let! nargs := list_len arglist in
  let! lst := list_arg lst in
  let! n := list_len lst in
  let! pos :=
    (if (nargs =? 2)%nat then mreturn (if negb (append1 =? 0) then to_int (Z.of_nat n + 1) else 1)
     else
       let! v := read_cell arglist 3 in
       let! k := num_arg v in
       let pos := to_int (to_num (k + append1)) in
       mreturn (if pos <=? 0 then 1
                else if Z.of_nat n + 1 <? pos then to_int (Z.of_nat n + 1) else pos)) in
  free_var fuel (RList arglist) ;;
  let! r := doinsert fuel lst elt pos in
  make_list_pack fuel r.

Definition bf_listappend (fuel : nat) (arglist : loc) : M lstore lpack := insert_or_append fuel arglist 1.
Definition bf_listinsert (fuel : nat) (arglist : loc) : M lstore lpack := insert_or_append fuel arglist 0.

(** [listdelete] takes an [int]. *)
Definition bf_listdelete (fuel : nat) (arglist : loc) : M lstore lpack :=
  let! v := read_cell arglist 2 in
  let! k := num_arg v in
  let! lst := read_cell arglist 1 in
  let! lst := list_arg lst in
  let! n := list_len lst in
  if (k <=? 0) || (Z.of_nat n <? k) then free_var fuel (RList arglist) ;; mreturn (LError E_RANGE)
  else
    let! _ := var_ref (RList lst) in
    let! r := listdelete fuel lst (to_int k) in
    free_var fuel (RList arglist) ;;
    make_list_pack fuel r.

(** The error leaves the two references taken. *)
Definition bf_listset (fuel : nat) (arglist : loc) : M lstore lpack :=
  let! lst := read_cell arglist 1 in
  let! lst := var_ref lst in
  let! elt := read_cell arglist 2 in
  let! elt := var_ref elt in
  let! v := read_cell arglist 3 in
  let! k := num_arg v in
  let pos := to_int k in
  free_var fuel (RList arglist) ;;
  let! lst := list_arg lst in
  let! n := list_len lst in
  if (pos <=? 0) || (Z.of_nat n <? pos) then mreturn (LError E_RANGE)
  else
    let! r := listset fuel lst elt pos in
    make_list_pack fuel r.

Definition bf_equal (fuel : nat) (arglist : loc) : M lstore lpack :=
  let! a := read_cell arglist 1 in
  let! b := read_cell arglist 2 in
  let! e := equality_in fuel a b true in
  free_var fuel (RList arglist) ;;
  mreturn (LVar (RAtom (VInt (Z.b2z e)))).

(** The loop [for (x = elements, y = 1; x >= 1; x--, y++)] *)
Fixpoint reverse_cells (x : nat) (src dst : loc) (y : Z) : M lstore unit :=
  match x with
  | O => mreturn tt
  | S x' =>
    let! v := read_cell src (Z.of_nat x) in
    let! v := var_ref v in
    write_cell dst y v ;;
    reverse_cells x' src dst (y + 1)
  end.

Definition bf_reverse (fuel : nat) (arglist : loc) : M lstore lpack :=
  let! v := read_cell arglist 1 in
  match v with
  | RList l =>
    let! elements := list_len l in
    let! ret := new_list elements in
    reverse_cells elements l ret 1 ;;
    free_var fuel (RList arglist) ;;
    mreturn (LVar (RList ret))
  | RAtom (VStr s) => free_var fuel (RList arglist) ;; mreturn (LVar (RAtom (VStr (rev s))))
  | _ => free_var fuel (RList arglist) ;; mreturn (LError E_INVARG)
  end.

End bytes.

(** ** What the built-in functions on lists rely on

    Sizes in memory, references to arguments, the release of the argument
    list and the size check at the end of a function. *)
Local Open Scope Z_scope.
Local Open Scope moo_scope.

(** ** Arguments *)

Lemma owns_atom s K a : owns s K -> owns s (RAtom a :: K).
Proof. intros []. by split. Qed.
Lemma owns_unatom s K a : owns s (RAtom a :: K) -> owns s K.
Proof. intros []. by split. Qed.

Lemma holds_extends s s' l vs xs : extends (heap s) (heap s') -> holds s l vs xs -> holds s' l vs xs.
Proof.
  intros He [[rc Hl] Hf]. split; [by eapply He|]. eapply Forall2_impl; [exact Hf|]. intros x v. by apply den_extends.
Qed.

Lemma take_arg s R args vs xs i v x :
  owns s R -> holds s args vs xs -> vs !! i = Some v -> xs !! i = Some x ->
  exists s', read_cell args (Z.of_nat i + 1) s = Some (v, s) /\ var_ref v s = Some (v, s') /\
    owns s' (v :: R) /\ holds s' args vs xs /\ extends (heap s) (heap s') /\ size (heap s') = size (heap s).
Proof.
  intros Ho Hh Hv Hx. pose proof Hh as [[rc Hl] Hf].
  assert (read_cell args (Z.of_nat i + 1) s = Some (v, s)) as Er by (by eapply read_cell_eq).
  destruct v as [a|m].
  - exists s. split_and!; [done..|by apply owns_atom|done|apply extends_refl|done].
  - destruct (owns_cell s R args vs rc m Ho Hl) as [[cs rcm] Hm]; [by eapply list_elem_of_lookup_2|].
    assert (extends (heap s) (heap (ins m (cs, rcm + 1) s))) as He by (by apply extends_count with (rc := rcm)).
    exists (ins m (cs, rcm + 1) s). split_and!; [done| |by apply owns_addref|by eapply holds_extends|done|].
    + unfold var_ref. by erewrite mbind_Some by (by apply addref_eq).
    + unfold ins. cbn [heap]. by rewrite map_size_insert_Some by (by rewrite Hm).
Qed.

Lemma holds_den s l vs xs i v x : holds s l vs xs -> vs !! i = Some v -> xs !! i = Some x -> den (heap s) x v.
Proof. intros [_ Hf] Hv Hx. by eapply Forall2_lookup_lr. Qed.

(** References to the first two arguments *)
Record took (s s2 : lstore) (K : list rval) (args : loc) (v1 v2 : rval) (x1 x2 : Var) : Prop := {
  tk_owns : owns s2 (RList args :: v1 :: v2 :: K);
  tk_den1 : den (heap s2) x1 v1;
  tk_den2 : den (heap s2) x2 v2;
  tk_extends : extends (heap s) (heap s2);
  tk_size : size (heap s2) = size (heap s) }.

Lemma take_two s K args vs x1 x2 xs :
  owns s (RList args :: K) -> holds s args vs (x1 :: x2 :: xs) ->
  exists v1 v2 vs' s1 s2, vs = v1 :: v2 :: vs' /\
    read_cell args 1 s = Some (v1, s) /\ var_ref v1 s = Some (v1, s1) /\
    read_cell args 2 s1 = Some (v2, s1) /\ var_ref v2 s1 = Some (v2, s2) /\
    holds s2 args vs (x1 :: x2 :: xs) /\ took s s2 K args v1 v2 x1 x2.
Proof.
  intros Ho Hh. pose proof (holds_length _ _ _ _ Hh) as Hlen. destruct vs as [|v1 [|v2 vs]]; try done.
  destruct (take_arg s _ args _ _ 0 v1 x1 Ho Hh eq_refl eq_refl) as (s1 & R1 & T1 & Ho1 & Hh1 & He1 & Hz1).
  destruct (take_arg s1 _ args _ _ 1 v2 x2 Ho1 Hh1 eq_refl eq_refl) as (s2 & R2 & T2 & Ho2 & Hh2 & He2 & Hz2).
  exists v1, v2, vs, s1, s2. split_and!; [done..|]. split.
  - eapply owns_perm; [|exact Ho2]. etrans; [apply perm_swap|]. etrans; [apply perm_skip, perm_swap|].
    apply perm_swap.
  - by apply (holds_den _ _ _ _ 0 _ _ Hh2).
  - by apply (holds_den _ _ _ _ 1 _ _ Hh2).
  - by eapply extends_trans.
  - congruence.
Qed.

(** The argument list is released; the references remain. *)
Lemma took_free fuel s s2 K args v1 v2 x1 x2 :
  took s s2 K args v1 v2 x1 x2 -> (size (heap s) < fuel)%nat ->
  exists s3, free_var fuel (RList args) s2 = Some (tt, s3) /\ owns s3 (v1 :: v2 :: K) /\
    den (heap s3) x1 v1 /\ den (heap s3) x2 v2 /\ preserves s s3 K /\ (size (heap s3) <= size (heap s))%nat.
Proof.
  intros [Ho H1 H2 He Hz] Hf. destruct (free_arg fuel s2 args _ Ho) as (s3 & E & Ho3 & Hp & Hz3 & _); [lia|].
  exists s3. split_and!; [done..| | | |lia].
  - apply Hp; [set_solver|done].
  - apply Hp; [set_solver|done].
  - eapply preserves_trans; [by apply preserves_extends|]. eapply preserves_sub; [|exact Hp]. set_solver.
Qed.

Section args.
Context (waif_bytes : positive -> Z) (catchable : bool) (max_bytes : Z).
Abbreviation value_bytes := (value_bytes waif_bytes).
Abbreviation value_bytes_in := (value_bytes_in waif_bytes).
Abbreviation make_list_pack := (make_list_pack waif_bytes catchable max_bytes).

(** ** Sizes *)

Definition list_sizeof (size : Z) (xs : list Var) : Z := fold_left (fun n x => to_int (n + value_bytes x)) xs size.

Lemma value_bytes_list xs : value_bytes (VList xs) = to_int (sizeof_Var + list_sizeof sizeof_Var xs).
Proof.
  cbn [ListBuiltins.value_bytes]. f_equal. f_equal. generalize sizeof_Var as z.
  induction xs as [|x xs IH]; intros z; [done|]. apply IH.
Qed.

Lemma value_bytes_in_ok x : forall fuel s v,
  den (heap s) x v -> (depth x <= fuel)%nat -> value_bytes_in fuel v s = Some (value_bytes x, s).
Proof.
  induction x as [xs IH|xs _|x Hx] using Var_nested_ind; intros fuel s v Hv Hf.
  - apply den_list in Hv as (l & vs & rc & -> & Hl & Hvs). destruct fuel as [|fuel]; [simpl in Hf; lia|].
    cbn [ListBuiltins.value_bytes_in]. erewrite mbind_Some by (by apply get_list_eq). cbn [fst].
    rewrite value_bytes_list. generalize sizeof_Var at 1 4 as z.
    assert (Forall (fun x => (depth x <= fuel)%nat) xs) as Hd.
    { apply Forall_forall. intros x Hx%depth_elem. lia. }
    clear Hl Hf. revert vs Hvs Hd. induction IH as [|x xs Hx _ IHxs]; intros vs Hvs Hd z; inversion Hvs; subst; [done|].
    apply Forall_cons in Hd as [Hd1 Hd]. cbn [fmap list_fmap]. rewrite mbind_assoc.
    erewrite mbind_Some by (by apply Hx). cbv beta. by apply IHxs.
  - simpl in Hv. subst. by destruct fuel.
  - assert (v = RAtom x) as -> by (by destruct x). by destruct fuel.
Qed.

(** ** Results *)

(** The package [p] is the abstract result [r], and its value is owned. *)
Definition gives (s : lstore) (K : list rval) (r : package) (p : lpack) : Prop :=
  match r, p with
  | PVar x, LVar v => owns s (v :: K) /\ den (heap s) x v
  | PError e, LError e' => e = e' /\ owns s K
  | PAbort, LAbort => owns s K
  | _, _ => False
  end.
Definition answers (K : list rval) (r : package) (m : M lstore lpack) (s : lstore) : Prop :=
  exists p s', m s = Some (p, s') /\ gives s' K r p /\ preserves s s' K.

(** A list, or the error for one that is too large *)
Definition limited (xs : list Var) : package :=
  if value_bytes (VList xs) <=? max_bytes then PVar (VList xs)
  else if catchable then PError E_QUOTA else PAbort.

Lemma make_list_pack_ok fuel s r xs K :
  owns s (RList r :: K) -> den (heap s) (VList xs) (RList r) -> (depth (VList xs) <= fuel)%nat ->
  (size (heap s) < fuel)%nat -> answers K (limited xs) (make_list_pack fuel r) s.
Proof.
  intros Ho Hx Hd Hf. unfold answers, ListBuiltins.make_list_pack, limited.
  erewrite mbind_Some by (by eapply value_bytes_in_ok). cbv beta.
  destruct (value_bytes (VList xs) <=? max_bytes).
  - eexists _, s. split; [done|]. split; [done|apply preserves_refl].
  - destruct (free_arg fuel s r K Ho Hf) as (s' & E & Ho' & Hp & _). exists (make_space_pack catchable), s'.
    erewrite mbind_Some by exact E. split; [done|]. split; [|done]. unfold make_space_pack. by destruct catchable.
Qed.

Lemma yields_pack fuel s s1 m xs K :
  yields K xs m s1 -> preserves s s1 K -> (depth (VList xs) <= fuel)%nat -> (size (heap s1) + 2 <= fuel)%nat ->
  exists p s', mbindM m (make_list_pack fuel) s1 = Some (p, s') /\ gives s' K (limited xs) p /\ preserves s s' K.
Proof.
  intros (d & s2 & E & Ho & Hx & Hp & Hz) Hp1 Hd Hf.
  destruct (make_list_pack_ok fuel s2 d xs K Ho Hx Hd) as (p & s3 & E3 & Hg & Hp3); [lia|].
  exists p, s3. erewrite mbind_Some by exact E. split_and!; [done..|].
  eapply preserves_trans; [done|]. by eapply preserves_trans.
Qed.

(** A function that only reads its arguments *)
Lemma free_args fuel s args K r p :
  owns s (RList args :: K) -> (size (heap s) < fuel)%nat ->
  (match p, r with LVar (RAtom a), PVar x => a = x /\ forall xs, x <> VList xs | LError e, PError e' => e = e' | _, _ => False end) ->
  answers K r (free_var fuel (RList args) ;; mreturn p) s.
Proof.
  intros Ho Hf Hp. destruct (free_arg fuel s args K Ho Hf) as (s' & E & Ho' & Hpr & _). exists p, s'.
  erewrite mbind_Some by exact E. split; [done|]. split; [|done].
  destruct p as [[a|]|e|], r; try done. simpl.
  destruct Hp as [-> Hx]. split; [by apply owns_atom|]. by apply den_atom.
Qed.
End args.
