(* ===== verification/ListFun.v ===== *)
(** * What the built-in functions on lists return

    For every argument list and every store whose counts are exact, the
    result is the abstract one, the argument list is consumed, the counts
    stay exact, and no other value changes. *)
From Stdlib Require Import ZArith Lia.
From stdpp Require Import prelude gmap.
From S2P Require Import Prelude CString Value ListCode ListFree ListSpec ListEqual ListBuiltins.

Local Open Scope Z_scope.
Local Open Scope moo_scope.

Lemma depth_list n ys : (forall y, y ∈ ys -> (depth y < n)%nat) -> (0 < n)%nat -> (depth (VList ys) <= n)%nat.
Proof.
  intros H Hn. simpl. induction ys as [|y ys IH]; simpl; [lia|].
  assert (depth y < n)%nat by (apply H; by left).
  assert (S (foldr (fun y n => Nat.max (depth y) n) 0%nat ys) <= n)%nat; [|lia].
  apply IH. intros z Hz. apply H. by right.
Qed.
Lemma depth_arg x xs n : (depth (VList xs) <= n)%nat -> x ∈ xs -> (depth x < n)%nat.
Proof. intros H Hx%depth_elem. lia. Qed.

Lemma den_list_root h xs v : den h (VList xs) v -> exists l, v = RList l.
Proof. intros (l & vs & rc & -> & _)%den_list. by exists l. Qed.
Lemma den_int h n v : den h (VInt n) v -> v = RAtom (VInt n).
Proof. done. Qed.

Lemma holds_cell s l vs xs i v :
  holds s l vs xs -> vs !! i = Some v -> read_cell l (Z.of_nat i + 1) s = Some (v, s).
Proof. intros [[rc Hl] _] Hv. by eapply read_cell_eq. Qed.

Section functions.
Context (waif_bytes : positive -> Z) (catchable : bool) (max_bytes : Z).
Abbreviation make_list_pack := (make_list_pack waif_bytes catchable max_bytes).
Abbreviation limited := (limited waif_bytes catchable max_bytes).
Abbreviation bf_setadd := (bf_setadd waif_bytes catchable max_bytes).
Abbreviation bf_setremove := (bf_setremove waif_bytes catchable max_bytes).
Abbreviation insert_or_append := (insert_or_append waif_bytes catchable max_bytes).
Abbreviation bf_listdelete := (bf_listdelete waif_bytes catchable max_bytes).
Abbreviation bf_listset := (bf_listset waif_bytes catchable max_bytes).

(** A function whose last steps consume references to the first two
    arguments *)
Lemma consuming fuel s s3 m zs K :
  yields K zs m s3 -> preserves s s3 K -> (depth (VList zs) <= fuel)%nat ->
  (size (heap s) + 2 <= fuel)%nat -> (size (heap s3) <= size (heap s))%nat ->
  exists p s', mbindM m (make_list_pack fuel) s3 = Some (p, s') /\
    gives s' K (limited zs) p /\ preserves s s' K.
Proof. intros Hy Hp Hd Hf Hz. apply yields_pack; [done..|lia]. Qed.

(** [m] borrows the argument list, which is released after it. *)
Lemma borrowing fuel s s1 m zs args K :
  yields (RList args :: K) zs m s1 -> preserves s s1 K -> (depth (VList zs) <= fuel)%nat ->
  (size (heap s1) + 2 <= fuel)%nat ->
  exists p s', mbindM m (fun r => free_var fuel (RList args) ;; make_list_pack fuel r) s1 = Some (p, s') /\
    gives s' K (limited zs) p /\ preserves s s' K.
Proof.
  intros (d & s2 & E & Ho & Hx & Hp & Hz) Hp1 Hd Hf.
  destruct (free_arg fuel s2 args (RList d :: K)) as (s3 & E3 & Ho3 & Hp3 & Hz3 & _); [by apply owns_swap|lia|].
  destruct (make_list_pack_ok waif_bytes catchable max_bytes fuel s3 d zs K Ho3) as (p & s4 & E4 & Hg & Hp4);
    [apply Hp3; [by left|done]|done|lia|].
  exists p, s4. erewrite mbind_Some by exact E. cbv beta. erewrite mbind_Some by exact E3. split_and!; [done..|].
  eapply preserves_trans; [done|]. eapply preserves_trans; [|done].
  eapply preserves_roots; [exact Hp|exact Hp3|]. set_solver.
Qed.

Lemma setadd_answers fuel s args xs y K :
  owns s (RList args :: K) -> den (heap s) (VList [VList xs; y]) (RList args) ->
  plain (VList xs) -> plain y -> (depth (VList [VList xs; y]) <= fuel)%nat -> (size (heap s) + 2 <= fuel)%nat ->
  answers K (limited (if contains false y xs then xs else xs ++ [y])) (bf_setadd fuel args) s.
Proof.
  intros Ho [vs Hh]%den_holds Hp Hq Hd Hf. unfold answers, ListBuiltins.bf_setadd.
  destruct (take_two s K args vs _ _ _ Ho Hh) as (v1 & v2 & vs' & s1 & s2 & -> & R1 & T1 & R2 & T2 & Hh2 & Htk).
  destruct (took_free fuel _ _ _ _ _ _ _ _ Htk) as (s3 & E3 & Ho3 & H1 & H2 & Hpr & Hz); [lia|].
  destruct (den_list_root _ _ _ H1) as [l ->].
  pose proof (depth_arg (VList xs) _ _ Hd ltac:(set_solver)) as D1. pose proof (depth_arg y _ _ Hd ltac:(set_solver)) as D2.
  pose proof (setadd_ok fuel s3 l xs K y v2 Ho3 H1 H2 Hq Hp ltac:(lia) ltac:(lia)) as Hy.
  erewrite mbind_Some by exact R1. cbv beta. erewrite mbind_Some by exact T1. cbv beta.
  erewrite mbind_Some by exact R2. cbv beta. erewrite mbind_Some by exact T2. cbv beta.
  erewrite mbind_Some by exact E3. eapply consuming; [exact Hy|done| |done|done].
  apply depth_list; [|lia]. intros z Hz'. destruct (contains false y xs).
  - apply depth_elem in Hz'. lia.
  - apply elem_of_app in Hz' as [Hz'|Hz']; [apply depth_elem in Hz'; lia|].
    apply list_elem_of_singleton in Hz'. by subst.
Qed.

Lemma elem_of_remove_first cm x xs z : z ∈ remove_first cm x xs -> z ∈ xs.
Proof.
  induction xs as [|y xs IH]; [done|]. simpl. destruct (equal cm x y); [set_solver|]. set_solver.
Qed.

Lemma setremove_answers fuel s args xs y K :
  owns s (RList args :: K) -> den (heap s) (VList [VList xs; y]) (RList args) ->
  plain (VList xs) -> plain y -> (depth (VList [VList xs; y]) <= fuel)%nat -> (size (heap s) + 2 <= fuel)%nat ->
  answers K (limited (remove_first false y xs)) (bf_setremove fuel args) s.
Proof.
  intros Ho [vs Hh]%den_holds Hp Hq Hd Hf. unfold answers, ListBuiltins.bf_setremove.
  pose proof (holds_length _ _ _ _ Hh) as Hlen. destruct vs as [|v1 [|v2 [|? ?]]]; try done.
  destruct (take_arg s _ args _ _ 0 v1 _ Ho Hh eq_refl eq_refl) as (s1 & R1 & T1 & Ho1 & Hh1 & He1 & Hz1).
  pose proof (holds_den _ _ _ _ 0 _ _ Hh1 eq_refl eq_refl) as H1.
  pose proof (holds_den _ _ _ _ 1 _ _ Hh1 eq_refl eq_refl) as H2.
  pose proof (holds_cell _ _ _ _ 1 _ Hh1 eq_refl) as R2. destruct (den_list_root _ _ _ H1) as [l ->].
  pose proof (depth_arg (VList xs) _ _ Hd ltac:(set_solver)) as D1. pose proof (depth_arg y _ _ Hd ltac:(set_solver)) as D2.
  pose proof (setremove_ok fuel s1 l xs _ y v2 Ho1 H1 H2 Hq Hp ltac:(lia) ltac:(lia)) as Hy.
  erewrite mbind_Some by exact R1. cbv beta. erewrite mbind_Some by exact T1. cbv beta.
  erewrite mbind_Some by exact R2. cbv beta. eapply borrowing; [exact Hy|by apply preserves_extends| |lia].
  apply depth_list; [|lia]. intros z Hz%elem_of_remove_first%depth_elem. lia.
Qed.

(** The position an index argument stands for *)
Definition insert_pos (len append1 : Z) (rest : list Var) : Z :=
  match rest with
  | [VInt k] => let pos := to_int (to_num (k + append1)) in Z.max 1 (Z.min pos (len + 1))
  | _ => if append1 =? 0 then 1 else len + 1
  end.

Lemma insert_answers fuel s args xs y rest append1 K :
  owns s (RList args :: K) -> den (heap s) (VList (VList xs :: y :: rest)) (RList args) ->
  (rest = [] \/ exists k, rest = [VInt k]) -> Z.of_nat (length xs) + 1 < 2 ^ 31 ->
  (depth (VList (VList xs :: y :: rest)) <= fuel)%nat -> (size (heap s) + 2 <= fuel)%nat ->
  let i := Z.to_nat (insert_pos (Z.of_nat (length xs)) append1 rest - 1) in
  answers K (limited (take i xs ++ y :: drop i xs)) (insert_or_append fuel args append1) s.
Proof.
  intros Ho [vs Hh]%den_holds Hrest Hlx Hd Hf i. unfold answers, ListBuiltins.insert_or_append.
  destruct (take_two s K args vs _ _ _ Ho Hh) as (v1 & v2 & vs' & s1 & s2 & -> & R1 & T1 & R2 & T2 & Hh2 & Htk).
  pose proof (tk_den1 _ _ _ _ _ _ _ _ Htk) as D0. destruct (den_list_root _ _ _ D0) as [l ->].
  pose proof D0 as [ws Hl]%den_holds.
  destruct (took_free fuel _ _ _ _ _ _ _ _ Htk) as (s3 & E3 & Ho3 & H1 & H2 & Hpr & Hz); [lia|].
  pose proof (depth_arg (VList xs) _ _ Hd ltac:(set_solver)) as D1. pose proof (depth_arg y _ _ Hd ltac:(set_solver)) as D2.
  set (pos := insert_pos (Z.of_nat (length xs)) append1 rest) in *.
  assert (1 <= pos <= Z.of_nat (length xs) + 1) as Hpos.
  { unfold pos, insert_pos. destruct Hrest as [->|[k ->]]; [case_match; lia|]. lia. }
  pose proof (doinsert_ok fuel s3 l xs K y v2 pos Ho3 H1 H2 ltac:(lia) Hpos) as Hy.
  erewrite mbind_Some by exact R1. cbv beta. erewrite mbind_Some by exact T1. cbv beta.
  erewrite mbind_Some by exact R2. cbv beta. erewrite mbind_Some by exact T2. cbv beta.
  erewrite mbind_Some by (by eapply list_len_eq). cbv beta. erewrite mbind_Some by done. cbv beta.
  erewrite mbind_Some by (by eapply list_len_eq). cbv beta. cbn [length].
  assert (to_int (Z.of_nat (length xs) + 1) = Z.of_nat (length xs) + 1) as Ei by (apply wrapS_id; lia).
  erewrite (mbind_Some _ _ s2 pos s2).
  2:{ subst pos. destruct Hrest as [->|[k ->]].
      - cbn [length]. rewrite Ei. simpl. by destruct (append1 =? 0).
      - destruct vs' as [|v3 vs']; [by apply holds_length in Hh2|].
        pose proof (holds_den _ _ _ _ 2 _ _ Hh2 eq_refl eq_refl) as ->%den_int.
        pose proof (holds_cell _ _ _ _ 2 _ Hh2 eq_refl) as R3. cbn [length Nat.eqb].
        erewrite mbind_Some by exact R3. cbv beta. erewrite mbind_Some by done. cbv beta zeta.
        rewrite Ei. unfold mreturn, insert_pos. cbv zeta. do 2 f_equal. case_match; [lia|]. case_match; lia. }
  erewrite mbind_Some by exact E3. eapply consuming; [exact Hy|done| |done|done].
  apply depth_list; [|lia]. intros z Hz'. rewrite elem_of_app, elem_of_cons in Hz'.
  destruct Hz' as [Hz'|[->|Hz']]; [|done|].
  - assert (z ∈ xs) as Hzx%depth_elem by (rewrite <- (take_drop (Z.to_nat (pos - 1)) xs); set_solver). lia.
  - assert (z ∈ xs) as Hzx%depth_elem by (rewrite <- (take_drop (Z.to_nat (pos - 1)) xs); set_solver). lia.
Qed.

Lemma listdelete_answers fuel s args xs k K :
  owns s (RList args :: K) -> den (heap s) (VList [VList xs; VInt k]) (RList args) ->
  Z.of_nat (length xs) < 2 ^ 31 ->
  (depth (VList [VList xs; VInt k]) <= fuel)%nat -> (size (heap s) + 2 <= fuel)%nat ->
  answers K (if (k <=? 0) || (Z.of_nat (length xs) <? k) then PError E_RANGE
             else limited (take (Z.to_nat (k - 1)) xs ++ drop (Z.to_nat k) xs)) (bf_listdelete fuel args) s.
Proof.
  intros Ho [vs Hh]%den_holds Hlx Hd Hf. unfold answers, ListBuiltins.bf_listdelete.
  pose proof (holds_length _ _ _ _ Hh) as Hlen. destruct vs as [|v1 [|v2 [|? ?]]]; try done.
  pose proof (holds_den _ _ _ _ 0 _ _ Hh eq_refl eq_refl) as H1.
  pose proof (holds_den _ _ _ _ 1 _ _ Hh eq_refl eq_refl) as ->%den_int.
  destruct (den_list_root _ _ _ H1) as [l ->]. pose proof H1 as [ws Hl]%den_holds.
  pose proof (holds_cell _ _ _ _ 1 _ Hh eq_refl) as R2. pose proof (holds_cell _ _ _ _ 0 _ Hh eq_refl) as R1.
  erewrite mbind_Some by exact R2. cbv beta. erewrite mbind_Some by done. cbv beta.
  erewrite mbind_Some by exact R1. cbv beta. erewrite mbind_Some by done. cbv beta.
  erewrite mbind_Some by (by eapply list_len_eq). cbv beta.
  destruct ((k <=? 0) || (Z.of_nat (length xs) <? k)) eqn:Ek.
  - apply free_args; [done|lia|done].
  - apply orb_false_iff in Ek as [Ek1 Ek2].
    destruct (take_arg s _ args _ _ 0 _ _ Ho Hh eq_refl eq_refl) as (s1 & _ & T1 & Ho1 & Hh1 & He1 & Hz1).
    pose proof (holds_den _ _ _ _ 0 _ _ Hh1 eq_refl eq_refl) as H1'.
    pose proof (depth_arg (VList xs) _ _ Hd ltac:(set_solver)) as D1.
    pose proof (listdelete_ok fuel s1 l xs _ k Ho1 H1' ltac:(lia) ltac:(lia)) as Hy.
    erewrite mbind_Some by exact T1. cbv beta.
    assert (to_int k = k) as -> by (apply wrapS_id; lia).
    eapply borrowing; [exact Hy|by apply preserves_extends| |lia].
    apply depth_list; [|lia]. intros z [Hz|Hz]%elem_of_app.
    + assert (z ∈ xs) as Hzx%depth_elem by (rewrite <- (take_drop (Z.to_nat (k - 1)) xs); set_solver). lia.
    + assert (z ∈ xs) as Hzx%depth_elem by (rewrite <- (take_drop (Z.to_nat k) xs); set_solver). lia.
Qed.

(** After the error of [bf_listset] the references to the list and to the
    element are still counted, although nobody holds them. *)
Definition leaks (s : lstore) (m : M lstore lpack) (e : error) (K : list rval) (x1 x2 : Var) : Prop :=
  exists s' v1 v2, m s = Some (LError e, s') /\ owns s' (v1 :: v2 :: K) /\
    den (heap s') x1 v1 /\ den (heap s') x2 v2 /\ preserves s s' K.

Lemma listset_answers fuel s args xs y k K :
  owns s (RList args :: K) -> den (heap s) (VList [VList xs; y; VInt k]) (RList args) ->
  (depth (VList [VList xs; y; VInt k]) <= fuel)%nat -> (size (heap s) + 2 <= fuel)%nat ->
  let pos := to_int k in
  if (pos <=? 0) || (Z.of_nat (length xs) <? pos) then leaks s (bf_listset fuel args) E_RANGE K (VList xs) y
  else answers K (limited (<[Z.to_nat (pos - 1) := y]> xs)) (bf_listset fuel args) s.
Proof.
  intros Ho [vs Hh]%den_holds Hd Hf pos. unfold answers, leaks, ListBuiltins.bf_listset.
  destruct (take_two s K args vs _ _ _ Ho Hh) as (v1 & v2 & vs' & s1 & s2 & -> & R1 & T1 & R2 & T2 & Hh2 & Htk).
  destruct (took_free fuel _ _ _ _ _ _ _ _ Htk) as (s3 & E3 & Ho3 & H1 & H2 & Hpr & Hz); [lia|].
  destruct (den_list_root _ _ _ H1) as [l ->]. pose proof H1 as [ws Hl]%den_holds.
  pose proof (depth_arg (VList xs) _ _ Hd ltac:(set_solver)) as D1. pose proof (depth_arg y _ _ Hd ltac:(set_solver)) as D2.
  destruct vs' as [|v3 vs']; [by apply holds_length in Hh2|].
  pose proof (holds_den _ _ _ _ 2 _ _ Hh2 eq_refl eq_refl) as ->%den_int.
  pose proof (holds_cell _ _ _ _ 2 _ Hh2 eq_refl) as R3.
  match goal with |- if _ then exists s' v1 v2, ?m s = _ /\ _ else _ => set (prog := m) end.
  assert (prog s = (let! n := list_len l in
    if (pos <=? 0) || (Z.of_nat n <? pos) then mreturn (LError E_RANGE)
    else let! r := listset fuel l v2 pos in make_list_pack fuel r) s3) as ->.
  { unfold prog. erewrite mbind_Some by exact R1. cbv beta. erewrite mbind_Some by exact T1. cbv beta.
    erewrite mbind_Some by exact R2. cbv beta. erewrite mbind_Some by exact T2. cbv beta.
    erewrite mbind_Some by exact R3. cbv beta. erewrite mbind_Some by done. cbv beta zeta.
    erewrite mbind_Some by exact E3. by erewrite mbind_Some by done. }
  erewrite mbind_Some by (by eapply list_len_eq). cbv beta.
  destruct ((pos <=? 0) || (Z.of_nat (length xs) <? pos)) eqn:Ek.
  - exists s3, (RList l), v2. by split_and!.
  - apply orb_false_iff in Ek as [Ek1 Ek2].
    pose proof (listset_ok fuel s3 l xs K y v2 pos Ho3 H1 H2 ltac:(lia) ltac:(lia)) as Hy.
    eapply consuming; [exact Hy|done| |done|done].
    apply depth_list; [|lia]. intros z Hz'. apply list_elem_of_lookup in Hz' as [j Hj].
    apply list_lookup_insert_Some in Hj as [(_ & -> & _)|(_ & Hj)]; [done|].
    apply list_elem_of_lookup_2, depth_elem in Hj. lia.
Qed.

Lemma equal_answers fuel s args x y K :
  owns s (RList args :: K) -> den (heap s) (VList [x; y]) (RList args) -> plain x -> plain y ->
  (depth x <= fuel)%nat -> (size (heap s) < fuel)%nat ->
  answers K (PVar (VInt (Z.b2z (equal true x y)))) (bf_equal fuel args) s.
Proof.
  intros Ho [vs Hh]%den_holds Hp Hq Hd Hf. unfold bf_equal, answers.
  pose proof (holds_length _ _ _ _ Hh) as Hlen. destruct vs as [|v1 [|v2 [|? ?]]]; try done.
  pose proof (holds_den _ _ _ _ 0 _ _ Hh eq_refl eq_refl) as H1.
  pose proof (holds_den _ _ _ _ 1 _ _ Hh eq_refl eq_refl) as H2.
  pose proof (holds_cell _ _ _ _ 1 _ Hh eq_refl) as R2. pose proof (holds_cell _ _ _ _ 0 _ Hh eq_refl) as R1.
  destruct (equality_in_ok true x fuel s y v1 v2 H1 H2 Hp Hq Hd) as (b & E1 & E2).
  erewrite mbind_Some by exact R1. cbv beta. erewrite mbind_Some by exact R2. cbv beta.
  erewrite mbind_Some by exact E2. cbv beta. unfold equal. rewrite E1. by apply free_args.
Qed.

(** The length of a collection or string *)
Definition length_of (x : Var) : package :=
  match x with
  | VList l => PVar (VInt (Z.of_nat (length l)))
  | VMap m => PVar (VInt (Z.of_nat (length m)))
  | VStr s => PVar (VInt (Z.of_nat (length s)))
  | _ => PError E_TYPE
  end.

Lemma length_answers fuel s args x K :
  owns s (RList args :: K) -> den (heap s) (VList [x]) (RList args) -> (size (heap s) < fuel)%nat ->
  answers K (length_of x) (bf_length fuel args) s.
Proof.
  intros Ho [vs Hh]%den_holds Hf. unfold bf_length, answers.
  pose proof (holds_length _ _ _ _ Hh) as Hlen. destruct vs as [|v1 [|? ?]]; try done.
  pose proof (holds_den _ _ _ _ 0 _ _ Hh eq_refl eq_refl) as H1.
  pose proof (holds_cell _ _ _ _ 0 _ Hh eq_refl) as R1. erewrite mbind_Some by exact R1. cbv beta.
  destruct x; try (simpl in H1; subst v1; by apply free_args).
  destruct (den_list_root _ _ _ H1) as [m ->]. apply den_holds in H1 as [ws Hl].
  erewrite mbind_Some by (by eapply list_len_eq). cbv beta. by apply free_args.
Qed.
End functions.

(** ** Reversal *)

Lemma reverse_cells_S n src dst y s :
  reverse_cells (S n) src dst y s =
    (copy_cells 1 src (Z.of_nat (S n)) dst y ;; reverse_cells n src dst (y + 1)) s.
Proof. cbn [reverse_cells copy_cells]. unfold mbindM. repeat (case_match; simplify_eq; try done). Qed.

Lemma reverse_cells_ok l vs xs K s n : forall s' d ws ys m,
  filling s s' d ws ys (n + m) K -> holds s l vs xs -> (n <= length xs)%nat ->
  exists s2, reverse_cells n l d (Z.of_nat (length ws) + 1) s' = Some (tt, s2) /\
    filling s s2 d (ws ++ rev (take n vs)) (ys ++ rev (take n xs)) m K.
Proof.
  induction n as [|n IH]; intros s' d ws ys m Hfl Hh Hn.
  { exists s'. simpl. rewrite !app_nil_r. done. }
  pose proof (holds_length _ _ _ _ Hh) as Hlen.
  destruct (lookup_lt_is_Some_2 xs n) as [x Hx]; [lia|]. destruct (lookup_lt_is_Some_2 vs n) as [v Hv]; [lia|].
  destruct (fill_copy s s' d ws ys 1 (n + m) K l vs xs n Hfl Hh) as (s1 & E1 & Hfl1); [lia|].
  rewrite (drop_S vs v n Hv), (drop_S xs x n Hx) in Hfl1. simpl take in Hfl1. rewrite !take_0 in Hfl1.
  destruct (IH s1 d (ws ++ [v]) (ys ++ [x]) m Hfl1 Hh) as (s2 & E2 & Hfl2); [lia|].
  exists s2. split.
  - rewrite reverse_cells_S. replace (Z.of_nat (S n)) with (Z.of_nat n + 1) by lia.
    erewrite mbind_Some by exact E1. cbv beta. rewrite length_app in E2. simpl length in E2.
    by replace (Z.of_nat (length ws) + 1 + 1) with (Z.of_nat (length ws + 1) + 1) by lia.
  - rewrite (take_S_r vs n v Hv), (take_S_r xs n x Hx), !rev_app_distr. simpl.
    rewrite <- !app_assoc in Hfl2. exact Hfl2.
Qed.

Definition reverse_of (x : Var) : package :=
  match x with VList l => PVar (VList (rev l)) | VStr s => PVar (VStr (rev s)) | _ => PError E_INVARG end.

Lemma reverse_answers fuel s args x K :
  owns s (RList args :: K) -> den (heap s) (VList [x]) (RList args) -> (size (heap s) + 2 <= fuel)%nat ->
  answers K (reverse_of x) (bf_reverse fuel args) s.
Proof.
  intros Ho [vs Hh]%den_holds Hf. unfold bf_reverse, answers.
  pose proof (holds_length _ _ _ _ Hh) as Hlen. destruct vs as [|v1 [|? ?]]; try done.
  pose proof (holds_den _ _ _ _ 0 _ _ Hh eq_refl eq_refl) as H1.
  pose proof (holds_cell _ _ _ _ 0 _ Hh eq_refl) as R1. erewrite mbind_Some by exact R1. cbv beta.
  destruct x; try (simpl in H1; subst v1; apply free_args; done || lia).
  destruct (den_list_root _ _ _ H1) as [m ->]. apply den_holds in H1 as [ws Hl].
  erewrite mbind_Some by (by eapply list_len_eq). cbv beta.
  destruct (fill_start s (length l) _ Ho) as (d & s1 & E1 & Hfl). rewrite <- (Nat.add_0_r (length l)) in Hfl.
  destruct (reverse_cells_ok m ws l _ s (length l) s1 d [] [] 0 Hfl Hl) as (s2 & E2 & Hfl2); [lia|].
  rewrite (take_ge l) in Hfl2 by lia.
  destruct (finish_free fuel _ _ _ _ _ _ _ Hfl2 Hf) as (s3 & E3 & Ho3 & Hd3 & Hp3 & _).
  exists (LVar (RList d)), s3. erewrite mbind_Some by exact E1. cbv beta. erewrite mbind_Some by exact E2.
  erewrite mbind_Some by exact E3. done.
Qed.
