(* ===== verification/MooList.v ===== *)
(** * Lists of the MOO language

    The properties of the list operations and of their built-in functions,
    on values ([Value.Var]) and stores with exact reference counts
    ([ListFree.owns]). *)
From Stdlib Require Import ZArith Lia.
From stdpp Require Import prelude gmap strings.
From S2P Require Import Prelude CString Value ListCode ListFree ListSpec ListEqual ListBuiltins ListFun.

Local Open Scope Z_scope.
Local Open Scope moo_scope.

(** ** A store for the examples

    [{{3, {4}}, a1, ..., an}] at address 3, for atoms [a1 ... an] *)

Definition no_lists : lstore := mk_lstore ∅ None.
Definition nested : Var := VList [VInt 3; VList [VInt 4]].
Definition example_store (rest : list Var) : lstore :=
  ins 3 (Some <$> (RList 2 :: (RAtom <$> rest)), 1)
    (ins 2 (Some <$> [RAtom (VInt 3); RList 1], 1) (ins 1 (Some <$> [RAtom (VInt 4)], 1) no_lists)).
Definition atom (x : Var) : bool := match x with VList _ => false | _ => true end.

Lemma owns_nothing : owns no_lists [].
Proof. split; [|done..]. intros l. simpl. rewrite lookup_empty. unfold refs, heaprefs. by rewrite map_to_list_empty. Qed.

Lemma owns_atoms s K rest : owns s K -> owns s (K ++ (RAtom <$> rest)).
Proof.
  intros H. eapply owns_perm; [apply Permutation_app_comm|].
  induction rest as [|a rest IH]; [done|]. by apply owns_atom.
Qed.

Lemma example_owns rest : owns (example_store rest) [RList 3].
Proof.
  apply owns_pack; [|done]. rewrite app_nil_r. apply (owns_atoms _ [RList 2]).
  apply owns_pack; [|done]. apply owns_atom. apply owns_pack; [|done].
  apply owns_atom. apply owns_nothing.
Qed.

Lemma example_nested rest : den (heap (example_store rest)) nested (RList 2).
Proof.
  apply den_list. eexists 2%positive, [RAtom (VInt 3); RList 1], 1. split_and!; [done..|].
  repeat constructor. apply den_list. eexists 1%positive, [RAtom (VInt 4)], 1. split_and!; [done..|].
  repeat constructor.
Qed.

Lemma example_den rest :
  forallb atom rest = true -> den (heap (example_store rest)) (VList (nested :: rest)) (RList 3).
Proof.
  intros Ha. apply den_list. eexists 3%positive, _, 1. split_and!; [done..|]. constructor.
  - apply example_nested.
  - generalize (heap (example_store rest)). intros h. induction rest as [|a rest IH]; [constructor|].
    simpl in Ha. apply andb_true_iff in Ha as [Ha1 Ha2]. constructor; [by destruct a|by apply IH].
Qed.

Lemma nested_plain : plain nested.
Proof. vm_compute. tauto. Qed.

Ltac by_eval := vm_compute; (done || lia).
Definition no_waifs (w : positive) : Z := 0.

(** ** Reference counts *)

(** C26: [free_var] of a value somebody owns terminates, gives up exactly the
    references it held (the counts are exact for the remaining owners), and
    changes neither the other owners' values nor the cells of any object
    that is left; no count grows. *)
Theorem free_var_correct fuel s v K
    (Ho : owns s (v :: K)) (Hf : (size (heap s) < fuel)%nat) :
  exists s', free_var fuel v s = Some (tt, s') /\ owns s' K /\ preserves s s' K /\
    lighter (heap s') (heap s) /\ emptylist s' = emptylist s.
Proof.
  destruct (free_rval_ok fuel v s K Ho Hf) as (s' & E & Ho' & Hfr). exists s'.
  split_and!; [done..|by eapply freed_preserves|apply Hfr|apply Hfr].
Qed.

Lemma free_var_correct_witness :
  (exists s', free_var 5 (RList 3) (example_store [VInt 9]) = Some (tt, s') /\ owns s' [] /\
    preserves (example_store [VInt 9]) s' [] /\ lighter (heap s') (heap (example_store [VInt 9])) /\
    emptylist s' = emptylist (example_store [VInt 9])) /\
  (match free_var 5 (RList 3) (example_store [VInt 9]) with Some (_, s') => size (heap s') | None => 9%nat end) = 0%nat.
Proof. split; [apply free_var_correct; [apply example_owns|by_eval]|by vm_compute]. Defined.

(** ** Updates *)

(** C27: [listset(l, y, k)] replaces the element at the position (in place
    for the only reference, on a copy otherwise) within the size limit.  The
    position is cut to an [int]; when that is out of range the result is
    [E_RANGE], and the references to the list and to the element taken from
    the arguments are leaked: nobody holds them and they are still counted. *)
Theorem bf_listset_correct waif_bytes catchable max_bytes fuel s args xs y k K
    (Ho : owns s (RList args :: K)) (Hx : den (heap s) (VList [VList xs; y; VInt k]) (RList args))
    (Hd : (depth (VList [VList xs; y; VInt k]) <= fuel)%nat) (Hf : (size (heap s) + 2 <= fuel)%nat) :
  let pos := to_int k in
  if (pos <=? 0) || (Z.of_nat (length xs) <? pos)
  then leaks s (bf_listset waif_bytes catchable max_bytes fuel args) E_RANGE K (VList xs) y
  else answers K (limited waif_bytes catchable max_bytes (<[Z.to_nat (pos - 1) := y]> xs))
         (bf_listset waif_bytes catchable max_bytes fuel args) s.
Proof. by apply listset_answers. Qed.

Lemma bf_listset_correct_witness :
  answers [] (PVar (VList [VInt 3; VInt 9])) (bf_listset no_waifs true 1000 9 3) (example_store [VInt 9; VInt 2]) /\
  answers [] (PVar (VList [VInt 9; VList [VInt 4]])) (bf_listset no_waifs true 1000 9 3)
    (example_store [VInt 9; VInt (2 ^ 32 + 1)]) /\
  leaks (example_store [VInt 9; VInt 3]) (bf_listset no_waifs true 1000 9 3) E_RANGE [] nested (VInt 9).
Proof.
  split_and!.
  - apply (bf_listset_correct no_waifs true 1000 9 (example_store [VInt 9; VInt 2]) 3 [VInt 3; VList [VInt 4]] (VInt 9) 2 []);
      [apply example_owns|by apply example_den|by_eval|by_eval].
  - apply (bf_listset_correct no_waifs true 1000 9 (example_store [VInt 9; VInt (2 ^ 32 + 1)]) 3
      [VInt 3; VList [VInt 4]] (VInt 9) (2 ^ 32 + 1) []);
      [apply example_owns|by apply example_den|by_eval|by_eval].
  - apply (bf_listset_correct no_waifs true 1000 9 (example_store [VInt 9; VInt 3]) 3 [VInt 3; VList [VInt 4]] (VInt 9) 3 []);
      [apply example_owns|by apply example_den|by_eval|by_eval].
Defined.

(** [listinsert] and [listappend] put the element before, or after, the
    position given (the start, or the end, by default), moved into range, on
    every path: appending in place or building a new list. *)
Theorem insert_or_append_correct waif_bytes catchable max_bytes fuel s args xs y rest append1 K
    (Ho : owns s (RList args :: K)) (Hx : den (heap s) (VList (VList xs :: y :: rest)) (RList args))
    (Hr : rest = [] \/ exists k, rest = [VInt k]) (Hl : Z.of_nat (length xs) + 1 < 2 ^ 31)
    (Hd : (depth (VList (VList xs :: y :: rest)) <= fuel)%nat) (Hf : (size (heap s) + 2 <= fuel)%nat) :
  let i := Z.to_nat (insert_pos (Z.of_nat (length xs)) append1 rest - 1) in
  answers K (limited waif_bytes catchable max_bytes (take i xs ++ y :: drop i xs))
    (insert_or_append waif_bytes catchable max_bytes fuel args append1) s.
Proof. by apply insert_answers. Qed.

Lemma insert_or_append_correct_witness :
  answers [] (PVar (VList [VInt 3; VList [VInt 4]; VInt 9])) (bf_listappend no_waifs true 1000 9 3) (example_store [VInt 9]) /\
  answers [] (PVar (VList [VInt 3; VInt 9; VList [VInt 4]])) (bf_listinsert no_waifs true 1000 9 3)
    (example_store [VInt 9; VInt 2]).
Proof.
  split.
  - apply (insert_or_append_correct no_waifs true 1000 9 (example_store [VInt 9]) 3 [VInt 3; VList [VInt 4]] (VInt 9) [] 1 []);
      [apply example_owns|by apply example_den|by left|by_eval..].
  - apply (insert_or_append_correct no_waifs true 1000 9 (example_store [VInt 9; VInt 2]) 3
      [VInt 3; VList [VInt 4]] (VInt 9) [VInt 2] 0 []);
      [apply example_owns|by apply example_den|by right; exists 2|by_eval..].
Defined.

(** [listdelete] removes the element at the position, and answers
    [E_RANGE], leaking nothing, for a position that is not in the list. *)
Theorem bf_listdelete_correct waif_bytes catchable max_bytes fuel s args xs k K
    (Ho : owns s (RList args :: K)) (Hx : den (heap s) (VList [VList xs; VInt k]) (RList args))
    (Hl : Z.of_nat (length xs) < 2 ^ 31)
    (Hd : (depth (VList [VList xs; VInt k]) <= fuel)%nat) (Hf : (size (heap s) + 2 <= fuel)%nat) :
  answers K (if (k <=? 0) || (Z.of_nat (length xs) <? k) then PError E_RANGE
             else limited waif_bytes catchable max_bytes (take (Z.to_nat (k - 1)) xs ++ drop (Z.to_nat k) xs))
    (bf_listdelete waif_bytes catchable max_bytes fuel args) s.
Proof. by apply listdelete_answers. Qed.

Lemma bf_listdelete_correct_witness :
  answers [] (PVar (VList [VList [VInt 4]])) (bf_listdelete no_waifs true 1000 9 3) (example_store [VInt 1]).
Proof.
  apply (bf_listdelete_correct no_waifs true 1000 9 (example_store [VInt 1]) 3 [VInt 3; VList [VInt 4]] 1 []);
    [apply example_owns|by apply example_den|by_eval..].
Defined.

(** ** Ranges *)

(** a range of a list, an assignment to a range and a concatenation
    have the value the language says, consume their arguments, leave every
    other value alone and keep the counts exact; so do a lower bound above
    the upper one and bounds beyond the ends where the callers allow them. *)
Theorem list_ranges_correct fuel s l1 l2 xs ys K from to
    (Ho : owns s (RList l1 :: RList l2 :: K)) (Hx : den (heap s) (VList xs) (RList l1))
    (Hy : den (heap s) (VList ys) (RList l2)) (Hf : (size (heap s) + 2 <= fuel)%nat) :
  yields K (xs ++ ys) (listconcat fuel l1 l2) s /\
  (from <= Z.of_nat (length xs) + 1 -> 0 <= to ->
    yields K (take (Z.to_nat (from - 1)) xs ++ ys ++ drop (Z.to_nat to) xs) (listrangeset fuel l1 from to l2) s) /\
  ((from <= to -> 1 <= from /\ to <= Z.of_nat (length xs)) ->
    yields (RList l2 :: K) (take (Z.to_nat (to - from + 1)) (drop (Z.to_nat (from - 1)) xs)) (sublist fuel l1 from to) s).
Proof.
  split_and!; [by apply listconcat_ok| |]; intros; [by apply listrangeset_ok|by apply sublist_ok].
Qed.

Lemma list_ranges_correct_witness :
  let s := ins 2 (Some <$> [RAtom (VInt 7)], 1) (ins 1 (Some <$> [RAtom (VInt 4); RAtom (VInt 5)], 1) no_lists) in
  yields [] [VInt 4; VInt 5; VInt 7] (listconcat 9 1 2) s /\
  yields [] [VInt 4; VInt 7] (listrangeset 9 1 2 2 2) s /\
  yields [RList 2] [VInt 5] (sublist 9 1 2 2) s.
Proof.
  intros s.
  assert (owns s [RList 1; RList 2]) as Ho.
  { apply owns_swap. apply owns_pack; [|done]. apply owns_atom. apply owns_pack; [|done].
    do 2 apply owns_atom. apply owns_nothing. }
  assert (den (heap s) (VList [VInt 4; VInt 5]) (RList 1)) as H1.
  { apply den_list. eexists 1%positive, [RAtom (VInt 4); RAtom (VInt 5)], 1. split_and!; [done..|]. repeat constructor. }
  assert (den (heap s) (VList [VInt 7]) (RList 2)) as H2.
  { apply den_list. eexists 2%positive, [RAtom (VInt 7)], 1. split_and!; [done..|]. repeat constructor. }
  destruct (list_ranges_correct 9 s 1 2 [VInt 4; VInt 5] [VInt 7] [] 2 2 Ho H1 H2) as (R1 & R2 & R3); [by_eval|].
  split_and!; [exact R1|apply R2; by_eval|apply R3; by_eval].
Defined.

(** ** Equality and sets *)

(** equality of values in memory, whatever objects hold them and with
    the comparison of addresses as a shortcut, is equality of the values: it
    terminates, never panics on values a program can build, and reads only;
    [equal] returns it, comparing strings with case. *)
Theorem list_equality_correct fuel s args x y v w K cm
    (Hv : den (heap s) x v) (Hw : den (heap s) y w) (Hp : plain x) (Hq : plain y)
    (Hd : (depth x <= fuel)%nat) (Hf : (size (heap s) < fuel)%nat) :
  (exists b, equality x y cm = Some b /\ equality_in fuel v w cm s = Some (b, s)) /\
  (owns s (RList args :: K) -> den (heap s) (VList [x; y]) (RList args) ->
    answers K (PVar (VInt (Z.b2z (equal true x y)))) (bf_equal fuel args) s).
Proof. split; [by apply equality_in_ok|]. intros. by apply equal_answers. Qed.

Lemma list_equality_correct_witness :
  let s := example_store [VInt 9] in
  (exists b, equality nested nested false = Some b /\ equality_in 9 (RList 2) (RList 2) false s = Some (b, s)) /\
  answers [] (PVar (VInt 0)) (bf_equal 9 3) s.
Proof.
  intros s. assert (den (heap s) (VList [nested; VInt 9]) (RList 3)) as Hx by (by apply example_den).
  pose proof (example_nested [VInt 9]) as H2.
  split.
  - apply (list_equality_correct 9 s 3 nested nested (RList 2) (RList 2) [] false);
      [done..|apply nested_plain|apply nested_plain|by_eval|by_eval].
  - apply (list_equality_correct 9 s 3 nested (VInt 9) (RList 2) (RAtom (VInt 9)) [] false);
      [done|done|apply nested_plain|done|by_eval|by_eval|apply example_owns|done].
Defined.

(** [setadd] appends an element that is not equal (ignoring case) to
    one of the list, [setremove] removes the first equal element; both
    consume their arguments on every path. *)
Theorem sets_correct waif_bytes catchable max_bytes fuel s args xs y K
    (Ho : owns s (RList args :: K)) (Hx : den (heap s) (VList [VList xs; y]) (RList args))
    (Hp : plain (VList xs)) (Hq : plain y)
    (Hd : (depth (VList [VList xs; y]) <= fuel)%nat) (Hf : (size (heap s) + 2 <= fuel)%nat) :
  answers K (limited waif_bytes catchable max_bytes (if contains false y xs then xs else xs ++ [y]))
    (bf_setadd waif_bytes catchable max_bytes fuel args) s /\
  answers K (limited waif_bytes catchable max_bytes (remove_first false y xs))
    (bf_setremove waif_bytes catchable max_bytes fuel args) s.
Proof. split; [by apply setadd_answers|by apply setremove_answers]. Qed.

Lemma sets_correct_witness :
  let s := example_store [VBool true] in
  answers [] (PVar (VList [VInt 3; VList [VInt 4]; VBool true])) (bf_setadd no_waifs true 1000 9 3) s /\
  answers [] (PVar (VList [VList [VInt 4]])) (bf_setremove no_waifs true 1000 9 3) (example_store [VInt 3]).
Proof.
  split.
  - apply (sets_correct no_waifs true 1000 9 (example_store [VBool true]) 3 [VInt 3; VList [VInt 4]] (VBool true) []);
      [apply example_owns|by apply example_den|apply nested_plain|done|by_eval|by_eval].
  - apply (sets_correct no_waifs true 1000 9 (example_store [VInt 3]) 3 [VInt 3; VList [VInt 4]] (VInt 3) []);
      [apply example_owns|by apply example_den|apply nested_plain|done|by_eval|by_eval].
Defined.

(** [length] and [reverse] on every type of argument, errors included. *)
Theorem length_reverse_correct fuel s args x K
    (Ho : owns s (RList args :: K)) (Hx : den (heap s) (VList [x]) (RList args)) (Hf : (size (heap s) + 2 <= fuel)%nat) :
  answers K (length_of x) (bf_length fuel args) s /\ answers K (reverse_of x) (bf_reverse fuel args) s.
Proof. split; [apply length_answers; (done || lia)|by apply reverse_answers]. Qed.

Lemma length_reverse_correct_witness :
  answers [] (PVar (VInt 2)) (bf_length 9 3) (example_store []) /\
  answers [] (PVar (VList [VList [VInt 4]; VInt 3])) (bf_reverse 9 3) (example_store []).
Proof.
  apply (length_reverse_correct 9 (example_store []) 3 nested []);
    [apply example_owns|by apply example_den|by_eval].
Defined.
