(* ===== verification/ObjCode.v ===== *)
(** * The object table (db_objects.cc)

    Objects live in a heap of addresses; the table [objects] maps the numbers
    of the permanent objects to them, and anonymous objects are referred to
    by address.  A null table entry is an absent one.  Each definition
    transcribes one function of [src/src/db_objects.cc]; the traversal
    functions that the macro [DEFUNC] generates are the definitions of the
    section [traversal].  The properties of an object are in
    [PropCode].  Not modelled: verbs, [last_move] and memory of an object, the
    verb cache, and reference counts (lists are by content; [ListCode] has
    their counts). *)
From Stdlib Require Import ZArith Lia.
From stdpp Require Import prelude gmap.
From S2P Require Import Prelude CString Value.

Local Open Scope Z_scope.
Local Open Scope moo_scope.

Definition NOTHING : Z := -1.
Definition AMBIGUOUS : Z := -2.
Definition FAILED_MATCH : Z := -3.

(** [db_object_flag] *)
Definition FLAG_USER : Z := 0.
Definition FLAG_PROGRAMMER : Z := 1.
Definition FLAG_WIZARD : Z := 2.
Definition FLAG_READ : Z := 4.
Definition FLAG_WRITE : Z := 5.
Definition FLAG_FERTILE : Z := 7.
Definition FLAG_ANONYMOUS : Z := 8.
Definition FLAG_INVALID : Z := 9.

(** [parents] is an object number or a list of them. *)
Record Object := mk_Object {
  obj_id : Z; owner : Z; name : bytes; flags : Z;
  parents : Z + list Z; children : list Z; location : Z; contents : list Z }.

Record db := mk_db {
  objects : gmap Z loc; obj_heap : gmap loc Object;
  num_objects : Z; max_objects : Z;
  anonymous_objects : gmap Z (gset loc);
  all_users : list Z;
  ancestor_cache : gmap Z (list Var) }.

(** Field updates *)
Definition with_objects (f : gmap Z loc) (d : db) : db :=
  mk_db f (obj_heap d) (num_objects d) (max_objects d) (anonymous_objects d) (all_users d) (ancestor_cache d).
Definition with_heap (f : gmap loc Object) (d : db) : db :=
  mk_db (objects d) f (num_objects d) (max_objects d) (anonymous_objects d) (all_users d) (ancestor_cache d).
Definition with_num (n : Z) (d : db) : db :=
  mk_db (objects d) (obj_heap d) n (max_objects d) (anonymous_objects d) (all_users d) (ancestor_cache d).
Definition with_max (n : Z) (d : db) : db :=
  mk_db (objects d) (obj_heap d) (num_objects d) n (anonymous_objects d) (all_users d) (ancestor_cache d).
Definition with_anons (f : gmap Z (gset loc)) (d : db) : db :=
  mk_db (objects d) (obj_heap d) (num_objects d) (max_objects d) f (all_users d) (ancestor_cache d).
Definition with_users (l : list Z) (d : db) : db :=
  mk_db (objects d) (obj_heap d) (num_objects d) (max_objects d) (anonymous_objects d) l (ancestor_cache d).
Definition with_cache (f : gmap Z (list Var)) (d : db) : db :=
  mk_db (objects d) (obj_heap d) (num_objects d) (max_objects d) (anonymous_objects d) (all_users d) f.
Definition modify (f : db -> db) : M db unit := fun d => Some (tt, f d).

Definition with_parents (ps : Z + list Z) (o : Object) : Object :=
  mk_Object (obj_id o) (owner o) (name o) (flags o) ps (children o) (location o) (contents o).
Definition with_children (l : list Z) (o : Object) : Object :=
  mk_Object (obj_id o) (owner o) (name o) (flags o) (parents o) l (location o) (contents o).
Definition with_location (x : Z) (o : Object) : Object :=
  mk_Object (obj_id o) (owner o) (name o) (flags o) (parents o) (children o) x (contents o).
Definition with_contents (l : list Z) (o : Object) : Object :=
  mk_Object (obj_id o) (owner o) (name o) (flags o) (parents o) (children o) (location o) l.
Definition with_flags (f : Z) (o : Object) : Object :=
  mk_Object (obj_id o) (owner o) (name o) f (parents o) (children o) (location o) (contents o).
Definition with_owner (x : Z) (o : Object) : Object :=
  mk_Object (obj_id o) x (name o) (flags o) (parents o) (children o) (location o) (contents o).
Definition with_id (x : Z) (o : Object) : Object :=
  mk_Object x (owner o) (name o) (flags o) (parents o) (children o) (location o) (contents o).

(** ** Lists of object numbers: [setadd], [setremove] and [listinsert] of
    list.cc on them *)

Definition obj_setadd (l : list Z) (x : Z) : list Z := if existsb (Z.eqb x) l then l else l ++ [x].
Fixpoint obj_setremove (l : list Z) (x : Z) : list Z :=
  match l with [] => [] | y :: l' => if y =? x then l' else y :: obj_setremove l' x end.
Definition obj_listinsert (l : list Z) (x : Z) (pos : Z) : list Z :=
  let pos := if pos <=? 0 then 1 else if Z.of_nat (length l) <? pos then Z.of_nat (length l) + 1 else pos in
  take (Z.to_nat (pos - 1)) l ++ x :: drop (Z.to_nat (pos - 1)) l.

(** [enlist_var] *)
Definition enlist (ps : Z + list Z) : list Z := match ps with inl x => [x] | inr l => l end.

(** ** The table *)

Definition dbpriv_find_object (d : db) (oid : Z) : option loc :=
  if (oid <? 0) || (max_objects d <=? oid) then None else objects d !! oid.
Definition valid (d : db) (oid : Z) : bool := bool_decide (is_Some (dbpriv_find_object d oid)).
Definition db_last_used_objid (d : db) : Z := num_objects d - 1.

(** The object of a number *)
Definition object_of (d : db) (oid : Z) : option Object := dbpriv_find_object d oid ≫= fun l => obj_heap d !! l.

(** [*o] and [o->field = ...] *)
Definition load (l : loc) : M db Object := fun d =>
  match obj_heap d !! l with Some o => Some (o, d) | None => None end.
Definition update (l : loc) (f : Object -> Object) : M db unit := fun d =>
  match obj_heap d !! l with Some o => Some (tt, with_heap (<[l := f o]> (obj_heap d)) d) | None => None end.

(** [objects[oid]], used without a check: no result for an index outside
    the table or a null entry *)
Definition slot (oid : Z) : M db loc := fun d =>
  match dbpriv_find_object d oid with Some l => Some (l, d) | None => None end.

(** [dbpriv_dereference] *)
Definition dbpriv_dereference (obj : Var) : M db loc :=
  match obj with
  | VObj oid => slot oid
  | VAnon (Some l) => mreturn l
  | _ => mfail
  end.

(** The two loops of [extend] *)
Fixpoint double_to (fuel : nat) (size new_objects : Z) : Z :=
  match fuel with
  | O => size
  | S fuel => if size <=? new_objects then double_to fuel (size * 2) new_objects else size
  end.
Definition extend (new_objects : Z) : M db unit := fun d =>
  let size := double_to 24 128 new_objects in
  Some (tt, if (max_objects d =? 0) || (max_objects d <? size) then with_max size d else d).
Definition ensure_new_object : M db unit := fun d => extend (num_objects d + 1) d.

Fixpoint db_set_last_used_objid (fuel : nat) (oid : Z) : M db unit := fun d =>
  match fuel with
  | O => None
  | S fuel =>
    if negb (bool_decide (is_Some (objects d !! (num_objects d - 1)))) && (oid <? num_objects d)
    then db_set_last_used_objid fuel oid (with_num (num_objects d - 1) d)
    else Some (tt, d)
  end.

Definition db_clear_ancestor_cache : M db unit := modify (with_cache ∅).

Fixpoint db_reset_last_used_objid (fuel : nat) : M db unit := fun d =>
  match fuel with
  | O => None
  | S fuel =>
    if negb (bool_decide (is_Some (objects d !! (num_objects d - 1))))
    then db_reset_last_used_objid fuel (with_num (num_objects d - 1) d)
    else db_clear_ancestor_cache d
  end.

(** ** Flags, owners, users *)

Definition dbpriv_object_has_flag (o : Object) (f : Z) : bool := Z.testbit (flags o) f.
Definition dbpriv_set_object_flag (f : Z) (o : Object) : Object := with_flags (Z.lor (flags o) (Z.shiftl 1 f)) o.
Definition dbpriv_clear_object_flag (f : Z) (o : Object) : Object := with_flags (Z.ldiff (flags o) (Z.shiftl 1 f)) o.

Definition has_flag (d : db) (oid f : Z) : bool :=
  match object_of d oid with Some o => dbpriv_object_has_flag o f | None => false end.
Definition is_wizard (d : db) (oid : Z) : bool := valid d oid && has_flag d oid FLAG_WIZARD.
Definition is_programmer (d : db) (oid : Z) : bool := valid d oid && has_flag d oid FLAG_PROGRAMMER.
Definition is_user (d : db) (oid : Z) : bool := valid d oid && has_flag d oid FLAG_USER.

Definition db_set_object_flag (oid f : Z) : M db unit :=
  let! l := slot oid in
  update l (dbpriv_set_object_flag f) ;;
  if f =? FLAG_USER then modify (fun d => with_users (obj_setadd (all_users d) oid) d) else mreturn tt.
Definition db_clear_object_flag (oid f : Z) : M db unit :=
  let! l := slot oid in
  update l (dbpriv_clear_object_flag f) ;;
  if f =? FLAG_USER then modify (fun d => with_users (obj_setremove (all_users d) oid) d) else mreturn tt.

Definition db_set_object_owner (oid x : Z) : M db unit :=
  let! l := slot oid in update l (with_owner x).

Definition db_object_owner2 (obj : Var) : M db Z :=
  let! l := dbpriv_dereference obj in let! o := load l in mreturn (owner o).
Definition db_object_allows (obj : Var) (progr f : Z) : M db bool := fun d =>
  if is_wizard d progr then Some (true, d)
  else (let! l := dbpriv_dereference obj in
        let! o := load l in
        mreturn ((progr =? owner o) || dbpriv_object_has_flag o f)) d.

(** ** Creation and destruction *)

(** The fields of a new object before [db_init_object]: arbitrary *)
Definition raw_object (id : Z) : Object := mk_Object id 0 [] 0 (inl 0) [] 0 [].

Definition dbpriv_new_object (new_objid : Z) : M db loc := fun d0 =>
  (let! new_objid :=
     (if (new_objid <=? 0) || (num_objects d0 <=? new_objid) then
        ensure_new_object ;; (fun d => Some (num_objects d, with_num (num_objects d + 1) d))
      else mreturn new_objid) in
   fun d =>
     let l := fresh (dom (obj_heap d)) in
     Some (l, with_heap (<[l := raw_object new_objid]> (obj_heap d)) (with_objects (<[new_objid := l]> (objects d)) d))) d0.

Definition db_init_object (o : Object) : Object :=
  mk_Object (obj_id o) (owner o) [] 0 (inl NOTHING) [] NOTHING [].

Definition db_create_object (new_objid : Z) : M db Z := fun d =>
  (let new_objid := if (new_objid <=? 0) || (num_objects d <? new_objid) then num_objects d else new_objid in
   let! l := dbpriv_new_object new_objid in
   update l db_init_object ;;
   let! o := load l in
   mreturn (obj_id o)) d.

(** No parents: [NOTHING] or an empty list *)
Definition no_parents (ps : Z + list Z) : bool :=
  match ps with inl x => x =? NOTHING | inr l => is_nil l end.

(** No result where the code panics *)
Definition db_destroy_object (oid : Z) : M db unit := fun d =>
  match dbpriv_find_object d oid with
  | None => None
  | Some l =>
    (let! o := load l in
     if negb (location o =? NOTHING) || negb (is_nil (contents o)) || negb (no_parents (parents o))
        || negb (is_nil (children o))
     then mfail
     else
       (if is_user d oid then modify (fun d => with_users (obj_setremove (all_users d) oid) d) else mreturn tt) ;;
       modify (fun d => with_heap (delete l (obj_heap d)) (with_objects (delete oid (objects d)) d))) d
  end.

(** ** Validity *)

(** [parents_ok], which marks the object invalid *)
Definition parents_ok (l : loc) : M db bool := fun d =>
  (let! o := load l in
   let ok := match parents o with
             | inr ps => forallb (valid d) ps
             | inl p => (p =? NOTHING) || valid d p
             end in
   if ok : bool then mreturn true else update l (dbpriv_set_object_flag FLAG_INVALID) ;; mreturn false) d.

Definition is_valid (obj : Var) : M db bool := fun d =>
  match obj with
  | VAnon None => Some (false, d)
  | VAnon (Some l) =>
    (let! o := load l in
     if dbpriv_object_has_flag o FLAG_INVALID then mreturn false else parents_ok l) d
  | VObj oid => Some (valid d oid, d)
  | _ => None
  end.

(** ** Traversals: [DEFUNC(name, field)] *)

Section traversal.
Context (field : Object -> Z + list Z).

(** The two [FOR_EACH] loops, for the recursive calls [count] and [add]; the
    bits are those of [bit_array]. *)
Fixpoint count_loop (count : Object -> gset Z -> option (Z * gset Z)) (d : db) (fs : list Z) (n : Z) (bits : gset Z) :
  option (Z * gset Z) :=
  match fs with
  | [] => Some (n, bits)
  | oid :: fs' =>
    if valid d oid && negb (bool_decide (oid ∈ bits)) then
      match object_of d oid with
      | None => None
      | Some o2 =>
        match count o2 ({[oid]} ∪ bits) with
        | Some (m, bits) => count_loop count d fs' (n + (m + 1)) bits
        | None => None
        end
      end
    else count_loop count d fs' n bits
  end.
Fixpoint db1_count (fuel : nat) (d : db) (o : Object) (bits : gset Z) : option (Z * gset Z) :=
  match fuel with
  | O => None
  | S fuel => count_loop (db1_count fuel d) d (enlist (field o)) 0 bits
  end.

Fixpoint add_loop (add : Object -> list Z -> gset Z -> option (list Z * gset Z)) (d : db) (fs plist : list Z)
    (bits : gset Z) : option (list Z * gset Z) :=
  match fs with
  | [] => Some (plist, bits)
  | oid :: fs' =>
    if valid d oid && negb (bool_decide (oid ∈ bits)) then
      match object_of d oid with
      | None => None
      | Some o2 =>
        match add o2 (plist ++ [oid]) ({[oid]} ∪ bits) with
        | Some (plist, bits) => add_loop add d fs' plist bits
        | None => None
        end
      end
    else add_loop add d fs' plist bits
  end.
Fixpoint db2_add (fuel : nat) (d : db) (o : Object) (plist : list Z) (bits : gset Z) : option (list Z * gset Z) :=
  match fuel with
  | O => None
  | S fuel => add_loop (db2_add fuel d) d (enlist (field o)) plist bits
  end.

(** [db_##name]: no result if the elements overflow the list allocated for
    them *)
Definition db_traverse (fuel : nat) (obj : Var) (full : bool) : M db (list Var) := fun d =>
  (let! l := dbpriv_dereference obj in
   let! o := load l in
   let root := if full then [obj] else [] in
   if no_parents (field o) then mreturn root
   else
     match db1_count fuel d o ∅, db2_add fuel d o [] ∅ with
     | Some (n, _), Some (plist, _) =>
       if Z.of_nat (length plist) <=? n then mreturn (root ++ (VObj <$> plist)) else mfail
     | _, _ => mfail
     end) d.
End traversal.

Definition db_descendants := db_traverse (fun o => inr (children o)).
Definition db_all_locations := db_traverse (fun o => inl (location o)).
Definition db_all_contents := db_traverse (fun o => inr (contents o)).
Definition db_find_ancestors := db_traverse parents.

Definition db_ancestors (fuel : nat) (obj : Var) (full : bool) : M db (list Var) := fun d =>
  (let! l := dbpriv_dereference obj in
   let! o := load l in
   if match obj with
      | VObj oid => negb (valid d oid) || match parents o with inl p => p =? NOTHING | inr _ => false end
      | _ => true
      end
   then db_find_ancestors fuel obj full
   else
     let! ancestors :=
       match ancestor_cache d !! obj_id o with
       | Some l => mreturn l
       | None =>
         let! l := db_find_ancestors fuel obj false in
         modify (fun d => with_cache (<[obj_id o := l]> (ancestor_cache d)) d) ;;
         mreturn l
       end in
     mreturn (if full then obj :: ancestors else ancestors)) d.

(** ** Inheritance *)

(** The loop [while (listlength(ancestors) > 0)] *)
Fixpoint isa_loop (fuel : nat) (parent : Var) (ancestors : list Z) : M db bool := fun d =>
  match fuel with
  | O => None
  | S fuel =>
    match ancestors with
    | [] => Some (false, d)
    | ancestor :: ancestors =>
      if ancestor =? NOTHING then isa_loop fuel parent ancestors d
      else
        match equality (VObj ancestor) parent false with
        | None => None
        | Some true => Some (true, d)
        | Some false =>
          (let! l := slot ancestor in
           let! t := load l in
           isa_loop fuel parent (ancestors ++ enlist (parents t))) d
        end
    end
  end.

Definition db_object_isa (fuel : nat) (object parent : Var) : M db bool := fun d =>
  match equality object parent false with
  | None => None
  | Some true => Some (true, d)
  | Some false =>
    (let! l := dbpriv_dereference object in
     let! o := load l in
     isa_loop fuel parent (enlist (parents o))) d
  end.

(** The second index starts at [i + i]. *)
Definition check_for_duplicates (new_parents : Z + list Z) : bool :=
  match new_parents with
  | inl _ => true
  | inr l =>
    let c := length l in
    forallb (fun i =>
      forallb (fun j => match l !! (i - 1)%nat, l !! (j - 1)%nat with Some x, Some y => negb (x =? y) | _, _ => true end)
        (seq (i + i) (c + 1 - (i + i)))) (seq 1 c)
  end.

(** [children] is a list of object numbers, so [TYPE_OBJ] against a parent
    is a comparison of numbers. *)
Fixpoint check_children_of_object (obj : Var) (anon_kids : list Var) : M db bool :=
  match anon_kids with
  | [] => mreturn true
  | kid :: kids =>
    let! l := dbpriv_dereference kid in
    let! o := load l in
    if match kid with VAnon _ => false | _ => true end
       || negb (existsb (fun p => match obj with VObj oid => oid =? p | _ => false end) (enlist (parents o)))
    then mreturn false
    else check_children_of_object obj kids
  end.

Definition dbpriv_remove_anon (parent : Z) (l : loc) : M db unit := fun d =>
  Some (tt, match anonymous_objects d !! parent with
            | Some s =>
              let s := s ∖ {[l]} in
              with_anons (if decide (s = ∅) then delete parent (anonymous_objects d)
                          else <[parent := s]> (anonymous_objects d)) d
            | None => d
            end).
Definition dbpriv_add_anon (parent : Z) (l : loc) : M db unit := fun d =>
  let s := default ∅ (anonymous_objects d !! parent) in
  Some (tt, with_anons (<[parent := {[l]} ∪ s]> (anonymous_objects d)) d).

(** [FOR_EACH] on the parents: one object unless it is [NOTHING], or the
    elements of the list *)
Fixpoint for_each (f : Z -> M db unit) (l : list Z) : M db unit :=
  match l with [] => mreturn tt | x :: l' => f x ;; for_each f l' end.
Definition for_parents (f : Z -> M db unit) (ps : Z + list Z) : M db unit :=
  match ps with
  | inl p => if p =? NOTHING then mreturn tt else f p
  | inr l => for_each f l
  end.

(** [objects[parent]->children = ...] *)
Definition edit (f : Object -> Object) (oid : Z) : M db unit := let! l := slot oid in update l f.
Definition remove_child (oid : Z) : Z -> M db unit :=
  edit (fun o => with_children (obj_setremove (children o) oid) o).
Definition add_child (oid : Z) : Z -> M db unit :=
  edit (fun o => with_children (obj_setadd (children o) oid) o).

Fixpoint uncache (descendants : list Var) (cache : gmap Z (list Var)) : gmap Z (list Var) :=
  match descendants with
  | [] => cache
  | VObj oid :: ds => uncache ds (delete oid cache)
  | _ :: ds => uncache ds cache
  end.

Section change_parents.
(** [dbpriv_check_properties_for_chparent] of db_properties.cc: whether the
    property definitions allow the change.  The properties are not part of
    this state, so the answer is arbitrary.  The last step of the function,
    [dbpriv_fix_properties_after_chparent], changes only the slots of
    properties, or fails an assertion; [PropFun.db_change_parents_props] is
    the function with the properties and this step, and
    [Properties.chparent_diamond_fails] a call in which the assertion fails.
    What is stated of [db_change_parents] is about the runs in which it does
    not. *)
Context (check_properties : db -> Var -> Z + list Z -> list Var -> bool).

Definition db_change_parents (fuel : nat) (obj : Var) (new_parents : Z + list Z) (anon_kids : list Var) : M db bool :=
  fun d =>
  if negb (check_for_duplicates new_parents) then Some (false, d)
  else
    let anon_kids :=
      match anon_kids, obj with
      | [], VObj oid => map (fun l => VAnon (Some l)) (elements (default ∅ (anonymous_objects d !! oid)))
      | _, _ => anon_kids
      end in
    (let! kids_ok := check_children_of_object obj anon_kids in
     if negb kids_ok then mreturn false
     else
       fun d => if negb (check_properties d obj new_parents anon_kids) then Some (false, d)
       else
         (let! l := dbpriv_dereference obj in
          let! o := load l in
          let old_parents := parents o in
          let! old_ancestors := db_ancestors fuel obj true in
          match obj with
          | VObj oid =>
            for_parents (remove_child oid) old_parents ;;
            for_parents (add_child oid) new_parents
          | _ =>
            for_parents (fun p => dbpriv_remove_anon p l) old_parents ;;
            for_parents (fun p => dbpriv_add_anon p l) new_parents
          end ;;
          update l (with_parents new_parents) ;;
          match obj with
          | VObj _ =>
            let! descendants := db_descendants fuel obj true in
            modify (fun d => with_cache (uncache descendants (ancestor_cache d)) d)
          | _ => mreturn tt
          end ;;
          let! new_ancestors := db_ancestors fuel obj true in
          mreturn true) d) d.
End change_parents.

(** ** Containment *)

Definition db_change_location (oid new_location position : Z) : M db unit := fun d =>
  (let! me := slot oid in
   let! o := load me in
   let old_location := location o in
   (if valid d old_location then
      let! l := slot old_location in
      update l (fun o => with_contents (obj_setremove (contents o) oid) o)
    else mreturn tt) ;;
   (if valid d new_location then
      let! l := slot new_location in
      update l (fun o =>
        let position := if position <=? 0 then Z.of_nat (length (contents o)) + 1 else position in
        with_contents (obj_listinsert (contents o) oid position) o)
    else mreturn tt) ;;
   update me (with_location new_location)) d.

Definition db_for_all_contents (d : db) (oid : Z) : list Z :=
  match object_of d oid with Some o => contents o | None => [] end.
