(* ===== verification/ObjGraph.v ===== *)
(** * The invariant of the object table

    [db_ok d]: numbers and objects correspond; parents and children, and
    locations and contents, are inverse relations without repetition; both
    are acyclic; and the ancestor cache holds what a traversal would give. *)
From Stdlib Require Import ZArith Lia.
From stdpp Require Import prelude gmap relations.
From S2P Require Import Prelude CString Value ObjCode.

(** ** Traversals of the object graph

    The functions that [DEFUNC] generates visit every object that can be
    reached along a field exactly once: depth first, with the bit array as
    the set of visited objects. *)
Local Open Scope Z_scope.
Local Open Scope moo_scope.

(** Every table entry points to an object. *)
Definition table_ok (d : db) : Prop := forall oid l, dbpriv_find_object d oid = Some l -> is_Some (obj_heap d !! l).

Lemma valid_object d oid : table_ok d -> valid d oid = true -> exists o, object_of d oid = Some o.
Proof.
  intros Ht [l Hl]%bool_decide_eq_true. unfold object_of. rewrite Hl. by apply (Ht oid).
Qed.
Lemma object_valid d oid o : object_of d oid = Some o -> valid d oid = true.
Proof.
  unfold object_of, valid. destruct (dbpriv_find_object d oid); [|done]. intros _. by apply bool_decide_eq_true.
Qed.
Lemma valid_dom d oid : valid d oid = true -> oid ∈ dom (objects d).
Proof.
  intros [l Hl]%bool_decide_eq_true. unfold dbpriv_find_object in Hl. case_match; [done|].
  by apply elem_of_dom_2 in Hl.
Qed.

Section walk.
Context (field : Object -> Z + list Z).

(** [y] is in the field of the object [x]. *)
Definition edge (d : db) (x y : Z) : Prop :=
  exists o, object_of d x = Some o /\ y ∈ enlist (field o) /\ valid d y = true.

(** What a walk from the members [fs] adds to the visited objects [bits] *)
Record walked (d : db) (fs : list Z) (bits : gset Z) (new : list Z) : Prop := {
  wk_nodup : NoDup new;
  wk_fresh : forall x, x ∈ new -> x ∉ bits;
  wk_reach : forall x, x ∈ new -> exists y, y ∈ fs /\ valid d y = true /\ rtc (edge d) y x;
  wk_first : forall y, y ∈ fs -> valid d y = true -> y ∈ bits \/ y ∈ new;
  wk_closed : forall x y, x ∈ new -> edge d x y -> y ∈ bits \/ y ∈ new }.

Lemma walked_nil d bits : walked d [] bits [].
Proof. split; [constructor|set_solver..]. Qed.

Lemma walked_skip d oid fs bits new :
  (valid d oid = true -> oid ∈ bits) -> walked d fs bits new -> walked d (oid :: fs) bits new.
Proof.
  intros Ho [H1 H2 H3 H4 H5]. split; try done.
  - intros x (y & Hy & Hv)%H3. exists y. split; [by right|done].
  - intros y [->|Hy]%elem_of_cons Hv; [left; auto|auto].
Qed.

Lemma walked_visit d oid o fs bits new1 new2 :
  object_of d oid = Some o -> oid ∉ bits ->
  walked d (enlist (field o)) ({[oid]} ∪ bits) new1 ->
  walked d fs ({[oid]} ∪ bits ∪ list_to_set new1) new2 ->
  walked d (oid :: fs) bits (oid :: new1 ++ new2).
Proof.
  intros Ho Hb [A1 A2 A3 A4 A5] [B1 B2 B3 B4 B5].
  assert (valid d oid = true) as Hv by (by eapply object_valid). split.
  - apply NoDup_cons. split.
    + intros [Hx|Hx]%elem_of_app; [apply A2 in Hx|apply B2 in Hx]; set_solver.
    + apply NoDup_app. split_and!; [done| |done]. intros x Hx1 Hx2%B2. set_solver.
  - intros x. rewrite elem_of_cons, elem_of_app. intros [->|[Hx|Hx]]; [done|apply A2 in Hx|apply B2 in Hx]; set_solver.
  - intros x. rewrite elem_of_cons, elem_of_app. intros [->|[Hx|Hx]].
    + exists oid. split; [by left|]. split; [done|apply rtc_refl].
    + destruct (A3 x Hx) as (y & Hy & Hvy & Hr). exists oid. split; [by left|]. split; [done|].
      eapply rtc_l; [|exact Hr]. by exists o.
    + destruct (B3 x Hx) as (y & Hy & Hvy & Hr). exists y. split; [by right|done].
  - intros y [->|Hy]%elem_of_cons Hvy; [right; by left|]. specialize (B4 y Hy Hvy). set_solver.
  - intros x y. rewrite elem_of_cons, elem_of_app. intros [->|[Hx|Hx]] He.
    + destruct He as (o' & Ho' & Hy & Hvy). rewrite Ho in Ho'. injection Ho' as <-.
      specialize (A4 y Hy Hvy). set_solver.
    + specialize (A5 x y Hx He). set_solver.
    + specialize (B5 x y Hx He). set_solver.
Qed.

(** The walk terminates: every recursive call marks an object. *)
Lemma visit_ok d : table_ok d -> forall fuel o bits,
  (size (dom (objects d) ∖ bits) < fuel)%nat ->
  exists new, walked d (enlist (field o)) bits new /\
    db1_count field fuel d o bits = Some (Z.of_nat (length new), bits ∪ list_to_set new) /\
    forall plist, db2_add field fuel d o plist bits = Some (plist ++ new, bits ∪ list_to_set new).
Proof.
  intros Ht. induction fuel as [|fuel IH]; intros o bits Hf; [lia|]. cbn [db1_count db2_add].
  assert (forall fs bits n, (size (dom (objects d) ∖ bits) < S fuel)%nat ->
    exists new, walked d fs bits new /\
      count_loop (db1_count field fuel d) d fs n bits = Some (n + Z.of_nat (length new), bits ∪ list_to_set new) /\
      forall plist, add_loop (db2_add field fuel d) d fs plist bits = Some (plist ++ new, bits ∪ list_to_set new)) as Hloop.
  { clear Hf bits. induction fs as [|oid fs IHfs]; intros bits n Hf.
    { exists []. split; [apply walked_nil|]. simpl. rewrite Z.add_0_r, union_empty_r_L. split; [done|].
      intros plist. by rewrite app_nil_r, union_empty_r_L. }
    cbn [count_loop add_loop]. destruct (valid d oid && negb (bool_decide (oid ∈ bits))) eqn:E.
    - apply andb_true_iff in E as [Hv Hb%negb_true_iff%bool_decide_eq_false].
      destruct (valid_object d oid Ht Hv) as [o2 Ho2]. rewrite Ho2.
      assert (size (dom (objects d) ∖ ({[oid]} ∪ bits)) < fuel)%nat as Hf2.
      { apply valid_dom in Hv. enough (size (dom (objects d) ∖ ({[oid]} ∪ bits)) < size (dom (objects d) ∖ bits))%nat by lia.
        apply subset_size. set_solver. }
      destruct (IH o2 _ Hf2) as (new1 & W1 & E1 & E2). rewrite E1.
      destruct (IHfs ({[oid]} ∪ bits ∪ list_to_set new1) (n + (Z.of_nat (length new1) + 1))) as (new2 & W2 & E3 & E4).
      { enough (size (dom (objects d) ∖ ({[oid]} ∪ bits ∪ list_to_set new1)) <= size (dom (objects d) ∖ ({[oid]} ∪ bits)))%nat by lia.
        apply subseteq_size. set_solver. }
      exists (oid :: new1 ++ new2). split; [by eapply walked_visit|].
      assert ({[oid]} ∪ bits ∪ list_to_set new1 ∪ list_to_set new2 = bits ∪ list_to_set (oid :: new1 ++ new2)) as Es.
      { rewrite list_to_set_cons, list_to_set_app_L. set_solver. }
      rewrite E3, Es. split; [do 2 f_equal; simpl; rewrite length_app; lia|].
      intros plist. rewrite E2, E4, Es, <- !app_assoc. done.
    - destruct (IHfs bits n Hf) as (new & W & E1 & E2). exists new. split; [|done].
      apply walked_skip; [|done]. intros Hv. rewrite Hv in E. simpl in E.
      by apply negb_false_iff, bool_decide_eq_true in E. }
  destruct (Hloop (enlist (field o)) bits 0 Hf) as (new & W & E1 & E2). exists new. by split_and!.
Qed.

(** From nothing visited: exactly the objects that can be reached, once
    each *)
Lemma walked_all d fs new x :
  walked d fs ∅ new -> x ∈ new <-> exists y, y ∈ fs /\ valid d y = true /\ rtc (edge d) y x.
Proof.
  intros W. split; [apply (wk_reach _ _ _ _ W)|]. intros (y & Hy & Hv & Hr).
  assert (y ∈ new) as Hn by (destruct (wk_first _ _ _ _ W y Hy Hv); set_solver).
  clear Hy Hv. induction Hr as [x|x y z Hxy Hr IH]; [done|]. apply IH.
  destruct (wk_closed _ _ _ _ W x y Hn Hxy); set_solver.
Qed.

(** The members of an object that can be reached from its field *)
Definition members_below (d : db) (o : Object) (x : Z) : Prop :=
  exists y, y ∈ enlist (field o) /\ valid d y = true /\ rtc (edge d) y x.

Lemma db_traverse_ok fuel d obj full l o :
  table_ok d -> dbpriv_dereference obj d = Some (l, d) -> obj_heap d !! l = Some o ->
  valid d NOTHING = false -> (size (dom (objects d)) < fuel)%nat ->
  exists new, db_traverse field fuel obj full d = Some ((if full then [obj] else []) ++ (VObj <$> new), d) /\
    NoDup new /\ forall x, x ∈ new <-> members_below d o x.
Proof.
  intros Ht Hl Ho Hn Hf. unfold db_traverse. erewrite mbind_Some by exact Hl. cbv beta.
  erewrite mbind_Some; [|unfold load; by rewrite Ho]. cbv beta zeta.
  destruct (no_parents (field o)) eqn:E.
  - exists []. split; [simpl; by rewrite app_nil_r|]. split; [constructor|]. intros x.
    split; [by intros ?%not_elem_of_nil|]. intros (y & Hy & Hv & _). exfalso.
    destruct (field o) as [p|[|]]; simpl in *; [|set_solver|done].
    apply list_elem_of_singleton in Hy as ->. apply Z.eqb_eq in E as ->. by rewrite Hn in Hv.
  - destruct (visit_ok d Ht fuel o ∅) as (new & W & E1 & E2); [by rewrite difference_empty_L|].
    rewrite E1, E2. simpl. rewrite (proj2 (Z.leb_le _ _)) by lia. exists new. split; [done|].
    split; [apply W|]. intros x. by apply walked_all.
Qed.
End walk.

Local Open Scope Z_scope.
Local Open Scope moo_scope.

Definition location_of (o : Object) : Z + list Z := inl (location o).
Definition children_of (o : Object) : Z + list Z := inr (children o).
Definition contents_of (o : Object) : Z + list Z := inr (contents o).

Definition acyclic (R : Z -> Z -> Prop) : Prop := exists rank : Z -> nat, forall x y, R x y -> (rank y < rank x)%nat.

Lemma acyclic_tc R x : acyclic R -> ~ tc R x x.
Proof.
  intros [rank H] Hx. assert (forall x y, tc R x y -> (rank y < rank x)%nat) as Ht.
  { clear -H. intros x y. induction 1 as [x y Hxy|x y z Hxy _ IH]; [by apply H|]. specialize (H _ _ Hxy). lia. }
  specialize (Ht x x Hx). lia.
Qed.

Definition parents_wf (d : db) (ps : Z + list Z) : Prop :=
  match ps with inl p => p = NOTHING \/ valid d p = true | inr l => Forall (fun p => valid d p = true) l end.

(** Enough fuel for a traversal *)
Definition walk_fuel (d : db) : nat := S (size (dom (objects d))).
Definition ancestors_list (d : db) (o : Object) : option (list Z) :=
  fst <$> db2_add parents (walk_fuel d) d o [] ∅.

Record table_inv (d : db) : Prop := {
  ti_table : table_ok d;
  ti_inj : forall x y l, objects d !! x = Some l -> objects d !! y = Some l -> x = y;
  ti_range : forall x, is_Some (objects d !! x) -> 0 <= x < num_objects d;
  ti_max : 0 <= num_objects d <= max_objects d;
  ti_id : forall x o, object_of d x = Some o -> obj_id o = x;
  ti_anons : forall x s l, anonymous_objects d !! x = Some s -> l ∈ s ->
    is_Some (obj_heap d !! l) /\ forall y, objects d !! y <> Some l }.

Record family (d : db) (up down : Object -> Z + list Z) : Prop := {
  fm_wf : forall x o, object_of d x = Some o -> parents_wf d (up o);
  fm_nodup : forall x o, object_of d x = Some o -> NoDup (enlist (down o));
  fm_valid : forall x o, object_of d x = Some o -> Forall (fun c => valid d c = true) (enlist (down o));
  fm_inverse : forall x y, edge up d x y <-> edge down d y x;
  fm_acyclic : acyclic (edge up d) }.

Definition cache_ok (d : db) : Prop := forall x l, ancestor_cache d !! x = Some l ->
  match object_of d x with
  | Some o => exists new, ancestors_list d o = Some new /\ l = VObj <$> new
  | None => l = []
  end.

Record db_ok (d : db) : Prop := {
  ok_table : table_inv d;
  ok_family : family d parents children_of;
  ok_place : family d location_of contents_of;
  ok_cache : cache_ok d }.

(** ** Pointwise updates *)

(** [d'] is [d] with its objects changed by [f]. *)
Record edited (d d' : db) (f : Z -> Object -> Object) : Prop := {
  ed_objects : objects d' = objects d;
  ed_num : num_objects d' = num_objects d;
  ed_max : max_objects d' = max_objects d;
  ed_anons : anonymous_objects d' = anonymous_objects d;
  ed_users : all_users d' = all_users d;
  ed_cache : ancestor_cache d' = ancestor_cache d;
  ed_of : forall x, object_of d' x = f x <$> object_of d x;
  ed_live : forall l, is_Some (obj_heap d !! l) -> is_Some (obj_heap d' !! l) }.

Lemma edited_refl d : edited d d (fun _ o => o).
Proof. split; try done. intros x. by destruct (object_of d x). Qed.
Lemma edited_trans d1 d2 d3 f g : edited d1 d2 f -> edited d2 d3 g -> edited d1 d3 (fun x o => g x (f x o)).
Proof.
  intros [] []. split; try congruence; [|auto]. intros x. rewrite ed_of1, ed_of0. by destruct (object_of d1 x).
Qed.
Lemma edited_ext d d' f g :
  edited d d' f -> (forall x o, object_of d x = Some o -> f x o = g x o) -> edited d d' g.
Proof.
  intros [] H. split; try done. intros x. rewrite ed_of0. destruct (object_of d x) eqn:E; [|done]. simpl.
  by rewrite (H _ _ E).
Qed.

Lemma edited_find d d' f oid : edited d d' f -> dbpriv_find_object d' oid = dbpriv_find_object d oid.
Proof. intros []. unfold dbpriv_find_object. by rewrite ed_objects0, ed_max0. Qed.
Lemma edited_valid d d' f oid : edited d d' f -> valid d' oid = valid d oid.
Proof. intros H. unfold valid. by rewrite (edited_find _ _ _ _ H). Qed.

Lemma edited_table d d' f :
  edited d d' f -> table_inv d -> (forall x o, obj_id (f x o) = obj_id o) -> table_inv d'.
Proof.
  intros Hed Hti Hid. pose proof Hed as []. destruct Hti. split.
  - intros oid l. rewrite (edited_find _ _ _ _ Hed). intros Hl. apply ed_live0. by eapply ti_table0.
  - rewrite ed_objects0. done.
  - rewrite ed_objects0, ed_num0. done.
  - rewrite ed_num0, ed_max0. done.
  - intros x o. rewrite ed_of0. destruct (object_of d x) eqn:E; [|done]. intros [= <-]. rewrite Hid. by apply ti_id0.
  - rewrite ed_anons0, ed_objects0. intros x s l Hs Hl. destruct (ti_anons0 x s l Hs Hl). auto.
Qed.

Lemma edited_edge d d' f fl x y :
  edited d d' f -> edge fl d' x y <-> exists o, object_of d x = Some o /\ y ∈ enlist (fl (f x o)) /\ valid d y = true.
Proof.
  intros Hed. pose proof Hed as []. unfold edge. rewrite (edited_valid _ _ _ _ Hed). split.
  - intros (o & Ho & Hy & Hv). rewrite ed_of0 in Ho. destruct (object_of d x) as [o1|]; [|done].
    injection Ho as <-. by exists o1.
  - intros (o & Ho & Hy & Hv). exists (f x o). by rewrite ed_of0, Ho.
Qed.

(** A field that [f] leaves alone *)
Lemma edited_edge_same d d' f fl x y :
  edited d d' f -> (forall o, fl (f x o) = fl o) -> edge fl d' x y <-> edge fl d x y.
Proof. intros Hed H. rewrite (edited_edge _ _ _ _ _ _ Hed). unfold edge. setoid_rewrite H. done. Qed.

Lemma edited_family d d' f up down :
  edited d d' f -> (forall x o, up (f x o) = up o) -> (forall x o, down (f x o) = down o) ->
  family d up down -> family d' up down.
Proof.
  intros Hed Hu Hd [H1 H2 H3 H4 [rank H5]]. pose proof (ed_of _ _ _ Hed) as Hof. split.
  - intros x o. rewrite Hof. destruct (object_of d x) eqn:E; [|done]. intros [= <-]. rewrite Hu.
    specialize (H1 _ _ E). unfold parents_wf in *. destruct (up o0); [by rewrite (edited_valid _ _ _ _ Hed)|].
    eapply Forall_impl; [exact H1|]. intros p. by rewrite (edited_valid _ _ _ _ Hed).
  - intros x o. rewrite Hof. destruct (object_of d x) eqn:E; [|done]. intros [= <-]. rewrite Hd. by eapply H2.
  - intros x o. rewrite Hof. destruct (object_of d x) eqn:E; [|done]. intros [= <-]. rewrite Hd.
    eapply Forall_impl; [by eapply H3|]. intros p. by rewrite (edited_valid _ _ _ _ Hed).
  - intros x y. rewrite !(edited_edge_same _ _ _ _ _ _ Hed) by auto. apply H4.
  - exists rank. intros x y. rewrite (edited_edge_same _ _ _ _ _ _ Hed) by auto. apply H5.
Qed.

(** ** One object, and several *)

Lemma find_slot d oid l : dbpriv_find_object d oid = Some l -> objects d !! oid = Some l.
Proof. unfold dbpriv_find_object. by case_match. Qed.
Lemma object_slot d oid o :
  object_of d oid = Some o -> exists l, dbpriv_find_object d oid = Some l /\ obj_heap d !! l = Some o.
Proof. unfold object_of. destruct (dbpriv_find_object d oid) as [l|]; [|done]. by exists l. Qed.
Lemma slot_eq d oid l : dbpriv_find_object d oid = Some l -> slot oid d = Some (l, d).
Proof. unfold slot. by intros ->. Qed.
Lemma load_eq d l o : obj_heap d !! l = Some o -> load l d = Some (o, d).
Proof. unfold load. by intros ->. Qed.

Definition at_one (oid : Z) (f : Object -> Object) (x : Z) (o : Object) : Object := if decide (x = oid) then f o else o.

Lemma update_edited d oid l o f :
  table_inv d -> dbpriv_find_object d oid = Some l -> obj_heap d !! l = Some o ->
  exists d', update l f d = Some (tt, d') /\ edited d d' (at_one oid f).
Proof.
  intros Hti Hl Ho. unfold update. rewrite Ho. eexists. split; [done|]. split; try done.
  - intros x. unfold object_of at 1. unfold dbpriv_find_object at 1. simpl. unfold at_one.
    destruct (decide (x = oid)) as [->|Hx].
    + fold (dbpriv_find_object d oid). rewrite Hl. simpl. rewrite lookup_insert_eq. unfold object_of.
      rewrite Hl. simpl. by rewrite Ho.
    + fold (dbpriv_find_object d x). unfold object_of. destruct (dbpriv_find_object d x) as [m|] eqn:Em; [|done].
      simpl. rewrite lookup_insert_ne; [by destruct (obj_heap d !! m)|]. intros ->. apply Hx.
      eapply (ti_inj d Hti); by apply find_slot.
  - intros m Hm. simpl. destruct (decide (l = m)) as [->|]; [by rewrite lookup_insert_eq|].
    by rewrite lookup_insert_ne.
Qed.

Lemma edit_edited d oid f :
  table_inv d -> valid d oid = true -> exists d', edit f oid d = Some (tt, d') /\ edited d d' (at_one oid f).
Proof.
  intros Hti Hv. destruct (valid_object d oid (ti_table d Hti) Hv) as [o Ho].
  destruct (object_slot d oid o Ho) as (l & Hl & Hh). destruct (update_edited d oid l o f Hti Hl Hh) as (d' & E & Hed).
  exists d'. split; [|done]. unfold edit. by erewrite mbind_Some by (by apply slot_eq).
Qed.

Definition at_all (ps : list Z) (f : Object -> Object) (x : Z) (o : Object) : Object :=
  if decide (x ∈ ps) then f o else o.

(** An idempotent edit of several objects, perhaps repeated *)
Lemma for_each_edited f (P : Object -> Prop) ps : forall d,
  (forall o, obj_id (f o) = obj_id o) -> (forall o, P o -> P (f o) /\ f (f o) = f o) ->
  table_inv d -> (forall x o, object_of d x = Some o -> P o) -> Forall (fun p => valid d p = true) ps ->
  exists d', for_each (edit f) ps d = Some (tt, d') /\ edited d d' (at_all ps f).
Proof.
  induction ps as [|p ps IH]; intros d Hid Hf Hti HP Hv.
  { exists d. split; [done|]. eapply edited_ext; [apply edited_refl|]. intros x o _. unfold at_all.
    by rewrite decide_False by (by apply not_elem_of_nil). }
  apply Forall_cons in Hv as [Hv1 Hv].
  destruct (edit_edited d p f Hti Hv1) as (d1 & E1 & Hed1).
  destruct (IH d1) as (d2 & E2 & Hed2); [done|done| | | |].
  - eapply edited_table; [done..|]. intros x o. unfold at_one. case_decide; [apply Hid|done].
  - intros x o. rewrite (ed_of _ _ _ Hed1). destruct (object_of d x) eqn:E; [|done]. intros [= <-].
    unfold at_one. case_decide; [apply Hf|]; by eapply HP.
  - eapply Forall_impl; [exact Hv|]. intros q. by rewrite (edited_valid _ _ _ _ Hed1).
  - exists d2. simpl. erewrite mbind_Some by exact E1. split; [done|].
    eapply edited_ext; [by eapply edited_trans|]. intros x o Ho. simpl. unfold at_all, at_one.
    destruct (decide (x = p)) as [->|Hx].
    + rewrite (decide_True (P := p ∈ p :: ps)) by (by left). case_decide; [|done]. apply Hf. by eapply HP.
    + destruct (decide (x ∈ ps)); [rewrite decide_True by (by right)|rewrite decide_False by set_solver]; done.
Qed.

Lemma for_parents_edited f (P : Object -> Prop) ps d :
  (forall o, obj_id (f o) = obj_id o) -> (forall o, P o -> P (f o) /\ f (f o) = f o) ->
  table_inv d -> (forall x o, object_of d x = Some o -> P o) -> parents_wf d ps ->
  exists d', for_parents (edit f) ps d = Some (tt, d') /\ edited d d' (at_all (enlist ps) f).
Proof.
  intros Hid Hf Hti HP Hwf. destruct ps as [p|l]; simpl in *; [|by eapply for_each_edited].
  destruct (p =? NOTHING) eqn:E.
  - apply Z.eqb_eq in E as ->. exists d. split; [done|]. eapply edited_ext; [apply edited_refl|].
    intros x o Ho. unfold at_all. rewrite decide_False; [done|]. intros ->%list_elem_of_singleton.
    destruct (object_slot _ _ _ Ho) as (l & Hl & _). apply find_slot in Hl.
    assert (is_Some (objects d !! NOTHING)) as Hr%(ti_range d Hti) by (by eexists). unfold NOTHING in Hr. lia.
  - destruct Hwf as [->|Hv]; [done|]. destruct (for_each_edited f P [p] d Hid Hf Hti HP) as (d' & E' & Hed).
    { by repeat constructor. }
    exists d'. split; [|done]. simpl in E'. apply mbind_inv in E' as ([] & d1 & E1 & [= <-]). done.
Qed.
