(* ===== verification/ObjParents.v ===== *)
(** * Changing the parents of an object

    [db_change_parents] keeps the invariant when none of the new parents is
    the object or one of its descendants. *)
From Stdlib Require Import ZArith Lia.
From stdpp Require Import prelude gmap relations.
From S2P Require Import Prelude CString Value ObjCode ObjGraph.

(** ** Ancestors and their cache

    A traversal depends only on the objects it can reach; so a cached list
    stays right when the objects above its owner do not change. *)
Local Open Scope Z_scope.
Local Open Scope moo_scope.

(** ** More fuel, and other objects *)

Lemma add_loop_mono (add add' : Object -> list Z -> gset Z -> option (list Z * gset Z)) d fs : forall pl bits r,
  (forall o pl bits r, add o pl bits = Some r -> add' o pl bits = Some r) ->
  add_loop add d fs pl bits = Some r -> add_loop add' d fs pl bits = Some r.
Proof.
  induction fs as [|oid fs IH]; intros pl bits r Ha H; [done|]. cbn [add_loop] in *.
  case_match; [|by apply IH]. destruct (object_of d oid) as [o|]; [|done].
  destruct (add o _ _) as [[pl1 bits1]|] eqn:E; [|done]. apply Ha in E. rewrite E. by apply IH.
Qed.

Section fuel.
Context (field : Object -> Z + list Z).

Lemma db2_add_mono d fuel : forall fuel' o pl bits r, (fuel <= fuel')%nat ->
  db2_add field fuel d o pl bits = Some r -> db2_add field fuel' d o pl bits = Some r.
Proof.
  induction fuel as [|fuel IH]; intros [|fuel'] o pl bits r Hf H; try done; [lia|]. cbn [db2_add] in *.
  eapply add_loop_mono; [|exact H]. intros o' pl' bits' r'. apply IH. lia.
Qed.

(** A set of objects [S] closed under the field, with the same field in both
    databases *)
Definition same_above (d d' : db) (S : Z -> Prop) (fs : list Z) : Prop :=
  forall y, y ∈ fs -> valid d y = valid d' y /\ (valid d y = true -> S y).

Lemma db2_add_frame d d' (S : Z -> Prop) :
  (forall x, S x -> exists o o', object_of d x = Some o /\ object_of d' x = Some o' /\ field o = field o' /\
    same_above d d' S (enlist (field o))) ->
  forall fuel o o' pl bits, field o = field o' -> same_above d d' S (enlist (field o)) ->
  db2_add field fuel d o pl bits = db2_add field fuel d' o' pl bits.
Proof.
  intros HS. induction fuel as [|fuel IH]; intros o o' pl bits Hf Hs; [done|]. cbn [db2_add]. rewrite <- Hf.
  clear Hf. revert pl bits Hs. induction (enlist (field o)) as [|y fs IHfs]; intros pl bits Hs; [done|]. cbn [add_loop].
  destruct (Hs y) as [Hv HSy]; [by left|]. rewrite <- Hv.
  assert (same_above d d' S fs) as Hs' by (intros z Hz; apply Hs; by right).
  destruct (valid d y) eqn:E; simpl; [|by apply IHfs].
  destruct (negb _); [|by apply IHfs]. destruct (HS y) as (p & p' & -> & -> & Hp & Hsp); [by apply HSy|].
  rewrite (IH p p') by done. destruct (db2_add _ _ _ p' _ _) as [[pl1 b1]|]; [|done]. by apply IHfs.
Qed.
End fuel.

Lemma nothing_invalid d : table_inv d -> valid d NOTHING = false.
Proof.
  intros Hti. destruct (valid d NOTHING) eqn:E; [|done]. apply valid_dom, elem_of_dom, (ti_range d Hti) in E.
  unfold NOTHING in E. lia.
Qed.

Lemma ancestors_list_ok d o :
  table_inv d -> exists new, ancestors_list d o = Some new /\ NoDup new /\ forall x, x ∈ new <-> members_below parents d o x.
Proof.
  intros Hti. destruct (visit_ok parents d (ti_table d Hti) (walk_fuel d) o ∅) as (new & W & _ & E).
  { rewrite difference_empty_L. unfold walk_fuel. lia. }
  exists new. unfold ancestors_list. rewrite E. split; [done|]. split; [apply W|]. intros x. by apply walked_all.
Qed.

(** What [db_find_ancestors] returns *)
Lemma db_find_ancestors_at fuel d v l o full :
  table_inv d -> dbpriv_dereference v d = Some (l, d) -> obj_heap d !! l = Some o -> (walk_fuel d <= fuel)%nat ->
  exists new, ancestors_list d o = Some new /\
    db_find_ancestors fuel v full d = Some ((if full then [v] else []) ++ (VObj <$> new), d).
Proof.
  intros Hti Hl Hh Hf. unfold db_find_ancestors, db_traverse.
  erewrite mbind_Some by exact Hl. cbv beta. erewrite mbind_Some by (by apply load_eq). cbv beta zeta.
  destruct (visit_ok parents d (ti_table d Hti) fuel o ∅) as (new & W & E1 & E2).
  { rewrite difference_empty_L. unfold walk_fuel in Hf. lia. }
  destruct (visit_ok parents d (ti_table d Hti) (walk_fuel d) o ∅) as (new' & _ & _ & E3).
  { rewrite difference_empty_L. unfold walk_fuel. lia. }
  specialize (E3 []). pose proof (db2_add_mono _ _ _ _ _ _ _ _ Hf E3) as E4. rewrite (E2 []) in E4.
  injection E4 as Hnew _. simpl in Hnew. subst new'.
  exists new. split; [by unfold ancestors_list; rewrite E3|].
  destruct (no_parents (parents o)) eqn:E.
  - assert (new = []) as ->; [|by rewrite app_nil_r].
    destruct new as [|y new]; [done|]. destruct (wk_reach _ _ _ _ _ W y) as (z & Hz & Hv & _); [by left|].
    destruct (parents o) as [p|[|]]; simpl in *; [|by apply not_elem_of_nil in Hz|done].
    apply list_elem_of_singleton in Hz as ->. apply Z.eqb_eq in E as ->. by rewrite nothing_invalid in Hv.
  - rewrite E1, E2. simpl. by rewrite (proj2 (Z.leb_le _ _)) by lia.
Qed.
Lemma db_find_ancestors_eq fuel d x o full :
  table_inv d -> object_of d x = Some o -> (walk_fuel d <= fuel)%nat ->
  exists new, ancestors_list d o = Some new /\
    db_find_ancestors fuel (VObj x) full d = Some ((if full then [VObj x] else []) ++ (VObj <$> new), d).
Proof.
  intros Hti Ho Hf. destruct (object_slot d x o Ho) as (l & Hl & Hh).
  apply (db_find_ancestors_at fuel d (VObj x) l o full Hti); [by apply slot_eq|done|done].
Qed.

(** ** The cache *)

Lemma ancestors_list_cache c d o : table_ok d -> ancestors_list (with_cache c d) o = ancestors_list d o.
Proof.
  intros Ht. unfold ancestors_list. f_equal.
  assert (forall p, same_above (with_cache c d) d (fun y => is_Some (object_of d y)) (enlist (parents p))) as Hs.
  { intros p y Hy. split; [done|]. intros Hv. by apply valid_object. }
  apply (db2_add_frame parents _ d (fun y => is_Some (object_of d y))); [|done|apply Hs].
  intros y [p Hp]. exists p, p. split_and!; [done|done|done|apply Hs].
Qed.

Lemma cache_insert d x o new :
  table_inv d -> cache_ok d -> object_of d x = Some o -> ancestors_list d o = Some new ->
  cache_ok (with_cache (<[x := VObj <$> new]> (ancestor_cache d)) d).
Proof.
  intros Hti Hc Ho Hn y l. simpl. destruct (decide (x = y)) as [->|Hxy].
  - rewrite lookup_insert_eq. intros [= <-]. change (object_of (with_cache _ d) y) with (object_of d y).
    rewrite Ho. exists new. split; [|done]. rewrite ancestors_list_cache; [done|apply Hti].
  - rewrite lookup_insert_ne by done. intros Hl. specialize (Hc y l Hl).
    change (object_of (with_cache _ d) y) with (object_of d y). destruct (object_of d y) as [p|]; [|done].
    destruct Hc as (new' & Hn' & ->). exists new'. split; [|done]. rewrite ancestors_list_cache; [done|apply Hti].
Qed.

Lemma db_ancestors_ok fuel d x o full :
  table_inv d -> cache_ok d -> object_of d x = Some o -> (walk_fuel d <= fuel)%nat ->
  exists new c, ancestors_list d o = Some new /\ cache_ok (with_cache c d) /\
    db_ancestors fuel (VObj x) full d =
      Some ((if full then [VObj x] else []) ++ (VObj <$> new), with_cache c d).
Proof.
  intros Hti Hc Ho Hf. pose proof (object_valid _ _ _ Ho) as Hv. destruct (object_slot d x o Ho) as (l & Hl & Hh).
  assert (d = with_cache (ancestor_cache d) d) as Hid by (by destruct d).
  unfold db_ancestors. erewrite mbind_Some by (by apply slot_eq). cbv beta.
  erewrite mbind_Some by (by apply load_eq). cbv beta. rewrite Hv, (ti_id d Hti x o Ho). cbn [negb orb].
  destruct (match parents o with inl p => p =? NOTHING | inr _ => false end) eqn:E; cbv iota.
  - destruct (db_find_ancestors_eq fuel d x o full Hti Ho Hf) as (new & Hn & ->).
    exists new, (ancestor_cache d). by rewrite <- Hid.
  - destruct (ancestor_cache d !! x) as [anc|] eqn:Ea.
    + pose proof (Hc x anc Ea) as Hx. rewrite Ho in Hx. destruct Hx as (new & Hn & ->).
      exists new, (ancestor_cache d). rewrite <- Hid. split; [done|]. split; [done|]. by destruct full.
    + destruct (db_find_ancestors_eq fuel d x o false Hti Ho Hf) as (new & Hn & Eq).
      exists new, (<[x := VObj <$> new]> (ancestor_cache d)). split; [done|]. split; [by eapply cache_insert|].
      rewrite mbind_assoc. erewrite mbind_Some by exact Eq. simpl. by destruct full.
Qed.

(** A change that leaves the parents alone *)
Lemma edited_cache d d' f :
  edited d d' f -> table_inv d -> (forall x o, parents (f x o) = parents o) -> cache_ok d -> cache_ok d'.
Proof.
  intros Hed Hti Hf Hc x l Hx. rewrite (ed_cache _ _ _ Hed) in Hx. specialize (Hc x l Hx). rewrite (ed_of _ _ _ Hed).
  destruct (object_of d x) as [p|] eqn:Ep; [|done]. destruct Hc as (anc & Ha & ->). exists anc. split; [|done].
  rewrite <- Ha. unfold ancestors_list, walk_fuel. rewrite (ed_objects _ _ _ Hed). f_equal. symmetry.
  assert (forall fs, same_above d d' (fun y => is_Some (object_of d y)) fs) as Hs.
  { intros fs z _. rewrite (edited_valid _ _ _ _ Hed). split; [done|]. intros Hv. by apply valid_object; [apply Hti|]. }
  apply (db2_add_frame parents d d' (fun y => is_Some (object_of d y))); [|by rewrite Hf|apply Hs].
  intros y [q Hq]. eexists _, _. split; [exact Hq|]. rewrite (ed_of _ _ _ Hed), Hq. by rewrite Hf.
Qed.

(** ** Stable parts of the database *)

(** No ancestor of [x] is [oid]. *)
Definition avoids (d : db) (oid x : Z) : Prop := ~ rtc (edge parents d) x oid.

Lemma avoids_edge d oid x y : avoids d oid x -> edge parents d x y -> avoids d oid y.
Proof. intros Hx He Hy. apply Hx. by eapply rtc_l. Qed.

(** Only the parents of [oid] change: lists of objects that avoid it are the
    same. *)
Lemma ancestors_list_stable d d' f oid x o :
  edited d d' f -> table_inv d -> (forall y o, y <> oid -> parents (f y o) = parents o) ->
  object_of d x = Some o -> avoids d oid x ->
  ancestors_list d' (f x o) = ancestors_list d o.
Proof.
  intros Hed Hti Hf Ho Hx. unfold ancestors_list, walk_fuel. rewrite (ed_objects _ _ _ Hed). f_equal.
  assert (forall y o, avoids d oid y -> object_of d y = Some o ->
    same_above d d' (avoids d oid) (enlist (parents o))) as Hsame.
  { intros y p Hy Hp z Hz. rewrite (edited_valid _ _ _ _ Hed). split; [done|]. intros Hv.
    eapply avoids_edge; [exact Hy|]. by exists p. }
  assert (forall y, avoids d oid y -> y <> oid) as Hne by (intros y Hy ->; apply Hy, rtc_refl).
  symmetry. apply (db2_add_frame parents d d' (fun y => avoids d oid y /\ is_Some (object_of d y))).
  - intros y [Hy [p Hp]]. exists p, (f y p). split; [done|]. rewrite (ed_of _ _ _ Hed), Hp. split; [done|].
    split; [by rewrite Hf by auto|]. intros z Hz. destruct (Hsame y p Hy Hp z Hz) as [Hv Hz']. split; [done|].
    intros Hvz. split; [auto|]. by apply valid_object; [apply Hti|].
  - by rewrite Hf by auto.
  - intros z Hz. destruct (Hsame x o Hx Ho z Hz) as [Hv Hz']. split; [done|].
    intros Hvz. split; [auto|]. by apply valid_object; [apply Hti|].
Qed.

Lemma edge_rtc_flip d up down x y : family d up down -> rtc (edge up d) x y <-> rtc (edge down d) y x.
Proof.
  intros Hf. split; induction 1 as [x|x y z Hxy _ IH]; try apply rtc_refl;
    (eapply rtc_r; [exact IH|]); by apply (fm_inverse _ _ _ Hf).
Qed.

Local Open Scope Z_scope.
Local Open Scope moo_scope.

(** ** Sets of object numbers *)

Lemma elem_of_setadd l x y : y ∈ obj_setadd l x <-> y ∈ l \/ y = x.
Proof.
  unfold obj_setadd. destruct (existsb (Z.eqb x) l) eqn:E.
  - split; [by left|]. intros [H| ->]; [done|]. apply existsb_exists in E as (z & Hz & ->%Z.eqb_eq).
    by apply list_elem_of_In.
  - rewrite elem_of_app, list_elem_of_singleton. done.
Qed.
Lemma NoDup_setadd l x : NoDup l -> NoDup (obj_setadd l x).
Proof.
  intros H. unfold obj_setadd. destruct (existsb (Z.eqb x) l) eqn:E; [done|].
  apply NoDup_app. split_and!; [done| |repeat constructor; by intros ?%not_elem_of_nil].
  intros y Hy ->%list_elem_of_singleton. assert (existsb (Z.eqb x) l = true); [|congruence].
  apply existsb_exists. exists x. split; [by apply list_elem_of_In|apply Z.eqb_refl].
Qed.
Lemma setadd_in l x : x ∈ l -> obj_setadd l x = l.
Proof.
  intros Hx. unfold obj_setadd. rewrite (proj2 (existsb_exists _ _)); [done|].
  exists x. split; [by apply list_elem_of_In|apply Z.eqb_refl].
Qed.

Lemma setremove_notin l x : x ∉ l -> obj_setremove l x = l.
Proof.
  induction l as [|y l IH]; [done|]. intros [Hxy Hx]%not_elem_of_cons. simpl.
  rewrite (proj2 (Z.eqb_neq y x)) by congruence. by rewrite IH.
Qed.
Lemma setremove_filter l x : NoDup l -> obj_setremove l x = filter (fun y => y <> x) l.
Proof.
  induction 1 as [|y l Hy _ IH]; [done|]. simpl. rewrite filter_cons. destruct (y =? x) eqn:E.
  - apply Z.eqb_eq in E as ->. rewrite decide_False by tauto. symmetry. rewrite <- IH. by apply setremove_notin.
  - apply Z.eqb_neq in E. rewrite decide_True by done. by rewrite IH.
Qed.
Lemma elem_of_setremove l x y : NoDup l -> y ∈ obj_setremove l x <-> y ∈ l /\ y <> x.
Proof. intros H. rewrite setremove_filter by done. rewrite list_elem_of_filter. tauto. Qed.
Lemma NoDup_setremove l x : NoDup l -> NoDup (obj_setremove l x).
Proof. intros H. rewrite setremove_filter by done. by apply NoDup_filter. Qed.

(** ** One object gets other members *)

Section reroute.
Context (d d' : db) (up down : Object -> Z + list Z) (oid : Z) (o : Object) (new : list Z).
Hypothesis Ht : table_ok d.
Hypothesis Hfm : family d up down.
Hypothesis Ho : object_of d oid = Some o.
Hypothesis Hcycle : forall p, p ∈ new -> valid d p = true -> ~ rtc (edge up d) p oid.
Hypothesis Hup : forall x y, edge up d' x y <->
  (x = oid /\ y ∈ new /\ valid d y = true) \/ (x <> oid /\ edge up d x y).

(** The objects below [oid], itself included *)
Lemma below_decidable : exists D : list Z, forall x, x ∈ D <-> rtc (edge up d) x oid.
Proof.
  destruct (visit_ok down d Ht (walk_fuel d) o ∅) as (ds & W & _).
  { rewrite difference_empty_L. unfold walk_fuel. lia. }
  exists (oid :: ds). intros x. rewrite (edge_rtc_flip d up down) by done.
  rewrite elem_of_cons, (walked_all down _ _ _ x W). split.
  - intros [->|(y & Hy & Hv & Hr)]; [apply rtc_refl|]. eapply rtc_l; [|exact Hr]. by exists o.
  - intros Hr. inversion Hr as [|? y ? Hxy Hyz]; subst; [by left|right].
    destruct Hxy as (o' & Ho' & Hy & Hv). exists y. split; [congruence|done].
Qed.

Lemma rerouted_acyclic : acyclic (edge up d').
Proof.
  destruct (fm_acyclic _ _ _ Hfm) as [rank Hrank]. destruct below_decidable as [D HD].
  set (top := foldr (fun p n => Nat.max (rank p) n) 0%nat new).
  assert (forall p, p ∈ new -> (rank p <= top)%nat) as Htop.
  { unfold top. clear. induction new as [|q l IH]; [by intros p ?%not_elem_of_nil|].
    intros p [->|Hp]%elem_of_cons; simpl; [lia|]. specialize (IH p Hp). lia. }
  exists (fun x => if decide (x ∈ D) then (rank x + S top)%nat else rank x).
  intros x y [(-> & Hy & Hv)|(Hx & He)]%Hup.
  - rewrite decide_False by (rewrite HD; by apply Hcycle). rewrite decide_True by (rewrite HD; apply rtc_refl).
    specialize (Htop y Hy). lia.
  - specialize (Hrank x y He). destruct (decide (y ∈ D)) as [Hy|Hy].
    + rewrite decide_True; [lia|]. rewrite HD in *. by eapply rtc_l.
    + case_decide; lia.
Qed.
End reroute.

(** ** The new links *)

Definition unlink (oid : Z) (o : Object) : Object := with_children (obj_setremove (children o) oid) o.
Definition link (oid : Z) (o : Object) : Object := with_children (obj_setadd (children o) oid) o.

(** The objects after the parents of [oid] changed from [old] to [new] *)
Definition relinked (oid : Z) (old new : Z + list Z) (x : Z) (o : Object) : Object :=
  at_one oid (with_parents new) x (at_all (enlist new) (link oid) x (at_all (enlist old) (unlink oid) x o)).

Lemma relinked_parents oid old new x o :
  parents (relinked oid old new x o) = if decide (x = oid) then new else parents o.
Proof. unfold relinked, at_one, at_all. repeat case_decide; done. Qed.
Lemma relinked_location oid old new x o : location (relinked oid old new x o) = location o.
Proof. unfold relinked, at_one, at_all. repeat case_decide; done. Qed.
Lemma relinked_contents oid old new x o : contents (relinked oid old new x o) = contents o.
Proof. unfold relinked, at_one, at_all. repeat case_decide; done. Qed.
Lemma relinked_id oid old new x o : obj_id (relinked oid old new x o) = obj_id o.
Proof. unfold relinked, at_one, at_all. repeat case_decide; done. Qed.
Lemma relinked_children oid old new x o :
  children (relinked oid old new x o) =
    (let l := if decide (x ∈ enlist old) then obj_setremove (children o) oid else children o in
     if decide (x ∈ enlist new) then obj_setadd l oid else l).
Proof. unfold relinked, at_one, at_all. repeat case_decide; done. Qed.

Lemma NoDup_relinked oid old new x o : NoDup (children o) -> NoDup (children (relinked oid old new x o)).
Proof.
  intros H. rewrite relinked_children. cbv zeta.
  assert (NoDup (if decide (x ∈ enlist old) then obj_setremove (children o) oid else children o)) as H1.
  { case_decide; [by apply NoDup_setremove|done]. }
  destruct (decide (x ∈ enlist new)); [by apply NoDup_setadd|done].
Qed.

Section relink.
Context (d d' : db) (oid : Z) (o : Object) (new : Z + list Z).
Hypothesis Hti : table_inv d.
Hypothesis Hfm : family d parents children_of.
Hypothesis Ho : object_of d oid = Some o.
Hypothesis Hnew : parents_wf d new.
Hypothesis Hcycle : forall p, p ∈ enlist new -> valid d p = true -> avoids d oid p.
Hypothesis Hed : edited d d' (relinked oid (parents o) new).

Lemma relinked_up x y :
  edge parents d' x y <->
  (x = oid /\ y ∈ enlist new /\ valid d y = true) \/ (x <> oid /\ edge parents d x y).
Proof.
  rewrite (edited_edge _ _ _ _ _ _ Hed). setoid_rewrite relinked_parents. unfold edge.
  destruct (decide (x = oid)) as [->|Hx]; [|naive_solver]. split; [naive_solver|].
  intros [(_ & Hy & Hv)|[? _]]; [|done]. by exists o.
Qed.

Lemma relinked_down x y :
  edge children_of d' x y <->
  (y = oid /\ x ∈ enlist new /\ valid d x = true) \/ (y <> oid /\ edge children_of d x y).
Proof.
  rewrite (edited_edge _ _ _ _ _ _ Hed). unfold edge, children_of. simpl. setoid_rewrite relinked_children.
  assert (valid d oid = true) as Hvo by (by eapply object_valid).
  split.
  - intros (p & Hp & Hy & Hv). cbv zeta in Hy. pose proof (fm_nodup _ _ _ Hfm _ _ Hp) as Hnd. simpl in Hnd.
    destruct (decide (y = oid)) as [->|Hne].
    + left. split; [done|]. split; [|by eapply object_valid]. destruct (decide (x ∈ enlist new)); [done|].
      exfalso. case_decide as Hold; [by apply elem_of_setremove in Hy as [_ ?]|].
      apply Hold. destruct (proj2 (fm_inverse _ _ _ Hfm oid x)) as (o' & Ho' & Hx & _); [by exists p|].
      congruence.
    + right. split; [done|]. exists p. split; [done|]. split; [|done].
      destruct (decide (x ∈ enlist new)); [apply elem_of_setadd in Hy as [Hy|?]; [|done]|];
        (case_decide; [by apply elem_of_setremove in Hy as [? _]|done]).
  - intros [(-> & Hx & Hv)|(Hne & p & Hp & Hy & Hv)].
    + destruct (valid_object d x (ti_table d Hti) Hv) as [p Hp]. exists p. split; [done|]. split; [|done].
      cbv zeta. rewrite decide_True by done. apply elem_of_setadd. by right.
    + exists p. split; [done|]. split; [|done]. cbv zeta. pose proof (fm_nodup _ _ _ Hfm _ _ Hp) as Hnd.
      assert (y ∈ (if decide (x ∈ enlist (parents o)) then obj_setremove (children p) oid else children p)) as H1.
      { case_decide; [by apply elem_of_setremove|done]. }
      destruct (decide (x ∈ enlist new)); [apply elem_of_setadd; by left|done].
Qed.

Lemma relinked_acyclic : acyclic (edge parents d').
Proof.
  eapply (rerouted_acyclic d d' parents children_of oid o (enlist new)); try done; [apply Hti|].
  intros x y. apply relinked_up.
Qed.

Lemma relinked_family : family d' parents children_of.
Proof.
  pose proof (ed_of _ _ _ Hed) as Hof.
  assert (forall ps, parents_wf d ps -> parents_wf d' ps) as Hwf.
  { intros [p|l]; simpl; [by rewrite (edited_valid _ _ _ _ Hed)|]. intros H. eapply Forall_impl; [exact H|].
    intros p. by rewrite (edited_valid _ _ _ _ Hed). }
  split.
  - intros x p. rewrite Hof. destruct (object_of d x) as [q|] eqn:E; [|done]. intros [= <-].
    apply Hwf. rewrite relinked_parents. case_decide; [done|]. by eapply (fm_wf _ _ _ Hfm).
  - intros x p. rewrite Hof. destruct (object_of d x) as [q|] eqn:E; [|done]. intros [= <-].
    apply NoDup_relinked. by eapply (fm_nodup _ _ _ Hfm).
  - intros x p. rewrite Hof. destruct (object_of d x) as [q|] eqn:E; [|done]. intros [= <-].
    apply Forall_forall. intros c Hc. rewrite (edited_valid _ _ _ _ Hed).
    pose proof (fm_valid _ _ _ Hfm _ _ E) as Hv. rewrite Forall_forall in Hv. simpl in Hc, Hv.
    rewrite relinked_children in Hc. cbv zeta in Hc.
    assert (forall l : list Z, c ∈ (if decide (x ∈ l) then obj_setremove (children q) oid else children q) -> c ∈ children q) as Hl.
    { intros l. pose proof (fm_nodup _ _ _ Hfm _ _ E) as Hnd. destruct (decide (x ∈ l)); [|done].
      by intros [? _]%elem_of_setremove. }
    destruct (decide (x ∈ enlist new)); [apply elem_of_setadd in Hc as [Hc| ->]|]; [by apply Hv, (Hl _ Hc)| |by apply Hv, (Hl _ Hc)].
    by eapply object_valid.
  - intros x y. rewrite relinked_up, relinked_down. rewrite (fm_inverse _ _ _ Hfm). naive_solver.
  - apply relinked_acyclic.
Qed.

(** An object below [oid] before is below it after. *)
Lemma relinked_below x : rtc (edge parents d) x oid -> rtc (edge parents d') x oid.
Proof.
  revert x. apply rtc_ind_l; [apply rtc_refl|]. intros x y Hxy _ IH.
  destruct (decide (x = oid)) as [->|Hx]; [apply rtc_refl|].
  eapply rtc_l; [|exact IH]. apply relinked_up. by right.
Qed.
End relink.
