(* ===== verification/ObjChange.v ===== *)
(** * [db_change_parents] and [db_change_location] keep the invariant *)
From Stdlib Require Import ZArith Lia.
From stdpp Require Import prelude gmap relations.
From S2P Require Import Prelude CString Value ObjCode ObjGraph ObjParents.

Local Open Scope Z_scope.
Local Open Scope moo_scope.

(** ** The cache is not part of the graph *)

Lemma table_inv_cache c d : table_inv d -> table_inv (with_cache c d).
Proof. intros [H1 H2 H3 H4 H5 H6]. split; [exact H1|exact H2|exact H3|exact H4|exact H5|exact H6]. Qed.
Lemma family_cache c d up down : family d up down -> family (with_cache c d) up down.
Proof. intros [H1 H2 H3 H4 H5]. split; [exact H1|exact H2|exact H3|exact H4|exact H5]. Qed.

(** [d'] is [d] with its objects changed by [f], and perhaps another cache. *)
Definition edits (d d' : db) (f : Z -> Object -> Object) : Prop := edited (with_cache (ancestor_cache d') d) d' f.

Lemma edits_of d d' f x : edits d d' f -> object_of d' x = f x <$> object_of d x.
Proof. intros H. exact (ed_of _ _ _ H x). Qed.
Lemma edits_refl c d : edits d (with_cache c d) (fun _ o => o).
Proof. apply edited_refl. Qed.
Lemma edits_valid d d' f x : edits d d' f -> valid d' x = valid d x.
Proof. intros H. exact (edited_valid _ _ _ x H). Qed.

Lemma db_ok_cache c d : db_ok d -> cache_ok (with_cache c d) -> db_ok (with_cache c d).
Proof. intros [H1 H2 H3 H4] Hc. split; [by apply table_inv_cache|by apply family_cache..|done]. Qed.

(** ** Descendants leave the cache *)

Lemma uncache_lookup ds : forall c x l,
  uncache (VObj <$> ds) c !! x = Some l <-> x ∉ ds /\ c !! x = Some l.
Proof.
  induction ds as [|y ds IH]; intros c x l; [simpl; split; [|tauto]; intros H; split; [by apply not_elem_of_nil|done]|].
  cbn [fmap list_fmap uncache]. change (list_fmap Z Var VObj ds) with (VObj <$> ds). rewrite IH, not_elem_of_cons.
  destruct (decide (x = y)) as [->|Hxy].
  - rewrite lookup_delete_eq. naive_solver.
  - rewrite lookup_delete_ne by done. naive_solver.
Qed.

(** The anonymous children of [x], and whether one of them has [x] among its
    parents *)
Definition anon_children (d : db) (x : Z) : list loc := elements (default ∅ (anonymous_objects d !! x)).
Definition anon_child_of (d : db) (x : Z) (l : loc) : Prop :=
  exists o, obj_heap d !! l = Some o /\ x ∈ enlist (parents o).

Lemma check_children_ok x ls d :
  (forall l, l ∈ ls -> is_Some (obj_heap d !! l)) ->
  exists b, check_children_of_object (VObj x) (map (fun l => VAnon (Some l)) ls) d = Some (b, d) /\
    (b = false <-> exists l, l ∈ ls /\ ~ anon_child_of d x l).
Proof.
  induction ls as [|l ls IH]; intros H; [exists true; split; [done|]; split; [done|set_solver]|].
  destruct (H l) as [o Ho]; [by left|].
  destruct IH as (b & Hb & Hall); [intros m Hm; apply H; by right|]. cbn [map check_children_of_object].
  erewrite mbind_Some by done. cbv beta. erewrite mbind_Some by (by apply load_eq). cbv beta. cbn [orb].
  assert (existsb (fun p => x =? p) (enlist (parents o)) = true <-> anon_child_of d x l) as Hx.
  { rewrite existsb_exists. unfold anon_child_of. rewrite Ho. split.
    - intros (p & Hp & ->%Z.eqb_eq). exists o. split; [done|]. by apply list_elem_of_In.
    - intros (? & [= <-] & Hin). exists x. split; [by apply list_elem_of_In|apply Z.eqb_refl]. }
  destruct (existsb _ _); cbn [negb].
  - exists b. split; [done|]. rewrite Hall. setoid_rewrite elem_of_cons. naive_solver.
  - exists false. split; [done|]. split; [|done]. intros _. exists l. split; [by left|]. intros Hl. by apply Hx in Hl.
Qed.

(** ** What is refused

    A list of parents in which [check_for_duplicates] sees a repetition: of a
    parent, at least as far on as its own place (so {a, b, b} passes) *)
Definition repeats (ps : Z + list Z) : Prop :=
  match ps with
  | inl _ => False
  | inr l => exists i j p, (1 <= i /\ i + i <= j)%nat /\ l !! (i - 1)%nat = Some p /\ l !! (j - 1)%nat = Some p
  end.

Lemma forallb_false {A} (f : A -> bool) l : forallb f l = false <-> exists x, x ∈ l /\ f x = false.
Proof.
  induction l as [|x l IH]; [split; [done|set_solver]|]. cbn [forallb]. rewrite andb_false_iff, IH. setoid_rewrite elem_of_cons.
  naive_solver.
Qed.

Lemma check_for_duplicates_ok ps : check_for_duplicates ps = false <-> repeats ps.
Proof.
  destruct ps as [p|l]; simpl; [done|]. rewrite forallb_false. split.
  - intros (i & Hi%list_elem_of_In%in_seq & (j & Hj%list_elem_of_In%in_seq & H)%forallb_false).
    destruct (l !! (i - 1)%nat) as [x|] eqn:Ex; [|done]. destruct (l !! (j - 1)%nat) as [y|] eqn:Ey; [|done].
    apply negb_false_iff, Z.eqb_eq in H as <-. exists i, j, x. split_and!; [lia|lia|done|done].
  - intros (i & j & p & [Hi Hj] & Ei & Ej).
    assert (j - 1 < length l)%nat as Hlt by (apply lookup_lt_is_Some; by eexists).
    exists i. split; [apply list_elem_of_In, in_seq; lia|]. apply forallb_false. exists j.
    split; [apply list_elem_of_In, in_seq; lia|]. by rewrite Ei, Ej, Z.eqb_refl.
Qed.

(** The change of parents is refused: for a repetition, for an anonymous
    child that does not have the object among its parents, or by the
    property definitions *)
Definition change_refused (check : db -> Var -> Z + list Z -> list Var -> bool) (d : db) (x : Z) (ps : Z + list Z) : Prop :=
  repeats ps \/ (exists l, l ∈ anon_children d x /\ ~ anon_child_of d x l) \/
  check d (VObj x) ps ((fun l => VAnon (Some l)) <$> anon_children d x) = false.

(** ** The links *)

Definition relink_code (oid : Z) (l : loc) (old new : Z + list Z) : M db unit :=
  for_parents (remove_child oid) old ;;
  for_parents (add_child oid) new ;;
  update l (with_parents new).

Lemma relink_code_ok d oid o l new :
  table_inv d -> family d parents children_of -> dbpriv_find_object d oid = Some l -> obj_heap d !! l = Some o ->
  parents_wf d new ->
  exists d', relink_code oid l (parents o) new d = Some (tt, d') /\ edited d d' (relinked oid (parents o) new).
Proof.
  intros Hti Hfm Hl Hh Hnew. unfold relink_code.
  assert (object_of d oid = Some o) as Ho by (unfold object_of; by rewrite Hl).
  assert (forall x p, object_of d x = Some p -> NoDup (children p)) as Hnd by (intros x p Hp; apply (fm_nodup _ _ _ Hfm _ _ Hp)).
  destruct (for_parents_edited (unlink oid) (fun p => NoDup (children p)) (parents o) d) as (d1 & E1 & Hed1);
    [done| |done|done|by eapply (fm_wf _ _ _ Hfm)|].
  { intros p Hp. split; [by apply NoDup_setremove|]. unfold unlink, with_children. simpl. f_equal.
    apply setremove_notin. by intros [_ ?]%elem_of_setremove. }
  assert (table_inv d1) as Hti1.
  { eapply edited_table; [done..|]. intros x p. unfold at_all. by case_decide. }
  destruct (for_parents_edited (link oid) (fun _ => True) new d1) as (d2 & E2 & Hed2); [done| |done|done| |].
  { intros p _. split; [done|]. unfold link, with_children. simpl. f_equal. apply setadd_in, elem_of_setadd. by right. }
  { unfold parents_wf in *. destruct new; [by rewrite (edited_valid _ _ _ _ Hed1)|].
    eapply Forall_impl; [exact Hnew|]. intros p. by rewrite (edited_valid _ _ _ _ Hed1). }
  assert (table_inv d2) as Hti2.
  { eapply edited_table; [done..|]. intros x p. unfold at_all. by case_decide. }
  pose proof (edited_trans _ _ _ _ _ Hed1 Hed2) as Hed12.
  assert (dbpriv_find_object d2 oid = Some l) as Hl2 by (by rewrite (edited_find _ _ _ _ Hed12)).
  destruct (ti_table d2 Hti2 oid l Hl2) as [o2 Ho2].
  destruct (update_edited d2 oid l o2 (with_parents new) Hti2 Hl2 Ho2) as (d3 & E3 & Hed3).
  exists d3. split.
  - erewrite mbind_Some by exact E1. erewrite mbind_Some by exact E2. exact E3.
  - exact (edited_trans _ _ _ _ _ Hed12 Hed3).
Qed.

(** What is left in the cache is right. *)
Lemma relinked_cache d d' oid o new c ds :
  table_inv d -> family d parents children_of -> object_of d oid = Some o -> parents_wf d new ->
  (forall p, p ∈ enlist new -> valid d p = true -> avoids d oid p) ->
  edited d d' (relinked oid (parents o) new) -> cache_ok d -> ancestor_cache d' = c ->
  (forall x, x ∈ ds <-> members_below children_of d' (relinked oid (parents o) new oid o) x) ->
  cache_ok (with_cache (uncache (VObj oid :: (VObj <$> ds)) c) d').
Proof.
  intros Hti Hfm Ho Hnew Hcyc Hed Hc <- Hds x l. simpl. rewrite uncache_lookup.
  intros [Hx Hl]. assert (x <> oid) as Hxo by (intros ->; by rewrite lookup_delete_eq in Hl).
  rewrite lookup_delete_ne in Hl by done. rewrite (ed_cache _ _ _ Hed) in Hl.
  change (object_of (with_cache _ d') x) with (object_of d' x). rewrite (ed_of _ _ _ Hed).
  specialize (Hc x l Hl). destruct (object_of d x) as [p|] eqn:Ep; [|done]. cbn [fmap option_fmap option_map].
  destruct Hc as (anc & Hanc & ->). exists anc. split; [|done].
  assert (table_inv d') as Hti'.
  { eapply edited_table; [done..|]. intros y q. apply relinked_id. }
  rewrite ancestors_list_cache by apply Hti'.
  rewrite (ancestors_list_stable d d' _ oid x p Hed); [done|done| |done|].
  { intros y q Hy. rewrite relinked_parents. by rewrite decide_False. }
  intros Hr. apply Hx, Hds. apply (relinked_below d d' oid o new) in Hr; [|done..].
  apply (edge_rtc_flip d' parents children_of) in Hr; [|by eapply (relinked_family d d' oid o new)].
  inversion Hr as [|? y ? Hxy Hyz]; subst; [done|]. destruct Hxy as (q & Hq & Hy & Hv).
  rewrite (ed_of _ _ _ Hed), Ho in Hq. injection Hq as <-. exists y. done.
Qed.

(** ** The function *)

Lemma anon_children_live d x l : table_inv d -> l ∈ anon_children d x -> is_Some (obj_heap d !! l).
Proof.
  intros Hti. unfold anon_children. rewrite elem_of_elements. destruct (anonymous_objects d !! x) as [t|] eqn:E; [|set_solver].
  intros Hl. by destruct (ti_anons d Hti x t l E Hl).
Qed.

(** [db_change_parents] answers whether the change is refused. *)
Lemma change_refused_ok check fuel d x ps b d' :
  table_inv d -> db_change_parents check fuel (VObj x) ps [] d = Some (b, d') -> (b = false <-> change_refused check d x ps).
Proof.
  intros Hti. unfold change_refused, db_change_parents. pose proof (check_for_duplicates_ok ps) as Hdup.
  destruct (check_for_duplicates ps); cbn [negb]; [|intros [= <- _]; naive_solver].
  destruct (check_children_ok x (anon_children d x) d) as (b' & Hb & Hall); [intros l; by apply anon_children_live|].
  change (elements _) with (anon_children d x). erewrite mbind_Some by exact Hb. cbv beta.
  destruct b'; cbn [negb]; [|intros [= <- _]; naive_solver].
  change (map _ _) with ((fun l => VAnon (Some l)) <$> anon_children d x).
  destruct (check d _ _ _); cbn [negb]; [|intros [= <- _]; naive_solver].
  intros Er. repeat (apply mbind_inv in Er as (? & ? & _ & Er)). injection Er as <- _. naive_solver.
Qed.

Lemma db_change_parents_ok check fuel d oid o new :
  db_ok d -> object_of d oid = Some o -> parents_wf d new ->
  (forall p, p ∈ enlist new -> valid d p = true -> avoids d oid p) -> (walk_fuel d <= fuel)%nat ->
  exists b d', db_change_parents check fuel (VObj oid) new [] d = Some (b, d') /\ db_ok d' /\
    if b : bool then edits d d' (relinked oid (parents o) new) else d' = d.
Proof.
  intros Hok Ho Hnew Hcyc Hf. pose proof Hok as [Hti Hfm Hpl Hc]. unfold db_change_parents.
  destruct (check_for_duplicates new); cbn [negb]; [|by exists false, d].
  destruct (check_children_ok oid (anon_children d oid) d) as (b & Hb & _); [intros k; by apply anon_children_live|].
  change (elements _) with (anon_children d oid).
  erewrite mbind_Some by exact Hb. cbv beta. destruct b; cbn [negb]; [|by exists false, d].
  destruct (check d _ _ _); cbn [negb]; [|by exists false, d].
  destruct (object_slot d oid o Ho) as (l & Hl & Hh).
  erewrite mbind_Some by (by apply slot_eq). cbv beta. erewrite mbind_Some by (by apply load_eq). cbv beta zeta.
  destruct (db_ancestors_ok fuel d oid o true Hti Hc Ho Hf) as (anc & c & _ & Hc1 & E1).
  erewrite mbind_Some by exact E1. cbv beta.
  set (d1 := with_cache c d) in *.
  destruct (relink_code_ok d1 oid o l new) as (d3 & E3 & Hed); [by apply table_inv_cache|by apply family_cache|done..|].
  unfold relink_code in E3. rewrite <- mbind_assoc in E3. apply mbind_inv in E3 as ([] & d2 & E2 & E3).
  erewrite mbind_Some by exact E2. erewrite mbind_Some by exact E3.
  assert (table_inv d1) as Hti1 by (by apply table_inv_cache).
  assert (family d1 parents children_of) as Hfm1 by (by apply family_cache).
  assert (table_inv d3) as Hti3.
  { eapply edited_table; [done..|]. intros x p. apply relinked_id. }
  assert (family d3 parents children_of) as Hfm3 by (by eapply (relinked_family d1 d3 oid o new)).
  assert (family d3 location_of contents_of) as Hpl3.
  { eapply edited_family; [exact Hed|..|by apply family_cache]; intros x p; unfold location_of, contents_of;
      by rewrite ?relinked_location, ?relinked_contents. }
  set (o3 := relinked oid (parents o) new oid o).
  assert (object_of d3 oid = Some o3) as Ho3.
  { rewrite (ed_of _ _ _ Hed). change (object_of d1 oid) with (object_of d oid). by rewrite Ho. }
  destruct (object_slot d3 oid o3 Ho3) as (l3 & Hl3 & Hh3).
  assert (walk_fuel d3 = walk_fuel d) as Hwf by (unfold walk_fuel; by rewrite (ed_objects _ _ _ Hed)).
  destruct (db_traverse_ok children_of fuel d3 (VObj oid) true l3 o3) as (ds & E4 & _ & Hds);
    [apply Hti3|by apply slot_eq|done|by apply nothing_invalid|unfold walk_fuel in *; lia|].
  rewrite mbind_assoc. erewrite mbind_Some by exact E4. cbv beta.
  erewrite (mbind_Some (modify _)) by done. cbn [app].
  set (d4 := with_cache (uncache (VObj oid :: (VObj <$> ds)) (ancestor_cache d3)) d3).
  assert (cache_ok d4) as Hc4 by (by eapply (relinked_cache d1 d3 oid o new)).
  destruct (db_ancestors_ok fuel d4 oid o3 true) as (anc' & c' & _ & Hc5 & E5);
    [by apply table_inv_cache|done|done|unfold walk_fuel in *; simpl in *; lia|].
  erewrite mbind_Some by exact E5. exists true, (with_cache c' d4). split; [done|]. split.
  - split; [by do 2 apply table_inv_cache|by do 2 apply family_cache..|done].
  - unfold edits. destruct Hed as [A1 A2 A3 A4 A5 A6 A7 A8]. split; [exact A1|exact A2|exact A3|exact A4|exact A5|done|exact A7|exact A8].
Qed.

(** ** Moving an object

    [db_change_location] keeps the invariant when the new location is not
    inside the object. *)
Local Open Scope Z_scope.
Local Open Scope moo_scope.

Lemma elem_of_listinsert l x pos y : y ∈ obj_listinsert l x pos <-> y ∈ l \/ y = x.
Proof.
  unfold obj_listinsert. cbv zeta. generalize (Z.to_nat ((if pos <=? 0 then 1
    else if Z.of_nat (length l) <? pos then Z.of_nat (length l) + 1 else pos) - 1)). intros n.
  rewrite elem_of_app, elem_of_cons. rewrite <- (take_drop n l) at 3. rewrite elem_of_app. tauto.
Qed.
Lemma NoDup_listinsert l x pos : NoDup l -> x ∉ l -> NoDup (obj_listinsert l x pos).
Proof.
  unfold obj_listinsert. cbv zeta. generalize (Z.to_nat ((if pos <=? 0 then 1
    else if Z.of_nat (length l) <? pos then Z.of_nat (length l) + 1 else pos) - 1)). intros n Hl Hx.
  rewrite <- Permutation_middle, take_drop. by constructor.
Qed.

Definition take_out (oid : Z) (o : Object) : Object := with_contents (obj_setremove (contents o) oid) o.
Definition put_in (oid position : Z) (o : Object) : Object :=
  let position := if position <=? 0 then Z.of_nat (length (contents o)) + 1 else position in
  with_contents (obj_listinsert (contents o) oid position) o.

(** The objects after [oid] moved from [old] to [new] *)
Definition moved (oid old new position : Z) (x : Z) (o : Object) : Object :=
  at_one oid (with_location new) x (at_one new (put_in oid position) x (at_one old (take_out oid) x o)).

Lemma moved_location oid old new pos x o :
  location (moved oid old new pos x o) = if decide (x = oid) then new else location o.
Proof. unfold moved, at_one. repeat case_decide; done. Qed.
Lemma moved_parents oid old new pos x o : parents (moved oid old new pos x o) = parents o.
Proof. unfold moved, at_one. repeat case_decide; done. Qed.
Lemma moved_children oid old new pos x o : children (moved oid old new pos x o) = children o.
Proof. unfold moved, at_one. repeat case_decide; done. Qed.
Lemma moved_id oid old new pos x o : obj_id (moved oid old new pos x o) = obj_id o.
Proof. unfold moved, at_one. repeat case_decide; done. Qed.

Definition without (oid old x : Z) (o : Object) : list Z :=
  if decide (x = old) then obj_setremove (contents o) oid else contents o.

Lemma moved_contents oid old new pos x o :
  exists p, contents (moved oid old new pos x o) =
    if decide (x = new) then obj_listinsert (without oid old x o) oid p else without oid old x o.
Proof.
  exists (if pos <=? 0 then Z.of_nat (length (without oid old x o)) + 1 else pos).
  unfold moved, without, at_one, put_in, take_out. repeat case_decide; done.
Qed.

Lemma if_edited (b : bool) d f oid :
  table_inv d -> (b = true -> valid d oid = true) ->
  exists d', (if b then edit f oid else mreturn tt) d = Some (tt, d') /\
    edited d d' (fun x o => if b then at_one oid f x o else o).
Proof.
  intros Hti Hb. destruct b; [apply edit_edited; auto|]. exists d. split; [done|apply edited_refl].
Qed.

Section move.
Context (d d' : db) (oid new position : Z) (o : Object).
Hypothesis Hti : table_inv d.
Hypothesis Hfm : family d location_of contents_of.
Hypothesis Ho : object_of d oid = Some o.
Hypothesis Hnew : new = NOTHING \/ valid d new = true.
Hypothesis Hcycle : valid d new = true -> ~ rtc (edge location_of d) new oid.
Hypothesis Hed : edited d d' (moved oid (location o) new position).

(** Only its location contains [oid]. *)
Lemma elem_of_without x p y : object_of d x = Some p -> y ∈ without oid (location o) x p <-> y ∈ contents p /\ y <> oid.
Proof.
  intros Hp. pose proof (fm_nodup _ _ _ Hfm _ _ Hp) as Hnd. unfold without. case_decide as Hx.
  - by apply elem_of_setremove.
  - split; [|tauto]. intros Hy. split; [done|]. intros ->. apply Hx.
    assert (valid d oid = true) as Hvo by (by eapply object_valid).
    destruct (proj2 (fm_inverse _ _ _ Hfm oid x)) as (q & Hq & Hl & _); [by exists p|].
    apply list_elem_of_singleton in Hl. congruence.
Qed.
Lemma NoDup_without x p : object_of d x = Some p -> NoDup (without oid (location o) x p).
Proof.
  intros Hp. pose proof (fm_nodup _ _ _ Hfm _ _ Hp) as Hnd. unfold without. case_decide; [by apply NoDup_setremove|done].
Qed.

Lemma moved_up x y :
  edge location_of d' x y <-> (x = oid /\ y ∈ [new] /\ valid d y = true) \/ (x <> oid /\ edge location_of d x y).
Proof.
  rewrite (edited_edge _ _ _ _ _ _ Hed). unfold edge, location_of. setoid_rewrite moved_location.
  destruct (decide (x = oid)) as [->|Hx]; [|naive_solver]. split; [naive_solver|].
  intros [(_ & Hy & Hv)|[? _]]; [|done]. by exists o.
Qed.

Lemma moved_down x y :
  edge contents_of d' x y <-> (y = oid /\ x = new /\ valid d x = true) \/ (y <> oid /\ edge contents_of d x y).
Proof.
  rewrite (edited_edge _ _ _ _ _ _ Hed). unfold edge, contents_of. simpl.
  assert (valid d oid = true) as Hvo by (by eapply object_valid). split.
  - intros (p & Hp & Hy & Hv). destruct (moved_contents oid (location o) new position x p) as [q Hq]. rewrite Hq in Hy.
    case_decide as Hx; [apply elem_of_listinsert in Hy as [Hy| ->]|].
    + apply (elem_of_without x p y Hp) in Hy as [Hy Hne]. right. split; [done|]. by exists p.
    + left. split_and!; [done|done|by eapply object_valid].
    + apply (elem_of_without x p y Hp) in Hy as [Hy Hne]. right. split; [done|]. by exists p.
  - intros [(-> & -> & Hv)|(Hne & p & Hp & Hy & Hv)].
    + destruct (valid_object d new (ti_table d Hti) Hv) as [p Hp]. exists p. split; [done|]. split; [|done].
      destruct (moved_contents oid (location o) new position new p) as [q ->]. rewrite decide_True by done.
      apply elem_of_listinsert. by right.
    + exists p. split; [done|]. split; [|done]. destruct (moved_contents oid (location o) new position x p) as [q ->].
      assert (y ∈ without oid (location o) x p) as Hy' by (by apply elem_of_without).
      case_decide; [apply elem_of_listinsert; by left|done].
Qed.

Lemma moved_family : family d' location_of contents_of.
Proof.
  pose proof (ed_of _ _ _ Hed) as Hof. split.
  - intros x p. rewrite Hof. destruct (object_of d x) as [q|] eqn:E; [|done]. intros [= <-].
    unfold location_of, parents_wf. rewrite moved_location, (edited_valid _ _ _ _ Hed).
    case_decide; [done|]. by apply (fm_wf _ _ _ Hfm _ _ E).
  - intros x p. rewrite Hof. destruct (object_of d x) as [q|] eqn:E; [|done]. intros [= <-]. simpl.
    destruct (moved_contents oid (location o) new position x q) as [r ->]. pose proof (NoDup_without x q E) as Hnd.
    case_decide; [|done]. apply NoDup_listinsert; [done|]. rewrite elem_of_without by done. tauto.
  - intros x p. rewrite Hof. destruct (object_of d x) as [q|] eqn:E; [|done]. intros [= <-].
    apply Forall_forall. intros c Hc. rewrite (edited_valid _ _ _ _ Hed). simpl in Hc.
    pose proof (fm_valid _ _ _ Hfm _ _ E) as Hv. rewrite Forall_forall in Hv. simpl in Hv.
    destruct (moved_contents oid (location o) new position x q) as [r Hr]. rewrite Hr in Hc.
    case_decide; [apply elem_of_listinsert in Hc as [Hc| ->]; [|by eapply object_valid]|];
      apply (elem_of_without x q c E) in Hc as [Hc _]; by apply Hv.
  - intros x y. rewrite moved_up, moved_down, list_elem_of_singleton, (fm_inverse _ _ _ Hfm). tauto.
  - eapply (rerouted_acyclic d d' location_of contents_of oid o [new]); try done; [apply Hti| |apply moved_up].
    intros p ->%list_elem_of_singleton. done.
Qed.
End move.

Lemma db_change_location_ok d oid o new position :
  db_ok d -> object_of d oid = Some o -> (new = NOTHING \/ valid d new = true) ->
  (valid d new = true -> ~ rtc (edge location_of d) new oid) ->
  exists d', db_change_location oid new position d = Some (tt, d') /\ db_ok d' /\
    edited d d' (moved oid (location o) new position).
Proof.
  intros [Hti Hfm Hpl Hc] Ho Hnew Hcyc. destruct (object_slot d oid o Ho) as (l & Hl & Hh).
  unfold db_change_location. erewrite mbind_Some by (by apply slot_eq). cbv beta.
  erewrite mbind_Some by (by apply load_eq). cbv beta zeta.
  destruct (if_edited (valid d (location o)) d (take_out oid) (location o) Hti) as (d1 & E1 & Hed1); [done|].
  erewrite (mbind_Some (if valid d (location o) then _ else _)) by exact E1.
  assert (table_inv d1) as Hti1.
  { eapply edited_table; [done..|]. intros x p. unfold at_one. case_match; [by case_decide|done]. }
  destruct (if_edited (valid d new) d1 (put_in oid position) new Hti1) as (d2 & E2 & Hed2).
  { by rewrite (edited_valid _ _ _ _ Hed1). }
  erewrite (mbind_Some (if valid d new then _ else _)) by exact E2.
  assert (table_inv d2) as Hti2.
  { eapply edited_table; [done..|]. intros x p. unfold at_one. case_match; [by case_decide|done]. }
  pose proof (edited_trans _ _ _ _ _ Hed1 Hed2) as Hed12.
  assert (dbpriv_find_object d2 oid = Some l) as Hl2 by (by rewrite (edited_find _ _ _ _ Hed12)).
  destruct (ti_table d2 Hti2 oid l Hl2) as [o2 Ho2].
  destruct (update_edited d2 oid l o2 (with_location new) Hti2 Hl2 Ho2) as (d3 & E3 & Hed3).
  assert (edited d d3 (moved oid (location o) new position)) as Hed.
  { eapply edited_ext; [exact (edited_trans _ _ _ _ _ Hed12 Hed3)|]. intros x p Hp. simpl. unfold moved.
    pose proof (object_valid _ _ _ Hp) as Hv.
    assert (forall b y f q, (b = false -> valid d y = false) -> (valid d y = true -> b = true) ->
      (if b : bool then at_one y f x q else q) = at_one y f x q) as Hif.
    { intros b y f q Hb _. destruct b; [done|]. unfold at_one. rewrite decide_False; [done|].
      intros ->. rewrite Hb in Hv; done. }
    by rewrite !Hif by done. }
  exists d3. split; [exact E3|]. split; [|done]. split.
  - eapply edited_table; [done..|]. intros x p. apply moved_id.
  - eapply edited_family; [exact Hed|..|done]; intros x p; unfold children_of; by rewrite ?moved_parents, ?moved_children.
  - by eapply (moved_family d d3 oid new position o).
  - eapply edited_cache; [done..| |done]. intros x p. apply moved_parents.
Qed.
