(* ===== verification/ObjLife.v ===== *)
(** * Creating and destroying objects

    A new object has no relatives, and [db_destroy_object] accepts only such
    objects, so neither changes the graphs of the others. *)
From Stdlib Require Import ZArith Lia.
From stdpp Require Import prelude gmap relations.
From S2P Require Import Prelude CString Value ObjCode ObjGraph ObjParents.

Local Open Scope Z_scope.
Local Open Scope moo_scope.

Lemma find_objects d x : table_inv d -> dbpriv_find_object d x = objects d !! x.
Proof.
  intros Hti. unfold dbpriv_find_object. destruct (objects d !! x) as [l|] eqn:E; [|by case_match].
  assert (0 <= x < num_objects d) as Hr by (by apply (ti_range d Hti); eexists).
  pose proof (ti_max d Hti). rewrite (proj2 (Z.ltb_ge _ _)), (proj2 (Z.leb_gt _ _)) by lia. done.
Qed.
Lemma valid_objects d x : table_inv d -> valid d x = bool_decide (is_Some (objects d !! x)).
Proof. intros Hti. unfold valid. by rewrite find_objects. Qed.

(** An object without relatives *)
Definition barren (o : Object) : Prop :=
  no_parents (parents o) = true /\ children o = [] /\ location o = NOTHING /\ contents o = [].

(** ** One object more *)

Section born.
Context (d d' : db) (x : Z) (l : loc) (o : Object).
Hypothesis Hok : db_ok d.
Hypothesis Hx : objects d !! x = None.
Hypothesis Hl : obj_heap d !! l = None.
Hypothesis Hobjects : objects d' = <[x := l]> (objects d).
Hypothesis Hheap : obj_heap d' = <[l := o]> (obj_heap d).
Hypothesis Hnum : num_objects d <= num_objects d' <= max_objects d'.
Hypothesis Hrange : 0 <= x < num_objects d'.
Hypothesis Hanons : anonymous_objects d' = anonymous_objects d.
Hypothesis Hcache : ancestor_cache d' = ancestor_cache d.
Hypothesis Hid : obj_id o = x.
Hypothesis Hbarren : barren o.

Lemma born_other y m : objects d !! y = Some m -> m <> l.
Proof.
  intros Hy ->. pose proof (ok_table d Hok) as Hti. destruct (ti_table d Hti y l); [by rewrite find_objects|congruence].
Qed.

Lemma born_find y : dbpriv_find_object d' y = if decide (y = x) then Some l else objects d !! y.
Proof.
  pose proof (ok_table d Hok) as Hti. unfold dbpriv_find_object. rewrite Hobjects.
  destruct (decide (y = x)) as [->|Hy].
  - rewrite (proj2 (Z.ltb_ge _ _)), (proj2 (Z.leb_gt _ _)) by lia. apply lookup_insert_eq.
  - rewrite lookup_insert_ne by done. destruct (objects d !! y) eqn:E; [|by case_match].
    assert (0 <= y < num_objects d) by (by apply (ti_range d Hti); eexists).
    by rewrite (proj2 (Z.ltb_ge _ _)), (proj2 (Z.leb_gt _ _)) by lia.
Qed.

Lemma born_of y : object_of d' y = if decide (y = x) then Some o else object_of d y.
Proof.
  unfold object_of. rewrite born_find, Hheap, find_objects by apply Hok. case_decide; [by rewrite <- (lookup_insert_eq (obj_heap d) l o)|].
  destruct (objects d !! y) as [m|] eqn:E; [|done]. simpl. apply lookup_insert_ne.
  intros Hlm. by apply (born_other _ _ E).
Qed.

Lemma born_valid y : valid d' y = true <-> y = x \/ valid d y = true.
Proof.
  unfold valid. rewrite !bool_decide_eq_true, born_find, find_objects by apply Hok. case_decide; [|tauto].
  split; [by left|]. intros _. by eexists.
Qed.

Lemma born_table : table_inv d'.
Proof.
  pose proof (ok_table d Hok) as Hti. split.
  - intros y m. rewrite born_find, Hheap. case_decide; [intros [= <-]; by rewrite lookup_insert_eq|].
    intros Hy. rewrite lookup_insert_ne by (intros Hlm; by apply (born_other _ _ Hy)).
    apply (ti_table d Hti y). by rewrite find_objects.
  - intros y z m. rewrite Hobjects. destruct (decide (y = x)) as [->|], (decide (z = x)) as [->|];
      rewrite ?lookup_insert_eq, ?lookup_insert_ne by done; try done.
    + intros [= E] Hz. destruct (born_other _ _ Hz). congruence.
    + intros Hy [= E]. destruct (born_other _ _ Hy). congruence.
    + by apply ti_inj.
  - intros y. rewrite Hobjects. destruct (decide (y = x)) as [->|]; [done|]. rewrite lookup_insert_ne by done.
    intros Hy%(ti_range d Hti). lia.
  - pose proof (ti_max d Hti). lia.
  - intros y p. rewrite born_of. case_decide as Hy; [intros [= <-]; congruence|]. by apply ti_id.
  - rewrite Hanons, Hobjects, Hheap. intros y s m Hs Hm. destruct (ti_anons d Hti y s m Hs Hm) as [[q Hq] Hn].
    assert (l <> m) as Hlm by congruence. rewrite lookup_insert_ne by done. split; [by eexists|].
    intros z. destruct (decide (z = x)) as [->|]; [rewrite lookup_insert_eq; congruence|by rewrite lookup_insert_ne].
Qed.

(** Nothing refers to the new number. *)
Lemma born_edge fl y z :
  (forall p, object_of d y = Some p -> x ∉ enlist (fl p)) -> (forall q, q ∈ enlist (fl o) -> q = NOTHING) ->
  edge fl d' y z <-> edge fl d y z.
Proof.
  intros Hfl Hfo. pose proof (nothing_invalid d' born_table) as Hn. unfold edge. rewrite born_of. case_decide as Hy.
  - split.
    + intros (p & [= <-] & Hz%Hfo & Hv). congruence.
    + intros (p & Hp & _). subst y. unfold object_of in Hp. rewrite find_objects, Hx in Hp by apply Hok. done.
  - split.
    + intros (p & Hp & Hz & [->|Hv]%born_valid); [by destruct (Hfl p Hp)|by exists p].
    + intros (p & Hp & Hz & Hv). exists p. split_and!; [done..|]. apply born_valid. by right.
Qed.

Lemma born_unseen up down y p :
  family d up down -> object_of d y = Some p -> x ∉ enlist (up p).
Proof.
  intros Hfm Hp Hin. pose proof (fm_wf _ _ _ Hfm _ _ Hp) as H. unfold parents_wf in H.
  assert (valid d x = false) as Hvx by (rewrite valid_objects by apply Hok; by rewrite Hx).
  assert (x <> NOTHING) as Hxn by (unfold NOTHING; lia). destruct (up p) as [q|qs]; simpl in Hin.
  - apply list_elem_of_singleton in Hin as <-. destruct H; [done|congruence].
  - rewrite Forall_forall in H. apply H in Hin. congruence.
Qed.

Lemma born_family up down :
  family d up down -> parents_wf d' (up o) -> (forall q, q ∈ enlist (up o) -> q = NOTHING) -> enlist (down o) = [] ->
  family d' up down.
Proof.
  intros Hfm Hwf Hup Hdown.
  assert (valid d x = false) as Hvx by (rewrite valid_objects by apply Hok; by rewrite Hx).
  assert (forall y p, object_of d y = Some p -> x ∉ enlist (up p)) as Hup' by (intros; by eapply born_unseen).
  assert (forall y p, object_of d y = Some p -> x ∉ enlist (down p)) as Hdown'.
  { intros y p Hp Hin. pose proof (fm_valid _ _ _ Hfm _ _ Hp) as H. rewrite Forall_forall in H.
    apply H in Hin. congruence. }
  assert (forall y z, edge up d' y z <-> edge up d y z) as Eup by (intros; apply born_edge; eauto).
  assert (forall y z, edge down d' y z <-> edge down d y z) as Edown.
  { intros. apply born_edge; [eauto|]. rewrite Hdown. by intros q ?%not_elem_of_nil. }
  split.
  - intros y p. rewrite born_of. case_decide; [by intros [= <-]|]. intros Hp.
    pose proof (fm_wf _ _ _ Hfm _ _ Hp) as H1. unfold parents_wf in *. destruct (up p) as [q|qs].
    + destruct H1 as [H1|H1]; [by left|right]. apply born_valid. by right.
    + eapply Forall_impl; [exact H1|]. intros q Hq. apply born_valid. by right.
  - intros y p. rewrite born_of. case_decide; [intros [= <-]; rewrite Hdown; constructor|by apply (fm_nodup _ _ _ Hfm)].
  - intros y p. rewrite born_of. case_decide; [intros [= <-]; rewrite Hdown; constructor|]. intros Hp.
    eapply Forall_impl; [by apply (fm_valid _ _ _ Hfm _ _ Hp)|]. intros q Hq. apply born_valid. by right.
  - intros y z. rewrite Eup, Edown. apply Hfm.
  - destruct (fm_acyclic _ _ _ Hfm) as [rank Hr]. exists rank. intros y z. rewrite Eup. apply Hr.
Qed.

Lemma barren_members q : q ∈ enlist (parents o) -> q = NOTHING.
Proof.
  destruct Hbarren as (Hp & _). destruct (parents o) as [p|[|]]; simpl in *; [|by intros ?%not_elem_of_nil|done].
  intros ->%list_elem_of_singleton. by apply Z.eqb_eq.
Qed.

Lemma born_above z q :
  object_of d z = Some q -> same_above d d' (fun u => is_Some (object_of d u)) (enlist (parents q)).
Proof.
  intros Hq u Hu. split; [|intros Hv; by apply valid_object; [apply Hok|]].
  assert (u <> x) as Hux by (intros ->; by eapply (born_unseen parents children_of); [apply Hok|..]).
  pose proof (born_valid u) as Hbv. destruct (valid d u), (valid d' u); try done; exfalso.
  - assert (false = true) by (apply Hbv; by right). done.
  - by destruct (proj1 Hbv eq_refl).
Qed.

Lemma born_cache : cache_ok d'.
Proof.
  pose proof Hok as [Hti Hfm _ Hc]. intros y lc. rewrite Hcache, born_of. intros Hy. specialize (Hc y lc Hy).
  pose proof (nothing_invalid d' born_table) as Hn. case_decide as Hyx.
  - subst y. assert (object_of d x = None) as E by (unfold object_of; rewrite find_objects by done; by rewrite Hx).
    rewrite E in Hc. subst lc. destruct (ancestors_list_ok d' o born_table) as (new & Ha & _ & Hnew).
    exists new. split; [done|]. destruct new as [|z new]; [done|]. destruct (proj1 (Hnew z)) as (q & Hq & Hv & _); [by left|].
    apply barren_members in Hq as ->. congruence.
  - destruct (object_of d y) as [p|] eqn:Ep; [|done]. destruct Hc as (anc & Ha & ->). exists anc. split; [|done].
    destruct (visit_ok parents d' (ti_table _ born_table) (walk_fuel d') p ∅) as (new & _ & _ & E).
    { rewrite difference_empty_L. unfold walk_fuel. lia. }
    assert (walk_fuel d <= walk_fuel d')%nat as Hwf.
    { unfold walk_fuel. rewrite Hobjects. enough (size (dom (objects d)) <= size (dom (<[x:=l]> (objects d))))%nat by lia.
      apply subseteq_size. set_solver. }
    unfold ancestors_list in *. destruct (db2_add parents (walk_fuel d) d p [] ∅) as [[r bits]|] eqn:E1; [|done].
    injection Ha as ->. pose proof (db2_add_mono _ _ _ _ _ _ _ _ Hwf E1) as E2.
    rewrite (db2_add_frame parents d d' (fun u => is_Some (object_of d u))) with (o' := p) in E2; [|..|done|by eapply born_above].
    + by rewrite E2.
    + intros z [q Hq]. exists q, q. split; [done|]. rewrite born_of. rewrite decide_False.
      * split_and!; [done|done|by eapply born_above].
      * intros ->. unfold object_of in Hq. rewrite find_objects, Hx in Hq by done. done.
Qed.

Lemma born_ok : db_ok d'.
Proof.
  destruct Hbarren as (Hp & Hc & Hloc & Hcon). pose proof Hok as [_ Hfm Hpl _]. split.
  - apply born_table.
  - apply born_family; [done| |apply barren_members|by unfold children_of; rewrite Hc].
    unfold parents_wf. destruct (parents o) as [p|[|]] eqn:E; [left; by apply Z.eqb_eq|constructor|done].
  - apply born_family; [done|by left| |by unfold contents_of; rewrite Hcon].
    intros q. unfold location_of. simpl. intros ->%list_elem_of_singleton. done.
  - apply born_cache.
Qed.
End born.

(** ** [db_create_object] *)

Lemma double_to_ok fuel : forall size n, 0 < size -> n < size * 2 ^ Z.of_nat fuel -> n < double_to fuel size n.
Proof.
  induction fuel as [|fuel IH]; intros size n Hs Hn; cbn [double_to]; [simpl in Hn; lia|].
  destruct (size <=? n) eqn:E; [|by apply Z.leb_gt]. apply IH; [lia|].
  rewrite Nat2Z.inj_succ, Z.pow_succ_r in Hn by lia. lia.
Qed.

Lemma double_to_pos fuel : forall size n, 0 < size -> 0 < double_to fuel size n.
Proof. induction fuel as [|fuel IH]; intros size n Hs; cbn [double_to]; [done|]. case_match; [apply IH; lia|done]. Qed.

(** The number of the new object *)
Definition new_number (d : db) (n : Z) : Z := if (n <=? 0) || (num_objects d <=? n) then num_objects d else n.

Definition newborn (x : Z) : Object := db_init_object (raw_object x).

Lemma newborn_barren x : barren (newborn x).
Proof. done. Qed.

Lemma ensure_ok d :
  num_objects d + 1 < 2 ^ 30 -> exists m, ensure_new_object d = Some (tt, with_max m d) /\ num_objects d + 1 < m /\ max_objects d <= m.
Proof.
  intros Hn. unfold ensure_new_object, extend. set (size := double_to 24 128 (num_objects d + 1)).
  assert (num_objects d + 1 < size) as Hs by (apply double_to_ok; [done|change (128 * 2 ^ Z.of_nat 24) with (2 ^ 31); lia]).
  destruct ((max_objects d =? 0) || (max_objects d <? size)) eqn:E.
  - exists size. split; [done|]. apply orb_true_iff in E as [E%Z.eqb_eq|E%Z.ltb_lt]; [|lia].
    pose proof (double_to_pos 24 128 (num_objects d + 1)). fold size in H. lia.
  - apply orb_false_iff in E as [_ E%Z.ltb_ge]. exists (max_objects d). split; [by destruct d|lia].
Qed.

Lemma db_create_object_ok d n :
  db_ok d -> num_objects d + 1 < 2 ^ 30 -> objects d !! new_number d n = None ->
  exists l d', db_create_object n d = Some (new_number d n, d') /\ db_ok d' /\ obj_heap d !! l = None /\
    objects d' = <[new_number d n := l]> (objects d) /\ anonymous_objects d' = anonymous_objects d /\
    num_objects d' = Z.max (num_objects d) (new_number d n + 1) /\
    (forall y, object_of d' y = if decide (y = new_number d n) then Some (newborn (new_number d n)) else object_of d y).
Proof.
  intros Hok Hn Hx. pose proof (ok_table d Hok) as Hti. pose proof (ti_max d Hti) as Hm.
  set (l := fresh (dom (obj_heap d))). assert (obj_heap d !! l = None) as Hl by (apply not_elem_of_dom, is_fresh).
  set (x := new_number d n) in *.
  destruct (ensure_ok d Hn) as (m & Em & Hmm & Hmd).
  exists l. set (m' := if (n <=? 0) || (num_objects d <=? n) then m else max_objects d).
  exists (with_heap (<[l := newborn x]> (<[l := raw_object x]> (obj_heap d)))
    (with_objects (<[x := l]> (objects d)) (with_num (Z.max (num_objects d) (x + 1)) (with_max m' d)))).
  split.
  - unfold db_create_object. set (n' := if (n <=? 0) || (num_objects d <? n) then num_objects d else n).
    assert (dbpriv_new_object n' d = Some (l, with_heap (<[l := raw_object x]> (obj_heap d))
      (with_objects (<[x := l]> (objects d)) (with_num (Z.max (num_objects d) (x + 1)) (with_max m' d))))) as E1.
    { unfold dbpriv_new_object. destruct ((n <=? 0) || (num_objects d <=? n)) eqn:E.
      - assert (x = num_objects d) as Ex by (unfold x, new_number; by rewrite E).
        assert (n' = num_objects d) as En by (unfold n'; case_match; lia).
        rewrite En, Z.leb_refl, orb_true_r. unfold m'. rewrite mbind_assoc.
        erewrite mbind_Some by exact Em. unfold mbindM. rewrite Ex, Z.max_r by lia. done.
      - assert (x = n) as Ex by (unfold x, new_number; by rewrite E).
        assert (n' = n) as En by (unfold n'; case_match; lia). rewrite En, E, Ex. unfold m', mbindM.
        rewrite Z.max_l by lia. by destruct d. }
    erewrite mbind_Some by exact E1. unfold update, load, mbindM, with_heap. simpl. rewrite lookup_insert_eq.
    simpl. rewrite lookup_insert_eq. done.
  - assert (db_ok (with_heap (<[l := newborn x]> (<[l := raw_object x]> (obj_heap d)))
      (with_objects (<[x := l]> (objects d)) (with_num (Z.max (num_objects d) (x + 1)) (with_max m' d)))) /\
      0 <= x < Z.max (num_objects d) (x + 1) /\ Z.max (num_objects d) (x + 1) <= m') as (H1 & H2 & H3).
    { assert (0 <= x < Z.max (num_objects d) (x + 1) /\ Z.max (num_objects d) (x + 1) <= m') as [H2 H3].
      { unfold m', x, new_number. destruct ((n <=? 0) || (num_objects d <=? n)) eqn:E; lia. }
      split; [|done]. apply (born_ok d _ x l (newborn x)); simpl; try done; [apply insert_insert_eq|lia]. }
    split; [done|]. split; [done|]. split; [done|]. split; [done|]. split; [done|].
    intros y. apply (born_of d _ x l (newborn x)); simpl; try done; [apply insert_insert_eq|lia].
Qed.

(** ** One object less *)

Section died.
Context (d d' : db) (x : Z) (l : loc) (o : Object).
Hypothesis Hok : db_ok d.
Hypothesis Hx : dbpriv_find_object d x = Some l.
Hypothesis Hl : obj_heap d !! l = Some o.
Hypothesis Hobjects : objects d' = delete x (objects d).
Hypothesis Hheap : obj_heap d' = delete l (obj_heap d).
Hypothesis Hnum : num_objects d' = num_objects d.
Hypothesis Hmax : max_objects d' = max_objects d.
Hypothesis Hanons : anonymous_objects d' = anonymous_objects d.
Hypothesis Hcache : ancestor_cache d' = ancestor_cache d.
Hypothesis Hbarren : barren o.

Lemma died_is : object_of d x = Some o.
Proof. unfold object_of. by rewrite Hx. Qed.

Lemma died_find y : dbpriv_find_object d' y = if decide (y = x) then None else dbpriv_find_object d y.
Proof.
  unfold dbpriv_find_object. rewrite Hobjects, Hmax. case_decide as Hy.
  - rewrite Hy, lookup_delete_eq. by case_match.
  - by rewrite lookup_delete_ne.
Qed.

Lemma died_of y : object_of d' y = if decide (y = x) then None else object_of d y.
Proof.
  unfold object_of. rewrite died_find, Hheap. case_decide as Hy; [done|].
  destruct (dbpriv_find_object d y) as [m|] eqn:E; [|done]. simpl. apply lookup_delete_ne. intros Hlm. apply Hy.
  apply (ti_inj d (ok_table d Hok) y x l); [rewrite Hlm|]; by apply find_slot.
Qed.

Lemma died_valid y : valid d' y = negb (bool_decide (y = x)) && valid d y.
Proof.
  unfold valid. rewrite died_find. case_decide as Hy; [rewrite (bool_decide_eq_true_2 (y = x)) by done|
    rewrite (bool_decide_eq_false_2 (y = x)) by done]; [|done]. by apply bool_decide_eq_false.
Qed.

Lemma died_table : table_inv d'.
Proof.
  pose proof (ok_table d Hok) as Hti. split.
  - intros y m. rewrite died_find, Hheap. case_decide as Hy; [done|]. intros Hm. rewrite lookup_delete_ne.
    + by apply (ti_table d Hti y).
    + intros Hlm. apply Hy. apply (ti_inj d Hti y x l); [rewrite Hlm|]; by apply find_slot.
  - intros y z m. rewrite Hobjects. intros [_ Hy]%lookup_delete_Some [_ Hz]%lookup_delete_Some. by eapply ti_inj.
  - intros y. rewrite Hobjects, Hnum. intros [m [_ Hy]%lookup_delete_Some]. apply (ti_range d Hti). by eexists.
  - rewrite Hnum, Hmax. by apply ti_max.
  - intros y p. rewrite died_of. case_decide; [done|]. by apply ti_id.
  - rewrite Hanons, Hobjects, Hheap. intros y s m Hs Hm. destruct (ti_anons d Hti y s m Hs Hm) as [Hq Hn].
    assert (l <> m) as Hlm by (intros <-; apply (Hn x); by apply find_slot).
    rewrite lookup_delete_ne by done. split; [done|]. intros z [_ Hz]%lookup_delete_Some. by apply (Hn z).
Qed.

Lemma died_keeps y : y <> x -> valid d y = true -> valid d' y = true.
Proof. intros Hy Hv. by rewrite died_valid, Hv, (bool_decide_eq_false_2 (y = x)). Qed.

Lemma died_edge fl y z :
  (forall p, object_of d y = Some p -> x ∉ enlist (fl p)) -> (forall q, q ∈ enlist (fl o) -> q = NOTHING) ->
  edge fl d' y z <-> edge fl d y z.
Proof.
  pose proof (nothing_invalid d (ok_table d Hok)) as Hn. intros Hfl Hfo. unfold edge. rewrite died_of, died_valid.
  case_decide as Hy.
  - split; [by intros (p & ? & _)|]. intros (p & Hp & Hz & Hv). rewrite Hy, died_is in Hp. injection Hp as <-.
    apply Hfo in Hz. congruence.
  - split; intros (p & Hp & Hz & Hv); exists p; (split; [done|]; split; [done|]).
    + by apply andb_true_iff in Hv as [_ ?].
    + rewrite Hv, (bool_decide_eq_false_2 (z = x)); [done|]. intros Hzx. subst z. by apply (Hfl p).
Qed.

(** Nothing refers to the number. *)
Lemma died_family up down :
  family d up down -> (forall q, q ∈ enlist (up o) -> q = NOTHING) -> enlist (down o) = [] ->
  family d' up down /\ forall y p, object_of d y = Some p -> x ∉ enlist (up p).
Proof.
  intros Hfm Hup Hdown. pose proof (nothing_invalid d (ok_table d Hok)) as Hn.
  assert (valid d x = true) as Hvx by (eapply object_valid, died_is).
  assert (forall y p, object_of d y = Some p -> x ∉ enlist (up p)) as Hup'.
  { intros y p Hp Hin. destruct (proj1 (fm_inverse _ _ _ Hfm y x)) as (q & Hq & Hy & _); [by exists p|].
    rewrite died_is in Hq. injection Hq as <-. rewrite Hdown in Hy. by apply not_elem_of_nil in Hy. }
  assert (forall y p, object_of d y = Some p -> x ∉ enlist (down p)) as Hdown'.
  { intros y p Hp Hin. destruct (proj2 (fm_inverse _ _ _ Hfm x y)) as (q & Hq & Hy & Hv); [by exists p|].
    rewrite died_is in Hq. injection Hq as <-. apply Hup in Hy. congruence. }
  assert (forall y z, edge up d' y z <-> edge up d y z) as Eup by (intros; apply died_edge; eauto).
  assert (forall y z, edge down d' y z <-> edge down d y z) as Edown.
  { intros y z. apply died_edge; [eauto|]. rewrite Hdown. by intros q ?%not_elem_of_nil. }
  split; [|exact Hup']. split.
  - intros y p. rewrite died_of. case_decide; [done|]. intros Hp. specialize (Hup' y p Hp).
    pose proof (fm_wf _ _ _ Hfm _ _ Hp) as H1. unfold parents_wf in *. destruct (up p) as [q|qs]; simpl in *.
    + destruct H1 as [H1|H1]; [by left|right]. apply died_keeps; [set_solver|done].
    + rewrite Forall_forall in *. intros q Hq. apply died_keeps; [intros ?; congruence|by apply H1].
  - intros y p. rewrite died_of. case_decide; [done|]. by apply (fm_nodup _ _ _ Hfm).
  - intros y p. rewrite died_of. case_decide; [done|]. intros Hp. pose proof (fm_valid _ _ _ Hfm _ _ Hp) as H1.
    rewrite Forall_forall in *. intros q Hq. apply died_keeps; [|by apply H1].
    intros Hqx. subst q. by eapply Hdown'.
  - intros y z. rewrite Eup, Edown. apply Hfm.
  - destruct (fm_acyclic _ _ _ Hfm) as [rank Hr]. exists rank. intros y z. rewrite Eup. apply Hr.
Qed.

Lemma died_barren : (forall q, q ∈ enlist (parents o) -> q = NOTHING) /\ enlist (children_of o) = [] /\
  (forall q, q ∈ enlist (location_of o) -> q = NOTHING) /\ enlist (contents_of o) = [].
Proof.
  destruct Hbarren as (Hp & Hc & Hloc & Hcon). split; [|split; [done|split; [|done]]].
  - by apply barren_members.
  - intros q. unfold location_of. simpl. intros ->%list_elem_of_singleton. done.
Qed.

Lemma died_cache : cache_ok d'.
Proof.
  pose proof Hok as [Hti Hfm _ Hc]. destruct died_barren as (Hp & Hk & _). intros y lc. rewrite Hcache, died_of.
  intros Hy. specialize (Hc y lc Hy). pose proof (nothing_invalid d Hti) as Hn. case_decide as Hyx.
  - rewrite Hyx, died_is in Hc. destruct Hc as (anc & Ha & ->).
    destruct (ancestors_list_ok d o Hti) as (new & Ha' & _ & Hnew). rewrite Ha in Ha'. injection Ha' as <-.
    destruct anc as [|z anc]; [done|]. destruct (proj1 (Hnew z)) as (q & Hq & Hv & _); [by left|].
    apply Hp in Hq. congruence.
  - destruct (object_of d y) as [p|] eqn:Ep; [|done]. destruct Hc as (anc & Ha & ->). exists anc. split; [|done].
    destruct (visit_ok parents d' (ti_table _ died_table) (walk_fuel d') p ∅) as (new & _ & _ & E).
    { rewrite difference_empty_L. unfold walk_fuel. lia. }
    assert (walk_fuel d' <= walk_fuel d)%nat as Hwf.
    { unfold walk_fuel. rewrite Hobjects. enough (size (dom (delete x (objects d))) <= size (dom (objects d)))%nat by lia.
      apply subseteq_size. set_solver. }
    unfold ancestors_list in *. rewrite E.
    pose proof (db2_add_mono _ _ _ _ _ _ _ _ Hwf (E [])) as E2.
    assert (forall z q, object_of d z = Some q -> same_above d' d (fun u => is_Some (object_of d' u)) (enlist (parents q))) as Hab.
    { intros z q Hq u Hu. assert (u <> x) as Hux.
      { intros Hux. subst u. eapply (proj2 (died_family parents children_of Hfm Hp Hk)); [exact Hq|done]. }
      rewrite died_valid, (bool_decide_eq_false_2 (u = x)) by done. split; [done|]. intros Hv.
      rewrite died_of, decide_False by done. by apply valid_object; [apply Hti|]. }
    rewrite (db2_add_frame parents d' d (fun u => is_Some (object_of d' u))) with (o' := p) in E2; [|..|done|by eapply Hab].
    + rewrite E2 in Ha. exact Ha.
    + intros z [q Hq]. exists q, q. split; [done|]. rewrite died_of in Hq. case_decide; [done|].
      split_and!; [done|done|by eapply Hab].
Qed.

Lemma died_ok : db_ok d'.
Proof.
  destruct died_barren as (Hp & Hk & Hloc & Hcon). pose proof Hok as [_ Hfm Hpl _].
  split; [apply died_table|by apply died_family|by apply died_family|apply died_cache].
Qed.
End died.

Lemma db_destroy_object_ok d x o :
  db_ok d -> object_of d x = Some o -> barren o ->
  exists d', db_destroy_object x d = Some (tt, d') /\ db_ok d' /\ objects d' = delete x (objects d) /\
    num_objects d' = num_objects d /\ ancestor_cache d' = ancestor_cache d /\
    all_users d' = (if is_user d x then obj_setremove (all_users d) x else all_users d) /\
    forall y, object_of d' y = if decide (y = x) then None else object_of d y.
Proof.
  intros Hok Ho Hb. destruct (object_slot d x o Ho) as (l & Hl & Hh). pose proof Hb as (Hp & Hc & Hloc & Hcon).
  unfold db_destroy_object. rewrite Hl. erewrite mbind_Some by (by apply load_eq). cbv beta.
  rewrite Hloc, Hcon, Hp, Hc, Z.eqb_refl. cbn [negb orb is_nil].
  exists (with_heap (delete l (obj_heap d)) (with_objects (delete x (objects d))
    (if is_user d x then with_users (obj_setremove (all_users d) x) d else d))).
  split; [by destruct (is_user d x)|].
  split; [destruct (is_user d x); by apply (died_ok d _ x l o)|].
  split; [by destruct (is_user d x)|]. split; [by destruct (is_user d x)|]. split; [by destruct (is_user d x)|].
  split; [by destruct (is_user d x)|]. intros y. destruct (is_user d x); by apply (died_of d _ x l).
Qed.

(** ** Inheritance

    [db_object_isa] walks the ancestors breadth first without marking them,
    so its termination rests on the acyclicity of the hierarchy. *)
Local Open Scope Z_scope.
Local Open Scope moo_scope.

Lemma sum_list_with_ext {A} (f g : A -> nat) l :
  (forall x, x ∈ l -> f x = g x) -> sum_list_with f l = sum_list_with g l.
Proof.
  induction l as [|x l IH]; intros H; [done|]. simpl. rewrite H by (by left). f_equal. apply IH. intros y Hy.
  apply H. by right.
Qed.

(** ** The cost of an ancestor *)

(** The number of queue entries an ancestor leads to, to a depth *)
Fixpoint isa_cost (n : nat) (d : db) (x : Z) : nat :=
  match n with
  | O => 1
  | S n =>
    match object_of d x with
    | Some o => S (sum_list_with (isa_cost n d) (enlist (parents o)))
    | None => 1
    end
  end.

Section isa.
Context (d : db) (rank : Z -> nat).
Hypothesis Hti : table_inv d.
Hypothesis Hwf : forall x o, object_of d x = Some o -> parents_wf d (parents o).
Hypothesis Hrank : forall x y, edge parents d x y -> (rank y < rank x)%nat.

Lemma wf_member ps p : parents_wf d ps -> p ∈ enlist ps -> p = NOTHING \/ valid d p = true.
Proof.
  destruct ps as [q|l]; simpl; [by intros H ->%list_elem_of_singleton|]. rewrite Forall_forall. auto.
Qed.

Lemma isa_cost_stable n : forall m x, (rank x < n)%nat -> (rank x < m)%nat -> isa_cost n d x = isa_cost m d x.
Proof.
  induction n as [|n IH]; intros [|m] x Hn Hm; try lia. cbn [isa_cost].
  destruct (object_of d x) as [o|] eqn:Eo; [|done]. f_equal. apply sum_list_with_ext. intros p Hp.
  destruct (wf_member _ _ (Hwf x o Eo) Hp) as [->|Hv].
  - assert (object_of d NOTHING = None) as En.
    { destruct (object_of d NOTHING) eqn:E; [|done]. apply object_valid in E. by rewrite nothing_invalid in E. }
    destruct n, m; cbn [isa_cost]; by rewrite ?En.
  - assert (edge parents d x p) as He%Hrank by (by exists o). apply IH; lia.
Qed.

Definition cost (x : Z) : nat := isa_cost (S (rank x)) d x.

Lemma cost_eq x o : object_of d x = Some o -> cost x = S (sum_list_with cost (enlist (parents o))).
Proof.
  intros Eo. unfold cost at 1. cbn [isa_cost]. rewrite Eo. f_equal. apply sum_list_with_ext. intros p Hp.
  destruct (wf_member _ _ (Hwf x o Eo) Hp) as [->|Hv].
  - assert (object_of d NOTHING = None) as En.
    { destruct (object_of d NOTHING) eqn:E; [|done]. apply object_valid in E. by rewrite nothing_invalid in E. }
    unfold cost. destruct (rank x); cbn [isa_cost]; by rewrite ?En.
  - assert (edge parents d x p) as He%Hrank by (by exists o). apply isa_cost_stable; lia.
Qed.
Lemma cost_pos x : (0 < cost x)%nat.
Proof. unfold cost. cbn [isa_cost]. case_match; lia. Qed.

(** ** The loop *)

Lemma isa_loop_ok p fuel : forall ancestors,
  (forall a, a ∈ ancestors -> a = NOTHING \/ valid d a = true) -> (sum_list_with cost ancestors < fuel)%nat ->
  exists b, isa_loop fuel (VObj p) ancestors d = Some (b, d) /\
    (b = true <-> exists a, a ∈ ancestors /\ valid d a = true /\ rtc (edge parents d) a p).
Proof.
  induction fuel as [|fuel IH]; intros ancestors Ha Hf; [lia|]. cbn [isa_loop].
  destruct ancestors as [|a ancestors]; [exists false; split; [done|]; split; [done|by intros (? & ?%not_elem_of_nil & _)]|].
  assert (forall b, b ∈ ancestors -> b = NOTHING \/ valid d b = true) as Ha' by (intros; apply Ha; by right).
  simpl in Hf. pose proof (cost_pos a) as Hc. destruct (Z.eqb_spec a NOTHING) as [->|Hn].
  - destruct (IH ancestors Ha') as (b & E & Hb); [lia|]. exists b. split; [done|]. rewrite Hb.
    split; intros (c & Hin & Hv & Hr); exists c; (split; [|done]); [by right|].
    apply elem_of_cons in Hin as [->|]; [by rewrite nothing_invalid in Hv|done].
  - destruct (Ha a) as [?|Hva]; [by left|done|]. cbn [equality].
    destruct (valid_object d a (ti_table d Hti) Hva) as [o Ho]. destruct (object_slot d a o Ho) as (l & Hl & Hh).
    destruct (Z.eqb_spec a p) as [->|Hap].
    + exists true. split; [done|]. split; [|done]. intros _. exists p. split; [by left|]. by split.
    + rewrite (cost_eq a o Ho) in Hf. destruct (IH (ancestors ++ enlist (parents o))) as (b & E & Hb).
      { intros c [Hin|Hin]%elem_of_app; [auto|]. by eapply wf_member; [apply (Hwf a o)|]. }
      { rewrite sum_list_with_app. lia. }
      exists b. split.
      { erewrite mbind_Some by (by apply slot_eq). by erewrite mbind_Some by (by apply load_eq). }
      rewrite Hb. split.
      * intros (c & [Hin|Hin]%elem_of_app & Hv & Hr); [exists c; split; [by right|done]|]. exists a.
        split; [by left|]. split; [done|]. eapply rtc_l; [by exists o|done].
      * intros (c & [->|Hin]%elem_of_cons & Hv & Hr); [|exists c; set_solver].
        inversion Hr as [|? y ? (q & Hq & Hy & Hvy) Hyz]; subst; [done|]. rewrite Ho in Hq. injection Hq as <-.
        exists y. set_solver.
Qed.
End isa.

(** With enough fuel [db_object_isa] answers, and truly. *)
Lemma db_object_isa_ok d object l o p :
  db_ok d -> dbpriv_dereference object d = Some (l, d) -> obj_heap d !! l = Some o -> parents_wf d (parents o) ->
  exists n, forall fuel, (n <= fuel)%nat -> exists b, db_object_isa fuel object (VObj p) d = Some (b, d) /\
    (b = true <-> object = VObj p \/ members_below parents d o p).
Proof.
  intros Hok Hl Ho Hps. pose proof Hok as [Hti Hfm _ _]. destruct (fm_acyclic _ _ _ Hfm) as [rank Hr].
  exists (S (sum_list_with (cost d rank) (enlist (parents o)))). intros fuel Hf. unfold db_object_isa.
  destruct (isa_loop_ok d rank Hti (fm_wf _ _ _ Hfm) Hr p fuel (enlist (parents o))) as (b & E & Hb); [|lia|].
  { intros a. by apply wf_member. }
  assert (equality object (VObj p) false = Some true /\ object = VObj p \/
    equality object (VObj p) false = Some false /\ object <> VObj p) as [[-> Hob]|[-> Hob]].
  { destruct object; try done; cbn [equality]; [|by right]. destruct (Z.eqb_spec o0 p) as [->|]; [by left|right].
    split; [done|congruence]. }
  - exists true. split; [done|]. split; [by left|done].
  - exists b. split; [|rewrite Hb; tauto]. erewrite mbind_Some by exact Hl. by erewrite mbind_Some by (by apply load_eq).
Qed.
