(* ===== verification/ObjFun.v ===== *)
(** * The object built-ins (objects.cc)

    Each definition transcribes one function of [src/src/objects.cc] on the
    object table of [ObjCode].  A built-in that runs a verb ends with [Call]
    and is entered again at the next program counter, whatever other code has
    done to the table in between.  [call_verb] of execute.cc, which looks a
    verb up and pushes its frame, is a parameter: it does not change objects.
    The quota functions do nothing in this configuration (options.h:441). *)
From Stdlib Require Import ZArith Lia.
From stdpp Require Import prelude gmap.
From S2P Require Import Prelude CString Value ObjCode.

Local Open Scope Z_scope.
Local Open Scope moo_scope.

Definition FLAG_RECYCLED : Z := 10.

(** A result, or a verb call with the counter to go on at *)
Inductive outcome := Done (p : package) | Call (next : Z).

Definition no_var_pack : package := PVar (VInt 0).
Definition error_pack (e : error) : M db outcome := mreturn (Done (PError e)).
Definition var_pack (v : Var) : M db outcome := mreturn (Done (PVar v)).

Definition is_list_of_objs (v : Var) : bool :=
  match v with VList l => forallb (fun x => match x with VObj _ => true | _ => false end) l | _ => false end.
Definition is_obj_or_list_of_objs (v : Var) : bool :=
  match v with VObj _ => true | _ => is_list_of_objs v end.

(** [v.v.obj], and the elements' *)
Definition objid (v : Var) : Z := match v with VObj x => x | _ => 0 end.
Definition objids (v : Var) : Z + list Z :=
  match v with VList l => inr (objid <$> l) | _ => inl (objid v) end.

Definition all_valid (d : db) (vars : list Z) : bool := forallb (valid d) vars.
Fixpoint all_allowed (vars : list Z) (progr f : Z) : M db bool :=
  match vars with
  | [] => mreturn true
  | x :: vars =>
    let! ok := db_object_allows (VObj x) progr f in
    if ok : bool then all_allowed vars progr f else mreturn false
  end.

(** Fields, where the code does not check the number *)
Definition field_of {A} (f : Object -> A) (obj : Var) : M db A :=
  let! l := dbpriv_dereference obj in let! o := load l in mreturn (f o).
Definition db_object_location (oid : Z) : M db Z := field_of location (VObj oid).
Definition db_object_owner (oid : Z) : M db Z := field_of owner (VObj oid).
Definition db_object_parents2 (obj : Var) : M db (Z + list Z) := field_of parents obj.
Definition db_object_children2 (obj : Var) : M db (list Z) := field_of children obj.

Definition controls (who what : Z) : M db bool := fun d =>
  if is_wizard d who then Some (true, d) else (let! o := db_object_owner what in mreturn (who =? o)) d.
Definition controls2 (who : Z) (what : Var) : M db bool := fun d =>
  if is_wizard d who then Some (true, d) else (let! o := db_object_owner2 what in mreturn (who =? o)) d.

(** [ismember] of an object number *)
Definition is_a_descendant (fuel : nat) (this : Z) (obj : Var) : M db bool :=
  let! descendants := db_descendants fuel obj true in
  mreturn (existsb (fun v => match v with VObj x => x =? this | _ => false end) descendants).
Fixpoint any_loop (fuel : nat) (these : list Z) (obj : Var) : M db bool :=
  match these with
  | [] => mreturn false
  | this :: these =>
    let! b := is_a_descendant fuel this obj in
    if b : bool then mreturn true else any_loop fuel these obj
  end.
Definition any_are_descendants (fuel : nat) (these : list Z) (obj : Var) : M db bool :=
  let! _ := db_descendants fuel obj true in any_loop fuel these obj.

(** The value of [parents] *)
Definition parents_var (ps : Z + list Z) : Var :=
  match ps with inl p => VObj p | inr l => VList (VObj <$> l) end.

Definition bf_valid (obj : Var) : M db outcome :=
  if is_object obj then let! b := is_valid obj in var_pack (VInt (Z.b2z b)) else error_pack E_TYPE.
Definition bf_max_object : M db outcome := fun d => var_pack (VObj (db_last_used_objid d)) d.

(** ** Reading the hierarchy *)

(** The tests of the type and the validity of the argument *)
Definition on_valid (obj : Var) (k : M db outcome) : M db outcome :=
  if negb (is_object obj) then error_pack E_TYPE
  else let! b := is_valid obj in if negb b then error_pack E_INVARG else k.

Definition bf_parent (obj : Var) : M db outcome :=
  on_valid obj (
    let! ps := db_object_parents2 obj in
    match ps with
    | inl p => var_pack (VObj p)
    | inr [] => var_pack (VObj NOTHING)
    | inr (p :: _) => var_pack (VObj p)
    end).
Definition bf_parents (obj : Var) : M db outcome :=
  on_valid obj (
    let! ps := db_object_parents2 obj in
    match ps with
    | inr l => var_pack (VList (VObj <$> l))
    | inl p => if p =? NOTHING then var_pack (VList []) else var_pack (VList [VObj p])
    end).
Definition bf_children (obj : Var) : M db outcome :=
  on_valid obj (let! l := db_object_children2 obj in var_pack (VList (VObj <$> l))).
Definition bf_ancestors (fuel : nat) (obj : Var) (full : bool) : M db outcome :=
  on_valid obj (let! l := db_ancestors fuel obj full in var_pack (VList l)).
Definition bf_descendants (fuel : nat) (obj : Var) (full : bool) : M db outcome :=
  on_valid obj (let! l := db_descendants fuel obj full in var_pack (VList l)).

(** The loop over the parents of the list *)
Fixpoint isa_any (fuel : nat) (object : Var) (parents : list Var) : M db (option Var) :=
  match parents with
  | [] => mreturn None
  | p :: parents =>
    let! b := db_object_isa fuel object p in
    if b : bool then mreturn (Some p) else isa_any fuel object parents
  end.
(** WAIFs, whose class is not part of this state, have no result; neither
    has the address of an anonymous [parent] returned as an object number. *)
Definition bf_isa (fuel : nat) (object parent : Var) (return_obj : bool) : M db outcome :=
  if negb (is_object object)
     || (negb (is_obj_or_list_of_objs parent) && match parent with VAnon _ => false | _ => true end)
  then error_pack E_TYPE
  else
    let! v := is_valid object in
    let! r := (if negb v then mreturn None
               else match parent with
                    | VList l => isa_any fuel object l
                    | _ => isa_any fuel object [parent]
                    end) in
    match r with
    | Some (VObj p) => var_pack (if return_obj then VObj p else VInt 1)
    | Some _ => if return_obj then mfail else var_pack (VInt 1)
    | None => var_pack (if return_obj then VObj NOTHING else VInt 0)
    end.

Definition multi_parent_isa (fuel : nat) (object : Var) (parents : Var) : M db bool :=
  let! r := isa_any fuel object match parents with VList l => l | _ => [parents] end in
  mreturn match r with Some _ => true | None => false end.

Fixpoint occupants_loop (fuel : nat) (parent : option Var) (check_player_flag inverse_match : bool) (contents tmp : list Z) :
  M db (list Z) :=
  match contents with
  | [] => mreturn tmp
  | oid :: contents => fun d =>
    if negb (valid d oid) then occupants_loop fuel parent check_player_flag inverse_match contents tmp d
    else
      (let! parent_matches :=
         match parent with
         | Some p => let! b := multi_parent_isa fuel (VObj oid) p in mreturn (if inverse_match then negb b else b)
         | None => mreturn true
         end in
       fun d =>
         let player_matches := negb check_player_flag || is_user d oid in
         occupants_loop fuel parent check_player_flag inverse_match contents
           (if parent_matches && player_matches then tmp ++ [oid] else tmp) d) d
  end.
(** [parent], [player] and [inverse] are the optional arguments. *)
Definition bf_occupants (fuel : nat) (contents : Var) (parent player inverse : option Var) : M db outcome := fun d =>
  let check_player_flag :=
    match parent with None => true | Some _ => match player with Some v => is_true v | None => false end end in
  let inverse_match := match inverse with Some v => is_true v | None => false end in
  let oids := match objids contents with inr l => l | inl _ => [] end in
  if match parent with Some p => negb (is_obj_or_list_of_objs p) | None => false end then error_pack E_TYPE d
  else if negb (is_list_of_objs contents) || negb (all_valid d oids) then error_pack E_INVARG d
  else (let! tmp := occupants_loop fuel parent check_player_flag inverse_match oids [] in
        var_pack (VList (VObj <$> tmp))) d.

(** The loop [while (valid(loc))] *)
Fixpoint locations_loop (fuel : nat) (base_obj : Z) (check_parent : bool) (loc : Z) (locs : list Z) : M db (list Z) :=
  match fuel with
  | O => mfail
  | S n => fun d =>
    if negb (valid d loc) then Some (locs, d)
    else
      (let! stop := (if base_obj =? 0 then mreturn false
                     else if check_parent then db_object_isa fuel (VObj loc) (VObj base_obj)
                     else mreturn (loc =? base_obj)) in
       if stop : bool then mreturn locs
       else let! next := db_object_location loc in
            locations_loop n base_obj check_parent next (obj_setadd locs loc)) d
  end.
Definition bf_locations (fuel : nat) (what base_obj : Z) (check_parent : bool) : M db outcome := fun d =>
  if negb (valid d what) then error_pack E_INVIND d
  else (let! l := db_object_location what in
        let! locs := locations_loop fuel base_obj check_parent l [] in
        var_pack (VList (VObj <$> locs))) d.

Definition bf_recycled_objects : M db outcome := fun d =>
  var_pack (VList (VObj <$> filter (fun x => valid d x = false) (seqZ 0 (db_last_used_objid d + 1)))) d.
Fixpoint next_recycled (count : nat) (d : db) (i_obj : Z) : Var :=
  match count with
  | O => VInt 0
  | S count => if valid d i_obj then next_recycled count d (i_obj + 1) else VObj i_obj
  end.
Definition bf_next_recycled_object (i_obj : Z) : M db outcome := fun d =>
  let max_obj := db_last_used_objid d in
  if (max_obj <? i_obj) || (i_obj <? 0) then error_pack E_INVARG d
  else var_pack (next_recycled (Z.to_nat (max_obj - i_obj)) d i_obj) d.
Definition owned_by (d : db) (who x : Z) : bool :=
  match object_of d x with Some o => who =? owner o | None => false end.
Definition bf_owned_objects (who : Z) : M db outcome := fun d =>
  if negb (valid d who) then error_pack E_INVIND d
  else var_pack (VList (VObj <$> filter (fun x => owned_by d who x = true) (seqZ 0 (db_last_used_objid d + 1)))) d.

(** ** Players *)

Definition bf_players : M db outcome := fun d => var_pack (VList (VObj <$> all_users d)) d.
Definition bf_is_player (oid : Z) : M db outcome := fun d =>
  if negb (valid d oid) then error_pack E_INVARG d else var_pack (VInt (Z.b2z (is_user d oid))) d.
(** [boot_player] marks the player's connection, which is not part of this
    state. *)
Definition bf_set_player_flag (oid : Z) (flag : Var) (progr : Z) : M db outcome := fun d =>
  if negb (valid d oid) then error_pack E_INVARG d
  else if negb (is_wizard d progr) then error_pack E_PERM d
  else ((if is_true flag then db_set_object_flag oid FLAG_USER else db_clear_object_flag oid FLAG_USER) ;;
        mreturn (Done no_var_pack)) d.
