(* ===== verification/ObjTask.v ===== *)
(** * The built-ins that change the hierarchies (objects.cc)

    [chparent], [move], [create], [recreate] and [recycle], with the parts of
    db_objects.cc that only they use. *)
From Stdlib Require Import ZArith Lia.
From stdpp Require Import prelude gmap strings.
From S2P Require Import Prelude CString Value ObjCode ObjFun.

Local Open Scope Z_scope.
Local Open Scope moo_scope.

(** ** Anonymous objects *)

(** The number of an anonymous object is [NOTHING]; the fields
    [db_make_anonymous] frees are left as they are. *)
Definition db_make_anonymous (fuel : nat) (oid last : Z) : M db loc :=
  let! l := slot oid in
  modify (fun d => with_objects (delete oid (objects d)) d) ;;
  db_set_last_used_objid fuel last ;;
  update l (with_id NOTHING) ;;
  mreturn l.

(** The parents, which are freed, are left as they are. *)
Definition db_destroy_anonymous_object (l : loc) : M db unit :=
  let! o := load l in
  for_parents (fun p => dbpriv_remove_anon p l) (parents o) ;;
  update l (dbpriv_set_object_flag FLAG_INVALID).

Definition dbpriv_cleanup_failed_anonymous_create (oid : Z) : M db unit :=
  let! l := slot oid in
  modify (fun d => with_objects (delete oid (objects d)) d) ;;
  db_destroy_anonymous_object l ;;
  modify (fun d => with_heap (delete l (obj_heap d)) d).

(** ** Children and owners *)

Definition db_next_child (oid : Z) : M db (option Var) :=
  let! kids := db_object_children2 (VObj oid) in
  fun d => Some (match kids with
                 | c :: _ => Some (VObj c)
                 | [] => (fun l => VAnon (Some l)) <$> head (elements (default ∅ (anonymous_objects d !! oid)))
                 end, d).

(** Every object of the table and every anonymous one *)
Definition do_fixup_owners (obj : Z) (o : Object) : Object := if owner o =? obj then with_owner NOTHING o else o.
Definition db_fixup_owners (obj : Z) : M db unit :=
  modify (fun d =>
    let locs := omap (fun x => objects d !! x) (seqZ 0 (num_objects d)) ++
                concat (map (fun s => elements s.2) (map_to_list (anonymous_objects d))) in
    with_heap (foldr (fun l h => alter (do_fixup_owners obj) l h) (obj_heap d) locs) d).

Section verbs.
(** [dbpriv_check_properties_for_chparent] of db_properties.cc and
    [call_verb] of execute.cc (the receiver, the verb and its argument) *)
Context (check_properties : db -> Var -> Z + list Z -> list Var -> bool).
Context (call_verb : db -> Z -> bytes -> list Var -> error).

Definition verb (recv : Z) (vname : bytes) (args : list Var) : M db error :=
  fun d => Some (call_verb d recv vname args, d).

(** ** [chparent] and [chparents] *)

(** The tests of the parents: their validity, and a flag *)
Definition parents_allow (ps : Z + list Z) (progr f : Z) : M db bool :=
  match ps with
  | inl p => fun d => if valid d p then db_object_allows (VObj p) progr f d else Some (true, d)
  | inr ps => all_allowed ps progr f
  end.
Definition parents_invalid (d : db) (ps : Z + list Z) : bool :=
  match ps with
  | inl p => negb (valid d p) && negb (p =? NOTHING)
  | inr ps => negb (all_valid d ps)
  end.

(** [n] is the number of arguments. *)
Definition bf_chparent_chparents (fuel : nat) (obj what : Var) (n progr : Z) : M db outcome := fun d =>
  if negb (is_object obj) || negb (is_obj_or_list_of_objs what) then error_pack E_TYPE d
  else if (2 <? n) && negb (is_wizard d progr) then error_pack E_PERM d
  else
    (let! v := is_valid obj in
     fun d =>
       if negb v || parents_invalid d (objids what) then error_pack E_INVARG d
       else
         (let! c := controls2 progr obj in
          let! allowed := (if negb c then mreturn false else parents_allow (objids what) progr FLAG_FERTILE) in
          if negb allowed then error_pack E_PERM
          else
            let! rec := (match objids what with
                         | inl p => is_a_descendant fuel p obj
                         | inr ps => any_are_descendants fuel ps obj
                         end) in
            if rec : bool then error_pack E_RECMOVE
            else
              let! changed := db_change_parents check_properties fuel obj (objids what) [] in
              if negb changed then error_pack E_INVARG else mreturn (Done no_var_pack)) d) d.

(** ** [move] *)

Record bf_move_data := mk_move { mv_what : Z; mv_where : Z; mv_position : Z }.

(** [for (oid = where; oid != NOTHING; oid = db_object_location(oid))] *)
Fixpoint recmove (fuel : nat) (oid what : Z) : M db bool :=
  match fuel with
  | O => mfail
  | S fuel =>
    if oid =? NOTHING then mreturn false
    else if oid =? what then mreturn true
    else let! next := db_object_location oid in recmove fuel next what
  end.

(** A verb call: go on at [next], fail, or not found *)
Definition call_or (recv : Z) (vname : bytes) (args : list Var) (next : Z) (maxrec : error -> bool) (k : M db outcome) : M db outcome :=
  let! e := verb recv vname args in
  if decide (e = E_NONE) then mreturn (Call next)
  else if maxrec e then error_pack e
  else k.
Definition is_maxrec (e : error) : bool := bool_decide (e = E_MAXREC).

(** From [case 3] on *)
Definition move_entered (data : bf_move_data) (oldloc : Z) : M db outcome := fun d =>
  let what := mv_what data in let dest := mv_where data in let position := mv_position data in
  if valid d dest && valid d what && negb (dest =? oldloc) then
    (let! l := db_object_location what in
     if l =? dest then
       call_or dest (str "enterfunc") [VObj what] 4 is_maxrec (mreturn (Done no_var_pack))
     else mreturn (Done no_var_pack)) d
  else Some (Done no_var_pack, d).

(** From [accepts_decided] on *)
Definition move_decided (fuel : nat) (data : bf_move_data) (accepts : bool) (progr : Z) : M db outcome := fun d =>
  let what := mv_what data in let dest := mv_where data in let position := mv_position data in
  if negb (is_wizard d progr) && negb accepts then error_pack E_NACC d
  else if negb (valid d what) || (negb (dest =? NOTHING) && negb (valid d dest)) then Some (Done no_var_pack, d)
  else
    (let! l := db_object_location what in
     if (l =? dest) && (position =? 0) then mreturn (Done no_var_pack)
     else
       let! rec := recmove fuel dest what in
       if rec : bool then error_pack E_RECMOVE
       else
         let! oldloc := db_object_location what in
         db_change_location what dest position ;;
         if negb (dest =? oldloc) then
           call_or oldloc (str "exitfunc") [VObj what] 3 is_maxrec (move_entered data oldloc)
         else move_entered data oldloc) d.

Definition do_move (fuel : nat) (arglist : Var) (next : Z) (data : bf_move_data) (progr : Z) : M db outcome := fun d =>
  let what := mv_what data in let dest := mv_where data in let position := mv_position data in
  if next =? 1 then
    if negb (valid d what) || (negb (valid d dest) && negb (dest =? NOTHING)) || (position <? 0) then error_pack E_INVARG d
    else
      (let! c := controls progr what in
       if negb c then error_pack E_PERM
       else
         let! l := db_object_location what in
         if (dest =? NOTHING) || (dest =? l) then move_decided fuel data true progr
         else
           let! c := (if 0 <? position then controls progr dest else mreturn true) in
           if negb c then error_pack E_PERM
           else
             call_or dest (str "accept") [VObj what] 2 (fun e => negb (bool_decide (e = E_VERBNF)))
               (move_decided fuel data false progr)) d
  else if next =? 2 then move_decided fuel data (is_true arglist) progr d
  else if next =? 3 then move_entered data FAILED_MATCH d
  else if next =? 4 then Some (Done no_var_pack, d)
  else None.

(** The arguments at the first entry; later [arglist] is the verb's value. *)
Definition bf_move (fuel : nat) (what dest : Z) (pos : option Z) (progr : Z) : M db (bf_move_data * outcome) :=
  let data := mk_move what dest match pos with None => 0 | Some p => to_int p end in
  let! r := do_move fuel VNone 1 data progr in mreturn (data, r).

(** ** [create] and [recreate] *)

(** The optional arguments: [owner], the anonymous flag and the initialiser,
    recognised by their types; [None] is a type error *)
Definition create_args (args : list Var) (progr : Z) : option (Z * option Var * option Var) :=
  let first := match args with
               | [] => Some (progr, None, None)
               | VObj x :: _ => Some (x, None, None)
               | VInt n :: _ => Some (progr, Some (VInt n), None)
               | VList l :: _ => Some (progr, None, Some (VList l))
               | _ => None
               end in
  let more (r : option (Z * option Var * option Var)) (v : option Var) :=
    match r, v with
    | None, _ => None
    | Some r, None => Some r
    | Some (owner, None, init), Some (VInt n) => Some (owner, Some (VInt n), init)
    | Some (owner, anon, None), Some (VList l) => Some (owner, anon, Some (VList l))
    | _, _ => None
    end in
  more (more first (args !! 1%nat)) (args !! 2%nat).

Definition is_anonymous (anon : option Var) : bool :=
  match anon with Some (VInt n) => negb (n =? 0) | _ => false end.

(** The new object, its owner and parents; no value when its parents are
    refused *)
Definition create_object (fuel : nat) (ps : Z + list Z) (owner : Z) (anonymous : bool) : M db (option (Z * Var)) := fun d =>
  let last := db_last_used_objid d in
  (let! oid := db_create_object (-1) in
   fun d =>
     (db_set_object_owner oid (if negb (valid d owner) then oid else owner) ;;
      let! l := slot oid in
      let tmp := if anonymous then VAnon (Some l) else VObj oid in
      let! changed := db_change_parents check_properties fuel tmp ps [] in
      if negb changed then
        (if anonymous then dbpriv_cleanup_failed_anonymous_create oid else db_destroy_object oid) ;;
        db_set_last_used_objid fuel last ;;
        mreturn None
      else if anonymous then
        let! l := db_make_anonymous fuel oid last in mreturn (Some (oid, VAnon (Some l)))
      else mreturn (Some (oid, VObj oid))) d) d.

Definition bf_create (fuel : nat) (parent : Var) (args : list Var) (next : Z) (data : Var) (progr : Z) : M db (Var * outcome) := fun d =>
  if negb (next =? 1) then Some ((data, Done (PVar data)), d)
  else if negb (is_obj_or_list_of_objs parent) then Some ((VNone, Done (PError E_TYPE)), d)
  else
    match create_args args progr with
    | None => Some ((VNone, Done (PError E_TYPE)), d)
    | Some (owner, anon, init) =>
      let anonymous := is_anonymous anon in
      let ps := objids parent in
      if (anonymous && (owner =? NOTHING)) || (negb (valid d owner) && negb (owner =? NOTHING)) || parents_invalid d ps
      then Some ((VNone, Done (PError E_INVARG)), d)
      else
        (let! allowed := (if negb (progr =? owner) && negb (is_wizard d progr) then mreturn false
                          else parents_allow ps progr (if anonymous then FLAG_ANONYMOUS else FLAG_FERTILE)) in
         if negb allowed then mreturn (VNone, Done (PError E_PERM))
         else
           let! c := create_object fuel ps owner anonymous in
           match c with
           | None => mreturn (VNone, Done (PError E_INVARG))
           | Some (oid, r) =>
             let args := match init with Some (VList l) => l | _ => [] end in
             let! o := call_or oid (str "initialize") args 2 is_maxrec (mreturn (Done (PVar r))) in
             mreturn (r, o)
           end) d
    end.

(** The parent is not tested; the type of the third argument is that of its
    prototype. *)
Definition bf_recreate (fuel : nat) (old parent : Z) (owner : option Z) (next : Z) (data : Var) (progr : Z) : M db (Var * outcome) :=
  fun d =>
  if negb (next =? 1) then Some ((data, Done (PVar data)), d)
  else if (old <=? 0) || (db_last_used_objid d <? old) || valid d old then Some ((VNone, Done (PError E_INVARG)), d)
  else
    let owner := match owner with Some o => if valid d o then o else progr | None => progr end in
    (let! allowed := (if negb (progr =? owner) && negb (is_wizard d progr) then mreturn false
                      else parents_allow (inl parent) progr FLAG_FERTILE) in
     if negb allowed then mreturn (VNone, Done (PError E_PERM))
     else
       let! oid := db_create_object old in
       fun d =>
         (db_set_object_owner oid (if negb (valid d owner) then oid else owner) ;;
          let! changed := db_change_parents check_properties fuel (VObj oid) (inl parent) [] in
          if negb changed then db_destroy_object oid ;; mreturn (VNone, Done (PError E_INVARG))
          else
            let! o := call_or oid (str "initialize") [] 2 is_maxrec (mreturn (Done (PVar (VObj oid)))) in
            mreturn (VObj oid, o)) d) d.

(** ** [recycle] *)

Definition move_to_nothing (oid : Z) : M db bool :=
  let! oldloc := db_object_location oid in
  db_change_location oid NOTHING 0 ;;
  let! e := verb oldloc (str "exitfunc") [VObj oid] in
  mreturn (bool_decide (e = E_NONE)).

(** [while ((c = get_first(oid, db_for_all_contents)) != NOTHING)]: true when
    a verb was called *)
Fixpoint empty_contents (fuel : nat) (oid : Z) : M db bool :=
  match fuel with
  | O => mfail
  | S fuel => fun d =>
    match db_for_all_contents d oid with
    | [] => Some (false, d)
    | c :: _ =>
      if c =? NOTHING then Some (false, d)
      else (let! called := move_to_nothing c in
            if called : bool then mreturn true else empty_contents fuel oid) d
    end
  end.

(** [_new]: the parents of the child with those of [oid] in its place *)
Fixpoint until_oid (oid : Z) (cp : list Z) : list Z :=
  match cp with [] => [] | x :: cp => if x =? oid then [] else x :: until_oid oid cp end.
Fixpoint after_oid (oid : Z) (cp : list Z) : list Z :=
  match cp with [] => [] | x :: cp => if x =? oid then cp else after_oid oid cp end.
Definition without_oid (d : db) (oid : Z) (cp : list Z) (op : Z + list Z) : list Z :=
  let inherited := match op with inl p => if valid d p then [p] else [] | inr l => l end in
  foldl obj_setadd [] (until_oid oid cp ++ inherited ++ after_oid oid cp).

Fixpoint reparent_children (fuel : nat) (walk : nat) (oid : Z) : M db bool :=
  match fuel with
  | O => mfail
  | S fuel =>
    let! child := db_next_child oid in
    match child with
    | None => mreturn true
    | Some child =>
      let! cp := db_object_parents2 child in
      let! op := db_object_parents2 (VObj oid) in
      fun d =>
        let new := match cp with inl _ => op | inr cp => inr (without_oid d oid cp op) end in
        (let! changed := db_change_parents check_properties walk child new [] in
         if negb changed then mreturn false else reparent_children fuel walk oid) d
    end
  end.

Definition recycle_moving (fuel : nat) (obj : Var) : M db outcome :=
  let! v := is_valid obj in
  if negb v then error_pack E_INVARG
  else
    match obj with
    | VObj oid =>
      let! called := empty_contents fuel oid in
      if called : bool then mreturn (Call 2)
      else
        let! l := db_object_location oid in
        let! called := (if negb (l =? NOTHING) then move_to_nothing oid else mreturn false) in
        if called : bool then mreturn (Call 2)
        else
          let! done := reparent_children fuel fuel oid in
          if negb done then error_pack E_INVARG
          else
            let! _ := db_change_parents check_properties fuel obj (inl NOTHING) [] in
            db_fixup_owners oid ;;
            db_destroy_object oid ;;
            mreturn (Done no_var_pack)
    | VAnon (Some l) => db_destroy_anonymous_object l ;; mreturn (Done no_var_pack)
    | _ => mfail
    end.

(** The object, which the later entries find in their data, is passed
    again. *)
Definition bf_recycle (fuel : nat) (obj : Var) (func_pc progr : Z) : M db outcome :=
  if func_pc =? 1 then
    if negb (is_object obj) then error_pack E_TYPE
    else
      let! v := is_valid obj in
      let! recycled := match obj with
                       | VAnon (Some l) => let! o := load l in mreturn (dbpriv_object_has_flag o FLAG_RECYCLED)
                       | _ => mreturn false
                       end in
      if negb v || recycled then error_pack E_INVARG
      else
        let! c := controls2 progr obj in
        if negb c then error_pack E_PERM
        else
          match obj with VAnon (Some l) => update l (dbpriv_set_object_flag FLAG_RECYCLED) | _ => mreturn tt end ;;
          let! e := verb match obj with VObj x => x | _ => NOTHING end (str "recycle") [] in
          if decide (e = E_NONE) then mreturn (Call 2) else recycle_moving fuel obj
  else if func_pc =? 2 then recycle_moving fuel obj
  else mfail.
End verbs.
