(* ===== verification/ObjRun.v ===== *)
(** * The object built-ins on well-formed tables

    The tests of the built-ins as pure functions of the table, and their
    effects: every built-in answers and keeps [db_ok]. *)
From Stdlib Require Import ZArith Lia.
From stdpp Require Import prelude gmap relations strings.
From S2P Require Import Prelude CString Value ObjCode ObjGraph ObjParents ObjChange ObjLife ObjFun ObjTask.

Local Open Scope Z_scope.
Local Open Scope moo_scope.

(** ** Tests *)

Definition allows (d : db) (progr f x : Z) : bool :=
  is_wizard d progr || match object_of d x with
                       | Some o => (progr =? owner o) || dbpriv_object_has_flag o f
                       | None => false
                       end.
Definition controls_it (d : db) (progr x : Z) : bool := is_wizard d progr || owned_by d progr x.

Section reads.
Context (d : db).
Hypothesis Hti : table_inv d.

Lemma field_of_eq {A} (f : Object -> A) x o : object_of d x = Some o -> field_of f (VObj x) d = Some (f o, d).
Proof.
  intros (l & Hl & Hh)%object_slot. unfold field_of. erewrite mbind_Some by (by apply slot_eq).
  by erewrite mbind_Some by (by apply load_eq).
Qed.

Lemma db_object_allows_eq x progr f :
  valid d x = true -> db_object_allows (VObj x) progr f d = Some (allows d progr f x, d).
Proof.
  intros [o Ho]%(valid_object d x (ti_table d Hti)). unfold db_object_allows, allows. rewrite Ho.
  destruct (is_wizard d progr); [done|]. destruct (object_slot d x o Ho) as (l & Hl & Hh).
  erewrite mbind_Some by (by apply slot_eq). by erewrite mbind_Some by (by apply load_eq).
Qed.

Lemma all_allowed_eq xs progr f :
  all_valid d xs = true -> all_allowed xs progr f d = Some (forallb (allows d progr f) xs, d).
Proof.
  induction xs as [|x xs IH]; [done|]. cbn [all_valid forallb all_allowed]. intros [Hx Hxs]%andb_true_iff.
  erewrite mbind_Some by (by apply db_object_allows_eq). cbv beta. destruct (allows d progr f x); [by apply IH|done].
Qed.

Lemma controls_eq progr x : valid d x = true -> controls progr x d = Some (controls_it d progr x, d).
Proof.
  intros [o Ho]%(valid_object d x (ti_table d Hti)). unfold controls, controls_it, owned_by. rewrite Ho.
  destruct (is_wizard d progr); [done|]. unfold db_object_owner. by erewrite mbind_Some by (by apply field_of_eq).
Qed.
Lemma controls2_eq progr x : valid d x = true -> controls2 progr (VObj x) d = Some (controls_it d progr x, d).
Proof. exact (controls_eq progr x). Qed.

(** The parents a permission test looks at *)
Definition allowed_parents (progr f : Z) (ps : Z + list Z) : bool :=
  match ps with inl p => negb (valid d p) || allows d progr f p | inr l => forallb (allows d progr f) l end.
Lemma parents_allow_eq ps progr f :
  parents_invalid d ps = false -> parents_allow ps progr f d = Some (allowed_parents progr f ps, d).
Proof.
  destruct ps as [p|l]; simpl.
  - intros _. destruct (valid d p) eqn:E; [by apply db_object_allows_eq|done].
  - intros H%negb_false_iff. by apply all_allowed_eq.
Qed.

Lemma parents_invalid_wf ps : parents_invalid d ps = false <-> parents_wf d ps.
Proof.
  unfold parents_invalid, parents_wf, all_valid. destruct ps as [p|l].
  - destruct (valid d p), (Z.eqb_spec p NOTHING); simpl; naive_solver.
  - rewrite negb_false_iff, Forall_forall. split.
    + intros H x Hx. rewrite forallb_forall in H. apply H. by apply list_elem_of_In.
    + intros H. apply forallb_forall. intros x Hx. apply H. by apply list_elem_of_In.
Qed.
End reads.

(** ** Descendants *)

Lemma below_iff d fl x o y :
  object_of d x = Some o -> y = x \/ members_below fl d o y <-> rtc (edge fl d) x y.
Proof.
  intros Ho. split.
  - intros [->|(z & Hz & Hv & Hr)]; [done|]. eapply rtc_l; [by exists o|done].
  - intros Hr. inversion Hr as [|? z ? (q & Hq & Hz & Hv) Hzy]; subst; [by left|right].
    rewrite Ho in Hq. injection Hq as <-. by exists z.
Qed.

Lemma db_descendants_eq fuel d x o :
  table_inv d -> object_of d x = Some o -> (walk_fuel d <= fuel)%nat ->
  exists ds, db_descendants fuel (VObj x) true d = Some (VObj <$> x :: ds, d) /\
    forall y, y ∈ x :: ds <-> rtc (edge children_of d) x y.
Proof.
  intros Hti Ho Hf. destruct (object_slot d x o Ho) as (l & Hl & Hh).
  destruct (db_traverse_ok children_of fuel d (VObj x) true l o) as (ds & E & _ & Hds);
    [apply Hti|by apply slot_eq|done|by apply nothing_invalid|unfold walk_fuel in *; lia|].
  exists ds. split; [exact E|]. intros y. rewrite elem_of_cons, Hds. by apply below_iff.
Qed.

Section descendants.
Context (d : db) (fuel : nat) (x : Z) (o : Object).
Hypothesis Hok : db_ok d.
Hypothesis Ho : object_of d x = Some o.
Hypothesis Hf : (walk_fuel d <= fuel)%nat.

Lemma is_a_descendant_ok this :
  exists b, is_a_descendant fuel this (VObj x) d = Some (b, d) /\ (b = true <-> rtc (edge parents d) this x).
Proof.
  pose proof Hok as [Hti Hfm _ _]. destruct (db_descendants_eq fuel d x o Hti Ho Hf) as (ds & E & Hds).
  unfold is_a_descendant. erewrite mbind_Some by exact E. eexists. split; [done|].
  assert (forall y, rtc (edge parents d) y x <-> y ∈ x :: ds) as Hy.
  { intros y. rewrite Hds. by apply edge_rtc_flip. }
  rewrite Hy, existsb_exists. split.
  - intros (v & Hv & Hx). apply list_elem_of_In, list_elem_of_fmap in Hv as (y & -> & Hin).
    apply Z.eqb_eq in Hx. by rewrite <- Hx.
  - intros Hin. exists (VObj this). split; [|apply Z.eqb_refl]. apply list_elem_of_In, list_elem_of_fmap. by exists this.
Qed.

Lemma any_are_descendants_ok these :
  exists b, any_are_descendants fuel these (VObj x) d = Some (b, d) /\
    (b = true <-> exists p, p ∈ these /\ rtc (edge parents d) p x).
Proof.
  pose proof Hok as [Hti Hfm _ _]. destruct (db_descendants_eq fuel d x o Hti Ho Hf) as (ds & E & _).
  unfold any_are_descendants. erewrite mbind_Some by exact E. induction these as [|p ps (b & Eb & Hb)].
  - exists false. split; [done|]. split; [done|by intros (p & ?%not_elem_of_nil & _)].
  - cbn [any_loop]. destruct (is_a_descendant_ok p) as (b1 & E1 & Hb1). erewrite mbind_Some by exact E1. cbv beta.
    destruct b1.
    + exists true. split; [done|]. split; [|done]. intros _. exists p. split; [by left|by apply Hb1].
    + exists b. split; [done|]. rewrite Hb. split; intros (q & Hq & Hr); exists q; (split; [|done]); [by right|].
      apply elem_of_cons in Hq as [->|]; [|done]. by apply Hb1 in Hr.
Qed.
End descendants.

(** ** [chparent] *)

(** The errors before the test for cycles *)
Definition chparents_error (d : db) (oid : Z) (what : Var) (n progr : Z) : option error :=
  if negb (is_obj_or_list_of_objs what) then Some E_TYPE
  else if (2 <? n) && negb (is_wizard d progr) then Some E_PERM
  else if negb (valid d oid) || parents_invalid d (objids what) then Some E_INVARG
  else if negb (controls_it d progr oid) || negb (allowed_parents d progr FLAG_FERTILE (objids what)) then Some E_PERM
  else None.

Lemma descendants_test d fuel oid o ps :
  db_ok d -> object_of d oid = Some o -> (walk_fuel d <= fuel)%nat ->
  exists b, match ps with
            | inl p => is_a_descendant fuel p (VObj oid)
            | inr ps => any_are_descendants fuel ps (VObj oid)
            end d = Some (b, d) /\ (b = true <-> exists p, p ∈ enlist ps /\ rtc (edge parents d) p oid).
Proof.
  intros Hok Ho Hf. destruct ps as [p|ps].
  - destruct (is_a_descendant_ok d fuel oid o Hok Ho Hf p) as (b & E & Hb). exists b. split; [done|]. rewrite Hb. simpl.
    split; [intros Hr; exists p; split; [by left|done]|by intros (q & ->%list_elem_of_singleton & Hr)].
  - exact (any_are_descendants_ok d fuel oid o Hok Ho Hf ps).
Qed.

Lemma bf_chparent_chparents_ok check fuel d oid what n progr :
  db_ok d -> (walk_fuel d <= fuel)%nat ->
  let run := bf_chparent_chparents check fuel (VObj oid) what n progr d in
  match chparents_error d oid what n progr with
  | Some e => run = Some (Done (PError e), d)
  | None =>
    exists o, object_of d oid = Some o /\ parents_wf d (objids what) /\
    ((exists p, p ∈ enlist (objids what) /\ rtc (edge parents d) p oid) -> run = Some (Done (PError E_RECMOVE), d)) /\
    ((forall p, p ∈ enlist (objids what) -> avoids d oid p) ->
     exists b d', run = Some (Done (if b : bool then no_var_pack else PError E_INVARG), d') /\ db_ok d' /\
       (b = false <-> change_refused check d oid (objids what)) /\
       if b then edits d d' (relinked oid (parents o) (objids what)) else d' = d)
  end.
Proof.
  intros Hok Hf run. subst run. pose proof (ok_table d Hok) as Hti. unfold bf_chparent_chparents, chparents_error.
  cbn [is_object negb orb]. destruct (is_obj_or_list_of_objs what); cbn [negb]; [|done].
  destruct ((2 <? n) && negb (is_wizard d progr)); [done|]. erewrite mbind_Some by done. cbv beta.
  destruct (valid d oid) eqn:Hv; cbn [negb orb]; [|done].
  destruct (parents_invalid d (objids what)) eqn:Hp; [done|].
  erewrite mbind_Some by (by apply controls2_eq). cbv beta.
  destruct (controls_it d progr oid); cbn [negb orb]; [|done].
  erewrite mbind_Some by (by apply parents_allow_eq). cbv beta.
  destruct (allowed_parents d progr FLAG_FERTILE (objids what)); cbn [negb]; [|done].
  destruct (valid_object d oid (ti_table d Hti) Hv) as [o Ho]. exists o. split; [done|].
  apply parents_invalid_wf in Hp as Hwf. split; [done|].
  destruct (descendants_test d fuel oid o (objids what) Hok Ho Hf) as (b & E & Hb).
  erewrite mbind_Some by exact E. cbv beta. split.
  - intros Hc%Hb. by rewrite Hc.
  - intros Hav. destruct b; [exfalso; destruct (proj1 Hb eq_refl) as (p & Hin & Hr); by apply (Hav p)|].
    destruct (db_change_parents_ok check fuel d oid o (objids what) Hok Ho Hwf) as (b & d' & E1 & Hok' & Hd); [auto|done|].
    erewrite mbind_Some by exact E1. exists b, d'. split; [by destruct b|]. split; [done|]. split; [|done].
    by apply (change_refused_ok _ _ _ _ _ _ _ Hti E1).
Qed.

(** ** [move] *)

(** The chain of locations ends: it repeats no object. *)
Lemma recmove_ok d what : table_inv d -> family d location_of contents_of -> forall fuel vis x,
  (forall y, y ∈ vis -> valid d x = true -> tc (edge location_of d) y x) ->
  (size (dom (objects d) ∖ vis) < fuel)%nat -> x = NOTHING \/ valid d x = true ->
  exists b, recmove fuel x what d = Some (b, d) /\
    (b = true <-> valid d what = true /\ valid d x = true /\ rtc (edge location_of d) x what).
Proof.
  intros Hti Hfm. pose proof (nothing_invalid d Hti) as Hn.
  induction fuel as [|fuel IH]; intros vis x Hvis Hf Hx; [lia|]. cbn [recmove].
  destruct (Z.eqb_spec x NOTHING) as [->|Hxn].
  { exists false. split; [done|]. rewrite Hn. split; [done|by intros (_ & ? & _)]. }
  destruct Hx as [?|Hv]; [done|]. destruct (Z.eqb_spec x what) as [->|Hxw]; [by exists true|].
  destruct (valid_object d x (ti_table d Hti) Hv) as [o Ho]. unfold db_object_location.
  erewrite mbind_Some by (by apply field_of_eq). cbv beta.
  assert (x ∉ vis) as Hnv by (intros Hin; eapply acyclic_tc; [apply Hfm|by apply Hvis]).
  assert (valid d (location o) = true -> edge location_of d x (location o)) as He.
  { intros Hvl. exists o. split; [done|]. split; [|done]. apply list_elem_of_singleton. done. }
  destruct (IH ({[x]} ∪ vis) (location o)) as (b & E & Hb).
  - intros y [->%elem_of_singleton|Hy]%elem_of_union Hvl; [by apply tc_once, He|].
    eapply tc_r; [by apply Hvis|by apply He].
  - apply valid_dom in Hv. enough (size (dom (objects d) ∖ ({[x]} ∪ vis)) < size (dom (objects d) ∖ vis))%nat by lia.
    apply subset_size. set_solver.
  - apply (fm_wf _ _ _ Hfm x o Ho).
  - exists b. split; [done|]. rewrite Hb. split.
    + intros (Hw & Hvl & Hr). split; [done|]. split; [done|]. eapply rtc_l; [by apply He|done].
    + intros (Hw & _ & Hr). inversion Hr as [|? z ? (q & Hq & Hz & Hvz) Hzy]; subst; [done|].
      rewrite Ho in Hq. injection Hq as <-. apply list_elem_of_singleton in Hz as ->. done.
Qed.

Lemma location_cycle d x y :
  db_ok d -> (valid d x = true /\ rtc (edge location_of d) x y) \/ (valid d x = true -> ~ rtc (edge location_of d) x y).
Proof.
  intros [Hti _ Hpl _]. destruct (valid d x) eqn:Hv; [|by right].
  destruct (recmove_ok d y Hti Hpl (walk_fuel d) ∅ x) as (b & _ & Hb);
    [set_solver|rewrite difference_empty_L; unfold walk_fuel; lia|by right|].
  destruct b; [left|right].
  - destruct (proj1 Hb eq_refl) as (_ & _ & Hr). done.
  - intros _ Hr. assert (valid d y = true) as Hvy.
    { clear -Hv Hr. induction Hr as [|x y z (p & _ & _ & Hy) _ IH]; [done|by apply IH]. }
    by discriminate (proj2 Hb (conj Hvy (conj Hv Hr))).
Qed.

(** The outcomes of a move that has been made *)
Definition move_outcome (r : outcome) : Prop :=
  r = Done no_var_pack \/ r = Done (PError E_MAXREC) \/ r = Call 3 \/ r = Call 4.

Section moving.
Context (call_verb : db -> Z -> bytes -> list Var -> error) (fuel : nat) (progr : Z).

Lemma call_or_cases d recv vname args next maxrec k :
  (exists e, maxrec e = true /\ call_or call_verb recv vname args next maxrec k d = Some (Done (PError e), d)) \/
  call_or call_verb recv vname args next maxrec k d = Some (Call next, d) \/
  call_or call_verb recv vname args next maxrec k d = k d.
Proof.
  unfold call_or, verb. erewrite mbind_Some by done. cbv beta. set (e := call_verb d recv vname args).
  destruct (decide (e = E_NONE)); [by right; left|]. destruct (maxrec e) eqn:E; [left; by exists e|by right; right].
Qed.

Lemma move_entered_ok d data oldloc :
  table_inv d -> exists r, move_entered call_verb data oldloc d = Some (r, d) /\ move_outcome r.
Proof.
  intros Hti. unfold move_entered, move_outcome. destruct data as [what dest pos]; simpl.
  destruct (valid d dest && valid d what && negb (dest =? oldloc)) eqn:E; [|eauto].
  apply andb_true_iff in E as [[_ Hv]%andb_true_iff _]. destruct (valid_object d what (ti_table d Hti) Hv) as [o Ho].
  unfold db_object_location. erewrite mbind_Some by (by apply field_of_eq). cbv beta.
  destruct (location o =? dest); [|eauto].
  destruct (call_or_cases d dest (str "enterfunc") [VObj what] 4 is_maxrec (mreturn (Done no_var_pack)))
    as [(e & He & ->)|[-> | ->]]; [|eauto 6|eauto].
  apply bool_decide_eq_true in He as ->. eauto 6.
Qed.

Lemma move_decided_ok d data accepts :
  let what := mv_what data in let dest := mv_where data in
  db_ok d -> (walk_fuel d <= fuel)%nat ->
  let run := move_decided call_verb fuel data accepts progr d in
  if negb (is_wizard d progr) && negb accepts then run = Some (Done (PError E_NACC), d)
  else if negb (valid d what) || (negb (dest =? NOTHING) && negb (valid d dest)) then run = Some (Done no_var_pack, d)
  else exists o, object_of d what = Some o /\
    if (location o =? dest) && (mv_position data =? 0) then run = Some (Done no_var_pack, d)
    else
      (valid d dest = true -> rtc (edge location_of d) dest what -> run = Some (Done (PError E_RECMOVE), d)) /\
      ((valid d dest = true -> ~ rtc (edge location_of d) dest what) ->
       exists r d', run = Some (r, d') /\ move_outcome r /\ db_ok d' /\
         edited d d' (moved what (location o) dest (mv_position data))).
Proof.
  destruct data as [what dest pos]. simpl. intros Hok Hf. unfold move_decided. simpl.
  destruct (negb (is_wizard d progr) && negb accepts); [done|].
  destruct (valid d what) eqn:Hv; cbn [negb orb]; [|done].
  destruct (negb (dest =? NOTHING) && negb (valid d dest)) eqn:Hd; [done|].
  assert (dest = NOTHING \/ valid d dest = true) as Hdest.
  { destruct (Z.eqb_spec dest NOTHING); [by left|right]. by destruct (valid d dest). }
  pose proof Hok as [Hti _ Hpl _]. destruct (valid_object d what (ti_table d Hti) Hv) as [o Ho]. exists o. split; [done|].
  unfold db_object_location. erewrite mbind_Some by (by apply field_of_eq). cbv beta.
  destruct ((location o =? dest) && (pos =? 0)); [done|].
  destruct (recmove_ok d what Hti Hpl fuel ∅ dest) as (b & E & Hb);
    [set_solver|rewrite difference_empty_L; unfold walk_fuel in Hf; lia|done|].
  erewrite mbind_Some by exact E. cbv beta. split.
  - intros Hvd Hr. by rewrite (proj2 Hb).
  - intros Hcyc. destruct b; [exfalso; destruct (proj1 Hb eq_refl) as (_ & Hvd & Hr); by apply Hcyc|].
    erewrite mbind_Some by (by apply field_of_eq). cbv beta.
    destruct (db_change_location_ok d what o dest pos Hok Ho Hdest Hcyc) as (d' & E1 & Hok' & Hed).
    erewrite mbind_Some by exact E1. cbv beta.
    destruct (move_entered_ok d' (mk_move what dest pos) (location o) (ok_table d' Hok')) as (r & E2 & Hr).
    destruct (negb (dest =? location o)); [|by exists r, d'].
    destruct (call_or_cases d' (location o) (str "exitfunc") [VObj what] 3 is_maxrec (move_entered call_verb (mk_move what dest pos) (location o)))
      as [(e & He & ->)|[-> | ->]]; [|exists (Call 3), d'; split_and!; [done|by do 2 right; left|done|done]|by exists r, d'].
    apply bool_decide_eq_true in He as ->. exists (Done (PError E_MAXREC)), d'. split_and!; [done|by right; left|done|done].
Qed.

(** What a step of [move] may do to the table *)
Definition move_effect (d : db) (data : bf_move_data) (d' : db) : Prop :=
  d' = d \/ exists o, object_of d (mv_what data) = Some o /\
    (valid d (mv_where data) = true -> ~ rtc (edge location_of d) (mv_where data) (mv_what data)) /\
    edited d d' (moved (mv_what data) (location o) (mv_where data) (mv_position data)).

Lemma move_decided_effect d data accepts :
  db_ok d -> (walk_fuel d <= fuel)%nat ->
  exists r d', move_decided call_verb fuel data accepts progr d = Some (r, d') /\ db_ok d' /\ move_effect d data d'.
Proof.
  intros Hok Hf. pose proof (move_decided_ok d data accepts Hok Hf) as H. cbv zeta in H. unfold move_effect.
  destruct (negb (is_wizard d progr) && negb accepts); [by eexists _, d; eauto|].
  destruct (negb (valid d (mv_what data)) || _); [by eexists _, d; eauto|].
  destruct H as (o & Ho & H). destruct ((location o =? mv_where data) && _); [by eexists _, d; eauto|].
  destruct H as [H1 H2].
  destruct (location_cycle d (mv_where data) (mv_what data) Hok) as [[Hv Hr]|Hn].
  - eexists _, d. split; [by apply H1|]. by auto.
  - destruct (H2 Hn) as (r & d' & E & _ & Hok' & Hed). exists r, d'. split_and!; [done|done|]. right. by exists o.
Qed.

Lemma do_move_ok d arglist next data :
  db_ok d -> (walk_fuel d <= fuel)%nat -> 1 <= next <= 4 ->
  exists r d', do_move call_verb fuel arglist next data progr d = Some (r, d') /\ db_ok d' /\ move_effect d data d'.
Proof.
  intros Hok Hf Hnext. pose proof Hok as [Hti _ Hpl _]. unfold do_move.
  pose proof (fun b => move_decided_effect d data b Hok Hf) as Hdec.
  assert (forall r : outcome, exists r' d', Some (r, d) = Some (r', d') /\ db_ok d' /\ move_effect d data d') as Hsame.
  { intros r. exists r, d. unfold move_effect. eauto. }
  destruct (next =? 1) eqn:E1; [|destruct (next =? 2) eqn:E2; [apply Hdec|destruct (next =? 3) eqn:E3]].
  - destruct (_ || (mv_position data <? 0)) eqn:E; [apply Hsame|].
    apply orb_false_iff in E as [[Hv Hd]%orb_false_iff _]. apply negb_false_iff in Hv.
    erewrite mbind_Some by (by apply controls_eq). cbv beta. destruct (controls_it d progr (mv_what data)); [|apply Hsame].
    destruct (valid_object d (mv_what data) (ti_table d Hti) Hv) as [o Ho]. cbn [negb]. unfold db_object_location.
    erewrite mbind_Some by (by apply field_of_eq). cbv beta.
    destruct (_ || (mv_where data =? location o)) eqn:E; [apply Hdec|]. apply orb_false_iff in E as [E _]. rewrite E in Hd.
    apply andb_false_iff in Hd as [Hd|?]; [|done]. apply negb_false_iff in Hd.
    assert (exists c, (if 0 <? mv_position data then controls progr (mv_where data) else mreturn true) d = Some (c, d)) as [c Hc].
    { case_match; [exists (controls_it d progr (mv_where data)); by apply controls_eq|by exists true]. }
    erewrite mbind_Some by exact Hc. cbv beta. destruct c; cbn [negb]; [|apply Hsame].
    destruct (call_or_cases d (mv_where data) (str "accept") [VObj (mv_what data)] 2
      (fun e => negb (bool_decide (e = E_VERBNF))) (move_decided call_verb fuel data false progr)) as [(e & _ & ->)|[-> | ->]];
      [apply Hsame|apply Hsame|apply Hdec].
  - destruct (move_entered_ok d data FAILED_MATCH Hti) as (r & -> & _). apply Hsame.
  - rewrite (proj2 (Z.eqb_eq next 4)) by lia. apply Hsame.
Qed.
End moving.
