(* ===== verification/ObjMake.v ===== *)
(** * [create], [recreate] and [recycle] keep the invariant *)
From Stdlib Require Import ZArith Lia.
From stdpp Require Import prelude gmap relations strings.
From S2P Require Import Prelude CString Value ObjCode ObjGraph ObjParents ObjChange ObjLife ObjFun ObjTask ObjRun.

Local Open Scope Z_scope.
Local Open Scope moo_scope.

(** ** Changes that leave the graphs alone *)

Record same_links (o o' : Object) : Prop := {
  sl_id : obj_id o' = obj_id o; sl_parents : parents o' = parents o; sl_children : children o' = children o;
  sl_location : location o' = location o; sl_contents : contents o' = contents o }.

Lemma edited_ok d d' f : edited d d' f -> (forall x o, same_links o (f x o)) -> db_ok d -> db_ok d'.
Proof.
  intros Hed Hf [Hti Hfm Hpl Hc]. split.
  - eapply edited_table; [done..|]. intros x o. apply Hf.
  - eapply edited_family; [done|..|done]; intros x o; [apply Hf|unfold children_of; by rewrite (sl_children _ _ (Hf x o))].
  - eapply edited_family; [done|..|done]; intros x o; unfold location_of, contents_of;
      [by rewrite (sl_location _ _ (Hf x o))|by rewrite (sl_contents _ _ (Hf x o))].
  - eapply edited_cache; [done..| |done]. intros x o. apply Hf.
Qed.

Lemma with_owner_links x y z o : same_links o (at_one x (with_owner y) z o).
Proof. unfold at_one. by case_decide. Qed.

Lemma db_ok_num d n :
  db_ok d -> (forall x, is_Some (objects d !! x) -> x < n) -> 0 <= n <= max_objects d -> db_ok (with_num n d).
Proof.
  intros [[H1 H2 H3 H4 H5 H6] Hfm Hpl Hc] Hn Hr. split; [split|..]; try done.
  - intros x Hx. split; [by apply H3|by apply Hn].
  - destruct Hfm as [A1 A2 A3 A4 A5]. by split.
  - destruct Hpl as [A1 A2 A3 A4 A5]. by split.
  - intros x l Hl. specialize (Hc x l Hl). change (object_of (with_num n d) x) with (object_of d x).
    destruct (object_of d x) as [o|]; [|done]. destruct Hc as (new & Hnew & ->). exists new. split; [|done].
    rewrite <- Hnew. symmetry. unfold ancestors_list. f_equal.
    apply (db2_add_frame parents d (with_num n d) (fun y => is_Some (object_of d y))); [|done|].
    + intros y [p Hp]. exists p, p. split_and!; [done..|]. intros z Hz. split; [done|]. intros Hv. by apply valid_object.
    + intros z Hz. split; [done|]. intros Hv. by apply valid_object.
Qed.

(** ** [db_set_last_used_objid] *)

(** It frees numbers from the top, down to the argument at most. *)
Lemma db_set_last_used_objid_ok fuel : forall d oid,
  db_ok d -> 0 <= oid -> Z.max 0 (num_objects d - oid) < Z.of_nat fuel ->
  exists n, db_set_last_used_objid fuel oid d = Some (tt, with_num n d) /\ db_ok (with_num n d) /\
    Z.min oid (num_objects d) <= n <= num_objects d /\ (n <= oid \/ is_Some (objects d !! (n - 1))).
Proof.
  induction fuel as [|fuel IH]; intros d oid Hok Ho Hf; [|cbn [db_set_last_used_objid]].
  { lia. }
  pose proof (ti_max d (ok_table d Hok)) as Hm. pose proof (ti_range d (ok_table d Hok)) as Hr.
  assert (with_num (num_objects d) d = d) as Ed by (by destruct d).
  destruct (objects d !! (num_objects d - 1)) as [l|] eqn:El; cbn [negb andb].
  - rewrite bool_decide_eq_true_2 by (by eexists). cbn [negb andb]. exists (num_objects d). rewrite Ed.
    split; [done|]. split; [done|]. split; [lia|]. right. by eexists.
  - rewrite bool_decide_eq_false_2 by (by intros [? [=]]). cbn [negb andb]. destruct (Z.ltb_spec oid (num_objects d)).
    + destruct (IH (with_num (num_objects d - 1) d) oid) as (n & E & Hn & Hb & Hl); [|done|simpl; lia|].
      * apply db_ok_num; [done| |lia]. intros x Hx. specialize (Hr x Hx).
        assert (x <> num_objects d - 1) by (intros ->; rewrite El in Hx; by destruct Hx). lia.
      * exists n. split; [exact E|]. split; [exact Hn|]. simpl in *. split; [lia|done].
    + exists (num_objects d). rewrite Ed. split; [done|]. split; [done|]. split; [lia|]. left. lia.
Qed.

(** ** A new object *)

Definition created (x owner : Z) (ps : Z + list Z) : Object := mk_Object x owner [] 0 ps [] NOTHING [].

(** Nothing is below an object without children. *)
Lemma childless_avoids d x o p : db_ok d -> object_of d x = Some o -> children o = [] -> p <> x -> avoids d x p.
Proof.
  intros [_ Hfm _ _] Ho Hc Hp Hr. apply rtc_inv_r in Hr as [->|(z & _ & Hz)]; [done|].
  apply (fm_inverse _ _ _ Hfm) in Hz as (q & Hq & Hin & _). rewrite Ho in Hq. injection Hq as <-.
  unfold children_of in Hin. simpl in Hin. rewrite Hc in Hin. by apply not_elem_of_nil in Hin.
Qed.

(** Its owner and parents *)
Lemma adopt_ok check fuel d x o who ps :
  db_ok d -> object_of d x = Some o -> children o = [] -> parents_wf d ps -> x ∉ enlist ps -> (walk_fuel d <= fuel)%nat ->
  exists d1 b d2, db_set_object_owner x who d = Some (tt, d1) /\ edited d d1 (at_one x (with_owner who)) /\ db_ok d1 /\
    db_change_parents check fuel (VObj x) ps [] d1 = Some (b, d2) /\ db_ok d2 /\ (b = false <-> change_refused check d1 x ps) /\
    if b : bool then edits d1 d2 (relinked x (parents o) ps) else d2 = d1.
Proof.
  intros Hok Ho Hc Hps Hx Hf. pose proof (ok_table d Hok) as Hti.
  destruct (edit_edited d x (with_owner who) Hti) as (d1 & E1 & Hed1); [by eapply object_valid|].
  assert (db_ok d1) as Hok1 by (eapply edited_ok; [done|apply with_owner_links|done]).
  assert (object_of d1 x = Some (with_owner who o)) as Ho1.
  { rewrite (ed_of _ _ _ Hed1), Ho. simpl. unfold at_one. by rewrite decide_True. }
  destruct (db_change_parents_ok check fuel d1 x (with_owner who o) ps) as (b & d2 & E2 & Hok2 & Hd2);
    [done|done| | |unfold walk_fuel in *; by rewrite (ed_objects _ _ _ Hed1)|].
  - unfold parents_wf in *. destruct ps; [by rewrite (edited_valid _ _ _ _ Hed1)|].
    eapply Forall_impl; [exact Hps|]. intros p. by rewrite (edited_valid _ _ _ _ Hed1).
  - intros p Hp _. eapply childless_avoids; [done|done|done|]. intros ->. done.
  - pose proof (change_refused_ok _ _ _ _ _ _ _ (ok_table d1 Hok1) E2). exists d1, b, d2. split_and!; done.
Qed.

(** Undoing a creation: the number is free again, and perhaps one more *)
Lemma uncreate_ok fuel d x o :
  db_ok d -> object_of d x = Some o -> barren o -> num_objects d = x + 1 -> 0 < x -> (3 <= fuel)%nat ->
  exists d1 d2, db_destroy_object x d = Some (tt, d1) /\ db_set_last_used_objid fuel (x - 1) d1 = Some (tt, d2) /\ db_ok d2 /\
    (forall y, object_of d2 y = if decide (y = x) then None else object_of d y) /\ x - 1 <= num_objects d2 <= x /\
    (valid d2 (x - 1) = true -> num_objects d2 = x).
Proof.
  intros Hok Ho Hb Hn Hx Hf. destruct (db_destroy_object_ok d x o Hok Ho Hb) as (d1 & E1 & Hok1 & Hobj & Hnum & _ & _ & Hof).
  destruct (db_set_last_used_objid_ok fuel d1 (x - 1) Hok1) as (n & E2 & Hok2 & Hr & Hl); [lia|lia|].
  exists d1, (with_num n d1). split; [done|]. split; [done|]. split; [done|]. split; [exact Hof|]. simpl.
  assert (objects d1 !! x = None) as Hx1 by (by rewrite Hobj, lookup_delete_eq).
  assert (n <= x) as Hnx.
  { destruct Hl as [Hl|Hl]; [lia|]. destruct (decide (n = x + 1)) as [->|]; [|lia].
    replace (x + 1 - 1) with x in Hl by lia. rewrite Hx1 in Hl. by destruct Hl. }
  split; [lia|]. intros Hv. rewrite (valid_objects _ _ (ok_table _ Hok2)) in Hv. apply bool_decide_eq_true in Hv.
  apply (ti_range _ (ok_table _ Hok2)) in Hv. simpl in Hv. lia.
Qed.

(** A number that is free in [d] *)
Lemma free_not_in d x ps : table_inv d -> objects d !! x = None -> 0 <= x -> parents_wf d ps -> x ∉ enlist ps.
Proof.
  intros Hti Hx H0 Hps Hin. assert (valid d x = false) as Hvx by (rewrite valid_objects by done; by rewrite Hx).
  destruct ps as [p|qs]; simpl in *.
  - apply list_elem_of_singleton in Hin as <-. unfold NOTHING in *. destruct Hps; [lia|congruence].
  - rewrite Forall_forall in Hps. apply Hps in Hin. congruence.
Qed.

Lemma relinked_created x who ps :
  0 <= x -> x ∉ enlist ps -> relinked x (inl NOTHING) ps x (with_owner who (newborn x)) = created x who ps.
Proof.
  intros H0 Hx. unfold relinked, at_one, at_all, created. simpl. rewrite decide_True by done.
  rewrite (decide_False (P := x ∈ enlist ps)) by done. rewrite decide_False; [done|].
  intros Hin%list_elem_of_singleton. unfold NOTHING in Hin. lia.
Qed.

(** Creation with an owner and parents: what [create] and [recreate] share *)
Definition conceived (d d1 : db) (x owner : Z) : Prop :=
  db_ok d1 /\ anonymous_objects d1 = anonymous_objects d /\
  forall z, object_of d1 z = if decide (z = x) then Some (created x owner (inl NOTHING)) else object_of d z.

Lemma conceived_valid d d1 x who y : db_ok d -> conceived d d1 x who -> valid d1 y = bool_decide (y = x) || valid d y.
Proof.
  intros Hok (Hok1 & _ & Hof). apply eq_bool_prop_intro. rewrite orb_True, bool_decide_spec, !Is_true_true.
  assert (forall d, db_ok d -> valid d y = true <-> is_Some (object_of d y)) as Hv.
  { clear. intros d Hok. split; [intros [o Ho]%(valid_object d y (ti_table d (ok_table d Hok))); by exists o|].
    intros [o Ho]. by eapply object_valid. }
  rewrite !Hv by done. rewrite Hof. case_decide; [|tauto]. split; [by left|]. intros _. by eexists.
Qed.
Lemma conceived_fuel d d1 x who : db_ok d -> conceived d d1 x who -> (walk_fuel d1 <= walk_fuel d + 1)%nat.
Proof.
  intros Hok Hc. unfold walk_fuel. pose proof Hc as (Hok1 & _).
  assert (dom (objects d1) ⊆ {[x]} ∪ dom (objects d)) as Hs.
  { intros y. rewrite elem_of_union, elem_of_singleton, !elem_of_dom. intros Hy.
    assert (valid d1 y = true) as Hv by (rewrite valid_objects by apply Hok1; by apply bool_decide_eq_true).
    rewrite (conceived_valid d d1 x who y Hok Hc) in Hv. apply orb_true_iff in Hv as [->%bool_decide_eq_true|Hv]; [by left|right].
    rewrite valid_objects in Hv by apply Hok. by apply bool_decide_eq_true in Hv. }
  apply subseteq_size in Hs. pose proof (size_union_alt {[x]} (dom (objects d))). rewrite size_singleton in H.
  assert (size (dom (objects d) ∖ {[x]}) <= size (dom (objects d)))%nat by (apply subseteq_size; set_solver). lia.
Qed.

Lemma conceive_ok check fuel d n who ps :
  db_ok d -> num_objects d + 1 < 2 ^ 30 -> objects d !! new_number d n = None -> parents_wf d ps -> (walk_fuel d + 1 <= fuel)%nat ->
  let x := new_number d n in let owner := if valid d who then who else x in
  exists d0 d1 b d2, db_create_object n d = Some (x, d0) /\ (if negb (valid d0 who) then x else who) = owner /\
    db_set_object_owner x owner d0 = Some (tt, d1) /\ is_Some (dbpriv_find_object d1 x) /\
    db_change_parents check fuel (VObj x) ps [] d1 = Some (b, d2) /\ db_ok d2 /\
    num_objects d2 = Z.max (num_objects d) (x + 1) /\ conceived d d1 x owner /\ (b = false <-> change_refused check d1 x ps) /\
    if b : bool then object_of d2 x = Some (created x owner ps) /\
      forall z, z <> x -> object_of d2 z = relinked x (inl NOTHING) ps z <$> object_of d z
    else object_of d2 x = Some (with_owner owner (newborn x)) /\ forall z, z <> x -> object_of d2 z = object_of d z.
Proof.
  intros Hok Hn Hx Hps Hf x who'. pose proof (ok_table d Hok) as Hti. pose proof (ti_max d Hti) as Hm.
  assert (0 <= x) as H0 by (unfold x, new_number; case_match; lia).
  destruct (db_create_object_ok d n Hok Hn Hx) as (l & d0 & E0 & Hok0 & _ & Hobj & Hanon & Hnum & Hof). fold x in Hobj, Hnum, Hof, Hx.
  assert (object_of d0 x = Some (newborn x)) as Ho0 by (by rewrite Hof, decide_True).
  assert (forall z, valid d0 z = if decide (z = x) then true else valid d z) as Hval.
  { intros z. rewrite valid_objects, Hobj by apply Hok0. case_decide as Hz.
    - rewrite Hz, lookup_insert_eq. by apply bool_decide_eq_true.
    - rewrite lookup_insert_ne by done. by rewrite valid_objects. }
  assert (valid d x = false) as Hvx by (rewrite valid_objects by done; by rewrite Hx).
  assert (x ∉ enlist ps) as Hxps by (by eapply free_not_in).
  assert (parents_wf d0 ps) as Hps0.
  { unfold parents_wf in *. destruct ps as [p|qs]; [rewrite Hval; case_decide; [by right|done]|].
    eapply Forall_impl; [exact Hps|]. intros q Hq. rewrite Hval. by case_decide. }
  assert (walk_fuel d0 <= fuel)%nat as Hf0.
  { unfold walk_fuel in *. rewrite Hobj, dom_insert_L, size_union, size_singleton; [lia|].
    apply disjoint_singleton_l. by apply not_elem_of_dom. }
  destruct (adopt_ok check fuel d0 x (newborn x) who' ps Hok0 Ho0) as (d1 & b & d2 & E1 & Hed1 & Hok1 & E2 & Hok2 & Hb & Hd2); [done..|].
  exists d0, d1, b, d2. split; [done|]. split.
  { rewrite Hval. unfold who'. case_decide as Hw; [|by destruct (valid d who)]. by rewrite Hw, Hvx. }
  split; [done|]. split; [rewrite (edited_find _ _ _ _ Hed1); apply object_slot in Ho0 as (l0 & H & _); by eexists|].
  split; [done|]. split; [done|].
  assert (forall z, object_of d1 z = if decide (z = x) then Some (with_owner who' (newborn x)) else object_of d z) as Hof1.
  { intros z. rewrite (ed_of _ _ _ Hed1), Hof. case_decide as Hz; [by rewrite Hz; simpl; unfold at_one; rewrite decide_True|].
    destruct (object_of d z); [|done]. simpl. unfold at_one. by rewrite decide_False. }
  assert (conceived d d1 x who') as Hcd by (split; [done|split; [by rewrite (ed_anons _ _ _ Hed1)|exact Hof1]]).
  pose proof (ed_num _ _ _ Hed1) as Hn1. destruct b.
  - pose proof (ed_num _ _ _ Hd2) as Hn2. simpl in Hn2. split; [congruence|]. split; [done|]. split; [done|]. split.
    + rewrite (edits_of _ _ _ x Hd2), Hof1, decide_True by done. simpl. f_equal. by apply relinked_created.
    + intros z Hz. by rewrite (edits_of _ _ _ z Hd2), Hof1, decide_False.
  - subst d2. split; [congruence|]. split; [done|]. split; [done|]. split; [by rewrite Hof1, decide_True|]. intros z Hz. by rewrite Hof1, decide_False.
Qed.

Lemma create_object_ok check fuel d ps who :
  db_ok d -> 0 < num_objects d -> num_objects d + 1 < 2 ^ 30 -> parents_wf d ps -> (walk_fuel d + 3 <= fuel)%nat ->
  let x := num_objects d in let owner := if valid d who then who else x in
  exists r d' d1, create_object check fuel ps who false d = Some (r, d') /\ db_ok d' /\ conceived d d1 x owner /\
    (r = None <-> change_refused check d1 x ps) /\
    match r with
    | Some (y, v) => y = x /\ v = VObj x /\ num_objects d' = x + 1 /\ object_of d' x = Some (created x owner ps) /\
        forall z, z <> x -> object_of d' z = relinked x (inl NOTHING) ps z <$> object_of d z
    | None => (forall z, object_of d' z = object_of d z) /\ x - 1 <= num_objects d' <= x /\
        (valid d (x - 1) = true -> num_objects d' = x)
    end.
Proof.
  intros Hok Hn0 Hn Hps Hf x who'. pose proof (ok_table d Hok) as Hti.
  assert (new_number d (-1) = x) as Hnew by done.
  assert (objects d !! x = None) as Hx.
  { destruct (objects d !! x) eqn:E; [|done]. assert (is_Some (objects d !! x)) as H%(ti_range d Hti) by (by eexists).
    unfold x in H. lia. }
  destruct (conceive_ok check fuel d (-1) who ps Hok Hn) as (d0 & d1 & b & d2 & E0 & Hwho & E1 & [l1 Hl1] & E2 & Hok2 & Hnum & Hcd & Href & Hb);
    [by rewrite Hnew|done|lia|]. rewrite Hnew in *. fold who' in Hwho, E1, Hcd, Hb. rewrite Z.max_r in Hnum by (unfold x; lia).
  unfold create_object. erewrite mbind_Some by exact E0. cbv beta. rewrite Hwho.
  erewrite mbind_Some by exact E1. erewrite mbind_Some by (by apply slot_eq). cbv beta zeta.
  erewrite mbind_Some by exact E2. cbv beta. destruct b; cbn [negb].
  - exists (Some (x, VObj x)), d2, d1. destruct Hb. rewrite <- Href. by split_and!.
  - destruct Hb as [Hb1 Hb2].
    destruct (uncreate_ok fuel d2 x _ Hok2 Hb1) as (d3 & d4 & E3 & E4 & Hok3 & Hof3 & Hn3 & Hl3); [done|done|done|lia|].
    assert (forall z, object_of d4 z = object_of d z) as Hsame.
    { intros z. rewrite Hof3. case_decide as Hz; [|by apply Hb2]. rewrite Hz. unfold object_of. by rewrite find_objects, Hx. }
    exists None, d4, d1. rewrite <- Href. split; [by erewrite mbind_Some by exact E3; change (db_last_used_objid d) with (x - 1);
      erewrite mbind_Some by exact E4|].
    split; [done|]. split; [done|]. split; [done|]. split; [done|]. split; [lia|]. intros Hv. apply Hl3.
    destruct (valid_object d (x - 1) (ti_table d Hti) Hv) as [o Ho]. rewrite <- Hsame in Ho. by eapply object_valid.
Qed.

(** ** [create] *)

Definition create_error (d : db) (who progr f : Z) (ps : Z + list Z) : option error :=
  if (negb (valid d who) && negb (who =? NOTHING)) || parents_invalid d ps then Some E_INVARG
  else if (negb (progr =? who) && negb (is_wizard d progr)) || negb (allowed_parents d progr f ps) then Some E_PERM
  else None.

(** How the verb call [initialize] ends *)
Definition started (r : Var) (o : outcome) : Prop :=
  o = Done (PVar r) \/ o = Call 2 \/ o = Done (PError E_MAXREC).

(** [d'] is [d] with the new object [x]. *)
Record gained (d d' : db) (x owner : Z) (ps : Z + list Z) : Prop := {
  gn_new : object_of d' x = Some (created x owner ps);
  gn_num : num_objects d' = Z.max (num_objects d) (x + 1);
  gn_others : forall z, z <> x -> object_of d' z = relinked x (inl NOTHING) ps z <$> object_of d z }.

Section verbs.
Context (check : db -> Var -> Z + list Z -> list Var -> bool) (call_verb : db -> Z -> bytes -> list Var -> error).

Lemma initialize_ok d x args r :
  exists o, call_or call_verb x (str "initialize") args 2 is_maxrec (mreturn (Done (PVar r))) d = Some (o, d) /\ started r o.
Proof.
  destruct (call_or_cases call_verb d x (str "initialize") args 2 is_maxrec (mreturn (Done (PVar r))))
    as [(e & He & ->)|[-> | ->]]; [|by exists (Call 2); split; [|right; left]|by eexists; split; [|left]].
  apply bool_decide_eq_true in He as ->. by eexists; split; [|right; right].
Qed.

Lemma bf_create_ok fuel d parent args who anon init data progr :
  db_ok d -> 0 < num_objects d -> num_objects d + 1 < 2 ^ 30 -> (walk_fuel d + 3 <= fuel)%nat ->
  is_obj_or_list_of_objs parent = true -> create_args args progr = Some (who, anon, init) -> is_anonymous anon = false ->
  let run := bf_create check call_verb fuel parent args 1 data progr d in
  let x := num_objects d in
  match create_error d who progr FLAG_FERTILE (objids parent) with
  | Some e => run = Some ((VNone, Done (PError e)), d)
  | None => exists r o d' d1, run = Some ((r, o), d') /\ db_ok d' /\ conceived d d1 x (if valid d who then who else x) /\
      ((change_refused check d1 x (objids parent) /\ r = VNone /\ o = Done (PError E_INVARG) /\
        (forall z, object_of d' z = object_of d z) /\ x - 1 <= num_objects d' <= x) \/
       (~ change_refused check d1 x (objids parent) /\ r = VObj x /\ started r o /\
        gained d d' x (if valid d who then who else x) (objids parent)))
  end.
Proof.
  intros Hok Hn0 Hn Hf Hpar Hargs Hanon run x. subst run. pose proof (ok_table d Hok) as Hti.
  unfold bf_create, create_error. cbn [negb Z.eqb]. rewrite Hpar. cbn [negb]. rewrite Hargs, Hanon. cbn [andb orb].
  change (negb (1 =? 1)) with false. cbv iota.
  destruct ((negb (valid d who) && negb (who =? NOTHING)) || parents_invalid d (objids parent)) eqn:E; [done|].
  apply orb_false_iff in E as [_ Hp]. apply parents_invalid_wf in Hp as Hwf.
  destruct (negb (progr =? who) && negb (is_wizard d progr)); cbn [orb]; [done|].
  erewrite mbind_Some by (by apply parents_allow_eq). cbv beta.
  destruct (allowed_parents d progr FLAG_FERTILE (objids parent)); cbn [negb]; [|done].
  destruct (create_object_ok check fuel d (objids parent) who Hok Hn0 Hn Hwf Hf) as (r & d' & d1 & E & Hok' & Hcd & Href & Hr).
  erewrite mbind_Some by exact E. cbv beta. fold x in Href. destruct r as [[y v]|].
  - destruct Hr as (-> & -> & Hnum & Hnew & Hoth). cbv beta.
    destruct (initialize_ok d' (num_objects d) match init with Some (VList l) => l | _ => [] end (VObj (num_objects d))) as (o & Eo & Ho).
    erewrite mbind_Some by exact Eo. exists (VObj x), o, d', d1. rewrite <- Href. split; [done|]. split; [done|]. split; [done|]. right.
    split; [done|]. split; [done|]. split; [done|]. split; [done| |done]. rewrite Hnum. unfold x. lia.
  - destruct Hr as (Hsame & Hnum & _). exists VNone, (Done (PError E_INVARG)), d', d1. rewrite <- Href. split; [done|]. split; [done|]. split; [done|].
    by left.
Qed.

(** [recreate] with a parent that is valid or [NOTHING]: it is not tested *)
Lemma bf_recreate_ok fuel d old parent who data progr :
  db_ok d -> num_objects d + 1 < 2 ^ 30 -> (walk_fuel d + 1 <= fuel)%nat -> parents_wf d (inl parent) ->
  let run := bf_recreate check call_verb fuel old parent who 1 data progr d in
  let owner := match who with Some o => if valid d o then o else progr | None => progr end in
  if (old <=? 0) || (db_last_used_objid d <? old) || valid d old then run = Some ((VNone, Done (PError E_INVARG)), d)
  else if (negb (progr =? owner) && negb (is_wizard d progr)) || negb (allowed_parents d progr FLAG_FERTILE (inl parent))
  then run = Some ((VNone, Done (PError E_PERM)), d)
  else exists r o d', run = Some ((r, o), d') /\ db_ok d' /\
    ((o = Done (PError E_INVARG) /\ (forall z, object_of d' z = object_of d z) /\ num_objects d' = num_objects d) \/
     (r = VObj old /\ started r o /\ gained d d' old (if valid d owner then owner else old) (inl parent))).
Proof.
  intros Hok Hn Hf Hwf run owner. subst run. pose proof (ok_table d Hok) as Hti. unfold bf_recreate.
  change (negb (1 =? 1)) with false. cbv iota zeta. fold owner.
  destruct ((old <=? 0) || (db_last_used_objid d <? old) || valid d old) eqn:E; [done|].
  apply orb_false_iff in E as [[H1%Z.leb_gt H2%Z.ltb_ge]%orb_false_iff Hv]. unfold db_last_used_objid in H2.
  destruct (negb (progr =? owner) && negb (is_wizard d progr)); cbn [orb]; [done|].
  apply parents_invalid_wf in Hwf as Hp. erewrite mbind_Some by (by apply parents_allow_eq). cbv beta.
  destruct (allowed_parents d progr FLAG_FERTILE (inl parent)); cbn [negb]; [|done].
  assert (new_number d old = old) as Hold.
  { unfold new_number. by rewrite (proj2 (Z.leb_gt _ _) H1), (proj2 (Z.leb_gt _ _)) by lia. }
  assert (objects d !! old = None) as Hx.
  { rewrite valid_objects in Hv by done. apply bool_decide_eq_false in Hv. by apply eq_None_not_Some. }
  destruct (conceive_ok check fuel d old owner (inl parent) Hok Hn) as (d0 & d1 & b & d2 & E0 & Hwho & E1 & _ & E2 & Hok2 & Hnum & _ & _ & Hb);
    [by rewrite Hold|done|done|]. rewrite Hold in *.
  erewrite mbind_Some by exact E0. cbv beta. rewrite Hwho. erewrite mbind_Some by exact E1.
  erewrite mbind_Some by exact E2. cbv beta. destruct b; cbn [negb]; destruct Hb as [Hb1 Hb2].
  - destruct (initialize_ok d2 old [] (VObj old)) as (o & Eo & Ho). erewrite mbind_Some by exact Eo.
    exists (VObj old), o, d2. split; [done|]. split; [done|]. right. split; [done|]. split; [done|]. by split.
  - destruct (db_destroy_object_ok d2 old _ Hok2 Hb1) as (d3 & E3 & Hok3 & _ & Hnum3 & _ & _ & Hof3); [done|].
    erewrite mbind_Some by exact E3. exists VNone, (Done (PError E_INVARG)), d3. split; [done|]. split; [done|]. left.
    split; [done|]. split; [|lia]. intros z. rewrite Hof3. case_decide as Hz; [|by apply Hb2]. rewrite Hz. unfold object_of.
    by rewrite find_objects, Hx.
Qed.
End verbs.

(** ** [recreate] with a parent that does not exist

    The change of parents is refused, or stops at the table's null entry. *)
Lemma change_parents_nowhere check fuel d x o p b d' :
  db_ok d -> object_of d x = Some o -> parents o = inl NOTHING -> (walk_fuel d <= fuel)%nat -> p <> NOTHING -> valid d p = false ->
  db_change_parents check fuel (VObj x) (inl p) [] d = Some (b, d') -> b = false /\ d' = d.
Proof.
  intros Hok Ho Hno Hf Hp Hv. pose proof (ok_table d Hok) as Hti. unfold db_change_parents. cbn [check_for_duplicates negb].
  destruct (check_children_ok x (anon_children d x) d) as (b' & Hb & _); [intros l; by apply anon_children_live|].
  change (elements _) with (anon_children d x). erewrite mbind_Some by exact Hb. cbv beta.
  destruct b'; cbn [negb]; [|by intros [= <- <-]]. destruct (check d _ _ _); cbn [negb]; [|by intros [= <- <-]].
  destruct (object_slot d x o Ho) as (l & Hl & Hh). erewrite mbind_Some by (by apply slot_eq). cbv beta.
  erewrite mbind_Some by (by apply load_eq). cbv beta zeta.
  destruct (db_ancestors_ok fuel d x o true Hti (ok_cache d Hok) Ho Hf) as (anc & c & _ & _ & E1).
  erewrite mbind_Some by exact E1. rewrite Hno. intros E. exfalso. apply mbind_inv in E as (? & d1 & E & _).
  rewrite mbind_Some with (x := tt) (s' := with_cache c d) in E by done.
  unfold for_parents in E. rewrite (proj2 (Z.eqb_neq _ _) Hp) in E. unfold add_child, edit in E.
  apply mbind_inv in E as (? & ? & E & _). unfold slot in E. change (dbpriv_find_object (with_cache c d) p) with (dbpriv_find_object d p) in E.
  unfold valid in Hv. apply bool_decide_eq_false in Hv. destruct (dbpriv_find_object d p); [|done]. by destruct Hv.
Qed.

Lemma change_never fuel d x p :
  table_inv d -> db_change_parents (fun _ _ _ _ => false) fuel (VObj x) (inl p) [] d = Some (false, d).
Proof.
  intros Hti. unfold db_change_parents. cbn [check_for_duplicates negb].
  destruct (check_children_ok x (anon_children d x) d) as (b & Hb & _); [intros l; by apply anon_children_live|].
  change (elements _) with (anon_children d x). erewrite mbind_Some by exact Hb. by destruct b.
Qed.

(** So a call that answers does what a call refused with no parent does. *)
Lemma bf_recreate_nowhere check call_verb fuel d old parent who data progr r d' :
  db_ok d -> num_objects d + 1 < 2 ^ 30 -> (walk_fuel d + 1 <= fuel)%nat ->
  parent <> old -> parent <> NOTHING -> valid d parent = false ->
  bf_recreate check call_verb fuel old parent who 1 data progr d = Some (r, d') ->
  bf_recreate (fun _ _ _ _ => false) call_verb fuel old NOTHING who 1 data progr d = Some (r, d').
Proof.
  intros Hok Hn Hf Hne Hnn Hv. pose proof (ok_table d Hok) as Hti. unfold bf_recreate.
  change (negb (1 =? 1)) with false. cbv iota zeta.
  destruct ((old <=? 0) || (db_last_used_objid d <? old) || valid d old) eqn:E; [done|].
  apply orb_false_iff in E as [[H1%Z.leb_gt H2%Z.ltb_ge]%orb_false_iff Hvo]. unfold db_last_used_objid in H2.
  set (owner := match who with Some o => if valid d o then o else progr | None => progr end).
  destruct (negb (progr =? owner) && negb (is_wizard d progr)); [done|].
  assert (forall p, valid d p = false -> parents_allow (inl p) progr FLAG_FERTILE d = Some (true, d)) as Hallow.
  { intros p Hp. unfold parents_allow. by rewrite Hp. }
  erewrite !mbind_Some by (apply Hallow; first [done|by apply nothing_invalid]). cbn [negb].
  assert (new_number d old = old) as Hold.
  { unfold new_number. by rewrite (proj2 (Z.leb_gt _ _) H1), (proj2 (Z.leb_gt _ _)) by lia. }
  assert (objects d !! old = None) as Hx.
  { rewrite valid_objects in Hvo by done. apply bool_decide_eq_false in Hvo. by apply eq_None_not_Some. }
  destruct (conceive_ok (fun _ _ _ _ => false) fuel d old owner (inl NOTHING) Hok Hn)
    as (d0 & d1 & b & d2 & E0 & Hwho & E1 & _ & _ & _ & _ & Hcd' & _ & _); [by rewrite Hold|by left|done|].
  rewrite Hold in *. pose proof Hcd' as (Hok1 & _ & Hcd). erewrite !mbind_Some by exact E0. cbv beta. rewrite Hwho. erewrite !mbind_Some by exact E1.
  erewrite (mbind_Some (db_create_object old)) by exact E0. cbv beta. rewrite Hwho.
  erewrite (mbind_Some (db_set_object_owner _ _)) by exact E1.
  erewrite (mbind_Some (db_change_parents (fun _ _ _ _ => false) _ _ _ _)) by (apply change_never, Hok1).
  cbv beta. intros Er. apply mbind_inv in Er as (b' & d2' & E2 & Er).
  pose proof (Hcd old) as Ho1. rewrite decide_True in Ho1 by done.
  destruct (change_parents_nowhere check fuel d1 old _ parent b' d2' Hok1 Ho1) as [-> ->]; [done| |done| |exact E2|exact Er].
  - pose proof (conceived_fuel d d1 _ _ Hok Hcd'). lia.
  - rewrite (conceived_valid d d1 _ _ _ Hok Hcd'), Hv. by rewrite bool_decide_eq_false_2.
Qed.

(** [recreate] with any parent but the object itself: when it answers, the
    table is well-formed. *)
Lemma bf_recreate_keeps check call_verb fuel d old parent who data progr r d' :
  db_ok d -> num_objects d + 1 < 2 ^ 30 -> (walk_fuel d + 1 <= fuel)%nat -> parent <> old ->
  bf_recreate check call_verb fuel old parent who 1 data progr d = Some (r, d') -> db_ok d'.
Proof.
  intros Hok Hn Hf Hne E.
  assert (forall check p, parents_wf d (inl p) ->
    bf_recreate check call_verb fuel old p who 1 data progr d = Some (r, d') -> db_ok d') as Hwf.
  { clear E. intros check' p Hp E. pose proof (bf_recreate_ok check' call_verb fuel d old p who data progr Hok Hn Hf Hp) as H.
    cbv zeta in H. destruct (_ || valid d old); [congruence|]. destruct (_ || negb (allowed_parents _ _ _ _)); [congruence|].
    destruct H as (a & o & d2 & E2 & Hok2 & _). congruence. }
  destruct (decide (parent = NOTHING)) as [->|Hnn]; [by apply (Hwf check NOTHING); [left|]|].
  destruct (valid d parent) eqn:Hv; [by apply (Hwf check parent); [right|]|].
  apply (Hwf (fun _ _ _ _ => false) NOTHING); [by left|]. by apply (bf_recreate_nowhere check _ _ _ _ parent).
Qed.
