(* ===== verification/ObjRecycle.v ===== *)
(** * [recycle] keeps the invariant

    The object loses its contents, its location and its children, which
    inherit its parents; then nothing refers to it. *)
From Stdlib Require Import ZArith Lia.
From stdpp Require Import prelude gmap relations strings.
From S2P Require Import Prelude CString Value ObjCode ObjGraph ObjParents ObjChange ObjLife ObjFun ObjTask ObjRun ObjMake.

Local Open Scope Z_scope.
Local Open Scope moo_scope.

(** ** Only the places change *)

Record rearranged (d d' : db) : Prop := {
  ra_objects : objects d' = objects d;
  ra_num : num_objects d' = num_objects d;
  ra_anons : anonymous_objects d' = anonymous_objects d;
  ra_of : forall x o', object_of d' x = Some o' ->
    exists o, object_of d x = Some o /\ parents o' = parents o /\ children o' = children o /\ owner o' = owner o;
  ra_alive : forall x, is_Some (object_of d x) -> is_Some (object_of d' x) }.

Lemma rearranged_refl d : rearranged d d.
Proof. split; eauto. Qed.
Lemma rearranged_trans d1 d2 d3 : rearranged d1 d2 -> rearranged d2 d3 -> rearranged d1 d3.
Proof.
  intros [] []. split; try congruence; [|auto]. intros x o3 (o2 & (o1 & Ho1 & E1 & E2 & E3)%ra_of0 & E4 & E5 & E6)%ra_of1.
  exists o1. split_and!; congruence.
Qed.

Lemma moved_owner oid old new pos x o : owner (moved oid old new pos x o) = owner o.
Proof. unfold moved, at_one. repeat case_decide; done. Qed.
Lemma moved_rearranged d d' oid old new pos : edited d d' (moved oid old new pos) -> rearranged d d'.
Proof.
  intros Hed. pose proof Hed as []. split; try done; intros x.
  - intros o'. rewrite ed_of. destruct (object_of d x) as [o|]; [|done]. intros [= <-]. exists o.
    by rewrite moved_parents, moved_children, moved_owner.
  - rewrite ed_of. intros [o ->]. by eexists.
Qed.

(** ** The parents of a child without [oid] *)

Lemma elem_of_setadds l : forall acc x, x ∈ foldl obj_setadd acc l <-> x ∈ acc \/ x ∈ l.
Proof.
  induction l as [|y l IH]; intros acc x; simpl; [set_solver|]. rewrite IH, elem_of_setadd. set_solver.
Qed.
Lemma NoDup_setadds l : forall acc, NoDup acc -> NoDup (foldl obj_setadd acc l).
Proof. induction l as [|y l IH]; intros acc H; [done|]. by apply IH, NoDup_setadd. Qed.

(** How often [x] occurs *)
Definition occ (x : Z) (l : list Z) : nat := length (filter (fun y => y = x) l).
Lemma occ_cons x y l : occ x (y :: l) = ((if decide (y = x) then 1 else 0) + occ x l)%nat.
Proof. unfold occ. rewrite filter_cons. by case_decide. Qed.
Lemma occ_pos x l : x ∈ l -> (0 < occ x l)%nat.
Proof.
  induction l as [|y l IH]; [by intros ?%not_elem_of_nil|]. rewrite occ_cons. intros [<-|Hx]%elem_of_cons.
  - rewrite decide_True by done. lia.
  - specialize (IH Hx). lia.
Qed.
Lemma occ_zero x l : x ∉ l -> occ x l = 0%nat.
Proof.
  induction l as [|y l IH]; [done|]. rewrite occ_cons. intros [H1 H2]%not_elem_of_cons. rewrite decide_False by done. by apply IH.
Qed.
Lemma occ_nodup x l : NoDup l -> (occ x l <= 1)%nat.
Proof.
  induction 1 as [|y l Hy Hl IH]; [cbn; lia|]. rewrite occ_cons. case_decide as Hx; [|lia].
  rewrite Hx in Hy. rewrite occ_zero by done. lia.
Qed.

Lemma until_oid_elem oid cp x : x ∈ until_oid oid cp -> x ∈ cp /\ x <> oid.
Proof.
  induction cp as [|y cp IH]; simpl; [by intros ?%not_elem_of_nil|]. destruct (Z.eqb_spec y oid) as [->|Hy]; [by intros ?%not_elem_of_nil|].
  intros [->|[H1 H2]%IH]%elem_of_cons; (split; [|done]); [by left|by right].
Qed.
Lemma after_oid_elem oid cp x : x ∈ after_oid oid cp -> x ∈ cp.
Proof.
  induction cp as [|y cp IH]; simpl; [done|]. destruct (Z.eqb_spec y oid) as [->|Hy]; [by right|]. intros H%IH. by right.
Qed.
Lemma after_oid_occ oid cp : oid ∈ after_oid oid cp -> (2 <= occ oid cp)%nat.
Proof.
  induction cp as [|y cp IH]; simpl; [by intros ?%not_elem_of_nil|]. rewrite occ_cons. destruct (Z.eqb_spec y oid) as [->|Hy].
  - intros H%occ_pos. rewrite decide_True by done. lia.
  - intros H%IH. lia.
Qed.

Definition inherited (d : db) (op : Z + list Z) : list Z :=
  match op with inl p => if valid d p then [p] else [] | inr l => l end.
Lemma without_oid_elem d oid cp op x :
  x ∈ without_oid d oid cp op -> x ∈ cp \/ x ∈ inherited d op.
Proof.
  unfold without_oid. fold (inherited d op). rewrite elem_of_setadds, !elem_of_app.
  intros [?%not_elem_of_nil|[[H _]%until_oid_elem|[H|H%after_oid_elem]]]; auto; done.
Qed.
Lemma without_oid_occ d oid cp op :
  oid ∉ inherited d op -> oid ∈ cp -> (occ oid (without_oid d oid cp op) < occ oid cp)%nat.
Proof.
  intros Hop Hin. destruct (decide (oid ∈ without_oid d oid cp op)) as [Hw|Hw]; [|rewrite (occ_zero _ _ Hw); by apply occ_pos].
  assert (occ oid (without_oid d oid cp op) <= 1)%nat by (apply occ_nodup, NoDup_setadds; constructor).
  unfold without_oid in Hw. fold (inherited d op) in Hw. rewrite elem_of_setadds, !elem_of_app in Hw.
  destruct Hw as [?%not_elem_of_nil|[[_ ?]%until_oid_elem|[H1|H1%after_oid_occ]]]; try done. lia.
Qed.

(** The parents that [recycle] gives to a child *)
Definition heirs (d : db) (oid : Z) (cp op : Z + list Z) : Z + list Z :=
  match cp with inl _ => op | inr cp => inr (without_oid d oid cp op) end.

Section heirs.
Context (d : db) (oid c : Z) (o p : Object).
Hypothesis Hok : db_ok d.
Hypothesis Ho : object_of d oid = Some o.
Hypothesis Hp : object_of d c = Some p.
Hypothesis Hc : oid ∈ enlist (parents p).

Lemma heirs_from x : x ∈ enlist (heirs d oid (parents p) (parents o)) -> valid d x = true -> tc (edge parents d) c x.
Proof.
  intros Hx Hv. assert (edge parents d c oid) as He by (exists p; split_and!; [done|done|by eapply object_valid]).
  assert (x ∈ enlist (parents o) -> tc (edge parents d) c x) as Hop.
  { intros Hin. eapply tc_r; [by apply tc_once|]. by exists o. }
  unfold heirs in Hx. destruct (parents p) as [q|cp] eqn:Ep; [by apply Hop|]. simpl in Hx.
  apply without_oid_elem in Hx as [Hx|Hx].
  - apply tc_once. exists p. by rewrite Ep.
  - apply Hop. unfold inherited in Hx. destruct (parents o); [by case_match; [|apply not_elem_of_nil in Hx]|done].
Qed.

Lemma heirs_avoid x : x ∈ enlist (heirs d oid (parents p) (parents o)) -> valid d x = true -> avoids d c x.
Proof.
  intros Hx Hv Hr. apply (acyclic_tc (edge parents d) c); [apply Hok|].
  eapply tc_rtc_r; [by apply heirs_from|done].
Qed.

Lemma heirs_wf : parents_wf d (heirs d oid (parents p) (parents o)).
Proof.
  pose proof (ok_family d Hok) as Hfm. pose proof (fm_wf _ _ _ Hfm _ _ Ho) as H1. pose proof (fm_wf _ _ _ Hfm _ _ Hp) as H2.
  unfold heirs. destruct (parents p) as [q|cp]; [done|]. simpl in *. apply Forall_forall. intros x [Hx|Hx]%without_oid_elem.
  - rewrite Forall_forall in H2. by apply H2.
  - unfold inherited in Hx. destruct (parents o) as [r|l]; simpl in *.
    + destruct (valid d r) eqn:E; [|by apply not_elem_of_nil in Hx]. by apply list_elem_of_singleton in Hx as ->.
    + rewrite Forall_forall in H1. by apply H1.
Qed.

Lemma heirs_occ : (occ oid (enlist (heirs d oid (parents p) (parents o))) < occ oid (enlist (parents p)))%nat.
Proof.
  pose proof (ok_family d Hok) as Hfm.
  assert (oid ∉ enlist (parents o)) as Hno.
  { intros Hin. apply (acyclic_tc (edge parents d) oid); [apply Hfm|]. apply tc_once. exists o.
    split_and!; [done|done|by eapply object_valid]. }
  unfold heirs. destruct (parents p) as [q|cp]; simpl in *.
  - rewrite (occ_zero _ _ Hno). by apply occ_pos.
  - apply without_oid_occ; [|done]. unfold inherited. destruct (parents o); [|done].
    simpl in Hno. case_match; [done|by apply not_elem_of_nil].
Qed.
End heirs.

Section recycle.
Context (check : db -> Var -> Z + list Z -> list Var -> bool) (call_verb : db -> Z -> bytes -> list Var -> error).

Lemma move_to_nothing_ok d x o :
  db_ok d -> object_of d x = Some o ->
  exists b d', move_to_nothing call_verb x d = Some (b, d') /\ db_ok d' /\ edited d d' (moved x (location o) NOTHING 0).
Proof.
  intros Hok Ho. pose proof (nothing_invalid d (ok_table d Hok)) as Hn.
  destruct (db_change_location_ok d x o NOTHING 0 Hok Ho) as (d' & E & Hok' & Hed); [by left|congruence|].
  unfold move_to_nothing, db_object_location. erewrite mbind_Some by (by apply field_of_eq). cbv beta.
  erewrite mbind_Some by exact E. unfold verb. erewrite mbind_Some by done. by eexists _, d'.
Qed.

(** The contents leave one by one. *)
Lemma empty_contents_ok oid fuel : forall d o,
  db_ok d -> object_of d oid = Some o -> (length (contents o) < fuel)%nat ->
  exists b d', empty_contents call_verb fuel oid d = Some (b, d') /\ db_ok d' /\ rearranged d d' /\
    (b = false -> exists o', object_of d' oid = Some o' /\ contents o' = [] /\ (location o = NOTHING -> location o' = NOTHING)).
Proof.
  induction fuel as [|fuel IH]; intros d o Hok Ho Hf; [lia|]. cbn [empty_contents]. unfold db_for_all_contents. rewrite Ho.
  destruct (contents o) as [|c cs] eqn:Ec.
  { exists false, d. split; [done|]. split; [done|]. split; [apply rearranged_refl|]. intros _. by exists o. }
  pose proof (ok_place d Hok) as Hpl. pose proof (ok_table d Hok) as Hti.
  assert (edge contents_of d oid c) as He.
  { exists o. split; [done|]. unfold contents_of. simpl. rewrite Ec. split; [by left|].
    pose proof (fm_valid _ _ _ Hpl _ _ Ho) as Hv. unfold contents_of in Hv. simpl in Hv. rewrite Ec in Hv. by apply Forall_cons in Hv as [? _]. }
  apply (fm_inverse _ _ _ Hpl) in He as (p & Hp & Hl & _). apply list_elem_of_singleton in Hl.
  destruct (Z.eqb_spec c NOTHING) as [->|Hcn]; [apply object_valid in Hp; by rewrite nothing_invalid in Hp|].
  destruct (move_to_nothing_ok d c p Hok Hp) as (b & d1 & E1 & Hok1 & Hed).
  erewrite mbind_Some by exact E1. cbv beta. pose proof (moved_rearranged _ _ _ _ _ _ Hed) as Hra. destruct b.
  { exists true, d1. by split_and!. }
  assert (object_of d1 oid = Some (moved c (location p) NOTHING 0 oid o)) as Ho1 by (by rewrite (ed_of _ _ _ Hed), Ho).
  assert (oid <> NOTHING) as Hon by (intros ->; apply object_valid in Ho; by rewrite nothing_invalid in Ho).
  destruct (moved_contents c (location p) NOTHING 0 oid o) as [q Hq].
  rewrite decide_False in Hq by done. unfold without in Hq. rewrite decide_True in Hq by done.
  rewrite Ec in Hq. simpl in Hq. rewrite Z.eqb_refl in Hq.
  destruct (IH d1 _ Hok1 Ho1) as (b & d2 & E2 & Hok2 & Hra2 & Hb); [rewrite Hq; simpl in Hf; lia|].
  exists b, d2. split; [exact E2|]. split; [done|]. split; [by eapply rearranged_trans|]. intros (o' & Ho' & Hc & Hloc)%Hb.
  exists o'. split; [done|]. split; [done|]. intros Hno. apply Hloc. rewrite moved_location. by case_decide.
Qed.

(** How often [oid] occurs among the parents of its children *)
Definition ties (d : db) (oid : Z) (kids : list Z) : nat :=
  sum_list_with (fun c => match object_of d c with Some p => occ oid (enlist (parents p)) | None => 0%nat end) kids.

Lemma sum_setremove (f : Z -> nat) l x : x ∈ l -> sum_list_with f l = (f x + sum_list_with f (obj_setremove l x))%nat.
Proof.
  induction l as [|y l IH]; [by intros ?%not_elem_of_nil|]. simpl. destruct (Z.eqb_spec y x) as [->|Hy]; [done|].
  intros [?|Hx]%elem_of_cons; [done|]. simpl. rewrite (IH Hx). lia.
Qed.
Lemma sum_setadd (f : Z -> nat) l x : x ∉ l -> sum_list_with f (obj_setadd l x) = (sum_list_with f l + f x)%nat.
Proof.
  intros Hx. unfold obj_setadd. destruct (existsb (Z.eqb x) l) eqn:E.
  - apply existsb_exists in E as (z & Hz & ->%Z.eqb_eq). by apply list_elem_of_In in Hz.
  - rewrite sum_list_with_app. simpl. lia.
Qed.

(** A child that gets its heirs is tied less. *)
Lemma ties_decrease d d' oid c o p :
  db_ok d -> object_of d oid = Some o -> object_of d c = Some p -> c ∈ children o -> oid ∈ enlist (parents p) ->
  let new := heirs d oid (parents p) (parents o) in
  edits d d' (relinked c (parents p) new) ->
  (ties d' oid (children (relinked c (parents p) new oid o)) < ties d oid (children o))%nat.
Proof.
  intros Hok Ho Hp Hc Hin new Hed. pose proof (fm_nodup _ _ _ (ok_family d Hok) _ _ Ho) as Hnd.
  change (enlist (children_of o)) with (children o) in Hnd.
  set (f := fun d c => match object_of d c with Some p => occ oid (enlist (parents p)) | None => 0%nat end).
  assert (forall z, z <> c -> f d' z = f d z) as Hsame.
  { intros z Hz. unfold f. rewrite (edits_of _ _ _ z Hed). destruct (object_of d z); [|done]. simpl.
    rewrite relinked_parents. by rewrite decide_False. }
  assert (f d' c < f d c)%nat as Hless.
  { unfold f. rewrite (edits_of _ _ _ c Hed), Hp. simpl. rewrite relinked_parents, decide_True by done. by eapply heirs_occ. }
  assert (c ∉ obj_setremove (children o) c) as Hcr by (rewrite elem_of_setremove by done; tauto).
  assert (sum_list_with (f d') (obj_setremove (children o) c) = sum_list_with (f d) (obj_setremove (children o) c)) as Hrest.
  { apply sum_list_with_ext. intros z Hz. apply Hsame. intros ->. done. }
  unfold ties. fold (f d) (f d'). rewrite relinked_children, (decide_True (P := oid ∈ enlist (parents p))) by done. cbv zeta.
  rewrite (sum_setremove (f d) (children o) c) by done. case_decide; [rewrite sum_setadd by done|]; rewrite Hrest; lia.
Qed.

Lemma child_of d oid c o :
  db_ok d -> object_of d oid = Some o -> c ∈ children o -> exists p, object_of d c = Some p /\ oid ∈ enlist (parents p).
Proof.
  intros Hok Ho Hc. pose proof (ok_family d Hok) as Hfm. pose proof (fm_valid _ _ _ Hfm _ _ Ho) as Hv.
  rewrite Forall_forall in Hv. destruct (proj2 (fm_inverse _ _ _ Hfm c oid)) as (p & Hp & Hin & _); [exists o; split_and!; auto|].
  by exists p.
Qed.

(** The children find other parents one by one. *)
Lemma reparent_children_ok walk oid fuel : forall d o,
  db_ok d -> object_of d oid = Some o -> default ∅ (anonymous_objects d !! oid) = ∅ ->
  (ties d oid (children o) < fuel)%nat -> (walk_fuel d <= walk)%nat ->
  exists b d', reparent_children check fuel walk oid d = Some (b, d') /\ db_ok d' /\ objects d' = objects d /\
    num_objects d' = num_objects d /\ anonymous_objects d' = anonymous_objects d /\
    (b = true -> object_of d' oid = Some (with_children [] o)).
Proof.
  induction fuel as [|fuel IH]; intros d o Hok Ho Han Hf Hw; [lia|]. cbn [reparent_children].
  unfold db_next_child, db_object_children2. rewrite mbind_assoc. erewrite mbind_Some by (by apply field_of_eq).
  cbv beta. erewrite mbind_Some by reflexivity. rewrite Han. destruct (children o) as [|c kids] eqn:Ek.
  { rewrite elements_empty. simpl. exists true, d. split_and!; try done. intros _. rewrite Ho.
    by destruct o; simpl in *; subst. }
  assert (c ∈ children o) as Hc by (rewrite Ek; by left). destruct (child_of d oid c o Hok Ho Hc) as (p & Hp & Hin).
  unfold db_object_parents2.
  erewrite mbind_Some by (by apply field_of_eq). erewrite mbind_Some by (by apply field_of_eq). cbv beta zeta.
  fold (heirs d oid (parents p) (parents o)). set (new := heirs d oid (parents p) (parents o)).
  destruct (db_change_parents_ok check walk d c p new Hok Hp) as (b & d1 & E1 & Hok1 & Hb); [by apply (heirs_wf d oid c o p)| |done|].
  { intros q Hq Hv. by apply (heirs_avoid d oid c o p). }
  erewrite mbind_Some by exact E1. cbv beta. destruct b; cbn [negb]; [|subst d1; by exists false, d].
  pose proof (ed_objects _ _ _ Hb) as Hobj. pose proof (ed_num _ _ _ Hb) as Hnum. pose proof (ed_anons _ _ _ Hb) as Hans.
  simpl in Hobj, Hnum, Hans.
  assert (object_of d1 oid = Some (relinked c (parents p) new oid o)) as Ho1 by (by rewrite (edits_of _ _ _ oid Hb), Ho).
  pose proof (ties_decrease d d1 oid c o p Hok Ho Hp Hc Hin Hb) as Ht. fold new in Ht. rewrite Ek in Ht.
  destruct (IH d1 _ Hok1 Ho1) as (b & d2 & E2 & Hok2 & Hobj2 & Hnum2 & Hans2 & Hb2); [by rewrite Hans|lia|unfold walk_fuel in *; by rewrite Hobj|].
  exists b, d2. split; [exact E2|]. split_and!; try done; try congruence. intros H%Hb2. rewrite H. f_equal.
  assert (oid <> c) as Hoc.
  { intros Heq. subst c. apply (acyclic_tc (edge parents d) oid); [apply Hok|]. apply tc_once. exists p.
    split_and!; [done|done|by eapply object_valid]. }
  unfold relinked, at_one, at_all, unlink, link, with_children. rewrite (decide_False (P := oid = c)) by done.
  repeat case_decide; by destruct o.
Qed.

(** ** Owners *)

Lemma foldr_alter (f : Object -> Object) ls (h : gmap loc Object) l :
  (forall o, f (f o) = f o) ->
  foldr (fun l h => alter f l h) h ls !! l = if decide (l ∈ ls) then f <$> h !! l else h !! l.
Proof.
  intros Hf. induction ls as [|m ls IH]; [by rewrite decide_False by (by apply not_elem_of_nil)|]. cbn [foldr].
  destruct (decide (l = m)) as [->|Hlm].
  - rewrite lookup_alter_eq, IH, (decide_True (P := m ∈ m :: ls)) by (by left). case_decide; [|done].
    destruct (h !! m); [|done]. simpl. by rewrite Hf.
  - rewrite lookup_alter_ne by done. rewrite IH. destruct (decide (l ∈ ls)); [rewrite decide_True by (by right)|rewrite decide_False by set_solver]; done.
Qed.

Lemma db_fixup_owners_ok d x :
  table_inv d -> exists d', db_fixup_owners x d = Some (tt, d') /\ edited d d' (fun _ => do_fixup_owners x).
Proof.
  intros Hti. unfold db_fixup_owners, modify. cbv zeta. eexists. split; [done|].
  assert (forall o, do_fixup_owners x (do_fixup_owners x o) = do_fixup_owners x o) as Hf.
  { intros o. unfold do_fixup_owners at 2 3. destruct (owner o =? x) eqn:E; unfold do_fixup_owners; simpl; [|by rewrite E].
    by case_match. }
  split; try done; simpl.
  - intros y. unfold object_of at 1. simpl. change (dbpriv_find_object (with_heap _ d) y) with (dbpriv_find_object d y).
    unfold object_of. destruct (dbpriv_find_object d y) as [l|] eqn:El; [|done]. simpl. rewrite foldr_alter by done.
    rewrite decide_True; [done|]. apply elem_of_app. left. apply list_elem_of_omap. exists y. apply find_slot in El. split; [|done].
    apply elem_of_seqZ. assert (is_Some (objects d !! y)) as H%(ti_range d Hti) by (by eexists). lia.
  - intros l. rewrite foldr_alter by done. case_decide; [|done]. by rewrite fmap_is_Some.
Qed.

Lemma fixup_links x o : same_links o (do_fixup_owners x o).
Proof. unfold do_fixup_owners. by case_match. Qed.

(** ** The function *)

Definition recycle_fuel (d : db) (oid : Z) (o : Object) : nat :=
  (walk_fuel d + length (contents o) + ties d oid (children o) + 1)%nat.

Lemma ties_rearranged d d' oid kids :
  rearranged d d' -> (forall c, c ∈ kids -> is_Some (object_of d c)) -> ties d' oid kids = ties d oid kids.
Proof.
  intros Hra Hk. apply sum_list_with_ext. intros c Hc. destruct (ra_alive _ _ Hra c (Hk c Hc)) as [o' Ho'].
  destruct (ra_of _ _ Hra c o' Ho') as (o & Ho & Hp & _). by rewrite Ho', Ho, Hp.
Qed.

(** With neither contents nor location nor children, the object goes. *)
Lemma recycle_end walk d oid o :
  (forall d obj kids, check d obj (inl NOTHING) kids = true) ->
  db_ok d -> object_of d oid = Some o -> default ∅ (anonymous_objects d !! oid) = ∅ -> (walk_fuel d <= walk)%nat ->
  contents o = [] -> location o = NOTHING -> children o = [] ->
  exists b d1 d2 d3, db_change_parents check walk (VObj oid) (inl NOTHING) [] d = Some (b, d1) /\
    db_fixup_owners oid d1 = Some (tt, d2) /\ db_destroy_object oid d2 = Some (tt, d3) /\ db_ok d3 /\
    objects d3 = delete oid (objects d) /\ num_objects d3 = num_objects d.
Proof.
  intros Hcheck Hok Ho Han Hw Hcon Hloc Hkids.
  destruct (db_change_parents_ok check walk d oid o (inl NOTHING) Hok Ho) as (b & d1 & E1 & Hok1 & Hb); [by left| |done|].
  { intros p ->%list_elem_of_singleton. by rewrite nothing_invalid by apply Hok. }
  assert (b = true) as ->.
  { unfold db_change_parents in E1. cbn [check_for_duplicates negb] in E1. rewrite Han, elements_empty in E1.
    simpl in E1. erewrite mbind_Some in E1 by done. cbn [negb] in E1. rewrite Hcheck in E1. cbn [negb] in E1.
    destruct b; [done|exfalso]. repeat (apply mbind_inv in E1 as (? & ? & _ & E1)). done. }
  set (o1 := relinked oid (parents o) (inl NOTHING) oid o).
  assert (object_of d1 oid = Some o1) as Ho1 by (by rewrite (edits_of _ _ _ oid Hb), Ho).
  destruct (db_fixup_owners_ok d1 oid (ok_table d1 Hok1)) as (d2 & E2 & Hed2).
  assert (db_ok d2) as Hok2 by (eapply edited_ok; [done|intros; apply fixup_links|done]).
  assert (object_of d2 oid = Some (do_fixup_owners oid o1)) as Ho2 by (by rewrite (ed_of _ _ _ Hed2), Ho1).
  destruct (db_destroy_object_ok d2 oid _ Hok2 Ho2) as (d3 & E3 & Hok3 & Hobj & Hnum & _).
  { destruct (fixup_links oid o1) as [_ Hp Hk Hl Hc]. unfold barren. rewrite Hp, Hk, Hl, Hc. unfold o1.
    rewrite relinked_parents, relinked_location, relinked_contents, relinked_children, decide_True by done. cbv zeta.
    split; [done|]. split; [|done].
    rewrite Hkids.
    rewrite decide_False; [by case_decide|]. intros Hin%list_elem_of_singleton.
    apply object_valid in Ho. rewrite Hin in Ho. by rewrite nothing_invalid in Ho by apply Hok. }
  exists true, d1, d2, d3. split_and!; try done.
  - rewrite Hobj, (ed_objects _ _ _ Hed2). by rewrite (ed_objects _ _ _ Hb).
  - rewrite Hnum, (ed_num _ _ _ Hed2). by rewrite (ed_num _ _ _ Hb).
Qed.

(** How a step of [recycle] may end *)
Definition recycled (d d' : db) (oid : Z) (r : outcome) : Prop :=
  (r = Call 2 /\ rearranged d d') \/ (r = Done (PError E_INVARG) /\ objects d' = objects d) \/
  (r = Done no_var_pack /\ objects d' = delete oid (objects d) /\ num_objects d' = num_objects d).

Lemma recycle_moving_ok fuel d oid o :
  (forall d obj kids, check d obj (inl NOTHING) kids = true) ->
  db_ok d -> object_of d oid = Some o -> default ∅ (anonymous_objects d !! oid) = ∅ -> (recycle_fuel d oid o <= fuel)%nat ->
  exists r d', recycle_moving check call_verb fuel (VObj oid) d = Some (r, d') /\ db_ok d' /\ recycled d d' oid r.
Proof.
  intros Hcheck Hok Ho Han Hf. unfold recycle_fuel in Hf. unfold recycle_moving. cbn [is_valid].
  erewrite mbind_Some by done. cbv beta. rewrite (object_valid _ _ _ Ho). cbn [negb].
  destruct (empty_contents_ok oid fuel d o Hok Ho) as (b & d1 & E1 & Hok1 & Hra1 & Hb1); [lia|].
  erewrite mbind_Some by exact E1. cbv beta. destruct b; [by exists (Call 2), d1; split_and!; [..|left]|].
  destruct Hb1 as (o1 & Ho1 & Hc1 & _); [done|].
  unfold db_object_location. erewrite mbind_Some by (by apply field_of_eq). cbv beta.
  assert (exists b d2, (if negb (location o1 =? NOTHING) then move_to_nothing call_verb oid else mreturn false) d1 = Some (b, d2) /\
    db_ok d2 /\ rearranged d d2 /\ exists o2, object_of d2 oid = Some o2 /\ contents o2 = [] /\ location o2 = NOTHING)
    as (b & d2 & E2 & Hok2 & Hra2 & o2 & Ho2 & Hc2 & Hl2).
  { destruct (Z.eqb_spec (location o1) NOTHING) as [Hl|Hl]; cbn [negb]; [exists false, d1; split_and!; eauto|].
    destruct (move_to_nothing_ok d1 oid o1 Hok1 Ho1) as (b & d2 & E2 & Hok2 & Hed2). exists b, d2.
    split_and!; [done|done|eapply rearranged_trans; [done|by eapply moved_rearranged]|].
    assert (oid <> NOTHING) as Hn by (intros ->; apply object_valid in Ho; by rewrite nothing_invalid in Ho by apply Hok).
    eexists. split; [by rewrite (ed_of _ _ _ Hed2), Ho1|]. rewrite moved_location, decide_True by done. split; [|done].
    destruct (moved_contents oid (location o1) NOTHING 0 oid o1) as [q ->]. rewrite decide_False by done.
    unfold without. rewrite Hc1. by case_decide. }
  erewrite mbind_Some by exact E2. cbv beta. destruct b; [by exists (Call 2), d2; split_and!; [..|left]|].
  destruct (ra_of _ _ Hra2 oid o2 Ho2) as (o' & Ho' & Hp & Hk & _). rewrite Ho in Ho'. injection Ho' as <-.
  assert (walk_fuel d2 = walk_fuel d) as Hwf by (unfold walk_fuel; by rewrite (ra_objects _ _ Hra2)).
  destruct (reparent_children_ok fuel oid fuel d2 o2 Hok2 Ho2) as (b & d3 & E3 & Hok3 & Hobj3 & Hnum3 & Han3 & Hb3);
    [by rewrite (ra_anons _ _ Hra2)| |lia|].
  { rewrite Hk, (ties_rearranged d d2); [lia|done|]. intros c Hc. destruct (child_of d oid c o Hok Ho Hc) as (p & -> & _). by eexists. }
  erewrite mbind_Some by exact E3. cbv beta. destruct b; cbn [negb].
  - destruct (recycle_end fuel d3 oid _ Hcheck Hok3 (Hb3 eq_refl)) as (b & d4 & d5 & d6 & E4 & E5 & E6 & Hok6 & Hobj6 & Hnum6);
      [by rewrite Han3, (ra_anons _ _ Hra2)|unfold walk_fuel in *; rewrite Hobj3; lia|done..|].
    erewrite mbind_Some by exact E4. erewrite mbind_Some by exact E5. erewrite mbind_Some by exact E6.
    exists (Done no_var_pack), d6. split; [done|]. split; [done|]. right. right. split; [done|].
    split; [by rewrite Hobj6, Hobj3, (ra_objects _ _ Hra2)|by rewrite Hnum6, Hnum3, (ra_num _ _ Hra2)].
  - exists (Done (PError E_INVARG)), d3. split; [done|]. split; [done|]. right. left.
    split; [done|]. by rewrite Hobj3, (ra_objects _ _ Hra2).
Qed.

Lemma bf_recycle_ok fuel d oid o func_pc progr :
  (forall d obj kids, check d obj (inl NOTHING) kids = true) ->
  db_ok d -> object_of d oid = Some o -> default ∅ (anonymous_objects d !! oid) = ∅ -> (recycle_fuel d oid o <= fuel)%nat ->
  func_pc = 1 \/ func_pc = 2 ->
  let run := bf_recycle check call_verb fuel (VObj oid) func_pc progr d in
  if (func_pc =? 1) && negb (controls_it d progr oid) then run = Some (Done (PError E_PERM), d)
  else exists r d', run = Some (r, d') /\ db_ok d' /\ recycled d d' oid r.
Proof.
  intros Hcheck Hok Ho Han Hf Hpc. pose proof (recycle_moving_ok fuel d oid o Hcheck Hok Ho Han Hf) as Hm.
  unfold bf_recycle. destruct Hpc as [-> | ->]; [|exact Hm]. change (1 =? 1) with true. cbn [is_object negb andb is_valid].
  pose proof (object_valid _ _ _ Ho) as Hv. erewrite mbind_Some by done. cbv beta. rewrite Hv.
  erewrite mbind_Some by done. cbv beta. cbn [negb orb].
  erewrite mbind_Some by (by apply controls2_eq; [apply Hok|]). cbv beta.
  destruct (controls_it d progr oid); cbn [negb]; [|done]. erewrite mbind_Some by done.
  unfold verb. erewrite mbind_Some by done. cbv beta. case_decide; [|exact Hm].
  exists (Call 2), d. split; [done|]. split; [done|]. left. split; [done|apply rearranged_refl].
Qed.
End recycle.
