(* ===== verification/ObjQuery.v ===== *)
(** * The queries of objects.cc and the players

    [locations], [recycled_objects], [next_recycled_object] and the player
    flag, on well-formed tables. *)
From Stdlib Require Import ZArith Lia.
From stdpp Require Import prelude gmap relations.
From S2P Require Import Prelude CString Value ObjCode ObjGraph ObjParents ObjLife ObjFun ObjTask ObjRun ObjMake.

Local Open Scope Z_scope.
Local Open Scope moo_scope.

(** ** Locations *)

(** The locations from [x] outwards, up to a base object (0 for none) *)
Inductive chain (d : db) (base : Z) : Z -> list Z -> Prop :=
| chain_end x : valid d x = false -> chain d base x []
| chain_base x : valid d x = true -> base <> 0 -> x = base -> chain d base x []
| chain_next x o l : object_of d x = Some o -> (base = 0 \/ x <> base) -> chain d base (location o) l -> chain d base x (x :: l).

Lemma locations_loop_ok d base : table_inv d -> family d location_of contents_of -> forall fuel x locs,
  (forall y, y ∈ locs -> valid d x = true -> tc (edge location_of d) y x) ->
  (size (dom (objects d) ∖ list_to_set locs) < fuel)%nat ->
  exists l, locations_loop fuel base false x locs d = Some (locs ++ l, d) /\ chain d base x l.
Proof.
  intros Hti Hfm. induction fuel as [|fuel IH]; intros x locs Hl Hf; [lia|]. cbn [locations_loop].
  destruct (valid d x) eqn:Hv; cbn [negb]; [|exists []; split; [by rewrite app_nil_r|by apply chain_end]].
  assert (forall b : bool, (if base =? 0 then mreturn false else mreturn b) d = Some (negb (base =? 0) && b, d)) as Hstop.
  { intros b. by destruct (base =? 0). }
  erewrite mbind_Some by apply Hstop. cbv beta. destruct (negb (base =? 0) && (x =? base)) eqn:Eb.
  { exists []. split; [by rewrite app_nil_r|]. apply andb_true_iff in Eb as [H1%negb_true_iff%Z.eqb_neq H2%Z.eqb_eq].
    by apply chain_base. }
  destruct (valid_object d x (ti_table d Hti) Hv) as [o Ho]. unfold db_object_location.
  erewrite mbind_Some by (by apply field_of_eq). cbv beta.
  assert (x ∉ locs) as Hx by (intros Hin; eapply acyclic_tc; [apply Hfm|by apply Hl]).
  assert (valid d (location o) = true -> edge location_of d x (location o)) as He.
  { intros Hvl. exists o. split; [done|]. split; [|done]. by apply list_elem_of_singleton. }
  assert (obj_setadd locs x = locs ++ [x]) as ->.
  { unfold obj_setadd. destruct (existsb (Z.eqb x) locs) eqn:E; [|done]. exfalso. apply existsb_exists in E as (z & Hz & ->%Z.eqb_eq).
    by apply Hx, list_elem_of_In. }
  destruct (IH (location o) (locs ++ [x])) as (l & E & Hc).
  - intros y [Hy|Hy]%elem_of_app Hvl; [eapply tc_r; [by apply Hl|by apply He]|].
    apply list_elem_of_singleton in Hy as ->. by apply tc_once, He.
  - apply valid_dom in Hv. rewrite list_to_set_app_L.
    enough (size (dom (objects d) ∖ (list_to_set locs ∪ list_to_set [x])) < size (dom (objects d) ∖ list_to_set locs))%nat by lia.
    apply subset_size. set_solver.
  - exists (x :: l). rewrite E, <- app_assoc. split; [done|]. eapply chain_next; [done| |done].
    apply andb_false_iff in Eb as [H%negb_false_iff%Z.eqb_eq|H%Z.eqb_neq]; [by left|by right].
Qed.

Lemma bf_locations_ok fuel d what base o :
  db_ok d -> object_of d what = Some o -> (walk_fuel d <= fuel)%nat ->
  exists l, bf_locations fuel what base false d = Some (Done (PVar (VList (VObj <$> l))), d) /\ chain d base (location o) l.
Proof.
  intros Hok Ho Hf. unfold bf_locations. rewrite (object_valid _ _ _ Ho). cbn [negb].
  unfold db_object_location. erewrite mbind_Some by (by apply field_of_eq). cbv beta.
  destruct (locations_loop_ok d base (ok_table d Hok) (ok_place d Hok) fuel (location o) []) as (l & E & Hc);
    [by intros y ?%not_elem_of_nil|unfold walk_fuel in Hf; rewrite list_to_set_nil, difference_empty_L; lia|].
  erewrite mbind_Some by exact E. by exists l.
Qed.

(** ** Free numbers *)

Lemma next_recycled_ok d count : forall i,
  (next_recycled count d i = VInt 0 /\ forall j, i <= j < i + Z.of_nat count -> valid d j = true) \/
  exists j, next_recycled count d i = VObj j /\ i <= j < i + Z.of_nat count /\ valid d j = false /\
    forall k, i <= k < j -> valid d k = true.
Proof.
  induction count as [|count IH]; intros i; cbn [next_recycled]; [left; split; [done|lia]|].
  destruct (valid d i) eqn:Hv.
  - destruct (IH (i + 1)) as [[-> H]|(j & -> & Hj & Hjv & H)].
    + left. split; [done|]. intros j Hj. destruct (decide (j = i)) as [->|]; [done|]. apply H. lia.
    + right. exists j. split; [done|]. split; [lia|]. split; [done|]. intros k Hk.
      destruct (decide (k = i)) as [->|]; [done|]. apply H. lia.
  - right. exists i. split; [done|]. split; [lia|]. split; [done|]. lia.
Qed.

(** ** Players *)

Definition users_ok (d : db) : Prop := NoDup (all_users d) /\ forall x, x ∈ all_users d <-> is_user d x = true.

Lemma has_flag_set o f g : 0 <= f -> 0 <= g -> dbpriv_object_has_flag (dbpriv_set_object_flag f o) g = (f =? g) || dbpriv_object_has_flag o g.
Proof.
  intros Hf Hg. unfold dbpriv_object_has_flag, dbpriv_set_object_flag. simpl.
  rewrite Z.lor_spec, Z.shiftl_1_l, Z.pow2_bits_eqb by done. apply orb_comm.
Qed.
Lemma has_flag_clear o f g : 0 <= f -> 0 <= g -> dbpriv_object_has_flag (dbpriv_clear_object_flag f o) g = negb (f =? g) && dbpriv_object_has_flag o g.
Proof.
  intros Hf Hg. unfold dbpriv_object_has_flag, dbpriv_clear_object_flag. simpl.
  rewrite Z.ldiff_spec, Z.shiftl_1_l, Z.pow2_bits_eqb by done. by rewrite andb_comm.
Qed.

Lemma is_user_edited d d' x f y :
  edited d d' (at_one x f) -> is_user d' y =
    match object_of d y with
    | Some o => dbpriv_object_has_flag (at_one x f y o) FLAG_USER
    | None => false
    end.
Proof.
  intros Hed. unfold is_user, has_flag. rewrite (ed_of _ _ _ Hed).
  destruct (object_of d y) as [o|] eqn:Eo; simpl; [|by rewrite andb_false_r].
  by rewrite (edited_valid _ _ _ _ Hed), (object_valid _ _ _ Eo).
Qed.

Lemma set_player_flag_edits d oid flag progr :
  db_ok d -> valid d oid = true -> is_wizard d progr = true ->
  exists d1 d', edited d d1 (at_one oid (if is_true flag then dbpriv_set_object_flag FLAG_USER else dbpriv_clear_object_flag FLAG_USER)) /\
    d' = with_users ((if is_true flag then obj_setadd else obj_setremove) (all_users d) oid) d1 /\
    bf_set_player_flag oid flag progr d = Some (Done no_var_pack, d').
Proof.
  intros Hok Hv Hw. unfold bf_set_player_flag. rewrite Hv, Hw. cbn [negb]. pose proof (ok_table d Hok) as Hti.
  destruct (is_true flag); [unfold db_set_object_flag|unfold db_clear_object_flag]; rewrite Z.eqb_refl.
  - destruct (edit_edited d oid (dbpriv_set_object_flag FLAG_USER) Hti Hv) as (d1 & E1 & Hed).
    exists d1. eexists. split; [done|]. split; [done|]. unfold edit in E1.
    apply mbind_inv in E1 as (l & d0 & E0 & E1). rewrite mbind_assoc. erewrite mbind_Some by exact E0. rewrite mbind_assoc.
    erewrite mbind_Some by exact E1. unfold modify, mbindM. by rewrite (ed_users _ _ _ Hed).
  - destruct (edit_edited d oid (dbpriv_clear_object_flag FLAG_USER) Hti Hv) as (d1 & E1 & Hed).
    exists d1. eexists. split; [done|]. split; [done|]. unfold edit in E1.
    apply mbind_inv in E1 as (l & d0 & E0 & E1). rewrite mbind_assoc. erewrite mbind_Some by exact E0. rewrite mbind_assoc.
    erewrite mbind_Some by exact E1. unfold modify, mbindM. by rewrite (ed_users _ _ _ Hed).
Qed.

Lemma db_ok_users l d : db_ok d -> db_ok (with_users l d).
Proof.
  intros [[H1 H2 H3 H4 H5 H6] [A1 A2 A3 A4 A5] [B1 B2 B3 B4 B5] Hc]. split; [by split|by split|by split|].
  intros x k Hx. specialize (Hc x k Hx). change (object_of (with_users l d) x) with (object_of d x).
  destruct (object_of d x) as [o|]; [|done]. destruct Hc as (new & Hnew & ->). exists new. split; [|done].
  rewrite <- Hnew. symmetry. unfold ancestors_list. f_equal.
  assert (forall fs, same_above d (with_users l d) (fun y => is_Some (object_of d y)) fs) as Hs.
  { intros fs z Hz. split; [done|]. intros Hv. by apply valid_object. }
  apply (db2_add_frame parents d (with_users l d) (fun y => is_Some (object_of d y))); [|done|apply Hs].
  intros y [p Hp]. exists p, p. split_and!; [done..|apply Hs].
Qed.

Lemma bf_set_player_flag_ok d oid flag progr :
  db_ok d -> users_ok d ->
  let run := bf_set_player_flag oid flag progr d in
  if negb (valid d oid) then run = Some (Done (PError E_INVARG), d)
  else if negb (is_wizard d progr) then run = Some (Done (PError E_PERM), d)
  else exists d', run = Some (Done no_var_pack, d') /\ db_ok d' /\ users_ok d' /\
    (forall y, is_user d' y = if decide (y = oid) then is_true flag else is_user d y) /\
    forall y, valid d' y = valid d y.
Proof.
  intros Hok [Hnd Hu] run. subst run. destruct (valid d oid) eqn:Hv; [cbn [negb]|unfold bf_set_player_flag; by rewrite Hv].
  destruct (is_wizard d progr) eqn:Hw; [cbn [negb]|unfold bf_set_player_flag; by rewrite Hv, Hw].
  destruct (set_player_flag_edits d oid flag progr Hok Hv Hw) as (d1 & d' & Hed & -> & E). eexists. split; [exact E|].
  destruct (valid_object d oid (ti_table d (ok_table d Hok)) Hv) as [o Ho].
  assert (forall y, is_user (with_users ((if is_true flag then obj_setadd else obj_setremove) (all_users d) oid) d1) y =
    if decide (y = oid) then is_true flag else is_user d y) as Hiu.
  { intros y. change (is_user (with_users _ d1) y) with (is_user d1 y). rewrite (is_user_edited _ _ _ _ y Hed). case_decide as Hy.
    - rewrite Hy, Ho. unfold at_one. rewrite decide_True by done. destruct (is_true flag).
      + by rewrite has_flag_set by done.
      + by rewrite has_flag_clear by done.
    - unfold is_user, has_flag. destruct (object_of d y) as [p|] eqn:Ep; [|by rewrite andb_false_r].
      rewrite (object_valid _ _ _ Ep). unfold at_one. by rewrite decide_False. }
  split.
  - apply db_ok_users. eapply edited_ok; [exact Hed| |done]. intros x p. unfold at_one.
    case_decide; [|done]. by destruct (is_true flag).
  - split; [|split; [exact Hiu|intros y; exact (edited_valid _ _ _ y Hed)]]. split.
    + simpl. destruct (is_true flag); [by apply NoDup_setadd|by apply NoDup_setremove].
    + intros x. rewrite Hiu. simpl. destruct (is_true flag).
      * rewrite elem_of_setadd, Hu. case_decide; naive_solver.
      * rewrite elem_of_setremove, Hu by done. case_decide; naive_solver.
Qed.
