(* ===== verification/Objects.v ===== *)
(** * The object database: its properties

    What the built-ins of objects.cc do to a well-formed object table
    ([ObjGraph.db_ok]), and that no sequence of them leads out of the
    well-formed tables. *)
From Stdlib Require Import ZArith Lia.
From stdpp Require Import prelude gmap relations strings.
From S2P Require Import Prelude CString Value ObjCode ObjGraph ObjParents ObjChange ObjLife ObjFun ObjTask ObjRun ObjMake ObjRecycle ObjQuery.

Local Open Scope Z_scope.
Local Open Scope moo_scope.

(** ** Fields of numbers *)

Definition parents_at (d : db) (x : Z) : option (Z + list Z) := parents <$> object_of d x.
Definition location_at (d : db) (x : Z) : option Z := location <$> object_of d x.
(** The other fields of an object but its children, which follow from the
    parents of the others *)
Definition own_fields (o : Object) : Z * Z * bytes * Z * list Z := (obj_id o, owner o, name o, flags o, contents o).
Definition own_at (d : db) (x : Z) := own_fields <$> object_of d x.

(** [y] is an ancestor of [x], or an inner location *)
Definition ancestor (d : db) (x y : Z) : Prop := tc (edge parents d) x y.
Definition within (d : db) (x y : Z) : Prop := tc (edge location_of d) x y.

Lemma relinked_own oid old new x o : own_fields (relinked oid old new x o) = own_fields o.
Proof. unfold relinked, at_one, at_all, own_fields. repeat case_decide; done. Qed.

Lemma below_tc d fl x o y : object_of d x = Some o -> members_below fl d o y <-> tc (edge fl d) x y.
Proof.
  intros Ho. split.
  - intros (z & Hz & Hv & Hr). eapply tc_rtc_r; [|exact Hr]. apply tc_once. by exists o.
  - intros Ht. inversion Ht as [? z (p & Hp & Hin & Hv)|? z ? (p & Hp & Hin & Hv) Hzy]; subst;
      rewrite Ho in Hp; injection Hp as <-.
    + by exists y.
    + exists z. split_and!; [done|done|by apply tc_rtc].
Qed.

(** ** A world to evaluate on

    Object 0 is a wizard; 1 and 3 are children of 0, 2 of 1; 3 is in 2. *)

Definition empty_db : db := mk_db ∅ ∅ 0 0 ∅ [] ∅.
Lemma empty_db_ok : db_ok empty_db.
Proof.
  assert (forall x, object_of empty_db x = None) as Hn.
  { intros x. unfold object_of, dbpriv_find_object. simpl. by case_match. }
  assert (forall up down, family empty_db up down) as Hf.
  { intros up down. split; try (by intros x o; rewrite Hn).
    - intros x y. split; intros (o & Ho & _); by rewrite Hn in Ho.
    - exists (fun _ => 0%nat). intros x y (o & Ho & _). by rewrite Hn in Ho. }
  split; [split|apply Hf|apply Hf|done]; simpl; try done.
  - intros x l. unfold dbpriv_find_object. simpl. by case_match.
  - intros x [l Hl]. done.
  - intros x o. by rewrite Hn.
Qed.

Definition any_check (d : db) (obj : Var) (ps : Z + list Z) (kids : list Var) : bool := true.
Definition no_verb (d : db) (recv : Z) (vname : bytes) (args : list Var) : error := E_VERBNF.

Definition after {A} (m : M db A) (d : db) : db := match m d with Some (_, d') => d' | None => d end.
Lemma after_ok {A} (m : M db A) d : (exists r d', m d = Some (r, d') /\ db_ok d') -> db_ok (after m d).
Proof. intros (r & d' & E & Hok). unfold after. by rewrite E. Qed.

Definition world1 : db := after (db_create_object (-1)) empty_db.
Definition world2 : db := after (db_set_object_flag 0 FLAG_WIZARD) world1.
Definition created_in (d : db) (parent : Var) : db := after (bf_create any_check no_verb 20 parent [] 1 VNone 0) d.
Definition world3 : db := created_in world2 (VObj 0).
Definition world4 : db := created_in world3 (VList [VObj 1]).
Definition world5 : db := created_in world4 (VObj 0).
Definition world : db := after (do_move no_verb 20 VNone 1 (mk_move 3 2 0) 0) world5.

Lemma created_in_ok d parent :
  db_ok d -> 0 < num_objects d -> num_objects d + 1 < 2 ^ 30 -> (walk_fuel d + 3 <= 20)%nat ->
  is_obj_or_list_of_objs parent = true -> db_ok (created_in d parent).
Proof.
  intros Hok H0 H1 Hf Hp. apply after_ok.
  pose proof (bf_create_ok any_check no_verb 20 d parent [] 0 None None VNone 0 Hok H0 H1 Hf Hp eq_refl eq_refl) as H.
  cbv zeta in H. destruct (create_error _ _ _ _ _); [by eexists _, d|]. destruct H as (r & o & d' & d1 & E & Hok' & _). by eexists _, d'.
Qed.

Ltac fuel_tac := apply Nat.leb_le; vm_compute; reflexivity.

Lemma world1_ok : db_ok world1.
Proof.
  apply after_ok. destruct (db_create_object_ok empty_db (-1) empty_db_ok) as (l & d' & E & Hok & _); [done|done|]. by eexists _, d'.
Qed.
Lemma world2_ok : db_ok world2.
Proof.
  apply after_ok. pose proof world1_ok as Hok.
  destruct (edit_edited world1 0 (dbpriv_set_object_flag FLAG_WIZARD)) as (d' & E & Hed); [apply Hok|by vm_compute|].
  exists tt, d'. split.
  - apply mbind_inv in E as (l & d0 & E0 & E). unfold db_set_object_flag.
    erewrite mbind_Some by exact E0. by erewrite mbind_Some by exact E.
  - eapply edited_ok; [exact Hed| |done]. intros x o. unfold at_one. by case_decide.
Qed.
Lemma world3_ok : db_ok world3.
Proof. apply (created_in_ok world2); [apply world2_ok|by vm_compute|by vm_compute|fuel_tac|done]. Qed.
Lemma world4_ok : db_ok world4.
Proof. apply (created_in_ok world3); [apply world3_ok|by vm_compute|by vm_compute|fuel_tac|done]. Qed.
Lemma world5_ok : db_ok world5.
Proof. apply (created_in_ok world4); [apply world4_ok|by vm_compute|by vm_compute|fuel_tac|done]. Qed.
Lemma world_ok : db_ok world.
Proof.
  apply after_ok. destruct (do_move_ok no_verb 20 0 world5 VNone 1 (mk_move 3 2 0) world5_ok) as (r & d' & E & Hok & _);
    [fuel_tac|lia|]. exists r, d'. exact (conj E Hok).
Qed.

Example world_shape :
  map (fun x => (parents_at world x, location_at world x)) [0; 1; 2; 3] =
  [(Some (inl (-1)), Some (-1)); (Some (inl 0), Some (-1)); (Some (inr [1]), Some (-1)); (Some (inl 0), Some 2)].
Proof. vm_compute. reflexivity. Qed.

Lemma world_fuel : (walk_fuel world <= 20)%nat.
Proof. fuel_tac. Qed.

(** ** [chparent] *)

(** C3: [chparent] and [chparents] on a permanent object.  The guards, in
    the order of the code, decide the error; a parent that is the object or
    one of its descendants is answered E_RECMOVE; otherwise E_INVARG is
    answered, and nothing changes, exactly when the change is refused: for a
    repeated parent that [check_for_duplicates] sees, an anonymous child that
    does not have the object among its parents, or by the property check.
    In every other case the object has exactly the new parents, every other
    object keeps its own, all other fields but the children stay, and the
    table is well-formed again: children are the inverse of parents, the
    hierarchy has no cycle, and the ancestor cache holds no stale entry. *)
Theorem chparent_correct check fuel d oid what n progr (Hok : db_ok d) (Hf : (walk_fuel d <= fuel)%nat) :
  let run := bf_chparent_chparents check fuel (VObj oid) what n progr d in
  match chparents_error d oid what n progr with
  | Some e => run = Some (Done (PError e), d)
  | None =>
    ((exists p, p ∈ enlist (objids what) /\ (p = oid \/ ancestor d p oid)) -> run = Some (Done (PError E_RECMOVE), d)) /\
    ((forall p, p ∈ enlist (objids what) -> p <> oid /\ ~ ancestor d p oid) ->
     (change_refused check d oid (objids what) -> run = Some (Done (PError E_INVARG), d)) /\
     (~ change_refused check d oid (objids what) ->
      exists d', run = Some (Done no_var_pack, d') /\ db_ok d' /\
        (forall x, parents_at d' x = if decide (x = oid) then Some (objids what) else parents_at d x) /\
        forall x, location_at d' x = location_at d x /\ own_at d' x = own_at d x))
  end.
Proof.
  intros run. pose proof (bf_chparent_chparents_ok check fuel d oid what n progr Hok Hf) as H. fold run in H.
  destruct (chparents_error d oid what n progr); [exact H|]. destruct H as (o & Ho & _ & Hrec & Hrun). split.
  - intros (p & Hp & Ha). apply Hrec. exists p. split; [done|]. destruct Ha as [->|Ha]; [done|by apply tc_rtc].
  - intros Hav. destruct Hrun as (b & d' & E & Hok' & Href & Hd).
    { intros p Hp Hr. destruct (Hav p Hp) as [Hne Hna]. apply rtc_tc in Hr as [?|?]; done. }
    rewrite <- Href. split; [intros ->; by subst d'|]. intros Hb. apply not_false_iff_true in Hb as ->.
    exists d'. split; [done|]. split; [done|]. unfold parents_at, location_at, own_at.
    split; intros x; rewrite (edits_of _ _ _ x Hd).
    + destruct (decide (x = oid)) as [->|Hx]; [rewrite Ho; simpl; by rewrite relinked_parents, decide_True|].
      destruct (object_of d x); [|done]. simpl. by rewrite relinked_parents, decide_False.
    + destruct (object_of d x); [|done]. simpl. by rewrite relinked_location, relinked_own.
Qed.

Lemma chparent_correct_witness :
  let run := bf_chparent_chparents any_check 20 (VObj 0) (VObj 2) 2 0 world in
  db_ok world /\ (walk_fuel world <= 20)%nat /\
  match chparents_error world 0 (VObj 2) 2 0 with
  | Some e => run = Some (Done (PError e), world)
  | None =>
    ((exists p, p ∈ enlist (objids (VObj 2)) /\ (p = 0 \/ ancestor world p 0)) -> run = Some (Done (PError E_RECMOVE), world)) /\
    ((forall p, p ∈ enlist (objids (VObj 2)) -> p <> 0 /\ ~ ancestor world p 0) ->
     (change_refused any_check world 0 (objids (VObj 2)) -> run = Some (Done (PError E_INVARG), world)) /\
     (~ change_refused any_check world 0 (objids (VObj 2)) ->
      exists d', run = Some (Done no_var_pack, d') /\ db_ok d' /\
        (forall x, parents_at d' x = if decide (x = 0) then Some (objids (VObj 2)) else parents_at world x) /\
        forall x, location_at d' x = location_at world x /\ own_at d' x = own_at world x))
  end.
Proof.
  intros run. split; [apply world_ok|]. split; [apply world_fuel|].
  exact (chparent_correct any_check 20 world 0 (VObj 2) 2 0 world_ok world_fuel).
Defined.

(** The same call, evaluated: 0 is an ancestor of 2; [chparents(3, {1, 2})] *)
Example chparent_cycle :
  fst <$> bf_chparent_chparents any_check 20 (VObj 0) (VObj 2) 2 0 world = Some (Done (PError E_RECMOVE)).
Proof. vm_compute. reflexivity. Qed.
Example chparents_two :
  (fun r => (fst r, parents_at (snd r) 3, children <$> object_of (snd r) 1, children <$> object_of (snd r) 0)) <$>
    bf_chparent_chparents any_check 20 (VObj 3) (VList [VObj 1; VObj 2]) 2 0 world =
  Some (Done no_var_pack, Some (inr [1; 2]), Some [2; 3], Some [1]).
Proof. vm_compute. reflexivity. Qed.

(** ** [move] *)

(** C6: [move] once [accept] has answered (program counter 2, whatever other
    code did to the table while it ran).  A refusal is E_NACC except for
    wizards; an object that has become invalid, or is there already, is left
    alone; a destination inside the object is E_RECMOVE; otherwise the object
    is in the destination, every other object stays where it was, the table
    is well-formed, and the task goes on with [exitfunc], [enterfunc] or
    ends. *)
Theorem move_correct call_verb fuel progr d data arglist (Hok : db_ok d) (Hf : (walk_fuel d <= fuel)%nat) :
  let what := mv_what data in let dest := mv_where data in
  let run := do_move call_verb fuel arglist 2 data progr d in
  if negb (is_wizard d progr) && negb (is_true arglist) then run = Some (Done (PError E_NACC), d)
  else if negb (valid d what) || (negb (dest =? NOTHING) && negb (valid d dest)) then run = Some (Done no_var_pack, d)
  else if bool_decide (location_at d what = Some dest) && (mv_position data =? 0) then run = Some (Done no_var_pack, d)
  else
    (valid d dest = true -> dest = what \/ within d dest what -> run = Some (Done (PError E_RECMOVE), d)) /\
    (dest <> what -> ~ within d dest what ->
     exists r d', run = Some (r, d') /\ move_outcome r /\ db_ok d' /\
       (forall x, location_at d' x = if decide (x = what) then Some dest else location_at d x) /\
       forall x, parents_at d' x = parents_at d x).
Proof.
  intros what dest run. pose proof (move_decided_ok call_verb fuel progr d data (is_true arglist) Hok Hf) as H.
  cbv zeta in H. fold what dest in H. change (move_decided call_verb fuel data (is_true arglist) progr d) with run in H.
  destruct (negb (is_wizard d progr) && negb (is_true arglist)); [done|].
  destruct (negb (valid d what) || _); [done|]. destruct H as (o & Ho & H). unfold location_at. rewrite Ho. cbn [fmap option_fmap option_map].
  assert (bool_decide (Some (location o) = Some dest) = (location o =? dest)) as ->.
  { destruct (Z.eqb_spec (location o) dest) as [->|Hl]; [by apply bool_decide_eq_true|apply bool_decide_eq_false; congruence]. }
  destruct ((location o =? dest) && _); [done|]. destruct H as [H1 H2]. split.
  - intros Hv Hw. apply H1; [done|]. destruct Hw as [->|Hw]; [done|by apply tc_rtc].
  - intros Hne Hw. destruct H2 as (r & d' & E & Hr & Hok' & Hed).
    { intros _ Hrt. apply rtc_tc in Hrt as [?|?]; done. }
    exists r, d'. split; [done|]. split; [done|]. split; [done|]. unfold parents_at.
    split; intros x; rewrite (ed_of _ _ _ Hed).
    + destruct (decide (x = what)) as [->|Hx]; [rewrite Ho; simpl; by rewrite moved_location, decide_True|].
      destruct (object_of d x); [|done]. simpl. by rewrite moved_location, decide_False.
    + destruct (object_of d x); [|done]. simpl. by rewrite moved_parents.
Qed.

Lemma move_correct_witness :
  let data := mk_move 3 1 0 in let run := do_move no_verb 20 (VInt 1) 2 data 0 world in
  db_ok world /\ (walk_fuel world <= 20)%nat /\
  (if negb (is_wizard world 0) && negb (is_true (VInt 1)) then run = Some (Done (PError E_NACC), world)
   else if negb (valid world 3) || (negb (1 =? NOTHING) && negb (valid world 1)) then run = Some (Done no_var_pack, world)
   else if bool_decide (location_at world 3 = Some 1) && (0 =? 0) then run = Some (Done no_var_pack, world)
   else
     (valid world 1 = true -> 1 = 3 \/ within world 1 3 -> run = Some (Done (PError E_RECMOVE), world)) /\
     (1 <> 3 -> ~ within world 1 3 ->
      exists r d', run = Some (r, d') /\ move_outcome r /\ db_ok d' /\
        (forall x, location_at d' x = if decide (x = 3) then Some 1 else location_at world x) /\
        forall x, parents_at d' x = parents_at world x)).
Proof.
  intros data run. split; [apply world_ok|]. split; [apply world_fuel|].
  exact (move_correct no_verb 20 0 world data (VInt 1) world_ok world_fuel).
Defined.

Example move_inside :
  fst <$> do_move no_verb 20 (VInt 1) 2 (mk_move 2 3 0) 0 world = Some (Done (PError E_RECMOVE)).
Proof. vm_compute. reflexivity. Qed.

(** ** Sequences of built-ins *)

Section steps.
Context (check : db -> Var -> Z + list Z -> list Var -> bool) (call_verb : db -> Z -> bytes -> list Var -> error).

(** One entry of a built-in on permanent objects.  [move], [create] and
    [recycle] are entered at any of their program counters, so a task that
    waits for a verb is interleaved with the others in every way.  The fuel
    is enough for the table and the object numbers do not run out.  Left out
    are: [recreate] of an object as its own parent, which the code accepts
    ([ObjMore.recreate_own_parent] shows the cycle); the creation of anonymous
    objects; and [recycle] of an object with anonymous children. *)
Inductive obj_step (d d' : db) : Prop :=
| step_chparent fuel oid what n progr r :
    (walk_fuel d <= fuel)%nat ->
    bf_chparent_chparents check fuel (VObj oid) what n progr d = Some (r, d') -> obj_step d d'
| step_move fuel arglist next data progr r :
    (walk_fuel d <= fuel)%nat -> 1 <= next <= 4 ->
    do_move call_verb fuel arglist next data progr d = Some (r, d') -> obj_step d d'
| step_create fuel parent args next data progr r :
    (walk_fuel d + 3 <= fuel)%nat -> 0 < num_objects d -> num_objects d + 1 < 2 ^ 30 ->
    match create_args args progr with Some (_, anon, _) => is_anonymous anon = false | None => True end ->
    bf_create check call_verb fuel parent args next data progr d = Some (r, d') -> obj_step d d'
| step_recreate fuel old parent owner next data progr r :
    (walk_fuel d + 1 <= fuel)%nat -> num_objects d + 1 < 2 ^ 30 -> parent <> old ->
    bf_recreate check call_verb fuel old parent owner next data progr d = Some (r, d') -> obj_step d d'
| step_recycle fuel oid o func_pc progr r :
    object_of d oid = Some o -> default ∅ (anonymous_objects d !! oid) = ∅ -> (recycle_fuel d oid o <= fuel)%nat ->
    func_pc = 1 \/ func_pc = 2 ->
    bf_recycle check call_verb fuel (VObj oid) func_pc progr d = Some (r, d') -> obj_step d d'
| step_player oid flag progr r :
    bf_set_player_flag oid flag progr d = Some (r, d') -> obj_step d d'.

Lemma obj_step_ok d d' :
  (forall d obj kids, check d obj (inl NOTHING) kids = true) -> obj_step d d' -> db_ok d -> db_ok d'.
Proof.
  intros Hcheck Hs Hok. destruct Hs.
  - pose proof (bf_chparent_chparents_ok check fuel d oid what n progr Hok H) as Hr. cbv zeta in Hr.
    destruct (chparents_error d oid what n progr); [congruence|]. destruct Hr as (o & Ho & _ & H1 & H2).
    destruct (descendants_test d fuel oid o (objids what) Hok Ho H) as (b & _ & Hb). destruct b.
    + rewrite H1 in H0 by (by apply Hb). congruence.
    + destruct H2 as (b & d2 & E & Hok2 & _); [|congruence]. intros p Hp Hr. by discriminate (proj2 Hb (ex_intro _ p (conj Hp Hr))).
  - destruct (do_move_ok call_verb fuel progr d arglist next data Hok H H0) as (r' & d2 & E & Hok2 & _). congruence.
  - destruct (Z.eqb_spec next 1) as [->|Hn]; [|unfold bf_create in H3; rewrite (proj2 (Z.eqb_neq _ _) Hn) in H3; simpl in H3; congruence].
    destruct (is_obj_or_list_of_objs parent) eqn:Hp; [|unfold bf_create in H3; rewrite Hp in H3; simpl in H3; congruence].
    destruct (create_args args progr) as [[[who anon] init]|] eqn:Ea;
      [|unfold bf_create in H3; rewrite Hp, Ea in H3; simpl in H3; congruence].
    pose proof (bf_create_ok check call_verb fuel d parent args who anon init data progr Hok H0 H1 H Hp Ea H2) as Hr.
    cbv zeta in Hr. destruct (create_error _ _ _ _ _); [congruence|]. destruct Hr as (a & o & d2 & d1 & E & Hok2 & _). congruence.
  - destruct (Z.eqb_spec next 1) as [->|Hn]; [|unfold bf_recreate in H2; rewrite (proj2 (Z.eqb_neq _ _) Hn) in H2; simpl in H2; congruence].
    by apply (bf_recreate_keeps check call_verb fuel d old parent owner data progr r).
  - pose proof (bf_recycle_ok check call_verb fuel d oid o func_pc progr Hcheck Hok H H0 H1 H2) as Hr. cbv zeta in Hr.
    destruct (_ && _); [congruence|]. destruct Hr as (a & d2 & E & Hok2 & _). congruence.
  - destruct (valid d oid) eqn:Hv; [|unfold bf_set_player_flag in H; rewrite Hv in H; by injection H as _ <-].
    destruct (is_wizard d progr) eqn:Hw; [|unfold bf_set_player_flag in H; rewrite Hv, Hw in H; by injection H as _ <-].
    destruct (set_player_flag_edits d oid flag progr Hok Hv Hw) as (d1 & d2 & Hed & -> & E).
    rewrite E in H. injection H as _ <-. apply db_ok_users. eapply edited_ok; [exact Hed| |done].
    intros x p. unfold at_one. case_decide; [|done]. by destruct (is_true flag).
Qed.
End steps.

(** C1: whatever sequence of [chparent], [move], [create], [recreate],
    [recycle] and [set_player_flag] on permanent objects runs, with every
    interleaving of the tasks that wait for a verb and whatever the verbs and
    the property checks answer (a check allows the removal of all parents),
    the table stays well-formed; in particular no object becomes its own
    ancestor or is inside itself.  [recreate] may be given any parent, also
    one that does not exist, but the number it recreates; [create] makes
    permanent objects, and [recycle] takes objects without anonymous
    children. *)
Theorem objects_invariant check call_verb d d'
    (Hcheck : forall d obj kids, check d obj (inl NOTHING) kids = true)
    (Hok : db_ok d) (Hsteps : rtc (obj_step check call_verb) d d') :
  db_ok d' /\ forall x, ~ ancestor d' x x /\ ~ within d' x x.
Proof.
  assert (db_ok d') as H.
  { induction Hsteps as [d|d d1 d' Hs _ IH]; [done|]. apply IH. by eapply obj_step_ok. }
  split; [done|]. intros x. split; apply acyclic_tc; apply H.
Qed.

Lemma objects_invariant_witness :
  let d' := after (bf_chparent_chparents any_check 20 (VObj 3) (VList [VObj 1; VObj 2]) 2 0) world in
  rtc (obj_step any_check no_verb) world d' /\ db_ok d' /\ forall x, ~ ancestor d' x x /\ ~ within d' x x.
Proof.
  intros d'. assert (rtc (obj_step any_check no_verb) world d') as Hs.
  { apply rtc_once. apply (step_chparent _ _ world d' 20 3 (VList [VObj 1; VObj 2]) 2 0 (Done no_var_pack)).
    - apply world_fuel.
    - vm_compute. reflexivity. }
  split; [exact Hs|]. apply (objects_invariant any_check no_verb world d'); [done|apply world_ok|exact Hs].
Defined.

(** ** Ancestors and descendants *)

Lemma on_valid_eq d x k : valid d x = true -> on_valid (VObj x) k d = k d.
Proof. intros Hv. unfold on_valid. cbn [is_object negb is_valid]. erewrite mbind_Some by done. cbv beta. by rewrite Hv. Qed.

(** [ancestors] and [descendants] terminate, and answer every object
    above (below) once, the object itself first when asked; [ancestors]
    answers the same from its cache, which it may extend and which stays
    right. *)
Theorem relatives_correct fuel d x o full (Hok : db_ok d) (Ho : object_of d x = Some o) (Hf : (walk_fuel d <= fuel)%nat) :
  (exists l c, bf_ancestors fuel (VObj x) full d =
      Some (Done (PVar (VList ((if full then [VObj x] else []) ++ (VObj <$> l)))), with_cache c d) /\
    db_ok (with_cache c d) /\ NoDup l /\ forall y, y ∈ l <-> ancestor d x y) /\
  exists l, bf_descendants fuel (VObj x) full d =
      Some (Done (PVar (VList ((if full then [VObj x] else []) ++ (VObj <$> l)))), d) /\
    NoDup l /\ forall y, y ∈ l <-> ancestor d y x.
Proof.
  pose proof Hok as [Hti Hfm _ Hc]. pose proof (object_valid _ _ _ Ho) as Hv. split.
  - destruct (db_ancestors_ok fuel d x o full Hti Hc Ho Hf) as (new & c & Hnew & Hcok & E). exists new, c.
    unfold bf_ancestors. rewrite on_valid_eq by done. erewrite mbind_Some by exact E. split; [done|].
    split; [by apply db_ok_cache|]. destruct (ancestors_list_ok d o Hti) as (new' & Hnew' & Hnd & Hin).
    rewrite Hnew in Hnew'. injection Hnew' as <-. split; [done|]. intros y. rewrite Hin. by apply below_tc.
  - destruct (object_slot d x o Ho) as (l & Hl & Hh).
    destruct (db_traverse_ok children_of fuel d (VObj x) full l o) as (ds & E & Hnd & Hds);
      [apply Hti|by apply slot_eq|done|by apply nothing_invalid|unfold walk_fuel in *; lia|].
    exists ds. unfold bf_descendants. rewrite on_valid_eq by done. erewrite mbind_Some by exact E. split; [done|].
    split; [done|]. intros y. rewrite Hds, (below_tc d children_of x o y Ho). unfold ancestor. clear -Hfm. split.
    + induction 1 as [x y Hxy|x y z Hxy _ IH]; [apply tc_once|eapply tc_r; [exact IH|]]; by apply (fm_inverse _ _ _ Hfm).
    + induction 1 as [x y Hxy|x y z Hxy _ IH]; [apply tc_once|eapply tc_r; [exact IH|]]; by apply (fm_inverse _ _ _ Hfm).
Qed.

Lemma relatives_correct_witness :
  exists o, object_of world 2 = Some o /\
  (exists l c, bf_ancestors 20 (VObj 2) true world = Some (Done (PVar (VList ([VObj 2] ++ (VObj <$> l)))), with_cache c world) /\
    db_ok (with_cache c world) /\ NoDup l /\ forall y, y ∈ l <-> ancestor world 2 y) /\
  exists l, bf_descendants 20 (VObj 2) true world = Some (Done (PVar (VList ([VObj 2] ++ (VObj <$> l)))), world) /\
    NoDup l /\ forall y, y ∈ l <-> ancestor world y 2.
Proof.
  destruct (object_of world 2) as [o|] eqn:E; [|vm_compute in E; discriminate E]. exists o. split; [done|].
  exact (relatives_correct 20 world 2 o true world_ok E world_fuel).
Defined.

Example world_ancestors :
  fst <$> bf_ancestors 20 (VObj 2) true world = Some (Done (PVar (VList [VObj 2; VObj 1; VObj 0]))).
Proof. vm_compute. reflexivity. Qed.
Example world_descendants :
  fst <$> bf_descendants 20 (VObj 0) false world = Some (Done (PVar (VList [VObj 1; VObj 2; VObj 3]))).
Proof. vm_compute. reflexivity. Qed.

(** [isa], which walks the hierarchy without marking what it has seen,
    terminates on every well-formed table, and says whether the object is
    the other one or has it among its ancestors. *)
Theorem isa_correct d x o p (Hok : db_ok d) (Ho : object_of d x = Some o) :
  exists n, forall fuel, (n <= fuel)%nat -> exists b,
    bf_isa fuel (VObj x) (VObj p) false d = Some (Done (PVar (VInt (Z.b2z b))), d) /\ (b = true <-> x = p \/ ancestor d x p).
Proof.
  destruct (object_slot d x o Ho) as (l & Hl & Hh).
  destruct (db_object_isa_ok d (VObj x) l o p Hok) as [n Hn]; [by apply slot_eq|done|by apply (fm_wf _ _ _ (ok_family d Hok) x)|].
  exists n. intros fuel Hf. destruct (Hn fuel Hf) as (b & E & Hb). exists b. split.
  - unfold bf_isa. cbn [is_object negb orb is_obj_or_list_of_objs andb is_valid]. erewrite mbind_Some by done. cbv beta.
    rewrite (object_valid _ _ _ Ho). cbn [negb isa_any]. rewrite mbind_assoc. erewrite mbind_Some by exact E. cbv beta. by destruct b.
  - rewrite Hb. rewrite (below_tc d parents x o p Ho). unfold ancestor. split; intros [H|H]; try (by right); left; congruence.
Qed.

Lemma isa_correct_witness :
  exists o, object_of world 2 = Some o /\
  exists n, forall fuel, (n <= fuel)%nat -> exists b,
    bf_isa fuel (VObj 2) (VObj 0) false world = Some (Done (PVar (VInt (Z.b2z b))), world) /\
    (b = true <-> 2 = 0 \/ ancestor world 2 0).
Proof.
  destruct (object_of world 2) as [o|] eqn:E; [|vm_compute in E; discriminate E]. exists o. split; [done|].
  exact (isa_correct world 2 o 0 world_ok E).
Defined.

(** ** Creation and destruction *)

(** A parent of the new object [x] *)
Definition with_child (ps : Z + list Z) (x z : Z) (o : Object) : Object :=
  if decide (z ∈ enlist ps) then with_children (obj_setadd (children o) x) o else o.
Lemma relinked_others d x ps z : table_inv d -> z <> x -> relinked x (inl NOTHING) ps z <$> object_of d z = with_child ps x z <$> object_of d z.
Proof.
  intros Hti Hz. destruct (object_of d z) as [o|] eqn:Ho; [|done]. cbn [fmap option_fmap option_map]. f_equal.
  assert (z <> NOTHING) as Hn by (intros ->; apply object_valid in Ho; by rewrite nothing_invalid in Ho).
  unfold relinked, with_child, at_one, at_all, link. rewrite (decide_False (P := z = x)) by done.
  rewrite (decide_False (P := z ∈ enlist (inl NOTHING))) by (by intros ?%list_elem_of_singleton). by case_decide.
Qed.

(** C29: [create] of a permanent object (the anonymous flag is not given, or
    0).  The errors come in the code's order.  Otherwise the new object is
    made with the next number and its owner, and without parents ([d1]); if
    the change of its parents is refused there (see [chparent]), the answer
    is E_INVARG and every object is as it was; and if it is not, the object
    has the next number, the owner asked for (itself if that owner does not
    exist) and the parents asked for, with no children, location or contents;
    its parents have it as a new child, every other field of every other
    object is as it was, and the table is well-formed. *)
Theorem create_correct check call_verb fuel d parent args who anon init data progr
    (Hok : db_ok d) (Hn0 : 0 < num_objects d) (Hn : num_objects d + 1 < 2 ^ 30) (Hf : (walk_fuel d + 3 <= fuel)%nat)
    (Hpar : is_obj_or_list_of_objs parent = true) (Hargs : create_args args progr = Some (who, anon, init))
    (Hanon : is_anonymous anon = false) :
  let run := bf_create check call_verb fuel parent args 1 data progr d in
  let x := num_objects d in
  let ps := objids parent in
  let owner := if valid d who then who else x in
  match create_error d who progr FLAG_FERTILE ps with
  | Some e => run = Some ((VNone, Done (PError e)), d)
  | None => exists d1, conceived d d1 x owner /\ valid d x = false /\
      (change_refused check d1 x ps ->
       exists d', run = Some ((VNone, Done (PError E_INVARG)), d') /\ db_ok d' /\ forall z, object_of d' z = object_of d z) /\
      (~ change_refused check d1 x ps ->
       exists o d', run = Some ((VObj x, o), d') /\ started (VObj x) o /\ db_ok d' /\ num_objects d' = x + 1 /\
         object_of d' x = Some (created x owner ps) /\
         forall z, z <> x -> object_of d' z = with_child ps x z <$> object_of d z)
  end.
Proof.
  intros run x ps owner.
  pose proof (bf_create_ok check call_verb fuel d parent args who anon init data progr Hok Hn0 Hn Hf Hpar Hargs Hanon) as H.
  cbv zeta in H. fold run x ps in H. fold owner in H. destruct (create_error _ _ _ _ _); [exact H|].
  destruct H as (r & o & d' & d1 & E & Hok' & Hcd & H). exists d1. split; [done|]. split.
  { rewrite valid_objects by apply Hok. apply bool_decide_eq_false. intros Hs%(ti_range d (ok_table d Hok)). unfold x in Hs. lia. }
  destruct H as [(Hr & -> & -> & Hsame & _)|(Hr & -> & Hs & [G1 G2 G3])]; (split; [|done]) || (split; [done|]); intros _.
  - by exists d'.
  - exists o, d'. rewrite G2. split_and!; [done|done|done|unfold x; lia|done|].
    intros z Hz. rewrite G3 by done. by apply relinked_others; [apply Hok|].
Qed.

Lemma create_correct_witness :
  let run := bf_create any_check no_verb 20 (VList [VObj 1; VObj 3]) [VObj 2] 1 VNone 0 world in
  let x := num_objects world in
  let ps := inr [1; 3] in
  let owner := if valid world 2 then 2 else x in
  match create_error world 2 0 FLAG_FERTILE ps with
  | Some e => run = Some ((VNone, Done (PError e)), world)
  | None => exists d1, conceived world d1 x owner /\ valid world x = false /\
      (change_refused any_check d1 x ps ->
       exists d', run = Some ((VNone, Done (PError E_INVARG)), d') /\ db_ok d' /\ forall z, object_of d' z = object_of world z) /\
      (~ change_refused any_check d1 x ps ->
       exists o d', run = Some ((VObj x, o), d') /\ started (VObj x) o /\ db_ok d' /\ num_objects d' = x + 1 /\
         object_of d' x = Some (created x owner ps) /\
         forall z, z <> x -> object_of d' z = with_child ps x z <$> object_of world z)
  end.
Proof.
  apply (create_correct any_check no_verb 20 world (VList [VObj 1; VObj 3]) [VObj 2] 2 None None VNone 0 world_ok);
    [by vm_compute|by vm_compute|fuel_tac|done|done|done].
Defined.

(** C28: [recycle] on a permanent object without anonymous children, at its
    first entry or after a verb it called: it needs control of the object,
    moves its contents and itself to nowhere, gives every child the object's
    parents in its place, and destroys it.  Whenever it stops (a verb to run, a
    property conflict) the table is well-formed, and at the end the number is
    free and every other object still there. *)
Theorem recycle_correct check call_verb fuel d oid o func_pc progr
    (Hcheck : forall d obj kids, check d obj (inl NOTHING) kids = true)
    (Hok : db_ok d) (Ho : object_of d oid = Some o) (Han : default ∅ (anonymous_objects d !! oid) = ∅)
    (Hf : (recycle_fuel d oid o <= fuel)%nat) (Hpc : func_pc = 1 \/ func_pc = 2) :
  let run := bf_recycle check call_verb fuel (VObj oid) func_pc progr d in
  if (func_pc =? 1) && negb (controls_it d progr oid) then run = Some (Done (PError E_PERM), d)
  else exists r d', run = Some (r, d') /\ db_ok d' /\
    ((r = Call 2 /\ forall x, valid d' x = valid d x) \/
     (r = Done (PError E_INVARG) /\ forall x, valid d' x = valid d x) \/
     (r = Done no_var_pack /\ forall x, valid d' x = negb (bool_decide (x = oid)) && valid d x)).
Proof.
  intros run. pose proof (bf_recycle_ok check call_verb fuel d oid o func_pc progr Hcheck Hok Ho Han Hf Hpc) as H.
  cbv zeta in H. fold run in H. destruct ((func_pc =? 1) && _); [done|]. destruct H as (r & d' & E & Hok' & H).
  exists r, d'. split; [done|]. split; [done|].
  assert (objects d' = objects d -> forall x, valid d' x = valid d x) as Hsame.
  { intros He x. rewrite !valid_objects by (apply Hok' || apply Hok). by rewrite He. }
  destruct H as [(H1 & H2)|[(H1 & H2)|(H1 & H2 & _)]]; [left|right; left|right; right]; (split; [done|]).
  - apply Hsame, H2.
  - by apply Hsame.
  - intros x. rewrite !valid_objects by (apply Hok' || apply Hok). rewrite H2. destruct (decide (x = oid)) as [->|Hx].
    + by rewrite lookup_delete_eq, (bool_decide_eq_true_2 (oid = oid)).
    + by rewrite lookup_delete_ne, (bool_decide_eq_false_2 (x = oid)).
Qed.

Lemma recycle_correct_witness :
  exists o, object_of world 1 = Some o /\
  let run := bf_recycle any_check no_verb 20 (VObj 1) 1 0 world in
  if (1 =? 1) && negb (controls_it world 0 1) then run = Some (Done (PError E_PERM), world)
  else exists r d', run = Some (r, d') /\ db_ok d' /\
    ((r = Call 2 /\ forall x, valid d' x = valid world x) \/
     (r = Done (PError E_INVARG) /\ forall x, valid d' x = valid world x) \/
     (r = Done no_var_pack /\ forall x, valid d' x = negb (bool_decide (x = 1)) && valid world x)).
Proof.
  destruct (object_of world 1) as [o|] eqn:E; [|vm_compute in E; discriminate E]. exists o. split; [done|].
  apply (recycle_correct any_check no_verb 20 world 1 o 1 0); [done|apply world_ok|done|vm_compute; reflexivity| |by left].
  vm_compute in E. injection E as <-. apply Nat.leb_le. vm_compute. reflexivity.
Defined.

(** Object 2 inherits from 0 when 1 goes. *)
Example recycle_middle :
  (fun r => (fst r, valid (snd r) 1, parents_at (snd r) 2, children <$> object_of (snd r) 0)) <$>
    bf_recycle any_check no_verb 20 (VObj 1) 1 0 world =
  Some (Done no_var_pack, false, Some (inr [0]), Some [3; 2]).
Proof. vm_compute. reflexivity. Qed.
