(* ===== verification/ObjMore.v ===== *)
(** * The object database: players, locations, [recreate]

    The properties of the remaining built-ins, and what [recreate] does when
    its parent does not exist. *)
From Stdlib Require Import ZArith Lia.
From stdpp Require Import prelude gmap relations strings.
From S2P Require Import Prelude CString Value ObjCode ObjGraph ObjParents ObjLife ObjFun ObjTask ObjRun ObjMake ObjRecycle ObjQuery Objects.

Local Open Scope Z_scope.
Local Open Scope moo_scope.

(** [set_player_flag]: with a well-formed table in which [players()]
    lists exactly the objects with the flag, once each, the call by a wizard
    on a valid object sets or clears that object's flag and no other, and the
    list follows. *)
Theorem set_player_flag_correct d oid flag progr (Hok : db_ok d) (Hu : users_ok d) :
  let run := bf_set_player_flag oid flag progr d in
  if negb (valid d oid) then run = Some (Done (PError E_INVARG), d)
  else if negb (is_wizard d progr) then run = Some (Done (PError E_PERM), d)
  else exists d', run = Some (Done no_var_pack, d') /\ db_ok d' /\ users_ok d' /\
    (forall y, is_user d' y = if decide (y = oid) then is_true flag else is_user d y) /\
    forall y, valid d' y = valid d y.
Proof. exact (bf_set_player_flag_ok d oid flag progr Hok Hu). Qed.

Lemma users_ok_empty d : all_users d = [] -> (forall x o, object_of d x = Some o -> dbpriv_object_has_flag o FLAG_USER = false) -> users_ok d.
Proof.
  intros Hu Hf. unfold users_ok. rewrite Hu. split; [constructor|]. intros x. split; [by intros ?%not_elem_of_nil|].
  unfold is_user, has_flag. destruct (object_of d x) as [o|] eqn:E; [|by rewrite andb_false_r]. rewrite (Hf x o E). by rewrite andb_false_r.
Qed.

Lemma object_in_range d x o : db_ok d -> object_of d x = Some o -> x ∈ seqZ 0 (num_objects d).
Proof.
  intros Hok Ho. apply object_slot in Ho as (l & Hl & _). apply find_slot in Hl. apply elem_of_seqZ.
  assert (is_Some (objects d !! x)) as H%(ti_range d (ok_table d Hok)) by (by eexists). lia.
Qed.

Lemma world_users : users_ok world.
Proof.
  apply users_ok_empty; [vm_compute; reflexivity|]. intros x o Ho.
  assert (Forall (fun x => match object_of world x with Some o => dbpriv_object_has_flag o FLAG_USER = false | None => True end)
    (seqZ 0 (num_objects world))) as H by (vm_compute; repeat constructor).
  rewrite Forall_forall in H. specialize (H x (object_in_range _ _ _ world_ok Ho)). by rewrite Ho in H.
Qed.

Lemma set_player_flag_correct_witness :
  let run := bf_set_player_flag 3 (VInt 1) 0 world in
  if negb (valid world 3) then run = Some (Done (PError E_INVARG), world)
  else if negb (is_wizard world 0) then run = Some (Done (PError E_PERM), world)
  else exists d', run = Some (Done no_var_pack, d') /\ db_ok d' /\ users_ok d' /\
    (forall y, is_user d' y = if decide (y = 3) then is_true (VInt 1) else is_user world y) /\
    forall y, valid d' y = valid world y.
Proof. exact (set_player_flag_correct world 3 (VInt 1) 0 world_ok world_users). Defined.

(** [locations] answers the chain of locations of the object from the
    inside out, up to but excluding the base object, and terminates. *)
Theorem locations_correct fuel d what base o
    (Hok : db_ok d) (Ho : object_of d what = Some o) (Hf : (walk_fuel d <= fuel)%nat) :
  exists l, bf_locations fuel what base false d = Some (Done (PVar (VList (VObj <$> l))), d) /\
    chain d base (location o) l /\ NoDup l /\ forall y, y ∈ l -> within d what y.
Proof.
  destruct (bf_locations_ok fuel d what base o Hok Ho Hf) as (l & E & Hc). exists l. split; [done|]. split; [done|].
  assert (valid d (location o) = true -> within d what (location o)) as Hw.
  { intros Hv. apply tc_once. exists o. split; [done|]. split; [|done]. by apply list_elem_of_singleton. }
  clear E. revert Hw. generalize (location o) as x, Hc. clear Hc. intros x Hc.
  induction Hc as [x Hv|x Hv Hb Hx|x p l Hp Hb Hc IH]; intros Hw; try (split; [constructor|by intros y ?%not_elem_of_nil]).
  pose proof (object_valid _ _ _ Hp) as Hv. specialize (Hw Hv).
  assert (valid d (location p) = true -> edge location_of d x (location p)) as He.
  { intros Hvl. exists p. split; [done|]. split; [|done]. by apply list_elem_of_singleton. }
  destruct IH as [IH1 IH2]; [intros Hvl; eapply tc_r; [exact Hw|by apply He]|].
  split; [|intros y [->|Hy]%elem_of_cons; [done|by apply IH2]].
  apply NoDup_cons. split; [|done]. intros Hin. apply (acyclic_tc (edge location_of d) x); [apply Hok|].
  clear -Hc Hin He. assert (forall z l, chain d base z l -> x ∈ l -> valid d z = true /\ (z = x \/ tc (edge location_of d) z x)) as Hch.
  { clear. intros z l. induction 1 as [z Hv|z Hv _ _|z q l Hq _ _ IH]; try by intros ?%not_elem_of_nil.
    intros [->|Hx]%elem_of_cons; [split; [by eapply object_valid|by left]|]. destruct (IH Hx) as [Hv Hr].
    split; [by eapply object_valid|]. right. assert (edge location_of d z (location q)) as He.
    { exists q. split; [done|]. split; [|done]. by apply list_elem_of_singleton. }
    destruct Hr as [Hr|Hr]; [rewrite <- Hr; by apply tc_once|by eapply tc_l]. }
  destruct (Hch _ _ Hc Hin) as [Hv [Hr|Hr]]; [rewrite <- Hr at 2; by apply tc_once, He|eapply tc_l; [by apply He|done]].
Qed.

Lemma locations_correct_witness :
  exists o, object_of world 3 = Some o /\
  exists l, bf_locations 20 3 0 false world = Some (Done (PVar (VList (VObj <$> l))), world) /\
    chain world 0 (location o) l /\ NoDup l /\ forall y, y ∈ l -> within world 3 y.
Proof.
  destruct (object_of world 3) as [o|] eqn:E; [|vm_compute in E; discriminate E]. exists o. split; [done|].
  exact (locations_correct 20 world 3 0 o world_ok E world_fuel).
Defined.

(** ** [recreate] *)

(** [recreate] of a free number below the last, with a parent that is
    valid or nothing: errors in the code's order; otherwise the property
    check refuses and nothing but the cache has changed, or the number is an
    object again, as a new one. *)
Theorem recreate_correct check call_verb fuel d old parent who data progr
    (Hok : db_ok d) (Hn : num_objects d + 1 < 2 ^ 30) (Hf : (walk_fuel d + 1 <= fuel)%nat) (Hp : parents_wf d (inl parent)) :
  let run := bf_recreate check call_verb fuel old parent who 1 data progr d in
  let owner := match who with Some o => if valid d o then o else progr | None => progr end in
  if (old <=? 0) || (db_last_used_objid d <? old) || valid d old then run = Some ((VNone, Done (PError E_INVARG)), d)
  else if (negb (progr =? owner) && negb (is_wizard d progr)) || negb (allowed_parents d progr FLAG_FERTILE (inl parent))
  then run = Some ((VNone, Done (PError E_PERM)), d)
  else exists r o d', run = Some ((r, o), d') /\ db_ok d' /\ num_objects d' = num_objects d /\
    ((o = Done (PError E_INVARG) /\ forall z, object_of d' z = object_of d z) \/
     (r = VObj old /\ started r o /\ object_of d' old = Some (created old (if valid d owner then owner else old) (inl parent)) /\
      forall z, z <> old -> parents_at d' z = parents_at d z /\ location_at d' z = location_at d z)).
Proof.
  intros run owner. pose proof (bf_recreate_ok check call_verb fuel d old parent who data progr Hok Hn Hf Hp) as H.
  cbv zeta in H. fold owner run in H. destruct ((old <=? 0) || (db_last_used_objid d <? old) || valid d old) eqn:E; [done|].
  destruct (_ || negb (allowed_parents _ _ _ _)); [done|]. destruct H as (r & o & d' & Er & Hok' & H).
  exists r, o, d'. split; [done|]. split; [done|]. apply orb_false_iff in E as [[_ E%Z.ltb_ge]%orb_false_iff _].
  unfold db_last_used_objid in E. destruct H as [(H1 & H2 & H3)|(H1 & H2 & [G1 G2 G3])]; [split; [done|by left]|].
  split; [lia|]. right. split; [done|]. split; [done|]. split; [done|]. intros z Hz. unfold parents_at, location_at.
  rewrite (G3 z Hz). destruct (object_of d z); [|done]. simpl. by rewrite relinked_parents, relinked_location, decide_False.
Qed.

(** [world] without its object 1 *)
Definition world_gap : db := after (bf_recycle any_check no_verb 20 (VObj 1) 1 0) world.
Lemma world_gap_ok : db_ok world_gap.
Proof.
  apply after_ok. destruct (object_of world 1) as [o|] eqn:E; [|vm_compute in E; discriminate E].
  pose proof (bf_recycle_ok any_check no_verb 20 world 1 o 1 0) as H. cbv zeta in H.
  assert (controls_it world 0 1 = true) as Hc by (vm_compute; reflexivity). rewrite Hc in H.
  change ((1 =? 1) && negb true) with false in H. cbv iota in H.
  destruct H as (r & d' & Er & Hok & _); [done|apply world_ok|done|vm_compute; reflexivity| |by left|].
  - vm_compute in E. injection E as <-. apply Nat.leb_le. vm_compute. reflexivity.
  - exists r, d'. exact (conj Er Hok).
Qed.
Lemma world_gap_fuel : (walk_fuel world_gap + 1 <= 20)%nat.
Proof. fuel_tac. Qed.

Lemma recreate_correct_witness :
  let run := bf_recreate any_check no_verb 20 1 2 (Some 3) 1 VNone 0 world_gap in
  if (1 <=? 0) || (db_last_used_objid world_gap <? 1) || valid world_gap 1 then run = Some ((VNone, Done (PError E_INVARG)), world_gap)
  else if (negb (0 =? (if valid world_gap 3 then 3 else 0)) && negb (is_wizard world_gap 0)) || negb (allowed_parents world_gap 0 FLAG_FERTILE (inl 2))
  then run = Some ((VNone, Done (PError E_PERM)), world_gap)
  else exists r o d', run = Some ((r, o), d') /\ db_ok d' /\ num_objects d' = num_objects world_gap /\
    ((o = Done (PError E_INVARG) /\ forall z, object_of d' z = object_of world_gap z) \/
     (r = VObj 1 /\ started r o /\
      object_of d' 1 = Some (created 1 (if valid world_gap (if valid world_gap 3 then 3 else 0) then (if valid world_gap 3 then 3 else 0) else 1) (inl 2)) /\
      forall z, z <> 1 -> parents_at d' z = parents_at world_gap z /\ location_at d' z = location_at world_gap z)).
Proof.
  apply (recreate_correct any_check no_verb 20 world_gap 1 2 (Some 3) VNone 0 world_gap_ok);
    [by vm_compute|apply world_gap_fuel|right; vm_compute; reflexivity].
Defined.

Lemma after_eq {A} (m : M db A) d : match m d with Some _ => true | None => false end = true -> exists r, m d = Some (r, after m d).
Proof. unfold after. destruct (m d) as [[r d']|]; [|done]. intros _. by exists r. Qed.

(** With a parent that does not exist the table's null entry is used as an
    object ... *)
Theorem recreate_no_parent : bf_recreate any_check no_verb 20 1 99 None 1 VNone 0 world_gap = None.
Proof. vm_compute. reflexivity. Qed.

(** ... and the number itself, which is free when it is tested and taken when
    it is used, becomes its own parent; [isa] on it does not end. *)
Definition world_loop : db := after (bf_recreate any_check no_verb 20 1 1 None 1 VNone 0) world_gap.

Lemma world_loop_isa fuel : isa_loop fuel (VObj 0) [1] world_loop = None.
Proof.
  induction fuel as [|fuel IH]; [done|]. cbn [isa_loop]. change (1 =? NOTHING) with false. cbv iota.
  change (equality (VObj 1) (VObj 0) false) with (Some false). cbv iota.
  destruct (slot 1 world_loop) as [[l d]|] eqn:E; [|vm_compute in E; discriminate E].
  assert (d = world_loop) as -> by (unfold slot in E; destruct (dbpriv_find_object world_loop 1); congruence).
  erewrite mbind_Some by exact E. cbv beta.
  destruct (load l world_loop) as [[t d]|] eqn:Et; [|vm_compute in E; injection E as <-; vm_compute in Et; discriminate Et].
  assert (d = world_loop /\ enlist (parents t) = [1]) as [-> Hp].
  { split; [unfold load in Et; destruct (obj_heap world_loop !! l); congruence|].
    vm_compute in E. injection E as <-. vm_compute in Et. by injection Et as <- _. }
  erewrite mbind_Some by exact Et. cbv beta. by rewrite Hp.
Qed.

Theorem recreate_own_parent :
  (exists r, bf_recreate any_check no_verb 20 1 1 None 1 VNone 0 world_gap = Some (r, world_loop)) /\
  ancestor world_loop 1 1 /\ forall fuel, db_object_isa fuel (VObj 1) (VObj 0) world_loop = None.
Proof.
  split.
  { refine (after_eq (bf_recreate any_check no_verb 20 1 1 None 1 VNone 0) world_gap _). vm_compute. reflexivity. }
  split.
  - apply tc_once. destruct (object_of world_loop 1) as [o|] eqn:E; [|vm_compute in E; discriminate E]. exists o.
    split; [done|]. split; [|vm_compute; reflexivity]. vm_compute in E. injection E as <-. by left.
  - intros fuel. unfold db_object_isa. change (equality (VObj 1) (VObj 0) false) with (Some false). cbv iota.
    destruct (dbpriv_dereference (VObj 1) world_loop) as [[l d]|] eqn:E; [|vm_compute in E; discriminate E].
    assert (d = world_loop) as ->.
    { unfold dbpriv_dereference, slot in E. destruct (dbpriv_find_object world_loop 1); congruence. }
    erewrite mbind_Some by exact E. cbv beta.
    destruct (load l world_loop) as [[t d]|] eqn:Et; [|vm_compute in E; injection E as <-; vm_compute in Et; discriminate Et].
    assert (d = world_loop /\ enlist (parents t) = [1]) as [-> Hp].
    { split; [unfold load in Et; destruct (obj_heap world_loop !! l); congruence|].
      vm_compute in E. injection E as <-. vm_compute in Et. by injection Et as <- _. }
    erewrite mbind_Some by exact Et. cbv beta. rewrite Hp. apply world_loop_isa.
Qed.
