(* ===== verification/NumCode.v ===== *)
(** * Numbers (numbers.cc)

    The arithmetic of the interpreter on integers of 64 bits, which wrap
    around, and on binary64 floating point numbers ([SpecFloat], rounding to
    nearest), the conversions between numbers and strings, and the numeric
    built-ins.  [None] is undefined behaviour: a division that traps, a cast
    of a value outside the target type, a read past the end of a list.
    [strtoimax], [ceil], [floor], [round] and [fmod] of the C library are
    written out; [strtod] and the transcendental functions are parameters. *)
From Stdlib Require Import ZArith Lia.
From Stdlib Require Import Floats.SpecFloat.
From stdpp Require Import prelude.
From S2P Require Import Prelude CString Value.

Local Open Scope Z_scope.

(** structures.h *)
Definition MAXINT : Z := 9223372036854775807.
Definition MININT : Z := -9223372036854775807.

(** [IS_REAL] of my-math.h *)
Definition IS_REAL (d : double) : bool :=
  match d with S754_zero _ | S754_finite _ _ _ => true | _ => false end.

(** ** Conversions of the language *)

Definition double_of_num (z : Z) : double := binary_normalize prec emax z 0 false.
Definition signed (s : bool) (m : Z) : Z := if s then - m else m.
Definition truncate (d : double) : option Z :=
  match d with
  | S754_zero _ => Some 0
  | S754_finite s m e => Some (signed s (if 0 <=? e then Z.pos m * 2 ^ e else Z.pos m / 2 ^ (- e)))
  | _ => None
  end.
(** [(Num) d] and [(int) d] *)
Definition cast (w : Z) (d : double) : option Z :=
  match truncate d with
  | Some z => if (- 2 ^ (w - 1) <=? z) && (z <? 2 ^ (w - 1)) then Some z else None
  | None => None
  end.

(** An integer as a double with the sign [s] of its zero *)
Definition of_integer (s : bool) (z : Z) : double := if z =? 0 then S754_zero s else binary_normalize prec emax z 0 s.
Definition c_floor (d : double) : double :=
  match d with
  | S754_finite s m e => if 0 <=? e then d else of_integer s (signed s (Z.pos m) / 2 ^ (- e))
  | _ => d
  end.
Definition c_ceil (d : double) : double :=
  match d with
  | S754_finite s m e => if 0 <=? e then d else of_integer s (- ((- signed s (Z.pos m)) / 2 ^ (- e)))
  | _ => d
  end.
Definition c_round (d : double) : double :=
  match d with
  | S754_finite s m e => if 0 <=? e then d else of_integer s (signed s ((2 * Z.pos m + 2 ^ (- e)) / 2 ^ (- e + 1)))
  | _ => d
  end.

(** [fmod] is exact: the remainder of the integers over the common exponent. *)
Definition c_fmod (x y : double) : double :=
  match x, y with
  | S754_nan, _ | _, S754_nan | S754_infinity _, _ | _, S754_zero _ => S754_nan
  | S754_zero _, _ | _, S754_infinity _ => x
  | S754_finite s m e, S754_finite _ m' e' =>
    let e0 := Z.min e e' in
    let r := Z.rem (Z.pos m * 2 ^ (e - e0)) (Z.pos m' * 2 ^ (e' - e0)) in
    if r =? 0 then S754_zero s else binary_normalize prec emax (signed s r) e0 s
  end.

(** ** Strings to numbers *)

Definition isspace (c : Z) : bool := (c =? 32) || ((9 <=? c) && (c <=? 13)).
Fixpoint skip_white (s : bytes) : bytes :=
  match s with c :: s' => if isspace c then skip_white s' else s | [] => [] end.
Fixpoint digits_value (s : bytes) (acc : Z) : Z * bytes :=
  match s with
  | c :: s' => if isdigit c then digits_value s' (10 * acc + (c - 48)) else (acc, s)
  | [] => (acc, s)
  end.
Definition clamp (z : Z) : Z := Z.max (- 2 ^ 63) (Z.min (2 ^ 63 - 1) z).
(** [strtoimax(str, &p, 10)]: the value, and the rest of the string or the
    whole of it when there is no number *)
Definition strtoimax (str : bytes) : Z * bytes :=
  let s := skip_white str in
  let '(neg, s) := match s with
                   | 45 :: s' => (true, s')
                   | 43 :: s' => (false, s')
                   | _ => (false, s)
                   end in
  match s with
  | c :: _ => if isdigit c then let '(v, p) := digits_value s 0 in (clamp (signed neg v), p) else (0, str)
  | [] => (0, str)
  end.

Definition only_spaces (p : bytes) : bool := forallb (Z.eqb 32) p.
Fixpoint skip_blanks (s : bytes) : bytes := match s with 32 :: s' => skip_blanks s' | _ => s end.

Section parse.
Context (strtod : bytes -> double * bytes).

(** The result and whether the string is a number *)
Definition parse_number (str : bytes) (try_floating_point : bool) : option (Z * bool) :=
  let '(result, p) := strtoimax str in
  let r := if try_floating_point &&
              (bool_decide (p = str) || match p with c :: _ => (c =? 46) || (c =? 101) || (c =? 69) | [] => false end)
           then let '(d, p) := strtod str in
                match cast 64 d with Some z => Some (z, p) | None => None end
           else Some (result, p) in
  match r with
  | None => None
  | Some (result, p) => Some (result, negb (bool_decide (p = str)) && only_spaces p)
  end.

Definition parse_object (str : bytes) : option (Z * bool) :=
  let str := skip_blanks str in
  let str := match str with 35 :: s' => s' | _ => str end in
  parse_number str false.

Definition parse_float (str : bytes) : double * bool :=
  let str := skip_blanks str in
  let '(negative, str) := match str with 45 :: s' => (true, s') | _ => (false, str) end in
  let '(result, p) := strtod str in
  if bool_decide (p = str) || negb (only_spaces p) then (result, false)
  else ((if negative : bool then SFopp result else result), true).

(** A value or an error *)
Definition become_integer (inp : Var) (called_from_toint : bool) : option (Z + error) :=
  match inp with
  | VInt n => Some (inl n)
  | VStr s =>
    match (if called_from_toint then parse_number s true else parse_object s) with
    | Some (n, true) => Some (inl n)
    | Some (_, false) => Some (inl 0)
    | None => None
    end
  | VObj o => Some (inl o)
  | VErr e => Some (inl (error_code e))
  | VFloat f => if negb (IS_REAL f) then Some (inr E_FLOAT) else inl <$> cast 64 f
  | VBool b => Some (inl (Z.b2z b))
  | VMap _ | VList _ | VAnon _ | VWaif _ => Some (inr E_TYPE)
  | _ => None
  end.

Definition become_float (inp : Var) : option (double + error) :=
  match inp with
  | VInt n => Some (inl (double_of_num n))
  | VStr s => let '(d, ok) := parse_float s in if negb ok || negb (IS_REAL d) then Some (inr E_INVARG) else Some (inl d)
  | VObj o => Some (inl (double_of_num o))
  | VErr e => Some (inl (double_of_num (error_code e)))
  | VFloat f => Some (inl f)
  | VMap _ | VList _ | VAnon _ | VWaif _ | VBool _ => Some (inr E_TYPE)
  | _ => None
  end.

Definition pack_of {A} (f : A -> Var) (r : option (A + error)) : option package :=
  match r with Some (inl x) => Some (PVar (f x)) | Some (inr e) => Some (PError e) | None => None end.
Definition bf_toint (v : Var) : option package := pack_of VInt (become_integer v true).
Definition bf_toobj (v : Var) : option package := pack_of VObj (become_integer v false).
Definition bf_tofloat (v : Var) : option package := pack_of VFloat (become_float v).
End parse.

(** ** Operators *)

Definition do_equals (lhs rhs : Var) : bool :=
  match lhs, rhs with VFloat a, VFloat b => SFeqb a b | _, _ => false end.
Definition compare_integers (a b : Z) : Z := if a <? b then -1 else if b <? a then 1 else 0.
Definition compare_numbers (a b : Var) : option Var :=
  if negb (type_of a =? type_of b) then Some (VErr E_TYPE)
  else match a, b with
       | VInt a, VInt b => Some (VInt (if a <? b then -1 else if b <? a then 1 else 0))
       | VFloat a, VFloat b => Some (VInt (if SFltb a b then -1 else if SFltb b a then 1 else 0))
       | _, _ => None
       end.

Definition real_or_error (d : double) : Var := if IS_REAL d then VFloat d else VErr E_FLOAT.

(** [SIMPLE_BINARY(name, op)] *)
Definition simple_binary (op : Z -> Z -> Z) (fop : double -> double -> double) (a b : Var) : option Var :=
  if negb (type_of a =? type_of b) then Some (VErr E_TYPE)
  else match a, b with
       | VInt a, VInt b => Some (VInt (to_num (op a b)))
       | VFloat a, VFloat b => Some (real_or_error (fop a b))
       | _, _ => None
       end.
Definition do_add := simple_binary Z.add (SFadd prec emax).
Definition do_subtract := simple_binary Z.sub (SFsub prec emax).
Definition do_multiply := simple_binary Z.mul (SFmul prec emax).

(** [a / b] and [a % b] in [Num]: the smallest integer and -1 trap *)
Definition c_div (a b : Z) : option Z := if (b =? 0) || ((a =? - 2 ^ 63) && (b =? -1)) then None else Some (Z.quot a b).
Definition c_rem (a b : Z) : option Z := if (b =? 0) || ((a =? - 2 ^ 63) && (b =? -1)) then None else Some (Z.rem a b).

Definition do_modulus (a b : Var) : option Var :=
  if negb (type_of a =? type_of b) then Some (VErr E_TYPE)
  else match a, b with
       | VInt n, VInt d =>
         if d =? 0 then Some (VErr E_DIV)
         else match c_rem n d with
              | Some r => VInt <$> c_rem (to_num (r + d)) d
              | None => None
              end
       | VFloat n, VFloat d =>
         if SFeqb d fzero then Some (VErr E_DIV)
         else Some (VFloat (c_fmod (SFadd prec emax (c_fmod n d) d) d))
       | _, _ => None
       end.

Definition do_divide (a b : Var) : option Var :=
  if negb (type_of a =? type_of b) then Some (VErr E_TYPE)
  else match a, b with
       | VInt n, VInt d =>
         if d =? 0 then Some (VErr E_DIV)
         else if (n =? MININT) && (d =? -1) then Some (VInt MININT)
         else VInt <$> c_div n d
       | VFloat n, VFloat d =>
         if SFeqb d fzero then Some (VErr E_DIV) else Some (real_or_error (SFdiv prec emax n d))
       | _, _ => None
       end.

(** [while (b != 0)] *)
Fixpoint power_loop (fuel : nat) (a b r : Z) : option Z :=
  match fuel with
  | O => None
  | S fuel =>
    if b =? 0 then Some r
    else power_loop fuel (to_num (a * a)) (Z.shiftr b 1) (if Z.odd b then to_num (r * a) else r)
  end.

Section libm.
(** [pow]: the result and [errno] *)
Context (pow : double -> double -> double * Z).

Definition do_power (lhs rhs : Var) : option Var :=
  match lhs, rhs with
  | VInt a, VInt b =>
    if b <? 0 then
      Some (if a =? -1 then VInt (if Z.odd b then 1 else -1)
            else if a =? 0 then VErr E_DIV
            else if a =? 1 then VInt 1
            else VInt 0)
    else VInt <$> power_loop 64 a b 1
  | VFloat a, VInt _ | VFloat a, VFloat _ =>
    let d := match rhs with VInt b => double_of_num b | VFloat b => b | _ => fzero end in
    let '(d, errno) := pow a d in
    Some (if negb (errno =? 0) || negb (IS_REAL d) then VErr E_FLOAT else VFloat d)
  | _, _ => Some (VErr E_TYPE)
  end.

(** [MATH_FUNC(name)], for the function and its [errno] *)
Definition EDOM : Z := 33.
Definition math_pack (r : double * Z) : package :=
  let '(result, errno) := r in
  if errno =? EDOM then PError E_INVARG
  else if negb (errno =? 0) || negb (IS_REAL result) then PError E_FLOAT
  else PVar (VFloat result).
Definition math_func (name : double -> double * Z) (arg : double) : package := math_pack (name arg).
Definition bf_trunc (d : double) : package := math_pack (if SFltb d fzero then c_ceil d else c_floor d, 0).
Definition bf_round (d : double) : package := PVar (VFloat (c_round d)).

Context (atan2 : double -> double -> double * Z) (atan : double -> double * Z).
Definition bf_atan (d : double) (dd : option double) : package :=
  math_pack match dd with Some dd => atan2 d dd | None => atan d end.
(** [errno] is what an earlier call left: it is not cleared here. *)
Definition bf_atan2 (errno : Z) (y x : double) : package :=
  let '(result, e) := atan2 y x in
  let errno := if e =? 0 then errno else e in
  if errno =? EDOM then PError E_INVARG else PVar (VFloat result).
End libm.

(** ** Built-ins *)

(** The loops of [bf_min] and [bf_max], for the comparison of the two *)
Fixpoint extreme (better_int : Z -> Z -> bool) (better_float : double -> double -> bool) (args : list Var) (r : Var) (bad : bool) : Var * bool :=
  match args with
  | [] => (r, bad)
  | v :: args =>
    match r, v with
    | VInt m, VInt n => extreme better_int better_float args (if better_int n m then v else r) bad
    | VFloat m, VFloat n => extreme better_int better_float args (if better_float n m then v else r) bad
    | _, _ => extreme better_int better_float args r true
    end
  end.
Definition extreme_pack (r : Var * bool) : package := if snd r then PError E_TYPE else PVar (fst r).
Definition bf_min (first : Var) (args : list Var) : package :=
  extreme_pack (extreme Z.ltb SFltb args first false).
Definition bf_max (first : Var) (args : list Var) : package :=
  extreme_pack (extreme (fun a b => b <? a) (fun a b => SFltb b a) args first false).

Definition bf_abs (v : Var) : option package :=
  match v with
  | VInt n => Some (PVar (VInt (if n <? 0 then to_num (- n) else n)))
  | VFloat d => Some (PVar (VFloat (SFabs d)))
  | _ => None
  end.

(** The distribution of the generator is a parameter. *)
Definition bf_random (uniform : Z -> Z -> Z) (args : list Z) : package :=
  let minnum := match args with [m; _] => m | _ => 1 end in
  let maxnum := match last args with Some m => m | None => 2 ^ 63 - 1 end in
  if (maxnum <? minnum) || (maxnum <? minnum) then PError E_INVARG else PVar (VInt (uniform minnum maxnum)).

(** [f] is the quotient [rand() / RAND_MAX]. *)
Definition bf_frandom (f : double) (args : list double) : package :=
  let '(fmin, fmax) := match args with [a; b] => (a, b) | a :: _ => (fzero, a) | [] => (fzero, fzero) end in
  PVar (VFloat (SFadd prec emax fmin (SFmul prec emax f (SFsub prec emax fmax fmin)))).

Definition coordinate (v : Var) : option double :=
  match v with VInt n => Some (double_of_num n) | VFloat d => Some d | _ => None end.
(** The element of the second list is read even past its end. *)
Fixpoint distance_loop (l1 l2 : list Var) (ret : double) : option (double + error) :=
  match l1, l2 with
  | [], _ => Some (inl ret)
  | x :: _, [] => match coordinate x with Some _ => None | None => Some (inr E_TYPE) end
  | x :: l1, y :: l2 =>
    match coordinate x, coordinate y with
    | Some a, Some b =>
      let tmp := SFsub prec emax b a in
      distance_loop l1 l2 (SFadd prec emax ret (SFmul prec emax tmp tmp))
    | _, _ => Some (inr E_TYPE)
    end
  end.
Definition bf_distance (l1 l2 : list Var) : option package :=
  pack_of (fun ret => VFloat (SFsqrt prec emax ret)) (distance_loop l1 l2 fzero).
