(* ===== verification/Numbers.v ===== *)
(** * Numbers: their properties *)
From Stdlib Require Import ZArith Lia.
From Stdlib Require Import Floats.SpecFloat.
From stdpp Require Import prelude strings.
From S2P Require Import Prelude CString Value NumCode.

Local Open Scope Z_scope.

Definition is_num (z : Z) : Prop := - 2 ^ 63 <= z < 2 ^ 63.

#[export] Instance is_num_dec z : Decision (is_num z).
Proof. unfold is_num. apply _. Defined.

Lemma to_num_id z : is_num z -> to_num z = z.
Proof. intros H. exact (wrapS_id 64 z eq_refl H). Qed.
Lemma to_num_range z : is_num (to_num z).
Proof. exact (wrapS_range 64 z eq_refl). Qed.
Lemma to_num_eqm x y : is_num x -> x `mod` 2 ^ 64 = y `mod` 2 ^ 64 -> x = to_num y.
Proof.
  intros Hx E. unfold to_num, wrapS. rewrite Z.add_mod, <- E, <- Z.add_mod by done.
  unfold is_num in Hx. change (64 - 1) with 63. rewrite Z.mod_small by lia. lia.
Qed.
Lemma to_num_mod z : to_num z `mod` 2 ^ 64 = z `mod` 2 ^ 64.
Proof. exact (wrapS_mod 64 z eq_refl). Qed.
Lemma mul_eqm a b c d :
  a `mod` 2 ^ 64 = b `mod` 2 ^ 64 -> c `mod` 2 ^ 64 = d `mod` 2 ^ 64 -> (a * c) `mod` 2 ^ 64 = (b * d) `mod` 2 ^ 64.
Proof. intros H1 H2. by rewrite Z.mul_mod, H1, H2, <- Z.mul_mod by done. Qed.

(** ** Decimal notation *)

(** The digits of a natural number, as [%d] of the C library prints them *)
Fixpoint digits (fuel : nat) (n : Z) : bytes :=
  match fuel with
  | O => []
  | S fuel => if n <? 10 then [48 + n] else digits fuel (n / 10) ++ [48 + n `mod` 10]
  end.
Definition digit_fuel (n : Z) : nat := S (Z.to_nat (Z.log2 n)).
Definition decimal (z : Z) : bytes :=
  if z <? 0 then 45 :: digits (digit_fuel (- z)) (- z) else digits (digit_fuel z) z.

Definition value_of (l : bytes) (acc : Z) : Z := fold_left (fun a c => 10 * a + (c - 48)) l acc.

Lemma digits_value_app l : forall rest acc,
  Forall (fun c => isdigit c = true) l -> match rest with c :: _ => isdigit c = false | [] => True end ->
  digits_value (l ++ rest) acc = (value_of l acc, rest).
Proof.
  induction l as [|c l IH]; intros rest acc Hl Hr; simpl.
  - destruct rest as [|c rest]; [done|]. simpl. by rewrite Hr.
  - apply Forall_cons in Hl as [Hc Hl]. rewrite Hc. by apply IH.
Qed.

Lemma digits_ok fuel : forall n, 0 <= n -> n < 2 ^ Z.of_nat fuel -> (0 < fuel)%nat ->
  Forall (fun c => isdigit c = true) (digits fuel n) /\ digits fuel n <> [] /\ value_of (digits fuel n) 0 = n.
Proof.
  induction fuel as [|fuel IH]; intros n H0 Hn Hf; [lia|]. cbn [digits].
  assert (forall d, 0 <= d < 10 -> isdigit (48 + d) = true) as Hd by (intros d Hd; unfold isdigit; lia).
  destruct (Z.ltb_spec n 10) as [Hs|Hs].
  - split; [repeat constructor; by apply Hd|]. split; [done|]. unfold value_of. cbn [fold_left]. lia.
  - rewrite Nat2Z.inj_succ, Z.pow_succ_r in Hn by lia.
    destruct (IH (n / 10)) as (H1 & H2 & H3).
    + apply Z.div_pos; lia.
    + apply Z.div_lt_upper_bound; lia.
    + destruct fuel; [simpl in Hn; lia|lia].
    + pose proof (Z.mod_pos_bound n 10 ltac:(lia)) as Hm. pose proof (Z.div_mod n 10 ltac:(lia)) as Hq. split_and!.
      * apply Forall_app. split; [done|]. repeat constructor. by apply Hd.
      * intros E%app_eq_nil. by destruct E.
      * unfold value_of in *. rewrite fold_left_app, H3. cbn [fold_left]. lia.
Qed.

Lemma digit_fuel_ok n : 0 <= n -> n < 2 ^ Z.of_nat (digit_fuel n).
Proof.
  intros H. unfold digit_fuel. rewrite Nat2Z.inj_succ, Z2Nat.id by apply Z.log2_nonneg.
  destruct (decide (n = 0)) as [->|]; [done|]. apply Z.log2_spec. lia.
Qed.

Lemma skip_white_app ws s :
  Forall (fun c => isspace c = true) ws -> match s with c :: _ => isspace c = false | [] => True end -> skip_white (ws ++ s) = s.
Proof.
  induction 1 as [|c ws Hc _ IH]; intros Hs; simpl; [destruct s; [done|]; simpl; by rewrite Hs|]. rewrite Hc. by apply IH.
Qed.

(** Two shapes of the text after the sign *)
Lemma isdigit_not c : isdigit c = true -> isspace c = false /\ c <> 45 /\ c <> 43 /\ c <> 32 /\ c <> 35.
Proof. unfold isdigit, isspace. intros H. split; [lia|]. lia. Qed.

Lemma strtoimax_sign ws (neg : bool) l rest :
  Forall (fun c => isspace c = true) ws -> Forall (fun c => isdigit c = true) l -> l <> [] ->
  match rest with c :: _ => isdigit c = false | [] => True end ->
  strtoimax (ws ++ (if neg then [45] else []) ++ l ++ rest) = (clamp (signed neg (value_of l 0)), rest).
Proof.
  intros Hws Hl Hne Hr. unfold strtoimax. destruct l as [|c l]; [done|].
  pose proof (Forall_cons_1 _ _ _ Hl) as [Hc _]. pose proof (isdigit_not c Hc) as (H1 & H2 & H3 & _).
  rewrite skip_white_app; [|done|by destruct neg]. pose proof (digits_value_app (c :: l) rest 0 Hl Hr) as E.
  destruct neg; cbn [app] in *.
  - cbv beta iota. by rewrite Hc, E.
  - assert (match c :: l ++ rest with 45 :: s' => (true, s') | 43 :: s' => (false, s') | _ => (false, c :: l ++ rest) end
      = (false, c :: l ++ rest)) as ->.
    { repeat (case_match; try done); congruence. }
    cbv beta iota. by rewrite Hc, E.
Qed.

Lemma decimal_eq z : exists l, decimal z = (if z <? 0 then [45] else []) ++ l /\ Forall (fun c => isdigit c = true) l /\ l <> [] /\
  signed (z <? 0) (value_of l 0) = z.
Proof.
  unfold decimal, signed. destruct (Z.ltb_spec z 0) as [Hz|Hz].
  - destruct (digits_ok (digit_fuel (- z)) (- z)) as (H1 & H2 & H3); [lia|apply digit_fuel_ok; lia|unfold digit_fuel; lia|].
    exists (digits (digit_fuel (- z)) (- z)). rewrite H3. split_and!; try done. lia.
  - destruct (digits_ok (digit_fuel z) z) as (H1 & H2 & H3); [lia|by apply digit_fuel_ok|unfold digit_fuel; lia|].
    exists (digits (digit_fuel z) z). by rewrite H3.
Qed.

Lemma parse_number_decimal strtod ws z k tf :
  Forall (fun c => isspace c = true) ws ->
  parse_number strtod (ws ++ decimal z ++ replicate k 32) tf = Some (clamp z, true).
Proof.
  intros Hws. destruct (decimal_eq z) as (l & -> & Hl & Hne & Hz). unfold parse_number. rewrite <- app_assoc.
  rewrite strtoimax_sign; [|done..|by destruct k]. rewrite Hz.
  assert (replicate k 32 <> ws ++ (if z <? 0 then [45] else []) ++ l ++ replicate k 32) as Hp.
  { intros E%(f_equal length). rewrite !length_app in E. destruct l; [done|]. simpl in E. lia. }
  rewrite bool_decide_eq_false_2 by done.
  assert (match replicate k 32 with c :: _ => (c =? 46) || (c =? 101) || (c =? 69) | [] => false end = false) as -> by (by destruct k).
  rewrite andb_false_r. rewrite bool_decide_eq_false_2 by done. cbn [negb andb]. f_equal. f_equal.
  unfold only_spaces. clear. induction k; [done|]. simpl. done.
Qed.

Lemma skip_blanks_app j s : match s with c :: _ => c <> 32 | [] => True end -> skip_blanks (replicate j 32 ++ s) = s.
Proof.
  intros Hs. induction j as [|j IH]; [|exact IH]. simpl. destruct s as [|c s]; [done|]. simpl. repeat (case_match; try done).
Qed.

(** C37: an integer survives being written and read: [toint] (which also
    tries floating point) on its decimal notation, with white space before
    and blanks after, and [toobj] on it after a hash mark, with blanks around,
    give it back; a number too large for 64 bits is read as the nearest that
    fits. *)
Theorem number_roundtrip strtod ws j k z (Hws : Forall (fun c => isspace c = true) ws) :
  bf_toint strtod (VStr (ws ++ decimal z ++ replicate k 32)) = Some (PVar (VInt (clamp z))) /\
  bf_toobj strtod (VStr (replicate j 32 ++ 35 :: decimal z ++ replicate k 32)) = Some (PVar (VObj (clamp z))) /\
  (is_num z -> clamp z = z).
Proof.
  split; [|split].
  - unfold bf_toint, become_integer. by rewrite parse_number_decimal.
  - unfold bf_toobj, become_integer, parse_object. rewrite skip_blanks_app by done.
    pose proof (parse_number_decimal strtod [] z k false) as E. simpl in E. by rewrite E.
  - unfold is_num, clamp. lia.
Qed.

Definition no_strtod (s : bytes) : double * bytes := (fzero, s).
Lemma number_roundtrip_witness :
  bf_toint no_strtod (VStr ([9] ++ decimal (-1203) ++ replicate 2 32)) = Some (PVar (VInt (clamp (-1203)))) /\
  bf_toobj no_strtod (VStr (replicate 1 32 ++ 35 :: decimal (-1203) ++ replicate 2 32)) = Some (PVar (VObj (clamp (-1203)))) /\
  (is_num (-1203) -> clamp (-1203) = -1203).
Proof. apply (number_roundtrip no_strtod [9] 1 2 (-1203)). repeat constructor. Defined.
Example decimal_example : decimal (-1203) = str "-1203".
Proof. reflexivity. Qed.

(** ** Integer operators *)

Lemma type_num a b : type_of (VInt a) =? type_of (VInt b) = true.
Proof. done. Qed.

(** The remainder that a quotient leaves, for dividends of the divisor's sign *)
Lemma rem_unique a d q r : (0 < d -> 0 <= a /\ 0 <= r < d) -> (d < 0 -> a <= 0 /\ d < r <= 0) -> d <> 0 -> a = d * q + r -> Z.rem a d = r.
Proof.
  intros H1 H2 Hd E. destruct (Z.lt_gt_cases d 0) as [[Hn|Hp] _]; [done| |].
  - destruct (H2 Hn). rewrite <- (Z.opp_involutive d), Z.rem_opp_r, <- (Z.opp_involutive a), Z.rem_opp_l by lia.
    rewrite <- (Z.rem_unique (- a) (- d) q (- r)) by lia. lia.
  - destruct (H1 Hp). symmetry. apply (Z.rem_unique a d q); lia.
Qed.

(** [(n % d + d) % d] is the remainder of the floored division. *)
Lemma rem_floor n d : d <> 0 -> Z.rem (Z.rem n d + d) d = n `mod` d.
Proof.
  intros Hd. pose proof (Z.rem_bound_abs n d Hd) as Hb. pose proof (Z.quot_rem' n d) as Hq.
  set (r := Z.rem n d) in *. set (q := Z.quot n d) in *.
  assert ((0 <= r * d /\ n `mod` d = r /\ Z.rem (r + d) d = r) \/ (n `mod` d = r + d /\ Z.rem (r + d) d = r + d)) as H.
  { destruct (Z.le_gt_cases 0 (r * d)) as [Hs|Hs]; [left|right].
    - assert (0 < d /\ 0 <= r \/ d < 0 /\ r <= 0) as Hc by nia. split; [done|]. split.
      + symmetry. apply (Z.mod_unique n d q); lia.
      + apply (rem_unique _ _ 1); lia.
    - assert (0 < d /\ r < 0 \/ d < 0 /\ 0 < r) as Hc by nia. split.
      + symmetry. apply (Z.mod_unique n d (q - 1)); lia.
      + apply (rem_unique _ _ 0); lia. }
  destruct H as [(_ & -> & ->)|[-> ->]]; done.
Qed.

(** A sum that does not fit wraps around once, away from the divisor *)
Lemma to_num_wrap a b : b <> 0 -> is_num b -> ~ is_num (Z.rem a b + b) -> to_num (Z.rem a b + b) = Z.rem a b + b - Z.sgn b * 2 ^ 64.
Proof.
  intros Hb0 Hb Hn. pose proof (Z.rem_bound_abs a b Hb0) as Hr. rewrite <- (to_num_id (Z.rem a b + b - Z.sgn b * 2 ^ 64)).
  - unfold to_num, wrapS. f_equal. rewrite <- (Z.mod_add (Z.rem a b + b + 2 ^ (64 - 1)) (- Z.sgn b) (2 ^ 64)) by lia. f_equal. lia.
  - unfold is_num in *. destruct (Z.sgn_spec b) as [[? ->]|[[? ->]|[? ->]]]; lia.
Qed.

(** C36: integer [+], [-] and [*] are those of the integers modulo 2^64.  [/]
    truncates towards zero, but for two dividends by -1: -MAXINT is answered
    unchanged, and the smallest integer, -2^63, traps (no result).  [%] is the
    remainder with the sign of the divisor when the remainder of C plus the
    divisor fits in 64 bits; when it does not, it is the remainder of the sum
    that has wrapped around; and -2^63 by -1 traps.  Division by zero is
    E_DIV, and operands of different types E_TYPE. *)
Theorem integer_arithmetic_correct a b (Ha : is_num a) (Hb : is_num b) :
  (exists x, do_add (VInt a) (VInt b) = Some (VInt x) /\ is_num x /\ x `mod` 2 ^ 64 = (a + b) `mod` 2 ^ 64) /\
  (exists x, do_subtract (VInt a) (VInt b) = Some (VInt x) /\ is_num x /\ x `mod` 2 ^ 64 = (a - b) `mod` 2 ^ 64) /\
  (exists x, do_multiply (VInt a) (VInt b) = Some (VInt x) /\ is_num x /\ x `mod` 2 ^ 64 = (a * b) `mod` 2 ^ 64) /\
  do_divide (VInt a) (VInt 0) = Some (VErr E_DIV) /\ do_modulus (VInt a) (VInt 0) = Some (VErr E_DIV) /\
  (b <> 0 ->
   do_divide (VInt a) (VInt b) =
     (if decide (a = - 2 ^ 63 /\ b = -1) then None
      else if decide (a = - (2 ^ 63 - 1) /\ b = -1) then Some (VInt a)
      else Some (VInt (Z.quot a b))) /\
   do_modulus (VInt a) (VInt b) =
     (if decide (a = - 2 ^ 63 /\ b = -1) then None
      else if decide (is_num (Z.rem a b + b)) then Some (VInt (a `mod` b))
      else Some (VInt (Z.rem (Z.rem a b + b - Z.sgn b * 2 ^ 64) b)))) /\
  forall op v, op ∈ [do_add; do_subtract; do_multiply; do_divide; do_modulus] -> type_of v <> TYPE_INT ->
    op (VInt a) v = Some (VErr E_TYPE) /\ op v (VInt a) = Some (VErr E_TYPE).
Proof.
  unfold do_add, do_subtract, do_multiply, simple_binary, do_divide, do_modulus. cbn [type_of]. rewrite Z.eqb_refl. cbn [negb].
  split; [eexists; split; [done|]; split; [apply to_num_range|apply to_num_mod]|].
  split; [eexists; split; [done|]; split; [apply to_num_range|apply to_num_mod]|].
  split; [eexists; split; [done|]; split; [apply to_num_range|apply to_num_mod]|].
  split; [done|]. split; [done|]. split.
  - intros Hb0. rewrite (proj2 (Z.eqb_neq b 0)) by done. unfold MININT. split.
    + unfold c_div. case_decide; [|case_decide]; unfold is_num in *.
      * assert ((a =? -9223372036854775807) && (b =? -1) = false) as -> by lia. by assert ((b =? 0) || (a =? - 2 ^ 63) && (b =? -1) = true) as -> by lia.
      * assert ((a =? -9223372036854775807) && (b =? -1) = true) as -> by lia. do 2 f_equal. lia.
      * assert ((a =? -9223372036854775807) && (b =? -1) = false) as -> by lia. by assert ((b =? 0) || (a =? - 2 ^ 63) && (b =? -1) = false) as -> by lia.
    + unfold c_rem. case_decide as H1; [by assert ((b =? 0) || (a =? - 2 ^ 63) && (b =? -1) = true) as -> by lia|].
      assert ((b =? 0) || (a =? - 2 ^ 63) && (b =? -1) = false) as -> by lia.
      pose proof (Z.rem_bound_abs a b Hb0) as Hr. pose proof (to_num_wrap a b Hb0 Hb) as Hw.
      assert ((b =? 0) || (to_num (Z.rem a b + b) =? - 2 ^ 63) && (b =? -1) = false) as ->.
      { destruct (Z.eqb_spec b (-1)) as [->|]; [|lia]. assert (Z.rem a (-1) = 0) as -> by lia. done. }
      cbn [fmap option_fmap option_map]. case_decide as H2; [rewrite to_num_id by exact H2; by rewrite rem_floor|]. by rewrite Hw.
  - intros op v Hop Hv. rewrite !elem_of_cons, elem_of_nil in Hop. unfold simple_binary.
    assert (type_of (VInt a) =? type_of v = false) as E1 by (apply Z.eqb_neq; intros E; by apply Hv).
    assert (type_of v =? type_of (VInt a) = false) as E2 by (by apply Z.eqb_neq).
    destruct Hop as [->|[->|[->|[->|[->|[]]]]]]; rewrite E1, E2; done.
Qed.

Lemma integer_arithmetic_correct_witness :
  is_num (-7) /\ is_num 3 /\ (exists x, do_add (VInt (-7)) (VInt 3) = Some (VInt x) /\ is_num x /\ x `mod` 2 ^ 64 = (-7 + 3) `mod` 2 ^ 64) /\
  do_divide (VInt (-7)) (VInt 3) = Some (VInt (-2)) /\ do_modulus (VInt (-7)) (VInt 3) = Some (VInt 2).
Proof.
  assert (is_num (-7) /\ is_num 3) as [H1 H2] by (unfold is_num; lia). split; [done|]. split; [done|].
  destruct (integer_arithmetic_correct (-7) 3 H1 H2) as (E1 & _ & _ & _ & _ & E2 & _).
  split; [exact E1|]. destruct (E2 ltac:(lia)) as [E3 E4]. split; [exact E3|exact E4].
Defined.

(** The overflows, evaluated *)
Example divide_minint : do_divide (VInt (- 2 ^ 63)) (VInt (-1)) = None /\ do_divide (VInt MININT) (VInt (-1)) = Some (VInt MININT).
Proof. by vm_compute. Qed.
Example modulus_overflow : do_modulus (VInt (MAXINT - 1)) (VInt MAXINT) = Some (VInt (-3)).
Proof. by vm_compute. Qed.

(** ** Powers *)

(** The loop squares: with [r * a^b] invariant modulo 2^64 *)
Lemma power_loop_ok fuel : forall a b r,
  0 <= b < 2 ^ Z.of_nat fuel -> is_num r ->
  exists x, power_loop (S fuel) a b r = Some x /\ is_num x /\ x `mod` 2 ^ 64 = (r * a ^ b) `mod` 2 ^ 64.
Proof.
  induction fuel as [|fuel IH]; intros a b r Hb Hr; cbn [power_loop]; destruct (Z.eqb_spec b 0) as [->|Hb0].
  - exists r. rewrite Z.pow_0_r, Z.mul_1_r. done.
  - simpl in Hb. lia.
  - exists r. rewrite Z.pow_0_r, Z.mul_1_r. done.
  - rewrite Nat2Z.inj_succ, Z.pow_succ_r in Hb by lia. rewrite Z.shiftr_div_pow2 by done. change (2 ^ 1) with 2.
    destruct (IH (to_num (a * a)) (b / 2) (if Z.odd b then to_num (r * a) else r)) as (x & E & Hx & Hm).
    { split; [apply Z.div_pos; lia|apply Z.div_lt_upper_bound; lia]. }
    { case_match; [apply to_num_range|done]. }
    exists x. split; [exact E|]. split; [done|]. rewrite Hm.
    pose proof (Z.div_mod b 2 ltac:(lia)) as Hd. rewrite Zmod_odd in Hd.
    assert (0 <= b / 2) as H2 by (apply Z.div_pos; lia).
    assert ((to_num (a * a) ^ (b / 2)) `mod` 2 ^ 64 = (a ^ (2 * (b / 2))) `mod` 2 ^ 64) as Hp.
    { rewrite Z.pow_mul_r by lia. change (a ^ 2) with (a * (a * 1)). rewrite Z.mul_1_r.
      by rewrite <- Z.mod_pow_l, to_num_mod, Z.mod_pow_l. }
    destruct (Z.odd b).
    + rewrite Hd at 2. rewrite Z.pow_add_r, Z.pow_1_r by lia.
      rewrite (mul_eqm _ (r * a) _ (a ^ (2 * (b / 2)))) by (apply to_num_mod || done). f_equal. ring.
    + rewrite Hd at 2. rewrite Z.add_0_r. by rewrite (mul_eqm _ r _ (a ^ (2 * (b / 2)))).
Qed.

(** integer [^]: squaring terminates within the 64 bits of the exponent
    and is the power modulo 2^64; a negative exponent gives the truncated
    power, E_DIV for 0, and for -1 the opposite of the power. *)
Theorem power_correct pow a b (Ha : is_num a) (Hb : is_num b) :
  (0 <= b -> exists x, do_power pow (VInt a) (VInt b) = Some (VInt x) /\ is_num x /\ x `mod` 2 ^ 64 = (a ^ b) `mod` 2 ^ 64) /\
  (b < 0 -> do_power pow (VInt a) (VInt b) =
     Some (if decide (a = 0) then VErr E_DIV
           else if decide (a = -1) then VInt (- (-1) ^ (- b))
           else VInt (Z.quot 1 (a ^ (- b))))) /\
  forall v, type_of v <> TYPE_INT -> do_power pow (VInt a) v = Some (VErr E_TYPE).
Proof.
  unfold is_num in *. split; [|split].
  - intros H0. destruct (power_loop_ok 63 a b 1) as (x & E & Hx & Hm); [lia|done|].
    exists x. unfold do_power. rewrite (proj2 (Z.ltb_ge b 0)) by lia. rewrite E. rewrite Z.mul_1_l in Hm. done.
  - intros H0. unfold do_power. rewrite (proj2 (Z.ltb_lt b 0)) by lia. f_equal.
    destruct (decide (a = 0)) as [->|H1]; [done|]. destruct (decide (a = -1)) as [->|H2].
    { rewrite Z.eqb_refl. f_equal. rewrite <- (Z.odd_opp b). set (n := - b). change ((-1) ^ n) with (Z.opp 1 ^ n).
      destruct (Z.odd n) eqn:En.
      - apply Z.odd_spec in En. rewrite Z.pow_opp_odd, Z.pow_1_l by (done || lia). done.
      - rewrite <- Z.negb_even in En. apply negb_false_iff, Z.even_spec in En.
        rewrite Z.pow_opp_even, Z.pow_1_l by (done || lia). done. }
    rewrite (proj2 (Z.eqb_neq a (-1))), (proj2 (Z.eqb_neq a 0)) by done.
    destruct (Z.eqb_spec a 1) as [->|H3]; [by rewrite Z.pow_1_l by lia|].
    f_equal. symmetry. assert (1 < Z.abs (a ^ (- b))) as Hp.
    { rewrite Z.abs_pow. apply Z.pow_gt_1; lia. }
    apply Z.quot_small_iff; [lia|]. lia.
  - intros v Hv. by destruct v.
Qed.

Lemma power_correct_witness :
  let no_pow := fun _ _ => (fzero, 0) in
  is_num 3 /\ is_num 41 /\ exists x, do_power no_pow (VInt 3) (VInt 41) = Some (VInt x) /\ is_num x /\ x `mod` 2 ^ 64 = (3 ^ 41) `mod` 2 ^ 64.
Proof.
  intros no_pow. assert (is_num 3 /\ is_num 41) as [H1 H2] by (unfold is_num; lia). split; [done|]. split; [done|].
  apply (power_correct no_pow 3 41 H1 H2). lia.
Defined.
Example power_overflow : do_power (fun _ _ => (fzero, 0)) (VInt 3) (VInt 41) = Some (VInt (-420491770248316829)).
Proof. by vm_compute. Qed.
Example power_minus_one : do_power (fun _ _ => (fzero, 0)) (VInt (-1)) (VInt (-3)) = Some (VInt 1).
Proof. by vm_compute. Qed.

(** ** The least and the greatest *)

Definition is_int (v : Var) : bool := match v with VInt _ => true | _ => false end.
Definition ints (l : list Var) : list Z := omap (fun v => match v with VInt n => Some n | _ => None end) l.

Lemma extreme_ints better fbetter args : forall n bad,
  (forall a b c, better a b = false -> better b c = false -> better a c = false) -> (forall a, better a a = false) ->
  (forall a b, better a b = true -> better b a = false) ->
  exists m, extreme better fbetter args (VInt n) bad = (VInt m, bad || negb (forallb is_int args)) /\
    m ∈ n :: ints args /\ forall x, x ∈ n :: ints args -> better x m = false.
Proof.
  induction args as [|v args IH]; intros n bad Htr Hrefl Hanti.
  { exists n. simpl. rewrite orb_false_r. split; [done|]. split; [by left|]. intros x [->|?%not_elem_of_nil]%elem_of_cons; [apply Hrefl|done]. }
  assert ((exists k, v = VInt k) \/ is_int v = false) as [[k ->]|Hv] by (destruct v; eauto).
  - cbn [extreme forallb is_int andb].
    assert ((if better k n then VInt k else VInt n) = VInt (if better k n then k else n)) as -> by (by case_match).
    destruct (IH (if better k n then k else n) bad Htr Hrefl Hanti) as (m & E & Hin & Hle). exists m. split; [done|].
    change (ints (VInt k :: args)) with (k :: ints args).
    assert (better n m = false /\ better k m = false) as [Hn Hk].
    { assert (better (if better k n then k else n) m = false) as H0 by (apply Hle; by left).
      destruct (better k n) eqn:Ek; (split; [|]); try done; [eapply Htr; [by apply Hanti|done]|eapply Htr; done]. }
    split; [case_match; set_solver|]. intros x [->|[->|Hx]%elem_of_cons]%elem_of_cons; [done..|]. apply Hle. by right.
  - destruct (IH n true Htr Hrefl Hanti) as (m & E & Hin & Hle). exists m.
    assert (extreme better fbetter (v :: args) (VInt n) bad = extreme better fbetter args (VInt n) true) as -> by (by destruct v).
    assert (ints (v :: args) = ints args) as -> by (by destruct v).
    rewrite E. cbn [forallb]. rewrite Hv. cbn [andb negb]. rewrite orb_true_r. done.
Qed.

(** [min] and [max] of integers are an argument that no other argument
    is less, or greater, than; an argument of another type is E_TYPE. *)
Theorem min_max_correct n args :
  (if forallb is_int args
   then exists m, bf_min (VInt n) args = PVar (VInt m) /\ m ∈ n :: ints args /\ forall x, x ∈ n :: ints args -> m <= x
   else bf_min (VInt n) args = PError E_TYPE) /\
  (if forallb is_int args
   then exists m, bf_max (VInt n) args = PVar (VInt m) /\ m ∈ n :: ints args /\ forall x, x ∈ n :: ints args -> x <= m
   else bf_max (VInt n) args = PError E_TYPE).
Proof.
  unfold bf_min, bf_max.
  destruct (extreme_ints Z.ltb SFltb args n false) as (m & -> & Hin & Hle); [lia..|].
  destruct (extreme_ints (fun a b => b <? a) (fun a b => SFltb b a) args n false) as (m' & -> & Hin' & Hle'); [lia..|].
  unfold extreme_pack. cbn [fst snd orb]. destruct (forallb is_int args); cbn [negb]; [|done]. split.
  - exists m. split; [done|]. split; [done|]. intros x Hx%Hle. lia.
  - exists m'. split; [done|]. split; [done|]. intros x Hx%Hle'. lia.
Qed.

(** ** Floating point *)

(** no operator brings an infinity or a NaN into being: a floating point
    result of [+], [-], [*], [/] and [^], and of a function of the C library
    or [trunc], is a real number whatever the operands and whatever the
    library answers. *)
Theorem float_results_real pow name op a b x d
    (Hop : op ∈ [do_add; do_subtract; do_multiply; do_divide; do_power pow]) :
  (op a b = Some (VFloat d) -> IS_REAL d = true) /\
  (math_func name x = PVar (VFloat d) -> IS_REAL d = true) /\ (bf_trunc x = PVar (VFloat d) -> IS_REAL d = true).
Proof.
  assert (forall f, real_or_error f = VFloat d -> IS_REAL d = true) as Hr.
  { intros f. unfold real_or_error. destruct (IS_REAL f) eqn:E; [|done]. by intros [= <-]. }
  assert (forall r, math_pack r = PVar (VFloat d) -> IS_REAL d = true) as Hm.
  { intros [f e]. unfold math_pack. destruct (e =? EDOM); [done|]. destruct (negb (e =? 0) || negb (IS_REAL f)) eqn:E; [done|].
    intros [= <-]. by apply orb_false_iff in E as [_ E%negb_false_iff]. }
  split; [|split; apply Hm]. rewrite !elem_of_cons, elem_of_nil in Hop.
  assert (forall f g, simple_binary f g a b = Some (VFloat d) -> IS_REAL d = true) as Hs.
  { intros f g. unfold simple_binary. destruct (negb _); [done|]. destruct a, b; try done. intros [= E]. by eapply Hr. }
  destruct Hop as [->|[->|[->|[->|[->|[]]]]]]; try apply Hs.
  - unfold do_divide. destruct (negb _); [done|]. destruct a, b; try done.
    + do 2 (case_match; [done|]). unfold c_div. case_match; [done|]. by intros [= E].
    + case_match; [done|]. intros [= E]. by eapply Hr.
  - unfold do_power. destruct a, b; try done.
    + case_match; [|by destruct (power_loop _ _ _ _)]. by repeat (case_match; try done).
    + destruct (pow _ _) as [r e]. destruct (negb (e =? 0) || negb (IS_REAL r)) eqn:E; [done|]. intros [= <-].
      by apply orb_false_iff in E as [_ E%negb_false_iff].
    + destruct (pow _ _) as [r e]. destruct (negb (e =? 0) || negb (IS_REAL r)) eqn:E; [done|]. intros [= <-].
      by apply orb_false_iff in E as [_ E%negb_false_iff].
Qed.

Definition huge : double := S754_finite false 9007199254740991 971.
Lemma float_results_real_witness :
  exists d, do_add (VFloat (double_of_num 3)) (VFloat (double_of_num 4)) = Some (VFloat d) /\ IS_REAL d = true.
Proof.
  exists (double_of_num 7). split; [vm_compute; reflexivity|].
  refine (proj1 (float_results_real (fun _ _ => (fzero, 0)) (fun x => (x, 0)) do_add (VFloat (double_of_num 3))
    (VFloat (double_of_num 4)) fzero (double_of_num 7) _) _); [by left|vm_compute; reflexivity].
Defined.

(** [%] does not test its result: the sum of remainder and divisor
    overflows, and NaN is a value. *)
Example modulus_nan : do_modulus (VFloat (S754_finite false 9007199254740990 971)) (VFloat huge) = Some (VFloat S754_nan).
Proof. vm_compute. reflexivity. Qed.
Example add_overflow : do_add (VFloat huge) (VFloat huge) = Some (VErr E_FLOAT).
Proof. vm_compute. reflexivity. Qed.

(** ** Integers as floating point numbers *)

Lemma digits2_pos_bound m : 2 ^ (Z.pos (digits2_pos m) - 1) <= Z.pos m < 2 ^ Z.pos (digits2_pos m).
Proof.
  induction m as [m IH|m IH|]; simpl digits2_pos; [| |simpl; lia].
  all: rewrite Pos2Z.inj_succ; replace (Z.succ (Z.pos (digits2_pos m)) - 1) with (Z.succ (Z.pos (digits2_pos m) - 1)) by lia;
    rewrite !Z.pow_succ_r by lia; lia.
Qed.

Lemma iter_xO m d : Z.pos (Pos.iter xO m d) = Z.pos m * 2 ^ Z.pos d /\ digits2_pos (Pos.iter xO m d) = (digits2_pos m + d)%positive.
Proof.
  induction d as [|d [IH1 IH2]] using Pos.peano_ind; [simpl; lia|]. rewrite Pos.iter_succ. cbn [digits2_pos]. split; [|lia].
  rewrite Pos2Z.inj_succ, Z.pow_succ_r by lia. rewrite Pos2Z.inj_xO, IH1. lia.
Qed.

(** A mantissa of exactly 53 bits is not rounded. *)
Lemma round_exact s m e : Z.pos (digits2_pos m) = 53 -> -1074 <= e <= 971 -> binary_round_aux prec emax s (Z.pos m) e loc_Exact = S754_finite s m e.
Proof.
  intros Hd He. unfold binary_round_aux, shr_fexp. cbn [shr_record_of_loc Zdigits2].
  assert (fexp prec emax (Z.pos (digits2_pos m) + e) - e = 0) as E by (rewrite Hd; unfold fexp, emin, prec, emax; lia).
  rewrite E. cbn [shr loc_of_shr_record round_nearest_even shr_m]. cbn [Zdigits2]. rewrite E. cbn [shr shr_m shr_record_of_loc].
  by rewrite (proj2 (Z.leb_le e _)) by (unfold prec, emax; lia).
Qed.

Lemma binary_round_small s m :
  Z.pos m < 2 ^ 53 -> exists m' d, binary_round prec emax s m 0 = S754_finite s m' (- d) /\ 0 <= d <= 52 /\ Z.pos m' = Z.pos m * 2 ^ d.
Proof.
  intros Hm. pose proof (digits2_pos_bound m) as Hb. unfold binary_round. set (k := digits2_pos m) in *.
  assert (Z.pos k <= 53) as Hk.
  { destruct (Z.le_gt_cases (Z.pos k) 53) as [|Hgt]; [done|]. assert (2 ^ 53 <= 2 ^ (Z.pos k - 1)) by (apply Z.pow_le_mono_r; lia). lia. }
  assert (fexp prec emax (Z.pos k + 0) = Z.pos k - 53) as -> by (unfold fexp, emin, prec, emax; lia).
  unfold shl_align. rewrite Z.sub_0_r. destruct (Z.pos k - 53) as [|p|p] eqn:E; [|lia|].
  - exists m, 0. rewrite round_exact by (fold k; lia). split; [done|]. split; [lia|]. by rewrite Z.mul_1_r.
  - destruct (iter_xO m p) as [H1 H2]. exists (Pos.iter xO m p), (Z.pos p).
    rewrite round_exact by (rewrite ?H2, ?Pos2Z.inj_add; fold k; lia). split; [done|]. split; [lia|exact H1].
Qed.

Lemma truncate_small z : Z.abs z < 2 ^ 53 -> truncate (double_of_num z) = Some z.
Proof.
  intros Hz. unfold double_of_num, binary_normalize. destruct z as [|m|m]; [done|..]; simpl in Hz.
  - destruct (binary_round_small false m) as (m' & d & -> & Hd & Hm); [done|]. simpl truncate. f_equal. rewrite Hm. unfold signed.
    destruct (0 <=? - d) eqn:E; [assert (d = 0) as -> by lia; change (-0) with 0; rewrite !Z.pow_0_r; lia|].
    rewrite Z.opp_involutive. apply Z.div_mul. apply Z.pow_nonzero; lia.
  - destruct (binary_round_small true m) as (m' & d & -> & Hd & Hm); [done|]. simpl truncate. f_equal. rewrite Hm. unfold signed.
    destruct (0 <=? - d) eqn:E; [assert (d = 0) as -> by lia; change (-0) with 0; rewrite !Z.pow_0_r; lia|].
    rewrite Z.opp_involutive, Z.div_mul by (apply Z.pow_nonzero; lia). done.
Qed.

(** [toint(tofloat(n))] is [n] for integers of less than 54 bits: the
    conversions are exact there. *)
Theorem float_roundtrip strtod n (Hn : Z.abs n < 2 ^ 53) :
  exists d, bf_tofloat strtod (VInt n) = Some (PVar (VFloat d)) /\ IS_REAL d = true /\
    bf_toint strtod (VFloat d) = Some (PVar (VInt n)) /\ bf_toint strtod (VInt n) = Some (PVar (VInt n)).
Proof.
  exists (double_of_num n). pose proof (truncate_small n Hn) as E. split; [done|].
  assert (IS_REAL (double_of_num n) = true) as Hr by (by destruct (double_of_num n)). split; [done|]. split; [|done].
  unfold bf_toint, become_integer. rewrite Hr. cbn [negb]. unfold cast. rewrite E.
  assert ((- 2 ^ (64 - 1) <=? n) && (n <? 2 ^ (64 - 1)) = true) as -> by lia. done.
Qed.

Lemma float_roundtrip_witness :
  exists d, bf_tofloat no_strtod (VInt (-9007199254740991)) = Some (PVar (VFloat d)) /\ IS_REAL d = true /\
    bf_toint no_strtod (VFloat d) = Some (PVar (VInt (-9007199254740991))) /\
    bf_toint no_strtod (VInt (-9007199254740991)) = Some (PVar (VInt (-9007199254740991))).
Proof. apply (float_roundtrip no_strtod (-9007199254740991)). lia. Defined.

(** An error of an earlier function is reported by [atan2]. *)
Lemma atan2_stale_errno atan2 y x r : atan2 y x = (r, 0) ->
  bf_atan2 atan2 EDOM y x = PError E_INVARG /\ bf_atan2 atan2 0 y x = PVar (VFloat r).
Proof. unfold bf_atan2. by intros ->. Qed.
