(* ===== verification/CmdCode.v ===== *)
(** * Commands (parse_cmd.cc, match.cc, the prepositions of db_verbs.cc)

    A line typed by a player is split into words in place, in the buffer it
    was copied to; the words around a preposition name the direct and the
    indirect object, which are looked for among the contents of the player
    and of the player's location. *)
From Stdlib Require Import ZArith Lia.
From stdpp Require Import prelude gmap strings.
From S2P Require Import Prelude CString Value NumCode ObjCode.

Local Open Scope Z_scope.

(** ** [parse_into_words] *)

(** [buf[i] = c]; nothing outside the buffer *)
Definition put (buf : bytes) (i : nat) (c : Z) : option bytes :=
  if decide (i < length buf)%nat then Some (<[i := c]> buf) else None.

(** The loop past spaces *)
Fixpoint skip_to (fuel : nat) (buf : bytes) (input : nat) : option nat :=
  match fuel with
  | O => None
  | S fuel =>
    match buf !! input with
    | None => None
    | Some c => if c =? 32 then skip_to fuel buf (S input) else Some input
    end
  end.

(** The inner loop: the buffer, [input], [ptr] and [in_quotes] *)
Fixpoint word_loop (fuel : nat) (buf : bytes) (input ptr : nat) (in_quotes : bool) : option (bytes * nat * nat * bool) :=
  match fuel with
  | O => None
  | S fuel =>
    match buf !! input with
    | None => None
    | Some c =>
      if (c =? 0) || (negb in_quotes && (c =? 32)) then Some (buf, input, ptr, in_quotes)
      else if c =? 34 then word_loop fuel buf (S input) ptr (negb in_quotes)
      else if c =? 92 then
        match buf !! S input with
        | None => None
        | Some 0 => word_loop fuel buf (S input) ptr in_quotes
        | Some e => match put buf ptr e with Some buf => word_loop fuel buf (S (S input)) (S ptr) in_quotes | None => None end
        end
      else match put buf ptr c with Some buf => word_loop fuel buf (S input) (S ptr) in_quotes | None => None end
    end
  end.

(** The [for] loop; the words are offsets into the buffer *)
Fixpoint words_loop (fuel walk : nat) (buf : bytes) (input ptr : nat) (in_quotes : bool) (words : list nat) : option (bytes * list nat) :=
  match fuel with
  | O => None
  | S fuel =>
    match buf !! input with
    | None => None
    | Some 0 => Some (buf, words)
    | Some _ =>
      match word_loop walk buf input ptr in_quotes with
      | None => None
      | Some (buf, input, ptr', in_quotes) =>
        match skip_to walk buf input with
        | None => None
        | Some input =>
          match put buf ptr' 0 with
          | Some buf => words_loop fuel walk buf input (S ptr') in_quotes (words ++ [ptr])
          | None => None
          end
        end
      end
    end
  end.

(** The buffer afterwards and the words; the array of pointers, which
    doubles when it is full, is a list *)
Definition parse_into_words (buf : bytes) : option (bytes * list nat) :=
  let fuel := S (length buf) in
  match skip_to fuel buf 0 with
  | Some input => words_loop fuel fuel buf input 0 false []
  | None => None
  end.

(** The string at an offset *)
Fixpoint until_nul (s : bytes) : bytes :=
  match s with c :: s' => if c =? 0 then [] else c :: until_nul s' | [] => [] end.
Definition cstr_at (buf : bytes) (i : nat) : bytes := until_nul (drop i buf).
Definition words_of (s : bytes) : option (list bytes) :=
  match parse_into_words (s ++ [0]) with
  | Some (buf, words) => Some (map (cstr_at buf) words)
  | None => None
  end.

Definition parse_into_wordlist (command : bytes) : option Var :=
  (fun ws => VList (VStr <$> ws)) <$> words_of command.

(** [build_string] *)
Fixpoint build_string (argv : list bytes) : bytes :=
  match argv with
  | [] => []
  | [w] => w
  | w :: argv => w ++ 32 :: build_string argv
  end.

(** ** Prepositions *)

Definition prep_list : list bytes :=
  [str "with/using"; str "at/to"; str "in front of"; str "in/inside/into"; str "on top of/on/onto/upon";
   str "out of/from inside/from"; str "over"; str "through"; str "under/underneath/beneath"; str "behind";
   str "beside"; str "for/about"; str "is"; str "as"; str "off/off of"].
Definition PREP_NONE : Z := -1.

(** The pieces between slashes *)
Fixpoint split_slash (s : bytes) : list bytes :=
  match s with
  | [] => [[]]
  | c :: s' =>
    if c =? 47 then [] :: split_slash s'
    else match split_slash s' with w :: ws => (c :: w) :: ws | [] => [[c]] end
  end.
Definition dbpriv_build_prep_table : list (list (list bytes)) :=
  map (fun p => map (fun cprep => default [] (words_of cprep)) (split_slash p)) prep_list.

Definition same_words (a b : list bytes) : bool :=
  bool_decide (length a = length b) && forallb (fun p => strcasecmp p.1 p.2 =? 0) (zip a b).

(** The loop over the aliases of the table's entries: the entry and the
    number of words of the first alias that begins [argv] *)
Fixpoint find_alias (exact_match : bool) (argv : list bytes) (aliases : list (list bytes)) : option nat :=
  match aliases with
  | [] => None
  | alias :: aliases =>
    if (length alias <=? length argv)%nat && same_words (take (length alias) argv) alias
       && (negb exact_match || (length alias =? length argv)%nat)
    then Some (length alias)
    else find_alias exact_match argv aliases
  end.
Fixpoint find_entry (exact_match : bool) (argv : list bytes) (table : list (list (list bytes))) (j : Z) : option (Z * nat) :=
  match table with
  | [] => None
  | aliases :: table =>
    match find_alias exact_match argv aliases with
    | Some n => Some (j, n)
    | None => find_entry exact_match argv table (j + 1)
    end
  end.
(** The preposition and the indices of its first and last words *)
Fixpoint find_prep_from (argv : list bytes) (i : Z) : Z * Z * Z :=
  match argv with
  | [] => (PREP_NONE, 0, 0)
  | _ :: rest =>
    match find_entry false argv dbpriv_build_prep_table 0 with
    | Some (j, n) => (j, i, i + Z.of_nat n - 1)
    | None => find_prep_from rest (i + 1)
    end
  end.
Definition db_find_prep (argv : list bytes) : Z * Z * Z := find_prep_from argv 0.
(** Without [first] and [last] only the whole of [argv] counts. *)
Definition db_find_prep_exact (argv : list bytes) : Z :=
  match argv with
  | [] => PREP_NONE
  | _ => match find_entry true argv dbpriv_build_prep_table 0 with Some (j, _) => j | None => PREP_NONE end
  end.

Fixpoint until_slash (s : bytes) : bytes :=
  match s with c :: s' => if c =? 47 then [] else c :: until_slash s' | [] => [] end.
(** After a hash mark the string that is freed is not the one that was
    allocated: undefined behaviour, no value.  The number is converted to a
    32-bit enumeration and compared as unsigned. *)
Definition db_match_prep (prepname : bytes) : option Z :=
  match prepname with
  | 35 :: _ => None
  | _ =>
    let '(number, ptr) := strtoimax prepname in
    if is_nil ptr then
      let prep := to_uint number in
      Some (if negb (match prepname with c :: _ => isdigit c | [] => false end) || (Z.of_nat (length prep_list) <=? prep)
            then PREP_NONE else prep)
    else db_find_prep_exact <$> words_of (until_slash prepname)
  end.
Definition PREP_ANY : Z := -2.
Definition db_unparse_prep (prep : Z) : option bytes :=
  if prep =? PREP_NONE then Some (str "none")
  else if prep =? PREP_ANY then Some (str "any")
  else if prep <? 0 then None else prep_list !! Z.to_nat prep.

(** ** Matching *)

Section matching.
(** The value of the property [aliases] of an object, if it is a list *)
Context (aliases : Z -> option (list Var)).

Record match_data := mk_match { exact : Z; partial : Z }.

(** The names that [match_proc] tries: the object's and its string aliases *)
Definition names_of (d : db) (oid : Z) : list bytes :=
  (match object_of d oid with Some o => name o | None => [] end) ::
  omap (fun v => match v with VStr s => Some s | _ => None end) (default [] (aliases oid)).

(** No value when the search is ambiguous *)
Fixpoint match_names (lname : nat) (dname : bytes) (oid : Z) (names : list bytes) (d : match_data) : option match_data :=
  match names with
  | [] => Some d
  | name :: names =>
    if strncasecmp name dname lname =? 0 then
      if bool_decide (length name <= lname)%nat then
        if (exact d =? NOTHING) || (exact d =? oid) then match_names lname dname oid names (mk_match oid (partial d))
        else None
      else match_names lname dname oid names
             (mk_match (exact d) (if (partial d =? FAILED_MATCH) || (partial d =? oid) then oid else AMBIGUOUS))
    else match_names lname dname oid names d
  end.
Definition match_proc (t : db) (dname : bytes) (oid : Z) (d : match_data) : option match_data :=
  match_names (length dname) dname oid (names_of t oid) d.

(** [db_for_all_contents(oid, match_proc, &d)] *)
Fixpoint match_all (t : db) (dname : bytes) (oids : list Z) (d : match_data) : option match_data :=
  match oids with
  | [] => Some d
  | oid :: oids => match match_proc t dname oid d with Some d => match_all t dname oids d | None => None end
  end.

(** The loop over the player and its location *)
Fixpoint match_steps (t : db) (dname : bytes) (holders : list Z) (d : match_data) : option match_data :=
  match holders with
  | [] => Some d
  | oid :: holders =>
    if negb (valid t oid) then match_steps t dname holders d
    else match match_all t dname (db_for_all_contents t oid) d with
         | Some d => match_steps t dname holders d
         | None => None
         end
  end.
Definition location_of_player (t : db) (player : Z) : Z :=
  match object_of t player with Some o => location o | None => NOTHING end.
Definition match_contents (t : db) (player : Z) (dname : bytes) : Z :=
  if negb (valid t player) then FAILED_MATCH
  else match match_steps t dname [player; location_of_player t player] (mk_match NOTHING FAILED_MATCH) with
       | None => AMBIGUOUS
       | Some d => if negb (exact d =? NOTHING) then exact d else partial d
       end.

(** [strtol] on a 64-bit [long] is [strtoimax]. *)
Definition match_object (t : db) (player : Z) (dname : bytes) : Z :=
  match dname with
  | [] => NOTHING
  | 35 :: number =>
    let '(r, p) := strtoimax number in
    if negb (is_nil p) || negb (valid t r) then FAILED_MATCH else r
  | _ =>
    if negb (valid t player) then FAILED_MATCH
    else if strcasecmp dname (str "me") =? 0 then player
    else if strcasecmp dname (str "here") =? 0 then location_of_player t player
    else match_contents t player dname
  end.

(** ** [parse_command] *)

Record Parsed_Command := mk_command {
  verb : bytes; argstr : bytes; args : Var;
  dobjstr : bytes; dobj : Z; prepstr : bytes; prep : Z; iobjstr : bytes; iobj : Z }.

(** Past the verb, however it is quoted *)
Fixpoint skip_verb (s : bytes) (in_quotes : bool) : bytes :=
  match s with
  | [] => []
  | c :: s' =>
    if negb in_quotes && (c =? 32) then s
    else if c =? 34 then skip_verb s' (negb in_quotes)
    else if c =? 92 then match s' with [] => [] | _ :: s'' => skip_verb s'' in_quotes end
    else skip_verb s' in_quotes
  end.

(** The buffer and the argument string *)
Definition expand_command (command : bytes) : bytes * bytes :=
  let command := skip_blanks command in
  let special verb := (verb ++ 32 :: drop 1 command, drop 1 command) in
  match command with
  | 34 :: _ => special (str "say")
  | 58 :: _ => special (str "emote")
  | 59 :: _ => special (str "eval")
  | _ => (command, skip_blanks (skip_verb command false))
  end.

(** Elements [i] up to [j] of the words *)
Definition slice {A} (i j : Z) (l : list A) : list A := take (Z.to_nat (j - i)) (drop (Z.to_nat i) l).

(** The outer [None] is undefined behaviour, the inner a null result. *)
Definition parse_command (t : db) (command : bytes) (user : Z) : option (option Parsed_Command) :=
  let '(buf, argstr) := expand_command command in
  match words_of buf with
  | None => None
  | Some [] => Some None
  | Some ((verb :: rest) as argv) =>
    let argc := Z.of_nat (length argv) in
    let '(prep, pstart, pend) :=
      if 1 <? argc then
        let '(prep, first, last) := db_find_prep rest in
        if prep =? PREP_NONE then (PREP_NONE, argc, argc) else (prep, first + 1, last + 1)
      else (PREP_NONE, argc, argc) in
    let '(prepstr, iobjstr, iobj) :=
      if negb (prep =? PREP_NONE) then
        let iobjstr := build_string (slice (pend + 1) argc argv) in
        (build_string (slice pstart (pend + 1) argv), iobjstr, match_object t user iobjstr)
      else ([], [], NOTHING) in
    let dlen := pstart - 1 in
    let '(dobjstr, dobj) :=
      if dlen =? 0 then ([], NOTHING)
      else let dobjstr := build_string (slice 1 (1 + dlen) argv) in (dobjstr, match_object t user dobjstr) in
    Some (Some (mk_command verb argstr (VList (VStr <$> rest)) dobjstr dobj prepstr prep iobjstr iobj))
  end.
End matching.
