(* ===== verification/CmdLex.v ===== *)
(** * The words of a command: a specification, and that the code meets it

    [parse_into_words] compacts the words of a line in its own buffer; [lex]
    is the list of words as a function of the line.  [words_of_lex] says that
    the code terminates, stays inside the buffer and leaves those words. *)
From Stdlib Require Import ZArith Lia.
From stdpp Require Import prelude gmap strings.
From S2P Require Import Prelude CString Value NumCode ObjCode CmdCode.

Local Open Scope Z_scope.

(** ** The words of a line *)

(** One word, and what follows it: quotes group, a backslash takes the next
    character as it is *)
Fixpoint lex_word (s : bytes) (q : bool) : bytes * bytes :=
  match s with
  | [] => ([], [])
  | c :: s' =>
    if negb q && (c =? 32) then ([], s)
    else if c =? 34 then lex_word s' (negb q)
    else if c =? 92 then
      match s' with
      | [] => ([], [])
      | e :: s'' => let '(w, r) := lex_word s'' q in (e :: w, r)
      end
    else let '(w, r) := lex_word s' q in (c :: w, r)
  end.
Fixpoint lex_from (fuel : nat) (s : bytes) : list bytes :=
  match fuel with
  | O => []
  | S fuel =>
    match s with
    | [] => []
    | _ => let '(w, r) := lex_word s false in w :: lex_from fuel (skip_blanks r)
    end
  end.
Definition lex (s : bytes) : list bytes := lex_from (S (length s)) (skip_blanks s).

(** ** The buffer *)

Lemma put_ok buf i c : (i < length buf)%nat ->
  exists buf', put buf i c = Some buf' /\ length buf' = length buf /\ take (S i) buf' = take i buf ++ [c] /\
    forall j, (i < j)%nat -> drop j buf' = drop j buf.
Proof.
  intros Hi. exists (<[i := c]> buf). unfold put. rewrite decide_True by done. split; [done|].
  split; [by rewrite length_insert|]. split.
  - rewrite (take_S_r _ _ c) by (by apply list_lookup_insert_eq). f_equal. by rewrite take_insert_ge by lia.
  - intros j Hj. by rewrite drop_insert_lt by lia.
Qed.

Lemma drop_cons_lookup {A} (buf : list A) i c s : drop i buf = c :: s -> buf !! i = Some c /\ drop (S i) buf = s /\ (i < length buf)%nat.
Proof.
  intros E. assert (buf !! i = Some c) as H.
  { rewrite <- (Nat.add_0_r i), <- lookup_drop, E. done. }
  split; [done|]. split; [|by eapply lookup_lt_Some]. replace (S i) with (i + 1)%nat by lia. by rewrite <- drop_drop, E.
Qed.

Lemma lex_word_rest s : forall q, (length (snd (lex_word s q)) <= length s)%nat /\ (snd (lex_word s q) = [] \/ exists r, snd (lex_word s q) = 32 :: r).
Proof.
  remember (length s) as n eqn:En. assert (length s <= n)%nat as Hn by lia. clear En. revert s Hn.
  induction n as [|n IH]; intros [|c s] Hn q; simpl in Hn; try lia; try (split; [simpl; lia|by left]). cbn [lex_word].
  destruct (negb q && (c =? 32)) eqn:E.
  - split; [simpl; lia|]. right. exists s. simpl. apply andb_true_iff in E as [_ ->%Z.eqb_eq]. done.
  - destruct (c =? 34); [destruct (IH s ltac:(lia) (negb q)); split; [lia|done]|].
    destruct (c =? 92).
    + destruct s as [|e s]; [split; [simpl; lia|by left]|]. simpl in Hn. destruct (IH s ltac:(lia) q) as [H1 H2].
      destruct (lex_word s q) as [w r]. simpl in *. split; [lia|done].
    + destruct (IH s ltac:(lia) q) as [H1 H2]. destruct (lex_word s q) as [w r]. simpl in *. split; [lia|done].
Qed.

(** The inner loop compacts the word to [ptr], and leaves what follows. *)
Lemma word_loop_ok fuel : forall s buf input ptr q,
  drop input buf = s ++ [0] -> is_cstr s -> (ptr <= input)%nat -> (length s < fuel)%nat ->
  exists buf' input' ptr' q', word_loop fuel buf input ptr q = Some (buf', input', ptr', q') /\
    length buf' = length buf /\ take ptr' buf' = take ptr buf ++ fst (lex_word s q) /\
    ptr' = (ptr + length (fst (lex_word s q)))%nat /\ drop input' buf' = snd (lex_word s q) ++ [0] /\ (ptr' <= input')%nat /\
    (snd (lex_word s q) <> [] -> q' = false).
Proof.
  induction fuel as [|fuel IH]; intros s buf input ptr q Hs Hc Hp Hf; [lia|]. cbn [word_loop].
  destruct s as [|c s]; simpl in Hs, Hf.
  { destruct (drop_cons_lookup _ _ _ _ Hs) as (-> & _). exists buf, input, ptr, q. simpl. rewrite app_nil_r, Nat.add_0_r. by split_and!. }
  destruct (drop_cons_lookup _ _ _ _ Hs) as (-> & Hd & Hi). apply Forall_cons in Hc as [Hc0 Hc]. cbn [lex_word].
  rewrite (proj2 (Z.eqb_neq c 0)) by lia. cbn [orb]. destruct (negb q && (c =? 32)) eqn:E.
  { exists buf, input, ptr, q. simpl. rewrite app_nil_r, Nat.add_0_r. split_and!; try done. intros _.
    apply andb_true_iff in E as [E _]. by apply negb_true_iff in E. }
  destruct (c =? 34).
  { destruct (IH s buf (S input) ptr (negb q)) as (b & i & p & q' & Eq & H); [done|done|lia|lia|]. by exists b, i, p, q'. }
  assert (forall e s' i, drop i buf = s' ++ [0] -> is_cstr s' -> (ptr < i)%nat -> (length s' < fuel)%nat ->
    exists buf' input' ptr' q', match put buf ptr e with Some buf => word_loop fuel buf i (S ptr) q | None => None end = Some (buf', input', ptr', q') /\
    length buf' = length buf /\ take ptr' buf' = take ptr buf ++ e :: fst (lex_word s' q) /\
    ptr' = (ptr + S (length (fst (lex_word s' q))))%nat /\ drop input' buf' = snd (lex_word s' q) ++ [0] /\ (ptr' <= input')%nat /\
    (snd (lex_word s' q) <> [] -> q' = false)) as Hput.
  { intros e s' i Hdi Hcs Hpi Hfs. destruct (put_ok buf ptr e) as (b1 & -> & Hl & Ht & Hdr); [lia|].
    destruct (IH s' b1 i (S ptr) q) as (b & i' & p & q' & Eq & H1 & H2 & H3 & H4 & H5 & H6); [by rewrite Hdr by lia|done|lia|lia|].
    exists b, i', p, q'. split; [done|]. split; [congruence|]. split; [by rewrite H2, Ht, <- app_assoc|]. split; [lia|done]. }
  destruct (c =? 92).
  - destruct s as [|e s]; simpl in Hd, Hf.
    + destruct (drop_cons_lookup _ _ _ _ Hd) as (-> & _). destruct (IH [] buf (S input) ptr q) as (b & i & p & q' & Eq & H); [done|done|lia|simpl; lia|].
      by exists b, i, p, q'.
    + destruct (drop_cons_lookup _ _ _ _ Hd) as (-> & Hd2 & _). apply Forall_cons in Hc as [He Hc].
      destruct e as [|e|e]; try lia. destruct (Hput (Z.pos e) s (S (S input)) Hd2 Hc) as (b & i & p & q' & Eq & H); [lia|lia|].
      exists b, i, p, q'. split; [exact Eq|]. by destruct (lex_word s q).
  - destruct (Hput c s (S input) Hd Hc) as (b & i & p & q' & Eq & H); [lia|lia|].
    exists b, i, p, q'. split; [exact Eq|]. by destruct (lex_word s q).
Qed.

Lemma skip_to_ok fuel : forall s buf input,
  drop input buf = s ++ [0] -> (length s < fuel)%nat ->
  exists input', skip_to fuel buf input = Some input' /\ (input <= input')%nat /\ drop input' buf = skip_blanks s ++ [0] /\
    ((exists r, s = 32 :: r) -> (input < input')%nat).
Proof.
  induction fuel as [|fuel IH]; intros s buf input Hs Hf; [lia|]. cbn [skip_to]. destruct s as [|c s]; simpl in Hs, Hf.
  - destruct (drop_cons_lookup _ _ _ _ Hs) as (-> & _). exists input. simpl. split_and!; try done. by intros [r ?].
  - destruct (drop_cons_lookup _ _ _ _ Hs) as (-> & Hd & _). destruct (Z.eqb_spec c 32) as [->|Hc].
    + destruct (IH s buf (S input) Hd) as (i & E & H1 & H2 & _); [lia|]. exists i. split; [done|]. split; [lia|]. split; [done|]. lia.
    + exists input. split; [done|]. split; [lia|]. split.
      * rewrite Hs. simpl. by repeat (case_match; try done).
      * intros [r [= ? _]]. done.
Qed.

Lemma skip_blanks_cons c s : skip_blanks (c :: s) = if c =? 32 then skip_blanks s else c :: s.
Proof. destruct (Z.eqb_spec c 32) as [->|Hc]; [done|]. simpl. by repeat (case_match; try done). Qed.
Lemma skip_blanks_length s : (length (skip_blanks s) <= length s)%nat.
Proof. induction s as [|c s IH]; [done|]. rewrite skip_blanks_cons. case_match; simpl; lia. Qed.
Lemma skip_blanks_head s : match skip_blanks s with c :: _ => c <> 32 | [] => True end.
Proof. induction s as [|c s IH]; [done|]. rewrite skip_blanks_cons. destruct (Z.eqb_spec c 32); done. Qed.
Lemma skip_blanks_cstr s : is_cstr s -> is_cstr (skip_blanks s).
Proof. induction 1 as [|c s Hc Hs IH]; [constructor|]. rewrite skip_blanks_cons. case_match; [done|]. by constructor. Qed.

Lemma lex_word_shorter c s : c <> 32 -> (length (snd (lex_word (c :: s) false)) <= length s)%nat.
Proof.
  intros Hc. cbn [lex_word negb andb]. rewrite (proj2 (Z.eqb_neq c 32)) by done.
  pose proof (lex_word_rest s) as H. destruct (c =? 34); [apply (H true)|]. destruct (c =? 92).
  - destruct s as [|e s]; [simpl; lia|]. pose proof (lex_word_rest s false) as [H1 _]. destruct (lex_word s false). simpl in *. lia.
  - destruct (H false) as [H1 _]. destruct (lex_word s false). simpl in *. lia.
Qed.

Lemma lex_word_cstr s : forall q, is_cstr s -> is_cstr (fst (lex_word s q)) /\ is_cstr (snd (lex_word s q)).
Proof.
  remember (length s) as n eqn:En. assert (length s <= n)%nat as Hn by lia. clear En. revert s Hn.
  induction n as [|n IH]; intros [|c s] Hn q Hc; simpl in Hn; try lia; try (by split; constructor). cbn [lex_word].
  apply Forall_cons in Hc as [Hc0 Hc]. destruct (negb q && (c =? 32)); [split; [constructor|by constructor]|].
  destruct (c =? 34); [apply IH; [lia|done]|]. destruct (c =? 92).
  - destruct s as [|e s]; [by split; constructor|]. apply Forall_cons in Hc as [He Hc]. simpl in Hn.
    destruct (IH s ltac:(lia) q Hc) as [H1 H2]. destruct (lex_word s q). simpl in *. split; [by constructor|done].
  - destruct (IH s ltac:(lia) q Hc) as [H1 H2]. destruct (lex_word s q). simpl in *. split; [by constructor|done].
Qed.

Lemma lex_from_stable n : forall m s, match s with c :: _ => c <> 32 | [] => True end ->
  (length s < n)%nat -> (length s < m)%nat -> lex_from n s = lex_from m s.
Proof.
  induction n as [|n IH]; intros [|m] s Hs Hn Hm; try lia. cbn [lex_from]. destruct s as [|c s]; [done|].
  pose proof (lex_word_shorter c s Hs) as Hr. destruct (lex_word (c :: s) false) as [w r]. simpl in *. f_equal.
  pose proof (skip_blanks_length r). apply IH; [apply skip_blanks_head|lia|lia].
Qed.

Lemma until_nul_app w s : is_cstr w -> until_nul (w ++ 0 :: s) = w.
Proof. induction 1 as [|c w Hc _ IH]; simpl; [done|]. rewrite (proj2 (Z.eqb_neq c 0)) by lia. by rewrite IH. Qed.

(** A word that is written, with its end, before what follows *)
Lemma cstr_at_written buf ptr w pre :
  is_cstr w -> length pre = ptr -> take (S (ptr + length w)) buf = pre ++ w ++ [0] -> cstr_at buf ptr = w.
Proof.
  intros Hw Hp Ht. unfold cstr_at. rewrite <- (take_drop (S (ptr + length w)) buf), Ht, <- !app_assoc.
  rewrite drop_app_length' by done. by apply until_nul_app.
Qed.

Lemma words_loop_ok walk fuel : forall s buf input ptr words,
  drop input buf = s ++ [0] -> is_cstr s -> (ptr <= input)%nat -> (length s < fuel)%nat -> (length s < walk)%nat ->
  match s with c :: _ => c <> 32 | [] => True end ->
  exists buf' ws, words_loop fuel walk buf input ptr false words = Some (buf', words ++ ws) /\
    map (cstr_at buf') ws = lex_from fuel s /\ take ptr buf' = take ptr buf /\ length buf' = length buf.
Proof.
  induction fuel as [|fuel IH]; intros s buf input ptr words Hs Hc Hp Hf Hw Hhd; [lia|]. cbn [words_loop lex_from].
  destruct s as [|c s]; simpl in Hs, Hf, Hw.
  { destruct (drop_cons_lookup _ _ _ _ Hs) as (-> & _). exists buf, []. by rewrite app_nil_r. }
  destruct (drop_cons_lookup _ _ _ _ Hs) as (Hl & _ & Hi). rewrite Hl.
  assert (0 < c < 256) as Hc0 by (by apply Forall_cons in Hc as [? _]).
  destruct c as [|c|c]; try lia. pose proof (lex_word_shorter (Z.pos c) s Hhd) as Hsh.
  destruct (lex_word_cstr (Z.pos c :: s) false Hc) as [Hcw Hcr].
  pose proof (lex_word_rest (Z.pos c :: s) false) as [_ Hrest].
  destruct (word_loop_ok walk (Z.pos c :: s) buf input ptr false Hs Hc Hp) as (b1 & i1 & p1 & q1 & -> & Hl1 & Ht1 & Hp1 & Hd1 & Hpi1 & Hq1); [simpl; lia|].
  destruct (lex_word (Z.pos c :: s) false) as [w r]. simpl in *.
  destruct (skip_to_ok walk r b1 i1 Hd1) as (i2 & -> & Hi12 & Hd2 & Hlt); [lia|].
  pose proof (skip_blanks_length r) as Hsl. pose proof (drop_cons_lookup b1 i2) as Hin.
  assert (p1 < length b1)%nat as Hpl.
  { assert (length (drop i2 b1) = (length b1 - i2)%nat) as Hdl by apply length_drop. rewrite Hd2, length_app in Hdl. simpl in Hdl. lia. }
  destruct (put_ok b1 p1 0 Hpl) as (b2 & Eput & Hl2 & Ht2 & Hdr2). rewrite Eput.
  assert (take (S (ptr + length w)) b2 = take ptr buf ++ w ++ [0]) as Hword.
  { replace (S (ptr + length w)) with (S p1) by lia. by rewrite Ht2, Ht1, <- app_assoc. }
  assert (length (take ptr buf) = ptr) as Hlt0 by (rewrite length_take; lia).
  destruct (skip_blanks r) as [|c2 s2] eqn:Esk.
  - destruct fuel as [|fuel]; [lia|]. cbn [words_loop lex_from].
    assert (b2 !! i2 = Some 0) as ->.
    { destruct (decide (p1 = i2)) as [Heq|Hne].
      - unfold put in Eput. rewrite decide_True in Eput by done. injection Eput as <-. subst i2. by apply list_lookup_insert_eq.
      - destruct (drop_cons_lookup b2 i2 0 []) as (H & _); [rewrite Hdr2 by lia; exact Hd2|done]. }
    exists b2, [ptr]. split; [done|]. split; [simpl; f_equal; by eapply cstr_at_written|].
    split; [|lia]. replace ptr with (Nat.min ptr (S (ptr + length w))) at 1 by lia. rewrite <- take_take, Hword.
    by apply take_app_length'.
  - assert (p1 < i2)%nat as Hp2.
    { destruct Hrest as [->|Hr]; [done|]. specialize (Hlt Hr). lia. }
    assert (q1 = false) as -> by (apply Hq1; intros ->; done).
    destruct (IH (c2 :: s2) b2 i2 (S p1) (words ++ [ptr])) as (b3 & ws & -> & Hmap & Ht3 & Hl3);
      [rewrite Hdr2 by lia; exact Hd2|rewrite <- Esk; by apply skip_blanks_cstr|lia|simpl in *; lia|simpl in *; lia|
       pose proof (skip_blanks_head r) as Hh; by rewrite Esk in Hh|].
    exists b3, (ptr :: ws). rewrite <- app_assoc. split; [done|].
    assert (take (S (ptr + length w)) b3 = take ptr buf ++ w ++ [0]) as Hword3.
    { rewrite <- Hword. replace (S (ptr + length w)) with (S p1) by lia. exact Ht3. }
    split; [simpl; rewrite Hmap; f_equal; by eapply cstr_at_written|].
    split; [|lia]. replace ptr with (Nat.min ptr (S (ptr + length w))) at 1 by lia. rewrite <- take_take, Hword3.
    by apply take_app_length'.
Qed.

Lemma words_of_lex s : is_cstr s -> words_of s = Some (lex s).
Proof.
  intros Hc. unfold words_of, parse_into_words. rewrite length_app. simpl length.
  destruct (skip_to_ok (S (length s + 1)) s (s ++ [0]) 0) as (i & -> & _ & Hd & _); [done|lia|].
  pose proof (skip_blanks_length s) as Hl.
  destruct (words_loop_ok (S (length s + 1)) (S (length s + 1)) (skip_blanks s) (s ++ [0]) i 0 []) as (b & ws & -> & Hm & _);
    [done|by apply skip_blanks_cstr|lia|lia|lia|apply skip_blanks_head|].
  simpl app. f_equal. rewrite Hm. unfold lex. apply lex_from_stable; [apply skip_blanks_head|lia|lia].
Qed.

(** ** Quoting *)

(** A word that [lex] reads back whatever its characters *)
Fixpoint escape (w : bytes) : bytes :=
  match w with
  | [] => []
  | c :: w => if (c =? 34) || (c =? 92) then 92 :: c :: escape w else c :: escape w
  end.
Definition quote (w : bytes) : bytes := 34 :: escape w ++ [34].
(** A word that can stand as it is *)
Definition plain (w : bytes) : Prop := w <> [] /\ Forall (fun c => c <> 32 /\ c <> 34 /\ c <> 92) w.
(** [q] is how [w] is written. *)
Definition written (q w : bytes) : Prop := q = quote w \/ (q = w /\ plain w).

Lemma lex_word_plain w s : Forall (fun c => c <> 32 /\ c <> 34 /\ c <> 92) w ->
  lex_word (w ++ s) false = (w ++ fst (lex_word s false), snd (lex_word s false)).
Proof.
  induction 1 as [|c w (H1 & H2 & H3) _ IH]; cbn [lex_word app]; [by destruct (lex_word s false)|].
  rewrite !(proj2 (Z.eqb_neq _ _)) by done. cbn [negb andb]. by rewrite IH.
Qed.

Lemma lex_word_escape w s : lex_word (escape w ++ 34 :: s) true = (w ++ fst (lex_word s false), snd (lex_word s false)).
Proof.
  induction w as [|c w IH]; simpl escape; [simpl; by destruct (lex_word s false)|].
  destruct (Z.eqb_spec c 34) as [->|H1]; [|destruct (Z.eqb_spec c 92) as [->|H2]]; cbn [orb app lex_word negb andb Z.eqb Pos.eqb]; try by rewrite IH.
  rewrite !(proj2 (Z.eqb_neq _ _)) by done. by rewrite IH.
Qed.

Definition ends (s : bytes) : Prop := s = [] \/ exists r, s = 32 :: r.

Lemma lex_word_ends s : ends s -> lex_word s false = ([], s).
Proof. by intros [->|[r ->]]. Qed.
Lemma lex_word_written q w s : written q w -> ends s -> lex_word (q ++ s) false = (w, s).
Proof.
  intros [->|[-> [_ Hw]]] Hs.
  - unfold quote. simpl. rewrite <- app_assoc. simpl. rewrite lex_word_escape, lex_word_ends by done. by rewrite app_nil_r.
  - rewrite lex_word_plain, lex_word_ends by done. by rewrite app_nil_r.
Qed.
Lemma written_head q w s : written q w -> exists c r, q ++ s = c :: r /\ c <> 32.
Proof.
  intros [->|[-> [Hne Hw]]]; [by exists 34, ((escape w ++ [34]) ++ s)|]. destruct w as [|c w]; [done|].
  apply Forall_cons in Hw as [(? & _) _]. by exists c, (w ++ s).
Qed.
Lemma written_nonempty q w : written q w -> (0 < length q)%nat.
Proof. intros [->|[-> [Hne _]]]; [simpl; lia|]. destruct w; [done|simpl; lia]. Qed.

Lemma lex_cons c s : c <> 32 -> lex (c :: s) = fst (lex_word (c :: s) false) :: lex (snd (lex_word (c :: s) false)).
Proof.
  intros Hc. unfold lex at 1. rewrite skip_blanks_cons, (proj2 (Z.eqb_neq _ _)) by done.
  assert (forall n, lex_from (S n) (c :: s) = fst (lex_word (c :: s) false) :: lex_from n (skip_blanks (snd (lex_word (c :: s) false)))) as ->.
  { intros n. cbn [lex_from]. by destruct (lex_word (c :: s) false). }
  pose proof (lex_word_shorter c s Hc) as Hr. destruct (lex_word (c :: s) false) as [w r]. cbn [fst snd] in *. f_equal.
  unfold lex. pose proof (skip_blanks_length r). change (length (c :: s)) with (S (length s)). apply lex_from_stable; [apply skip_blanks_head|lia|lia].
Qed.
Lemma skip_blanks_idem s : skip_blanks (skip_blanks s) = skip_blanks s.
Proof.
  pose proof (skip_blanks_head s) as H. destruct (skip_blanks s) as [|c r]; [done|].
  by rewrite skip_blanks_cons, (proj2 (Z.eqb_neq _ _)).
Qed.
Lemma lex_skip s : lex (skip_blanks s) = lex s.
Proof.
  unfold lex. rewrite skip_blanks_idem. pose proof (skip_blanks_length s). apply lex_from_stable; [apply skip_blanks_head|lia|lia].
Qed.

Lemma lex_written qs : forall ws, Forall2 written qs ws -> lex (build_string qs) = ws.
Proof.
  induction qs as [|q qs IH]; intros ws H; inversion H as [|? w ? ws' Hq Hqs]; subst; [done|].
  assert (exists s, build_string (q :: qs) = q ++ s /\ ends s /\ lex s = ws') as (s & -> & He & Hs).
  { destruct qs as [|q2 qs]; [inversion Hqs; subst; exists []; rewrite app_nil_r; split_and!; [done|by left|done]|].
    exists (32 :: build_string (q2 :: qs)). split; [done|]. split; [by right; eexists|].
    rewrite <- lex_skip, skip_blanks_cons. simpl Z.eqb. cbn iota. rewrite lex_skip. by apply IH. }
  destruct (written_head q w s Hq) as (c & r & E & Hc). pose proof (lex_word_written q w s Hq He) as Hlw. rewrite E in *.
  rewrite lex_cons by done. rewrite Hlw. simpl. by rewrite Hs.
Qed.

Lemma build_string_cstr qs : Forall is_cstr qs -> is_cstr (build_string qs).
Proof.
  induction 1 as [|q qs Hq Hqs IH]; [constructor|]. destruct qs as [|q2 qs]; [done|].
  change (is_cstr (q ++ 32 :: build_string (q2 :: qs))). apply Forall_app. split; [done|]. constructor; [lia|done].
Qed.
Lemma written_cstr q w : written q w -> is_cstr w -> is_cstr q.
Proof.
  intros [->|[-> _]] Hw; [|done]. unfold quote. constructor; [lia|]. apply Forall_app. split; [|by repeat constructor].
  induction Hw as [|c w Hc _ IH]; simpl; [constructor|]. destruct ((c =? 34) || (c =? 92)); repeat (constructor; [lia|]); done.
Qed.
