(* ===== verification/Commands.v ===== *)
(** * Commands: the properties

    The splitting of a line, the search for a preposition, the fields of a
    parsed command, the object that a name denotes. *)
From Stdlib Require Import ZArith Lia.
From stdpp Require Import prelude gmap strings.
From S2P Require Import Prelude CString Value ObjCode ObjGraph ObjLife ObjTask Objects NumCode Numbers CmdCode CmdLex.

(** ** Prepositions and names: what the searches find

    The first phrase of the table that begins a list of words
    ([find_entry_correct], [find_prep_correct]), and the object that a name
    denotes among candidates ([match_all_correct]). *)
Local Open Scope Z_scope.

(** ** Prepositions *)

Definition same_word (a b : bytes) : Prop := strcasecmp a b = 0.
(** [mid], the first words of [argv], are the alias. *)
Definition says (argv mid alias : list bytes) : Prop := mid `prefix_of` argv /\ Forall2 same_word mid alias.
Definition begins (alias argv : list bytes) : Prop := exists mid, says argv mid alias.

Lemma says_take argv mid alias : says argv mid alias -> mid = take (length alias) argv /\ (length alias <= length argv)%nat.
Proof.
  intros [[post ->] H]. rewrite <- (Forall2_length _ _ _ H), length_app. split; [by rewrite take_app_length|lia].
Qed.

Lemma forallb_zip a : forall b, length a = length b ->
  forallb (fun p : bytes * bytes => strcasecmp p.1 p.2 =? 0) (zip a b) = true <-> Forall2 same_word a b.
Proof.
  induction a as [|x a IH]; intros [|y b] H; simpl in *; try lia; [by split|]. rewrite andb_true_iff, IH, Z.eqb_eq by lia.
  split; [by intros []; constructor|]. intros Hf. inversion Hf. done.
Qed.

Lemma says_dec argv alias : ((length alias <=? length argv)%nat && same_words (take (length alias) argv) alias) = true <->
  says argv (take (length alias) argv) alias.
Proof.
  unfold same_words, says. rewrite !andb_true_iff, Nat.leb_le, bool_decide_eq_true.
  split.
  - intros (Hl & Ht & H). apply forallb_zip in H; [|done]. split; [|done]. exists (drop (length alias) argv). by rewrite take_drop.
  - intros [_ H]. pose proof (Forall2_length _ _ _ H) as Hl. rewrite length_take in Hl. split; [lia|].
    split; [rewrite length_take; lia|]. apply forallb_zip; [rewrite length_take; lia|done].
Qed.
Lemma not_begins argv alias : ((length alias <=? length argv)%nat && same_words (take (length alias) argv) alias) = false <->
  ~ begins alias argv.
Proof.
  rewrite <- not_true_iff_false, says_dec. split; intros H.
  - intros [mid Hs]. apply H. destruct (says_take _ _ _ Hs) as [<- _]. done.
  - intros Hs. apply H. by eexists.
Qed.

Lemma find_alias_correct argv aliases :
  match find_alias false argv aliases with
  | Some n => exists k alias mid, aliases !! k = Some alias /\ says argv mid alias /\ length mid = n /\
      forall k' alias', (k' < k)%nat -> aliases !! k' = Some alias' -> ~ begins alias' argv
  | None => forall alias, alias ∈ aliases -> ~ begins alias argv
  end.
Proof.
  induction aliases as [|alias aliases IH]; [by intros a Ha%elem_of_nil|]. cbn [find_alias]. cbn [negb orb]. rewrite andb_true_r.
  destruct ((length alias <=? length argv)%nat && _) eqn:E.
  - apply says_dec in E. exists 0%nat, alias, (take (length alias) argv). split; [done|]. split; [done|].
    split; [by rewrite (Forall2_length _ _ _ (proj2 E))|]. lia.
  - apply not_begins in E. destruct (find_alias false argv aliases) as [n|].
    + destruct IH as (k & a & mid & Hk & Hs & Hn & Hf). exists (S k), a, mid. split_and!; try done.
      intros [|k'] a' Hk' Ha'; simpl in Ha'; [by injection Ha' as <-|]. eapply Hf; [|exact Ha']. lia.
    + intros a [->|Ha]%elem_of_cons; [done|by apply IH].
Qed.

(** No phrase of the table begins [argv]. *)
Definition no_phrase (table : list (list (list bytes))) (argv : list bytes) : Prop :=
  forall aliases alias, aliases ∈ table -> alias ∈ aliases -> ~ begins alias argv.
(** [mid] begins [argv] and is the first phrase of the table that does: the
    first alias of entry [j]. *)
Record phrase (table : list (list (list bytes))) (j : nat) (argv mid : list bytes) : Prop := {
  ph_begins : mid `prefix_of` argv;
  ph_entry : exists k aliases alias, table !! j = Some aliases /\ aliases !! k = Some alias /\ Forall2 same_word mid alias /\
    forall k' alias', (k' < k)%nat -> aliases !! k' = Some alias' -> ~ begins alias' argv;
  ph_first : no_phrase (take j table) argv }.

Lemma find_entry_correct argv table : forall j0,
  match find_entry false argv table j0 with
  | Some (j, n) => exists j' mid, j = j0 + Z.of_nat j' /\ length mid = n /\ phrase table j' argv mid
  | None => no_phrase table argv
  end.
Proof.
  induction table as [|aliases table IH]; intros j0; [by intros a alias Ha%elem_of_nil|]. cbn [find_entry].
  pose proof (find_alias_correct argv aliases) as Ha. destruct (find_alias false argv aliases) as [n|].
  - destruct Ha as (k & alias & mid & Hk & [Hp Hs] & Hn & Hf). exists 0%nat, mid. split; [lia|]. split; [done|].
    split; [done| |by intros ? ? []%elem_of_nil]. by exists k, aliases, alias.
  - specialize (IH (j0 + 1)). destruct (find_entry false argv table (j0 + 1)) as [[j n]|].
    + destruct IH as (j' & mid & -> & Hn & [Hp He Hf]). exists (S j'), mid. split; [lia|]. split; [done|]. split; [done|done|].
      intros a alias [->|Hin]%elem_of_cons Hal; [by apply Ha|by eapply Hf].
    + intros a alias [->|Hin]%elem_of_cons Hal; [by apply Ha|by eapply IH].
Qed.

Lemma find_entry_range e argv tb : forall j0 j n, find_entry e argv tb j0 = Some (j, n) -> j0 <= j < j0 + Z.of_nat (length tb).
Proof.
  induction tb as [|a tb IH]; intros j0 j n H; [done|]. cbn [find_entry] in H. simpl length.
  destruct (find_alias e argv a); [injection H as <- <-; lia|]. apply IH in H. lia.
Qed.

Local Notation preps := dbpriv_build_prep_table.

Lemma find_prep_correct argv : forall i, 0 <= i ->
  (find_prep_from argv i = (PREP_NONE, 0, 0) /\ forall pre post, argv = pre ++ post -> post <> [] -> no_phrase preps post) \/
  exists pre mid post j, find_prep_from argv i = (Z.of_nat j, i + Z.of_nat (length pre), i + Z.of_nat (length pre) + Z.of_nat (length mid) - 1) /\
    argv = pre ++ mid ++ post /\ phrase preps j (mid ++ post) mid /\
    forall pre' post', pre = pre' ++ post' -> post' <> [] -> no_phrase preps (post' ++ mid ++ post).
Proof.
  induction argv as [|w argv IH]; intros i Hi; cbn [find_prep_from].
  { left. split; [done|]. intros pre post E Hne. symmetry in E. by apply app_eq_nil in E as [_ ->]. }
  pose proof (find_entry_correct (w :: argv) preps 0) as He. destruct (find_entry false (w :: argv) preps 0) as [[j n]|].
  - right. destruct He as (j' & mid & -> & Hn & Hph). destruct (ph_begins _ _ _ _ Hph) as [post E].
    exists [], mid, post, j'. rewrite <- E. split; [f_equal; [f_equal|]; simpl; lia|]. split; [done|]. split; [done|].
    intros pre' post' Hpre Hne. symmetry in Hpre. by apply app_eq_nil in Hpre as [_ ->].
  - destruct (IH (i + 1)) as [[-> Hno]|(pre & mid & post & j & -> & -> & Hph & Hno)]; [lia| |].
    + left. split; [done|]. intros [|c pre] post E Hne; simpl in E; [by subst|]. injection E as -> ->. by eapply Hno.
    + right. exists (w :: pre), mid, post, j. split; [f_equal; [f_equal|]; simpl length; lia|]. split; [done|]. split; [done|].
      intros [|c pre'] post' E Hne; simpl in E; [by subst|]. injection E as -> ->. by eapply Hno.
Qed.

(** ** Names *)

(** [n] is [w] but for the case; [w] is a proper beginning of [n]. *)
Definition is_called (w n : bytes) : bool := (strncasecmp n w (length w) =? 0) && (length n <=? length w)%nat.
Definition abbreviates (w n : bytes) : bool := (strncasecmp n w (length w) =? 0) && (length w <? length n)%nat.

Lemma Forall_filter_bool {A} (P : A -> Prop) (f : A -> bool) l : Forall P l -> Forall P (filter (fun x => f x) l).
Proof. rewrite !Forall_forall. intros H x [_ Hx]%list_elem_of_filter. by apply H. Qed.

(** The one object of a list, however often; [AMBIGUOUS] for several *)
Definition the_one (l : list Z) : option Z :=
  match l with [] => None | x :: l => Some (if forallb (Z.eqb x) l then x else AMBIGUOUS) end.

Lemma the_one_snoc l x : the_one (l ++ [x]) =
  Some (match the_one l with None => x | Some y => if y =? x then x else AMBIGUOUS end).
Proof.
  destruct l as [|y l]; [done|]. cbn [the_one app]. rewrite forallb_app. cbn [forallb]. rewrite andb_true_r.
  destruct (forallb (Z.eqb y) l); cbn [andb].
  - by destruct (Z.eqb_spec y x) as [->|].
  - by destruct (Z.eqb_spec AMBIGUOUS x) as [<-|].
Qed.
Lemma the_one_ambiguous l : forall l', Forall (fun x => 0 <= x) (l ++ l') -> the_one l = Some AMBIGUOUS -> the_one (l ++ l') = Some AMBIGUOUS.
Proof.
  intros l'. induction l' as [|x l' IH] using rev_ind; intros Hp H; [by rewrite app_nil_r|].
  rewrite app_assoc in Hp |- *. apply Forall_app in Hp as [Hp Hx]. rewrite the_one_snoc, (IH Hp H).
  apply Forall_cons in Hx as [Hx _]. unfold AMBIGUOUS. by rewrite (proj2 (Z.eqb_neq _ _)) by lia.
Qed.

Section names.
Context (aliases : Z -> option (list Var)) (t : db) (w : bytes).

Definition exact_for (oid : Z) : bool := existsb (is_called w) (names_of aliases t oid).
Definition partial_for (oid : Z) : bool := existsb (abbreviates w) (names_of aliases t oid).

Lemma match_names_correct oid names : 0 <= oid -> forall d,
  match_names (length w) w oid names d =
  let p := if existsb (abbreviates w) names
           then if (partial d =? FAILED_MATCH) || (partial d =? oid) then oid else AMBIGUOUS else partial d in
  if existsb (is_called w) names then if (exact d =? NOTHING) || (exact d =? oid) then Some (mk_match oid p) else None
  else Some (mk_match (exact d) p).
Proof.
  intros Ho. induction names as [|n names IH]; intros d; [by destruct d|]. cbn [match_names existsb].
  change (is_called w n) with ((strncasecmp n w (length w) =? 0) && (length n <=? length w)%nat).
  change (abbreviates w n) with ((strncasecmp n w (length w) =? 0) && (length w <? length n)%nat).
  destruct (strncasecmp n w (length w) =? 0); [|exact (IH d)].
  case_bool_decide as Hl.
  - rewrite (proj2 (Nat.leb_le _ _)), (proj2 (Nat.ltb_ge _ _)) by lia. cbn [andb orb].
    destruct ((exact d =? NOTHING) || (exact d =? oid)); [|done]. rewrite IH. cbn [exact partial]. rewrite Z.eqb_refl, orb_true_r.
    by destruct (existsb (is_called w) names).
  - rewrite (proj2 (Nat.leb_gt _ _)), (proj2 (Nat.ltb_lt _ _)) by lia. cbn [andb orb]. rewrite IH. cbn [exact partial].
    destruct (existsb (abbreviates w) names); [|done].
    destruct ((partial d =? FAILED_MATCH) || (partial d =? oid)) eqn:E; [by rewrite Z.eqb_refl, orb_true_r|].
    unfold AMBIGUOUS, FAILED_MATCH. by rewrite (proj2 (Z.eqb_neq (-2) oid)) by lia.
Qed.

(** What the two fields hold after the objects [done] *)
Definition searched (d : match_data) (done : list Z) : Prop :=
  exact d = default NOTHING (the_one (filter (fun x => exact_for x) done)) /\
  the_one (filter (fun x => exact_for x) done) <> Some AMBIGUOUS /\
  partial d = default FAILED_MATCH (the_one (filter (fun x => partial_for x) done)).

Lemma the_one_range l : Forall (fun x => 0 <= x) l -> match the_one l with Some r => 0 <= r \/ r = AMBIGUOUS | None => True end.
Proof. intros H. destruct l as [|x l]; [done|]. apply Forall_cons in H as [Hx _]. simpl. destruct (forallb _ l); auto. Qed.

Lemma match_proc_correct oid d done : 0 <= oid -> Forall (fun x => 0 <= x) done -> searched d done ->
  match match_proc aliases t w oid d with
  | Some d' => searched d' (done ++ [oid])
  | None => the_one (filter (fun x => exact_for x) (done ++ [oid])) = Some AMBIGUOUS
  end.
Proof.
  intros Ho Hd (He & Ha & Hp). unfold match_proc. rewrite match_names_correct by done. fold (exact_for oid) (partial_for oid). cbv zeta.
  assert (forall f : Z -> bool, filter (fun x => f x) (done ++ [oid]) = filter (fun x => f x) done ++ (if f oid then [oid] else [])) as Hf.
  { intros f. rewrite filter_app, filter_cons, filter_nil. by destruct (f oid). }
  assert (forall f : Z -> bool, Forall (fun x => 0 <= x) (filter (fun x => f x) done)) as Hr by (intros f; by apply Forall_filter_bool).
  pose proof (the_one_range _ (Hr exact_for)) as Hre. pose proof (the_one_range _ (Hr partial_for)) as Hrp.
  assert ((if partial_for oid then if (partial d =? FAILED_MATCH) || (partial d =? oid) then oid else AMBIGUOUS else partial d) =
    default FAILED_MATCH (the_one (filter (fun x => partial_for x) (done ++ [oid])))) as Hpart.
  { rewrite Hf, Hp. destruct (partial_for oid); [|by rewrite app_nil_r]. rewrite the_one_snoc.
    destruct (the_one (filter (fun x => partial_for x) done)) as [y|]; [|done]. simpl.
    destruct (Z.eqb_spec y FAILED_MATCH) as [->|]; [by destruct Hrp|]. simpl. done. }
  unfold searched. rewrite <- Hpart. clear Hpart. rewrite (Hf exact_for), He. destruct (exact_for oid); [|by rewrite app_nil_r].
  rewrite the_one_snoc. destruct (the_one (filter (fun x => exact_for x) done)) as [y|]; simpl; [|split_and!; [done| |done]; intros [= ->]; done].
  destruct (Z.eqb_spec y NOTHING) as [->|]; [by destruct Hre|]. simpl. destruct (Z.eqb_spec y oid) as [->|]; [|done]. by split_and!.
Qed.

Lemma match_all_correct oids : forall d done, Forall (fun x => 0 <= x) (done ++ oids) -> searched d done ->
  match match_all aliases t w oids d with
  | Some d' => searched d' (done ++ oids)
  | None => the_one (filter (fun x => exact_for x) (done ++ oids)) = Some AMBIGUOUS
  end.
Proof.
  induction oids as [|oid oids IH]; intros d done Hp Hs; cbn [match_all]; [by rewrite app_nil_r|].
  pose proof Hp as Hp'. apply Forall_app in Hp' as [Hd [Ho Hos]%Forall_cons]. pose proof (match_proc_correct oid d done Ho Hd Hs) as H.
  replace (done ++ oid :: oids) with ((done ++ [oid]) ++ oids) in * by (by rewrite <- app_assoc). destruct (match_proc aliases t w oid d) as [d'|]; [by apply IH|].
  rewrite filter_app. apply the_one_ambiguous; [|done]. rewrite <- filter_app. by apply Forall_filter_bool.
Qed.
End names.

Local Open Scope Z_scope.

(** [parse_into_words] terminates on every line, stays inside its buffer
    and leaves there the words of the specification [lex]; and the line made
    of words, each in quotes with its special characters escaped or as it is
    when it has none, separated by spaces, gives back exactly those words. *)
Theorem words_roundtrip s qs ws (Hs : is_cstr s) (Hws : Forall is_cstr ws) (Hqs : Forall2 written qs ws) :
  words_of s = Some (lex s) /\
  parse_into_wordlist (build_string qs) = Some (VList (VStr <$> ws)).
Proof.
  split; [by apply words_of_lex|]. unfold parse_into_wordlist. rewrite words_of_lex; [by rewrite (lex_written qs ws)|].
  apply build_string_cstr. clear -Hws Hqs. induction Hqs as [|q w qs ws Hq _ IH]; [constructor|].
  apply Forall_cons in Hws as [Hw Hws]. constructor; [by eapply written_cstr|by apply IH].
Qed.

(** A word with a space, an empty one, one with both special characters *)
Example quoted_words : map quote [str "a b"; []; [34; 92; 120]] = [34 :: str "a b" ++ [34]; [34; 34]; [34; 92; 34; 92; 92; 120; 34]].
Proof. reflexivity. Qed.
Lemma words_roundtrip_witness :
  words_of (str "put ball  in box ") = Some [str "put"; str "ball"; str "in"; str "box"] /\
  parse_into_wordlist (build_string [quote (str "a b"); str "c"; quote []]) = Some (VList [VStr (str "a b"); VStr (str "c"); VStr []]).
Proof.
  apply (words_roundtrip (str "put ball  in box ") [quote (str "a b"); str "c"; quote []] [str "a b"; str "c"; []]).
  - by repeat constructor.
  - by repeat constructor.
  - constructor; [by left|]. constructor; [right; split; [done|]; split; [done|by repeat constructor]|]. by repeat constructor; left.
Defined.

(** Every preposition of the table is found again from its printed form;
    a number is taken as itself when it is an index of the table and refused
    otherwise; the form with a hash mark, which db.h documents, frees an
    address inside the copy of the string: it has no defined result. *)
Theorem prep_roundtrip (j : Z) (Hj : 0 <= j < 15) (s : bytes) :
  (exists p, db_unparse_prep j = Some p /\ db_match_prep p = Some j) /\
  (forall n, db_match_prep s = Some n -> n = PREP_NONE \/ 0 <= n < 15) /\
  db_match_prep (35 :: s) = None.
Proof.
  split; [|split].
  - assert (j ∈ seqZ 0 15) as Hin by (apply elem_of_seqZ; lia). revert j Hj Hin.
    assert (Forall (fun j => match db_unparse_prep j with Some p => db_match_prep p = Some j | None => False end) (seqZ 0 15)) as H
      by (repeat (constructor; [by vm_compute|]); constructor).
    intros j _ Hin. rewrite Forall_forall in H. specialize (H j Hin). destruct (db_unparse_prep j); [by eexists|done].
  - intros n H. unfold db_match_prep in H. assert (n = PREP_NONE \/ 0 <= n < 15); [|done].
    destruct s as [|c s]; [vm_compute in H; injection H as <-; by left|].
    assert (forall c s, (let '(number, ptr) := strtoimax (c :: s) in
      if is_nil ptr then Some (if negb (isdigit c) || (Z.of_nat (length prep_list) <=? to_uint number) then PREP_NONE else to_uint number)
      else db_find_prep_exact <$> words_of (until_slash (c :: s))) = Some n -> n = PREP_NONE \/ 0 <= n < 15) as Hm.
    { clear. intros c s. destruct (strtoimax (c :: s)) as [number ptr]. destruct (is_nil ptr).
      - intros [= <-]. destruct (_ || _) eqn:E; [by left|]. right. apply orb_false_iff in E as [_ E%Z.leb_gt].
        change (Z.of_nat (length prep_list)) with 15 in E. unfold to_uint, wrapU in *. pose proof (Z.mod_pos_bound number (2 ^ 32)). lia.
      - destruct (words_of _) as [argv|]; [|done]. intros [= <-]. unfold db_find_prep_exact. destruct argv as [|w argv]; [by left|].
        destruct (find_entry true (w :: argv) dbpriv_build_prep_table 0) as [[k m]|] eqn:E; [|by left]. right.
        by apply find_entry_range in E. }
    apply (Hm c s). destruct (decide (c = 35)) as [->|Hc]; [done|].
    rewrite <- H. by repeat (case_match; try done).
  - done.
Qed.
Lemma prep_roundtrip_witness : 0 <= 2 < 15 /\
  db_unparse_prep 2 = Some (str "in front of") /\ db_match_prep (str "in front of") = Some 2 /\
  db_match_prep (str "12") = Some 12 /\ db_match_prep (str "99") = Some PREP_NONE /\ db_match_prep (str "#12") = None.
Proof.
  assert (0 <= 2 < 15) as H by lia. destruct (prep_roundtrip 2 H (str "12")) as ((p & E & Hp) & _ & Hh).
  split; [done|]. vm_compute in E. injection E as <-. split; [done|]. split; [exact Hp|]. split; [by vm_compute|]. split; [by vm_compute|exact Hh].
Defined.

(** ** The parsed command *)


Lemma skip_verb_lex s : forall q, skip_verb s q = snd (lex_word s q).
Proof.
  remember (length s) as n eqn:En. assert (length s <= n)%nat as Hn by lia. clear En. revert s Hn.
  induction n as [|n IH]; intros [|c s] Hn q; simpl in Hn; try lia; try done. cbn [skip_verb lex_word].
  destruct (negb q && (c =? 32)); [done|]. destruct (c =? 34); [apply IH; lia|]. destruct (c =? 92).
  - destruct s as [|e s]; [done|]. simpl in Hn. rewrite IH by lia. by destruct (lex_word s q).
  - rewrite IH by lia. by destruct (lex_word s q).
Qed.

Lemma special_lex v s : v ∈ [str "say"; str "emote"; str "eval"] -> lex (v ++ 32 :: s) = v :: lex s.
Proof.
  intros Hv. assert (plain v) as Hp by (repeat (apply elem_of_cons in Hv as [->|Hv]; [by split; [|repeat constructor]|]); by apply elem_of_nil in Hv).
  assert (written v v) as Hw by (by right). destruct (written_head v v (32 :: s) Hw) as (c & r & E & Hc).
  pose proof (lex_word_written v v (32 :: s) Hw) as Hl. rewrite E in *. rewrite lex_cons by done. rewrite Hl by (right; by eexists).
  cbn [fst snd]. f_equal. rewrite <- (lex_skip (32 :: s)), skip_blanks_cons. apply lex_skip.
Qed.

Lemma expand_plain {A} c (a b d e : A) : c <> 34 -> c <> 58 -> c <> 59 ->
  match c with 34 => a | 58 => b | 59 => d | _ => e end = e.
Proof. intros H1 H2 H3. destruct c as [|p|p]; try done. by do 6 (destruct p as [p|p|]; try done). Qed.

(** The argument string holds the words after the verb. *)
Lemma expand_command_lex command : is_cstr command ->
  is_cstr (fst (expand_command command)) /\
  match lex (fst (expand_command command)) with
  | [] => True
  | _ :: rest => lex (snd (expand_command command)) = rest
  end.
Proof.
  intros Hc. unfold expand_command. apply skip_blanks_cstr in Hc. pose proof (skip_blanks_head command) as Hh.
  destruct (skip_blanks command) as [|c s]; [done|].
  assert (forall v, v ∈ [str "say"; str "emote"; str "eval"] -> is_cstr (v ++ 32 :: s) /\
    match lex (v ++ 32 :: s) with [] => True | _ :: rest => lex s = rest end) as Hspecial.
  { intros v Hv. rewrite special_lex by done. split; [|done]. apply Forall_app. apply Forall_cons in Hc as [_ Hc].
    split; [|constructor; [lia|done]]. repeat (apply elem_of_cons in Hv as [->|Hv]; [by repeat constructor|]). by apply elem_of_nil in Hv. }
  assert (is_cstr (c :: s) /\ match lex (c :: s) with [] => True | _ :: rest => lex (skip_blanks (skip_verb (c :: s) false)) = rest end) as Hplain.
  { split; [done|]. by rewrite lex_cons, lex_skip, skip_verb_lex. }
  destruct (decide (c = 34)) as [->|H1]; [apply (Hspecial (str "say")); by left|].
  destruct (decide (c = 58)) as [->|H2]; [apply (Hspecial (str "emote")); right; by left|].
  destruct (decide (c = 59)) as [->|H3]; [apply (Hspecial (str "eval")); right; right; by left|].
  by rewrite expand_plain.
Qed.

Lemma slice_mid {A} i j (a m b : list A) : i = Z.of_nat (length a) -> j = i + Z.of_nat (length m) -> slice i j (a ++ m ++ b) = m.
Proof.
  intros -> ->. unfold slice. rewrite Nat2Z.id, drop_app_length. replace (Z.to_nat _) with (length m) by lia. apply take_app_length.
Qed.

(** C34: A line without words gives no command.  Otherwise the command's verb
    is the first word, its argument string holds the other words, which are its
    [args], and: either no phrase of the preposition table begins at any of
    them, and they are all the direct object; or they are [pre ++ mid ++ post]
    where [mid] is the first phrase of the table at the first place where there
    is one, and [pre], [mid] and [post], joined by spaces, are the direct
    object, the preposition and the indirect object.  Each object is the one
    its string matches. *)
Theorem parse_command_correct aliases (t : db) command user (Hc : is_cstr command) :
  match lex (fst (expand_command command)) with
  | [] => parse_command aliases t command user = Some None
  | w :: rest => exists pc, parse_command aliases t command user = Some (Some pc) /\
    verb pc = w /\ lex (argstr pc) = rest /\ args pc = VList (VStr <$> rest) /\
    dobj pc = match_object aliases t user (dobjstr pc) /\ iobj pc = match_object aliases t user (iobjstr pc) /\
    ((prep pc = PREP_NONE /\ dobjstr pc = build_string rest /\ prepstr pc = [] /\ iobjstr pc = [] /\
      forall pre post, rest = pre ++ post -> post <> [] -> no_phrase preps post) \/
     exists pre mid post j, rest = pre ++ mid ++ post /\ phrase preps j (mid ++ post) mid /\ prep pc = Z.of_nat j /\
       (forall pre' post', pre = pre' ++ post' -> post' <> [] -> no_phrase preps (post' ++ mid ++ post)) /\
       dobjstr pc = build_string pre /\ prepstr pc = build_string mid /\ iobjstr pc = build_string post)
  end.
Proof.
  destruct (expand_command_lex command Hc) as [Hcb Hl]. unfold parse_command.
  destruct (expand_command command) as [buf argstr]. cbn [fst snd] in *. rewrite (words_of_lex buf Hcb).
  destruct (lex buf) as [|w rest]; [done|].
  assert (forall n pre post, n = Z.of_nat (length pre) -> rest = pre ++ post ->
    (if n =? 0 then ([], NOTHING) else let dobjstr := build_string (slice 1 (1 + n) (w :: rest)) in
      (dobjstr, match_object aliases t user dobjstr)) = (build_string pre, match_object aliases t user (build_string pre))) as Hd.
  { intros n pre post -> ->. change (w :: pre ++ post) with ([w] ++ pre ++ post). rewrite slice_mid by done. by destruct pre. }
  destruct (find_prep_correct rest 0) as [[E Hno]|(pre & mid & post & j & E & Er & Hph & Hno)]; [lia| |]; fold (db_find_prep rest) in E; rewrite E.
  - match goal with |- context [if 1 <? ?a then ?x else ?y] => replace (if 1 <? a then x else y) with y by (by destruct (1 <? a)) end.
    cbn [negb PREP_NONE Z.eqb Pos.eqb]. rewrite (Hd _ rest []); [|simpl length; lia|by rewrite app_nil_r].
    eexists. split; [reflexivity|]. cbn [verb CmdCode.argstr args dobj iobj dobjstr iobjstr prepstr prep].
    repeat (split; [first [reflexivity|exact Hl]|]). left. repeat (split; [reflexivity|]). exact Hno.
  - destruct rest as [|r rest']; [injection E; unfold PREP_NONE; lia|]. rewrite (proj2 (Z.ltb_lt 1 _)) by (simpl length; lia).
    assert ((Z.of_nat j =? PREP_NONE) = false) as Hj by (apply Z.eqb_neq; unfold PREP_NONE; lia). rewrite Hj. cbn [negb]. cbv zeta.
    rewrite !Hj. cbn [negb]. rewrite (Hd _ pre (mid ++ post)) by (done || lia). clear Hd. rewrite Er.
    change (w :: pre ++ mid ++ post) with ((w :: pre) ++ mid ++ post).
    rewrite (slice_mid _ _ (w :: pre) mid post) by (simpl length; lia).
    assert (forall i k, i = Z.of_nat (length ((w :: pre) ++ mid)) -> k = Z.of_nat (length ((w :: pre) ++ mid ++ post)) ->
      slice i k ((w :: pre) ++ mid ++ post) = post) as Hi.
    { intros i k -> ->. rewrite (app_assoc (w :: pre)), <- (app_nil_r (_ ++ post)), <- app_assoc.
      apply slice_mid; [done|]. rewrite !length_app. simpl length. lia. }
    rewrite Hi by (rewrite ?length_app; simpl length; lia). clear Hi.
    eexists. split; [reflexivity|]. cbn [verb CmdCode.argstr args dobj iobj dobjstr iobjstr prepstr prep].
    repeat (split; [first [reflexivity|by rewrite Hl, Er]|]). right. exists pre, mid, post, j. by rewrite <- Er.
Qed.
Definition no_aliases (oid : Z) : option (list Var) := None.
Lemma parse_command_correct_witness : is_cstr (str "put red ball in the box") /\
  exists pc, parse_command no_aliases empty_db (str "put red ball in the box") 0 = Some (Some pc) /\
    verb pc = str "put" /\ lex (argstr pc) = [str "red"; str "ball"; str "in"; str "the"; str "box"] /\
    dobjstr pc = str "red ball" /\ prepstr pc = str "in" /\ prep pc = 3 /\ iobjstr pc = str "the box" /\ iobj pc = FAILED_MATCH.
Proof.
  assert (is_cstr (str "put red ball in the box")) as Hc by (by repeat constructor). split; [exact Hc|].
  pose proof (parse_command_correct no_aliases empty_db _ 0 Hc) as H.
  assert (lex (fst (expand_command (str "put red ball in the box"))) =
    [str "put"; str "red"; str "ball"; str "in"; str "the"; str "box"]) as E by reflexivity.
  rewrite E in H. destruct H as (pc & Hp & Hv & Ha & _). exists pc. split; [exact Hp|]. split; [exact Hv|]. split; [exact Ha|].
  vm_compute in Hp. injection Hp as <-. vm_compute. repeat split.
Defined.

(** ** The object that a name denotes *)

Lemma hash_case {A} c (a b : A) : c <> 35 -> match c with 35 => a | _ => b end = b.
Proof. intros H. destruct c as [|p|p]; try done. by do 6 (destruct p as [p|p|]; try done). Qed.

Section denote.
Context (aliases : Z -> option (list Var)) (t : db).

Definition contents_at (oid : Z) : list Z := if valid t oid then db_for_all_contents t oid else [].
(** The object among the player's things and those around it: the one that
    is called [w], or the one that [w] abbreviates *)
Definition denoted (player : Z) (w : bytes) : Z :=
  let here := contents_at player ++ contents_at (location_of_player t player) in
  match the_one (filter (fun x => exact_for aliases t w x) here) with
  | Some r => r
  | None => default FAILED_MATCH (the_one (filter (fun x => partial_for aliases t w x) here))
  end.

Lemma match_all_app w l1 : forall l2 d, match_all aliases t w (l1 ++ l2) d =
  match match_all aliases t w l1 d with Some d => match_all aliases t w l2 d | None => None end.
Proof. induction l1 as [|x l1 IH]; intros l2 d; [done|]. simpl. destruct (match_proc aliases t w x d); [apply IH|done]. Qed.
Lemma match_steps_all w holders : forall d, match_steps aliases t w holders d = match_all aliases t w (concat (map contents_at holders)) d.
Proof.
  induction holders as [|h holders IH]; intros d; [done|]. cbn [match_steps map concat]. rewrite match_all_app. unfold contents_at at 1.
  destruct (valid t h); cbn [negb]; [|apply IH]. destruct (match_all _ _ _ _ _); [apply IH|done].
Qed.

Lemma valid_pos oid : valid t oid = true -> 0 <= oid.
Proof.
  intros H. apply bool_decide_eq_true in H. unfold dbpriv_find_object in H. destruct (Z.ltb_spec oid 0); [by destruct H|lia].
Qed.
Lemma contents_at_valid oid : db_ok t -> Forall (fun c => valid t c = true) (contents_at oid).
Proof.
  intros Hok. unfold contents_at, db_for_all_contents. destruct (valid t oid); [|constructor].
  destruct (object_of t oid) as [o|] eqn:E; [|constructor]. by apply (fm_valid _ _ _ (ok_place _ Hok) oid).
Qed.

Lemma location_valid player : db_ok t -> location_of_player t player = NOTHING \/ valid t (location_of_player t player) = true.
Proof.
  intros Hok. unfold location_of_player. destruct (object_of t player) as [o|] eqn:E; [|by left].
  exact (fm_wf _ _ _ (ok_place _ Hok) player o E).
Qed.
Lemma the_one_in l : match the_one l with Some r => r = AMBIGUOUS \/ r ∈ l | None => l = [] end.
Proof. destruct l as [|x l]; [done|]. simpl. destruct (forallb (Z.eqb x) l); [right; by left|by left]. Qed.
Lemma denoted_valid player w : db_ok t ->
  denoted player w ∈ [NOTHING; AMBIGUOUS; FAILED_MATCH] \/ valid t (denoted player w) = true.
Proof.
  intros Hok. unfold denoted. set (here := contents_at player ++ contents_at (location_of_player t player)).
  assert (forall f : Z -> bool, match the_one (filter (fun x => f x) here) with
    Some r => r ∈ [NOTHING; AMBIGUOUS; FAILED_MATCH] \/ valid t r = true | None => True end) as H.
  { intros f. pose proof (the_one_in (filter (fun x => f x) here)) as Hin. destruct (the_one _) as [r|]; [|done].
    destruct Hin as [->|[_ Hin]%list_elem_of_filter]; [left; right; by left|right].
    assert (Forall (fun x => valid t x = true) here) as Hv by (apply Forall_app; split; by apply contents_at_valid).
    rewrite Forall_forall in Hv. by apply Hv. }
  pose proof (H (fun x => exact_for aliases t w x)) as H1. pose proof (H (fun x => partial_for aliases t w x)) as H2.
  destruct (the_one (filter (fun x => exact_for aliases t w x) here)); [exact H1|].
  destruct (the_one (filter (fun x => partial_for aliases t w x) here)); [exact H2|]. left. right. right. by left.
Qed.

Lemma match_contents_correct player w : db_ok t -> valid t player = true -> match_contents aliases t player w = denoted player w.
Proof.
  intros Hok Hv. unfold match_contents. rewrite Hv. cbn [negb]. rewrite match_steps_all. cbn [map concat]. rewrite app_nil_r.
  unfold denoted. set (here := contents_at player ++ contents_at (location_of_player t player)).
  assert (Forall (fun x => 0 <= x) here) as Hp.
  { apply Forall_app; split; (eapply Forall_impl; [by apply contents_at_valid|]); intros c Hc; by apply valid_pos. }
  pose proof (match_all_correct aliases t w here (mk_match NOTHING FAILED_MATCH) [] Hp) as H. cbn [app] in H.
  destruct (match_all aliases t w here _) as [d|].
  - destruct H as (He & Ha & Hpa); [done|]. rewrite He, Hpa.
    pose proof (the_one_range _ (Forall_filter_bool _ (fun x => exact_for aliases t w x) here Hp)) as Hr.
    destruct (the_one (filter (fun x => exact_for aliases t w x) here)) as [r|]; [|done]. simpl.
    destruct (Z.eqb_spec r NOTHING) as [->|]; [by destruct Hr|done].
  - by rewrite H.
Qed.
End denote.

(** C35: In a sound database: the empty name denotes nothing; a hash mark and
    the number of a valid object denote that object; otherwise, for a valid
    player, [me] and [here] are the player and its location, and any other
    name denotes the one object among the contents of the player and of its
    location that has it as its name or alias, or failing that the one it
    abbreviates, ambiguous for several and failed for none.  What is answered
    is a valid object or one of the three failure numbers. *)
Theorem match_object_correct aliases t player w (Hok : db_ok t) :
  match_object aliases t player [] = NOTHING /\
  (forall n, is_num n -> valid t n = true -> match_object aliases t player (35 :: decimal n) = n) /\
  (w <> [] -> head w <> Some 35 -> match_object aliases t player w =
     if negb (valid t player) then FAILED_MATCH
     else if strcasecmp w (str "me") =? 0 then player
     else if strcasecmp w (str "here") =? 0 then location_of_player t player
     else denoted aliases t player w) /\
  (match_object aliases t player w ∈ [NOTHING; AMBIGUOUS; FAILED_MATCH] \/ valid t (match_object aliases t player w) = true).
Proof.
  assert (w <> [] -> head w <> Some 35 -> match_object aliases t player w =
     if negb (valid t player) then FAILED_MATCH
     else if strcasecmp w (str "me") =? 0 then player
     else if strcasecmp w (str "here") =? 0 then location_of_player t player
     else denoted aliases t player w) as Hw.
  { intros Hne Hh. destruct w as [|c w']; [done|]. assert (c <> 35) as Hc by (intros ->; done).
    unfold match_object. rewrite hash_case by done. destruct (valid t player) eqn:Hv; cbn [negb]; [|done].
    by rewrite match_contents_correct. }
  split; [done|]. split.
  { intros n Hn Hv. pose proof (valid_pos t n Hv) as Hp. destruct (decimal_eq n) as (l & E & Hl & Hne & Hz).
    cbn [match_object]. pose proof (strtoimax_sign [] (n <? 0) l [] (Forall_nil_2 _) Hl Hne I) as Es.
    rewrite Hz, app_nil_r in Es. cbn [app] in Es. rewrite E, Es. unfold is_num, clamp in *.
    replace (Z.max _ _) with n by lia. rewrite Hv. done. }
  split; [exact Hw|]. destruct w as [|c w']; [left; by left|]. destruct (decide (c = 35)) as [->|Hc].
  - cbn [match_object]. destruct (strtoimax w') as [r p]. destruct (is_nil p); cbn [negb orb]; [|left; right; right; by left].
    destruct (valid t r) eqn:E; [by right|left; right; right; by left].
  - rewrite Hw by (try done; simpl; congruence). destruct (valid t player) eqn:Hv; cbn [negb]; [|left; right; right; by left].
    destruct (_ =? 0); [by right|]. destruct (_ =? 0); [|by apply denoted_valid].
    destruct (location_valid t player Hok) as [->|H]; [left; by left|by right].
Qed.
Definition box_alias (oid : Z) : option (list Var) := if oid =? 3 then Some [VInt 7; VStr (str "Red Box"); VStr (str "box")] else None.
Lemma match_object_correct_witness : db_ok world /\
  match_object box_alias world 2 [] = NOTHING /\ match_object box_alias world 2 (str "#3") = 3 /\
  match_object box_alias world 2 (str "bO") = 3 /\ match_object box_alias world 2 (str "boxes") = FAILED_MATCH /\
  match_object box_alias world 2 (str "ME") = 2.
Proof.
  split; [exact world_ok|].
  destruct (match_object_correct box_alias world 2 (str "bO") world_ok) as (H1 & H2 & H3 & _).
  split; [exact H1|]. split; [apply (H2 3); [by split|by vm_compute]|].
  split; [rewrite H3; [by vm_compute|by vm_compute|by vm_compute]|]. split; by vm_compute.
Defined.

(** [off of] is never found: the alias [off] of the same entry comes first. *)
Example off_of_unreachable : db_find_prep [str "off"; str "of"; str "wall"] = (14, 0, 0).
Proof. vm_compute. reflexivity. Qed.
(** A name that is a hash mark alone denotes object 0. *)
Example hash_alone : match_object box_alias world 2 [35] = 0.
Proof. vm_compute. reflexivity. Qed.
