(* ===== verification/PropCode.v ===== *)
(** * Properties (db_properties.cc)

    An object defines properties ([propdefs]) and has a slot ([propval]) for
    every property that it or one of its ancestors defines: first those of its
    own definitions, then those of each ancestor in the order of
    [db_ancestors].  The two fields of an object are kept in a map of their
    own beside the object heap of [ObjCode], under the same addresses.  [None]
    is undefined behaviour, a panic or a failed assertion, or fuel that ran
    out.  Not modelled: the property caches of waifs, and [last_move], which
    is a parameter. *)
From Stdlib Require Import ZArith Lia.
From stdpp Require Import prelude gmap strings.
From S2P Require Import Prelude CString Value ObjCode.

Local Open Scope Z_scope.
Local Open Scope moo_scope.

Definition PF_READ : Z := 1.
Definition PF_WRITE : Z := 2.
Definition PF_CHOWN : Z := 4.

Record Propdef := mk_Propdef { pd_name : bytes; pd_hash : Z }.
Record Pval := mk_Pval { pv_var : Var; pv_owner : Z; pv_perms : Z }.
(** [propdefs] with its capacity; [propval] of [nval] elements *)
Record Props := mk_Props { propdefs : list Propdef; max_length : Z; propval : list Pval }.
Record pdb := mk_pdb { base : db; props : gmap loc Props }.

Definition with_base (d : db) (s : pdb) : pdb := mk_pdb d (props s).
Definition with_propdefs (l : list Propdef) (max : Z) (p : Props) : Props := mk_Props l max (propval p).
Definition with_propval (l : list Pval) (p : Props) : Props := mk_Props (propdefs p) (max_length p) l.

(** An operation on the objects *)
Definition lift {A} (m : M db A) : M pdb A := fun s =>
  match m (base s) with Some (x, d) => Some (x, with_base d s) | None => None end.
Definition pload (l : loc) : M pdb Props := fun s => match props s !! l with Some p => Some (p, s) | None => None end.
Definition pupdate (l : loc) (f : Props -> Props) : M pdb unit := fun s =>
  match props s !! l with Some p => Some (tt, mk_pdb (base s) (<[l := f p]> (props s))) | None => None end.
Definition deref (obj : Var) : M pdb loc := lift (dbpriv_dereference obj).

Definition dbpriv_new_propdef (name : bytes) : Propdef := mk_Propdef name (str_hash name).

(** ** Definitions *)

Definition prop_named (pname : bytes) (phash : Z) (p : Propdef) : bool := (pd_hash p =? phash) && (strcasecmp (pd_name p) pname =? 0).

Fixpoint offset_loop (target : Var) (ancestors : list Var) (offset : Z) : M pdb Z :=
  match ancestors with
  | [] => mreturn (-1)
  | ancestor :: ancestors =>
    match equality target ancestor false with
    | None => mfail
    | Some true => mreturn offset
    | Some false =>
      let! l := deref ancestor in
      let! p := pload l in
      offset_loop target ancestors (offset + Z.of_nat (length (propdefs p)))
    end
  end.
Definition properties_offset (fuel : nat) (target this : Var) : M pdb Z :=
  let! ancestors := lift (db_ancestors fuel this true) in
  offset_loop target ancestors 0.

Definition property_defined_at (pname : bytes) (phash : Z) (p : Props) : bool := existsb (prop_named pname phash) (propdefs p).

(** A loop that returns at the first true answer *)
Fixpoint any_of {A} (f : A -> option bool) (l : list A) : option bool :=
  match l with
  | [] => Some false
  | x :: l => match f x with Some false => any_of f l | r => r end
  end.

Fixpoint property_defined_at_or_below (fuel : nat) (pname : bytes) (phash : Z) (s : pdb) (l : loc) : option bool :=
  match fuel with
  | O => None
  | S fuel =>
    match props s !! l, obj_heap (base s) !! l with
    | Some p, Some o =>
      if property_defined_at pname phash p then Some true
      else any_of (fun child => match dbpriv_find_object (base s) child with
                                | Some child => property_defined_at_or_below fuel pname phash s child
                                | None => None
                                end) (children o)
    | _, _ => None
    end
  end.

(** ** Slots *)

Definition insert_prop2 (obj : Var) (pos : Z) (pval : Pval) : M pdb unit :=
  let! l := deref obj in
  let! o := lift (load l) in
  let! p := pload l in
  if (pos <? 0) || (Z.of_nat (length (propval p)) <? pos) then mfail
  else
    let i := Z.to_nat pos in
    let new := mk_Pval (pv_var pval)
                 (if negb (Z.land (pv_perms pval) PF_CHOWN =? 0) then owner o else pv_owner pval) (pv_perms pval) in
    pupdate l (with_propval (take i (propval p) ++ new :: drop i (propval p))).
Definition insert_prop (oid : Z) (pos : Z) (pval : Pval) : M pdb unit := insert_prop2 (VObj oid) pos pval.

Definition remove_prop2 (obj : Var) (pos : Z) : M pdb unit :=
  let! l := deref obj in
  let! p := pload l in
  if (pos <? 0) || (Z.of_nat (length (propval p)) <=? pos) then mfail
  else
    let i := Z.to_nat pos in
    pupdate l (with_propval (take i (propval p) ++ drop (S i) (propval p))).
Definition remove_prop (oid : Z) (pos : Z) : M pdb unit := remove_prop2 (VObj oid) pos.

(** [dbpriv_append_anon_list]; the set is enumerated in some order *)
Definition dbpriv_append_anon_list (d : db) (root : Z) (r : list Var * gset loc) : list Var * gset loc :=
  match anonymous_objects d !! root with
  | Some ls => fold_left (fun '(ret, seen) x => if decide (x ∈ seen) then (ret, seen) else (ret ++ [VAnon (Some x)], {[x]} ∪ seen))
                 (elements ls) r
  | None => r
  end.

(** The descendants of [root] with the anonymous children of them all *)
Definition all_descendants (fuel : nat) (root : Z) : M pdb (list Var) :=
  let! descendants := lift (db_descendants fuel (VObj root) false) in
  fun s =>
  let numbers := omap (fun v => match v with VObj o => Some o | _ => None end) descendants in
  let anons := fold_left (fun r x => dbpriv_append_anon_list (base s) x r) (root :: numbers) ([], ∅) in
  Some (descendants ++ fst anons, s).

Fixpoint mapM_ {A B} (f : A -> M pdb B) (l : list A) : M pdb (list B) :=
  match l with
  | [] => mreturn []
  | x :: l => let! y := f x in let! ys := mapM_ f l in mreturn (y :: ys)
  end.
Fixpoint iter {A} (f : A -> M pdb unit) (l : list A) : M pdb unit :=
  match l with [] => mreturn tt | x :: l => f x ;; iter f l end.

Definition insert_prop_recursively (fuel : nat) (root : Z) (prop_pos : Z) (pv : Pval) : M pdb unit :=
  insert_prop root prop_pos pv ;;
  let pv := mk_Pval VClear (pv_owner pv) (pv_perms pv) in
  let! descendants := all_descendants fuel root in
  let! offsets := mapM_ (properties_offset fuel (VObj root)) descendants in
  iter (fun '(descendant, offset) => insert_prop2 descendant (offset + prop_pos) pv) (zip descendants offsets).

Definition remove_prop_recursively (fuel : nat) (root : Z) (prop_pos : Z) : M pdb unit :=
  remove_prop root prop_pos ;;
  let! descendants := all_descendants fuel root in
  let! offsets := mapM_ (properties_offset fuel (VObj root)) descendants in
  iter (fun '(descendant, offset) => remove_prop2 descendant (offset + prop_pos)) (zip descendants offsets).

(** ** Lookup *)

Inductive bi_prop :=
| BP_NAME | BP_OWNER | BP_PROGRAMMER | BP_WIZARD | BP_R | BP_W | BP_F | BP_A | BP_LOCATION | BP_LAST_MOVE | BP_CONTENTS.
Definition ptable : list (bytes * bi_prop) :=
  [(str "name", BP_NAME); (str "owner", BP_OWNER); (str "programmer", BP_PROGRAMMER); (str "wizard", BP_WIZARD);
   (str "r", BP_R); (str "w", BP_W); (str "f", BP_F); (str "a", BP_A); (str "location", BP_LOCATION);
   (str "last_move", BP_LAST_MOVE); (str "contents", BP_CONTENTS)].
Definition find_builtin (name : bytes) : option bi_prop :=
  snd <$> List.find (fun e => (str_hash (fst e) =? str_hash name) && (strcasecmp name (fst e) =? 0)) ptable.

(** [db_prop_handle]: nothing found, a built-in property of an object, or
    the slot [o->propval + n] and the object that defines it *)
Inductive db_prop_handle :=
| PropNone
| PropBuiltin (built_in : bi_prop) (o : loc)
| PropSlot (definer o : loc) (n : nat).

Fixpoint find_def (pname : bytes) (phash : Z) (defs : list Propdef) : option nat :=
  match defs with
  | [] => None
  | p :: defs => if prop_named pname phash p then Some O else S <$> find_def pname phash defs
  end.

(** The loop over the ancestors: the definer, the index among its
    definitions, the slot *)
Fixpoint find_in_ancestors (pname : bytes) (phash : Z) (ancestors : list Var) (n : nat) : M pdb (option (loc * nat * nat)) :=
  match ancestors with
  | [] => mreturn None
  | ancestor :: ancestors =>
    let! v := lift (is_valid ancestor) in
    if negb v then find_in_ancestors pname phash ancestors n
    else
      let! t := deref ancestor in
      let! p := pload t in
      match find_def pname phash (propdefs p) with
      | Some i => mreturn (Some (t, i, (n + i)%nat))
      | None => find_in_ancestors pname phash ancestors (n + length (propdefs p))
      end
  end.

(** The first parent that has the properties of [target], or the last one *)
Fixpoint parent_with (fuel : nat) (target : Var) (parents : list Z) : M pdb (Z * Z) :=
  match parents with
  | [] => mfail
  | parent :: parents' =>
    let! offset := properties_offset fuel target (VObj parent) in
    if -1 <? offset then mreturn (parent, offset)
    else match parents' with [] => mreturn (parent, offset) | _ => parent_with fuel target parents' end
  end.

(** [l->propval + n], read *)
Definition read_slot (l : loc) (n : Z) : M pdb Pval :=
  let! p := pload l in
  if n <? 0 then mfail
  else match propval p !! Z.to_nat n with Some pv => mreturn pv | None => mfail end.

(** The loop [while (prop->var.type == TYPE_CLEAR)], which never ends on an
    object without parents *)
Fixpoint skip_clear (walk fuel : nat) (definer : loc) (i : nat) (l : loc) (n : Z) : M pdb Var :=
  match fuel with
  | O => mfail
  | S fuel =>
    let! prop := read_slot l n in
    match pv_var prop with
    | VClear =>
      let! o := lift (load l) in
      let! d := lift (load definer) in
      let! (parent, offset) :=
        match parents o with
        | inr ps => parent_with walk (VObj (obj_id d)) ps
        | inl p =>
          if p =? NOTHING then mfail
          else let! offset := properties_offset walk (VObj (obj_id d)) (VObj p) in mreturn (p, offset)
        end in
      let! l := deref (VObj parent) in
      skip_clear walk fuel definer i l (offset + Z.of_nat i)
    | v => mreturn v
    end
  end.

Section last_move.
(** The field [last_move] of an object *)
Context (last_move : loc -> Var).

Definition flag_value (o : Object) (f : Z) : Var := VInt (if dbpriv_object_has_flag o f then 1 else 0).
Definition get_bi_value (built_in : bi_prop) (l : loc) (o : Object) : Var :=
  match built_in with
  | BP_NAME => VStr (name o)
  | BP_OWNER => VObj (owner o)
  | BP_PROGRAMMER => flag_value o FLAG_PROGRAMMER
  | BP_WIZARD => flag_value o FLAG_WIZARD
  | BP_R => flag_value o FLAG_READ
  | BP_W => flag_value o FLAG_WRITE
  | BP_F => flag_value o FLAG_FERTILE
  | BP_A => flag_value o FLAG_ANONYMOUS
  | BP_LOCATION => VObj (location o)
  | BP_LAST_MOVE => last_move l
  | BP_CONTENTS => VList (VObj <$> contents o)
  end.

(** The handle, and the value when [want] says that one is asked for *)
Definition db_find_property (fuel : nat) (obj : Var) (pname : bytes) (want : bool) : M pdb (db_prop_handle * option Var) :=
  let! l := deref obj in
  let! o := lift (load l) in
  let hash := str_hash pname in
  match find_builtin pname with
  | Some bp => mreturn (PropBuiltin bp l, if want then Some (get_bi_value bp l o) else None)
  | None =>
    let! ancestors := lift (db_ancestors fuel obj false) in
    let! p := pload l in
    let! found := (match find_def pname hash (propdefs p) with
                   | Some i => mreturn (Some (l, i, i))
                   | None => find_in_ancestors pname hash ancestors (length (propdefs p))
                   end) in
    match found with
    | None => mreturn (PropNone, None)
    | Some (definer, i, n) =>
      if want then
        let! v := skip_clear fuel fuel definer i l (Z.of_nat n) in
        mreturn (PropSlot definer l n, Some v)
      else mreturn (PropSlot definer l n, None)
    end
  end.
End last_move.

(** ** Access through a handle *)

Definition db_is_property_defined_on (h : db_prop_handle) (l : loc) : bool :=
  match h with PropSlot definer _ _ => bool_decide (definer = l) | _ => false end.
Definition db_is_property_built_in (h : db_prop_handle) : bool := match h with PropBuiltin _ _ => true | _ => false end.

Definition handle_slot (h : db_prop_handle) : M pdb Pval :=
  match h with PropSlot _ l n => read_slot l (Z.of_nat n) | _ => mfail end.
Definition update_slot (h : db_prop_handle) (f : Pval -> Pval) : M pdb unit :=
  match h with
  | PropSlot _ l n =>
    let! p := pload l in
    match propval p !! n with
    | Some pv => pupdate l (with_propval (<[n := f pv]> (propval p)))
    | None => mfail
    end
  | _ => mfail
  end.

Definition with_name (n : bytes) (o : Object) : Object :=
  mk_Object (obj_id o) (owner o) n (flags o) (parents o) (children o) (location o) (contents o).
(** The flag of a built-in property *)
Definition bi_flag (bp : bi_prop) : option Z :=
  match bp with
  | BP_PROGRAMMER => Some FLAG_PROGRAMMER | BP_WIZARD => Some FLAG_WIZARD | BP_R => Some FLAG_READ
  | BP_W => Some FLAG_WRITE | BP_F => Some FLAG_FERTILE | BP_A => Some FLAG_ANONYMOUS | _ => None
  end.

Definition db_property_value (last_move : loc -> Var) (h : db_prop_handle) : M pdb Var :=
  match h with
  | PropBuiltin bp l => let! o := lift (load l) in mreturn (get_bi_value last_move bp l o)
  | _ => let! prop := handle_slot h in mreturn (pv_var prop)
  end.
Definition db_set_property_value (h : db_prop_handle) (value : Var) : M pdb unit :=
  match h with
  | PropBuiltin bp l =>
    match bi_flag bp, bp, value with
    | Some flag, _, _ => lift (update l (if is_true value then dbpriv_set_object_flag flag else dbpriv_clear_object_flag flag))
    | None, BP_NAME, VStr n => lift (update l (with_name n))
    | None, BP_OWNER, VObj x => lift (update l (with_owner x))
    | _, _, _ => mfail
    end
  | _ => update_slot h (fun pv => mk_Pval value (pv_owner pv) (pv_perms pv))
  end.
Definition db_property_owner (h : db_prop_handle) : M pdb Z := let! prop := handle_slot h in mreturn (pv_owner prop).
Definition db_set_property_owner (h : db_prop_handle) (oid : Z) : M pdb unit :=
  update_slot h (fun pv => mk_Pval (pv_var pv) oid (pv_perms pv)).
Definition db_property_flags (h : db_prop_handle) : M pdb Z := let! prop := handle_slot h in mreturn (pv_perms prop).
Definition db_set_property_flags (h : db_prop_handle) (flags : Z) : M pdb unit :=
  update_slot h (fun pv => mk_Pval (pv_var pv) (pv_owner pv) flags).
Definition db_property_allows (h : db_prop_handle) (progr flag : Z) : M pdb bool :=
  let! prop := handle_slot h in
  fun s => Some (negb (Z.land (pv_perms prop) flag =? 0) || (progr =? pv_owner prop) || is_wizard (base s) progr, s).

(** ** Changes of the definitions *)

Section change.
Context (last_move : loc -> Var).

Definition handle_found (h : db_prop_handle) : bool := match h with PropNone => false | _ => true end.

Definition defined_below (fuel : nat) (pname : bytes) (l : loc) : M pdb bool := fun s =>
  match property_defined_at_or_below fuel pname (str_hash pname) s l with Some b => Some (b, s) | None => None end.

Definition db_add_propdef (fuel : nat) (obj : Var) (pname : bytes) (value : Var) (owner flags : Z) : M pdb bool :=
  let! l := deref obj in
  let! (h, _) := db_find_property last_move fuel obj pname false in
  let! conflict := (if handle_found h then mreturn true else defined_below fuel pname l) in
  if conflict : bool then mreturn false
  else
    let! p := pload l in
    let cur_length := Z.of_nat (length (propdefs p)) in
    let max := if cur_length =? max_length p
               then (if max_length p =? 0 then 8 else 2 * max_length p) else max_length p in
    pupdate l (with_propdefs (propdefs p ++ [dbpriv_new_propdef pname]) max) ;;
    let pval := mk_Pval value owner flags in
    match obj with
    | VObj oid => insert_prop_recursively fuel oid cur_length pval
    | _ => insert_prop2 obj cur_length pval
    end ;;
    mreturn true.

Definition db_rename_propdef (fuel : nat) (obj : Var) (old new : bytes) : M pdb bool :=
  let! l := deref obj in
  let! p := pload l in
  match find_def old (str_hash old) (propdefs p) with
  | None => mreturn false
  | Some i =>
    let! conflict :=
      (if negb (strcasecmp old new =? 0) then
         let! (h, _) := db_find_property last_move fuel obj new false in
         if handle_found h then mreturn true else defined_below fuel new l
       else mreturn false) in
    if conflict : bool then mreturn false
    else pupdate l (fun p => with_propdefs (<[i := dbpriv_new_propdef new]> (propdefs p)) (max_length p) p) ;;
         mreturn true
  end.

Definition db_delete_propdef (fuel : nat) (obj : Var) (pname : bytes) : M pdb bool :=
  let! l := deref obj in
  let! p := pload l in
  match find_def pname (str_hash pname) (propdefs p) with
  | None => mreturn false
  | Some i =>
    let max := max_length p in
    let new_size := if (8 <? max) && (Z.of_nat (length (propdefs p)) <=? Z.quot (max * 3) 8) then Z.quot max 2 else max in
    pupdate l (with_propdefs (take i (propdefs p) ++ drop (S i) (propdefs p)) new_size) ;;
    match obj with
    | VObj oid => remove_prop_recursively fuel oid (Z.of_nat i)
    | _ => remove_prop2 obj (Z.of_nat i)
    end ;;
    mreturn true
  end.

Definition db_count_propdefs (obj : Var) : M pdb Z :=
  let! l := deref obj in let! p := pload l in mreturn (Z.of_nat (length (propdefs p))).

(** ** Changes of parents *)

(** The loop on the stack of ancestors to visit *)
Fixpoint hypothetical_ancestors (steps : nat) (s : pdb) (stack ancestors : list Z) : option (list Z) :=
  match steps with
  | O => None
  | S steps =>
    match stack with
    | [] => Some ancestors
    | top :: stack =>
      if valid (base s) top then
        match object_of (base s) top with
        | Some o => hypothetical_ancestors steps s (enlist (parents o) ++ stack) (obj_setadd ancestors top)
        | None => None
        end
      else hypothetical_ancestors steps s stack ancestors
    end
  end.

Definition props_of (s : pdb) (oid : Z) : option Props := dbpriv_find_object (base s) oid ≫= fun l => props s !! l.

Definition dbpriv_check_properties_for_chparent (steps fuel : nat) (s : pdb) (l : loc) (parents : Z + list Z) (anon_kids : list loc) :
    option bool :=
  match hypothetical_ancestors steps s (enlist parents) [] with
  | None => None
  | Some ancestors =>
    let below := any_of (fun a => match props_of s a with
        | None => None
        | Some p => any_of (fun x =>
            match property_defined_at_or_below fuel (pd_name x) (pd_hash x) s l with
            | Some false => any_of (fun kid => match props s !! kid with
                                               | Some p3 => Some (property_defined_at (pd_name x) (pd_hash x) p3)
                                               | None => None
                                               end) anon_kids
            | r => r
            end) (propdefs p)
        end) ancestors in
    let among := any_of (fun a => match props_of s a with
        | None => None
        | Some p => any_of (fun b =>
            if b =? a then Some false
            else match props_of s b with
                 | Some p3 => Some (existsb (fun x => property_defined_at (pd_name x) (pd_hash x) p3) (propdefs p))
                 | None => None
                 end) ancestors
        end) ancestors in
    match below with
    | Some false => negb <$> among
    | r => negb <$> r
    end
  end.

(** The lengths of the sub-arrays of slots *)
Fixpoint def_lengths (ancestors : list Var) : M pdb (list nat) :=
  match ancestors with
  | [] => mreturn []
  | a :: ancestors =>
    let! l := deref a in
    let! p := pload l in
    let! ns := def_lengths ancestors in
    mreturn (length (propdefs p) :: ns)
  end.
Definition sum (ns : list nat) : nat := fold_right Nat.add O ns.

(** [ismember]: the position from 0 *)
Fixpoint ismember (x : Var) (l : list Var) : option nat :=
  match l with
  | [] => None
  | y :: l => match equality y x true with Some true => Some O | _ => S <$> ismember x l end
  end.

(** The first valid parent with the properties of [ancestor] *)
Fixpoint valid_parent_with (fuel : nat) (ancestor : Var) (parents : list Z) : M pdb (option (Z * Z)) :=
  match parents with
  | [] => mreturn None
  | parent :: parents => fun s =>
    if valid (base s) parent then
      (let! offset := properties_offset fuel ancestor (VObj parent) in
       if -1 <? offset then mreturn (Some (parent, offset)) else valid_parent_with fuel ancestor parents) s
    else valid_parent_with fuel ancestor parents s
  end.

(** The slots for the definitions of one new ancestor: those of before, or
    clear ones that take after a parent *)
Definition new_segment (fuel : nat) (old_ancestors : list Var) (old_lengths : list nat) (me : Object) (mine : Props)
    (ancestor : Var) (n : nat) : M pdb (list Pval) :=
  match ismember ancestor old_ancestors with
  | Some l => mreturn (take (default O (old_lengths !! l)) (drop (sum (take l old_lengths)) (propval mine)))
  | None =>
    let! r := valid_parent_with fuel ancestor (enlist (parents me)) in
    match n, r with
    | O, _ => mreturn []
    | _, None => mfail
    | _, Some (parent, offset) =>
      let! pl := deref (VObj parent) in
      let! pp := pload pl in
      let pvs := take n (drop (Z.to_nat offset) (propval pp)) in
      if (length pvs <? n)%nat then mfail
      else mreturn ((fun pv => mk_Pval VClear (if negb (Z.land (pv_perms pv) PF_CHOWN =? 0) then owner me else pv_owner pv) (pv_perms pv)) <$> pvs)
    end
  end.
Fixpoint new_segments (fuel : nat) (old_ancestors : list Var) (old_lengths : list nat) (me : Object) (mine : Props)
    (new_ancestors : list Var) (new_lengths : list nat) : M pdb (list Pval) :=
  match new_ancestors, new_lengths with
  | a :: new_ancestors, n :: new_lengths =>
    let! seg := new_segment fuel old_ancestors old_lengths me mine a n in
    let! rest := new_segments fuel old_ancestors old_lengths me mine new_ancestors new_lengths in
    mreturn (seg ++ rest)
  | _, _ => mreturn []
  end.

(** [setadd] on lists of objects *)
Definition var_setadd (l : list Var) (x : Var) : list Var := match ismember x l with Some _ => l | None => l ++ [x] end.

(** The lists of a child with several parents *)
Fixpoint child_ancestors (fuel : nat) (me : Z) (old_ancestors new_ancestors : list Var) (ps : list Z) (old new : list Var) :
    M pdb (list Var * list Var) :=
  match ps with
  | [] => mreturn (old, new)
  | p :: ps =>
    if p =? me then
      child_ancestors fuel me old_ancestors new_ancestors ps (fold_left var_setadd old_ancestors old) (fold_left var_setadd new_ancestors new)
    else
      let! _ := deref (VObj p) in
      let! all := lift (db_ancestors fuel (VObj p) true) in
      child_ancestors fuel me old_ancestors new_ancestors ps (fold_left var_setadd all old) (fold_left var_setadd all new)
  end.

Fixpoint dbpriv_fix_properties_after_chparent (depth fuel : nat) (obj : Var) (old_ancestors new_ancestors : list Var)
    (anon_kids : list loc) : M pdb unit :=
  match depth with
  | O => mfail
  | S depth =>
    let! old_lengths := def_lengths old_ancestors in
    let! new_lengths := def_lengths new_ancestors in
    let! l := deref obj in
    let! me := lift (load l) in
    let! mine := pload l in
    if negb (sum old_lengths =? length (propval mine))%nat then mfail
    else
      let! new_propval := new_segments fuel old_ancestors old_lengths me mine new_ancestors new_lengths in
      pupdate l (with_propval new_propval) ;;
      iter (fun child =>
        let! cl := deref child in
        let! oc := lift (load cl) in
        let! (old, new) :=
          match parents oc with
          | inr ps => child_ancestors fuel (match obj with VObj oid => oid | _ => obj_id me end) old_ancestors new_ancestors ps [child] [child]
          | inl _ => mreturn (child :: old_ancestors, child :: new_ancestors)
          end in
        fun s =>
        let kids := match child with
                    | VObj c => omap (fun v => match v with VAnon a => a | _ => None end)
                                  (fst (dbpriv_append_anon_list (base s) c ([], ∅)))
                    | _ => []
                    end in
        dbpriv_fix_properties_after_chparent depth fuel child old new kids s)
        ((VObj <$> children me) ++ ((fun a => VAnon (Some a)) <$> anon_kids))
  end.
End change.
