(* ===== verification/PropSpec.v ===== *)
(** * The layout of the property slots, and the invariant

    [line_of d l o] are the object at [l] and its ancestors, in the order of
    the slots; [props_ok s] says that every object has exactly one slot for
    every definition along its line, that the slot of a property on the
    object that defines it is not clear, and that capacities and hashes are
    right, every name a C string. *)
From Stdlib Require Import ZArith Lia.
From stdpp Require Import prelude gmap relations strings.
From S2P Require Import Prelude CString Value ObjCode ObjGraph ObjParents ObjChange PropCode.

Local Open Scope Z_scope.
Local Open Scope moo_scope.

(** ** Objects that hold properties *)

(** An anonymous object whose parents are all valid and know it *)
Definition anonymous (d : db) (l : loc) (o : Object) : Prop :=
  (forall x, dbpriv_find_object d x <> Some l) /\ parents_wf d (parents o) /\
  forall p, p ∈ enlist (parents o) -> valid d p = true -> exists s, anonymous_objects d !! p = Some s /\ l ∈ s.
(** [v] refers to the object [o] at [l]. *)
Inductive holder (d : db) : Var -> loc -> Object -> Prop :=
| holder_obj x l o : dbpriv_find_object d x = Some l -> obj_heap d !! l = Some o -> holder d (VObj x) l o
| holder_anon l o : anonymous d l o -> obj_heap d !! l = Some o -> holder d (VAnon (Some l)) l o.

Lemma holder_heap d v l o : holder d v l o -> obj_heap d !! l = Some o.
Proof. by destruct 1. Qed.
Lemma holder_deref d v l o : holder d v l o -> dbpriv_dereference v d = Some (l, d).
Proof. destruct 1; [by apply slot_eq|done]. Qed.

(** ** Lines *)

Definition above (d : db) (o : Object) : list Z := default [] (ancestors_list d o).
Definition locs_of (d : db) (xs : list Z) : list loc := omap (dbpriv_find_object d) xs.
Definition line_of (d : db) (l : loc) (o : Object) : list loc := l :: locs_of d (above d o).
#[global] Arguments line_of : simpl never.

Definition defs_at (s : pdb) (a : loc) : list Propdef := match props s !! a with Some p => propdefs p | None => [] end.
Definition ndefs (s : pdb) (a : loc) : nat := length (defs_at s a).
(** The slots of the objects [ls], and where those of [a] begin *)
Definition total (s : pdb) (ls : list loc) : nat := sum (map (ndefs s) ls).
Fixpoint offset_in (s : pdb) (ls : list loc) (a : loc) : option nat :=
  match ls with
  | [] => None
  | b :: ls => if decide (b = a) then Some O else Nat.add (ndefs s b) <$> offset_in s ls a
  end.

Lemma total_app s ls1 ls2 : total s (ls1 ++ ls2) = (total s ls1 + total s ls2)%nat.
Proof. unfold total. rewrite map_app. induction (map (ndefs s) ls1); simpl; lia. Qed.
Lemma total_cons s a ls : total s (a :: ls) = (ndefs s a + total s ls)%nat.
Proof. done. Qed.

Lemma offset_in_split s ls1 a ls2 : a ∉ ls1 -> offset_in s (ls1 ++ a :: ls2) a = Some (total s ls1).
Proof.
  intros Ha. induction ls1 as [|b ls1 IH]; simpl; [by rewrite decide_True|].
  rewrite decide_False by set_solver. rewrite IH by set_solver. done.
Qed.
Lemma offset_in_none s ls a : a ∉ ls -> offset_in s ls a = None.
Proof.
  induction ls as [|b ls IH]; intros Ha; [done|]. simpl. rewrite decide_False by set_solver. by rewrite IH by set_solver.
Qed.
Lemma offset_in_inv s ls a n : offset_in s ls a = Some n -> exists ls1 ls2, ls = ls1 ++ a :: ls2 /\ a ∉ ls1 /\ n = total s ls1.
Proof.
  intros H. destruct (decide (a ∈ ls)) as [Hin|Hout]; [|by rewrite offset_in_none in H].
  apply list_elem_of_split_l in Hin as (ls1 & ls2 & -> & Hn). rewrite offset_in_split in H by done. injection H as <-.
  by exists ls1, ls2.
Qed.

(** ** The invariant *)

Definition propdef_ok (q : Propdef) : Prop := is_cstr (pd_name q) /\ pd_hash q = str_hash (pd_name q).
Lemma new_propdef_ok pname : is_cstr pname -> propdef_ok (dbpriv_new_propdef pname).
Proof. done. Qed.
#[export] Hint Resolve new_propdef_ok : props.

Record slots_ok (s : pdb) (l : loc) (o : Object) (p : Props) : Prop := {
  so_length : length (propval p) = total s (line_of (base s) l o);
  so_max : Z.of_nat (length (propdefs p)) <= max_length p;
  so_names : Forall propdef_ok (propdefs p);
  so_clear : forall k pv, (k < length (propdefs p))%nat -> propval p !! k = Some pv -> pv_var pv <> VClear }.

Record props_ok (s : pdb) : Prop := {
  po_db : db_ok (base s);
  po_anons : forall x st l, anonymous_objects (base s) !! x = Some st -> l ∈ st ->
    exists o, obj_heap (base s) !! l = Some o /\ anonymous (base s) l o /\ x ∈ enlist (parents o);
  po_slots : forall v l o, holder (base s) v l o -> exists p, props s !! l = Some p /\ slots_ok s l o p }.

(** The part of it that holds while slots are being changed *)
Record frame_ok (s : pdb) : Prop := {
  fo_db : db_ok (base s);
  fo_anons : forall x st l, anonymous_objects (base s) !! x = Some st -> l ∈ st ->
    exists o, obj_heap (base s) !! l = Some o /\ anonymous (base s) l o /\ x ∈ enlist (parents o);
  fo_props : forall v l o, holder (base s) v l o -> is_Some (props s !! l) }.
Lemma props_frame s : props_ok s -> frame_ok s.
Proof. intros [H1 H2 H3]. split; [done|done|]. intros v l o Hh. destruct (H3 v l o Hh) as (p & Hp & _). by exists p. Qed.
#[export] Hint Resolve props_frame : props.

(** Nothing but the ancestor cache differs. *)
Definition recached (s s' : pdb) : Prop := exists c, cache_ok (with_cache c (base s)) /\ s' = with_base (with_cache c (base s)) s.

Lemma recached_refl s : frame_ok s -> recached s s.
Proof.
  intros H. exists (ancestor_cache (base s)). assert (with_cache (ancestor_cache (base s)) (base s) = base s) as E by (by destruct (base s)).
  rewrite E. split; [apply H|]. by destruct s.
Qed.
Lemma recached_trans s1 s2 s3 : recached s1 s2 -> recached s2 s3 -> recached s1 s3.
Proof. intros (c & Hc & ->) (c' & Hc' & ->). by exists c'. Qed.

Lemma above_cache c d o : table_ok d -> above (with_cache c d) o = above d o.
Proof. intros H. unfold above. by rewrite ancestors_list_cache. Qed.
Lemma line_of_cache c d l o : table_ok d -> line_of (with_cache c d) l o = line_of d l o.
Proof. intros H. unfold line_of, locs_of. by rewrite above_cache. Qed.
Lemma holder_cache c d v l o : holder (with_cache c d) v l o <-> holder d v l o.
Proof.
  split.
  - destruct 1; [by apply holder_obj|by apply holder_anon].
  - destruct 1; [by apply holder_obj|by apply holder_anon].
Qed.
Lemma total_recached s s' ls : recached s s' -> total s' ls = total s ls.
Proof. by intros (c & _ & ->). Qed.

Lemma recached_frame s s' : recached s s' -> frame_ok s -> frame_ok s'.
Proof.
  intros (c & Hc & ->) [H1 H2 H3]. split; cbn [base with_base props].
  - by apply db_ok_cache.
  - done.
  - intros v l o Hh%holder_cache. by eapply H3.
Qed.
Lemma recached_ok s s' : recached s s' -> props_ok s -> props_ok s'.
Proof.
  intros (c & Hc & ->) [H1 H2 H3]. split; simpl.
  - by apply db_ok_cache.
  - done.
  - intros v l o Hh%holder_cache. destruct (H3 v l o Hh) as (p & Hp & [A1 A2 A3 A4]). exists p. split; [done|].
    split; [|done..]. rewrite A1. simpl. rewrite line_of_cache; [done|apply H1].
Qed.

(** ** Ancestors of a holder *)

Lemma holder_object d x l o : holder d (VObj x) l o <-> dbpriv_find_object d x = Some l /\ obj_heap d !! l = Some o.
Proof. split; [inversion 1; by subst|intros []; by apply holder_obj]. Qed.
Lemma holder_object_of d x l o : holder d (VObj x) l o -> object_of d x = Some o.
Proof. intros [Hl Ho]%holder_object. unfold object_of. by rewrite Hl. Qed.

Lemma holder_ancestors fuel d v l o full :
  table_inv d -> cache_ok d -> holder d v l o -> (walk_fuel d <= fuel)%nat ->
  exists c, cache_ok (with_cache c d) /\
    db_ancestors fuel v full d = Some ((if full then [v] else []) ++ (VObj <$> above d o), with_cache c d).
Proof.
  intros Hti Hc Hh Hf. destruct Hh as [x l o Hl Ho|l o Ha Ho].
  - assert (object_of d x = Some o) as Hx by (unfold object_of; by rewrite Hl).
    destruct (db_ancestors_ok fuel d x o full Hti Hc Hx Hf) as (new & c & Hn & Hc' & E). exists c. split; [done|].
    unfold above. by rewrite Hn.
  - exists (ancestor_cache d). assert (with_cache (ancestor_cache d) d = d) as -> by (by destruct d). split; [done|].
    destruct (db_find_ancestors_at fuel d (VAnon (Some l)) l o full Hti) as (new & Hn & E); [done|done|done|].
    unfold above. rewrite Hn. unfold db_ancestors. erewrite mbind_Some by done. cbv beta. erewrite mbind_Some by (by apply load_eq).
    exact E.
Qed.

Lemma above_ok d o : table_inv d -> NoDup (above d o) /\ forall x, x ∈ above d o <-> members_below parents d o x.
Proof. intros Hti. destruct (ancestors_list_ok d o Hti) as (new & E & Hn & Hx). unfold above. by rewrite E. Qed.

Lemma reach_valid d x y : rtc (edge parents d) x y -> valid d x = true -> valid d y = true.
Proof. induction 1 as [|x y z (o & _ & _ & Hv) _ IH]; auto. Qed.
Lemma above_valid d o x : table_inv d -> x ∈ above d o -> valid d x = true.
Proof.
  intros Hti Hx. apply above_ok in Hx; [|done]. destruct Hx as (y & Hy & Hv & Hr). by eapply reach_valid.
Qed.

Lemma elem_of_locs_of d xs a : a ∈ locs_of d xs <-> exists x, x ∈ xs /\ dbpriv_find_object d x = Some a.
Proof. unfold locs_of. rewrite list_elem_of_omap. done. Qed.
Lemma find_inj d x y l : table_inv d -> dbpriv_find_object d x = Some l -> dbpriv_find_object d y = Some l -> x = y.
Proof. intros Hti Hx Hy. eapply (ti_inj d Hti); by apply find_slot. Qed.
Lemma NoDup_locs_of d xs : table_inv d -> NoDup xs -> NoDup (locs_of d xs).
Proof.
  intros Hti. induction 1 as [|x xs Hx _ IH]; simpl; [constructor|]. destruct (dbpriv_find_object d x) as [l|] eqn:E; [|done].
  constructor; [|done]. intros (y & Hy & El)%elem_of_locs_of. apply Hx. by rewrite (find_inj d x y l).
Qed.

Lemma member_tc d x o y : object_of d x = Some o -> members_below parents d o y -> tc (edge parents d) x y.
Proof.
  intros Ho (z & Hz & Hv & Hr). assert (edge parents d x z) as He by (by exists o). eapply tc_rtc_r; [by apply tc_once|exact Hr].
Qed.

Lemma NoDup_line d v l o : db_ok d -> holder d v l o -> NoDup (line_of d l o).
Proof.
  intros Hok Hh. pose proof (ok_table d Hok) as Hti. destruct (above_ok d o Hti) as [Hn Hx]. constructor; [|by apply NoDup_locs_of].
  intros (y & Hy & Hl)%elem_of_locs_of. destruct Hh as [x l o Hlx Ho|l o (Ha & _) Ho]; [|by apply (Ha y)].
  assert (y = x) as -> by (by eapply find_inj). apply Hx in Hy.
  assert (object_of d x = Some o) as Hxo by (unfold object_of; by rewrite Hlx).
  apply (acyclic_tc _ x (fm_acyclic _ _ _ (ok_family d Hok))). by eapply member_tc.
Qed.

(** The number of an object that is permanent *)
Lemma line_tail d v l o a : db_ok d -> holder d v l o -> a ∈ line_of d l o -> a = l \/
  exists x p, holder d (VObj x) a p /\ x ∈ above d o.
Proof.
  intros Hok Hh [->|(x & Hx & Ha)%elem_of_locs_of]%elem_of_cons; [by left|right].
  destruct (ti_table d (ok_table d Hok) x a Ha) as [p Hp]. exists x, p. split; [by apply holder_obj|done].
Qed.

(** ** Offsets *)

Lemma lift_eq {A} (m : M db A) s x d : m (base s) = Some (x, d) -> lift m s = Some (x, with_base d s).
Proof. unfold lift. by intros ->. Qed.
Lemma with_base_id s : with_base (base s) s = s.
Proof. by destruct s. Qed.
Lemma deref_at s v l o : holder (base s) v l o -> deref v s = Some (l, s).
Proof. intros H. unfold deref. erewrite lift_eq by (by eapply holder_deref). by rewrite with_base_id. Qed.
Lemma pload_eq s l p : props s !! l = Some p -> pload l s = Some (p, s).
Proof. unfold pload. by intros ->. Qed.

Lemma equality_holder d r rl v l o :
  table_inv d -> dbpriv_find_object d r = Some rl -> holder d v l o -> equality (VObj r) v false = Some (bool_decide (l = rl)).
Proof.
  intros Hti Hr Hh. destruct Hh as [x l o Hl Ho|l o (Ha & _) Ho]; simpl.
  - f_equal. apply eq_true_iff_eq. rewrite Z.eqb_eq, bool_decide_eq_true. split; [congruence|]. intros ->. by eapply find_inj.
  - rewrite bool_decide_eq_false_2; [done|]. intros ->. by apply (Ha r).
Qed.

(** [vs] refer to the objects at [ls], which have properties. *)
Definition refer (s : pdb) (vs : list Var) (ls : list loc) : Prop :=
  Forall2 (fun v l => exists o, holder (base s) v l o /\ is_Some (props s !! l)) vs ls.

Lemma refer_ndefs s l p : props s !! l = Some p -> length (propdefs p) = ndefs s l.
Proof. intros H. unfold ndefs, defs_at. by rewrite H. Qed.

Lemma offset_loop_ok s r rl : table_inv (base s) -> dbpriv_find_object (base s) r = Some rl -> forall vs ls n,
  refer s vs ls ->
  offset_loop (VObj r) vs n s = Some (match offset_in s ls rl with Some k => n + Z.of_nat k | None => -1 end, s).
Proof.
  intros Hti Hr vs ls n H. revert n. induction H as [|v l vs ls (o & Hh & [p Hp]) _ IH]; intros n; [done|]. cbn [offset_loop].
  rewrite (equality_holder (base s) r rl v l o) by done. simpl. case_bool_decide as E.
  - rewrite decide_True by done. by rewrite Z.add_0_r.
  - rewrite decide_False by done. erewrite mbind_Some by (by eapply deref_at). erewrite mbind_Some by (by apply pload_eq).
    rewrite IH, (refer_ndefs s l p Hp). destruct (offset_in s ls rl); simpl; [|done]. do 2 f_equal. lia.
Qed.

Lemma refer_above s xs : frame_ok s -> Forall (fun x => valid (base s) x = true) xs ->
  refer s (VObj <$> xs) (locs_of (base s) xs).
Proof.
  intros Hok. induction 1 as [|x xs Hx _ IH]; simpl; [constructor|]. pose proof (ok_table _ (fo_db s Hok)) as Hti.
  destruct (valid_object _ x (ti_table _ Hti) Hx) as [o Ho]. destruct (object_slot _ _ _ Ho) as (l & Hl & Hh). rewrite Hl.
  constructor; [|exact IH]. exists o. assert (holder (base s) (VObj x) l o) as Hho by (by apply holder_obj). split; [done|].
  by eapply fo_props.
Qed.
Lemma refer_line s v l o : frame_ok s -> holder (base s) v l o ->
  refer s (v :: (VObj <$> above (base s) o)) (line_of (base s) l o).
Proof.
  intros Hok Hh. constructor.
  - exists o. split; [done|]. by eapply fo_props.
  - apply refer_above; [done|]. apply Forall_forall. intros x Hx. eapply above_valid; [apply (fo_db s Hok)|exact Hx].
Qed.
Lemma refer_recached s s' vs ls : recached s s' -> refer s vs ls -> refer s' vs ls.
Proof.
  intros (c & _ & ->) H. eapply Forall2_impl; [exact H|]. intros v l (o & Hh & Hp). exists o. split; [by apply holder_cache|done].
Qed.
Lemma offset_in_recached s s' ls a : recached s s' -> offset_in s' ls a = offset_in s ls a.
Proof. intros (c & _ & ->). induction ls as [|b ls IH]; [done|]. simpl. by rewrite IH. Qed.

(** The ancestors of a holder, and their slots *)
Lemma lift_ancestors fuel s v l o full :
  frame_ok s -> holder (base s) v l o -> (walk_fuel (base s) <= fuel)%nat ->
  exists s', recached s s' /\
    lift (db_ancestors fuel v full) s = Some ((if full then [v] else []) ++ (VObj <$> above (base s) o), s').
Proof.
  intros Hok Hh Hf. pose proof (fo_db s Hok) as Hdb.
  destruct (holder_ancestors fuel (base s) v l o full (ok_table _ Hdb) (ok_cache _ Hdb) Hh Hf) as (c & Hc & E).
  exists (with_base (with_cache c (base s)) s). split; [by exists c|]. by erewrite lift_eq by exact E.
Qed.

Lemma properties_offset_ok fuel s r rl v l o :
  frame_ok s -> dbpriv_find_object (base s) r = Some rl -> holder (base s) v l o -> (walk_fuel (base s) <= fuel)%nat ->
  exists s', recached s s' /\ properties_offset fuel (VObj r) v s =
    Some (match offset_in s (line_of (base s) l o) rl with Some n => Z.of_nat n | None => -1 end, s').
Proof.
  intros Hok Hr Hh Hf. destruct (lift_ancestors fuel s v l o true Hok Hh Hf) as (s' & Hrc & E). exists s'. split; [done|].
  unfold properties_offset. erewrite mbind_Some by exact E. pose proof (refer_recached _ _ _ _ Hrc (refer_line s v l o Hok Hh)) as Hrf.
  destruct Hrc as (c & Hc & ->). cbn [app]. rewrite (offset_loop_ok (with_base (with_cache c (base s)) s) r rl (table_inv_cache _ _ (ok_table _ (fo_db s Hok))) Hr _ _ 0 Hrf).
  do 2 f_equal. rewrite (offset_in_recached s (with_base (with_cache c (base s)) s)) by (by exists c). by destruct (offset_in _ _ _).
Qed.

(** Every slot of a line exists. *)
Lemma total_split s ls1 a ls2 i : (i < ndefs s a)%nat -> (total s ls1 + i < total s (ls1 ++ a :: ls2))%nat.
Proof. intros Hi. rewrite total_app, total_cons. lia. Qed.
Lemma slot_exists s v l o a n i :
  props_ok s -> holder (base s) v l o -> offset_in s (line_of (base s) l o) a = Some n -> (i < ndefs s a)%nat ->
  exists p pv, props s !! l = Some p /\ propval p !! (n + i)%nat = Some pv.
Proof.
  intros Hok Hh Hn Hi. destruct (po_slots s Hok _ _ _ Hh) as (p & Hp & Hs). exists p.
  destruct (offset_in_inv _ _ _ _ Hn) as (ls1 & ls2 & E & _ & ->). pose proof (so_length _ _ _ _ Hs) as Hl. rewrite E in Hl.
  pose proof (total_split s ls1 a ls2 i Hi) as Ht. rewrite <- Hl in Ht.
  destruct (lookup_lt_is_Some_2 (propval p) (total s ls1 + i)%nat Ht) as [pv Hpv]. by exists pv.
Qed.

(** The parents of a holder *)
Lemma holder_parents d v l o : db_ok d -> holder d v l o -> parents_wf d (parents o).
Proof.
  intros Hok Hh. destruct Hh as [x l o Hl Ho|l o (_ & Hw & _) Ho]; [|done].
  apply (fm_wf _ _ _ (ok_family d Hok) x). unfold object_of. by rewrite Hl.
Qed.
(** What [is_valid] answers on a holder *)
Definition usable (v : Var) (o : Object) : bool :=
  match v with VAnon _ => negb (dbpriv_object_has_flag o FLAG_INVALID) | _ => true end.

Lemma is_valid_usable d v l o : db_ok d -> holder d v l o -> is_valid v d = Some (usable v o, d).
Proof.
  intros Hok Hh. pose proof (holder_parents _ _ _ _ Hok Hh) as Hw. destruct Hh as [x l o Hl Ho|l o Ha Ho]; unfold is_valid.
  - by rewrite (object_valid d x o) by (unfold object_of; by rewrite Hl).
  - erewrite mbind_Some by (by apply load_eq). unfold usable.
    destruct (dbpriv_object_has_flag o FLAG_INVALID); [done|]. unfold parents_ok. erewrite mbind_Some by (by apply load_eq).
    assert (match parents o with inr ps => forallb (valid d) ps | inl p => (p =? NOTHING) || valid d p end = true) as E.
    { unfold parents_wf in Hw. destruct (parents o) as [p|ps]; [destruct Hw as [Hp|Hp]; rewrite Hp; [done|apply orb_true_r]|].
      apply forallb_forall. intros x Hx. rewrite Forall_forall in Hw. by apply Hw, list_elem_of_In. }
    cbv zeta. by rewrite E.
Qed.

Lemma parent_holder d x : table_inv d -> valid d x = true -> exists l o, holder d (VObj x) l o.
Proof.
  intros Hti Hx. destruct (valid_object d x (ti_table d Hti) Hx) as [o Ho]. destruct (object_slot _ _ _ Ho) as (l & Hl & Hh).
  exists l, o. by apply holder_obj.
Qed.

(** What is above an object is a parent or above a parent. *)
Lemma above_parent d o x : table_inv d -> x ∈ above d o <->
  exists y oy, y ∈ enlist (parents o) /\ object_of d y = Some oy /\ (x = y \/ x ∈ above d oy).
Proof.
  intros Hti. destruct (above_ok d o Hti) as [_ Hx]. rewrite Hx. split.
  - intros (y & Hy & Hv & Hr). destruct (valid_object d y (ti_table d Hti) Hv) as [oy Hoy]. exists y, oy. split; [done|]. split; [done|].
    inversion Hr as [|? z ? (oy' & Ho' & Hz & Hvz) Hzx]; subst; [by left|right]. rewrite Hoy in Ho'. injection Ho' as <-.
    apply above_ok; [done|]. by exists z.
  - intros (y & oy & Hy & Hoy & Hxy). exists y. split; [done|]. split; [by eapply object_valid|]. destruct Hxy as [->|Hxy]; [apply rtc_refl|].
    apply above_ok in Hxy; [|done]. destruct Hxy as (z & Hz & Hvz & Hr). eapply rtc_l; [|exact Hr]. by exists oy.
Qed.
Lemma above_shorter d o y oy : db_ok d -> y ∈ enlist (parents o) -> object_of d y = Some oy ->
  (length (above d oy) < length (above d o))%nat.
Proof.
  intros Hok Hy Hoy. pose proof (ok_table d Hok) as Hti. destruct (above_ok d oy Hti) as [Hn Hx]. destruct (above_ok d o Hti) as [Hn' _].
  assert (NoDup (y :: above d oy)) as Hny.
  { constructor; [|done]. intros Hyy%Hx. apply (acyclic_tc _ y (fm_acyclic _ _ _ (ok_family d Hok))). by eapply member_tc. }
  assert (y :: above d oy ⊆ above d o) as Hsub.
  { intros z Hz. apply above_parent; [done|]. exists y, oy. split; [done|]. split; [done|]. by apply elem_of_cons in Hz. }
  pose proof (submseteq_length _ _ (NoDup_submseteq _ _ Hny Hsub)) as Hl. simpl in Hl. lia.
Qed.
Lemma above_fuel d o : table_inv d -> (length (above d o) < walk_fuel d)%nat.
Proof.
  intros Hti. destruct (above_ok d o Hti) as [Hn _]. unfold walk_fuel.
  rewrite <- (size_list_to_set (C := gset Z) (above d o)) by done.
  enough (size (list_to_set (above d o) : gset Z) <= size (dom (objects d)))%nat by lia. apply subseteq_size. intros x Hx%elem_of_list_to_set.
  apply valid_dom. by eapply above_valid.
Qed.
