(* ===== verification/PropFind.v ===== *)
(** * Looking up a property

    [find_slot] is the search along a line as a function; [effective] is the
    value of a slot through the clear slots above it.  [db_find_property]
    computes both, whatever the state of the ancestor cache. *)
From Stdlib Require Import ZArith Lia.
From stdpp Require Import prelude gmap relations strings.
From S2P Require Import Prelude CString Value ObjCode ObjGraph ObjParents ObjChange PropCode PropSpec.

Local Open Scope Z_scope.
Local Open Scope moo_scope.

(** The first object of the line that defines the name, the index among its
    definitions, and the slot *)
Fixpoint find_slot (s : pdb) (ls : list loc) (pname : bytes) : option (loc * nat * nat) :=
  match ls with
  | [] => None
  | a :: ls =>
    match find_def pname (str_hash pname) (defs_at s a) with
    | Some i => Some (a, i, i)
    | None => (fun '(d, i, n) => (d, i, (ndefs s a + n)%nat)) <$> find_slot s ls pname
    end
  end.

Lemma find_def_lt pname h defs i : find_def pname h defs = Some i -> (i < length defs)%nat.
Proof.
  revert i. induction defs as [|p defs IH]; intros i H; [done|]. simpl in *. destruct (prop_named pname h p); [injection H as <-; lia|].
  destruct (find_def pname h defs); [|done]. injection H as <-. specialize (IH _ eq_refl). lia.
Qed.
Lemma find_slot_inv s ls pname a i n : find_slot s ls pname = Some (a, i, n) ->
  exists k, offset_in s ls a = Some k /\ n = (k + i)%nat /\ find_def pname (str_hash pname) (defs_at s a) = Some i /\ (i < ndefs s a)%nat.
Proof.
  revert n. induction ls as [|b ls IH]; intros n H; [done|]. cbn [find_slot] in H. cbn [offset_in].
  destruct (find_def pname (str_hash pname) (defs_at s b)) as [j|] eqn:E.
  - injection H as -> -> ->. exists 0%nat. rewrite decide_True by done. split_and!; try done. by eapply find_def_lt.
  - destruct (find_slot s ls pname) as [[[a' i'] n']|] eqn:Ef; [|done]. simpl in H. injection H as -> -> <-.
    destruct (IH n' eq_refl) as (k & Hk & -> & Hd & Hi). rewrite decide_False by (intros ->; congruence). rewrite Hk.
    eexists. split; [done|]. split; [lia|done].
Qed.
Lemma find_slot_none s ls pname : find_slot s ls pname = None <-> forall a, a ∈ ls -> find_def pname (str_hash pname) (defs_at s a) = None.
Proof.
  induction ls as [|b ls IH]; cbn [find_slot]; [split; [by intros _ a Ha%elem_of_nil|done]|].
  destruct (find_def pname (str_hash pname) (defs_at s b)) as [j|] eqn:E.
  - split; [done|]. intros H. rewrite (H b) in E by (by left). done.
  - destruct (find_slot s ls pname) as [[[a i] n]|]; simpl.
    + split; [done|]. intros H. assert (Some (a, i, n) = None) as Hc; [|done]. apply IH. intros x Hx. apply H. by right.
    + split; [|done]. intros _ a [->|Ha]%elem_of_cons; [done|]. by apply IH.
Qed.

(** ** The value of a slot *)

Inductive effective (s : pdb) (definer : loc) (i : nat) : loc -> Var -> Prop :=
| eff_set v l o p n pv :
    holder (base s) v l o -> props s !! l = Some p -> offset_in s (line_of (base s) l o) definer = Some n ->
    propval p !! (n + i)%nat = Some pv -> pv_var pv <> VClear -> effective s definer i l (pv_var pv)
| eff_inherit v l o p n pv pre x post lx ox w :
    holder (base s) v l o -> props s !! l = Some p -> offset_in s (line_of (base s) l o) definer = Some n ->
    propval p !! (n + i)%nat = Some pv -> pv_var pv = VClear ->
    enlist (parents o) = pre ++ x :: post -> holder (base s) (VObj x) lx ox -> definer ∈ line_of (base s) lx ox ->
    (forall y ly oy, y ∈ pre -> holder (base s) (VObj y) ly oy -> definer ∉ line_of (base s) ly oy) ->
    effective s definer i lx w -> effective s definer i l w.

Lemma effective_recached s s' definer i l w : props_ok s -> recached s s' -> effective s' definer i l w -> effective s definer i l w.
Proof.
  intros Hok Hrc. pose proof Hrc as (c & Hc & ->). pose proof (ti_table _ (ok_table _ (po_db s Hok))) as Ht.
  induction 1 as [v l o p n pv Hh Hp Hn Hpv Hw|v l o p n pv pre x post lx ox w Hh Hp Hn Hpv Hcl Hps Hx Hd Hpre _ IH].
  - apply holder_cache in Hh. cbn [base with_base props] in *. rewrite line_of_cache, (offset_in_recached s) in Hn by done. by eapply eff_set.
  - cbn [base with_base props] in *. rewrite line_of_cache, (offset_in_recached s) in Hn by done. rewrite line_of_cache in Hd by done.
    apply holder_cache in Hh, Hx. eapply eff_inherit; try done. intros y ly oy Hy Hhy. rewrite <- (line_of_cache c) by done.
    eapply Hpre; [done|]. by apply holder_cache.
Qed.

(** A slot has at most one value. *)
Lemma effective_det s definer i l w w' : effective s definer i l w -> effective s definer i l w' -> w = w'.
Proof.
  assert (forall v v' l o o', holder (base s) v l o -> holder (base s) v' l o' -> o = o') as Ho.
  { intros v v' l0 o o' H%holder_heap H'%holder_heap. congruence. }
  intros H. revert w'. induction H as [v l o p n pv Hh Hp Hn Hpv Hw|v l o p n pv pre x post lx ox w Hh Hp Hn Hpv Hcl Hps Hx Hd Hpre _ IH];
    intros w' H'; inversion H' as [v2 l2 o2 p2 n2 pv2 B1 B2 B3 B4 B5|v2 l2 o2 p2 n2 pv2 pre2 x2 post2 lx2 ox2 w2 B1 B2 B3 B4 B5 B6 B7 B8 B9 B10]; subst;
    (assert (o2 = o) as -> by (eapply Ho; [exact B1|exact Hh])); assert (p2 = p) as -> by congruence;
    assert (n2 = n) as -> by congruence; assert (pv2 = pv) as -> by congruence; try congruence.
  assert (x2 = x) as ->; [|apply holder_object in Hx as [H1 _], B7 as [H2 _]; assert (lx2 = lx) as -> by congruence; by apply IH].
  rewrite Hps in B6. clear IH B10 H'. clear Hps. revert pre2 B6 B9. induction pre as [|y pre IHp]; intros [|y2 pre2] E B9; injection E as E1 E2.
  - done.
  - subst y2. destruct (B9 x lx ox); [by left|done|done].
  - subst y. destruct (Hpre x2 lx2 ox2); [by left|done|done].
  - apply (IHp (fun z lz oz Hz => Hpre z lz oz (list_elem_of_further _ _ _ Hz)) pre2 E2). intros z lz oz Hz. apply B9. by right.
Qed.

(** ** The loops *)

Lemma parent_with_ok fuel r rl ps : forall s pre x post,
  frame_ok s -> dbpriv_find_object (base s) r = Some rl -> (walk_fuel (base s) <= fuel)%nat -> ps = pre ++ x :: post ->
  Forall (fun p => valid (base s) p = true) ps ->
  (forall y ly oy, y ∈ pre -> holder (base s) (VObj y) ly oy -> rl ∉ line_of (base s) ly oy) ->
  (forall lx ox, holder (base s) (VObj x) lx ox -> rl ∈ line_of (base s) lx ox) ->
  exists s' lx ox n, recached s s' /\ holder (base s) (VObj x) lx ox /\ offset_in s (line_of (base s) lx ox) rl = Some n /\
    parent_with fuel (VObj r) ps s = Some ((x, Z.of_nat n), s').
Proof.
  induction ps as [|p ps IH]; intros s pre x post Hok Hr Hf E Hv Hpre Hx; [by destruct pre|]. cbn [parent_with].
  apply Forall_cons in Hv as [Hvp Hv]. pose proof (ok_table _ (fo_db s Hok)) as Hti.
  destruct (parent_holder _ p Hti Hvp) as (lp & op & Hp).
  destruct (properties_offset_ok fuel s r rl (VObj p) lp op Hok Hr Hp Hf) as (s1 & Hrc & Eo).
  erewrite mbind_Some by exact Eo. destruct pre as [|q pre]; injection E as -> ->.
  - specialize (Hx lp op Hp). destruct (offset_in s (line_of (base s) lp op) rl) as [n|] eqn:En.
    + rewrite (proj2 (Z.ltb_lt _ _)) by lia. exists s1, lp, op, n. done.
    + exfalso. apply list_elem_of_split_l in Hx as (l1 & l2 & El & Hn). by rewrite El, offset_in_split in En.
  - rewrite offset_in_none by (eapply Hpre; [by left|exact Hp]). rewrite (proj2 (Z.ltb_ge _ _)) by lia.
    destruct (pre ++ x :: post) as [|z zs] eqn:Ez; [by apply app_eq_nil in Ez as [_ ?]|]. rewrite <- Ez in *.
    pose proof Hrc as (c & Hc & ->). pose proof (ti_table _ Hti) as Ht.
    destruct (IH (with_base (with_cache c (base s)) s) pre x post) as (s2 & lx & ox & n & Hrc2 & Hhx & Hn & E2);
      [by eapply recached_frame|done|done|done|done| | |].
    + intros y ly oy Hy Hh%holder_cache. cbn [base with_base]. rewrite line_of_cache by done. eapply Hpre; [by right|done].
    + intros ly oy Hh%holder_cache. cbn [base with_base]. rewrite line_of_cache by done. by apply Hx.
    + apply holder_cache in Hhx. cbn [base with_base] in Hn. rewrite line_of_cache, (offset_in_recached s) in Hn by done.
      exists s2, lx, ox, n. split; [eapply recached_trans; [exact Hrc|exact Hrc2]|]. split; [done|]. split; [done|]. destruct zs; exact E2.
Qed.

(** ** The parent through which a property is inherited *)

Lemma first_such {A} (f : A -> bool) l x : x ∈ l -> f x = true ->
  exists pre y post, l = pre ++ y :: post /\ f y = true /\ Forall (fun z => f z = false) pre.
Proof.
  induction l as [|z l IH]; intros Hx Hf; [by apply elem_of_nil in Hx|]. destruct (f z) eqn:Ez.
  - exists [], z, l. by split_and!.
  - apply elem_of_cons in Hx as [->|Hx]; [congruence|]. destruct (IH Hx Hf) as (pre & y & post & -> & Hy & Hpre).
    exists (z :: pre), y, post. split; [done|]. split; [done|]. by constructor.
Qed.

Definition has_in_line (d : db) (a : loc) (y : Z) : bool :=
  match dbpriv_find_object d y with
  | Some l => match obj_heap d !! l with Some o => bool_decide (a ∈ line_of d l o) | None => false end
  | None => false
  end.
Lemma has_in_line_holder d a y ly oy : holder d (VObj y) ly oy -> has_in_line d a y = bool_decide (a ∈ line_of d ly oy).
Proof. intros [Hl Ho]%holder_object. unfold has_in_line. by rewrite Hl, Ho. Qed.

Lemma inherits_from d v l o a : db_ok d -> holder d v l o -> a ∈ line_of d l o -> a <> l ->
  (exists r, dbpriv_find_object d r = Some a) /\
  exists pre x post lx ox, enlist (parents o) = pre ++ x :: post /\ holder d (VObj x) lx ox /\ a ∈ line_of d lx ox /\
    (forall y ly oy, y ∈ pre -> holder d (VObj y) ly oy -> a ∉ line_of d ly oy).
Proof.
  intros Hok Hh Ha Hne. pose proof (ok_table d Hok) as Hti. apply elem_of_cons in Ha as [->|(r & Hr & Hra)%elem_of_locs_of]; [done|].
  split; [by exists r|]. apply above_parent in Hr; [|done]. destruct Hr as (y & oy & Hy & Hoy & Hry).
  destruct (object_slot _ _ _ Hoy) as (ly & Hly & Hhy). assert (holder d (VObj y) ly oy) as Hhold by (by apply holder_obj).
  assert (has_in_line d a y = true) as Hin.
  { rewrite (has_in_line_holder _ _ _ _ _ Hhold). apply bool_decide_eq_true. destruct Hry as [->|Hry].
    - assert (a = ly) as -> by congruence. by left.
    - right. apply elem_of_locs_of. by exists r. }
  destruct (first_such _ _ _ Hy Hin) as (pre & x & post & E & Hx & Hpre).
  unfold has_in_line in Hx. destruct (dbpriv_find_object d x) as [lx|] eqn:Elx; [|done].
  destruct (obj_heap d !! lx) as [ox|] eqn:Eox; [|done]. apply bool_decide_eq_true in Hx.
  exists pre, x, post, lx, ox. split; [done|]. split; [by apply holder_obj|]. split; [done|].
  intros z lz oz Hz Hhz. rewrite Forall_forall in Hpre. specialize (Hpre z Hz). rewrite (has_in_line_holder _ _ _ _ _ Hhz) in Hpre.
  by apply bool_decide_eq_false in Hpre.
Qed.

Lemma read_slot_eq s l p n pv : props s !! l = Some p -> propval p !! n = Some pv -> read_slot l (Z.of_nat n) s = Some (pv, s).
Proof.
  intros Hp Hn. unfold read_slot. erewrite mbind_Some by (by apply pload_eq). rewrite (proj2 (Z.ltb_ge _ _)) by lia.
  by rewrite Nat2Z.id, Hn.
Qed.
Lemma lift_load s l o : obj_heap (base s) !! l = Some o -> lift (load l) s = Some (o, s).
Proof. intros H. erewrite lift_eq by (by apply load_eq). by rewrite with_base_id. Qed.

Lemma skip_clear_ok walk fuel : forall s v l o a n i,
  props_ok s -> holder (base s) v l o -> offset_in s (line_of (base s) l o) a = Some n -> (i < ndefs s a)%nat ->
  (walk_fuel (base s) <= walk)%nat -> (length (above (base s) o) < fuel)%nat ->
  exists s' w, recached s s' /\ skip_clear walk fuel a i l (Z.of_nat (n + i)) s = Some (w, s') /\ effective s a i l w /\ w <> VClear.
Proof.
  induction fuel as [|fuel IH]; intros s v l o a n i Hok Hh Hn Hi Hw Hf; [lia|]. cbn [skip_clear]. pose proof (props_frame s Hok) as Hfr.
  destruct (slot_exists s v l o a n i Hok Hh Hn Hi) as (p & pv & Hp & Hpv).
  erewrite mbind_Some by (by eapply read_slot_eq).
  assert (pv_var pv = VClear \/ pv_var pv <> VClear) as [Hcl|Hcl] by (destruct (pv_var pv); (by left) || by right).
  2:{ exists s, (pv_var pv). split; [by apply recached_refl, props_frame|]. split; [by destruct (pv_var pv)|]. split; [by eapply eff_set|done]. }
  rewrite Hcl. pose proof (holder_heap _ _ _ _ Hh) as Ho. erewrite mbind_Some by (by apply lift_load).
  pose proof (po_db s Hok) as Hdb. pose proof (ok_table _ Hdb) as Hti.
  destruct (offset_in_inv _ _ _ _ Hn) as (ls1 & ls2 & El & Hls1 & ->).
  assert (a <> l) as Hne.
  { intros ->. destruct ls1 as [|b ls1]; [|injection El as <- _; set_solver].
    destruct (po_slots s Hok _ _ _ Hh) as (p' & Hp' & Hs). rewrite Hp in Hp'. injection Hp' as <-.
    apply (so_clear _ _ _ _ Hs i pv); [|exact Hpv|exact Hcl]. by rewrite (refer_ndefs s l p Hp). }
  destruct (inherits_from (base s) v l o a Hdb Hh) as ((r & Hr) & pre & x & post & lx & ox & Eps & Hx & Hax & Hpre);
    [rewrite El; set_solver|done|].
  destruct (ti_table _ Hti r a Hr) as [d Hd]. erewrite mbind_Some by (by apply lift_load).
  assert (object_of (base s) r = Some d) as Hrd by (unfold object_of; by rewrite Hr). rewrite (ti_id _ Hti r d Hrd).
  pose proof (holder_parents _ _ _ _ Hdb Hh) as Hwf.
  assert (exists s1 k, recached s s1 /\ offset_in s (line_of (base s) lx ox) a = Some k /\
    match parents o with
    | inr ps => parent_with walk (VObj r) ps
    | inl q => if q =? NOTHING then mfail else let! offset := properties_offset walk (VObj r) (VObj q) in mreturn (q, offset)
    end s = Some ((x, Z.of_nat k), s1)) as (s1 & k & Hrc1 & Hk & E1).
  { destruct (parents o) as [q|ps]; simpl in Eps, Hwf.
    - destruct pre as [|? [|]]; try done. injection Eps as -> <-.
      assert (valid (base s) x = true) as Hvx by (eapply object_valid, holder_object_of, Hx).
      destruct (Z.eqb_spec x NOTHING) as [->|Hnx]; [by rewrite nothing_invalid in Hvx|].
      destruct (properties_offset_ok walk s r a (VObj x) lx ox Hfr Hr Hx Hw) as (s1 & Hrc & Eo).
      apply list_elem_of_split_l in Hax as (l1 & l2 & E & Hl1). rewrite E, offset_in_split in Eo by done.
      exists s1, (total s l1). split; [done|]. split; [by rewrite E, offset_in_split|]. by erewrite mbind_Some by exact Eo.
    - destruct (parent_with_ok walk r a ps s pre x post) as (s1 & lx' & ox' & k & Hrc & Hx' & Hk & E); try done.
      + intros ly oy Hhy. apply holder_object in Hx as [H1 H2], Hhy as [H3 H4]. simplify_eq. done.
      + exists s1, k. apply holder_object in Hx as [H1 H2], Hx' as [H3 H4]. simplify_eq. done. }
  erewrite mbind_Some by exact E1. cbv beta iota. pose proof Hrc1 as (c & Hc & ->).
  assert (holder (base (with_base (with_cache c (base s)) s)) (VObj x) lx ox) as Hx1 by (by apply holder_cache).
  erewrite mbind_Some by (eapply deref_at, Hx1). pose proof (ti_table _ Hti) as Ht.
  destruct (IH (with_base (with_cache c (base s)) s) (VObj x) lx ox a k i) as (s2 & w & Hrc2 & E2 & He & Hnc);
    [by eapply recached_ok|done| |done|done| |].
  - cbn [base with_base]. rewrite line_of_cache by done. rewrite (offset_in_recached s); [done|by exists c].
  - cbn [base with_base]. rewrite above_cache by done.
    assert (x ∈ enlist (parents o)) as Hxo by (rewrite Eps; set_solver).
    pose proof (above_shorter (base s) o x ox Hdb Hxo (holder_object_of _ _ _ _ Hx)). lia.
  - exists s2, w. split; [eapply recached_trans; [exact Hrc1|exact Hrc2]|]. rewrite Nat2Z.inj_add in E2. split; [exact E2|].
    split; [|done]. assert (effective s a i lx w) as He' by (eapply effective_recached; [exact Hok|exact Hrc1|exact He]).
    eapply eff_inherit; done.
Qed.

(** ** The function *)

Lemma find_in_ancestors_ok s pname xs : forall ls n,
  refer s (VObj <$> xs) ls ->
  find_in_ancestors pname (str_hash pname) (VObj <$> xs) n s = Some ((fun '(a, i, m) => (a, i, (n + m)%nat)) <$> find_slot s ls pname, s).
Proof.
  induction xs as [|x xs IH]; intros ls n H; inversion H as [|? l ? ls' (o & Hh & [p Hp]) Hrest]; subst; [done|].
  cbn [find_in_ancestors fmap list_fmap find_slot]. pose proof (holder_object_of _ _ _ _ Hh) as Hx.
  assert (lift (is_valid (VObj x)) s = Some (true, s)) as Hv.
  { erewrite lift_eq; [by rewrite with_base_id|]. simpl. by rewrite (object_valid _ _ _ Hx). }
  erewrite mbind_Some by exact Hv. cbn [negb]. erewrite mbind_Some by (by eapply deref_at). erewrite mbind_Some by (by apply pload_eq).
  assert (defs_at s l = propdefs p) as Hd by (unfold defs_at; by rewrite Hp). rewrite Hd.
  destruct (find_def pname (str_hash pname) (propdefs p)) as [i|]; [done|]. change (VObj <$> xs) with (VObj <$> xs).
  rewrite (IH ls') by done. rewrite (refer_ndefs s l p Hp). destruct (find_slot s ls' pname) as [[[a i] m]|]; simpl; [|done].
  do 4 f_equal. lia.
Qed.

(** What [db_find_property] answers for the object [o] at [l] *)
Definition found (s : pdb) (last_move : loc -> Var) (l : loc) (o : Object) (pname : bytes) (want : bool)
    (r : db_prop_handle * option Var) : Prop :=
  match find_builtin pname with
  | Some bp => r = (PropBuiltin bp l, if want then Some (get_bi_value last_move bp l o) else None)
  | None =>
    match find_slot s (line_of (base s) l o) pname with
    | None => r = (PropNone, None)
    | Some (a, i, n) => exists w, effective s a i l w /\ w <> VClear /\ r = (PropSlot a l n, if want then Some w else None)
    end
  end.

Lemma find_slot_recached s s' ls pname : recached s s' -> find_slot s' ls pname = find_slot s ls pname.
Proof. intros (c & _ & ->). induction ls as [|a ls IH]; [done|]. cbn [find_slot]. by rewrite IH. Qed.

Lemma db_find_property_ok last_move fuel s v l o pname want :
  props_ok s -> holder (base s) v l o -> (walk_fuel (base s) <= fuel)%nat ->
  exists s' r, recached s s' /\ db_find_property last_move fuel v pname want s = Some (r, s') /\ found s last_move l o pname want r.
Proof.
  intros Hok Hh Hf. unfold db_find_property, found. pose proof (ok_table _ (po_db s Hok)) as Hti. pose proof (ti_table _ Hti) as Ht.
  erewrite mbind_Some by (by eapply deref_at). erewrite mbind_Some by (by apply lift_load; eapply holder_heap). cbv zeta.
  destruct (find_builtin pname) as [bp|]; [exists s; eexists; split; [by apply recached_refl, props_frame|by split]|].
  destruct (lift_ancestors fuel s v l o false (props_frame s Hok) Hh Hf) as (s1 & Hrc & E1). erewrite mbind_Some by exact E1. cbn [app].
  destruct (po_slots s Hok _ _ _ Hh) as (p & Hp & Hs). pose proof (recached_ok _ _ Hrc Hok) as Hok1.
  pose proof Hrc as (c & Hc & ->). set (s1 := with_base (with_cache c (base s)) s) in *.
  assert (props s1 !! l = Some p) as Hp1 by done. erewrite mbind_Some by (by apply pload_eq).
  assert (refer s1 (VObj <$> above (base s) o) (locs_of (base s) (above (base s) o))) as Hrf.
  { apply (refer_recached s s1); [done|]. apply refer_above; [by apply props_frame|]. apply Forall_forall. intros x Hx. by eapply above_valid. }
  assert (match find_def pname (str_hash pname) (propdefs p) with
    | Some i => mreturn (Some (l, i, i))
    | None => find_in_ancestors pname (str_hash pname) (VObj <$> above (base s) o) (length (propdefs p))
    end s1 = Some (find_slot s (line_of (base s) l o) pname, s1)) as Efind.
  { rewrite <- (find_slot_recached s s1) by done. unfold line_of. cbn [find_slot].
    assert (defs_at s1 l = propdefs p) as -> by (unfold defs_at; by rewrite Hp1).
    destruct (find_def pname (str_hash pname) (propdefs p)) as [i|]; [done|].
    rewrite (find_in_ancestors_ok s1 pname _ _ _ Hrf). by rewrite (refer_ndefs s1 l p Hp1). }
  erewrite mbind_Some by exact Efind.
  destruct (find_slot s (line_of (base s) l o) pname) as [[[a i] n]|] eqn:Ef; [|exists s1; eexists; by split_and!].
  destruct (find_slot_inv _ _ _ _ _ _ Ef) as (k & Hk & -> & _ & Hi).
  destruct (skip_clear_ok fuel fuel s1 v l o a k i) as (s2 & w & Hrc2 & E2 & He & Hnc);
    [done|by apply holder_cache| |done|done| |].
  { unfold s1. cbn [base with_base]. rewrite line_of_cache by done. by rewrite (offset_in_recached s s1). }
  { unfold s1. cbn [base with_base]. rewrite above_cache by done. pose proof (above_fuel (base s) o Hti). lia. }
  assert (effective s a i l w) as He' by (eapply effective_recached; [exact Hok|exact Hrc|exact He]).
  destruct want.
  - erewrite mbind_Some by exact E2. exists s2. eexists. split; [eapply recached_trans; [exact Hrc|exact Hrc2]|]. split; [done|]. by exists w.
  - exists s1. eexists. split; [exact Hrc|]. split; [done|]. by exists w.
Qed.
