(* ===== verification/PropSplice.v ===== *)
(** * Changing one object's share of every line

    An object's definitions change, and with them the slots that it and all
    that inherit from it have for them; [spliced] says so, and the invariant
    and the slots of every other definition survive ([spliced_ok],
    [spliced_other]). *)
From Stdlib Require Import ZArith Lia.
From stdpp Require Import prelude gmap relations strings.
From S2P Require Import Prelude CString Value ObjCode ObjGraph ObjParents ObjChange PropCode PropSpec PropFind.

(** ** The objects below an object, and their properties

    [property_defined_at_or_below] terminates and decides whether an object
    or a descendant defines a name; [all_descendants] lists the permanent and
    anonymous objects that inherit from an object, each once. *)
Local Open Scope Z_scope.
Local Open Scope moo_scope.

Definition kids (o : Object) : Z + list Z := inr (children o).
Definition belows (d : db) (o : Object) : list Z := default [] (fst <$> db2_add kids (walk_fuel d) d o [] ∅).

Lemma belows_ok d o : table_inv d -> NoDup (belows d o) /\ forall x, x ∈ belows d o <-> members_below kids d o x.
Proof.
  intros Hti. destruct (visit_ok kids d (ti_table d Hti) (walk_fuel d) o ∅) as (new & W & _ & E).
  { rewrite difference_empty_L. unfold walk_fuel. lia. }
  unfold belows. rewrite (E []). split; [apply W|]. intros x. by apply walked_all.
Qed.

Lemma kids_acyclic d : db_ok d -> acyclic (edge kids d).
Proof.
  intros Hok. exists (fun x => match object_of d x with Some o => length (belows d o) | None => O end).
  intros x y Hxy. pose proof (ok_table d Hok) as Hti. destruct Hxy as (o & Ho & Hy & Hv). rewrite Ho.
  destruct (valid_object d y (ti_table d Hti) Hv) as [oy Hoy]. rewrite Hoy.
  destruct (belows_ok d oy Hti) as [Hn Hm]. destruct (belows_ok d o Hti) as [_ Hm'].
  assert (NoDup (y :: belows d oy)) as Hny.
  { constructor; [|done]. intros (z & Hz & Hvz & Hzy)%Hm.
    apply (acyclic_tc _ y (fm_acyclic _ _ _ (ok_family d Hok))).
    assert (edge children_of d y z) as He by (by exists oy). apply (fm_inverse _ _ _ (ok_family d Hok)) in He.
    eapply tc_rtc_l; [|by apply tc_once]. by apply (edge_rtc_flip d parents children_of _ _ (ok_family d Hok)). }
  assert (y :: belows d oy ⊆ belows d o) as Hsub.
  { intros z [->|(w & Hw & Hvw & Hr')%Hm]%elem_of_cons; apply Hm'; exists y; (split; [done|]; split; [done|]).
    - apply rtc_refl.
    - eapply rtc_l; [|exact Hr']. by exists oy. }
  pose proof (submseteq_length _ _ (NoDup_submseteq _ _ Hny Hsub)) as Hl. simpl in Hl. lia.
Qed.

(** A child's descendants are fewer. *)
Lemma belows_shorter d x o y oy : db_ok d -> object_of d x = Some o -> y ∈ children o -> object_of d y = Some oy ->
  (length (belows d oy) < length (belows d o))%nat.
Proof.
  intros Hok Ho Hy Hoy. pose proof (ok_table d Hok) as Hti. destruct (belows_ok d oy Hti) as [Hn Hm]. destruct (belows_ok d o Hti) as [_ Hm'].
  assert (edge kids d x y) as He by (exists o; split; [done|]; split; [done|by eapply object_valid]).
  assert (NoDup (y :: belows d oy)) as Hny.
  { constructor; [|done]. intros (z & Hz & Hvz & Hzy)%Hm. apply (acyclic_tc _ y (kids_acyclic d Hok)).
    assert (edge kids d y z) as He' by (by exists oy). eapply tc_rtc_r; [by apply tc_once|exact Hzy]. }
  assert (y :: belows d oy ⊆ belows d o) as Hsub.
  { assert (valid d y = true) as Hv by (by eapply object_valid).
    intros z [->|(w & Hw & Hvw & Hr')%Hm]%elem_of_cons; apply Hm'; exists y; (split; [done|]; split; [done|]).
    - apply rtc_refl.
    - eapply rtc_l; [|exact Hr']. by exists oy. }
  pose proof (submseteq_length _ _ (NoDup_submseteq _ _ Hny Hsub)) as Hl. simpl in Hl. lia.
Qed.
Lemma belows_fuel d o : db_ok d -> (length (belows d o) < walk_fuel d)%nat.
Proof.
  intros Hok. pose proof (ok_table d Hok) as Hti. destruct (belows_ok d o Hti) as [Hn Hm]. unfold walk_fuel.
  rewrite <- (size_list_to_set (C := gset Z) (belows d o)) by done.
  enough (size (list_to_set (belows d o) : gset Z) <= size (dom (objects d)))%nat by lia. apply subseteq_size. intros x Hx%elem_of_list_to_set.
  apply valid_dom. apply Hm in Hx as (y & Hy & Hv & Hr). clear Hy. induction Hr as [|x y z (p & _ & _ & Hvy) _ IH]; auto.
Qed.

Lemma any_of_spec {A} (f : A -> option bool) (P : A -> Prop) l :
  (forall x, x ∈ l -> exists b, f x = Some b /\ (b = true <-> P x)) ->
  exists b, any_of f l = Some b /\ (b = true <-> exists x, x ∈ l /\ P x).
Proof.
  induction l as [|x l IH]; intros H; cbn [any_of].
  { exists false. split; [done|]. split; [done|]. by intros (x & Hx%elem_of_nil & _). }
  destruct (H x) as (b & -> & Hb); [by left|]. destruct b.
  - exists true. split; [done|]. split; [|done]. intros _. exists x. split; [by left|]. by apply Hb.
  - destruct IH as (b & -> & Hb2); [intros y Hy; apply H; by right|]. exists b. split; [done|]. rewrite Hb2. split.
    + intros (y & Hy & HP). exists y. split; [by right|done].
    + intros (y & [->|Hy]%elem_of_cons & HP); [by apply Hb in HP|by exists y].
Qed.

(** The object at [a] defines the name. *)
Definition defines (s : pdb) (pname : bytes) (phash : Z) (a : loc) : Prop := existsb (prop_named pname phash) (defs_at s a) = true.

Lemma find_def_defines s pname phash a : find_def pname phash (defs_at s a) = None <-> ~ defines s pname phash a.
Proof.
  unfold defines. induction (defs_at s a) as [|p defs IH]; simpl; [split; [done|done]|].
  destruct (prop_named pname phash p); simpl; [split; [done|by intros []]|]. rewrite <- IH. by destruct (find_def pname phash defs).
Qed.

Lemma below_parent d x o y : db_ok d -> object_of d x = Some o -> y ∈ belows d o <->
  exists z oz, z ∈ children o /\ object_of d z = Some oz /\ (y = z \/ y ∈ belows d oz).
Proof.
  intros Hok Ho. pose proof (ok_table d Hok) as Hti. destruct (belows_ok d o Hti) as [_ Hm]. rewrite Hm. split.
  - intros (z & Hz & Hv & Hr). destruct (valid_object d z (ti_table d Hti) Hv) as [oz Hoz]. exists z, oz. split; [done|]. split; [done|].
    inversion Hr as [|? w ? (oz' & Ho' & Hw & Hvw) Hwy]; subst; [by left|right]. rewrite Hoz in Ho'. injection Ho' as <-.
    apply belows_ok; [done|]. by exists w.
  - intros (z & oz & Hz & Hoz & Hyz). exists z. split; [done|]. split; [by eapply object_valid|]. destruct Hyz as [->|Hyz]; [apply rtc_refl|].
    apply belows_ok in Hyz; [|done]. destruct Hyz as (w & Hw & Hvw & Hr). eapply rtc_l; [|exact Hr]. by exists oz.
Qed.

Lemma defined_below_ok fuel s pname phash : frame_ok s -> forall x l o,
  holder (base s) (VObj x) l o -> (length (belows (base s) o) < fuel)%nat ->
  exists b, property_defined_at_or_below fuel pname phash s l = Some b /\
    (b = true <-> exists a, (a = l \/ a ∈ locs_of (base s) (belows (base s) o)) /\ defines s pname phash a).
Proof.
  intros Hok. pose proof (fo_db s Hok) as Hdb. pose proof (ok_table _ Hdb) as Hti.
  induction fuel as [|fuel IH]; intros x l o Hh Hf; [lia|]. cbn [property_defined_at_or_below].
  destruct (fo_props s Hok _ _ _ Hh) as [p Hp]. rewrite Hp, (holder_heap _ _ _ _ Hh).
  assert (property_defined_at pname phash p = true <-> defines s pname phash l) as Hd.
  { unfold property_defined_at, defines, defs_at. by rewrite Hp. }
  destruct (property_defined_at pname phash p).
  { exists true. split; [done|]. split; [|done]. intros _. exists l. split; [by left|]. by apply Hd. }
  pose proof (holder_object_of _ _ _ _ Hh) as Hx.
  pose proof (fm_valid _ _ _ (ok_family _ Hdb) x o Hx) as Hv. rewrite Forall_forall in Hv.
  destruct (any_of_spec (fun child => match dbpriv_find_object (base s) child with
      | Some child => property_defined_at_or_below fuel pname phash s child | None => None end)
    (fun z => exists lz oz, holder (base s) (VObj z) lz oz /\
      exists a, (a = lz \/ a ∈ locs_of (base s) (belows (base s) oz)) /\ defines s pname phash a) (children o)) as (b & Eb & Hb).
  { intros z Hz. destruct (parent_holder _ z Hti (Hv z Hz)) as (lz & oz & Hhz). pose proof Hhz as [Hlz Hoz]%holder_object. rewrite Hlz.
    destruct (IH z lz oz Hhz) as (b & Eb & Hb).
    { pose proof (belows_shorter _ x o z oz Hdb Hx Hz (holder_object_of _ _ _ _ Hhz)). lia. }
    exists b. split; [done|]. rewrite Hb. split; [intros H; by exists lz, oz|].
    intros (lz' & oz' & [H1 H2]%holder_object & H3). by simplify_eq. }
  exists b. split; [done|]. rewrite Hb. split.
  - intros (z & Hz & lz & oz & Hhz & a & Ha & Hda). exists a. split; [|done]. right.
    pose proof Hhz as [Hlz Hoz]%holder_object. apply elem_of_locs_of. destruct Ha as [->|(y & Hy & Hya)%elem_of_locs_of].
    + exists z. split; [|done]. apply (below_parent _ x); [done|done|]. exists z, oz. split; [done|]. split; [by eapply holder_object_of|by left].
    + exists y. split; [|done]. apply (below_parent _ x); [done|done|]. exists z, oz. split; [done|]. split; [by eapply holder_object_of|by right].
  - intros (a & [->|(y & Hy & Hya)%elem_of_locs_of] & Hda); [by apply Hd in Hda|].
    apply (below_parent _ x) in Hy; [|done|done]. destruct Hy as (z & oz & Hz & Hoz & Hyz). exists z. split; [done|].
    destruct (object_slot _ _ _ Hoz) as (lz & Hlz & Hhz). exists lz, oz. split; [by apply holder_obj|]. exists a. split; [|done].
    destruct Hyz as [->|Hyz]; [left; congruence|right]. apply elem_of_locs_of. by exists y.
Qed.

(** ** All that inherit from an object *)

Lemma below_above d r o x ox : db_ok d -> object_of d r = Some o -> object_of d x = Some ox ->
  x ∈ belows d o <-> r ∈ above d ox.
Proof.
  intros Hok Ho Hx. pose proof (ok_table d Hok) as Hti. pose proof (ok_family d Hok) as Hfm.
  destruct (belows_ok d o Hti) as [_ ->]. destruct (above_ok d ox Hti) as [_ ->]. split.
  - intros (y & Hy & Hv & Hr). assert (tc (edge parents d) x r) as Ht.
    { apply (tc_rtc_l _ y); [by apply (edge_rtc_flip d parents children_of _ _ Hfm)|]. apply tc_once, (fm_inverse _ _ _ Hfm). by exists o. }
    apply tc_nsteps in Ht as ([|n] & Hn & Ht); [lia|]. inversion Ht as [|? ? z ? (ox' & Hox' & Hz & Hvz) Hzr]; subst.
    rewrite Hx in Hox'. injection Hox' as <-. exists z. split; [done|]. split; [done|]. apply rtc_nsteps. by exists n.
  - intros (y & Hy & Hv & Hr). assert (tc (edge children_of d) r x) as Ht.
    { apply (tc_rtc_l _ y); [by apply (edge_rtc_flip d parents children_of _ _ Hfm)|]. apply tc_once, (fm_inverse _ _ _ Hfm). by exists ox. }
    apply tc_nsteps in Ht as ([|n] & Hn & Ht); [lia|]. inversion Ht as [|? ? z ? (o' & Ho' & Hz & Hvz) Hzr]; subst.
    rewrite Ho in Ho'. injection Ho' as <-. exists z. split; [done|]. split; [done|]. apply rtc_nsteps. by exists n.
Qed.

Definition anons_of (d : db) (x : Z) : gset loc := default ∅ (anonymous_objects d !! x).
Definition VAnons (ls : list loc) : list Var := (fun l => VAnon (Some l)) <$> ls.

Definition append_step : list Var * gset loc -> loc -> list Var * gset loc :=
  fun '(ret, seen) x => if decide (x ∈ seen) then (ret, seen) else (ret ++ [VAnon (Some x)], {[x]} ∪ seen).
Lemma append_loop ls : forall acc seen, NoDup acc -> (forall l, l ∈ seen <-> l ∈ acc) ->
  exists acc' seen', fold_left append_step ls (VAnons acc, seen) = (VAnons acc', seen') /\
    NoDup acc' /\ (forall l, l ∈ seen' <-> l ∈ acc') /\ (forall l, l ∈ acc' <-> l ∈ acc \/ l ∈ ls).
Proof.
  induction ls as [|x ls IH]; intros acc seen Hn Hs; cbn [fold_left]; [exists acc, seen; split_and!; try done; set_solver|].
  unfold append_step at 2. case_decide as Hx.
  - destruct (IH acc seen Hn Hs) as (acc' & seen' & E & H1 & H2 & H3). exists acc', seen'. split_and!; try done. intros l. rewrite H3.
    rewrite elem_of_cons. apply Hs in Hx. naive_solver.
  - assert (x ∉ acc) as Hxa by (by rewrite <- Hs).
    destruct (IH (acc ++ [x]) ({[x]} ∪ seen)) as (acc' & seen' & E & H1 & H2 & H3).
    + apply NoDup_app. split_and!; [done|set_solver|apply NoDup_singleton].
    + intros l. rewrite elem_of_union, elem_of_singleton, elem_of_app, list_elem_of_singleton, Hs. tauto.
    + exists acc', seen'. unfold VAnons in E |- *. rewrite fmap_app in E. split_and!; try done.
      intros l. rewrite H3, elem_of_app, list_elem_of_singleton, elem_of_cons. tauto.
Qed.
Lemma append_anon d x acc seen : NoDup acc -> (forall l, l ∈ seen <-> l ∈ acc) ->
  exists acc' seen', dbpriv_append_anon_list d x (VAnons acc, seen) = (VAnons acc', seen') /\
    NoDup acc' /\ (forall l, l ∈ seen' <-> l ∈ acc') /\ (forall l, l ∈ acc' <-> l ∈ acc \/ l ∈ anons_of d x).
Proof.
  intros Hn Hs. unfold dbpriv_append_anon_list, anons_of. destruct (anonymous_objects d !! x) as [ls|]; simpl.
  - destruct (append_loop (elements ls) acc seen Hn Hs) as (acc' & seen' & E & H1 & H2 & H3). exists acc', seen'.
    split_and!; try done. intros l. by rewrite H3, elem_of_elements.
  - exists acc, seen. split_and!; try done. set_solver.
Qed.
Lemma append_anons d xs : forall acc seen, NoDup acc -> (forall l, l ∈ seen <-> l ∈ acc) ->
  exists acc' seen', fold_left (fun r x => dbpriv_append_anon_list d x r) xs (VAnons acc, seen) = (VAnons acc', seen') /\
    NoDup acc' /\ (forall l, l ∈ acc' <-> l ∈ acc \/ exists x, x ∈ xs /\ l ∈ anons_of d x).
Proof.
  induction xs as [|x xs IH]; intros acc seen Hn Hs; cbn [fold_left].
  { exists acc, seen. split_and!; try done. set_solver. }
  destruct (append_anon d x acc seen Hn Hs) as (acc1 & seen1 & -> & Hn1 & Hs1 & H1).
  destruct (IH acc1 seen1 Hn1 Hs1) as (acc2 & seen2 & E & Hn2 & H2). exists acc2, seen2. split_and!; try done.
  intros l. rewrite H2, H1. setoid_rewrite elem_of_cons. naive_solver.
Qed.

(** The list of [all_descendants]: everything that has [rl] above it *)
Definition inheritor (d : db) (rl : loc) (v : Var) (l : loc) : Prop := exists o, holder d v l o /\ rl ∈ locs_of d (above d o).

Lemma inheritor_obj d r rl o x l : db_ok d -> holder d (VObj r) rl o ->
  (x ∈ belows d o /\ dbpriv_find_object d x = Some l) <-> inheritor d rl (VObj x) l.
Proof.
  intros Hok Hr. pose proof (ok_table d Hok) as Hti. pose proof Hr as [Hrl _]%holder_object. pose proof (holder_object_of _ _ _ _ Hr) as Ho. split.
  - intros [Hx Hl]. destruct (ti_table d Hti x l Hl) as [ox Hox]. exists ox. assert (holder d (VObj x) l ox) as Hh by (by apply holder_obj).
    split; [done|]. apply elem_of_locs_of. exists r. split; [|done]. by apply (below_above d r o x ox Hok Ho (holder_object_of _ _ _ _ Hh)).
  - intros (ox & Hh & (r' & Hr' & Hl')%elem_of_locs_of). assert (r' = r) as -> by (by eapply find_inj). pose proof Hh as [Hl _]%holder_object.
    split; [|done]. by apply (below_above d r o x ox Hok Ho (holder_object_of _ _ _ _ Hh)).
Qed.

Lemma inheritor_anon s r rl o l : frame_ok s -> holder (base s) (VObj r) rl o ->
  (exists x, x ∈ r :: belows (base s) o /\ l ∈ anons_of (base s) x) <-> inheritor (base s) rl (VAnon (Some l)) l.
Proof.
  intros Hf Hr. pose proof (fo_db s Hf) as Hok. pose proof (ok_table _ Hok) as Hti. pose proof Hr as [Hrl _]%holder_object.
  pose proof (holder_object_of _ _ _ _ Hr) as Ho. split.
  - intros (x & Hx & Hl). unfold anons_of in Hl. destruct (anonymous_objects (base s) !! x) as [st|] eqn:Est; [|set_solver].
    destruct (fo_anons s Hf x st l Est Hl) as (ol & Hol & Ha & Hxp). exists ol. split; [by apply holder_anon|].
    apply elem_of_locs_of. exists r. split; [|done]. apply above_parent; [done|].
    assert (exists ox, object_of (base s) x = Some ox) as [ox Hox].
    { apply elem_of_cons in Hx as [->|Hx]; [by exists o|]. apply belows_ok in Hx; [|done]. destruct Hx as (y & _ & Hv & Hry).
      apply valid_object; [apply Hti|]. clear -Hv Hry. induction Hry as [|a b c (p & _ & _ & Hvb) _ IH]; auto. }
    exists x, ox. split; [done|]. split; [done|]. apply elem_of_cons in Hx as [->|Hx]; [by left|right]. by apply (below_above _ r o x ox).
  - intros (ol & Hh & (r' & Hr' & Hl')%elem_of_locs_of). assert (r' = r) as -> by (by eapply find_inj).
    assert (anonymous (base s) l ol) as (Hnp & Hwf & Hreg) by (by inversion Hh; subst).
    apply above_parent in Hr'; [|done]. destruct Hr' as (y & oy & Hy & Hoy & Hry). exists y. split.
    + destruct Hry as [->|Hry]; [by left|right]. by apply (below_above _ r o y oy).
    + destruct (Hreg y Hy (object_valid _ _ _ Hoy)) as (st & Hst & Hl). unfold anons_of. by rewrite Hst.
Qed.

Lemma Forall2_obj d xs : table_inv d -> (forall x, x ∈ xs -> exists l o, holder d (VObj x) l o) ->
  Forall2 (fun v l => exists o, holder d v l o) (VObj <$> xs) (locs_of d xs).
Proof.
  intros Hti. induction xs as [|x xs IH]; intros H; simpl; [constructor|]. destruct (H x) as (l & o & Hh); [by left|].
  pose proof Hh as [Hl _]%holder_object. rewrite Hl. constructor; [by exists o|]. apply IH. intros y Hy. apply H. by right.
Qed.

Lemma all_descendants_ok fuel s r rl o : frame_ok s -> holder (base s) (VObj r) rl o -> (walk_fuel (base s) <= fuel)%nat ->
  exists vs ls, all_descendants fuel r s = Some (vs, s) /\ Forall2 (inheritor (base s) rl) vs ls /\ NoDup ls /\
    (forall v l, inheritor (base s) rl v l -> l ∈ ls).
Proof.
  intros Hf Hr Hfu. pose proof (fo_db s Hf) as Hok. pose proof (ok_table _ Hok) as Hti.
  destruct (db_traverse_ok kids fuel (base s) (VObj r) false rl o) as (new & E & Hn & Hm);
    [apply Hti|by eapply holder_deref|by eapply holder_heap|by apply nothing_invalid|unfold walk_fuel in Hfu; lia|].
  unfold all_descendants. erewrite mbind_Some by (eapply lift_eq; exact E). rewrite with_base_id. cbn [app]. cbv zeta.
  assert (forall xs : list Z, omap (M := list) (fun v => match v with VObj o => Some o | _ => None end) (VObj <$> xs) = xs) as Homap.
  { intros xs. induction xs as [|x xs IH]; [done|]. simpl. f_equal. exact IH. }
  rewrite Homap. assert (forall x, x ∈ new <-> x ∈ belows (base s) o) as Hnb.
  { intros x. rewrite Hm. destruct (belows_ok (base s) o Hti) as [_ Hb]. by rewrite Hb. }
  destruct (append_anons (base s) (r :: new) [] ∅) as (acc & seen & Ea & Hna & Hacc); [constructor|set_solver|].
  change (VAnons []) with (@nil Var) in Ea. rewrite Ea. cbn [fst].
  assert (forall x, x ∈ new -> exists l o, holder (base s) (VObj x) l o /\ inheritor (base s) rl (VObj x) l) as Hperm.
  { intros x Hx. assert (valid (base s) x = true) as Hv.
    { apply Hm in Hx as (y & _ & Hv & Hry). clear -Hv Hry. induction Hry as [|a b c (p & _ & _ & Hvb) _ IH]; auto. }
    destruct (parent_holder _ x Hti Hv) as (l & ox & Hh). exists l, ox. split; [done|].
    apply (inheritor_obj _ r rl o); [done|done|]. split; [by apply Hnb|]. by apply holder_object in Hh as []. }
  assert (forall l, l ∈ acc -> inheritor (base s) rl (VAnon (Some l)) l) as Hanon.
  { intros l Hl. apply (inheritor_anon s r rl o); [done|done|]. apply Hacc in Hl as [Hl%elem_of_nil|(x & Hx & Hl)]; [done|].
    exists x. split; [|done]. apply elem_of_cons in Hx as [->|Hx]; [by left|right]. by apply Hnb. }
  exists ((VObj <$> new) ++ VAnons acc), (locs_of (base s) new ++ acc). split; [done|]. split; [|split].
  - apply Forall2_app.
    + clear -Hperm. induction new as [|x new IH]; simpl; [constructor|]. destruct (Hperm x) as (l & ox & [Hl _]%holder_object & Hi); [by left|].
      rewrite Hl. constructor; [done|]. apply IH. intros y Hy. apply Hperm. by right.
    + clear -Hanon. induction acc as [|l acc IH]; simpl; [constructor|]. constructor; [apply Hanon; by left|].
      apply IH. intros y Hy. apply Hanon. by right.
  - apply NoDup_app. split; [by apply NoDup_locs_of|]. split; [|done]. intros l (x & Hx & Hl)%elem_of_locs_of Hla.
    destruct (Hanon l Hla) as (ol & Hh & _). inversion Hh as [|? ? (Hnp & _) _]; subst. by apply (Hnp x).
  - intros v l (ol & Hh & Hin). assert (inheritor (base s) rl v l) as Hi by (by exists ol). inversion Hh as [x ? ? Hl Ho'|? ? Ha Ho']; subst.
    + apply elem_of_app. left. apply (inheritor_obj _ r rl o) in Hi; [|done|done]. destruct Hi as [Hx Hlx]. apply elem_of_locs_of. exists x.
      split; [by apply Hnb|done].
    + apply elem_of_app. right. apply Hacc. right. apply (inheritor_anon s r rl o) in Hi; [|done|done]. destruct Hi as (x & Hx & Hlx).
      exists x. split; [|done]. apply elem_of_cons in Hx as [->|Hx]; [by left|right]. by apply Hnb.
Qed.

Local Open Scope Z_scope.
Local Open Scope moo_scope.

(** The slot of the object [o] at [l] for definition [k] of [a] *)
Definition slot_of (s : pdb) (l : loc) (o : Object) (a : loc) (k : nat) : option Pval :=
  match props s !! l, offset_in s (line_of (base s) l o) a with
  | Some p, Some n => if (k <? ndefs s a)%nat then propval p !! (n + k)%nat else None
  | _, _ => None
  end.

(** The slots from [n] on, [m] of them, replaced *)
Definition splice {A} (n m : nat) (f : list A -> list A) (l : list A) : list A := take n l ++ f (take m (drop n l)) ++ drop (n + m) l.

Lemma splice_app {A} (a seg c : list A) f n m : length a = n -> length seg = m -> splice n m f (a ++ seg ++ c) = a ++ f seg ++ c.
Proof.
  intros <- <-. unfold splice. rewrite take_app_length, drop_app_length, take_app_length.
  rewrite <- drop_drop, drop_app_length, drop_app_length. done.
Qed.
Lemma cut {A} (l : list A) n m k : length l = (n + m + k)%nat -> exists a seg c, l = a ++ seg ++ c /\ length a = n /\ length seg = m /\ length c = k.
Proof.
  intros H. exists (take n l), (take m (drop n l)), (drop m (drop n l)). rewrite !take_drop. split; [done|].
  rewrite !length_take, !length_drop. lia.
Qed.

Record spliced (s s' : pdb) (rl : loc) (defs' : list Propdef) (max' : Z) (g : loc -> Object -> list Pval -> list Pval) : Prop := {
  sp_base : exists c, cache_ok (with_cache c (base s)) /\ base s' = with_cache c (base s);
  sp_props : forall v l o p, holder (base s) v l o -> props s !! l = Some p ->
    props s' !! l = Some (
      let p1 := match offset_in s (line_of (base s) l o) rl with
                | Some n => with_propval (splice n (ndefs s rl) (g l o) (propval p)) p
                | None => p
                end in
      if decide (l = rl) then with_propdefs defs' max' p1 else p1) }.

Section spliced.
Context (s s' : pdb) (rl : loc) (defs' : list Propdef) (max' : Z) (g : loc -> Object -> list Pval -> list Pval) (r : Z) (ro : Object).
Hypothesis Hok : props_ok s.
Hypothesis Hsp : spliced s s' rl defs' max' g.
Hypothesis Hr : holder (base s) (VObj r) rl ro.
Hypothesis Hlen : forall l o seg, length seg = ndefs s rl -> length (g l o seg) = length defs'.

Lemma spliced_holder v l o : holder (base s') v l o <-> holder (base s) v l o.
Proof. destruct (sp_base _ _ _ _ _ _ Hsp) as (c & _ & ->). apply holder_cache. Qed.
Lemma spliced_line l o : line_of (base s') l o = line_of (base s) l o.
Proof. destruct (sp_base _ _ _ _ _ _ Hsp) as (c & _ & ->). apply line_of_cache. apply (ok_table _ (po_db s Hok)). Qed.

Lemma spliced_defs v l o : holder (base s) v l o -> defs_at s' l = if decide (l = rl) then defs' else defs_at s l.
Proof.
  intros Hh. destruct (po_slots s Hok _ _ _ Hh) as (p & Hp & _). unfold defs_at. rewrite Hp, (sp_props _ _ _ _ _ _ Hsp v l o p Hh Hp).
  cbv zeta. destruct (decide (l = rl)); [done|]. by destruct (offset_in _ _ _).
Qed.
Lemma spliced_ndefs v l o : holder (base s) v l o -> ndefs s' l = if decide (l = rl) then length defs' else ndefs s l.
Proof. intros Hh. unfold ndefs. rewrite (spliced_defs v l o Hh). by case_decide. Qed.

(** Along a line only the share of [rl] changes. *)
Lemma line_holders v l o a : holder (base s) v l o -> a ∈ line_of (base s) l o -> exists va oa, holder (base s) va a oa.
Proof.
  intros Hh Ha. destruct (line_tail _ v l o a (po_db s Hok) Hh Ha) as [->|(x & p & Hx & _)]; [by exists v, o|by exists (VObj x), p].
Qed.
Lemma spliced_total ls : (forall a, a ∈ ls -> exists v o, holder (base s) v a o) -> rl ∉ ls -> total s' ls = total s ls.
Proof.
  induction ls as [|a ls IH]; intros Hh Hn; [done|]. rewrite !total_cons, IH by set_solver.
  destruct (Hh a) as (v & o & Ha); [by left|]. rewrite (spliced_ndefs v a o Ha), decide_False by set_solver. done.
Qed.

(** The shape of a line that [rl] is on *)
Lemma on_line v l o : holder (base s) v l o -> rl ∈ line_of (base s) l o ->
  exists ls1 ls2 p a seg c, line_of (base s) l o = ls1 ++ rl :: ls2 /\ rl ∉ ls1 /\ rl ∉ ls2 /\
    total s' ls1 = total s ls1 /\ total s' ls2 = total s ls2 /\ offset_in s (line_of (base s) l o) rl = Some (total s ls1) /\
    props s !! l = Some p /\ propval p = a ++ seg ++ c /\ length a = total s ls1 /\ length seg = ndefs s rl /\ length c = total s ls2 /\
    exists p', props s' !! l = Some p' /\ propval p' = a ++ g l o seg ++ c /\
      (if decide (l = rl) then propdefs p' = defs' /\ max_length p' = max' else propdefs p' = propdefs p /\ max_length p' = max_length p).
Proof.
  intros Hh Hin. pose proof (NoDup_line _ _ _ _ (po_db s Hok) Hh) as Hnd. pose proof (fun a => line_holders v l o a Hh) as Hhs.
  apply list_elem_of_split_l in Hin as (ls1 & ls2 & El & Hn1). rewrite El in *.
  assert (rl ∉ ls2) as Hn2 by (apply NoDup_app in Hnd as (_ & _ & [Hn2 _]%NoDup_cons); done).
  destruct (po_slots s Hok _ _ _ Hh) as (p & Hp & Hs). pose proof (so_length _ _ _ _ Hs) as Hl. rewrite El, total_app, total_cons in Hl.
  destruct (cut (propval p) (total s ls1) (ndefs s rl) (total s ls2)) as (a & seg & c & Epv & Ha & Hseg & Hc); [lia|].
  exists ls1, ls2, p, a, seg, c. split; [done|]. split; [done|]. split; [done|].
  split; [apply spliced_total; [intros x Hx; apply Hhs; set_solver|done]|].
  split; [apply spliced_total; [intros x Hx; apply Hhs; set_solver|done]|].
  split; [by apply offset_in_split|]. split; [done|]. split; [done|]. split; [done|]. split; [done|]. split; [done|].
  pose proof (sp_props _ _ _ _ _ _ Hsp v l o p Hh Hp) as Hp'. rewrite El, offset_in_split in Hp' by done. cbv zeta in Hp'.
  rewrite Epv, splice_app in Hp' by done. eexists. split; [exact Hp'|]. by destruct (decide (l = rl)).
Qed.

Lemma off_line v l o : holder (base s) v l o -> rl ∉ line_of (base s) l o -> props s' !! l = props s !! l.
Proof.
  intros Hh Hn. destruct (po_slots s Hok _ _ _ Hh) as (p & Hp & _). pose proof (sp_props _ _ _ _ _ _ Hsp v l o p Hh Hp) as Hp'.
  rewrite offset_in_none in Hp' by done. cbv zeta in Hp'. rewrite decide_False in Hp'; [congruence|]. intros ->. apply Hn. by left.
Qed.


Lemma offset_in_app st ls1 ls2 a : offset_in st (ls1 ++ ls2) a =
  if decide (a ∈ ls1) then offset_in st ls1 a else Nat.add (total st ls1) <$> offset_in st ls2 a.
Proof using.
  clear. induction ls1 as [|b ls1 IH].
  { rewrite decide_False by (by apply not_elem_of_nil). simpl. by destruct (offset_in st ls2 a). }
  cbn [app offset_in]. destruct (decide (b = a)) as [->|Hb]; [by rewrite decide_True by (by left)|]. rewrite IH.
  destruct (decide (a ∈ ls1)) as [Ha|Ha].
  - by rewrite decide_True by (by right).
  - rewrite decide_False by set_solver. rewrite total_cons. destruct (offset_in st ls2 a); simpl; [|done]. f_equal. lia.
Qed.
Lemma offset_in_bound st ls a n : offset_in st ls a = Some n -> (n + ndefs st a <= total st ls)%nat.
Proof using.
  clear. intros H. apply offset_in_inv in H as (ls1 & ls2 & -> & _ & ->). rewrite total_app, total_cons. lia.
Qed.
Lemma offset_same ls a : (forall x, x ∈ ls -> exists v o, holder (base s) v x o) -> rl ∉ ls -> offset_in s' ls a = offset_in s ls a.
Proof.
  induction ls as [|b ls IH]; intros Hh Hn; [done|]. cbn [offset_in]. destruct (Hh b) as (v & o & Hb); [by left|].
  rewrite IH by set_solver. by rewrite (spliced_ndefs v b o Hb), (decide_False (P := b = rl)) by set_solver.
Qed.

Lemma spliced_other v l o a k : holder (base s) v l o -> a <> rl -> slot_of s' l o a k = slot_of s l o a k.
Proof.
  intros Hh Ha. unfold slot_of. rewrite spliced_line. pose proof (fun x => line_holders v l o x Hh) as Hhs.
  assert (a ∈ line_of (base s) l o -> ndefs s' a = ndefs s a) as Hnd.
  { intros Hal. destruct (Hhs a Hal) as (va & oa & Hva). by rewrite (spliced_ndefs va a oa Hva), decide_False. }
  destruct (decide (rl ∈ line_of (base s) l o)) as [Hin|Hout].
  - destruct (on_line v l o Hh Hin) as (ls1 & ls2 & p & A & seg & C & El & Hn1 & Hn2 & Ht1 & Ht2 & _ & -> & Ep & HA & Hseg & HC & p' & -> & Ep' & _).
    rewrite El in *. rewrite !offset_in_app. destruct (decide (a ∈ ls1)) as [Ha1|Ha1].
    + rewrite (offset_same ls1) by (try done; set_solver). destruct (offset_in s ls1 a) as [n|] eqn:En; [|done].
      rewrite Hnd by set_solver. destruct (Nat.ltb_spec k (ndefs s a)); [|done]. pose proof (offset_in_bound s ls1 a n En).
      rewrite Ep, Ep', !lookup_app_l by lia. done.
    + cbn [offset_in]. rewrite !(decide_False (P := rl = a)) by done. rewrite (offset_same ls2) by (try done; set_solver).
      destruct (offset_in s ls2 a) as [n|] eqn:En; simpl; [|done]. rewrite Hnd.
      2:{ apply offset_in_inv in En as (? & ? & -> & _). set_solver. }
      destruct (Nat.ltb_spec k (ndefs s a)); [|done]. rewrite (spliced_ndefs _ _ _ Hr), decide_True by done.
      rewrite Ep, Ep', !app_assoc, !lookup_app_r by (rewrite ?length_app, ?Hlen by done; lia).
      f_equal. rewrite !length_app, Hlen by done. lia.
  - rewrite (off_line v l o Hh Hout). rewrite (offset_same (line_of (base s) l o)) by done.
    destruct (props s !! l); [|done]. destruct (offset_in s (line_of (base s) l o) a) as [n|] eqn:En; [|done].
    rewrite Hnd; [done|]. apply offset_in_inv in En as (? & ? & -> & _). set_solver.
Qed.

Lemma spliced_root v l o : holder (base s) v l o -> rl ∈ line_of (base s) l o ->
  exists seg, length seg = ndefs s rl /\ (forall k, slot_of s l o rl k = seg !! k) /\ forall k, slot_of s' l o rl k = g l o seg !! k.
Proof.
  intros Hh Hin. destruct (on_line v l o Hh Hin) as (ls1 & ls2 & p & A & seg & C & El & Hn1 & Hn2 & Ht1 & Ht2 & Ho & Hp & Ep & HA & Hseg & HC & p' & Hp' & Ep' & _).
  exists seg. split; [done|]. assert (offset_in s' (line_of (base s') l o) rl = Some (total s ls1)) as Ho'.
  { rewrite spliced_line, El, offset_in_split by done. by rewrite Ht1. }
  unfold slot_of. rewrite Ho, Ho', Hp, Hp', Ep, Ep'. split; intros k.
  - destruct (Nat.ltb_spec k (ndefs s rl)).
    + rewrite lookup_app_r by lia. rewrite lookup_app_l by lia. f_equal. lia.
    + symmetry. apply lookup_ge_None. lia.
  - rewrite (spliced_ndefs _ _ _ Hr), decide_True by done. destruct (Nat.ltb_spec k (length defs')).
    + rewrite lookup_app_r by lia. rewrite lookup_app_l by (rewrite Hlen by done; lia). f_equal. lia.
    + symmetry. apply lookup_ge_None. rewrite Hlen by done. lia.
Qed.

Hypothesis Hmax : Z.of_nat (length defs') <= max'.
Hypothesis Hnames : Forall propdef_ok defs'.
Hypothesis Hclear : forall seg, length seg = ndefs s rl -> Forall (fun pv => pv_var pv <> VClear) seg ->
  Forall (fun pv => pv_var pv <> VClear) (g rl ro seg).

Lemma spliced_ok : props_ok s'.
Proof.
  pose proof Hok as [H1 H2 H3]. destruct (sp_base _ _ _ _ _ _ Hsp) as (c & Hc & Eb). split.
  - rewrite Eb. by apply db_ok_cache.
  - rewrite Eb. done.
  - intros v l o Hh%spliced_holder. destruct (H3 v l o Hh) as (p & Hp & Hs). destruct (decide (rl ∈ line_of (base s) l o)) as [Hin|Hout].
    + destruct (on_line v l o Hh Hin) as (ls1 & ls2 & p0 & A & seg & C & El & Hn1 & Hn2 & Ht1 & Ht2 & Ho & Hp0 & Ep & HA & Hseg & HC & p' & Hp' & Ep' & Hd').
      rewrite Hp in Hp0. injection Hp0 as <-. exists p'. split; [done|]. split.
      * rewrite spliced_line, El, total_app, total_cons, Ht1, Ht2, (spliced_ndefs _ _ _ Hr), decide_True by done.
        rewrite Ep', !length_app, Hlen by done. lia.
      * destruct (decide (l = rl)); destruct Hd' as [-> ->]; [done|apply Hs].
      * destruct (decide (l = rl)); destruct Hd' as [-> _]; [done|apply Hs].
      * intros k pv Hk Hpv. destruct (decide (l = rl)) as [->|Hne].
        -- assert (ls1 = []) as ->. { destruct ls1 as [|b ls1]; [done|]. injection El as <- _. set_solver. }
           destruct A; [|done]. simpl in Ep, Ep'. destruct Hd' as [Hd' _]. rewrite Hd' in Hk. rewrite Ep', lookup_app_l in Hpv by (rewrite Hlen by done; lia).
           assert (o = ro) as -> by (apply holder_heap in Hh, Hr; congruence).
           assert (Forall (fun pv => pv_var pv <> VClear) (g rl ro seg)) as HF.
           { apply Hclear; [done|]. apply Forall_lookup. intros j q Hj. apply (so_clear _ _ _ _ Hs j q).
             - rewrite (refer_ndefs s rl p Hp), <- Hseg. by eapply lookup_lt_Some.
             - rewrite Ep. by apply lookup_app_l_Some. }
           rewrite Forall_lookup in HF. by eapply HF.
        -- destruct ls1 as [|b ls1]; [injection El; congruence|]. injection El as <- El. destruct Hd' as [Hd' _]. rewrite Hd' in Hk.
           pose proof (refer_ndefs s l p Hp) as Hnl. rewrite total_cons in HA.
           rewrite Ep', lookup_app_l in Hpv by lia. apply (so_clear _ _ _ _ Hs k pv Hk). rewrite Ep. by apply lookup_app_l_Some.
    + exists p. rewrite (off_line v l o Hh Hout). split; [done|]. split; [|apply Hs..]. rewrite spliced_line.
      rewrite (spliced_total (line_of (base s) l o)); [apply Hs| |done]. intros a Ha. by apply (line_holders v l o).
Qed.
End spliced.
