(* ===== verification/PropEdit.v ===== *)
(** * Adding, deleting and renaming definitions

    The loops over the descendants compute the splice that [PropSplice]
    describes. *)
From Stdlib Require Import ZArith Lia.
From stdpp Require Import prelude gmap relations strings.
From S2P Require Import Prelude CString Value ObjCode ObjGraph ObjParents ObjChange PropCode PropSpec PropFind PropSplice.

Local Open Scope Z_scope.
Local Open Scope moo_scope.

(** ** One object *)

(** The slot that an object gets: it becomes the owner when the property says
    so. *)
Definition slot_for (o : Object) (pv : Pval) : Pval :=
  mk_Pval (pv_var pv) (if negb (Z.land (pv_perms pv) PF_CHOWN =? 0) then owner o else pv_owner pv) (pv_perms pv).
Definition ins (n : nat) (x : Pval) (l : list Pval) : list Pval := take n l ++ x :: drop n l.
Definition del {A} (n : nat) (l : list A) : list A := take n l ++ drop (S n) l.

Lemma insert_prop2_ok s v l o p n pv :
  holder (base s) v l o -> props s !! l = Some p -> (n <= length (propval p))%nat ->
  insert_prop2 v (Z.of_nat n) pv s = Some (tt, mk_pdb (base s) (<[l := with_propval (ins n (slot_for o pv) (propval p)) p]> (props s))).
Proof.
  intros Hh Hp Hn. unfold insert_prop2. erewrite mbind_Some by (by eapply deref_at).
  erewrite mbind_Some by (by apply lift_load; eapply holder_heap). erewrite mbind_Some by (by apply pload_eq).
  rewrite (proj2 (Z.ltb_ge _ _)), (proj2 (Z.ltb_ge _ _)) by lia. cbn [orb]. cbv zeta. rewrite Nat2Z.id. unfold pupdate. by rewrite Hp.
Qed.
Lemma remove_prop2_ok s v l o p n :
  holder (base s) v l o -> props s !! l = Some p -> (n < length (propval p))%nat ->
  remove_prop2 v (Z.of_nat n) s = Some (tt, mk_pdb (base s) (<[l := with_propval (del n (propval p)) p]> (props s))).
Proof.
  intros Hh Hp Hn. unfold remove_prop2. erewrite mbind_Some by (by eapply deref_at). erewrite mbind_Some by (by apply pload_eq).
  rewrite (proj2 (Z.ltb_ge _ _)), (proj2 (Z.leb_gt _ _)) by lia. cbn [orb]. cbv zeta. rewrite Nat2Z.id. unfold pupdate. by rewrite Hp.
Qed.

(** ** Several objects *)

(** [s'] is [s] with the properties at [ls] changed by [F]. *)
Definition pointwise (s s' : pdb) (ls : list loc) (F : loc -> Props -> Props) : Prop :=
  base s' = base s /\ forall l, props s' !! l = if decide (l ∈ ls) then F l <$> props s !! l else props s !! l.

Lemma iter_pointwise {A} (g : A -> M pdb unit) (F : loc -> Props -> Props) xs : forall ls s,
  Forall2 (fun x l => forall s1 p, base s1 = base s -> props s1 !! l = Some p -> props s !! l = Some p ->
    g x s1 = Some (tt, mk_pdb (base s1) (<[l := F l p]> (props s1)))) xs ls ->
  NoDup ls -> (forall l, l ∈ ls -> is_Some (props s !! l)) ->
  exists s', iter g xs s = Some (tt, s') /\ pointwise s s' ls F.
Proof.
  induction xs as [|x xs IH]; intros ls s Hg Hn Hp; inversion Hg as [|? l ? ls' Hx Hxs]; subst; cbn [iter].
  { exists s. split; [done|]. split; [done|]. intros l. by rewrite decide_False by (by apply not_elem_of_nil). }
  apply NoDup_cons in Hn as [Hl Hn]. destruct (Hp l) as [p El]; [by left|]. erewrite mbind_Some by (by apply Hx).
  destruct (IH ls' (mk_pdb (base s) (<[l := F l p]> (props s)))) as (s' & E & Hb & Hs').
  - eapply Forall2_impl; [|intros y m Hy; exact Hy]. apply Forall2_same_length_lookup_2; [by eapply Forall2_length|].
    intros i y m Hy Hm s1 q Hb Hq Hq0. pose proof (Forall2_lookup_lr _ _ _ _ _ _ Hxs Hy Hm) as H. apply H; [done|done|].
    cbn [props] in Hq0. rewrite lookup_insert_ne in Hq0; [done|]. intros ->. apply Hl. by eapply list_elem_of_lookup_2.
  - done.
  - intros m Hm. cbn [props]. rewrite lookup_insert_ne by (by intros ->). apply Hp. by right.
  - exists s'. split; [done|]. split; [done|]. intros m. rewrite Hs'. cbn [props]. destruct (decide (m = l)) as [->|Hml].
    + rewrite decide_False, decide_True by (done || by left). by rewrite lookup_insert_eq, El.
    + rewrite lookup_insert_ne by done. destruct (decide (m ∈ ls')) as [Hm|Hm].
      * by rewrite decide_True by (by right).
      * by rewrite decide_False by set_solver.
Qed.

(** Where the share of [rl] begins among the slots at [l] *)
Definition off_at (s : pdb) (rl l : loc) : nat :=
  default O (obj_heap (base s) !! l ≫= fun o => offset_in s (line_of (base s) l o) rl).

Lemma off_at_holder s rl v l o : holder (base s) v l o -> off_at s rl l = default O (offset_in s (line_of (base s) l o) rl).
Proof. intros Hh. unfold off_at. by rewrite (holder_heap _ _ _ _ Hh). Qed.
Lemma off_at_recached s s' rl l : frame_ok s -> recached s s' -> off_at s' rl l = off_at s rl l.
Proof.
  intros Hf Hrc. pose proof Hrc as (c & Hc & ->). unfold off_at. cbn [base with_base].
  change (obj_heap (with_cache c (base s))) with (obj_heap (base s)). destruct (obj_heap (base s) !! l) as [o|]; [|done].
  change (default O (offset_in (with_base (with_cache c (base s)) s) (line_of (with_cache c (base s)) l o) rl) =
    default O (offset_in s (line_of (base s) l o) rl)).
  rewrite line_of_cache by (apply (ok_table _ (fo_db s Hf))). by rewrite (offset_in_recached s).
Qed.
Lemma inheritor_line d rl v l o : holder d v l o -> inheritor d rl v l -> rl ∈ line_of d l o.
Proof. intros Hh (o' & Hh' & Hin). apply holder_heap in Hh as H1. apply holder_heap in Hh' as H2. right. congruence. Qed.
Lemma inheritor_cache c d rl v l : table_ok d -> inheritor (with_cache c d) rl v l <-> inheritor d rl v l.
Proof.
  intros Ht. unfold inheritor. setoid_rewrite holder_cache. by setoid_rewrite (above_cache c d _ Ht).
Qed.

Lemma mapM_offsets fuel r rl vs : forall ls s, frame_ok s -> dbpriv_find_object (base s) r = Some rl ->
  (walk_fuel (base s) <= fuel)%nat -> Forall2 (inheritor (base s) rl) vs ls ->
  exists s', recached s s' /\ mapM_ (properties_offset fuel (VObj r)) vs s = Some ((fun l => Z.of_nat (off_at s rl l)) <$> ls, s').
Proof.
  induction vs as [|v vs IH]; intros ls s Hf Hr Hfu H; inversion H as [|? l ? ls' Hv Hvs]; subst; cbn [mapM_].
  { exists s. split; [by apply recached_refl|done]. }
  pose proof Hv as (o & Hh & Hin). destruct (properties_offset_ok fuel s r rl v l o Hf Hr Hh Hfu) as (s1 & Hrc & E).
  erewrite mbind_Some by exact E. pose proof (recached_frame _ _ Hrc Hf) as Hf1. pose proof Hrc as (c & Hc & ->).
  pose proof (ti_table _ (ok_table _ (fo_db s Hf))) as Ht. set (s1 := with_base (with_cache c (base s)) s) in *.
  destruct (IH ls' s1) as (s2 & Hrc2 & E2); [done|done|done| |].
  { eapply Forall2_impl; [exact Hvs|]. intros w m Hw. unfold s1. cbn [base with_base]. by apply inheritor_cache. }
  erewrite mbind_Some by exact E2. exists s2. split; [eapply recached_trans; [exact Hrc|exact Hrc2]|].
  unfold mreturn. cbn [fmap list_fmap]. rewrite (off_at_holder s rl v l o Hh).
  assert (rl ∈ line_of (base s) l o) as Hrl by (by right). apply list_elem_of_split_l in Hrl as (l1 & l2 & El & Hn).
  rewrite El, offset_in_split by done. simpl. do 3 f_equal. apply list_fmap_ext. intros i m _. by rewrite (off_at_recached s s1).
Qed.

(** ** The recursion *)

Lemma ins_splice n m x (l : list Pval) : (n + m <= length l)%nat -> ins (n + m) x l = splice n m (fun seg => seg ++ [x]) l.
Proof.
  intros H. destruct (cut l n m (length l - (n + m))) as (a & seg & c & -> & Ha & Hs & _); [lia|].
  rewrite splice_app by done. unfold ins. rewrite app_assoc, take_app_length', drop_app_length' by (rewrite length_app; lia).
  by rewrite <- !app_assoc.
Qed.
Lemma del_splice n m k (l : list Pval) : (n + m <= length l)%nat -> (k < m)%nat -> del (n + k) l = splice n m (del k) l.
Proof.
  intros H Hk. destruct (cut l n m (length l - (n + m))) as (a & seg & c & -> & Ha & Hs & _); [lia|].
  rewrite splice_app by done. unfold del. rewrite <- Ha. rewrite take_app_add, take_app_le by lia.
  replace (S (length a + k)) with (length a + S k)%nat by lia. rewrite drop_app_add, drop_app_le by lia. by rewrite <- !app_assoc.
Qed.

Lemma offset_in_change s s1 rl ls : (forall a, a <> rl -> ndefs s1 a = ndefs s a) -> offset_in s1 ls rl = offset_in s ls rl.
Proof.
  intros H. induction ls as [|b ls IH]; [done|]. cbn [offset_in]. destruct (decide (b = rl)); [done|]. by rewrite IH, H.
Qed.
Lemma off_at_change s s1 rl l : base s1 = base s -> (forall a, a <> rl -> props s1 !! a = props s !! a) -> off_at s1 rl l = off_at s rl l.
Proof.
  intros Hb Hp. unfold off_at. rewrite Hb. destruct (obj_heap (base s) !! l) as [o|]; [|done].
  change (default O (offset_in s1 (line_of (base s) l o) rl) = default O (offset_in s (line_of (base s) l o) rl)).
  rewrite (offset_in_change s s1); [done|]. intros a Ha. unfold ndefs, defs_at. by rewrite Hp.
Qed.
Lemma frame_change s s1 : base s1 = base s -> (forall l, is_Some (props s !! l) -> is_Some (props s1 !! l)) -> frame_ok s -> frame_ok s1.
Proof.
  intros Hb Hp [H1 H2 H3]. split; rewrite Hb; [done|done|]. intros v l o Hh. by eapply Hp, H3.
Qed.

(** Every holder that is not [rl] and has it above, changed by [op] *)
Lemma spread_ok fuel s s2 r rl ro k (op : Var -> Z -> M pdb unit) G m :
  frame_ok s -> base s2 = base s -> (forall l, l <> rl -> props s2 !! l = props s !! l) -> is_Some (props s2 !! rl) ->
  holder (base s) (VObj r) rl ro -> (walk_fuel (base s) <= fuel)%nat ->
  (forall v l o p n s', holder (base s) v l o -> (exists c, base s' = with_cache c (base s)) -> l <> rl ->
     props s !! l = Some p -> props s' !! l = Some p -> offset_in s (line_of (base s) l o) rl = Some n ->
     op v (Z.of_nat n + k) s' = Some (tt, mk_pdb (base s') (<[l := with_propval (splice n m (G l o) (propval p)) p]> (props s')))) ->
  exists s', (let! ds := all_descendants fuel r in
      let! offsets := mapM_ (properties_offset fuel (VObj r)) ds in
      iter (fun '(d, offset) => op d (offset + k)) (zip ds offsets)) s2 = Some (tt, s') /\
    (exists c, cache_ok (with_cache c (base s)) /\ base s' = with_cache c (base s)) /\ props s' !! rl = props s2 !! rl /\
    forall v l o p, holder (base s) v l o -> l <> rl -> props s !! l = Some p ->
      props s' !! l = Some match offset_in s (line_of (base s) l o) rl with
                           | Some n => with_propval (splice n m (G l o) (propval p)) p
                           | None => p
                           end.
Proof.
  intros Hf Hb Hp2 Hprl Hr Hfu Hop.
  assert (frame_ok s2) as Hf2.
  { eapply frame_change; [exact Hb| |exact Hf]. intros l Hl. destruct (decide (l = rl)) as [->|Hne]; [done|]. by rewrite Hp2. }
  pose proof (ok_table _ (fo_db s Hf)) as Hti. pose proof Hr as [Hrl _]%holder_object.
  destruct (all_descendants_ok fuel s2 r rl ro Hf2) as (vs & ls & Ea & Hvs & Hnd & Hall); [by rewrite Hb..|].
  erewrite mbind_Some by exact Ea. rewrite Hb in Hvs, Hall.
  destruct (mapM_offsets fuel r rl vs ls s2) as (s3 & Hrc & Em); [done|by rewrite Hb..|].
  erewrite mbind_Some by exact Em. destruct Hrc as (c & Hc & ->). rewrite Hb in Hc. rewrite Hb.
  set (s3 := with_base (with_cache c (base s)) s2) in *.
  assert (forall v l, inheritor (base s) rl v l -> exists o n, holder (base s) v l o /\ l <> rl /\
    offset_in s (line_of (base s) l o) rl = Some n /\ off_at s2 rl l = n) as Hinh.
  { intros v l Hi. pose proof Hi as (o & Hh & Hin). exists o, (off_at s2 rl l). split; [done|].
    pose proof (NoDup_line _ _ _ _ (fo_db s Hf) Hh) as [Hnl _]%NoDup_cons. split; [by intros ->|]. split; [|done].
    rewrite (off_at_change s s2), (off_at_holder s rl v l o) by done.
    pose proof (inheritor_line _ _ _ _ _ Hh Hi) as Hl. apply list_elem_of_split_l in Hl as (l1 & l2 & El & Hn).
    by rewrite El, offset_in_split. }
  set (F := fun l p => match obj_heap (base s) !! l with
    | Some o => with_propval (splice (off_at s2 rl l) m (G l o) (propval p)) p | None => p end).
  destruct (iter_pointwise (fun '(d, offset) => op d (offset + k)) F (zip vs ((fun l => Z.of_nat (off_at s2 rl l)) <$> ls)) ls s3) as (s' & E & Hb' & Hs').
  { clear Ea Em Hnd Hall. induction Hvs as [|v l vs ls Hv Hvs IH]; simpl; [constructor|]. constructor; [|exact IH].
    intros s1 p Hb1 Hp1 Hp0. destruct (Hinh v l Hv) as (o & n & Hh & Hne & Ho & En). subst n. unfold F.
    rewrite (holder_heap _ _ _ _ Hh). eapply Hop; [exact Hh|by exists c|done| |done|done].
    unfold s3 in Hp0. cbn [props with_base] in Hp0. by rewrite Hp2 in Hp0. }
  { done. }
  { intros l Hl. unfold s3. cbn [props with_base]. apply list_elem_of_lookup in Hl as [i Hi].
    destruct (Forall2_lookup_r _ _ _ _ _ Hvs Hi) as (v & _ & Hv). destruct (Hinh v l Hv) as (o & n & Hh & Hne & _).
    rewrite Hp2 by done. by eapply fo_props. }
  exists s'. split; [exact E|]. split; [exists c; by rewrite Hb'|].
  assert (forall l, l ∈ ls -> l <> rl) as Hnrl.
  { intros l Hl. apply list_elem_of_lookup in Hl as [i Hi].
    destruct (Forall2_lookup_r _ _ _ _ _ Hvs Hi) as (v & _ & Hv). by destruct (Hinh v l Hv) as (o & n & Hh & Hne & _). }
  split.
  - rewrite Hs', decide_False; [done|]. by intros ?%Hnrl.
  - intros v l o p Hh Hne Hp. rewrite Hs'. unfold s3. cbn [props with_base]. rewrite Hp2, Hp by done.
    destruct (decide (l ∈ ls)) as [Hl|Hl].
    + apply list_elem_of_lookup in Hl as [i Hi]. destruct (Forall2_lookup_r _ _ _ _ _ Hvs Hi) as (v' & _ & Hv).
      destruct (Hinh v' l Hv) as (o' & n & Hh' & _ & Ho & En). assert (o' = o) as -> by (apply holder_heap in Hh, Hh'; congruence).
      unfold F. cbn [fmap option_fmap option_map]. rewrite (holder_heap _ _ _ _ Hh), Ho. by subst n.
    + rewrite offset_in_none; [done|]. intros [->|Hin]%elem_of_cons; [done|]. apply Hl, (Hall v). by exists o.
Qed.

(** ** Adding *)

Definition cleared (pv : Pval) : Pval := mk_Pval VClear (pv_owner pv) (pv_perms pv).
Definition g_add (rl : loc) (pv : Pval) (l : loc) (o : Object) (seg : list Pval) : list Pval :=
  seg ++ [slot_for o (if decide (l = rl) then pv else cleared pv)].

Lemma spliced_recached s s0 s' rl defs' max' g : props_ok s -> recached s s0 -> spliced s0 s' rl defs' max' g -> spliced s s' rl defs' max' g.
Proof.
  intros Hok Hrc [(c & Hc & Hb) Hp]. pose proof Hrc as (c0 & Hc0 & ->). pose proof (ti_table _ (ok_table _ (po_db s Hok))) as Ht. split; [by exists c|].
  intros v l o p Hh Hl. specialize (Hp v l o p (proj2 (holder_cache c0 _ _ _ _) Hh) Hl). cbn [base with_base] in Hp.
  rewrite line_of_cache, (offset_in_recached s) in Hp by done. exact Hp.
Qed.

Lemma insert_prop_recursively_ok fuel s r rl ro p defs' max' pv m :
  props_ok s -> holder (base s) (VObj r) rl ro -> props s !! rl = Some p -> m = length (propdefs p) -> (walk_fuel (base s) <= fuel)%nat ->
  exists s', insert_prop_recursively fuel r (Z.of_nat m) pv (mk_pdb (base s) (<[rl := with_propdefs defs' max' p]> (props s))) = Some (tt, s') /\
    spliced s s' rl defs' max' (g_add rl pv).
Proof.
  intros Hok Hr Hp -> Hfu. pose proof (props_frame s Hok) as Hf. destruct (po_slots s Hok _ _ _ Hr) as (p0 & Hp0 & Hs).
  rewrite Hp in Hp0. injection Hp0 as <-. pose proof (refer_ndefs s rl p Hp) as Hm.
  pose proof (so_length _ _ _ _ Hs) as Hl. unfold line_of in Hl. rewrite total_cons in Hl.
  unfold insert_prop_recursively, insert_prop.
  erewrite mbind_Some by (apply (insert_prop2_ok _ _ rl ro (with_propdefs defs' max' p)); [exact Hr|apply lookup_insert_eq|cbn; lia]).
  cbv zeta. cbn [base props]. rewrite insert_insert_eq.
  set (s2 := mk_pdb _ _).
  destruct (spread_ok fuel s s2 r rl ro (Z.of_nat (length (propdefs p)))
    (fun d pos => insert_prop2 d pos (cleared pv)) (fun l o seg => seg ++ [slot_for o (cleared pv)]) (ndefs s rl)) as (s' & E & Hb & Hprl & Hps); try done.
  - intros l Hne. unfold s2. cbn [props]. by rewrite lookup_insert_ne.
  - unfold s2. cbn [props]. rewrite lookup_insert_eq. by eexists.
  - intros v l o q n s1 Hh (c & Hb) Hne Hq Hq1 Hn. rewrite Hm, <- Nat2Z.inj_add.
    assert (n + ndefs s rl <= length (propval q))%nat as Hle.
    { destruct (po_slots s Hok _ _ _ Hh) as (q0 & Hq0 & Hqs). rewrite Hq in Hq0. injection Hq0 as <-. rewrite (so_length _ _ _ _ Hqs).
      by apply offset_in_bound. }
    assert (holder (base s1) v l o) as Hh1 by (rewrite Hb; by apply holder_cache).
    rewrite (insert_prop2_ok s1 v l o q) by done. by rewrite ins_splice.
  - exists s'. split; [exact E|]. split; [exact Hb|]. intros v l o q Hh Hq. destruct (decide (l = rl)) as [->|Hne].
    + rewrite Hprl. unfold s2. cbn [props]. rewrite lookup_insert_eq. assert (q = p) as -> by congruence.
      assert (o = ro) as -> by (apply holder_heap in Hh, Hr; congruence).
      unfold line_of. cbn [offset_in]. rewrite decide_True by done. cbn [propval with_propdefs]. rewrite Hm.
      change (ndefs s rl) with (0 + ndefs s rl)%nat at 1. rewrite ins_splice by lia. unfold g_add. by rewrite decide_True.
    + rewrite (Hps v l o q Hh Hne Hq). unfold g_add. rewrite (decide_False (P := l = rl)) by done. done.
Qed.

(** What stands in the way of a new name: a built-in property, or a
    definition on the object, above it or below it *)
Definition name_taken (s : pdb) (rl : loc) (o : Object) (pname : bytes) : Prop :=
  is_Some (find_builtin pname) \/
  exists a, (a ∈ line_of (base s) rl o \/ exists y, inheritor (base s) rl (VObj y) a) /\ defines s pname (str_hash pname) a.

Lemma defined_below_eq fuel s x l o pname : frame_ok s -> holder (base s) (VObj x) l o -> (walk_fuel (base s) <= fuel)%nat ->
  exists b, defined_below fuel pname l s = Some (b, s) /\
    (b = true <-> exists a, (a = l \/ exists y, inheritor (base s) l (VObj y) a) /\ defines s pname (str_hash pname) a).
Proof.
  intros Hf Hh Hfu. pose proof (belows_fuel (base s) o (fo_db s Hf)).
  destruct (defined_below_ok fuel s pname (str_hash pname) Hf x l o Hh) as (b & E & Hb); [lia|]. exists b. unfold defined_below. rewrite E.
  split; [done|]. rewrite Hb. assert (forall a, a ∈ locs_of (base s) (belows (base s) o) <-> exists y, inheritor (base s) l (VObj y) a) as Ha.
  { intros a. rewrite elem_of_locs_of. split.
    - intros (y & Hy & Hl). exists y. by apply (inheritor_obj _ x l o); [apply Hf|done|].
    - intros (y & Hy). exists y. apply (inheritor_obj _ x l o) in Hy; [done|apply Hf|done]. }
  by setoid_rewrite Ha.
Qed.

Lemma found_handle s last_move l o pname want r : found s last_move l o pname want r ->
  handle_found (fst r) = true <-> is_Some (find_builtin pname) \/ exists a, a ∈ line_of (base s) l o /\ defines s pname (str_hash pname) a.
Proof.
  unfold found. destruct (find_builtin pname) as [bp|]; [intros ->; split; [intros _; left; by eexists|done]|].
  destruct (find_slot s (line_of (base s) l o) pname) as [[[a i] n]|] eqn:E.
  - intros (w & _ & _ & ->). split; [|done]. intros _. right. destruct (find_slot_inv _ _ _ _ _ _ E) as (k & Hk & _ & Hd & _).
    exists a. split; [apply offset_in_inv in Hk as (? & ? & -> & _); set_solver|].
    unfold defines. apply not_false_iff_true. intros Hf. assert (find_def pname (str_hash pname) (defs_at s a) = None) as Hn; [|congruence].
    apply find_def_defines. unfold defines. congruence.
  - intros ->. split; [done|]. intros [H|(a & Ha & Hd)]; [by destruct H|].
    pose proof (proj1 (find_slot_none _ _ _) E a Ha) as Hn. by apply find_def_defines in Hn.
Qed.

Lemma inheritor_recached s s' rl v l : frame_ok s -> recached s s' -> inheritor (base s') rl v l <-> inheritor (base s) rl v l.
Proof. intros Hf (c & _ & ->). apply inheritor_cache. apply (ok_table _ (fo_db s Hf)). Qed.
Lemma defines_recached s s' pname h a : recached s s' -> defines s' pname h a <-> defines s pname h a.
Proof. by intros (c & _ & ->). Qed.

(** Whether the name is free, as [db_add_propdef] and [db_rename_propdef]
    find out *)
Lemma conflict_ok last_move fuel s r rl o pname : props_ok s -> holder (base s) (VObj r) rl o -> (walk_fuel (base s) <= fuel)%nat ->
  exists s' b, recached s s' /\
    (let! (h, _) := db_find_property last_move fuel (VObj r) pname false in
     if handle_found h then mreturn true else defined_below fuel pname rl) s = Some (b, s') /\
    (b = true <-> name_taken s rl o pname).
Proof.
  intros Hok Hh Hfu. pose proof (props_frame s Hok) as Hf.
  destruct (db_find_property_ok last_move fuel s (VObj r) rl o pname false Hok Hh Hfu) as (s1 & [h w] & Hrc & E & Hfound).
  erewrite mbind_Some by exact E. cbv beta iota. pose proof (found_handle _ _ _ _ _ _ _ Hfound) as Hhf. cbn [fst] in Hhf.
  destruct (handle_found h).
  - exists s1, true. split; [done|]. split; [done|]. split; [|done]. intros _. unfold name_taken.
    destruct (proj1 Hhf eq_refl) as [Hb|(a & Ha & Hd)]; [by left|right]. exists a. split; [by left|done].
  - pose proof (recached_frame _ _ Hrc Hf) as Hf1. pose proof Hrc as (c & Hc & ->).
    destruct (defined_below_eq fuel (with_base (with_cache c (base s)) s) r rl o pname Hf1) as (b & Eb & Hb);
      [by apply holder_cache|done|].
    exists (with_base (with_cache c (base s)) s), b. split; [done|]. split; [exact Eb|]. rewrite Hb. unfold name_taken.
    setoid_rewrite (inheritor_recached s _ _ _ _ Hf Hrc). split.
    + intros (a & [Ha|Ha] & Hd); right; exists a; (split; [|done]); [left; rewrite Ha; by left|by right].
    + intros [Hbi|(a & [Ha|Ha] & Hd)].
      * discriminate (proj2 Hhf (or_introl Hbi)).
      * discriminate (proj2 Hhf (or_intror (ex_intro _ a (conj Ha Hd)))).
      * exists a. split; [right; exact Ha|exact Hd].
Qed.

Definition new_max (p : Props) : Z :=
  if Z.of_nat (length (propdefs p)) =? max_length p then (if max_length p =? 0 then 8 else 2 * max_length p) else max_length p.

Lemma db_add_propdef_ok last_move fuel s r rl ro pname value who flags :
  props_ok s -> holder (base s) (VObj r) rl ro -> (walk_fuel (base s) <= fuel)%nat ->
  exists s' b, db_add_propdef last_move fuel (VObj r) pname value who flags s = Some (b, s') /\
    (b = false <-> name_taken s rl ro pname) /\
    if b : bool then exists max', Z.of_nat (S (ndefs s rl)) <= max' /\
      spliced s s' rl (defs_at s rl ++ [dbpriv_new_propdef pname]) max' (g_add rl (mk_Pval value who flags))
    else recached s s'.
Proof.
  intros Hok Hr Hfu. destruct (conflict_ok last_move fuel s r rl ro pname Hok Hr Hfu) as (s1 & b & Hrc & E & Hb).
  unfold db_add_propdef. erewrite mbind_Some by (by eapply deref_at).
  assert (forall (k : db_prop_handle -> M pdb bool) (j : bool -> M pdb bool),
    (let! (h, _) := db_find_property last_move fuel (VObj r) pname false in let! c := k h in j c) s =
    mbindM (let! (h, _) := db_find_property last_move fuel (VObj r) pname false in k h) j s) as Hassoc.
  { intros k j. rewrite mbind_assoc. unfold mbindM. destruct (db_find_property _ _ _ _ _ _) as [[[h w] s2]|]; done. }
  rewrite (Hassoc (fun h => if handle_found h then mreturn true else defined_below fuel pname rl)). clear Hassoc. erewrite mbind_Some by exact E.
  destruct b.
  { exists s1, false. split; [done|]. split; [|done]. split; [|done]. intros _. by apply Hb. }
  pose proof (recached_ok _ _ Hrc Hok) as Hok1. pose proof Hrc as (c & Hc & ->). set (s1 := with_base (with_cache c (base s)) s) in *.
  destruct (po_slots s Hok _ _ _ Hr) as (p & Hp & Hs). assert (props s1 !! rl = Some p) as Hp1 by done.
  erewrite mbind_Some by (by apply pload_eq). cbv zeta. fold (new_max p).
  assert (holder (base s1) (VObj r) rl ro) as Hr1 by (by apply holder_cache).
  erewrite mbind_Some by (unfold pupdate; by rewrite Hp1).
  destruct (insert_prop_recursively_ok fuel s1 r rl ro p (propdefs p ++ [dbpriv_new_propdef pname]) (new_max p) (mk_Pval value who flags) _ Hok1 Hr1 Hp1 eq_refl Hfu)
    as (s' & E' & Hsp).
  erewrite mbind_Some by exact E'. exists s', true. split; [done|]. split.
  { split; [done|]. intros Hn. apply Hb in Hn. done. }
  exists (new_max p). pose proof (so_max _ _ _ _ Hs) as Hmx. rewrite <- (refer_ndefs s rl p Hp). split.
  { unfold new_max. destruct (Z.eqb_spec (Z.of_nat (length (propdefs p))) (max_length p)); [|lia]. destruct (Z.eqb_spec (max_length p) 0); lia. }
  assert (defs_at s rl = propdefs p) as -> by (unfold defs_at; by rewrite Hp). by eapply spliced_recached.
Qed.

Lemma slot_for_nonclear o pv : pv_var pv <> VClear -> pv_var (slot_for o pv) <> VClear.
Proof. done. Qed.

Lemma g_add_length rl pv l o seg n : length seg = n -> length (g_add rl pv l o seg) = S n.
Proof. intros <-. unfold g_add. rewrite length_app. simpl. lia. Qed.

Lemma add_spliced_ok s s' r rl ro pname value who flags max' :
  props_ok s -> holder (base s) (VObj r) rl ro -> is_cstr pname -> value <> VClear -> Z.of_nat (S (ndefs s rl)) <= max' ->
  spliced s s' rl (defs_at s rl ++ [dbpriv_new_propdef pname]) max' (g_add rl (mk_Pval value who flags)) -> props_ok s'.
Proof.
  intros Hok Hr Hn Hv Hmax Hsp. destruct (po_slots s Hok _ _ _ Hr) as (p & Hp & Hs).
  assert (length (defs_at s rl ++ [dbpriv_new_propdef pname]) = S (ndefs s rl)) as Hl by (rewrite length_app; unfold ndefs; simpl; lia).
  eapply (spliced_ok s s' rl _ max' _ r ro); [done|exact Hsp|done| | | |].
  - intros l o seg Hseg. rewrite Hl. by apply g_add_length.
  - by rewrite Hl.
  - apply Forall_app. split; [|by constructor; [apply new_propdef_ok|]]. unfold defs_at. rewrite Hp. apply Hs.
  - intros seg _ HF. unfold g_add. rewrite decide_True by done. apply Forall_app. split; [done|]. by repeat constructor.
Qed.

(** ** Deleting *)

Lemma defs_at_eq s rl p : props s !! rl = Some p -> defs_at s rl = propdefs p.
Proof. intros Hp. unfold defs_at. by rewrite Hp. Qed.

Lemma remove_prop_recursively_ok fuel s r rl ro p defs' max' k :
  props_ok s -> holder (base s) (VObj r) rl ro -> props s !! rl = Some p -> (k < length (propdefs p))%nat -> (walk_fuel (base s) <= fuel)%nat ->
  exists s', remove_prop_recursively fuel r (Z.of_nat k) (mk_pdb (base s) (<[rl := with_propdefs defs' max' p]> (props s))) = Some (tt, s') /\
    spliced s s' rl defs' max' (fun _ _ seg => del k seg).
Proof.
  intros Hok Hr Hp Hk Hfu. pose proof (props_frame s Hok) as Hf. destruct (po_slots s Hok _ _ _ Hr) as (p0 & Hp0 & Hs).
  rewrite Hp in Hp0. injection Hp0 as <-. pose proof (refer_ndefs s rl p Hp) as Hm.
  pose proof (so_length _ _ _ _ Hs) as Hl. unfold line_of in Hl. rewrite total_cons in Hl.
  unfold remove_prop_recursively, remove_prop.
  erewrite mbind_Some by (apply (remove_prop2_ok _ _ rl ro (with_propdefs defs' max' p)); [exact Hr|apply lookup_insert_eq|cbn; lia]).
  cbn [base props]. rewrite insert_insert_eq.
  set (s2 := mk_pdb _ _).
  destruct (spread_ok fuel s s2 r rl ro (Z.of_nat k) (fun d pos => remove_prop2 d pos) (fun l o seg => del k seg) (ndefs s rl))
    as (s' & E & Hb & Hprl & Hps); try done.
  - intros l Hne. unfold s2. cbn [props]. by rewrite lookup_insert_ne.
  - unfold s2. cbn [props]. rewrite lookup_insert_eq. by eexists.
  - intros v l o q n s1 Hh (c & Hb) Hne Hq Hq1 Hn. rewrite <- Nat2Z.inj_add.
    assert (n + ndefs s rl <= length (propval q))%nat as Hle.
    { destruct (po_slots s Hok _ _ _ Hh) as (q0 & Hq0 & Hqs). rewrite Hq in Hq0. injection Hq0 as <-. rewrite (so_length _ _ _ _ Hqs).
      by apply offset_in_bound. }
    assert (holder (base s1) v l o) as Hh1 by (rewrite Hb; by apply holder_cache).
    rewrite (remove_prop2_ok s1 v l o q) by (done || lia). by rewrite (del_splice n (ndefs s rl)) by (done || lia).
  - exists s'. split; [exact E|]. split; [exact Hb|]. intros v l o q Hh Hq. destruct (decide (l = rl)) as [->|Hne].
    + rewrite Hprl. unfold s2. cbn [props]. rewrite lookup_insert_eq. assert (q = p) as -> by congruence.
      unfold line_of. cbn [offset_in]. rewrite decide_True by done. cbn [propval with_propdefs].
      change k with (0 + k)%nat at 1. rewrite (del_splice 0 (ndefs s rl)) by lia. done.
    + by rewrite (Hps v l o q Hh Hne Hq).
Qed.

Lemma db_delete_propdef_ok fuel s r rl ro pname :
  props_ok s -> holder (base s) (VObj r) rl ro -> (walk_fuel (base s) <= fuel)%nat ->
  match find_def pname (str_hash pname) (defs_at s rl) with
  | None => db_delete_propdef fuel (VObj r) pname s = Some (false, s)
  | Some k => exists s' max', db_delete_propdef fuel (VObj r) pname s = Some (true, s') /\
      Z.of_nat (length (del k (defs_at s rl))) <= max' /\ spliced s s' rl (del k (defs_at s rl)) max' (fun _ _ seg => del k seg)
  end.
Proof.
  intros Hok Hr Hfu. destruct (po_slots s Hok _ _ _ Hr) as (p & Hp & Hs). rewrite (defs_at_eq s rl p Hp).
  unfold db_delete_propdef. erewrite mbind_Some by (by eapply deref_at). erewrite mbind_Some by (by apply pload_eq).
  destruct (find_def pname (str_hash pname) (propdefs p)) as [k|] eqn:Ek; [|done].
  pose proof (find_def_lt _ _ _ _ Ek) as Hk. cbv zeta.
  set (new_size := if _ && _ then _ else _).
  destruct (remove_prop_recursively_ok fuel s r rl ro p (del k (propdefs p)) new_size k Hok Hr Hp Hk Hfu) as (s' & E & Hsp).
  exists s', new_size. split.
  - erewrite mbind_Some by (unfold pupdate; by rewrite Hp). by erewrite mbind_Some by exact E.
  - split; [|done]. pose proof (so_max _ _ _ _ Hs) as Hmax. unfold del. rewrite length_app, length_take, length_drop. unfold new_size.
    destruct (_ && _) eqn:Ec; [|lia]. apply andb_true_iff in Ec as [E8%Z.ltb_lt E3%Z.leb_le].
    rewrite !Z.quot_div_nonneg in * by lia. pose proof (Z.div_mod (max_length p * 3) 8). pose proof (Z.div_mod (max_length p) 2).
    pose proof (Z.mod_pos_bound (max_length p * 3) 8). pose proof (Z.mod_pos_bound (max_length p) 2). lia.
Qed.

Lemma del_spliced_ok s s' r rl ro k max' :
  props_ok s -> holder (base s) (VObj r) rl ro -> (k < ndefs s rl)%nat -> Z.of_nat (length (del k (defs_at s rl))) <= max' ->
  spliced s s' rl (del k (defs_at s rl)) max' (fun _ _ seg => del k seg) -> props_ok s'.
Proof.
  intros Hok Hr Hk Hmax Hsp. destruct (po_slots s Hok _ _ _ Hr) as (p & Hp & Hs).
  assert (forall {A} (P : A -> Prop) l, Forall P l -> Forall P (del k l)) as Hdel.
  { intros A P l HF. apply Forall_app. split; [by apply Forall_take|by apply Forall_drop]. }
  eapply (spliced_ok s s' rl _ max' _ r ro); [done|exact Hsp|done| |done| |].
  - intros l o seg Hseg. unfold del. rewrite !length_app, !length_take, !length_drop. unfold ndefs in *. lia.
  - apply Hdel. rewrite (defs_at_eq s rl p Hp). apply Hs.
  - intros seg _ HF. by apply Hdel.
Qed.

(** ** Renaming *)

Lemma db_rename_propdef_ok last_move fuel s r rl ro old new :
  props_ok s -> holder (base s) (VObj r) rl ro -> (walk_fuel (base s) <= fuel)%nat ->
  match find_def old (str_hash old) (defs_at s rl) with
  | None => db_rename_propdef last_move fuel (VObj r) old new s = Some (false, s)
  | Some k => exists s' b, db_rename_propdef last_move fuel (VObj r) old new s = Some (b, s') /\
      (b = false <-> strcasecmp old new <> 0 /\ name_taken s rl ro new) /\
      if b : bool then exists max', Z.of_nat (ndefs s rl) <= max' /\
        spliced s s' rl (<[k := dbpriv_new_propdef new]> (defs_at s rl)) max' (fun _ _ seg => seg)
      else recached s s'
  end.
Proof.
  intros Hok Hr Hfu. destruct (po_slots s Hok _ _ _ Hr) as (p & Hp & Hs). rewrite (defs_at_eq s rl p Hp).
  unfold db_rename_propdef. erewrite mbind_Some by (by eapply deref_at). erewrite mbind_Some by (by apply pload_eq).
  destruct (find_def old (str_hash old) (propdefs p)) as [k|] eqn:Ek; [|done].
  pose proof (find_def_lt _ _ _ _ Ek) as Hk. pose proof (refer_ndefs s rl p Hp) as Hm.
  assert (exists s1 b, recached s s1 /\ (b = true <-> strcasecmp old new <> 0 /\ name_taken s rl ro new) /\
    (if negb (strcasecmp old new =? 0) then
       let! (h, _) := db_find_property last_move fuel (VObj r) new false in
       if handle_found h then mreturn true else defined_below fuel new rl
     else mreturn false) s = Some (b, s1)) as (s1 & b & Hrc & Hb & E).
  { destruct (Z.eqb_spec (strcasecmp old new) 0) as [Ec|Ec]; cbn [negb].
    - exists s, false. split; [by apply recached_refl, props_frame|]. split; [|done]. split; [done|]. by intros [? _].
    - destruct (conflict_ok last_move fuel s r rl ro new Hok Hr Hfu) as (s1 & b & Hrc & E & Hb). exists s1, b. split; [done|]. split; [|done].
      rewrite Hb. tauto. }
  erewrite mbind_Some by exact E. destruct b.
  - exists s1, false. split; [done|]. split; [|done]. split; [|done]. intros _. by apply Hb.
  - pose proof Hrc as (c & Hc & ->). set (s1 := with_base (with_cache c (base s)) s) in *. assert (props s1 !! rl = Some p) as Hp1 by done.
    erewrite mbind_Some by (unfold pupdate; by rewrite Hp1). eexists _, true. split; [done|]. split.
    { split; [done|]. intros Ht. by apply Hb in Ht. }
    exists (max_length p). split; [rewrite <- Hm; apply Hs|]. split; [by exists c|]. intros v l o q Hh Hq. cbn [props].
    assert (match offset_in s (line_of (base s) l o) rl with
      | Some n => with_propval (splice n (ndefs s rl) (fun seg => seg) (propval q)) q | None => q end = q) as ->.
    { destruct (offset_in s (line_of (base s) l o) rl) as [n|]; [|done]. unfold splice. rewrite <- drop_drop, !take_drop. by destruct q. }
    cbv zeta. destruct (decide (l = rl)) as [->|Hne].
    + rewrite lookup_insert_eq. congruence.
    + by rewrite lookup_insert_ne.
Qed.

Lemma rename_spliced_ok s s' r rl ro k new max' :
  props_ok s -> holder (base s) (VObj r) rl ro -> is_cstr new -> Z.of_nat (ndefs s rl) <= max' ->
  spliced s s' rl (<[k := dbpriv_new_propdef new]> (defs_at s rl)) max' (fun _ _ seg => seg) -> props_ok s'.
Proof.
  intros Hok Hr Hn Hmax Hsp. destruct (po_slots s Hok _ _ _ Hr) as (p & Hp & Hs).
  eapply (spliced_ok s s' rl _ max' _ r ro); [done|exact Hsp|done| | | |done].
  - intros l o seg Hseg. by rewrite length_insert.
  - by rewrite length_insert.
  - apply Forall_insert; [|by apply new_propdef_ok]. rewrite (defs_at_eq s rl p Hp). apply Hs.
Qed.
