(* ===== verification/PropFun.v ===== *)
(** * The built-ins on properties (property.cc)

    [bf_*] after the argument count and types that [register_function]
    declares have been checked. *)
From Stdlib Require Import ZArith Lia.
From stdpp Require Import prelude gmap strings.
From S2P Require Import Prelude CString Value ObjCode ObjFun PropCode.

Local Open Scope Z_scope.
Local Open Scope moo_scope.

(** An answer, or an error *)
Definition perror (e : error) : M pdb package := mreturn (PError e).
Definition pack_error (e : error) : package := if decide (e = E_NONE) then no_var_pack else PError e.

Definition prop_info_flag (c : Z) : option Z :=
  if (c =? 114) || (c =? 82) then Some PF_READ
  else if (c =? 119) || (c =? 87) then Some PF_WRITE
  else if (c =? 99) || (c =? 67) then Some PF_CHOWN
  else None.
Fixpoint prop_info_flags (s : bytes) (flags : Z) : option Z :=
  match s with
  | [] => Some flags
  | c :: s => match prop_info_flag c with Some f => prop_info_flags s (Z.lor flags f) | None => None end
  end.

(** The owner, the flags and the new name, or an error *)
Definition validate_prop_info (d : db) (v : Var) : (Z * Z * option bytes) + error :=
  match v with
  | VList (VObj owner :: VStr s :: rest) =>
    match rest with
    | [] | [VStr _] =>
      if negb (valid d owner) then inr E_INVARG
      else match prop_info_flags s 0 with
           | None => inr E_INVARG
           | Some flags => inl (owner, flags, match rest with [VStr name] => Some name | _ => None end)
           end
    | _ => inr E_TYPE
    end
  | _ => inr E_TYPE
  end.

Section builtins.
Context (last_move : loc -> Var) (fuel : nat).

Definition bf_properties (obj : Var) (progr : Z) : M pdb package :=
  if negb (is_object obj) then perror E_TYPE
  else
    let! v := lift (is_valid obj) in
    if negb v then perror E_INVARG
    else
      let! allowed := lift (db_object_allows obj progr FLAG_READ) in
      if negb allowed then perror E_PERM
      else
        let! l := deref obj in
        let! p := pload l in
        mreturn (PVar (VList ((fun q => VStr (pd_name q)) <$> propdefs p))).

Definition perms_string (flags : Z) : bytes :=
  (if negb (Z.land flags PF_READ =? 0) then [114] else []) ++
  (if negb (Z.land flags PF_WRITE =? 0) then [119] else []) ++
  (if negb (Z.land flags PF_CHOWN =? 0) then [99] else []).

Definition bf_prop_info (obj : Var) (pname : bytes) (progr : Z) : M pdb package :=
  if negb (is_object obj) then perror E_TYPE
  else
    let! v := lift (is_valid obj) in
    if negb v then perror E_INVARG
    else
      let! (h, _) := db_find_property last_move fuel obj pname false in
      if negb (handle_found h) || db_is_property_built_in h then perror E_PROPNF
      else
        let! allowed := db_property_allows h progr PF_READ in
        if negb allowed then perror E_PERM
        else
          let! who := db_property_owner h in
          let! flags := db_property_flags h in
          mreturn (PVar (VList [VObj who; VStr (perms_string flags)])).

Definition set_prop_info (obj : Var) (pname : bytes) (info : Var) (progr : Z) : M pdb error :=
  match obj with
  | VObj _ =>
    let! v := lift (is_valid obj) in
    if negb v then mreturn E_INVARG
    else
      fun s =>
      match validate_prop_info (base s) info with
      | inr e => Some (e, s)
      | inl (new_owner, new_flags, new_name) =>
        (let! (h, _) := db_find_property last_move fuel obj pname false in
         if negb (handle_found h) || db_is_property_built_in h then mreturn E_PROPNF
         else
           let! allowed := db_property_allows h progr PF_WRITE in
           let! who := db_property_owner h in
           fun s =>
           if negb allowed || (negb (is_wizard (base s) progr) && negb (who =? new_owner)) then Some (E_PERM, s)
           else
             (let! h :=
                match new_name with
                | Some name =>
                  let! renamed := db_rename_propdef last_move fuel obj pname name in
                  if negb renamed then mreturn None
                  else let! (h, _) := db_find_property last_move fuel obj name false in mreturn (Some h)
                | None => mreturn (Some h)
                end in
              match h with
              | None => mreturn E_INVARG
              | Some h =>
                db_set_property_owner h new_owner ;;
                db_set_property_flags h new_flags ;;
                mreturn E_NONE
              end) s) s
      end
  | _ => mreturn E_TYPE
  end.
Definition bf_set_prop_info (obj : Var) (pname : bytes) (info : Var) (progr : Z) : M pdb package :=
  let! e := set_prop_info obj pname info progr in mreturn (pack_error e).

Definition bf_add_prop (obj : Var) (pname : bytes) (value info : Var) (progr : Z) : M pdb package := fun s =>
  match validate_prop_info (base s) info with
  | inr e => Some (PError e, s)
  | inl (owner, flags, new_name) =>
    match new_name, obj with
    | None, VObj _ =>
      (let! v := lift (is_valid obj) in
       if negb v then perror E_INVARG
       else
         let! allowed := lift (db_object_allows obj progr FLAG_WRITE) in
         fun s =>
         if negb allowed || (negb (progr =? owner) && negb (is_wizard (base s) progr)) then Some (PError E_PERM, s)
         else
           (let! added := db_add_propdef last_move fuel obj pname value owner flags in
            mreturn (if added : bool then no_var_pack else PError E_INVARG)) s) s
    | _, _ => Some (PError E_TYPE, s)
    end
  end.

Definition bf_delete_prop (obj : Var) (pname : bytes) (progr : Z) : M pdb package :=
  match obj with
  | VObj _ =>
    let! v := lift (is_valid obj) in
    if negb v then perror E_INVARG
    else
      let! allowed := lift (db_object_allows obj progr FLAG_WRITE) in
      if negb allowed then perror E_PERM
      else
        let! deleted := db_delete_propdef fuel obj pname in
        mreturn (if deleted : bool then no_var_pack else PError E_PROPNF)
  | _ => perror E_TYPE
  end.

Definition bf_clear_prop (obj : Var) (pname : bytes) (progr : Z) : M pdb package :=
  if negb (is_object obj) then perror E_TYPE
  else
    let! v := lift (is_valid obj) in
    if negb v then perror E_INVARG
    else
      let! (h, _) := db_find_property last_move fuel obj pname false in
      if negb (handle_found h) then perror E_PROPNF
      else
        let! allowed := (if db_is_property_built_in h then mreturn false else db_property_allows h progr PF_WRITE) in
        if negb allowed then perror E_PERM
        else
          let! l := deref obj in
          if db_is_property_defined_on h l then perror E_INVARG
          else db_set_property_value h VClear ;; mreturn no_var_pack.

Definition bf_is_clear_prop (obj : Var) (pname : bytes) (progr : Z) : M pdb package :=
  if negb (is_object obj) then perror E_INVARG
  else
    let! v := lift (is_valid obj) in
    if negb v then perror E_INVARG
    else
      let! (h, _) := db_find_property last_move fuel obj pname false in
      if negb (handle_found h) then perror E_PROPNF
      else
        let! allowed := (if db_is_property_built_in h then mreturn true else db_property_allows h progr PF_READ) in
        if negb allowed then perror E_PERM
        else
          let! value := (if db_is_property_built_in h then mreturn VNone else db_property_value last_move h) in
          mreturn (PVar (VInt (match value with VClear => 1 | _ => 0 end))).
End builtins.

(** ** Changing the parents, with the properties ([db_change_parents] of
    db_objects.cc) *)

Definition gather_anon_kids (d : db) (obj : Var) (anon_kids : list loc) : list loc :=
  match anon_kids, obj with
  | [], VObj oid => elements (default ∅ (anonymous_objects d !! oid))
  | _, _ => anon_kids
  end.

Definition db_change_parents_props (steps fuel : nat) (obj : Var) (new_parents : Z + list Z) (anon_kids : list loc) : M pdb bool := fun s =>
  if negb (check_for_duplicates new_parents) then Some (false, s)
  else
    let kids := gather_anon_kids (base s) obj anon_kids in
    (let! kids_ok := lift (check_children_of_object obj ((fun l => VAnon (Some l)) <$> kids)) in
     if negb kids_ok then mreturn false
     else
       let! l := deref obj in
       fun s =>
       match dbpriv_check_properties_for_chparent steps fuel s l new_parents kids with
       | None => None
       | Some false => Some (false, s)
       | Some true =>
         (let! o := lift (load l) in
          let old_parents := parents o in
          let! old_ancestors := lift (db_ancestors fuel obj true) in
          lift (match obj with
                | VObj oid =>
                  for_parents (remove_child oid) old_parents ;;
                  for_parents (add_child oid) new_parents
                | _ =>
                  for_parents (fun p => dbpriv_remove_anon p l) old_parents ;;
                  for_parents (fun p => dbpriv_add_anon p l) new_parents
                end) ;;
          lift (update l (with_parents new_parents)) ;;
          match obj with
          | VObj _ =>
            let! descendants := lift (db_descendants fuel obj true) in
            lift (modify (fun d => with_cache (uncache descendants (ancestor_cache d)) d))
          | _ => mreturn tt
          end ;;
          let! new_ancestors := lift (db_ancestors fuel obj true) in
          dbpriv_fix_properties_after_chparent fuel fuel obj old_ancestors new_ancestors kids ;;
          mreturn true) s
       end) s.
