(* ===== verification/PropOps.v ===== *)
(** * The built-ins on properties: errors, effect and invariant

    [add_property], [delete_property], [set_property_info] and
    [clear_property] on a database whose slots are in order ([props_ok]). *)
From Stdlib Require Import ZArith Lia.
From stdpp Require Import prelude gmap relations strings.
From S2P Require Import Prelude CString Value ObjCode ObjGraph ObjParents ObjChange ObjFun PropCode PropSpec PropFind PropSplice PropEdit PropFun.

Local Open Scope Z_scope.
Local Open Scope moo_scope.

(** ** Checks before the work *)

Lemma lift_valid s x : lift (is_valid (VObj x)) s = Some (valid (base s) x, s).
Proof. erewrite lift_eq by done. by rewrite with_base_id. Qed.

(** Who may act on an object for a flag *)
Definition allows (d : db) (o : Object) (progr f : Z) : bool :=
  is_wizard d progr || (progr =? owner o) || dbpriv_object_has_flag o f.
Lemma lift_allows s x l o progr f : holder (base s) (VObj x) l o ->
  lift (db_object_allows (VObj x) progr f) s = Some (allows (base s) o progr f, s).
Proof.
  intros Hh. erewrite lift_eq; [by rewrite with_base_id|]. unfold db_object_allows, allows.
  destruct (is_wizard (base s) progr); [done|]. erewrite mbind_Some by (by eapply holder_deref).
  by erewrite mbind_Some by (by apply load_eq; eapply holder_heap).
Qed.

(** Two states with the same slots, but perhaps for those of [rl] *)
Definition same_slots_but (s s' : pdb) (rl : loc) : Prop :=
  forall v l o, holder (base s) v l o ->
    (l <> rl -> defs_at s' l = defs_at s l) /\ forall a k, a <> rl -> slot_of s' l o a k = slot_of s l o a k.

Lemma spliced_same s s' r rl ro defs' max' g : props_ok s -> holder (base s) (VObj r) rl ro ->
  (forall l o seg, length seg = ndefs s rl -> length (g l o seg) = length defs') -> spliced s s' rl defs' max' g -> same_slots_but s s' rl.
Proof.
  intros Hok Hr Hlen Hsp v l o Hh. split.
  - intros Hne. by rewrite (spliced_defs s s' rl defs' max' g Hok Hsp v l o Hh), decide_False.
  - intros a k Ha. by apply (spliced_other s s' rl defs' max' g r ro Hok Hsp Hr Hlen v l o a k Hh).
Qed.

(** ** [add_property] *)

(** The error that the arguments deserve, in the order of the tests *)
Definition add_error (s : pdb) (obj : Var) (pname : bytes) (info : Var) (progr : Z) (l : loc) (o : Object) (e : error) : Prop :=
  match validate_prop_info (base s) info with
  | inr e' => e = e'
  | inl (who, _, new_name) =>
    match new_name, obj with
    | None, VObj x =>
      if negb (valid (base s) x) then e = E_INVARG
      else if negb (allows (base s) o progr FLAG_WRITE) || (negb (progr =? who) && negb (is_wizard (base s) progr)) then e = E_PERM
      else name_taken s l o pname /\ e = E_INVARG
    | _, _ => e = E_TYPE
    end
  end.

Lemma g_add_root rl pv l o seg n k : length seg = n -> g_add rl pv l o seg !! k =
  if decide (k = n) then Some (slot_for o (if decide (l = rl) then pv else cleared pv)) else seg !! k.
Proof.
  intros <-. unfold g_add. destruct (decide (k = length seg)) as [->|Hk]; [by rewrite lookup_app_r, Nat.sub_diag by lia|].
  destruct (decide (k < length seg)%nat); [by rewrite lookup_app_l by lia|].
  rewrite lookup_app_r by lia. rewrite (lookup_ge_None_2 seg k) by lia. apply lookup_ge_None_2. simpl. lia.
Qed.

Lemma bf_add_prop_ok last_move fuel s x l o pname value info progr
    (Hok : props_ok s) (Hh : holder (base s) (VObj x) l o) (Hn : is_cstr pname) (Hv : value <> VClear) (Hf : (walk_fuel (base s) <= fuel)%nat) :
  exists s' r, bf_add_prop last_move fuel (VObj x) pname value info progr s = Some (r, s') /\ props_ok s' /\
    ((exists e, r = PError e /\ add_error s (VObj x) pname info progr l o e /\ recached s s') \/
     exists who flags, validate_prop_info (base s) info = inl (who, flags, None) /\ r = no_var_pack /\
       (forall e, ~ add_error s (VObj x) pname info progr l o e) /\
       defs_at s' l = defs_at s l ++ [dbpriv_new_propdef pname] /\ same_slots_but s s' l /\
       forall v m om, holder (base s) v m om -> l ∈ line_of (base s) m om ->
         (forall k, k <> ndefs s l -> slot_of s' m om l k = slot_of s m om l k) /\
         slot_of s' m om l (ndefs s l) = Some (slot_for om (mk_Pval (if decide (m = l) then value else VClear) who flags))).
Proof.
  assert (Hvx : valid (base s) x = true) by (by eapply object_valid, holder_object_of).
  unfold bf_add_prop, add_error. destruct (validate_prop_info (base s) info) as [[[who flags] new_name]|e].
  2:{ exists s, (PError e). split; [done|]. split; [done|]. left. exists e. split; [done|]. split; [done|by apply recached_refl, props_frame]. }
  destruct new_name as [nm|].
  { exists s, (PError E_TYPE). split; [done|]. split; [done|]. left. exists E_TYPE. split; [done|]. split; [done|by apply recached_refl, props_frame]. }
  rewrite Hvx. cbn [negb]. erewrite mbind_Some by (rewrite lift_valid; by rewrite Hvx). cbn [negb].
  erewrite mbind_Some by (by eapply lift_allows). cbv beta.
  destruct (negb (allows (base s) o progr FLAG_WRITE) || _) eqn:Ep.
  { exists s, (PError E_PERM). split; [done|]. split; [done|]. left. exists E_PERM. split; [done|]. split; [done|by apply recached_refl, props_frame]. }
  destruct (db_add_propdef_ok last_move fuel s x l o pname value who flags Hok Hh Hf) as (s' & b & E & Hb & Hs).
  erewrite mbind_Some by exact E. exists s', (if b then no_var_pack else PError E_INVARG). split; [by destruct b|]. destruct b.
  - destruct Hs as (max' & Hmax & Hsp). split; [by eapply (add_spliced_ok s s' x l o)|]. right. exists who, flags.
    split; [done|]. split; [done|]. split; [intros e [Ht _]; by apply Hb in Ht|].
    assert (forall m om seg, length seg = ndefs s l ->
      length (g_add l (mk_Pval value who flags) m om seg) = length (defs_at s l ++ [dbpriv_new_propdef pname])) as Hlen.
    { intros m om seg Hseg. rewrite (g_add_length _ _ _ _ _ _ Hseg), length_app. simpl. unfold ndefs. lia. }
    split; [rewrite (spliced_defs s s' l _ max' _ Hok Hsp _ _ _ Hh); by rewrite decide_True|].
    split; [by eapply spliced_same|]. intros v m om Hm Hin.
    destruct (spliced_root s s' l _ max' _ x o Hok Hsp Hh Hlen v m om Hm Hin) as (seg & Hseg & H1 & H2). split.
    + intros k Hk. by rewrite H2, H1, (g_add_root _ _ _ _ _ _ _ Hseg), decide_False.
    + rewrite H2, (g_add_root _ _ _ _ _ _ _ Hseg), decide_True by done. by destruct (decide (m = l)).
  - split; [by eapply recached_ok|]. left. exists E_INVARG. split; [done|]. split; [|done]. split; [|done]. by apply Hb.
Qed.

(** ** [delete_property] *)

Lemma del_lookup {A} k (l : list A) j : (k < length l)%nat -> del k l !! j = l !! (if (j <? k)%nat then j else S j).
Proof.
  intros Hk. unfold del. destruct (Nat.ltb_spec j k).
  - rewrite lookup_app_l by (rewrite length_take; lia). by apply lookup_take_lt.
  - rewrite lookup_app_r by (rewrite length_take; lia). rewrite lookup_drop, length_take. f_equal. lia.
Qed.

Lemma bf_delete_prop_ok fuel s x l o pname progr
    (Hok : props_ok s) (Hh : holder (base s) (VObj x) l o) (Hf : (walk_fuel (base s) <= fuel)%nat) :
  exists s' r, bf_delete_prop fuel (VObj x) pname progr s = Some (r, s') /\ props_ok s' /\
    if negb (allows (base s) o progr FLAG_WRITE) then r = PError E_PERM /\ s' = s
    else match find_def pname (str_hash pname) (defs_at s l) with
         | None => r = PError E_PROPNF /\ s' = s
         | Some k =>
           r = no_var_pack /\ defs_at s' l = del k (defs_at s l) /\ same_slots_but s s' l /\
           forall v m om, holder (base s) v m om -> l ∈ line_of (base s) m om ->
             forall j, slot_of s' m om l j = slot_of s m om l (if (j <? k)%nat then j else S j)
         end.
Proof.
  assert (Hvx : valid (base s) x = true) by (by eapply object_valid, holder_object_of).
  unfold bf_delete_prop. erewrite mbind_Some by (rewrite lift_valid; by rewrite Hvx). cbn [negb].
  erewrite mbind_Some by (by eapply lift_allows). destruct (allows (base s) o progr FLAG_WRITE); cbn [negb].
  2:{ by exists s, (PError E_PERM). }
  pose proof (db_delete_propdef_ok fuel s x l o pname Hok Hh Hf) as Hd.
  destruct (find_def pname (str_hash pname) (defs_at s l)) as [k|] eqn:Ek.
  - destruct Hd as (s' & max' & E & Hmax & Hsp). erewrite mbind_Some by exact E. exists s', no_var_pack. split; [done|].
    pose proof (find_def_lt _ _ _ _ Ek) as Hk. fold (ndefs s l) in Hk. split; [by eapply del_spliced_ok|]. split; [done|].
    assert (forall (m : loc) (om : Object) (seg : list Pval), length seg = ndefs s l -> length (del k seg) = length (del k (defs_at s l))) as Hlen.
    { intros m om seg Hseg. unfold del. rewrite !length_app, !length_take, !length_drop. unfold ndefs in *. lia. }
    split; [rewrite (spliced_defs s s' l _ max' _ Hok Hsp _ _ _ Hh); by rewrite decide_True|].
    split; [eapply spliced_same; [exact Hok|exact Hh| |exact Hsp]; exact Hlen|]. intros v m om Hm Hin j.
    destruct (spliced_root s s' l _ max' _ x o Hok Hsp Hh Hlen v m om Hm Hin) as (seg & Hseg & H1 & H2).
    rewrite H2, H1. apply del_lookup. lia.
  - erewrite mbind_Some by exact Hd. by exists s, (PError E_PROPNF).
Qed.

(** ** Changes of one slot *)

Definition set_slot (s : pdb) (l : loc) (n : nat) (f : Pval -> Pval) : pdb :=
  mk_pdb (base s) (alter (fun p => with_propval (alter f n (propval p)) p) l (props s)).

Lemma update_slot_eq s a l n f p pv : props s !! l = Some p -> propval p !! n = Some pv ->
  update_slot (PropSlot a l n) f s = Some (tt, set_slot s l n f).
Proof.
  intros Hp Hn. unfold update_slot. erewrite mbind_Some by (by apply pload_eq). rewrite Hn. unfold pupdate. rewrite Hp.
  unfold set_slot. do 3 f_equal. apply map_eq. intros m. destruct (decide (m = l)) as [->|Hne].
  - rewrite lookup_insert_eq, lookup_alter_eq, Hp. simpl. do 2 f_equal. apply list_eq. intros i.
    destruct (decide (i = n)) as [->|Hi].
    + rewrite list_lookup_insert_eq by (by eapply lookup_lt_Some). by rewrite list_lookup_alter_eq, Hn.
    + by rewrite list_lookup_insert_ne, list_lookup_alter_ne by done.
  - by rewrite lookup_insert_ne, lookup_alter_ne by done.
Qed.
Lemma set_slot_props s l n f m : props (set_slot s l n f) !! m =
  if decide (m = l) then (fun p => with_propval (alter f n (propval p)) p) <$> props s !! m else props s !! m.
Proof. simpl. destruct (decide (m = l)) as [->|Hne]; [by rewrite lookup_alter_eq|by rewrite lookup_alter_ne]. Qed.
Lemma set_slot_defs s l n f a : defs_at (set_slot s l n f) a = defs_at s a.
Proof. unfold defs_at. rewrite set_slot_props. destruct (decide (a = l)); by destruct (props s !! a). Qed.
Lemma set_slot_total s l n f ls : total (set_slot s l n f) ls = total s ls.
Proof. induction ls as [|a ls IH]; [done|]. rewrite !total_cons, IH. unfold ndefs. by rewrite set_slot_defs. Qed.

Lemma set_slot_offset s l n f ls a : offset_in (set_slot s l n f) ls a = offset_in s ls a.
Proof. induction ls as [|b ls IH]; [done|]. cbn [offset_in]. unfold ndefs. by rewrite IH, set_slot_defs. Qed.

Lemma set_slot_ok s v l o n f : props_ok s -> holder (base s) v l o ->
  (forall pv, pv_var pv <> VClear -> pv_var (f pv) <> VClear) \/ (ndefs s l <= n)%nat -> props_ok (set_slot s l n f).
Proof.
  intros [H1 H2 H3] Hh Hf. split; [done|done|]. intros w m om Hm. destruct (H3 w m om Hm) as (p & Hp & [A1 A2 A3 A4]).
  rewrite set_slot_props. destruct (decide (m = l)) as [->|Hne].
  - rewrite Hp. eexists. split; [done|]. split; [|done|done|].
    + cbn [propval with_propval]. rewrite length_alter, set_slot_total. exact A1.
    + cbn [propval propdefs with_propval]. intros k pv Hk Hpv. destruct (decide (k = n)) as [->|Hkn].
      * rewrite list_lookup_alter_eq in Hpv. destruct (propval p !! n) as [pv0|] eqn:E0; [|done]. injection Hpv as <-.
        destruct Hf as [Hf|Hn]; [apply Hf; by eapply A4|]. rewrite (refer_ndefs s l p Hp) in Hk. lia.
      * rewrite list_lookup_alter_ne in Hpv by done. by eapply A4.
  - exists p. split; [done|]. split; [|done..]. rewrite set_slot_total. exact A1.
Qed.

(** ** [clear_property] *)

Definition slot_allows (d : db) (pv : Pval) (progr flag : Z) : bool :=
  negb (Z.land (pv_perms pv) flag =? 0) || (progr =? pv_owner pv) || is_wizard d progr.
Lemma property_allows_eq s a l n p pv progr flag : props s !! l = Some p -> propval p !! n = Some pv ->
  db_property_allows (PropSlot a l n) progr flag s = Some (slot_allows (base s) pv progr flag, s).
Proof.
  intros Hp Hn. unfold db_property_allows, handle_slot. by erewrite mbind_Some by (by eapply read_slot_eq).
Qed.

(** The slot that a lookup finds *)
Lemma found_slot s v l o pname a i n : props_ok s -> holder (base s) v l o -> find_slot s (line_of (base s) l o) pname = Some (a, i, n) ->
  exists p pv k, props s !! l = Some p /\ propval p !! n = Some pv /\ slot_of s l o a i = Some pv /\
    offset_in s (line_of (base s) l o) a = Some k /\ n = (k + i)%nat /\ (i < ndefs s a)%nat /\ (a <> l -> (ndefs s l <= n)%nat).
Proof.
  intros Hok Hh Ef. destruct (find_slot_inv _ _ _ _ _ _ Ef) as (k & Hk & -> & Hd & Hi).
  destruct (slot_exists s v l o a k i Hok Hh Hk Hi) as (p & pv & Hp & Hpv). exists p, pv, k. split_and!; try done.
  - unfold slot_of. by rewrite Hp, Hk, (proj2 (Nat.ltb_lt _ _) Hi).
  - intros Hne. unfold line_of in Hk. cbn [offset_in] in Hk. rewrite decide_False in Hk by done.
    destruct (offset_in s _ a); [|done]. injection Hk as <-. lia.
Qed.
Lemma find_recached s s' pname v l o : props_ok s -> recached s s' -> holder (base s) v l o ->
  find_slot s' (line_of (base s') l o) pname = find_slot s (line_of (base s) l o) pname /\ holder (base s') v l o.
Proof.
  intros Hok Hrc Hh. rewrite (find_slot_recached s s') by done. destruct Hrc as (c & Hc & ->). split; [|by apply holder_cache].
  cbn [base with_base]. rewrite line_of_cache; [done|]. apply (ok_table _ (po_db s Hok)).
Qed.
Lemma slot_of_recached s s' l o a k : props_ok s -> recached s s' -> slot_of s' l o a k = slot_of s l o a k.
Proof.
  intros Hok Hrc. unfold slot_of. pose proof Hrc as (c & Hc & ->). cbn [base with_base props].
  rewrite line_of_cache by (apply (ok_table _ (po_db s Hok))). by rewrite (offset_in_recached s).
Qed.

(** Two slots of one object are at different places. *)
Lemma offsets_disjoint s ls a b n m i j : offset_in s ls a = Some n -> offset_in s ls b = Some m ->
  (i < ndefs s a)%nat -> (j < ndefs s b)%nat -> (n + i = m + j)%nat -> a = b /\ i = j.
Proof.
  revert n m. induction ls as [|c ls IH]; intros n m Ha Hb Hi Hj E; [done|]. cbn [offset_in] in *.
  destruct (decide (c = a)) as [Hca|Hca], (decide (c = b)) as [Hcb|Hcb].
  - injection Ha as <-. injection Hb as <-. split; [congruence|lia].
  - destruct (offset_in s ls b) as [x|]; [|done]. simpl in Hb. injection Ha as <-. injection Hb as <-. subst c. lia.
  - destruct (offset_in s ls a) as [x|]; [|done]. simpl in Ha. injection Ha as <-. injection Hb as <-. subst c. lia.
  - destruct (offset_in s ls a) as [x|] eqn:E1, (offset_in s ls b) as [y|] eqn:E2; try done. simpl in Ha, Hb.
    injection Ha as <-. injection Hb as <-. apply (IH x y); (done || lia).
Qed.

Lemma set_slot_of s v l o a i k f m om b j : props_ok s -> holder (base s) v l o ->
  offset_in s (line_of (base s) l o) a = Some k -> (i < ndefs s a)%nat ->
  obj_heap (base s) !! m = Some om ->
  slot_of (set_slot s l (k + i) f) m om b j =
    if decide (m = l /\ b = a /\ j = i) then f <$> slot_of s m om b j else slot_of s m om b j.
Proof.
  intros Hok Hh Hk Hi Hm. unfold slot_of. rewrite set_slot_props. cbn [base set_slot].
  rewrite set_slot_offset. unfold ndefs at 1. rewrite set_slot_defs. fold (ndefs s b).
  destruct (decide (m = l)) as [->|Hne]; [|by rewrite decide_False by (intros (? & _); done)].
  assert (om = o) as -> by (apply holder_heap in Hh; congruence).
  destruct (props s !! l) as [p|]; [|by case_decide]. cbn [fmap option_fmap option_map].
  destruct (offset_in s (line_of (base s) l o) b) as [n|] eqn:En; [|by case_decide]. cbn [propval with_propval].
  destruct (Nat.ltb_spec j (ndefs s b)) as [Hj|Hj]; [|by case_decide].
  destruct (decide (l = l /\ b = a /\ j = i)) as [(_ & -> & ->)|Hd].
  - assert (n = k) as -> by congruence. by rewrite list_lookup_alter_eq.
  - rewrite list_lookup_alter_ne; [done|]. intros E. apply Hd. by destruct (offsets_disjoint s _ a b k n i j Hk En Hi Hj E).
Qed.

Lemma bf_clear_prop_ok last_move fuel s x l o pname progr
    (Hok : props_ok s) (Hh : holder (base s) (VObj x) l o) (Hf : (walk_fuel (base s) <= fuel)%nat) :
  exists s' r, bf_clear_prop last_move fuel (VObj x) pname progr s = Some (r, s') /\ props_ok s' /\
    match find_builtin pname, find_slot s (line_of (base s) l o) pname with
    | Some _, _ => r = PError E_PERM /\ recached s s'
    | None, None => r = PError E_PROPNF /\ recached s s'
    | None, Some (a, i, _) =>
      exists pv, slot_of s l o a i = Some pv /\
        if negb (slot_allows (base s) pv progr PF_WRITE) then r = PError E_PERM /\ recached s s'
        else if decide (a = l) then r = PError E_INVARG /\ recached s s'
        else r = no_var_pack /\ slot_of s' l o a i = Some (cleared pv) /\
          (forall v m om b j, holder (base s) v m om -> ~ (m = l /\ b = a /\ j = i) -> slot_of s' m om b j = slot_of s m om b j) /\
          exists q lq, q ∈ enlist (parents o) /\ dbpriv_find_object (base s) q = Some lq /\
            exists w, effective s' a i l w /\ effective s' a i lq w
    end.
Proof.
  assert (Hvx : valid (base s) x = true) by (by eapply object_valid, holder_object_of).
  unfold bf_clear_prop. cbn [is_object negb]. erewrite mbind_Some by (rewrite lift_valid; by rewrite Hvx). cbn [negb].
  destruct (db_find_property_ok last_move fuel s (VObj x) l o pname false Hok Hh Hf) as (s1 & [h w] & Hrc & E & Hfound).
  erewrite mbind_Some by exact E. cbv beta iota. pose proof (recached_ok _ _ Hrc Hok) as Hok1. unfold found in Hfound.
  destruct (find_builtin pname) as [bp|]; [injection Hfound as -> _; by exists s1, (PError E_PERM)|].
  destruct (find_slot s (line_of (base s) l o) pname) as [[[a i] n]|] eqn:Ef; [|injection Hfound as -> _; by exists s1, (PError E_PROPNF)].
  destruct Hfound as (_ & _ & _ & [= -> _]). cbn [handle_found negb db_is_property_built_in].
  destruct (find_recached s s1 pname _ l o Hok Hrc Hh) as [Ef1 Hh1]. rewrite Ef in Ef1.
  destruct (found_slot s1 _ l o pname a i n Hok1 Hh1 Ef1) as (p & pv & k & Hp & Hpv & Hs & Hk & -> & Hi & Hnl).
  erewrite mbind_Some by (by eapply property_allows_eq).
  assert (slot_allows (base s1) pv progr PF_WRITE = slot_allows (base s) pv progr PF_WRITE) as -> by (by destruct Hrc as (c & _ & ->)).
  rewrite (slot_of_recached s s1) in Hs by done.
  destruct (slot_allows (base s) pv progr PF_WRITE) eqn:Ea; cbn [negb].
  2:{ exists s1, (PError E_PERM). split; [done|]. split; [done|]. exists pv. by rewrite Ea. }
  erewrite mbind_Some by (by eapply deref_at). cbn [db_is_property_defined_on]. destruct (decide (a = l)) as [Hal|Hal].
  { rewrite bool_decide_eq_true_2 by done. exists s1, (PError E_INVARG). split; [done|]. split; [done|]. exists pv. rewrite Ea. by destruct (decide (a = l)). }
  rewrite bool_decide_eq_false_2 by done. cbn [db_set_property_value].
  erewrite mbind_Some by (by eapply update_slot_eq). eexists _, no_var_pack. split; [done|].
  assert (props_ok (set_slot s1 l (k + i) (fun pv => mk_Pval VClear (pv_owner pv) (pv_perms pv)))) as Hok2.
  { eapply set_slot_ok; [done|exact Hh1|]. right. by apply Hnl. }
  split; [done|]. exists pv. rewrite Ea. destruct (decide (a = l)); [done|]. cbn [negb]. split; [done|]. split; [done|].
  assert (forall m om b j, obj_heap (base s) !! m = Some om -> slot_of (set_slot s1 l (k + i) cleared) m om b j =
    if decide (m = l /\ b = a /\ j = i) then cleared <$> slot_of s m om b j else slot_of s m om b j) as Hset.
  { intros m om b j Hm. rewrite (set_slot_of s1 _ l o a i k cleared m om b j Hok1 Hh1 Hk Hi), (slot_of_recached s s1); [done..|].
    by destruct Hrc as (c & _ & ->). }
  pose proof (holder_heap _ _ _ _ Hh) as Hheap. split.
  { change (slot_of (set_slot s1 l (k + i) cleared) l o a i = Some (cleared pv)). by rewrite Hset, decide_True, Hs. }
  split.
  { intros v m om b j Hm Hn. change (slot_of (set_slot s1 l (k + i) cleared) m om b j = slot_of s m om b j).
    rewrite Hset by (by eapply holder_heap). by rewrite decide_False. }
  fold cleared. set (s2 := set_slot s1 l (k + i) cleared) in *.
  assert (holder (base s2) (VObj x) l o) as Hh2 by exact Hh1.
  assert (offset_in s2 (line_of (base s2) l o) a = Some k) as Hk2.
  { rewrite <- Hk. apply set_slot_offset. }
  assert ((i < ndefs s2 a)%nat) as Hi2 by (unfold ndefs, s2; by rewrite set_slot_defs).
  destruct (slot_exists s2 _ l o a k i Hok2 Hh2 Hk2 Hi2) as (p2 & pv2 & Hp2 & Hpv2).
  assert (pv_var pv2 = VClear) as Hcl.
  { assert (slot_of s2 l o a i = Some pv2) as H2 by (unfold slot_of; by rewrite Hp2, Hk2, (proj2 (Nat.ltb_lt _ _) Hi2)).
    unfold s2 in H2. rewrite Hset, decide_True, Hs in H2 by done. by injection H2 as <-. }
  assert (walk_fuel (base s2) = walk_fuel (base s)) as Hwf by (unfold s2; destruct Hrc as (c & _ & ->); done).
  destruct (skip_clear_ok fuel fuel s2 _ l o a k i Hok2 Hh2 Hk2 Hi2) as (s3 & w2 & _ & _ & Heff & _).
  { by rewrite Hwf. }
  { pose proof (above_fuel (base s2) o (ok_table _ (po_db s2 Hok2))) as Haf. rewrite Hwf in Haf. lia. }
  inversion Heff as [v0 l0 o0 p0 n0 pv0 B1 B2 B3 B4 B5|v0 l0 o0 p0 n0 pv0 pre q post lq oq w0 B1 B2 B3 B4 B5 B6 B7 B8 B9 B10]; subst.
  - exfalso. apply B5. assert (p0 = p2) as -> by congruence. assert (o0 = o) as -> by (apply holder_heap in B1, Hh2; congruence).
    assert (n0 = k) as -> by congruence. congruence.
  - assert (o0 = o) as -> by (apply holder_heap in B1, Hh2; congruence). exists q, lq. rewrite B6. split; [set_solver|].
    split; [apply holder_object in B7 as [B7 _]; by destruct Hrc as (c & _ & ->)|]. by exists w2.
Qed.
