(* ===== verification/PropInfo.v ===== *)
(** * [set_property_info]: owner, permissions and name of a property

    What [set_prop_info] does on every branch, on a database whose slots are
    in order ([props_ok]). *)
From Stdlib Require Import ZArith Lia.
From stdpp Require Import prelude gmap relations strings.
From S2P Require Import Prelude CString Value ObjCode ObjGraph ObjParents ObjChange ObjFun PropCode PropSpec PropFind PropSplice PropEdit PropFun PropOps.

Local Open Scope Z_scope.
Local Open Scope moo_scope.

(** ** Names that differ only in case *)

Lemma strcasecmp_zero a b : is_cstr a -> is_cstr b -> strcasecmp a b = 0 <-> map tolower a = map tolower b.
Proof. apply strcmp_by_zero, tolower_byte_map. Qed.

Lemma prop_named_case old new q : is_cstr old -> is_cstr new -> propdef_ok q -> strcasecmp old new = 0 ->
  prop_named new (str_hash new) q = prop_named old (str_hash old) q.
Proof.
  intros Ho Hn [Hq _] E. apply strcasecmp_zero in E; [|done..]. unfold prop_named. rewrite (str_hash_tolower _ _ E). f_equal.
  apply eq_iff_eq_true. rewrite !Z.eqb_eq, !strcasecmp_zero by done. by rewrite E.
Qed.
Lemma prop_named_new new : is_cstr new -> prop_named new (str_hash new) (dbpriv_new_propdef new) = true.
Proof.
  intros Hn. unfold prop_named, dbpriv_new_propdef. cbn [pd_hash pd_name]. rewrite Z.eqb_refl. cbn [andb]. apply Z.eqb_eq.
  by apply strcasecmp_zero.
Qed.

Lemma ptable_cstr : Forall (fun e => is_cstr (fst e)) ptable.
Proof. repeat constructor. Qed.
Lemma find_builtin_case old new : is_cstr old -> is_cstr new -> strcasecmp old new = 0 -> find_builtin new = find_builtin old.
Proof.
  intros Ho Hn E. apply strcasecmp_zero in E; [|done..]. unfold find_builtin. f_equal. rewrite (str_hash_tolower _ _ E).
  pose proof ptable_cstr as Hc. induction ptable as [|e es IH]; [done|]. apply Forall_cons in Hc as [He Hes]. cbn [List.find].
  assert ((strcasecmp new (fst e) =? 0) = (strcasecmp old (fst e) =? 0)) as ->.
  { apply eq_iff_eq_true. rewrite !Z.eqb_eq, !strcasecmp_zero by done. by rewrite E. }
  destruct (_ && _); [done|]. by apply IH.
Qed.

Lemma find_def_split pname h defs k : find_def pname h defs = Some k <->
  exists ds1 d ds2, defs = ds1 ++ d :: ds2 /\ k = length ds1 /\ prop_named pname h d = true /\ Forall (fun q => prop_named pname h q = false) ds1.
Proof.
  revert k. induction defs as [|q defs IH]; intros k; cbn [find_def].
  - split; [done|]. intros ([|] & ? & ? & ? & _); done.
  - destruct (prop_named pname h q) eqn:Eq.
    + split; [intros [= <-]; by exists [], q, defs|]. intros ([|d0 ds1] & d & ds2 & [= -> ->] & -> & Hd & HF); [done|].
      apply Forall_cons in HF as [HF _]. congruence.
    + split.
      * intros H. destruct (find_def pname h defs) as [j|]; [|done]. injection H as <-.
        destruct (proj1 (IH j) eq_refl) as (ds1 & d & ds2 & -> & -> & Hd & HF). exists (q :: ds1), d, ds2. split_and!; try done. by constructor.
      * intros ([|d0 ds1] & d & ds2 & [= -> ->] & -> & Hd & HF); [congruence|]. apply Forall_cons in HF as [_ HF].
        rewrite (proj2 (IH (length ds1))); [done|]. by exists ds1, d, ds2.
Qed.

(** The new name of a definition denotes that definition. *)
Lemma find_renamed old new defs k : is_cstr old -> is_cstr new -> Forall propdef_ok defs ->
  find_def old (str_hash old) defs = Some k ->
  strcasecmp old new = 0 \/ existsb (prop_named new (str_hash new)) defs <> true ->
  find_def new (str_hash new) (<[k := dbpriv_new_propdef new]> defs) = Some k.
Proof.
  intros Ho Hn Hok Hk Hor. apply find_def_split in Hk as (ds1 & d & ds2 & -> & -> & Hd & HF).
  rewrite insert_app_r_alt by lia. rewrite Nat.sub_diag. apply find_def_split. exists ds1, (dbpriv_new_propdef new), ds2.
  split; [done|]. split; [done|]. split; [by apply prop_named_new|]. apply Forall_app in Hok as [Hok _].
  apply Forall_forall. intros q Hq. rewrite Forall_forall in HF, Hok. destruct Hor as [E|E].
  - rewrite (prop_named_case old) by auto. by apply HF.
  - destruct (prop_named new (str_hash new) q) eqn:Eq; [|done]. destruct E. rewrite existsb_app. apply orb_true_iff. left.
    apply existsb_exists. exists q. split; [by apply list_elem_of_In|done].
Qed.

(** ** Owner and flags of one slot *)

Definition with_info (who flags : Z) (pv : Pval) : Pval := mk_Pval (pv_var pv) who flags.

Lemma set_owner_flags_ok s v l o pname a i n who flags : props_ok s -> holder (base s) v l o ->
  find_slot s (line_of (base s) l o) pname = Some (a, i, n) ->
  exists s', (db_set_property_owner (PropSlot a l n) who ;; db_set_property_flags (PropSlot a l n) flags ;; mreturn E_NONE) s = Some (E_NONE, s') /\
    props_ok s' /\ base s' = base s /\ (forall b, defs_at s' b = defs_at s b) /\
    forall m om b j, obj_heap (base s) !! m = Some om ->
      slot_of s' m om b j = if decide (m = l /\ b = a /\ j = i) then with_info who flags <$> slot_of s m om b j else slot_of s m om b j.
Proof.
  intros Hok Hh Ef. destruct (found_slot s v l o pname a i n Hok Hh Ef) as (p & pv & k & Hp & Hpv & Hs & Hk & -> & Hi & _).
  set (f := fun pv => mk_Pval (pv_var pv) who (pv_perms pv)). set (g := fun pv => mk_Pval (pv_var pv) (pv_owner pv) flags).
  set (s1 := set_slot s l (k + i) f). set (s2 := set_slot s1 l (k + i) g).
  assert (props s1 !! l = Some (with_propval (alter f (k + i)%nat (propval p)) p)) as Hp1.
  { unfold s1. by rewrite set_slot_props, decide_True, Hp. }
  assert (props_ok s1) as Hok1 by (eapply set_slot_ok; [done|exact Hh|by left]).
  exists s2. unfold db_set_property_owner, db_set_property_flags. split.
  { erewrite mbind_Some by (by eapply update_slot_eq).
    erewrite mbind_Some by (eapply update_slot_eq; [exact Hp1|cbn [propval with_propval]; by rewrite list_lookup_alter_eq, Hpv]). done. }
  split; [eapply set_slot_ok; [done|exact Hh|by left]|]. split; [done|].
  split; [intros b; unfold s2, s1; by rewrite !set_slot_defs|]. intros m om b j Hm.
  unfold s2. rewrite (set_slot_of s1 v l o a i k g m om b j Hok1 Hh); [|unfold s1; by rewrite set_slot_offset|unfold ndefs, s1; by rewrite set_slot_defs|done].
  unfold s1. rewrite (set_slot_of s v l o a i k f m om b j Hok Hh Hk Hi Hm). destruct (decide _); [|done].
  by destruct (slot_of s m om b j).
Qed.

(** ** [set_prop_info] *)

(** The error that the arguments deserve, in the order of the tests *)
Definition info_error (s : pdb) (pname : bytes) (info : Var) (progr : Z) (l : loc) (o : Object) (e : error) : Prop :=
  match validate_prop_info (base s) info with
  | inr e' => e = e'
  | inl (who, _, new_name) =>
    match find_builtin pname, find_slot s (line_of (base s) l o) pname with
    | None, Some (a, i, _) =>
      exists pv, slot_of s l o a i = Some pv /\
        if negb (slot_allows (base s) pv progr PF_WRITE) || (negb (is_wizard (base s) progr) && negb (pv_owner pv =? who)) then e = E_PERM
        else match new_name with
             | None => False
             | Some new => (a <> l \/ strcasecmp pname new <> 0 /\ name_taken s l o new) /\ e = E_INVARG
             end
    | _, _ => e = E_PROPNF
    end
  end.

(** The definitions after it *)
Definition renamed_defs (s : pdb) (l : loc) (i : nat) (new_name : option bytes) (b : loc) : list Propdef :=
  match new_name with
  | Some new => if decide (b = l) then <[i := dbpriv_new_propdef new]> (defs_at s l) else defs_at s b
  | None => defs_at s b
  end.

Lemma find_slot_here s l ls pname a i n : find_slot s (l :: ls) pname = Some (a, i, n) -> l ∉ ls ->
  find_def pname (str_hash pname) (defs_at s l) = if decide (a = l) then Some i else None.
Proof.
  cbn [find_slot]. intros H Hl. destruct (find_def pname (str_hash pname) (defs_at s l)) as [j|] eqn:Ej.
  - injection H as -> -> ->. by rewrite decide_True.
  - destruct (find_slot s ls pname) as [[[a' i'] n']|] eqn:E; [|done]. simpl in H. injection H as -> -> <-.
    rewrite decide_False; [done|]. intros ->. destruct (find_slot_inv _ _ _ _ _ _ E) as (k & Hk & _).
    by rewrite offset_in_none in Hk.
Qed.

(** After a renaming, the new name denotes the renamed property, and no slot
    has changed. *)
Lemma renamed_ok s s' x l o old new k max' :
  props_ok s -> holder (base s) (VObj x) l o -> is_cstr old -> is_cstr new -> Z.of_nat (ndefs s l) <= max' ->
  find_builtin old = None -> find_def old (str_hash old) (defs_at s l) = Some k -> ~ (strcasecmp old new <> 0 /\ name_taken s l o new) ->
  spliced s s' l (<[k := dbpriv_new_propdef new]> (defs_at s l)) max' (fun _ _ seg => seg) ->
  props_ok s' /\ find_builtin new = None /\ find_slot s' (line_of (base s') l o) new = Some (l, k, k) /\
  (forall v m om, holder (base s) v m om -> defs_at s' m = renamed_defs s l k (Some new) m) /\
  forall v m om b j, holder (base s) v m om -> slot_of s' m om b j = slot_of s m om b j.
Proof.
  intros Hok Hh Ho Hn Hmax Hbo Hk Hnt Hsp. destruct (po_slots s Hok _ _ _ Hh) as (p & Hp & Hs).
  assert (forall (m : loc) (om : Object) (seg : list Pval), length seg = ndefs s l ->
    length seg = length (<[k := dbpriv_new_propdef new]> (defs_at s l))) as Hlen by (intros m om seg Hseg; by rewrite length_insert).
  assert (strcasecmp old new = 0 \/ ~ name_taken s l o new) as Hor.
  { destruct (decide (strcasecmp old new = 0)) as [E|E]; [by left|right; tauto]. }
  pose proof (spliced_defs s s' l _ max' _ Hok Hsp) as Hdefs. split; [by eapply rename_spliced_ok|]. split.
  { destruct Hor as [E|E]; [by rewrite (find_builtin_case old new)|]. unfold name_taken in E. destruct (find_builtin new); [|done].
    exfalso. apply E. left. by eexists. }
  split; [|split].
  - unfold line_of. cbn [find_slot]. rewrite (Hdefs _ _ _ Hh), decide_True by done.
    rewrite (find_renamed old new _ k Ho Hn); [done| |done|].
    + rewrite (defs_at_eq s l p Hp). apply Hs.
    + destruct Hor as [E|E]; [by left|right]. intros Hd. apply E. right. exists l. split; [left; by left|exact Hd].
  - intros v m om Hm. rewrite (Hdefs v m om Hm). done.
  - intros v m om b j Hm. destruct (decide (b = l)) as [->|Hb]; [|by apply (spliced_other s s' l _ max' _ x o Hok Hsp Hh Hlen v m om b j Hm)].
    destruct (decide (l ∈ line_of (base s) m om)) as [Hin|Hout].
    + destruct (spliced_root s s' l _ max' _ x o Hok Hsp Hh Hlen v m om Hm Hin) as (seg & _ & H1 & H2). by rewrite H1, H2.
    + unfold slot_of. rewrite (spliced_line s s' l _ max' _ Hok Hsp), !offset_in_none by done.
      by destruct (props s' !! m), (props s !! m).
Qed.

Definition info_cstr (info : Var) : Prop := match info with VList [_; _; VStr new] => is_cstr new | _ => True end.
Lemma validate_cstr d info who flags new : info_cstr info -> validate_prop_info d info = inl (who, flags, Some new) -> is_cstr new.
Proof.
  unfold validate_prop_info. intros H E. repeat case_match; simplify_eq; done.
Qed.

Lemma validate_error d info : validate_prop_info d info <> inr E_NONE.
Proof. unfold validate_prop_info. repeat case_match; done. Qed.

(** The property found, the write permission held: what the rest does *)
Lemma info_written s s1 x l o pname a i n who flags :
  props_ok s -> holder (base s) (VObj x) l o -> recached s s1 -> find_slot s (line_of (base s) l o) pname = Some (a, i, n) ->
  exists s', (db_set_property_owner (PropSlot a l n) who ;; db_set_property_flags (PropSlot a l n) flags ;; mreturn E_NONE) s1 = Some (E_NONE, s') /\
    props_ok s' /\ base s' = base s1 /\ (forall b, defs_at s' b = defs_at s b) /\
    forall v m om b j, holder (base s) v m om ->
      slot_of s' m om b j = if decide (m = l /\ b = a /\ j = i) then with_info who flags <$> slot_of s m om b j else slot_of s m om b j.
Proof.
  intros Hok Hh Hrc Ef. destruct (find_recached s s1 pname _ l o Hok Hrc Hh) as [Ef1 Hh1]. rewrite Ef in Ef1.
  destruct (set_owner_flags_ok s1 _ l o pname a i n who flags (recached_ok _ _ Hrc Hok) Hh1 Ef1) as (s' & E & Hok' & Eb & Hd & Hs).
  exists s'. split; [exact E|]. split; [exact Hok'|]. split; [exact Eb|]. split.
  - intros b. rewrite Hd. by destruct Hrc as (c & _ & ->).
  - intros v m om b j Hm. rewrite Hs by (destruct Hrc as (c & _ & ->); exact (holder_heap _ _ _ _ Hm)).
    by rewrite (slot_of_recached s s1).
Qed.

Lemma name_taken_recached s s' l o pname : props_ok s -> recached s s' -> name_taken s' l o pname <-> name_taken s l o pname.
Proof.
  intros Hok Hrc. unfold name_taken. setoid_rewrite (inheritor_recached s _ _ _ _ (props_frame s Hok) Hrc).
  pose proof Hrc as (c & _ & ->). cbn [base with_base]. rewrite line_of_cache by (apply (ok_table _ (po_db s Hok))). done.
Qed.

Lemma set_prop_info_ok last_move fuel s x l o pname info progr :
  props_ok s -> holder (base s) (VObj x) l o -> is_cstr pname -> info_cstr info -> (walk_fuel (base s) <= fuel)%nat ->
  exists s' e, set_prop_info last_move fuel (VObj x) pname info progr s = Some (e, s') /\ props_ok s' /\
    ((e <> E_NONE /\ info_error s pname info progr l o e /\ recached s s') \/
     e = E_NONE /\ (forall e', ~ info_error s pname info progr l o e') /\
     exists who flags new_name a i n, validate_prop_info (base s) info = inl (who, flags, new_name) /\
       find_builtin pname = None /\ find_slot s (line_of (base s) l o) pname = Some (a, i, n) /\
       (forall v m om, holder (base s) v m om -> defs_at s' m = renamed_defs s l i new_name m) /\
       forall v m om b j, holder (base s) v m om ->
         slot_of s' m om b j = if decide (m = l /\ b = a /\ j = i) then with_info who flags <$> slot_of s m om b j else slot_of s m om b j).
Proof.
  intros Hok Hh Hn Hi Hfu. assert (Hvx : valid (base s) x = true) by (by eapply object_valid, holder_object_of).
  pose proof (recached_refl s (props_frame s Hok)) as Hrefl.
  unfold set_prop_info, info_error. erewrite mbind_Some by (rewrite lift_valid; rewrite Hvx; reflexivity). cbn [negb]. cbv beta.
  destruct (validate_prop_info (base s) info) as [[[who flags] new_name]|e] eqn:Ev.
  2:{ exists s, e. split; [done|]. split; [done|]. left. split; [|done]. intros ->. exact (validate_error _ _ Ev). }
  destruct (db_find_property_ok last_move fuel s (VObj x) l o pname false Hok Hh Hfu) as (s1 & [h w] & Hrc & E & Hfound).
  erewrite mbind_Some by exact E. cbv beta iota. pose proof (recached_ok _ _ Hrc Hok) as Hok1. unfold found in Hfound.
  destruct (find_builtin pname) as [bp|] eqn:Eb; [injection Hfound as -> _; exists s1, E_PROPNF; split; [done|]; split; [done|]; by left|].
  destruct (find_slot s (line_of (base s) l o) pname) as [[[a i] n]|] eqn:Ef.
  2:{ injection Hfound as -> _. exists s1, E_PROPNF. split; [done|]. split; [done|]. by left. }
  destruct Hfound as (_ & _ & _ & [= -> _]). cbn [handle_found negb db_is_property_built_in orb].
  destruct (find_recached s s1 pname _ l o Hok Hrc Hh) as [Ef1 Hh1]. rewrite Ef in Ef1.
  destruct (found_slot s1 _ l o pname a i n Hok1 Hh1 Ef1) as (p & pv & k & Hp & Hpv & Hs & Hk & -> & Hib & _).
  rewrite (slot_of_recached s s1) in Hs by done.
  erewrite mbind_Some by (by eapply property_allows_eq). unfold db_property_owner, handle_slot.
  erewrite mbind_Some by (erewrite mbind_Some by (by eapply read_slot_eq); reflexivity). cbv beta.
  assert (slot_allows (base s1) pv progr PF_WRITE = slot_allows (base s) pv progr PF_WRITE /\ is_wizard (base s1) progr = is_wizard (base s) progr) as [-> ->]
    by (by destruct Hrc as (c & _ & ->)).
  destruct (negb (slot_allows (base s) pv progr PF_WRITE) || _) eqn:Ea.
  { exists s1, E_PERM. split; [done|]. split; [done|]. left. split; [done|]. split; [|done]. exists pv. split; [done|]. by rewrite Ea. }
  destruct new_name as [new|].
  2:{ erewrite mbind_Some by done. destruct (info_written s s1 x l o pname a i _ who flags Hok Hh Hrc Ef) as (s' & E' & Hok' & _ & Hd & Hsl).
      exists s', E_NONE. split; [exact E'|]. split; [exact Hok'|]. right. split; [done|].
      split; [intros e' (pv' & Hpv' & H); rewrite Hs in Hpv'; injection Hpv' as <-; by rewrite Ea in H|].
      exists who, flags, None, a, i, (k + i)%nat. by split_and!. }
  pose proof (validate_cstr _ _ _ _ _ Hi Ev) as Hnew. assert ((walk_fuel (base s1) <= fuel)%nat) as Hfu1 by (by destruct Hrc as (c & _ & ->)).
  pose proof (db_rename_propdef_ok last_move fuel s1 x l o pname new Hok1 Hh1 Hfu1) as Hren.
  assert (find_def pname (str_hash pname) (defs_at s1 l) = if decide (a = l) then Some i else None) as Ed.
  { eapply find_slot_here; [exact Ef1|]. by pose proof (NoDup_line _ _ _ _ (po_db s1 Hok1) Hh1) as [? _]%NoDup_cons. }
  rewrite Ed in Hren.
  assert (forall e', (exists pv', slot_of s l o a i = Some pv' /\
      if negb (slot_allows (base s) pv' progr PF_WRITE) || (negb (is_wizard (base s) progr) && negb (pv_owner pv' =? who)) then e' = E_PERM
      else (a <> l \/ strcasecmp pname new <> 0 /\ name_taken s l o new) /\ e' = E_INVARG) <->
    (a <> l \/ strcasecmp pname new <> 0 /\ name_taken s l o new) /\ e' = E_INVARG) as Herr.
  { intros e'. split; [intros (pv' & Hpv' & H); rewrite Hs in Hpv'; injection Hpv' as <-; by rewrite Ea in H|].
    intros H. exists pv. by rewrite Ea. }
  setoid_rewrite Herr. clear Herr. destruct (decide (a = l)) as [->|Hal].
  2:{ erewrite mbind_Some by (erewrite mbind_Some by exact Hren; reflexivity). exists s1, E_INVARG. split; [done|]. split; [done|]. left.
      split; [done|]. split; [|done]. split; [by left|done]. }
  destruct Hren as (s2 & b & Eren & Hb & Hs2). destruct b.
  2:{ erewrite mbind_Some by (erewrite mbind_Some by exact Eren; reflexivity).
      exists s2, E_INVARG. split; [done|]. split; [by eapply recached_ok|]. left. split; [done|].
      split; [|eapply recached_trans; [exact Hrc|exact Hs2]]. split; [right|done].
      destruct (proj1 Hb eq_refl) as [H1 H2]. split; [exact H1|by apply (name_taken_recached s s1 l o new Hok Hrc)]. }
  assert (~ (strcasecmp pname new <> 0 /\ name_taken s1 l o new)) as Hnt by (intros H%Hb; discriminate H).
  destruct Hs2 as (max' & Hmax & Hsp).
  assert (find_def pname (str_hash pname) (defs_at s1 l) = Some i) as Edi by exact Ed.
  destruct (renamed_ok s1 s2 x l o pname new i max' Hok1 Hh1 Hn Hnew Hmax Eb Edi Hnt Hsp) as (Hok2 & Ebn & Efn & Hd2 & Hs2).
  assert (holder (base s2) (VObj x) l o /\ (walk_fuel (base s2) <= fuel)%nat) as [Hh2 Hfu2].
  { destruct (sp_base _ _ _ _ _ _ Hsp) as (c & _ & ->). split; [by apply holder_cache|exact Hfu1]. }
  destruct (db_find_property_ok last_move fuel s2 (VObj x) l o new false Hok2 Hh2 Hfu2) as (s3 & [h2 w2] & Hrc3 & E3 & Hfound).
  unfold found in Hfound. rewrite Ebn, Efn in Hfound. destruct Hfound as (_ & _ & _ & [= -> _]).
  erewrite mbind_Some.
  2:{ erewrite mbind_Some by exact Eren. cbn [negb]. by erewrite mbind_Some by exact E3. }
  destruct (info_written s2 s3 x l o new l i i who flags Hok2 Hh2 Hrc3 Efn) as (s' & E' & Hok' & _ & Hd & Hsl).
  exists s', E_NONE. split; [exact E'|]. split; [exact Hok'|]. right. split; [done|]. split.
  { intros e' [[Hc|[H1 H2]] _]; [done|]. apply Hnt. split; [exact H1|]. by apply (name_taken_recached s s1 l o new Hok Hrc). }
  exists who, flags, (Some new), l, i, (k + i)%nat. split; [done|]. split; [done|]. split; [done|].
  assert (forall v m om, holder (base s) v m om -> holder (base s1) v m om /\ holder (base s2) v m om) as Hhold.
  { intros v m om Hm. assert (holder (base s1) v m om) as Hm1 by (destruct Hrc as (c & _ & ->); by apply holder_cache). split; [done|].
    by apply (spliced_holder s1 s2 l _ max' _ Hsp). }
  split.
  - intros v m om Hm. rewrite Hd, (Hd2 v m om) by (by eapply Hhold). by destruct Hrc as (c & _ & ->).
  - intros v m om b j Hm. rewrite (Hsl v m om b j) by (by eapply Hhold). rewrite (Hs2 v m om b j) by (by eapply Hhold).
    by rewrite (slot_of_recached s s1).
Qed.
