(* ===== verification/PropVM.v ===== *)
(** * Reading and writing properties from programs (execute.cc), and the
    server options (server.cc)

    [op_get_prop] and [op_put_prop] are the [OP_GET_PROP] and [OP_PUT_PROP]
    cases of [run], from the operands to the value pushed or the error raised;
    [get_server_option] is the lookup of an option in the database.  Waifs are
    not modelled: the operations give no result on one. *)
From Stdlib Require Import ZArith Lia.
From stdpp Require Import prelude gmap relations strings.
From stdpp Require Import prelude gmap strings.
From S2P Require Import Prelude CString Value ObjCode ObjGraph ObjParents ObjChange ObjMake PropCode PropSpec PropFind PropSplice ObjFun.

(** ** Changing a field of one object

    A change of an object's name, owner or flags leaves the properties in
    order, and every lookup as it was. *)
Local Open Scope Z_scope.
Local Open Scope moo_scope.

Definition set_field (s : pdb) (l : loc) (f : Object -> Object) : pdb :=
  with_base (with_heap (alter f l (obj_heap (base s))) (base s)) s.

Lemma update_field s l o f : obj_heap (base s) !! l = Some o -> lift (update l f) s = Some (tt, set_field s l f).
Proof.
  intros Ho. erewrite lift_eq by (unfold update; by rewrite Ho). unfold set_field. do 3 f_equal. f_equal.
  apply map_eq. intros m. destruct (decide (m = l)) as [->|Hm].
  - by rewrite lookup_insert_eq, lookup_alter_eq, Ho.
  - by rewrite lookup_insert_ne, lookup_alter_ne.
Qed.

Section field.
Context (s : pdb) (v : Var) (l : loc) (o : Object) (f : Object -> Object).
Hypothesis Hok : props_ok s.
Hypothesis Hh : holder (base s) v l o.
Hypothesis Hf : forall p, same_links p (f p).
Local Notation d := (base s).
Local Notation d' := (base (set_field s l f)).

Lemma field_lookup m : obj_heap d' !! m = (if decide (m = l) then f <$> obj_heap d !! m else obj_heap d !! m).
Proof. cbn. destruct (decide (m = l)) as [->|Hm]; [by rewrite lookup_alter_eq|by rewrite lookup_alter_ne]. Qed.
Lemma field_find x : dbpriv_find_object d' x = dbpriv_find_object d x.
Proof. done. Qed.

(** As an edit of the permanent objects: the object itself, or none *)
Definition field_edit (x : Z) (p : Object) : Object := if decide (dbpriv_find_object d x = Some l) then f p else p.
Lemma field_edited : edited d d' field_edit.
Proof using.
  clear. split; try done.
  - intros x. unfold object_of, field_edit. rewrite field_find. destruct (dbpriv_find_object d x) as [m|]; [|done]. cbn [mbind option_bind].
    rewrite field_lookup. destruct (obj_heap d !! m); [|by case_decide]. destruct (decide (m = l)) as [->|Hm]; cbn.
    + by rewrite decide_True.
    + by rewrite decide_False by congruence.
  - intros m. rewrite field_lookup. destruct (decide (m = l)); [by rewrite fmap_is_Some|done].
Qed.
Lemma field_links x p : same_links p (field_edit x p).
Proof using Hf. unfold field_edit. by case_decide. Qed.

Lemma field_valid x : valid d' x = valid d x.
Proof. done. Qed.
Lemma field_anonymous m p q : parents p = parents q -> anonymous d m p <-> anonymous d' m q.
Proof using. unfold anonymous, parents_wf. intros ->. done. Qed.
Lemma field_same p m : parents (if decide (m = l) then f p else p) = parents p.
Proof using Hf. case_decide; [apply Hf|done]. Qed.
Lemma field_holder w m q : holder d' w m q <-> exists p, holder d w m p /\ q = if decide (m = l) then f p else p.
Proof using Hf.
  split.
  - destruct 1 as [x m q Hl Hq|m q Ha Hq]; rewrite field_lookup in Hq.
    + destruct (decide (m = l)); [destruct (obj_heap d !! m) as [p|] eqn:E; [injection Hq as <-|done]; exists p|exists q]; (split; [by apply holder_obj|done]).
    + destruct (decide (m = l)); [destruct (obj_heap d !! m) as [p|] eqn:E; [injection Hq as <-|done]; exists p|exists q]; (split; [|done]);
        (apply holder_anon; [|done]); [apply (field_anonymous m p (f p)); [symmetry; apply Hf|done]|done].
  - intros (p & Hp' & ->). destruct Hp' as [x m p Hl Hq|m p Ha Hq].
    + apply holder_obj; [done|]. rewrite field_lookup, Hq. by case_decide.
    + apply holder_anon; [|rewrite field_lookup, Hq; by case_decide]. apply (field_anonymous m p _); [symmetry; apply field_same|done].
Qed.

Lemma field_above p q : parents p = parents q -> above d' q = above d p.
Proof using Hok Hf.
  intros Hp. unfold above, ancestors_list, walk_fuel. do 2 f_equal. symmetry. pose proof (ok_table _ (po_db s Hok)) as Hti.
  pose proof field_edited as Hed.
  assert (forall fs, same_above d d' (fun y => is_Some (object_of d y)) fs) as Hs.
  { intros fs z _. split; [done|]. intros Hv. by apply valid_object; [apply Hti|]. }
  apply (db2_add_frame parents d d' (fun y => is_Some (object_of d y))); [|done|apply Hs].
  intros y [r Hr]. eexists _, _. split; [exact Hr|]. rewrite (ed_of _ _ _ Hed), Hr. split; [done|].
  split; [by rewrite (sl_parents _ _ (field_links y r))|apply Hs].
Qed.
Lemma field_line m p q : parents p = parents q -> line_of d' m q = line_of d m p.
Proof using Hok Hf. intros Hp. unfold line_of. by rewrite (field_above p q). Qed.

Lemma field_offset ls a : offset_in (set_field s l f) ls a = offset_in s ls a.
Proof using. clear. induction ls as [|b ls IH]; [done|]. cbn [offset_in]. by rewrite IH. Qed.
Lemma field_slot_of m p a k : slot_of (set_field s l f) m (if decide (m = l) then f p else p) a k = slot_of s m p a k.
Proof using Hok Hf.
  unfold slot_of. rewrite (field_line m p) by (symmetry; apply field_same). by rewrite field_offset.
Qed.

Lemma field_props_ok : props_ok (set_field s l f).
Proof using Hok Hh Hf.
  pose proof Hok as [H1 H2 H3]. split.
  - eapply edited_ok; [apply field_edited|apply field_links|done].
  - intros x st m Hx Hm. destruct (H2 x st m Hx Hm) as (p & Hp & Ha & Hxp). exists (if decide (m = l) then f p else p).
    split; [rewrite field_lookup, Hp; by case_decide|]. rewrite field_same. split; [|done].
    apply (field_anonymous m p _); [symmetry; apply field_same|done].
  - intros w m q (p & Hp & ->)%field_holder. destruct (H3 w m p Hp) as (r & Hr & [A1 A2 A3 A4]). exists r. split; [done|].
    split; [|done..]. rewrite (field_line m p) by (symmetry; apply field_same). exact A1.
Qed.
End field.

Local Open Scope Z_scope.
Local Open Scope moo_scope.

#[export] Instance bi_prop_eq_dec : EqDecision bi_prop.
Proof. solve_decision. Defined.

Section vm.
Context (last_move : loc -> Var) (fuel : nat).

(** ** Server options *)

Definition SYSTEM_OBJECT : Z := 0.

(** [db_find_property(obj, name, r).ptr], with the value in [r] *)
Definition find_value (obj : Var) (name : bytes) : M pdb (option Var) :=
  let! (h, v) := db_find_property last_move fuel obj name true in
  mreturn (match h with PropNone => None | _ => v end).
Definition find_value_if_valid (oid : Z) (name : bytes) : M pdb (option Var) := fun s =>
  (if valid (base s) oid then find_value (VObj oid) name else mreturn None) s.

Definition get_server_option (oid : Z) (name : bytes) : M pdb (option Var) :=
  let! own := find_value_if_valid oid (str "server_options") in
  let! options := (match own with
                   | Some r => mreturn (Some r)
                   | None => find_value_if_valid SYSTEM_OBJECT (str "server_options")
                   end) in
  match options with
  | Some (VObj r) => find_value_if_valid r name
  | _ => mreturn None
  end.
Definition server_flag_option (name : bytes) (defallt : bool) : M pdb bool :=
  let! v := get_server_option SYSTEM_OBJECT name in
  mreturn (match v with Some v => is_true v | None => defallt end).
Definition server_int_option (name : bytes) (defallt : Z) : M pdb Z :=
  let! v := get_server_option SYSTEM_OBJECT name in
  mreturn (match v with Some (VInt n) => n | _ => defallt end).

(** The part of [load_server_options] that caches, for each built-in
    property, whether only wizards may use it *)
Fixpoint load_protect_options (properties : list (bytes * bi_prop)) (cache : bi_prop -> bool) : M pdb (bi_prop -> bool) :=
  match properties with
  | [] => mreturn cache
  | (property, bp) :: properties =>
    let! b := server_flag_option (str "protect_" ++ property) false in
    load_protect_options properties (fun q => if decide (q = bp) then b else cache q)
  end.

(** ** The instructions *)

Section instructions.
(** The cached option [protect_*] of a built-in property *)
Context (option_cached : bi_prop -> bool).

Definition bi_prop_protected (d : db) (built_in : bi_prop) (progr : Z) : bool := negb (is_wizard d progr) && option_cached built_in.

Definition push_error {A} (e : error) : M pdb (A + error) := mreturn (inr e).

Definition op_get_prop (obj propname : Var) (progr : Z) : M pdb (Var + error) :=
  match obj, propname with
  | VWaif _, VStr _ => mfail
  | _, VStr pname =>
    if negb (is_object obj) then push_error E_TYPE
    else
      let! v := lift (is_valid obj) in
      if negb v then push_error E_INVIND
      else
        let! (h, prop) := db_find_property last_move fuel obj pname true in
        match h, prop with
        | PropNone, _ => push_error E_PROPNF
        | PropBuiltin built_in _, Some prop => fun s =>
          Some (if bi_prop_protected (base s) built_in progr then inr E_PERM else inl prop, s)
        | PropSlot _ _ _, Some prop =>
          let! allowed := db_property_allows h progr PF_READ in
          mreturn (if allowed : bool then inl prop else inr E_PERM)
        | _, None => mfail
        end
  | _, _ => push_error E_TYPE
  end.

(** Whether the programmer may assign the value to a built-in property *)
Definition bi_put_error (d : db) (built_in : bi_prop) (obj : Var) (o : Object) (rhs : Var) (progr : Z) : error :=
  let theirs := bi_prop_protected d built_in progr || negb (progr =? owner o) in
  match built_in with
  | BP_NAME =>
    match rhs with
    | VStr _ =>
      if negb (is_wizard d progr) && (match obj with VObj x => is_user d x | _ => false end || theirs) then E_PERM else E_NONE
    | _ => E_TYPE
    end
  | BP_OWNER => match rhs with VObj _ => if negb (is_wizard d progr) then E_PERM else E_NONE | _ => E_TYPE end
  | BP_PROGRAMMER | BP_WIZARD =>
    if negb (is_wizard d progr) then E_PERM else match obj with VObj _ => E_NONE | _ => E_INVARG end
  | BP_R | BP_W | BP_F | BP_A => if negb (is_wizard d progr) && theirs then E_PERM else E_NONE
  | BP_LOCATION | BP_LAST_MOVE | BP_CONTENTS => E_PERM
  end.

Definition put_error (h : db_prop_handle) (obj rhs : Var) (progr : Z) : M pdb error :=
  match h with
  | PropNone => mreturn E_PROPNF
  | PropSlot _ _ _ => let! allowed := db_property_allows h progr PF_WRITE in mreturn (if allowed : bool then E_NONE else E_PERM)
  | PropBuiltin built_in l => let! o := lift (load l) in fun s => Some (bi_put_error (base s) built_in obj o rhs progr, s)
  end.

Definition op_put_prop (obj propname rhs : Var) (progr : Z) : M pdb (Var + error) :=
  match obj, propname with
  | VWaif _, VStr _ => mfail
  | _, VStr pname =>
    if negb (is_object obj) then push_error E_TYPE
    else
      let! v := lift (is_valid obj) in
      if negb v then push_error E_INVIND
      else
        let! (h, _) := db_find_property last_move fuel obj pname false in
        let! err := put_error h obj rhs progr in
        if decide (err = E_NONE) then db_set_property_value h rhs ;; mreturn (inl rhs) else push_error err
  | _, _ => push_error E_TYPE
  end.
End instructions.
End vm.
