(* ===== verification/PropAccess.v ===== *)
(** * Reading and writing properties: errors, effect and invariant

    [op_get_prop] and [op_put_prop] on a database whose slots are in order. *)
From Stdlib Require Import ZArith Lia.
From stdpp Require Import prelude gmap relations strings.
From S2P Require Import Prelude CString Value ObjCode ObjGraph ObjParents ObjChange ObjMake ObjFun ObjQuery PropCode PropSpec PropFind PropSplice PropEdit PropFun PropOps PropVM.

Local Open Scope Z_scope.
Local Open Scope moo_scope.

(** ** Validity of the object *)

Lemma holder_is_object d v l o : holder d v l o -> is_object v = true.
Proof. by destruct 1. Qed.
Lemma holder_not_waif d v l o : holder d v l o -> forall w, v <> VWaif w.
Proof. by destruct 1. Qed.
Lemma lift_usable s v l o : db_ok (base s) -> holder (base s) v l o -> lift (is_valid v) s = Some (usable v o, s).
Proof. intros Hok Hh. erewrite lift_eq by (by eapply is_valid_usable). by rewrite with_base_id. Qed.

(** ** Reading *)

Section access.
Context (last_move : loc -> Var) (fuel : nat) (option_cached : bi_prop -> bool).

(** What reading a property of the object [o] at [l] answers *)
Definition get_answer (s : pdb) (obj : Var) (l : loc) (o : Object) (pname : bytes) (progr : Z) (r : Var + error) : Prop :=
  if negb (usable obj o) then r = inr E_INVIND
  else match find_builtin pname with
       | Some bp => r = if bi_prop_protected option_cached (base s) bp progr then inr E_PERM else inl (get_bi_value last_move bp l o)
       | None =>
         match find_slot s (line_of (base s) l o) pname with
         | None => r = inr E_PROPNF
         | Some (a, i, _) => exists pv w, slot_of s l o a i = Some pv /\ effective s a i l w /\ w <> VClear /\
             r = if slot_allows (base s) pv progr PF_READ then inl w else inr E_PERM
         end
       end.

Lemma op_get_prop_ok s obj l o pname progr :
  props_ok s -> holder (base s) obj l o -> (walk_fuel (base s) <= fuel)%nat ->
  exists s' r, op_get_prop last_move fuel option_cached obj (VStr pname) progr s = Some (r, s') /\ recached s s' /\
    get_answer s obj l o pname progr r.
Proof.
  intros Hok Hh Hf. pose proof (recached_refl s (props_frame s Hok)) as Hrefl.
  unfold get_answer. assert (op_get_prop last_move fuel option_cached obj (VStr pname) progr s =
    (let! v := lift (is_valid obj) in
     if negb v then push_error E_INVIND else
     let! (h, prop) := db_find_property last_move fuel obj pname true in
     match h, prop with
     | PropNone, _ => push_error E_PROPNF
     | PropBuiltin built_in _, Some prop => fun s =>
       Some (if bi_prop_protected option_cached (base s) built_in progr then inr E_PERM else inl prop, s)
     | PropSlot _ _ _, Some prop =>
       let! allowed := db_property_allows h progr PF_READ in mreturn (if allowed : bool then inl prop else inr E_PERM)
     | _, None => mfail
     end) s) as -> by (by destruct Hh).
  erewrite mbind_Some by (by eapply lift_usable; [apply Hok|]).
  destruct (usable obj o); cbn [negb]; [|by exists s, (inr E_INVIND)].
  destruct (db_find_property_ok last_move fuel s obj l o pname true Hok Hh Hf) as (s1 & [h w] & Hrc & E & Hfound).
  erewrite mbind_Some by exact E. cbv beta iota. pose proof (recached_ok _ _ Hrc Hok) as Hok1. unfold found in Hfound.
  destruct (find_builtin pname) as [bp|].
  { injection Hfound as -> ->. eexists s1, _. split; [done|]. split; [done|]. by destruct Hrc as (c & _ & ->). }
  destruct (find_slot s (line_of (base s) l o) pname) as [[[a i] n]|] eqn:Ef; [|injection Hfound as -> _; by exists s1, (inr E_PROPNF)].
  destruct Hfound as (w' & Heff & Hnc & [= -> ->]).
  destruct (find_recached s s1 pname _ l o Hok Hrc Hh) as [Ef1 Hh1]. rewrite Ef in Ef1.
  destruct (found_slot s1 _ l o pname a i n Hok1 Hh1 Ef1) as (p & pv & k & Hp & Hpv & Hs & _).
  erewrite mbind_Some by (by eapply property_allows_eq). rewrite (slot_of_recached s s1) in Hs by done.
  eexists s1, _. split; [done|]. split; [done|]. exists pv, w'. split; [done|]. split; [done|]. split; [done|].
  by destruct Hrc as (c & _ & ->).
Qed.

(** ** Writing *)

(** Why writing is refused *)
Definition put_denied (s : pdb) (obj : Var) (l : loc) (o : Object) (pname : bytes) (rhs : Var) (progr : Z) (e : error) : Prop :=
  if negb (usable obj o) then e = E_INVIND
  else match find_builtin pname with
       | Some bp => e = bi_put_error option_cached (base s) bp obj o rhs progr /\ e <> E_NONE
       | None =>
         match find_slot s (line_of (base s) l o) pname with
         | None => e = E_PROPNF
         | Some (a, i, _) => exists pv, slot_of s l o a i = Some pv /\ slot_allows (base s) pv progr PF_WRITE = false /\ e = E_PERM
         end
       end.

(** The object with a built-in property assigned *)
Definition put_field (bp : bi_prop) (rhs : Var) (o : Object) : Object :=
  match bi_flag bp, bp, rhs with
  | Some flag, _, _ => if is_true rhs then dbpriv_set_object_flag flag o else dbpriv_clear_object_flag flag o
  | None, BP_NAME, VStr n => with_name n o
  | None, BP_OWNER, VObj x => with_owner x o
  | _, _, _ => o
  end.
Lemma put_field_links bp rhs o : same_links o (put_field bp rhs o).
Proof. unfold put_field. destruct bp; cbn [bi_flag]; first [done | destruct (is_true rhs); done | destruct rhs; done]. Qed.

Definition put_effect (s s' : pdb) (l : loc) (o : Object) (pname : bytes) (rhs : Var) : Prop :=
  match find_builtin pname with
  | Some bp => props s' = props s /\
      forall v m om, holder (base s') v m om <-> exists om0, holder (base s) v m om0 /\ om = if decide (m = l) then put_field bp rhs om0 else om0
  | None => exists a i n, find_slot s (line_of (base s) l o) pname = Some (a, i, n) /\ effective s' a i l rhs /\
      (exists c, base s' = with_cache c (base s)) /\ (forall b, defs_at s' b = defs_at s b) /\
      forall v m om b j, holder (base s) v m om ->
        slot_of s' m om b j =
          if decide (m = l /\ b = a /\ j = i) then (fun pv => mk_Pval rhs (pv_owner pv) (pv_perms pv)) <$> slot_of s m om b j
          else slot_of s m om b j
  end.

(** Assigning a slot *)
Lemma slot_written s s1 obj l o pname a i n rhs :
  props_ok s -> holder (base s) obj l o -> recached s s1 -> rhs <> VClear ->
  find_slot s (line_of (base s) l o) pname = Some (a, i, n) ->
  exists s', db_set_property_value (PropSlot a l n) rhs s1 = Some (tt, s') /\ props_ok s' /\ effective s' a i l rhs /\
    (exists c, base s' = with_cache c (base s)) /\ (forall b, defs_at s' b = defs_at s b) /\
    forall v m om b j, holder (base s) v m om ->
      slot_of s' m om b j =
        if decide (m = l /\ b = a /\ j = i) then (fun pv => mk_Pval rhs (pv_owner pv) (pv_perms pv)) <$> slot_of s m om b j
        else slot_of s m om b j.
Proof.
  intros Hok Hh Hrc Hr Ef. pose proof (recached_ok _ _ Hrc Hok) as Hok1.
  destruct (find_recached s s1 pname _ l o Hok Hrc Hh) as [Ef1 Hh1]. rewrite Ef in Ef1.
  destruct (found_slot s1 _ l o pname a i n Hok1 Hh1 Ef1) as (p & pv & k & Hp & Hpv & Hs & Hk & -> & Hi & _).
  set (f := fun pv => mk_Pval rhs (pv_owner pv) (pv_perms pv)). exists (set_slot s1 l (k + i) f).
  assert (props_ok (set_slot s1 l (k + i) f)) as Hok2 by (eapply set_slot_ok; [done|exact Hh1|by left]).
  split; [by eapply update_slot_eq|]. split; [done|]. split; [|split; [|split]].
  - change rhs with (pv_var (f pv)). eapply (eff_set _ _ _ obj l o (with_propval (alter f (k + i)%nat (propval p)) p) k).
    + exact Hh1.
    + by rewrite set_slot_props, decide_True, Hp.
    + cbn [base set_slot]. by rewrite set_slot_offset.
    + cbn [propval with_propval]. by rewrite list_lookup_alter_eq, Hpv.
    + exact Hr.
  - by destruct Hrc as (c & _ & ->); exists c.
  - intros b. rewrite set_slot_defs. by destruct Hrc as (c & _ & ->).
  - intros v m om b j Hm.
    rewrite (set_slot_of s1 obj l o a i k f m om b j Hok1 Hh1 Hk Hi) by (destruct Hrc as (c & _ & ->); exact (holder_heap _ _ _ _ Hm)).
    by rewrite (slot_of_recached s s1).
Qed.

(** Assigning a built-in property *)
Lemma field_written s obj l o bp rhs progr : props_ok s -> holder (base s) obj l o ->
  bi_put_error option_cached (base s) bp obj o rhs progr = E_NONE ->
  exists s', db_set_property_value (PropBuiltin bp l) rhs s = Some (tt, s') /\ props_ok s' /\ props s' = props s /\
    forall v m om, holder (base s') v m om <-> exists om0, holder (base s) v m om0 /\ om = if decide (m = l) then put_field bp rhs om0 else om0.
Proof.
  intros Hok Hh He. exists (set_field s l (put_field bp rhs)). pose proof (holder_heap _ _ _ _ Hh) as Ho. split.
  - unfold db_set_property_value. destruct bp; cbn [bi_flag bi_put_error] in *; try discriminate He;
      first [destruct rhs; try discriminate He; by rewrite (update_field s l o _ Ho)
            |rewrite (update_field s l o _ Ho); unfold put_field; cbn [bi_flag]; by destruct (is_true rhs)].
  - split; [by eapply field_props_ok; [..|apply put_field_links]|]. split; [done|].
    intros v m om. apply field_holder. apply put_field_links.
Qed.

Lemma op_put_prop_eq s obj l o pname rhs progr : props_ok s -> holder (base s) obj l o ->
  op_put_prop last_move fuel option_cached obj (VStr pname) rhs progr s =
  if negb (usable obj o) then Some (inr E_INVIND, s)
  else (let! (h, _) := db_find_property last_move fuel obj pname false in
        let! err := put_error option_cached h obj rhs progr in
        if decide (err = E_NONE) then db_set_property_value h rhs ;; mreturn (inl rhs) else push_error err) s.
Proof.
  intros Hok Hh. assert (op_put_prop last_move fuel option_cached obj (VStr pname) rhs progr s =
    (let! v := lift (is_valid obj) in
     if negb v then push_error E_INVIND else
     let! (h, _) := db_find_property last_move fuel obj pname false in
     let! err := put_error option_cached h obj rhs progr in
     if decide (err = E_NONE) then db_set_property_value h rhs ;; mreturn (inl rhs) else push_error err) s) as -> by (by destruct Hh).
  erewrite mbind_Some by (by eapply lift_usable; [apply Hok|]). by destruct (usable obj o).
Qed.

Lemma op_put_prop_ok s obj l o pname rhs progr :
  props_ok s -> holder (base s) obj l o -> rhs <> VClear -> (walk_fuel (base s) <= fuel)%nat ->
  exists s' r, op_put_prop last_move fuel option_cached obj (VStr pname) rhs progr s = Some (r, s') /\ props_ok s' /\
    ((exists e, r = inr e /\ put_denied s obj l o pname rhs progr e /\ recached s s') \/
     r = inl rhs /\ (forall e, ~ put_denied s obj l o pname rhs progr e) /\ put_effect s s' l o pname rhs).
Proof.
  intros Hok Hh Hr Hf. pose proof (recached_refl s (props_frame s Hok)) as Hrefl. rewrite (op_put_prop_eq s obj l o) by done.
  unfold put_denied, put_effect.
  destruct (usable obj o); cbn [negb]; [|exists s, (inr E_INVIND); split; [done|]; split; [done|]; left; by exists E_INVIND].
  destruct (db_find_property_ok last_move fuel s obj l o pname false Hok Hh Hf) as (s1 & [h w] & Hrc & E & Hfound).
  erewrite mbind_Some by exact E. cbv beta iota. pose proof (recached_ok _ _ Hrc Hok) as Hok1. unfold found in Hfound.
  destruct (find_builtin pname) as [bp|].
  - injection Hfound as -> _. unfold put_error. assert (holder (base s1) obj l o) as Hh1 by (destruct Hrc as (c & _ & ->); by apply holder_cache).
    erewrite mbind_Some by (erewrite mbind_Some by (by eapply lift_load, holder_heap); reflexivity).
    assert (bi_put_error option_cached (base s1) bp obj o rhs progr = bi_put_error option_cached (base s) bp obj o rhs progr) as He
      by (by destruct Hrc as (c & _ & ->)). rewrite He.
    destruct (decide (bi_put_error option_cached (base s) bp obj o rhs progr = E_NONE)) as [Hn|Hn].
    + rewrite Hn in He. destruct (field_written s1 obj l o bp rhs progr Hok1 Hh1 He) as (s' & E' & Hok' & Hp & Hb). erewrite mbind_Some by exact E'.
      exists s', (inl rhs). split; [done|]. split; [done|]. right. split; [done|]. split; [intros e [-> ?]; done|].
      split; [by destruct Hrc as (c & _ & ->)|]. intros v m om. rewrite Hb. destruct Hrc as (c & _ & ->).
      split; intros (om0 & Hm & ->); exists om0; (split; [by apply holder_cache in Hm || by apply holder_cache|done]).
    + eexists s1, (inr _). split; [done|]. split; [done|]. left. eexists. by split_and!.
  - destruct (find_slot s (line_of (base s) l o) pname) as [[[a i] n]|] eqn:Ef.
    2:{ injection Hfound as -> _. exists s1, (inr E_PROPNF). split; [done|]. split; [done|]. left. by exists E_PROPNF. }
    destruct Hfound as (_ & _ & _ & [= -> _]). unfold put_error.
    destruct (find_recached s s1 pname _ l o Hok Hrc Hh) as [Ef1 Hh1]. rewrite Ef in Ef1.
    destruct (found_slot s1 _ l o pname a i n Hok1 Hh1 Ef1) as (p & pv & k & Hp & Hpv & Hs & _).
    erewrite mbind_Some by (erewrite mbind_Some by (by eapply property_allows_eq); reflexivity).
    rewrite (slot_of_recached s s1) in Hs by done.
    assert (slot_allows (base s1) pv progr PF_WRITE = slot_allows (base s) pv progr PF_WRITE) as -> by (by destruct Hrc as (c & _ & ->)).
    destruct (slot_allows (base s) pv progr PF_WRITE) eqn:Ea.
    + rewrite decide_True by done. destruct (slot_written s s1 obj l o pname a i n rhs Hok Hh Hrc Hr Ef) as (s' & E' & Hok' & Heff & Hb & Hd & Hsl).
      erewrite mbind_Some by exact E'. exists s', (inl rhs). split; [done|]. split; [done|]. right. split; [done|]. split.
      * intros e (pv' & Hpv' & Hn & _). congruence.
      * by exists a, i, n.
    + rewrite decide_False by done. exists s1, (inr E_PERM). split; [done|]. split; [done|]. left. exists E_PERM. split; [done|].
      split; [|done]. by exists pv.
Qed.

(** ** Writing, then reading *)

Lemma find_slot_defs s s' ls pname : (forall b, defs_at s' b = defs_at s b) -> find_slot s' ls pname = find_slot s ls pname.
Proof. intros Hd. induction ls as [|b ls IH]; [done|]. cbn [find_slot]. unfold ndefs. by rewrite IH, Hd. Qed.

Lemma put_get_ok s obj l o pname rhs progr reader :
  props_ok s -> holder (base s) obj l o -> rhs <> VClear -> (walk_fuel (base s) <= fuel)%nat -> find_builtin pname = None ->
  (forall e, ~ put_denied s obj l o pname rhs progr e) ->
  exists s1 s2 pv a i n, op_put_prop last_move fuel option_cached obj (VStr pname) rhs progr s = Some (inl rhs, s1) /\
    find_slot s (line_of (base s) l o) pname = Some (a, i, n) /\ slot_of s l o a i = Some pv /\
    op_get_prop last_move fuel option_cached obj (VStr pname) reader s1 =
      Some (if slot_allows (base s) pv reader PF_READ then inl rhs else inr E_PERM, s2) /\ props_ok s2.
Proof.
  intros Hok Hh Hr Hf Hbi Hnd.
  destruct (op_put_prop_ok s obj l o pname rhs progr Hok Hh Hr Hf) as (s1 & r & E & Hok1 & [(e & _ & Hd & _)|(-> & _ & Heff)]); [by apply Hnd in Hd|].
  unfold put_effect in Heff. rewrite Hbi in Heff. destruct Heff as (a & i & n & Ef & Heff & (c & Ec) & Hdefs & Hsl).
  assert (holder (base s1) obj l o) as Hh1 by (rewrite Ec; by apply holder_cache).
  assert (line_of (base s1) l o = line_of (base s) l o) as El by (rewrite Ec; apply line_of_cache, (ok_table _ (po_db s Hok))).
  destruct (op_get_prop_ok s1 obj l o pname reader Hok1 Hh1) as (s2 & r & E2 & Hrc & Hans); [by rewrite Ec|].
  unfold get_answer in Hans. rewrite Hbi, El, (find_slot_defs s s1), Ef in Hans by done.
  destruct (usable obj o) eqn:Eu; cbn [negb] in Hans; [|exfalso; apply (Hnd E_INVIND); unfold put_denied; by rewrite Eu].
  destruct Hans as (pv1 & w & Hpv1 & Hw & _ & ->). rewrite (effective_det _ _ _ _ _ _ Hw Heff) in E2.
  rewrite (Hsl obj l o a i Hh), decide_True in Hpv1 by done. destruct (slot_of s l o a i) as [pv|] eqn:Epv; [|done]. injection Hpv1 as <-.
  exists s1, s2, pv, a, i, n. split; [done|]. split; [done|]. split; [done|]. split; [|by eapply recached_ok].
  rewrite E2. by rewrite Ec.
Qed.

(** ** What a programmer without the wizard flag may assign *)

(** The flags that no such assignment changes *)
Definition guarded_flags : list Z := [FLAG_USER; FLAG_PROGRAMMER; FLAG_WIZARD; FLAG_INVALID].

Record guarded (d : db) (progr : Z) (v : Var) (o o' : Object) : Prop := {
  gd_links : same_links o o';
  gd_owner : owner o' = owner o;
  gd_flags : forall f, f ∈ guarded_flags -> dbpriv_object_has_flag o' f = dbpriv_object_has_flag o f;
  gd_own : o' <> o -> owner o = progr;
  gd_player : name o' <> name o -> forall x, v = VObj x -> is_user d x = false }.

Lemma guarded_refl d progr v o : guarded d progr v o o.
Proof. by split. Qed.

Lemma put_field_guarded d bp obj o rhs progr : is_wizard d progr = false -> bi_put_error option_cached d bp obj o rhs progr = E_NONE ->
  guarded d progr obj o (put_field bp rhs o).
Proof.
  intros Hw He. unfold bi_put_error in He. rewrite Hw in He. cbn [negb andb] in He.
  assert (forall f, f <> FLAG_USER -> f <> FLAG_PROGRAMMER -> f <> FLAG_WIZARD -> f <> FLAG_INVALID -> 0 <= f -> owner o = progr ->
    guarded d progr obj o (if is_true rhs then dbpriv_set_object_flag f o else dbpriv_clear_object_flag f o)) as Hflag.
  { intros f H0 H1 H2 H3 Hf Ho. split; [by destruct (is_true rhs)|by destruct (is_true rhs)| |done|by destruct (is_true rhs)].
    intros g Hg. assert (f <> g /\ 0 <= g) as [Hne Hg0].
    { unfold guarded_flags in Hg. repeat (apply elem_of_cons in Hg as [->|Hg]; [split; [done|unfold FLAG_USER, FLAG_PROGRAMMER, FLAG_WIZARD, FLAG_INVALID; lia]|]).
      by apply elem_of_nil in Hg. }
    destruct (is_true rhs); [rewrite has_flag_set by done|rewrite has_flag_clear by done]; by rewrite (proj2 (Z.eqb_neq f g) Hne). }
  assert (forall b, (if bi_prop_protected option_cached d b progr || negb (progr =? owner o) then E_PERM else E_NONE) = E_NONE -> owner o = progr) as Hown.
  { intros b H. destruct (Z.eqb_spec progr (owner o)) as [E|E]; [done|]. by rewrite orb_true_r in H. }
  destruct bp; try discriminate He; try (apply Hflag; [discriminate..|exact (Hown _ He)]); destruct rhs; try discriminate He.
  split; try done.
  - intros _. apply (Hown BP_NAME). destruct (match obj with VObj x => is_user d x | _ => false end); [done|exact He].
  - intros _ x ->. by destruct (is_user d x).
Qed.

Lemma put_guarded s s' obj l o pname rhs progr r :
  props_ok s -> holder (base s) obj l o -> rhs <> VClear -> (walk_fuel (base s) <= fuel)%nat -> is_wizard (base s) progr = false ->
  op_put_prop last_move fuel option_cached obj (VStr pname) rhs progr s = Some (r, s') ->
  forall v m om, holder (base s) v m om -> exists om', holder (base s') v m om' /\ guarded (base s) progr v om om'.
Proof.
  intros Hok Hh Hr Hf Hw E v m om Hm.
  assert ((exists c, base s' = with_cache c (base s)) -> exists om', holder (base s') v m om' /\ guarded (base s) progr v om om') as Hcache.
  { intros (c & ->). exists om. split; [by apply holder_cache|apply guarded_refl]. }
  destruct (op_put_prop_ok s obj l o pname rhs progr Hok Hh Hr Hf) as (s2 & r2 & E2 & _ & H). rewrite E in E2. injection E2 as <- <-.
  destruct H as [(e & _ & _ & (c & _ & ->))|(_ & Hnd & Heff)]; [by apply Hcache; exists c|].
  unfold put_effect in Heff. destruct (find_builtin pname) as [bp|] eqn:Eb.
  2:{ destruct Heff as (a & i & n & _ & _ & Hc & _). by apply Hcache. }
  destruct Heff as [_ Heff]. exists (if decide (m = l) then put_field bp rhs om else om). split; [apply Heff; by exists om|].
  destruct (decide (m = l)) as [->|_]; [|apply guarded_refl].
  assert (om = o) as -> by (apply holder_heap in Hm, Hh; congruence).
  assert (bi_put_error option_cached (base s) bp obj o rhs progr = E_NONE) as He.
  { destruct (decide (bi_put_error option_cached (base s) bp obj o rhs progr = E_NONE)) as [He|He]; [done|]. exfalso.
    destruct (usable obj o) eqn:Eu.
    - apply (Hnd (bi_put_error option_cached (base s) bp obj o rhs progr)). unfold put_denied. by rewrite Eu, Eb.
    - apply (Hnd E_INVIND). unfold put_denied. by rewrite Eu. }
  assert (v = obj) as ->; [|by apply put_field_guarded].
  destruct Hm as [x l o Hx _|l o [Ha _] _], Hh as [y l o Hy _|l o [Hb _] _]; [|by destruct (Hb x)|by destruct (Ha y)|done].
  f_equal. eapply find_inj; [apply (ok_table _ (po_db s Hok))|done|done].
Qed.
End access.
