(* ===== verification/Properties.v ===== *)
(** * Properties: the theorems

    Lookup, the built-ins on properties and assignment, on a database whose
    slots are in order ([props_ok]), and that every one of them keeps the
    slots in order. *)
From Stdlib Require Import ZArith Lia.
From stdpp Require Import prelude gmap relations strings.
From S2P Require Import Prelude CString Value ObjCode ObjGraph ObjParents ObjChange ObjFun ObjTask Objects PropCode PropSpec PropFind PropSplice PropEdit PropFun PropOps PropInfo PropVM PropAccess.

Local Open Scope Z_scope.
Local Open Scope moo_scope.

(** ** A database to evaluate on *)

(** The objects of [world] without properties, and with a property [colour]
    of object 0, which 1, 2 and 3 inherit *)
Definition no_last_move (l : loc) : Var := VNone.
Definition bare : pdb := mk_pdb world ((fun _ => mk_Props [] 0 []) <$> obj_heap world).
Definition colour_info : Var := VList [VObj 0; VStr (str "rc")].
Definition coloured : pdb :=
  default bare (snd <$> db_add_propdef no_last_move 20 (VObj 0) (str "colour") (VStr (str "red")) 0 5 bare).
Definition slots_at (s : pdb) (x : Z) : list (Var * Z) :=
  match dbpriv_find_object (base s) x ≫= fun l => props s !! l with
  | Some p => (fun pv => (pv_var pv, pv_owner pv)) <$> propval p
  | None => []
  end.
Example coloured_slots : map (slots_at coloured) [0; 1; 2; 3] = [[(VStr (str "red"), 0)]; [(VClear, 0)]; [(VClear, 0)]; [(VClear, 0)]].
Proof. by vm_compute. Qed.

Lemma bare_ndefs a : ndefs bare a = O.
Proof. unfold ndefs, defs_at, bare. cbn [props]. rewrite lookup_fmap. by destruct (obj_heap world !! a). Qed.
Lemma bare_total ls : total bare ls = O.
Proof. induction ls as [|a ls IH]; [done|]. by rewrite total_cons, IH, bare_ndefs. Qed.
Lemma bare_ok : props_ok bare.
Proof.
  split; [exact world_ok| |].
  - intros x st l H _. assert (anonymous_objects world = ∅) as E by (by vm_compute). cbn [base bare] in H. rewrite E in H.
    rewrite lookup_empty in H. discriminate H.
  - intros v l o Hh%holder_heap. exists (mk_Props [] 0 []). split.
    + unfold bare in *. cbn [props base] in *. by rewrite lookup_fmap, Hh.
    + split; [by rewrite bare_total|done|constructor|]. intros k pv Hk. cbn in Hk. lia.
Qed.
Lemma world_holder x l o : dbpriv_find_object world x = Some l -> obj_heap world !! l = Some o -> holder world (VObj x) l o.
Proof. apply holder_obj. Qed.

Lemma colour_cstr : is_cstr (str "colour").
Proof. repeat constructor. Qed.
Lemma coloured_ok : props_ok coloured.
Proof.
  destruct (dbpriv_find_object world 0) as [l|] eqn:El; [|vm_compute in El; discriminate El].
  destruct (obj_heap world !! l) as [o|] eqn:Eo; [|vm_compute in El; injection El as <-; vm_compute in Eo; discriminate Eo].
  pose proof (world_holder 0 l o El Eo) as Hh.
  destruct (db_add_propdef_ok no_last_move 20 bare 0 l o (str "colour") (VStr (str "red")) 0 5 bare_ok Hh world_fuel) as (s' & b & E & _ & Hs).
  unfold coloured. rewrite E. cbn [fmap option_fmap option_map default snd]. destruct b; [|exact (recached_ok _ _ Hs bare_ok)].
  destruct Hs as (max' & Hmax & Hsp). refine (add_spliced_ok bare s' 0 l o _ _ _ _ max' bare_ok Hh colour_cstr _ Hmax Hsp). discriminate.
Qed.
Lemma coloured_fuel : (walk_fuel (base coloured) <= 20)%nat.
Proof. fuel_tac. Qed.

(** Object 2 of [coloured] *)
Ltac at_two l o El Eo :=
  destruct (dbpriv_find_object (base coloured) 2) as [l|] eqn:El; [|vm_compute in El; discriminate El];
  destruct (obj_heap (base coloured) !! l) as [o|] eqn:Eo; [|vm_compute in El; injection El as <-; vm_compute in Eo; discriminate Eo].

(** ** Lookup *)

(** C24: Looking up a property of any object, permanent or anonymous,
    terminates and changes nothing but the ancestor cache.  The names of the
    built-in properties denote fields of the object; any other name denotes
    the first definition of that name along the object and its ancestors, with
    the object's slot for it, and the value is the slot's or, through every
    slot that is clear, that of the first parent that inherits the property;
    it is never clear. *)
Theorem find_property_correct last_move fuel s obj l o pname want
    (Hok : props_ok s) (Hh : holder (base s) obj l o) (Hf : (walk_fuel (base s) <= fuel)%nat) :
  exists s' h v, db_find_property last_move fuel obj pname want s = Some ((h, v), s') /\ recached s s' /\ props_ok s' /\
    match find_builtin pname with
    | Some bp => h = PropBuiltin bp l /\ v = if want then Some (get_bi_value last_move bp l o) else None
    | None =>
      (h = PropNone /\ v = None /\ forall a, a ∈ line_of (base s) l o -> ~ defines s pname (str_hash pname) a) \/
      exists ls1 a ls2 i w, line_of (base s) l o = ls1 ++ a :: ls2 /\ h = PropSlot a l (total s ls1 + i) /\
        (forall b, b ∈ ls1 -> ~ defines s pname (str_hash pname) b) /\
        find_def pname (str_hash pname) (defs_at s a) = Some i /\ is_Some (slot_of s l o a i) /\
        effective s a i l w /\ w <> VClear /\ v = if want then Some w else None
    end.
Proof.
  destruct (db_find_property_ok last_move fuel s obj l o pname want Hok Hh Hf) as (s' & [h v] & Hrc & E & Hfound).
  exists s', h, v. split; [exact E|]. split; [exact Hrc|]. split; [by eapply recached_ok|]. unfold found in Hfound.
  destruct (find_builtin pname) as [bp|]; [by injection Hfound as -> ->|].
  destruct (find_slot s (line_of (base s) l o) pname) as [[[a i] n]|] eqn:Ef.
  - right. destruct Hfound as (w & He & Hw & Hr). injection Hr as -> ->.
    assert (forall ls k, find_slot s ls pname = Some (a, i, k) -> exists ls1 ls2, ls = ls1 ++ a :: ls2 /\ k = (total s ls1 + i)%nat /\ a ∉ ls1 /\
      forall b, b ∈ ls1 -> find_def pname (str_hash pname) (defs_at s b) = None) as Hsplit.
    { clear. induction ls as [|b ls IH]; intros k H; [done|]. cbn [find_slot] in H.
      destruct (find_def pname (str_hash pname) (defs_at s b)) as [j|] eqn:Eb.
      - injection H as -> -> ->. exists [], ls. split_and!; [done|done|by apply not_elem_of_nil|by intros ? ?%elem_of_nil].
      - destruct (find_slot s ls pname) as [[[a' i'] k']|] eqn:E'; [|done]. simpl in H. injection H as -> -> <-.
        destruct (IH k' eq_refl) as (ls1 & ls2 & -> & -> & Hn & Hb). exists (b :: ls1), ls2. split; [done|]. split; [rewrite total_cons; lia|].
        split; [|intros c [->|Hc]%elem_of_cons; auto]. intros [->|?]%elem_of_cons; [|done].
        destruct (find_slot_inv _ _ _ _ _ _ E') as (? & _ & _ & Hd & _). congruence. }
    destruct (Hsplit _ _ Ef) as (ls1 & ls2 & El & -> & Hn & Hb). destruct (find_slot_inv _ _ _ _ _ _ Ef) as (k & Hk & Hkn & Hd & Hi).
    exists ls1, a, ls2, i, w. split; [done|]. split; [done|]. split; [intros b Hb'; apply find_def_defines; by apply Hb|].
    split; [done|]. split; [|done]. destruct (slot_exists s obj l o a k i Hok Hh Hk Hi) as (p & pv & Hp & Hpv).
    exists pv. unfold slot_of. by rewrite Hp, Hk, (proj2 (Nat.ltb_lt _ _) Hi).
  - left. injection Hfound as -> ->. split; [done|]. split; [done|]. intros a Ha. apply find_def_defines. by apply (proj1 (find_slot_none _ _ _) Ef).
Qed.

Lemma find_property_correct_witness : props_ok coloured /\ exists l o, holder (base coloured) (VObj 2) l o /\
  exists s' h v, db_find_property no_last_move 20 (VObj 2) (str "COLOUR") true coloured = Some ((h, v), s') /\ props_ok s'.
Proof.
  split; [exact coloured_ok|]. at_two l o El Eo. pose proof (holder_obj _ 2 l o El Eo) as Hh. exists l, o. split; [exact Hh|].
  destruct (find_property_correct no_last_move 20 coloured (VObj 2) l o (str "COLOUR") true coloured_ok Hh coloured_fuel) as (s' & h & v & E & _ & Hok & _).
  exact (ex_intro _ s' (ex_intro _ h (ex_intro _ v (conj E Hok)))).
Defined.
Example find_inherited : (fun r => snd (fst r)) <$> db_find_property no_last_move 20 (VObj 2) (str "COLOUR") true coloured = Some (Some (VStr (str "red"))).
Proof. by vm_compute. Qed.

(** ** The built-ins *)

(** C25: [add_property] on any object answers each error exactly under its
    condition, and then changes nothing but the ancestor cache.  Otherwise the
    object defines the property, with a new slot that holds the value on it
    and is clear on everything that inherits from it, anonymous objects
    included; the owner of such a slot is the object's own when the flag says
    so.  Every other definition and every other slot of every object is as
    before, and the slots are in order. *)
Theorem add_property_correct last_move fuel s x l o pname value info progr
    (Hok : props_ok s) (Hh : holder (base s) (VObj x) l o) (Hn : is_cstr pname) (Hv : value <> VClear) (Hf : (walk_fuel (base s) <= fuel)%nat) :
  exists s' r, bf_add_prop last_move fuel (VObj x) pname value info progr s = Some (r, s') /\ props_ok s' /\
    ((exists e, r = PError e /\ add_error s (VObj x) pname info progr l o e /\ recached s s') \/
     exists who flags, validate_prop_info (base s) info = inl (who, flags, None) /\ r = no_var_pack /\
       (forall e, ~ add_error s (VObj x) pname info progr l o e) /\
       defs_at s' l = defs_at s l ++ [dbpriv_new_propdef pname] /\ same_slots_but s s' l /\
       forall v m om, holder (base s) v m om -> l ∈ line_of (base s) m om ->
         (forall k, k <> ndefs s l -> slot_of s' m om l k = slot_of s m om l k) /\
         slot_of s' m om l (ndefs s l) = Some (slot_for om (mk_Pval (if decide (m = l) then value else VClear) who flags))).
Proof. by apply bf_add_prop_ok. Qed.

Lemma add_property_correct_witness : props_ok coloured /\ exists l o, holder (base coloured) (VObj 2) l o /\
  exists s' r, bf_add_prop no_last_move 20 (VObj 2) (str "size") (VInt 3) colour_info 0 coloured = Some (r, s') /\ props_ok s'.
Proof.
  split; [exact coloured_ok|]. at_two l o El Eo. pose proof (holder_obj _ 2 l o El Eo) as Hh. exists l, o. split; [exact Hh|].
  assert (is_cstr (str "size")) as Hn by (repeat constructor). assert (VInt 3 <> VClear) as Hv by discriminate.
  destruct (add_property_correct no_last_move 20 coloured 2 l o (str "size") (VInt 3) colour_info 0 coloured_ok Hh Hn Hv coloured_fuel) as (s' & r & E & Hok & _).
  exact (ex_intro _ s' (ex_intro _ r (conj E Hok))).
Defined.
Example add_twice : fst <$> bf_add_prop no_last_move 20 (VObj 2) (str "Colour") (VInt 3) colour_info 0 coloured = Some (PError E_INVARG).
Proof. by vm_compute. Qed.

(** [delete_property] needs the right to write the object, and the
    object itself must define the property; then that definition is gone, and
    with it exactly one slot of the object and of everything that inherits
    from it, the other slots of the object's own properties moving up.  Every
    other definition and slot is as before, and the slots are in order. *)
Theorem delete_property_correct fuel s x l o pname progr
    (Hok : props_ok s) (Hh : holder (base s) (VObj x) l o) (Hf : (walk_fuel (base s) <= fuel)%nat) :
  exists s' r, bf_delete_prop fuel (VObj x) pname progr s = Some (r, s') /\ props_ok s' /\
    if negb (allows (base s) o progr FLAG_WRITE) then r = PError E_PERM /\ s' = s
    else match find_def pname (str_hash pname) (defs_at s l) with
         | None => r = PError E_PROPNF /\ s' = s
         | Some k =>
           r = no_var_pack /\ defs_at s' l = del k (defs_at s l) /\ same_slots_but s s' l /\
           forall v m om, holder (base s) v m om -> l ∈ line_of (base s) m om ->
             forall j, slot_of s' m om l j = slot_of s m om l (if (j <? k)%nat then j else S j)
         end.
Proof. by apply bf_delete_prop_ok. Qed.

Lemma delete_property_correct_witness : props_ok coloured /\ exists l o, holder (base coloured) (VObj 2) l o /\
  exists s' r, bf_delete_prop 20 (VObj 2) (str "colour") 0 coloured = Some (r, s') /\ props_ok s'.
Proof.
  split; [exact coloured_ok|]. at_two l o El Eo. pose proof (holder_obj _ 2 l o El Eo) as Hh. exists l, o. split; [exact Hh|].
  destruct (delete_property_correct 20 coloured 2 l o (str "colour") 0 coloured_ok Hh coloured_fuel) as (s' & r & E & Hok & _).
  exact (ex_intro _ s' (ex_intro _ r (conj E Hok))).
Defined.
Example delete_defined : (fun r => map (slots_at (snd r)) [0; 1; 2; 3]) <$> bf_delete_prop 20 (VObj 0) (str "colour") 0 coloured = Some [[]; []; []; []].
Proof. by vm_compute. Qed.

(** [clear_property] answers [E_PERM] for a built-in property or without
    the right to write the slot, [E_PROPNF] for a name that is not defined and
    [E_INVARG] on the object that defines the property.  Otherwise it makes
    exactly that slot clear, so that from then on the property has on this
    object the value it has on a parent. *)
Theorem clear_property_correct last_move fuel s x l o pname progr
    (Hok : props_ok s) (Hh : holder (base s) (VObj x) l o) (Hf : (walk_fuel (base s) <= fuel)%nat) :
  exists s' r, bf_clear_prop last_move fuel (VObj x) pname progr s = Some (r, s') /\ props_ok s' /\
    match find_builtin pname, find_slot s (line_of (base s) l o) pname with
    | Some _, _ => r = PError E_PERM /\ recached s s'
    | None, None => r = PError E_PROPNF /\ recached s s'
    | None, Some (a, i, _) =>
      exists pv, slot_of s l o a i = Some pv /\
        if negb (slot_allows (base s) pv progr PF_WRITE) then r = PError E_PERM /\ recached s s'
        else if decide (a = l) then r = PError E_INVARG /\ recached s s'
        else r = no_var_pack /\ slot_of s' l o a i = Some (cleared pv) /\
          (forall v m om b j, holder (base s) v m om -> ~ (m = l /\ b = a /\ j = i) -> slot_of s' m om b j = slot_of s m om b j) /\
          exists q lq, q ∈ enlist (parents o) /\ dbpriv_find_object (base s) q = Some lq /\
            exists w, effective s' a i l w /\ effective s' a i lq w
    end.
Proof. by apply bf_clear_prop_ok. Qed.

Lemma clear_property_correct_witness : props_ok coloured /\ exists l o, holder (base coloured) (VObj 2) l o /\
  exists s' r, bf_clear_prop no_last_move 20 (VObj 2) (str "colour") 0 coloured = Some (r, s') /\ props_ok s'.
Proof.
  split; [exact coloured_ok|]. at_two l o El Eo. pose proof (holder_obj _ 2 l o El Eo) as Hh. exists l, o. split; [exact Hh|].
  destruct (clear_property_correct no_last_move 20 coloured 2 l o (str "colour") 0 coloured_ok Hh coloured_fuel) as (s' & r & E & Hok & _).
  exact (ex_intro _ s' (ex_intro _ r (conj E Hok))).
Defined.

(** [set_property_info] answers each error exactly under its condition,
    and then changes nothing but the ancestor cache.  Otherwise the slot that
    the lookup finds has the new owner and permissions and its old value, the
    definition has the new name if one is given, and no other definition or
    slot has changed; the slots are in order. *)
Theorem set_property_info_correct last_move fuel s x l o pname info progr
    (Hok : props_ok s) (Hh : holder (base s) (VObj x) l o) (Hn : is_cstr pname) (Hi : info_cstr info) (Hf : (walk_fuel (base s) <= fuel)%nat) :
  exists s' r, bf_set_prop_info last_move fuel (VObj x) pname info progr s = Some (r, s') /\ props_ok s' /\
    ((exists e, r = PError e /\ info_error s pname info progr l o e /\ recached s s') \/
     r = no_var_pack /\ (forall e, ~ info_error s pname info progr l o e) /\
     exists who flags new_name a i n, validate_prop_info (base s) info = inl (who, flags, new_name) /\
       find_builtin pname = None /\ find_slot s (line_of (base s) l o) pname = Some (a, i, n) /\
       (forall v m om, holder (base s) v m om -> defs_at s' m = renamed_defs s l i new_name m) /\
       forall v m om b j, holder (base s) v m om ->
         slot_of s' m om b j = if decide (m = l /\ b = a /\ j = i) then with_info who flags <$> slot_of s m om b j else slot_of s m om b j).
Proof.
  destruct (set_prop_info_ok last_move fuel s x l o pname info progr Hok Hh Hn Hi Hf) as (s' & e & E & Hok' & H).
  exists s', (pack_error e). split; [unfold bf_set_prop_info; by erewrite mbind_Some by exact E|]. split; [done|]. unfold pack_error.
  destruct H as [(He & Herr & Hrc)|(-> & H)]; [left; exists e; by rewrite decide_False|right]. by rewrite decide_True.
Qed.

Lemma set_property_info_correct_witness : props_ok coloured /\ exists l o, holder (base coloured) (VObj 2) l o /\
  exists s' r, bf_set_prop_info no_last_move 20 (VObj 2) (str "colour") (VList [VObj 1; VStr (str "rw"); VStr (str "tint")]) 0 coloured = Some (r, s') /\ props_ok s'.
Proof.
  split; [exact coloured_ok|]. at_two l o El Eo. pose proof (holder_obj _ 2 l o El Eo) as Hh. exists l, o. split; [exact Hh|].
  assert (is_cstr (str "tint")) as Hi by (repeat constructor).
  destruct (set_property_info_correct no_last_move 20 coloured 2 l o (str "colour") (VList [VObj 1; VStr (str "rw"); VStr (str "tint")]) 0 coloured_ok Hh colour_cstr Hi coloured_fuel) as (s' & r & E & Hok & _).
  exact (ex_intro _ s' (ex_intro _ r (conj E Hok))).
Defined.
Example rename_defined : (fun r => (fst r, map (slots_at (snd r)) [0; 2])) <$>
    bf_set_prop_info no_last_move 20 (VObj 0) (str "colour") (VList [VObj 1; VStr (str "rw"); VStr (str "Colour")]) 0 coloured =
  Some (no_var_pack, [[(VStr (str "red"), 1)]; [(VClear, 0)]]).
Proof. by vm_compute. Qed.

(** ** Assignment *)

(** Assigning a property of any object answers each error exactly under
    its condition, and then changes nothing but the ancestor cache.  Otherwise
    a built-in property changes that field of that object alone, and any other
    property has on this object the value assigned, no other definition or
    slot having changed; either way the slots are in order. *)
Theorem put_prop_correct last_move fuel option_cached s obj l o pname rhs progr
    (Hok : props_ok s) (Hh : holder (base s) obj l o) (Hr : rhs <> VClear) (Hf : (walk_fuel (base s) <= fuel)%nat) :
  exists s' r, op_put_prop last_move fuel option_cached obj (VStr pname) rhs progr s = Some (r, s') /\ props_ok s' /\
    ((exists e, r = inr e /\ put_denied option_cached s obj l o pname rhs progr e /\ recached s s') \/
     r = inl rhs /\ (forall e, ~ put_denied option_cached s obj l o pname rhs progr e) /\ put_effect s s' l o pname rhs).
Proof. by apply op_put_prop_ok. Qed.

Definition unprotected (bp : bi_prop) : bool := false.
Lemma put_prop_correct_witness : props_ok coloured /\ exists l o, holder (base coloured) (VObj 2) l o /\
  exists s' r, op_put_prop no_last_move 20 unprotected (VObj 2) (VStr (str "name")) (VStr (str "box")) 0 coloured = Some (r, s') /\ props_ok s'.
Proof.
  split; [exact coloured_ok|]. at_two l o El Eo. pose proof (holder_obj _ 2 l o El Eo) as Hh. exists l, o. split; [exact Hh|].
  assert (VStr (str "box") <> VClear) as Hr by discriminate.
  destruct (put_prop_correct no_last_move 20 unprotected coloured (VObj 2) l o (str "name") (VStr (str "box")) 0 coloured_ok Hh Hr coloured_fuel) as (s' & r & E & Hok & _).
  exact (ex_intro _ s' (ex_intro _ r (conj E Hok))).
Defined.

(** C31: A property that is not one of the built-in ones (such as [wizard], an
    assignment to which keeps only the truth of the value), assigned without
    error, reads back, wherever it was inherited from: every programmer who
    may read the slot gets the value assigned, and any other gets [E_PERM]. *)
Theorem put_get_roundtrip last_move fuel option_cached s obj l o pname rhs progr reader
    (Hok : props_ok s) (Hh : holder (base s) obj l o) (Hr : rhs <> VClear) (Hf : (walk_fuel (base s) <= fuel)%nat)
    (Hbi : find_builtin pname = None) (Hallowed : forall e, ~ put_denied option_cached s obj l o pname rhs progr e) :
  exists s1 s2 pv a i n, op_put_prop last_move fuel option_cached obj (VStr pname) rhs progr s = Some (inl rhs, s1) /\
    find_slot s (line_of (base s) l o) pname = Some (a, i, n) /\ slot_of s l o a i = Some pv /\
    op_get_prop last_move fuel option_cached obj (VStr pname) reader s1 =
      Some (if slot_allows (base s) pv reader PF_READ then inl rhs else inr E_PERM, s2) /\ props_ok s2.
Proof. by apply put_get_ok. Qed.

Lemma put_get_roundtrip_witness : props_ok coloured /\ exists l o, holder (base coloured) (VObj 2) l o /\
  exists s1 s2, op_put_prop no_last_move 20 unprotected (VObj 2) (VStr (str "colour")) (VInt 7) 0 coloured = Some (inl (VInt 7), s1) /\
    exists r, op_get_prop no_last_move 20 unprotected (VObj 2) (VStr (str "colour")) 3 s1 = Some (r, s2) /\ props_ok s2.
Proof.
  split; [exact coloured_ok|]. at_two l o El Eo. pose proof (holder_obj _ 2 l o El Eo) as Hh. exists l, o. split; [exact Hh|].
  assert (VInt 7 <> VClear) as Hr by discriminate. assert (find_builtin (str "colour") = None) as Hbi by (by vm_compute).
  assert (forall e, ~ put_denied unprotected coloured (VObj 2) l o (str "colour") (VInt 7) 0 e) as Hnd.
  { intros e H. vm_compute in El. injection El as <-. vm_compute in Eo. injection Eo as <-. vm_compute in H.
    destruct H as (pv & Hpv & H & _). injection Hpv as <-. discriminate H. }
  destruct (put_get_roundtrip no_last_move 20 unprotected coloured (VObj 2) l o (str "colour") (VInt 7) 0 3 coloured_ok Hh Hr coloured_fuel Hbi Hnd)
    as (s1 & s2 & pv & a & i & n & E1 & _ & _ & E2 & Hok).
  exists s1, s2. split; [exact E1|]. exact (ex_intro _ _ (conj E2 Hok)).
Defined.

(** An assignment by a programmer who is not a wizard, to any property of
    any object, changes no object's owner, number or relatives, no object's
    player, programmer, wizard or invalid flag, nothing of an object that the
    programmer does not own, and no player's name. *)
Theorem put_prop_privileges last_move fuel option_cached s s' obj l o pname rhs progr r
    (Hok : props_ok s) (Hh : holder (base s) obj l o) (Hr : rhs <> VClear) (Hf : (walk_fuel (base s) <= fuel)%nat)
    (Hw : is_wizard (base s) progr = false)
    (Hrun : op_put_prop last_move fuel option_cached obj (VStr pname) rhs progr s = Some (r, s')) :
  forall v m om, holder (base s) v m om -> exists om', holder (base s') v m om' /\ guarded (base s) progr v om om'.
Proof. by eapply put_guarded. Qed.

Lemma put_prop_privileges_witness : props_ok coloured /\ exists l o, holder (base coloured) (VObj 2) l o /\
  exists s', op_put_prop no_last_move 20 unprotected (VObj 2) (VStr (str "wizard")) (VInt 1) 3 coloured = Some (inr E_PERM, s') /\
  exists om', holder (base s') (VObj 2) l om' /\ guarded (base coloured) 3 (VObj 2) o om'.
Proof.
  split; [exact coloured_ok|]. at_two l o El Eo. pose proof (holder_obj _ 2 l o El Eo) as Hh. exists l, o. split; [exact Hh|].
  destruct (op_put_prop no_last_move 20 unprotected (VObj 2) (VStr (str "wizard")) (VInt 1) 3 coloured) as [[r s']|] eqn:E;
    [|vm_compute in E; discriminate E]. exists s'.
  assert (r = inr E_PERM) as Er by (vm_compute in E; injection E as <- _; reflexivity). split; [by rewrite Er|].
  assert (VInt 1 <> VClear) as Hr by discriminate. assert (is_wizard (base coloured) 3 = false) as Hw by (by vm_compute).
  exact (put_prop_privileges no_last_move 20 unprotected coloured s' (VObj 2) l o (str "wizard") (VInt 1) 3 r coloured_ok Hh Hr coloured_fuel Hw E _ _ _ Hh).
Defined.

(** ** Every operation *)

Section steps.
Context (last_move : loc -> Var) (option_cached : bi_prop -> bool).

(** A number, valid or not, or an anonymous object *)
Definition names (s : pdb) (obj : Var) : Prop := (exists x, obj = VObj x) \/ exists l o, holder (base s) obj l o.

Inductive prop_step : pdb -> pdb -> Prop :=
| step_add s s' fuel x pname value info progr r :
    (walk_fuel (base s) <= fuel)%nat -> is_cstr pname -> value <> VClear ->
    bf_add_prop last_move fuel (VObj x) pname value info progr s = Some (r, s') -> prop_step s s'
| step_delete s s' fuel x pname progr r :
    (walk_fuel (base s) <= fuel)%nat -> bf_delete_prop fuel (VObj x) pname progr s = Some (r, s') -> prop_step s s'
| step_clear s s' fuel x pname progr r :
    (walk_fuel (base s) <= fuel)%nat -> bf_clear_prop last_move fuel (VObj x) pname progr s = Some (r, s') -> prop_step s s'
| step_info s s' fuel x pname info progr r :
    (walk_fuel (base s) <= fuel)%nat -> is_cstr pname -> info_cstr info ->
    bf_set_prop_info last_move fuel (VObj x) pname info progr s = Some (r, s') -> prop_step s s'
| step_get s s' fuel obj pname progr r :
    (walk_fuel (base s) <= fuel)%nat -> names s obj ->
    op_get_prop last_move fuel option_cached obj (VStr pname) progr s = Some (r, s') -> prop_step s s'
| step_put s s' fuel obj pname rhs progr r :
    (walk_fuel (base s) <= fuel)%nat -> names s obj -> rhs <> VClear ->
    op_put_prop last_move fuel option_cached obj (VStr pname) rhs progr s = Some (r, s') -> prop_step s s'.

(** A number denotes an object, or the checks find out. *)
Lemma named s x : props_ok s -> valid (base s) x = false \/ exists l o, holder (base s) (VObj x) l o.
Proof.
  intros Hok. destruct (valid (base s) x) eqn:E; [right|by left]. apply parent_holder; [|done]. apply (ok_table _ (po_db s Hok)).
Qed.

Lemma prop_step_ok s s' : props_ok s -> prop_step s s' -> props_ok s'.
Proof.
  assert (forall x, valid (base s) x = false -> lift (is_valid (VObj x)) s = Some (false, s)) as Hinv by (intros x E; rewrite lift_valid; by rewrite E).
  intros Hok H. inversion H as [? ? fuel x pname value info progr r Hf Hn Hv E|? ? fuel x pname progr r Hf E|? ? fuel x pname progr r Hf E
    |? ? fuel x pname info progr r Hf Hn Hi E|? ? fuel obj pname progr r Hf Hnm E|? ? fuel obj pname rhs progr r Hf Hnm Hr E]; subst.
  - destruct (named s x Hok) as [Hx|(l & o & Hh)].
    + assert (s' = s) as ->; [|done]. unfold bf_add_prop in E. destruct (validate_prop_info _ _) as [[[who flags] [nm|]]|e]; [congruence| |congruence].
      erewrite mbind_Some in E by (by apply Hinv). cbn in E. by injection E.
    + destruct (bf_add_prop_ok last_move fuel s x l o pname value info progr Hok Hh Hn Hv Hf) as (s2 & r2 & E2 & Hok2 & _). congruence.
  - destruct (named s x Hok) as [Hx|(l & o & Hh)].
    + assert (s' = s) as ->; [|done]. unfold bf_delete_prop in E. erewrite mbind_Some in E by (by apply Hinv). cbn in E. by injection E.
    + destruct (bf_delete_prop_ok fuel s x l o pname progr Hok Hh Hf) as (s2 & r2 & E2 & Hok2 & _). congruence.
  - destruct (named s x Hok) as [Hx|(l & o & Hh)].
    + assert (s' = s) as ->; [|done]. unfold bf_clear_prop in E. cbn [is_object negb] in E. erewrite mbind_Some in E by (by apply Hinv). cbn in E. by injection E.
    + destruct (bf_clear_prop_ok last_move fuel s x l o pname progr Hok Hh Hf) as (s2 & r2 & E2 & Hok2 & _). congruence.
  - destruct (named s x Hok) as [Hx|(l & o & Hh)].
    + assert (s' = s) as ->; [|done]. unfold bf_set_prop_info, set_prop_info in E. rewrite mbind_assoc in E. erewrite mbind_Some in E by (by apply Hinv). cbn in E. by injection E.
    + destruct (set_prop_info_ok last_move fuel s x l o pname info progr Hok Hh Hn Hi Hf) as (s2 & e2 & E2 & Hok2 & _).
      unfold bf_set_prop_info in E. erewrite mbind_Some in E by exact E2. injection E as _ <-. exact Hok2.
  - assert (s' = s \/ exists l o, holder (base s) obj l o) as [->|(l & o & Hh)]; [|done|].
    { destruct Hnm as [(x & ->)|?]; [|by right]. destruct (named s x Hok) as [Hx|?]; [left|by right].
      unfold op_get_prop in E. cbn [is_object negb] in E. erewrite mbind_Some in E by (by apply Hinv). cbn in E. by injection E. }
    destruct (op_get_prop_ok last_move fuel option_cached s obj l o pname progr Hok Hh Hf) as (s2 & r2 & E2 & Hrc & _).
    pose proof (recached_ok _ _ Hrc Hok). congruence.
  - assert (s' = s \/ exists l o, holder (base s) obj l o) as [->|(l & o & Hh)]; [|done|].
    { destruct Hnm as [(x & ->)|?]; [|by right]. destruct (named s x Hok) as [Hx|?]; [left|by right].
      unfold op_put_prop in E. cbn [is_object negb] in E. erewrite mbind_Some in E by (by apply Hinv). cbn in E. by injection E. }
    destruct (op_put_prop_ok last_move fuel option_cached s obj l o pname rhs progr Hok Hh Hr Hf) as (s2 & r2 & E2 & Hok2 & _). congruence.
Qed.

(** C7: Whatever sequence of reads, assignments and calls of the built-ins
    on properties runs, with any arguments and by anyone, every object keeps
    exactly one slot for each definition along its ancestors, a definition
    never has a clear slot on its own object, and hashes and capacities stay
    right. *)
Theorem props_invariant s s' (Hok : props_ok s) (Hsteps : rtc prop_step s s') : props_ok s'.
Proof. induction Hsteps as [|s s1 s' H _ IH]; [done|]. apply IH. by eapply prop_step_ok. Qed.
End steps.

Lemma props_invariant_witness : exists s', rtc (prop_step no_last_move unprotected) coloured s' /\
  slots_at s' 2 = [(VStr (str "blue"), 0)] /\ props_ok s'.
Proof.
  destruct (op_put_prop no_last_move 20 unprotected (VObj 2) (VStr (str "colour")) (VStr (str "blue")) 0 coloured) as [[r s']|] eqn:E;
    [|vm_compute in E; discriminate E]. exists s'.
  assert (rtc (prop_step no_last_move unprotected) coloured s') as Hs.
  { apply rtc_once. refine (step_put _ _ coloured s' 20 (VObj 2) (str "colour") (VStr (str "blue")) 0 r coloured_fuel _ _ E);
      [left; by exists 2|discriminate]. }
  split; [exact Hs|]. split; [|exact (props_invariant no_last_move unprotected coloured s' coloured_ok Hs)].
  vm_compute in E. injection E as <- <-. vm_compute. reflexivity.
Defined.

(** ** Two states the checks let through *)

Definition adding (x : Z) (s : pdb) : M pdb package := fun _ =>
  bf_add_prop no_last_move 20 (VObj x) (str "size") (VInt x) colour_info 0 s.

(** Object 2 with the parents 1 and 3: [add_property] looks for the name on
    the ancestors and below, but not on the other ancestors of what is below,
    so that 2 inherits two properties of one name; changing 2's parents to the
    ones it has is then refused. *)
Definition joined : pdb :=
  mk_pdb (after (bf_chparent_chparents any_check 20 (VObj 2) (VList [VObj 1; VObj 3]) 2 0) world) (props bare).
Example add_property_misses_conflict :
  match adding 3 joined joined with
  | Some (r1, s1) =>
    match adding 1 s1 s1 with
    | Some (r2, s2) => Some (r1, r2, slots_at s2 2,
        dbpriv_find_object (base s2) 2 ≫= fun l => dbpriv_check_properties_for_chparent 20 20 s2 l (inr [1; 3]) [])
    | None => None
    end
  | None => None
  end = Some (no_var_pack, no_var_pack, [(VClear, 0); (VClear, 0)], Some false).
Proof. by vm_compute. Qed.

(** Object 1 above 2 and 3, both parents of 4, and 5 apart, with a property:
    when 5 becomes the parent of 1, the slots of 4 are counted with the new
    ancestors of 3, and [assert(old_count == me->nval)] fails. *)
Definition diamond : pdb :=
  let d := created_in (created_in (created_in (created_in (created_in world2 (VObj 0)) (VObj 1)) (VObj 1)) (VList [VObj 2; VObj 3])) (VObj 0) in
  mk_pdb d ((fun _ => mk_Props [] 0 []) <$> obj_heap d).
Example chparent_diamond_fails :
  map (parents_at (base diamond)) [1; 2; 3; 4; 5] = [Some (inl 0); Some (inl 1); Some (inl 1); Some (inr [2; 3]); Some (inl 0)] /\
  match adding 5 diamond diamond with
  | Some (r, s) => (r, db_change_parents_props 40 40 (VObj 1) (inl 5) [] s,
      (fun r => map (slots_at (snd r)) [1; 2; 3; 4]) <$> db_change_parents_props 40 40 (VObj 2) (inl 5) [] s)
  | None => (PError E_NONE, None, None)
  end = (no_var_pack, None, Some [[]; [(VClear, 0)]; []; [(VClear, 0)]]).
Proof. by vm_compute. Qed.
