(* ===== verification/VerbCode.v ===== *)
(** * Verbs (db_verbs.cc)

    The verb definitions of an object are kept in a list under the object's
    address, beside the object table of [ObjCode]; a handle is the definer and
    the position in its list, which no operation changes while a handle is in
    use but [db_delete_verb], which consumes it.  The verb cache is the array
    of chains of the source, indexed by the bucket of a hash of the name and
    of the address of the first object with verbs.  Strings that are compared
    by [verbcasecmp] carry their address, as it compares the pointers first.
    Programs are opaque.  The prepositions are in [CmdCode]. *)
From Stdlib Require Import ZArith Lia.
From stdpp Require Import prelude gmap.
From S2P Require Import Prelude CString Value ObjCode NumCode CmdCode.

Local Open Scope Z_scope.
Local Open Scope moo_scope.

(** [db_verb_flag], [db_arg_spec] *)
Definition VF_READ : Z := 1.
Definition VF_WRITE : Z := 2.
Definition VF_EXEC : Z := 4.
Definition VF_DEBUG : Z := 8.
Definition ASPEC_NONE : Z := 0.
Definition ASPEC_ANY : Z := 1.
Definition ASPEC_THIS : Z := 2.

Definition DOBJSHIFT : Z := 4.
Definition IOBJSHIFT : Z := 6.
Definition OBJMASK : Z := 3.
Definition PERMMASK : Z := 15.

(** A string and its address *)
Record cstring := mk_cstring { str_at : positive; str_bytes : bytes }.

Record Verbdef := mk_Verbdef { vd_name : cstring; vd_program : option positive; vd_owner : Z; vd_perms : Z; vd_prep : Z }.

Definition with_vd_name (n : cstring) (v : Verbdef) : Verbdef := mk_Verbdef n (vd_program v) (vd_owner v) (vd_perms v) (vd_prep v).
Definition with_vd_program (p : option positive) (v : Verbdef) : Verbdef := mk_Verbdef (vd_name v) p (vd_owner v) (vd_perms v) (vd_prep v).
Definition with_vd_owner (x : Z) (v : Verbdef) : Verbdef := mk_Verbdef (vd_name v) (vd_program v) x (vd_perms v) (vd_prep v).
Definition with_vd_perms (p : Z) (v : Verbdef) : Verbdef := mk_Verbdef (vd_name v) (vd_program v) (vd_owner v) p (vd_prep v).
Definition with_vd_prep (p : Z) (v : Verbdef) : Verbdef := mk_Verbdef (vd_name v) (vd_program v) (vd_owner v) (vd_perms v) p.

(** [handle] *)
Record handle := mk_handle { definer : loc; verbdef : nat }.

Record vc_entry := mk_vc { vc_hash : Z; vc_object : loc; vc_verbname : bytes; vc_h : option handle }.

Record vdb := mk_vdb {
  vbase : db; verbs : gmap loc (list Verbdef);
  vc_table : option (gmap Z (list vc_entry));
  db_verb_generation : Z; verbcache_hit : Z; verbcache_neg_hit : Z; verbcache_miss : Z }.

Definition with_vbase (d : db) (s : vdb) : vdb :=
  mk_vdb d (verbs s) (vc_table s) (db_verb_generation s) (verbcache_hit s) (verbcache_neg_hit s) (verbcache_miss s).
Definition with_verbs (m : gmap loc (list Verbdef)) (s : vdb) : vdb :=
  mk_vdb (vbase s) m (vc_table s) (db_verb_generation s) (verbcache_hit s) (verbcache_neg_hit s) (verbcache_miss s).
Definition with_table (t : option (gmap Z (list vc_entry))) (s : vdb) : vdb :=
  mk_vdb (vbase s) (verbs s) t (db_verb_generation s) (verbcache_hit s) (verbcache_neg_hit s) (verbcache_miss s).
Definition with_counts (generation hit neg_hit miss : Z) (s : vdb) : vdb :=
  mk_vdb (vbase s) (verbs s) (vc_table s) generation hit neg_hit miss.

Definition vlift {A} (m : M db A) : M vdb A := fun s => match m (vbase s) with Some (x, d) => Some (x, with_vbase d s) | None => None end.
Definition vmodify (f : vdb -> vdb) : M vdb unit := fun s => Some (tt, f s).

(** [o->verbdefs] *)
Definition verbdefs (s : vdb) (l : loc) : list Verbdef := default [] (verbs s !! l).
Definition set_verbdefs (l : loc) (vs : list Verbdef) : M vdb unit := vmodify (fun s => with_verbs (<[l := vs]> (verbs s)) s).

(** ** The cache *)

Definition DEFAULT_VC_SIZE : Z := 7507.

Definition db_priv_affected_callable_verb_lookup : M vdb unit := vmodify (fun s =>
  match vc_table s with
  | None => s
  | Some _ => with_table (Some ∅) (with_counts (to_int (db_verb_generation s + 1)) (verbcache_hit s) (verbcache_neg_hit s) (verbcache_miss s) s)
  end).
Definition make_vc_table : M vdb unit := vmodify (fun s => match vc_table s with None => with_table (Some ∅) s | Some _ => s end).

Definition count_hit : M vdb unit := vmodify (fun s =>
  with_counts (db_verb_generation s) (to_int (verbcache_hit s + 1)) (verbcache_neg_hit s) (verbcache_miss s) s).
Definition count_neg_hit : M vdb unit := vmodify (fun s =>
  with_counts (db_verb_generation s) (verbcache_hit s) (to_int (verbcache_neg_hit s + 1)) (verbcache_miss s) s).
Definition count_miss : M vdb unit := vmodify (fun s =>
  with_counts (db_verb_generation s) (verbcache_hit s) (verbcache_neg_hit s) (to_int (verbcache_miss s + 1)) s).

Definition VC_CACHE_STATS_MAX : nat := 16.
(** The chains by depth, the last of them those at least that deep *)
Definition histogram (t : gmap Z (list vc_entry)) : list Z :=
  (fun k => Z.of_nat (length (filter (fun b => (Nat.min (length (default [] (t !! Z.of_nat b))) VC_CACHE_STATS_MAX) = k)
                                     (seq 0 (Z.to_nat DEFAULT_VC_SIZE))))) <$> seq 0 (S VC_CACHE_STATS_MAX).
Definition db_verb_cache_stats (s : vdb) : Var :=
  VList [VInt (verbcache_hit s); VInt (verbcache_neg_hit s); VInt (verbcache_miss s); VInt (db_verb_generation s);
         VList (VInt <$> match vc_table s with Some t => histogram t | None => repeat 0 (S VC_CACHE_STATS_MAX) end)].

(** ** Definitions of an object *)

Definition new_verbdef (vnames : cstring) (owner flags dobj prep iobj : Z) : Verbdef :=
  mk_Verbdef vnames None owner (Z.lor (Z.lor flags (Z.shiftl dobj DOBJSHIFT)) (Z.shiftl iobj IOBJSHIFT)) prep.
Definition db_add_verb (obj : Var) (vnames : cstring) (owner flags dobj prep iobj : Z) : M vdb Z :=
  let! l := vlift (dbpriv_dereference obj) in
  db_priv_affected_callable_verb_lookup ;;
  fun s =>
  let vs := verbdefs s l ++ [new_verbdef vnames owner flags dobj prep iobj] in
  (set_verbdefs l vs ;; mreturn (Z.of_nat (length vs))) s.

(** The position of the first verb with a property *)
Fixpoint first_verb (p : Verbdef -> bool) (vs : list Verbdef) : option nat :=
  match vs with [] => None | v :: vs => if p v then Some O else S <$> first_verb p vs end.

Definition named (vname : cstring) (v : Verbdef) : bool :=
  verbcasecmp (bool_decide (str_at (vd_name v) = str_at vname)) (str_bytes (vd_name v)) (str_bytes vname).
Definition has_perm (f : Z) (v : Verbdef) : bool := negb (Z.land (vd_perms v) f =? 0).

Definition find_verbdef_by_name (vs : list Verbdef) (vname : cstring) (check_x_bit : bool) : option nat :=
  first_verb (fun v => named vname v && (negb check_x_bit || has_perm VF_EXEC v)) vs.

Definition db_count_verbs (obj : Var) : M vdb Z :=
  let! l := vlift (dbpriv_dereference obj) in fun s => Some (Z.of_nat (length (verbdefs s l)), s).

Definition db_delete_verb (h : handle) : M vdb unit :=
  db_priv_affected_callable_verb_lookup ;;
  fun s => set_verbdefs (definer h) (take (verbdef h) (verbdefs s (definer h)) ++ drop (S (verbdef h)) (verbdefs s (definer h))) s.

(** ** Verbs of commands *)

Definition dobj_spec (v : Verbdef) : Z := Z.land (Z.shiftr (vd_perms v) DOBJSHIFT) OBJMASK.
Definition iobj_spec (v : Verbdef) : Z := Z.land (Z.shiftr (vd_perms v) IOBJSHIFT) OBJMASK.

Definition command_matches (verb : cstring) (dobj prep iobj : Z) (v : Verbdef) : bool :=
  named verb v && ((dobj_spec v =? ASPEC_ANY) || (dobj_spec v =? dobj)) &&
  ((vd_prep v =? PREP_ANY) || (vd_prep v =? prep)) && ((iobj_spec v =? ASPEC_ANY) || (iobj_spec v =? iobj)).

Fixpoint command_loop (ancestors : list Var) (p : Verbdef -> bool) : M vdb (option handle) :=
  match ancestors with
  | [] => mreturn None
  | VObj x :: ancestors =>
    let! l := vlift (slot x) in
    fun s => match first_verb p (verbdefs s l) with Some i => Some (Some (mk_handle l i), s) | None => command_loop ancestors p s end
  | _ => mfail
  end.
Definition db_find_command_verb (fuel : nat) (oid : Z) (verb : cstring) (dobj prep iobj : Z) : M vdb (option handle) :=
  let! ancestors := vlift (db_ancestors fuel (VObj oid) true) in
  command_loop ancestors (command_matches verb dobj prep iobj).

(** ** Verbs of calls *)

(** The loop on the stack of objects to visit *)
Fixpoint callable_loop (steps : nat) (s : vdb) (stack : list Z) (verb : cstring) : option (option handle) :=
  match steps with
  | O => None
  | S steps =>
    match stack with
    | [] => Some None
    | top :: stack =>
      match dbpriv_find_object (vbase s) top with
      | None => callable_loop steps s stack verb
      | Some l =>
        match find_verbdef_by_name (verbdefs s l) verb true with
        | Some i => Some (Some (mk_handle l i))
        | None =>
          match obj_heap (vbase s) !! l with
          | Some o => callable_loop steps s (enlist (parents o) ++ stack) verb
          | None => None
          end
        end
      end
    end
  end.
Definition find_callable_verbdef (steps : nat) (s : vdb) (start : loc) (verb : cstring) : option (option handle) :=
  match find_verbdef_by_name (verbdefs s start) verb true with
  | Some i => Some (Some (mk_handle start i))
  | None =>
    match obj_heap (vbase s) !! start with
    | Some o => callable_loop steps s (enlist (parents o)) verb
    | None => None
    end
  end.

Section cache.
(** The address of an object, as [unsigned long] *)
Context (address : loc -> Z).

Definition cache_hash (verb : bytes) (o : loc) : Z := to_uint (Z.lxor (str_hash verb) (2 ^ 64 - 1 - address o)).
Definition cache_bucket (hash : Z) : Z := hash mod DEFAULT_VC_SIZE.

Definition cached (hash : Z) (o : loc) (verb : bytes) (vc : vc_entry) : bool :=
  (hash =? vc_hash vc) && bool_decide (o = vc_object vc) && (strcasecmp verb (vc_verbname vc) =? 0).
Definition cache_chain (s : vdb) (bucket : Z) : list vc_entry := match vc_table s with Some t => default [] (t !! bucket) | None => [] end.
Definition cache_add (bucket : Z) (vc : vc_entry) : M vdb unit := vmodify (fun s =>
  match vc_table s with Some t => with_table (Some (<[bucket := vc :: cache_chain s bucket]> t)) s | None => s end).

(** The loop at [try_again]; an entry of the stack is an object number, or
    the receiver *)
Fixpoint find_callable_loop (steps : nat) (walk : nat) (stack : list Var) (verb : cstring) : M vdb (option handle) :=
  match steps with
  | O => mfail
  | S steps =>
    match stack with
    | [] => mreturn None
    | top :: stack =>
      let! v := (if is_object top then vlift (is_valid top) else mreturn false) in
      if negb v then find_callable_loop steps walk stack verb
      else
        let! o := vlift (dbpriv_dereference top) in
        let! p := vlift (load o) in
        fun s =>
        match verbdefs s o with
        | [] => find_callable_loop steps walk ((VObj <$> enlist (parents p)) ++ stack) verb s
        | _ =>
          (make_vc_table ;;
           let hash := cache_hash (str_bytes verb) o in
           let bucket := cache_bucket hash in
           fun s =>
           match List.find (cached hash o (str_bytes verb)) (cache_chain s bucket) with
           | Some vc =>
             match vc_h vc with
             | Some h => (count_hit ;; mreturn (Some h)) s
             | None => (count_neg_hit ;; find_callable_loop steps walk stack verb) s
             end
           | None =>
             match find_callable_verbdef walk s o verb with
             | None => None
             | Some data =>
               (count_miss ;;
                cache_add bucket (mk_vc hash o (str_bytes verb) data) ;;
                match data with
                | Some h => mreturn (Some h)
                | None => find_callable_loop steps walk stack verb
                end) s
             end
           end) s
        end
    end
  end.
Definition db_find_callable_verb (steps walk : nat) (recv : Var) (verb : cstring) : M vdb (option handle) :=
  if is_object recv then find_callable_loop steps walk [recv] verb else mfail.
End cache.

(** ** Verbs of descriptors *)

(** [strtol], then the conversion to [int] *)
Definition verb_number (vname : bytes) : Z :=
  let '(num, p) := strtoimax vname in
  if (match vname with c :: _ => isspace c | [] => false end) || negb (is_nil p) then -1 else to_int num.

Fixpoint first_numbered (num i : Z) (vname : cstring) (vs : list Verbdef) : option nat :=
  match vs with
  | [] => None
  | v :: vs => if (i =? num) || named vname v then Some O else S <$> first_numbered num (i + 1) vname vs
  end.
Definition db_find_defined_verb (obj : Var) (vname : cstring) (allow_numbers : bool) : M vdb (option handle) :=
  let! l := vlift (dbpriv_dereference obj) in
  fun s =>
  let num := if allow_numbers then verb_number (str_bytes vname) else -1 in
  Some (mk_handle l <$> first_numbered num 0 vname (verbdefs s l), s).

(** The index is an [unsigned]. *)
Definition db_find_indexed_verb (obj : Var) (index : Z) : M vdb (option handle) :=
  let! l := vlift (dbpriv_dereference obj) in
  fun s =>
  let i := to_uint index in
  Some (if (1 <=? i) && (i <=? Z.of_nat (length (verbdefs s l))) then Some (mk_handle l (Z.to_nat (i - 1))) else None, s).

(** ** Through a handle *)

Definition the_verb (h : handle) : M vdb Verbdef := fun s =>
  match verbdefs s (definer h) !! verbdef h with Some v => Some (v, s) | None => None end.
Definition set_verb (h : handle) (f : Verbdef -> Verbdef) : M vdb unit := fun s =>
  match verbdefs s (definer h) !! verbdef h with
  | Some v => set_verbdefs (definer h) (<[verbdef h := f v]> (verbdefs s (definer h))) s
  | None => None
  end.

Definition db_verb_definer (h : handle) : M vdb Var :=
  let! o := vlift (load (definer h)) in
  mreturn (if NOTHING <? obj_id o then VObj (obj_id o) else VAnon (Some (definer h))).
Definition db_verb_names (h : handle) : M vdb cstring := let! v := the_verb h in mreturn (vd_name v).
Definition db_set_verb_names (h : handle) (names : cstring) : M vdb unit :=
  db_priv_affected_callable_verb_lookup ;; set_verb h (with_vd_name names).
Definition db_verb_owner (h : handle) : M vdb Z := let! v := the_verb h in mreturn (vd_owner v).
Definition db_set_verb_owner (h : handle) (owner : Z) : M vdb unit := set_verb h (with_vd_owner owner).
Definition db_verb_flags (h : handle) : M vdb Z := let! v := the_verb h in mreturn (Z.land (vd_perms v) PERMMASK).
Definition db_set_verb_flags (h : handle) (flags : Z) : M vdb unit :=
  db_priv_affected_callable_verb_lookup ;;
  set_verb h (fun v => with_vd_perms (Z.lor (Z.land (vd_perms v) (Z.lnot PERMMASK)) flags) v).
Definition db_verb_program (h : handle) : M vdb (option positive) := let! v := the_verb h in mreturn (vd_program v).
Definition db_set_verb_program (h : handle) (p : positive) : M vdb unit := set_verb h (with_vd_program (Some p)).
Definition db_verb_arg_specs (h : handle) : M vdb (Z * Z * Z) :=
  let! v := the_verb h in mreturn (dobj_spec v, vd_prep v, iobj_spec v).
Definition db_set_verb_arg_specs (h : handle) (dobj prep iobj : Z) : M vdb unit :=
  db_priv_affected_callable_verb_lookup ;;
  set_verb h (fun v => with_vd_prep prep
    (with_vd_perms (Z.lor (Z.lor (Z.land (vd_perms v) PERMMASK) (Z.shiftl dobj DOBJSHIFT)) (Z.shiftl iobj IOBJSHIFT)) v)).
Definition db_verb_allows (h : handle) (progr flag : Z) : M vdb bool :=
  let! flags := db_verb_flags h in
  let! owner := db_verb_owner h in
  fun s => Some (negb (Z.land flags flag =? 0) || (progr =? owner) || is_wizard (vbase s) progr, s).

(** ** What objects do to the cache *)

(** [db_change_parents], which leaves the cache alone for an object without
    verbs and without children *)
Definition db_change_parents_verbs (check : db -> Var -> Z + list Z -> list Var -> bool) (fuel : nat) (obj : Var) (new_parents : Z + list Z)
    (anon_kids : list Var) : M vdb bool :=
  let! o := vlift (dbpriv_dereference obj) in
  let! p := vlift (load o) in
  let! changed := vlift (db_change_parents check fuel obj new_parents anon_kids) in
  if changed : bool then
    fun s =>
    (if bool_decide (verbdefs s o = []) && is_nil (children p) then mreturn true
     else db_priv_affected_callable_verb_lookup ;; mreturn true) s
  else mreturn false.

Definition db_destroy_object_verbs (oid : Z) : M vdb unit :=
  db_priv_affected_callable_verb_lookup ;;
  let! l := vlift (slot oid) in
  vlift (db_destroy_object oid) ;;
  vmodify (fun s => with_verbs (delete l (verbs s)) s).
