(* ===== verification/VerbSpec.v ===== *)
(** * Looking a verb up: the search as a relation, and the cache

    [resolves s vname stack r]: searching the objects of [stack] and their
    ancestors, depth first, each time in the order of the parents, for an
    executable verb of that name finds [r].  [verbs_ok] is the invariant: an
    entry of the cache holds what the search from its object would find. *)
From Stdlib Require Import ZArith Lia.
From stdpp Require Import prelude gmap relations strings.
From S2P Require Import Prelude CString Value ObjCode ObjGraph ObjParents ObjChange CmdCode VerbCode.

Local Open Scope Z_scope.
Local Open Scope moo_scope.

Create HintDb verbs.

(** ** Names *)

Lemma cmap_tolower a b : map tolower a = map tolower b -> map cmap a = map cmap b.
Proof.
  revert b. induction a as [|x a IH]; intros [|y b] E; try done. cbn [map] in *. injection E as E1 E2.
  f_equal; [|by apply IH]. unfold cmap. by rewrite E1.
Qed.

Lemma match_loop_case fuel : forall v w w' star, map cmap w = map cmap w' ->
  exists v1 w1 w1' star1, match_loop fuel v w star = (v1, w1, star1) /\ match_loop fuel v w' star = (v1, w1', star1) /\ map cmap w1 = map cmap w1'.
Proof.
  induction fuel as [|fuel IH]; intros v w w' star E; cbn [match_loop]; destruct (skip_stars v star) as [v0 star0].
  - by exists v0, w, w', star0.
  - destruct v0 as [|c v0]; [by exists [], w, w', star0|]. destruct w as [|d w], w' as [|d' w']; try done.
    + by exists (c :: v0), [], [], star0.
    + pose proof E as E0. cbn [map] in E. injection E as E1 E2. rewrite E1. destruct ((c =? 32) || _).
      * by exists (c :: v0), (d :: w), (d' :: w'), star0.
      * by apply IH.
Qed.
Lemma verb_loop_case fuel : forall v w w', map cmap w = map cmap w' -> verb_loop fuel v w = verb_loop fuel v w'.
Proof.
  induction fuel as [|fuel IH]; intros v w w' E; [done|]. cbn [verb_loop]. destruct v as [|c v]; [done|].
  destruct (match_loop_case (length (c :: v)) (c :: v) w w' star_none E) as (v1 & w1 & w1' & star1 & -> & -> & E1).
  assert (name_matches v1 w1 star1 = name_matches v1 w1' star1) as -> by (destruct w1, w1'; done).
  by rewrite (IH _ w w').
Qed.
(** Only the letters of the word matter, not their case. *)
Lemma verbcasecmp_case verb w w' : map tolower w = map tolower w' -> verbcasecmp false verb w = verbcasecmp false verb w'.
Proof. intros E. by apply verb_loop_case, cmap_tolower. Qed.

(** ** The search *)

Definition answers (vname : bytes) (v : Verbdef) : bool := verbcasecmp false (str_bytes (vd_name v)) vname && has_perm VF_EXEC v.
Definition finds (s : vdb) (vname : bytes) (l : loc) : option nat := first_verb (answers vname) (verbdefs s l).

Inductive resolves (s : vdb) (vname : bytes) : list Z -> option handle -> Prop :=
| res_none : resolves s vname [] None
| res_skip x xs r : dbpriv_find_object (vbase s) x = None -> resolves s vname xs r -> resolves s vname (x :: xs) r
| res_here x xs l i : dbpriv_find_object (vbase s) x = Some l -> finds s vname l = Some i -> resolves s vname (x :: xs) (Some (mk_handle l i))
| res_up x xs l o r : dbpriv_find_object (vbase s) x = Some l -> finds s vname l = None -> obj_heap (vbase s) !! l = Some o ->
    resolves s vname (enlist (parents o) ++ xs) r -> resolves s vname (x :: xs) r.

(** From an object itself *)
Definition resolves_at (s : vdb) (vname : bytes) (l : loc) (o : Object) (r : option handle) : Prop :=
  match finds s vname l with Some i => r = Some (mk_handle l i) | None => resolves s vname (enlist (parents o)) r end.

(** The same with the number of iterations *)
Fixpoint ref_loop (n : nat) (s : vdb) (vname : bytes) (stack : list Z) : option (option handle) :=
  match n with
  | O => None
  | S n =>
    match stack with
    | [] => Some None
    | x :: xs =>
      match dbpriv_find_object (vbase s) x with
      | None => ref_loop n s vname xs
      | Some l =>
        match finds s vname l with
        | Some i => Some (Some (mk_handle l i))
        | None => match obj_heap (vbase s) !! l with Some o => ref_loop n s vname (enlist (parents o) ++ xs) | None => None end
        end
      end
    end
  end.

Lemma ref_resolves n s vname : forall stack r, ref_loop n s vname stack = Some r -> resolves s vname stack r.
Proof.
  induction n as [|n IH]; intros stack r H; [done|]. cbn [ref_loop] in H. destruct stack as [|x xs]; [injection H as <-; constructor|].
  destruct (dbpriv_find_object (vbase s) x) as [l|] eqn:El; [|apply res_skip; [done|by apply IH]].
  destruct (finds s vname l) as [i|] eqn:Ef; [injection H as <-; by eapply res_here|].
  destruct (obj_heap (vbase s) !! l) as [o|] eqn:Eo; [|done]. eapply res_up; [done..|]. by apply IH.
Qed.
Lemma ref_mono n m s vname : (n <= m)%nat -> forall stack r, ref_loop n s vname stack = Some r -> ref_loop m s vname stack = Some r.
Proof.
  revert m. induction n as [|n IH]; intros m Hm stack r H; [done|]. destruct m as [|m]; [lia|]. cbn [ref_loop] in *.
  destruct stack as [|x xs]; [done|]. destruct (dbpriv_find_object (vbase s) x) as [l|]; [|apply IH; [lia|done]].
  destruct (finds s vname l); [done|]. destruct (obj_heap (vbase s) !! l); [|done]. apply IH; [lia|done].
Qed.
Lemma resolves_ref s vname stack r : resolves s vname stack r -> exists n, ref_loop n s vname stack = Some r.
Proof.
  induction 1 as [|x xs r Hx _ [n IH]|x xs l i Hx Hi|x xs l o r Hx Hi Ho _ [n IH]].
  - by exists 1%nat.
  - exists (S n). cbn [ref_loop]. by rewrite Hx.
  - exists 1%nat. cbn [ref_loop]. by rewrite Hx, Hi.
  - exists (S n). cbn [ref_loop]. by rewrite Hx, Hi, Ho.
Qed.

Lemma resolves_det s vname stack r r' : resolves s vname stack r -> resolves s vname stack r' -> r = r'.
Proof.
  intros [n H]%resolves_ref [m H']%resolves_ref. destruct (Nat.le_ge_cases n m) as [Hl|Hl].
  - apply (ref_mono n m) in H; [|done]. congruence.
  - apply (ref_mono m n) in H'; [|done]. congruence.
Qed.

(** A stack in two parts *)
Lemma ref_app n s vname : forall a b r, ref_loop n s vname (a ++ b) = Some r ->
  (exists h, r = Some h /\ ref_loop n s vname a = Some (Some h)) \/ (ref_loop n s vname a = Some None /\ ref_loop n s vname b = Some r).
Proof.
  induction n as [|n IH]; intros a b r H; [done|]. destruct a as [|x a]; [by right|]. cbn [app ref_loop] in *.
  assert (forall m st q, ref_loop m s vname st = Some q -> ref_loop (S m) s vname st = Some q) as Hs by (intros m; apply ref_mono; lia).
  destruct (dbpriv_find_object (vbase s) x) as [l|]; [destruct (finds s vname l) as [i|]; [|destruct (obj_heap (vbase s) !! l) as [o|]; [rewrite app_assoc in H|done]]|].
  - left. injection H as <-. by eexists.
  - destruct (IH _ b r H) as [(h & -> & Ha)|[Ha Hb]]; [left; by exists h|right]. split; [done|by apply (Hs n)].
  - destruct (IH _ b r H) as [(h & -> & Ha)|[Ha Hb]]; [left; by exists h|right]. split; [done|by apply (Hs n)].
Qed.

(** The search ends on every stack. *)
Lemma resolves_total s vname stack : table_ok (vbase s) -> acyclic (edge parents (vbase s)) -> exists r, resolves s vname stack r.
Proof.
  intros Ht [rank Hr].
  assert (forall n x xs r, (rank x < n)%nat -> resolves s vname xs r -> exists r', resolves s vname (x :: xs) r') as Hx.
  { induction n as [|n IH]; intros x xs r Hn H; [lia|]. destruct (dbpriv_find_object (vbase s) x) as [l|] eqn:El; [|exists r; by apply res_skip].
    destruct (finds s vname l) as [i|] eqn:Ef; [eexists; by apply res_here|].
    destruct (Ht x l El) as [o Ho]. assert (object_of (vbase s) x = Some o) as Hxo by (unfold object_of; by rewrite El).
    assert (forall ps, (forall y, y ∈ ps -> y ∈ enlist (parents o)) -> exists r', resolves s vname (ps ++ xs) r') as Hps.
    { induction ps as [|y ps IHps]; intros Hy; [by exists r|]. destruct IHps as [r1 H1]; [intros z Hz; apply Hy; by right|]. cbn [app].
      destruct (valid (vbase s) y) eqn:Ev.
      - apply (IH y (ps ++ xs) r1); [|done]. assert (edge parents (vbase s) x y) as He by (exists o; split_and!; [done|apply Hy; by left|done]).
        specialize (Hr x y He). lia.
      - exists r1. apply res_skip; [|done]. unfold valid in Ev. apply bool_decide_eq_false in Ev. by apply eq_None_not_Some. }
    destruct (Hps (enlist (parents o))) as [r' Hr']; [done|]. exists r'. by eapply res_up. }
  induction stack as [|x xs [r IH]]; [exists None; constructor|]. by apply (Hx (S (rank x)) x xs r); [lia|].
Qed.

(** What the search depends on: on the objects of a set closed under parents,
    the verbs and the parents *)
Lemma resolves_frame s s' vname (P : Z -> Prop) stack r :
  (forall x, P x -> dbpriv_find_object (vbase s') x = dbpriv_find_object (vbase s) x /\
     forall l, dbpriv_find_object (vbase s) x = Some l -> finds s' vname l = finds s vname l /\
       forall o, obj_heap (vbase s) !! l = Some o -> exists o', obj_heap (vbase s') !! l = Some o' /\ parents o' = parents o /\ Forall P (enlist (parents o))) ->
  Forall P stack -> resolves s vname stack r -> resolves s' vname stack r.
Proof.
  intros HP Hst H. induction H as [|x xs r Hx _ IH|x xs l i Hx Hi|x xs l o r Hx Hi Ho _ IH]; [constructor|apply Forall_cons in Hst as [Hpx Hst]..];
    destruct (HP x Hpx) as [E Hl].
  - apply res_skip; [congruence|by apply IH].
  - apply res_here; [congruence|]. destruct (Hl l Hx) as [-> _]. done.
  - destruct (Hl l Hx) as [Ef Ho']. destruct (Ho' o Ho) as (o' & Eo & Ep & Hpo). eapply res_up; [rewrite E; exact Hx|by rewrite Ef|exact Eo|].
    rewrite Ep. apply IH. by apply Forall_app.
Qed.

(** ** The invariant *)

Definition entry_ok (s : vdb) (e : vc_entry) : Prop :=
  is_cstr (vc_verbname e) /\ verbdefs s (vc_object e) <> [] /\
  exists x o, dbpriv_find_object (vbase s) x = Some (vc_object e) /\ obj_heap (vbase s) !! vc_object e = Some o /\
    resolves_at s (vc_verbname e) (vc_object e) o (vc_h e).

Record verbs_ok (s : vdb) : Prop := {
  vo_db : db_ok (vbase s);
  vo_owner : forall l vs, verbs s !! l = Some vs -> exists x, dbpriv_find_object (vbase s) x = Some l;
  vo_cache : forall t b e, vc_table s = Some t -> e ∈ default [] (t !! b) -> entry_ok s e }.

(** A string that is not the name of a verb, or one that the verb's name
    accepts as a word *)
Definition plain (s : vdb) (vname : cstring) : Prop :=
  forall l v, v ∈ verbdefs s l -> str_at (vd_name v) = str_at vname -> verbcasecmp false (str_bytes (vd_name v)) (str_bytes vname) = true.
