(* ===== verification/VerbFind.v ===== *)
(** * The cached lookup of a verb

    [db_find_callable_verb] finds what the search finds, whatever the cache
    holds, and the entries it adds are right. *)
From Stdlib Require Import ZArith Lia.
From stdpp Require Import prelude gmap relations strings.
From S2P Require Import Prelude CString Value ObjCode ObjGraph ObjParents ObjChange CmdCode PropSpec VerbCode VerbSpec.

Local Open Scope Z_scope.
Local Open Scope moo_scope.

(** ** Two states with the same objects and verbs *)

Definition same_verbs (s s' : vdb) : Prop := vbase s' = vbase s /\ verbs s' = verbs s.
Lemma same_verbs_refl s : same_verbs s s.
Proof. done. Qed.
Lemma same_verbs_trans s1 s2 s3 : same_verbs s1 s2 -> same_verbs s2 s3 -> same_verbs s1 s3.
Proof. intros [] []. split; congruence. Qed.
#[export] Instance same_verbs_pre : PreOrder same_verbs.
Proof. split; [intros s; apply same_verbs_refl|intros s1 s2 s3; apply same_verbs_trans]. Qed.

Lemma same_verbdefs s s' l : same_verbs s s' -> verbdefs s' l = verbdefs s l.
Proof. intros [_ E]. unfold verbdefs. by rewrite E. Qed.
Lemma same_finds s s' vname l : same_verbs s s' -> finds s' vname l = finds s vname l.
Proof. intros H. unfold finds. by rewrite (same_verbdefs s s'). Qed.
Lemma same_resolves s s' vname stack r : same_verbs s s' -> resolves s vname stack r -> resolves s' vname stack r.
Proof.
  intros Hs. pose proof Hs as [Eb _]. apply (resolves_frame s s' vname (fun _ => True)).
  - intros x _. rewrite Eb. split; [done|]. intros l Hl. split; [by apply same_finds|]. intros o Ho. exists o. split; [done|]. split; [done|].
    by apply Forall_true.
  - by apply Forall_true.
Qed.
Lemma same_resolves_at s s' vname l o r : same_verbs s s' -> resolves_at s vname l o r -> resolves_at s' vname l o r.
Proof. intros Hs. unfold resolves_at. rewrite (same_finds s s') by done. destruct (finds s vname l); [done|]. by apply same_resolves. Qed.
Lemma same_entry s s' e : same_verbs s s' -> entry_ok s e -> entry_ok s' e.
Proof.
  intros Hs (H1 & H2 & x & o & Hx & Ho & Hr). pose proof Hs as [Eb _]. split; [done|]. split; [by rewrite (same_verbdefs s s')|].
  exists x, o. rewrite Eb. split_and!; [done|done|]. by apply (same_resolves_at s s').
Qed.
Lemma same_plain s s' vname : same_verbs s s' -> plain s vname -> plain s' vname.
Proof. intros Hs H l v. rewrite (same_verbdefs s s') by done. apply H. Qed.

(** A state that differs in the cache alone *)
Lemma verbs_ok_table s s' : verbs_ok s -> same_verbs s s' ->
  (forall t b e, vc_table s' = Some t -> e ∈ default [] (t !! b) -> entry_ok s e) -> verbs_ok s'.
Proof.
  intros [H1 H2 H3] Hs Hc. pose proof Hs as [Eb Ev]. split; [by rewrite Eb|rewrite Eb, Ev; exact H2|].
  intros t b e Ht He. eapply same_entry; [exact Hs|]. by eapply Hc.
Qed.
Lemma verbs_ok_counts s g h n m : verbs_ok s -> verbs_ok (with_counts g h n m s).
Proof. intros Hok. apply (verbs_ok_table s); [done|done|]. exact (vo_cache s Hok). Qed.
#[export] Hint Resolve same_verbs_refl verbs_ok_counts : verbs.

Lemma verbs_ok_make s : verbs_ok s -> exists s', make_vc_table s = Some (tt, s') /\ verbs_ok s' /\ same_verbs s s' /\ is_Some (vc_table s').
Proof.
  intros Hok. unfold make_vc_table, vmodify. destruct (vc_table s) as [t|] eqn:Et; eexists; (split; [done|]).
  - split_and!; [done|done|by exists t].
  - split; [|split; [done|by eexists]]. apply (verbs_ok_table s); [done|done|]. intros t b e [= <-]. rewrite lookup_empty. by intros ?%elem_of_nil.
Qed.

Lemma verbs_ok_add s b e : verbs_ok s -> entry_ok s e -> exists s', cache_add b e s = Some (tt, s') /\ verbs_ok s' /\ same_verbs s s'.
Proof.
  intros Hok He. unfold cache_add, vmodify, cache_chain. destruct (vc_table s) as [t|] eqn:Et; eexists; (split; [done|]); [|done].
  split; [|done]. apply (verbs_ok_table s); [done|done|]. intros t' b' e' [= <-] He'. destruct (decide (b' = b)) as [->|Hb].
  - rewrite lookup_insert_eq in He'. cbn [default from_option id] in He'. apply elem_of_cons in He' as [->|He']; [done|]. by eapply (vo_cache s Hok).
  - rewrite lookup_insert_ne in He' by done. by eapply (vo_cache s Hok).
Qed.

(** ** The search in the code *)

Lemma first_verb_ext p q vs : (forall v, v ∈ vs -> p v = q v) -> first_verb p vs = first_verb q vs.
Proof.
  induction vs as [|v vs IH]; intros H; [done|]. cbn [first_verb]. rewrite (H v) by (by left). rewrite IH; [done|]. intros w Hw. apply H. by right.
Qed.
Lemma find_by_name_finds s l verb : plain s verb -> find_verbdef_by_name (verbdefs s l) verb true = finds s (str_bytes verb) l.
Proof.
  intros Hp. apply first_verb_ext. intros v Hv. unfold answers, named. cbn [negb orb]. f_equal.
  destruct (bool_decide (str_at (vd_name v) = str_at verb)) eqn:E; [|done]. apply bool_decide_eq_true in E. by rewrite (Hp l v Hv E).
Qed.
Lemma callable_loop_ref n s verb : plain s verb -> forall stack, callable_loop n s stack verb = ref_loop n s (str_bytes verb) stack.
Proof.
  intros Hp. induction n as [|n IH]; intros stack; [done|]. cbn [callable_loop ref_loop]. destruct stack as [|x xs]; [done|].
  destruct (dbpriv_find_object (vbase s) x) as [l|]; [|apply IH]. rewrite find_by_name_finds by done.
  destruct (finds s (str_bytes verb) l); [done|]. destruct (obj_heap (vbase s) !! l); [apply IH|done].
Qed.

Lemma ref_loop_same n s s' vname : same_verbs s s' -> forall stack, ref_loop n s' vname stack = ref_loop n s vname stack.
Proof.
  intros Hs. pose proof Hs as [Eb _]. induction n as [|n IH]; intros stack; [done|]. cbn [ref_loop]. destruct stack as [|x xs]; [done|].
  rewrite Eb. destruct (dbpriv_find_object (vbase s) x) as [l|]; [|apply IH]. rewrite (same_finds s s') by done.
  destruct (finds s vname l); [done|]. destruct (obj_heap (vbase s) !! l); [apply IH|done].
Qed.

(** ** The cache in the code *)

Lemma finds_case s w w' l : map tolower w = map tolower w' -> finds s w l = finds s w' l.
Proof. intros E. apply first_verb_ext. intros v _. unfold answers. by rewrite (verbcasecmp_case _ w w'). Qed.
Lemma resolves_case s w w' stack r : map tolower w = map tolower w' -> resolves s w stack r -> resolves s w' stack r.
Proof.
  intros E. induction 1 as [|x xs r Hx _ IH|x xs l i Hx Hi|x xs l o r Hx Hi Ho _ IH]; [constructor|by apply res_skip|..].
  - apply res_here; [done|]. by rewrite <- (finds_case s w w').
  - eapply res_up; [done| |done|done]. by rewrite <- (finds_case s w w').
Qed.

(** An entry that is found holds the answer. *)
Lemma cached_answer s b hash l o x verb e : verbs_ok s -> is_cstr verb -> dbpriv_find_object (vbase s) x = Some l -> obj_heap (vbase s) !! l = Some o ->
  List.find (cached hash l verb) (cache_chain s b) = Some e -> resolves_at s verb l o (vc_h e).
Proof.
  intros Hok Hv Hx Ho Hf. apply List.find_some in Hf as [Hin Hc]. unfold cache_chain in Hin. destruct (vc_table s) as [t|] eqn:Et; [|done].
  apply list_elem_of_In in Hin. destruct (vo_cache s Hok t b e Et Hin) as (Hn & _ & x' & o' & Hx' & Ho' & Hr).
  unfold cached in Hc. apply andb_true_iff in Hc as [[_ Hl%bool_decide_eq_true]%andb_true_iff Hs%Z.eqb_eq].
  apply strcmp_by_zero in Hs; [|apply tolower_byte_map|done..]. rewrite <- Hl in *. assert (o' = o) as -> by congruence.
  unfold resolves_at in *. rewrite (finds_case s _ (vc_verbname e)) by done. destruct (finds s (vc_verbname e) l); [done|].
  by eapply resolves_case.
Qed.

Section loop.
Context (address : loc -> Z) (verb : cstring).
Hypothesis Hverb : is_cstr (str_bytes verb).

(** What the walk from an object of [ref_loop]'s kind finds *)
Definition walked (walk : nat) (s : vdb) (l : loc) (o : Object) : option (option handle) :=
  match finds s (str_bytes verb) l with
  | Some i => Some (Some (mk_handle l i))
  | None => ref_loop walk s (str_bytes verb) (enlist (parents o))
  end.
Lemma walked_resolves walk s l o r : walked walk s l o = Some r -> resolves_at s (str_bytes verb) l o r.
Proof. unfold walked, resolves_at. destruct (finds _ _ _); [by intros [= <-]|apply ref_resolves]. Qed.
Lemma ref_walked walk n s x l o xs r : dbpriv_find_object (vbase s) x = Some l -> obj_heap (vbase s) !! l = Some o ->
  ref_loop (S n) s (str_bytes verb) (x :: xs) = Some r -> (n <= walk)%nat -> is_Some (walked walk s l o).
Proof.
  intros Hx Ho Hr Hw. unfold walked. cbn [ref_loop] in Hr. rewrite Hx, Ho in Hr. destruct (finds _ _ _); [by eexists|].
  apply ref_app in Hr as [(h & _ & Ha)|[Ha _]]; (eexists; apply (ref_mono n walk); [done|exact Ha]).
Qed.

(** What the body does on a receiver or ancestor with verbs *)
Lemma cached_step walk s x l o (k : M vdb (option handle)) :
  verbs_ok s -> plain s verb -> dbpriv_find_object (vbase s) x = Some l -> obj_heap (vbase s) !! l = Some o -> verbdefs s l <> [] ->
  let body := (make_vc_table ;;
     let hash := cache_hash address (str_bytes verb) l in
     let bucket := cache_bucket hash in
     fun s =>
     match List.find (cached hash l (str_bytes verb)) (cache_chain s bucket) with
     | Some vc =>
       match vc_h vc with
       | Some h => (count_hit ;; mreturn (Some h)) s
       | None => (count_neg_hit ;; k) s
       end
     | None =>
       match find_callable_verbdef walk s l verb with
       | None => None
       | Some data =>
         (count_miss ;;
          cache_add bucket (mk_vc hash l (str_bytes verb) data) ;;
          match data with
          | Some h => mreturn (Some h)
          | None => k
          end) s
       end
     end) s in
  (body = None /\ walked walk s l o = None) \/
  exists r1 s1, resolves_at s (str_bytes verb) l o r1 /\ verbs_ok s1 /\ same_verbs s s1 /\
    body = match r1 with Some h => Some (Some h, s1) | None => k s1 end.
Proof.
  intros Hok Hp Hx Ho Hne. destruct (verbs_ok_make s Hok) as (s0 & E0 & Hok0 & Hs0 & Ht0). pose proof Hs0 as [Eb0 _].
  erewrite mbind_Some by exact E0. cbv beta zeta. set (hash := cache_hash address (str_bytes verb) l). set (b := cache_bucket hash).
  assert (forall q, resolves_at s0 (str_bytes verb) l o q -> resolves_at s (str_bytes verb) l o q) as Hback.
  { intros q. apply same_resolves_at. split; symmetry; apply Hs0. }
  destruct (List.find (cached hash l (str_bytes verb)) (cache_chain s0 b)) as [e|] eqn:Ef.
  - right. assert (resolves_at s0 (str_bytes verb) l o (vc_h e)) as Ha by (eapply (cached_answer s0 b hash l o x); rewrite ?Eb0; done).
    exists (vc_h e).
    destruct (vc_h e) as [h|]; eexists; (split; [by apply Hback|]); (split; [|split; [|reflexivity]]);
      try (by apply verbs_ok_counts); (eapply same_verbs_trans; [exact Hs0|done]).
  - assert (find_callable_verbdef walk s0 l verb = walked walk s l o) as ->.
    { unfold find_callable_verbdef, walked. rewrite find_by_name_finds by (by apply (same_plain s)). rewrite (same_finds s s0), Eb0, Ho by done.
      destruct (finds s (str_bytes verb) l); [done|]. rewrite callable_loop_ref by (by apply (same_plain s)). by apply ref_loop_same. }
    destruct (walked walk s l o) as [r1|] eqn:Ew; [right|by left]. apply walked_resolves in Ew.
    set (s1 := with_counts (db_verb_generation s0) (verbcache_hit s0) (verbcache_neg_hit s0) (to_int (verbcache_miss s0 + 1)) s0).
    assert (verbs_ok s1) as Hok1 by (by apply verbs_ok_counts).
    assert (entry_ok s1 (mk_vc hash l (str_bytes verb) r1)) as He.
    { apply (same_entry s); [eapply same_verbs_trans; [exact Hs0|done]|]. split; [done|]. split; [done|]. by exists x, o. }
    destruct (verbs_ok_add s1 b _ Hok1 He) as (s2 & E2 & Hok2 & Hs2).
    exists r1, s2. split; [done|]. split; [done|]. split; [eapply same_verbs_trans; [exact Hs0|exact Hs2]|].
    unfold count_miss, vmodify. erewrite mbind_Some by reflexivity. fold s1. erewrite mbind_Some by exact E2. by destruct r1.
Qed.

Lemma vlift_eq {A} (m : M db A) s x : m (vbase s) = Some (x, vbase s) -> vlift m s = Some (x, s).
Proof. intros E. unfold vlift. rewrite E. by destruct s. Qed.

Lemma loop_ok walk n : forall s xs r steps, ref_loop n s (str_bytes verb) xs = Some r -> (n <= walk)%nat -> (n <= steps)%nat ->
  verbs_ok s -> plain s verb ->
  exists s', find_callable_loop address steps walk (VObj <$> xs) verb s = Some (r, s') /\ verbs_ok s' /\ same_verbs s s'.
Proof.
  induction n as [|n IH]; intros s xs r steps Hr Hw Hst Hok Hp; [done|]. destruct steps as [|steps]; [lia|]. pose proof Hr as Hr0.
  cbn [ref_loop] in Hr. destruct xs as [|x xs]; [injection Hr as <-; exists s; by split_and!|].
  rewrite fmap_cons. cbn [find_callable_loop is_object].
  destruct (dbpriv_find_object (vbase s) x) as [l|] eqn:El.
  2:{ rewrite (mbind_Some _ _ s false s) by (apply vlift_eq; unfold is_valid, valid; by rewrite El). cbn [negb]. apply IH; [done|lia|lia|done|done]. }
  destruct (obj_heap (vbase s) !! l) as [o|] eqn:Eo.
  2:{ destruct (ti_table _ (ok_table _ (vo_db s Hok)) x l El) as [o Ho]. congruence. }
  rewrite (mbind_Some _ _ s true s) by (apply vlift_eq; unfold is_valid, valid; by rewrite El). cbn [negb].
  erewrite mbind_Some by (apply vlift_eq; by apply slot_eq). erewrite mbind_Some by (apply vlift_eq; by apply load_eq). cbv beta.
  destruct (verbdefs s l) as [|v vs] eqn:Ev.
  - assert (finds s (str_bytes verb) l = None) as Ef by (unfold finds; by rewrite Ev). rewrite Ef in Hr.
    rewrite <- fmap_app. apply IH; [done|lia|lia|done|done].
  - destruct (cached_step walk s x l o (find_callable_loop address steps walk (VObj <$> xs) verb) Hok Hp El Eo ltac:(by rewrite Ev))
      as [[_ Hn]|(r1 & s1 & Hr1 & Hok1 & Hs1 & E)]; [destruct (ref_walked walk n s x l o xs r El Eo Hr0) as [? ?]; [lia|congruence]|].
    cbv zeta in E. rewrite E. unfold resolves_at in Hr1. destruct (finds s (str_bytes verb) l) as [i|].
    + rewrite Hr1. injection Hr as <-. by exists s1.
    + apply ref_app in Hr as [(h & -> & Ha)|[Ha Hb]].
      * assert (r1 = Some h) as -> by (eapply resolves_det; [done|by eapply ref_resolves]). by exists s1.
      * assert (r1 = None) as -> by (eapply resolves_det; [done|by eapply ref_resolves]).
        destruct (IH s1 xs r steps) as (s2 & E2 & Hok2 & Hs2); [by rewrite (ref_loop_same n s s1)|lia|lia|done|by apply (same_plain s)|].
        exists s2. split; [done|]. split; [done|]. by eapply same_verbs_trans.
Qed.

(** Whatever the number of iterations, the loop leaves the cache right. *)
Lemma loop_keep walk : forall steps s xs r s', verbs_ok s -> plain s verb ->
  find_callable_loop address steps walk (VObj <$> xs) verb s = Some (r, s') -> verbs_ok s' /\ same_verbs s s'.
Proof.
  induction steps as [|steps IH]; intros s xs r s' Hok Hp H; [done|]. destruct xs as [|x xs]; [by injection H as _ <-|].
  rewrite fmap_cons in H. cbn [find_callable_loop is_object] in H. destruct (dbpriv_find_object (vbase s) x) as [l|] eqn:El.
  2:{ rewrite (mbind_Some _ _ s false s) in H by (apply vlift_eq; unfold is_valid, valid; by rewrite El). by apply IH in H. }
  destruct (obj_heap (vbase s) !! l) as [o|] eqn:Eo.
  2:{ destruct (ti_table _ (ok_table _ (vo_db s Hok)) x l El) as [o Ho]. congruence. }
  rewrite (mbind_Some _ _ s true s) in H by (apply vlift_eq; unfold is_valid, valid; by rewrite El). cbn [negb] in H.
  erewrite mbind_Some in H by (apply vlift_eq; by apply slot_eq). erewrite mbind_Some in H by (apply vlift_eq; by apply load_eq). cbv beta in H.
  destruct (verbdefs s l) as [|v vs] eqn:Ev; [rewrite <- fmap_app in H; by apply IH in H|].
  destruct (cached_step walk s x l o (find_callable_loop address steps walk (VObj <$> xs) verb) Hok Hp El Eo ltac:(by rewrite Ev))
    as [[E _]|(r1 & s1 & _ & Hok1 & Hs1 & E)]; cbv zeta in E; rewrite E in H; [done|]. destruct r1 as [h|]; [by injection H as _ <-|].
  apply IH in H as [Hok2 Hs2]; [|done|by apply (same_plain s)]. split; [done|]. by eapply same_verbs_trans.
Qed.

(** ** The function *)

(** What the search from a receiver answers *)
Definition resolves_recv (s : vdb) (vname : bytes) (recv : Var) (r : option handle) : Prop :=
  match recv with
  | VObj x => resolves s vname [x] r
  | VAnon (Some l) => exists o, obj_heap (vbase s) !! l = Some o /\
      if dbpriv_object_has_flag o FLAG_INVALID then r = None else resolves_at s vname l o r
  | VAnon None => r = None
  | _ => False
  end.

(** A number, or an anonymous object *)
Definition receiver (s : vdb) (recv : Var) : Prop :=
  match recv with
  | VObj _ => True
  | VAnon (Some l) => exists o, obj_heap (vbase s) !! l = Some o /\ anonymous (vbase s) l o
  | VAnon None => True
  | _ => False
  end.

Lemma anonymous_verbless s l o : verbs_ok s -> anonymous (vbase s) l o -> verbdefs s l = [].
Proof.
  intros Hok (Ha & _). unfold verbdefs. destruct (verbs s !! l) as [vs|] eqn:E; [|done]. destruct (vo_owner s Hok l vs E) as [x Hx].
  by destruct (Ha x).
Qed.

Lemma db_find_callable_verb_ok s recv : verbs_ok s -> plain s verb -> receiver s recv ->
  exists r n, resolves_recv s (str_bytes verb) recv r /\ forall steps walk, (n <= steps)%nat -> (n <= walk)%nat ->
    exists s', db_find_callable_verb address steps walk recv verb s = Some (r, s') /\ verbs_ok s' /\ same_verbs s s'.
Proof.
  intros Hok Hp Hrecv. unfold db_find_callable_verb. pose proof (vo_db s Hok) as Hdb.
  destruct recv as [|x| | | | | | | | | | |[l|]| |]; try done; cbn [is_object resolves_recv].
  - destruct (resolves_total s (str_bytes verb) [x] (ti_table _ (ok_table _ Hdb)) (fm_acyclic _ _ _ (ok_family _ Hdb))) as [r Hr].
    destruct (resolves_ref _ _ _ _ Hr) as [n Hn]. exists r, n. split; [done|]. intros steps walk Hs Hw.
    exact (loop_ok walk n s [x] r steps Hn Hw Hs Hok Hp).
  - destruct Hrecv as (o & Ho & Ha). pose proof (holder_anon _ _ _ Ha Ho) as Hh.
    pose proof (anonymous_verbless s l o Hok Ha) as Hv. assert (finds s (str_bytes verb) l = None) as Hf by (unfold finds; by rewrite Hv).
    destruct (resolves_total s (str_bytes verb) (enlist (parents o)) (ti_table _ (ok_table _ Hdb)) (fm_acyclic _ _ _ (ok_family _ Hdb))) as [r Hr].
    destruct (resolves_ref _ _ _ _ Hr) as [n Hn].
    exists (if dbpriv_object_has_flag o FLAG_INVALID then None else r), (S (S n)). split.
    { exists o. split; [done|]. destruct (dbpriv_object_has_flag o FLAG_INVALID); [done|]. unfold resolves_at. by rewrite Hf. }
    intros steps walk Hs Hw. destruct steps as [|steps]; [lia|]. cbn [find_callable_loop is_object].
    rewrite (mbind_Some _ _ s (usable (VAnon (Some l)) o) s) by (apply vlift_eq; by apply (is_valid_usable _ _ l)). cbn [usable].
    destruct (dbpriv_object_has_flag o FLAG_INVALID); cbn [negb].
    + exists s. destruct steps; [lia|]. by split_and!.
    + erewrite mbind_Some by (by apply vlift_eq). erewrite mbind_Some by (apply vlift_eq; by apply load_eq). cbv beta. rewrite Hv, app_nil_r.
      exact (loop_ok walk n s _ r steps Hn ltac:(lia) ltac:(lia) Hok Hp).
  - exists None, 2%nat. split; [done|]. intros steps walk Hs Hw. destruct steps as [|[|steps]]; [lia..|]. cbn [find_callable_loop is_object].
    rewrite (mbind_Some _ _ s false s) by (by apply vlift_eq). by exists s.
Qed.
Lemma db_find_callable_verb_keep steps walk s recv r s' : verbs_ok s -> plain s verb -> receiver s recv ->
  db_find_callable_verb address steps walk recv verb s = Some (r, s') -> verbs_ok s' /\ same_verbs s s'.
Proof.
  intros Hok Hp Hrecv H. unfold db_find_callable_verb in H. pose proof (vo_db s Hok) as Hdb.
  destruct recv as [|x| | | | | | | | | | |[l|]| |]; try done; cbn [is_object] in H.
  - by apply (loop_keep walk steps s [x] r).
  - destruct Hrecv as (o & Ho & Ha). pose proof (holder_anon _ _ _ Ha Ho) as Hh. destruct steps as [|steps]; [done|].
    pose proof (anonymous_verbless s l o Hok Ha) as Hv. cbn [find_callable_loop is_object] in H.
    rewrite (mbind_Some _ _ s (usable (VAnon (Some l)) o) s) in H by (apply vlift_eq; by apply (is_valid_usable _ _ l)). cbn [usable] in H.
    destruct (dbpriv_object_has_flag o FLAG_INVALID); cbn [negb] in H; [by apply (loop_keep walk steps s [] r)|].
    erewrite mbind_Some in H by (by apply vlift_eq). erewrite mbind_Some in H by (apply vlift_eq; by apply load_eq). cbv beta in H.
    rewrite Hv, app_nil_r in H. by apply loop_keep in H.
  - destruct steps as [|steps]; [done|]. cbn [find_callable_loop is_object] in H.
    rewrite (mbind_Some _ _ s false s) in H by (by apply vlift_eq). by apply (loop_keep walk steps s [] r).
Qed.
End loop.

(** ** Verbs of commands *)

Lemma first_verb_Some p vs i : first_verb p vs = Some i <->
  exists vs1 v vs2, vs = vs1 ++ v :: vs2 /\ i = length vs1 /\ p v = true /\ Forall (fun w => p w = false) vs1.
Proof.
  revert i. induction vs as [|v vs IH]; intros i; cbn [first_verb].
  - split; [done|]. intros ([|] & ? & ? & ? & _); done.
  - destruct (p v) eqn:Ev.
    + split; [intros [= <-]; by exists [], v, vs|]. intros ([|w vs1] & v' & vs2 & [= -> ->] & -> & Hp & HF); [done|].
      apply Forall_cons in HF as [HF _]. congruence.
    + split.
      * intros H. destruct (first_verb p vs) as [j|]; [|done]. injection H as <-.
        destruct (proj1 (IH j) eq_refl) as (vs1 & w & vs2 & -> & -> & Hp & HF). exists (v :: vs1), w, vs2. split_and!; try done. by constructor.
      * intros ([|w vs1] & v' & vs2 & [= -> ->] & -> & Hp & HF); [congruence|]. apply Forall_cons in HF as [_ HF].
        rewrite (proj2 (IH (length vs1))); [done|]. by exists vs1, v', vs2.
Qed.
Lemma first_verb_None p vs : first_verb p vs = None <-> Forall (fun v => p v = false) vs.
Proof.
  induction vs as [|v vs IH]; cbn [first_verb]; [done|]. rewrite Forall_cons. destruct (p v).
  - split; [done|]. by intros [? _].
  - destruct (first_verb p vs); simpl; [split; [done|]; intros [_ H]; by apply IH in H|]. split; [|done]. intros _. split; [done|by apply IH].
Qed.

(** The first verb along the line of the object that a predicate accepts *)
Definition first_along (s : vdb) (p : Verbdef -> bool) (ls : list loc) (r : option handle) : Prop :=
  match r with
  | None => forall l v, l ∈ ls -> v ∈ verbdefs s l -> p v = false
  | Some h => exists ls1 ls2, ls = ls1 ++ definer h :: ls2 /\ first_verb p (verbdefs s (definer h)) = Some (verbdef h) /\
      forall l v, l ∈ ls1 -> v ∈ verbdefs s l -> p v = false
  end.

Lemma command_loop_ok p xs : forall s, Forall (fun x => valid (vbase s) x = true) xs ->
  exists r, command_loop (VObj <$> xs) p s = Some (r, s) /\ first_along s p (locs_of (vbase s) xs) r.
Proof.
  induction xs as [|x xs IH]; intros s Hv; [exists None; split; [done|]; by intros l v ?%elem_of_nil|].
  apply Forall_cons in Hv as [Hx Hv]. unfold valid in Hx. apply bool_decide_eq_true in Hx as [l El]. rewrite fmap_cons. cbn [command_loop].
  erewrite mbind_Some by (apply vlift_eq; by apply slot_eq). unfold locs_of. cbn [omap list_omap]. rewrite El. fold (locs_of (vbase s) xs).
  destruct (first_verb p (verbdefs s l)) as [i|] eqn:Ei.
  - exists (Some (mk_handle l i)). split; [done|]. exists [], (locs_of (vbase s) xs). split; [done|]. split; [done|]. by intros ? ? ?%elem_of_nil.
  - destruct (IH s Hv) as (r & E & Hr). exists r. split; [exact E|]. apply first_verb_None in Ei. rewrite Forall_forall in Ei.
    destruct r as [h|].
    + destruct Hr as (ls1 & ls2 & -> & Hf & Hn). exists (l :: ls1), ls2. split; [done|]. split; [done|].
      intros m v [->|Hm]%elem_of_cons Hv'; [by apply Ei|by eapply Hn].
    + intros m v [->|Hm]%elem_of_cons Hv'; [by apply Ei|by eapply Hr].
Qed.

(** ** What leaves the verb cache right

    The cache survives every change of the object table that leaves the
    parents of the objects with verbs, and of their ancestors, as they are
    ([verbs_ok_kept]).  This is why [db_change_parents] need not clear it when
    the object has no verbs and no children. *)
Local Open Scope Z_scope.
Local Open Scope moo_scope.

(** [d'] has the objects of [d], at the same addresses and with the same
    parents, but for the numbers in [X]. *)
Definition kept_but (X : Z -> Prop) (d d' : db) : Prop :=
  forall x l, dbpriv_find_object d x = Some l -> dbpriv_find_object d' x = Some l /\
    (~ X x -> forall o, obj_heap d !! l = Some o -> exists o', obj_heap d' !! l = Some o' /\ parents o' = parents o).

Lemma parents_named d x o : db_ok d -> object_of d x = Some o -> Forall (fun y => y = NOTHING \/ valid d y = true) (enlist (parents o)).
Proof.
  intros Hok Ho. pose proof (fm_wf _ _ _ (ok_family d Hok) x o Ho) as Hw. unfold parents_wf in Hw. destruct (parents o) as [p|ps].
  - constructor; [exact Hw|constructor].
  - eapply Forall_impl; [exact Hw|]. intros y Hy. by right.
Qed.

Section kept.
Context (s s' : vdb) (X : Z -> Prop).
Hypothesis Hok : verbs_ok s.
Hypothesis Hdb : db_ok (vbase s').
Hypothesis Hkept : kept_but X (vbase s) (vbase s').
Hypothesis Hverbs : verbs s' = verbs s.
Hypothesis Hless : forall x l, X x -> dbpriv_find_object (vbase s) x = Some l -> verbdefs s l = [].
Hypothesis Hleaf : forall x o y, object_of (vbase s) x = Some o -> y ∈ enlist (parents o) -> ~ X y.

Lemma kept_resolves vname stack r :
  Forall (fun y => (y = NOTHING \/ valid (vbase s) y = true) /\ ~ X y) stack -> resolves s vname stack r -> resolves s' vname stack r.
Proof.
  apply (resolves_frame s s' vname). intros x [Hx HX]. assert (dbpriv_find_object (vbase s') x = dbpriv_find_object (vbase s) x) as Ex.
  { destruct Hx as [->|Hv].
    - pose proof (nothing_invalid _ (ok_table _ (vo_db s Hok))) as H1. pose proof (nothing_invalid _ (ok_table _ Hdb)) as H2.
      unfold valid in H1, H2. apply bool_decide_eq_false, eq_None_not_Some in H1, H2. congruence.
    - apply bool_decide_eq_true in Hv as [l El]. rewrite El. by apply Hkept. }
  split; [exact Ex|]. intros l El. split; [unfold finds, verbdefs; by rewrite Hverbs|]. intros o Ho.
  destruct (proj2 (Hkept x l El) HX o Ho) as (o' & Ho' & Hp). exists o'. split; [done|]. split; [done|].
  assert (object_of (vbase s) x = Some o) as Hxo by (unfold object_of; by rewrite El).
  apply Forall_forall. intros y Hy. split; [|by eapply Hleaf]. pose proof (parents_named _ _ _ (vo_db s Hok) Hxo) as Hn. rewrite Forall_forall in Hn.
  by apply Hn.
Qed.

Lemma kept_entry e : entry_ok s e -> entry_ok s' e.
Proof.
  intros (H1 & H2 & x & o & Hx & Ho & Hr). assert (~ X x) as HX by (intros HX; by apply H2, (Hless x)).
  destruct (Hkept x _ Hx) as [Hx' Hk]. destruct (Hk HX o Ho) as (o' & Ho' & Hp).
  split; [done|]. split; [unfold verbdefs; by rewrite Hverbs|]. exists x, o'. split; [done|]. split; [done|].
  unfold resolves_at in *. assert (finds s' (vc_verbname e) (vc_object e) = finds s (vc_verbname e) (vc_object e)) as -> by (unfold finds, verbdefs; by rewrite Hverbs).
  destruct (finds s (vc_verbname e) (vc_object e)); [done|]. rewrite Hp. apply kept_resolves; [|done].
  assert (object_of (vbase s) x = Some o) as Hxo by (unfold object_of; by rewrite Hx).
  apply Forall_forall. intros y Hy. split; [|by eapply Hleaf]. pose proof (parents_named _ _ _ (vo_db s Hok) Hxo) as Hn. rewrite Forall_forall in Hn.
  by apply Hn.
Qed.

Lemma verbs_ok_kept : vc_table s' = vc_table s -> verbs_ok s'.
Proof.
  intros Ht. split; [done| |].
  - intros l vs H. rewrite Hverbs in H. destruct (vo_owner s Hok l vs H) as [x Hx]. exists x. by apply Hkept.
  - intros t b e H He. rewrite Ht in H. apply kept_entry. by eapply (vo_cache s Hok).
Qed.
End kept.

(** Nothing is left in the cache. *)
Lemma verbs_ok_cleared s : db_ok (vbase s) -> (forall l vs, verbs s !! l = Some vs -> exists x, dbpriv_find_object (vbase s) x = Some l) ->
  vc_table s = None \/ vc_table s = Some ∅ -> verbs_ok s.
Proof.
  intros H1 H2 H3. split; [done|done|]. intros t b e Ht He. destruct H3 as [H3|H3]; rewrite Ht in H3; [done|]. injection H3 as ->.
  rewrite lookup_empty in He. by apply elem_of_nil in He.
Qed.

Definition cleared_state (s : vdb) : vdb :=
  match vc_table s with
  | None => s
  | Some _ => with_table (Some ∅) (with_counts (to_int (db_verb_generation s + 1)) (verbcache_hit s) (verbcache_neg_hit s) (verbcache_miss s) s)
  end.
Lemma clear_eq s : db_priv_affected_callable_verb_lookup s = Some (tt, cleared_state s).
Proof. done. Qed.
Lemma cleared_base s : vbase (cleared_state s) = vbase s.
Proof. unfold cleared_state. by destruct (vc_table s). Qed.
Lemma cleared_verbs s : verbs (cleared_state s) = verbs s.
Proof. unfold cleared_state. by destruct (vc_table s). Qed.
Lemma cleared_table s : vc_table (cleared_state s) = None \/ vc_table (cleared_state s) = Some ∅.
Proof. unfold cleared_state. destruct (vc_table s) eqn:E; [by right|by left]. Qed.
Lemma cleared_verbdefs s l : verbdefs (cleared_state s) l = verbdefs s l.
Proof. unfold verbdefs. by rewrite cleared_verbs. Qed.

(** The verbs of a permanent object changed, with a cleared cache *)
Lemma verbs_ok_set s x l vs : verbs_ok s -> dbpriv_find_object (vbase s) x = Some l ->
  verbs_ok (with_verbs (<[l := vs]> (verbs s)) (cleared_state s)).
Proof.
  intros [H1 H2 _] Hx. apply verbs_ok_cleared; cbn [vbase verbs vc_table with_verbs].
  - by rewrite cleared_base.
  - rewrite cleared_base. intros m ws H. destruct (decide (m = l)) as [->|Hm]; [by exists x|]. rewrite lookup_insert_ne in H by done. by eapply H2.
  - apply cleared_table.
Qed.

(** ** [db_change_parents] *)

Lemma db_change_parents_verbs_ok check fuel s x l o new :
  verbs_ok s -> dbpriv_find_object (vbase s) x = Some l -> obj_heap (vbase s) !! l = Some o -> parents_wf (vbase s) new ->
  (forall p, p ∈ enlist new -> valid (vbase s) p = true -> avoids (vbase s) x p) -> (walk_fuel (vbase s) <= fuel)%nat ->
  exists b s', db_change_parents_verbs check fuel (VObj x) new [] s = Some (b, s') /\ verbs_ok s' /\ verbs s' = verbs s /\
    if b : bool then edits (vbase s) (vbase s') (relinked x (parents o) new) else s' = s.
Proof.
  intros Hok Hx Ho Hw Hav Hf. assert (object_of (vbase s) x = Some o) as Hxo by (unfold object_of; by rewrite Hx).
  destruct (db_change_parents_ok check fuel (vbase s) x o new (vo_db s Hok) Hxo Hw Hav Hf) as (b & d' & E & Hdb & Hd).
  unfold db_change_parents_verbs. erewrite mbind_Some by (apply vlift_eq; by apply slot_eq).
  erewrite mbind_Some by (apply vlift_eq; by apply load_eq). rewrite (mbind_Some _ _ s b (with_vbase d' s)) by (unfold vlift; by rewrite E).
  destruct b.
  2:{ subst d'. exists false, s. split; [by destruct s|]. by split_and!. }
  assert (forall y, dbpriv_find_object d' y = dbpriv_find_object (vbase s) y) as Hfind by (intros y; exact (edited_find _ _ _ y Hd)).
  destruct (bool_decide (verbdefs (with_vbase d' s) l = []) && is_nil (children o)) eqn:Eb.
  - apply andb_true_iff in Eb as [Ev%bool_decide_eq_true Ec]. exists true, (with_vbase d' s). split; [done|]. split; [|by split].
    apply (verbs_ok_kept s (with_vbase d' s) (fun y => y = x) Hok Hdb); [|done| | |done].
    + intros y m Hy. cbn [vbase with_vbase]. rewrite Hfind. split; [done|]. intros Hne p Hp.
      pose proof (edits_of _ _ _ y Hd) as Hof. unfold object_of in Hof. rewrite Hfind, Hy in Hof. cbn in Hof. rewrite Hp in Hof.
      exists (relinked x (parents o) new y p). split; [exact Hof|]. rewrite relinked_parents. by rewrite decide_False.
    + intros y m -> Hy. assert (m = l) as -> by congruence. exact Ev.
    + intros y p z Hy Hz ->. assert (edge parents (vbase s) y x) as He by (exists p; split_and!; [done|done|by eapply object_valid]).
      apply (fm_inverse _ _ _ (ok_family _ (vo_db s Hok))) in He as (o' & Ho' & Hin & _). assert (o' = o) as -> by congruence.
      unfold children_of in Hin. destruct (children o); [by apply elem_of_nil in Hin|done].
  - exists true, (cleared_state (with_vbase d' s)). split; [done|]. split; [|by rewrite cleared_verbs, cleared_base].
    apply verbs_ok_cleared; [by rewrite cleared_base| |apply cleared_table]. rewrite cleared_verbs, cleared_base. cbn [vbase with_vbase verbs].
    intros m vs H. destruct (vo_owner s Hok m vs H) as [y Hy]. exists y. by rewrite Hfind.
Qed.
