(* ===== verification/VerbFun.v ===== *)
(** * The built-ins on verbs (verbs.cc)

    [bf_*] after the argument count and types that [register_function]
    declares have been checked.  A string that is compared with the names of
    verbs comes with its address; a copied name has a fresh one.  [numeric] is
    the option [support_numeric_verbname_strings], [parse_list_as_program] the
    generated parser, which gives a program or none and the list of errors. *)
From Stdlib Require Import ZArith Lia.
From stdpp Require Import prelude gmap strings.
From S2P Require Import Prelude CString Value ObjCode ObjFun NumCode CmdCode VerbCode.

Local Open Scope Z_scope.
Local Open Scope moo_scope.

Definition verror (e : error) : M vdb package := mreturn (PError e).

Definition bf_verbs (obj : Var) (progr : Z) : M vdb package :=
  if negb (is_object obj) then verror E_TYPE
  else
    let! v := vlift (is_valid obj) in
    if negb v then verror E_INVARG
    else
      let! allowed := vlift (db_object_allows obj progr FLAG_READ) in
      if negb allowed then verror E_PERM
      else
        let! l := vlift (dbpriv_dereference obj) in
        fun s => Some (PVar (VList ((fun v => VStr (str_bytes (vd_name v))) <$> verbdefs s l)), s).

Definition verb_flag (c : Z) : option Z :=
  if (c =? 114) || (c =? 82) then Some VF_READ
  else if (c =? 119) || (c =? 87) then Some VF_WRITE
  else if (c =? 120) || (c =? 88) then Some VF_EXEC
  else if (c =? 100) || (c =? 68) then Some VF_DEBUG
  else None.
Fixpoint verb_flags (s : bytes) (flags : Z) : option Z :=
  match s with
  | [] => Some flags
  | c :: s => match verb_flag c with Some f => verb_flags s (Z.lor flags f) | None => None end
  end.

Definition validate_verb_info (d : db) (v : Var) : (Z * Z * bytes) + error :=
  match v with
  | VList [VObj owner; VStr s; VStr names] =>
    if negb (valid d owner) then inr E_INVARG
    else match verb_flags s 0 with
         | None => inr E_INVARG
         | Some flags => if is_nil (skip_spaces names) then inr E_INVARG else inl (owner, flags, skip_spaces names)
         end
  | _ => inr E_TYPE
  end.

Definition match_arg_spec (s : bytes) : option Z :=
  if strcasecmp s (str "none") =? 0 then Some ASPEC_NONE
  else if strcasecmp s (str "any") =? 0 then Some ASPEC_ANY
  else if strcasecmp s (str "this") =? 0 then Some ASPEC_THIS
  else None.
(** No value where [db_match_prep] has none *)
Definition match_prep_spec (s : bytes) : option (option Z) :=
  if strcasecmp s (str "none") =? 0 then Some (Some PREP_NONE)
  else if strcasecmp s (str "any") =? 0 then Some (Some PREP_ANY)
  else match db_match_prep s with
       | Some prep => Some (if prep =? PREP_NONE then None else Some prep)
       | None => None
       end.
Definition validate_verb_args (v : Var) : option ((Z * Z * Z) + error) :=
  match v with
  | VList [VStr d; VStr p; VStr i] =>
    match match_arg_spec d with
    | None => Some (inr E_INVARG)
    | Some dobj =>
      match match_prep_spec p with
      | None => None
      | Some None => Some (inr E_INVARG)
      | Some (Some prep) =>
        match match_arg_spec i with
        | None => Some (inr E_INVARG)
        | Some iobj => Some (inl (dobj, prep, iobj))
        end
      end
    end
  | _ => Some (inr E_TYPE)
  end.
Definition verb_args_of (v : Var) : M vdb ((Z * Z * Z) + error) := fun s => match validate_verb_args v with Some r => Some (r, s) | None => None end.

Definition validate_verb_descriptor (desc : Var) : error :=
  match desc with
  | VStr _ => E_NONE
  | VInt n => if n <=? 0 then E_INVARG else E_NONE
  | _ => E_TYPE
  end.

Definition arg_spec_name (spec : Z) : option bytes :=
  if spec =? ASPEC_NONE then Some (str "none")
  else if spec =? ASPEC_ANY then Some (str "any")
  else if spec =? ASPEC_THIS then Some (str "this")
  else None.
Definition unparse_arg_spec (spec : Z) : M vdb bytes := fun s => match arg_spec_name spec with Some x => Some (x, s) | None => None end.
Definition unparse_prep (prep : Z) : M vdb bytes := fun s => match db_unparse_prep prep with Some x => Some (x, s) | None => None end.

Definition verb_perms_string (flags : Z) : bytes :=
  (if negb (Z.land flags VF_READ =? 0) then [114] else []) ++ (if negb (Z.land flags VF_WRITE =? 0) then [119] else []) ++
  (if negb (Z.land flags VF_EXEC =? 0) then [120] else []) ++ (if negb (Z.land flags VF_DEBUG =? 0) then [100] else []).

Section builtins.
Context (numeric : bool) (at_desc fresh : positive) (address : loc -> Z).

Definition find_described_verb (obj desc : Var) : M vdb (option handle) :=
  match desc with
  | VInt n => db_find_indexed_verb obj n
  | VStr name => db_find_defined_verb obj (mk_cstring at_desc name) numeric
  | _ => mfail
  end.

Definition bf_add_verb (obj info args : Var) (progr : Z) : M vdb package := fun s =>
  match validate_verb_info (vbase s) info with
  | inr e => Some (PError e, s)
  | inl (owner, flags, names) =>
    (let! a := verb_args_of args in
     match a with
     | inr e => verror e
     | inl (dobj, prep, iobj) =>
       match obj with
       | VObj _ =>
         let! v := vlift (is_valid obj) in
         if negb v then verror E_INVARG
         else
           let! allowed := vlift (db_object_allows obj progr FLAG_WRITE) in
           fun s =>
           if negb allowed || (negb (progr =? owner) && negb (is_wizard (vbase s) progr)) then Some (PError E_PERM, s)
           else (let! n := db_add_verb obj (mk_cstring fresh names) owner flags dobj prep iobj in mreturn (PVar (VInt n))) s
       | _ => verror E_TYPE
       end
     end) s
  end.

Definition bf_delete_verb (obj desc : Var) (progr : Z) : M vdb package :=
  if negb (bool_decide (validate_verb_descriptor desc = E_NONE)) then verror (validate_verb_descriptor desc)
  else match obj with
  | VObj _ =>
    let! v := vlift (is_valid obj) in
    if negb v then verror E_INVARG
    else
      let! allowed := vlift (db_object_allows obj progr FLAG_WRITE) in
      if negb allowed then verror E_PERM
      else
        let! h := find_described_verb obj desc in
        match h with
        | Some h => db_delete_verb h ;; mreturn no_var_pack
        | None => verror E_VERBNF
        end
  | _ => verror E_TYPE
  end.

Definition bf_verb_info (obj desc : Var) (progr : Z) : M vdb package :=
  if negb (is_object obj) then verror E_TYPE
  else if negb (bool_decide (validate_verb_descriptor desc = E_NONE)) then verror (validate_verb_descriptor desc)
  else
    let! v := vlift (is_valid obj) in
    if negb v then verror E_INVARG
    else
      let! h := find_described_verb obj desc in
      match h with
      | None => verror E_VERBNF
      | Some h =>
        let! allowed := db_verb_allows h progr VF_READ in
        if negb allowed then verror E_PERM
        else
          let! owner := db_verb_owner h in
          let! flags := db_verb_flags h in
          let! names := db_verb_names h in
          mreturn (PVar (VList [VObj owner; VStr (verb_perms_string flags); VStr (str_bytes names)]))
      end.

Definition bf_set_verb_info (obj desc info : Var) (progr : Z) : M vdb package :=
  if negb (bool_decide (validate_verb_descriptor desc = E_NONE)) then verror (validate_verb_descriptor desc)
  else match obj with
  | VObj _ =>
    let! v := vlift (is_valid obj) in
    if negb v then verror E_INVARG
    else fun s =>
      match validate_verb_info (vbase s) info with
      | inr e => Some (PError e, s)
      | inl (new_owner, new_flags, new_names) =>
        (let! h := find_described_verb obj desc in
         match h with
         | None => verror E_VERBNF
         | Some h =>
           let! allowed := db_verb_allows h progr VF_WRITE in
           let! owner := db_verb_owner h in
           fun s =>
           if negb allowed || (negb (is_wizard (vbase s) progr) && negb (owner =? new_owner)) then Some (PError E_PERM, s)
           else
             (db_set_verb_owner h new_owner ;;
              db_set_verb_flags h new_flags ;;
              db_set_verb_names h (mk_cstring fresh new_names) ;;
              mreturn no_var_pack) s
         end) s
      end
  | _ => verror E_TYPE
  end.

Definition bf_verb_args (obj desc : Var) (progr : Z) : M vdb package :=
  match obj with
  | VObj _ =>
    if negb (bool_decide (validate_verb_descriptor desc = E_NONE)) then verror (validate_verb_descriptor desc)
    else
      let! v := vlift (is_valid obj) in
      if negb v then verror E_INVARG
      else
        let! h := find_described_verb obj desc in
        match h with
        | None => verror E_VERBNF
        | Some h =>
          let! allowed := db_verb_allows h progr VF_READ in
          if negb allowed then verror E_PERM
          else
            let! (dobj, prep, iobj) := db_verb_arg_specs h in
            let! d := unparse_arg_spec dobj in
            let! p := unparse_prep prep in
            let! i := unparse_arg_spec iobj in
            mreturn (PVar (VList [VStr d; VStr p; VStr i]))
        end
  | _ => verror E_TYPE
  end.

Definition bf_set_verb_args (obj desc args : Var) (progr : Z) : M vdb package :=
  if negb (bool_decide (validate_verb_descriptor desc = E_NONE)) then verror (validate_verb_descriptor desc)
  else match obj with
  | VObj _ =>
    let! v := vlift (is_valid obj) in
    if negb v then verror E_INVARG
    else
      let! a := verb_args_of args in
      match a with
      | inr e => verror e
      | inl (dobj, prep, iobj) =>
        let! h := find_described_verb obj desc in
        match h with
        | None => verror E_VERBNF
        | Some h =>
          let! allowed := db_verb_allows h progr VF_WRITE in
          if negb allowed then verror E_PERM
          else db_set_verb_arg_specs h dobj prep iobj ;; mreturn no_var_pack
        end
      end
  | _ => verror E_TYPE
  end.

Section code.
Context (parse_list_as_program : list bytes -> option positive * list bytes).

Fixpoint all_strings (code : list Var) : option (list bytes) :=
  match code with
  | [] => Some []
  | VStr s :: code => match all_strings code with Some ss => Some (s :: ss) | None => None end
  | _ => None
  end.
Definition bf_set_verb_code (task_timed_out : bool) (obj desc : Var) (code : list Var) (progr : Z) : M vdb package :=
  match all_strings code with
  | None => verror E_TYPE
  | Some lines =>
    match obj with
    | VObj _ =>
      if negb (bool_decide (validate_verb_descriptor desc = E_NONE)) then verror (validate_verb_descriptor desc)
      else
        let! v := vlift (is_valid obj) in
        if negb v then verror E_INVARG
        else
          let! h := find_described_verb obj desc in
          match h with
          | None => verror E_VERBNF
          | Some h => fun s =>
            if negb (is_programmer (vbase s) progr) then Some (PError E_PERM, s)
            else
              (let! allowed := db_verb_allows h progr VF_WRITE in
               if negb allowed then verror E_PERM
               else
                 let '(program, errors) := parse_list_as_program lines in
                 match program with
                 | Some p => if task_timed_out then mreturn tt else db_set_verb_program h p
                 | None => mreturn tt
                 end ;;
                 mreturn (PVar (VList (VStr <$> errors)))) s
          end
    | _ => verror E_TYPE
    end
  end.
End code.

Definition bf_respond_to (steps walk : nat) (object : Var) (verb : cstring) (progr : Z) : M vdb package :=
  if negb (is_object object) then verror E_TYPE
  else
    let! v := vlift (is_valid object) in
    if negb v then verror E_INVARG
    else
      let! h := db_find_callable_verb address steps walk object verb in
      match h with
      | None => mreturn (PVar (VInt 0))
      | Some h =>
        let! allowed := vlift (db_object_allows object progr FLAG_READ) in
        if allowed : bool then
          let! definer := db_verb_definer h in
          let! names := db_verb_names h in
          mreturn (PVar (VList [definer; VStr (str_bytes names)]))
        else mreturn (PVar (VInt 1))
      end.
End builtins.
