(* ===== verification/VerbOps.v ===== *)
(** * What the built-ins on verbs do

    On a permanent object each one has a closed form: the first error whose
    condition holds, or the change of one list of verbs, with the cache
    cleared where names, flags or arguments change. *)
From Stdlib Require Import ZArith Lia.
From stdpp Require Import prelude gmap relations strings.
From stdpp Require Import prelude gmap strings.
From S2P Require Import Prelude CString Value ObjCode ObjGraph ObjParents ObjChange ObjFun NumCode CmdCode PropSpec VerbCode VerbSpec VerbFind VerbFun.

Local Open Scope Z_scope.
Local Open Scope moo_scope.

(** ** The parts *)

Definition allowed (d : db) (o : Object) (progr f : Z) : bool := is_wizard d progr || (progr =? owner o) || dbpriv_object_has_flag o f.
Definition verb_allowed (d : db) (v : Verbdef) (progr f : Z) : bool :=
  negb (Z.land (Z.land (vd_perms v) PERMMASK) f =? 0) || (progr =? vd_owner v) || is_wizard d progr.

(** The position that a descriptor denotes *)
Definition described (numeric : bool) (at_desc : positive) (vs : list Verbdef) (desc : Var) : option nat :=
  match desc with
  | VInt n => if (1 <=? to_uint n) && (to_uint n <=? Z.of_nat (length vs)) then Some (Z.to_nat (to_uint n - 1)) else None
  | VStr name => first_numbered (if numeric then verb_number name else -1) 0 (mk_cstring at_desc name) vs
  | _ => None
  end.

Lemma first_numbered_lt num vname vs : forall i k, first_numbered num i vname vs = Some k -> (k < length vs)%nat.
Proof.
  induction vs as [|v vs IH]; intros i k H; [done|]. cbn [first_numbered] in H. destruct (_ || _); [injection H as <-; simpl; lia|].
  destruct (first_numbered num (i + 1) vname vs) as [j|] eqn:E; [|done]. injection H as <-. specialize (IH _ _ E). simpl. lia.
Qed.
Lemma described_verb numeric at_desc vs desc i : described numeric at_desc vs desc = Some i -> exists v, vs !! i = Some v.
Proof.
  intros H. apply lookup_lt_is_Some. destruct desc; try done; cbn [described] in H.
  - destruct (_ && _) eqn:E; [|done]. injection H as <-. apply andb_true_iff in E as [?%Z.leb_le ?%Z.leb_le]. lia.
  - by apply first_numbered_lt in H.
Qed.

(** A verb replaced by one that the search does not tell from it *)
Definition put_verb (l : loc) (i : nat) (v : Verbdef) (s : vdb) : vdb := with_verbs (<[l := <[i := v]> (verbdefs s l)]> (verbs s)) s.

Lemma put_verbdefs l i v s m : verbdefs (put_verb l i v s) m = if decide (m = l) then <[i := v]> (verbdefs s l) else verbdefs s m.
Proof.
  unfold verbdefs at 1, put_verb. cbn [verbs with_verbs]. destruct (decide (m = l)) as [->|Hm].
  - by rewrite lookup_insert_eq.
  - by rewrite lookup_insert_ne by done.
Qed.
Lemma put_put l i v w s : put_verb l i w (put_verb l i v s) = put_verb l i w s.
Proof.
  unfold put_verb at 1. rewrite put_verbdefs, decide_True by done. unfold put_verb. cbn [verbs with_verbs].
  rewrite insert_insert_eq, list_insert_insert_eq. by destruct s.
Qed.

Lemma first_verb_insert p vs : forall i v w, vs !! i = Some v -> p w = p v -> first_verb p (<[i := w]> vs) = first_verb p vs.
Proof.
  induction vs as [|u vs IH]; intros [|i] v w Hi E; [done|done| |].
  - injection Hi as ->. cbn. by rewrite E.
  - change (<[S i := w]> (u :: vs)) with (u :: <[i := w]> vs). cbn [first_verb]. by rewrite (IH i v w).
Qed.

Lemma verbs_ok_put s l i v w : verbs_ok s -> verbdefs s l !! i = Some v -> vd_name w = vd_name v -> vd_perms w = vd_perms v -> verbs_ok (put_verb l i w s).
Proof.
  intros Hok Hi Hn Hp. assert (forall n m, finds (put_verb l i w s) n m = finds s n m) as Hf.
  { intros n m. unfold finds. rewrite put_verbdefs. destruct (decide (m = l)) as [->|]; [|done]. apply (first_verb_insert _ _ i v w Hi).
    unfold answers, has_perm. by rewrite Hn, Hp. }
  assert (forall n st r, resolves s n st r -> resolves (put_verb l i w s) n st r) as Hr.
  { intros n st r. apply (resolves_frame _ _ _ (fun _ => True)); [|by apply Forall_true]. intros x _. split; [done|]. intros m _. split; [apply Hf|].
    intros o Ho. exists o. split_and!; [done|done|by apply Forall_true]. }
  destruct Hok as [H1 H2 H3]. split; [done| |].
  - intros m vs H. cbn [put_verb with_verbs verbs vbase] in *. destruct (decide (m = l)) as [->|Hm]; [|rewrite lookup_insert_ne in H by done; by eapply H2].
    unfold verbdefs in Hi. destruct (verbs s !! l) as [us|] eqn:E; [by eapply H2|done].
  - intros t b e Ht He. destruct (H3 t b e Ht He) as (A1 & A2 & x & o & Hx & Ho & Hr'). split; [done|]. split.
    + rewrite put_verbdefs. destruct (decide (vc_object e = l)) as [El|]; [|done]. intros Hnil. apply (f_equal length) in Hnil. rewrite length_insert in Hnil.
      rewrite <- El in Hnil. by apply A2, nil_length_inv.
    + exists x, o. split; [done|]. split; [done|]. unfold resolves_at in *. rewrite Hf. destruct (finds s _ _); [done|by apply Hr].
Qed.

Section at_object.
Context (s : vdb) (x : Z) (l : loc) (o : Object).
Hypothesis Hok : verbs_ok s.
Hypothesis Hx : dbpriv_find_object (vbase s) x = Some l.
Hypothesis Ho : obj_heap (vbase s) !! l = Some o.

Lemma valid_here : vlift (is_valid (VObj x)) s = Some (true, s).
Proof. apply vlift_eq. unfold is_valid, valid. rewrite Hx. by rewrite bool_decide_true. Qed.
Lemma deref_here : vlift (dbpriv_dereference (VObj x)) s = Some (l, s).
Proof. apply vlift_eq. by apply slot_eq. Qed.
Lemma load_here : vlift (load l) s = Some (o, s).
Proof. apply vlift_eq. by apply load_eq. Qed.
Lemma allows_here progr f : vlift (db_object_allows (VObj x) progr f) s = Some (allowed (vbase s) o progr f, s).
Proof.
  apply vlift_eq. unfold db_object_allows, allowed. destruct (is_wizard (vbase s) progr); [done|].
  erewrite mbind_Some by (by apply slot_eq). by erewrite mbind_Some by (by apply load_eq).
Qed.
Lemma find_described_here numeric at_desc desc : validate_verb_descriptor desc = E_NONE ->
  find_described_verb numeric at_desc (VObj x) desc s = Some (mk_handle l <$> described numeric at_desc (verbdefs s l) desc, s).
Proof.
  intros Hd. destruct desc; try done; cbn [find_described_verb described].
  - unfold db_find_indexed_verb. rewrite (mbind_Some _ _ s l s) by apply deref_here. cbv zeta. by destruct (_ && _).
  - unfold db_find_defined_verb. rewrite (mbind_Some _ _ s l s) by apply deref_here. done.
Qed.

Section verb.
Context (i : nat) (v : Verbdef).
Hypothesis Hi : verbdefs s l !! i = Some v.

Lemma the_verb_here : the_verb (mk_handle l i) s = Some (v, s).
Proof. unfold the_verb. cbn [definer verbdef]. by rewrite Hi. Qed.
Lemma set_verb_here f : set_verb (mk_handle l i) f s = Some (tt, put_verb l i (f v) s).
Proof. unfold set_verb. cbn [definer verbdef]. by rewrite Hi. Qed.
Lemma flags_here : db_verb_flags (mk_handle l i) s = Some (Z.land (vd_perms v) PERMMASK, s).
Proof. unfold db_verb_flags. by rewrite (mbind_Some _ _ s v s) by apply the_verb_here. Qed.
Lemma owner_here : db_verb_owner (mk_handle l i) s = Some (vd_owner v, s).
Proof. unfold db_verb_owner. by rewrite (mbind_Some _ _ s v s) by apply the_verb_here. Qed.
Lemma names_here : db_verb_names (mk_handle l i) s = Some (vd_name v, s).
Proof. unfold db_verb_names. by rewrite (mbind_Some _ _ s v s) by apply the_verb_here. Qed.
Lemma specs_here : db_verb_arg_specs (mk_handle l i) s = Some ((dobj_spec v, vd_prep v, iobj_spec v), s).
Proof. unfold db_verb_arg_specs. by rewrite (mbind_Some _ _ s v s) by apply the_verb_here. Qed.
Lemma verb_allows_here progr f : db_verb_allows (mk_handle l i) progr f s = Some (verb_allowed (vbase s) v progr f, s).
Proof. unfold db_verb_allows. erewrite mbind_Some by apply flags_here. by erewrite mbind_Some by apply owner_here. Qed.
End verb.
End at_object.

(** ** Changes of one list, with the cache cleared *)

Definition rewritten (s s' : vdb) (l : loc) (vs : list Verbdef) : Prop :=
  vbase s' = vbase s /\ verbs s' = <[l := vs]> (verbs s) /\ (vc_table s' = None \/ vc_table s' = Some ∅).

Lemma rewritten_verbdefs s s' l vs m : rewritten s s' l vs -> verbdefs s' m = if decide (m = l) then vs else verbdefs s m.
Proof.
  intros (_ & Ev & _). unfold verbdefs. rewrite Ev. destruct (decide (m = l)) as [->|Hm]; [by rewrite lookup_insert_eq|by rewrite lookup_insert_ne by done].
Qed.
Lemma rewritten_trans s s1 s2 l vs ws : rewritten s s1 l vs -> rewritten s1 s2 l ws -> rewritten s s2 l ws.
Proof. intros (B1 & V1 & _) (B2 & V2 & T2). split; [congruence|]. split; [|done]. by rewrite V2, V1, insert_insert_eq. Qed.
Lemma rewritten_ok s s' x l vs : verbs_ok s -> dbpriv_find_object (vbase s) x = Some l -> rewritten s s' l vs -> verbs_ok s'.
Proof.
  intros [H1 H2 _] Hx (Eb & Ev & Ht). apply verbs_ok_cleared; [by rewrite Eb| |done]. rewrite Eb, Ev. intros m ws H.
  destruct (decide (m = l)) as [->|Hm]; [by exists x|]. rewrite lookup_insert_ne in H by done. by eapply H2.
Qed.
Lemma rewritten_cleared s l vs : rewritten s (with_verbs (<[l := vs]> (verbs (cleared_state s))) (cleared_state s)) l vs.
Proof. split; [apply cleared_base|]. split; [cbn [verbs with_verbs]; by rewrite cleared_verbs|apply cleared_table]. Qed.

(** A setter that clears the cache *)
Lemma cleared_set s l i v f : verbdefs s l !! i = Some v ->
  exists s', (db_priv_affected_callable_verb_lookup ;; set_verb (mk_handle l i) f)%moo s = Some (tt, s') /\ rewritten s s' l (<[i := f v]> (verbdefs s l)).
Proof.
  intros Hi. rewrite (mbind_Some _ _ _ _ _ (clear_eq s)). rewrite (set_verb_here _ _ _ v) by (by rewrite cleared_verbdefs).
  eexists. split; [done|]. unfold put_verb. rewrite cleared_verbdefs. apply rewritten_cleared.
Qed.
Lemma plain_set s l i v f : verbdefs s l !! i = Some v -> set_verb (mk_handle l i) f s = Some (tt, put_verb l i (f v) s).
Proof. intros Hi. by apply set_verb_here. Qed.

Section builtins.
Context (s : vdb) (x : Z) (l : loc) (o : Object).
Hypothesis Hok : verbs_ok s.
Hypothesis Hx : dbpriv_find_object (vbase s) x = Some l.
Hypothesis Ho : obj_heap (vbase s) !! l = Some o.
Context (numeric : bool) (at_desc fresh : positive) (progr : Z).

Lemma bf_add_verb_here info args a :
  validate_verb_args args = Some a ->
  exists r s', bf_add_verb fresh (VObj x) info args progr s = Some (r, s') /\
    match validate_verb_info (vbase s) info, a with
    | inr e, _ | inl _, inr e => r = PError e /\ s' = s
    | inl (who, flags, names), inl (dobj, prep, iobj) =>
      if negb (allowed (vbase s) o progr FLAG_WRITE) || (negb (progr =? who) && negb (is_wizard (vbase s) progr)) then r = PError E_PERM /\ s' = s
      else r = PVar (VInt (Z.of_nat (S (length (verbdefs s l))))) /\
           rewritten s s' l (verbdefs s l ++ [new_verbdef (mk_cstring fresh names) who flags dobj prep iobj])
    end.
Proof.
  intros Ha. unfold bf_add_verb. destruct (validate_verb_info (vbase s) info) as [[[who flags] names]|e]; [|by exists (PError e), s].
  rewrite (mbind_Some _ _ s a s) by (unfold verb_args_of; by rewrite Ha). destruct a as [[[dobj prep] iobj]|e]; [|by exists (PError e), s].
  erewrite mbind_Some by (by apply valid_here with l). cbn [negb]. erewrite mbind_Some by (by apply (allows_here s x l o)).
  cbv beta. destruct (negb _ || _); [by exists (PError E_PERM), s|].
  unfold db_add_verb. rewrite mbind_assoc. erewrite mbind_Some by (by apply deref_here). rewrite mbind_assoc. rewrite (mbind_Some _ _ _ _ _ (clear_eq s)).
  eexists _, _. split; [cbv [mbindM set_verbdefs vmodify mreturn]; reflexivity|]. rewrite cleared_verbdefs. split; [|apply rewritten_cleared].
  rewrite length_app. cbn [length]. do 3 f_equal. lia.
Qed.

(** What the descriptor denotes, once it and the object are valid *)
Lemma bf_delete_verb_here desc :
  validate_verb_descriptor desc = E_NONE ->
  exists r s', bf_delete_verb numeric at_desc (VObj x) desc progr s = Some (r, s') /\
    if negb (allowed (vbase s) o progr FLAG_WRITE) then r = PError E_PERM /\ s' = s
    else match described numeric at_desc (verbdefs s l) desc with
         | None => r = PError E_VERBNF /\ s' = s
         | Some i => r = no_var_pack /\ rewritten s s' l (take i (verbdefs s l) ++ drop (S i) (verbdefs s l))
         end.
Proof.
  intros Hd. unfold bf_delete_verb. rewrite bool_decide_true by done. cbn [negb]. erewrite mbind_Some by (by apply valid_here with l). cbn [negb].
  erewrite mbind_Some by (by apply (allows_here s x l o)). cbv beta. destruct (negb _); [by exists (PError E_PERM), s|].
  erewrite mbind_Some by (by apply (find_described_here s x l)). destruct (described numeric at_desc (verbdefs s l) desc) as [i|]; [|by exists (PError E_VERBNF), s].
  cbn [fmap option_fmap option_map]. unfold db_delete_verb. rewrite mbind_assoc. rewrite (mbind_Some _ _ _ _ _ (clear_eq s)).
  eexists _, _. split; [cbv [mbindM set_verbdefs vmodify mreturn definer verbdef]; reflexivity|]. rewrite cleared_verbdefs. split; [done|apply rewritten_cleared].
Qed.

Definition info_changed (who flags : Z) (names : bytes) (v : Verbdef) : Verbdef :=
  mk_Verbdef (mk_cstring fresh names) (vd_program v) who (Z.lor (Z.land (vd_perms v) (Z.lnot PERMMASK)) flags) (vd_prep v).
Lemma bf_set_verb_info_here desc info :
  validate_verb_descriptor desc = E_NONE ->
  exists r s', bf_set_verb_info numeric at_desc fresh (VObj x) desc info progr s = Some (r, s') /\
    match validate_verb_info (vbase s) info with
    | inr e => r = PError e /\ s' = s
    | inl (who, flags, names) =>
      match described numeric at_desc (verbdefs s l) desc with
      | None => r = PError E_VERBNF /\ s' = s
      | Some i => exists v, verbdefs s l !! i = Some v /\
        if negb (verb_allowed (vbase s) v progr VF_WRITE) || (negb (is_wizard (vbase s) progr) && negb (vd_owner v =? who)) then r = PError E_PERM /\ s' = s
        else r = no_var_pack /\ rewritten s s' l (<[i := info_changed who flags names v]> (verbdefs s l))
      end
    end.
Proof.
  intros Hd. unfold bf_set_verb_info. rewrite bool_decide_true by done. cbn [negb]. erewrite mbind_Some by (by apply valid_here with l). cbn [negb].
  destruct (validate_verb_info (vbase s) info) as [[[who flags] names]|e]; [|by exists (PError e), s].
  erewrite mbind_Some by (by apply (find_described_here s x l)). destruct (described numeric at_desc (verbdefs s l) desc) as [i|] eqn:Ed; [|by exists (PError E_VERBNF), s].
  destruct (described_verb _ _ _ _ _ Ed) as [v Hi]. cbn [fmap option_fmap option_map]. erewrite mbind_Some by (by apply verb_allows_here).
  erewrite mbind_Some by (by apply owner_here). cbv beta. destruct (negb _ || _) eqn:Eb; [exists (PError E_PERM), s; split; [done|]; exists v; by rewrite Eb|].
  unfold db_set_verb_owner. erewrite mbind_Some by (by apply plain_set). set (v1 := with_vd_owner who v).
  assert (verbdefs (put_verb l i v1 s) l !! i = Some v1) as H1.
  { rewrite put_verbdefs, decide_True by done. apply list_lookup_insert_eq. by eapply lookup_lt_Some. }
  destruct (cleared_set _ l i v1 (fun v => with_vd_perms (Z.lor (Z.land (vd_perms v) (Z.lnot PERMMASK)) flags) v) H1) as (s2 & E2 & R2).
  unfold db_set_verb_flags. rewrite (mbind_Some _ _ _ _ _ E2). cbv beta in R2. rewrite put_verbdefs, decide_True in R2 by done. rewrite list_insert_insert_eq in R2.
  set (v2 := with_vd_perms _ v1) in R2.
  assert (verbdefs s2 l !! i = Some v2) as H2.
  { rewrite (rewritten_verbdefs _ _ _ _ l R2), decide_True by done. apply list_lookup_insert_eq. by eapply lookup_lt_Some. }
  destruct (cleared_set _ l i v2 (with_vd_name (mk_cstring fresh names)) H2) as (s3 & E3 & R3).
  unfold db_set_verb_names. rewrite (mbind_Some _ _ _ _ _ E3). exists no_var_pack, s3. split; [done|]. exists v. split; [done|]. rewrite Eb. split; [done|].
  rewrite (rewritten_verbdefs _ _ _ _ l R2), decide_True in R3 by done. rewrite list_insert_insert_eq in R3.
  pose proof (rewritten_trans _ _ _ _ _ _ R2 R3) as (B & V & T). split; [exact B|]. split; [|exact T]. rewrite V. cbn [put_verb with_verbs verbs].
  by rewrite insert_insert_eq.
Qed.

Definition args_changed (dobj prep iobj : Z) (v : Verbdef) : Verbdef :=
  mk_Verbdef (vd_name v) (vd_program v) (vd_owner v)
    (Z.lor (Z.lor (Z.land (vd_perms v) PERMMASK) (Z.shiftl dobj DOBJSHIFT)) (Z.shiftl iobj IOBJSHIFT)) prep.
Lemma bf_set_verb_args_here desc args a :
  validate_verb_descriptor desc = E_NONE -> validate_verb_args args = Some a ->
  exists r s', bf_set_verb_args numeric at_desc (VObj x) desc args progr s = Some (r, s') /\
    match a with
    | inr e => r = PError e /\ s' = s
    | inl (dobj, prep, iobj) =>
      match described numeric at_desc (verbdefs s l) desc with
      | None => r = PError E_VERBNF /\ s' = s
      | Some i => exists v, verbdefs s l !! i = Some v /\
        if negb (verb_allowed (vbase s) v progr VF_WRITE) then r = PError E_PERM /\ s' = s
        else r = no_var_pack /\ rewritten s s' l (<[i := args_changed dobj prep iobj v]> (verbdefs s l))
      end
    end.
Proof.
  intros Hd Ha. unfold bf_set_verb_args. rewrite bool_decide_true by done. cbn [negb]. erewrite mbind_Some by (by apply valid_here with l). cbn [negb].
  rewrite (mbind_Some _ _ s a s) by (unfold verb_args_of; by rewrite Ha). destruct a as [[[dobj prep] iobj]|e]; [|by exists (PError e), s].
  erewrite mbind_Some by (by apply (find_described_here s x l)). destruct (described numeric at_desc (verbdefs s l) desc) as [i|] eqn:Ed; [|by exists (PError E_VERBNF), s].
  destruct (described_verb _ _ _ _ _ Ed) as [v Hi]. cbn [fmap option_fmap option_map]. erewrite mbind_Some by (by apply verb_allows_here).
  destruct (negb _) eqn:Eb; [exists (PError E_PERM), s; split; [done|]; exists v; by rewrite Eb|]. unfold db_set_verb_arg_specs.
  edestruct (cleared_set s l i v) as (s2 & E2 & R2); [exact Hi|]. rewrite (mbind_Some _ _ _ _ _ E2). exists no_var_pack, s2. split; [done|].
  exists v. split; [done|]. by rewrite Eb.
Qed.

Lemma bf_set_verb_code_here parse timed_out desc code :
  validate_verb_descriptor desc = E_NONE ->
  exists r s', bf_set_verb_code numeric at_desc parse timed_out (VObj x) desc code progr s = Some (r, s') /\
    match all_strings code, described numeric at_desc (verbdefs s l) desc with
    | None, _ => r = PError E_TYPE /\ s' = s
    | _, None => r = PError E_VERBNF /\ s' = s
    | Some lines, Some i => exists v, verbdefs s l !! i = Some v /\
        if negb (is_programmer (vbase s) progr) || negb (verb_allowed (vbase s) v progr VF_WRITE) then r = PError E_PERM /\ s' = s
        else r = PVar (VList (VStr <$> snd (parse lines))) /\
             s' = match fst (parse lines) with Some p => if timed_out : bool then s else put_verb l i (with_vd_program (Some p) v) s | None => s end
    end.
Proof.
  intros Hd. unfold bf_set_verb_code. destruct (all_strings code) as [lines|]; [|by exists (PError E_TYPE), s].
  rewrite bool_decide_true by done. cbn [negb]. erewrite mbind_Some by (by apply valid_here with l). cbn [negb].
  erewrite mbind_Some by (by apply (find_described_here s x l)). destruct (described numeric at_desc (verbdefs s l) desc) as [i|] eqn:Ed; [|by exists (PError E_VERBNF), s].
  destruct (described_verb _ _ _ _ _ Ed) as [v Hi]. cbn [fmap option_fmap option_map].
  cbv beta. destruct (negb (is_programmer _ _)) eqn:Ep; [exists (PError E_PERM), s; split; [done|]; by exists v|].
  erewrite mbind_Some by (by apply verb_allows_here). cbn [orb]. destruct (negb (verb_allowed _ _ _ _)) eqn:Eb.
  { exists (PError E_PERM), s. split; [done|]. exists v. by rewrite Eb. }
  destruct (parse lines) as [[p|] errors]; cbn [fst snd].
  - destruct timed_out.
    + exists (PVar (VList (VStr <$> errors))), s. split; [done|]. exists v. by rewrite Eb.
    + unfold db_set_verb_program. erewrite mbind_Some by (by apply plain_set). eexists _, _. split; [done|]. exists v. by rewrite Eb.
  - exists (PVar (VList (VStr <$> errors))), s. split; [done|]. exists v. by rewrite Eb.
Qed.

(** What reads *)
Lemma bf_verbs_here : bf_verbs (VObj x) progr s =
  Some (if negb (allowed (vbase s) o progr FLAG_READ) then PError E_PERM else PVar (VList ((fun v => VStr (str_bytes (vd_name v))) <$> verbdefs s l)), s).
Proof.
  unfold bf_verbs. cbn [is_object negb]. erewrite mbind_Some by (by apply valid_here with l). cbn [negb].
  erewrite mbind_Some by (by apply (allows_here s x l o)). destruct (negb _); [done|]. by erewrite mbind_Some by (by apply deref_here).
Qed.
Definition info_of (v : Verbdef) : Var :=
  VList [VObj (vd_owner v); VStr (verb_perms_string (Z.land (vd_perms v) PERMMASK)); VStr (str_bytes (vd_name v))].
Lemma bf_verb_info_here desc : validate_verb_descriptor desc = E_NONE ->
  bf_verb_info numeric at_desc (VObj x) desc progr s =
    Some (match described numeric at_desc (verbdefs s l) desc ≫= fun i => verbdefs s l !! i with
          | None => PError E_VERBNF
          | Some v => if verb_allowed (vbase s) v progr VF_READ then PVar (info_of v) else PError E_PERM
          end, s).
Proof.
  intros Hd. unfold bf_verb_info. cbn [is_object negb]. rewrite bool_decide_true by done. cbn [negb]. erewrite mbind_Some by (by apply valid_here with l). cbn [negb].
  erewrite mbind_Some by (by apply (find_described_here s x l)). destruct (described numeric at_desc (verbdefs s l) desc) as [i|] eqn:Ed; [|done].
  destruct (described_verb _ _ _ _ _ Ed) as [v Hi]. cbn [fmap option_fmap option_map mbind option_bind]. rewrite Hi. erewrite mbind_Some by (by apply verb_allows_here).
  destruct (verb_allowed _ _ _ _); [|done]. cbn [negb]. erewrite mbind_Some by (by apply owner_here). erewrite mbind_Some by (by apply flags_here).
  by erewrite mbind_Some by (by apply names_here).
Qed.

Definition args_of (v : Verbdef) : option Var :=
  match arg_spec_name (dobj_spec v), db_unparse_prep (vd_prep v), arg_spec_name (iobj_spec v) with
  | Some d, Some p, Some i => Some (VList [VStr d; VStr p; VStr i])
  | _, _, _ => None
  end.
Lemma bf_verb_args_here desc : validate_verb_descriptor desc = E_NONE ->
  (forall v, v ∈ verbdefs s l -> is_Some (args_of v)) ->
  bf_verb_args numeric at_desc (VObj x) desc progr s =
    Some (match described numeric at_desc (verbdefs s l) desc ≫= fun i => verbdefs s l !! i with
          | None => PError E_VERBNF
          | Some v => if verb_allowed (vbase s) v progr VF_READ then PVar (default VNone (args_of v)) else PError E_PERM
          end, s).
Proof.
  intros Hd Hw. unfold bf_verb_args. rewrite bool_decide_true by done. cbn [negb]. erewrite mbind_Some by (by apply valid_here with l). cbn [negb].
  erewrite mbind_Some by (by apply (find_described_here s x l)). destruct (described numeric at_desc (verbdefs s l) desc) as [i|] eqn:Ed; [|done].
  destruct (described_verb _ _ _ _ _ Ed) as [v Hi]. cbn [fmap option_fmap option_map mbind option_bind]. rewrite Hi. erewrite mbind_Some by (by apply verb_allows_here).
  destruct (verb_allowed _ _ _ _); [|done]. cbn [negb]. erewrite mbind_Some by (by apply specs_here).
  destruct (Hw v) as [w Ew]; [by eapply list_elem_of_lookup_2|]. unfold args_of in *.
  destruct (arg_spec_name (dobj_spec v)) as [d|] eqn:E1; [|done]. destruct (db_unparse_prep (vd_prep v)) as [p|] eqn:E2; [|done].
  destruct (arg_spec_name (iobj_spec v)) as [j|] eqn:E3; [|done]. rewrite (mbind_Some _ _ s d s) by (unfold unparse_arg_spec; by rewrite E1).
  rewrite (mbind_Some _ _ s p s) by (unfold unparse_prep; by rewrite E2). by rewrite (mbind_Some _ _ s j s) by (unfold unparse_arg_spec; by rewrite E3).
Qed.
End builtins.

(** ** The argument specifiers and flags of verbs, packed and printed

    [printable v]: the fields of [v] are such that [verb_args] can print them
    ([unparse_arg_spec] panics on others).  What [validate_verb_args] accepts
    is printable, and the printed form is accepted with the same meaning. *)
Local Open Scope Z_scope.

Definition printable (v : Verbdef) : Prop := is_Some (args_of v).

(** ** Fields of the word of permissions *)

Lemma all_below (n : nat) (P : Z -> bool) : forallb P (Z.of_nat <$> seq 0 n) = true -> forall x, 0 <= x < Z.of_nat n -> P x = true.
Proof.
  intros H x Hx. rewrite forallb_forall in H. apply H. apply list_elem_of_In, list_elem_of_fmap. exists (Z.to_nat x).
  split; [lia|]. apply elem_of_seq. lia.
Qed.

Lemma perms_packed flags dobj iobj : 0 <= flags < 16 -> 0 <= dobj < 3 -> 0 <= iobj < 3 ->
  let p := Z.lor (Z.lor flags (Z.shiftl dobj DOBJSHIFT)) (Z.shiftl iobj IOBJSHIFT) in
  Z.land (Z.shiftr p DOBJSHIFT) OBJMASK = dobj /\ Z.land (Z.shiftr p IOBJSHIFT) OBJMASK = iobj /\ Z.land p PERMMASK = flags.
Proof.
  intros Hf Hd Hi. pose (ok := fun f d i => let p := Z.lor (Z.lor f (Z.shiftl d DOBJSHIFT)) (Z.shiftl i IOBJSHIFT) in
    (Z.land (Z.shiftr p DOBJSHIFT) OBJMASK =? d) && (Z.land (Z.shiftr p IOBJSHIFT) OBJMASK =? i) && (Z.land p PERMMASK =? f)).
  assert (forallb (fun f => forallb (fun d => forallb (fun i => ok f d i) (Z.of_nat <$> seq 0 3)) (Z.of_nat <$> seq 0 3)) (Z.of_nat <$> seq 0 16) = true) as H
    by (by vm_compute).
  pose proof (all_below 16 _ H flags Hf) as H1. pose proof (all_below 3 _ H1 dobj Hd) as H2. pose proof (all_below 3 _ H2 iobj Hi) as H3.
  unfold ok in H3. apply andb_true_iff in H3 as [[?%Z.eqb_eq ?%Z.eqb_eq]%andb_true_iff ?%Z.eqb_eq]. by split_and!.
Qed.
Lemma land_mask_range p : 0 <= Z.land p PERMMASK < 16.
Proof. change PERMMASK with (Z.ones 4). rewrite Z.land_ones by lia. apply Z.mod_pos_bound. lia. Qed.

(** The flags replaced *)
Lemma perms_flags p flags : 0 <= flags < 16 ->
  let p' := Z.lor (Z.land p (Z.lnot PERMMASK)) flags in
  Z.shiftr p' DOBJSHIFT = Z.shiftr p DOBJSHIFT /\ Z.shiftr p' IOBJSHIFT = Z.shiftr p IOBJSHIFT /\ Z.land p' PERMMASK = flags.
Proof.
  intros Hf. cbv zeta. assert (forall k, 4 <= k -> Z.shiftr (Z.lor (Z.land p (Z.lnot PERMMASK)) flags) k = Z.shiftr p k) as Hs.
  { intros k Hk. rewrite Z.shiftr_lor, Z.shiftr_land. assert (Z.shiftr flags k = 0) as ->.
    { rewrite Z.shiftr_div_pow2 by lia. apply Z.div_small. split; [lia|]. assert (2 ^ 4 <= 2 ^ k) by (apply Z.pow_le_mono_r; lia). lia. }
    assert (Z.shiftr (Z.lnot PERMMASK) k = -1) as ->; [|by rewrite Z.lor_0_r, Z.land_m1_r].
    replace k with (4 + (k - 4)) by lia. rewrite <- Z.shiftr_shiftr by lia. change (Z.shiftr (Z.lnot PERMMASK) 4) with (-1).
    apply Z.bits_inj'. intros n Hn. rewrite Z.shiftr_spec by lia. by rewrite !Z.bits_m1 by lia. }
  split; [apply Hs; done|]. split; [apply Hs; done|].
  rewrite Z.land_lor_distr_l, <- Z.land_assoc. change (Z.land (Z.lnot PERMMASK) PERMMASK) with 0. rewrite Z.land_0_r, Z.lor_0_l.
  change PERMMASK with (Z.ones 4). rewrite Z.land_ones by lia. by apply Z.mod_small.
Qed.

Lemma verb_flag_range c f : verb_flag c = Some f -> 0 <= f < 16.
Proof. unfold verb_flag, VF_READ, VF_WRITE, VF_EXEC, VF_DEBUG. repeat destruct (_ || _); intros [= <-]; lia. Qed.
Lemma lor_below a b : 0 <= a < 16 -> 0 <= b < 16 -> 0 <= Z.lor a b < 16.
Proof.
  intros Ha Hb. split; [apply Z.lor_nonneg; lia|]. destruct (decide (Z.lor a b = 0)) as [->|Hn]; [lia|].
  assert (0 <= Z.lor a b) by (apply Z.lor_nonneg; lia). change 16 with (2 ^ 4). apply Z.log2_lt_pow2; [lia|]. rewrite Z.log2_lor by lia.
  assert (forall x, 0 <= x < 16 -> Z.log2 x < 4) as Hl.
  { intros x Hx. destruct (decide (x = 0)) as [->|]; [by vm_compute|]. apply Z.log2_lt_pow2; lia. }
  apply Z.max_lub_lt; by apply Hl.
Qed.
Lemma verb_flags_range s : forall f0 f, 0 <= f0 < 16 -> verb_flags s f0 = Some f -> 0 <= f < 16.
Proof.
  induction s as [|c s IH]; intros f0 f H0 H; cbn [verb_flags] in H; [by injection H as <-|]. destruct (verb_flag c) as [g|] eqn:Eg; [|done].
  apply (IH (Z.lor f0 g) f); [|done]. apply lor_below; [done|]. by eapply verb_flag_range.
Qed.

(** ** What is accepted *)

Lemma match_arg_spec_range s d : match_arg_spec s = Some d -> 0 <= d < 3.
Proof. unfold match_arg_spec, ASPEC_NONE, ASPEC_ANY, ASPEC_THIS. repeat destruct (_ =? _); intros [= <-]; lia. Qed.
Lemma entry_in_range e argv table : forall j k n, find_entry e argv table j = Some (k, n) -> j <= k < j + Z.of_nat (length table).
Proof.
  induction table as [|a table IH]; intros j k n H; [done|]. cbn [find_entry length] in *. destruct (find_alias e argv a); [injection H as <- <-; lia|].
  specialize (IH _ _ _ H). lia.
Qed.
Lemma db_match_prep_range s p : db_match_prep s = Some p -> p = PREP_NONE \/ 0 <= p < 15.
Proof.
  unfold db_match_prep. intros H.
  assert ((let '(number, ptr) := strtoimax s in
    if is_nil ptr then
      let prep := to_uint number in
      Some (if negb (match s with c :: _ => isdigit c | [] => false end) || (Z.of_nat (length prep_list) <=? prep) then PREP_NONE else prep)
    else db_find_prep_exact <$> words_of (until_slash s)) = Some p) as H'.
  { destruct s as [|c s]; [done|]. repeat (destruct c as [|c|c]; try done). }
  clear H. destruct (strtoimax s) as [number ptr]. destruct (is_nil ptr).
  - cbv zeta in H'. injection H' as <-. destruct (_ || _) eqn:E; [by left|]. right. apply orb_false_iff in E as [_ E%Z.leb_gt].
    change (Z.of_nat (length prep_list)) with 15 in E. unfold to_uint, wrapU in *. pose proof (Z.mod_pos_bound number (2 ^ 32)). lia.
  - destruct (words_of (until_slash s)) as [argv|]; [|done]. injection H' as <-. unfold db_find_prep_exact. destruct argv as [|w argv]; [by left|].
    destruct (find_entry _ _ _ _) as [[j n]|] eqn:E; [|by left]. right. apply entry_in_range in E. change (Z.of_nat (length dbpriv_build_prep_table)) with 15 in E. lia.
Qed.
Definition prep_ok (p : Z) : Prop := p = PREP_NONE \/ p = PREP_ANY \/ 0 <= p < 15.
Lemma match_prep_spec_range s p : match_prep_spec s = Some (Some p) -> prep_ok p.
Proof.
  unfold match_prep_spec, prep_ok. destruct (_ =? 0); [intros [= <-]; by left|]. destruct (_ =? 0); [intros [= <-]; right; by left|].
  destruct (db_match_prep s) as [q|] eqn:E; [|done]. destruct (q =? PREP_NONE); [done|]. intros [= ->]. destruct (db_match_prep_range s p E); [by left|by right; right].
Qed.
Lemma accepted_range w dobj prep iobj : validate_verb_args w = Some (inl (dobj, prep, iobj)) -> 0 <= dobj < 3 /\ prep_ok prep /\ 0 <= iobj < 3.
Proof.
  unfold validate_verb_args. intros H. repeat case_match; simplify_eq.
  split; [by eapply match_arg_spec_range|]. split; [by eapply match_prep_spec_range|by eapply match_arg_spec_range].
Qed.

(** ** Printing *)

(** The names of the specifiers; those of the prepositions *)
Lemma arg_spec_name_ok d : 0 <= d < 3 -> exists n, arg_spec_name d = Some n /\ match_arg_spec n = Some d.
Proof. intros H. assert (d = 0 \/ d = 1 \/ d = 2) as [-> | [-> | ->]] by lia; eexists; (split; [reflexivity|by vm_compute]). Qed.
Lemma unparse_prep_ok p : prep_ok p -> exists n, db_unparse_prep p = Some n /\ match_prep_spec n = Some (Some p).
Proof.
  intros [-> | [-> | H]]; [eexists; (split; [reflexivity|by vm_compute])..|].
  assert (match db_unparse_prep p with Some n => bool_decide (match_prep_spec n = Some (Some p)) | None => false end = true) as E.
  { revert p H. apply (all_below 15). by vm_compute. }
  destruct (db_unparse_prep p) as [n|]; [|done]. exists n. split; [done|]. by apply bool_decide_eq_true in E.
Qed.

Definition specs_in_range (v : Verbdef) : Prop := 0 <= dobj_spec v < 3 /\ prep_ok (vd_prep v) /\ 0 <= iobj_spec v < 3.
Lemma specs_printable v : specs_in_range v ->
  exists w, args_of v = Some w /\ validate_verb_args w = Some (inl (dobj_spec v, vd_prep v, iobj_spec v)).
Proof.
  intros (H1 & H2 & H3). destruct (arg_spec_name_ok _ H1) as (d & Ed & Md). destruct (unparse_prep_ok _ H2) as (p & Ep & Mp).
  destruct (arg_spec_name_ok _ H3) as (i & Ei & Mi). exists (VList [VStr d; VStr p; VStr i]). unfold args_of. rewrite Ed, Ep, Ei. split; [done|].
  cbn [validate_verb_args]. by rewrite Md, Mp, Mi.
Qed.
