(* ===== verification/VerbStep.v ===== *)
(** * Every operation leaves the verbs and their cache right

    [verbs_good s] is the invariant: [verbs_ok], and the fields of every verb
    in range.  [verb_step] are the operations: the built-ins on verbs, calls,
    commands, and the changes of objects that concern the cache. *)
From Stdlib Require Import ZArith Lia.
From stdpp Require Import prelude gmap relations strings.
From S2P Require Import Prelude CString Value ObjCode ObjGraph ObjParents ObjChange ObjFun ObjLife NumCode CmdCode PropSpec VerbCode VerbSpec VerbFind VerbFun VerbOps.

Local Open Scope Z_scope.
Local Open Scope moo_scope.

(** ** Fields in range *)

Definition verbs_in_range (s : vdb) : Prop := forall l v, v ∈ verbdefs s l -> specs_in_range v.

Lemma same_in_range s s' : verbs s' = verbs s -> verbs_in_range s -> verbs_in_range s'.
Proof. intros E H l v. unfold verbdefs. rewrite E. apply H. Qed.
Lemma rewritten_in_range s s' l vs : verbs_in_range s -> rewritten s s' l vs -> Forall specs_in_range vs -> verbs_in_range s'.
Proof.
  intros H R Hvs m v Hv. rewrite (rewritten_verbdefs _ _ _ _ m R) in Hv. destruct (decide (m = l)); [|by eapply H].
  by eapply (proj1 (Forall_forall _ _) Hvs).
Qed.
Lemma all_in_range s l : verbs_in_range s -> Forall specs_in_range (verbdefs s l).
Proof. intros H. apply Forall_forall. intros v. apply H. Qed.

Lemma info_flags_range d info who flags names : validate_verb_info d info = inl (who, flags, names) -> 0 <= flags < 16.
Proof. unfold validate_verb_info. intros H. repeat case_match; simplify_eq. by eapply (verb_flags_range _ 0). Qed.
Lemma new_in_range vnames who flags dobj prep iobj : 0 <= flags < 16 -> 0 <= dobj < 3 -> prep_ok prep -> 0 <= iobj < 3 ->
  specs_in_range (new_verbdef vnames who flags dobj prep iobj).
Proof.
  intros Hf Hd Hp Hi. destruct (perms_packed flags dobj iobj Hf Hd Hi) as (E1 & E2 & _). unfold specs_in_range, dobj_spec, iobj_spec, new_verbdef.
  cbn [vd_perms vd_prep]. by rewrite E1, E2.
Qed.
Lemma info_in_range fresh who flags names v : 0 <= flags < 16 -> specs_in_range v -> specs_in_range (info_changed fresh who flags names v).
Proof.
  intros Hf Hv. destruct (perms_flags (vd_perms v) flags Hf) as (E1 & E2 & _). unfold specs_in_range, dobj_spec, iobj_spec, info_changed in *.
  cbn [vd_perms vd_prep]. by rewrite E1, E2.
Qed.
Lemma args_changed_specs dobj prep iobj v : 0 <= dobj < 3 -> 0 <= iobj < 3 ->
  dobj_spec (args_changed dobj prep iobj v) = dobj /\ iobj_spec (args_changed dobj prep iobj v) = iobj /\
  Z.land (vd_perms (args_changed dobj prep iobj v)) PERMMASK = Z.land (vd_perms v) PERMMASK.
Proof. intros Hd Hi. exact (perms_packed _ dobj iobj (land_mask_range (vd_perms v)) Hd Hi). Qed.
Lemma args_in_range dobj prep iobj v : 0 <= dobj < 3 -> prep_ok prep -> 0 <= iobj < 3 -> specs_in_range (args_changed dobj prep iobj v).
Proof. intros Hd Hp Hi. destruct (args_changed_specs dobj prep iobj v Hd Hi) as (E1 & E2 & _). unfold specs_in_range. by rewrite E1, E2. Qed.

Record verbs_good (s : vdb) : Prop := { vg_ok : verbs_ok s; vg_range : verbs_in_range s }.

Lemma good_printable s : verbs_good s -> forall l v, v ∈ verbdefs s l -> printable v.
Proof. intros [_ H] l v Hv. destruct (specs_printable v (H l v Hv)) as (w & E & _). by exists w. Qed.

(** ** The built-ins *)

Section good.
Context (s : vdb) (x : Z) (l : loc) (o : Object).
Hypothesis Hg : verbs_good s.
Hypothesis Hx : dbpriv_find_object (vbase s) x = Some l.

Lemma good_rewritten s' vs : rewritten s s' l vs -> Forall specs_in_range vs -> verbs_good s'.
Proof. intros R Hv. destruct Hg as [H1 H2]. split; [by eapply rewritten_ok|by eapply rewritten_in_range]. Qed.
Lemma good_put i v w : verbdefs s l !! i = Some v -> vd_name w = vd_name v -> vd_perms w = vd_perms v -> vd_prep w = vd_prep v -> verbs_good (put_verb l i w s).
Proof.
  intros Hi En Ep Er. destruct Hg as [H1 H2]. split; [by eapply verbs_ok_put|]. intros m u. rewrite put_verbdefs. destruct (decide (m = l)) as [->|]; [|apply H2].
  intros Hu. assert (Forall specs_in_range (<[i := w]> (verbdefs s l))) as HF; [|by eapply (proj1 (Forall_forall _ _) HF)].
  apply Forall_insert; [by apply all_in_range|]. assert (specs_in_range v) as Hv by (eapply H2, list_elem_of_lookup_2; exact Hi).
  unfold specs_in_range, dobj_spec, iobj_spec in *. by rewrite Ep, Er.
Qed.

Hypothesis Ho : obj_heap (vbase s) !! l = Some o.
Context (numeric : bool) (at_desc fresh : positive) (progr : Z).

Lemma add_verb_good info args a r s' : validate_verb_args args = Some a ->
  bf_add_verb fresh (VObj x) info args progr s = Some (r, s') -> verbs_good s'.
Proof.
  intros Ha E. destruct (bf_add_verb_here s x l o Hx Ho fresh progr info args a Ha) as (r' & s2 & E' & H). assert (s2 = s') as -> by congruence.
  destruct (validate_verb_info _ _) as [[[who flags] names]|e] eqn:Ei; [|by destruct H as [_ ->]]. destruct a as [[[dobj prep] iobj]|e]; [|by destruct H as [_ ->]].
  destruct (_ || _); [by destruct H as [_ ->]|]. destruct H as [_ R]. apply (good_rewritten _ _ R). apply Forall_app. split; [apply all_in_range, Hg|].
  destruct (accepted_range _ _ _ _ Ha) as (Hd & Hp & Hi). constructor; [|done]. apply new_in_range; [by eapply info_flags_range|done..].
Qed.
Lemma delete_verb_good desc r s' : bf_delete_verb numeric at_desc (VObj x) desc progr s = Some (r, s') -> verbs_good s'.
Proof.
  intros E. destruct (decide (validate_verb_descriptor desc = E_NONE)) as [Hd|Hd].
  2:{ unfold bf_delete_verb in E. rewrite bool_decide_false in E by done. by injection E as _ <-. }
  destruct (bf_delete_verb_here s x l o Hx Ho numeric at_desc progr desc Hd) as (r' & s2 & E' & H). assert (s2 = s') as -> by congruence.
  destruct (negb _); [by destruct H as [_ ->]|]. destruct (described _ _ _ _) as [i|]; [|by destruct H as [_ ->]]. destruct H as [_ R].
  apply (good_rewritten _ _ R). pose proof (all_in_range s l (vg_range s Hg)). apply Forall_app. split; [by apply Forall_take|by apply Forall_drop].
Qed.
Lemma set_verb_info_good desc info r s' : bf_set_verb_info numeric at_desc fresh (VObj x) desc info progr s = Some (r, s') -> verbs_good s'.
Proof.
  intros E. destruct (decide (validate_verb_descriptor desc = E_NONE)) as [Hd|Hd].
  2:{ unfold bf_set_verb_info in E. rewrite bool_decide_false in E by done. by injection E as _ <-. }
  destruct (bf_set_verb_info_here s x l Hx numeric at_desc fresh progr desc info Hd) as (r' & s2 & E' & H). assert (s2 = s') as -> by congruence.
  destruct (validate_verb_info _ _) as [[[who flags] names]|e] eqn:Ei; [|by destruct H as [_ ->]].
  destruct (described _ _ _ _) as [i|]; [|by destruct H as [_ ->]]. destruct H as (v & Hi & H). destruct (_ || _); [by destruct H as [_ ->]|].
  destruct H as [_ R]. apply (good_rewritten _ _ R). apply Forall_insert; [apply all_in_range, Hg|]. apply info_in_range; [by eapply info_flags_range|].
  eapply (vg_range s Hg l), list_elem_of_lookup_2. exact Hi.
Qed.
Lemma set_verb_args_good desc args a r s' : validate_verb_args args = Some a ->
  bf_set_verb_args numeric at_desc (VObj x) desc args progr s = Some (r, s') -> verbs_good s'.
Proof.
  intros Ha E. destruct (decide (validate_verb_descriptor desc = E_NONE)) as [Hd|Hd].
  2:{ unfold bf_set_verb_args in E. rewrite bool_decide_false in E by done. by injection E as _ <-. }
  destruct (bf_set_verb_args_here s x l Hx numeric at_desc progr desc args a Hd Ha) as (r' & s2 & E' & H). assert (s2 = s') as -> by congruence.
  destruct a as [[[dobj prep] iobj]|e]; [|by destruct H as [_ ->]]. destruct (described _ _ _ _) as [i|]; [|by destruct H as [_ ->]].
  destruct H as (v & Hi & H). destruct (negb _); [by destruct H as [_ ->]|]. destruct H as [_ R]. destruct (accepted_range _ _ _ _ Ha) as (H1 & H2 & H3).
  apply (good_rewritten _ _ R). apply Forall_insert; [apply all_in_range, Hg|]. by apply args_in_range.
Qed.
Lemma set_verb_code_good parse timed_out desc code r s' : bf_set_verb_code numeric at_desc parse timed_out (VObj x) desc code progr s = Some (r, s') -> verbs_good s'.
Proof.
  intros E. destruct (decide (validate_verb_descriptor desc = E_NONE)) as [Hd|Hd].
  2:{ unfold bf_set_verb_code in E. rewrite bool_decide_false in E by done. destruct (all_strings code); by injection E as _ <-. }
  destruct (bf_set_verb_code_here s x l Hx numeric at_desc progr parse timed_out desc code Hd) as (r' & s2 & E' & H). assert (s2 = s') as -> by congruence.
  destruct (all_strings code) as [lines|]; [|by destruct H as [_ ->]]. destruct (described _ _ _ _) as [i|]; [|by destruct H as [_ ->]].
  destruct H as (v & Hi & H). destruct (_ || _); [by destruct H as [_ ->]|]. destruct H as [_ ->]. destruct (fst (parse lines)) as [p|]; [|done].
  destruct timed_out; [done|]. by apply (good_put i v).
Qed.
End good.

(** ** What only reads *)

Definition reads {S A} (m : M S A) : Prop := forall s r s', m s = Some (r, s') -> s' = s.
Lemma reads_bind {S A B} (m : M S A) (k : A -> M S B) : reads m -> (forall x, reads (k x)) -> reads (mbindM m k).
Proof. intros Hm Hk s r s' H. apply mbind_inv in H as (x & s1 & H1 & H2). apply Hm in H1 as ->. by eapply Hk. Qed.
Lemma reads_ret {S A} (x : A) : reads (mreturn x : M S A).
Proof. by intros s r s' [= _ <-]. Qed.
Lemma reads_state {S A} (f : S -> option A) : reads (fun s => match f s with Some x => Some (x, s) | None => None end).
Proof. intros s r s' H. destruct (f s); [by injection H|done]. Qed.
Lemma reads_if {S A} (b : bool) (m m' : M S A) : reads m -> reads m' -> reads (if b then m else m').
Proof. by destruct b. Qed.
Lemma reads_lift {A} (m : M db A) : reads m -> reads (vlift m).
Proof. intros Hm s r s' H. unfold vlift in H. destruct (m (vbase s)) as [[y d]|] eqn:E; [|done]. apply Hm in E as ->. injection H as _ <-. by destruct s. Qed.

Lemma reads_deref obj : reads (dbpriv_dereference obj).
Proof. intros d r d' H. unfold dbpriv_dereference, slot, mreturn, mfail in H. repeat case_match; by simplify_eq. Qed.
Lemma reads_load l : reads (load l).
Proof. intros d r d' H. unfold load in H. by destruct (obj_heap d !! l); [injection H|]. Qed.
Lemma reads_valid x : reads (is_valid (VObj x)).
Proof. intros d r d' H. by injection H. Qed.
Lemma reads_allows obj progr f : reads (db_object_allows obj progr f).
Proof.
  intros d r d' H. unfold db_object_allows in H. destruct (is_wizard d progr); [by injection H|]. revert H.
  apply (reads_bind (dbpriv_dereference obj)); [apply reads_deref|]. intros l. apply (reads_bind (load l)); [apply reads_load|]. intros o. apply reads_ret.
Qed.
Lemma reads_the_verb h : reads (the_verb h).
Proof. intros s r s' H. unfold the_verb in H. by destruct (_ !! _); [injection H|]. Qed.
Lemma reads_described numeric at_desc obj desc : reads (find_described_verb numeric at_desc obj desc).
Proof.
  intros s r s' H. destruct desc; try done; cbn [find_described_verb] in H; revert H.
  all: apply (reads_bind (vlift (dbpriv_dereference obj))); [apply reads_lift, reads_deref|]; intros l s1 r1 s2 [= _ <-]; done.
Qed.
Lemma reads_verb_allows h progr f : reads (db_verb_allows h progr f).
Proof.
  unfold db_verb_allows, db_verb_flags, db_verb_owner. apply reads_bind; [apply reads_bind; [apply reads_the_verb|intros v; apply reads_ret]|]. intros p.
  apply reads_bind; [apply reads_bind; [apply reads_the_verb|intros v; apply reads_ret]|]. intros w s r s' [= _ <-]. done.
Qed.
Lemma reads_field {A} h (f : Verbdef -> A) : reads (let! v := the_verb h in mreturn (f v)).
Proof. apply reads_bind; [apply reads_the_verb|]. intros v. apply reads_ret. Qed.
#[export] Hint Resolve reads_ret reads_lift reads_deref reads_load reads_valid reads_allows reads_the_verb reads_described reads_verb_allows reads_field : verbs.
Ltac reads_tac := repeat first
  [ done | solve [eauto with verbs] | apply reads_if | apply reads_bind; [|intros ?]
  | match goal with |- reads (match ?x with _ => _ end) => destruct x end ].

Lemma reads_bf_verbs x progr : reads (bf_verbs (VObj x) progr).
Proof. unfold bf_verbs, verror. reads_tac. intros s r s' [= _ <-]. done. Qed.
Lemma reads_bf_verb_info numeric at_desc x desc progr : reads (bf_verb_info numeric at_desc (VObj x) desc progr).
Proof. unfold bf_verb_info, verror, db_verb_owner, db_verb_flags, db_verb_names. reads_tac. Qed.
Lemma reads_bf_verb_args numeric at_desc x desc progr : reads (bf_verb_args numeric at_desc (VObj x) desc progr).
Proof.
  unfold bf_verb_args, verror, db_verb_arg_specs. reads_tac.
  all: unfold unparse_arg_spec, unparse_prep; intros s r s' H; case_match; by simplify_eq.
Qed.

(** ** Calls and commands *)

Lemma same_good s s' : verbs_good s -> verbs_ok s' -> same_verbs s s' -> verbs_good s'.
Proof. intros [_ H] Hok [_ Ev]. split; [done|]. by eapply same_in_range. Qed.

Lemma respond_to_keep address steps walk s recv verb progr r s' :
  verbs_ok s -> is_cstr (str_bytes verb) -> plain s verb -> receiver s recv ->
  bf_respond_to address steps walk recv verb progr s = Some (r, s') -> verbs_ok s' /\ same_verbs s s'.
Proof.
  intros Hok Hn Hp Hrecv H. unfold bf_respond_to in H. destruct (is_object recv) eqn:Eo; cbn [negb] in H; [|by injection H as _ <-].
  apply mbind_inv in H as (v & s0 & H0 & H). assert (s0 = s) as ->.
  { revert H0. unfold vlift. destruct recv as [|x| | | | | | | | | | |[l|]| |]; try done.
    - intros H0. unfold is_valid in H0. injection H0 as _ <-. by destruct s.
    - destruct Hrecv as (o & Ho & Ha). rewrite (is_valid_usable _ _ l o (vo_db s Hok) (holder_anon _ _ _ Ha Ho)). intros [= _ <-]. by destruct s.
    - cbn. intros [= _ <-]. by destruct s. }
  destruct (negb v); [by injection H as _ <-|]. apply mbind_inv in H as (h & s1 & H1 & H).
  apply (db_find_callable_verb_keep address verb Hn) in H1 as [Hok1 Hs1]; [|done..]. assert (s' = s1) as ->; [|done].
  destruct h as [h|]; [|by injection H as _ <-]. revert H. apply (reads_bind (vlift (db_object_allows recv progr FLAG_READ))); [by apply reads_lift, reads_allows|].
  intros b. apply reads_if; [|apply reads_ret]. unfold db_verb_definer, db_verb_names. reads_tac.
Qed.

Lemma verbs_ok_cache c s : verbs_ok s -> cache_ok (with_cache c (vbase s)) -> verbs_ok (with_vbase (with_cache c (vbase s)) s).
Proof.
  intros Hok Hc. apply (verbs_ok_kept s (with_vbase (with_cache c (vbase s)) s) (fun _ => False) Hok); [by apply db_ok_cache; [apply Hok|]| |done| | |done].
  - intros x l Hl. split; [done|]. intros _ o Ho. by exists o.
  - by intros ? ? [].
  - by intros ? ? ? ? ? [].
Qed.

Lemma db_find_command_verb_ok fuel s x l o verb dobj prep iobj :
  verbs_ok s -> dbpriv_find_object (vbase s) x = Some l -> obj_heap (vbase s) !! l = Some o -> (walk_fuel (vbase s) <= fuel)%nat ->
  exists r c, db_find_command_verb fuel x verb dobj prep iobj s = Some (r, with_vbase (with_cache c (vbase s)) s) /\
    verbs_ok (with_vbase (with_cache c (vbase s)) s) /\ first_along s (command_matches verb dobj prep iobj) (line_of (vbase s) l o) r.
Proof.
  intros Hok Hx Ho Hf. pose proof (vo_db s Hok) as Hdb. pose proof (ok_table _ Hdb) as Hti.
  destruct (holder_ancestors fuel (vbase s) (VObj x) l o true Hti (ok_cache _ Hdb) (holder_obj _ _ _ _ Hx Ho) Hf) as (c & Hc & E).
  set (s1 := with_vbase (with_cache c (vbase s)) s).
  assert (Forall (fun y => valid (vbase s1) y = true) (x :: above (vbase s) o)) as Hv.
  { constructor; [|apply Forall_forall; intros y Hy; by eapply (above_valid (vbase s))]. unfold s1, valid. cbn [vbase with_vbase].
    change (dbpriv_find_object (with_cache c (vbase s)) x) with (dbpriv_find_object (vbase s) x). by rewrite Hx. }
  destruct (command_loop_ok (command_matches verb dobj prep iobj) _ s1 Hv) as (r & E1 & Hr). exists r, c. split; [|split].
  - unfold db_find_command_verb. rewrite (mbind_Some _ _ s (VObj <$> x :: above (vbase s) o) s1); [exact E1|]. unfold vlift. rewrite E. done.
  - by apply verbs_ok_cache.
  - unfold line_of. assert (locs_of (vbase s1) (x :: above (vbase s) o) = l :: locs_of (vbase s) (above (vbase s) o)) as El; [|by rewrite El in Hr].
    unfold locs_of. cbn [omap list_omap]. change (dbpriv_find_object (vbase s1) x) with (dbpriv_find_object (vbase s) x). rewrite Hx. done.
Qed.

(** ** Objects *)

Lemma db_destroy_object_verbs_ok s x l o : verbs_good s -> dbpriv_find_object (vbase s) x = Some l -> obj_heap (vbase s) !! l = Some o -> barren o ->
  exists s', db_destroy_object_verbs x s = Some (tt, s') /\ verbs_good s' /\ verbs s' = delete l (verbs s) /\
    forall y, object_of (vbase s') y = if decide (y = x) then None else object_of (vbase s) y.
Proof.
  intros [Hok Hr] Hx Ho Hb. assert (object_of (vbase s) x = Some o) as Hxo by (unfold object_of; by rewrite Hx).
  destruct (db_destroy_object_ok (vbase s) x o (vo_db s Hok) Hxo Hb) as (d' & E & Hdb & Hobj & Hnum & _ & _ & Hof).
  unfold db_destroy_object_verbs. rewrite (mbind_Some _ _ _ _ _ (clear_eq s)).
  rewrite (mbind_Some _ _ _ l (cleared_state s)) by (apply vlift_eq; rewrite cleared_base; by apply slot_eq).
  rewrite (mbind_Some _ _ _ tt (with_vbase d' (cleared_state s))) by (unfold vlift; by rewrite cleared_base, E).
  eexists. split; [reflexivity|]. cbn [verbs vbase with_verbs with_vbase]. rewrite cleared_verbs. split; [|by split]. split.
  - apply verbs_ok_cleared; cbn [verbs vbase with_verbs with_vbase vc_table]; [done| |apply cleared_table].
    intros m vs H. destruct (decide (m = l)) as [->|Hm]; [by rewrite lookup_delete_eq in H|]. rewrite lookup_delete_ne in H by done.
    destruct (vo_owner s Hok m vs H) as [y Hy]. exists y. assert (y <> x) by congruence.
    assert (is_Some (object_of d' y)) as [oy Hoy].
    { rewrite Hof, decide_False by done. destruct (ti_table _ (ok_table _ (vo_db s Hok)) y m Hy) as [oy Hoy]. exists oy. unfold object_of. by rewrite Hy. }
    destruct (object_slot d' y oy Hoy) as (m' & Hm' & _). rewrite Hm'. f_equal. unfold dbpriv_find_object in Hy, Hm'. rewrite Hobj in Hm'.
    destruct (_ || _) in Hy; [done|]. destruct (_ || _) in Hm'; [done|]. rewrite lookup_delete_ne in Hm' by done. congruence.
  - intros m v Hv. unfold verbdefs in Hv. cbn [verbs with_verbs] in Hv. destruct (decide (m = l)) as [->|Hm].
    + rewrite lookup_delete_eq in Hv. by apply elem_of_nil in Hv.
    + rewrite lookup_delete_ne in Hv by done. by eapply Hr.
Qed.

(** ** The steps *)

Section steps.
Context (address : loc -> Z) (numeric : bool) (check : db -> Var -> Z + list Z -> list Var -> bool)
  (parse : list bytes -> option positive * list bytes).

Inductive verb_step : vdb -> vdb -> Prop :=
| step_verbs s s' x progr r : bf_verbs (VObj x) progr s = Some (r, s') -> verb_step s s'
| step_verb_info s s' at_desc x desc progr r : bf_verb_info numeric at_desc (VObj x) desc progr s = Some (r, s') -> verb_step s s'
| step_verb_args s s' at_desc x desc progr r : bf_verb_args numeric at_desc (VObj x) desc progr s = Some (r, s') -> verb_step s s'
| step_add_verb s s' fresh x info args progr r : bf_add_verb fresh (VObj x) info args progr s = Some (r, s') -> verb_step s s'
| step_delete_verb s s' at_desc x desc progr r : bf_delete_verb numeric at_desc (VObj x) desc progr s = Some (r, s') -> verb_step s s'
| step_set_verb_info s s' at_desc fresh x desc info progr r :
    bf_set_verb_info numeric at_desc fresh (VObj x) desc info progr s = Some (r, s') -> verb_step s s'
| step_set_verb_args s s' at_desc x desc args progr r : bf_set_verb_args numeric at_desc (VObj x) desc args progr s = Some (r, s') -> verb_step s s'
| step_set_verb_code s s' at_desc timed_out x desc code progr r :
    bf_set_verb_code numeric at_desc parse timed_out (VObj x) desc code progr s = Some (r, s') -> verb_step s s'
| step_respond_to s s' steps walk recv verb progr r : receiver s recv -> is_cstr (str_bytes verb) -> plain s verb ->
    bf_respond_to address steps walk recv verb progr s = Some (r, s') -> verb_step s s'
| step_call s s' steps walk recv verb r : receiver s recv -> is_cstr (str_bytes verb) -> plain s verb ->
    db_find_callable_verb address steps walk recv verb s = Some (r, s') -> verb_step s s'
| step_command s s' fuel x verb dobj prep iobj r : valid (vbase s) x = true -> (walk_fuel (vbase s) <= fuel)%nat ->
    db_find_command_verb fuel x verb dobj prep iobj s = Some (r, s') -> verb_step s s'
| step_chparents s s' fuel x new r : valid (vbase s) x = true -> parents_wf (vbase s) new ->
    (forall p, p ∈ enlist new -> valid (vbase s) p = true -> avoids (vbase s) x p) -> (walk_fuel (vbase s) <= fuel)%nat ->
    db_change_parents_verbs check fuel (VObj x) new [] s = Some (r, s') -> verb_step s s'
| step_destroy s s' x o : object_of (vbase s) x = Some o -> barren o -> db_destroy_object_verbs x s = Some (tt, s') -> verb_step s s'
| step_objects s d' : db_ok d' -> kept_but (fun _ => False) (vbase s) d' -> verb_step s (with_vbase d' s).

Lemma invalid_here s x : valid (vbase s) x = false -> vlift (is_valid (VObj x)) s = Some (false, s).
Proof. intros E. apply vlift_eq. unfold is_valid. by rewrite E. Qed.
Lemma object_there s x : verbs_ok s -> valid (vbase s) x = true ->
  exists l o, dbpriv_find_object (vbase s) x = Some l /\ obj_heap (vbase s) !! l = Some o.
Proof.
  intros Hok [l Hl]%bool_decide_eq_true. destruct (ti_table _ (ok_table _ (vo_db s Hok)) x l Hl) as [o Ho]. by exists l, o.
Qed.

(** Where the object is not valid nothing changes. *)
Ltac invalid_tac H Ev :=
  repeat first [ by injection H as _ <-
    | erewrite mbind_Some in H by (by apply invalid_here); cbn [negb] in H
    | match type of H with
      | (if negb (bool_decide ?P) then _ else _) _ = _ => destruct (bool_decide P); cbn [negb] in H
      | (match ?y with _ => _ end) = _ => destruct y
      | (match ?y with _ => _ end) _ = _ => destruct y
      end ].

Lemma verb_step_ok s s' : verbs_good s -> verb_step s s' -> verbs_good s'.
Proof.
  intros Hg H. pose proof Hg as [Hok Hr]. destruct H as [s s' x progr r H|s s' at_desc x desc progr r H|s s' at_desc x desc progr r H
    |s s' fresh x info args progr r H|s s' at_desc x desc progr r H|s s' at_desc fresh x desc info progr r H|s s' at_desc x desc args progr r H
    |s s' at_desc timed_out x desc code progr r H|s s' steps walk recv verb progr r H1 H2 H3 H|s s' steps walk recv verb r H1 H2 H3 H
    |s s' fuel x verb dobj prep iobj r Hv Hf H|s s' fuel x new r Hv Hw Ha Hf H|s s' x o Hx Hb H|s d' Hdb Hk].
  - by apply reads_bf_verbs in H as ->.
  - by apply reads_bf_verb_info in H as ->.
  - by apply reads_bf_verb_args in H as ->.
  - destruct (valid (vbase s) x) eqn:Ev.
    + destruct (object_there s x Hok Ev) as (l & o & Hx & Ho). destruct (validate_verb_args args) as [a|] eqn:Ea; [by eapply add_verb_good|].
      unfold bf_add_verb in H. destruct (validate_verb_info _ _) as [[[who flags] names]|e]; [|by injection H as _ <-].
      exfalso. revert H. unfold mbindM, verb_args_of. by rewrite Ea.
    + unfold bf_add_verb in H. destruct (validate_verb_info _ _) as [[[who flags] names]|e]; [|by injection H as _ <-].
      apply mbind_inv in H as (a & s1 & E1 & H). assert (s1 = s) as -> by (unfold verb_args_of in E1; destruct (validate_verb_args args); by simplify_eq).
      destruct a as [[[dobj prep] iobj]|e]; invalid_tac H Ev.
  - destruct (valid (vbase s) x) eqn:Ev; [destruct (object_there s x Hok Ev) as (l & o & Hx & Ho); by eapply delete_verb_good|].
    unfold bf_delete_verb in H. invalid_tac H Ev.
  - destruct (valid (vbase s) x) eqn:Ev; [destruct (object_there s x Hok Ev) as (l & o & Hx & Ho); by eapply set_verb_info_good|].
    unfold bf_set_verb_info in H. invalid_tac H Ev.
  - destruct (valid (vbase s) x) eqn:Ev.
    + destruct (object_there s x Hok Ev) as (l & o & Hx & Ho). destruct (validate_verb_args args) as [a|] eqn:Ea; [by eapply set_verb_args_good|].
      unfold bf_set_verb_args in H. destruct (bool_decide _); cbn [negb] in H; [|by injection H as _ <-].
      erewrite mbind_Some in H by (by apply valid_here with l). cbn [negb] in H. exfalso. revert H. unfold mbindM, verb_args_of. by rewrite Ea.
    + unfold bf_set_verb_args in H. invalid_tac H Ev.
  - destruct (valid (vbase s) x) eqn:Ev; [destruct (object_there s x Hok Ev) as (l & o & Hx & Ho); by eapply set_verb_code_good|].
    unfold bf_set_verb_code in H. destruct (all_strings code); [|by injection H as _ <-]. invalid_tac H Ev.
  - destruct (respond_to_keep _ _ _ _ _ _ _ _ _ Hok H2 H3 H1 H). by eapply same_good.
  - destruct (db_find_callable_verb_keep address verb H2 _ _ _ _ _ _ Hok H3 H1 H). by eapply same_good.
  - destruct (object_there s x Hok Hv) as (l & o & Hx & Ho).
    destruct (db_find_command_verb_ok fuel s x l o verb dobj prep iobj Hok Hx Ho Hf) as (r' & c & E & Hok' & _). rewrite E in H. injection H as _ <-.
    split; [done|]. by eapply same_in_range.
  - destruct (object_there s x Hok Hv) as (l & o & Hx & Ho).
    destruct (db_change_parents_verbs_ok check fuel s x l o new Hok Hx Ho Hw Ha Hf) as (b & s2 & E & Hok2 & Ev & _). rewrite E in H. injection H as _ <-.
    split; [done|]. by eapply same_in_range.
  - destruct (object_slot _ _ _ Hx) as (l & Hl & Ho). destruct (db_destroy_object_verbs_ok s x l o Hg Hl Ho Hb) as (s2 & E & Hg2 & _).
    rewrite E in H. by injection H as <-.
  - split; [|done]. apply (verbs_ok_kept s (with_vbase d' s) (fun _ => False) Hok Hdb Hk); [done|done| |done]. by intros ? ? ? ? ? ?.
Qed.
End steps.
