(* ===== verification/Verbs.v ===== *)
(** * Verbs: the theorems

    Calls through the cache, commands, the built-ins that change verbs, and
    that nothing puts the cache out of step with the verbs. *)
From Stdlib Require Import ZArith Lia.
From stdpp Require Import prelude gmap relations strings.
From S2P Require Import Prelude CString Value ObjCode ObjGraph ObjParents ObjChange ObjFun ObjLife Objects NumCode CmdCode PropSpec VerbCode VerbSpec VerbFind VerbFun VerbOps VerbStep.

Local Open Scope Z_scope.
Local Open Scope moo_scope.

(** ** A database to evaluate on

    [world] with a verb on object 1, a parent of object 2, and what a call of
    it leaves in the cache *)
Definition no_address (l : loc) : Z := Zpos l.
Definition silent : vdb := mk_vdb world ∅ None 0 0 0 0.
Definition look_info : Var := VList [VObj 0; VStr (str "rxd"); VStr (str " look ex*amine")].
Definition look_args : Var := VList [VStr (str "this"); VStr (str "in"); VStr (str "ANY")].
Definition later {A} (s : vdb) (r : option (A * vdb)) : vdb := default s (snd <$> r).
Definition added : vdb := later silent (bf_add_verb 1 (VObj 1) look_info look_args 0 silent).
Definition exam : cstring := mk_cstring 2 (str "exam").
Definition spoken : vdb := later added (db_find_callable_verb no_address 20 20 (VObj 2) exam added).

Example spoken_verbs : map (fun x => fst <$> bf_verbs (VObj x) 0 spoken) [1; 2] =
  [Some (PVar (VList [VStr (str "look ex*amine")])); Some (PVar (VList []))].
Proof. by vm_compute. Qed.
Example spoken_cache : (verbcache_miss spoken, (fun t => length (map_to_list t)) <$> vc_table spoken) = (1, Some 1%nat).
Proof. by vm_compute. Qed.

Lemma silent_good : verbs_good silent.
Proof.
  split; [split; [exact world_ok| |done]|]; intros l.
  - intros vs H. change (verbs silent) with (∅ : gmap loc (list Verbdef)) in H. by rewrite lookup_empty in H.
  - intros v H. unfold verbdefs in H. change (verbs silent) with (∅ : gmap loc (list Verbdef)) in H. rewrite lookup_empty in H. by apply elem_of_nil in H.
Qed.
Lemma later_good {A} s (r : option (A * vdb)) : verbs_good s -> (forall x s', r = Some (x, s') -> verbs_good s') -> verbs_good (later s r).
Proof. intros Hs Hr. unfold later. destruct r as [[x s']|]; [by eapply Hr|done]. Qed.
Definition no_parse (lines : list bytes) : option positive * list bytes := (Some 1%positive, []).
Lemma added_good : verbs_good added.
Proof. apply later_good; [exact silent_good|]. intros r s' E. eapply (verb_step_ok no_address false any_check no_parse); [exact silent_good|]. by eapply step_add_verb. Qed.
Lemma exam_cstr : is_cstr (str_bytes exam).
Proof. repeat constructor. Qed.
(** No verb has its name at that address. *)
Definition unnamed (p : positive) (s : vdb) : bool := forallb (forallb (fun v => negb (bool_decide (str_at (vd_name v) = p)))) (snd <$> map_to_list (verbs s)).
Lemma unnamed_plain s w : unnamed (str_at w) s = true -> plain s w.
Proof.
  unfold unnamed, verbdefs. intros H l v Hv E. unfold verbdefs in Hv. destruct (verbs s !! l) as [vs|] eqn:El; [|by apply elem_of_nil in Hv].
  rewrite forallb_forall in H. assert (vs ∈ snd <$> map_to_list (verbs s)) as Hin.
  { apply list_elem_of_fmap. exists (l, vs). split; [done|]. by apply elem_of_map_to_list. }
  apply list_elem_of_In in Hin. apply H in Hin. rewrite forallb_forall in Hin. apply list_elem_of_In in Hv. apply Hin in Hv.
  by rewrite bool_decide_true in Hv.
Qed.
Lemma spoken_good : verbs_good spoken.
Proof.
  unfold spoken. apply later_good; [exact added_good|]. intros r s' E. apply (verb_step_ok no_address false any_check no_parse added); [exact added_good|].
  exact (step_call no_address false any_check no_parse added s' 20 20 (VObj 2) exam r I exam_cstr (unnamed_plain added exam eq_refl) E).
Qed.
Lemma spoken_fuel : (walk_fuel (vbase spoken) <= 20)%nat.
Proof. fuel_tac. Qed.

(** An object of [spoken] *)
Ltac spoken_at x l o El Eo :=
  destruct (dbpriv_find_object (vbase spoken) x) as [l|] eqn:El; [|vm_compute in El; discriminate El];
  destruct (obj_heap (vbase spoken) !! l) as [o|] eqn:Eo; [|vm_compute in El; injection El as <-; vm_compute in Eo; discriminate Eo].

(** ** Calls *)

Lemma resolves_recv_det s vname recv r r' : resolves_recv s vname recv r -> resolves_recv s vname recv r' -> r = r'.
Proof.
  destruct recv as [|x| | | | | | | | | | |[l|]| |]; try done; cbn [resolves_recv]; [apply resolves_det| |congruence].
  intros (o & Ho & H) (o' & Ho' & H'). assert (o' = o) as -> by congruence. destruct (dbpriv_object_has_flag o FLAG_INVALID); [congruence|].
  unfold resolves_at in *. destruct (finds s vname l); [congruence|]. by eapply resolves_det.
Qed.
Lemma uncached_ok s : verbs_ok s -> verbs_ok (with_table None s).
Proof. intros [H1 H2 _]. by apply verbs_ok_cleared; [| |left]. Qed.

(** C8: The lookup of the verb to call, on a permanent or an anonymous
    object or on a number that denotes none, terminates, and finds the first
    executable verb whose names the word matches, searching the object and
    its ancestors depth first in the order of the parents.  The cache makes no
    difference: without it the answer is the same.  Objects and verbs stay as
    they are and the cache stays right.  The word is [plain]: if it is at the
    address of a verb's own list of names, it must also match it as a word. *)
Theorem call_verb_correct address s recv verb (Hok : verbs_ok s) (Hn : is_cstr (str_bytes verb)) (Hp : plain s verb) (Hr : receiver s recv) :
  exists r n, resolves_recv s (str_bytes verb) recv r /\ (forall r', resolves_recv s (str_bytes verb) recv r' -> r' = r) /\
    forall steps walk, (n <= steps)%nat -> (n <= walk)%nat ->
      (exists s', db_find_callable_verb address steps walk recv verb s = Some (r, s') /\ verbs_ok s' /\ same_verbs s s') /\
      (exists s', db_find_callable_verb address steps walk recv verb (with_table None s) = Some (r, s')).
Proof.
  destruct (db_find_callable_verb_ok address verb Hn s recv Hok Hp Hr) as (r & n & Hres & H).
  destruct (db_find_callable_verb_ok address verb Hn (with_table None s) recv (uncached_ok s Hok) Hp Hr) as (r2 & n2 & Hres2 & H2).
  assert (r2 = r) as ->.
  { apply (resolves_recv_det s (str_bytes verb) recv); [|done].
    destruct recv as [|x| | | | | | | | | | |[l|]| |]; try done; cbn [resolves_recv] in *; [by apply (same_resolves (with_table None s) s)|].
    destruct Hres2 as (o & Ho & Hc). exists o. split; [done|]. destruct (dbpriv_object_has_flag o FLAG_INVALID); [done|].
    by apply (same_resolves_at (with_table None s) s). }
  exists r, (n `max` n2)%nat. split; [done|]. split; [by intros r' ?; apply (resolves_recv_det s (str_bytes verb) recv)|].
  intros steps walk Hs Hw. split; [apply H; lia|]. destruct (H2 steps walk) as (s' & E & _); [lia..|]. by exists s'.
Qed.

Lemma call_verb_correct_witness : verbs_ok spoken /\ is_cstr (str_bytes exam) /\ plain spoken exam /\ exists r n, forall steps walk,
  (n <= steps)%nat -> (n <= walk)%nat -> exists s', db_find_callable_verb no_address steps walk (VObj 2) exam spoken = Some (r, s') /\ verbs_ok s'.
Proof.
  assert (plain spoken exam) as Hp by (apply unnamed_plain; vm_compute; reflexivity).
  split; [exact (vg_ok _ spoken_good)|]. split; [exact exam_cstr|]. split; [exact Hp|].
  destruct (call_verb_correct no_address spoken (VObj 2) exam (vg_ok _ spoken_good) exam_cstr Hp I) as (r & n & _ & _ & H).
  exists r, n. intros steps walk Hs Hw. destruct (H steps walk Hs Hw) as [(s' & E & Hok & _) _]. exact (ex_intro _ s' (conj E Hok)).
Defined.
(** A hit, on a name in another case *)
Example call_hits : (fun r => (fst r, verbcache_hit (snd r), verbcache_miss (snd r))) <$>
    db_find_callable_verb no_address 20 20 (VObj 2) (mk_cstring 3 (str "ExAm")) spoken =
  (fun l => (Some (mk_handle l 0), 1, 1)) <$> dbpriv_find_object world 1.
Proof. by vm_compute. Qed.
(** The address of the word can matter, and then so does the cache: the whole
    list of names is a word that no name matches, unless it is the verb's own
    string, whose answer is then also given for a copy. *)
Definition look_names (p : positive) : cstring := mk_cstring p (str "look ex*amine").
Example call_identity :
  let call p s := db_find_callable_verb no_address 20 20 (VObj 1) (look_names p) s in
  let found r := (fun p => bool_decide (is_Some (fst p))) <$> r in
  (found (call 1%positive added), found (call 4%positive added), found (call 4%positive (later added (call 1%positive added)))) =
  (Some true, Some false, Some true).
Proof. by vm_compute. Qed.

(** What a verb must have to answer a command: a name that accepts the word
    (or that is the word's own string), and for the direct object, the
    preposition and the indirect object either "any" or what the command has.
    The two specifiers are bits 4 and 5 and bits 6 and 7 of the flags. *)
Definition fits_command (verb : cstring) (dobj prep iobj : Z) (v : Verbdef) : Prop :=
  (str_at (vd_name v) = str_at verb \/ exists p, p ∈ names (str_bytes (vd_name v)) /\ name_accepts p (str_bytes verb)) /\
  (let spec := (vd_perms v / 2 ^ 4) mod 4 in spec = 1 \/ spec = dobj) /\
  (vd_prep v = -2 \/ vd_prep v = prep) /\
  (let spec := (vd_perms v / 2 ^ 6) mod 4 in spec = 1 \/ spec = iobj).

Lemma command_matches_fits verb dobj prep iobj v : is_cstr (str_bytes verb) -> is_cstr (str_bytes (vd_name v)) ->
  command_matches verb dobj prep iobj v = true <-> fits_command verb dobj prep iobj v.
Proof.
  intros Hw Hv. unfold command_matches, fits_command, named, dobj_spec, iobj_spec.
  change OBJMASK with (Z.ones 2). rewrite !Z.land_ones, !Z.shiftr_div_pow2 by done. change (2 ^ 2) with 4.
  rewrite !andb_true_iff, !orb_true_iff, !Z.eqb_eq, <- (verbcasecmp_names _ _ Hv Hw).
  destruct (decide (str_at (vd_name v) = str_at verb)) as [E|E].
  - rewrite bool_decide_eq_true_2 by done. unfold verbcasecmp at 1. unfold ASPEC_ANY, PREP_ANY. tauto.
  - rewrite bool_decide_eq_false_2 by done. unfold ASPEC_ANY, PREP_ANY. tauto.
Qed.

(** C33: The verb of a command is the first, along the object and its ancestors
    in the order of [ancestors] and in the order of the verbs of each, that
    [fits_command]: a name accepts the word, and each of the specifiers for
    the direct object, the preposition and the indirect object is "any" or
    what the command has; whether it is executable does not matter.  Nothing
    but the ancestor cache changes.  (Strings hold no NUL.) *)
Theorem command_verb_correct fuel s x l o verb dobj prep iobj
    (Hok : verbs_ok s) (Hx : dbpriv_find_object (vbase s) x = Some l) (Ho : obj_heap (vbase s) !! l = Some o) (Hf : (walk_fuel (vbase s) <= fuel)%nat)
    (Hw : is_cstr (str_bytes verb)) (Hn : forall m v, v ∈ verbdefs s m -> is_cstr (str_bytes (vd_name v))) :
  exists r c, db_find_command_verb fuel x verb dobj prep iobj s = Some (r, with_vbase (with_cache c (vbase s)) s) /\
    verbs_ok (with_vbase (with_cache c (vbase s)) s) /\
    match r with
    | None => forall m v, m ∈ line_of (vbase s) l o -> v ∈ verbdefs s m -> ~ fits_command verb dobj prep iobj v
    | Some h => exists ls1 ls2 vs1 v vs2, line_of (vbase s) l o = ls1 ++ definer h :: ls2 /\
        verbdefs s (definer h) = vs1 ++ v :: vs2 /\ verbdef h = length vs1 /\ fits_command verb dobj prep iobj v /\
        (forall w, w ∈ vs1 -> ~ fits_command verb dobj prep iobj w) /\
        forall m w, m ∈ ls1 -> w ∈ verbdefs s m -> ~ fits_command verb dobj prep iobj w
    end.
Proof.
  destruct (db_find_command_verb_ok fuel s x l o verb dobj prep iobj Hok Hx Ho Hf) as (r & c & E & Hok' & Hr). exists r, c.
  split; [done|]. split; [done|].
  assert (forall m v, v ∈ verbdefs s m -> command_matches verb dobj prep iobj v = false -> ~ fits_command verb dobj prep iobj v) as Hno.
  { intros m v Hv Hm Hfit. apply command_matches_fits in Hfit; [congruence|done|by apply (Hn m)]. }
  destruct r as [h|]; [|intros m v Hm Hv; by apply (Hno m), (Hr m v Hm)].
  destruct Hr as (ls1 & ls2 & El & (vs1 & v & vs2 & Ev & Ei & Hm & Hall)%first_verb_Some & Hls). rewrite Forall_forall in Hall.
  exists ls1, ls2, vs1, v, vs2. split_and!; [done..| | |].
  - apply command_matches_fits; [done| |done]. apply (Hn (definer h)). rewrite Ev. set_solver.
  - intros w Hin. apply (Hno (definer h)); [rewrite Ev; set_solver|by apply Hall].
  - intros m w Hin Hv. by apply (Hno m), (Hls m w Hin).
Qed.

Definition cstr_names (s : vdb) : Prop := map_Forall (fun _ vs => Forall (fun v => is_cstr (str_bytes (vd_name v))) vs) (verbs s).
Lemma cstr_names_ok s : cstr_names s -> forall m v, v ∈ verbdefs s m -> is_cstr (str_bytes (vd_name v)).
Proof.
  intros H m v. unfold verbdefs. destruct (verbs s !! m) as [vs|] eqn:E; [|by intros ?%elem_of_nil]. intros Hv. specialize (H m vs E).
  rewrite Forall_forall in H. by apply H.
Qed.
Lemma spoken_names : cstr_names spoken.
Proof. unfold cstr_names. apply (bool_decide_unpack _). vm_compute. exact I. Qed.
Lemma command_verb_correct_witness : verbs_ok spoken /\ exists l o, dbpriv_find_object (vbase spoken) 2 = Some l /\
  exists r c, db_find_command_verb 20 2 exam ASPEC_THIS 3 ASPEC_NONE spoken = Some (r, with_vbase (with_cache c (vbase spoken)) spoken) /\
    match r with
    | None => forall m v, m ∈ line_of (vbase spoken) l o -> v ∈ verbdefs spoken m -> ~ fits_command exam ASPEC_THIS 3 ASPEC_NONE v
    | Some h => exists vs1 v vs2, verbdefs spoken (definer h) = vs1 ++ v :: vs2 /\ fits_command exam ASPEC_THIS 3 ASPEC_NONE v
    end.
Proof.
  split; [exact (vg_ok _ spoken_good)|]. spoken_at 2 l o El Eo. exists l, o. split; [reflexivity|].
  destruct (command_verb_correct 20 spoken 2 l o exam ASPEC_THIS 3 ASPEC_NONE (vg_ok _ spoken_good) El Eo spoken_fuel exam_cstr (cstr_names_ok spoken spoken_names)) as (r & c & E & _ & H).
  exists r, c. split; [exact E|]. destruct r as [h|]; [|exact H]. destruct H as (ls1 & ls2 & vs1 & v & vs2 & _ & Ev & _ & Hv & _).
  exists vs1, v, vs2. exact (conj Ev Hv).
Defined.
Example command_found : map (fun dobj => (fun r => bool_decide (is_Some (fst r))) <$> db_find_command_verb 20 2 exam dobj 3 ASPEC_NONE spoken) [ASPEC_THIS; ASPEC_NONE] =
  [Some true; Some false].
Proof. by vm_compute. Qed.

(** ** The built-ins *)

(** [add_verb] on an object: the errors of the information, then those of
    the arguments, then [E_PERM] without the right to write the object or,
    but for wizards, for another owner.  Otherwise the verb, with the given
    flags and specifiers, is added at the end of the object's list, and its
    number is the answer.  No other verb changes, and the cache is right. *)
Theorem add_verb_correct fresh s x l o info args progr a
    (Hg : verbs_good s) (Hx : dbpriv_find_object (vbase s) x = Some l) (Ho : obj_heap (vbase s) !! l = Some o) (Ha : validate_verb_args args = Some a) :
  exists r s', bf_add_verb fresh (VObj x) info args progr s = Some (r, s') /\ verbs_good s' /\ vbase s' = vbase s /\
    match validate_verb_info (vbase s) info, a with
    | inr e, _ | inl _, inr e => r = PError e /\ s' = s
    | inl (who, flags, names), inl (dobj, prep, iobj) =>
      if negb (allowed (vbase s) o progr FLAG_WRITE) || (negb (progr =? who) && negb (is_wizard (vbase s) progr)) then r = PError E_PERM /\ s' = s
      else exists v, verbdefs s' l = verbdefs s l ++ [v] /\ r = PVar (VInt (Z.of_nat (length (verbdefs s' l)))) /\
           (forall m, m <> l -> verbdefs s' m = verbdefs s m) /\
           str_bytes (vd_name v) = names /\ vd_owner v = who /\ vd_program v = None /\ Z.land (vd_perms v) PERMMASK = flags /\
           dobj_spec v = dobj /\ vd_prep v = prep /\ iobj_spec v = iobj
    end.
Proof.
  destruct (bf_add_verb_here s x l o Hx Ho fresh progr info args a Ha) as (r & s' & E & H). exists r, s'. split; [exact E|].
  split; [by apply (add_verb_good s x l o Hg Hx Ho fresh progr info args a r)|].
  destruct (validate_verb_info _ _) as [[[who flags] names]|e] eqn:Ei; [|by destruct H as [-> ->]]. destruct a as [[[dobj prep] iobj]|e]; [|by destruct H as [-> ->]].
  destruct (_ || _); [by destruct H as [-> ->]|]. destruct H as [-> R]. split; [apply R|]. exists (new_verbdef (mk_cstring fresh names) who flags dobj prep iobj).
  pose proof (fun m => rewritten_verbdefs _ _ _ _ m R) as Hv. rewrite (Hv l), decide_True by done. split; [done|].
  rewrite length_app, Nat.add_1_r. split; [done|]. split; [intros m Hm; by rewrite Hv, decide_False|].
  destruct (accepted_range _ _ _ _ Ha) as (Hd & _ & Hi). destruct (perms_packed flags dobj iobj (info_flags_range _ _ _ _ _ Ei) Hd Hi) as (E1 & E2 & E3).
  by split_and!.
Qed.

Lemma add_verb_correct_witness : verbs_good spoken /\ exists l o, dbpriv_find_object (vbase spoken) 2 = Some l /\ obj_heap (vbase spoken) !! l = Some o /\
  exists r s', bf_add_verb 5 (VObj 2) look_info look_args 0 spoken = Some (r, s') /\ verbs_good s'.
Proof.
  split; [exact spoken_good|]. spoken_at 2 l o El Eo. exists l, o. split; [reflexivity|]. split; [exact Eo|].
  destruct (add_verb_correct 5 spoken 2 l o look_info look_args 0 (inl (ASPEC_THIS, 3, ASPEC_ANY)) spoken_good El Eo eq_refl) as (r & s' & E & Hg & _).
  exact (ex_intro _ r (ex_intro _ s' (conj E Hg))).
Defined.

(** C32: [delete_verb] needs a descriptor that is a positive number or a
    string, and the right to write the object, and the descriptor must denote
    a verb of the object itself.  Then exactly that verb is gone, those after
    it moving up, nothing else has changed, and no later call can find it in
    the cache. *)
Theorem delete_verb_correct numeric at_desc s x l o desc progr
    (Hg : verbs_good s) (Hx : dbpriv_find_object (vbase s) x = Some l) (Ho : obj_heap (vbase s) !! l = Some o) :
  exists r s', bf_delete_verb numeric at_desc (VObj x) desc progr s = Some (r, s') /\ verbs_good s' /\ vbase s' = vbase s /\
    if negb (bool_decide (validate_verb_descriptor desc = E_NONE)) then r = PError (validate_verb_descriptor desc) /\ s' = s
    else if negb (allowed (vbase s) o progr FLAG_WRITE) then r = PError E_PERM /\ s' = s
    else match described numeric at_desc (verbdefs s l) desc with
         | None => r = PError E_VERBNF /\ s' = s
         | Some i => r = no_var_pack /\ (i < length (verbdefs s l))%nat /\ (forall m, m <> l -> verbdefs s' m = verbdefs s m) /\
             (forall k, verbdefs s' l !! k = verbdefs s l !! (if (k <? i)%nat then k else S k)) /\
             (vc_table s' = None \/ vc_table s' = Some ∅)
         end.
Proof.
  destruct (decide (validate_verb_descriptor desc = E_NONE)) as [Hd|Hd].
  2:{ exists (PError (validate_verb_descriptor desc)), s. rewrite bool_decide_false by done. unfold bf_delete_verb. by rewrite bool_decide_false by done. }
  destruct (bf_delete_verb_here s x l o Hx Ho numeric at_desc progr desc Hd) as (r & s' & E & H). exists r, s'. split; [exact E|].
  split; [by apply (delete_verb_good s x l o Hg Hx Ho numeric at_desc progr desc r)|]. rewrite bool_decide_true by done. cbn [negb].
  destruct (negb _); [by destruct H as [-> ->]|]. destruct (described _ _ _ _) as [i|] eqn:Ed; [|by destruct H as [-> ->]]. destruct H as [-> R].
  destruct (described_verb _ _ _ _ _ Ed) as [v Hi]. apply lookup_lt_Some in Hi. split; [apply R|]. split; [done|]. split; [done|].
  pose proof (fun m => rewritten_verbdefs _ _ _ _ m R) as Hv. split; [intros m Hm; by rewrite Hv, decide_False|]. split; [|apply R].
  intros k. rewrite Hv, decide_True by done. destruct (k <? i)%nat eqn:Ek; [apply Nat.ltb_lt in Ek|apply Nat.ltb_ge in Ek].
  - rewrite lookup_app_l by (rewrite length_take; lia). by rewrite lookup_take_lt.
  - rewrite lookup_app_r by (rewrite length_take; lia). rewrite lookup_drop, length_take. f_equal. lia.
Qed.

Lemma delete_verb_correct_witness : verbs_good spoken /\ exists l o, dbpriv_find_object (vbase spoken) 1 = Some l /\ obj_heap (vbase spoken) !! l = Some o /\
  exists r s', bf_delete_verb false 5 (VObj 1) (VStr (str "look")) 0 spoken = Some (r, s') /\ verbs_good s'.
Proof.
  split; [exact spoken_good|]. spoken_at 1 l o El Eo. exists l, o. split; [reflexivity|]. split; [exact Eo|].
  destruct (delete_verb_correct false 5 spoken 1 l o (VStr (str "look")) 0 spoken_good El Eo) as (r & s' & E & Hg & _).
  exact (ex_intro _ r (ex_intro _ s' (conj E Hg))).
Defined.
(** After the deletion the call finds nothing; before, it was in the cache. *)
Example delete_then_call : fst <$> db_find_callable_verb no_address 20 20 (VObj 2) exam (later spoken (bf_delete_verb false 5 (VObj 1) (VInt 1) 0 spoken)) = Some None.
Proof. by vm_compute. Qed.
(** The number of a descriptor is truncated to 32 bits. *)
Example delete_truncates : fst <$> bf_delete_verb false 5 (VObj 1) (VInt (2 ^ 32 + 1)) 0 spoken = Some no_var_pack.
Proof. by vm_compute. Qed.
(** With numbers in strings allowed, the empty string is the first verb. *)
Example delete_empty : (fst <$> bf_delete_verb true 5 (VObj 1) (VStr []) 0 spoken, fst <$> bf_delete_verb false 5 (VObj 1) (VStr []) 0 spoken) =
  (Some no_var_pack, Some (PError E_VERBNF)).
Proof. by vm_compute. Qed.

(** [set_verb_info] answers, in this order, an error of the descriptor, of
    the information, [E_VERBNF] if no verb is denoted, and [E_PERM] without
    the right to write the verb or, but for wizards, for another owner.
    Otherwise that verb has the new owner, flags and names, which [verb_info]
    with the same number reads back; its specifiers and program and every
    other verb are as before, and the cache is empty. *)
Theorem set_verb_info_correct numeric at_desc fresh s x l o desc info progr
    (Hg : verbs_good s) (Hx : dbpriv_find_object (vbase s) x = Some l) (Ho : obj_heap (vbase s) !! l = Some o) :
  exists r s', bf_set_verb_info numeric at_desc fresh (VObj x) desc info progr s = Some (r, s') /\ verbs_good s' /\ vbase s' = vbase s /\
    if negb (bool_decide (validate_verb_descriptor desc = E_NONE)) then r = PError (validate_verb_descriptor desc) /\ s' = s
    else match validate_verb_info (vbase s) info with
    | inr e => r = PError e /\ s' = s
    | inl (who, flags, names) =>
      match described numeric at_desc (verbdefs s l) desc with
      | None => r = PError E_VERBNF /\ s' = s
      | Some i => exists v, verbdefs s l !! i = Some v /\
        if negb (verb_allowed (vbase s) v progr VF_WRITE) || (negb (is_wizard (vbase s) progr) && negb (vd_owner v =? who)) then r = PError E_PERM /\ s' = s
        else r = no_var_pack /\ (vc_table s' = None \/ vc_table s' = Some ∅) /\
          (forall m, m <> l -> verbdefs s' m = verbdefs s m) /\ (forall k, k <> i -> verbdefs s' l !! k = verbdefs s l !! k) /\
          exists w, verbdefs s' l !! i = Some w /\ dobj_spec w = dobj_spec v /\ vd_prep w = vd_prep v /\ iobj_spec w = iobj_spec v /\
            vd_program w = vd_program v /\
            forall n reader, desc = VInt n -> bf_verb_info numeric at_desc (VObj x) desc reader s' =
              Some (if verb_allowed (vbase s) w reader VF_READ then PVar (VList [VObj who; VStr (verb_perms_string flags); VStr names]) else PError E_PERM, s')
      end
    end.
Proof.
  destruct (decide (validate_verb_descriptor desc = E_NONE)) as [Hd|Hd].
  2:{ exists (PError (validate_verb_descriptor desc)), s. rewrite bool_decide_false by done. unfold bf_set_verb_info. by rewrite bool_decide_false by done. }
  destruct (bf_set_verb_info_here s x l Hx numeric at_desc fresh progr desc info Hd) as (r & s' & E & H). exists r, s'. split; [exact E|].
  split; [by apply (set_verb_info_good s x l Hg Hx numeric at_desc fresh progr desc info r)|]. rewrite bool_decide_true by done. cbn [negb].
  destruct (validate_verb_info _ _) as [[[who flags] names]|e] eqn:Ei; [|by destruct H as [-> ->]].
  destruct (described _ _ _ _) as [i|] eqn:Ed; [|by destruct H as [-> ->]]. destruct H as (v & Hi & H). destruct (_ || _) eqn:Eb.
  { destruct H as [-> ->]. split; [done|]. exists v. by rewrite Eb. }
  destruct H as [-> R]. pose proof R as (EB & _ & Et). split; [done|]. exists v. rewrite Eb. split; [done|]. split; [done|]. split; [done|].
  pose proof (fun m => rewritten_verbdefs _ _ _ _ m R) as Hv. split; [intros m Hm; by rewrite Hv, decide_False|].
  split; [intros k Hk; rewrite Hv, decide_True by done; by apply list_lookup_insert_ne|].
  pose proof (info_flags_range _ _ _ _ _ Ei) as Hfl. destruct (perms_flags (vd_perms v) flags Hfl) as (E1 & E2 & E3).
  set (w := info_changed fresh who flags names v). assert (i < length (verbdefs s l))%nat as Hlt by (by eapply lookup_lt_Some).
  exists w. rewrite (Hv l), decide_True by done. split; [by apply list_lookup_insert_eq|]. unfold dobj_spec, iobj_spec.
  change (vd_perms w) with (Z.lor (Z.land (vd_perms v) (Z.lnot PERMMASK)) flags). rewrite E1, E2. do 4 (split; [done|]). intros n reader ->.
  assert (dbpriv_find_object (vbase s') x = Some l) as Hx' by (by rewrite EB).
  rewrite (bf_verb_info_here s' x l Hx') by done. rewrite (Hv l), decide_True, EB by done. cbn [described] in *. rewrite length_insert, Ed.
  cbn [mbind option_bind]. rewrite list_lookup_insert_eq by done.
  fold w.   assert (info_of w = VList [VObj who; VStr (verb_perms_string flags); VStr names]) as ->; [|done].
  unfold info_of, w, info_changed. cbn [vd_owner vd_perms vd_name str_bytes]. by rewrite E3.
Qed.

Lemma set_verb_info_correct_witness : verbs_good spoken /\ exists l o, dbpriv_find_object (vbase spoken) 1 = Some l /\ obj_heap (vbase spoken) !! l = Some o /\
  exists r s', bf_set_verb_info false 5 6 (VObj 1) (VInt 1) (VList [VObj 0; VStr (str "r"); VStr (str "peek")]) 0 spoken = Some (r, s') /\ verbs_good s'.
Proof.
  split; [exact spoken_good|]. spoken_at 1 l o El Eo. exists l, o. split; [reflexivity|]. split; [exact Eo|].
  destruct (set_verb_info_correct false 5 6 spoken 1 l o (VInt 1) (VList [VObj 0; VStr (str "r"); VStr (str "peek")]) 0 spoken_good El Eo) as (r & s' & E & Hg & _).
  exact (ex_intro _ r (ex_intro _ s' (conj E Hg))).
Defined.
(** The same names without [x]: not to be called any more *)
Example set_info_then_call : fst <$> db_find_callable_verb no_address 20 20 (VObj 2) exam
    (later spoken (bf_set_verb_info false 5 6 (VObj 1) (VStr (str "look")) (VList [VObj 0; VStr (str "r"); VStr (str "look ex*amine")]) 0 spoken)) = Some None.
Proof. by vm_compute. Qed.

(** After [set_verb_args] on the verb of a number, with arguments that are
    accepted, [verb_args] with that number prints arguments that are accepted
    with the same meaning, and keeps the names, owner, flags and program; in
    particular it never panics. *)
Theorem verb_args_roundtrip numeric at_desc s s' x l n args progr reader dobj prep iobj
    (Hg : verbs_good s) (Hx : dbpriv_find_object (vbase s) x = Some l) (Ha : validate_verb_args args = Some (inl (dobj, prep, iobj)))
    (Hset : bf_set_verb_args numeric at_desc (VObj x) (VInt n) args progr s = Some (no_var_pack, s')) :
  exists v w printed, verbdefs s l !! Z.to_nat (to_uint n - 1) = Some v /\ verbdefs s' l !! Z.to_nat (to_uint n - 1) = Some w /\
    info_of w = info_of v /\ vd_program w = vd_program v /\ validate_verb_args printed = Some (inl (dobj, prep, iobj)) /\
    bf_verb_args numeric at_desc (VObj x) (VInt n) reader s' =
      Some (if verb_allowed (vbase s) v reader VF_READ then PVar printed else PError E_PERM, s').
Proof.
  destruct (n <=? 0) eqn:En.
  { unfold bf_set_verb_args in Hset. cbn [validate_verb_descriptor] in Hset. rewrite En in Hset. by rewrite bool_decide_false in Hset by done. }
  assert (validate_verb_descriptor (VInt n) = E_NONE) as Hd by (cbn; by rewrite En).
  destruct (bf_set_verb_args_here s x l Hx numeric at_desc progr (VInt n) args _ Hd Ha) as (r & s2 & E & H).
  assert (r = no_var_pack /\ s2 = s') as [-> ->] by (rewrite E in Hset; by injection Hset).
  pose proof (set_verb_args_good s x l Hg Hx numeric at_desc progr (VInt n) args _ _ _ Ha Hset) as Hg'.
  destruct (described _ _ _ _) as [i|] eqn:Ed; [|by destruct H]. destruct H as (v & Hi & H). destruct (negb _); [by destruct H|]. destruct H as [_ R].
  destruct (accepted_range _ _ _ _ Ha) as (H1 & _ & H3). destruct (args_changed_specs dobj prep iobj v H1 H3) as (E1 & E2 & E3).
  pose proof (rewritten_verbdefs _ _ _ _ l R) as Hv. rewrite decide_True in Hv by done. pose proof R as (EB & _ & _).
  assert (i < length (verbdefs s l))%nat as Hlt by (by eapply lookup_lt_Some).
  assert (verbdefs s' l !! i = Some (args_changed dobj prep iobj v)) as Hw by (rewrite Hv; by apply list_lookup_insert_eq).
  destruct (specs_printable (args_changed dobj prep iobj v)) as (printed & Ep & Hp); [by eapply (vg_range s' Hg' l), list_elem_of_lookup_2|].
  rewrite E1, E2 in Hp. cbn [described] in Ed. destruct (_ && _) eqn:Eb in Ed; [|done]. injection Ed as Ed. subst i.
  exists v, (args_changed dobj prep iobj v), printed. split; [done|]. split; [done|]. split; [unfold info_of; by rewrite E3|]. split; [done|]. split; [done|].
  assert (dbpriv_find_object (vbase s') x = Some l) as Hx' by (by rewrite EB).
  rewrite (bf_verb_args_here s' x l Hx') by (first [done|intros u Hu; by eapply (good_printable s' Hg' l)]). rewrite EB. cbn [described].
  rewrite Hv, length_insert, Eb. cbn [mbind option_bind]. rewrite list_lookup_insert_eq, Ep by done. unfold verb_allowed. rewrite E3. done.
Qed.

Lemma verb_args_roundtrip_witness : verbs_good spoken /\ exists l, dbpriv_find_object (vbase spoken) 1 = Some l /\
  exists s', bf_set_verb_args false 5 (VObj 1) (VInt 1) look_args 0 spoken = Some (no_var_pack, s') /\
  exists printed, validate_verb_args printed = Some (inl (ASPEC_THIS, 3, ASPEC_ANY)).
Proof.
  split; [exact spoken_good|]. spoken_at 1 l o El Eo. exists l. split; [reflexivity|].
  destruct (bf_set_verb_args false 5 (VObj 1) (VInt 1) look_args 0 spoken) as [[r s']|] eqn:E; [|vm_compute in E; discriminate E].
  assert (r = no_var_pack) as Hr by (assert (fst <$> bf_set_verb_args false 5 (VObj 1) (VInt 1) look_args 0 spoken = Some no_var_pack) as E'
    by (vm_compute; reflexivity); rewrite E in E'; injection E' as E'; exact E').
  subst r. exists s'. split; [reflexivity|].
  destruct (verb_args_roundtrip false 5 spoken s' 1 l 1 look_args 0 0 ASPEC_THIS 3 ASPEC_ANY spoken_good El eq_refl E) as (v & w & printed & _ & _ & _ & _ & H & _).
  exact (ex_intro _ printed H).
Defined.

(** C9: Whatever sequence of calls, commands, changes of verbs by anyone with
    any arguments, changes of parents, destruction of objects and changes of
    objects that keep their parents runs, every entry of the verb cache stays
    the answer that a search of its object would give, verbs belong to
    permanent objects, and their specifiers stay printable.  The words that
    are called, and those given to [respond_to], are [plain]: a word whose
    string is the very string of a verb's names, which [verbcasecmp] accepts
    without reading it, is also accepted when it is read ([call_identity] is
    a call with the whole of such a string, which puts an entry into the cache
    that a search does not give).  The new parents exist and are not below the
    object, and a destroyed object has no children, contents or location, as
    the callers make sure. *)
Theorem verbs_invariant address numeric check parse s s' (Hg : verbs_good s) (Hsteps : rtc (verb_step address numeric check parse) s s') : verbs_good s'.
Proof. induction Hsteps as [|s s1 s' H _ IH]; [done|]. apply IH. by eapply verb_step_ok. Qed.

Lemma verbs_invariant_witness : verbs_good spoken /\ exists s', rtc (verb_step no_address false any_check no_parse) spoken s' /\ verbs_good s'.
Proof.
  split; [exact spoken_good|]. destruct (bf_delete_verb false 5 (VObj 1) (VInt 1) 0 spoken) as [[r s']|] eqn:E; [|vm_compute in E; discriminate E].
  assert (rtc (verb_step no_address false any_check no_parse) spoken s') as Hs by (eapply rtc_once, step_delete_verb; exact E).
  exact (ex_intro _ s' (conj Hs (verbs_invariant no_address false any_check no_parse spoken s' spoken_good Hs))).
Defined.
