(* ===== verification/TaskCode.v ===== *)
(** * Tasks (tasks.cc): queues and operations

    A queue of input keeps its tasks in nodes of a heap: [next] threads all of
    them, [next_itail] the last ones of the runs of out-of-band and of other
    tasks, and two fields hold the address of the last slot of each thread.
    Background tasks are lists, and so are the lists of queues.  What runs a
    task is [Context]: the machine.  Reading and parsing HTTP is left out. *)
From Stdlib Require Import ZArith Lia.
From stdpp Require Import prelude gmap strings.
From S2P Require Import Prelude CString Value ObjCode ObjFun.

Local Open Scope Z_scope.
Local Open Scope moo_scope.

(** ** Data *)

Inductive task_kind := TASK_INBAND | TASK_OOB | TASK_QUOTED | TASK_BINARY.
#[export] Instance task_kind_eq : EqDecision task_kind.
Proof. solve_decision. Defined.
Definition is_oob (k : task_kind) : bool := bool_decide (k = TASK_OOB).

Record timeval := mk_timeval { tv_sec : Z; tv_usec : Z }.
(** [timercmp] *)
Definition timer_cmp (cmp : Z -> Z -> bool) (a b : timeval) : bool :=
  if tv_sec a =? tv_sec b then cmp (tv_usec a) (tv_usec b) else cmp (tv_sec a) (tv_sec b).

(** A suspended machine: its task and [progr_of_cur_verb], and the rest *)
Record vm := mk_vm { task_id : Z; progr_of_cur_verb : Z; vm_code : positive }.

Inductive bg_task :=
| TASK_FORKED (id progr : Z) (code : positive) (start_tv : timeval)
| TASK_SUSPENDED (the_vm : vm) (start_tv : timeval) (value : Var).

Definition get_start_time (t : bg_task) : timeval := match t with TASK_FORKED _ _ _ tv | TASK_SUSPENDED _ tv _ => tv end.
Definition progr_of (t : bg_task) : Z := match t with TASK_FORKED _ progr _ _ => progr | TASK_SUSPENDED v _ _ => progr_of_cur_verb v end.
Definition has_id (id : Z) (t : bg_task) : bool := match t with TASK_FORKED i _ _ _ => i =? id | TASK_SUSPENDED v _ _ => task_id v =? id end.
Definition suspended_id (id : Z) (t : bg_task) : bool := match t with TASK_SUSPENDED v _ _ => task_id v =? id | _ => false end.

(** [input_task] *)
Record input_task := mk_input { kind : task_kind; text : bytes; input_length : Z; next : option positive; next_itail : option positive }.

Definition set_next (x : option positive) (t : input_task) : input_task := mk_input (kind t) (text t) (input_length t) x (next_itail t).
Definition set_next_itail (x : option positive) (t : input_task) : input_task := mk_input (kind t) (text t) (input_length t) (next t) x.
Definition set_input (k : task_kind) (s : bytes) (t : input_task) : input_task := mk_input k s (input_length t) (next t) (next_itail t).

(** The address of a field: [first_input], the [next] of a task,
    [first_itail], the [next_itail] of a task *)
Inductive slot := SFirst | SNext (t : positive) | SFirstTail | STail (t : positive).

(** The counters [total_input_length], [usage], [num_bg_tasks] and the like are
    [int] in the code, and numbers without bound here: they leave the range
    of an [int], which is undefined behaviour and not a wrap, only after 2^31
    characters that wait, tasks, or seconds of use. *)
Record tqueue := mk_tqueue {
  player : Z; handler : Z; connected : bool; first_input : option positive; last_input : slot; first_itail : option positive; last_itail : slot; first_bg : list bg_task; output_prefix : option bytes; output_suffix : option bytes; flush_cmd : option bytes; reading_vm : option vm; total_input_length : Z; last_input_task_id : Z; input_suspended : bool; usage : Z; num_bg_tasks : Z; icmds : Z; hold_input : bool; disable_oob : bool }.

Definition set_player (x : Z) (q : tqueue) : tqueue :=
  mk_tqueue x (handler q) (connected q) (first_input q) (last_input q) (first_itail q) (last_itail q) (first_bg q) (output_prefix q) (output_suffix q) (flush_cmd q) (reading_vm q) (total_input_length q) (last_input_task_id q) (input_suspended q) (usage q) (num_bg_tasks q) (icmds q) (hold_input q) (disable_oob q).
Definition set_handler (x : Z) (q : tqueue) : tqueue :=
  mk_tqueue (player q) x (connected q) (first_input q) (last_input q) (first_itail q) (last_itail q) (first_bg q) (output_prefix q) (output_suffix q) (flush_cmd q) (reading_vm q) (total_input_length q) (last_input_task_id q) (input_suspended q) (usage q) (num_bg_tasks q) (icmds q) (hold_input q) (disable_oob q).
Definition set_connected (x : bool) (q : tqueue) : tqueue :=
  mk_tqueue (player q) (handler q) x (first_input q) (last_input q) (first_itail q) (last_itail q) (first_bg q) (output_prefix q) (output_suffix q) (flush_cmd q) (reading_vm q) (total_input_length q) (last_input_task_id q) (input_suspended q) (usage q) (num_bg_tasks q) (icmds q) (hold_input q) (disable_oob q).
Definition set_first_input (x : option positive) (q : tqueue) : tqueue :=
  mk_tqueue (player q) (handler q) (connected q) x (last_input q) (first_itail q) (last_itail q) (first_bg q) (output_prefix q) (output_suffix q) (flush_cmd q) (reading_vm q) (total_input_length q) (last_input_task_id q) (input_suspended q) (usage q) (num_bg_tasks q) (icmds q) (hold_input q) (disable_oob q).
Definition set_last_input (x : slot) (q : tqueue) : tqueue :=
  mk_tqueue (player q) (handler q) (connected q) (first_input q) x (first_itail q) (last_itail q) (first_bg q) (output_prefix q) (output_suffix q) (flush_cmd q) (reading_vm q) (total_input_length q) (last_input_task_id q) (input_suspended q) (usage q) (num_bg_tasks q) (icmds q) (hold_input q) (disable_oob q).
Definition set_first_itail (x : option positive) (q : tqueue) : tqueue :=
  mk_tqueue (player q) (handler q) (connected q) (first_input q) (last_input q) x (last_itail q) (first_bg q) (output_prefix q) (output_suffix q) (flush_cmd q) (reading_vm q) (total_input_length q) (last_input_task_id q) (input_suspended q) (usage q) (num_bg_tasks q) (icmds q) (hold_input q) (disable_oob q).
Definition set_last_itail (x : slot) (q : tqueue) : tqueue :=
  mk_tqueue (player q) (handler q) (connected q) (first_input q) (last_input q) (first_itail q) x (first_bg q) (output_prefix q) (output_suffix q) (flush_cmd q) (reading_vm q) (total_input_length q) (last_input_task_id q) (input_suspended q) (usage q) (num_bg_tasks q) (icmds q) (hold_input q) (disable_oob q).
Definition set_first_bg (x : list bg_task) (q : tqueue) : tqueue :=
  mk_tqueue (player q) (handler q) (connected q) (first_input q) (last_input q) (first_itail q) (last_itail q) x (output_prefix q) (output_suffix q) (flush_cmd q) (reading_vm q) (total_input_length q) (last_input_task_id q) (input_suspended q) (usage q) (num_bg_tasks q) (icmds q) (hold_input q) (disable_oob q).
Definition set_flush_cmd (x : option bytes) (q : tqueue) : tqueue :=
  mk_tqueue (player q) (handler q) (connected q) (first_input q) (last_input q) (first_itail q) (last_itail q) (first_bg q) (output_prefix q) (output_suffix q) x (reading_vm q) (total_input_length q) (last_input_task_id q) (input_suspended q) (usage q) (num_bg_tasks q) (icmds q) (hold_input q) (disable_oob q).
Definition set_reading_vm (x : option vm) (q : tqueue) : tqueue :=
  mk_tqueue (player q) (handler q) (connected q) (first_input q) (last_input q) (first_itail q) (last_itail q) (first_bg q) (output_prefix q) (output_suffix q) (flush_cmd q) x (total_input_length q) (last_input_task_id q) (input_suspended q) (usage q) (num_bg_tasks q) (icmds q) (hold_input q) (disable_oob q).
Definition set_total_input_length (x : Z) (q : tqueue) : tqueue :=
  mk_tqueue (player q) (handler q) (connected q) (first_input q) (last_input q) (first_itail q) (last_itail q) (first_bg q) (output_prefix q) (output_suffix q) (flush_cmd q) (reading_vm q) x (last_input_task_id q) (input_suspended q) (usage q) (num_bg_tasks q) (icmds q) (hold_input q) (disable_oob q).
Definition set_last_input_task_id (x : Z) (q : tqueue) : tqueue :=
  mk_tqueue (player q) (handler q) (connected q) (first_input q) (last_input q) (first_itail q) (last_itail q) (first_bg q) (output_prefix q) (output_suffix q) (flush_cmd q) (reading_vm q) (total_input_length q) x (input_suspended q) (usage q) (num_bg_tasks q) (icmds q) (hold_input q) (disable_oob q).
Definition set_input_suspended (x : bool) (q : tqueue) : tqueue :=
  mk_tqueue (player q) (handler q) (connected q) (first_input q) (last_input q) (first_itail q) (last_itail q) (first_bg q) (output_prefix q) (output_suffix q) (flush_cmd q) (reading_vm q) (total_input_length q) (last_input_task_id q) x (usage q) (num_bg_tasks q) (icmds q) (hold_input q) (disable_oob q).
Definition set_usage (x : Z) (q : tqueue) : tqueue :=
  mk_tqueue (player q) (handler q) (connected q) (first_input q) (last_input q) (first_itail q) (last_itail q) (first_bg q) (output_prefix q) (output_suffix q) (flush_cmd q) (reading_vm q) (total_input_length q) (last_input_task_id q) (input_suspended q) x (num_bg_tasks q) (icmds q) (hold_input q) (disable_oob q).
Definition set_num_bg_tasks (x : Z) (q : tqueue) : tqueue :=
  mk_tqueue (player q) (handler q) (connected q) (first_input q) (last_input q) (first_itail q) (last_itail q) (first_bg q) (output_prefix q) (output_suffix q) (flush_cmd q) (reading_vm q) (total_input_length q) (last_input_task_id q) (input_suspended q) (usage q) x (icmds q) (hold_input q) (disable_oob q).
Definition set_icmds (x : Z) (q : tqueue) : tqueue :=
  mk_tqueue (player q) (handler q) (connected q) (first_input q) (last_input q) (first_itail q) (last_itail q) (first_bg q) (output_prefix q) (output_suffix q) (flush_cmd q) (reading_vm q) (total_input_length q) (last_input_task_id q) (input_suspended q) (usage q) (num_bg_tasks q) x (hold_input q) (disable_oob q).
Definition set_hold_input (x : bool) (q : tqueue) : tqueue :=
  mk_tqueue (player q) (handler q) (connected q) (first_input q) (last_input q) (first_itail q) (last_itail q) (first_bg q) (output_prefix q) (output_suffix q) (flush_cmd q) (reading_vm q) (total_input_length q) (last_input_task_id q) (input_suspended q) (usage q) (num_bg_tasks q) (icmds q) x (disable_oob q).
Definition set_disable_oob (x : bool) (q : tqueue) : tqueue :=
  mk_tqueue (player q) (handler q) (connected q) (first_input q) (last_input q) (first_itail q) (last_itail q) (first_bg q) (output_prefix q) (output_suffix q) (flush_cmd q) (reading_vm q) (total_input_length q) (last_input_task_id q) (input_suspended q) (usage q) (num_bg_tasks q) (icmds q) (hold_input q) x.

Inductive event :=
| Notify (player : Z) (line : bytes)
| SuspendInput (player : Z)
| ResumeInput (player : Z)
| History (player : Z) (line : bytes).

Record tstate := mk_tstate {
  tdb : db; inputs : gmap positive input_task; tqueues : gmap positive tqueue;
  active_tqueues : list positive; idle_tqueues : list positive; waiting_tasks : list bg_task;
  current_task_id : Z; events : list event }.

Definition with_inputs (x : gmap positive input_task) (s : tstate) : tstate :=
  mk_tstate (tdb s) x (tqueues s) (active_tqueues s) (idle_tqueues s) (waiting_tasks s) (current_task_id s) (events s).
Definition with_tqueues (x : gmap positive tqueue) (s : tstate) : tstate :=
  mk_tstate (tdb s) (inputs s) x (active_tqueues s) (idle_tqueues s) (waiting_tasks s) (current_task_id s) (events s).
Definition with_active (x : list positive) (s : tstate) : tstate :=
  mk_tstate (tdb s) (inputs s) (tqueues s) x (idle_tqueues s) (waiting_tasks s) (current_task_id s) (events s).
Definition with_idle (x : list positive) (s : tstate) : tstate :=
  mk_tstate (tdb s) (inputs s) (tqueues s) (active_tqueues s) x (waiting_tasks s) (current_task_id s) (events s).
Definition with_waiting (x : list bg_task) (s : tstate) : tstate :=
  mk_tstate (tdb s) (inputs s) (tqueues s) (active_tqueues s) (idle_tqueues s) x (current_task_id s) (events s).
Definition with_current (x : Z) (s : tstate) : tstate :=
  mk_tstate (tdb s) (inputs s) (tqueues s) (active_tqueues s) (idle_tqueues s) (waiting_tasks s) x (events s).
Definition with_events (x : list event) (s : tstate) : tstate :=
  mk_tstate (tdb s) (inputs s) (tqueues s) (active_tqueues s) (idle_tqueues s) (waiting_tasks s) (current_task_id s) x.

Definition tmodify (f : tstate -> tstate) : M tstate unit := fun s => Some (tt, f s).
Definition get_tq (p : positive) : M tstate tqueue := fun s => match tqueues s !! p with Some q => Some (q, s) | None => None end.
Definition update_tq (p : positive) (f : tqueue -> tqueue) : M tstate unit := fun s =>
  match tqueues s !! p with Some q => Some (tt, with_tqueues (<[p := f q]> (tqueues s)) s) | None => None end.

(** ** The input of one queue

    What the functions on the input of a queue see: the nodes, the queue, and
    what they tell the network. *)
Record qstate := mk_qstate { nodes : gmap positive input_task; tq : tqueue; told : list event }.

Definition on_queue {A} (p : positive) (m : M qstate A) : M tstate A := fun s =>
  match tqueues s !! p with
  | Some q =>
    match m (mk_qstate (inputs s) q (events s)) with
    | Some (x, l) => Some (x, with_events (told l) (with_tqueues (<[p := tq l]> (tqueues s)) (with_inputs (nodes l) s)))
    | None => None
    end
  | None => None
  end.

Definition this_tq : M qstate tqueue := fun s => Some (tq s, s).
Definition set_tq (f : tqueue -> tqueue) : M qstate unit := fun s => Some (tt, mk_qstate (nodes s) (f (tq s)) (told s)).
Definition tell (e : event) : M qstate unit := fun s => Some (tt, mk_qstate (nodes s) (tq s) (told s ++ [e])).
Definition get_node (t : positive) : M qstate input_task := fun s => match nodes s !! t with Some n => Some (n, s) | None => None end.
Definition update_node (t : positive) (f : input_task -> input_task) : M qstate unit := fun s =>
  match nodes s !! t with Some n => Some (tt, mk_qstate (<[t := f n]> (nodes s)) (tq s) (told s)) | None => None end.
Definition new_node (t : positive) (n : input_task) : M qstate unit := fun s => Some (tt, mk_qstate (<[t := n]> (nodes s)) (tq s) (told s)).
Definition read_slot (sl : slot) : M qstate (option positive) :=
  match sl with
  | SFirst => let! q := this_tq in mreturn (first_input q)
  | SNext t => let! n := get_node t in mreturn (next n)
  | SFirstTail => let! q := this_tq in mreturn (first_itail q)
  | STail t => let! n := get_node t in mreturn (next_itail n)
  end.
Definition write_slot (sl : slot) (x : option positive) : M qstate unit :=
  match sl with
  | SFirst => set_tq (set_first_input x)
  | SNext t => update_node t (set_next x)
  | SFirstTail => set_tq (set_first_itail x)
  | STail t => update_node t (set_next_itail x)
  end.
Definition slot_eqb (a b : slot) : bool :=
  match a, b with
  | SFirst, SFirst | SFirstTail, SFirstTail => true
  | SNext t, SNext u | STail t, STail u => (t =? u)%positive
  | _, _ => false
  end.

Definition INPUT_HIWAT : Z := 65536.
Definition INPUT_LOWAT : Z := INPUT_HIWAT / 2.
Definition oob_quote_prefix : bytes := str "#$" ++ [34].
Definition oob_prefix : bytes := str "#$#".
Fixpoint begins (prefix s : bytes) : bool :=
  match prefix, s with
  | [], _ => true
  | a :: prefix, b :: s => (a =? b) && begins prefix s
  | _, [] => false
  end.

Definition DQ_FIRST : Z := -1.
Definition DQ_OOB : Z := 0.
Definition DQ_INBAND : Z := 1.

Definition unquote_input (t : positive) : M qstate unit :=
  let! q := this_tq in
  update_node t (fun n =>
    match kind n with
    | TASK_OOB => if disable_oob q then set_input TASK_INBAND (text n) n else n
    | TASK_QUOTED => set_input TASK_INBAND (if disable_oob q then text n else drop (length oob_quote_prefix) (text n)) n
    | _ => n
    end).

(** The task at [pt] taken out of both threads; if it ends its run, [pitail]
    is where the thread of ends has it *)
Definition unlink_input (pt pitail : slot) (t : positive) : M qstate unit :=
  let! n := get_node t in
  write_slot pt (next n) ;;
  (match next n with None => set_tq (set_last_input pt) | Some _ => update_node t (set_next None) end) ;;
  let! e := read_slot pitail in
  if bool_decide (e = Some t) then
    write_slot pitail None ;;
    let! n := get_node t in
    (match next_itail n with
     | Some e => set_tq (set_first_itail (Some e)) ;; update_node t (set_next_itail None)
     | None => mreturn tt
     end) ;;
    let! q := this_tq in
    let! e := read_slot (last_itail q) in
    match e with None => set_tq (set_last_itail SFirstTail) | Some _ => mreturn tt end
  else mreturn tt.

Definition dequeue_input_task (how : Z) : M qstate (option positive) :=
  let! q := this_tq in
  if disable_oob q && (how =? DQ_OOB) then mreturn None
  else
    let how := if disable_oob q then DQ_FIRST else how in
    match first_input q with
    | None => mreturn None
    | Some f =>
      let! nf := get_node f in
      let! (pt, pitail) :=
        (if how =? Z.b2z (is_oob (kind nf)) then
           match first_itail q with Some e => mreturn (SNext e, STail e) | None => mfail end
         else mreturn (SFirst, SFirstTail)) in
      let! t := read_slot pt in
      match t with
      | None => mreturn None
      | Some t =>
        unlink_input pt pitail t ;;
        let! n := get_node t in
        set_tq (fun q => set_total_input_length (total_input_length q - input_length n) q) ;;
        let! q := this_tq in
        (if input_suspended q && connected q && (total_input_length q <? INPUT_LOWAT)
         then tell (ResumeInput (player q)) ;; set_tq (set_input_suspended false) else mreturn tt) ;;
        unquote_input t ;;
        mreturn (Some t)
      end
    end.

Definition input_kind (input : bytes) (binary is_telnet : bool) : task_kind :=
  if binary then TASK_BINARY
  else if is_telnet then TASK_OOB
  else if begins oob_quote_prefix input then TASK_QUOTED
  else if begins oob_prefix input then TASK_OOB
  else TASK_INBAND.

(** The task and its place; [ensure_usage] follows *)
Definition link_input_task (input : bytes) (at_front : bool) (k : task_kind) : M qstate unit := fun s =>
  let t := fresh (dom (nodes s)) in
  let len := Z.of_nat (length input) in
  (new_node t (mk_input k input len None None) ;;
   set_tq (fun q => set_total_input_length (total_input_length q + len) q) ;;
   let! q := this_tq in
   match (if at_front then first_input q else None) with
   | Some f =>
     let! nf := get_node f in
     (if bool_decide (is_oob (kind nf) = is_oob k) then mreturn tt
      else
        update_node t (set_next_itail (first_itail q)) ;;
        set_tq (set_first_itail (Some t)) ;;
        if slot_eqb (last_itail q) SFirstTail then set_tq (set_last_itail (STail t)) else mreturn tt) ;;
     update_node t (set_next (Some f)) ;;
     set_tq (set_first_input (Some t))
   | None =>
     (match first_input q with
      | None => mreturn tt
      | Some _ =>
        let! e := read_slot (last_itail q) in
        match e with
        | None => mfail
        | Some e =>
          let! ne := get_node e in
          if bool_decide (is_oob (kind ne) = is_oob k) then mreturn tt else set_tq (set_last_itail (STail e))
        end
      end) ;;
     let! q := this_tq in
     write_slot (last_itail q) (Some t) ;;
     write_slot (last_input q) (Some t) ;;
     set_tq (set_last_input (SNext t))
   end) s.

(** ** The queues *)

Definition NO_USAGE : Z := -1.
Definition player_at (s : tstate) (p : positive) : option Z := player <$> tqueues s !! p.
Definition usage_at (s : tstate) (p : positive) : Z := match tqueues s !! p with Some q => usage q | None => 0 end.

Definition deactivate_tqueue (p : positive) : M tstate unit :=
  update_tq p (set_usage NO_USAGE) ;;
  tmodify (fun s => with_idle (p :: idle_tqueues s) s).

Fixpoint insert_active (usage_of : positive -> Z) (u : Z) (p : positive) (ps : list positive) : list positive :=
  match ps with
  | [] => [p]
  | r :: rest => if usage_of r <=? u then r :: insert_active usage_of u p rest else p :: ps
  end.
Definition activate_tqueue (p : positive) : M tstate unit :=
  let! q := get_tq p in
  tmodify (fun s => with_active (insert_active (usage_at s) (usage q) p (active_tqueues s)) s).

(** A queue with [NO_USAGE] that is not idle has no [prev]. *)
Definition unlink_idle (p : positive) : M tstate unit := fun s =>
  if bool_decide (p ∈ idle_tqueues s) then Some (tt, with_idle (filter (fun r => r <> p) (idle_tqueues s)) s) else None.

Definition ensure_usage (p : positive) : M tstate unit :=
  let! q := get_tq p in
  if usage q =? NO_USAGE then
    (fun s => update_tq p (set_usage (match active_tqueues s with r :: _ => usage_at s r | [] => 0 end)) s) ;;
    unlink_idle p ;;
    activate_tqueue p
  else mreturn tt.

Definition ICMD_SUFFIX : Z := 1.
Definition ICMD_OUTPUTSUFFIX : Z := 2.
Definition ICMD_OUTPUTPREFIX : Z := 3.
Definition ICMD_PREFIX : Z := 4.
Definition ICMD_PROGRAM : Z := 5.
Definition ICMD_ALL_CMDS : Z := Z.shiftl 1 (ICMD_PROGRAM + 1) - 2.

Definition found_in (s : tstate) (who : Z) (ps : list positive) : option positive :=
  List.find (fun p => bool_decide (player_at s p = Some who)) ps.

Section flush.
(** What [default_flush_command] answers *)
Context (default_flush_command : option bytes).

Definition new_tqueue (who : Z) : tqueue :=
  mk_tqueue who 0 false None SFirst None SFirstTail [] None None default_flush_command None 0 0 false NO_USAGE 0 ICMD_ALL_CMDS false false.
Definition create_tqueue (who : Z) : M tstate positive := fun s =>
  let p := fresh (dom (tqueues s)) in
  (tmodify (fun s => with_tqueues (<[p := new_tqueue who]> (tqueues s)) s) ;;
   deactivate_tqueue p ;;
   mreturn p) s.
Definition find_tqueue (who : Z) : M tstate (option positive) := fun s =>
  Some (match found_in s who (active_tqueues s) with Some p => Some p | None => found_in s who (idle_tqueues s) end, s).
(** With [create_if_not_found] *)
Definition find_or_create (who : Z) : M tstate positive :=
  let! p := find_tqueue who in
  match p with Some p => mreturn p | None => create_tqueue who end.

Definition free_tqueue (p : positive) : M tstate unit :=
  unlink_idle p ;;
  tmodify (fun s => with_tqueues (delete p (tqueues s)) s).

Definition enqueue_bg_task (p : positive) (t : bg_task) : M tstate unit := update_tq p (fun q => set_first_bg (first_bg q ++ [t]) q).
Definition dequeue_bg_task (p : positive) : M tstate (option bg_task) :=
  let! q := get_tq p in
  match first_bg q with
  | [] => mreturn None
  | t :: rest => update_tq p (fun q => set_num_bg_tasks (num_bg_tasks q - 1) (set_first_bg rest q)) ;; mreturn (Some t)
  end.

Definition free_task (t : positive) : M tstate unit := tmodify (fun s => with_inputs (delete t (inputs s)) s).

Definition is_out_of_input (q : tqueue) : bool := negb (connected q) && bool_decide (first_input q = None).
Definition reading (q : tqueue) : bool := bool_decide (is_Some (reading_vm q)).

Definition new_task_queue (who handler : Z) : M tstate positive :=
  let! p := find_or_create who in
  update_tq p (fun q => set_handler handler (set_connected true q)) ;;
  mreturn p.
Definition free_task_queue (p : positive) : M tstate unit :=
  update_tq p (set_connected false) ;;
  let! q := get_tq p in
  if reading q then ensure_usage p else mreturn tt.

(** ** Input *)

Definition enqueue_input_task (p : positive) (input : bytes) (at_front binary is_telnet : bool) : M tstate unit :=
  let k := input_kind input binary is_telnet in
  on_queue p (link_input_task input at_front k) ;;
  let! q := get_tq p in
  (if negb (hold_input q) || reading q || (negb (disable_oob q) && is_oob k) then ensure_usage p else mreturn tt) ;;
  on_queue p
    (let! q := this_tq in
     if negb (input_suspended q) && connected q && (INPUT_HIWAT <? total_input_length q)
     then tell (SuspendInput (player q)) ;; set_tq (set_input_suspended true) else mreturn tt).

Definition task_suspend_input (p : positive) : M tstate unit :=
  on_queue p
    (let! q := this_tq in
     if negb (input_suspended q) && connected q then tell (SuspendInput (player q)) ;; set_tq (set_input_suspended true) else mreturn tt).

Fixpoint flush_loop (fuel : nat) (p : positive) (show : bool) : M tstate unit :=
  match fuel with
  | O => mfail
  | S fuel =>
    let! t := on_queue p (dequeue_input_task DQ_FIRST) in
    match t with
    | None => mreturn tt
    | Some t =>
      (if show then on_queue p (let! n := get_node t in let! q := this_tq in tell (Notify (player q) (str ">>     " ++ text n))) else mreturn tt) ;;
      free_task t ;;
      flush_loop fuel p show
    end
  end.
Definition notify_if (show : bool) (p : positive) (line : bytes) : M tstate unit :=
  if show then on_queue p (let! q := this_tq in tell (Notify (player q) line)) else mreturn tt.
Definition flush_input (p : positive) (show : bool) : M tstate unit := fun s =>
  (let! q := get_tq p in
   match first_input q with
   | Some _ =>
     notify_if show p (str ">> Flushing the following pending input:") ;;
     flush_loop (S (size (inputs s))) p show ;;
     notify_if show p (str ">> (Done flushing)")
   | None => notify_if show p (str ">> No pending input to flush...")
   end) s.

Definition new_input_task (p : positive) (input : bytes) (binary out_of_band : bool) : M tstate unit :=
  let! q := get_tq p in
  if match flush_cmd q with Some c => strcasecmp input c =? 0 | None => false end then flush_input p true
  else enqueue_input_task p input false binary out_of_band.

Definition read_input_now (connection : Z) : M tstate Var :=
  let! p := find_tqueue connection in
  match p with
  | None => mreturn (VErr E_INVARG)
  | Some p =>
    let! q := get_tq p in
    if is_out_of_input q then mreturn (VErr E_INVARG)
    else
      let! t := on_queue p (dequeue_input_task DQ_INBAND) in
      match t with
      | None => mreturn (VInt 0)
      | Some t =>
        let! n := on_queue p (get_node t) in
        free_task t ;;
        mreturn (VStr (text n))
      end
  end.
Definition make_reading_task (v : vm) (who : Z) : M tstate error :=
  let! p := find_tqueue who in
  match p with
  | None => mreturn E_INVARG
  | Some p =>
    let! q := get_tq p in
    if reading q || is_out_of_input q then mreturn E_INVARG
    else
      update_tq p (set_reading_vm (Some v)) ;;
      (match first_input q with Some _ => ensure_usage p | None => mreturn tt end) ;;
      mreturn E_NONE
  end.
Definition last_input_task_id_of (who : Z) : M tstate Z :=
  let! p := find_tqueue who in
  match p with None => mreturn 0 | Some p => let! q := get_tq p in mreturn (last_input_task_id q) end.

(** The options [hold-input] and [disable-oob] of a connection *)
Definition set_hold (p : positive) (value : bool) : M tstate unit :=
  update_tq p (set_hold_input value) ;;
  let! q := get_tq p in
  if negb value && bool_decide (is_Some (first_input q)) then ensure_usage p else mreturn tt.
Definition set_oob (p : positive) (value : bool) : M tstate unit :=
  update_tq p (set_disable_oob value) ;;
  let! q := get_tq p in
  let! oob := on_queue p
    (match first_input q, first_itail q with
     | Some f, Some e =>
       let! ne := get_node e in
       let! nf := get_node f in
       mreturn (bool_decide (is_Some (next ne)) || is_oob (kind nf))
     | Some _, None => mfail
     | None, _ => mreturn false
     end) in
  if negb value && oob then ensure_usage p else mreturn tt.

(** ** Background tasks *)

Fixpoint insert_waiting (t : bg_task) (ts : list bg_task) : list bg_task :=
  match ts with
  | [] => [t]
  | u :: rest => if timer_cmp Z.ltb (get_start_time t) (get_start_time u) then t :: ts else u :: insert_waiting t rest
  end.
Definition enqueue_waiting (t : bg_task) : M tstate unit :=
  let! p := find_or_create (progr_of t) in
  update_tq p (fun q => set_num_bg_tasks (num_bg_tasks q + 1) q) ;;
  tmodify (fun s => with_waiting (insert_waiting t (waiting_tasks s)) s).

(** [user_limit]: the property [queued_task_limit] of a valid user, if it is
    an integer; [server_limit]: the server option *)
Definition check_user_task_limit (user_limit : option Z) (server_limit user : Z) : M tstate bool :=
  let! p := find_tqueue user in
  let limit := match user_limit with Some n => to_int n | None => -1 end in
  let limit := if limit <? 0 then server_limit else limit in
  if limit <? 0 then mreturn true
  else match p with
       | Some p => let! q := get_tq p in mreturn (negb (limit <=? num_bg_tasks q))
       | None => mreturn (negb (limit <=? 0))
       end.
Definition enqueue_forked_task2 (user_limit : option Z) (server_limit : Z) (id progr : Z) (code : positive) (start_tv : timeval) : M tstate error :=
  let! ok := check_user_task_limit user_limit server_limit progr in
  if negb ok then mreturn E_QUOTA else enqueue_waiting (TASK_FORKED id progr code start_tv) ;; mreturn E_NONE.
Definition INTNUM_MAX : Z := 2 ^ 63 - 1.
Definition enqueue_suspended_task (user_limit : option Z) (server_limit : Z) (v : vm) (start_tv : option timeval) : M tstate error :=
  let! ok := check_user_task_limit user_limit server_limit (progr_of_cur_verb v) in
  if ok : bool then enqueue_waiting (TASK_SUSPENDED v (default (mk_timeval INTNUM_MAX 0) start_tv) (VInt 0)) ;; mreturn E_NONE
  else mreturn E_QUOTA.
Definition resume_task (v : vm) (value : Var) : M tstate unit :=
  let! p := find_or_create (progr_of_cur_verb v) in
  ensure_usage p ;;
  enqueue_waiting (TASK_SUSPENDED v (mk_timeval 0 0) value).

Definition has_work (s : tstate) (p : positive) : bool :=
  match tqueues s !! p with Some q => bool_decide (is_Some (first_input q)) || negb (is_nil (first_bg q)) | None => false end.
(** In microseconds; -1: never *)
Definition next_task_start (now : timeval) (s : tstate) : Z :=
  if existsb (has_work s) (active_tqueues s) then 0
  else match waiting_tasks s with
       | [] => -1
       | t :: _ =>
         let tv := get_start_time t in
         let usec := tv_usec tv - tv_usec now in
         let '(sec, usec) := if usec <? 0 then (tv_sec tv - tv_sec now - 1, usec + 1000000) else (tv_sec tv - tv_sec now, usec) in
         if (sec <? 0) || (usec <? 0) then 0 else usec + (if 9 <? sec then 9 else sec) * 1000000
       end.

(** The first element with a property, and the rest *)
Fixpoint extract {A} (f : A -> bool) (l : list A) : option (A * list A) :=
  match l with
  | [] => None
  | x :: l => if f x then Some (x, l) else match extract f l with Some (y, l') => Some (y, x :: l') | None => None end
  end.
Definition reading_id (s : tstate) (id : Z) (p : positive) : bool :=
  match tqueues s !! p with Some q => match reading_vm q with Some v => task_id v =? id | None => false end | None => false end.
Definition bg_of (s : tstate) (p : positive) : list bg_task := match tqueues s !! p with Some q => first_bg q | None => [] end.

(** A task that waits for input is killed *)
Definition kill_reading (p : positive) (by_wizard : bool) (owner : Z) : M tstate error :=
  let! q := get_tq p in
  if negb by_wizard && negb (owner =? player q) then mreturn E_PERM
  else update_tq p (set_reading_vm None) ;; mreturn E_NONE.

Section external.
(** What the queues of other modules answer: killed, not permitted, or not
    there *)
Context (external_kill : Z -> Z -> option error).

Fixpoint kill_active (id owner : Z) (by_wizard : bool) (ps : list positive) : M tstate error :=
  match ps with
  | [] => mreturn (default E_INVARG (external_kill id owner))
  | p :: ps => fun s =>
    if reading_id s id p then kill_reading p by_wizard owner s
    else match extract (has_id id) (bg_of s p) with
         | Some (t, rest) =>
           (let! q := get_tq p in
            if negb by_wizard && negb (owner =? player q) then mreturn E_PERM
            else
              update_tq p (fun q => set_num_bg_tasks (num_bg_tasks q - 1) (set_first_bg rest q)) ;;
              mreturn E_NONE) s
         | None => kill_active id owner by_wizard ps s
         end
  end.
Definition kill_task (id owner : Z) : M tstate error := fun s =>
  let by_wizard := is_wizard (tdb s) owner in
  if id =? current_task_id s then Some (E_NONE, s)
  else match extract (has_id id) (waiting_tasks s) with
  | Some (t, rest) =>
    if negb by_wizard && negb (owner =? progr_of t) then Some (E_PERM, s)
    else
      (let! p := find_tqueue (progr_of t) in
       (match p with Some p => update_tq p (fun q => set_num_bg_tasks (num_bg_tasks q - 1) q) | None => mreturn tt end) ;;
       tmodify (with_waiting rest) ;;
       mreturn E_NONE) s
  | None =>
    match List.find (reading_id s id) (idle_tqueues s) with
    | Some p => kill_reading p by_wizard owner s
    | None => kill_active id owner by_wizard (active_tqueues s) s
    end
  end.
(** [num] is converted to an [int]. *)
Definition bf_kill_task (num progr : Z) : M tstate package := fun s =>
  let id := to_int num in
  match kill_task id progr s with
  | Some (e, s') =>
    Some (if negb (bool_decide (e = E_NONE)) then PError e else if id =? current_task_id s then PAbort else no_var_pack, s')
  | None => None
  end.
End external.

Definition with_value (value : Var) (start_tv : option timeval) (t : bg_task) : bg_task :=
  match t with TASK_SUSPENDED v tv _ => TASK_SUSPENDED v (default tv start_tv) value | _ => t end.
Fixpoint revalue (id : Z) (value : Var) (ts : list bg_task) : list bg_task :=
  match ts with [] => [] | t :: ts => if suspended_id id t then with_value value None t :: ts else t :: revalue id value ts end.
Fixpoint resume_active (id : Z) (value : Var) (progr : Z) (ps : list positive) : M tstate error :=
  match ps with
  | [] => mreturn E_INVARG
  | p :: ps => fun s =>
    if existsb (suspended_id id) (bg_of s p) then
      (let! q := get_tq p in
       if negb (is_wizard (tdb s) progr) && negb (progr =? player q) then mreturn E_PERM
       else update_tq p (fun q => set_first_bg (revalue id value (first_bg q)) q) ;; mreturn E_NONE) s
    else resume_active id value progr ps s
  end.
Definition do_resume (now : timeval) (id : Z) (value : Var) (progr : Z) : M tstate error := fun s =>
  match extract (suspended_id id) (waiting_tasks s) with
  | Some (t, rest) =>
    if negb (is_wizard (tdb s) progr) && negb (progr =? progr_of t) then Some (E_PERM, s)
    else
      (let! p := find_or_create (progr_of t) in
       tmodify (with_waiting rest) ;;
       ensure_usage p ;;
       enqueue_bg_task p (with_value value (Some now) t) ;;
       mreturn E_NONE) s
  | None => resume_active id value progr (active_tqueues s) s
  end.
Definition bf_resume (now : timeval) (num : Z) (value : option Var) (progr : Z) : M tstate package :=
  let! e := do_resume now (to_int num) (default (VInt 0) value) progr in
  mreturn (if bool_decide (e = E_NONE) then no_var_pack else PError e).

Definition suspended_vm (id : Z) (ts : list bg_task) : option vm :=
  match List.find (suspended_id id) ts with Some (TASK_SUSPENDED v _ _) => Some v | _ => None end.
Fixpoint find_active (s : tstate) (id : Z) (ps : list positive) : option vm :=
  match ps with
  | [] => None
  | p :: ps =>
    if reading_id s id p then tqueues s !! p ≫= reading_vm
    else match suspended_vm id (bg_of s p) with Some v => Some v | None => find_active s id ps end
  end.
(** Without the queues of other modules *)
Definition find_suspended_task (id : Z) (s : tstate) : option vm :=
  match suspended_vm id (waiting_tasks s) with
  | Some v => Some v
  | None =>
    match List.find (reading_id s id) (idle_tqueues s) with
    | Some p => tqueues s !! p ≫= reading_vm
    | None => find_active s id (active_tqueues s)
    end
  end.

Definition bf_force_input (conn : Z) (line : bytes) (at_front : bool) (progr : Z) : M tstate package := fun s =>
  if negb (is_wizard (tdb s) progr) && negb (progr =? conn) then Some (PError E_PERM, s)
  else (let! p := find_or_create conn in enqueue_input_task p line at_front false false ;; mreturn no_var_pack) s.
Definition bf_flush_input (conn : Z) (show_messages : bool) (progr : Z) : M tstate package := fun s =>
  if negb (is_wizard (tdb s) progr) && negb (progr =? conn) then Some (PError E_PERM, s)
  else (let! p := find_or_create conn in flush_input p show_messages ;; mreturn no_var_pack) s.

(** With no argument, and with one for a programmer who is no wizard *)
Definition queue_players (s : tstate) : list Var := reverse (VObj <$> omap (player_at s) (active_tqueues s ++ idle_tqueues s)).
Definition queue_count (who : Z) : M tstate Z :=
  let! p := find_tqueue who in match p with Some p => let! q := get_tq p in mreturn (num_bg_tasks q) | None => mreturn 0 end.

(** How many tasks [queued_tasks] lists, but for those of other modules *)
Definition listed (s : tstate) (progr : Z) (t : bg_task) : bool := is_wizard (tdb s) progr || (progr_of t =? progr).
Definition count_reading (s : tstate) (progr : Z) (p : positive) : Z :=
  match tqueues s !! p with Some q => Z.b2z (reading q && (is_wizard (tdb s) progr || (player q =? progr))) | None => 0 end.
Definition count_tasks (s : tstate) (progr : Z) : Z :=
  foldr (fun p n => count_reading s progr p + n) 0 (idle_tqueues s) +
  foldr (fun p n => count_reading s progr p + Z.of_nat (length (List.filter (listed s progr) (bg_of s p))) + n) 0 (active_tqueues s) +
  Z.of_nat (length (List.filter (listed s progr) (waiting_tasks s))).

(** ** Changing the player of a queue: [do_login_task], [switch_player] *)

Fixpoint move_bg (fuel : nat) (from to : positive) : M tstate unit :=
  match fuel with
  | O => mfail
  | S fuel =>
    let! t := dequeue_bg_task from in
    match t with None => mreturn tt | Some t => enqueue_bg_task to t ;; move_bg fuel from to end
  end.
Definition switch_queue (p : positive) (old_player new_player : Z) : M tstate unit := fun s =>
  (let! dead := find_tqueue new_player in
   update_tq p (set_player new_player) ;;
   let! q := get_tq p in
   (if num_bg_tasks q =? 0 then mreturn tt
    else
      let! old := find_or_create old_player in
      update_tq old (set_num_bg_tasks (num_bg_tasks q)) ;;
      move_bg (S (length (first_bg q))) p old ;;
      update_tq p (set_num_bg_tasks 0)) ;;
   match dead with
   | None => mreturn tt
   | Some dead =>
     let! d := get_tq dead in
     update_tq p (set_num_bg_tasks (num_bg_tasks d)) ;;
     flush_loop (S (size (inputs s))) dead false ;;
     move_bg (S (length (first_bg d))) dead p ;;
     update_tq dead (fun d => set_num_bg_tasks 0 (set_player NOTHING d))
   end) s.

(** [connected_to who]: [is_player_connected]; [player_switched] is part of
    the network. *)
Definition bf_switch_player (connected_to : Z -> bool) (old_player new_player progr : Z) : M tstate package := fun s =>
  if negb (is_wizard (tdb s) progr) then Some (PError E_PERM, s)
  else if old_player =? new_player then Some (PError E_INVARG, s)
  else if negb (connected_to old_player) || negb (is_user (tdb s) new_player) then Some (PError E_INVARG, s)
  else
    (let! p := find_tqueue old_player in
     match p with
     | None => mreturn (PError E_INVARG)
     | Some p => switch_queue p old_player new_player ;; mreturn no_var_pack
     end) s.

(** ** Running *)

Inductive job :=
| JReading (v : vm) (value : Var)
| JOutOfBand (p : positive) (line : bytes)
| JCommand (p : positive) (line : bytes)
| JLogin (p : positive) (line : bytes)
| JConnected (old_player new_player : Z)
| JForked (id : Z) (code : positive)
| JSuspended (v : vm) (value : Var).

Section machine.
(** What running the code of a task does to the queues, and the value it
    returns; whether [parse_command] finds a command in a line *)
Context (run_task : job -> tstate -> Var * tstate) (is_command : Z -> bytes -> bool).

Definition execute (id : Z) (j : job) : M tstate Var := fun s =>
  let '(v, s') := run_task j (with_current id s) in Some (v, with_current (-1) s').

(** The value tells whether a task was run. *)
Definition do_command_task (p : positive) (command : bytes) : M tstate bool :=
  let! q := get_tq p in
  if negb (is_command (player q) command) then mreturn false
  else fun s => let '(_, s') := run_task (JCommand p command) s in Some (true, with_current (-1) s').
Definition do_login_task (p : positive) (command : bytes) : M tstate bool :=
  let! result := (fun s => Some (run_task (JLogin p command) s)) in
  let! q := get_tq p in
  fun s =>
  match result with
  | VObj new_player =>
    if connected q && (player q <? 0) && is_user (tdb s) new_player then
      (switch_queue p (player q) new_player ;;
       tmodify (with_current (-1)) ;;
       (fun s => let '(_, s') := run_task (JConnected (player q) new_player) s in Some (true, s'))) s
    else Some (true, with_current (-1) s)
  | _ => Some (true, with_current (-1) s)
  end.

Definition run_input (p t : positive) : M tstate bool :=
  let! q := get_tq p in
  let! n := on_queue p (get_node t) in
  match kind n with
  | TASK_QUOTED => mfail
  | TASK_OOB => (fun s => let '(_, s') := run_task (JOutOfBand p (text n)) s in Some (true, with_current (-1) s'))
  | TASK_BINARY | TASK_INBAND =>
    match reading_vm q with
    | Some v => update_tq p (set_reading_vm None) ;; execute (task_id v) (JReading v (VStr (text n))) ;; mreturn true
    | None =>
      on_queue p (tell (History (player q) (text n))) ;;
      if 0 <=? player q then do_command_task p (text n) else do_login_task p (text n)
    end
  end.
Definition run_bg (t : bg_task) : M tstate unit :=
  match t with
  | TASK_FORKED id _ code _ => execute id (JForked id code) ;; mreturn tt
  | TASK_SUSPENDED v _ value => execute (task_id v) (JSuspended v value) ;; mreturn tt
  end.

(** The loop over the tasks of a queue *)
Fixpoint tasks_loop (fuel : nat) (p : positive) : M tstate bool :=
  match fuel with
  | O => mfail
  | S fuel =>
    let! q := get_tq p in
    let! t := on_queue p (dequeue_input_task (if hold_input q && negb (reading q) then DQ_OOB else DQ_FIRST)) in
    match t with
    | Some t =>
      let! did_one := run_input p t in
      free_task t ;;
      if did_one : bool then mreturn true else tasks_loop fuel p
    | None =>
      let! t := dequeue_bg_task p in
      match t with Some t => run_bg t ;; mreturn true | None => mreturn false end
    end
  end.

(** [tq->next] *)
Fixpoint next_tq (p : positive) (ps : list positive) : list positive :=
  match ps with [] => [] | r :: ps => if (r =? p)%positive then ps else next_tq p ps end.

(** A queue in the loop: whether it ran a task *)
Definition serve_queue (p : positive) : M tstate bool :=
  let! q := get_tq p in
  let! did_one :=
    (match reading_vm q with
     | Some v =>
       if is_out_of_input q then
         update_tq p (set_reading_vm None) ;; execute (task_id v) (JReading v (VErr E_INVARG)) ;; mreturn true
       else mreturn false
     | None => mreturn false
     end) in
  if did_one : bool then mreturn true else fun s => tasks_loop (S (size (inputs s))) p s.
(** It leaves its place; [elapsed]: the seconds the task took *)
Definition requeue (elapsed : Z) (p : positive) (did_one : bool) : M tstate unit :=
  tmodify (fun s => with_active (next_tq p (active_tqueues s)) s) ;;
  if did_one then update_tq p (fun q => set_usage (usage q + elapsed) q) ;; activate_tqueue p
  else deactivate_tqueue p.

(** The loop over the queues *)
Fixpoint queues_loop (fuel : nat) (elapsed : Z) : M tstate unit :=
  match fuel with
  | O => mfail
  | S fuel => fun s =>
    match active_tqueues s with
    | [] => Some (tt, s)
    | p :: _ =>
      (let! did_one := serve_queue p in
       requeue elapsed p did_one ;;
       if did_one : bool then mreturn tt else queues_loop fuel elapsed) s
    end
  end.

(** Waiting tasks whose time has come *)
Fixpoint release (now : timeval) (ts : list bg_task) : M tstate (list bg_task) :=
  match ts with
  | [] => mreturn []
  | t :: rest =>
    if timer_cmp Z.leb (get_start_time t) now then
      let! p := find_or_create (progr_of t) in
      ensure_usage p ;;
      enqueue_bg_task p t ;;
      release now rest
    else mreturn ts
  end.
Definition release_waiting (now : timeval) : M tstate unit := fun s =>
  (let! rest := release now (waiting_tasks s) in tmodify (with_waiting rest)) s.

Definition abandoned (q : tqueue) : bool := negb (connected q) && bool_decide (first_input q = None) && (num_bg_tasks q =? 0).
Fixpoint free_abandoned (ps : list positive) : M tstate unit :=
  match ps with
  | [] => mreturn tt
  | p :: ps =>
    let! q := get_tq p in
    (if abandoned q then free_tqueue p else mreturn tt) ;;
    free_abandoned ps
  end.

Definition run_ready_tasks (now : timeval) (elapsed : Z) : M tstate unit :=
  release_waiting now ;;
  (fun s => queues_loop (S (length (active_tqueues s))) elapsed s) ;;
  (fun s => free_abandoned (idle_tqueues s) s).
End machine.
End flush.
