(* ===== verification/TaskInput.v ===== *)
(** * The input of a queue: a list of tasks

    [threads h q l]: the fields of [q] and the nodes of [h] thread the tasks
    [l] in order, and the ends of their runs.  Taking a task out and putting
    one in change exactly the list; what the two threads cost to keep pays for
    finding the first task of either kind without a search. *)
From Stdlib Require Import ZArith Lia.
From stdpp Require Import prelude gmap.
From S2P Require Import Prelude CString Value ObjCode TaskCode.

(** ** Threads of pointers, and the ends of runs

    [seg nx a l b]: following [nx] from [a] visits [l] and then [b].
    [ends k l]: the elements of [l] that end a run of equal [k]. *)
(** ** A computation that has a result, with a property *)

Definition wp {S A} (m : M S A) (Q : A -> S -> Prop) (s : S) : Prop := match m s with Some (x, s') => Q x s' | None => False end.

Lemma wp_bind {S A B} (m : M S A) (k : A -> M S B) Q s : wp m (fun x => wp (k x) Q) s -> wp (mbindM m k) Q s.
Proof. unfold wp, mbindM. by destruct (m s) as [[x s']|]. Qed.
Lemma wp_intro {S A} (m : M S A) Q s x s' : m s = Some (x, s') -> Q x s' -> wp m Q s.
Proof. unfold wp. by intros ->. Qed.
Lemma wp_elim {S A} (m : M S A) Q s : wp m Q s -> exists x s', m s = Some (x, s') /\ Q x s'.
Proof. unfold wp. destruct (m s) as [[x s']|]; [by eauto|done]. Qed.
Lemma wp_mono {S A} (m : M S A) (Q R : A -> S -> Prop) s : wp m Q s -> (forall x s', Q x s' -> R x s') -> wp m R s.
Proof. unfold wp. destruct (m s) as [[x s']|]; [auto|done]. Qed.
Lemma wp_ret {S A} (x : A) Q (s : S) : Q x s -> wp (mreturn x) Q s.
Proof. done. Qed.
Lemma wp_use {S A} (m : M S A) (Q R : A -> S -> Prop) s : wp m Q s -> (forall x s', m s = Some (x, s') -> Q x s' -> R x s') -> wp m R s.
Proof. unfold wp. destruct (m s) as [[x s']|]; [auto|done]. Qed.

(** ** Threads *)

Section seg.
Context (nx : positive -> option (option positive)).

Fixpoint seg (a : option positive) (l : list positive) (b : option positive) : Prop :=
  match l with [] => a = b | x :: l => a = Some x /\ exists n, nx x = Some n /\ seg n l b end.

Lemma seg_app l1 l2 : forall a c, seg a (l1 ++ l2) c <-> exists b, seg a l1 b /\ seg b l2 c.
Proof.
  induction l1 as [|x l1 IH]; intros a c; cbn [app seg].
  - split; [intros H; by exists a|]. by intros (b & -> & H).
  - split.
    + intros (-> & n & Hn & H). apply IH in H as (b & H1 & H2). exists b. split; [|done]. split; [done|]. by exists n.
    + intros (b & (-> & n & Hn & H1) & H2). split; [done|]. exists n. split; [done|]. apply IH. by exists b.
Qed.
Lemma seg_snoc a l x c : seg a (l ++ [x]) c <-> seg a l (Some x) /\ nx x = Some c.
Proof.
  rewrite seg_app. split.
  - intros (b & H & -> & n & Hn & ->). done.
  - intros [H Hn]. exists (Some x). split; [done|]. split; [done|]. by exists c.
Qed.
Lemma seg_None l c : seg None l c -> l = [] /\ c = None.
Proof. destruct l; cbn [seg]; [done|]. by intros [? _]. Qed.
Lemma seg_nx a l b x : seg a l b -> x ∈ l -> is_Some (nx x).
Proof.
  revert a. induction l as [|y l IH]; intros a H Hx; [by apply elem_of_nil in Hx|]. destruct H as (_ & n & Hn & H).
  apply elem_of_cons in Hx as [->|Hx]; [by rewrite Hn|by eapply IH].
Qed.
End seg.

Lemma seg_frame nx nx' l : (forall x, x ∈ l -> nx' x = nx x) -> forall a b, seg nx a l b -> seg nx' a l b.
Proof.
  intros H. induction l as [|x l IH]; intros a b Hs; [done|]. destruct Hs as (-> & n & Hn & Hs). split; [done|]. exists n.
  split; [rewrite H; [done|by left]|]. apply IH; [|done]. intros y Hy. apply H. by right.
Qed.
(** The last element sent somewhere else *)
Lemma seg_redirect nx nx' a l x b c : seg nx a (l ++ [x]) b -> (forall y, y ∈ l -> nx' y = nx y) -> nx' x = Some c -> seg nx' a (l ++ [x]) c.
Proof. rewrite !seg_snoc. intros [H _] Hf Hx. split; [|done]. by apply (seg_frame nx). Qed.

(** ** Ends of runs *)

(** The element before the last *)
Fixpoint pen (l : list positive) : option positive :=
  match l with [] => None | x :: l' => match l' with [_] => Some x | _ => pen l' end end.
Lemma pen_snoc l x : pen (l ++ [x]) = last l.
Proof.
  induction l as [|y l IH]; [done|]. destruct l as [|z l]; [done|]. cbn [app last] in *. rewrite <- IH. cbn [pen].
  by destruct (l ++ [x]) eqn:E; [destruct l|].
Qed.

Lemma pen_long x y l : exists l' a z, x :: y :: l = l' ++ [a; z] /\ pen (x :: y :: l) = Some a.
Proof.
  revert x y. induction l as [|w l IH]; intros x y; [by exists [], x, y|]. destruct (IH y w) as (l' & a & z & E & Ep).
  exists (x :: l'), a, z. split; [by rewrite E|exact Ep].
Qed.

Section ends.
Context (k : positive -> bool).

Fixpoint ends (l : list positive) : list positive :=
  match l with
  | [] => []
  | x :: l' => match l' with [] => [x] | y :: _ => if Bool.eqb (k x) (k y) then ends l' else x :: ends l' end
  end.

Lemma ends_eq x y l : ends (x :: y :: l) = if Bool.eqb (k x) (k y) then ends (y :: l) else x :: ends (y :: l).
Proof. done. Qed.
Lemma ends_same x y l : k x = k y -> ends (x :: y :: l) = ends (y :: l).
Proof. intros H. rewrite ends_eq. by rewrite H, Bool.eqb_reflx. Qed.
Lemma ends_diff x y l : k x <> k y -> ends (x :: y :: l) = x :: ends (y :: l).
Proof. intros H. rewrite ends_eq. by rewrite (proj2 (Bool.eqb_false_iff _ _) H). Qed.
Lemma ends_in l x : x ∈ ends l -> x ∈ l.
Proof.
  induction l as [|y l IH]; intros H; [done|]. destruct l as [|z l]; [done|]. rewrite ends_eq in H. destruct (Bool.eqb _ _); [right; by apply IH|].
  apply elem_of_cons in H as [->|H]; [by left|right; by apply IH].
Qed.
Lemma ends_NoDup l : NoDup l -> NoDup (ends l).
Proof.
  induction l as [|y l IH]; intros H; [done|]. apply NoDup_cons in H as [Hy H]. destruct l as [|z l]; [apply NoDup_singleton|].
  rewrite ends_eq. destruct (Bool.eqb _ _); [by apply IH|]. apply NoDup_cons. split; [|by apply IH]. intros Hin. by apply ends_in in Hin.
Qed.
Lemma ends_nil l : ends l = [] -> l = [].
Proof. induction l as [|y l IH]; [done|]. destruct l as [|z l]; [done|]. rewrite ends_eq. destruct (Bool.eqb _ _); [|done]. intros H. by apply IH in H. Qed.

(** A run, its last element [e], and what follows *)
Lemma ends_run l1 e x l2 : Forall (fun y => k y = k e) l1 -> k x <> k e -> ends (l1 ++ e :: x :: l2) = e :: ends (x :: l2).
Proof.
  induction l1 as [|y l1 IH]; intros Hl Hx; [by apply ends_diff|]. apply Forall_cons in Hl as [Hy Hl]. specialize (IH Hl Hx).
  destruct l1 as [|z l1]; cbn [app] in *; [by rewrite ends_same|]. apply Forall_cons in Hl as [Hz _]. rewrite ends_same by congruence. done.
Qed.
Lemma ends_run_only l1 e : Forall (fun y => k y = k e) l1 -> ends (l1 ++ [e]) = [e].
Proof.
  induction l1 as [|y l1 IH]; intros Hl; [done|]. apply Forall_cons in Hl as [Hy Hl]. specialize (IH Hl).
  destruct l1 as [|z l1]; cbn [app] in *; [by rewrite ends_same|]. apply Forall_cons in Hl as [Hz _]. rewrite ends_same by congruence. done.
Qed.
Lemma ends_run_same l1 x l2 : Forall (fun y => k y = k x) l1 -> ends (l1 ++ x :: l2) = ends (x :: l2).
Proof.
  induction l1 as [|y l1 IH]; intros Hl; [done|]. apply Forall_cons in Hl as [Hy Hl]. specialize (IH Hl).
  destruct l1 as [|z l1]; cbn [app] in *; [by rewrite ends_same|]. apply Forall_cons in Hl as [Hz _]. rewrite ends_same by congruence. done.
Qed.
(** One more at the end *)
Lemma ends_snoc l z t : exists E, ends (l ++ [z]) = E ++ [z] /\ ends (l ++ [z; t]) = if Bool.eqb (k z) (k t) then E ++ [t] else E ++ [z; t].
Proof.
  induction l as [|y l (E & IH1 & IH2)].
  - exists []. split; [done|]. cbn [app ends]. by destruct (Bool.eqb _ _).
  - destruct l as [|w l]; cbn [app] in *.
    + destruct (Bool.eqb (k y) (k z)) eqn:Eb.
      * exists E. rewrite !ends_eq, Eb. by rewrite <- IH1, <- IH2.
      * exists (y :: E). rewrite (ends_eq y), Eb, IH1. split; [done|]. rewrite (ends_eq y), Eb, IH2. by destruct (Bool.eqb _ _).
    + destruct (Bool.eqb (k y) (k w)) eqn:Eb.
      * exists E. by rewrite !ends_same by (by apply Bool.eqb_prop).
      * apply Bool.eqb_false_iff in Eb. exists (y :: E). rewrite !ends_diff by done. rewrite IH1, IH2. split; [done|]. by destruct (Bool.eqb _ _).
Qed.
End ends.

Lemma ends_ext k k' l : (forall x, x ∈ l -> k x = k' x) -> ends k l = ends k' l.
Proof.
  induction l as [|x l IH]; intros H; [done|]. destruct l as [|y l]; [done|].
  change (ends k (x :: y :: l)) with (if Bool.eqb (k x) (k y) then ends k (y :: l) else x :: ends k (y :: l)).
  change (ends k' (x :: y :: l)) with (if Bool.eqb (k' x) (k' y) then ends k' (y :: l) else x :: ends k' (y :: l)).
  rewrite (H x), (H y), IH; [done|..]; [intros z Hz; apply H; by right|rewrite !elem_of_cons; auto..].
Qed.

Local Open Scope Z_scope.
Local Open Scope moo_scope.

Definition nxt (h : gmap positive input_task) (x : positive) : option (option positive) := next <$> h !! x.
Definition nxt_tail (h : gmap positive input_task) (x : positive) : option (option positive) := next_itail <$> h !! x.
Definition oob (h : gmap positive input_task) (x : positive) : bool := match h !! x with Some n => is_oob (kind n) | None => false end.
Definition content (n : input_task) : task_kind * bytes * Z := (kind n, text n, input_length n).
Definition contents (h : gmap positive input_task) (x : positive) : option (task_kind * bytes * Z) := content <$> h !! x.

Definition slot_of_last (l : list positive) : slot := match last l with Some x => SNext x | None => SFirst end.
Definition slot_of_pen (l : list positive) : slot := match pen l with Some x => STail x | None => SFirstTail end.

Record threads (h : gmap positive input_task) (q : tqueue) (l : list positive) : Prop := {
  th_nodup : NoDup l;
  th_next : seg (nxt h) (first_input q) l None;
  th_last : last_input q = slot_of_last l;
  th_tails : seg (nxt_tail h) (first_itail q) (ends (oob h) l) None;
  th_last_tail : last_itail q = slot_of_pen (ends (oob h) l) }.

(** [q] with other fields of the threads *)
Definition rethread (fi : option positive) (li : slot) (ft : option positive) (lt : slot) (q : tqueue) : tqueue :=
  set_first_input fi (set_last_input li (set_first_itail ft (set_last_itail lt q))).

Lemma oob_contents h h' x : contents h' x = contents h x -> oob h' x = oob h x.
Proof. unfold contents, oob, content. destruct (h' !! x), (h !! x); cbn; intros H; congruence. Qed.
Lemma nxt_insert h x n y : nxt (<[x := n]> h) y = if decide (y = x) then Some (next n) else nxt h y.
Proof. unfold nxt. destruct (decide (y = x)) as [->|Hn]; [by rewrite lookup_insert_eq|by rewrite lookup_insert_ne]. Qed.
Lemma nxt_tail_insert h x n y : nxt_tail (<[x := n]> h) y = if decide (y = x) then Some (next_itail n) else nxt_tail h y.
Proof. unfold nxt_tail. destruct (decide (y = x)) as [->|Hn]; [by rewrite lookup_insert_eq|by rewrite lookup_insert_ne]. Qed.
Lemma contents_insert h x n y : contents (<[x := n]> h) y = if decide (y = x) then Some (content n) else contents h y.
Proof. unfold contents. destruct (decide (y = x)) as [->|Hn]; [by rewrite lookup_insert_eq|by rewrite lookup_insert_ne]. Qed.
Lemma contents_update h x n m : h !! x = Some n -> content m = content n -> forall y, contents (<[x := m]> h) y = contents h y.
Proof. intros Hx E y. rewrite contents_insert. destruct (decide (y = x)) as [->|]; [|done]. unfold contents. by rewrite Hx, E. Qed.

(** ** Steps *)

Section steps.
Context (h : gmap positive input_task) (q : tqueue) (ev : list event).
Lemma wp_get_node (Q : input_task -> qstate -> Prop) x n : h !! x = Some n -> Q n (mk_qstate h q ev) -> wp (get_node x) Q (mk_qstate h q ev).
Proof. intros Hx HQ. unfold wp, get_node. cbn [nodes]. by rewrite Hx. Qed.
Lemma wp_update_node (Q : unit -> qstate -> Prop) x n f : h !! x = Some n -> Q tt (mk_qstate (<[x := f n]> h) q ev) -> wp (update_node x f) Q (mk_qstate h q ev).
Proof. intros Hx HQ. unfold wp, update_node. cbn [nodes tq told]. by rewrite Hx. Qed.
Lemma wp_set_tq (Q : unit -> qstate -> Prop) f : Q tt (mk_qstate h (f q) ev) -> wp (set_tq f) Q (mk_qstate h q ev).
Proof. done. Qed.
Lemma wp_this_tq (Q : tqueue -> qstate -> Prop) : Q q (mk_qstate h q ev) -> wp this_tq Q (mk_qstate h q ev).
Proof. done. Qed.
(** What a slot holds *)
Lemma wp_read_slot (Q : option positive -> qstate -> Prop) sl :
  match sl with
  | SFirst => Q (first_input q) (mk_qstate h q ev)
  | SNext t => exists n, h !! t = Some n /\ Q (next n) (mk_qstate h q ev)
  | SFirstTail => Q (first_itail q) (mk_qstate h q ev)
  | STail t => exists n, h !! t = Some n /\ Q (next_itail n) (mk_qstate h q ev)
  end -> wp (read_slot sl) Q (mk_qstate h q ev).
Proof.
  destruct sl; cbn [read_slot]; intros H; apply wp_bind; try exact H; destruct H as (n & Hn & H); by apply (wp_get_node _ _ n).
Qed.
End steps.

(** ** Taking a task out *)

Definition unlinked (h : gmap positive input_task) (q : tqueue) (ev : list event) (l l' : list positive) (s' : qstate) : Prop :=
  (exists fi li ft lt, tq s' = rethread fi li ft lt q) /\ threads (nodes s') (tq s') l' /\
  (forall y, contents (nodes s') y = contents h y) /\ (forall y, y ∉ l -> nodes s' !! y = h !! y) /\ told s' = ev.

Lemma slot_of_last_cons x l : l <> [] -> slot_of_last (x :: l) = slot_of_last l.
Proof. unfold slot_of_last. by destruct l. Qed.
Lemma slot_of_pen_cons x l : length l <> 1%nat -> slot_of_pen (x :: l) = slot_of_pen l.
Proof. unfold slot_of_pen. destruct l as [|y [|z l]]; done. Qed.
Lemma seg_insert_nxt h x n l a b : x ∉ l -> seg (nxt h) a l b -> seg (nxt (<[x := n]> h)) a l b.
Proof. intros Hx. apply seg_frame. intros y Hy. rewrite nxt_insert, decide_False; [done|]. by intros ->. Qed.
Lemma seg_insert_tail h x n l a b : x ∉ l -> seg (nxt_tail h) a l b -> seg (nxt_tail (<[x := n]> h)) a l b.
Proof. intros Hx. apply seg_frame. intros y Hy. rewrite nxt_tail_insert, decide_False; [done|]. by intros ->. Qed.
Lemma seg_update_nxt h x n m l a b : h !! x = Some n -> next m = next n -> seg (nxt h) a l b -> seg (nxt (<[x := m]> h)) a l b.
Proof. intros Hx E. apply seg_frame. intros y _. rewrite nxt_insert. destruct (decide (y = x)) as [->|]; [|done]. unfold nxt. by rewrite Hx, E. Qed.
Lemma seg_update_tail h x n m l a b : h !! x = Some n -> next_itail m = next_itail n -> seg (nxt_tail h) a l b -> seg (nxt_tail (<[x := m]> h)) a l b.
Proof. intros Hx E. apply seg_frame. intros y _. rewrite nxt_tail_insert. destruct (decide (y = x)) as [->|]; [|done]. unfold nxt_tail. by rewrite Hx, E. Qed.
Lemma ends_contents h h' l : (forall y, contents h' y = contents h y) -> ends (oob h') l = ends (oob h) l.
Proof. intros H. apply ends_ext. intros y _. by apply oob_contents. Qed.

(** The second half of [unlink_input]: the first end [x], reached through
    [pitail] after the ends [pre], leaves the thread of ends.  [pre] is empty
    or the end of the run before [x]. *)
Definition untail (pitail : slot) (t : positive) : M qstate unit :=
  let! e := read_slot pitail in
  if bool_decide (e = Some t) then
    write_slot pitail None ;;
    let! n := get_node t in
    (match next_itail n with
     | Some e => set_tq (set_first_itail (Some e)) ;; update_node t (set_next_itail None)
     | None => mreturn tt
     end) ;;
    let! q := this_tq in
    let! e := read_slot (last_itail q) in
    match e with None => set_tq (set_last_itail SFirstTail) | Some _ => mreturn tt end
  else mreturn tt.
Lemma unlink_input_eq pt pitail t s : unlink_input pt pitail t s =
  (let! n := get_node t in
   write_slot pt (next n) ;;
   (match next n with None => set_tq (set_last_input pt) | Some _ => update_node t (set_next None) end) ;;
   untail pitail t) s.
Proof. done. Qed.

(** What [untail] does to the fields and nodes of the ends alone *)
Definition untailed (h : gmap positive input_task) (q : tqueue) (ev : list event) (X E' : list positive) (s' : qstate) : Prop :=
  (exists ft lt, tq s' = set_first_itail ft (set_last_itail lt q)) /\
  seg (nxt_tail (nodes s')) (first_itail (tq s')) E' None /\ last_itail (tq s') = slot_of_pen E' /\
  (forall y, nxt (nodes s') y = nxt h y) /\ (forall y, contents (nodes s') y = contents h y) /\
  (forall y, y ∉ X -> nodes s' !! y = h !! y) /\ told s' = ev.

Lemma untail_skip h q ev E t pitail : seg (nxt_tail h) (first_itail q) E None -> last_itail q = slot_of_pen E ->
  (match pitail with
   | SFirstTail => first_itail q <> Some t
   | STail e => exists n, h !! e = Some n /\ next_itail n <> Some t
   | _ => False end) ->
  wp (untail pitail t) (fun _ => untailed h q ev [t] E) (mk_qstate h q ev).
Proof.
  intros HE Hl Ht. unfold untail. apply wp_bind, wp_read_slot. destruct pitail as [|?| |e]; try done.
  - rewrite bool_decide_false by done. apply wp_ret. split; [exists (first_itail q), (last_itail q); by destruct q|]. by split_and!.
  - destruct Ht as (n & Hn & Ht). exists n. split; [done|]. rewrite bool_decide_false by done. apply wp_ret.
    split; [exists (first_itail q), (last_itail q); by destruct q|]. by split_and!.
Qed.

(** The end that is first in its thread *)
Lemma untail_first h q ev t E2 : seg (nxt_tail h) (first_itail q) (t :: E2) None -> NoDup (t :: E2) -> last_itail q = slot_of_pen (t :: E2) ->
  wp (untail SFirstTail t) (fun _ => untailed h q ev [t] E2) (mk_qstate h q ev).
Proof.
  intros (Hf & a & Ha & HE) Hnd Hl. apply NoDup_cons in Hnd as [HtE HndE]. unfold nxt_tail in Ha. destruct (h !! t) as [n|] eqn:Hn; [|done].
  injection Ha as <-. unfold untail. apply wp_bind, wp_read_slot. rewrite bool_decide_true by done. cbn [write_slot]. apply wp_bind, wp_set_tq.
  apply wp_bind, (wp_get_node _ _ _ _ _ n Hn). destruct E2 as [|e E2].
  - cbn [seg] in HE. rewrite HE. apply wp_bind, wp_ret. apply wp_bind, wp_this_tq. apply wp_bind, wp_read_slot. cbn [last_itail set_first_itail].
    rewrite Hl. cbn. split; [by exists None, SFirstTail|]. split; [done|]. split; [done|]. by split_and!.
  - pose proof HE as (He & a & Ha & HE2). rewrite He. apply wp_bind. apply wp_bind, wp_set_tq, (wp_update_node _ _ _ _ _ n _ Hn).
    apply wp_bind, wp_this_tq. cbn [last_itail set_first_itail]. rewrite Hl. set (h1 := <[t := set_next_itail None n]> h).
    assert (seg (nxt_tail h1) (Some e) (e :: E2) None) as HE1 by (apply seg_insert_tail; [done|]; by rewrite <- He).
    apply wp_bind, wp_read_slot. destruct E2 as [|e2 E2].
    + cbn [slot_of_pen pen]. exists (set_next_itail None n). split; [apply lookup_insert_eq|]. cbn [next_itail set_next_itail].
      apply wp_set_tq. split; [by exists (Some e), SFirstTail|]. split; [exact HE1|]. split; [done|]. cbn [nodes told].
      split; [intros y; unfold h1; rewrite nxt_insert; destruct (decide (y = t)) as [->|]; [unfold nxt; by rewrite Hn|done]|].
      split; [by apply (contents_update h t n)|]. split; [|done]. intros y Hy. unfold h1. rewrite lookup_insert_ne; [done|]. intros ->. apply Hy. by left.
    + rewrite slot_of_pen_cons by done. unfold slot_of_pen. destruct (pen_long e e2 E2) as (Ea & y & z & EE & Ep). rewrite Ep.
      pose proof HE1 as HE3. rewrite EE in HE1. change (Ea ++ [y; z]) with (Ea ++ [y] ++ [z]) in HE1. rewrite app_assoc, seg_snoc, seg_snoc in HE1. destruct HE1 as ((Hs & Hy) & Hz).
      unfold nxt_tail in Hy. destruct (h1 !! y) as [m|] eqn:Hm; [|done]. injection Hy as Hy. exists m. split; [done|]. rewrite Hy. apply wp_ret.
      split; [exists (Some e), (slot_of_pen (t :: e :: e2 :: E2)); rewrite <- Hl; by destruct q|].
      split; [exact HE3|].
      split; [cbn [tq last_itail set_first_itail]; rewrite Hl, slot_of_pen_cons by done; unfold slot_of_pen; by rewrite Ep|]. cbn [nodes told].
      split; [intros w; unfold h1; rewrite nxt_insert; destruct (decide (w = t)) as [->|]; [unfold nxt; by rewrite Hn|done]|].
      split; [by apply (contents_update h t n)|]. split; [|done]. intros w Hw. unfold h1. rewrite lookup_insert_ne; [done|]. intros ->. apply Hw. by left.
Qed.

Lemma contents_inserts h x n m y' n' m' : h !! x = Some n -> content m = content n -> (<[x := m]> h) !! y' = Some n' -> content m' = content n' ->
  forall y, contents (<[y' := m']> (<[x := m]> h)) y = contents h y.
Proof. intros H1 E1 H2 E2 y. rewrite (contents_update _ y' n') by done. by apply (contents_update h x n). Qed.

(** The end [t] after the end [e]: the runs around its own become one *)
Lemma untail_second h q ev e t E2 : seg (nxt_tail h) (first_itail q) (e :: t :: E2) None -> NoDup (e :: t :: E2) -> last_itail q = slot_of_pen (e :: t :: E2) ->
  wp (untail (STail e) t) (fun _ => untailed h q ev [e; t] (match E2 with [] => [e] | _ => E2 end)) (mk_qstate h q ev).
Proof.
  intros (Hf & a & Ha & Ht & b & Hb & HE) Hnd Hl. apply NoDup_cons in Hnd as [HeE Hnd]. apply NoDup_cons in Hnd as [HtE Hnd].
  apply not_elem_of_cons in HeE as [Het HeE]. subst a. unfold nxt_tail in Ha, Hb. destruct (h !! e) as [ne|] eqn:Hne; [|done]. injection Ha as Ha.
  destruct (h !! t) as [n|] eqn:Hn; [|done]. injection Hb as Hb. subst b.
  unfold untail. apply wp_bind, wp_read_slot. exists ne. split; [done|]. rewrite bool_decide_true by done. cbn [write_slot].
  apply wp_bind, (wp_update_node _ _ _ _ _ ne _ Hne). set (h1 := <[e := set_next_itail None ne]> h).
  assert (h1 !! t = Some n) as Hn1 by (unfold h1; by rewrite lookup_insert_ne). apply wp_bind, (wp_get_node _ _ _ _ _ n Hn1).
  assert (forall y, y ∉ [e; t] -> h1 !! y = h !! y) as Hout.
  { intros y Hy. unfold h1. rewrite lookup_insert_ne; [done|]. intros ->. apply Hy. by left. }
  assert (forall y, nxt h1 y = nxt h y) as Hnx.
  { intros y. unfold h1. rewrite nxt_insert. destruct (decide (y = e)) as [->|]; [|done]. unfold nxt. by rewrite Hne. }
  destruct E2 as [|e2 E2].
  - cbn [seg] in HE. rewrite HE. apply wp_bind, wp_ret. apply wp_bind, wp_this_tq. rewrite Hl. cbn [slot_of_pen pen]. apply wp_bind, wp_read_slot.
    exists (set_next_itail None ne). split; [apply lookup_insert_eq|]. cbn [next_itail set_next_itail]. apply wp_set_tq.
    split; [exists (Some e), SFirstTail; rewrite <- Hf; by destruct q|]. cbn [nodes told tq first_itail last_itail set_last_itail].
    split; [split; [by rewrite Hf|]; exists None; split; [|done]; unfold h1; by rewrite nxt_tail_insert, decide_True|]. split; [done|].
    split; [exact Hnx|]. split; [by apply (contents_update h e ne)|]. by split.
  - pose proof HE as (He2 & b & Hb & HE2). rewrite He2. apply wp_bind. apply wp_bind, wp_set_tq, (wp_update_node _ _ _ _ _ n _ Hn1).
    set (h2 := <[t := set_next_itail None n]> h1). apply wp_bind, wp_this_tq. cbn [last_itail set_first_itail]. rewrite Hl.
    assert (seg (nxt_tail h2) (Some e2) (e2 :: E2) None) as HE3.
    { unfold h2, h1. apply seg_insert_tail; [done|]. apply seg_insert_tail; [done|]. by rewrite <- He2. }
    assert (untailed h q ev [e; t] (e2 :: E2) (mk_qstate h2 (set_last_itail (slot_of_pen (e2 :: E2)) (set_first_itail (Some e2) q)) ev)) as Hres.
    { split; [exists (Some e2), (slot_of_pen (e2 :: E2)); by destruct q|]. cbn [nodes told tq first_itail last_itail set_last_itail set_first_itail].
      split; [exact HE3|]. split; [done|].
      split; [intros y; rewrite <- Hnx; unfold h2; rewrite nxt_insert; destruct (decide (y = t)) as [->|]; [unfold nxt; by rewrite Hn1|done]|].
      split; [by apply (contents_inserts h e ne _ t n)|]. split; [|done]. intros y Hy. rewrite <- Hout by done. unfold h2. rewrite lookup_insert_ne; [done|].
      intros ->. apply Hy. right. by left. }
    rewrite slot_of_pen_cons by done. apply wp_bind, wp_read_slot. destruct E2 as [|e3 E2].
    + cbn [slot_of_pen pen]. exists (set_next_itail None n). split; [apply lookup_insert_eq|]. cbn [next_itail set_next_itail]. by apply wp_set_tq.
    + rewrite slot_of_pen_cons by done. unfold slot_of_pen. destruct (pen_long e2 e3 E2) as (Ea & y & z & EE & Ep). rewrite Ep.
      rewrite EE in HE3. change (Ea ++ [y; z]) with (Ea ++ [y] ++ [z]) in HE3. rewrite app_assoc, seg_snoc, seg_snoc in HE3. destruct HE3 as ((_ & Hy) & _).
      unfold nxt_tail in Hy. destruct (h2 !! y) as [m|] eqn:Hm; [|done]. injection Hy as Hy. exists m. split; [done|]. rewrite Hy. apply wp_ret.
      assert (set_last_itail (slot_of_pen (e2 :: e3 :: E2)) (set_first_itail (Some e2) q) = set_first_itail (Some e2) q) as Eq; [|by rewrite Eq in Hres].
      assert (slot_of_pen (e2 :: e3 :: E2) = last_itail q) as ->; [|by destruct q]. rewrite Hl. by rewrite !(slot_of_pen_cons _ (_ :: e2 :: _)), (slot_of_pen_cons t) by done.
Qed.

Lemma finish_unlink h q ev l l' h1 q1 X E' pitail t :
  wp (untail pitail t) (fun _ => untailed h1 q1 ev X E') (mk_qstate h1 q1 ev) ->
  (exists fi li, q1 = set_first_input fi (set_last_input li q)) -> NoDup l' -> seg (nxt h1) (first_input q1) l' None -> last_input q1 = slot_of_last l' ->
  (forall y, contents h1 y = contents h y) -> (forall y, y ∉ l -> h1 !! y = h !! y) -> (forall y, y ∈ X -> y ∈ l) -> E' = ends (oob h) l' ->
  wp (untail pitail t) (fun _ => unlinked h q ev l l') (mk_qstate h1 q1 ev).
Proof.
  intros Hw (fi & li & ->) Hnd Hs Hl Hc Ho HX ->. apply (wp_mono _ _ _ _ Hw). intros _ s' ((ft & lt & Eq) & Ht & Hlt & Hn & Hc' & Ho' & Hev).
  assert (forall y, contents (nodes s') y = contents h y) as Hcc by (intros y; by rewrite Hc').
  split; [exists fi, li, ft, lt; rewrite Eq; by destruct q|]. split; [|split; [done|]]; [|split; [|done]].
  - split; [done| | | |].
    + rewrite Eq. eapply seg_frame; [|exact Hs]. intros y _. by symmetry.
    + rewrite Eq. exact Hl.
    + by rewrite (ends_contents _ _ _ Hcc).
    + by rewrite (ends_contents _ _ _ Hcc).
  - intros y Hy. rewrite Ho', Ho; [done|done|]. intros HyX. by apply Hy, HX.
Qed.

(** Is [x] the last of its run? *)
Lemma ends_cons_cases h x l2 : (ends (oob h) (x :: l2) = x :: ends (oob h) l2 /\ match l2 with [] => True | y :: _ => oob h y <> oob h x end) \/
  (ends (oob h) (x :: l2) = ends (oob h) l2 /\ exists y l3, l2 = y :: l3 /\ oob h y = oob h x).
Proof.
  destruct l2 as [|y l3]; [by left|]. destruct (Bool.bool_dec (oob h x) (oob h y)) as [E|E].
  - right. rewrite ends_same by done. split; [done|]. by exists y, l3.
  - left. by rewrite ends_diff by done.
Qed.

Lemma unlink_first h q ev x l2 : threads h q (x :: l2) ->
  wp (unlink_input SFirst SFirstTail x) (fun _ => unlinked h q ev (x :: l2) l2) (mk_qstate h q ev).
Proof.
  intros [Hnd (Hf & a & Ha & Hn) Hl Ht Hlt]. apply NoDup_cons in Hnd as [Hx Hnd]. unfold nxt in Ha. destruct (h !! x) as [n|] eqn:Hxn; [|done]. injection Ha as <-.
  unfold wp. rewrite unlink_input_eq. fold (wp (let! n := get_node x in write_slot SFirst (next n) ;; (match next n with None => set_tq (set_last_input SFirst) | Some _ => update_node x (set_next None) end) ;; untail SFirstTail x) (fun _ => unlinked h q ev (x :: l2) l2) (mk_qstate h q ev)).
  apply wp_bind, (wp_get_node _ _ _ _ _ n Hxn). apply wp_bind. cbn [write_slot]. apply wp_set_tq. apply wp_bind.
  set (h1 := match l2 with [] => h | _ => <[x := set_next None n]> h end).
  set (q1 := set_first_input (next n) (set_last_input (slot_of_last l2) q)).
  assert (wp (untail SFirstTail x) (fun _ => unlinked h q ev (x :: l2) l2) (mk_qstate h1 q1 ev)) as Hmain.
  { assert (forall y, contents h1 y = contents h y) as Hc by (intros y; unfold h1; destruct l2; [done|]; by apply (contents_update h x n)).
    assert (seg (nxt_tail h1) (first_itail q1) (ends (oob h) (x :: l2)) None) as Ht1.
    { unfold h1. destruct l2; [exact Ht|]. eapply seg_update_tail; [exact Hxn|done|exact Ht]. }
    apply (finish_unlink h q ev (x :: l2) l2 h1 q1 [x] (ends (oob h) l2)); try done.
    - destruct (ends_cons_cases h x l2) as [[E _]|[E (y & l3 & El & _)]].
      + apply untail_first; [by rewrite <- E|rewrite <- E; apply ends_NoDup; by apply NoDup_cons|by rewrite <- E].
      + apply untail_skip; [by rewrite <- E|by rewrite <- E|]. rewrite E in Ht1. destruct (ends (oob h) l2) as [|z E2] eqn:EE; [by apply ends_nil in EE; subst|].
        destruct Ht1 as (-> & _). intros [= ->]. apply Hx, (ends_in (oob h)). rewrite EE. by left.
    - by exists (next n), (slot_of_last l2).
    - unfold h1, q1. cbn [first_input set_first_input]. destruct l2; [exact Hn|]. by apply seg_insert_nxt.
    - intros y Hy. unfold h1. destruct l2; [done|]. rewrite lookup_insert_ne; [done|]. intros ->. apply Hy. by left.
    - intros y ->%list_elem_of_singleton. by left. }
  destruct l2 as [|y l3].
  - cbn [seg] in Hn. subst h1 q1. rewrite Hn in *. by apply wp_set_tq.
  - destruct Hn as (Ea & Hn). subst h1 q1. rewrite Ea in *. apply (wp_update_node _ _ _ _ _ n _ Hxn).
    assert (set_first_input (Some y) q = set_first_input (Some y) (set_last_input (slot_of_last (y :: l3)) q)) as ->; [|exact Hmain].
    rewrite slot_of_last_cons in Hl by done. rewrite <- Hl. by destruct q.
Qed.

Lemma slot_of_last_snoc l x : slot_of_last (l ++ [x]) = SNext x.
Proof. unfold slot_of_last. by rewrite last_snoc. Qed.

Lemma unlink_second h q ev l1 e x l2 : threads h q (l1 ++ e :: x :: l2) -> Forall (fun y => oob h y = oob h e) l1 -> oob h x <> oob h e ->
  wp (unlink_input (SNext e) (STail e) x) (fun _ => unlinked h q ev (l1 ++ e :: x :: l2) (l1 ++ e :: l2)) (mk_qstate h q ev).
Proof.
  intros [Hnd Hs Hl Ht Hlt] Hrun Hk. rewrite (ends_run _ _ _ _ _ Hrun Hk) in Ht, Hlt.
  pose proof (NoDup_app l1 (e :: x :: l2)) as [Happ _]. destruct (Happ Hnd) as (Hnd1 & Hdis & Hnd2). apply NoDup_cons in Hnd2 as [He Hnd2]. pose proof Hnd2 as Hnd2'. apply NoDup_cons in Hnd2 as [Hx Hnd3].
  apply not_elem_of_cons in He as [Hex He]. assert (x ∉ l1) as Hx1 by (intros H; apply (Hdis x H); right; by left). assert (e ∉ l1) as He1 by (intros H; apply (Hdis e H); by left).
  assert (NoDup (l1 ++ e :: l2)) as Hnd'.
  { apply NoDup_app. split; [done|]. split; [|by apply NoDup_cons]. intros y Hy [->|Hin]%elem_of_cons; [done|]. apply (Hdis y Hy). right. by right. }
  pose proof Hs as Hs0. apply (seg_app _ l1) in Hs0 as (b & Hs1 & -> & c & Hc & -> & d & Hd & Hs2). unfold nxt in Hc, Hd. destruct (h !! e) as [ne|] eqn:Hne; [|done]. injection Hc as Hce.
  destruct (h !! x) as [n|] eqn:Hxn; [|done]. injection Hd as <-.
  unfold wp. rewrite unlink_input_eq. fold (wp (let! n := get_node x in write_slot (SNext e) (next n) ;; (match next n with None => set_tq (set_last_input (SNext e)) | Some _ => update_node x (set_next None) end) ;; untail (STail e) x) (fun _ => unlinked h q ev (l1 ++ e :: x :: l2) (l1 ++ e :: l2)) (mk_qstate h q ev)).
  apply wp_bind, (wp_get_node _ _ _ _ _ n Hxn). apply wp_bind. cbn [write_slot]. apply (wp_update_node _ _ _ _ _ ne _ Hne). apply wp_bind.
  set (h0 := <[e := set_next (next n) ne]> h). assert (h0 !! x = Some n) as Hxn0 by (unfold h0; by rewrite lookup_insert_ne).
  set (h1 := match l2 with [] => h0 | _ => <[x := set_next None n]> h0 end). set (q1 := set_last_input (slot_of_last (l1 ++ e :: l2)) q).
  assert (forall y, contents h1 y = contents h y) as Hcon.
  { intros y. unfold h1. destruct l2; [by apply (contents_update h e ne)|]. by apply (contents_inserts h e ne _ x n). }
  assert (wp (untail (STail e) x) (fun _ => unlinked h q ev (l1 ++ e :: x :: l2) (l1 ++ e :: l2)) (mk_qstate h1 q1 ev)) as Hmain.
  { assert (forall E, seg (nxt_tail h) (first_itail q) E None -> seg (nxt_tail h1) (first_itail q1) E None) as Htail.
    { intros E HE. unfold h1, h0. destruct l2; [by eapply seg_update_tail|]. eapply seg_update_tail; [exact Hxn0|done|]. by eapply seg_update_tail. }
    assert (NoDup (e :: ends (oob h) (x :: l2))) as HndE.
    { apply NoDup_cons. split; [|by apply ends_NoDup]. intros Hin%ends_in. apply elem_of_cons in Hin as [->|Hin]; done. }
    apply (finish_unlink h q ev (l1 ++ e :: x :: l2) (l1 ++ e :: l2) h1 q1 [e; x] (ends (oob h) (l1 ++ e :: l2))); try done.
    - destruct (ends_cons_cases h x l2) as [[E Hy]|[E (y & l3 & El & Hy)]]; rewrite E in *.
      + assert (ends (oob h) (l1 ++ e :: l2) = match ends (oob h) l2 with [] => [e] | _ => ends (oob h) l2 end) as ->; [|by apply untail_second; [apply Htail| |]].
        destruct l2 as [|y l3]; [by apply ends_run_only|]. assert (oob h y = oob h e) as Hye by (destruct (oob h y), (oob h x), (oob h e); done).
        change (l1 ++ e :: y :: l3) with (l1 ++ [e] ++ y :: l3). rewrite app_assoc, ends_run_same.
        * destruct (ends (oob h) (y :: l3)) eqn:EE; [by apply ends_nil in EE|done].
        * apply Forall_app. split; [|by constructor]. eapply Forall_impl; [exact Hrun|]. cbv beta. congruence.
      + assert (ends (oob h) (l1 ++ e :: l2) = e :: ends (oob h) l2) as -> by (subst l2; apply ends_run; [done|congruence]).
        eapply wp_mono; [apply untail_skip; [by apply Htail|exact Hlt|]|].
        * exists (if l2 is [] then set_next (next n) ne else set_next (next n) ne). split; [unfold h1, h0; destruct l2; [apply lookup_insert_eq|]; rewrite lookup_insert_ne by done; apply lookup_insert_eq|].
          destruct Ht as (_ & c & Hc & Ht). unfold nxt_tail in Hc. rewrite Hne in Hc. injection Hc as Hc.
          assert (next_itail ne <> Some x) as Hnx; [|by destruct l2]. rewrite Hc. destruct (ends (oob h) l2) as [|z E2] eqn:EE; [by apply ends_nil in EE; subst|].
          destruct Ht as (-> & _). intros [= ->]. apply Hx, (ends_in (oob h)). rewrite EE. by left.
        * intros _ s' (A1 & A2 & A3 & A4 & A5 & A6 & A7). split_and!; try done. intros w Hw. apply A6. intros ->%list_elem_of_singleton. apply Hw. right. by left.
    - exists (first_input q), (slot_of_last (l1 ++ e :: l2)). by destruct q.
    - apply seg_app. exists (Some e). split.
      + unfold h1, h0. destruct l2; [|apply seg_insert_nxt; [done|]]; by apply seg_insert_nxt.
      + split; [done|]. exists (next n). split.
        * unfold h1, h0. destruct l2; [by rewrite nxt_insert, decide_True|]. rewrite nxt_insert, decide_False by done. by rewrite nxt_insert, decide_True.
        * unfold h1, h0. destruct l2; [done|]. apply seg_insert_nxt; [done|]. by apply seg_insert_nxt.
    - intros y Hy. apply not_elem_of_app in Hy as [_ Hy]. apply not_elem_of_cons in Hy as [Hy1 Hy]. apply not_elem_of_cons in Hy as [Hy2 _].
      unfold h1, h0. destruct l2; [|rewrite lookup_insert_ne by done]; by rewrite lookup_insert_ne.
    - intros y Hy. apply elem_of_app. right. apply elem_of_cons in Hy as [->|Hy]; [by left|]. apply list_elem_of_singleton in Hy as ->. right. by left. }
  destruct l2 as [|y l3].
  - cbn [seg] in Hs2. subst h1 q1. rewrite slot_of_last_snoc in Hmain. rewrite Hs2 in *. by apply wp_set_tq.
  - destruct Hs2 as (Ea & Hs2). rewrite Ea. subst h1 q1. apply (wp_update_node _ _ _ _ _ n _ Hxn0).
    assert (q = set_last_input (slot_of_last (l1 ++ e :: y :: l3)) q) as Eq; [|by rewrite <- Eq in Hmain].
    assert (slot_of_last (l1 ++ e :: y :: l3) = last_input q) as ->; [|by destruct q]. rewrite Hl. unfold slot_of_last. rewrite !last_app. done.
Qed.

(** ** [dequeue_input_task] *)

Lemma extract_Some {A} (f : A -> bool) l x l' : extract f l = Some (x, l') <->
  exists l1 l2, l = l1 ++ x :: l2 /\ l' = l1 ++ l2 /\ f x = true /\ Forall (fun y => f y = false) l1.
Proof.
  revert l'. induction l as [|y l IH]; intros l'; cbn [extract].
  - split; [done|]. by intros ([|] & l2 & ? & _).
  - destruct (f y) eqn:Ey.
    + split; [intros [= -> ->]; by exists [], l'|]. intros ([|z l1] & l2 & [= -> ->] & -> & Hx & HF); [done|]. apply Forall_cons in HF as [HF _]. congruence.
    + split.
      * intros H. destruct (extract f l) as [[z l0]|]; [|done]. injection H as -> <-. destruct (proj1 (IH l0) eq_refl) as (l1 & l2 & -> & -> & Hx & HF).
        exists (y :: l1), l2. split_and!; try done. by constructor.
      * intros ([|z l1] & l2 & [= -> ->] & -> & Hx & HF); [congruence|]. apply Forall_cons in HF as [_ HF].
        assert (extract f (l1 ++ x :: l2) = Some (x, l1 ++ l2)) as -> by (apply IH; by exists l1, l2). done.
Qed.
Lemma extract_None {A} (f : A -> bool) l : extract f l = None <-> Forall (fun y => f y = false) l.
Proof.
  induction l as [|y l IH]; cbn [extract]; [done|]. rewrite Forall_cons. destruct (f y); [split; [done|by intros [? _]]|].
  destruct (extract f l) as [[z l0]|]; [split; [done|]; intros [_ H]; by apply IH in H|]. split; [|done]. intros _. split; [done|]. by apply IH.
Qed.
Lemma run_split (k : positive -> bool) x l : exists l1 e rest, x :: l = l1 ++ e :: rest /\ Forall (fun y => k y = k e) l1 /\ k e = k x /\
  match rest with [] => True | y :: _ => k y <> k e end.
Proof.
  revert x. induction l as [|y l IH]; intros x; [by exists [], x, []|]. destruct (Bool.bool_dec (k y) (k x)) as [E|E]; [|by exists [], x, (y :: l)].
  destruct (IH y) as (l1 & e & rest & -> & HF & He & Hr). exists (x :: l1), e, rest. split; [done|]. split; [constructor; [congruence|done]|]. split; [congruence|done].
Qed.

Lemma threads_other h q l x n : threads h q l -> x ∉ l -> threads (<[x := n]> h) q l.
Proof.
  intros [H1 H2 H3 H4 H5] Hx. assert (ends (oob (<[x := n]> h)) l = ends (oob h) l) as Ee.
  { apply ends_ext. intros y Hy. unfold oob. rewrite lookup_insert_ne; [done|]. by intros ->. }
  split; [done|by apply seg_insert_nxt|done| |]; rewrite Ee; [|done]. apply seg_insert_tail; [|done]. by intros Hin%ends_in.
Qed.
Lemma threads_fields h q q' l : first_input q' = first_input q -> last_input q' = last_input q -> first_itail q' = first_itail q -> last_itail q' = last_itail q ->
  threads h q l -> threads h q' l.
Proof. intros E1 E2 E3 E4 [H1 H2 H3 H4 H5]. split; congruence. Qed.

(** What [how] accepts *)
Definition accepts (q : tqueue) (how : Z) (b : bool) : bool :=
  if disable_oob q then negb (how =? DQ_OOB) else (how =? DQ_FIRST) || (how =? Z.b2z (negb b)).
(** The task as it is delivered *)
Definition delivered (q : tqueue) (n : input_task) : task_kind * bytes :=
  match kind n with
  | TASK_OOB => (if disable_oob q then TASK_INBAND else TASK_OOB, text n)
  | TASK_QUOTED => (TASK_INBAND, if disable_oob q then text n else drop (length oob_quote_prefix) (text n))
  | k => (k, text n)
  end.
Definition resumes (q : tqueue) (len : Z) : bool := input_suspended q && connected q && (total_input_length q - len <? INPUT_LOWAT).

Definition dequeued (h : gmap positive input_task) (q : tqueue) (ev : list event) (l : list positive) (x : positive) (l' : list positive) (s' : qstate) : Prop :=
  exists n fi li ft lt, h !! x = Some n /\ threads (nodes s') (tq s') l' /\
    (exists n', nodes s' !! x = Some n' /\ (kind n', text n') = delivered q n) /\
    tq s' = rethread fi li ft lt (set_total_input_length (total_input_length q - input_length n)
              (set_input_suspended (input_suspended q && negb (resumes q (input_length n))) q)) /\
    (forall y, y <> x -> contents (nodes s') y = contents h y) /\ (forall y, y ∉ l -> nodes s' !! y = h !! y) /\
    told s' = ev ++ if resumes q (input_length n) then [ResumeInput (player q)] else [].

(** The end of [dequeue_input_task] *)
Lemma dequeue_rest h q ev l x l' pt pitail n :
  h !! x = Some n -> x ∈ l -> x ∉ l' -> wp (unlink_input pt pitail x) (fun _ => unlinked h q ev l l') (mk_qstate h q ev) ->
  wp (unlink_input pt pitail x ;;
      let! n := get_node x in
      set_tq (fun q => set_total_input_length (total_input_length q - input_length n) q) ;;
      let! q := this_tq in
      (if input_suspended q && connected q && (total_input_length q <? INPUT_LOWAT)
       then tell (ResumeInput (player q)) ;; set_tq (set_input_suspended false) else mreturn tt) ;;
      unquote_input x ;;
      mreturn (Some x)) (fun r s' => r = Some x /\ dequeued h q ev l x l' s') (mk_qstate h q ev).
Proof.
  intros Hn Hxl Hx Hw. apply wp_bind, (wp_mono _ _ _ _ Hw). intros _ [h1 q1 ev1] ((fi & li & ft & lt & Eq) & Hth & Hc & Ho & Hev). cbn [nodes tq told] in *.
  subst q1 ev1. set (q0 := rethread fi li ft lt q) in *. pose proof (Hc x) as Hcx. unfold contents in Hcx. rewrite Hn in Hcx. destruct (h1 !! x) as [n1|] eqn:Hn1; [|done].
  injection Hcx as Ek Et El. apply wp_bind, (wp_get_node _ _ _ _ _ n1 Hn1). apply wp_bind, wp_set_tq. apply wp_bind, wp_this_tq. rewrite El.
  set (q2 := set_total_input_length (total_input_length q0 - input_length n) q0).
  assert (forall q3 ev3, (first_input q3, last_input q3, first_itail q3, last_itail q3) = (fi, li, ft, lt) -> disable_oob q3 = disable_oob q ->
    q3 = rethread fi li ft lt (set_total_input_length (total_input_length q - input_length n)
              (set_input_suspended (input_suspended q && negb (resumes q (input_length n))) q)) ->
    ev3 = ev ++ (if resumes q (input_length n) then [ResumeInput (player q)] else []) ->
    wp (unquote_input x ;; mreturn (Some x)) (fun r s' => r = Some x /\ dequeued h q ev l x l' s') (mk_qstate h1 q3 ev3)) as Hend.
  { intros q3 ev3 [= F1 F2 F3 F4] Hd -> ->. apply wp_bind. unfold unquote_input. apply wp_bind, wp_this_tq. apply (wp_update_node _ _ _ _ _ n1 _ Hn1). apply wp_ret.
    split; [done|]. exists n, fi, li, ft, lt. split; [done|]. cbn [nodes tq told]. split; [|split; [|split; [done|split; [|by split; [intros y Hy; rewrite lookup_insert_ne; [by apply Ho|by intros ->]|]]]]].
    - apply threads_other; [|done]. by apply (threads_fields h1 q0).
    - eexists. split; [apply lookup_insert_eq|]. unfold delivered. rewrite <- Ek, <- Et. rewrite Hd. by destruct (kind n1) eqn:Ekn; [|destruct (disable_oob q)|..]; cbn [kind text set_input]; rewrite ?Ekn.
    - intros y Hy. rewrite contents_insert, decide_False by done. apply Hc. }
  change (input_suspended q2 && connected q2 && (total_input_length q2 <? INPUT_LOWAT)) with (resumes q (input_length n)).
  destruct (resumes q (input_length n)) eqn:Er; apply wp_bind.
  - apply wp_bind. unfold tell, wp. cbn [nodes tq told set_tq]. change (player q2) with (player q). apply Hend; [done|done| |done].
    cbn [negb]. rewrite andb_false_r. by destruct q.
  - apply wp_ret, Hend; [done|done| |by rewrite app_nil_r]. cbn [negb]. rewrite andb_true_r. by destruct q.
Qed.

(** The task taken out is the first that [how] accepts. *)
Theorem dequeue_input_ok h q ev l how : threads h q l -> how = DQ_FIRST \/ how = DQ_OOB \/ how = DQ_INBAND ->
  wp (dequeue_input_task how) (fun r s' =>
    match extract (fun x => accepts q how (oob h x)) l with
    | Some (x, l') => r = Some x /\ dequeued h q ev l x l' s'
    | None => r = None /\ s' = mk_qstate h q ev
    end) (mk_qstate h q ev).
Proof.
  intros Hth Hhow. pose proof Hth as [Hnd Hs _ Ht _]. unfold dequeue_input_task. apply wp_bind, wp_this_tq.
  destruct (disable_oob q && (how =? DQ_OOB)) eqn:Eref.
  { apply wp_ret. assert (extract (fun x => accepts q how (oob h x)) l = None) as ->; [|done]. apply extract_None, Forall_forall. intros x _.
    apply andb_true_iff in Eref as [Ed Eh]. unfold accepts. by rewrite Ed, Eh. }
  destruct l as [|x l]; [cbn [seg] in Hs; rewrite Hs; by apply wp_ret|]. pose proof Hs as (Hf & a & Ha & _). rewrite Hf. unfold nxt in Ha.
  destruct (h !! x) as [nx|] eqn:Hx; [|done]. clear Ha a. apply wp_bind, (wp_get_node _ _ _ _ _ nx Hx).
  assert (oob h x = is_oob (kind nx)) as Eoob by (unfold oob; by rewrite Hx). set (how' := if disable_oob q then DQ_FIRST else how).
  destruct (how' =? Z.b2z (is_oob (kind nx))) eqn:Ehow.
  - assert (disable_oob q = false) as Ed by (subst how'; destruct (disable_oob q), (is_oob (kind nx)); done). subst how'. rewrite Ed in Ehow.
    apply Z.eqb_eq in Ehow. assert (forall y, accepts q how (oob h y) = negb (Bool.eqb (oob h y) (oob h x))) as Hacc.
    { intros y. unfold accepts. rewrite Ed, Ehow, Eoob. by destruct (is_oob (kind nx)), (oob h y). }
    destruct (run_split (oob h) x l) as (l1 & e & rest & El & Hrun & Hke & Hrest). rewrite El in *. clear El.
    assert (Forall (fun y => accepts q how (oob h y) = false) l1) as Hl1.
    { eapply Forall_impl; [exact Hrun|]. cbv beta. intros y Hy. rewrite Hacc, Hy, Hke. by rewrite Bool.eqb_reflx. }
    assert (accepts q how (oob h e) = false) as Hae by (rewrite Hacc, Hke; by rewrite Bool.eqb_reflx).
    assert (first_itail q = Some e) as ->.
    { destruct rest as [|y rest]; [rewrite ends_run_only in Ht by done|rewrite ends_run in Ht by congruence]; by destruct Ht. }
    apply wp_bind, wp_ret. apply seg_app in Hs as (b & _ & -> & c & Hc & Hs). unfold nxt in Hc. destruct (h !! e) as [ne|] eqn:Hne; [|done]. injection Hc as Hc.
    apply wp_bind, wp_read_slot. exists ne. split; [done|]. rewrite Hc. destruct rest as [|y rest].
    + cbn [seg] in Hs. rewrite Hs. apply wp_ret. assert (extract (fun x => accepts q how (oob h x)) (l1 ++ [e]) = None) as ->; [|done].
      apply extract_None, Forall_app. split; [done|]. constructor; [done|constructor].
    + destruct Hs as (-> & d & Hd & _). unfold nxt in Hd. destruct (h !! y) as [ny|] eqn:Hy; [|done].
      assert (extract (fun x => accepts q how (oob h x)) (l1 ++ e :: y :: rest) = Some (y, l1 ++ e :: rest)) as ->.
      { apply extract_Some. exists (l1 ++ [e]), rest. split; [by rewrite <- app_assoc|]. split; [by rewrite <- app_assoc|]. split.
        - rewrite Hacc. apply negb_true_iff, Bool.eqb_false_iff. congruence.
        - apply Forall_app. split; [done|]. constructor; [done|constructor]. }
      apply (dequeue_rest h q ev _ y _ _ _ ny Hy); [apply elem_of_app; right; right; by left| |apply unlink_second; [done|done|congruence]].
      intros Hin. apply (NoDup_app l1) in Hnd as (_ & Hdis & Hnd). apply NoDup_cons in Hnd as [He Hnd]. apply NoDup_cons in Hnd as [Hy' Hnd].
      apply elem_of_app in Hin as [Hin|[->|Hin]%elem_of_cons]; [|by apply He; left|done]. apply (Hdis y Hin). right. by left.
  - apply wp_bind, wp_ret. apply wp_bind, wp_read_slot. rewrite Hf.
    assert (extract (fun x => accepts q how (oob h x)) (x :: l) = Some (x, l)) as ->.
    { cbn [extract]. assert (accepts q how (oob h x) = true) as ->; [|done]. unfold accepts. rewrite Eoob. subst how'. destruct (disable_oob q).
      - cbn [andb] in Eref. by rewrite Eref.
      - destruct Hhow as [-> | [-> | ->]]; [done|..]; by destruct (is_oob (kind nx)). }
    apply NoDup_cons in Hnd as [Hxl _]. apply (dequeue_rest h q ev _ x _ _ _ nx Hx); [by left|done|]. by apply unlink_first.
Qed.

(** ** [enqueue_input_task] *)

(** The slot after the elements [P] of a thread *)
Definition slot_after (mk : positive -> slot) (first : slot) (P : list positive) : slot := match last P with Some y => mk y | None => first end.
Lemma slot_of_pen_snoc E z : slot_of_pen (E ++ [z]) = slot_after STail SFirstTail E.
Proof. unfold slot_of_pen, slot_after. by rewrite pen_snoc. Qed.

Lemma wp_write_next h q ev P b t (Q : unit -> qstate -> Prop) : seg (nxt h) (first_input q) P b -> NoDup P ->
  (forall h' fi, seg (nxt h') fi P (Some t) -> (forall y, y ∉ P -> h' !! y = h !! y) -> (forall y, nxt_tail h' y = nxt_tail h y) ->
     (forall y, contents h' y = contents h y) -> Q tt (mk_qstate h' (set_first_input fi q) ev)) ->
  wp (write_slot (slot_after SNext SFirst P) (Some t)) Q (mk_qstate h q ev).
Proof.
  intros Hs Hnd HQ. unfold slot_after. destruct P as [|y P _] using rev_ind; [by apply wp_set_tq, HQ|]. rewrite last_snoc. cbn [write_slot].
  pose proof Hs as [_ Hy]%seg_snoc. unfold nxt in Hy. destruct (h !! y) as [n|] eqn:Hn; [|done]. apply (wp_update_node _ _ _ _ _ n _ Hn).
  apply NoDup_app in Hnd as (_ & Hdis & _). assert (y ∉ P) as HyP by (intros H; apply (Hdis y H); by left).
  specialize (HQ (<[y := set_next (Some t) n]> h) (first_input q)). assert (set_first_input (first_input q) q = q) as Eq by (by destruct q). rewrite Eq in HQ. apply HQ.
  - eapply seg_redirect; [exact Hs| |by rewrite nxt_insert, decide_True]. intros z Hz. rewrite nxt_insert, decide_False; [done|]. by intros ->.
  - intros z Hz. rewrite lookup_insert_ne; [done|]. intros ->. apply Hz, elem_of_app. right. by left.
  - intros z. rewrite nxt_tail_insert. destruct (decide (z = y)) as [->|]; [|done]. unfold nxt_tail. by rewrite Hn.
  - by apply (contents_update h y n).
Qed.
Lemma wp_write_tail h q ev P b t (Q : unit -> qstate -> Prop) : seg (nxt_tail h) (first_itail q) P b -> NoDup P ->
  (forall h' ft, seg (nxt_tail h') ft P (Some t) -> (forall y, y ∉ P -> h' !! y = h !! y) -> (forall y, nxt h' y = nxt h y) ->
     (forall y, contents h' y = contents h y) -> Q tt (mk_qstate h' (set_first_itail ft q) ev)) ->
  wp (write_slot (slot_after STail SFirstTail P) (Some t)) Q (mk_qstate h q ev).
Proof.
  intros Hs Hnd HQ. unfold slot_after. destruct P as [|y P _] using rev_ind; [by apply wp_set_tq, HQ|]. rewrite last_snoc. cbn [write_slot].
  pose proof Hs as [_ Hy]%seg_snoc. unfold nxt_tail in Hy. destruct (h !! y) as [n|] eqn:Hn; [|done]. apply (wp_update_node _ _ _ _ _ n _ Hn).
  apply NoDup_app in Hnd as (_ & Hdis & _). assert (y ∉ P) as HyP by (intros H; apply (Hdis y H); by left).
  specialize (HQ (<[y := set_next_itail (Some t) n]> h) (first_itail q)). assert (set_first_itail (first_itail q) q = q) as Eq by (by destruct q). rewrite Eq in HQ. apply HQ.
  - eapply seg_redirect; [exact Hs| |by rewrite nxt_tail_insert, decide_True]. intros z Hz. rewrite nxt_tail_insert, decide_False; [done|]. by intros ->.
  - intros z Hz. rewrite lookup_insert_ne; [done|]. intros ->. apply Hz, elem_of_app. right. by left.
  - intros z. rewrite nxt_insert. destruct (decide (z = y)) as [->|]; [|done]. unfold nxt. by rewrite Hn.
  - by apply (contents_update h y n).
Qed.
(** Reading it: the element after *)
Lemma wp_read_tail h q ev P z c (Q : option positive -> qstate -> Prop) : seg (nxt_tail h) (first_itail q) (P ++ [z]) c -> Q (Some z) (mk_qstate h q ev) ->
  wp (read_slot (slot_after STail SFirstTail P)) Q (mk_qstate h q ev).
Proof.
  intros Hs HQ. apply seg_snoc in Hs as [Hs _]. apply wp_read_slot. unfold slot_after. destruct P as [|y P _] using rev_ind.
  - cbn [last]. cbn [seg] in Hs. by rewrite Hs.
  - rewrite last_snoc. apply seg_snoc in Hs as [_ Hy]. unfold nxt_tail in Hy. destruct (h !! y) as [n|] eqn:Hn; [|done]. injection Hy as Hy. exists n. by rewrite Hy.
Qed.

Definition linked (h : gmap positive input_task) (q : tqueue) (ev : list event) (l : list positive) (t : positive) (k : task_kind) (input : bytes)
    (l' : list positive) (s' : qstate) : Prop :=
  (exists fi li ft lt, tq s' = rethread fi li ft lt (set_total_input_length (total_input_length q + Z.of_nat (length input)) q)) /\
  threads (nodes s') (tq s') l' /\ contents (nodes s') t = Some (k, input, Z.of_nat (length input)) /\
  (forall y, y <> t -> contents (nodes s') y = contents h y) /\ (forall y, y ∉ l -> y <> t -> nodes s' !! y = h !! y) /\ told s' = ev.

(** At the rear *)
Lemma link_rear h q ev l t k input len : threads h q l -> h !! t = Some (mk_input k input len None None) -> t ∉ l ->
  wp (match first_input q with
      | None => mreturn tt
      | Some _ =>
        let! e := read_slot (last_itail q) in
        match e with
        | None => mfail
        | Some e =>
          let! ne := get_node e in
          if bool_decide (is_oob (kind ne) = is_oob k) then mreturn tt else set_tq (set_last_itail (STail e))
        end
      end ;;
      let! q := this_tq in
      write_slot (last_itail q) (Some t) ;;
      write_slot (last_input q) (Some t) ;;
      set_tq (set_last_input (SNext t)))
    (fun _ s' => (exists fi li ft lt, tq s' = rethread fi li ft lt q) /\ threads (nodes s') (tq s') (l ++ [t]) /\
       (forall y, contents (nodes s') y = contents h y) /\ (forall y, y ∉ l -> nodes s' !! y = h !! y) /\ told s' = ev) (mk_qstate h q ev).
Proof.
  intros [Hnd Hs Hl Ht Hlt] Hn Htl. assert (oob h t = is_oob k) as Ek by (unfold oob; by rewrite Hn).
  (* the ends to keep, and the queue that points after them *)
  assert (exists P lt b, wp (match first_input q with
      | None => mreturn tt
      | Some _ =>
        let! e := read_slot (last_itail q) in
        match e with
        | None => mfail
        | Some e =>
          let! ne := get_node e in
          if bool_decide (is_oob (kind ne) = is_oob k) then mreturn tt else set_tq (set_last_itail (STail e))
        end
      end) (fun _ s' => s' = mk_qstate h (set_last_itail lt q) ev) (mk_qstate h q ev) /\
    ends (oob h) (l ++ [t]) = P ++ [t] /\ lt = slot_after STail SFirstTail P /\ seg (nxt_tail h) (first_itail q) P b /\ NoDup P /\ (forall y, y ∈ P -> y ∈ l))
    as (P & lt & b & Hw & EP & -> & HsP & HndP & HPl).
  { destruct l as [|z l _] using rev_ind.
    - exists [], SFirstTail, None. cbn [seg] in Hs. rewrite Hs. split; [apply wp_ret; change SFirstTail with (slot_of_pen (ends (oob h) [])); rewrite <- Hlt; by destruct q|]. split; [done|]. split; [done|].
      split; [exact Ht|]. split; [apply NoDup_nil_2|]. by intros y ?%elem_of_nil.
    - assert (exists f, first_input q = Some f) as [f ->] by (destruct l; destruct Hs as [-> _]; by eexists).
      destruct (ends_snoc (oob h) l z t) as (E & E1 & E2). rewrite E1 in Ht, Hlt. rewrite slot_of_pen_snoc in Hlt.
      pose proof (ends_NoDup (oob h) _ Hnd) as HndE. rewrite E1 in HndE.
      assert (forall y, y ∈ E ++ [z] -> y ∈ l ++ [z]) as Hin by (intros y Hy; apply (ends_in (oob h)); by rewrite E1).
      pose proof (seg_snoc (nxt_tail h) (first_itail q) E z None) as [Hsn _]. destruct (Hsn Ht) as [HtE Hz]. unfold nxt_tail in Hz.
      destruct (h !! z) as [nz|] eqn:Hnz; [|done]. assert (oob h z = is_oob (kind nz)) as Ez by (unfold oob; by rewrite Hnz).
      exists (if Bool.eqb (oob h z) (oob h t) then E else E ++ [z]), (slot_after STail SFirstTail (if Bool.eqb (oob h z) (oob h t) then E else E ++ [z])),
        (if Bool.eqb (oob h z) (oob h t) then Some z else None).
      rewrite <- app_assoc. cbn [app]. rewrite E2. destruct (Bool.eqb (oob h z) (oob h t)) eqn:Eb; rewrite Ez, Ek in Eb.
      + split; [|split; [done|split; [done|split; [done|]]]].
        * rewrite Hlt. apply wp_bind. apply (wp_read_tail _ _ _ _ z None); [done|]. apply wp_bind, (wp_get_node _ _ _ _ _ nz Hnz).
          rewrite bool_decide_true by (by apply Bool.eqb_prop). apply wp_ret. rewrite <- Hlt. by destruct q.
        * apply NoDup_app in HndE as (HndE & _ & _). split; [done|]. intros y Hy. apply Hin, elem_of_app. by left.
      + split; [|split; [by rewrite <- app_assoc|split; [done|split; [done|by split]]]]. rewrite Hlt. apply wp_bind.
        apply (wp_read_tail _ _ _ _ z None); [done|]. apply wp_bind, (wp_get_node _ _ _ _ _ nz Hnz).
        rewrite bool_decide_false by (by apply Bool.eqb_false_iff). apply wp_set_tq. unfold slot_after. by rewrite last_snoc. }
  apply wp_bind, (wp_mono _ _ _ _ Hw). intros _ s' ->. clear Hw Hlt Ht. set (q1 := set_last_itail _ q).
  apply wp_bind, wp_this_tq. apply wp_bind. change (last_itail q1) with (slot_after STail SFirstTail P). apply (wp_write_tail _ _ _ P b); [done|done|].
  intros h2 ft Hft Ho2 Hn2 Hc2. apply wp_bind. change (last_input q1) with (last_input q). rewrite Hl.
  apply (wp_write_next _ _ _ l None); [eapply seg_frame; [|exact Hs]; intros y _; apply Hn2|done|].
  intros h3 fi Hfi Ho3 Ht3 Hc3. apply wp_set_tq. cbn [nodes tq told].
  assert (t ∉ P) as HtP by (intros H; by apply Htl, HPl). assert (h3 !! t = Some (mk_input k input len None None)) as Hn3 by (by rewrite Ho3, Ho2).
  assert (forall y, contents h3 y = contents h y) as Hc by (intros y; by rewrite Hc3).
  split; [exists fi, (SNext t), ft, (slot_after STail SFirstTail P); by destruct q|]. split; [|split; [exact Hc|split; [|done]]].
  - split.
    + apply NoDup_app. split; [done|]. split; [|apply NoDup_singleton]. intros y Hy ->%list_elem_of_singleton. done.
    + apply seg_snoc. split; [exact Hfi|]. unfold nxt. by rewrite Hn3.
    + by rewrite slot_of_last_snoc.
    + rewrite (ends_contents _ _ _ Hc), EP. apply seg_snoc. split; [eapply seg_frame; [|exact Hft]; intros y _; apply Ht3|]. unfold nxt_tail. by rewrite Hn3.
    + rewrite (ends_contents _ _ _ Hc), EP, slot_of_pen_snoc. done.
  - intros y Hy. rewrite Ho3 by done. apply Ho2. intros HyP. by apply Hy, HPl.
Qed.

(** At the front of a queue with input *)
Lemma link_front h q ev x l t k input len : threads h q (x :: l) -> h !! t = Some (mk_input k input len None None) -> t ∉ x :: l ->
  wp (let! nf := get_node x in
      (if bool_decide (is_oob (kind nf) = is_oob k) then mreturn tt
       else
         update_node t (set_next_itail (first_itail q)) ;;
         set_tq (set_first_itail (Some t)) ;;
         if slot_eqb (last_itail q) SFirstTail then set_tq (set_last_itail (STail t)) else mreturn tt) ;;
      update_node t (set_next (Some x)) ;;
      set_tq (set_first_input (Some t)))
    (fun _ s' => (exists fi li ft lt, tq s' = rethread fi li ft lt q) /\ threads (nodes s') (tq s') (t :: x :: l) /\
       (forall y, contents (nodes s') y = contents h y) /\ (forall y, y <> t -> nodes s' !! y = h !! y) /\ told s' = ev) (mk_qstate h q ev).
Proof.
  intros [Hnd Hs Hl Ht Hlt] Hn Htl. assert (oob h t = is_oob k) as Ek by (unfold oob; by rewrite Hn). pose proof Hs as (Hf & a & Ha & _). unfold nxt in Ha.
  destruct (h !! x) as [nx|] eqn:Hx; [|done]. clear Ha a. assert (oob h x = is_oob (kind nx)) as Ex by (unfold oob; by rewrite Hx).
  assert (t ∉ ends (oob h) (x :: l)) as HtE by (by intros H%ends_in).
  apply wp_bind, (wp_get_node _ _ _ _ _ nx Hx). apply wp_bind.
  assert (forall n1 q1, content n1 = content (mk_input k input len None None) -> (exists ft lt, q1 = set_first_itail ft (set_last_itail lt q)) ->
     seg (nxt_tail (<[t := n1]> h)) (first_itail q1) (ends (oob h) (t :: x :: l)) None -> last_itail q1 = slot_of_pen (ends (oob h) (t :: x :: l)) ->
     wp (update_node t (set_next (Some x)) ;; set_tq (set_first_input (Some t)))
       (fun _ s' => (exists fi li ft lt, tq s' = rethread fi li ft lt q) /\ threads (nodes s') (tq s') (t :: x :: l) /\
         (forall y, contents (nodes s') y = contents h y) /\ (forall y, y <> t -> nodes s' !! y = h !! y) /\ told s' = ev) (mk_qstate (<[t := n1]> h) q1 ev)) as Hend.
  { intros n1 q1 Hc1 (ft & lt & ->) HE Hp. apply wp_bind, (wp_update_node _ _ _ _ _ n1 _ (lookup_insert_eq _ _ _)). apply wp_set_tq. cbn [nodes tq told]. rewrite insert_insert_eq.
    assert (forall y, contents (<[t := set_next (Some x) n1]> h) y = contents h y) as Hc by (by apply (contents_update h t (mk_input k input len None None))).
    split; [exists (Some t), (last_input q), ft, lt; by destruct q|]. split; [|split; [exact Hc|split; [|done]]].
    - split.
      + by apply NoDup_cons.
      + split; [done|]. exists (Some x). split; [by rewrite nxt_insert, decide_True|]. apply seg_insert_nxt; [done|]. by rewrite <- Hf.
      + cbn [last_input set_first_input set_first_itail set_last_itail]. rewrite Hl. unfold slot_of_last. by destruct l.
      + rewrite (ends_contents _ _ _ Hc). eapply seg_frame; [|exact HE]. intros y _. rewrite !nxt_tail_insert. by destruct (decide (y = t)).
      + rewrite (ends_contents _ _ _ Hc). exact Hp.
    - intros y Hy. by rewrite lookup_insert_ne. }
  destruct (bool_decide (is_oob (kind nx) = is_oob k)) eqn:Eb.
  - apply bool_decide_eq_true in Eb. apply wp_ret. rewrite ends_same in Hend by congruence.
    assert (mk_qstate h q ev = mk_qstate (<[t := mk_input k input len None None]> h) q ev) as -> by (by rewrite insert_id).
    apply Hend; [done|exists (first_itail q), (last_itail q); by destruct q| |done]. by rewrite insert_id.
  - apply bool_decide_eq_false in Eb. rewrite ends_diff in Hend by congruence. apply wp_bind, (wp_update_node _ _ _ _ _ _ _ Hn). apply wp_bind, wp_set_tq.
    set (n1 := set_next_itail (first_itail q) (mk_input k input len None None)).
    assert (seg (nxt_tail (<[t := n1]> h)) (Some t) (t :: ends (oob h) (x :: l)) None) as HE.
    { split; [done|]. exists (first_itail q). split; [by rewrite nxt_tail_insert, decide_True|]. by apply seg_insert_tail. }
    rewrite Hlt. destruct (ends (oob h) (x :: l)) as [|e [|e2 E]] eqn:EE; [by apply ends_nil in EE| |].
    + cbn [slot_of_pen pen slot_eqb]. apply wp_set_tq. apply Hend; [done|by exists (Some t), (STail t); destruct q|exact HE|done].
    + assert (slot_eqb (slot_of_pen (e :: e2 :: E)) SFirstTail = false) as ->.
      { unfold slot_of_pen. destruct (pen_long e e2 E) as (? & y & ? & _ & ->). done. }
      apply wp_ret. apply Hend; [done|exists (Some t), (last_itail q); by destruct q|exact HE|]. rewrite slot_of_pen_cons by done. exact Hlt.
Qed.

Theorem link_input_ok h q ev l input at_front k : threads h q l -> (forall x, x ∈ l -> is_Some (h !! x)) ->
  exists t, h !! t = None /\
  wp (link_input_task input at_front k) (fun _ s' => linked h q ev l t k input (if at_front then t :: l else l ++ [t]) s') (mk_qstate h q ev).
Proof.
  intros Hth Hin. set (t := fresh (dom h)). exists t. assert (h !! t = None) as Htn by (apply not_elem_of_dom, is_fresh). split; [done|].
  assert (t ∉ l) as Htl by (intros H; destruct (Hin t H); congruence).
  unfold link_input_task, wp. fold t. cbn [nodes].
  set (len := Z.of_nat (length input)). set (h1 := <[t := mk_input k input len None None]> h). set (q1 := set_total_input_length (total_input_length q + len) q).
  match goal with |- match ?m ?s with _ => _ end => fold (wp m (fun _ s' => linked h q ev l t k input (if at_front then t :: l else l ++ [t]) s') s) end.
  apply wp_bind. unfold new_node, wp at 1. cbn [nodes tq told]. apply wp_bind, wp_set_tq. apply wp_bind, wp_this_tq. fold h1.
  assert (threads h1 q1 l) as Hth1 by (apply threads_other; [|done]; by apply (threads_fields h q)).
  assert (h1 !! t = Some (mk_input k input len None None)) as Hn1 by apply lookup_insert_eq.
  assert (forall y, y <> t -> contents h1 y = contents h y) as Hc1 by (intros y Hy; unfold h1; by rewrite contents_insert, decide_False).
  assert (forall l' s', (exists fi li ft lt, tq s' = rethread fi li ft lt q1) -> threads (nodes s') (tq s') l' -> (forall y, contents (nodes s') y = contents h1 y) ->
    (forall y, y ∉ l -> y <> t -> nodes s' !! y = h1 !! y) -> told s' = ev -> linked h q ev l t k input l' s') as Hlk.
  { intros l' s' H1 H2 H3 H4 H5. split; [exact H1|]. split; [done|]. split; [rewrite H3; unfold contents; by rewrite Hn1|].
    split; [intros y Hy; by rewrite H3, Hc1|]. split; [|done]. intros y Hy Hyt. rewrite H4 by done. unfold h1. by rewrite lookup_insert_ne. }
  assert (forall f l2, l = f :: l2 -> first_input q1 = Some f) as Hfirst by (intros f l2 ->; apply Hth1).
  cbv beta. change (set_total_input_length (total_input_length q + len) q) with q1. fold t h1.
  destruct (if at_front then first_input q1 else None) as [f|] eqn:Ef.
  - destruct at_front; [|done]. destruct l as [|x l2]; [destruct Hth1 as [_ H _ _ _]; cbn [seg] in H; congruence|].
    assert (f = x) as -> by (rewrite (Hfirst x l2 eq_refl) in Ef; congruence).
    eapply wp_mono; [apply (link_front h1 q1 ev x l2 t k input len Hth1 Hn1 Htl)|]. intros _ s' (H1 & H2 & H3 & H4 & H5). apply Hlk; [done..| |done].
    intros y _ Hy. by apply H4.
  - eapply wp_mono; [apply (link_rear h1 q1 ev l t k input len Hth1 Hn1 Htl)|]. intros _ s' (H1 & H2 & H3 & H4 & H5). apply Hlk; [done| |done| |done].
    + destruct at_front; [|done]. destruct l as [|x l2]; [done|]. by rewrite (Hfirst x l2 eq_refl) in Ef.
    + intros y Hy _. by apply H4.
Qed.
