(* ===== verification/TaskSpec.v ===== *)
(** * The invariant of the queues

    [sched D X s]: queues are active, in the order of their usage, or idle;
    an idle queue has nothing to do, but for those in [X]; the threads of
    input of different queues are apart, and apart from the tasks in [D],
    which are being run; every waiting task is counted by the queue of its
    programmer. *)
From Stdlib Require Import ZArith Lia Sorting.Sorted.
From stdpp Require Import prelude gmap sorting.
From S2P Require Import Prelude CString Value ObjCode TaskInput TaskCode.

Local Open Scope Z_scope.
Local Open Scope moo_scope.

Create HintDb tasks.

Lemma ssorted_mono {A} (R R' : A -> A -> Prop) l : (forall a b, a ∈ l -> b ∈ l -> R a b -> R' a b) -> StronglySorted R l -> StronglySorted R' l.
Proof.
  induction l as [|x l IH]; intros H Hs; [constructor|]. apply StronglySorted_inv in Hs as [Hs Hx]. constructor.
  - apply IH; [|done]. intros a b Ha Hb. apply H; by right.
  - rewrite Forall_forall in *. intros y Hy. apply H; [by left|by right|by apply Hx].
Qed.

(** ** One queue *)

Definition length_of (h : gmap positive input_task) (x : positive) : Z := match h !! x with Some n => input_length n | None => 0 end.
Fixpoint lengths (h : gmap positive input_task) (l : list positive) : Z := match l with [] => 0 | x :: l => length_of h x + lengths h l end.
Definition node_good (h : gmap positive input_task) (x : positive) : Prop :=
  exists n, h !! x = Some n /\ input_length n = Z.of_nat (length (text n)) /\ (kind n = TASK_QUOTED -> begins oob_quote_prefix (text n) = true).

Definition qinput (h : gmap positive input_task) (q : tqueue) (l : list positive) : Prop :=
  threads h q l /\ total_input_length q = lengths h l /\ Forall (node_good h) l.

Definition how_of (q : tqueue) : Z := if hold_input q && negb (reading q) then DQ_OOB else DQ_FIRST.
(** Nothing to do *)
Definition quiet (h : gmap positive input_task) (q : tqueue) (l : list positive) : Prop :=
  first_bg q = [] /\ (reading q = true -> is_out_of_input q = false) /\ Forall (fun x => accepts q (how_of q) (oob h x) = false) l.

Lemma node_good_contents h h' x : contents h' x = contents h x -> node_good h x -> node_good h' x.
Proof.
  unfold contents, node_good. intros E (n & Hn & Hl & Hq). rewrite Hn in E. destruct (h' !! x) as [n'|]; [|done]. injection E as Ek Et El. exists n'.
  split; [done|]. rewrite El, Et, Ek. by split.
Qed.
Lemma length_of_contents h h' x : contents h' x = contents h x -> length_of h' x = length_of h x.
Proof. unfold contents, length_of. destruct (h' !! x), (h !! x); cbn; intros E; [by injection E|done..]. Qed.
Lemma lengths_contents h h' l : (forall x, x ∈ l -> contents h' x = contents h x) -> lengths h' l = lengths h l.
Proof.
  induction l as [|x l IH]; intros H; [done|]. cbn [lengths]. rewrite IH by (intros y Hy; apply H; by right). f_equal. apply length_of_contents, H. by left.
Qed.
Lemma lengths_app h l1 l2 : lengths h (l1 ++ l2) = lengths h l1 + lengths h l2.
Proof. induction l1 as [|x l1 IH]; [done|]. cbn [app lengths]. rewrite IH. lia. Qed.

(** A change elsewhere in the heap *)
Lemma threads_frame h h' q l : (forall x, x ∈ l -> h' !! x = h !! x) -> threads h q l -> threads h' q l.
Proof.
  intros H [H1 H2 H3 H4 H5]. assert (ends (oob h') l = ends (oob h) l) as Ee by (apply ends_ext; intros y Hy; unfold oob; by rewrite H).
  split; [done| |done| |]; rewrite ?Ee; [| |done].
  - eapply seg_frame; [|exact H2]. intros y Hy. unfold nxt. by rewrite H.
  - eapply seg_frame; [|exact H4]. intros y Hy. unfold nxt_tail. rewrite H; [done|]. by apply ends_in in Hy.
Qed.
Lemma qinput_frame h h' q l : (forall x, x ∈ l -> h' !! x = h !! x) -> qinput h q l -> qinput h' q l.
Proof.
  intros H (H1 & H2 & H3). assert (forall x, x ∈ l -> contents h' x = contents h x) as Hc by (intros x Hx; unfold contents; by rewrite H).
  split; [by eapply threads_frame|]. split; [by rewrite (lengths_contents h)|]. rewrite Forall_forall in *. intros x Hx. by apply (node_good_contents h); [apply Hc|apply H3].
Qed.
Lemma quiet_frame h h' q l : (forall x, x ∈ l -> h' !! x = h !! x) -> quiet h q l -> quiet h' q l.
Proof.
  intros H (H1 & H2 & H3). split; [done|]. split; [done|]. rewrite Forall_forall in *. intros x Hx. unfold oob. rewrite H by done. by apply H3.
Qed.
Lemma qinput_fields h q q' l : first_input q' = first_input q -> last_input q' = last_input q -> first_itail q' = first_itail q -> last_itail q' = last_itail q ->
  total_input_length q' = total_input_length q -> qinput h q l -> qinput h q' l.
Proof. intros E1 E2 E3 E4 E5 (H1 & H2 & H3). split; [by apply (threads_fields h q)|]. by rewrite E5. Qed.

Lemma threads_empty h q l : threads h q l -> (first_input q = None <-> l = []).
Proof. intros [_ H _ _ _]. destruct l; cbn [seg] in H; [done|]. destruct H as [-> _]. done. Qed.
Lemma qinput_det h q l l' : qinput h q l -> qinput h q l' -> l = l'.
Proof.
  intros ([_ H _ _ _] & _) ([_ H' _ _ _] & _). revert H H'. generalize (first_input q). revert l'. induction l as [|x l IH]; intros l' a H H'.
  - cbn [seg] in H. subst a. by apply seg_None in H' as [-> _].
  - destruct H as (-> & n & Hn & H). destruct l' as [|x' l']; [done|]. destruct H' as ([= <-] & n' & Hn' & H'). f_equal. apply (IH l' n); [done|]. congruence.
Qed.

(** ** The state *)

Definition count_of (who : Z) (ts : list bg_task) : Z := Z.of_nat (length (filter (fun t => progr_of t = who) ts)).
Definition before (a b : bg_task) : Prop := timer_cmp Z.leb (get_start_time a) (get_start_time b) = true.

Definition inputs_apart (D X : gset positive) (s : tstate) (L : positive -> list positive) : Prop :=
  (forall p q, tqueues s !! p = Some q -> qinput (inputs s) q (L p) /\ (p ∈ idle_tqueues s -> p ∉ X -> quiet (inputs s) q (L p))) /\
  (forall p p' q q' x, tqueues s !! p = Some q -> tqueues s !! p' = Some q' -> x ∈ L p -> x ∈ L p' -> p = p') /\
  (forall p q x, tqueues s !! p = Some q -> x ∈ L p -> x ∉ D) /\
  (forall x, x ∈ D -> is_Some (inputs s !! x)).

(** The queues and their input *)
Record queues_ok (D X : gset positive) (s : tstate) : Prop := {
  qs_nodup : NoDup (active_tqueues s ++ idle_tqueues s);
  qs_dom : forall p, p ∈ active_tqueues s ++ idle_tqueues s <-> is_Some (tqueues s !! p);
  qs_idle : forall p q, tqueues s !! p = Some q -> p ∈ idle_tqueues s -> usage q = NO_USAGE;
  qs_active : forall p q, tqueues s !! p = Some q -> p ∈ active_tqueues s -> 0 <= usage q;
  qs_sorted : StronglySorted (fun a b => usage_at s a <= usage_at s b) (active_tqueues s);
  qs_inputs : exists L, inputs_apart D X s L }.
(** Whose they are, and the background tasks *)
Record accounts (s : tstate) : Prop := {
  ac_players : forall p p' q q', tqueues s !! p = Some q -> tqueues s !! p' = Some q' -> player q = player q' -> player q <> NOTHING -> p = p';
  ac_waiting : StronglySorted before (waiting_tasks s);
  ac_count : forall p q, tqueues s !! p = Some q -> num_bg_tasks q = Z.of_nat (length (first_bg q)) + count_of (player q) (waiting_tasks s) /\
    Forall (fun t => progr_of t = player q /\ 0 <= progr_of t) (first_bg q);
  ac_owner : forall t, t ∈ waiting_tasks s -> 0 <= progr_of t /\ exists p q, tqueues s !! p = Some q /\ player q = progr_of t }.
Record sched (D X : gset positive) (s : tstate) : Prop := { sc_queues : queues_ok D X s; sc_accounts : accounts s }.

Section sched.
Context (D X : gset positive) (s : tstate) (H : sched D X s).
Definition sc_nodup := qs_nodup _ _ _ (sc_queues _ _ _ H).
Definition sc_dom := qs_dom _ _ _ (sc_queues _ _ _ H).
Definition sc_idle := qs_idle _ _ _ (sc_queues _ _ _ H).
Definition sc_active := qs_active _ _ _ (sc_queues _ _ _ H).
Definition sc_sorted := qs_sorted _ _ _ (sc_queues _ _ _ H).
Definition sc_inputs := qs_inputs _ _ _ (sc_queues _ _ _ H).
Definition sc_players := ac_players _ (sc_accounts _ _ _ H).
Definition sc_waiting := ac_waiting _ (sc_accounts _ _ _ H).
Definition sc_count := ac_count _ (sc_accounts _ _ _ H).
Definition sc_owner := ac_owner _ (sc_accounts _ _ _ H).
End sched.

(** What does not concern the queues *)
Lemma queues_same D X s s' : queues_ok D X s -> inputs s' = inputs s -> tqueues s' = tqueues s -> active_tqueues s' = active_tqueues s ->
  idle_tqueues s' = idle_tqueues s -> queues_ok D X s'.
Proof.
  intros [H1 H2 H3 H4 H5 H6] E1 E2 E3 E4.
  assert (forall p, usage_at s' p = usage_at s p) as Hu by (intros p; unfold usage_at; by rewrite E2).
  split; unfold inputs_apart; rewrite ?E1, ?E2, ?E3, ?E4; try done.
  eapply ssorted_mono; [|exact H5]. intros a b _ _. cbv beta. by rewrite !Hu.
Qed.
Lemma sched_same D X s s' : sched D X s -> inputs s' = inputs s -> tqueues s' = tqueues s -> active_tqueues s' = active_tqueues s ->
  idle_tqueues s' = idle_tqueues s -> waiting_tasks s' = waiting_tasks s -> sched D X s'.
Proof.
  intros [H [H7 H8 H9 H10]] E1 E2 E3 E4 E5. split; [by apply (queues_same D X s)|]. split; rewrite ?E2, ?E5; done.
Qed.

(** ** One queue changed *)

Definition put_queue (p : positive) (q : tqueue) (h : gmap positive input_task) (ev : list event) (s : tstate) : tstate :=
  with_events ev (with_tqueues (<[p := q]> (tqueues s)) (with_inputs h s)).

Lemma queues_put D X D' X' s p q q' h' ev : queues_ok D X s -> tqueues s !! p = Some q -> usage q' = usage q ->
  (forall r, r <> p -> r ∉ X' -> r ∉ X) -> (forall x, x ∈ D' -> is_Some (h' !! x)) ->
  (forall l, qinput (inputs s) q l -> (p ∈ idle_tqueues s -> p ∉ X -> quiet (inputs s) q l) ->
     exists l', qinput h' q' l' /\ (p ∈ idle_tqueues s -> p ∉ X' -> quiet h' q' l') /\ (forall x, x ∈ l' -> (x ∈ l \/ inputs s !! x = None) /\ x ∉ D') /\
       (forall x, x ∈ D' -> x ∈ D \/ x ∈ l) /\ (forall y, y ∉ l -> is_Some (inputs s !! y) -> h' !! y = inputs s !! y)) ->
  queues_ok D' X' (put_queue p q' h' ev s).
Proof.
  intros [H1 H2 H3 H4 H5 (L & HL1 & HL2 & HL3 & HL4)] Hp Eu HX HD Hq.
  destruct (HL1 p q Hp) as [Hqi Hquiet]. destruct (Hq (L p) Hqi Hquiet) as (l' & Hqi' & Hquiet' & Hl' & HD' & Hframe).
  assert (forall r, tqueues (put_queue p q' h' ev s) !! r = if decide (r = p) then Some q' else tqueues s !! r) as Hlook.
  { intros r. cbn. destruct (decide (r = p)) as [->|]; [by rewrite lookup_insert_eq|by rewrite lookup_insert_ne]. }
  assert (forall r, usage_at (put_queue p q' h' ev s) r = usage_at s r) as Hu.
  { intros r. unfold usage_at. rewrite Hlook. destruct (decide (r = p)) as [->|]; [by rewrite Hp|done]. }
  assert (forall r qr y, r <> p -> tqueues s !! r = Some qr -> y ∈ L r -> h' !! y = inputs s !! y) as Hother.
  { intros r qr y Hr Hqr Hy. apply Hframe.
    - intros Hyp. apply Hr. by apply (HL2 r p qr q y).
    - destruct (HL1 r qr Hqr) as [(_ & _ & Hg) _]. rewrite Forall_forall in Hg. destruct (Hg y Hy) as (n & -> & _). done. }
  split; [exact H1| | | | |].
  - intros r. cbn [active_tqueues idle_tqueues put_queue with_events with_tqueues with_inputs]. rewrite H2, Hlook. destruct (decide (r = p)) as [->|]; [|done].
    by rewrite Hp.
  - intros r qr. rewrite Hlook. destruct (decide (r = p)) as [->|]; [intros [= <-] Hi; rewrite Eu; by apply (H3 p)|]. by apply H3.
  - intros r qr. rewrite Hlook. destruct (decide (r = p)) as [->|]; [intros [= <-] Hi; rewrite Eu; by apply (H4 p)|]. by apply H4.
  - eapply ssorted_mono; [|exact H5]. intros a b _ _. cbv beta. by rewrite !Hu.
  - exists (fun r => if decide (r = p) then l' else L r). split; [|split; [|split; [|exact HD]]].
    + intros r qr Hr. rewrite Hlook in Hr. cbn [inputs idle_tqueues put_queue with_events with_tqueues with_inputs]. destruct (decide (r = p)) as [->|Hne].
      * injection Hr as <-. by split.
      * destruct (HL1 r qr Hr) as [Ha Hb]. split; [eapply qinput_frame; [|exact Ha]; intros y Hy; by eapply Hother|].
        intros Hi HX'. eapply quiet_frame; [|by apply Hb; [|apply HX]]. intros y Hy. by eapply Hother.
    + intros r r' qr qr' y Hr Hr'. rewrite Hlook in Hr, Hr'. destruct (decide (r = p)) as [->|Hne], (decide (r' = p)) as [->|Hne']; [done| | |].
      * intros Hy Hy'. destruct (Hl' y Hy) as [[Hyl|Hnone] _]; [by apply (HL2 p r' q qr' y)|]. exfalso.
        destruct (HL1 r' qr' Hr') as [(_ & _ & Hg) _]. rewrite Forall_forall in Hg. destruct (Hg y Hy') as (n & Hn & _). congruence.
      * intros Hy Hy'. destruct (Hl' y Hy') as [[Hyl|Hnone] _]; [by apply (HL2 r p qr q y)|]. exfalso.
        destruct (HL1 r qr Hr) as [(_ & _ & Hg) _]. rewrite Forall_forall in Hg. destruct (Hg y Hy) as (n & Hn & _). congruence.
      * intros Hy Hy'. by apply (HL2 r r' qr qr' y).
    + intros r qr y Hr. rewrite Hlook in Hr. destruct (decide (r = p)) as [->|Hne]; [intros Hy; exact (proj2 (Hl' y Hy))|]. intros Hy Hd.
      destruct (HD' y Hd) as [Hd'|Hyl]; [exact (HL3 r qr y Hr Hy Hd')|]. apply Hne. by apply (HL2 r p qr q y).
Qed.

Lemma accounts_put s p q q' h' ev : accounts s -> tqueues s !! p = Some q -> player q' = player q ->
  num_bg_tasks q' - Z.of_nat (length (first_bg q')) = num_bg_tasks q - Z.of_nat (length (first_bg q)) ->
  Forall (fun t => progr_of t = player q /\ 0 <= progr_of t) (first_bg q') -> accounts (put_queue p q' h' ev s).
Proof.
  intros [H7 H8 H9 H10] Hp Ep En Hbg.
  assert (forall r, tqueues (put_queue p q' h' ev s) !! r = if decide (r = p) then Some q' else tqueues s !! r) as Hlook.
  { intros r. cbn. destruct (decide (r = p)) as [->|]; [by rewrite lookup_insert_eq|by rewrite lookup_insert_ne]. }
  split; [|exact H8| |].
  - intros r r' qr qr' Hr Hr'. rewrite Hlook in Hr, Hr'. destruct (decide (r = p)) as [->|Hne], (decide (r' = p)) as [->|Hne']; [done| | |].
    + injection Hr as <-. rewrite Ep. by apply (H7 p r').
    + injection Hr' as <-. rewrite Ep. by apply (H7 r p).
    + by apply H7.
  - intros r qr Hr. rewrite Hlook in Hr. destruct (decide (r = p)) as [->|Hne]; [|exact (H9 r qr Hr)]. injection Hr as <-. rewrite Ep. destruct (H9 p q Hp) as [Hn _].
    split; [|done]. cbn [waiting_tasks put_queue with_events with_tqueues with_inputs]. lia.
  - intros t Ht. destruct (H10 t Ht) as [Hn (r & qr & Hr & Hpl)]. split; [done|]. destruct (decide (r = p)) as [->|Hne].
    + exists p, q'. rewrite Hlook, decide_True by done. split; [done|]. congruence.
    + exists r, qr. by rewrite Hlook, decide_False.
Qed.

Lemma sched_put D X D' X' s p q q' h' ev : sched D X s -> tqueues s !! p = Some q ->
  player q' = player q -> usage q' = usage q ->
  num_bg_tasks q' - Z.of_nat (length (first_bg q')) = num_bg_tasks q - Z.of_nat (length (first_bg q)) ->
  Forall (fun t => progr_of t = player q /\ 0 <= progr_of t) (first_bg q') ->
  (forall r, r <> p -> r ∉ X' -> r ∉ X) -> (forall x, x ∈ D' -> is_Some (h' !! x)) ->
  (forall l, qinput (inputs s) q l -> (p ∈ idle_tqueues s -> p ∉ X -> quiet (inputs s) q l) ->
     exists l', qinput h' q' l' /\ (p ∈ idle_tqueues s -> p ∉ X' -> quiet h' q' l') /\ (forall x, x ∈ l' -> (x ∈ l \/ inputs s !! x = None) /\ x ∉ D') /\
       (forall x, x ∈ D' -> x ∈ D \/ x ∈ l) /\ (forall y, y ∉ l -> is_Some (inputs s !! y) -> h' !! y = inputs s !! y)) ->
  sched D' X' (put_queue p q' h' ev s).
Proof.
  intros [H Ha] Hp Ep Eu En Hbg HX HD Hq. split; [by apply (queues_put D X D' X' s p q)|by apply (accounts_put s p q)].
Qed.
