(* ===== verification/TaskKeep.v ===== *)
(** * What the operations on queues keep

    [keeps s s']: the active queues stay active with their usage and their
    order, the first one stays first, and a queue that has become active has
    its usage.  [ensure_usage], [find_or_create] and the lists of tasks keep
    [sched]. *)
From Stdlib Require Import ZArith Lia Sorting.Sorted.
From stdpp Require Import prelude gmap sorting.
From S2P Require Import Prelude CString Value ObjCode TaskInput TaskCode TaskSpec.

Local Open Scope Z_scope.
Local Open Scope moo_scope.

(** ** Steps *)

Lemma wp_get_tq s p q (Q : tqueue -> tstate -> Prop) : tqueues s !! p = Some q -> Q q s -> wp (get_tq p) Q s.
Proof. unfold wp, get_tq. by intros ->. Qed.
Lemma wp_update_tq s p q f (Q : unit -> tstate -> Prop) : tqueues s !! p = Some q -> Q tt (with_tqueues (<[p := f q]> (tqueues s)) s) -> wp (update_tq p f) Q s.
Proof. unfold wp, update_tq. by intros ->. Qed.
Lemma wp_tmodify s f (Q : unit -> tstate -> Prop) : Q tt (f s) -> wp (tmodify f) Q s.
Proof. done. Qed.
Lemma wp_on_queue {A} p q (m : M qstate A) (Q : A -> tstate -> Prop) s : tqueues s !! p = Some q ->
  wp m (fun x l => Q x (put_queue p (tq l) (nodes l) (told l) s)) (mk_qstate (inputs s) q (events s)) -> wp (on_queue p m) Q s.
Proof. unfold wp, on_queue. intros ->. by destruct (m _) as [[x l]|]. Qed.
Lemma wp_if {S A} (b : S -> bool) (x : A) (m : M S A) (Q : A -> S -> Prop) s : (b s = true -> Q x s) -> (b s = false -> wp m Q s) ->
  wp (fun s => if b s then Some (x, s) else m s) Q s.
Proof. unfold wp. destruct (b s); intros H1 H2; [by apply H1|by apply H2]. Qed.
(** A computation that looks at its state *)
Ltac wp_here := match goal with |- wp ?m ?Q ?s => let m' := eval cbv beta in (m s) in match m' with ?n s => change (wp n Q s) end end.
Lemma put_queue_same s p q : tqueues s !! p = Some q -> put_queue p q (inputs s) (events s) s = s.
Proof. intros H. unfold put_queue. destruct s; cbn in *. unfold with_inputs, with_tqueues, with_events. cbn. by rewrite insert_id. Qed.
Lemma put_queue_fields s p q : put_queue p q (inputs s) (events s) s = with_tqueues (<[p := q]> (tqueues s)) s.
Proof. by destruct s. Qed.

(** ** [keeps] *)

Record keeps (s s' : tstate) : Prop := {
  kp_sub : active_tqueues s `sublist_of` active_tqueues s';
  kp_head : forall h, head (active_tqueues s) = Some h -> head (active_tqueues s') = Some h;
  kp_usage : forall r, r ∈ active_tqueues s -> usage_at s' r = usage_at s r;
  kp_new : forall h r, head (active_tqueues s) = Some h -> r ∈ active_tqueues s' -> r ∉ active_tqueues s -> usage_at s' r = usage_at s h;
  kp_dom : forall r, is_Some (tqueues s !! r) -> is_Some (tqueues s' !! r) }.

Lemma head_in {A} (l : list A) x : head l = Some x -> x ∈ l.
Proof. destruct l; [done|]. intros [= ->]. by left. Qed.
Lemma keeps_same s s' : active_tqueues s' = active_tqueues s -> (forall r, r ∈ active_tqueues s -> usage_at s' r = usage_at s r) ->
  (forall r, is_Some (tqueues s !! r) -> is_Some (tqueues s' !! r)) -> keeps s s'.
Proof. intros E Hu Hd. split; rewrite ?E; try done. Qed.
Lemma keeps_trans s1 s2 s3 : keeps s1 s2 -> keeps s2 s3 -> keeps s1 s3.
Proof.
  intros [A1 A2 A3 A4 A5] [B1 B2 B3 B4 B5]. split.
  - by etrans.
  - auto.
  - intros r Hr. rewrite B3; [by apply A3|]. by eapply elem_of_sublist.
  - intros h r Hh Hr Hr1. destruct (decide (r ∈ active_tqueues s2)) as [H2|H2]; [rewrite B3 by done; by apply A4|].
    rewrite (B4 h r) by auto. apply A3. by apply head_in.
  - auto.
Qed.
#[export] Instance keeps_preorder : PreOrder keeps.
Proof. split; [intros s; by apply keeps_same|exact keeps_trans]. Qed.
Lemma keeps_put s p q q' h ev : tqueues s !! p = Some q -> usage q' = usage q -> keeps s (put_queue p q' h ev s).
Proof.
  intros Hp Hu. apply keeps_same; [done| |].
  - intros r _. unfold usage_at. cbn. destruct (decide (r = p)) as [->|]; [by rewrite lookup_insert_eq, Hp|by rewrite lookup_insert_ne].
  - intros r Hr. cbn. destruct (decide (r = p)) as [->|]; [by rewrite lookup_insert_eq|by rewrite lookup_insert_ne].
Qed.

Lemma queues_X D X X' s : queues_ok D X s -> (forall r, r ∉ X' -> r ∈ X -> r ∉ idle_tqueues s) -> queues_ok D X' s.
Proof.
  intros [H1 H2 H3 H4 H5 (L & HL & HL')] HX. split; try done. exists L. split; [|done]. intros r qr Hr. destruct (HL r qr Hr) as [Ha Hb]. split; [done|].
  intros Hi Hn. apply Hb; [done|]. intros Hin. by apply (HX r).
Qed.
Lemma sched_X D X X' s : sched D X s -> (forall r, r ∉ X' -> r ∈ X -> r ∉ idle_tqueues s) -> sched D X' s.
Proof. intros [H Ha] HX. split; [by apply (queues_X D X)|done]. Qed.
Lemma sched_where D X s p : sched D X s -> is_Some (tqueues s !! p) -> p ∈ active_tqueues s \/ p ∈ idle_tqueues s.
Proof. intros H Hp. apply elem_of_app. by apply (sc_dom _ _ _ H). Qed.
Lemma sched_apart D X s p : sched D X s -> p ∈ active_tqueues s -> p ∈ idle_tqueues s -> False.
Proof. intros H. pose proof (sc_nodup _ _ _ H) as Hn. apply NoDup_app in Hn as (_ & Hn & _). apply Hn. Qed.

(** ** Moving a queue *)

Definition moved (p : positive) (q : tqueue) (act idl : list positive) (s : tstate) : tstate :=
  with_idle idl (with_active act (with_tqueues (<[p := q]> (tqueues s)) s)).

Lemma qinput_usage h q u l : qinput h q l -> qinput h (set_usage u q) l.
Proof. by apply qinput_fields. Qed.

Lemma usage_moved s p q act idl r : usage_at (moved p q act idl s) r = if decide (r = p) then usage q else usage_at s r.
Proof. unfold usage_at. cbn. destruct (decide (r = p)) as [->|]; [by rewrite lookup_insert_eq|by rewrite lookup_insert_ne]. Qed.

Lemma sched_moved D X X' s p q u act idl : sched D X s -> tqueues s !! p = Some q ->
  act ++ idl ≡ₚ active_tqueues s ++ idle_tqueues s -> (forall r, r <> p -> r ∈ idl -> r ∈ idle_tqueues s) -> (forall r, r <> p -> r ∈ act -> r ∈ active_tqueues s) ->
  StronglySorted (fun a b => usage_at (moved p (set_usage u q) act idl s) a <= usage_at (moved p (set_usage u q) act idl s) b) act ->
  (p ∈ idl -> u = NO_USAGE) -> (p ∈ act -> 0 <= u) ->
  (forall r, r <> p -> r ∉ X' -> r ∉ X) -> (forall l, qinput (inputs s) q l -> p ∈ idl -> p ∉ X' -> quiet (inputs s) q l) ->
  sched D X' (moved p (set_usage u q) act idl s).
Proof.
  intros [[H1 H2 H3 H4 H5 (L & HL1 & HL2 & HL3 & HL4)] [H7 H8 H9 H10]] Hp Hperm Hidl Hact Hsort Hui Hua HX Hq.
  set (s' := moved p (set_usage u q) act idl s).
  assert (forall r qr, tqueues s' !! r = Some qr -> (r = p /\ qr = set_usage u q) \/ (r <> p /\ tqueues s !! r = Some qr)) as Hlook.
  { intros r qr. cbn. destruct (decide (r = p)) as [->|]; [rewrite lookup_insert_eq; intros [= <-]; by left|rewrite lookup_insert_ne by done; by right]. }
  split; [split|split]; cbn [active_tqueues idle_tqueues inputs waiting_tasks s' moved with_idle with_active with_tqueues]; [by rewrite Hperm| | | |exact Hsort| | |exact H8| |].
  - intros r. rewrite Hperm, H2. cbn. destruct (decide (r = p)) as [->|]; [by rewrite lookup_insert_eq, Hp|by rewrite lookup_insert_ne].
  - intros r qr Hr. destruct (Hlook r qr Hr) as [[-> ->]|[Hne Hr']]; [done|]. intros Hi. apply (H3 r); auto.
  - intros r qr Hr. destruct (Hlook r qr Hr) as [[-> ->]|[Hne Hr']]; [done|]. intros Hi. apply (H4 r); auto.
  - exists L. split; [|split; [|split; [|exact HL4]]].
    + intros r qr Hr. destruct (Hlook r qr Hr) as [[-> ->]|[Hne Hr']]; cbn [inputs idle_tqueues moved with_idle with_active with_tqueues].
      * destruct (HL1 p q Hp) as [Ha _]. split; [by apply qinput_usage|]. intros Hi Hn. exact (Hq _ Ha Hi Hn).
      * destruct (HL1 r qr Hr') as [Ha Hb]. split; [done|]. intros Hi Hn. apply Hb; auto.
    + intros r r' qr qr' y Hr Hr'. destruct (Hlook r qr Hr) as [[-> ->]|[Hne Hr1]], (Hlook r' qr' Hr') as [[-> ->]|[Hne' Hr1']]; [done|..].
      * by apply (HL2 p r' q qr').
      * by apply (HL2 r p qr q).
      * by apply (HL2 r r' qr qr').
    + intros r qr y Hr. destruct (Hlook r qr Hr) as [[-> ->]|[Hne Hr1]]; [by apply (HL3 p q)|by apply (HL3 r qr)].
  - intros r r' qr qr' Hr Hr'. destruct (Hlook r qr Hr) as [[-> ->]|[Hne Hr1]], (Hlook r' qr' Hr') as [[-> ->]|[Hne' Hr1']]; [done|..].
    + by apply (H7 p r' q qr').
    + by apply (H7 r p qr q).
    + by apply (H7 r r' qr qr').
  - intros r qr Hr. destruct (Hlook r qr Hr) as [[-> ->]|[Hne Hr1]]; [exact (H9 p q Hp)|exact (H9 r qr Hr1)].
  - intros t Ht. destruct (H10 t Ht) as [Hn (r & qr & Hr & Hpl)]. split; [done|]. destruct (decide (r = p)) as [->|Hne].
    + exists p, (set_usage u q). cbn. rewrite lookup_insert_eq. split; [done|]. rewrite Hp in Hr. by injection Hr as <-.
    + exists r, qr. cbn. by rewrite lookup_insert_ne.
Qed.

(** ** [activate_tqueue], [ensure_usage] *)

Lemma insert_active_perm f u p ps : insert_active f u p ps ≡ₚ p :: ps.
Proof. induction ps as [|r ps IH]; [done|]. cbn [insert_active]. destruct (f r <=? u); [|done]. rewrite IH. apply Permutation_swap. Qed.
Lemma insert_active_sub f u p ps : ps `sublist_of` insert_active f u p ps.
Proof. induction ps as [|r ps IH]; [apply sublist_nil_l|]. cbn [insert_active]. destruct (f r <=? u); [by constructor|by apply sublist_cons]. Qed.
Lemma insert_active_head f u p ps h : head ps = Some h -> f h <= u -> head (insert_active f u p ps) = Some h.
Proof. destruct ps as [|r ps]; [done|]. intros [= ->] Hu. cbn [insert_active]. by rewrite (proj2 (Z.leb_le _ _) Hu). Qed.
Lemma insert_active_ext f g u p ps : (forall r, r ∈ ps -> f r = g r) -> insert_active f u p ps = insert_active g u p ps.
Proof.
  induction ps as [|r ps IH]; intros H; [done|]. cbn [insert_active]. rewrite (H r) by (by left). destruct (g r <=? u); [|done]. f_equal. apply IH. intros x Hx. apply H. by right.
Qed.
Lemma insert_active_sorted f p ps : StronglySorted (fun a b => f a <= f b) ps -> StronglySorted (fun a b => f a <= f b) (insert_active f (f p) p ps).
Proof.
  induction 1 as [|r ps Hs IH Hr]; [repeat constructor|]. cbn [insert_active]. destruct (f r <=? f p) eqn:E.
  - apply Z.leb_le in E. constructor; [done|]. rewrite insert_active_perm. by constructor.
  - apply Z.leb_gt in E. constructor; [by constructor|]. rewrite Forall_forall in *. intros y [->|Hy]%elem_of_cons; [lia|]. specialize (Hr y Hy). lia.
Qed.

Definition start_usage (s : tstate) : Z := match active_tqueues s with r :: _ => usage_at s r | [] => 0 end.
Lemma start_usage_nonneg D X s : sched D X s -> 0 <= start_usage s.
Proof.
  intros H. unfold start_usage. destruct (active_tqueues s) as [|r rest] eqn:E; [done|]. assert (r ∈ active_tqueues s) as Hr by (rewrite E; by left).
  assert (is_Some (tqueues s !! r)) as [q Hq] by (apply (sc_dom _ _ _ H), elem_of_app; by left). unfold usage_at. rewrite Hq. by apply (sc_active _ _ _ H r).
Qed.
(** The first active queue has the least usage. *)
Lemma start_usage_least D X s r : sched D X s -> r ∈ active_tqueues s -> start_usage s <= usage_at s r.
Proof.
  intros H. pose proof (sc_sorted _ _ _ H) as Hs. unfold start_usage. destruct (active_tqueues s) as [|h rest]; [by intros ?%not_elem_of_nil|].
  apply StronglySorted_inv in Hs as [_ Hs]. rewrite Forall_forall in Hs. intros [->|Hr]%elem_of_cons; [done|]. by apply Hs.
Qed.

Lemma sched_activate D X s p q : sched D X s -> tqueues s !! p = Some q -> p ∈ idle_tqueues s ->
  let u := start_usage s in
  let s' := moved p (set_usage u q) (insert_active (usage_at s) u p (active_tqueues s)) (filter (fun r => r <> p) (idle_tqueues s)) s in
  sched D (X ∖ {[p]}) s' /\ keeps s s'.
Proof.
  intros H Hp Hi u s'. assert (p ∉ active_tqueues s) as Hna by (intros Ha; by eapply sched_apart).
  pose proof (sc_nodup _ _ _ H) as Hnd. apply NoDup_app in Hnd as (Hnda & _ & Hndi).
  assert (idle_tqueues s ≡ₚ p :: filter (fun r => r <> p) (idle_tqueues s)) as Hpi.
  { clear -Hi Hndi. induction (idle_tqueues s) as [|r l IH]; [by apply not_elem_of_nil in Hi|]. apply NoDup_cons in Hndi as [Hr Hnd]. rewrite filter_cons.
    destruct (decide (r <> p)) as [Hne|Hne]; [|apply dec_stable in Hne; subst r].
    - apply elem_of_cons in Hi as [->|Hi]; [done|]. rewrite IH at 1 by done. apply Permutation_swap.
    - f_equiv. clear IH Hi Hnd. induction l as [|x l IH]; [done|]. apply not_elem_of_cons in Hr as [Hx Hl]. rewrite filter_cons, decide_True by (by intros ->). f_equiv. by apply IH. }
  assert (forall r, r ∈ active_tqueues s -> usage_at s r = usage_at s' r) as Hu.
  { intros r Hr. unfold s'. rewrite usage_moved, decide_False; [done|]. by intros ->. }
  assert (usage_at s' p = u) as Hup by (unfold s'; by rewrite usage_moved, decide_True).
  split.
  - apply (sched_moved D X); [done|done| | | | | | | |].
    + rewrite insert_active_perm. set (rest := filter _ _) in *. rewrite Hpi. apply Permutation_middle.
    + intros r _ Hr. by apply list_elem_of_filter in Hr as [_ Hr].
    + intros r Hne Hr. rewrite insert_active_perm in Hr. by apply elem_of_cons in Hr as [->|Hr].
    + fold s'. rewrite (insert_active_ext _ (usage_at s')) by done. rewrite <- Hup. apply insert_active_sorted.
      eapply ssorted_mono; [|apply H]. intros a b Ha Hb. cbv beta. by rewrite !Hu.
    + intros Hr. by apply list_elem_of_filter in Hr as [Hr _].
    + intros _. by apply (start_usage_nonneg D X).
    + intros r Hr Hx Hin. apply Hx. set_solver.
    + intros l _ Hr. by apply list_elem_of_filter in Hr as [Hr _].
  - split; cbn [s' moved active_tqueues with_idle with_active with_tqueues].
    + apply insert_active_sub.
    + intros h Hh. apply insert_active_head; [done|]. unfold u, start_usage. destruct (active_tqueues s); [done|]. by injection Hh as ->.
    + intros r Hr. symmetry. by apply Hu.
    + intros h r Hh Hr Hn. rewrite insert_active_perm in Hr. apply elem_of_cons in Hr as [->|Hr]; [|done]. rewrite Hup. unfold u, start_usage.
      destruct (active_tqueues s); [done|]. by injection Hh as ->.
    + intros r Hr. cbn. destruct (decide (r = p)) as [->|]; [by rewrite lookup_insert_eq|by rewrite lookup_insert_ne].
Qed.

(** After [ensure_usage] *)
Record ensured (D X : gset positive) (s : tstate) (p : positive) (q : tqueue) (s' : tstate) : Prop := {
  en_sched : sched D (X ∖ {[p]}) s';
  en_keeps : keeps s s';
  en_active : p ∈ active_tqueues s';
  en_inputs : inputs s' = inputs s;
  en_waiting : waiting_tasks s' = waiting_tasks s;
  en_tqueues : exists u, tqueues s' = <[p := set_usage u q]> (tqueues s);
  en_idle : forall r, r ∈ idle_tqueues s' -> r ∈ idle_tqueues s;
  en_rest : tdb s' = tdb s /\ current_task_id s' = current_task_id s /\ events s' = events s }.

Lemma wp_ensure_usage D X s p q (Q : unit -> tstate -> Prop) : sched D X s -> tqueues s !! p = Some q ->
  (forall s', ensured D X s p q s' -> Q tt s') -> wp (ensure_usage p) Q s.
Proof.
  intros H Hp HQ. unfold ensure_usage. apply wp_bind, (wp_get_tq _ _ _ _ Hp). destruct (usage q =? NO_USAGE) eqn:Eu.
  - apply Z.eqb_eq in Eu. assert (p ∈ idle_tqueues s) as Hi.
    { destruct (sched_where D X s p H (mk_is_Some _ _ Hp)) as [Ha|Hi]; [|done]. pose proof (sc_active _ _ _ H p q Hp Ha). unfold NO_USAGE in Eu. lia. }
    destruct (sched_activate D X s p q H Hp Hi) as [Hs Hk]. set (u := start_usage s) in *.
    apply wp_bind. apply (wp_update_tq s p q (set_usage u) _ Hp). apply wp_bind. unfold unlink_idle, wp at 1. cbn [idle_tqueues with_tqueues].
    rewrite bool_decide_eq_true_2 by done. unfold activate_tqueue. apply wp_bind. eapply (wp_get_tq _ _ (set_usage u q)); [cbn; apply lookup_insert_eq|].
    apply wp_tmodify. cbn [usage set_usage active_tqueues with_idle with_tqueues]. set (s1 := with_idle _ _).
    assert (insert_active (usage_at s1) u p (active_tqueues s) = insert_active (usage_at s) u p (active_tqueues s)) as Eact.
    { apply insert_active_ext. intros r Hr. unfold usage_at, s1. cbn. rewrite lookup_insert_ne; [done|]. intros E. subst r. exact (sched_apart D X s p H Hr Hi). }
    rewrite Eact. match goal with |- Q tt ?x => assert (x = moved p (set_usage u q) (insert_active (usage_at s) u p (active_tqueues s)) (filter (fun r => r <> p) (idle_tqueues s)) s) as -> by done end.
    apply HQ. split; [done|done| |done|done|by exists u| |done].
    + cbn. rewrite insert_active_perm. by left.
    + cbn. intros r Hr. by apply list_elem_of_filter in Hr as [_ Hr].
  - assert (p ∉ idle_tqueues s) as Hni.
    { intros Hi. apply Z.eqb_neq in Eu. apply Eu. by apply (sc_idle _ _ _ H p). }
    apply wp_ret, HQ. split; [|done| |done|done| |done|done].
    + apply (sched_X D X); [done|]. intros r Hr Hx. destruct (decide (r = p)) as [->|]; [done|]. exfalso. apply Hr. set_solver.
    + by destruct (sched_where D X s p H (mk_is_Some _ _ Hp)).
    + exists (usage q). symmetry. apply insert_id. rewrite Hp. by destruct q.
Qed.

(** ** [find_tqueue] *)

Definition finds (s : tstate) (who : Z) (r : option positive) : Prop :=
  match r with
  | Some p => exists q, tqueues s !! p = Some q /\ player q = who
  | None => forall p q, tqueues s !! p = Some q -> player q <> who
  end.

Lemma found_in_Some s who ps p : found_in s who ps = Some p -> p ∈ ps /\ exists q, tqueues s !! p = Some q /\ player q = who.
Proof.
  intros [Hin Hp]%List.find_some. apply bool_decide_eq_true in Hp. split; [by apply list_elem_of_In|]. unfold player_at in Hp.
  destruct (tqueues s !! p) as [q|]; [|done]. injection Hp as Hp. by exists q.
Qed.
Lemma found_in_None s who ps p q : found_in s who ps = None -> p ∈ ps -> tqueues s !! p = Some q -> player q <> who.
Proof.
  intros H Hin Hp E. pose proof (List.find_none _ _ H p (proj1 (list_elem_of_In _ _) Hin)) as Hn. apply bool_decide_eq_false in Hn. apply Hn. unfold player_at. rewrite Hp. cbn. by rewrite E.
Qed.
Lemma finds_tqueue D X s who : sched D X s -> exists r, find_tqueue who s = Some (r, s) /\ finds s who r.
Proof.
  intros H. unfold find_tqueue. eexists. split; [done|]. destruct (found_in s who (active_tqueues s)) as [p|] eqn:Ea; [by apply found_in_Some in Ea as [_ Ea]|].
  destruct (found_in s who (idle_tqueues s)) as [p|] eqn:Ei; [by apply found_in_Some in Ei as [_ Ei]|]. intros p q Hp.
  destruct (sched_where D X s p H (mk_is_Some _ _ Hp)) as [Hin|Hin]; [exact (found_in_None s who _ p q Ea Hin Hp)|exact (found_in_None s who _ p q Ei Hin Hp)].
Qed.
Lemma wp_find_tqueue D X s who (Q : option positive -> tstate -> Prop) : sched D X s -> (forall r, finds s who r -> Q r s) -> wp (find_tqueue who) Q s.
Proof. intros H HQ. destruct (finds_tqueue D X s who H) as (r & Er & Hr). eapply wp_intro; [exact Er|by apply HQ]. Qed.

Section create.
Context (dfc : option bytes).

Definition created (s : tstate) (who : Z) : tstate :=
  let p := fresh (dom (tqueues s)) in with_idle (p :: idle_tqueues s) (with_tqueues (<[p := new_tqueue dfc who]> (tqueues s)) s).

Lemma created_lookup s who r qr : tqueues (created s who) !! r = Some qr ->
  (r = fresh (dom (tqueues s)) /\ qr = new_tqueue dfc who) \/ (r <> fresh (dom (tqueues s)) /\ tqueues s !! r = Some qr).
Proof.
  unfold created. cbn. destruct (decide (r = fresh (dom (tqueues s)))) as [->|]; [rewrite lookup_insert_eq; intros [= <-]; by left|rewrite lookup_insert_ne by done; by right].
Qed.
Lemma queues_created D X s who : queues_ok D X s -> queues_ok D X (created s who).
Proof.
  intros [H1 H2 H3 H4 H5 (L & HL1 & HL2 & HL3 & HL4)]. pose proof (created_lookup s who) as Hlook. unfold created in *. set (p := fresh _) in *. set (s' := with_idle _ _) in *.
  assert (tqueues s !! p = None) as Hp by (apply not_elem_of_dom, is_fresh).
  assert (p ∉ active_tqueues s ++ idle_tqueues s) as Hpn by (rewrite H2, Hp; by intros []).
  split; cbn [active_tqueues idle_tqueues inputs waiting_tasks s' with_idle with_tqueues].
  - rewrite <- Permutation_middle. by constructor.
  - intros r. rewrite <- Permutation_middle, elem_of_cons, H2. cbn. destruct (decide (r = p)) as [->|Hne]; [rewrite lookup_insert_eq; naive_solver|].
    rewrite lookup_insert_ne by done. naive_solver.
  - intros r qr Hr. destruct (Hlook r qr Hr) as [[-> ->]|[Hne Hr1]]; [done|]. intros [->|Hi]%elem_of_cons; [done|]. by apply (H3 r).
  - intros r qr Hr Ha. destruct (Hlook r qr Hr) as [[-> ->]|[Hne Hr1]]; [|by apply (H4 r)]. destruct Hpn. apply elem_of_app. by left.
  - eapply ssorted_mono; [|exact H5]. intros a b Ha Hb. cbv beta. unfold usage_at. cbn. rewrite !lookup_insert_ne; [done|..]; intros ->; apply Hpn, elem_of_app; by left.
  - exists (fun r => if decide (r = p) then [] else L r). split; [|split; [|split; [|exact HL4]]].
    + intros r qr Hr. destruct (Hlook r qr Hr) as [[-> ->]|[Hne Hr1]]; [rewrite decide_True by done|rewrite decide_False by done].
      * split; [|done]. split; [|by split]. split; try done. constructor.
      * cbn. destruct (HL1 r qr Hr1) as [Ha Hb]. split; [done|]. intros [->|Hi]%elem_of_cons; [done|]. by apply Hb.
    + intros r r' qr qr' y Hr Hr'. destruct (decide (r = p)); [by intros ?%not_elem_of_nil|]. destruct (decide (r' = p)); [by intros _ ?%not_elem_of_nil|].
      destruct (Hlook r qr Hr) as [[-> _]|[_ Hr1]]; [done|]. destruct (Hlook r' qr' Hr') as [[-> _]|[_ Hr1']]; [done|]. by apply (HL2 r r' qr qr').
    + intros r qr y Hr. destruct (decide (r = p)); [by intros ?%not_elem_of_nil|]. destruct (Hlook r qr Hr) as [[-> _]|[_ Hr1]]; [done|]. by apply (HL3 r qr).
Qed.
Lemma count_of_none s who : accounts s -> finds s who None -> count_of who (waiting_tasks s) = 0.
Proof.
  intros [H7 H8 H9 H10] Hnone. unfold count_of. destruct (filter _ (waiting_tasks s)) as [|t ts] eqn:E; [done|].
  assert (t ∈ filter (fun t => progr_of t = who) (waiting_tasks s)) as Ht by (rewrite E; by left).
  apply list_elem_of_filter in Ht as [Ht Hin]. destruct (H10 t Hin) as (_ & r & qr & Hr & Hpl). destruct (Hnone r qr Hr). congruence.
Qed.
Lemma accounts_created s who : accounts s -> finds s who None -> accounts (created s who).
Proof.
  intros Ha Hnone. pose proof (count_of_none s who Ha Hnone) as Hc. destruct Ha as [H7 H8 H9 H10]. pose proof (created_lookup s who) as Hlook. split.
  - intros r r' qr qr' Hr Hr'. destruct (Hlook r qr Hr) as [[-> ->]|[Hne Hr1]], (Hlook r' qr' Hr') as [[-> ->]|[Hne' Hr1']]; [done|..].
    + cbn. intros E. by destruct (Hnone r' qr' Hr1').
    + cbn. intros E. by destruct (Hnone r qr Hr1).
    + by apply (H7 r r' qr qr').
  - exact H8.
  - intros r qr Hr. destruct (Hlook r qr Hr) as [[-> ->]|[Hne Hr1]]; [|exact (H9 r qr Hr1)]. cbn. rewrite Hc. split; [done|constructor].
  - intros t Ht. destruct (H10 t Ht) as [Hn (r & qr & Hr & Hpl)]. split; [done|]. exists r, qr. split; [|done]. unfold created. cbn. rewrite lookup_insert_ne; [done|].
    intros E. subst r. assert (tqueues s !! fresh (dom (tqueues s)) = None) by (apply not_elem_of_dom, is_fresh). congruence.
Qed.
Lemma sched_created D X s who : sched D X s -> finds s who None -> sched D X (created s who).
Proof. intros [H Ha] Hnone. split; [by apply queues_created|by apply accounts_created]. Qed.

Lemma wp_create s who (Q : positive -> tstate -> Prop) : Q (fresh (dom (tqueues s))) (created s who) -> wp (create_tqueue dfc who) Q s.
Proof.
  intros HQ. unfold create_tqueue. wp_here. set (p := fresh (dom (tqueues s))) in *. apply wp_bind, wp_tmodify. apply wp_bind. unfold deactivate_tqueue.
  apply wp_bind. eapply (wp_update_tq _ _ (new_tqueue dfc who)); [apply lookup_insert_eq|]. apply wp_tmodify. apply wp_ret.
  match goal with |- Q p ?x => assert (x = created s who) as -> end; [|done]. unfold created. fold p. unfold with_idle, with_tqueues. cbn. by rewrite insert_insert_eq.
Qed.

(** After [find_or_create] *)
Record got (D X : gset positive) (s : tstate) (who : Z) (p : positive) (s' : tstate) : Prop := {
  gt_sched : sched D X s';
  gt_keeps : keeps s s';
  gt_queue : exists q, tqueues s' !! p = Some q /\ player q = who;
  gt_old : forall r q, tqueues s !! r = Some q -> tqueues s' !! r = Some q;
  gt_rest : tdb s' = tdb s /\ inputs s' = inputs s /\ waiting_tasks s' = waiting_tasks s /\ active_tqueues s' = active_tqueues s /\
    current_task_id s' = current_task_id s /\ events s' = events s }.

Lemma wp_find_or_create D X s who (Q : positive -> tstate -> Prop) : sched D X s -> (forall p s', got D X s who p s' -> Q p s') -> wp (find_or_create dfc who) Q s.
Proof.
  intros H HQ. unfold find_or_create. apply wp_bind, (wp_find_tqueue D X); [done|]. intros [p|] Hr.
  - apply wp_ret, HQ. split; try done. 
  - apply wp_create. set (p := fresh (dom (tqueues s))).
    assert (tqueues s !! p = None) as Hp by (apply not_elem_of_dom, is_fresh).
    assert (forall r q, tqueues s !! r = Some q -> tqueues (created s who) !! r = Some q) as Hold.
    { intros r q Hrq. unfold created. fold p. cbn. rewrite lookup_insert_ne; [done|]. intros E. subst r. congruence. }
    apply HQ. split; [by apply sched_created| | |done|done].
    + apply keeps_same; [done| |intros r [q Hq]; by eexists; apply Hold]. intros r Hra.
      assert (is_Some (tqueues s !! r)) as [q E] by (apply (sc_dom _ _ _ H), elem_of_app; by left). unfold usage_at. by rewrite E, (Hold r q E).
    + exists (new_tqueue dfc who). split; [unfold created; fold p; apply lookup_insert_eq|done].
Qed.
End create.

(** ** Waiting and ready tasks

    The list of waiting tasks and the lists of ready ones, which the count of
    a queue adds up.  Between the moves of a task from one to the other,
    [sched] holds of the state with the list as it will be. *)
Local Open Scope Z_scope.
Local Open Scope moo_scope.

(** ** Order in time *)

Lemma timer_leb a b : timer_cmp Z.leb a b = true <-> tv_sec a < tv_sec b \/ (tv_sec a = tv_sec b /\ tv_usec a <= tv_usec b).
Proof. unfold timer_cmp. destruct (Z.eqb_spec (tv_sec a) (tv_sec b)); rewrite Z.leb_le; lia. Qed.
Lemma timer_ltb a b : timer_cmp Z.ltb a b = true <-> tv_sec a < tv_sec b \/ (tv_sec a = tv_sec b /\ tv_usec a < tv_usec b).
Proof. unfold timer_cmp. destruct (Z.eqb_spec (tv_sec a) (tv_sec b)); rewrite Z.ltb_lt; lia. Qed.
Lemma timer_ltb_false a b : timer_cmp Z.ltb a b = false <-> timer_cmp Z.leb b a = true.
Proof. rewrite <- not_true_iff_false, timer_ltb, timer_leb. lia. Qed.
Lemma before_trans a b c : before a b -> before b c -> before a c.
Proof. unfold before. rewrite !timer_leb. lia. Qed.

Lemma insert_waiting_perm t ts : insert_waiting t ts ≡ₚ t :: ts.
Proof. induction ts as [|u ts IH]; [done|]. cbn [insert_waiting]. destruct (timer_cmp _ _ _); [done|]. rewrite IH. apply Permutation_swap. Qed.
Lemma insert_waiting_sorted t ts : StronglySorted before ts -> StronglySorted before (insert_waiting t ts).
Proof.
  induction 1 as [|u ts Hs IH Hu]; [repeat constructor|]. cbn [insert_waiting]. destruct (timer_cmp Z.ltb _ _) eqn:E.
  - assert (before t u) as Htu by (unfold before; apply timer_ltb in E; apply timer_leb; lia).
    constructor; [by constructor|]. constructor; [done|]. eapply Forall_impl; [exact Hu|]. intros x. by apply before_trans.
  - constructor; [done|]. rewrite insert_waiting_perm. constructor; [|done]. by apply timer_ltb_false.
Qed.

Lemma count_of_app who l1 l2 : count_of who (l1 ++ l2) = count_of who l1 + count_of who l2.
Proof. unfold count_of. rewrite filter_app, length_app. lia. Qed.
Lemma count_of_cons who t ts : count_of who (t :: ts) = (if decide (progr_of t = who) then 1 else 0) + count_of who ts.
Proof. unfold count_of. rewrite filter_cons. destruct (decide _); cbn [length]; lia. Qed.
Lemma count_of_perm who l l' : l ≡ₚ l' -> count_of who l = count_of who l'.
Proof. unfold count_of. by intros ->. Qed.

Lemma extract_perm {A} (f : A -> bool) l x l' : extract f l = Some (x, l') -> l ≡ₚ x :: l'.
Proof. intros (l1 & l2 & -> & -> & _)%extract_Some. symmetry. apply Permutation_middle. Qed.
Lemma extract_sorted {A} (R : A -> A -> Prop) (f : A -> bool) l x l' : extract f l = Some (x, l') -> StronglySorted R l -> StronglySorted R l'.
Proof.
  intros (l1 & l2 & -> & -> & _)%extract_Some. induction l1 as [|y l1 IH]; cbn [app]; intros Hs; apply StronglySorted_inv in Hs as [Hs Hy]; [done|].
  constructor; [by apply IH|]. rewrite Forall_app in *. destruct Hy as [Hy1 Hy2]. by apply Forall_cons in Hy2 as [_ Hy2].
Qed.

(** ** The list of waiting tasks as it will be *)

Definition indep {A} (m : M tstate A) : Prop := forall w s, m (with_waiting w s) = match m s with Some (x, s') => Some (x, with_waiting w s') | None => None end.

Lemma indep_bind {A B} (m : M tstate A) (k : A -> M tstate B) : indep m -> (forall x, indep (k x)) -> indep (mbindM m k).
Proof. intros Hm Hk w s. unfold mbindM. rewrite Hm. destruct (m s) as [[x s']|]; [apply Hk|done]. Qed.
Lemma indep_ret {A} (x : A) : indep (mreturn x).
Proof. done. Qed.
Lemma indep_get_tq p : indep (get_tq p).
Proof. intros w s. unfold get_tq. cbn. by destruct (tqueues s !! p). Qed.
Lemma indep_update_tq p f : indep (update_tq p f).
Proof. intros w s. unfold update_tq. cbn. by destruct (tqueues s !! p). Qed.
Lemma indep_ensure_usage p : indep (ensure_usage p).
Proof.
  apply indep_bind; [apply indep_get_tq|]. intros q. destruct (_ =? _); [|apply indep_ret]. apply indep_bind; [|intros _; apply indep_bind; [|intros _; apply indep_bind; [apply indep_get_tq|done]]].
  - intros w s. cbn. apply indep_update_tq.
  - intros w s. unfold unlink_idle. cbn. by case_bool_decide.
Qed.
Lemma indep_find_or_create dfc who : indep (find_or_create dfc who).
Proof.
  apply indep_bind; [done|]. intros [p|]; [apply indep_ret|].
  assert (forall p, indep (tmodify (fun s => with_tqueues (<[p := new_tqueue dfc who]> (tqueues s)) s) ;; deactivate_tqueue p ;; mreturn p)) as Hc.
  { intros p. apply indep_bind; [done|intros _]. apply indep_bind; [|done]. apply indep_bind; [apply indep_update_tq|done]. }
  intros w s. exact (Hc (fresh (dom (tqueues s))) w s).
Qed.
Lemma indep_enqueue_bg p t : indep (enqueue_bg_task p t).
Proof. apply indep_update_tq. Qed.

Lemma wp_indep {A} (m : M tstate A) w s (Q : A -> tstate -> Prop) : indep m -> wp m Q (with_waiting w s) ->
  wp m (fun x s' => Q x (with_waiting w s')) s.
Proof. intros Hi. unfold wp. rewrite Hi. by destruct (m s) as [[x s']|]. Qed.
Lemma with_waiting_id s : with_waiting (waiting_tasks s) s = s.
Proof. by destruct s. Qed.
Lemma keeps_waiting s s' w w' : keeps (with_waiting w s) (with_waiting w' s') -> keeps s s'.
Proof. intros [H1 H2 H3 H4 H5]. by split. Qed.

(** ** Changing the tasks of a queue *)

Lemma wp_enqueue_bg p t s q (Q : unit -> tstate -> Prop) : tqueues s !! p = Some q ->
  Q tt (with_tqueues (<[p := set_first_bg (first_bg q ++ [t]) q]> (tqueues s)) s) -> wp (enqueue_bg_task p t) Q s.
Proof. intros Hp HQ. unfold enqueue_bg_task. by apply (wp_update_tq s p q). Qed.

Definition set_bg (n : Z) (ts : list bg_task) (q : tqueue) : tqueue := set_num_bg_tasks n (set_first_bg ts q).
Definition with_bg (p : positive) (q : tqueue) (n : Z) (ts w : list bg_task) (s : tstate) : tstate :=
  with_waiting w (with_tqueues (<[p := set_bg n ts q]> (tqueues s)) s).

Lemma keeps_with_bg s p q n ts w : tqueues s !! p = Some q -> keeps s (with_bg p q n ts w s).
Proof. intros Hp. apply (keeps_waiting _ _ (waiting_tasks s) (waiting_tasks s)). rewrite with_waiting_id. apply (keeps_put s p q (set_bg n ts q) (inputs s) (events s) Hp eq_refl). Qed.

Lemma sched_with_bg D X X' s p q n ts w : sched D X s -> tqueues s !! p = Some q -> StronglySorted before w ->
  n = Z.of_nat (length ts) + count_of (player q) w -> Forall (fun t => progr_of t = player q /\ 0 <= progr_of t) ts ->
  (forall who, who <> player q -> count_of who w = count_of who (waiting_tasks s)) ->
  (forall t, t ∈ w -> t ∈ waiting_tasks s \/ (progr_of t = player q /\ 0 <= progr_of t)) ->
  (forall r, r <> p -> r ∉ X' -> r ∉ X) -> (p ∈ idle_tqueues s -> p ∉ X' -> p ∉ X /\ ts = []) ->
  sched D X' (with_bg p q n ts w s).
Proof.
  intros [[H1 H2 H3 H4 H5 (L & HL1 & HL2 & HL3 & HL4)] [H7 H8 H9 H10]] Hp Hw Hn Hts Hcount Hin HX Hidle. set (s' := with_bg p q n ts w s).
  assert (forall r qr, tqueues s' !! r = Some qr -> (r = p /\ qr = set_bg n ts q) \/ (r <> p /\ tqueues s !! r = Some qr)) as Hlook.
  { intros r qr. cbn. destruct (decide (r = p)) as [->|]; [rewrite lookup_insert_eq; intros [= <-]; by left|rewrite lookup_insert_ne by done; by right]. }
  assert (forall r, usage_at s' r = usage_at s r) as Hu.
  { intros r. unfold usage_at. cbn. destruct (decide (r = p)) as [->|]; [by rewrite lookup_insert_eq, Hp|by rewrite lookup_insert_ne]. }
  split; [split|split]; cbn [active_tqueues idle_tqueues inputs waiting_tasks s' with_bg with_waiting with_tqueues]; [exact H1| | | | | | |exact Hw| |].
  - intros r. rewrite H2. cbn. destruct (decide (r = p)) as [->|]; [by rewrite lookup_insert_eq, Hp|by rewrite lookup_insert_ne].
  - intros r qr Hr. destruct (Hlook r qr Hr) as [[-> ->]|[Hne Hr']]; [exact (H3 p q Hp)|by apply H3].
  - intros r qr Hr. destruct (Hlook r qr Hr) as [[-> ->]|[Hne Hr']]; [exact (H4 p q Hp)|by apply H4].
  - eapply ssorted_mono; [|exact H5]. intros a b _ _. cbv beta. fold s'. by rewrite !Hu.
  - exists L. split; [|split; [|split; [|exact HL4]]].
    + intros r qr Hr. destruct (Hlook r qr Hr) as [[-> ->]|[Hne Hr']]; cbn [inputs idle_tqueues with_bg with_waiting with_tqueues].
      * destruct (HL1 p q Hp) as [Ha Hb]. split; [by apply (qinput_fields _ q)|]. intros Hi Hx. destruct (Hidle Hi Hx) as [Hx' ->].
        destruct (Hb Hi Hx') as (_ & Hq1 & Hq2). by split.
      * destruct (HL1 r qr Hr') as [Ha Hb]. split; [done|]. intros Hi Hx. apply Hb; auto.
    + intros r r' qr qr' y Hr Hr'. destruct (Hlook r qr Hr) as [[-> ->]|[Hne Hr1]], (Hlook r' qr' Hr') as [[-> ->]|[Hne' Hr1']]; [done|..].
      * by apply (HL2 p r' q qr').
      * by apply (HL2 r p qr q).
      * by apply (HL2 r r' qr qr').
    + intros r qr y Hr. destruct (Hlook r qr Hr) as [[-> ->]|[Hne Hr1]]; [by apply (HL3 p q)|by apply (HL3 r qr)].
  - intros r r' qr qr' Hr Hr'. destruct (Hlook r qr Hr) as [[-> ->]|[Hne Hr1]], (Hlook r' qr' Hr') as [[-> ->]|[Hne' Hr1']]; [done|..].
    + by apply (H7 p r' q qr').
    + by apply (H7 r p qr q).
    + by apply (H7 r r' qr qr').
  - intros r qr Hr. destruct (Hlook r qr Hr) as [[-> ->]|[Hne Hr1]]; [by split|]. destruct (H9 r qr Hr1) as [Ha Hb]. split; [|exact Hb].
    destruct (decide (player qr = player q)) as [E|E]; [|by rewrite Hcount].
    destruct (decide (player qr = NOTHING)) as [En|En]; [|by destruct Hne; apply (H7 r p qr q)].
    rewrite Ha. assert (forall l : list bg_task, (forall t, t ∈ l -> 0 <= progr_of t) -> count_of (player qr) l = 0) as Hz.
    { intros l Hl. unfold count_of. rewrite En. destruct (filter _ l) as [|t l'] eqn:El; [done|]. assert (t ∈ filter (fun t => progr_of t = NOTHING) l) as Ht by (rewrite El; by left).
      apply list_elem_of_filter in Ht as [Ht Htl]. specialize (Hl t Htl). unfold NOTHING in Ht. lia. }
    rewrite !Hz; [done| |intros t Ht; exact (proj1 (H10 t Ht))]. intros t Ht. destruct (Hin t Ht) as [Ht'|[_ Ht']]; [exact (proj1 (H10 t Ht'))|done].
  - assert (forall r qr, tqueues s !! r = Some qr -> exists p' q', tqueues s' !! p' = Some q' /\ player q' = player qr) as Hex.
    { intros r qr Hr. destruct (decide (r = p)) as [->|Hne]; [exists p, (set_bg n ts q); cbn; rewrite lookup_insert_eq; rewrite Hp in Hr; by injection Hr as <-|].
      exists r, qr. cbn. by rewrite lookup_insert_ne. }
    intros t Ht. destruct (Hin t Ht) as [Ht'|[Ht1 Ht2]].
    + destruct (H10 t Ht') as [Ht1 (r & qr & Hr & Hpl)]. split; [done|]. rewrite <- Hpl. by apply (Hex r).
    + split; [done|]. rewrite Ht1. by apply (Hex p).
Qed.

(** ** Operations *)

(** What an operation does to the queues *)
Definition good (D X : gset positive) (s s' : tstate) : Prop := sched D X s' /\ keeps s s'.

Lemma good_refl D X s : sched D X s -> good D X s s.
Proof. by split. Qed.
Lemma good_trans D X s1 s2 s3 : keeps s1 s2 -> good D X s2 s3 -> good D X s1 s3.
Proof. intros H [H1 H2]. split; [done|by etrans]. Qed.

Section bg.
Context (dfc : option bytes) (D X : gset positive).

Lemma wp_enqueue_waiting t s : sched D X s -> 0 <= progr_of t -> wp (enqueue_waiting dfc t) (fun _ => good D X s) s.
Proof.
  intros H Ht. unfold enqueue_waiting. apply wp_bind, (wp_find_or_create dfc D X); [done|]. intros p s1 [Hs1 Hk (q & Hq & Hpl) _ Hrest].
  apply wp_bind, (wp_update_tq _ _ q _ _ Hq), wp_tmodify. cbn [waiting_tasks with_tqueues].
  change (good D X s (with_bg p q (num_bg_tasks q + 1) (first_bg q) (insert_waiting t (waiting_tasks s1)) s1)).
  apply (good_trans _ _ _ s1 _ Hk). split; [|by apply keeps_with_bg]. destruct (sc_count _ _ _ Hs1 p q Hq) as [Hn Hbg].
  apply (sched_with_bg D X); [done|done|apply insert_waiting_sorted, Hs1| |done| | |done|].
  - rewrite (count_of_perm _ _ _ (insert_waiting_perm t (waiting_tasks s1))), count_of_cons, decide_True by done. lia.
  - intros who Hw. rewrite (count_of_perm _ _ _ (insert_waiting_perm t (waiting_tasks s1))), count_of_cons, decide_False; [done|congruence].
  - intros t' Ht'. rewrite insert_waiting_perm in Ht'. apply elem_of_cons in Ht' as [->|Ht']; [by right|by left].
  - intros Hi Hx. split; [done|]. destruct (sc_inputs _ _ _ Hs1) as (L & HL & _). by destruct (HL p q Hq) as [_ [Hb _]].
Qed.

Lemma wp_limit ul sl user s (Q : bool -> tstate -> Prop) : sched D X s -> (forall b, Q b s) -> wp (check_user_task_limit ul sl user) Q s.
Proof.
  intros H HQ. unfold check_user_task_limit. apply wp_bind, (wp_find_tqueue D X); [done|]. intros r Hr. destruct (_ <? 0); [by apply wp_ret|].
  destruct r as [p|]; [|by apply wp_ret]. destruct Hr as (q & Hq & _). by apply wp_bind, (wp_get_tq _ _ _ _ Hq), wp_ret.
Qed.
Lemma wp_enqueue_forked ul sl id progr code tv s : sched D X s -> 0 <= progr -> wp (enqueue_forked_task2 dfc ul sl id progr code tv) (fun _ => good D X s) s.
Proof.
  intros H Hp. apply wp_bind, wp_limit; [done|]. intros [|]; [|by apply wp_ret, good_refl]. cbn [negb].
  apply wp_bind, (wp_mono _ _ _ _ (wp_enqueue_waiting (TASK_FORKED id progr code tv) s H Hp)). intros _ s' Hg. by apply wp_ret.
Qed.
Lemma wp_enqueue_suspended ul sl v tv s : sched D X s -> 0 <= progr_of_cur_verb v -> wp (enqueue_suspended_task dfc ul sl v tv) (fun _ => good D X s) s.
Proof.
  intros H Hp. apply wp_bind, wp_limit; [done|]. intros [|]; [|by apply wp_ret, good_refl].
  apply wp_bind, (wp_mono _ _ _ _ (wp_enqueue_waiting (TASK_SUSPENDED v _ _) s H Hp)). intros _ s' Hg. by apply wp_ret.
Qed.

Lemma ensured_good s p q s' : ensured D X s p q s' -> good D X s s'.
Proof. intros He. split; [|apply He]. eapply sched_X; [apply He|]. set_solver. Qed.
Lemma wp_ensure s p q : sched D X s -> tqueues s !! p = Some q -> wp (ensure_usage p) (fun _ => good D X s) s.
Proof. intros H Hp. apply (wp_ensure_usage D X s p q); [done|done|]. intros s' He. by eapply ensured_good. Qed.

Lemma wp_resume_task v value s : sched D X s -> 0 <= progr_of_cur_verb v -> wp (resume_task dfc v value) (fun _ => good D X s) s.
Proof.
  intros H Hp. apply wp_bind, (wp_find_or_create dfc D X); [done|]. intros p s1 [Hs1 Hk (q & Hq & Hpl) _ Hrest].
  apply wp_bind, (wp_mono _ _ _ _ (wp_ensure s1 p q Hs1 Hq)). intros _ s2 [Hs2 Hk2].
  refine (wp_mono _ _ _ _ (wp_enqueue_waiting (TASK_SUSPENDED v _ value) s2 Hs2 Hp) _). intros _ s3. apply good_trans. by etrans.
Qed.

(** A task taken from the waiting ones is enqueued: its queue becomes active. *)
Lemma wp_ready t t' w w' s p q : sched D X (with_waiting w s) -> w ≡ₚ t :: w' -> StronglySorted before w' -> tqueues s !! p = Some q -> player q = progr_of t ->
  progr_of t' = progr_of t -> wp (ensure_usage p ;; enqueue_bg_task p t') (fun _ s' => good D X s (with_waiting w' s')) s.
Proof.
  intros H Hperm Hw' Hq Hpl Ht'. assert (0 <= progr_of t) as Hpos.
  { apply (sc_owner _ _ _ H t). cbn. rewrite Hperm. by left. }
  apply wp_bind. refine (wp_mono _ _ _ _ (wp_indep _ w s (fun _ => ensured D X (with_waiting w s) p q) (indep_ensure_usage p) _) _).
  { by apply (wp_ensure_usage D X _ p q). }
  intros _ s2 He. destruct (en_tqueues _ _ _ _ _ _ He) as [u Eq]. cbn in Eq.
  assert (tqueues s2 !! p = Some (set_usage u q)) as Hq2 by (rewrite Eq; apply lookup_insert_eq).
  apply (wp_enqueue_bg _ _ _ _ _ Hq2). cbn [first_bg set_usage]. destruct (ensured_good _ _ _ _ He) as [Hs2 Hk2].
  destruct (sc_count _ _ _ Hs2 p (set_usage u q) Hq2) as [Hn Hbg]. cbn [num_bg_tasks set_usage first_bg waiting_tasks with_waiting player] in Hn, Hbg.
  match goal with |- good D X s ?x => assert (x = with_bg p (set_usage u q) (num_bg_tasks q) (first_bg q ++ [t']) w' (with_waiting w s2)) as -> by done end.
  assert (tqueues (with_waiting w s2) !! p = Some (set_usage u q)) as Hq2' by done.
  split.
  - apply (sched_with_bg D X); [done|done|done| | | | |done|].
    + cbn [player set_usage]. rewrite Hn, (count_of_perm _ _ _ Hperm), count_of_cons, decide_True, length_app by done. cbn [length]. lia.
    + cbn [player set_usage]. apply Forall_app. split; [done|]. repeat constructor; [congruence|by rewrite Ht'].
    + cbn. intros who Hne. rewrite (count_of_perm _ _ _ Hperm), count_of_cons, decide_False; [done|congruence].
    + intros t1 Ht1. left. cbn. rewrite Hperm. by right.
    + intros Hi _. exfalso. exact (sched_apart D X _ p Hs2 (en_active _ _ _ _ _ _ He) Hi).
  - etrans; [|by apply keeps_with_bg]. etrans; [apply (keeps_waiting _ _ _ _ Hk2)|]. by apply keeps_same.
Qed.
Lemma wp_make_ready t w s : sched D X (with_waiting (t :: w) s) ->
  wp (let! p := find_or_create dfc (progr_of t) in ensure_usage p ;; enqueue_bg_task p t) (fun _ s' => good D X s (with_waiting w s')) s.
Proof.
  intros H. apply wp_bind.
  refine (wp_mono _ _ _ _ (wp_indep _ (t :: w) s (got D X (with_waiting (t :: w) s) (progr_of t)) (indep_find_or_create dfc _) _) _).
  { apply (wp_find_or_create dfc D X); [done|]. by intros p s'. }
  intros p s1 [Hs1 Hk (q & Hq & Hpl) _ Hrest]. refine (wp_mono _ _ _ _ (wp_ready t t (t :: w) w s1 p q _ _ _ _ _ _) _); try done.
  - pose proof (sc_waiting _ _ _ Hs1) as Hw. by apply StronglySorted_inv in Hw as [Hw _].
  - intros _ s2. apply good_trans. apply (keeps_waiting _ _ _ _ Hk).
Qed.

Lemma release_assoc now t w s : (let! p := find_or_create dfc (progr_of t) in ensure_usage p ;; enqueue_bg_task p t ;; release dfc now w) s =
  ((let! p := find_or_create dfc (progr_of t) in ensure_usage p ;; enqueue_bg_task p t) ;; release dfc now w) s.
Proof. unfold mbindM. destruct (find_or_create _ _ _) as [[p s1]|]; [|done]. by destruct (ensure_usage p s1) as [[[] s2]|]. Qed.

Lemma wp_release now w s : sched D X (with_waiting w s) -> wp (release dfc now w) (fun w' s' => good D X s (with_waiting w' s')) s.
Proof.
  revert s. induction w as [|t w IH]; intros s H; cbn [release].
  - apply wp_ret. split; [done|]. by apply keeps_same.
  - destruct (timer_cmp Z.leb (get_start_time t) now).
    + unfold wp. rewrite release_assoc. match goal with |- match ?m s with _ => _ end => change (wp m (fun w' s' => good D X s (with_waiting w' s')) s) end.
      apply wp_bind, (wp_mono _ _ _ _ (wp_make_ready t w s H)). intros _ s1 [Hs1 Hk]. eapply wp_mono; [by apply IH|]. intros w' s2. apply good_trans.
      etrans; [exact Hk|]. by apply keeps_same.
    + apply wp_ret. split; [done|]. by apply keeps_same.
Qed.
Lemma wp_release_waiting now s : sched D X s -> wp (release_waiting dfc now) (fun _ => good D X s) s.
Proof.
  intros H. unfold release_waiting. wp_here. apply wp_bind. eapply wp_mono; [apply wp_release; by rewrite with_waiting_id|]. intros w s' Hg. by apply wp_tmodify.
Qed.
End bg.
