(* ===== verification/TaskOps.v ===== *)
(** * The operations on input keep the invariant *)
From Stdlib Require Import ZArith Lia Sorting.Sorted.
From stdpp Require Import prelude gmap sorting.
From S2P Require Import Prelude CString Value ObjCode TaskInput TaskCode TaskSpec TaskKeep ObjFun.

Local Open Scope Z_scope.
Local Open Scope moo_scope.

(** ** A field of a queue *)

Definition same_input (q q' : tqueue) : Prop :=
  first_input q' = first_input q /\ last_input q' = last_input q /\ first_itail q' = first_itail q /\ last_itail q' = last_itail q /\ total_input_length q' = total_input_length q.
(** What is not part of the input *)
Definition same_tasks (q q' : tqueue) : Prop :=
  player q' = player q /\ usage q' = usage q /\ num_bg_tasks q' = num_bg_tasks q /\ first_bg q' = first_bg q.
Definition same_mode (q q' : tqueue) : Prop :=
  connected q' = connected q /\ reading_vm q' = reading_vm q /\ hold_input q' = hold_input q /\ disable_oob q' = disable_oob q.

Lemma reading_quiet h q l : qinput h q l -> quiet h q l -> reading q = true -> l = [] /\ connected q = true.
Proof.
  intros (Hth & _) (_ & Hr & Hacc) E. specialize (Hr E). assert (l = []) as ->.
  { destruct l as [|x l]; [done|]. apply Forall_cons in Hacc as [Hx _]. unfold accepts, how_of in Hx. rewrite E in Hx. rewrite andb_false_r in Hx. by destruct (disable_oob q). }
  split; [done|]. unfold is_out_of_input in Hr. rewrite (proj2 (threads_empty h q [] Hth) eq_refl) in Hr. by destruct (connected q).
Qed.

Lemma queues_field D X X' s p q q' : queues_ok D X s -> tqueues s !! p = Some q -> same_input q q' -> usage q' = usage q ->
  (forall r, r <> p -> r ∉ X' -> r ∉ X) ->
  (forall l, qinput (inputs s) q l -> p ∈ idle_tqueues s -> p ∉ X' -> (p ∉ X -> quiet (inputs s) q l) -> quiet (inputs s) q' l) ->
  queues_ok D X' (with_tqueues (<[p := q']> (tqueues s)) s).
Proof.
  intros H Hp (E1 & E2 & E3 & E4 & E5) F2 HX Hq. rewrite <- put_queue_fields.
  apply (queues_put D X D X' s p q); [done|done|done|done| |].
  - by destruct (qs_inputs _ _ _ H) as (L & _ & _ & _ & HL).
  - intros l Hl Hquiet. exists l. split; [by apply (qinput_fields _ q)|]. split; [intros Hi Hx; by apply (Hq l Hl Hi Hx); auto|].
    split; [|split; [by left|done]]. intros x Hx. split; [by left|]. destruct (qs_inputs _ _ _ H) as (L & HL1 & _ & HL3 & _).
    rewrite (qinput_det _ _ l (L p) Hl) in Hx by apply (HL1 p q Hp). by apply (HL3 p q x Hp).
Qed.
Lemma sched_field D X X' s p q q' : sched D X s -> tqueues s !! p = Some q -> same_input q q' -> same_tasks q q' ->
  (forall r, r <> p -> r ∉ X' -> r ∉ X) ->
  (forall l, qinput (inputs s) q l -> p ∈ idle_tqueues s -> p ∉ X' -> (p ∉ X -> quiet (inputs s) q l) -> quiet (inputs s) q' l) ->
  sched D X' (with_tqueues (<[p := q']> (tqueues s)) s).
Proof.
  intros H Hp Hi (F1 & F2 & F3 & F4) HX Hq. split; [apply (queues_field D X X' s p q q'); [apply H|done..]|]. rewrite <- put_queue_fields.
  apply (accounts_put s p q); [apply H|done|done|by rewrite F3, F4|]. rewrite F4. exact (proj2 (sc_count _ _ _ H p q Hp)).
Qed.
Lemma good_field D X s p q q' : sched D X s -> tqueues s !! p = Some q -> same_input q q' -> same_tasks q q' ->
  (forall l, qinput (inputs s) q l -> p ∈ idle_tqueues s -> p ∉ X -> quiet (inputs s) q l -> quiet (inputs s) q' l) ->
  good D X s (with_tqueues (<[p := q']> (tqueues s)) s).
Proof.
  intros H Hp H1 H2 Hq. split; [eapply sched_field; [done..|auto|]; auto|]. rewrite <- put_queue_fields. apply (keeps_put s p q); [done|]. apply H2.
Qed.
(** A queue that may have something to do now *)
Lemma sched_field_X D X s p q q' : sched D X s -> tqueues s !! p = Some q -> same_input q q' -> same_tasks q q' ->
  sched D ({[p]} ∪ X) (with_tqueues (<[p := q']> (tqueues s)) s) /\ keeps s (with_tqueues (<[p := q']> (tqueues s)) s).
Proof.
  intros H Hp H1 H2. split.
  - apply (sched_field D X _ s p q q'); [done..| |]; [set_solver|]. intros l _ _ Hx. set_solver.
  - rewrite <- put_queue_fields. apply (keeps_put s p q); [done|]. apply H2.
Qed.
Lemma wp_ensure_X D X s0 s p q : keeps s0 s -> sched D ({[p]} ∪ X) s -> tqueues s !! p = Some q -> wp (ensure_usage p) (fun _ => good D X s0) s.
Proof.
  intros Hk H Hp. apply (wp_ensure_usage D ({[p]} ∪ X) s p q); [done|done|]. intros s' He. split; [|etrans; [exact Hk|apply He]].
  eapply sched_X; [apply He|]. intros r Hr Hin Hi. set_solver.
Qed.

(** ** Taking a task *)

Record taken (D X : gset positive) (s : tstate) (p : positive) (q : tqueue) (t : positive) (s' : tstate) : Prop := {
  tk_queues : queues_ok ({[t]} ∪ D) X s';
  tk_fresh : t ∉ D;
  tk_keeps : keeps s s';
  tk_queue : exists q', tqueues s' = <[p := q']> (tqueues s) /\ same_tasks q q' /\ same_mode q q';
  tk_node : exists n, inputs s' !! t = Some n /\ kind n <> TASK_QUOTED;
  tk_size : size (inputs s') = size (inputs s);
  tk_rest : waiting_tasks s' = waiting_tasks s /\ active_tqueues s' = active_tqueues s /\ idle_tqueues s' = idle_tqueues s }.

Lemma lengths_extract h f l x l' : extract f l = Some (x, l') -> lengths h l = length_of h x + lengths h l'.
Proof. intros (l1 & l2 & -> & -> & _)%extract_Some. rewrite !lengths_app. cbn [lengths]. lia. Qed.
Lemma dom_contents h h' t : (forall y, y <> t -> contents h' y = contents h y) -> is_Some (h !! t) -> is_Some (h' !! t) -> size h' = size h.
Proof.
  intros Hc Ht Ht'. rewrite <- !size_dom. f_equal. apply set_eq. intros y. rewrite !elem_of_dom. destruct (decide (y = t)) as [->|Hne]; [by split|].
  specialize (Hc y Hne). unfold contents in Hc. by destruct (h' !! y), (h !! y).
Qed.

Lemma dequeued_qinput h q ev l f x l' s' : qinput h q l -> extract f l = Some (x, l') -> dequeued h q ev l x l' s' -> qinput (nodes s') (tq s') l'.
Proof.
  intros (Hth & Htot & Hg) Hex (n & fi & li & ft & lt & Hn & Hth' & _ & Etq & Hc & _ & _). pose proof (extract_perm _ _ _ _ Hex) as Hperm.
  assert (forall y, y ∈ l' -> contents (nodes s') y = contents h y) as Hc'.
  { intros y Hy. apply Hc. intros ->. destruct Hth as [Hnd _ _ _ _]. rewrite Hperm in Hnd. by apply NoDup_cons in Hnd as [Hnd _]. }
  split; [done|]. split.
  - rewrite (lengths_contents h) by done. rewrite Etq. rewrite Htot, (lengths_extract h _ _ _ _ Hex).
    unfold length_of at 1. rewrite Hn. cbn. lia.
  - rewrite Hperm in Hg. apply Forall_cons in Hg as [_ Hg]. rewrite Forall_forall in *. intros y Hy. apply (node_good_contents h); auto.
Qed.

Lemma accounts_same s s' p q q' : accounts s -> tqueues s !! p = Some q -> tqueues s' = <[p := q']> (tqueues s) -> same_tasks q q' -> waiting_tasks s' = waiting_tasks s -> accounts s'.
Proof.
  intros H Hp Eq (F1 & F2 & F3 & F4) Ew. destruct (accounts_put s p q q' (inputs s) (events s) H Hp F1) as [A1 A2 A3 A4].
  - by rewrite F3, F4.
  - rewrite F4. exact (proj2 (ac_count _ H p q Hp)).
  - split; rewrite ?Eq, ?Ew; done.
Qed.
Lemma taken_sched D X s p q t s' : accounts s -> tqueues s !! p = Some q -> taken D X s p q t s' -> sched ({[t]} ∪ D) X s'.
Proof. intros H Hp [H1 _ _ (q' & Eq & Ht & _) _ _ (Ew & _)]. split; [done|]. by apply (accounts_same s s' p q q'). Qed.

Lemma wp_dequeue D X s p q how : queues_ok D X s -> tqueues s !! p = Some q -> how = DQ_FIRST \/ how = DQ_OOB \/ how = DQ_INBAND ->
  wp (on_queue p (dequeue_input_task how)) (fun r s' => match r with
    | None => s' = s /\ forall l, qinput (inputs s) q l -> Forall (fun x => accepts q how (oob (inputs s) x) = false) l
    | Some t => taken D X s p q t s' end) s.
Proof.
  intros H Hp Hhow. destruct (qs_inputs _ _ _ H) as (L & HL1 & HL2 & HL3 & HL4). destruct (HL1 p q Hp) as [Hl Hquiet].
  apply (wp_on_queue p q _ _ _ Hp). eapply wp_mono; [apply (dequeue_input_ok (inputs s) q (events s) (L p) how); [apply Hl|done]|].
  intros r s'. destruct (extract _ (L p)) as [[x l']|] eqn:Ex.
  2: { intros [-> ->]. cbn [nodes tq told]. split; [by apply put_queue_same|]. intros l Hl'. rewrite (qinput_det _ _ _ _ Hl' Hl). by apply extract_None. }
  intros [-> Hd]. pose proof (dequeued_qinput _ _ _ _ _ _ _ _ Hl Ex Hd) as Hl'. pose proof (extract_perm _ _ _ _ Ex) as Hperm.
  assert (x ∈ L p) as Hx by (rewrite Hperm; by left). assert (x ∉ l') as Hxl' by (destruct Hl as [[Hnd _ _ _ _] _]; rewrite Hperm in Hnd; by apply NoDup_cons in Hnd as [Hnd _]).
  destruct Hd as (n & fi & li & ft & lt & Hn & _ & (n' & Hn' & Edel) & Etq & Hc & Hother & _).
  assert (same_tasks q (tq s') /\ same_mode q (tq s')) as [Hst Hsm] by (rewrite Etq; repeat split).
  split.
  - destruct Hst as (F1 & F2 & F3 & F4). apply (queues_put D X _ X s p q); [done|done|done|done| |].
    + intros y [->%elem_of_singleton|Hy]%elem_of_union; [by eexists|]. rewrite Hother; [by apply HL4|]. intros Hy'. by apply (HL3 p q y Hp).
    + intros l Hl2 Hq2. rewrite (qinput_det _ _ _ _ Hl2 Hl) in *. exists l'. split; [done|]. split; [|split; [|split]].
      * intros Hi HX. specialize (Hquiet Hi HX). destruct (reading q) eqn:Er; [destruct (reading_quiet _ _ _ Hl Hquiet Er) as [E _]; rewrite E in Hx; by apply not_elem_of_nil in Hx|].
        destruct Hquiet as (Hb & _ & Hacc). assert (reading (tq s') = false) as Er' by (unfold reading; by rewrite (proj1 (proj2 Hsm))).
        split; [congruence|]. split; [by rewrite Er'|]. rewrite Hperm in Hacc. apply Forall_cons in Hacc as [_ Hacc]. rewrite Forall_forall in *. intros y Hy.
        rewrite (oob_contents (inputs s)) by (apply Hc; by intros ->). rewrite <- (Hacc y Hy). unfold accepts, how_of. rewrite Er', Er. destruct Hsm as (_ & _ & -> & ->). done.
      * intros y Hy. assert (y ∈ L p) as Hyl by (rewrite Hperm; by right). split; [by left|]. intros [->%elem_of_singleton|Hy']%elem_of_union; [done|]. by apply (HL3 p q y Hp).
      * intros y [->%elem_of_singleton|Hy]%elem_of_union; [by right|by left].
      * intros y Hy _. by apply Hother.
  - by apply (HL3 p q x Hp).
  - apply (keeps_put s p q); [done|]. apply Hst.
  - exists (tq s'). by split.
  - exists n'. split; [done|]. intros Ek. unfold delivered in Edel. rewrite Ek in Edel. destruct (kind n); [done|destruct (disable_oob q)|..]; done.
  - apply (dom_contents _ _ x); [done|by eexists..].
  - done.
Qed.

(** The task is freed *)
Lemma queues_free D X s t : queues_ok ({[t]} ∪ D) X s -> t ∉ D -> queues_ok D X (with_inputs (delete t (inputs s)) s).
Proof.
  intros [H1 H2 H3 H4 H5 (L & HL1 & HL2 & HL3 & HL4)] Ht. split; try done. exists L.
  assert (forall r qr y, tqueues s !! r = Some qr -> y ∈ L r -> delete t (inputs s) !! y = inputs s !! y) as Hsame.
  { intros r qr y Hr Hy. rewrite lookup_delete_ne; [done|]. intros <-. apply (HL3 r qr t Hr Hy). set_solver. }
  split; [|split; [done|split]]; cbn [inputs tqueues idle_tqueues with_inputs].
  - intros r qr Hr. destruct (HL1 r qr Hr) as [Ha Hb]. split; [eapply qinput_frame; [|exact Ha]; intros y Hy; by apply (Hsame r qr)|].
    intros Hi Hx. eapply quiet_frame; [|by apply Hb]. intros y Hy. by apply (Hsame r qr).
  - intros r qr y Hr Hy Hd. apply (HL3 r qr y Hr Hy). set_solver.
  - intros y Hy. rewrite lookup_delete_ne by (by intros ->). apply HL4. set_solver.
Qed.
Lemma wp_free_task (Q : unit -> tstate -> Prop) s t : Q tt (with_inputs (delete t (inputs s)) s) -> wp (free_task t) Q s.
Proof. done. Qed.
Lemma size_freed s t : is_Some (inputs s !! t) -> S (size (inputs (with_inputs (delete t (inputs s)) s))) = size (inputs s).
Proof. intros [n Hn]. cbn. rewrite map_size_delete, Hn. cbn. destruct (size (inputs s)) eqn:E; [|done]. apply map_size_empty_inv in E. by rewrite E, lookup_empty in Hn. Qed.

(** What the network is told *)
Lemma queues_events D X s e : queues_ok D X s -> queues_ok D X (with_events e s).
Proof. intros H. by apply (queues_same D X s). Qed.
Lemma sched_events D X s e : sched D X s -> sched D X (with_events e s).
Proof. intros H. by apply (sched_same D X s). Qed.
Lemma keeps_events s e : keeps s (with_events e s).
Proof. by apply keeps_same. Qed.
Lemma put_queue_events s p q e : tqueues s !! p = Some q -> put_queue p q (inputs s) e s = with_events e s.
Proof. intros H. unfold put_queue. destruct s; cbn in *. unfold with_inputs, with_tqueues, with_events. cbn. by rewrite insert_id. Qed.

(** A statement on the queue that tells the network *)
Lemma wp_told s p q (m : M qstate unit) (Q : unit -> tstate -> Prop) : tqueues s !! p = Some q ->
  (exists ev, wp m (fun _ l => l = mk_qstate (inputs s) q ev) (mk_qstate (inputs s) q (events s))) ->
  (forall ev, Q tt (with_events ev s)) -> wp (on_queue p m) Q s.
Proof.
  intros Hp [ev Hm] HQ. apply (wp_on_queue p q _ _ _ Hp), (wp_mono _ _ _ _ Hm). intros [] l ->. cbn [nodes tq told]. by rewrite put_queue_events.
Qed.

Lemma same_tasks_trans q1 q2 q3 : same_tasks q1 q2 -> same_tasks q2 q3 -> same_tasks q1 q3.
Proof. intros (A1 & A2 & A3 & A4) (B1 & B2 & B3 & B4). split; [congruence|]. split; [congruence|]. split; congruence. Qed.
Lemma same_mode_trans q1 q2 q3 : same_mode q1 q2 -> same_mode q2 q3 -> same_mode q1 q3.
Proof. intros (A1 & A2 & A3 & A4) (B1 & B2 & B3 & B4). split; [congruence|]. split; [congruence|]. split; congruence. Qed.

(** After the input of a queue has been flushed *)
Record flushed (D X : gset positive) (s : tstate) (p : positive) (q : tqueue) (s' : tstate) : Prop := {
  fl_queues : queues_ok D X s';
  fl_keeps : keeps s s';
  fl_queue : exists q', tqueues s' = <[p := q']> (tqueues s) /\ same_tasks q q' /\ same_mode q q';
  fl_rest : waiting_tasks s' = waiting_tasks s /\ active_tqueues s' = active_tqueues s /\ idle_tqueues s' = idle_tqueues s;
  fl_empty : forall q', tqueues s' !! p = Some q' -> first_input q' = None }.

Lemma wp_flush_loop D X p show fuel : forall s q, queues_ok D X s -> tqueues s !! p = Some q -> (size (inputs s) < fuel)%nat ->
  wp (flush_loop fuel p show) (fun _ s' => flushed D X s p q s') s.
Proof.
  induction fuel as [|fuel IH]; intros s q H Hp Hf; [lia|]. cbn [flush_loop].
  apply wp_bind, (wp_mono _ _ _ _ (wp_dequeue D X s p q DQ_FIRST H Hp (or_introl eq_refl))). intros [t|] s1.
  2: { intros [-> Hall]. apply wp_ret. split; [done|done| |done|].
    - exists q. split; [by rewrite insert_id|done].
    - intros q' Hq'. destruct (qs_inputs _ _ _ H) as (L & HL1 & _). destruct (HL1 p q Hp) as [Hl _]. assert (q' = q) as -> by congruence.
      apply (threads_empty (inputs s) q (L p) (proj1 Hl)). specialize (Hall _ Hl). destruct (L p) as [|x l]; [done|]. apply Forall_cons in Hall as [Hx _].
      unfold accepts in Hx. by destruct (disable_oob q). }
  intros [Hs1 Hf1 Hk1 (q1 & Eq1 & Ht1 & Hm1) (n & Hn & _) Hsz (Hw1 & Ha1 & Hi1)]. assert (tqueues s1 !! p = Some q1) as Hp1 by (rewrite Eq1; apply lookup_insert_eq).
  assert (forall s2, (exists ev, s2 = with_events ev s1) -> wp (free_task t ;; flush_loop fuel p show) (fun _ s' => flushed D X s p q s') s2) as Hrest.
  { intros s2 [ev ->]. apply wp_bind, wp_free_task. set (s3 := with_inputs _ _). assert (tqueues s3 !! p = Some q1) as Hp3 by done.
    assert (queues_ok D X s3) as Hs3 by (apply queues_free; [by apply queues_events|done]).
    eapply wp_mono; [apply (IH s3 q1 Hs3 Hp3)|].
    - assert (is_Some (inputs (with_events ev s1) !! t)) as Hin by (cbn; by eexists). pose proof (size_freed _ _ Hin) as Hsz3. fold s3 in Hsz3. cbn [inputs with_events] in Hsz3. lia.
    - intros _ s4 [Hg4 Hk4 (q4 & Eq4 & Ht4 & Hm4) (Hw4 & Ha4 & Hi4) He4]. split; [done| |exists q4; split; [|split]| |done].
      + etrans; [exact Hk1|]. etrans; [|exact Hk4]. by apply keeps_same.
      + rewrite Eq4. cbn [tqueues s3 with_inputs with_events]. rewrite Eq1. apply insert_insert_eq.
      + by eapply same_tasks_trans.
      + by eapply same_mode_trans.
      + rewrite Hw4, Ha4, Hi4. cbn [waiting_tasks active_tqueues idle_tqueues s3 with_inputs with_events]. by rewrite Hw1, Ha1, Hi1. }
  apply wp_bind. destruct show.
  - apply (wp_told s1 p q1); [done| |].
    + eexists. apply wp_bind, (wp_get_node _ _ _ _ _ n Hn). apply wp_bind, wp_this_tq. unfold tell, wp. cbn [nodes tq told]. reflexivity.
    + intros ev. apply Hrest. by exists ev.
  - apply wp_ret, Hrest. exists (events s1). by destruct s1.
Qed.

Lemma flushed_good D X s p q s' : accounts s -> tqueues s !! p = Some q -> flushed D X s p q s' -> good D X s s'.
Proof. intros H Hp [H1 Hk (q' & Eq & Ht & _) (Ew & _) _]. split; [|done]. split; [done|]. by apply (accounts_same s s' p q q'). Qed.

(** ** Adding a task *)

Lemma linked_qinput h q ev l t k input l' s' : qinput h q l -> t ∉ l -> l' ≡ₚ t :: l -> (k = TASK_QUOTED -> begins oob_quote_prefix input = true) ->
  linked h q ev l t k input l' s' -> qinput (nodes s') (tq s') l'.
Proof.
  intros (Hth & Htot & Hg) Htl Hperm Hk ((fi & li & ft & lt & Etq) & Hth' & Ht & Hc & _ & _).
  assert (forall y, y ∈ l -> contents (nodes s') y = contents h y) as Hc' by (intros y Hy; apply Hc; by intros ->).
  assert (forall h0 l1 l2, l1 ≡ₚ l2 -> lengths h0 l1 = lengths h0 l2) as Hlp by (intros h0; induction 1; cbn [lengths]; lia).
  assert (node_good (nodes s') t /\ length_of (nodes s') t = Z.of_nat (length input)) as [Hgt Hlt].
  { unfold contents in Ht. unfold node_good, length_of. destruct (nodes s' !! t) as [n|]; [|done]. injection Ht as E1 E2 E3. split; [|done]. exists n. split; [done|].
    rewrite E3, E2. split; [done|]. intros E. apply Hk. congruence. }
  split; [done|]. split.
  - rewrite (Hlp _ _ _ Hperm). cbn [lengths]. rewrite (lengths_contents h) by done. rewrite Etq, Hlt. cbn. lia.
  - rewrite Hperm. constructor; [done|]. rewrite Forall_forall in *. intros y Hy. apply (node_good_contents h); auto.
Qed.
Lemma input_kind_quoted input b i : input_kind input b i = TASK_QUOTED -> begins oob_quote_prefix input = true.
Proof. unfold input_kind. destruct b, i, (begins oob_quote_prefix input); try done. by destruct (begins oob_prefix input). Qed.

Definition wakes (q : tqueue) (k : task_kind) : bool := negb (hold_input q) || reading q || (negb (disable_oob q) && is_oob k).

Lemma wp_link D X s p q input at_front b i : sched D X s -> tqueues s !! p = Some q ->
  let k := input_kind input b i in
  wp (on_queue p (link_input_task input at_front k)) (fun _ s' => sched D (if wakes q k then {[p]} ∪ X else X) s' /\ keeps s s' /\
    exists q', tqueues s' !! p = Some q' /\ same_tasks q q' /\ same_mode q q') s.
Proof.
  intros H Hp k. destruct (sc_inputs _ _ _ H) as (L & HL1 & HL2 & HL3 & HL4). destruct (HL1 p q Hp) as [Hl _].
  apply (wp_on_queue p q _ _ _ Hp). destruct (link_input_ok (inputs s) q (events s) (L p) input at_front k) as (t & Htn & Hw); [apply Hl| |].
  { intros x Hx. destruct Hl as (_ & _ & Hg). rewrite Forall_forall in Hg. destruct (Hg x Hx) as (n & Hn & _). by eexists. }
  apply (wp_mono _ _ _ _ Hw). intros _ s' Hlk. set (l' := if at_front then t :: L p else L p ++ [t]) in *.
  assert (l' ≡ₚ t :: L p) as Hperm by (unfold l'; destruct at_front; [done|symmetry; apply Permutation_cons_append]).
  assert (t ∉ L p) as Htl.
  { intros Hin. destruct Hl as (_ & _ & Hg). rewrite Forall_forall in Hg. destruct (Hg t Hin) as (n & Hn & _). congruence. }
  pose proof (linked_qinput _ _ _ _ _ _ _ _ _ Hl Htl Hperm (input_kind_quoted input b i) Hlk) as Hl'. destruct Hlk as ((fi & li & ft & lt & Etq) & Hth' & Ht & Hc & Hother & _).
  assert (same_tasks q (tq s') /\ same_mode q (tq s')) as [Hst Hsm] by (rewrite Etq; repeat split). pose proof Hst as (F1 & F2 & F3 & F4).
  split; [|split; [by apply (keeps_put s p q)|exists (tq s'); split; [apply lookup_insert_eq|done]]].
  apply (sched_put D X D _ s p q); [done|done|done|done|by rewrite F3, F4| | | |].
  - rewrite F4. exact (proj2 (sc_count _ _ _ H p q Hp)).
  - intros r Hne. destruct (wakes q k); set_solver.
  - intros y Hy. assert (y <> t) as Hyt by (intros ->; destruct (HL4 t Hy); congruence). rewrite Hother; [by apply HL4|intros Hy'; by apply (HL3 p q y Hp)|done].
  - intros l Hl2 Hq2. rewrite (qinput_det _ _ _ _ Hl2 Hl) in *. exists l'. split; [done|]. split; [|split; [|split]].
    + intros Hi HX. destruct (wakes q k) eqn:Ew; [set_solver|]. specialize (Hq2 Hi HX). unfold wakes in Ew. apply orb_false_iff in Ew as [[Eh Er]%orb_false_iff Ek].
      destruct Hsm as (G1 & G2 & G3 & G4). assert (reading (tq s') = false) as Er' by (unfold reading in *; by rewrite G2). destruct Hq2 as (Hb & _ & Hacc).
      split; [congruence|]. split; [by rewrite Er'|]. rewrite Hperm.
      assert (forall x, accepts (tq s') (how_of (tq s')) x = accepts q (how_of q) x) as Eacc by (intros x; unfold accepts, how_of; by rewrite Er, Er', G3, G4).
      constructor.
      * rewrite Eacc. unfold accepts, how_of, oob. unfold contents in Ht. destruct (nodes s' !! t) as [n|]; [|done]. injection Ht as -> _ _.
        rewrite Er. apply negb_false_iff in Eh. rewrite Eh. by destruct (disable_oob q), (is_oob k).
      * rewrite Forall_forall in *. intros y Hy. rewrite Eacc, (oob_contents (inputs s)); [by apply Hacc|]. apply Hc. by intros ->.
    + intros y Hy. rewrite Hperm in Hy. apply elem_of_cons in Hy as [->|Hy].
      * split; [by right|]. intros Hd. destruct (HL4 t Hd). congruence.
      * split; [by left|]. by apply (HL3 p q y Hp).
    + by left.
    + intros y Hy [n Hn]. apply Hother; [done|]. intros ->. congruence.
Qed.

(** The input is suspended *)
Lemma wp_suspend D X s0 s p q (c : tqueue -> bool) : sched D X s -> keeps s0 s -> tqueues s !! p = Some q ->
  wp (on_queue p (let! q := this_tq in if c q then tell (SuspendInput (player q)) ;; set_tq (set_input_suspended true) else mreturn tt)) (fun _ => good D X s0) s.
Proof.
  intros H Hk Hp. apply (wp_on_queue p q _ _ _ Hp). apply wp_bind, wp_this_tq. destruct (c q).
  - apply wp_bind. unfold tell, wp at 1. apply wp_set_tq. cbn [nodes tq told]. apply (good_trans _ _ _ s _ Hk). set (e := events s ++ _).
    apply (good_trans _ _ _ (with_events e s)); [apply keeps_events|].
    apply (good_field D X (with_events e s) p q); [by apply sched_events|done|done|done|]. by intros l _ _ _.
  - apply wp_ret. cbn [nodes tq told]. rewrite put_queue_same by done. by split.
Qed.

Lemma wp_enqueue_input D X s p q input at_front b i : sched D X s -> tqueues s !! p = Some q ->
  wp (enqueue_input_task p input at_front b i) (fun _ => good D X s) s.
Proof.
  intros H Hp. unfold enqueue_input_task. apply wp_bind, (wp_mono _ _ _ _ (wp_link D X s p q input at_front b i H Hp)).
  intros _ s1 (Hs1 & Hk1 & q1 & Hp1 & Ht1 & (M1 & M2 & M3 & M4)). apply wp_bind, (wp_get_tq _ _ _ _ Hp1).
  assert (negb (hold_input q1) || reading q1 || (negb (disable_oob q1) && is_oob (input_kind input b i)) = wakes q (input_kind input b i)) as ->.
  { unfold wakes, reading. by rewrite M2, M3, M4. }
  apply wp_bind. destruct (wakes q _).
  - eapply wp_mono; [by apply (wp_ensure_X D X s s1 p q1)|]. intros _ s2 [Hs2 Hk2].
    destruct (kp_dom _ _ Hk2 p (mk_is_Some _ _ Hp)) as [q2 Hp2]. by apply (wp_suspend D X s s2 p q2).
  - apply wp_ret. by apply (wp_suspend D X s s1 p q1).
Qed.

(** ** The operations on queues keep the invariant *)
Local Open Scope Z_scope.
Local Open Scope moo_scope.

(** ** Input and options *)

Lemma good_lookup D X s s' p q : good D X s s' -> tqueues s !! p = Some q -> exists q', tqueues s' !! p = Some q'.
Proof. intros [_ Hk] Hp. by destruct (kp_dom _ _ Hk p (mk_is_Some _ _ Hp)) as [q' ?]; exists q'. Qed.

Lemma wp_task_suspend_input D X s p q : sched D X s -> tqueues s !! p = Some q -> wp (task_suspend_input p) (fun _ => good D X s) s.
Proof. intros H Hp. by apply (wp_suspend D X s s p q (fun q => negb (input_suspended q) && connected q)). Qed.

Lemma wp_notify_if s p q show line (Q : unit -> tstate -> Prop) : tqueues s !! p = Some q -> (forall ev, Q tt (with_events ev s)) -> wp (notify_if show p line) Q s.
Proof.
  intros Hp HQ. unfold notify_if. destruct show.
  - apply (wp_told s p q); [done| |done]. eexists. apply wp_bind, wp_this_tq. unfold tell, wp. cbn [nodes tq told]. reflexivity.
  - apply wp_ret. specialize (HQ (events s)). by destruct s.
Qed.
Lemma good_events D X s0 s ev : good D X s0 s -> good D X s0 (with_events ev s).
Proof. intros [H Hk]. split; [by apply sched_events|]. etrans; [exact Hk|apply keeps_events]. Qed.
Lemma wp_flush_input D X s p q show : sched D X s -> tqueues s !! p = Some q -> wp (flush_input p show) (fun _ => good D X s) s.
Proof.
  intros H Hp. unfold flush_input. wp_here. apply wp_bind, (wp_get_tq _ _ _ _ Hp). destruct (first_input q).
  - apply wp_bind, (wp_notify_if s p q); [done..|]. intros ev. destruct (good_events D X s s ev (good_refl D X s H)) as [H1 Hk1]. apply wp_bind.
    eapply wp_mono; [apply (wp_flush_loop D X p show _ _ q (sc_queues _ _ _ H1) Hp); cbn [inputs with_events]; lia|]. intros [] s2 Hfl.
    pose proof (flushed_good _ _ _ _ _ _ (sc_accounts _ _ _ H1) Hp Hfl) as Hg. destruct (fl_queue _ _ _ _ _ _ Hfl) as (q2 & Eq2 & _).
    assert (tqueues s2 !! p = Some q2) as Hp2 by (rewrite Eq2; apply lookup_insert_eq).
    apply (wp_notify_if s2 p q2); [done|]. intros ev2. apply good_events. by apply (good_trans _ _ _ _ _ Hk1).
  - apply (wp_notify_if s p q); [done|]. intros ev. by apply good_events, good_refl.
Qed.
Lemma wp_new_input_task D X s p q input b i : sched D X s -> tqueues s !! p = Some q -> wp (new_input_task p input b i) (fun _ => good D X s) s.
Proof.
  intros H Hp. unfold new_input_task. apply wp_bind, (wp_get_tq _ _ _ _ Hp).
  destruct (match flush_cmd q with Some c => _ | None => _ end); [by apply (wp_flush_input D X s p q)|by apply (wp_enqueue_input D X s p q)].
Qed.
Lemma sched_free D X s t : sched ({[t]} ∪ D) X s -> t ∉ D -> sched D X (with_inputs (delete t (inputs s)) s).
Proof. intros [H [H7 H8 H9 H10]] Ht. split; [by apply queues_free|by split]. Qed.
Lemma taken_free D X s p q t s' : accounts s -> tqueues s !! p = Some q -> taken D X s p q t s' -> good D X s (with_inputs (delete t (inputs s')) s').
Proof.
  intros H Hp Htk. pose proof (taken_sched _ _ _ _ _ _ _ H Hp Htk) as Hs. destruct Htk as [_ H2 H3 _ _ _ _]. split; [by apply sched_free|]. etrans; [exact H3|]. by apply keeps_same.
Qed.

Lemma wp_read_input_now D X s who : sched D X s -> wp (read_input_now who) (fun _ => good D X s) s.
Proof.
  intros H. apply wp_bind, (wp_find_tqueue D X); [done|]. intros [p|] Hr; [|by apply wp_ret, good_refl]. destruct Hr as (q & Hp & _).
  apply wp_bind, (wp_get_tq _ _ _ _ Hp). destruct (is_out_of_input q); [by apply wp_ret, good_refl|].
  apply wp_bind, (wp_mono _ _ _ _ (wp_dequeue D X s p q DQ_INBAND (sc_queues _ _ _ H) Hp (or_intror (or_intror eq_refl)))). intros [t|] s1.
  - intros Htk. pose proof (taken_free _ _ _ _ _ _ _ (sc_accounts _ _ _ H) Hp Htk) as Hg. destruct Htk as [_ _ _ (q1 & Eq1 & _) (n & Hn & _) _ _].
    assert (tqueues s1 !! p = Some q1) as Hp1 by (rewrite Eq1; apply lookup_insert_eq). apply wp_bind, (wp_on_queue p q1 _ _ _ Hp1).
    apply (wp_get_node _ _ _ _ _ n Hn). cbn [nodes tq told]. rewrite put_queue_same by done. by apply wp_bind, wp_free_task, wp_ret.
  - intros [-> _]. by apply wp_ret, good_refl.
Qed.
Lemma wp_make_reading_task D X s v who : sched D X s -> wp (make_reading_task v who) (fun _ => good D X s) s.
Proof.
  intros H. apply wp_bind, (wp_find_tqueue D X); [done|]. intros [p|] Hr; [|by apply wp_ret, good_refl]. destruct Hr as (q & Hp & _).
  apply wp_bind, (wp_get_tq _ _ _ _ Hp). destruct (reading q || is_out_of_input q) eqn:Ec; [by apply wp_ret, good_refl|]. apply orb_false_iff in Ec as [_ Eo].
  apply wp_bind, (wp_update_tq _ _ q _ _ Hp). assert (tqueues (with_tqueues (<[p := set_reading_vm (Some v) q]> (tqueues s)) s) !! p = Some (set_reading_vm (Some v) q)) as Hp1 by apply lookup_insert_eq.
  apply wp_bind. destruct (first_input q) eqn:Ef.
  - destruct (sched_field_X D X s p q (set_reading_vm (Some v) q)) as [H1 Hk1]; [done..|].
    eapply wp_mono; [exact (wp_ensure_X D X s _ p _ Hk1 H1 Hp1)|]. intros [] s2 Hg. by apply wp_ret.
  - apply wp_ret, wp_ret. apply (good_field D X s p q); [done..|]. intros l Hl _ _ (Hb & _ & _). split; [done|]. split; [done|].
    rewrite (proj1 (threads_empty _ _ _ (proj1 Hl)) Ef). constructor.
Qed.

Lemma wp_set_hold D X s p q value : sched D X s -> tqueues s !! p = Some q -> wp (set_hold p value) (fun _ => good D X s) s.
Proof.
  intros H Hp. apply wp_bind, (wp_update_tq _ _ q _ _ Hp). apply wp_bind. eapply wp_get_tq; [apply lookup_insert_eq|].
  destruct (negb value && bool_decide (is_Some (first_input q))) eqn:Ec; cbn [first_input set_hold_input]; rewrite Ec.
  - destruct (sched_field_X D X s p q (set_hold_input value q)) as [H1 Hk1]; [done..|]. eapply (wp_ensure_X D X s _ p); [done|done|apply lookup_insert_eq].
  - apply wp_ret. apply (good_field D X s p q); [done..|]. intros l Hl _ _ (Hb & Hr & Hacc). split; [done|]. split; [done|]. destruct value.
    + rewrite Forall_forall in *. intros x Hx. specialize (Hacc x Hx). revert Hacc. unfold accepts, how_of, reading. cbn [hold_input disable_oob reading_vm set_hold_input].
      destruct (bool_decide _), (hold_input q), (disable_oob q), (oob (inputs s) x); done.
    + assert (first_input q = None) as Ef by (by destruct (first_input q)). rewrite (proj1 (threads_empty _ _ _ (proj1 Hl)) Ef). constructor.
Qed.

(** What [disable-oob] looks for: an out-of-band task *)
Lemma wp_has_oob h q ev l (Q : bool -> qstate -> Prop) : threads h q l -> (forall b, (b = false -> Forall (fun x => oob h x = false) l) -> Q b (mk_qstate h q ev)) ->
  wp (match first_input q, first_itail q with
      | Some f, Some e => let! ne := get_node e in let! nf := get_node f in mreturn (bool_decide (is_Some (next ne)) || is_oob (kind nf))
      | Some _, None => mfail
      | None, _ => mreturn false
      end) Q (mk_qstate h q ev).
Proof.
  intros Hth HQ. pose proof Hth as [_ Hs _ Ht _]. destruct l as [|x l].
  { cbn [seg] in Hs. rewrite Hs. apply wp_ret, HQ. intros _. constructor. }
  destruct (run_split (oob h) x l) as (l1 & e & rest & El & Hrun & Hke & Hrest). pose proof Hs as (Ef & a & Ha & _). rewrite Ef. unfold nxt in Ha.
  destruct (h !! x) as [nx|] eqn:Hx; [|done]. clear Ha a. rewrite El in *. assert (first_itail q = Some e) as ->.
  { destruct rest as [|y rest]; [rewrite ends_run_only in Ht by done|rewrite ends_run in Ht by congruence]; by destruct Ht. }
  apply seg_app in Hs as (b & _ & -> & c & Hc & Hs). unfold nxt in Hc. destruct (h !! e) as [ne|] eqn:Hne; [|done]. injection Hc as Hc.
  apply wp_bind, (wp_get_node _ _ _ _ _ ne Hne). apply wp_bind, (wp_get_node _ _ _ _ _ nx Hx). apply wp_ret, HQ. intros [E1 E2]%orb_false_iff.
  destruct rest as [|y rest]; [|cbn [seg] in Hs; destruct Hs as [-> _]; rewrite Hc in E1; done].
  assert (oob h x = false) as Eox by (unfold oob; by rewrite Hx). apply Forall_app. split; [|by constructor; [congruence|constructor]].
  eapply Forall_impl; [exact Hrun|]. cbv beta. congruence.
Qed.
Lemma wp_set_oob D X s p q value : sched D X s -> tqueues s !! p = Some q -> wp (set_oob p value) (fun _ => good D X s) s.
Proof.
  intros H Hp. destruct (sc_inputs _ _ _ H) as (L & HL1 & _). destruct (HL1 p q Hp) as [Hl _].
  apply wp_bind, (wp_update_tq _ _ q _ _ Hp). set (q1 := set_disable_oob value q). set (s1 := with_tqueues _ _). assert (tqueues s1 !! p = Some q1) as Hp1 by apply lookup_insert_eq.
  apply wp_bind, (wp_get_tq _ _ _ _ Hp1). apply wp_bind, (wp_on_queue p q1 _ _ _ Hp1). apply (wp_has_oob (inputs s1) q1 (events s1) (L p)); [by apply (threads_fields _ q), Hl|].
  intros b Hb. cbn [nodes tq told]. rewrite put_queue_same by done. destruct (negb value && b) eqn:Ec.
  - destruct (sched_field_X D X s p q q1) as [H1 Hk1]; [done..|]. by apply (wp_ensure_X D X s _ p q1).
  - apply wp_ret. apply (good_field D X s p q); [done..|]. intros l Hl2 _ _ (Hbg & Hr & Hacc). rewrite (qinput_det _ _ _ _ Hl2 Hl) in *.
    split; [done|]. split; [done|]. unfold accepts, how_of, reading in *. cbn [hold_input disable_oob reading_vm set_disable_oob q1].
    rewrite Forall_forall in *. intros x Hx. specialize (Hacc x Hx). destruct value; cbn [negb andb] in Ec; [|subst b; specialize (Hb eq_refl x Hx)].
    + by destruct (hold_input q && negb (bool_decide (is_Some (reading_vm q)))), (disable_oob q), (oob (inputs s) x).
    + change (inputs s1) with (inputs s) in Hb. rewrite Hb in *. by destruct (hold_input q && negb (bool_decide (is_Some (reading_vm q)))), (disable_oob q).
Qed.

Section queues.
Context (dfc : option bytes).

Lemma wp_new_task_queue D X s who handler : sched D X s -> wp (new_task_queue dfc who handler) (fun _ => good D X s) s.
Proof.
  intros H. apply wp_bind, (wp_find_or_create dfc D X); [done|]. intros p s1 [Hs1 Hk (q & Hq & Hpl) _ Hrest].
  apply wp_bind, (wp_update_tq _ _ q _ _ Hq), wp_ret. apply (good_trans _ _ _ s1 _ Hk). apply (good_field D X s1 p q); [done..|].
  intros l Hl _ _ (Hb & Hr & Hacc). by split.
Qed.
Lemma wp_free_task_queue D X s p q : sched D X s -> tqueues s !! p = Some q -> wp (free_task_queue p) (fun _ => good D X s) s.
Proof.
  intros H Hp. apply wp_bind, (wp_update_tq _ _ q _ _ Hp). apply wp_bind. eapply wp_get_tq; [apply lookup_insert_eq|].
  change (reading (set_connected false q)) with (reading q). destruct (reading q) eqn:Er.
  - destruct (sched_field_X D X s p q (set_connected false q)) as [H1 Hk1]; [done..|]. eapply (wp_ensure_X D X s _ p); [done|done|apply lookup_insert_eq].
  - apply wp_ret. apply (good_field D X s p q); [done..|]. intros l Hl _ _ (Hb & _ & Hacc). split; [done|]. split; [|done]. change (reading (set_connected false q)) with (reading q). by rewrite Er.
Qed.
Lemma wp_bf_force_input D X s conn line at_front progr : sched D X s -> wp (bf_force_input dfc conn line at_front progr) (fun _ => good D X s) s.
Proof.
  intros H. unfold bf_force_input. apply wp_if; intros _; [by apply good_refl|]. apply wp_bind, (wp_find_or_create dfc D X); [done|].
  intros p s1 [Hs1 Hk (q & Hq & Hpl) _ Hrest]. apply wp_bind. eapply wp_mono; [by apply (wp_enqueue_input D X s1 p q)|]. intros [] s2 Hg. apply wp_ret. by eapply good_trans.
Qed.
Lemma wp_bf_flush_input D X s conn show progr : sched D X s -> wp (bf_flush_input dfc conn show progr) (fun _ => good D X s) s.
Proof.
  intros H. unfold bf_flush_input. apply wp_if; intros _; [by apply good_refl|]. apply wp_bind, (wp_find_or_create dfc D X); [done|].
  intros p s1 [Hs1 Hk (q & Hq & Hpl) _ Hrest]. apply wp_bind. eapply wp_mono; [by apply (wp_flush_input D X s1 p q)|]. intros [] s2 Hg. apply wp_ret. by eapply good_trans.
Qed.
End queues.

(** ** Killing and resuming *)

Lemma wp_kill_reading D X s p q by_wizard owner : sched D X s -> tqueues s !! p = Some q -> wp (kill_reading p by_wizard owner) (fun _ => good D X s) s.
Proof.
  intros H Hp. apply wp_bind, (wp_get_tq _ _ _ _ Hp). destruct (_ && _); [by apply wp_ret, good_refl|].
  apply wp_bind, (wp_update_tq _ _ q _ _ Hp), wp_ret. apply (good_field D X s p q); [done..|]. intros l Hl _ _ Hq. destruct Hq as (Hb & Hr & Hacc).
  split; [done|]. split; [done|]. destruct (reading q) eqn:Er.
  - destruct (reading_quiet _ _ _ Hl (conj Hb (conj (fun _ => Hr eq_refl) Hacc)) Er) as [-> _]. constructor.
  - unfold how_of in *. rewrite Er in Hacc. exact Hacc.
Qed.

(** One of the ready tasks of an active queue goes, or changes *)
Lemma good_active_bg D X s p q n ts : sched D X s -> tqueues s !! p = Some q -> p ∈ active_tqueues s ->
  n - Z.of_nat (length ts) = num_bg_tasks q - Z.of_nat (length (first_bg q)) -> Forall (fun t => progr_of t = player q /\ 0 <= progr_of t) ts ->
  good D X s (with_bg p q n ts (waiting_tasks s) s).
Proof.
  intros H Hp Ha Hn Hts. split; [|by apply keeps_with_bg]. destruct (sc_count _ _ _ H p q Hp) as [Hc _].
  apply (sched_with_bg D X); [done|done|apply H|lia|done|done|by left|done|]. intros Hi. destruct (sched_apart D X s p H Ha Hi).
Qed.
Lemma Forall_extract {A} (P : A -> Prop) f l x l' : extract f l = Some (x, l') -> Forall P l -> Forall P l'.
Proof. intros Hx Hl. rewrite (extract_perm _ _ _ _ Hx) in Hl. by apply Forall_cons in Hl as [_ Hl]. Qed.
Lemma bg_of_lookup s p q : tqueues s !! p = Some q -> bg_of s p = first_bg q.
Proof. unfold bg_of. by intros ->. Qed.
Lemma active_lookup D X s p : sched D X s -> p ∈ active_tqueues s -> exists q, tqueues s !! p = Some q.
Proof. intros H Ha. destruct (proj1 (sc_dom _ _ _ H p)) as [q Hq]; [apply elem_of_app; by left|by exists q]. Qed.
Lemma idle_lookup D X s p : sched D X s -> p ∈ idle_tqueues s -> exists q, tqueues s !! p = Some q.
Proof. intros H Ha. destruct (proj1 (sc_dom _ _ _ H p)) as [q Hq]; [apply elem_of_app; by right|by exists q]. Qed.

Lemma wp_kill_active ext D X s id owner by_wizard ps : sched D X s -> (forall p, p ∈ ps -> p ∈ active_tqueues s) ->
  wp (kill_active ext id owner by_wizard ps) (fun _ => good D X s) s.
Proof.
  intros H. induction ps as [|p ps IH]; intros Hin; cbn [kill_active]; [by apply wp_ret, good_refl|].
  assert (p ∈ active_tqueues s) as Ha by (apply Hin; by left). destruct (active_lookup D X s p H Ha) as [q Hp].
  unfold wp. destruct (reading_id s id p); [exact (wp_kill_reading D X s p q by_wizard owner H Hp)|]. rewrite (bg_of_lookup s p q Hp).
  destruct (extract (has_id id) (first_bg q)) as [[t rest]|] eqn:Ex; [|apply IH; intros r Hr; apply Hin; by right].
  match goal with |- match ?m s with _ => _ end => change (wp m (fun _ => good D X s) s) end.
  apply wp_bind, (wp_get_tq _ _ _ _ Hp). destruct (_ && _); [by apply wp_ret, good_refl|].
  apply wp_bind, (wp_update_tq _ _ q _ _ Hp), wp_ret. assert (forall x, x = with_bg p q (num_bg_tasks q - 1) rest (waiting_tasks s) s -> good D X s x) as Hg.
  { intros x ->. destruct (sc_count _ _ _ H p q Hp) as [_ Hf]. apply good_active_bg; [done..| |by eapply Forall_extract].
    apply extract_perm, Permutation_length in Ex. cbn [length] in Ex. lia. }
  apply Hg. unfold with_bg. destruct s; done.
Qed.
Lemma wp_kill_task ext D X s id owner : sched D X s -> wp (kill_task ext id owner) (fun _ => good D X s) s.
Proof.
  intros H. unfold kill_task, wp. destruct (id =? current_task_id s); [by apply good_refl|].
  destruct (extract (has_id id) (waiting_tasks s)) as [[t rest]|] eqn:Ex.
  - destruct (_ && _); [by apply good_refl|]. match goal with |- match ?m s with _ => _ end => change (wp m (fun _ => good D X s) s) end.
    pose proof (extract_perm _ _ _ _ Ex) as Hperm. assert (t ∈ waiting_tasks s) as Ht by (rewrite Hperm; by left). destruct (sc_owner _ _ _ H t Ht) as [Hpos (r & qr & Hr & Hpr)].
    apply wp_bind, (wp_find_tqueue D X); [done|]. intros [p|] Hf; [|by destruct (Hf r qr Hr)]. destruct Hf as (q & Hp & Hpl).
    apply wp_bind, (wp_update_tq _ _ q _ _ Hp). apply wp_bind, wp_tmodify, wp_ret. destruct (sc_count _ _ _ H p q Hp) as [Hc Hf].
    rewrite (count_of_perm _ _ _ Hperm), count_of_cons, decide_True in Hc by done.
    change (good D X s (with_bg p q (num_bg_tasks q - 1) (first_bg q) rest s)). split; [|by apply keeps_with_bg].
    apply (sched_with_bg D X); [done|done|by eapply extract_sorted, H|lia|done| | |done|].
    + intros who Hne. rewrite (count_of_perm _ _ _ Hperm), count_of_cons, decide_False; [done|congruence].
    + intros t1 Ht1. left. rewrite Hperm. by right.
    + intros Hi Hx. split; [done|]. destruct (sc_inputs _ _ _ H) as (L & HL & _). by destruct (HL p q Hp) as [_ [Hb _]].
  - destruct (List.find _ _) as [p|] eqn:Ef; [|by apply (wp_kill_active ext D X)].
    apply List.find_some in Ef as [Hin _]. apply list_elem_of_In in Hin. destruct (idle_lookup D X s p H Hin) as [q Hp]. exact (wp_kill_reading D X s p q _ _ H Hp).
Qed.

Lemma revalue_progr id value ts : map progr_of (revalue id value ts) = map progr_of ts.
Proof. induction ts as [|t ts IH]; [done|]. cbn [revalue]. destruct (suspended_id id t); cbn [map]; [f_equal; by destruct t|by rewrite IH]. Qed.
Lemma Forall_progr (P : Z -> Prop) ts ts' : map progr_of ts = map progr_of ts' -> Forall (fun t => P (progr_of t)) ts -> Forall (fun t => P (progr_of t)) ts'.
Proof. rewrite <- !(Forall_map progr_of). by intros ->. Qed.

Lemma wp_resume_active D X s id value progr ps : sched D X s -> (forall p, p ∈ ps -> p ∈ active_tqueues s) ->
  wp (resume_active id value progr ps) (fun _ => good D X s) s.
Proof.
  intros H. induction ps as [|p ps IH]; intros Hin; cbn [resume_active]; [by apply wp_ret, good_refl|].
  assert (p ∈ active_tqueues s) as Ha by (apply Hin; by left). destruct (active_lookup D X s p H Ha) as [q Hp].
  unfold wp. destruct (existsb _ _); [|apply IH; intros r Hr; apply Hin; by right].
  match goal with |- match ?m s with _ => _ end => change (wp m (fun _ => good D X s) s) end.
  apply wp_bind, (wp_get_tq _ _ _ _ Hp). destruct (_ && _); [by apply wp_ret, good_refl|].
  apply wp_bind, (wp_update_tq _ _ q _ _ Hp), wp_ret. assert (forall x, x = with_bg p q (num_bg_tasks q) (revalue id value (first_bg q)) (waiting_tasks s) s -> good D X s x) as Hg.
  { intros x ->. destruct (sc_count _ _ _ H p q Hp) as [_ Hf]. pose proof (revalue_progr id value (first_bg q)) as Em. apply good_active_bg; [done..| |].
    - apply (f_equal length) in Em. rewrite !length_map in Em. by rewrite Em.
    - by apply (Forall_progr (fun z => z = player q /\ 0 <= z) (first_bg q)). }
  apply Hg. unfold with_bg. by destruct s, q.
Qed.
Lemma wp_do_resume dfc D X s now id value progr : sched D X s -> wp (do_resume dfc now id value progr) (fun _ => good D X s) s.
Proof.
  intros H. unfold do_resume, wp. destruct (extract (suspended_id id) (waiting_tasks s)) as [[t rest]|] eqn:Ex; [|by apply (wp_resume_active D X)].
  destruct (_ && _); [by apply good_refl|]. match goal with |- match ?m s with _ => _ end => change (wp m (fun _ => good D X s) s) end.
  apply wp_bind, (wp_find_or_create dfc D X); [done|]. intros p s1 [Hs1 Hk (q & Hq & Hpl) _ (_ & _ & Ew & _)]. apply wp_bind, wp_tmodify.
  set (s2 := with_waiting rest s1). assert (with_waiting (waiting_tasks s) s2 = s1) as E2 by (rewrite <- Ew; by destruct s1).
  assert (forall m : M tstate error, m = (ensure_usage p ;; enqueue_bg_task p (with_value value (Some now) t) ;; mreturn E_NONE) ->
    wp m (fun _ => good D X s) s2) as Hm; [|by apply Hm].
  intros m ->. assert (wp (ensure_usage p ;; enqueue_bg_task p (with_value value (Some now) t)) (fun _ s' => good D X s2 (with_waiting rest s') /\ waiting_tasks s' = rest) s2) as Hr.
  { pose proof (wp_ready D X t (with_value value (Some now) t) (waiting_tasks s) rest s2 p q) as Hr. rewrite E2 in Hr.
    specialize (Hr Hs1 (extract_perm _ _ _ _ Ex) (extract_sorted _ _ _ _ _ Ex (sc_waiting _ _ _ H)) Hq Hpl). assert (progr_of (with_value value (Some now) t) = progr_of t) as Et by (by destruct t).
    specialize (Hr Et). assert (indep (ensure_usage p ;; enqueue_bg_task p (with_value value (Some now) t))) as Hi.
    { apply indep_bind; [apply indep_ensure_usage|intros _; apply indep_enqueue_bg]. }
    match type of Hi with indep ?m => set (m2 := m) in * end. unfold wp in *. destruct (m2 s2) as [[x s3]|] eqn:E3; [|done]. split; [done|]. pose proof (Hi rest s2) as Hi2. change (with_waiting rest s2) with s2 in Hi2. rewrite E3 in Hi2. injection Hi2 as Hi2. rewrite Hi2. done. }
  apply wp_bind. apply wp_elim in Hr as ([] & s3 & E3 & Hg & Ew3). apply mbind_inv in E3 as ([] & s4 & E4 & E3). eapply wp_intro; [exact E4|].
  apply wp_bind. eapply wp_intro; [exact E3|]. apply wp_ret. rewrite <- Ew3, with_waiting_id in Hg. apply (good_trans _ _ _ s2); [|done].
  etrans; [exact Hk|]. by apply keeps_same.
Qed.
