(* ===== verification/TaskCall.v ===== *)
(** * What the code of a task may do to the queues

    A call is an operation of this module that other code makes: built-in
    functions, the machine that runs a task, the server.  [may]: what it is
    called with.  Each call gives a result and keeps the invariant. *)
From Stdlib Require Import ZArith Lia Sorting.Sorted.
From stdpp Require Import prelude gmap sorting.
From S2P Require Import Prelude CString Value ObjCode ObjFun TaskInput TaskCode TaskSpec TaskKeep TaskOps.

(** ** A queue changes its player *)
Local Open Scope Z_scope.
Local Open Scope moo_scope.

(** ** Moving the ready tasks *)

Definition moved_bg (from to : positive) (qf qt : tqueue) (s : tstate) : tstate :=
  with_tqueues (<[to := set_first_bg (first_bg qt ++ first_bg qf) qt]> (<[from := set_bg (num_bg_tasks qf - Z.of_nat (length (first_bg qf))) [] qf]> (tqueues s))) s.

Lemma wp_move_bg fuel from to : from <> to -> forall s qf qt (Q : unit -> tstate -> Prop), tqueues s !! from = Some qf -> tqueues s !! to = Some qt ->
  (length (first_bg qf) < fuel)%nat -> Q tt (moved_bg from to qf qt s) -> wp (move_bg fuel from to) Q s.
Proof.
  intros Hne. induction fuel as [|fuel IH]; intros s qf qt Q Hf Ht Hfuel HQ; [lia|]. cbn [move_bg]. apply wp_bind. unfold dequeue_bg_task. apply wp_bind, (wp_get_tq _ _ _ _ Hf).
  destruct (first_bg qf) as [|t ts] eqn:Ebg.
  - apply wp_ret, wp_ret. unfold moved_bg in HQ. rewrite Ebg, app_nil_r in HQ. cbn [length] in HQ. rewrite Z.sub_0_r in HQ.
    assert (set_bg (num_bg_tasks qf) [] qf = qf) as E1 by (rewrite <- Ebg; by destruct qf). assert (set_first_bg (first_bg qt) qt = qt) as E2 by (by destruct qt).
    rewrite E1, E2, (insert_id (tqueues s) from qf Hf), (insert_id (tqueues s) to qt Ht) in HQ. by destruct s.
  - apply wp_bind, (wp_update_tq _ _ qf _ _ Hf), wp_ret. apply wp_bind. cbn [length] in Hfuel.
    eapply (wp_enqueue_bg to t _ qt); [cbn; rewrite lookup_insert_ne by done; done|].
    eapply (IH _ (set_bg (num_bg_tasks qf - 1) ts qf) (set_first_bg (first_bg qt ++ [t]) qt)).
    + cbn. rewrite lookup_insert_ne by done. apply lookup_insert_eq.
    + cbn. apply lookup_insert_eq.
    + cbn. lia.
    + assert (forall x, x = moved_bg from to qf qt s -> Q tt x) as HQ' by (intros x ->; done). apply HQ'. unfold moved_bg, with_tqueues. cbn. f_equal.
      rewrite Ebg. rewrite (insert_insert_ne _ from to) by done. rewrite !insert_insert_eq. unfold set_bg, set_num_bg_tasks, set_first_bg. cbn.
      rewrite <- app_assoc. cbn [app length].
      by replace (num_bg_tasks qf - 1 - Z.of_nat (length ts)) with (num_bg_tasks qf - Z.of_nat (S (length ts))) by lia.
Qed.
Lemma wp_move_none fuel from to s q (Q : unit -> tstate -> Prop) : tqueues s !! from = Some q -> first_bg q = [] -> Q tt s -> wp (move_bg (S fuel) from to) Q s.
Proof. intros Hf Hb HQ. cbn [move_bg]. apply wp_bind. unfold dequeue_bg_task. apply wp_bind, (wp_get_tq _ _ _ _ Hf). rewrite Hb. by apply wp_ret, wp_ret. Qed.

(** ** The accounts after it *)

Lemma accounts_switched s s' p q' new old : accounts s -> waiting_tasks s' = waiting_tasks s -> tqueues s' !! p = Some q' -> player q' = new -> new <> NOTHING ->
  num_bg_tasks q' = Z.of_nat (length (first_bg q')) + count_of new (waiting_tasks s) -> Forall (fun t => progr_of t = new /\ 0 <= progr_of t) (first_bg q') ->
  (forall r qr, tqueues s' !! r = Some qr -> r = p \/ (player qr = NOTHING /\ num_bg_tasks qr = 0 /\ first_bg qr = []) \/
     (r <> p /\ exists q0, tqueues s !! r = Some q0 /\ same_tasks q0 qr /\ player qr <> new /\ player qr <> old) \/
     (player qr = old /\ num_bg_tasks qr = count_of old (waiting_tasks s) /\ first_bg qr = [] /\ forall r' qr', tqueues s' !! r' = Some qr' -> player qr' = old -> r' = r)) ->
  (forall t, t ∈ waiting_tasks s -> exists r qr, tqueues s' !! r = Some qr /\ player qr = progr_of t) -> new <> old ->
  accounts s'.
Proof.
  intros [H7 H8 H9 H10] Ew Hp Hpl Hnew Hn Hf Hall Howner Hno.
  assert (forall r qr, tqueues s' !! r = Some qr -> player qr <> NOTHING -> r = p \/ (player qr = old /\ forall r' qr', tqueues s' !! r' = Some qr' -> player qr' = old -> r' = r) \/
     (exists q0, tqueues s !! r = Some q0 /\ player q0 = player qr /\ player qr <> new /\ player qr <> old)) as Hcase.
  { intros r qr Hr Hne. destruct (Hall r qr Hr) as [->|[(E & _)|[(Hrp & q0 & Hq0 & (E & _) & A & B)|(E & _ & _ & Hu)]]]; [by left|done| |].
    - right; right. by exists q0.
    - right; left. by split. }
  split; rewrite ?Ew; [|exact H8| |].
  - intros r r' qr qr' Hr Hr' E Hne. destruct (Hcase r qr Hr Hne) as [->|[[Eo Hu]|(q0 & Hq0 & E0 & Hn0 & Ho0)]].
    + assert (player qr = new) as E1 by congruence. rewrite E in Hne. destruct (Hcase r' qr' Hr' Hne) as [->|[[Eo _]|(q1 & _ & _ & Hn1 & _)]]; [done|congruence|congruence].
    + symmetry. apply (Hu r' qr' Hr'). congruence.
    + rewrite E in Hne. destruct (Hcase r' qr' Hr' Hne) as [->|[[Eo _]|(q1 & Hq1 & E1 & _)]]; [congruence|congruence|]. apply (H7 r r' q0 q1 Hq0 Hq1); congruence.
  - intros r qr Hr. destruct (Hall r qr Hr) as [->|[(E & E2 & E3)|[(Hrp & q0 & Hq0 & (E & _ & E2 & E3) & _)|(E & E2 & E3 & _)]]].
    + assert (qr = q') as -> by congruence. rewrite Hpl. by split.
    + rewrite E, E2, E3. split; [|constructor]. unfold count_of. destruct (filter _ (waiting_tasks s)) as [|t ts] eqn:Ef; [done|].
      assert (t ∈ filter (fun t => progr_of t = NOTHING) (waiting_tasks s)) as Ht by (rewrite Ef; by left). apply list_elem_of_filter in Ht as [Ht Hin].
      pose proof (proj1 (H10 t Hin)). unfold NOTHING in Ht. lia.
    + rewrite E, E2, E3. exact (H9 r q0 Hq0).
    + rewrite E, E2, E3. split; [done|constructor].
  - intros t Ht. split; [exact (proj1 (H10 t Ht))|by apply Howner].
Qed.

Section switch.
Context (dfc : option bytes) (D X : gset positive).

(** Once the queue has its new player, and the tasks that wait for the old
    one their queue *)
Record renamed (s : tstate) (p : positive) (q : tqueue) (old new : Z) (s1 : tstate) : Prop := {
  rn_queues : queues_ok D X s1;
  rn_keeps : keeps s s1;
  rn_queue : tqueues s1 !! p = Some (set_num_bg_tasks 0 (set_player new q));
  rn_kept : forall r qr, r <> p -> tqueues s !! r = Some qr -> tqueues s1 !! r = Some qr;
  rn_old : forall r qr, r <> p -> tqueues s1 !! r = Some qr -> tqueues s !! r = Some qr \/
    (tqueues s !! r = None /\ player qr = old /\ num_bg_tasks qr = num_bg_tasks q /\ first_bg qr = [] /\
     forall r' qr', r' <> p -> tqueues s1 !! r' = Some qr' -> tqueues s !! r' = None -> r' = r);
  rn_owner : num_bg_tasks q <> 0 -> exists r qr, r <> p /\ tqueues s1 !! r = Some qr /\ player qr = old;
  rn_rest : waiting_tasks s1 = waiting_tasks s /\ active_tqueues s1 = active_tqueues s /\ inputs s1 = inputs s }.

Lemma found_renamed s p q new old ps : sched D X s -> tqueues s !! p = Some q -> player q = old -> old <> new -> old <> NOTHING ->
  found_in (with_tqueues (<[p := set_player new q]> (tqueues s)) s) old ps = None.
Proof.
  intros H Hp Hpl Hno Hnn. destruct (found_in _ old ps) as [r|] eqn:Ef; [|done]. apply found_in_Some in Ef as [_ (qr & Hr & Hqr)]. cbn in Hr.
  destruct (decide (r = p)) as [->|Hne]; [rewrite lookup_insert_eq in Hr; injection Hr as <-; by destruct Hno|]. rewrite lookup_insert_ne in Hr by done.
  destruct Hne. apply (sc_players _ _ _ H r p qr q); [done|done|congruence|congruence].
Qed.

Lemma wp_rename s p q old new (k : M tstate unit) Q : sched D X s -> tqueues s !! p = Some q -> player q = old -> old <> new -> num_bg_tasks q = 0 \/ old <> NOTHING -> first_bg q = [] ->
  (forall s1, renamed s p q old new s1 -> wp k Q s1) ->
  wp (update_tq p (set_player new) ;;
      let! q := get_tq p in
      (if num_bg_tasks q =? 0 then mreturn tt
       else
         let! oldq := find_or_create dfc old in
         update_tq oldq (set_num_bg_tasks (num_bg_tasks q)) ;;
         move_bg (S (length (first_bg q))) p oldq ;;
         update_tq p (set_num_bg_tasks 0)) ;; k) Q s.
Proof.
  intros H Hp Hpl Hno Hnn Hbg Hk. set (q1 := set_player new q). set (s1 := with_tqueues (<[p := q1]> (tqueues s)) s).
  assert (tqueues s1 !! p = Some q1) as Hp1 by apply lookup_insert_eq.
  assert (queues_ok D X s1) as Hs1.
  { apply (queues_field D X X s p q q1); [apply H|done|done|done|auto|]. intros l _ Hi Hx Hq. by apply Hq. }
  assert (keeps s s1) as Hk1 by (unfold s1; rewrite <- put_queue_fields; by apply (keeps_put s p q)).
  apply wp_bind, (wp_update_tq _ _ q _ _ Hp). fold q1 s1. apply wp_bind, (wp_get_tq _ _ _ _ Hp1). apply wp_bind. change (num_bg_tasks q1) with (num_bg_tasks q).
  change (first_bg q1) with (first_bg q). rewrite Hbg. destruct (num_bg_tasks q =? 0) eqn:En; [apply Z.eqb_eq in En|apply Z.eqb_neq in En].
  - apply wp_ret, Hk. split; [done|done| | | |done|done].
    + rewrite Hp1. unfold q1. f_equal. destruct q. cbn in *. by subst.
    + intros r qr Hne Hr. cbn. by rewrite lookup_insert_ne.
    + intros r qr Hne Hr. left. cbn in Hr. by rewrite lookup_insert_ne in Hr.
  - apply wp_bind. unfold find_or_create. apply wp_bind. eapply wp_intro; [unfold find_tqueue; reflexivity|].
    destruct Hnn as [|Hnn]; [done|]. rewrite !(found_renamed s p q new old) by done. apply wp_create. set (p0 := fresh (dom (tqueues s1))). set (s2 := created dfc s1 old).
    assert (tqueues s1 !! p0 = None) as Hp0 by (apply not_elem_of_dom, is_fresh). assert (p0 <> p) as Hne0 by (intros E; congruence).
    assert (tqueues s2 = <[p0 := new_tqueue dfc old]> (tqueues s1)) as E2 by done.
    assert (tqueues s2 !! p0 = Some (new_tqueue dfc old)) as Hq0 by (rewrite E2; apply lookup_insert_eq).
    apply wp_bind, (wp_update_tq _ _ _ _ _ Hq0). set (s3 := with_tqueues _ _). set (q0 := set_num_bg_tasks (num_bg_tasks q) (new_tqueue dfc old)) in *.
    assert (tqueues s3 = <[p0 := q0]> (<[p := q1]> (tqueues s))) as E3 by (cbn [tqueues s3 with_tqueues]; rewrite E2; by rewrite insert_insert_eq).
    assert (tqueues s3 !! p = Some q1) as Hp3 by (rewrite E3, lookup_insert_ne by done; apply lookup_insert_eq).
    apply wp_bind, (wp_move_none _ _ _ _ q1); [done|done|]. apply (wp_update_tq _ _ q1 _ _ Hp3). apply Hk.
    assert (queues_ok D X s2) as Hs2 by (by apply queues_created).
    assert (queues_ok D X s3) as Hs3.
    { apply (queues_field D X X s2 p0 (new_tqueue dfc old) q0); [done|done|done|done|auto|]. intros l _ Hi Hx Hq. by apply Hq. }
    set (s4 := with_tqueues (<[p := set_num_bg_tasks 0 q1]> (tqueues s3)) s3).
    assert (tqueues s4 = <[p0 := q0]> (<[p := set_num_bg_tasks 0 q1]> (tqueues s))) as E4.
    { cbn [tqueues s4 with_tqueues]. rewrite E3, (insert_insert_ne _ p p0) by done. by rewrite insert_insert_eq. }
    assert (tqueues s !! p0 = None) as Hp0s by (cbn in Hp0; by rewrite lookup_insert_ne in Hp0).
    assert (forall r qr, r <> p -> tqueues s4 !! r = Some qr -> (r = p0 /\ qr = q0) \/ tqueues s !! r = Some qr) as Hlook.
    { intros r qr Hne. rewrite E4. destruct (decide (r = p0)) as [->|Hr0]; [rewrite lookup_insert_eq; intros [= <-]; by left|].
      rewrite !lookup_insert_ne by done. by right. }
    split.
    + apply (queues_field D X X s3 p q1); [done|done|done|done|auto|]. intros l _ Hi Hx Hq. by apply Hq.
    + assert (forall r, r ∈ active_tqueues s -> tqueues s4 !! r = if decide (r = p) then Some (set_num_bg_tasks 0 q1) else tqueues s !! r) as Hact.
      { intros r Hr. rewrite E4. destruct (decide (r = p0)) as [->|Hr0].
        - destruct (active_lookup D X s p0 H Hr) as [qr Hqr]. congruence.
        - rewrite lookup_insert_ne by done. destruct (decide (r = p)) as [->|]; [apply lookup_insert_eq|by rewrite lookup_insert_ne]. }
      apply keeps_same; [done| |].
      * intros r Hr. unfold usage_at. rewrite (Hact r Hr). destruct (decide (r = p)) as [->|]; [by rewrite Hp|done].
      * intros r [qr Hr]. rewrite E4. destruct (decide (r = p0)) as [->|Hr0]; [by rewrite lookup_insert_eq|]. rewrite lookup_insert_ne by done.
        destruct (decide (r = p)) as [->|]; [by rewrite lookup_insert_eq|rewrite lookup_insert_ne by done; by eexists].
    + rewrite E4, lookup_insert_ne by done. apply lookup_insert_eq.
    + intros r qr Hne Hr. rewrite E4. rewrite !lookup_insert_ne; [done| |]; congruence.
    + intros r qr Hne Hr. destruct (Hlook r qr Hne Hr) as [[-> ->]|Hr']; [right|by left]. repeat split; [done|]. intros r' qr' Hne' Hr' Hnone.
      destruct (Hlook r' qr' Hne' Hr') as [[-> _]|Hr2]; [done|congruence].
    + intros _. exists p0, q0. split; [done|]. split; [rewrite E4; apply lookup_insert_eq|done].
    + done.
Qed.

Lemma keeps_field s p q q' : tqueues s !! p = Some q -> usage q' = usage q -> keeps s (with_tqueues (<[p := q']> (tqueues s)) s).
Proof. intros Hp Hu. rewrite <- put_queue_fields. by apply (keeps_put s p q). Qed.

Lemma other_player s p q r qr : accounts s -> tqueues s !! p = Some q -> player q <> NOTHING -> r <> p -> tqueues s !! r = Some qr -> player qr <> player q.
Proof. intros H Hp Hn Hne Hr E. apply Hne. symmetry. by apply (ac_players _ H p r q qr). Qed.

(** No queue had the new player. *)
Lemma nothing_queue s p q : accounts s -> tqueues s !! p = Some q -> player q = NOTHING -> num_bg_tasks q = 0 /\ first_bg q = [].
Proof.
  intros [_ _ H9 H10] Hp E. destruct (H9 p q Hp) as [Hn Hf]. rewrite E in Hn, Hf. assert (first_bg q = []) as Eb.
  { destruct (first_bg q) as [|t ts]; [done|]. apply Forall_cons in Hf as [[Ht1 Ht2] _]. unfold NOTHING in Ht1. lia. }
  split; [|done]. rewrite Hn, Eb. unfold count_of. destruct (filter _ (waiting_tasks s)) as [|t ts] eqn:Ef; [done|].
  assert (t ∈ filter (fun t => progr_of t = NOTHING) (waiting_tasks s)) as Ht by (rewrite Ef; by left). apply list_elem_of_filter in Ht as [Ht Hin].
  pose proof (proj1 (H10 t Hin)). unfold NOTHING in Ht. lia.
Qed.
(** The other queues *)
Lemma renamed_other s p q old new s1 r qr : accounts s -> tqueues s !! p = Some q -> player q = old -> num_bg_tasks q = 0 \/ old <> NOTHING -> old <> new -> first_bg q = [] ->
  renamed s p q old new s1 -> r <> p -> tqueues s1 !! r = Some qr -> player qr <> new ->
  (player qr = NOTHING /\ num_bg_tasks qr = 0 /\ first_bg qr = []) \/
  (exists q0, tqueues s !! r = Some q0 /\ same_tasks q0 qr /\ player qr <> new /\ player qr <> old) \/
  (player qr = old /\ old <> NOTHING /\ num_bg_tasks qr = count_of old (waiting_tasks s) /\ first_bg qr = [] /\
   forall r' qr', r' <> p -> tqueues s1 !! r' = Some qr' -> player qr' = old -> r' = r).
Proof.
  intros Ha Hp Hpl Hnn Hno Hbg [R1 R2 R3 R4 R5 R6 R7] Hne Hr Hnew.
  assert (num_bg_tasks q = count_of old (waiting_tasks s)) as Hnum by (destruct (ac_count _ Ha p q Hp) as [E _]; rewrite Hbg, Hpl in E; exact E).
  destruct (R5 r qr Hne Hr) as [Hr'|(Hr0 & E1 & E2 & E3 & Hu)].
  - destruct (decide (player qr = NOTHING)) as [En|En]; [left; split; [done|]; by apply (nothing_queue s r)|]. right; left. exists qr. repeat split; [done|done|].
    intros E. rewrite <- Hpl in E. apply (other_player s p q r qr); [done|done|congruence|done|done|done].
  - destruct (decide (old = NOTHING)) as [Eo|Eo]; [left; destruct Hnn as [Hn|]; [repeat split; congruence|done]|].
    right; right. split; [done|]. split; [done|]. split; [congruence|]. split; [done|]. intros r' qr' Hne' Hr' E'.
    destruct (R5 r' qr' Hne' Hr') as [Hr2|(Hr2 & _)]; [|by apply (Hu r' qr')]. exfalso. apply (other_player s p q r' qr' Ha Hp); [congruence|done|done|congruence].
Qed.
Lemma renamed_owner s p q old new s1 t : accounts s -> tqueues s !! p = Some q -> player q = old -> first_bg q = [] -> renamed s p q old new s1 ->
  t ∈ waiting_tasks s -> player q = progr_of t -> exists r qr, r <> p /\ tqueues s1 !! r = Some qr /\ player qr = old.
Proof.
  intros Ha Hp Hpl Hbg Hrn Ht Hpr. apply (rn_owner _ _ _ _ _ _ Hrn). destruct (ac_count _ Ha p q Hp) as [-> _]. rewrite Hbg, Hpl. unfold count_of. intros E.
  assert (t ∈ filter (fun t => progr_of t = old) (waiting_tasks s)) as Hin by (apply list_elem_of_filter; split; [congruence|done]).
  destruct (filter _ (waiting_tasks s)); [by apply not_elem_of_nil in Hin|done].
Qed.

Lemma switched_alone s p q old new s1 : sched D X s -> tqueues s !! p = Some q -> player q = old -> old <> new -> num_bg_tasks q = 0 \/ old <> NOTHING -> new <> NOTHING -> first_bg q = [] ->
  finds s new None -> renamed s p q old new s1 -> good D X s s1.
Proof.
  intros [H Ha] Hp Hpl Hno Hnn Hnw Hbg Hnone Hrn. pose proof Hrn as [R1 R2 R3 R4 R5 R6 [R7 _]]. split; [|done]. split; [done|].
  assert (forall r qr, r <> p -> tqueues s1 !! r = Some qr -> player qr <> new) as Hnew.
  { intros r qr Hne Hr. destruct (R5 r qr Hne Hr) as [Hr'|(_ & E & _)]; [by apply (Hnone r)|congruence]. }
  apply (accounts_switched s s1 p _ new old Ha R7 R3); [done|done| |cbn; rewrite Hbg; constructor| | |done].
  - cbn. rewrite Hbg. by rewrite (count_of_none _ _ Ha Hnone).
  - intros r qr Hr. destruct (decide (r = p)) as [->|Hne]; [by left|right].
    destruct (renamed_other s p q old new s1 r qr) as [E|[(q0 & E)|(E1 & Eo & E2 & E3 & Hu)]]; [done..|by apply (Hnew r)|by left| |].
    + right; left. split; [done|]. by exists q0.
    + right; right. repeat split; [done..|]. intros r' qr' Hr' E'. destruct (decide (r' = p)) as [->|Hne']; [|by apply (Hu r' qr')].
      rewrite R3 in Hr'. injection Hr' as <-. cbn in E'. congruence.
  - intros t Ht. destruct (ac_owner _ Ha t Ht) as [_ (r & qr & Hr & Hpr)]. destruct (decide (r = p)) as [->|Hne]; [|exists r, qr; split; [by apply R4|done]].
    assert (qr = q) as -> by congruence. destruct (renamed_owner s p q old new s1 t) as (r & qr & _ & Hr2 & Hpr2); [done..|]. exists r, qr. split; [done|congruence].
Qed.

(** The queue [d] had it: its tasks are now those of [p]. *)
Definition switched (p d : positive) (q qd qf : tqueue) (new : Z) (s3 : tstate) : tstate :=
  with_tqueues (<[d := set_num_bg_tasks 0 (set_player NOTHING (set_bg 0 [] qf))]>
    (<[p := set_first_bg (first_bg qf) (set_num_bg_tasks (num_bg_tasks qd) (set_player new q))]> (tqueues s3))) s3.

Lemma queues_switched s3 p d q qd qf new : queues_ok D X s3 -> d <> p -> tqueues s3 !! d = Some qf -> first_bg q = [] ->
  tqueues s3 !! p = Some (set_num_bg_tasks (num_bg_tasks qd) (set_player new q)) -> (p ∈ idle_tqueues s3 -> first_bg qf = []) ->
  queues_ok D X (switched p d q qd qf new s3) /\ keeps s3 (switched p d q qd qf new s3).
Proof.
  intros H Hdp Hd Hbg Hp Hidle. set (q2 := set_num_bg_tasks (num_bg_tasks qd) (set_player new q)) in *. set (q3 := set_first_bg (first_bg qf) q2).
  set (s4 := with_tqueues (<[p := q3]> (tqueues s3)) s3). assert (queues_ok D X s4) as H4.
  { apply (queues_field D X X s3 p q2); [done|done|done|done|auto|]. intros l _ Hi Hx Hq. destruct (Hq Hx) as (_ & Hq2). split; [by apply Hidle|done]. }
  assert (tqueues s4 !! d = Some qf) as Hd4 by (cbn; by rewrite lookup_insert_ne by done).
  assert (forall x, x = with_tqueues (<[d := set_num_bg_tasks 0 (set_player NOTHING (set_bg 0 [] qf))]> (tqueues s4)) s4 -> queues_ok D X x /\ keeps s3 x) as Hg; [|by apply Hg].
  intros x ->. split.
  - apply (queues_field D X X s4 d qf); [done|done|done|done|auto|]. intros l _ Hi Hx Hq. destruct (Hq Hx) as (_ & Hq2). by split.
  - etrans; [by apply (keeps_field s3 p q2 q3)|]. by apply (keeps_field s4 d qf).
Qed.

Lemma accounts_joined s p d q qd old new s1 qf s3 : accounts s -> tqueues s !! p = Some q -> player q = old -> old <> new -> num_bg_tasks q = 0 \/ old <> NOTHING -> new <> NOTHING -> first_bg q = [] ->
  d <> p -> tqueues s !! d = Some qd -> player qd = new -> renamed s p q old new s1 -> same_tasks qd qf -> waiting_tasks s3 = waiting_tasks s ->
  (forall r, r <> p -> r <> d -> tqueues s3 !! r = tqueues s1 !! r) -> accounts (switched p d q qd qf new s3).
Proof.
  intros Ha Hp Hpl Hno Hnn Hnw Hbg Hdp Hd Hpd Hrn (F1 & F2 & F3 & F4) Ew H3. pose proof Hrn as [R1 R2 R3 R4 R5 R6 _].
  pose proof (ac_count _ Ha d qd Hd) as [Hnd Hfd]. rewrite Hpd in Hnd, Hfd.
  set (s' := switched p d q qd qf new s3). set (q' := set_first_bg (first_bg qf) (set_num_bg_tasks (num_bg_tasks qd) (set_player new q))).
  assert (tqueues s' !! p = Some q') as Hp' by (cbn; rewrite lookup_insert_ne by done; apply lookup_insert_eq).
  assert (forall r, r <> p -> r <> d -> tqueues s' !! r = tqueues s1 !! r) as Hother.
  { intros r Hr1 Hr2. cbn. rewrite !lookup_insert_ne by done. by rewrite H3. }
  assert (forall r qr, tqueues s' !! r = Some qr -> r = p \/ (r = d /\ player qr = NOTHING /\ num_bg_tasks qr = 0 /\ first_bg qr = []) \/ (r <> p /\ r <> d /\ tqueues s1 !! r = Some qr)) as Hlook.
  { intros r qr Hr. destruct (decide (r = p)) as [->|Hne]; [by left|right]. destruct (decide (r = d)) as [->|Hnd']; [left|right; by rewrite <- Hother].
    cbn in Hr. rewrite lookup_insert_eq in Hr. by injection Hr as <-. }
  apply (accounts_switched s s' p q' new old Ha Ew Hp'); [done|done|cbn; by rewrite F4|cbn; by rewrite F4| | |done].
  - intros r qr Hr. destruct (Hlook r qr Hr) as [->|[(_ & E)|(Hne & Hnd' & Hr1)]]; [by left|right; by left|right].
    assert (player qr <> new) as Hnew.
    { destruct (R5 r qr Hne Hr1) as [Hr'|(_ & E & _)]; [|congruence]. rewrite <- Hpd. apply (other_player s d qd r); [done|done|congruence|done|done]. }
    destruct (renamed_other s p q old new s1 r qr) as [E|[(q0 & E)|(E1 & Eo & E2 & E3 & Hu)]]; [done..|by left| |].
    + right; left. split; [done|]. by exists q0.
    + right; right. repeat split; [done..|]. intros r' qr' Hr' E'. destruct (Hlook r' qr' Hr') as [->|[(-> & E4 & E5 & E6)|(Hne' & _ & Hr1')]]; [| |by apply (Hu r' qr')].
      * rewrite Hp' in Hr'. injection Hr' as <-. cbn in E'. congruence.
      * congruence.
  - assert (forall r qr, r <> p -> tqueues s1 !! r = Some qr -> player qr <> new -> exists r' qr', tqueues s' !! r' = Some qr' /\ player qr' = player qr) as Hex.
    { intros r qr Hne Hr Hpr. exists r, qr. split; [|done]. assert (r <> d) as Hrd by (intros ->; rewrite (R4 d qd Hdp Hd) in Hr; congruence). by rewrite Hother. }
    intros t Ht. destruct (ac_owner _ Ha t Ht) as [_ (r & qr & Hr & Hpr)]. rewrite <- Hpr. destruct (decide (player qr = new)) as [->|Hn]; [exists p, q'; split; [exact Hp'|done]|].
    destruct (decide (r = p)) as [->|Hne]; [|by apply (Hex r qr Hne (R4 r qr Hne Hr))]. assert (qr = q) as -> by congruence.
    destruct (renamed_owner s p q old new s1 t) as (r & qr & Hrp & Hr2 & Hpr2); [done..|]. rewrite Hpl, <- Hpr2. apply (Hex r qr Hrp Hr2). congruence.
Qed.

Lemma wp_switch_queue s p q old new : sched D X s -> tqueues s !! p = Some q -> player q = old -> old <> new -> num_bg_tasks q = 0 \/ old <> NOTHING -> new <> NOTHING -> first_bg q = [] ->
  (p ∉ active_tqueues s -> forall r qr, tqueues s !! r = Some qr -> player qr = new -> first_bg qr = []) ->
  wp (switch_queue dfc p old new) (fun _ => good D X s) s.
Proof.
  intros H Hp Hpl Hno Hnn Hnw Hbg Hidle. unfold switch_queue. wp_here. apply wp_bind, (wp_find_tqueue D X); [done|]. intros dead Hdead.
  apply (wp_rename s p q old new); [done..|]. intros s1 Hrn. destruct dead as [d|]; [|apply wp_ret; by apply (switched_alone s p q old new)].
  destruct Hdead as (qd & Hd & Hpd). assert (d <> p) as Hdp by (intros ->; congruence). pose proof Hrn as [R1 R2 R3 R4 R5 R6 (R7 & R8 & R9)].
  pose proof (R4 d qd Hdp Hd) as Hd1. apply wp_bind, (wp_get_tq _ _ _ _ Hd1). apply wp_bind, (wp_update_tq _ _ _ _ _ R3). set (q1 := set_num_bg_tasks 0 (set_player new q)) in *.
  set (q2 := set_num_bg_tasks (num_bg_tasks qd) q1). set (s2 := with_tqueues _ _).
  assert (queues_ok D X s2) as Hs2 by (apply (queues_field D X X s1 p q1); [done|done|done|done|auto|]; intros l _ Hi Hx Hq; by apply Hq).
  assert (tqueues s2 !! d = Some qd) as Hd2 by (cbn; by rewrite lookup_insert_ne by done). apply wp_bind. rewrite <- R9.
  eapply wp_mono; [apply (wp_flush_loop D X d false _ s2 qd Hs2 Hd2); cbn [inputs s2 with_tqueues]; lia|]. intros [] s3 [Hs3 Hk3 (qf & Eq3 & Ht3 & Hm3) (Hw3 & Ha3 & Hi3) _].
  assert (tqueues s3 !! d = Some qf) as Hd3 by (rewrite Eq3; apply lookup_insert_eq).
  assert (tqueues s3 !! p = Some q2) as Hp3 by (rewrite Eq3, lookup_insert_ne by done; apply lookup_insert_eq). pose proof Ht3 as (F1 & F2 & F3 & F4).
  apply wp_bind, (wp_move_bg _ d p Hdp s3 qf q2); [done|done|rewrite F4; lia|]. set (qf1 := set_bg (num_bg_tasks qf - Z.of_nat (length (first_bg qf))) [] qf). eapply (wp_update_tq _ d qf1).
  { cbn. rewrite lookup_insert_ne by done. apply lookup_insert_eq. }
  assert (forall x, x = switched p d q qd qf new s3 -> good D X s x) as Hg.
  { intros x ->. destruct (queues_switched s3 p d q qd qf new Hs3 Hdp Hd3 Hbg Hp3) as [Hq Hk].
    - intros Hi. rewrite F4. apply (Hidle) with (r := d); [|done|done]. intros Hpa. rewrite <- R8 in Hpa. rewrite Hi3 in Hi. cbn in Hi.
      pose proof (qs_nodup _ _ _ R1) as Hn. apply NoDup_app in Hn as (_ & Hn & _). by apply (Hn p).
    - split; [split; [exact Hq|]|].
      + apply (accounts_joined s p d q qd old new s1 qf s3); [apply H|done..| |].
        * rewrite Hw3. exact R7.
        * intros r Hrp Hrd. rewrite Eq3, lookup_insert_ne by done. cbn. by rewrite lookup_insert_ne.
      + etrans; [exact R2|]. etrans; [by apply (keeps_field s1 p q1 q2)|]. etrans; [exact Hk3|exact Hk]. }
  apply Hg. unfold switched, moved_bg, with_tqueues. cbn. f_equal. rewrite (insert_insert_ne _ d p) by done. rewrite insert_insert_eq.
  rewrite (insert_insert_ne _ p d) by done. cbn. by rewrite Hbg.
Qed.
End switch.

Local Open Scope Z_scope.
Local Open Scope moo_scope.

Inductive call :=
| COpen (who handler : Z)
| CClose (p : positive)
| CInput (p : positive) (input : bytes) (binary out_of_band : bool)
| CSuspendInput (p : positive)
| CForce (conn : Z) (line : bytes) (at_front : bool) (progr : Z)
| CFlush (conn : Z) (show : bool) (progr : Z)
| CReadNow (conn : Z)
| CRead (v : vm) (who : Z)
| CHold (p : positive) (value : bool)
| COob (p : positive) (value : bool)
| COption (p : positive) (f : tqueue -> tqueue)
| CFork (user_limit : option Z) (server_limit id progr : Z) (code : positive) (start_tv : timeval)
| CSuspend (user_limit : option Z) (server_limit : Z) (v : vm) (start_tv : option timeval)
| CResumeTask (v : vm) (value : Var)
| CKill (id progr : Z)
| CResume (now : timeval) (id : Z) (value : option Var) (progr : Z)
| CSwitch (connected_to : Z -> bool) (old_player new_player progr : Z)
| CWorld (d : db) (current : Z) (ev : list event).

Section calls.
Context (dfc : option bytes) (external_kill : Z -> Z -> option error).

Definition perform (c : call) : M tstate unit :=
  match c with
  | COpen who handler => new_task_queue dfc who handler ;; mreturn tt
  | CClose p => free_task_queue p
  | CInput p input binary out_of_band => new_input_task p input binary out_of_band
  | CSuspendInput p => task_suspend_input p
  | CForce conn line at_front progr => bf_force_input dfc conn line at_front progr ;; mreturn tt
  | CFlush conn show progr => bf_flush_input dfc conn show progr ;; mreturn tt
  | CReadNow conn => read_input_now conn ;; mreturn tt
  | CRead v who => make_reading_task v who ;; mreturn tt
  | CHold p value => set_hold p value
  | COob p value => set_oob p value
  | COption p f => update_tq p f
  | CFork ul sl id progr code tv => enqueue_forked_task2 dfc ul sl id progr code tv ;; mreturn tt
  | CSuspend ul sl v tv => enqueue_suspended_task dfc ul sl v tv ;; mreturn tt
  | CResumeTask v value => resume_task dfc v value
  | CKill id progr => bf_kill_task external_kill id progr ;; mreturn tt
  | CResume now id value progr => bf_resume dfc now id value progr ;; mreturn tt
  | CSwitch connected_to old new progr => bf_switch_player dfc connected_to old new progr ;; mreturn tt
  | CWorld d current ev => tmodify (fun s => with_events ev (with_current current (mk_tstate d (inputs s) (tqueues s) (active_tqueues s) (idle_tqueues s) (waiting_tasks s) current ev)))
  end.

(** A switch moves ready tasks to a queue that may be idle, where they are
    lost ([Tasks.switch_player_loses_tasks]): [may] asks that there are none.
    The code's own comment ("this un-logged-in connection has some queued
    tasks!") is about this case.  The programmer of a task is not negative,
    as negative numbers are those of connections. *)
Definition switch_safe (s : tstate) (old new : Z) : Prop :=
  forall p q, tqueues s !! p = Some q -> player q = old ->
    first_bg q = [] /\ (num_bg_tasks q = 0 \/ old <> NOTHING) /\
    (p ∉ active_tqueues s -> forall r qr, tqueues s !! r = Some qr -> player qr = new -> first_bg qr = []).
Definition may (c : call) (s : tstate) : Prop :=
  match c with
  | CClose p | CInput p _ _ _ | CSuspendInput p | CHold p _ | COob p _ => is_Some (tqueues s !! p)
  | COption p f => exists q, tqueues s !! p = Some q /\ same_input q (f q) /\ same_tasks q (f q) /\ same_mode q (f q)
  | CFork _ _ _ progr _ _ => 0 <= progr
  | CSuspend _ _ v _ | CResumeTask v _ => 0 <= progr_of_cur_verb v
  | CSwitch _ old new _ => switch_safe s old new
  | _ => True
  end.

Lemma is_user_real d who : is_user d who = true -> who <> NOTHING.
Proof. intros H ->. unfold is_user, valid, dbpriv_find_object in H. done. Qed.

Lemma wp_then {A} (m : M tstate A) (Q : tstate -> Prop) s : wp m (fun _ => Q) s -> wp (m ;; mreturn tt) (fun _ => Q) s.
Proof. intros H. apply wp_bind, (wp_mono _ _ _ _ H). intros x s' Hq. by apply wp_ret. Qed.

Lemma wp_bf_switch_player D X s connected_to old new progr : sched D X s -> switch_safe s old new ->
  wp (bf_switch_player dfc connected_to old new progr) (fun _ => good D X s) s.
Proof.
  intros H Hsafe. unfold bf_switch_player. apply wp_if; intros _; [by apply good_refl|].
  apply (wp_if (fun _ => old =? new) (PError E_INVARG)); intros Hon; [by apply good_refl|]. apply Z.eqb_neq in Hon.
  apply (wp_if (fun s => negb (connected_to old) || negb (is_user (tdb s) new)) (PError E_INVARG)); intros Hu; [by apply good_refl|].
  apply orb_false_iff in Hu as [_ Hu]. apply negb_false_iff, is_user_real in Hu.
  apply wp_bind, (wp_find_tqueue D X); [done|]. intros [p|] Hr; [|by apply wp_ret, good_refl]. destruct Hr as (q & Hp & Hpl).
  destruct (Hsafe p q Hp Hpl) as (Hbg & Hnn & Hid). apply wp_bind. eapply wp_mono; [by apply (wp_switch_queue dfc D X s p q)|]. intros [] s' Hg. by apply wp_ret.
Qed.

Lemma perform_good D X c s : sched D X s -> may c s -> wp (perform c) (fun _ => good D X s) s.
Proof.
  intros H Hm. destruct c; cbn [perform may] in *; try apply wp_then; try (destruct Hm as [q Hp]).
  - by apply wp_new_task_queue.
  - by eapply wp_free_task_queue.
  - by eapply wp_new_input_task.
  - by eapply wp_task_suspend_input.
  - by apply wp_bf_force_input.
  - by apply wp_bf_flush_input.
  - by apply wp_read_input_now.
  - by apply wp_make_reading_task.
  - by eapply wp_set_hold.
  - by eapply wp_set_oob.
  - destruct Hp as (Hp & Hi & Ht & Hmode). apply (wp_update_tq _ _ q _ _ Hp). apply (good_field D X s p q); [done..|]. intros l _ _ _ (Hb & Hr & Hacc).
    destruct Hmode as (M1 & M2 & M3 & M4). destruct Hi as (I1 & _). destruct Ht as (_ & _ & _ & T4). unfold quiet, reading, is_out_of_input, accepts, how_of, reading in *.
    rewrite T4, M1, M2, M3, M4, I1. by split.
  - by apply wp_enqueue_forked.
  - by apply wp_enqueue_suspended.
  - by apply wp_resume_task.
  - unfold bf_kill_task, wp. pose proof (wp_kill_task external_kill D X s (to_int id) progr H) as Hk. unfold wp in Hk. by destruct (kill_task _ _ _ s) as [[e s']|].
  - unfold bf_resume. apply wp_bind. eapply wp_mono; [by apply (wp_do_resume dfc D X)|]. intros e s' Hg. by apply wp_ret.
  - by apply wp_bf_switch_player.
  - apply wp_tmodify. split; [by apply (sched_same D X s)|by apply keeps_same].
Qed.

(** Any number of calls *)
Definition calls : tstate -> tstate -> Prop := rtc (fun s s' => exists c, may c s /\ perform c s = Some (tt, s')).

Lemma calls_good D X s s' : calls s s' -> sched D X s -> good D X s s'.
Proof.
  induction 1 as [s|s s1 s2 (c & Hm & Hp) _ IH]; intros H; [by apply good_refl|].
  pose proof (perform_good D X c s H Hm) as Hg. unfold wp in Hg. rewrite Hp in Hg. destruct Hg as [Hs Hk]. by apply (good_trans _ _ _ s1 _ Hk), IH.
Qed.
End calls.
