(* ===== verification/TaskLoop.v ===== *)
(** * The loop over the queues

    Each queue in turn serves one of its tasks: the first one that does ends
    the loop and goes to its new place; the others become idle. *)
From Stdlib Require Import ZArith Lia Sorting.Sorted.
From stdpp Require Import prelude gmap sorting.
From S2P Require Import Prelude CString Value ObjCode ObjFun TaskInput TaskCode TaskSpec TaskKeep TaskOps TaskCall.

(** ** Running the tasks of a queue

    [run_task]: the machine; it changes the queues by calls. *)
Local Open Scope Z_scope.
Local Open Scope moo_scope.

Section run.
Context (dfc : option bytes) (external_kill : Z -> Z -> option error).
Context (run_task : job -> tstate -> Var * tstate) (is_command : Z -> bytes -> bool).
Context (Hrun : forall j s, calls dfc external_kill s (run_task j s).2).

Lemma good_current D X s0 s id : good D X s0 s -> good D X s0 (with_current id s).
Proof. intros [H Hk]. split; [by apply (sched_same D X s)|]. etrans; [exact Hk|by apply keeps_same]. Qed.
Lemma run_good D X s0 s j : good D X s0 s -> good D X s0 (run_task j s).2.
Proof. intros [H Hk]. apply (good_trans _ _ _ s _ Hk). exact (calls_good dfc external_kill D X s _ (Hrun j s) H). Qed.

Lemma wp_execute D X id j s0 s : good D X s0 s -> wp (execute run_task id j) (fun _ => good D X s0) s.
Proof.
  intros Hg. unfold wp, execute. pose proof (run_good D X s0 _ j (good_current D X s0 s id Hg)) as Hr. destruct (run_task j (with_current id s)) as [v s']. by apply good_current.
Qed.
(** A job that is run, and the end of its task *)
Lemma wp_job D X j s0 s : good D X s0 s -> wp (fun s => let '(_, s') := run_task j s in Some (true, with_current (-1) s')) (fun _ => good D X s0) s.
Proof. intros Hg. unfold wp. pose proof (run_good D X s0 s j Hg) as Hr. destruct (run_task j s) as [v s']. by apply good_current. Qed.

Lemma wp_do_command_task D X p q command s : sched D X s -> tqueues s !! p = Some q ->
  wp (do_command_task run_task is_command p command) (fun did s' => good D X s s' /\ (did = false -> s' = s)) s.
Proof.
  intros H Hp. apply wp_bind, (wp_get_tq _ _ _ _ Hp). destruct (negb _); [apply wp_ret; split; [by apply good_refl|done]|].
  unfold wp. pose proof (run_good D X s s (JCommand p command) (good_refl D X s H)) as Hr. destruct (run_task _ s) as [v s']. split; [by apply good_current|done].
Qed.

Lemma keeps_active s s' p : keeps s s' -> p ∈ active_tqueues s -> p ∈ active_tqueues s'.
Proof. intros Hk Hp. by apply (elem_of_sublist (active_tqueues s)); [|apply Hk]. Qed.

Lemma is_user_nonneg d who : is_user d who = true -> 0 <= who.
Proof.
  unfold is_user, valid, dbpriv_find_object. intros [H _]%andb_true_iff. apply bool_decide_eq_true in H. destruct (who <? 0) eqn:E; [by destruct H|].
  by apply Z.ltb_ge.
Qed.
Lemma negative_queue D X s p q : sched D X s -> tqueues s !! p = Some q -> player q < 0 -> num_bg_tasks q = 0 /\ first_bg q = [].
Proof.
  intros H Hp Hneg. destruct (sc_count _ _ _ H p q Hp) as [Hn Hf]. assert (first_bg q = []) as Eb.
  { destruct (first_bg q) as [|t ts]; [done|]. apply Forall_cons in Hf as [[Ht1 Ht2] _]. lia. }
  split; [|done]. rewrite Hn, Eb. unfold count_of. destruct (filter _ (waiting_tasks s)) as [|t ts] eqn:Ef; [done|].
  assert (t ∈ filter (fun t => progr_of t = player q) (waiting_tasks s)) as Ht by (rewrite Ef; by left). apply list_elem_of_filter in Ht as [Ht Hin].
  pose proof (proj1 (sc_owner _ _ _ H t Hin)). lia.
Qed.

(** A login switches the queue of a connection, which is active. *)
Lemma wp_do_login_task D X p command s : sched D X s -> p ∈ active_tqueues s ->
  wp (do_login_task dfc run_task p command) (fun did s' => did = true /\ good D X s s') s.
Proof.
  intros H Ha. apply wp_bind. unfold wp at 1. pose proof (run_good D X s s (JLogin p command) (good_refl D X s H)) as Hr.
  destruct (run_task (JLogin p command) s) as [result s1]. cbn [snd] in Hr. pose proof Hr as [H1 Hk1].
  pose proof (keeps_active _ _ _ Hk1 Ha) as Ha1. destruct (active_lookup D X s1 p H1 Ha1) as [q Hq]. apply wp_bind, (wp_get_tq _ _ _ _ Hq).
  assert (wp (fun s => Some (true, with_current (-1) s)) (fun did s' => did = true /\ good D X s s') s1) as Hend by (split; [done|by apply good_current]).
  destruct result as [|new| | | | | | | | | | | | |]; try exact Hend. unfold wp. destruct (connected q && (player q <? 0) && is_user (tdb s1) new) eqn:Ec; [|exact Hend].
  apply andb_true_iff in Ec as [[_ Hneg]%andb_true_iff Huser]. apply Z.ltb_lt in Hneg. apply is_user_nonneg in Huser.
  match goal with |- match ?m s1 with _ => _ end => change (wp m (fun did s' => did = true /\ good D X s s') s1) end.
  destruct (negative_queue D X s1 p q H1 Hq Hneg) as [Hn Hb]. apply wp_bind.
  eapply wp_mono; [apply (wp_switch_queue dfc D X s1 p q (player q) new); [done|done|done|lia|by left|unfold NOTHING; lia|done|done]|].
  intros [] s2 Hg. apply wp_bind, wp_tmodify. unfold wp. assert (good D X s (with_current (-1) s2)) as Hg2 by (apply good_current; by apply (good_trans _ _ _ s1)).
  pose proof (run_good D X s _ (JConnected (player q) new) Hg2) as Hr3. by destruct (run_task _ (with_current (-1) s2)) as [v s3].
Qed.

(** ** One task of input *)

Lemma wp_run_input D X p t n s : sched D X s -> p ∈ active_tqueues s -> inputs s !! t = Some n -> kind n <> TASK_QUOTED ->
  wp (run_input dfc run_task is_command p t) (fun did s' => good D X s s' /\
    (did = false -> exists ev q, s' = with_events ev s /\ tqueues s !! p = Some q /\ reading q = false)) s.
Proof.
  intros H Ha Hn Hk. destruct (active_lookup D X s p H Ha) as [q Hq]. apply wp_bind, (wp_get_tq _ _ _ _ Hq). apply wp_bind.
  apply (wp_on_queue p q _ _ _ Hq), (wp_get_node _ _ _ _ _ n Hn). cbn [nodes tq told]. rewrite put_queue_same by done.
  assert (wp (match reading_vm q with
      | Some v => update_tq p (set_reading_vm None) ;; execute run_task (task_id v) (JReading v (VStr (text n))) ;; mreturn true
      | None => on_queue p (tell (History (player q) (text n))) ;;
          if 0 <=? player q then do_command_task run_task is_command p (text n) else do_login_task dfc run_task p (text n)
      end) (fun did s' => good D X s s' /\ (did = false -> exists ev q, s' = with_events ev s /\ tqueues s !! p = Some q /\ reading q = false)) s) as Hin.
  { destruct (reading_vm q) as [v|] eqn:Ev.
    - apply wp_bind, (wp_update_tq _ _ q _ _ Hq). apply wp_bind. eapply wp_mono; [apply (wp_execute D X _ _ s)|].
      + apply (good_field D X s p q); [done..|]. intros l _ Hi. destruct (sched_apart D X s p H Ha Hi).
      + intros x s' Hg. apply wp_ret. by split.
    - assert (reading q = false) as Er by (unfold reading; by rewrite Ev). apply wp_bind, (wp_on_queue p q _ _ _ Hq). unfold tell, wp. cbn [nodes tq told]. rewrite put_queue_events by done.
      set (ev := events s ++ _). destruct (good_events D X s s ev (good_refl D X s H)) as [H1 Hk1]. destruct (0 <=? player q).
      + eapply wp_mono; [by apply (wp_do_command_task D X p q)|]. intros did s' [Hg Hd]. split; [by apply (good_trans _ _ _ _ _ Hk1)|].
        intros ->. exists ev, q. split; [by apply Hd|done].
      + eapply wp_mono; [by apply (wp_do_login_task D X p)|]. intros did s' [-> Hg]. split; [by apply (good_trans _ _ _ _ _ Hk1)|done]. }
  destruct (kind n); [exact Hin| |done|exact Hin]. unfold wp. pose proof (run_good D X s s (JOutOfBand p (text n)) (good_refl D X s H)) as Hr.
  destruct (run_task _ s) as [v s']. split; [by apply good_current|done].
Qed.

(** Nothing of it can run *)
Definition idles (p : positive) (s : tstate) : Prop :=
  forall q l, tqueues s !! p = Some q -> qinput (inputs s) q l -> quiet (inputs s) q l.

Lemma wp_tasks_loop D X p fuel : forall s, sched D X s -> p ∈ active_tqueues s -> (size (inputs s) < fuel)%nat ->
  (forall q, tqueues s !! p = Some q -> reading q = true -> is_out_of_input q = false) ->
  wp (tasks_loop dfc run_task is_command fuel p) (fun did s' => good D X s s' /\ (did = false -> idles p s' /\ active_tqueues s' = active_tqueues s)) s.
Proof.
  induction fuel as [|fuel IH]; intros s H Ha Hf Hread; [lia|]. cbn [tasks_loop]. destruct (active_lookup D X s p H Ha) as [q Hq].
  apply wp_bind, (wp_get_tq _ _ _ _ Hq). fold (how_of q). apply wp_bind.
  assert (how_of q = DQ_FIRST \/ how_of q = DQ_OOB \/ how_of q = DQ_INBAND) as Hhow by (unfold how_of; destruct (_ && _); auto).
  apply (wp_mono _ _ _ _ (wp_dequeue D X s p q (how_of q) (sc_queues _ _ _ H) Hq Hhow)). intros [t|] s1.
  - intros Htk. pose proof (taken_sched _ _ _ _ _ _ _ (sc_accounts _ _ _ H) Hq Htk) as Hs1. destruct Htk as [_ HtD Hk1 (q1 & Eq1 & _) (n & Hn & Hkn) Hsz (_ & Ea1 & _)].
    assert (p ∈ active_tqueues s1) as Ha1 by (by rewrite Ea1). apply wp_bind, (wp_mono _ _ _ _ (wp_run_input _ X p t n s1 Hs1 Ha1 Hn Hkn)).
    intros did s2 [[Hs2 Hk2] Hd]. apply wp_bind, wp_free_task. set (s3 := with_inputs _ _).
    assert (good D X s s3) as Hg3 by (split; [by apply sched_free|]; etrans; [exact Hk1|]; etrans; [exact Hk2|by apply keeps_same]).
    destruct did; [by apply wp_ret|]. destruct (Hd eq_refl) as (ev & q2 & -> & Hq2 & Hr2). destruct Hg3 as [Hs3 Hk3].
    eapply wp_mono; [apply IH; [done|by apply (keeps_active s)| |]|].
    + assert (is_Some (inputs (with_events ev s1) !! t)) as Hin by (by exists n). pose proof (size_freed _ _ Hin) as Hsf. fold s3 in Hsf. cbn [inputs with_events] in Hsf. lia.
    + intros q3 Hq3. change (tqueues s3) with (tqueues s1) in Hq3. assert (q3 = q2) as -> by congruence. by rewrite Hr2.
    + intros did s4 [Hg4 Hd4]. split; [by apply (good_trans _ _ _ s3)|]. intros E. destruct (Hd4 E) as [Hi Ea4]. split; [done|]. rewrite Ea4. exact Ea1.
  - intros [-> Hall]. apply wp_bind. unfold dequeue_bg_task. apply wp_bind, (wp_get_tq _ _ _ _ Hq). destruct (first_bg q) as [|t ts] eqn:Ebg.
    + apply wp_ret, wp_ret. split; [by apply good_refl|]. intros _. split; [|done]. intros q' l Hq' Hl. assert (q' = q) as -> by congruence.
      split; [done|]. split; [by apply Hread|by apply Hall].
    + apply wp_bind, (wp_update_tq _ _ q _ _ Hq), wp_ret. destruct (sc_count _ _ _ H p q Hq) as [_ Hfa].
      assert (forall x, x = with_bg p q (num_bg_tasks q - 1) ts (waiting_tasks s) s -> good D X s x) as Hg.
      { intros x ->. apply good_active_bg; [done..|rewrite Ebg; cbn [length]; lia|]. rewrite Ebg in Hfa. by apply Forall_cons in Hfa as [_ Hfa]. }
      match goal with |- wp _ _ ?x => assert (good D X s x) as Hg1 by (apply Hg; unfold with_bg; by destruct s) end.
      destruct t as [id progr code tv|v tv value]; apply wp_bind, wp_bind; (eapply wp_mono; [by apply (wp_execute D X _ _ s)|]); intros x s' Hg'; by apply wp_ret, wp_ret.
Qed.

Lemma wp_serve_queue D X p s : sched D X s -> p ∈ active_tqueues s ->
  wp (serve_queue dfc run_task is_command p) (fun did s' => good D X s s' /\ (did = false -> idles p s' /\ active_tqueues s' = active_tqueues s)) s.
Proof.
  intros H Ha. destruct (active_lookup D X s p H Ha) as [q Hq]. apply wp_bind, (wp_get_tq _ _ _ _ Hq).
  assert ((reading q = true -> is_out_of_input q = false) -> wp (tasks_loop dfc run_task is_command (S (size (inputs s))) p) (fun did s' => good D X s s' /\ (did = false -> idles p s' /\ active_tqueues s' = active_tqueues s)) s) as Hloop.
  { intros Hr. apply (wp_tasks_loop D X); [done|done|lia|]. intros q' Hq'. by assert (q' = q) as -> by congruence. }
  apply wp_bind. destruct (reading_vm q) as [v|] eqn:Ev; [|apply wp_ret, Hloop; unfold reading; by rewrite Ev].
  destruct (is_out_of_input q) eqn:Eo; [|apply wp_ret, Hloop; done].
  apply wp_bind, (wp_update_tq _ _ q _ _ Hq). apply wp_bind. eapply wp_mono; [apply (wp_execute D X _ _ s)|].
  - apply (good_field D X s p q); [done..|]. intros l _ Hi. destruct (sched_apart D X s p H Ha Hi).
  - intros x s' Hg. apply wp_ret, wp_ret. by split.
Qed.
End run.

Local Open Scope Z_scope.
Local Open Scope moo_scope.

(** ** The queue leaves its place *)

Definition placed (e : Z) (p : positive) (q : tqueue) (rest : list positive) (s : tstate) : tstate :=
  moved p (set_usage (usage q + e) q) (insert_active (usage_at s) (usage q + e) p rest) (idle_tqueues s) s.
Definition retired (p : positive) (q : tqueue) (rest : list positive) (s : tstate) : tstate :=
  moved p (set_usage NO_USAGE q) rest (p :: idle_tqueues s) s.

Lemma next_tq_head p rest : next_tq p (p :: rest) = rest.
Proof. cbn. by rewrite Pos.eqb_refl. Qed.

Lemma requeue_true e p q rest s : active_tqueues s = p :: rest -> NoDup (p :: rest) -> tqueues s !! p = Some q -> requeue e p true s = Some (tt, placed e p q rest s).
Proof.
  intros Ea Hnd Hq. unfold requeue, tmodify. rewrite (mbind_Some _ _ s tt (with_active rest s)) by (by rewrite Ea, next_tq_head).
  unfold update_tq, activate_tqueue, get_tq, mbindM, tmodify, with_tqueues, with_active. cbn. rewrite Hq. cbn. rewrite lookup_insert_eq. cbn. do 2 f_equal.
  unfold placed, moved, with_idle, with_active, with_tqueues. cbn. f_equal. apply insert_active_ext. intros r Hr. unfold usage_at. cbn. rewrite lookup_insert_ne; [done|].
  intros <-. by apply NoDup_cons in Hnd as [Hnd _].
Qed.
Lemma requeue_false e p q rest s : active_tqueues s = p :: rest -> tqueues s !! p = Some q -> requeue e p false s = Some (tt, retired p q rest s).
Proof.
  intros Ea Hq. unfold requeue, tmodify. rewrite (mbind_Some _ _ s tt (with_active rest s)) by (by rewrite Ea, next_tq_head).
  unfold deactivate_tqueue, update_tq, mbindM, tmodify, with_tqueues, with_active. cbn. by rewrite Hq.
Qed.

Section place.
Context (D X : gset positive) (s : tstate) (p : positive) (q : tqueue) (rest : list positive).
Context (H : sched D X s) (Ea : active_tqueues s = p :: rest) (Hq : tqueues s !! p = Some q).

Lemma head_facts : p ∉ rest /\ p ∉ idle_tqueues s /\ 0 <= usage q /\ start_usage s = usage q.
Proof.
  pose proof (sc_nodup _ _ _ H) as Hn. rewrite Ea in Hn. cbn [app] in Hn. apply NoDup_cons in Hn as [Hp _]. rewrite elem_of_app in Hp.
  split; [tauto|]. split; [tauto|]. split; [apply (sc_active _ _ _ H p q Hq); rewrite Ea; by left|]. unfold start_usage. rewrite Ea. unfold usage_at. by rewrite Hq.
Qed.
Lemma usage_rest r u act idl : r ∈ rest -> usage_at (moved p (set_usage u q) act idl s) r = usage_at s r.
Proof. intros Hr. rewrite usage_moved, decide_False; [done|]. intros ->. by apply (proj1 head_facts). Qed.
Lemma rest_sorted : StronglySorted (fun a b => usage_at s a <= usage_at s b) rest.
Proof. pose proof (sc_sorted _ _ _ H) as Hs. rewrite Ea in Hs. by apply StronglySorted_inv in Hs as [Hs _]. Qed.

Lemma sched_placed e : 0 <= e -> sched D X (placed e p q rest s).
Proof.
  intros He. destruct head_facts as (Hp & Hi & Hu & _). apply (sched_moved D X); [done|done| | | | | | |auto|].
  - rewrite insert_active_perm, Ea. done.
  - intros r _. done.
  - intros r Hne Hr. rewrite insert_active_perm in Hr. rewrite Ea. done.
  - set (s' := moved _ _ _ _ _). assert (forall r, r ∈ rest -> usage_at s' r = usage_at s r) as Hr by (intros r; apply usage_rest).
    assert (usage_at s' p = usage q + e) as Hup by (unfold s'; by rewrite usage_moved, decide_True).
    rewrite (insert_active_ext _ (usage_at s')) by (intros r Hr'; symmetry; by apply Hr). rewrite <- Hup. apply insert_active_sorted.
    eapply ssorted_mono; [|apply rest_sorted]. intros a b Ha Hb. cbv beta. by rewrite !Hr.
  - done.
  - lia.
  - done.
Qed.
Lemma sched_retired : idles p s -> sched D X (retired p q rest s).
Proof.
  intros Hidle. destruct head_facts as (Hp & Hi & Hu & _). apply (sched_moved D X); [done|done| | | | |done| |auto|].
  - rewrite Ea. symmetry. apply Permutation_middle.
  - intros r Hne Hr. by apply elem_of_cons in Hr as [->|Hr].
  - intros r _ Hr. rewrite Ea. by right.
  - eapply ssorted_mono; [|apply rest_sorted]. intros a b Ha Hb. cbv beta. by rewrite !usage_rest.
  - done.
  - intros l Hl _ _. by apply Hidle.
Qed.
End place.

(** ** The loop *)

Section loop.
Context (dfc : option bytes) (external_kill : Z -> Z -> option error).
Context (run_task : job -> tstate -> Var * tstate) (is_command : Z -> bytes -> bool).
Context (Hrun : forall j s, calls dfc external_kill s (run_task j s).2).

(** The first queue served none, and is idle now. *)
Definition skipped (s s' : tstate) : Prop :=
  exists p s1, head (active_tqueues s) = Some p /\ serve_queue dfc run_task is_command p s = Some (false, s1) /\ requeue 0 p false s1 = Some (tt, s').
(** It served one. *)
Definition served (e : Z) (p : positive) (s s' : tstate) : Prop :=
  exists s1, head (active_tqueues s) = Some p /\ serve_queue dfc run_task is_command p s = Some (true, s1) /\ requeue e p true s1 = Some (tt, s').

Lemma requeue_skip e p s : requeue e p false s = requeue 0 p false s.
Proof. done. Qed.

Lemma wp_queues_loop D X e fuel : 0 <= e -> forall s, sched D X s -> (length (active_tqueues s) < fuel)%nat ->
  wp (queues_loop dfc run_task is_command fuel e) (fun _ s' => sched D X s' /\ exists s0, rtc skipped s s0 /\
    ((active_tqueues s0 = [] /\ s' = s0) \/ exists p, served e p s0 s')) s.
Proof.
  intros He. induction fuel as [|fuel IH]; intros s H Hf; [lia|]. cbn [queues_loop]. unfold wp. destruct (active_tqueues s) as [|p rest] eqn:Ea.
  { split; [done|]. exists s. split; [done|]. by left. }
  assert (p ∈ active_tqueues s) as Ha by (rewrite Ea; by left).
  match goal with |- match ?m s with _ => _ end => change (wp m (fun _ s' => sched D X s' /\ exists s0, rtc skipped s s0 /\
    ((active_tqueues s0 = [] /\ s' = s0) \/ exists p, served e p s0 s')) s) end.
  apply wp_bind. eapply wp_use; [exact (wp_serve_queue dfc external_kill run_task is_command Hrun D X p s H Ha)|].
  intros did s1 Eserve [[Hs1 Hk1] Hd]. assert (head (active_tqueues s) = Some p) as Hhead by (by rewrite Ea). pose proof (kp_head _ _ Hk1 p Hhead) as Hhead1.
  destruct (active_tqueues s1) as [|p1 rest1] eqn:Ea1; [done|]. injection Hhead1 as ->.
  assert (p ∈ active_tqueues s1) as Hp1 by (rewrite Ea1; by left). destruct (active_lookup D X s1 p Hs1 Hp1) as [q Hq]. apply wp_bind. destruct did.
  - assert (NoDup (p :: rest1)) as Hnd by (pose proof (sc_nodup _ _ _ Hs1) as Hn; apply NoDup_app in Hn as [Hn _]; by rewrite Ea1 in Hn).
    pose proof (requeue_true e p q rest1 s1 Ea1 Hnd Hq) as Er. eapply wp_intro; [exact Er|]. apply wp_ret. split; [by apply (sched_placed D X)|].
    exists s. split; [done|]. right. exists p, s1. done.
  - destruct (Hd eq_refl) as [Hi Eact]. pose proof (requeue_false e p q rest1 s1 Ea1 Hq) as Er. eapply wp_intro; [exact Er|].
    assert (sched D X (retired p q rest1 s1)) as Hs2 by (by apply (sched_retired D X)). assert (rest1 = rest) as -> by congruence.
    eapply wp_mono; [apply IH; [exact Hs2|cbn; cbn [length] in Hf; lia]|]. intros [] s' (Hs' & s0 & Hrtc & Hend). split; [done|]. exists s0. split; [|done].
    apply (rtc_l _ _ (retired p q rest s1)); [|done]. exists p, s1. split; [done|]. split; [done|]. by rewrite <- (requeue_skip e).
Qed.

(** ** Freeing *)

Lemma sched_freed D X s p q : sched D X s -> tqueues s !! p = Some q -> p ∈ idle_tqueues s -> num_bg_tasks q = 0 ->
  sched D X (with_tqueues (delete p (tqueues s)) (with_idle (filter (fun r => r <> p) (idle_tqueues s)) s)).
Proof.
  intros [[H1 H2 H3 H4 H5 (L & HL1 & HL2 & HL3 & HL4)] [H7 H8 H9 H10]] Hp Hi Hn. set (s' := with_tqueues _ _).
  assert (forall r qr, tqueues s' !! r = Some qr -> r <> p /\ tqueues s !! r = Some qr) as Hlook by (intros r qr; cbn; rewrite lookup_delete_Some; naive_solver).
  assert (p ∉ active_tqueues s) as Hpa by (apply NoDup_app in H1 as (_ & H1 & _); intros Ha; by apply (H1 p)).
  assert (forall r, r ∈ idle_tqueues s' <-> r <> p /\ r ∈ idle_tqueues s) as Hidl by (intros r; exact (list_elem_of_filter (fun r => r <> p) (idle_tqueues s) r)).
  split; [split|split].
  - cbn. apply NoDup_app in H1 as (N1 & N2 & N3). apply NoDup_app. split; [done|]. split; [|by apply NoDup_filter]. intros r Hr Hr'. apply list_elem_of_filter in Hr' as [_ Hr']. by apply (N2 r).
  - intros r. rewrite elem_of_app. cbn [active_tqueues s' with_tqueues with_idle]. rewrite Hidl. cbn. destruct (decide (r = p)) as [->|Hne].
    + rewrite lookup_delete_eq. split; [intros [Ha|[Ha _]]; done|by intros []].
    + rewrite lookup_delete_ne by done. rewrite <- H2, elem_of_app. tauto.
  - intros r qr Hr. destruct (Hlook r qr Hr) as [Hne Hr']. rewrite Hidl. intros [_ Hri]. by apply (H3 r).
  - intros r qr Hr. destruct (Hlook r qr Hr) as [Hne Hr']. by apply (H4 r).
  - eapply ssorted_mono; [|exact H5]. intros a b Ha Hb. cbv beta. unfold usage_at. cbn. rewrite !lookup_delete_ne; [done|intros <-; done|intros <-; done].
  - exists L. split; [|split; [|split; [|exact HL4]]].
    + intros r qr Hr. destruct (Hlook r qr Hr) as [Hne Hr']. destruct (HL1 r qr Hr') as [Ha Hb]. split; [done|]. rewrite Hidl. intros [_ Hri]. by apply Hb.
    + intros r r' qr qr' x Hr Hr'. destruct (Hlook r qr Hr) as [_ Hr1], (Hlook r' qr' Hr') as [_ Hr1']. by apply (HL2 r r' qr qr').
    + intros r qr x Hr. destruct (Hlook r qr Hr) as [_ Hr1]. by apply (HL3 r qr).
  - intros r r' qr qr' Hr Hr'. destruct (Hlook r qr Hr) as [_ Hr1], (Hlook r' qr' Hr') as [_ Hr1']. by apply (H7 r r').
  - exact H8.
  - intros r qr Hr. destruct (Hlook r qr Hr) as [_ Hr1]. exact (H9 r qr Hr1).
  - intros t Ht. destruct (H10 t Ht) as [Hpos (r & qr & Hr & Hpr)]. split; [done|]. exists r, qr. split; [|done]. cbn. rewrite lookup_delete_ne; [done|].
    intros <-. assert (qr = q) as -> by congruence. destruct (H9 p q Hp) as [Hc _]. rewrite Hn in Hc.
    assert (t ∈ filter (fun t => progr_of t = player q) (waiting_tasks s)) as Hin by (apply list_elem_of_filter; split; [congruence|done]).
    unfold count_of in Hc. destruct (filter _ (waiting_tasks s)); [by apply not_elem_of_nil in Hin|]. cbn [length] in Hc. lia.
Qed.

Lemma wp_free_abandoned D X ps : forall s, sched D X s -> NoDup ps -> (forall p, p ∈ ps -> p ∈ idle_tqueues s) ->
  wp (free_abandoned ps) (fun _ s' => sched D X s' /\ active_tqueues s' = active_tqueues s /\ (forall r, r ∈ active_tqueues s -> tqueues s' !! r = tqueues s !! r)) s.
Proof.
  induction ps as [|p ps IH]; intros s H Hnd Hin; cbn [free_abandoned]; [by apply wp_ret|].
  assert (p ∈ idle_tqueues s) as Hi by (apply Hin; by left). destruct (idle_lookup D X s p H Hi) as [q Hq]. apply NoDup_cons in Hnd as [Hp Hnd].
  apply wp_bind, (wp_get_tq _ _ _ _ Hq), wp_bind. destruct (abandoned q) eqn:Eab.
  - unfold abandoned in Eab. apply andb_true_iff in Eab as [_ En]. apply Z.eqb_eq in En. unfold free_tqueue. apply wp_bind.
    unfold unlink_idle, wp at 1. rewrite bool_decide_eq_true_2 by done. apply wp_tmodify. cbn [tqueues with_idle].
    eapply wp_mono; [apply IH; [by apply (sched_freed D X s p q)|done|]|].
    + intros r Hr. cbn. apply list_elem_of_filter. split; [by intros ->|apply Hin; by right].
    + intros [] s' (H1 & H2 & H3). split; [done|]. split; [done|]. intros r Hr. rewrite H3 by done. cbn. rewrite lookup_delete_ne; [done|].
      intros <-. by apply (sched_apart D X s p H).
  - apply wp_ret. apply IH; [done|done|]. intros r Hr. apply Hin. by right.
Qed.

Lemma wp_run_ready_tasks now e s : 0 <= e -> sched ∅ ∅ s ->
  wp (run_ready_tasks dfc run_task is_command now e) (fun _ s' => sched ∅ ∅ s' /\ exists s1 s0 s2,
    release_waiting dfc now s = Some (tt, s1) /\ good ∅ ∅ s s1 /\ rtc skipped s1 s0 /\ ((active_tqueues s0 = [] /\ s2 = s0) \/ exists p, served e p s0 s2) /\
    active_tqueues s' = active_tqueues s2 /\ forall r, r ∈ active_tqueues s2 -> tqueues s' !! r = tqueues s2 !! r) s.
Proof.
  intros He H. apply wp_bind. eapply wp_use; [exact (wp_release_waiting dfc ∅ ∅ now s H)|]. intros [] s1 Er Hg. pose proof Hg as [Hs1 Hk1].
  apply wp_bind. wp_here. eapply wp_mono; [apply (wp_queues_loop ∅ ∅ e _ He s1 Hs1); lia|]. intros [] s2 (Hs2 & s0 & Hrtc & Hend).
  wp_here. eapply wp_mono; [apply (wp_free_abandoned ∅ ∅ _ s2 Hs2)|].
  - pose proof (sc_nodup _ _ _ Hs2) as Hn. by apply NoDup_app in Hn as (_ & _ & Hn).
  - done.
  - intros [] s' (Hs' & E1 & E2). split; [done|]. by exists s1, s0, s2.
Qed.
End loop.
