(* ===== verification/TaskFair.v ===== *)
(** * How long a queue waits

    [rank P s p] bounds the runs before the queue [p] is the first of the
    loop: a queue of [P] that is ahead of it can be served once for each
    second of usage that it has less, and once more. *)
From Stdlib Require Import ZArith Lia Sorting.Sorted.
From stdpp Require Import prelude gmap sorting.
From S2P Require Import Prelude CString Value ObjCode ObjFun TaskInput TaskCode TaskSpec TaskKeep TaskOps TaskCall TaskLoop.

Local Open Scope Z_scope.
Local Open Scope moo_scope.

(** ** What is ahead in a list *)

Fixpoint ahead (l : list positive) (p : positive) : list positive :=
  match l with [] => [] | x :: l => if decide (x = p) then [] else x :: ahead l p end.

Lemma ahead_in l p r : r ∈ ahead l p -> r ∈ l /\ r <> p.
Proof.
  induction l as [|x l IH]; cbn [ahead]; [by intros ?%not_elem_of_nil|]. destruct (decide (x = p)); [by intros ?%not_elem_of_nil|].
  intros [->|Hr]%elem_of_cons; [split; [by left|done]|]. destruct (IH Hr). split; [by right|done].
Qed.
Lemma ahead_sublist l l' p r : l `sublist_of` l' -> NoDup l' -> p ∈ l -> r ∈ l -> r ∈ ahead l p <-> r ∈ ahead l' p.
Proof.
  induction 1 as [|x l l' Hs IH|x l l' Hs IH]; intros Hnd Hp Hr; [by apply not_elem_of_nil in Hp| |]; apply NoDup_cons in Hnd as [Hx Hnd]; cbn [ahead].
  - destruct (decide (x = p)) as [->|Hne]; [done|]. apply elem_of_cons in Hp as [->|Hp]; [done|]. rewrite !elem_of_cons. destruct (decide (r = x)) as [->|Hrx]; [tauto|].
    apply elem_of_cons in Hr as [->|Hr]; [done|]. rewrite IH by done. tauto.
  - destruct (decide (x = p)) as [->|Hne]; [destruct Hx; by eapply elem_of_sublist|]. rewrite elem_of_cons, IH by done.
    assert (r <> x) by (intros ->; apply Hx; by eapply elem_of_sublist). tauto.
Qed.
Lemma ahead_cons x l p r : x <> p -> r ∈ ahead (x :: l) p <-> r = x \/ r ∈ ahead l p.
Proof. intros Hne. cbn [ahead]. rewrite decide_False by done. apply elem_of_cons. Qed.
(** A queue with no less usage is inserted behind. *)
Lemma ahead_insert f u x p l : StronglySorted (fun a b => f a <= f b) l -> p ∈ l -> x ∉ l -> x ∈ ahead (insert_active f u x l) p -> u < f p.
Proof.
  induction l as [|r l IH]; intros Hs Hp Hx; [by apply not_elem_of_nil in Hp|]. apply StronglySorted_inv in Hs as [Hs Hr]. apply not_elem_of_cons in Hx as [Hxr Hx]. cbn [insert_active].
  destruct (f r <=? u) eqn:E.
  - cbn [ahead]. destruct (decide (r = p)) as [->|Hne]; [by intros ?%not_elem_of_nil|]. intros [->|Ha]%elem_of_cons; [done|]. apply elem_of_cons in Hp as [->|Hp]; [done|]. by apply IH.
  - apply Z.leb_gt in E. intros _. rewrite Forall_forall in Hr. apply elem_of_cons in Hp as [->|Hp]; [done|]. specialize (Hr p Hp). lia.
Qed.

(** ** The rank *)

Definition cost (s : tstate) (p r : positive) : Z :=
  if decide (r ∈ ahead (active_tqueues s) p) then usage_at s p - usage_at s r + 1
  else if decide (r ∈ active_tqueues s) then 0
  else usage_at s p - start_usage s + 1.
Definition rank (P : gset positive) (s : tstate) (p : positive) : Z := foldr (fun r n => cost s p r + n) 0 (elements P).

Lemma rank_mono P s p s' p' : (forall r, r ∈ P -> cost s' p' r <= cost s p r) -> rank P s' p' <= rank P s p.
Proof.
  intros H. unfold rank. assert (forall r, r ∈ elements P -> cost s' p' r <= cost s p r) as H' by (intros r Hr; by apply H, elem_of_elements).
  clear H. induction (elements P) as [|x l IH]; cbn [foldr]; [done|]. assert (cost s' p' x <= cost s p x) by (apply H'; by left).
  enough (foldr (fun r n => cost s' p' r + n) 0 l <= foldr (fun r n => cost s p r + n) 0 l) by lia. apply IH. intros r Hr. apply H'. by right.
Qed.
Lemma rank_less P s p s' p' x : (forall r, r ∈ P -> cost s' p' r <= cost s p r) -> x ∈ P -> cost s' p' x < cost s p x -> rank P s' p' < rank P s p.
Proof.
  intros H Hx%elem_of_elements Hlt. unfold rank. assert (forall r, r ∈ elements P -> cost s' p' r <= cost s p r) as H' by (intros r Hr; by apply H, elem_of_elements).
  clear H. induction (elements P) as [|y l IH]; [by apply not_elem_of_nil in Hx|]. cbn [foldr]. assert (cost s' p' y <= cost s p y) by (apply H'; by left).
  assert (forall r, r ∈ l -> cost s' p' r <= cost s p r) as Hl by (intros r Hr; apply H'; by right).
  apply elem_of_cons in Hx as [->|Hx]; [|specialize (IH Hx Hl); lia].
  enough (foldr (fun r n => cost s' p' r + n) 0 l <= foldr (fun r n => cost s p r + n) 0 l) by lia. clear -Hl. induction l as [|z l IH]; [done|]. cbn [foldr].
  assert (cost s' p' z <= cost s p z) by (apply Hl; by left). enough (foldr (fun r n => cost s' p' r + n) 0 l <= foldr (fun r n => cost s p r + n) 0 l) by lia. apply IH. intros r Hr. apply Hl. by right.
Qed.

Lemma cost_bound D X s p r : sched D X s -> p ∈ active_tqueues s -> 0 <= cost s p r <= usage_at s p - start_usage s + 1.
Proof.
  intros H Hp. pose proof (start_usage_least D X s p H Hp). unfold cost. destruct (decide _) as [Ha|_].
  - destruct (ahead_in _ _ _ Ha) as [Hr _]. pose proof (start_usage_least D X s r H Hr). split; [|lia].
    pose proof (sc_sorted _ _ _ H) as Hs. enough (usage_at s r <= usage_at s p) by lia. clear -Hs Ha Hp. induction (active_tqueues s) as [|x l IH]; [by apply not_elem_of_nil in Hp|].
    apply StronglySorted_inv in Hs as [Hs Hx]. cbn [ahead] in Ha. destruct (decide (x = p)); [by apply not_elem_of_nil in Ha|]. apply elem_of_cons in Hp as [->|Hp]; [done|].
    apply elem_of_cons in Ha as [->|Ha]; [rewrite Forall_forall in Hx; by apply Hx|]. by apply IH.
  - destruct (decide _); lia.
Qed.
Lemma rank_bound D X P s p : sched D X s -> p ∈ active_tqueues s -> 0 <= rank P s p <= Z.of_nat (size P) * (usage_at s p - start_usage s + 1).
Proof.
  intros H Hp. unfold rank. change (size P) with (length (elements P)). induction (elements P) as [|x l IH]; [cbn; lia|]. cbn [foldr length].
  pose proof (cost_bound D X s p x H Hp). lia.
Qed.

(** ** Steps *)

Lemma start_usage_head s h : head (active_tqueues s) = Some h -> start_usage s = usage_at s h.
Proof. unfold start_usage. destruct (active_tqueues s); [done|]. by intros [= ->]. Qed.

Lemma cost_keeps D X s s' p r : sched D X s -> sched D X s' -> keeps s s' -> p ∈ active_tqueues s -> cost s' p r <= cost s p r.
Proof.
  intros H H' [K1 K2 K3 K4 _] Hp. destruct (head (active_tqueues s)) as [h|] eqn:Eh; [|by destruct (active_tqueues s); [apply not_elem_of_nil in Hp|]].
  pose proof (start_usage_least D X s p H Hp) as Hleast. assert (NoDup (active_tqueues s')) as Hnd by (pose proof (sc_nodup _ _ _ H') as Hn; by apply NoDup_app in Hn as [Hn _]).
  assert (start_usage s' = start_usage s) as Est.
  { rewrite (start_usage_head s h Eh), (start_usage_head s' h); [apply K3; by apply head_in|by apply K2]. }
  unfold cost. rewrite Est, (K3 p Hp). destruct (decide (r ∈ active_tqueues s)) as [Hr|Hr].
  - rewrite (decide_ext _ _ _ _ (ahead_sublist _ _ p r K1 Hnd Hp Hr)). rewrite (K3 r Hr).
    destruct (decide (r ∈ ahead (active_tqueues s') p)); [done|]. rewrite decide_True; [done|]. by eapply elem_of_sublist.
  - rewrite (decide_False (P := r ∈ ahead (active_tqueues s) p)) by (by intros [? _]%ahead_in).
    destruct (decide (r ∈ ahead (active_tqueues s') p)) as [Ha|_]; [|destruct (decide _); lia].
    destruct (ahead_in _ _ _ Ha) as [Hr' _]. rewrite (K4 h r eq_refl Hr' Hr). by rewrite <- (start_usage_head s h Eh).
Qed.

Section moves.
Context (D X : gset positive) (s : tstate) (x p : positive) (q : tqueue) (rest : list positive).
Context (H : sched D X s) (Ea : active_tqueues s = x :: rest) (Hq : tqueues s !! x = Some q) (Hxp : x <> p) (Hp : p ∈ rest).

Lemma move_facts u act idl s' : s' = moved x (set_usage u q) act idl s -> usage_at s' p = usage_at s p /\ (forall r, r <> x -> usage_at s' r = usage_at s r) /\ usage_at s' x = u /\ active_tqueues s' = act.
Proof.
  intros ->. split; [by rewrite usage_moved, decide_False|]. split; [intros r Hr; by rewrite usage_moved, decide_False|]. split; [by rewrite usage_moved, decide_True|done].
Qed.
Lemma usage_x : usage_at s x = usage q /\ start_usage s = usage q.
Proof. unfold start_usage. rewrite Ea. unfold usage_at. by rewrite Hq. Qed.

Lemma cost_retired r s' : s' = retired x q rest s -> sched D X s' -> cost s' p r <= cost s p r.
Proof.
  intros Es H'. destruct (head_facts D X s x q rest H Ea Hq) as (Hx & _ & _). destruct (move_facts _ _ _ s' Es) as (Up & Ur & _ & Ea'). destruct usage_x as [Ux Ust].
  assert (usage q <= start_usage s') as Hst.
  { unfold start_usage. rewrite Ea'. destruct rest as [|h rest'] eqn:Er; [by apply not_elem_of_nil in Hp|]. rewrite Ur by (intros ->; apply Hx; by left). rewrite <- Ust.
    apply (start_usage_least D X s h H). rewrite Ea. right. by left. }
  unfold cost. rewrite Up, Ea', Ea, Ust. destruct (decide (r = x)) as [->|Hrx].
  - rewrite decide_False by (by intros [? _]%ahead_in). rewrite decide_False by done. rewrite decide_True by (apply ahead_cons; [done|by left]). lia.
  - rewrite (Ur r Hrx). rewrite (decide_ext (r ∈ ahead (x :: rest) p) (r ∈ ahead rest p)) by (rewrite ahead_cons by done; tauto).
    rewrite (decide_ext (r ∈ x :: rest) (r ∈ rest)) by (rewrite elem_of_cons; tauto). destruct (decide _); [done|]. destruct (decide _); lia.
Qed.

Lemma cost_placed e r s' : s' = placed e x q rest s -> 1 <= e -> sched D X s' -> cost s' p r <= cost s p r /\ cost s' p x < cost s p x.
Proof.
  intros Es He H'. destruct (head_facts D X s x q rest H Ea Hq) as (Hx & _ & _). destruct (move_facts _ _ _ s' Es) as (Up & Ur & Uu & Ea'). destruct usage_x as [Ux Ust].
  set (act := insert_active (usage_at s) (usage q + e) x rest) in *.
  assert (forall r, r ∈ act <-> r = x \/ r ∈ rest) as Hact by (intros y; unfold act; rewrite insert_active_perm; apply elem_of_cons).
  assert (NoDup act) as Hnd by (pose proof (sc_nodup _ _ _ H') as Hn; rewrite Ea' in Hn; by apply NoDup_app in Hn as [Hn _]).
  assert (forall y, y ∈ rest -> usage q <= usage_at s y) as Hle.
  { intros y Hy. rewrite <- Ust. apply (start_usage_least D X s y H). rewrite Ea. by right. }
  assert (usage q <= start_usage s') as Hst.
  { destruct (head (active_tqueues s')) as [h|] eqn:Eh; [|rewrite Ea' in Eh; assert (x ∈ act) as Hxa by (apply Hact; by left); destruct act; [by apply not_elem_of_nil in Hxa|done]].
    rewrite (start_usage_head s' h Eh). apply head_in in Eh. rewrite Ea', Hact in Eh. destruct Eh as [->|Eh]; [rewrite Uu; lia|]. rewrite Ur; [by apply Hle|]. by intros ->. }
  assert (cost s p x = usage_at s p - usage q + 1) as Ecx.
  { unfold cost. rewrite Ea, decide_True by (apply ahead_cons; [done|by left]). by rewrite Ux. }
  assert (cost s' p x < cost s p x) as Hless.
  { rewrite Ecx. specialize (Hle p Hp). unfold cost. rewrite Ea', Up, Uu. destruct (decide _); [lia|]. rewrite decide_True by (apply Hact; by left). lia. }
  split; [|done]. destruct (decide (r = x)) as [->|Hrx]; [lia|]. unfold cost. rewrite Up, Ea', Ea, (Ur r Hrx), Ust.
  destruct (decide (r ∈ rest)) as [Hr|Hr].
  - rewrite (decide_ext (r ∈ ahead act p) (r ∈ ahead rest p)).
    2: { symmetry. apply ahead_sublist; [apply insert_active_sub|done|done|done]. }
    rewrite (decide_ext (r ∈ ahead (x :: rest) p) (r ∈ ahead rest p)) by (rewrite ahead_cons by done; tauto).
    rewrite (decide_True (P := r ∈ act)) by (apply Hact; by right). rewrite (decide_True (P := r ∈ x :: rest)) by (by right). done.
  - rewrite (decide_False (P := r ∈ ahead act p)) by (intros [Hra _]%ahead_in; apply Hact in Hra; tauto). rewrite (decide_False (P := r ∈ act)) by (rewrite Hact; tauto).
    rewrite decide_False by (intros [Hra _]%ahead_in; apply elem_of_cons in Hra; tauto). rewrite decide_False by (rewrite elem_of_cons; tauto). lia.
Qed.
End moves.

(** ** A run of the loop that does not reach a queue *)

Section fair.
Context (dfc : option bytes) (external_kill : Z -> Z -> option error).
Context (run_task : job -> tstate -> Var * tstate) (is_command : Z -> bytes -> bool).
Context (Hrun : forall j s, calls dfc external_kill s (run_task j s).2).

Notation skipped := (skipped dfc run_task is_command).
Notation served := (served dfc run_task is_command).

(** What a step keeps for [p], and its costs *)
Definition waits_on (p : positive) (s s' : tstate) : Prop := p ∈ active_tqueues s' /\ usage_at s' p = usage_at s p /\ forall r, cost s' p r <= cost s p r.

Lemma waits_refl p s : p ∈ active_tqueues s -> waits_on p s s.
Proof. done. Qed.
Lemma waits_trans p s1 s2 s3 : waits_on p s1 s2 -> waits_on p s2 s3 -> waits_on p s1 s3.
Proof. intros (A1 & A2 & A3) (B1 & B2 & B3). split; [done|]. split; [congruence|]. intros r. specialize (A3 r). specialize (B3 r). lia. Qed.
Lemma waits_keeps D X p s s' : sched D X s -> good D X s s' -> p ∈ active_tqueues s -> waits_on p s s'.
Proof.
  intros H [H' Hk] Hp. split; [by apply (keeps_active s)|]. split; [by apply Hk|]. intros r. by apply (cost_keeps D X).
Qed.

Lemma serve_facts D X s x did s1 : sched D X s -> head (active_tqueues s) = Some x -> serve_queue dfc run_task is_command x s = Some (did, s1) ->
  good D X s s1 /\ (did = false -> idles x s1) /\ exists q rest, active_tqueues s1 = x :: rest /\ tqueues s1 !! x = Some q.
Proof.
  intros H Hx Es. pose proof (wp_serve_queue dfc external_kill run_task is_command Hrun D X x s H (head_in _ _ Hx)) as Hw. unfold wp in Hw. rewrite Es in Hw.
  destruct Hw as [Hg Hd]. split; [done|]. split; [intros E; by apply Hd|]. destruct Hg as [Hs1 Hk]. pose proof (kp_head _ _ Hk x Hx) as Hh.
  destruct (active_tqueues s1) as [|y rest] eqn:Ea; [done|]. injection Hh as ->. destruct (active_lookup D X s1 x Hs1) as [q Hq]; [rewrite Ea; by left|]. by exists q, rest.
Qed.
Lemma in_rest x p rest (l : list positive) : l = x :: rest -> p ∈ l -> x <> p -> p ∈ rest.
Proof. by intros -> [->|Hp]%elem_of_cons Hne. Qed.

Lemma skipped_waits D X s s' p : sched D X s -> skipped s s' -> p ∈ active_tqueues s -> head (active_tqueues s) <> Some p -> sched D X s' /\ waits_on p s s'.
Proof.
  intros H (x & s1 & Hx & Es & Er) Hp Hne. destruct (serve_facts D X s x false s1 H Hx Es) as (Hg & Hi & q & rest & Ea & Hq). pose proof Hg as [Hs1 Hk1].
  rewrite (requeue_false 0 x q rest s1 Ea Hq) in Er. injection Er as <-. assert (sched D X (retired x q rest s1)) as H' by (apply (sched_retired D X); [done|done|done|by apply Hi]).
  split; [done|]. pose proof (waits_keeps D X p s s1 H Hg Hp) as Hw. apply (waits_trans p s s1 _ Hw). destruct Hw as (Hp1 & _). assert (x <> p) as Hxp by congruence.
  pose proof (in_rest x p rest _ Ea Hp1 Hxp) as Hpr. split; [exact Hpr|]. split; [unfold retired; by rewrite usage_moved, decide_False|]. intros r. by apply (cost_retired D X s1 x p q rest).
Qed.
Lemma skips_waits D X s s' p : rtc skipped s s' -> sched D X s -> p ∈ active_tqueues s ->
  (forall s0, rtc skipped s s0 -> head (active_tqueues s0) <> Some p) -> sched D X s' /\ waits_on p s s'.
Proof.
  induction 1 as [s|s s1 s2 Hstep _ IH]; intros H Hp Hn; [by split; [|apply waits_refl]|].
  destruct (skipped_waits D X s s1 p H Hstep Hp) as [H1 Hw1]; [apply Hn; by apply rtc_refl|]. destruct IH as [H2 Hw2]; [done|by destruct Hw1| |].
  - intros s0 Hs0. apply Hn. by apply (rtc_l _ _ s1).
  - split; [done|]. by apply (waits_trans p s s1).
Qed.
Lemma served_waits D X e s s' x p : 1 <= e -> sched D X s -> served e x s s' -> p ∈ active_tqueues s -> head (active_tqueues s) <> Some p ->
  waits_on p s s' /\ cost s' p x < cost s p x /\ x ∈ active_tqueues s'.
Proof.
  intros He H (s1 & Hx & Es & Er) Hp Hne. destruct (serve_facts D X s x true s1 H Hx Es) as (Hg & _ & q & rest & Ea & Hq). pose proof Hg as [Hs1 Hk1].
  assert (NoDup (x :: rest)) as Hnd by (pose proof (sc_nodup _ _ _ Hs1) as Hn; apply NoDup_app in Hn as [Hn _]; by rewrite Ea in Hn).
  rewrite (requeue_true e x q rest s1 Ea Hnd Hq) in Er. injection Er as <-. assert (sched D X (placed e x q rest s1)) as H' by (apply (sched_placed D X); [done|done|done|lia]).
  pose proof (waits_keeps D X p s s1 H Hg Hp) as Hw. pose proof Hw as (Hp1 & _ & Hc1). assert (x <> p) as Hxp by congruence.
  pose proof (in_rest x p rest _ Ea Hp1 Hxp) as Hpr. assert (forall r, cost (placed e x q rest s1) p r <= cost s1 p r /\ cost (placed e x q rest s1) p x < cost s1 p x) as Hc.
  { intros r. by apply (cost_placed D X s1 x p q rest Hs1 Ea Hq Hxp Hpr e r). }
  split; [apply (waits_trans p s s1 _ Hw); split; [|split; [unfold placed; by rewrite usage_moved, decide_False|intros r; by apply Hc]]|split].
  - cbn. rewrite insert_active_perm. by right.
  - specialize (Hc1 x). destruct (Hc x). lia.
  - cbn. rewrite insert_active_perm. by left.
Qed.

(** The loop of a run comes to the queue. *)
Definition reaches (now : timeval) (s : tstate) (p : positive) : Prop :=
  exists s1 s0, release_waiting dfc now s = Some (tt, s1) /\ rtc skipped s1 s0 /\ head (active_tqueues s0) = Some p.

Lemma cost_end s s' p r : active_tqueues s' = active_tqueues s -> (forall x, x ∈ active_tqueues s -> tqueues s' !! x = tqueues s !! x) -> p ∈ active_tqueues s -> cost s' p r = cost s p r.
Proof.
  intros Ea Hq Hp. assert (forall x, x ∈ active_tqueues s -> usage_at s' x = usage_at s x) as Hu by (intros x Hx; unfold usage_at; by rewrite Hq).
  unfold cost. rewrite Ea, (Hu p Hp). assert (start_usage s' = start_usage s) as ->.
  { destruct (head (active_tqueues s)) as [h|] eqn:Eh; [|by destruct (active_tqueues s); [apply not_elem_of_nil in Hp|]].
    rewrite (start_usage_head s h Eh), (start_usage_head s' h); [by apply Hu, head_in|by rewrite Ea]. }
  destruct (decide (r ∈ ahead _ _)) as [Ha|]; [|done]. by rewrite (Hu r (proj1 (ahead_in _ _ _ Ha))).
Qed.

Lemma run_waits now e P s s' p : 1 <= e -> sched ∅ ∅ s -> p ∈ active_tqueues s -> run_ready_tasks dfc run_task is_command now e s = Some (tt, s') -> dom (tqueues s') ⊆ P ->
  ~ reaches now s p -> sched ∅ ∅ s' /\ p ∈ active_tqueues s' /\ usage_at s' p = usage_at s p /\ rank P s' p < rank P s p.
Proof.
  intros He H Hp Er HP Hn. assert (0 <= e) as He0 by lia. pose proof (wp_run_ready_tasks dfc external_kill run_task is_command Hrun now e s He0 H) as Hw. unfold wp in Hw. rewrite Er in Hw.
  destruct Hw as (Hs' & s1 & s0 & s2 & Erel & Hg & Hrtc & Hend & Ea & Eq). pose proof (waits_keeps ∅ ∅ p s s1 H Hg Hp) as Hw1. pose proof Hw1 as (Hp1 & _).
  assert (forall s0, rtc skipped s1 s0 -> head (active_tqueues s0) <> Some p) as Hnot by (intros s3 Hs3 Hh; apply Hn; by exists s1, s3).
  destruct (skips_waits ∅ ∅ s1 s0 p Hrtc (proj1 Hg) Hp1 Hnot) as [Hs0 Hw0]. pose proof (waits_trans _ _ _ _ Hw1 Hw0) as Hw2. pose proof Hw2 as (Hp0 & Hu0 & Hc0).
  destruct Hend as [[Ea0 _]|[x Hx]]; [rewrite Ea0 in Hp0; by apply not_elem_of_nil in Hp0|].
  destruct (served_waits ∅ ∅ e s0 s2 x p He Hs0 Hx Hp0 (Hnot s0 Hrtc)) as (Hw3 & Hlt & Hx2). destruct (waits_trans _ _ _ _ Hw2 Hw3) as (Hp2 & Hu2 & Hc2).
  split; [done|]. rewrite Ea. split; [done|]. split; [unfold usage_at in *; by rewrite Eq|].
  apply (rank_less P s p s' p x).
  - intros r _. rewrite (cost_end s2 s' p r) by done. apply Hc2.
  - apply HP, elem_of_dom. apply (sc_dom _ _ _ Hs'), elem_of_app. left. by rewrite Ea.
  - rewrite (cost_end s2 s' p x) by done. specialize (Hc0 x). lia.
Qed.

(** Runs that do not reach the queue [p], with calls between them *)
Inductive unreached (P : gset positive) (p : positive) : nat -> tstate -> tstate -> Prop :=
| unreached_none s : unreached P p 0 s s
| unreached_run n now e s s1 s2 s3 : 1 <= e -> run_ready_tasks dfc run_task is_command now e s = Some (tt, s1) -> dom (tqueues s1) ⊆ P -> ~ reaches now s p ->
    calls dfc external_kill s1 s2 -> unreached P p n s2 s3 -> unreached P p (S n) s s3.

Lemma unreached_rank P p n s s' : unreached P p n s s' -> sched ∅ ∅ s -> p ∈ active_tqueues s -> Z.of_nat n <= rank P s p.
Proof.
  induction 1 as [s|n now e s s1 s2 s3 He Er HP Hn Hc _ IH]; intros H Hp; [by apply (rank_bound ∅ ∅ P)|].
  destruct (run_waits now e P s s1 p He H Hp Er HP Hn) as (H1 & Hp1 & _ & Hlt). pose proof (calls_good dfc external_kill ∅ ∅ s1 s2 Hc H1) as Hg.
  pose proof (waits_keeps ∅ ∅ p s1 s2 H1 Hg Hp1) as (Hp2 & _ & Hc2). specialize (IH (proj1 Hg) Hp2).
  assert (rank P s2 p <= rank P s1 p) by (apply rank_mono; intros r _; apply Hc2). lia.
Qed.
End fair.
