(* ===== verification/TaskFun.v ===== *)
(** * Queues as lists: input, ready and waiting tasks, and who may kill one *)
From Stdlib Require Import ZArith Lia Sorting.Sorted.
From stdpp Require Import prelude gmap sorting.
From S2P Require Import Prelude CString Value ObjCode ObjFun TaskInput TaskCode TaskSpec TaskKeep TaskOps TaskCall TaskLoop TaskFair.

Local Open Scope Z_scope.
Local Open Scope moo_scope.

(** ** The input of a queue as a list *)

Definition item (n : input_task) : task_kind * bytes := (kind n, text n).
Definition holds (h : gmap positive input_task) (x : positive) (i : task_kind * bytes) : Prop := exists n, h !! x = Some n /\ item n = i.
Definition implements (l : qstate) (ql : list (task_kind * bytes)) : Prop :=
  exists ids, threads (nodes l) (tq l) ids /\ Forall2 (holds (nodes l)) ids ql.
Definition wanted (q : tqueue) (how : Z) (i : task_kind * bytes) : bool := accepts q how (is_oob i.1).
Definition deliver (q : tqueue) (i : task_kind * bytes) : task_kind * bytes := delivered q (mk_input i.1 i.2 0 None None).

Lemma extract_Forall2 {A B} (R : A -> B -> Prop) (f : A -> bool) (g : B -> bool) l k : (forall x i, R x i -> f x = g i) -> Forall2 R l k ->
  match extract f l, extract g k with
  | Some (x, l'), Some (i, k') => R x i /\ Forall2 R l' k'
  | None, None => True
  | _, _ => False
  end.
Proof.
  intros Hfg. induction 1 as [|x i l k Hx Hlk IH]; [done|]. cbn [extract]. rewrite (Hfg x i Hx). destruct (g i); [done|].
  destruct (extract f l) as [[y l']|], (extract g k) as [[j k']|]; try done. destruct IH. split; [done|]. by constructor.
Qed.
Lemma Forall2_in {A B} (R R' : A -> B -> Prop) l k : Forall2 R l k -> (forall x i, x ∈ l -> R x i -> R' x i) -> Forall2 R' l k.
Proof. induction 1 as [|x i l k Hx _ IH]; intros H; constructor; [apply H; [by left|done]|]. apply IH. intros y j Hy. apply H. by right. Qed.
Lemma holds_contents h h' x i : contents h' x = contents h x -> holds h x i -> holds h' x i.
Proof.
  unfold contents, holds. intros E (n & Hn & Hi). rewrite Hn in E. destruct (h' !! x) as [n'|]; [|done]. injection E as E1 E2 E3. exists n'. split; [done|].
  unfold item in *. by rewrite E1, E2.
Qed.


(** ** Waiting tasks that become ready *)

Definition due (now : timeval) (t : bg_task) : bool := timer_cmp Z.leb (get_start_time t) now.
(** It is the turn of its queue's *)
Definition ready (s : tstate) (t : bg_task) : Prop :=
  exists p q, p ∈ active_tqueues s /\ tqueues s !! p = Some q /\ player q = progr_of t /\ t ∈ first_bg q.

(** Queues keep their player and their ready tasks. *)
Definition keeps_bg (s s' : tstate) : Prop :=
  (forall p, p ∈ active_tqueues s -> p ∈ active_tqueues s') /\
  forall p q, tqueues s !! p = Some q -> exists q', tqueues s' !! p = Some q' /\ player q' = player q /\ forall t, t ∈ first_bg q -> t ∈ first_bg q'.

Lemma keeps_bg_trans s1 s2 s3 : keeps_bg s1 s2 -> keeps_bg s2 s3 -> keeps_bg s1 s3.
Proof.
  intros [A1 A2] [B1 B2]. split; [auto|]. intros p q Hq. destruct (A2 p q Hq) as (q2 & Hq2 & E2 & I2). destruct (B2 p q2 Hq2) as (q3 & Hq3 & E3 & I3).
  exists q3. split; [done|]. split; [congruence|]. auto.
Qed.
Lemma ready_keeps s s' t : keeps_bg s s' -> ready s t -> ready s' t.
Proof.
  intros [H1 H2] (p & q & Ha & Hq & Hpl & Ht). destruct (H2 p q Hq) as (q' & Hq' & Epl & Hin). exists p, q'. split; [auto|]. split; [done|]. split; [congruence|auto].
Qed.

(** Each queue has the tasks [ts] of its player at the end. *)
Definition same_players (s s' : tstate) : Prop :=
  forall p q, tqueues s !! p = Some q -> exists q', tqueues s' !! p = Some q' /\ player q' = player q.
Definition adds (ts : list bg_task) (s s' : tstate) : Prop :=
  forall p q', tqueues s' !! p = Some q' -> first_bg q' = bg_of s p ++ filter (fun t => progr_of t = player q') ts.

Lemma keeps_players s s' : keeps_bg s s' -> same_players s s'.
Proof. intros [_ H] p q Hq. destruct (H p q Hq) as (q' & H1 & H2 & _). by exists q'. Qed.
Lemma adds_nil s : adds [] s s.
Proof. intros p q Hq. rewrite filter_nil, app_nil_r. unfold bg_of. by rewrite Hq. Qed.

Lemma adds_cons w t ts s s1 s' : sched ∅ ∅ (with_waiting w s') -> same_players s s1 -> same_players s1 s' -> 0 <= progr_of t -> ready s1 t ->
  adds [t] s s1 -> adds ts s1 s' -> adds (t :: ts) s s'.
Proof.
  intros Hs Hp0 Hp1 Hpos (r & qr & _ & Hr & Hpr & _) H1 H2 p q' Hq'. rewrite (H2 p q' Hq'), (filter_cons _ t ts).
  destruct (tqueues s1 !! p) as [q1|] eqn:Hq1.
  - destruct (Hp1 p q1 Hq1) as (q2 & Hq2 & Hpl). assert (q2 = q') as -> by congruence. unfold bg_of at 1. rewrite Hq1, (H1 p q1 Hq1), <- Hpl.
    rewrite filter_cons, filter_nil, <- app_assoc. by case_decide.
  - assert (tqueues s !! p = None) as Hq0.
    { destruct (tqueues s !! p) as [q0|] eqn:E; [|done]. destruct (Hp0 p q0 E) as (? & ? & _). congruence. }
    unfold bg_of. rewrite Hq1, Hq0. rewrite decide_False; [done|]. intros E.
    destruct (Hp1 r qr Hr) as (qr' & Hqr' & Hplr). assert (r = p) as ->; [|congruence].
    apply (ac_players _ (sc_accounts _ _ _ Hs) r p qr' q' Hqr' Hq'); [congruence|]. rewrite Hplr, Hpr. unfold NOTHING. lia.
Qed.

Section release.
Context (dfc : option bytes).

Lemma got_keeps_bg D X s who p s' : got D X s who p s' -> keeps_bg s s'.
Proof. intros [_ Hk _ Hold _]. split; [intros r; by apply (keeps_active s)|]. intros r q Hq. exists q. split; [by apply Hold|done]. Qed.
Lemma ensured_keeps_bg D X s p q s' : tqueues s !! p = Some q -> ensured D X s p q s' -> keeps_bg s s'.
Proof.
  intros Hq He. split; [intros r; apply (keeps_active s), He|]. destruct (en_tqueues _ _ _ _ _ _ He) as [u Eq]. intros r qr Hr. rewrite Eq. destruct (decide (r = p)) as [->|Hne].
  - rewrite lookup_insert_eq. eexists. split; [done|]. assert (qr = q) as -> by congruence. done.
  - rewrite lookup_insert_ne by done. by exists qr.
Qed.

(** A new queue has no tasks. *)
Lemma find_or_create_bg who s p s1 r q : find_or_create dfc who s = Some (p, s1) -> tqueues s1 !! r = Some q -> first_bg q = bg_of s r.
Proof.
  unfold find_or_create. intros (o & s0 & E0 & E)%mbind_inv Hq. injection E0 as E0 <-. destruct o as [p'|].
  - injection E as _ <-. unfold bg_of. by rewrite Hq.
  - pose proof (wp_create dfc s who (fun _ s' => s' = created dfc s who) eq_refl) as Hw. unfold wp in Hw. rewrite E in Hw. subst s1.
    unfold bg_of. apply created_lookup in Hq as [[-> ->]|[_ ->]]; [|done].
    assert (tqueues s !! fresh (dom (tqueues s)) = None) as -> by (apply not_elem_of_dom, is_fresh). done.
Qed.

Lemma wp_make_ready_bg t w s : sched ∅ ∅ (with_waiting (t :: w) s) ->
  wp (let! p := find_or_create dfc (progr_of t) in ensure_usage p ;; enqueue_bg_task p t) (fun _ s' => keeps_bg s s' /\ ready s' t /\ adds [t] s s') s.
Proof.
  intros H. apply wp_bind. assert (0 <= progr_of t) as Hpos by (apply (sc_owner _ _ _ H t); by left).
  refine (wp_use _ _ _ _ (wp_indep _ (t :: w) s (got ∅ ∅ (with_waiting (t :: w) s) (progr_of t)) (indep_find_or_create dfc _) _) _).
  { apply (wp_find_or_create dfc ∅ ∅); [done|]. by intros p s'. }
  cbv beta. intros p s1 Efoc Hgot. pose proof (got_keeps_bg _ _ _ _ _ _ Hgot) as Hk1. destruct Hgot as [Hs1 Hk (q & Hq & Hpl) _ Hrest]. apply wp_bind.
  refine (wp_mono _ _ _ _ (wp_indep _ (t :: w) s1 (fun _ => ensured ∅ ∅ (with_waiting (t :: w) s1) p q) (indep_ensure_usage p) _) _).
  { by apply (wp_ensure_usage ∅ ∅ _ p q). }
  intros _ s2 He. pose proof (ensured_keeps_bg _ _ (with_waiting (t :: w) s1) p q _ Hq He) as Hk2. destruct (en_tqueues _ _ _ _ _ _ He) as [u Eq]. cbn in Eq.
  assert (tqueues s2 !! p = Some (set_usage u q)) as Hq2 by (rewrite Eq; apply lookup_insert_eq). apply (wp_enqueue_bg _ _ _ _ _ Hq2). split; [|split].
  - apply (keeps_bg_trans s s1); [exact Hk1|]. apply (keeps_bg_trans s1 s2); [exact Hk2|]. split; [done|]. intros r qr Hr. cbn. destruct (decide (r = p)) as [->|Hne].
    + rewrite lookup_insert_eq. eexists. split; [done|]. assert (qr = set_usage u q) as -> by congruence. split; [done|]. intros x Hx. cbn. apply elem_of_app. by left.
    + rewrite lookup_insert_ne by done. by exists qr.
  - eexists p, _. split; [exact (en_active _ _ _ _ _ _ He)|]. split; [apply lookup_insert_eq|]. split; [done|]. cbn. apply elem_of_app. right. by left.
  - intros r qr. cbn [tqueues with_tqueues]. rewrite filter_cons, filter_nil. destruct (decide (r = p)) as [->|Hne].
    + rewrite lookup_insert_eq. intros [= <-]. cbn [first_bg set_first_bg set_usage player]. rewrite decide_True by done. f_equal.
      exact (find_or_create_bg _ _ _ _ p q Efoc Hq).
    + rewrite lookup_insert_ne, Eq, lookup_insert_ne by done. intros Hr. rewrite decide_False.
      * rewrite app_nil_r. exact (find_or_create_bg _ _ _ _ r qr Efoc Hr).
      * intros E. apply Hne. apply (ac_players _ (sc_accounts _ _ _ Hs1) r p qr q Hr Hq); [congruence|]. rewrite <- E. unfold NOTHING. lia.
Qed.

Lemma wp_release_ready now w : forall s, sched ∅ ∅ (with_waiting w s) -> StronglySorted before w ->
  wp (release dfc now w) (fun w' s' => keeps_bg s s' /\ (forall t, t ∈ w -> due now t = true -> ready s' t) /\
    w' = filter (fun t => due now t = false) w /\ sched ∅ ∅ (with_waiting w' s') /\ adds (filter (fun t => due now t = true) w) s s') s.
Proof.
  induction w as [|t w IH]; intros s H Hsort; cbn [release].
  - apply wp_ret. split; [by split; [|intros p q Hq; exists q]|]. split; [by intros t ?%not_elem_of_nil|]. split; [done|]. split; [done|apply adds_nil].
  - apply StronglySorted_inv in Hsort as [Hsort Hle]. rewrite !filter_cons. change (timer_cmp Z.leb (get_start_time t) now) with (due now t). destruct (due now t) eqn:Ed.
    + rewrite decide_False, decide_True by done. pose proof (wp_make_ready dfc ∅ ∅ t w s H) as Hg. pose proof (wp_make_ready_bg t w s H) as Hr.
      apply wp_elim in Hg as (x & s1 & E & Hs1 & _). unfold wp in Hr. rewrite E in Hr. destruct Hr as (Hk1 & Hr & Hadd).
      unfold wp in *. rewrite release_assoc, (mbind_Some _ _ s x s1 E).
      specialize (IH s1 Hs1 Hsort). destruct (release dfc now w s1) as [[w' s2]|]; [|done]. destruct IH as (Hk2 & Hdue & -> & Hs2 & Hadd2).
      split; [by apply (keeps_bg_trans s s1)|]. split; [|split; [done|split; [done|]]].
      2: { apply (adds_cons (filter (fun t => due now t = false) w) t _ s s1 s2); [exact Hs2|by apply keeps_players..| |done|done|done]. apply (sc_owner _ _ _ H t). by left. }
      intros t' [->|Ht']%elem_of_cons; [intros _; by apply (ready_keeps s1)|by apply Hdue].
    + rewrite decide_True, decide_False by done. apply wp_ret. split; [by split; [|intros p q Hq; exists q]|].
      assert (forall t', t' ∈ w -> due now t' = false) as Hlater.
      { intros t' Ht'. rewrite Forall_forall in Hle. specialize (Hle t' Ht'). unfold due, before in *. apply not_true_iff_false. apply not_true_iff_false in Ed. rewrite timer_leb in *. lia. }
      split; [intros t' [->|Ht']%elem_of_cons; [congruence|]; rewrite (Hlater t' Ht'); done|].
      assert (filter (fun t => due now t = true) w = []) as ->.
      { apply elem_of_nil_inv. intros x [Hx Hin]%list_elem_of_filter. rewrite (Hlater x Hin) in Hx. done. }
      assert (t :: w = t :: filter (fun t => due now t = false) w) as Ew; [|rewrite <- Ew; split; [done|split; [done|apply adds_nil]]].
      f_equal. clear -Hlater.
      induction w as [|u w IH]; [done|]. rewrite filter_cons, decide_True by (apply Hlater; by left). f_equal. apply IH. intros x Hx. apply Hlater. by right.
Qed.
End release.

(** ** Killing *)

Definition tasks_of (id : Z) (ts : list bg_task) : nat := length (List.filter (has_id id) ts).
Definition tasks_at (id : Z) (q : tqueue) : nat :=
  ((match reading_vm q with Some v => if (task_id v =? id)%Z then 1 else 0 | None => 0 end) + tasks_of id (first_bg q))%nat.
Definition tasks_in (s : tstate) (id : Z) (ps : list positive) : nat :=
  foldr (fun p n => (match tqueues s !! p with Some q => tasks_at id q | None => 0 end + n)%nat) 0%nat ps.
(** How many tasks have the number [id] *)
Definition tasks_with (s : tstate) (id : Z) : nat := (tasks_of id (waiting_tasks s) + tasks_in s id (active_tqueues s ++ idle_tqueues s))%nat.
Definition holder (s : tstate) (id : Z) (ps : list positive) : option positive :=
  List.find (fun p => reading_id s id p || existsb (has_id id) (bg_of s p)) ps.
(** Whose task it is *)
Definition task_owner (s : tstate) (id : Z) : option Z :=
  match List.find (has_id id) (waiting_tasks s) with
  | Some t => Some (progr_of t)
  | None =>
    match List.find (reading_id s id) (idle_tqueues s) with
    | Some p => player_at s p
    | None => holder s id (active_tqueues s) ≫= player_at s
    end
  end.
(** One task of that number is gone, and none of another. *)
Definition one_less (id : Z) (s s' : tstate) : Prop := forall i, tasks_with s i = (tasks_with s' i + if (i =? id)%Z then 1 else 0)%nat.
Definition allowed (s : tstate) (owner who : Z) : bool := is_wizard (tdb s) owner || (owner =? who)%Z.

Lemma tasks_extract id i ts t rest : extract (has_id id) ts = Some (t, rest) -> tasks_of i ts = (tasks_of i rest + if (i =? id)%Z then 1 else 0)%nat.
Proof.
  intros (l1 & l2 & -> & -> & Ht & _)%extract_Some. unfold tasks_of. rewrite !List.filter_app, !length_app. cbn [List.filter].
  assert (has_id i t = (i =? id)%Z) as -> by (destruct t; cbn in *; apply Z.eqb_eq in Ht; rewrite Ht; apply Z.eqb_sym). destruct (i =? id)%Z; cbn [length]; lia.
Qed.
Lemma tasks_in_update s s' i p q q' ps : tqueues s !! p = Some q -> tqueues s' = <[p := q']> (tqueues s) -> NoDup ps -> p ∈ ps ->
  (tasks_in s' i ps + tasks_at i q = tasks_in s i ps + tasks_at i q')%nat.
Proof.
  intros Hp Eq. assert (forall l, p ∉ l -> tasks_in s' i l = tasks_in s i l) as Hout.
  { induction l as [|x l IH]; intros Hl; [done|]. apply not_elem_of_cons in Hl as [Hx Hl]. cbn [tasks_in foldr]. fold (tasks_in s' i l) (tasks_in s i l).
    rewrite Eq, lookup_insert_ne by done. by rewrite IH. }
  induction ps as [|x ps IH]; intros Hnd Hin; [by apply not_elem_of_nil in Hin|]. apply NoDup_cons in Hnd as [Hx Hnd]. cbn [tasks_in foldr].
  fold (tasks_in s' i ps) (tasks_in s i ps). apply elem_of_cons in Hin as [->|Hin].
  - rewrite Hout by done. rewrite Eq, lookup_insert_eq, Hp. lia.
  - rewrite Eq at 1. rewrite lookup_insert_ne by (by intros ->). specialize (IH Hnd Hin). lia.
Qed.
(** A queue loses a task *)
Lemma one_less_queue D X id s s' p q q' : sched D X s -> tqueues s !! p = Some q -> tqueues s' = <[p := q']> (tqueues s) -> waiting_tasks s' = waiting_tasks s ->
  active_tqueues s' = active_tqueues s -> idle_tqueues s' = idle_tqueues s -> (forall i, tasks_at i q = (tasks_at i q' + if (i =? id)%Z then 1 else 0)%nat) -> one_less id s s'.
Proof.
  intros H Hp Eq Ew Ea Ei Hat i. unfold tasks_with. rewrite Ew, Ea, Ei. pose proof (tasks_in_update s s' i p q q' _ Hp Eq (sc_nodup _ _ _ H)) as Hu.
  rewrite (Hat i) in Hu. assert (p ∈ active_tqueues s ++ idle_tqueues s) as Hin by (apply (sc_dom _ _ _ H); by eexists). specialize (Hu Hin). lia.
Qed.

Lemma kill_reading_spec D X s id p owner : sched D X s -> reading_id s id p = true -> exists who, player_at s p = Some who /\
  wp (kill_reading p (is_wizard (tdb s) owner) owner) (fun e s' => if allowed s owner who then e = E_NONE /\ one_less id s s' else e = E_PERM /\ s' = s) s.
Proof.
  intros H Hr. unfold reading_id in Hr. destruct (tqueues s !! p) as [q|] eqn:Hp; [|done]. exists (player q). split; [unfold player_at; by rewrite Hp|].
  apply wp_bind, (wp_get_tq _ _ _ _ Hp). rewrite <- negb_orb. fold (allowed s owner (player q)). destruct (allowed s owner (player q)); cbn [negb]; [|by apply wp_ret].
  apply wp_bind, (wp_update_tq _ _ q _ _ Hp), wp_ret. split; [done|]. apply (one_less_queue D X id s _ p q (set_reading_vm None q)); [done..|].
  intros i. unfold tasks_at. cbn [reading_vm set_reading_vm first_bg]. destruct (reading_vm q) as [v|]; [|done]. apply Z.eqb_eq in Hr. rewrite Hr, Z.eqb_sym. lia.
Qed.

Lemma extract_existsb {A} (f : A -> bool) l : existsb f l = match extract f l with Some _ => true | None => false end.
Proof. induction l as [|x l IH]; [done|]. cbn. destruct (f x); [done|]. rewrite IH. by destruct (extract f l) as [[? ?]|]. Qed.
Lemma extract_find {A} (f : A -> bool) l : List.find f l = match extract f l with Some (x, _) => Some x | None => None end.
Proof. induction l as [|x l IH]; [done|]. cbn. destruct (f x); [done|]. rewrite IH. by destruct (extract f l) as [[? ?]|]. Qed.

Definition kill_result (ext : Z -> Z -> option error) (s : tstate) (id owner : Z) (whose : option Z) (e : error) (s' : tstate) : Prop :=
  match whose with
  | None => e = default E_INVARG (ext id owner) /\ s' = s
  | Some who => if allowed s owner who then e = E_NONE /\ one_less id s s' else e = E_PERM /\ s' = s
  end.

Lemma kill_active_spec ext D X s id owner ps : sched D X s -> (forall p, p ∈ ps -> p ∈ active_tqueues s) ->
  wp (kill_active ext id owner (is_wizard (tdb s) owner) ps) (kill_result ext s id owner (holder s id ps ≫= player_at s)) s.
Proof.
  intros H. induction ps as [|p ps IH]; intros Hin; cbn [kill_active]; [by apply wp_ret|].
  assert (p ∈ active_tqueues s) as Ha by (apply Hin; by left). destruct (active_lookup D X s p H Ha) as [q Hp].
  unfold holder. cbn [List.find]. fold (holder s id ps). rewrite extract_existsb, (bg_of_lookup s p q Hp). unfold wp. rewrite (bg_of_lookup s p q Hp).
  destruct (reading_id s id p) eqn:Er; cbn [orb].
  { destruct (kill_reading_spec D X s id p owner H Er) as (who & Ew & Hk). cbn. rewrite Ew. exact Hk. }
  destruct (extract (has_id id) (first_bg q)) as [[t rest]|] eqn:Ex; [|apply IH; intros r Hr; apply Hin; by right].
  assert ((Some p ≫= player_at s) = Some (player q)) as Epl by (cbn; unfold player_at; by rewrite Hp). rewrite Epl.
  match goal with |- match ?m s with _ => _ end => change (wp m (fun e s' => if allowed s owner (player q) then e = E_NONE /\ one_less id s s' else e = E_PERM /\ s' = s) s) end.
  apply wp_bind, (wp_get_tq _ _ _ _ Hp). rewrite <- negb_orb. fold (allowed s owner (player q)). destruct (allowed s owner (player q)); cbn [negb]; [|by apply wp_ret].
  apply wp_bind, (wp_update_tq _ _ q _ _ Hp), wp_ret. split; [done|]. apply (one_less_queue D X id s _ p q (set_num_bg_tasks (num_bg_tasks q - 1) (set_first_bg rest q))); [done..|].
  intros i. unfold tasks_at. cbn [reading_vm set_num_bg_tasks set_first_bg first_bg]. rewrite (tasks_extract id i _ t rest Ex). lia.
Qed.
Lemma kill_task_spec ext D X s id owner : sched D X s -> id <> current_task_id s -> wp (kill_task ext id owner) (kill_result ext s id owner (task_owner s id)) s.
Proof.
  intros H Hid. unfold kill_task, wp. rewrite (proj2 (Z.eqb_neq _ _) Hid). unfold task_owner. rewrite (extract_find (has_id id)).
  destruct (extract (has_id id) (waiting_tasks s)) as [[t rest]|] eqn:Ex.
  - rewrite <- negb_orb. fold (allowed s owner (progr_of t)). unfold kill_result. destruct (allowed s owner (progr_of t)) eqn:Eal; cbn [negb]; [|done].
    match goal with |- match ?m s with _ => _ end => change (wp m (fun e s' => e = E_NONE /\ one_less id s s') s) end.
    pose proof (extract_perm _ _ _ _ Ex) as Hperm. assert (t ∈ waiting_tasks s) as Ht by (rewrite Hperm; by left). destruct (sc_owner _ _ _ H t Ht) as [Hpos (r & qr & Hr & Hpr)].
    apply wp_bind, (wp_find_tqueue D X); [done|]. intros [p|] Hf; [|by destruct (Hf r qr Hr)]. destruct Hf as (q & Hp & Hpl).
    apply wp_bind, (wp_update_tq _ _ q _ _ Hp). apply wp_bind, wp_tmodify, wp_ret. split; [done|]. intros i. unfold tasks_with. cbn [waiting_tasks active_tqueues idle_tqueues with_waiting with_tqueues].
    rewrite (tasks_extract id i _ t rest Ex). set (s' := with_waiting _ _).
    pose proof (tasks_in_update s s' i p q (set_num_bg_tasks (num_bg_tasks q - 1) q) (active_tqueues s ++ idle_tqueues s) Hp eq_refl (sc_nodup _ _ _ H)) as Hu.
    assert (p ∈ active_tqueues s ++ idle_tqueues s) as Hin by (apply (sc_dom _ _ _ H); by eexists). specialize (Hu Hin).
    change (tasks_at i (set_num_bg_tasks (num_bg_tasks q - 1) q)) with (tasks_at i q) in Hu. lia.
  - destruct (List.find (reading_id s id) (idle_tqueues s)) as [p|] eqn:Ef; [|by apply (kill_active_spec ext D X)].
    apply List.find_some in Ef as [_ Er]. destruct (kill_reading_spec D X s id p owner H Er) as (who & Ew & Hk). rewrite Ew. exact Hk.
Qed.

(** ** What a queue runs

    The job that a queue runs when it is its turn, as a function of the queue
    and of the list of its input: what the code says, without its pointers. *)

(** Partial correctness: what holds if there is a result *)
Definition post {S A} (m : M S A) (Q : A -> S -> Prop) (s : S) : Prop := forall x s', m s = Some (x, s') -> Q x s'.
Lemma post_bind {S A B} (m : M S A) (k : A -> M S B) Q s : post m (fun x => post (k x) Q) s -> post (mbindM m k) Q s.
Proof. intros H y s2 (x & s1 & E1 & E2)%mbind_inv. by apply (H x s1). Qed.
Lemma post_wp {S A} (m : M S A) (Q : A -> S -> Prop) s : wp m Q s -> post m Q s.
Proof. intros (x & s' & E & HQ)%wp_elim y s2 E2. congruence. Qed.
Lemma post_mono {S A} (m : M S A) (Q R : A -> S -> Prop) s : post m Q s -> (forall x s', Q x s' -> R x s') -> post m R s.
Proof. intros H HR x s' E. by apply HR, H. Qed.
Lemma post_ret {S A} (x : A) (Q : A -> S -> Prop) s : Q x s -> post (mreturn x) Q s.
Proof. by intros H y s' [= <- <-]. Qed.
Lemma post_get_tq s p q (Q : tqueue -> tstate -> Prop) : tqueues s !! p = Some q -> Q q s -> post (get_tq p) Q s.
Proof. intros Hp HQ. by apply post_wp, (wp_get_tq _ _ _ _ Hp). Qed.
Lemma post_update_tq s p q f (Q : unit -> tstate -> Prop) :
  tqueues s !! p = Some q -> Q tt (with_tqueues (<[p := f q]> (tqueues s)) s) -> post (update_tq p f) Q s.
Proof. intros Hp HQ. by apply post_wp, (wp_update_tq _ _ _ _ _ Hp). Qed.

Notation line := (task_kind * bytes)%type (only parsing).

Section jobs.
Context (dfc : option bytes) (run_task : job -> tstate -> Var * tstate) (is_command : Z -> bytes -> bool).

(** The job of a line that is delivered; none for one that is not a command *)
Definition line_job (p : positive) (q : tqueue) (i : line) : option job :=
  match i.1 with
  | TASK_OOB => Some (JOutOfBand p i.2)
  | _ =>
    match reading_vm q with
    | Some v => Some (JReading v (VStr i.2))
    | None =>
      if 0 <=? player q then if is_command (player q) i.2 then Some (JCommand p i.2) else None
      else Some (JLogin p i.2)
    end
  end.
(** The first wanted line with a job, and the lines that are left: the wanted
    ones before it are dropped, the others stay *)
Fixpoint next_line (p : positive) (q : tqueue) (ql : list line) : option job * list line :=
  match ql with
  | [] => (None, [])
  | i :: ql =>
    if wanted q (how_of q) i then
      match line_job p q (deliver q i) with Some j => (Some j, ql) | None => next_line p q ql end
    else let '(j, rest) := next_line p q ql in (j, i :: rest)
  end.
Definition bg_job (t : bg_task) : job :=
  match t with TASK_FORKED id _ code _ => JForked id code | TASK_SUSPENDED v _ value => JSuspended v value end.
(** The lines, then the ready tasks, with the input and the ready tasks that
    are left *)
Definition loop_job (p : positive) (q : tqueue) (ql : list line) : option (job * list line * list bg_task) :=
  match next_line p q ql, first_bg q with
  | (Some j, rest), bg => Some (j, rest, bg)
  | (None, rest), t :: bg => Some (bg_job t, rest, bg)
  | (None, _), [] => None
  end.
(** The job of the queue: a task that reads from a closed connection is
    first *)
Definition next_job (p : positive) (q : tqueue) (ql : list line) : option (job * list line * list bg_task) :=
  match reading_vm q, is_out_of_input q with
  | Some v, true => Some (JReading v (VErr E_INVARG), ql, first_bg q)
  | _, _ => loop_job p q ql
  end.

(** Only the queue [p] and its input differ. *)
Definition aside (p : positive) (s s' : tstate) : Prop :=
  (forall r, r <> p -> tqueues s' !! r = tqueues s !! r) /\ tdb s' = tdb s /\ waiting_tasks s' = waiting_tasks s /\
  active_tqueues s' = active_tqueues s /\ idle_tqueues s' = idle_tqueues s.

(** The state in which [j] starts *)
Definition job_task (j : job) : option Z :=
  match j with JReading v _ | JSuspended v _ => Some (task_id v) | JForked id _ => Some id | _ => None end.
Definition is_reading (j : job) : bool := match j with JReading _ _ => true | _ => false end.
Definition starting (p : positive) (q : tqueue) (j : job) (ql : list line) (bg : list bg_task) (s sj : tstate) : Prop :=
  aside p s sj /\ (forall id, job_task j = Some id -> current_task_id sj = id) /\
  exists q' l, tqueues sj !! p = Some q' /\ qinput (inputs sj) q' l /\ Forall2 (holds (inputs sj)) l ql /\ first_bg q' = bg /\
    player q' = player q /\ reading_vm q' = if is_reading j then None else reading_vm q.

(** Running it: the machine, and the end of a login *)
Definition logs_in (q : tqueue) (v : Var) (s : tstate) : option Z :=
  match v with
  | VObj new => if connected q && (player q <? 0) && is_user (tdb s) new then Some new else None
  | _ => None
  end.
Definition ran (p : positive) (j : job) (s s' : tstate) : Prop :=
  let '(v, s1) := run_task j s in
  match j with
  | JLogin _ _ =>
    exists q, tqueues s1 !! p = Some q /\
    match logs_in q v s1 with
    | Some new => exists s2, switch_queue dfc p (player q) new s1 = Some (tt, s2) /\
        s' = (run_task (JConnected (player q) new) (with_current (-1) s2)).2
    | None => s' = with_current (-1) s1
    end
  | _ => s' = with_current (-1) s1
  end.
(** The node of a line is freed when its job has ended. *)
Definition freed (s s' : tstate) : Prop := s' = s \/ exists t, s' = with_inputs (delete t (inputs s)) s.

(** The job [r] is run: [did] tells whether there was one *)
Definition ran_from (p : positive) (q : tqueue) (r : option (job * list line * list bg_task)) (s : tstate) (did : bool) (s' : tstate) : Prop :=
  match r with
  | Some (j, rest, bg) => did = true /\ exists sj s1, starting p q j rest bg s sj /\ ran p j sj s1 /\ freed s1 s'
  | None => did = false
  end.
(** The turn of the first active queue *)
Definition turn (p : positive) (s : tstate) (did : bool) (s' : tstate) : Prop :=
  exists q l ql, head (active_tqueues s) = Some p /\ tqueues s !! p = Some q /\ qinput (inputs s) q l /\ Forall2 (holds (inputs s)) l ql /\
    ran_from p q (next_job p q ql) s did s'.
(** It has no job and becomes idle, or has one and goes to its new place. *)
Definition passes (s s' : tstate) : Prop :=
  exists p s1 q rest, turn p s false s1 /\ active_tqueues s1 = p :: rest /\ tqueues s1 !! p = Some q /\ s' = retired p q rest s1.
Definition runs (e : Z) (p : positive) (s s' : tstate) : Prop :=
  exists s1 q rest, turn p s true s1 /\ active_tqueues s1 = p :: rest /\ tqueues s1 !! p = Some q /\ s' = placed e p q rest s1.

(** *** Lists *)

Lemma next_line_extract p q ql : next_line p q ql =
  match extract (wanted q (how_of q)) ql with
  | Some (i, ql') => match line_job p q (deliver q i) with Some j => (Some j, ql') | None => next_line p q ql' end
  | None => (None, ql)
  end.
Proof.
  induction ql as [|i ql IH]; [done|]. cbn [next_line extract]. destruct (wanted q (how_of q) i) eqn:Ew; [done|]. rewrite IH.
  destruct (extract _ ql) as [[k ql']|]; [|done]. destruct (line_job p q (deliver q k)); [done|]. cbn [next_line]. by rewrite Ew.
Qed.

Section mode.
Context (p : positive) (q q' : tqueue).
Hypothesis Hpl : player q' = player q.
Hypothesis Hm : same_mode q q'.
Lemma next_line_mode ql : next_line p q' ql = next_line p q ql.
Proof.
  destruct Hm as (_ & M2 & M3 & M4). assert (how_of q' = how_of q) as Eh by (unfold how_of, reading; by rewrite M2, M3).
  induction ql as [|i ql IH]; [done|]. cbn [next_line]. rewrite IH, Eh.
  assert (wanted q' (how_of q) i = wanted q (how_of q) i) as -> by (unfold wanted, accepts; by rewrite M4).
  assert (deliver q' i = deliver q i) as -> by (unfold deliver, delivered; by rewrite M4).
  assert (line_job p q' (deliver q i) = line_job p q (deliver q i)) as -> by (unfold line_job; by rewrite M2, Hpl). done.
Qed.
End mode.

Lemma aside_refl p s : aside p s s.
Proof. by split_and!. Qed.
Lemma aside_trans p s1 s2 s3 : aside p s1 s2 -> aside p s2 s3 -> aside p s1 s3.
Proof. intros (A1 & A2 & A3 & A4 & A5) (B1 & B2 & B3 & B4 & B5). split_and!; [|congruence..]. intros r Hr. by rewrite B1, A1. Qed.

Lemma qinput_items h q l : qinput h q l -> exists ql, Forall2 (holds h) l ql.
Proof.
  intros (_ & _ & Hg). induction Hg as [|x l (n & Hn & _) _ (ql & IH)]; [by exists []|]. exists (item n :: ql). constructor; [by exists n|done].
Qed.
Lemma holds_frame h h' l ql : (forall x, x ∈ l -> h' !! x = h !! x) -> Forall2 (holds h) l ql -> Forall2 (holds h') l ql.
Proof. intros Hh H. eapply Forall2_in; [exact H|]. intros x i Hx (n & Hn & Hi). exists n. by rewrite Hh. Qed.

(** *** Taking and running a line *)

Lemma dequeue_line s p q l ql how :
  tqueues s !! p = Some q -> qinput (inputs s) q l -> Forall2 (holds (inputs s)) l ql -> how = DQ_FIRST \/ how = DQ_OOB \/ how = DQ_INBAND ->
  wp (on_queue p (dequeue_input_task how)) (fun r s' => match extract (wanted q how) ql with
    | Some (i, ql') => exists t q' l', r = Some t /\ aside p s s' /\ tqueues s' !! p = Some q' /\ qinput (inputs s') q' l' /\
        Forall2 (holds (inputs s')) l' ql' /\ holds (inputs s') t (deliver q i) /\ t ∉ l' /\ same_tasks q q' /\ same_mode q q'
    | None => r = None /\ s' = s
    end) s.
Proof.
  intros Hp Hl Hq Hhow. apply (wp_on_queue p q _ _ _ Hp). eapply wp_mono; [apply (dequeue_input_ok (inputs s) q (events s) l how); [apply Hl|done]|].
  intros r s' Hr. pose proof (extract_Forall2 (holds (inputs s)) (fun x => accepts q how (oob (inputs s) x)) (wanted q how) l ql) as Hex. cbv beta in Hex.
  assert (forall x i, holds (inputs s) x i -> accepts q how (oob (inputs s) x) = wanted q how i) as Hfg by (intros x i (n & Hn & <-); unfold oob; by rewrite Hn).
  specialize (Hex Hfg Hq). destruct (extract _ l) as [[x l']|] eqn:Ex, (extract _ ql) as [[i ql']|]; try done.
  2: { destruct Hr as [-> ->]. cbn [nodes tq told]. split; [done|]. by apply put_queue_same. }
  destruct Hr as [-> Hd], Hex as [(n0 & Hn0 & Hi) Hrest]. pose proof (dequeued_qinput _ _ _ _ _ _ _ _ Hl Ex Hd) as Hl'.
  apply extract_perm in Ex. destruct Hl as [[Hnd _ _ _ _] _]. rewrite Ex in Hnd. apply NoDup_cons in Hnd as [Hx _].
  destruct Hd as (n & fi & li & ft & lt & Hn & _ & (n' & Hn' & Edel) & Etq & Hc & _). assert (n0 = n) as -> by congruence.
  exists x, (tq s'), l'. split; [done|]. split; [|split; [apply lookup_insert_eq|split; [exact Hl'|split; [|split; [|split; [done|by rewrite Etq]]]]]].
  - split_and!; try done. intros r Hr. cbn. by rewrite lookup_insert_ne.
  - eapply Forall2_in; [exact Hrest|]. intros y j Hy Hyj. apply (holds_contents (inputs s)); [|done]. apply Hc. by intros ->.
  - exists n'. split; [exact Hn'|]. unfold item. rewrite Edel, <- Hi. done.
Qed.

Lemma starting_same p q j ql l s sj q' :
  aside p s sj -> inputs sj = inputs s -> qinput (inputs s) q l -> Forall2 (holds (inputs s)) l ql ->
  tqueues sj !! p = Some q' -> same_input q q' -> player q' = player q -> reading_vm q' = (if is_reading j then None else reading_vm q) ->
  (forall id, job_task j = Some id -> current_task_id sj = id) -> starting p q j ql (first_bg q') s sj.
Proof.
  intros Ha Ei Hl Hq Hp (I1 & I2 & I3 & I4 & I5) Hpl Hr Hid. split; [done|]. split; [done|]. exists q', l. rewrite Ei.
  split; [done|]. split; [by apply (qinput_fields _ q)|]. by split.
Qed.

Lemma post_execute p id j s (Q : Var -> tstate -> Prop) :
  (match j with JLogin _ _ => False | _ => True end) -> (forall v s', ran p j (with_current id s) s' -> Q v s') -> post (execute run_task id j) Q s.
Proof.
  intros Hj HQ v s' E. apply HQ. unfold execute in E. unfold ran. destruct (run_task j (with_current id s)) as [w s1]. injection E as _ <-.
  by destruct j.
Qed.

Lemma login_ran p w s : post (do_login_task dfc run_task p w) (fun did s' => did = true /\ ran p (JLogin p w) s s') s.
Proof.
  intros did s' E. unfold do_login_task in E. apply mbind_inv in E as (v & s1 & Er & E). injection Er as Er. apply mbind_inv in E as (q & s2 & Eq & E). unfold ran. rewrite Er.
  unfold get_tq in Eq. destruct (tqueues s1 !! p) as [q'|] eqn:Hq; [|done]. injection Eq as -> <-. unfold logs_in.
  destruct v as [|new| | | | | | | | | | | | |]; try (injection E as <- <-; split; [done|]; by exists q).
  destruct (connected q && (player q <? 0) && is_user (tdb s1) new) eqn:Ec; [|injection E as <- <-; split; [done|]; exists q; by rewrite Ec].
  apply mbind_inv in E as ([] & s2 & Es & E). apply mbind_inv in E as ([] & s3 & [= <-] & E).
  assert (did = true /\ s' = (run_task (JConnected (player q) new) (with_current (-1) s2)).2) as [-> ->].
  { destruct (run_task (JConnected (player q) new) (with_current (-1) s2)) as [v s4]. by injection E as <- <-. }
  split; [done|]. exists q. rewrite Ec. split; [done|]. by exists s2.
Qed.

Lemma run_line p t s q l ql i :
  tqueues s !! p = Some q -> qinput (inputs s) q l -> Forall2 (holds (inputs s)) l ql -> holds (inputs s) t i -> i.1 <> TASK_QUOTED ->
  post (run_input dfc run_task is_command p t) (fun did s' =>
    match line_job p q i with
    | Some j => did = true /\ exists sj, starting p q j ql (first_bg q) s sj /\ ran p j sj s'
    | None => did = false /\ exists ev, s' = with_events ev s
    end) s.
Proof.
  intros Hp Hl Hq (n & Hn & <-) Hk. cbn [item fst] in Hk. unfold run_input. apply post_bind, (post_get_tq _ _ _ _ Hp).
  apply post_bind, post_wp, (wp_on_queue p q _ _ _ Hp), (wp_get_node _ _ _ _ _ n Hn). cbn [nodes tq told]. rewrite put_queue_same by done.
  assert (forall j sj, aside p s sj -> inputs sj = inputs s -> tqueues sj !! p = Some q -> job_task j = None -> is_reading j = false ->
    starting p q j ql (first_bg q) s sj) as Hev.
  { intros j sj Ha Hi Hpj Hj Hr. apply (starting_same p q j ql l); [done..| |by rewrite Hj]. by rewrite Hr. }
  assert (kind n <> TASK_OOB -> post (match reading_vm q with
      | Some v => update_tq p (set_reading_vm None) ;; execute run_task (task_id v) (JReading v (VStr (text n))) ;; mreturn true
      | None => on_queue p (tell (History (player q) (text n))) ;;
          if 0 <=? player q then do_command_task run_task is_command p (text n) else do_login_task dfc run_task p (text n)
      end) (fun did s' => match line_job p q (item n) with
        | Some j => did = true /\ exists sj, starting p q j ql (first_bg q) s sj /\ ran p j sj s'
        | None => did = false /\ exists ev, s' = with_events ev s
        end) s) as Hin.
  { intros Ho. assert (line_job p q (item n) = match reading_vm q with
      | Some v => Some (JReading v (VStr (text n)))
      | None => if 0 <=? player q then if is_command (player q) (text n) then Some (JCommand p (text n)) else None else Some (JLogin p (text n))
      end) as -> by (unfold line_job; by destruct (kind n) eqn:E; cbn [item fst snd]; rewrite ?E).
    destruct (reading_vm q) as [v|] eqn:Ev.
    - apply post_bind, (post_update_tq _ _ q _ _ Hp). apply post_bind, (post_execute p); [done|]. intros w s' Hran. apply post_ret. split; [done|].
      eexists. split; [|exact Hran]. change (first_bg q) with (first_bg (set_reading_vm None q)). apply (starting_same p q _ ql l); try done.
      + split_and!; try done. intros r Hr. cbn. by rewrite lookup_insert_ne.
      + cbn. by rewrite lookup_insert_eq.
      + by intros id [= <-].
    - apply post_bind, post_wp, (wp_on_queue p q _ _ _ Hp). unfold tell, wp. cbn [nodes tq told]. rewrite put_queue_events by done.
      set (s1 := with_events _ s). assert (aside p s s1) as Ha by (by split_and!). destruct (0 <=? player q).
      + unfold do_command_task. apply post_bind, (post_get_tq s1 p q); [done|]. destruct (is_command (player q) (text n)); cbn [negb]; [|apply post_ret; split; [done|]; by eexists].
        intros did s' E. destruct (run_task (JCommand p (text n)) s1) as [w s2] eqn:Er. injection E as <- <-. split; [done|]. exists s1.
        split; [by apply Hev|]. unfold ran. by rewrite Er.
      + intros did s' E. destruct (login_ran p (text n) s1 did s' E) as [-> Hran]. split; [done|]. exists s1. split; [by apply Hev|done]. }
  destruct (kind n) eqn:E; [by apply Hin| |done|by apply Hin].
  assert (line_job p q (item n) = Some (JOutOfBand p (text n))) as -> by (unfold line_job; cbn [item fst snd]; by rewrite E).
  intros did s' Er. destruct (run_task (JOutOfBand p (text n)) s) as [w s2] eqn:E2. injection Er as <- <-. split; [done|]. exists s.
  split; [by apply Hev|]. unfold ran. by rewrite E2.
Qed.

(** *** The turn of a queue *)

Lemma ran_from_aside p q q1 r s s1 did s' :
  aside p s s1 -> player q1 = player q -> reading_vm q1 = reading_vm q -> ran_from p q1 r s1 did s' -> ran_from p q r s did s'.
Proof.
  intros Ha Hpl Hrd. destruct r as [[[j rest] bg]|]; [|done]. intros (-> & sj & s2 & (Ha1 & Hid & q' & l & H1 & H2 & H3 & H4 & H5 & H6) & Hran & Hf).
  split; [done|]. exists sj, s2. split; [|done]. split; [by eapply aside_trans|]. split; [done|]. exists q', l. rewrite <- Hpl, <- Hrd. by split_and!.
Qed.

Lemma tasks_loop_job p fuel : forall s q l ql, tqueues s !! p = Some q -> qinput (inputs s) q l -> Forall2 (holds (inputs s)) l ql ->
  post (tasks_loop dfc run_task is_command fuel p) (ran_from p q (loop_job p q ql) s) s.
Proof.
  induction fuel as [|fuel IH]; intros s q l ql Hp Hl Hq; [by intros ? ?|]. cbn [tasks_loop]. apply post_bind, (post_get_tq _ _ _ _ Hp). fold (how_of q).
  assert (how_of q = DQ_FIRST \/ how_of q = DQ_OOB \/ how_of q = DQ_INBAND) as Hhow by (unfold how_of; destruct (_ && _); auto).
  apply post_bind. eapply post_mono; [apply post_wp, (dequeue_line s p q l ql (how_of q) Hp Hl Hq Hhow)|]. cbv beta. intros r s1.
  unfold loop_job. rewrite next_line_extract. destruct (extract _ ql) as [[i ql']|].
  - intros (t & q1 & l1 & -> & Ha & Hp1 & Hl1 & Hq1 & Ht & Htl & (T1 & T2 & T3 & T4) & Hmode). apply post_bind.
    assert ((deliver q i).1 <> TASK_QUOTED) as Hk by (unfold deliver, delivered; cbn [kind]; by destruct i.1; [|destruct (disable_oob q)|..]).
    eapply post_mono; [apply (run_line p t s1 q1 l1 ql' (deliver q i) Hp1 Hl1 Hq1 Ht Hk)|]. cbv beta. intros did s2.
    assert (line_job p q1 (deliver q i) = line_job p q (deliver q i)) as -> by (unfold line_job; by rewrite T1, (proj1 (proj2 Hmode))).
    assert (forall x, x ∈ l1 -> delete t (inputs s1) !! x = inputs s1 !! x) as Hdel by (intros x Hx; rewrite lookup_delete_ne; [done|by intros ->]).
    destruct (line_job p q (deliver q i)) as [j|].
    + intros (-> & sj & Hst & Hran). apply post_bind, post_wp, wp_tmodify. apply post_ret.
      apply (ran_from_aside p q q1 _ s s1); [done|done|by apply Hmode|]. rewrite <- T4. split; [done|]. exists sj, s2. split; [done|]. split; [done|]. right. by exists t.
    + intros [-> [ev ->]]. apply post_bind, post_wp, wp_tmodify. set (s3 := with_inputs _ _). rewrite <- T4, <- (next_line_mode p q q1 T1 Hmode ql').
      eapply post_mono; [apply (IH s3 q1 l1 ql'); [done|by apply (qinput_frame (inputs s1))|by apply (holds_frame (inputs s1))]|].
      intros did s' Hr. apply (ran_from_aside p q q1 _ s s3); [|done|by apply Hmode|exact Hr]. apply (aside_trans p s s1); [done|]. by split_and!.
  - intros [-> ->]. apply post_bind. unfold dequeue_bg_task. apply post_bind, (post_get_tq _ _ _ _ Hp). destruct (first_bg q) as [|t bg] eqn:Ebg.
    { by apply post_ret, post_ret. }
    apply post_bind, (post_update_tq _ _ q _ _ Hp), post_ret.
    assert (forall j, is_reading j = false -> forall s', (forall id, job_task j = Some id -> current_task_id s' = id) ->
      aside p s s' -> inputs s' = inputs s -> tqueues s' !! p = Some (set_num_bg_tasks (num_bg_tasks q - 1) (set_first_bg bg q)) ->
      starting p q j ql bg s s') as Hst.
    { intros j Hj s' Hid Ha Hi Hp'. apply (starting_same p q j ql l s s' _ Ha Hi Hl Hq Hp'); [done|done|by rewrite Hj|done]. }
    destruct t as [id progr code tv|v tv value]; apply post_bind, post_bind, (post_execute p); try done; intros w s' Hran; apply post_ret, post_ret;
      (split; [done|]; eexists _, s'; split; [|split; [exact Hran|by left]]; apply Hst; [done|by intros ? [= <-]| |done|by cbn; rewrite lookup_insert_eq]);
      (split_and!; try done; intros r Hr; cbn; by rewrite lookup_insert_ne).
Qed.

Lemma serve_queue_job p s q l ql : tqueues s !! p = Some q -> qinput (inputs s) q l -> Forall2 (holds (inputs s)) l ql ->
  post (serve_queue dfc run_task is_command p) (ran_from p q (next_job p q ql) s) s.
Proof.
  intros Hp Hl Hq. unfold serve_queue. apply post_bind, (post_get_tq _ _ _ _ Hp).
  assert ((forall v, reading_vm q = Some v -> is_out_of_input q = false) ->
    post (tasks_loop dfc run_task is_command (S (size (inputs s))) p) (ran_from p q (next_job p q ql) s) s) as Hloop.
  { intros Hv. eapply post_mono; [by apply (tasks_loop_job p _ s q l ql)|]. intros did s' Hr. unfold next_job.
    destruct (reading_vm q) as [v|]; [rewrite (Hv v eq_refl)|]; exact Hr. }
  apply post_bind. destruct (reading_vm q) as [v|] eqn:Ev; [|by apply post_ret, Hloop].
  destruct (is_out_of_input q) eqn:Eo; [|by apply post_ret, Hloop].
  apply post_bind, (post_update_tq _ _ q _ _ Hp). apply post_bind, (post_execute p); [done|]. intros w s' Hran. apply post_ret, post_ret.
  unfold next_job. rewrite Ev, Eo. split; [done|]. eexists _, s'. split; [|split; [exact Hran|by left]].
  change (first_bg q) with (first_bg (set_reading_vm None q)). apply (starting_same p q _ ql l); try done.
  - split_and!; try done. intros r Hr. cbn. by rewrite lookup_insert_ne.
  - cbn. by rewrite lookup_insert_eq.
  - by intros id [= <-].
Qed.
End jobs.

(** *** The loop *)

Section loop.
Context (dfc : option bytes) (external_kill : Z -> Z -> option error).
Context (run_task : job -> tstate -> Var * tstate) (is_command : Z -> bytes -> bool).
Context (Hrun : forall j s, calls dfc external_kill s (run_task j s).2).

Lemma serve_turn D X s p did s1 : sched D X s -> head (active_tqueues s) = Some p -> serve_queue dfc run_task is_command p s = Some (did, s1) ->
  turn dfc run_task is_command p s did s1.
Proof.
  intros H Hp E. destruct (active_lookup D X s p H (head_in _ _ Hp)) as [q Hq].
  destruct (sc_inputs _ _ _ H) as (L & HL & _). destruct (HL p q Hq) as [Hl _]. destruct (qinput_items _ _ _ Hl) as [ql Hql].
  exists q, (L p), ql. split_and!; [done..|]. exact (serve_queue_job dfc run_task is_command p s q (L p) ql Hq Hl Hql did s1 E).
Qed.

Lemma skipped_passes D X s s' : sched D X s -> skipped dfc run_task is_command s s' -> sched D X s' /\ passes dfc run_task is_command s s'.
Proof.
  intros H (p & s1 & Hp & Es & Er). destruct (serve_facts dfc external_kill run_task is_command Hrun D X s p false s1 H Hp Es) as ([H1 _] & Hi & q & rest & Ea & Hq).
  rewrite (requeue_false 0 p q rest s1 Ea Hq) in Er. injection Er as <-. split; [by apply (sched_retired D X); [..|apply Hi]|].
  exists p, s1, q, rest. split; [by apply (serve_turn D X)|done].
Qed.
Lemma skips_pass D X s s' : rtc (skipped dfc run_task is_command) s s' -> sched D X s -> sched D X s' /\ rtc (passes dfc run_task is_command) s s'.
Proof.
  induction 1 as [s|s s1 s' Hs _ IH]; intros H; [done|]. destruct (skipped_passes D X s s1 H Hs) as [H1 Hp]. destruct (IH H1) as [H' Hr].
  split; [done|]. by apply (rtc_l _ _ s1).
Qed.
Lemma served_runs D X e p s s' : sched D X s -> served dfc run_task is_command e p s s' -> runs dfc run_task is_command e p s s'.
Proof.
  intros H (s1 & Hp & Es & Er). destruct (serve_facts dfc external_kill run_task is_command Hrun D X s p true s1 H Hp Es) as ([H1 _] & _ & q & rest & Ea & Hq).
  assert (NoDup (p :: rest)) as Hnd by (pose proof (sc_nodup _ _ _ H1) as Hn; apply NoDup_app in Hn as [Hn _]; by rewrite Ea in Hn).
  rewrite (requeue_true e p q rest s1 Ea Hnd Hq) in Er. injection Er as <-. exists s1, q, rest. split; [by apply (serve_turn D X)|done].
Qed.
End loop.
