(* ===== verification/Tasks.v ===== *)
(** * Tasks: what the queues promise *)
From Stdlib Require Import ZArith Lia Sorting.Sorted.
From stdpp Require Import prelude gmap sorting strings.
From S2P Require Import Prelude CString Value ObjCode ObjFun ObjMake TaskInput TaskCode TaskSpec TaskKeep TaskOps TaskCall TaskLoop TaskFair TaskFun Objects.

Local Open Scope Z_scope.
Local Open Scope moo_scope.

Section properties.
Context (dfc : option bytes) (external_kill : Z -> Z -> option error).
Context (run_task : job -> tstate -> Var * tstate) (is_command : Z -> bytes -> bool).

(** ** The invariant *)

(** C10: a call that other code makes of the queues gives a result, and keeps the
    invariant: queues are active in the order of their usage or idle, an idle
    queue has nothing that it could run, the threads of input are apart and
    well formed, every waiting task is counted by the queue of its programmer.
    The active queues stay, in their order and with their usage.  The calls
    ([may]) are all of [call], of queues that exist; the programmer of a new
    task is not negative; and [switch_player] moves no ready task: the queue
    of the old player has none, and, when it is idle, that of the new player
    has none ([switch_player_loses_tasks] is what happens otherwise). *)
Theorem tasks_invariant c s : sched ∅ ∅ s -> may c s ->
  exists s', perform dfc external_kill c s = Some (tt, s') /\ sched ∅ ∅ s' /\ keeps s s'.
Proof.
  intros H Hm. pose proof (perform_good dfc external_kill ∅ ∅ c s H Hm) as Hw. apply wp_elim in Hw as ([] & s' & E & Hs & Hk). by exists s'.
Qed.

(** ** Running *)

(** C11: [run_ready_tasks] gives a result, and keeps the invariant.  After the
    waiting tasks that are due became ready, it takes the queues in their
    order.  A queue that has no job ([next_job]) becomes idle, and the next one
    has its turn; the first one that has a job runs it, leaves its place for
    the one of its new usage, and ends the loop.  The job is, as a function of
    the queue and of the list of its input: the end of input for a task that
    reads from a closed connection; else the first line the queue wants that
    is a command, a login, out-of-band, or read by a task; else the first ready
    task, a fork or a suspension.  It starts without its task in the queue
    ([starting]), and the state after it is what the machine leaves ([ran]).
    The machine may make any number of the calls of [tasks_invariant] (so
    [switch_player] moves no ready task), and the clock does not go back
    while the task runs ([clock_back_crashes]). *)
Theorem run_ready_tasks_correct now elapsed s : (forall j s, calls dfc external_kill s (run_task j s).2) -> 0 <= elapsed -> sched ∅ ∅ s ->
  exists s', run_ready_tasks dfc run_task is_command now elapsed s = Some (tt, s') /\ sched ∅ ∅ s' /\
    exists s1 s0, release_waiting dfc now s = Some (tt, s1) /\ rtc (passes dfc run_task is_command) s1 s0 /\
      ((active_tqueues s0 = [] /\ active_tqueues s' = []) \/
       exists p s2, runs dfc run_task is_command elapsed p s0 s2 /\ active_tqueues s' = active_tqueues s2 /\
         forall r, r ∈ active_tqueues s2 -> tqueues s' !! r = tqueues s2 !! r).
Proof.
  intros Hrun He H. pose proof (wp_run_ready_tasks dfc external_kill run_task is_command Hrun now elapsed s He H) as Hw.
  apply wp_elim in Hw as ([] & s' & E & Hs & s1 & s0 & s2 & Er & [Hs1 _] & Hrtc & Hend & Ea & Eq). exists s'. split; [done|]. split; [done|].
  destruct (skips_pass dfc external_kill run_task is_command Hrun ∅ ∅ s1 s0 Hrtc Hs1) as [Hs0 Hp]. exists s1, s0. split; [done|]. split; [done|].
  destruct Hend as [[Ea0 ->]|[p Hserved]]; [left; by rewrite Ea|right]. exists p, s2. split; [|done].
  exact (served_runs dfc external_kill run_task is_command Hrun ∅ ∅ elapsed p s0 s2 Hs0 Hserved).
Qed.

(** C18: The waiting tasks that are due, and no others, become ready tasks: each
    queue has, after the ready tasks it had, those of its player that are due,
    in the order in which they waited, and a new queue is made where there was
    none; a queue with such a task is active.  The others wait, in their
    order. *)
Theorem release_waiting_correct now s : sched ∅ ∅ s ->
  exists s', release_waiting dfc now s = Some (tt, s') /\ sched ∅ ∅ s' /\
    (forall t, t ∈ waiting_tasks s -> due now t = true -> ready s' t) /\
    (forall p q', tqueues s' !! p = Some q' ->
      first_bg q' = bg_of s p ++ filter (fun t => progr_of t = player q') (filter (fun t => due now t = true) (waiting_tasks s))) /\
    (forall p q, tqueues s !! p = Some q -> exists q', tqueues s' !! p = Some q' /\ player q' = player q) /\
    waiting_tasks s' = filter (fun t => due now t = false) (waiting_tasks s).
Proof.
  intros H. pose proof (wp_release_waiting dfc ∅ ∅ now s H) as Hg.
  assert (sched ∅ ∅ (with_waiting (waiting_tasks s) s)) as H' by (by rewrite with_waiting_id).
  pose proof (wp_release_ready dfc now (waiting_tasks s) s H' (sc_waiting _ _ _ H)) as Hr. apply wp_elim in Hr as (w & s1 & E & Hk & Hdue & -> & _ & Hadd).
  assert (release_waiting dfc now s = Some (tt, with_waiting (filter (fun t => due now t = false) (waiting_tasks s)) s1)) as Er.
  { unfold release_waiting. by rewrite (mbind_Some _ _ s _ s1 E). }
  unfold wp in Hg. rewrite Er in Hg. eexists. split; [exact Er|]. split; [apply Hg|]. split; [|split; [exact Hadd|split; [|done]]].
  - intros t Ht Hd. destruct (Hdue t Ht Hd) as (p & q & Hp). by exists p, q.
  - exact (keeps_players _ _ Hk).
Qed.

(** C12: an active queue is not kept waiting: if each run takes a whole second
    at least (so that usage grows), and all queues are in [P], no more runs
    than [size P] for each second of usage that it has more than the first
    queue, and [size P] more, pass before the loop comes to it, whatever calls
    of [tasks_invariant] are made in the tasks and between the runs. *)
Theorem queue_served P p n s s' : (forall j s, calls dfc external_kill s (run_task j s).2) ->
  sched ∅ ∅ s -> p ∈ active_tqueues s -> unreached dfc external_kill run_task is_command P p n s s' ->
  Z.of_nat n <= Z.of_nat (size P) * (usage_at s p - start_usage s + 1).
Proof.
  intros Hrun H Hp Hn. pose proof (unreached_rank dfc external_kill run_task is_command Hrun P p n s s' Hn H Hp).
  pose proof (rank_bound ∅ ∅ P s p H Hp). lia.
Qed.

(** ** Killing *)

(** C30: [kill_task] of a task other than the one that runs removes one task of
    the number, and none of another, when the programmer is a wizard or the
    owner of the task, and answers E_PERM, with no change, when not; E_INVARG,
    or what the other modules answer, if there is no such task. *)
Theorem kill_task_correct D X s id owner : sched D X s -> id <> current_task_id s ->
  exists e s', kill_task external_kill id owner s = Some (e, s') /\
    match task_owner s id with
    | None => e = default E_INVARG (external_kill id owner) /\ s' = s
    | Some who => if allowed s owner who then e = E_NONE /\ one_less id s s' else e = E_PERM /\ s' = s
    end.
Proof.
  intros H Hid. pose proof (kill_task_spec external_kill D X s id owner H Hid) as Hw. apply wp_elim in Hw as (e & s' & E & Hr). by exists e, s'.
Qed.
End properties.

(** ** Input *)

(** C13: the two threads of pointers of a queue of input implement a list: a
    task is enqueued at its end, or at its front; the first task that is
    wanted is dequeued, its quote removed, and the others stay in order. *)
Theorem input_queue_refines l ql : implements l ql ->
  (forall how, how = DQ_FIRST \/ how = DQ_OOB \/ how = DQ_INBAND ->
    wp (dequeue_input_task how) (fun r l' =>
      match extract (wanted (tq l) how) ql with
      | Some (i, ql') => (exists t, r = Some t /\ holds (nodes l') t (deliver (tq l) i)) /\ implements l' ql'
      | None => r = None /\ l' = l
      end) l) /\
  (forall input at_front k, wp (link_input_task input at_front k) (fun _ l' => implements l' (if at_front then (k, input) :: ql else ql ++ [(k, input)])) l).
Proof.
  destruct l as [h q ev]. intros (ids & Hth & Hq). cbn [nodes tq told] in *. split.
  - intros how Hhow. eapply wp_mono; [exact (dequeue_input_ok h q ev ids how Hth Hhow)|]. intros r l' Hr.
    pose proof (extract_Forall2 (holds h) (fun x => accepts q how (oob h x)) (wanted q how) ids ql) as Hex. cbv beta in Hex.
    assert (forall x i, holds h x i -> accepts q how (oob h x) = wanted q how i) as Hfg by (intros x i (n & Hn & <-); unfold oob; by rewrite Hn).
    specialize (Hex Hfg Hq). destruct (extract _ ids) as [[x ids']|] eqn:Ex, (extract _ ql) as [[i ql']|]; try done.
    destruct Hr as [-> (n & fi & li & ft & lt & Hn & Hth' & (n' & Hn' & Hd) & _ & Hc & _)], Hex as [(n0 & Hn0 & Hi) Hrest]. split.
    + exists x. split; [done|]. exists n'. split; [done|]. unfold item. rewrite Hd, <- Hi. assert (n0 = n) as -> by congruence. done.
    + exists ids'. split; [done|]. apply extract_perm in Ex. destruct Hth as [Hnd _ _ _ _]. rewrite Ex in Hnd. apply NoDup_cons in Hnd as [Hx _].
      eapply Forall2_in; [exact Hrest|]. intros y j Hy Hyj. apply (holds_contents h); [|done]. apply Hc. by intros ->.
  - intros input at_front k. destruct (link_input_ok h q ev ids input at_front k Hth) as (t & Ht & Hw).
    { intros x Hx. apply list_elem_of_lookup in Hx as [n Hx]. destruct (Forall2_lookup_l _ _ _ _ _ Hq Hx) as (i & _ & m & Hm & _). by exists m. }
    eapply wp_mono; [exact Hw|]. intros _ l' (_ & Hth' & Hnew & Hc & _). exists (if at_front then t :: ids else ids ++ [t]). split; [done|].
    assert (holds (nodes l') t (k, input)) as Hnt.
    { unfold contents in Hnew. unfold holds. destruct (nodes l' !! t) as [n|]; [|done]. injection Hnew as E1 E2 E3. exists n. split; [done|]. unfold item. by rewrite E1, E2. }
    assert (Forall2 (holds (nodes l')) ids ql) as Hq'.
    { eapply Forall2_in; [exact Hq|]. intros y j _ (n & Hn & Hj). apply (holds_contents h); [|by exists n]. apply Hc. intros ->. congruence. }
    destruct at_front; [by constructor|]. apply Forall2_app; [done|]. by repeat constructor.
Qed.

(** ** A server to evaluate on

    Object 0 is a wizard and a user, 1 is a user. *)

Definition users : db := after (db_set_object_flag 1 FLAG_USER) (after (db_create_object (-1)) (after (db_set_object_flag 0 FLAG_USER) world2)).
Definition quiet_server : tstate := mk_tstate users ∅ ∅ [] [] [] (-1) [].
Definition no_queue (id owner : Z) : option error := None.
Definition ends_at_once (j : job) (s : tstate) : Var * tstate := (VInt 0, s).
Definition any_command (who : Z) (line : bytes) : bool := true.
Definition do_call (c : call) (s : tstate) : tstate := match perform None no_queue c s with Some (_, s') => s' | None => s end.

Lemma ends_at_once_calls j s : calls None no_queue s (ends_at_once j s).2.
Proof. apply rtc_refl. Qed.
Lemma quiet_server_ok : sched ∅ ∅ quiet_server.
Proof.
  split; split; cbn [active_tqueues idle_tqueues tqueues inputs waiting_tasks quiet_server app].
  - constructor.
  - intros p. rewrite lookup_empty. split; [by intros ?%not_elem_of_nil|by intros []].
  - intros p q. by rewrite lookup_empty.
  - intros p q. by rewrite lookup_empty.
  - constructor.
  - exists (fun _ => []). split; [by intros p q Hq|]. split; [by intros p p' q q' x Hq|].
    split; [by intros p q x Hq|]. by intros x ?%elem_of_empty.
  - intros p p' q q'. by rewrite lookup_empty.
  - constructor.
  - intros p q. by rewrite lookup_empty.
  - by intros t ?%not_elem_of_nil.
Qed.
Lemma do_call_ok c s : sched ∅ ∅ s -> may c s -> sched ∅ ∅ (do_call c s).
Proof.
  intros H Hm. pose proof (perform_good None no_queue ∅ ∅ c s H Hm) as Hw. apply wp_elim in Hw as ([] & s' & E & Hs & _). unfold do_call. by rewrite E.
Qed.
Lemma release_ok now s : sched ∅ ∅ s -> forall s', release_waiting None now s = Some (tt, s') -> sched ∅ ∅ s'.
Proof. intros H s' E. pose proof (wp_release_waiting None ∅ ∅ now s H) as Hw. unfold wp in Hw. rewrite E in Hw. apply Hw. Qed.

(** Two tasks of 0 and one of 1 wait, the second one of 0 for long. *)
Definition task_of (id progr : Z) : vm := mk_vm id progr 1.
Definition busy_server : tstate :=
  do_call (CFork None (-1) 8 0 1 (mk_timeval 100 0)) (do_call (CResumeTask (task_of 9 1) (VInt 5)) (do_call (CResumeTask (task_of 7 0) (VInt 5)) quiet_server)).
Lemma busy_server_ok : sched ∅ ∅ busy_server.
Proof. apply do_call_ok; [apply do_call_ok; [apply do_call_ok; [exact quiet_server_ok|]|]|]; cbn; lia. Qed.

Lemma tasks_invariant_witness :
  exists s', perform None no_queue (CForce 0 (str "look") false 0) busy_server = Some (tt, s') /\ sched ∅ ∅ s' /\ keeps busy_server s'.
Proof. apply (tasks_invariant None no_queue (CForce 0 (str "look") false 0) busy_server busy_server_ok). exact I. Defined.

Lemma run_ready_tasks_correct_witness :
  exists s', run_ready_tasks None ends_at_once any_command (mk_timeval 1 0) 1 busy_server = Some (tt, s') /\ sched ∅ ∅ s' /\
    exists s1 s0, release_waiting None (mk_timeval 1 0) busy_server = Some (tt, s1) /\ rtc (passes None ends_at_once any_command) s1 s0 /\
      ((active_tqueues s0 = [] /\ active_tqueues s' = []) \/
       exists p s2, runs None ends_at_once any_command 1 p s0 s2 /\ active_tqueues s' = active_tqueues s2 /\
         forall r, r ∈ active_tqueues s2 -> tqueues s' !! r = tqueues s2 !! r).
Proof. apply (run_ready_tasks_correct None no_queue ends_at_once any_command (mk_timeval 1 0) 1 busy_server ends_at_once_calls); [lia|exact busy_server_ok]. Defined.

(** Which job the first queue has: the first of its lines that is a command *)
Definition two_lines : list (task_kind * bytes) := [(TASK_INBAND, str "abc"); (TASK_INBAND, str "look"); (TASK_OOB, str "#$#x")].
Definition only_look (who : Z) (w : bytes) : bool := bool_decide (w = str "look").
Example first_command :
  next_job only_look 1%positive (set_player 3 (new_tqueue None 3)) two_lines =
  Some (JCommand 1%positive (str "look"), [(TASK_OOB, str "#$#x")], []).
Proof. vm_compute. reflexivity. Qed.

Lemma release_waiting_correct_witness : exists s', release_waiting None (mk_timeval 1 0) busy_server = Some (tt, s') /\ sched ∅ ∅ s' /\
    (forall t, t ∈ waiting_tasks busy_server -> due (mk_timeval 1 0) t = true -> ready s' t) /\
    (forall p q', tqueues s' !! p = Some q' ->
      first_bg q' = bg_of busy_server p ++
        filter (fun t => progr_of t = player q') (filter (fun t => due (mk_timeval 1 0) t = true) (waiting_tasks busy_server))) /\
    (forall p q, tqueues busy_server !! p = Some q -> exists q', tqueues s' !! p = Some q' /\ player q' = player q) /\
    waiting_tasks s' = filter (fun t => due (mk_timeval 1 0) t = false) (waiting_tasks busy_server).
Proof. exact (release_waiting_correct None (mk_timeval 1 0) busy_server busy_server_ok). Defined.

(** The queue of 1 waits for a run of a task of 0. *)
Definition second_queue : positive := default 1%positive (active_tqueues busy_server !! 1%nat).
Definition run_once (s : tstate) : tstate := match run_ready_tasks None ends_at_once any_command (mk_timeval 1 0) 1 s with Some (_, s') => s' | None => s end.
Definition busy_queues : gset positive := dom (tqueues busy_server).

Lemma busy_unreached : unreached None no_queue ends_at_once any_command busy_queues second_queue 1 busy_server (run_once busy_server).
Proof.
  eapply (unreached_run None no_queue ends_at_once any_command busy_queues second_queue 0 (mk_timeval 1 0) 1 busy_server (run_once busy_server) (run_once busy_server)).
  - lia.
  - vm_compute. exact eq_refl.
  - vm_compute. done.
  - intros (s1 & s0 & Er & Hrtc & Hhead). vm_compute in Er. injection Er as Er. subst s1.
    apply rtc_inv in Hrtc as [Hrtc|(s2 & (x & s3 & Hx & Es & _) & _)].
    + subst s0. vm_compute in Hhead. discriminate Hhead.
    + vm_compute in Hx. injection Hx as Hx. subst x. vm_compute in Es. discriminate Es.
  - apply rtc_refl.
  - constructor.
Qed.
Lemma queue_served_witness : 1 <= Z.of_nat (size busy_queues) * (usage_at busy_server second_queue - start_usage busy_server + 1).
Proof.
  refine (queue_served None no_queue ends_at_once any_command busy_queues second_queue 1 busy_server (run_once busy_server) ends_at_once_calls busy_server_ok _ busy_unreached).
  vm_compute. right. left.
Defined.

Lemma kill_task_correct_witness : exists e s', kill_task no_queue 9 1 busy_server = Some (e, s') /\ e = E_NONE /\ one_less 9 busy_server s'.
Proof.
  refine (kill_task_correct no_queue ∅ ∅ busy_server 9 1 busy_server_ok _). vm_compute. discriminate.
Defined.

Definition empty_input : qstate := mk_qstate ∅ (new_tqueue None 0) [].
Lemma input_queue_refines_witness : implements empty_input [] /\
  wp (link_input_task (str "look") false TASK_INBAND) (fun _ l' => implements l' [(TASK_INBAND, str "look")]) empty_input.
Proof.
  assert (implements empty_input []) as H by (exists []; split; [split; try done; constructor|constructor]). split; [exact H|].
  exact (proj2 (input_queue_refines empty_input [] H) (str "look") false TASK_INBAND).
Defined.

(** ** What goes wrong *)

(** A queue that is switched to another player while it has a ready task: *)
Definition switch_ready : tstate :=
  match release_waiting None (mk_timeval 1 0) (do_call (CFork None (-1) 7 0 1 (mk_timeval 0 0)) (do_call (COpen 0 0) quiet_server)) with Some (_, s) => s | None => quiet_server end.
Lemma switch_ready_ok : sched ∅ ∅ switch_ready.
Proof.
  assert (sched ∅ ∅ (do_call (CFork None (-1) 7 0 1 (mk_timeval 0 0)) (do_call (COpen 0 0) quiet_server))) as H.
  { apply do_call_ok; [apply do_call_ok; [exact quiet_server_ok|done]|]. cbn. lia. }
  unfold switch_ready. destruct (release_waiting _ _ _) as [[[] s]|] eqn:E; [|exact quiet_server_ok]. exact (release_ok (mk_timeval 1 0) _ H s E).
Qed.
Definition everyone (who : Z) : bool := true.

Definition switched_server : tstate := match bf_switch_player None everyone 0 1 0 switch_ready with Some (_, s) => s | None => switch_ready end.
Definition switched_later : tstate := match run_ready_tasks None ends_at_once any_command (mk_timeval 1 0) 1 switched_server with Some (_, s) => s | None => switched_server end.

(** [bf_switch_player] moves the ready tasks of the queue to a new queue for
    its old player, which it leaves idle: they are not run, [kill_task]
    does not find them, and the server does not wake up for them. *)
Theorem switch_player_loses_tasks : sched ∅ ∅ switch_ready /\
  bf_switch_player None everyone 0 1 0 switch_ready = Some (no_var_pack, switched_server) /\
  tasks_with switch_ready 7 = 1%nat /\ tasks_with switched_server 7 = 1%nat /\
  fst <$> kill_task no_queue 7 0 switched_server = Some E_INVARG /\ count_tasks switched_server 0 = 0 /\
  run_ready_tasks None ends_at_once any_command (mk_timeval 1 0) 1 switched_server = Some (tt, switched_later) /\
  tasks_with switched_later 7 = 1%nat /\ next_task_start (mk_timeval 1 0) switched_later = -1.
Proof. split; [exact switch_ready_ok|]. do 7 (split; [vm_compute; exact eq_refl|]). vm_compute; exact eq_refl. Qed.

Definition clock_back : tstate := match run_ready_tasks None ends_at_once any_command (mk_timeval 1 0) (-1) busy_server with Some (_, s) => s | None => busy_server end.

(** when the clock goes back by a second during the first task, the
    usage of its queue becomes [NO_USAGE] while it is active, and the next
    input for it is put into a list of idle queues that it is not in. *)
Theorem clock_back_crashes : sched ∅ ∅ busy_server /\
  run_ready_tasks None ends_at_once any_command (mk_timeval 1 0) (-1) busy_server = Some (tt, clock_back) /\
  bf_force_input None 0 (str "look") false 0 clock_back = None.
Proof. split; [exact busy_server_ok|]. split; vm_compute; exact eq_refl. Qed.
