(* ===== verification/GcCode.v ===== *)
(** * Garbage collection (garbage.cc): the collector of cycles

    A heap of the values that can form cycles, each with the reference count,
    colour and mark of its [var_metadata] (storage.h) in front of its
    contents; the list of possible roots ([pending_head] of garbage.cc); the
    queue of the anonymous objects to recycle (server.cc).  The operations are
    those of garbage.cc, over that state; the recursive ones have fuel. *)
From Stdlib Require Import ZArith Lia.
From stdpp Require Import prelude gmap strings.
From S2P Require Import Prelude CString Value ObjCode ObjFun.

Local Open Scope Z_scope.
Local Open Scope moo_scope.

(** ** Data *)

Inductive GC_Color := GC_GREEN | GC_YELLOW | GC_BLACK | GC_GRAY | GC_WHITE | GC_PURPLE | GC_PINK.
#[export] Instance GC_Color_eq : EqDecision GC_Color.
Proof. solve_decision. Defined.

(** What the collector sees of a [Var]: not a collection, an anonymous
    object's null pointer, or the address of a list, map or object *)
Inductive value := VOther | VNull | VRef (p : positive).

(** The contents: elements of a list, keys and values of a map in the order
    of its tree, two flags and the property values of an anonymous object *)
Inductive body :=
| LIST (items : list value)
| MAP (pairs : list (value * value))
| ANON (recycled invalid : bool) (propvals : list value).

Record cell := mk_cell { contents : body; color : GC_Color; buffered : bool; refs : Z }.

Record gcst := mk_gcst {
  heap : gmap positive cell;
  roots : list positive;
  gc_roots_count : Z;
  gc_run_called : bool;
  queue : list positive;
  pending_count : Z }.

Definition set_heap (h : gmap positive cell) (s : gcst) : gcst := mk_gcst h (roots s) (gc_roots_count s) (gc_run_called s) (queue s) (pending_count s).
Definition set_roots (l : list positive) (s : gcst) : gcst := mk_gcst (heap s) l (gc_roots_count s) (gc_run_called s) (queue s) (pending_count s).
Definition set_counts (n : Z) (b : bool) (s : gcst) : gcst := mk_gcst (heap s) (roots s) n b (queue s) (pending_count s).
Definition set_queue (l : list positive) (n : Z) (s : gcst) : gcst := mk_gcst (heap s) (roots s) (gc_roots_count s) (gc_run_called s) l n.

(** ** The metadata of a value (storage.h) *)

Definition metadata (p : positive) : M gcst cell := fun s => match heap s !! p with Some c => Some (c, s) | None => None end.
Definition update (p : positive) (f : cell -> cell) : M gcst unit := fun s =>
  match heap s !! p with Some c => Some (tt, set_heap (<[p := f c]> (heap s)) s) | None => None end.

Definition refcount (p : positive) : M gcst Z := let! c := metadata p in mreturn (refs c).
Definition addref (p : positive) : M gcst unit := update p (fun c => mk_cell (contents c) (color c) (buffered c) (to_uint (refs c + 1))).
Definition delref (p : positive) : M gcst unit := update p (fun c => mk_cell (contents c) (color c) (buffered c) (to_uint (refs c - 1))).
Definition gc_get_color (p : positive) : M gcst GC_Color := let! c := metadata p in mreturn (color c).
Definition gc_set_color (p : positive) (x : GC_Color) : M gcst unit := update p (fun c => mk_cell (contents c) x (buffered c) (refs c)).
Definition gc_is_buffered (p : positive) : M gcst bool := let! c := metadata p in mreturn (buffered c).
Definition gc_set_buffered (p : positive) : M gcst unit := update p (fun c => mk_cell (contents c) (color c) true (refs c)).
Definition gc_clear_buffered (p : positive) : M gcst unit := update p (fun c => mk_cell (contents c) (color c) false (refs c)).

(** ** The list of possible roots *)

Definition gc_add_root (v : positive) : M gcst unit := fun s =>
  Some (tt, set_counts (gc_roots_count s + 1) (gc_run_called s) (set_roots (roots s ++ [v]) s)).

Definition gc_possible_root (v : positive) : M gcst unit :=
  let! c := gc_get_color v in
  if bool_decide (c <> GC_PURPLE) && bool_decide (c <> GC_GREEN) && bool_decide (c <> GC_YELLOW) then
    gc_set_color v GC_PURPLE ;;
    (let! b := gc_is_buffered v in
     if b then mreturn tt else gc_set_buffered v ;; gc_add_root v)
  else mreturn tt.

(** [REMOVE_ROOT] takes the node after those of [last], in reverse, out of
    the list; [head] is the rest. *)
Definition REMOVE_ROOT (last head : list positive) : M gcst unit := fun s => Some (tt, set_roots (rev_append last head) s).

(** [gc_stats]: how many roots there are of each colour *)
Fixpoint gc_stats_loop (head : list positive) (count : GC_Color -> Z) : M gcst (GC_Color -> Z) :=
  match head with
  | [] => mreturn count
  | v :: head => let! c := gc_get_color v in
                 gc_stats_loop head (fun x => if bool_decide (x = c) then count x + 1 else count x)
  end.
Definition gc_stats : M gcst (GC_Color -> Z) := fun s => gc_stats_loop (roots s) (fun _ => 0) s.

(** ** Children *)

Definition is_not_green (v : value) : M gcst bool :=
  match v with VRef p => let! c := gc_get_color p in mreturn (bool_decide (c <> GC_GREEN)) | _ => mreturn false end.

(** The callbacks of the three traversals: [fp] of a collection that is not
    green *)
Definition do_obj (fp : positive -> M gcst unit) (v : value) : M gcst unit :=
  let! b := is_not_green v in match v with VRef p => if b then fp p else mreturn tt | _ => mreturn tt end.
Definition do_list (fp : positive -> M gcst unit) (v : value) : M gcst unit :=
  let! b := is_not_green v in match v with VRef p => if b then fp p else mreturn tt | _ => mreturn tt end.
Definition do_map (fp : positive -> M gcst unit) (kv : value * value) : M gcst unit :=
  let! b := is_not_green kv.2 in match kv.2 with VRef p => if b then fp p else mreturn tt | _ => mreturn tt end.

Fixpoint foreach {A} (f : A -> M gcst unit) (l : list A) : M gcst unit :=
  match l with [] => mreturn tt | x :: l => f x ;; foreach f l end.

Definition for_all_children (v : positive) (fp : positive -> M gcst unit) : M gcst unit :=
  let! c := metadata v in
  match contents c with
  | ANON _ _ propvals => foreach (do_obj fp) propvals
  | LIST items => foreach (do_list fp) items
  | MAP pairs => foreach (do_map fp) pairs
  end.

(** ** Marking *)

Fixpoint mark_gray (fuel : nat) (v : positive) : M gcst unit :=
  match fuel with
  | O => mfail
  | S fuel =>
    let! c := gc_get_color v in
    if bool_decide (c <> GC_GRAY) then
      gc_set_color v GC_GRAY ;; for_all_children v (fun k => delref k ;; mark_gray fuel k)
    else mreturn tt
  end.

(** [aux_free] (utils.cc): an anonymous object must be invalid. *)
Definition aux_free (v : positive) : M gcst unit :=
  let! c := metadata v in
  match contents c with
  | ANON _ false _ => mfail
  | _ => fun s => Some (tt, set_heap (delete v (heap s)) s)
  end.

Fixpoint mark_roots_loop (fuel : nat) (last head : list positive) : M gcst unit :=
  match head with
  | [] => mreturn tt
  | v :: head =>
    let! c := gc_get_color v in
    if bool_decide (c = GC_PURPLE) then mark_gray fuel v ;; mark_roots_loop fuel (v :: last) head
    else
      REMOVE_ROOT last head ;;
      gc_clear_buffered v ;;
      (let! c := gc_get_color v in
       let! n := refcount v in
       (if bool_decide (c = GC_BLACK) && (n =? 0) then aux_free v else mreturn tt) ;;
       mark_roots_loop fuel last head)
  end.
Definition mark_roots (fuel : nat) : M gcst unit := fun s => mark_roots_loop fuel [] (roots s) s.

(** ** Scanning *)

Fixpoint scan_black (fuel : nat) (v : positive) : M gcst unit :=
  match fuel with
  | O => mfail
  | S fuel =>
    gc_set_color v GC_BLACK ;;
    for_all_children v (fun k =>
      addref k ;;
      let! c := gc_get_color k in
      if bool_decide (c <> GC_BLACK) then scan_black fuel k else mreturn tt)
  end.

(** [black]: the fuel of [scan_black], which may go through values that the
    calls of [scan] above it made white *)
Fixpoint scan (black fuel : nat) (v : positive) : M gcst unit :=
  match fuel with
  | O => mfail
  | S fuel =>
    let! c := gc_get_color v in
    if bool_decide (c = GC_GRAY) then
      let! n := refcount v in
      if 0 <? n then scan_black black v
      else gc_set_color v GC_WHITE ;; for_all_children v (fun k => scan black fuel k)
    else mreturn tt
  end.
Definition scan_roots (fuel : nat) : M gcst unit := fun s => foreach (scan fuel fuel) (roots s) s.

(** ** Restoring the counts of the white values *)

Fixpoint scan_white (fuel : nat) (v : positive) : M gcst unit :=
  match fuel with
  | O => mfail
  | S fuel =>
    gc_set_color v GC_PINK ;;
    for_all_children v (fun k =>
      addref k ;;
      let! c := gc_get_color k in
      if bool_decide (c <> GC_PINK) then scan_white fuel k else mreturn tt)
  end.
Definition restore_white (fuel : nat) : M gcst unit := fun s =>
  foreach (fun v => let! c := gc_get_color v in
                    if bool_decide (c = GC_WHITE) then scan_white fuel v else mreturn tt) (roots s) s.

(** ** Collecting *)

(** [var_ref] of an anonymous object ([complex_var_ref] of utils.cc) *)
Definition var_ref_anon (v : positive) : M gcst unit :=
  addref v ;;
  let! c := gc_get_color v in
  if bool_decide (c <> GC_BLACK) then gc_set_color v GC_BLACK else mreturn tt.

(** [queue_anonymous_object] (server.cc) with its four assertions *)
Definition queue_includes (v : positive) : M gcst bool := fun s => Some (bool_decide (v ∈ queue s), s).
Definition queue_anonymous_object (v : positive) : M gcst unit :=
  let! c := metadata v in
  let! b := queue_includes v in
  match contents c with
  | ANON false false _ =>
    if b then mfail
    else var_ref_anon v ;; fun s => Some (tt, set_queue (v :: queue s) (pending_count s + 1) s)
  | _ => mfail
  end.

Fixpoint collect_white (fuel : nat) (v : positive) : M gcst unit :=
  match fuel with
  | O => mfail
  | S fuel =>
    let! c := gc_get_color v in
    let! b := gc_is_buffered v in
    if bool_decide (c = GC_PINK) && negb b then
      gc_set_color v GC_BLACK ;;
      for_all_children v (fun k => collect_white fuel k) ;;
      (let! c := metadata v in
       match contents c with
       | ANON _ _ _ => let! n := refcount v in if n =? 0 then mfail else queue_anonymous_object v
       | _ => mreturn tt
       end)
    else mreturn tt
  end.

Fixpoint collect_roots_loop (fuel : nat) (head : list positive) : M gcst unit :=
  match head with
  | [] => mreturn tt
  | v :: head => REMOVE_ROOT [] head ;; gc_clear_buffered v ;; collect_white fuel v ;; collect_roots_loop fuel head
  end.
Definition collect_roots (fuel : nat) : M gcst unit := fun s => collect_roots_loop fuel (roots s) s.

(** ** A run of the collector *)

(** Deeper recursion than there are values is impossible. *)
Definition gc_fuel (s : gcst) : nat := S (S (size (heap s))).

Definition gc_collect : M gcst unit := fun s =>
  let fuel := gc_fuel s in
  match roots s with
  | [] => Some (tt, s)
  | _ :: _ =>
    (mark_roots fuel ;; scan_roots fuel ;; restore_white fuel ;; collect_roots fuel ;;
     fun s => Some (tt, set_counts 0 false s)) s
  end.

(** The condition of the main loop (server.cc) *)
Definition GC_ROOTS_LIMIT : Z := 2000.
Definition gc_wanted (checkpoint : bool) (s : gcst) : bool := gc_run_called s || (GC_ROOTS_LIMIT <? gc_roots_count s) || checkpoint.
Definition gc_step (checkpoint : bool) : M gcst unit := fun s => if gc_wanted checkpoint s then gc_collect s else Some (tt, s).

(** ** Built-in functions *)

Definition bf_run_gc (d : db) (progr : Z) : M gcst package := fun s =>
  if is_wizard d progr then Some (no_var_pack, set_counts (gc_roots_count s) true s) else Some (PError E_PERM, s).
(** The counts of [bf_gc_stats], in the order in which [mapinsert] gets them *)
Definition color_names : list (string * GC_Color) := [("green", GC_GREEN); ("yellow", GC_YELLOW); ("black", GC_BLACK); ("gray", GC_GRAY); ("white", GC_WHITE); ("purple", GC_PURPLE); ("pink", GC_PINK)]%string.
Definition bf_gc_stats (d : db) (progr : Z) : M gcst (error + list (string * Z)) :=
  if is_wizard d progr then let! color := gc_stats in mreturn (inr (map (fun kc => (kc.1, color kc.2)) color_names)) else mreturn (inl E_PERM).
