(* ===== verification/GcSearch.v ===== *)
(** * The collector: what a depth-first search does to the heap

    [desc] describes a heap by the colours, counts and marks of its cells,
    over the initial heap; the rule for the loop over the children of a cell;
    [search], the search that [mark_gray], [scan_black], [scan_white] and
    [collect_white] are instances of, and what it visits. *)
From Stdlib Require Import ZArith Lia.
From stdpp Require Import prelude gmap.
From S2P Require Import Prelude GcCode.

(** ** Graphs: reachability through a set of nodes, and counts of edges

    What a depth-first search visits: [reach T v] holds of the nodes on paths
    from [v] whose nodes are all in [T].  [indeg V x] counts the edges from
    the nodes of a finite set [V] to [x]. *)
Local Open Scope Z_scope.

(** ** Counting *)

Definition cnt (l : list positive) (x : positive) : Z := Z.of_nat (count_occ Pos.eq_dec l x).

Lemma cnt_nonneg l x : 0 <= cnt l x.
Proof. unfold cnt. lia. Qed.
Lemma cnt_nil x : cnt [] x = 0.
Proof. done. Qed.
Lemma cnt_app l k x : cnt (l ++ k) x = cnt l x + cnt k x.
Proof. unfold cnt. rewrite count_occ_app. lia. Qed.
Lemma cnt_cons y l x : cnt (y :: l) x = cnt [y] x + cnt l x.
Proof. apply (cnt_app [y] l). Qed.
Lemma cnt_single y x : cnt [y] x = if decide (x = y) then 1 else 0.
Proof. unfold cnt. cbn. repeat case_match; simplify_eq; done. Qed.
Lemma cnt_perm l k x : l ≡ₚ k -> cnt l x = cnt k x.
Proof. intros H. unfold cnt. f_equal. by apply (Permutation_count_occ Pos.eq_dec). Qed.
Lemma cnt_pos l x : 0 < cnt l x <-> x ∈ l.
Proof. unfold cnt. rewrite list_elem_of_In, (count_occ_In Pos.eq_dec). lia. Qed.
Lemma cnt_zero l x : x ∉ l -> cnt l x = 0.
Proof. rewrite <- cnt_pos. pose proof (cnt_nonneg l x). lia. Qed.

Lemma cnt_NoDup l x : NoDup l -> cnt l x = if decide (x ∈ l) then 1 else 0.
Proof.
  induction 1 as [|y l Hy _ IH]; [done|]. rewrite cnt_cons, cnt_single, IH.
  destruct (decide (x = y)) as [->|Hne]; [by rewrite decide_False, decide_True by (done || left)|].
  destruct (decide (x ∈ l)), (decide (x ∈ y :: l)); set_solver.
Qed.

Section graph.
Variable E : positive -> list positive.

(** ** Reachability *)

Inductive reach (T : positive -> Prop) (v : positive) : positive -> Prop :=
| reach_refl : T v -> reach T v v
| reach_step u w : reach T v u -> w ∈ E u -> T w -> reach T v w.

Lemma reach_in (T : positive -> Prop) v u : reach T v u -> T v /\ T u.
Proof. induction 1; naive_solver. Qed.
Lemma reach_mono (T T' : positive -> Prop) v u : (forall x, T x -> T' x) -> reach T v u -> reach T' v u.
Proof. intros H. induction 1; [apply reach_refl; auto|eapply reach_step; eauto]. Qed.
Lemma reach_ext (T T' : positive -> Prop) v u : (forall x, T x <-> T' x) -> reach T v u <-> reach T' v u.
Proof. intros H. split; apply reach_mono; naive_solver. Qed.
Lemma reach_trans T v u w : reach T v u -> reach T u w -> reach T v w.
Proof. intros H. induction 1; [done|eapply reach_step; eauto]. Qed.

(** Through a node: the node, or what its successors reach without it *)
Lemma reach_unfold (T : positive -> Prop) v u : T v ->
  reach T v u <-> u = v \/ exists k, k ∈ E v /\ reach (fun x => T x /\ x <> v) k u.
Proof.
  intros Hv. split.
  - induction 1 as [|u w H IH Hw Tw]; [by left|]. destruct (decide (w = v)) as [->|Hne]; [by left|]. right.
    destruct IH as [->|(k & Hk & Hr)].
    + exists w. split; [done|]. by apply reach_refl.
    + exists k. split; [done|]. by eapply reach_step.
  - intros [->|(k & Hk & Hr)]; [by apply reach_refl|]. apply reach_trans with k.
    + eapply reach_step; [by apply reach_refl|done|]. by apply reach_in in Hr as [[]].
    + eapply reach_mono; [|done]. by intros x [].
Qed.

(** [V] is closed in [T] *)
Definition closed_in (T : positive -> Prop) (V : gset positive) : Prop :=
  forall u w, u ∈ V -> w ∈ E u -> T w -> w ∈ V.

Lemma reach_closed_in T v (V : gset positive) : (forall u, u ∈ V <-> reach T v u) -> closed_in T V.
Proof. intros H u w Hu Hw Tw. apply H in Hu. apply H. by eapply reach_step. Qed.

(** What a set that is closed leads to *)
Lemma reach_into T (V : gset positive) v u : (forall u w, u ∈ V -> w ∈ E u -> w ∈ V) -> reach T v u -> v ∈ V -> u ∈ V.
Proof. intros Hc. induction 1; eauto. Qed.

(** What is reached around a closed set *)
Lemma reach_around (T : positive -> Prop) (V : gset positive) k u : closed_in T V ->
  reach T k u -> u ∈ V \/ reach (fun x => T x /\ x ∉ V) k u.
Proof.
  intros Hc. induction 1 as [|u w H IH Hw Tw].
  - destruct (decide (k ∈ V)); [by left|right]. by apply reach_refl.
  - destruct IH as [Hu|Hu]; [left; by eapply Hc|]. destruct (decide (w ∈ V)); [by left|right]. by eapply reach_step.
Qed.

(** The nodes that one of a list reaches *)
Definition reach_any (T : positive -> Prop) (ks : list positive) (u : positive) : Prop := exists k, k ∈ ks /\ reach T k u.

Lemma reach_any_nil T u : ~ reach_any T [] u.
Proof. intros (k & Hk & _). by apply not_elem_of_nil in Hk. Qed.
Lemma reach_any_snoc T ks k (V : gset positive) u : (forall x, x ∈ V <-> reach_any T ks x) ->
  reach_any T (ks ++ [k]) u <-> u ∈ V \/ reach (fun x => T x /\ x ∉ V) k u.
Proof.
  intros HV. split.
  - intros (k' & [Hk|Hk]%elem_of_app & H); [left; apply HV; by exists k'|]. apply list_elem_of_singleton in Hk as ->.
    apply reach_around; [|done]. intros x w Hx Hw Tw. apply HV in Hx as (k' & Hk & Hr). apply HV. exists k'.
    split; [done|]. by eapply reach_step.
  - intros [(k' & Hk & H)%HV|H]; [exists k'|exists k]; (split; [set_solver|]); [done|].
    eapply reach_mono; [|done]. by intros x [].
Qed.
Lemma reach_any_ext (T T' : positive -> Prop) ks u : (forall x, T x <-> T' x) -> reach_any T ks u <-> reach_any T' ks u.
Proof. intros H. unfold reach_any. by setoid_rewrite (reach_ext T T' _ u H). Qed.
Lemma reach_any_step T ks u w : reach_any T ks u -> w ∈ E u -> T w -> reach_any T ks w.
Proof. intros (k & Hk & H) Hw Tw. exists k. split; [done|]. by eapply reach_step. Qed.

(** ** Edges into a node *)

Definition indeg (V : gset positive) (x : positive) : Z := cnt (elements V ≫= E) x.

Lemma indeg_nonneg V x : 0 <= indeg V x.
Proof. apply cnt_nonneg. Qed.
Lemma indeg_empty x : indeg ∅ x = 0.
Proof. unfold indeg. by rewrite elements_empty. Qed.
Lemma indeg_singleton v x : indeg {[v]} x = cnt (E v) x.
Proof. unfold indeg. rewrite elements_singleton. cbn. by rewrite app_nil_r. Qed.
Lemma indeg_union V W x : V ## W -> indeg (V ∪ W) x = indeg V x + indeg W x.
Proof. intros H. unfold indeg. rewrite (cnt_perm _ _ x (bind_Permutation _ _ _ (elements_disj_union V W H))), bind_app. apply cnt_app. Qed.
Lemma indeg_mono V W x : V ⊆ W -> indeg V x <= indeg W x.
Proof.
  intros H. rewrite (union_difference_L V W H), indeg_union by set_solver. pose proof (indeg_nonneg (W ∖ V) x). lia.
Qed.
Lemma indeg_pos V x : 0 < indeg V x <-> exists u, u ∈ V /\ x ∈ E u.
Proof. unfold indeg. rewrite cnt_pos, list_elem_of_bind. setoid_rewrite elem_of_elements. naive_solver. Qed.
Lemma indeg_zero V x : (forall u, u ∈ V -> x ∉ E u) -> indeg V x = 0.
Proof.
  intros H. pose proof (indeg_nonneg V x). destruct (decide (0 < indeg V x)) as [(u & Hu & Hx)%indeg_pos|]; [naive_solver|lia].
Qed.
End graph.

Lemma indeg_ext E E' V x : (forall u, u ∈ V -> E u = E' u) -> indeg E V x = indeg E' V x.
Proof.
  intros H. unfold indeg. f_equal. setoid_rewrite <- elem_of_elements in H. induction (elements V) as [|u l IH]; [done|].
  cbn. rewrite (H u) by left. f_equal. apply IH. intros; apply H. by right.
Qed.

Local Open Scope Z_scope.
Local Open Scope moo_scope.

(** ** Edges of a heap *)

Definition children (b : body) : list value := match b with LIST l => l | MAP l => map snd l | ANON _ _ l => l end.
Definition pointer (v : value) : option positive := match v with VRef p => Some p | _ => None end.
Definition nongreen (h : gmap positive cell) (p : positive) : bool :=
  match h !! p with Some c => bool_decide (color c <> GC_GREEN) | None => false end.
(** The pointers of [p] that the collector follows *)
Definition followed (h : gmap positive cell) (l : list value) : list positive := base.filter (fun q => nongreen h q = true) (omap pointer l).
Definition follow (h : gmap positive cell) (p : positive) : list positive :=
  match h !! p with Some c => followed h (children (contents c)) | None => [] end.

Lemma followed_cons h x l : followed h (x :: l) = followed h [x] ++ followed h l.
Proof. unfold followed. rewrite <- filter_app. by destruct x. Qed.
Lemma followed_ref h p : followed h [VRef p] = if nongreen h p then [p] else [].
Proof. unfold followed. change (omap pointer [VRef p]) with [p]. rewrite filter_cons, filter_nil. by destruct (nongreen h p). Qed.
Lemma followed_in h l p : p ∈ followed h l <-> nongreen h p = true /\ p ∈ omap pointer l.
Proof. unfold followed. by rewrite list_elem_of_filter. Qed.

Definition is_anon (h : gmap positive cell) (p : positive) : bool :=
  match h !! p with Some (mk_cell (ANON _ _ _) _ _ _) => true | _ => false end.

Lemma followed_ext h h' l : (forall q, q ∈ omap pointer l -> nongreen h q = nongreen h' q) -> followed h l = followed h' l.
Proof.
  induction l as [|x l IH]; intros H; [done|]. rewrite (followed_cons h), (followed_cons h'), IH by (intros; apply H; destruct x; [done|done|by right]).
  f_equal. destruct x as [| |p]; [done|done|]. rewrite !followed_ref. by rewrite H by left.
Qed.

(** The search, with the test of a cell, its new colour, what is added to the
    counts of the children, and what is done with a cell at the end *)
Definition bump (d : Z) (p : positive) : M gcst unit :=
  if d =? 0 then mreturn tt else update p (fun c => mk_cell (contents c) (color c) (buffered c) (to_uint (refs c + d))).

Section search.
Context (tst : GC_Color -> bool -> bool) (new : GC_Color) (d : Z) (post : positive -> M gcst unit).

Fixpoint search (fuel : nat) (v : positive) : M gcst unit :=
  let! c := metadata v in
  if tst (color c) (buffered c) then
    match fuel with
    | O => mfail
    | S fuel => gc_set_color v new ;; for_all_children v (fun k => bump d k ;; search fuel k) ;; post v
    end
  else mreturn tt.
End search.

(** The state with another heap and more in the queue *)
Definition put (h : gmap positive cell) (q : list positive) (s : gcst) : gcst :=
  mk_gcst h (roots s) (gc_roots_count s) (gc_run_called s) (q ++ queue s) (pending_count s + Z.of_nat (length q)).

Lemma put_heap h s : set_heap h s = put h [] s.
Proof. unfold put, set_heap. cbn [app length]. by rewrite Z.add_0_r. Qed.
Lemma put_self s : put (heap s) [] s = s.
Proof. rewrite <- put_heap. by destruct s. Qed.
Lemma put_twice h q h' q' s : put h' q' (put h q s) = put h' (q' ++ q) s.
Proof. unfold put. cbn. rewrite length_app, app_assoc. f_equal. lia. Qed.

Definition paint (V : gset positive) (x : GC_Color) (col : positive -> GC_Color) (p : positive) : GC_Color :=
  if decide (p ∈ V) then x else col p.
Lemma painted V x col p : paint V x col p = if decide (p ∈ V) then x else col p.
Proof. done. Qed.
Lemma paint_paint U V x col p : paint V x (paint U x col) p = paint (U ∪ V) x col p.
Proof. unfold paint. destruct (decide (p ∈ V)), (decide (p ∈ U)), (decide (p ∈ U ∪ V)); set_solver. Qed.

(** ** Descriptions *)

Section described.
Context (h0 : gmap positive cell) (D : gset positive).
Notation E := (follow h0).

(** [D]: cells that are not green, with pointers to such cells or to green ones *)
Definition domain : Prop :=
  forall p, p ∈ D -> nongreen h0 p = true /\
    forall q, q ∈ omap pointer (children (from_option contents (LIST []) (h0 !! p))) -> q ∈ D \/ (is_Some (h0 !! q) /\ nongreen h0 q = false).

Definition desc (h : gmap positive cell) (col : positive -> GC_Color) (rc : positive -> Z) (bf : positive -> bool) (fr : gset positive) : Prop :=
  (forall p, h !! p = if decide (p ∈ fr) then None else (fun c => mk_cell (contents c) (col p) (bf p) (to_uint (rc p))) <$> h0 !! p) /\
  (forall p, is_Some (h0 !! p) -> col p = GC_GREEN <-> nongreen h0 p = false) /\
  (forall p, p ∈ fr -> p ∉ D /\ nongreen h0 p = true).

Lemma desc_ext h col col' rc rc' bf bf' fr : desc h col rc bf fr ->
  (forall p, is_Some (h0 !! p) -> col' p = col p /\ rc' p = rc p /\ bf' p = bf p) -> desc h col' rc' bf' fr.
Proof.
  intros (H1 & H2 & H3) He. split; [|split; [|done]].
  - intros p. rewrite H1. destruct (decide _); [done|]. destruct (h0 !! p) eqn:E; [|done]. cbn.
    by destruct (He p) as (-> & -> & ->).
  - intros p Hp. destruct (He p Hp) as (-> & _). by apply H2.
Qed.

Hypothesis HD : domain.

Lemma domain_some p : p ∈ D -> is_Some (h0 !! p).
Proof. intros [H _]%HD. unfold nongreen in H. by destruct (h0 !! p). Qed.
Lemma follow_domain p q : p ∈ D -> q ∈ E p -> q ∈ D.
Proof.
  intros Hp. destruct (HD p Hp) as [_ H]. unfold follow. destruct (h0 !! p); [|by intros ?%not_elem_of_nil].
  intros [Hg Hq]%followed_in. destruct (H q Hq) as [|[_ Hn]]; [done|congruence].
Qed.

Lemma desc_lookup h col rc bf fr p : desc h col rc bf fr -> p ∈ D ->
  exists c, h0 !! p = Some c /\ h !! p = Some (mk_cell (contents c) (col p) (bf p) (to_uint (rc p))).
Proof.
  intros (H1 & _ & H3) Hp. destruct (domain_some p Hp) as [c Hc]. exists c. split; [done|].
  rewrite H1, Hc. destruct (decide (p ∈ fr)) as [Hf|]; [|done]. by destruct (H3 p Hf).
Qed.

Lemma desc_metadata s col rc bf fr p : desc (heap s) col rc bf fr -> p ∈ D ->
  exists c, h0 !! p = Some c /\ metadata p s = Some (mk_cell (contents c) (col p) (bf p) (to_uint (rc p)), s).
Proof. intros H Hp. destruct (desc_lookup _ _ _ _ _ p H Hp) as (c & Hc & Hh). exists c. unfold metadata. by rewrite Hh. Qed.
Lemma desc_color s col rc bf fr p : desc (heap s) col rc bf fr -> p ∈ D -> gc_get_color p s = Some (col p, s).
Proof. intros H Hp. destruct (desc_metadata s _ _ _ _ p H Hp) as (c & _ & Hm). unfold gc_get_color. by rewrite (mbind_Some _ _ _ _ _ Hm). Qed.
Lemma desc_buffered s col rc bf fr p : desc (heap s) col rc bf fr -> p ∈ D -> gc_is_buffered p s = Some (bf p, s).
Proof. intros H Hp. destruct (desc_metadata s _ _ _ _ p H Hp) as (c & _ & Hm). unfold gc_is_buffered. by rewrite (mbind_Some _ _ _ _ _ Hm). Qed.
Lemma desc_refcount s col rc bf fr p : desc (heap s) col rc bf fr -> p ∈ D -> refcount p s = Some (to_uint (rc p), s).
Proof. intros H Hp. destruct (desc_metadata s _ _ _ _ p H Hp) as (c & _ & Hm). unfold refcount. by rewrite (mbind_Some _ _ _ _ _ Hm). Qed.

(** An update of a cell of the domain *)
Lemma desc_update s col rc bf fr col' rc' bf' p f : desc (heap s) col rc bf fr -> p ∈ D ->
  (forall c, f (mk_cell c (col p) (bf p) (to_uint (rc p))) = mk_cell c (col' p) (bf' p) (to_uint (rc' p))) ->
  col' p <> GC_GREEN ->
  (forall q, q <> p -> col' q = col q /\ rc' q = rc q /\ bf' q = bf q) ->
  exists h, update p f s = Some (tt, put h [] s) /\ desc h col' rc' bf' fr.
Proof.
  intros H Hp Hf Hg Ho. destruct (desc_lookup _ _ _ _ _ p H Hp) as (c & Hc & Hh). destruct H as (H1 & H2 & H3).
  exists (<[p := f (mk_cell (contents c) (col p) (bf p) (to_uint (rc p)))]> (heap s)).
  split; [unfold update; by rewrite Hh, put_heap|]. split; [|split; [|done]].
  - intros q. destruct (decide (q = p)) as [->|Hne].
    + rewrite lookup_insert_eq, Hf, Hc. destruct (decide (p ∈ fr)) as [Hx|]; [by destruct (H3 p Hx)|done].
    + rewrite lookup_insert_ne by done. rewrite H1. by destruct (Ho q Hne) as (-> & -> & ->).
  - intros q Hq. destruct (decide (q = p)) as [->|Hne].
    + destruct (HD p Hp) as [Hn _]. rewrite Hn. split; [done|discriminate].
    + destruct (Ho q Hne) as (-> & _). by apply H2.
Qed.


Lemma desc_set_color s col rc bf fr p x : desc (heap s) col rc bf fr -> p ∈ D -> x <> GC_GREEN ->
  exists h, gc_set_color p x s = Some (tt, put h [] s) /\ desc h (paint {[p]} x col) rc bf fr.
Proof.
  intros H Hp Hx. unfold paint. eapply desc_update; eauto.
  - intros c. by rewrite decide_True by set_solver.
  - by rewrite decide_True by set_solver.
  - intros q Hq. by rewrite decide_False by set_solver.
Qed.
Lemma to_uint_add a b : to_uint (to_uint a + b) = to_uint (a + b).
Proof. unfold to_uint, wrapU. by rewrite Zplus_mod_idemp_l. Qed.
Lemma desc_nongreen h col rc bf fr p : desc h col rc bf fr -> p ∈ D -> col p <> GC_GREEN.
Proof. intros (_ & H & _) Hp Hg. destruct (HD p Hp) as [Hn _]. apply H in Hg; [congruence|by apply domain_some]. Qed.
Lemma desc_bump s col rc bf fr p d : desc (heap s) col rc bf fr -> p ∈ D ->
  exists h, bump d p s = Some (tt, put h [] s) /\ desc h col (fun q => rc q + d * cnt [p] q) bf fr.
Proof.
  intros H Hp. unfold bump. destruct (Z.eqb_spec d 0) as [->|Hd].
  - exists (heap s). rewrite put_self. split; [done|]. eapply desc_ext; [done|]. intros q _. cbn. split_and!; [done|lia|done].
  - eapply desc_update; eauto.
    + intros c. cbn. by rewrite to_uint_add, cnt_single, decide_True, Z.mul_1_r by done.
    + by eapply desc_nongreen.
    + intros q Hq. rewrite cnt_single, decide_False by done. split_and!; [done|lia|done].
Qed.

(** ** The loop over the children *)

Definition visit (fp : positive -> M gcst unit) (v : value) : M gcst unit :=
  let! b := is_not_green v in match v with VRef p => if b then fp p else mreturn tt | _ => mreturn tt end.

Lemma foreach_pairs fp l s : foreach (do_map fp) l s = foreach (visit fp) (map snd l) s.
Proof.
  revert s. induction l as [|[k v] l IH]; intros s; [done|]. cbn [foreach map snd]. unfold mbindM.
  change (do_map fp (k, v) s) with (visit fp v s). destruct (visit fp v s) as [[[] s']|]; [apply IH|done].
Qed.

Lemma for_all_children_visit v fp s c : heap s !! v = Some c -> for_all_children v fp s = foreach (visit fp) (children (contents c)) s.
Proof.
  intros Hc. unfold for_all_children. rewrite (mbind_Some (metadata v) _ s c s) by (unfold metadata; by rewrite Hc).
  destruct (contents c); [done|apply foreach_pairs|done].
Qed.

Lemma children_rule (P : list positive -> gcst -> Prop) fp v s col rc bf fr :
  v ∈ D -> desc (heap s) col rc bf fr ->
  (forall ks s, P ks s -> exists col rc bf fr, desc (heap s) col rc bf fr) ->
  (forall ks k s, k ∈ D -> k ∈ E v -> P ks s -> exists s', fp k s = Some (tt, s') /\ P (ks ++ [k]) s') ->
  P [] s -> exists s', for_all_children v fp s = Some (tt, s') /\ P (E v) s'.
Proof.
  intros Hv Hd HP Hstep H0. destruct (desc_lookup _ _ _ _ _ v Hd Hv) as (c & Hc & Hh).
  rewrite (for_all_children_visit v fp s _ Hh). cbn [contents].
  assert (E v = followed h0 (children (contents c))) as He by (unfold follow; by rewrite Hc).
  rewrite He in Hstep |- *. destruct (HD v Hv) as [_ Hq]. rewrite Hc in Hq. cbn [from_option] in Hq. clear Hd Hh He Hc Hv.
  assert (forall k, k ∈ omap pointer (children (contents c)) -> nongreen h0 k = true -> k ∈ followed h0 (children (contents c))) as Hin
    by (intros; by apply followed_in).
  rewrite <- (app_nil_l (followed h0 (children _))). revert Hin Hq H0.
  generalize (@nil positive) as ks. generalize (children (contents c)) at 1 3 4 5 as l.
  intros l. revert s. induction l as [|x l IH]; intros s ks Hin Hq H0; [exists s; by rewrite app_nil_r|].
  assert (exists s', visit fp x s = Some (tt, s') /\ P (ks ++ followed h0 [x]) s') as (s' & Hs & HP').
  { destruct x as [| |k]; [exists s; by rewrite app_nil_r..|]. rewrite followed_ref.
    destruct (HP _ _ H0) as (col' & rc' & bf' & fr' & Hd). unfold visit, is_not_green.
    destruct (Hq k) as [Hk|[Hs Hk]]; [cbn; left|..].
    - destruct (HD k Hk) as [Hn _]. rewrite Hn.
      rewrite (mbind_Some _ _ s true s); [by apply Hstep; [|apply Hin; [cbn; left|]|]|].
      rewrite (mbind_Some _ _ _ _ _ (desc_color s _ _ _ _ k Hd Hk)). unfold mreturn. do 2 f_equal.
      apply bool_decide_eq_true. by eapply desc_nongreen.
    - rewrite Hk, app_nil_r. exists s. split; [|done].
      destruct Hd as (H1 & H2 & H3). destruct Hs as [ck Hck]. unfold gc_get_color, metadata, mbindM, mreturn.
      rewrite H1, Hck. destruct (decide (k ∈ fr')) as [Hf|]; [apply H3 in Hf as [_ Hf]; congruence|]. cbn.
      rewrite bool_decide_eq_false_2; [done|]. intros Hn. apply Hn, H2; [by eexists|done]. }
  cbn [foreach]. rewrite (mbind_Some _ _ _ _ _ Hs), followed_cons, app_assoc.
  apply IH; [| |done].
  - intros k Hk. apply Hin. destruct x; [done|done|by right].
  - intros k Hk. apply Hq. destruct x; [done|done|by right].
Qed.

(** ** What a search visits *)

Section visits.
Context (tst : GC_Color -> bool -> bool) (new : GC_Color) (d : Z) (qf : bool) (bf : positive -> bool) (fr : gset positive).
Hypothesis Hnew : new <> GC_GREEN.
Hypothesis Htst : forall b, tst new b = false.

Definition anon_post (v : positive) : M gcst unit :=
  if qf then
    let! c := metadata v in
    match contents c with
    | ANON _ _ _ => let! n := refcount v in if n =? 0 then mfail else queue_anonymous_object v
    | _ => mreturn tt
    end
  else mreturn tt.

(** What passes the test, what is queued, and what makes that possible *)
Definition passing (col : positive -> GC_Color) : gset positive := filter (fun p => tst (col p) (bf p) = true) D.
Definition queued (V : gset positive) : list positive := if qf then base.filter (fun p => is_anon h0 p = true) (elements V) else [].
Definition ready (s : gcst) (col : positive -> GC_Color) (rc : positive -> Z) : Prop :=
  qf = true -> forall p, p ∈ passing col -> is_anon h0 p = true ->
    (exists l c b n, h0 !! p = Some (mk_cell (ANON false false l) c b n)) /\ p ∉ queue s /\ to_uint (rc p) <> 0.

Definition after (s : gcst) (col : positive -> GC_Color) (rc : positive -> Z) (V : gset positive) (L : list positive) (ex : positive -> Z) (s' : gcst) : Prop :=
  exists Q h, s' = put h Q s /\ Q ≡ₚ L /\ desc h (paint V new col) (fun p => rc p + ex p + cnt L p) bf fr.

Lemma queued_union V W : V ## W -> queued (V ∪ W) ≡ₚ queued V ++ queued W.
Proof.
  intros H. unfold queued. destruct qf; [|done]. rewrite <- filter_app. by rewrite (elements_disj_union V W H).
Qed.
Lemma queued_in V p : p ∈ queued V -> p ∈ V.
Proof. unfold queued. destruct qf; [|by intros ?%not_elem_of_nil]. intros [_ ?]%list_elem_of_filter. by apply elem_of_elements. Qed.
Lemma queued_empty : queued ∅ = [].
Proof. unfold queued. rewrite elements_empty. by destruct qf. Qed.
Lemma queued_singleton v : queued {[v]} = if qf && is_anon h0 v then [v] else [].
Proof. unfold queued. rewrite elements_singleton, filter_cons, filter_nil. destruct qf, (is_anon h0 v); done. Qed.
Lemma passing_paint V col p : p ∈ passing (paint V new col) <-> p ∈ passing col /\ p ∉ V.
Proof.
  unfold passing, paint. rewrite !elem_of_filter. destruct (decide (p ∈ V)); [rewrite Htst|]; naive_solver.
Qed.

Lemma after_refl s col rc : desc (heap s) col rc bf fr -> after s col rc ∅ [] (fun _ => 0) s.
Proof.
  intros H. exists [], (heap s). rewrite put_self. split_and!; [done..|]. eapply desc_ext; [done|]. intros p _.
  unfold paint. rewrite decide_False by set_solver. rewrite cnt_nil. split_and!; [done|lia|done].
Qed.
Lemma after_trans s col rc V L ex s1 col1 rc1 V' L' ex' s2 :
  after s col rc V L ex s1 -> after s1 col1 rc1 V' L' ex' s2 ->
  (forall p, col1 p = paint V new col p /\ rc1 p = rc p + ex p + cnt L p) ->
  after s col rc (V ∪ V') (L ++ L') (fun p => ex p + ex' p) s2.
Proof.
  intros (Q & h & -> & HQ & Hd) (Q' & h' & -> & HQ' & Hd') He. exists (Q' ++ Q), h'. split; [apply put_twice|].
  split; [rewrite HQ, HQ'; apply Permutation_app_comm|]. eapply desc_ext; [done|]. intros p _. cbn. rewrite cnt_app.
  destruct (He p) as [Hc ->]. rewrite <- (paint_paint V V'), (painted V'), (painted V' _ col1), Hc. split_and!; [done|lia|done].
Qed.
Lemma after_ext s col rc V L ex V' L' ex' s' : after s col rc V L ex s' ->
  (forall p, p ∈ V <-> p ∈ V') -> L ≡ₚ L' -> (forall p, ex p = ex' p) -> after s col rc V' L' ex' s'.
Proof.
  intros (Q & h & -> & HQ & Hd) HV HL He. exists Q, h. split; [done|]. split; [by rewrite HQ|].
  eapply desc_ext; [done|]. intros p _. cbn. rewrite He, (cnt_perm _ _ p HL). unfold paint. split_and!; [|done..].
  destruct (decide (p ∈ V)), (decide (p ∈ V')); naive_solver.
Qed.
Lemma after_desc s col rc V L ex s' : after s col rc V L ex s' -> desc (heap s') (paint V new col) (fun p => rc p + ex p + cnt L p) bf fr.
Proof. by intros (Q & h & -> & _ & H). Qed.
Lemma after_ready s col rc V L ex s' col' rc' : ready s col rc -> after s col rc V L ex s' ->
  (forall p, p ∈ L -> p ∈ V) -> (forall p, p ∈ passing col' -> p ∈ passing col /\ p ∉ V) ->
  (qf = true -> forall p, p ∉ V -> rc' p = rc p) -> ready s' col' rc'.
Proof.
  intros Hr (Q & h & -> & HQ & Hd) HL Hp Hrc Hq p Hin Ha. destruct (Hp p Hin) as [Hin' Hnot].
  destruct (Hr Hq p Hin' Ha) as (H1 & H2 & H3). rewrite Hrc by done. split_and!; [done| |done]. cbn.
  rewrite not_elem_of_app. split; [|done]. rewrite HQ. naive_solver.
Qed.

Hypothesis Hqf : qf = true -> d = 0 /\ new = GC_BLACK.

(** The end of a visit *)
Lemma anon_post_spec s col rc v : desc (heap s) col rc bf fr -> v ∈ D -> col v = new ->
  (qf = true -> is_anon h0 v = true -> (exists l c b n, h0 !! v = Some (mk_cell (ANON false false l) c b n)) /\ v ∉ queue s /\ to_uint (rc v) <> 0) ->
  exists s', anon_post v s = Some (tt, s') /\ after s col rc ∅ (queued {[v]}) (fun _ => 0) s'.
Proof.
  intros Hd Hv Hc Hr. rewrite queued_singleton. unfold anon_post. pose proof Hqf as Hb. clear Hqf. destruct qf; [|exists s; split; [done|by apply after_refl]]. cbn [andb].
  destruct (desc_metadata s _ _ _ _ v Hd Hv) as (c & Hc0 & Hm). rewrite (mbind_Some _ _ _ _ _ Hm). cbn [contents].
  unfold is_anon in *. rewrite Hc0 in *. destruct Hb as [_ Hb]; [done|]. destruct c as [[l|l|r i l] x b n]; [exists s; split; [done|by apply after_refl]..|].
  destruct Hr as ((l' & x' & b' & n' & He) & Hq & Hn); [done..|]. simplify_eq. cbn [contents].
  rewrite (mbind_Some _ _ _ _ _ (desc_refcount s _ _ _ _ v Hd Hv)). destruct (Z.eqb_spec (to_uint (rc v)) 0); [done|].
  unfold queue_anonymous_object. rewrite (mbind_Some _ _ _ _ _ Hm). cbn [contents]. unfold queue_includes.
  rewrite (mbind_Some _ _ s false s) by (by rewrite bool_decide_eq_false_2).
  destruct (desc_bump s _ _ _ _ v 1 Hd Hv) as (h & Hs & Hd'). unfold var_ref_anon.
  change (addref v) with (bump 1 v).
  rewrite (mbind_Some _ _ s tt (put h [] s)).
  2: { rewrite (mbind_Some _ _ _ _ _ Hs), (mbind_Some _ _ _ _ _ (desc_color (put h [] s) _ _ _ _ v Hd' Hv)), Hc, Hb.
       by rewrite bool_decide_eq_false_2 by naive_solver. }
  eexists. split; [done|]. exists [v], h. split; [unfold put, set_queue; cbn; f_equal; lia|]. split; [done|].
  eapply desc_ext; [done|]. intros p _. unfold paint. rewrite decide_False by set_solver. split_and!; [done|lia|done].
Qed.

Lemma search_spec fuel : forall v s col rc, v ∈ D -> desc (heap s) col rc bf fr -> (size (passing col) <= fuel)%nat -> ready s col rc ->
  exists V s', search tst new d anon_post fuel v s = Some (tt, s') /\
    (forall u, u ∈ V <-> reach E (fun x => x ∈ passing col) v u) /\
    after s col rc V (queued V) (fun p => d * indeg E V p) s'.
Proof.
  induction fuel as [|fuel IH]; intros v s col rc Hv Hd Hsz Hr.
  all: destruct (desc_metadata s _ _ _ _ v Hd Hv) as (c & Hc0 & Hm); cbn [search]; rewrite (mbind_Some _ _ _ _ _ Hm); cbn [color buffered].
  all: destruct (tst (col v) (bf v)) eqn:Et.
  all: try (assert (v ∈ passing col) as Hin by (by apply elem_of_filter)).
  2,4: exists ∅, s; split; [done|]; split;
    [intros u; split; [set_solver|]; intros [H _]%reach_in; apply elem_of_filter in H as [H _]; congruence|].
  2,3: eapply after_ext; [by apply after_refl|done|by rewrite queued_empty|]; intros p; rewrite indeg_empty; lia.
  { exfalso. assert (size (passing col) <> 0%nat) as Hne; [|lia]. intros He. apply size_empty_inv in He. set_solver. }
  destruct (desc_set_color s _ _ _ _ v new Hd Hv Hnew) as (h1 & Hs1 & Hd1). rewrite (mbind_Some _ _ _ _ _ Hs1).
  set (s1 := put h1 [] s) in *. set (col1 := paint {[v]} new col) in *.
  assert (forall p, p ∈ passing col1 <-> p ∈ passing col /\ p <> v) as Hp1.
  { intros p. unfold col1. rewrite passing_paint. set_solver. }
  assert (after s col rc {[v]} [] (fun _ => 0) s1) as Ha1.
  { exists [], h1. split_and!; [done..|]. eapply desc_ext; [done|]. intros p _. cbn. rewrite cnt_nil. split_and!; [done|lia|done]. }
  set (P := fun ks st => exists V, (forall u, u ∈ V <-> reach_any E (fun x => x ∈ passing col1) ks u) /\
              after s1 col1 rc V (queued V) (fun p => d * indeg E V p + d * cnt ks p) st).
  destruct (children_rule P (fun k => bump d k ;; search tst new d anon_post fuel k) v s1 col1 rc bf fr) as (s2 & Hs2 & V & HV & Ha2);
    [done|done|intros ks st (V & _ & H%after_desc); eauto 6|..].
  { intros ks k st Hk _ (V & HV & Ha). pose proof (after_desc _ _ _ _ _ _ _ Ha) as Hd2.
    destruct (desc_bump st _ _ _ _ k d Hd2 Hk) as (h2 & Hb & Hd3). rewrite (mbind_Some _ _ _ _ _ Hb).
    set (st' := put h2 [] st) in *.
    assert (after s1 col1 rc V (queued V) (fun p => d * indeg E V p + d * cnt (ks ++ [k]) p) st') as Ha'.
    { destruct Ha as (Q & h & -> & HQ & _). exists Q, h2. unfold st'. rewrite put_twice. split_and!; [done..|].
      eapply desc_ext; [done|]. intros p _. cbn. rewrite cnt_app. split_and!; [done|lia|done]. }
    pose proof (after_desc _ _ _ _ _ _ _ Ha') as Hd'.
    destruct (IH k st' (paint V new col1) (fun p => rc p + (d * indeg E V p + d * cnt (ks ++ [k]) p) + cnt (queued V) p)) as (V' & st2 & Hs & HV' & Ha3); [done|done|..].
    - assert (size (passing (paint V new col1)) < size (passing col))%nat; [|lia]. apply subset_size, strict_spec.
      split; [intros p [[Hp _]%Hp1 _]%passing_paint; done|]. intros Hs. apply Hs, passing_paint in Hin as [[_ ?]%Hp1 _]. done.
    - eapply (after_ready s1 col1 rc V); [|done|apply queued_in|by intros p ?%passing_paint|].
      + eapply (after_ready s col rc {[v]}); [done|done|by intros p ?%not_elem_of_nil|by intros p ?%passing_paint|done].
      + intros Hq p Hp. destruct (Hqf Hq) as [-> _]. rewrite (cnt_zero (queued V)); [lia|]. by intros ?%queued_in.
    - exists st2. split; [done|]. exists (V ∪ V').
      assert (V ## V') as Hdis. { intros x Hx [_ [_ Hx']%passing_paint]%HV'%reach_in. done. }
      split.
      + intros u. rewrite elem_of_union, (reach_any_snoc E _ ks k V u HV), HV'. apply or_iff_compat_l, reach_ext.
        intros x. by rewrite passing_paint.
      + eapply after_ext; [eapply after_trans; [exact Ha'|exact Ha3|done]|done|symmetry; by apply queued_union|].
        intros p. cbn. rewrite (indeg_union E V V' p Hdis). lia. }
  { exists ∅. split; [intros u; split; [set_solver|by intros ?%reach_any_nil]|].
    eapply after_ext; [by apply after_refl|done|by rewrite queued_empty|]. intros p. rewrite indeg_empty, cnt_nil. lia. }
  rewrite (mbind_Some _ _ _ _ _ Hs2). assert (v ∉ V) as HvV.
  { intros (k & _ & [_ [_ ?]%Hp1]%reach_in)%HV. done. }
  pose proof (after_desc _ _ _ _ _ _ _ Ha2) as Hd2.
  destruct (anon_post_spec s2 _ _ v Hd2 Hv) as (s3 & Hs3 & Ha3).
  { unfold paint, col1, paint. rewrite decide_False by done. by rewrite decide_True by set_solver. }
  { intros Hq Ha. destruct (Hr Hq v Hin Ha) as (H1 & H2 & H3). split_and!; [done|..].
    - destruct Ha2 as (Q & h & -> & HQ & _). cbn. rewrite not_elem_of_app. split; [|done]. rewrite HQ. by intros ?%queued_in.
    - destruct (Hqf Hq) as [-> _]. rewrite (cnt_zero (queued V)) by (by intros ?%queued_in). by rewrite !Z.mul_0_l, !Z.add_0_r. }
  exists ({[v]} ∪ V), s3. split; [done|]. split.
  - intros u. rewrite (reach_unfold E _ v u Hin), elem_of_union, elem_of_singleton, HV. apply or_iff_compat_l. unfold reach_any.
    split; intros (k & Hk & Hx); (exists k; split; [done|]); (eapply reach_mono; [|exact Hx]); intros x; by rewrite Hp1.
  - eapply after_ext.
    + eapply (after_trans _ _ _ _ _ _ _ col1 rc); [exact Ha1|eapply after_trans; [exact Ha2|exact Ha3|done]|].
      intros p. cbn. rewrite cnt_nil. split; [done|lia].
    + set_solver.
    + cbn [app]. rewrite (queued_union {[v]} V) by set_solver. apply Permutation_app_comm.
    + intros p. cbn. rewrite indeg_union, indeg_singleton by set_solver. lia.
Qed.
End visits.
End described.
