(* ===== verification/GcScan.v ===== *)
(** * The collector: its searches, and the scan

    [mark_gray], [scan_black], [scan_white] and [collect_white] visit what
    [search_spec] says; [scan] turns what it reaches black or white: black is
    what a value with references from outside reaches. *)
From Stdlib Require Import ZArith Lia.
From stdpp Require Import prelude gmap.
From S2P Require Import Prelude GcSearch GcCode.

Local Open Scope Z_scope.
Local Open Scope moo_scope.

(** ** The four searches *)

Definition leads (f g : positive -> M gcst unit) : Prop := forall k s s', f k s = Some (tt, s') -> g k s = Some (tt, s').

Lemma foreach_mono {A} (f g : A -> M gcst unit) l s s' : (forall x s s', f x s = Some (tt, s') -> g x s = Some (tt, s')) ->
  foreach f l s = Some (tt, s') -> foreach g l s = Some (tt, s').
Proof.
  intros H. revert s. induction l as [|x l IH]; intros s; [done|]. cbn [foreach].
  intros ([] & s1 & H1 & H2)%mbind_inv. rewrite (mbind_Some _ _ _ _ _ (H _ _ _ H1)). by apply IH.
Qed.
Lemma for_all_children_mono f g v s s' : leads f g -> for_all_children v f s = Some (tt, s') -> for_all_children v g s = Some (tt, s').
Proof.
  intros H (c & s1 & Hm & Hf)%mbind_inv. unfold for_all_children. rewrite (mbind_Some _ _ _ _ _ Hm).
  assert (forall x s s', visit f x s = Some (tt, s') -> visit g x s = Some (tt, s')) as Hv.
  { intros x t t' (b & t1 & Hb & Hx)%mbind_inv. unfold visit. rewrite (mbind_Some _ _ _ _ _ Hb).
    destruct x; [done..|]. destruct b; [by apply H|done]. }
  destruct (contents c); (eapply foreach_mono; [|exact Hf]).
  - apply Hv.
  - intros [k x] t t' Hx. by apply (Hv x).
  - apply Hv.
Qed.
Lemma bind_leads (m n : M gcst unit) (k j : positive -> M gcst unit) v s s' :
  (forall s s', m s = Some (tt, s') -> n s = Some (tt, s')) -> leads k j ->
  (m ;; k v) s = Some (tt, s') -> (n ;; j v) s = Some (tt, s').
Proof. intros H1 H2 ([] & s1 & Hm & Hk)%mbind_inv. rewrite (mbind_Some _ _ _ _ _ (H1 _ _ Hm)). by apply H2. Qed.

Definition not_color (x : GC_Color) (c : GC_Color) (_ : bool) : bool := bool_decide (c <> x).
Definition pink (c : GC_Color) (b : bool) : bool := bool_decide (c = GC_PINK) && negb b.

Lemma search_color tst new d post fuel v s s' : search tst new d post fuel v s = Some (tt, s') ->
  exists c, metadata v s = Some (c, s) /\ gc_get_color v s = Some (color c, s) /\ gc_is_buffered v s = Some (buffered c, s) /\
    match tst (color c) (buffered c), fuel with
    | true, S fuel => (gc_set_color v new ;; for_all_children v (fun k => bump d k ;; search tst new d post fuel k) ;; post v) s = Some (tt, s')
    | true, O => False
    | false, _ => s' = s
    end.
Proof.
  destruct fuel as [|fuel]; cbn [search]; intros (c & s1 & Hm & H)%mbind_inv; exists c.
  all: assert (s1 = s) as -> by (unfold metadata in Hm; destruct (heap s !! v); congruence).
  all: unfold gc_get_color, gc_is_buffered; rewrite !(mbind_Some _ _ _ _ _ Hm).
  all: split_and!; [done..|]; destruct (tst _ _); [done|by injection H].
Qed.

Lemma no_post v s s' : anon_post false v s = Some (tt, s') -> s' = s.
Proof. by intros [= ->]. Qed.

Lemma mark_gray_search fuel : leads (search (not_color GC_GRAY) GC_GRAY (-1) (anon_post false) fuel) (mark_gray (S fuel)).
Proof.
  induction fuel as [|fuel IH]; intros v s s' (c & _ & Hc & _ & H)%search_color; cbn [mark_gray]; rewrite (mbind_Some _ _ _ _ _ Hc).
  all: unfold not_color in H; destruct (bool_decide _); [|by subst].
  - done.
  - apply mbind_inv in H as ([] & s1 & H1 & ([] & s2 & H2 & ->%no_post)%mbind_inv). rewrite (mbind_Some _ _ _ _ _ H1).
    eapply for_all_children_mono; [|exact H2]. intros k t t'. by apply (bind_leads (bump (-1) k) (delref k) (search (not_color GC_GRAY) GC_GRAY (-1) (anon_post false) fuel) (mark_gray (S fuel))).
Qed.

Section colored.
Context (x : GC_Color) (walk : nat -> positive -> M gcst unit).
Hypothesis walk_S : forall fuel v, walk (S fuel) v =
  (gc_set_color v x ;;
   for_all_children v (fun k => addref k ;; let! c := gc_get_color k in if bool_decide (c <> x) then walk fuel k else mreturn tt)).

Lemma walk_search fuel : forall v s s', (exists c, gc_get_color v s = Some (c, s) /\ c <> x) ->
  search (not_color x) x 1 (anon_post false) fuel v s = Some (tt, s') -> walk fuel v s = Some (tt, s').
Proof.
  induction fuel as [|fuel IH]; intros v s s' (c' & Hc' & Hne) (c & _ & Hc & _ & H)%search_color.
  all: rewrite Hc' in Hc; injection Hc as ->; unfold not_color in H; rewrite bool_decide_eq_true_2 in H by done.
  { done. }
  rewrite walk_S. apply mbind_inv in H as ([] & s1 & H1 & ([] & s2 & H2 & ->%no_post)%mbind_inv). rewrite (mbind_Some _ _ _ _ _ H1).
  eapply for_all_children_mono; [|exact H2]. intros k t t'.
  apply (bind_leads (bump 1 k) (addref k) _ (fun k => let! c := gc_get_color k in if bool_decide (c <> x) then walk fuel k else mreturn tt));
    [done|]. clear - IH. intros k t t' H. pose proof H as (c & _ & Hc & _ & Hm)%search_color.
  rewrite (mbind_Some _ _ _ _ _ Hc). unfold not_color in Hm. destruct (bool_decide _) eqn:E; [|by subst].
  apply IH; [|done]. exists (color c). split; [done|]. by apply bool_decide_eq_true in E.
Qed.
End colored.

Lemma collect_white_search fuel : leads (search pink GC_BLACK 0 (anon_post true) fuel) (collect_white (S fuel)).
Proof.
  induction fuel as [|fuel IH]; intros v s s' (c & _ & Hc & Hb & H)%search_color.
  all: change (collect_white (S ?n) v s) with ((let! c := gc_get_color v in let! b := gc_is_buffered v in
         if pink c b then gc_set_color v GC_BLACK ;; for_all_children v (collect_white n) ;; anon_post true v else mreturn tt) s).
  all: rewrite (mbind_Some _ _ _ _ _ Hc), (mbind_Some _ _ _ _ _ Hb); destruct (pink _ _); [|by subst].
  - done.
  - apply mbind_inv in H as ([] & s1 & H1 & ([] & s2 & H2 & H3)%mbind_inv).
    rewrite (mbind_Some _ _ _ _ _ H1), (mbind_Some _ _ s1 tt s2); [done|].
    eapply for_all_children_mono; [|exact H2]. intros k t t' ([] & t1 & [= ->] & Ht)%mbind_inv. by apply IH.
Qed.

(** ** What they do *)

Section phases.
Context (h0 : gmap positive cell) (D : gset positive).
Notation E := (follow h0).
Hypothesis HD : domain h0 D.

Lemma passing_size tst bf col : (size (passing D tst bf col) <= size D)%nat.
Proof. apply subseteq_size. intros p [_ ?]%elem_of_filter. done. Qed.
Lemma not_passing x bf col p : p ∈ passing D (not_color x) bf col <-> p ∈ D /\ col p <> x.
Proof. unfold passing, not_color. rewrite elem_of_filter, bool_decide_eq_true. naive_solver. Qed.

Lemma plain_search x d fuel v s col rc bf fr : x <> GC_GREEN -> v ∈ D -> desc h0 D (heap s) col rc bf fr -> (size D <= fuel)%nat ->
  exists V h, search (not_color x) x d (anon_post false) fuel v s = Some (tt, put h [] s) /\
    (forall u, u ∈ V <-> reach E (fun p => p ∈ D /\ col p <> x) v u) /\
    desc h0 D h (paint V x col) (fun p => rc p + d * indeg E V p) bf fr.
Proof.
  intros Hx Hv Hd Hsz. pose proof (passing_size (not_color x) bf col).
  destruct (search_spec h0 D HD (not_color x) x d false bf fr Hx) with (fuel := fuel) (v := v) (s := s) (col := col) (rc := rc)
    as (V & s' & Hs & HV & Q & h & -> & HQ & Hd'); try done.
  - intros b. unfold not_color. by rewrite bool_decide_eq_false_2 by naive_solver.
  - lia.
  - cbn [queued] in HQ. apply Permutation_nil_r in HQ as ->. exists V, h. split; [done|]. split.
    + intros u. rewrite HV. apply reach_ext. intros p. apply not_passing.
    + eapply desc_ext; [exact Hd'|]. intros p _. cbn. unfold cnt. cbn. split_and!; [done|lia|done].
Qed.

Lemma mark_gray_spec fuel v s col rc bf fr : v ∈ D -> desc h0 D (heap s) col rc bf fr -> (size D < fuel)%nat ->
  exists V h, mark_gray fuel v s = Some (tt, put h [] s) /\
    (forall u, u ∈ V <-> reach E (fun p => p ∈ D /\ col p <> GC_GRAY) v u) /\
    desc h0 D h (paint V GC_GRAY col) (fun p => rc p - indeg E V p) bf fr.
Proof.
  intros Hv Hd Hf. destruct fuel as [|fuel]; [lia|].
  destruct (plain_search GC_GRAY (-1) fuel v s col rc bf fr) as (V & h & Hs & HV & Hd'); [done..|lia|].
  exists V, h. split; [by apply mark_gray_search|]. split; [done|]. eapply desc_ext; [exact Hd'|]. intros p _. split_and!; [done|lia|done].
Qed.

Lemma walk_spec x walk fuel v s col rc bf fr :
  (forall fuel v, walk (S fuel) v =
    (gc_set_color v x ;;
     for_all_children v (fun k => addref k ;; let! c := gc_get_color k in if bool_decide (c <> x) then walk fuel k else mreturn tt))) ->
  x <> GC_GREEN -> v ∈ D -> col v <> x -> desc h0 D (heap s) col rc bf fr -> (size D <= fuel)%nat ->
  exists V h, walk fuel v s = Some (tt, put h [] s) /\
    (forall u, u ∈ V <-> reach E (fun p => p ∈ D /\ col p <> x) v u) /\
    desc h0 D h (paint V x col) (fun p => rc p + indeg E V p) bf fr.
Proof.
  intros HS Hx Hv Hc Hd Hf. destruct (plain_search x 1 fuel v s col rc bf fr) as (V & h & Hs & HV & Hd'); [done..|].
  exists V, h. split; [|split; [done|]].
  - apply (walk_search x walk HS); [|done]. exists (col v). split; [by eapply desc_color|done].
  - eapply desc_ext; [exact Hd'|]. intros p _. split_and!; [done|lia|done].
Qed.

(** ** The scan

    [G]: the gray values, closed under edges; [ext]: their counts, less the
    edges inside [G].  [B] is black; [W] has been white, and is white where it
    is not black. *)
Context (G : gset positive) (col : positive -> GC_Color) (ext : positive -> Z) (bf : positive -> bool) (fr : gset positive).
Hypothesis HG : G ⊆ D.
Hypothesis Hclosed : forall u w, u ∈ G -> w ∈ E u -> w ∈ G.
Hypothesis Hgray : forall p, p ∈ G -> col p = GC_GRAY.
Hypothesis Hext : forall p, p ∈ G -> 0 <= ext p < 2 ^ 32.

Definition held (p : positive) : Prop := exists e, e ∈ G /\ 0 < ext e /\ reach E (fun x => x ∈ G) e p.

Definition scan_col (B W : gset positive) : positive -> GC_Color := paint B GC_BLACK (paint W GC_WHITE col).
Definition scanned (B W : gset positive) (h : gmap positive cell) : Prop :=
  desc h0 D h (scan_col B W) (fun p => ext p + indeg E B p) bf fr /\
  B ⊆ G /\ W ⊆ G /\ (forall u w, u ∈ B -> w ∈ E u -> w ∈ B) /\ (forall b, b ∈ B -> held b) /\ (forall w, w ∈ W -> ext w = 0).
(** More has been scanned, and the new white values but those of [X] have no
    gray child. *)
Definition grown (X B W B' W' : gset positive) : Prop :=
  B ⊆ B' /\ W ⊆ W' /\ (forall w k, w ∈ W' -> w ∉ W -> w ∉ X -> k ∈ E w -> k ∈ B' ∪ W').

Lemma scan_col_spec B W p : p ∈ G -> scan_col B W p = if decide (p ∈ B) then GC_BLACK else if decide (p ∈ W) then GC_WHITE else GC_GRAY.
Proof. intros Hp. unfold scan_col, paint. by rewrite Hgray. Qed.
Lemma grown_refl X B W : grown X B W B W.
Proof. split_and!; set_solver. Qed.
Lemma grown_trans X B W B1 W1 B2 W2 : grown X B W B1 W1 -> grown ∅ B1 W1 B2 W2 -> grown X B W B2 W2.
Proof.
  intros (H1 & H2 & H3) (H4 & H5 & H6). split_and!; [set_solver..|]. intros w k Hw Hn Hx Hk.
  destruct (decide (w ∈ W1)) as [Hw1|]; [pose proof (H3 w k Hw1 Hn Hx Hk); set_solver|]. by apply (H6 w k).
Qed.

Lemma scan_black_step black v s B W : (size D <= black)%nat -> scanned B W (heap s) -> v ∈ G -> v ∉ B -> 0 < ext v ->
  exists B' h, scan_black black v s = Some (tt, put h [] s) /\ scanned B' W h /\ grown ∅ B W B' W /\ v ∈ B'.
Proof.
  intros Hf (Hd & HB & HW & HBc & HBh & HWe) Hv Hn He.
  destruct (walk_spec GC_BLACK scan_black black v s (scan_col B W) (fun p => ext p + indeg E B p) bf fr) as (V & h & Hs & HV & Hd');
    [done|done|by apply HG|rewrite scan_col_spec, decide_False by done; by case_decide|done..|].
  assert (forall p, p ∈ V <-> reach E (fun p => p ∈ G /\ p ∉ B) v p) as HV'.
  { intros p. rewrite HV. split; intros Hr; induction Hr as [Ht|u w Hr IH Hw Ht].
    - by apply reach_refl.
    - assert (w ∈ G) as HwG by (apply reach_in in IH as [_ [HuG _]]; by eapply Hclosed). eapply reach_step; [done..|]. split; [done|].
      destruct Ht as [_ Ht]. rewrite scan_col_spec in Ht by done. by destruct (decide (w ∈ B)).
    - apply reach_refl. rewrite scan_col_spec by done. split; [by apply HG|]. rewrite decide_False by done. by case_decide.
    - eapply reach_step; [done..|]. destruct Ht as [HwG Hw']. rewrite scan_col_spec by done. split; [by apply HG|].
      rewrite decide_False by done. by case_decide. }
  assert (V ## B) as Hdis. { intros p [_ [_ ?]]%HV'%reach_in. done. }
  exists (B ∪ V), h. split; [done|]. split_and!.
  - split_and!; [|..|done].
    + eapply desc_ext; [exact Hd'|]. intros p _. rewrite indeg_union by set_solver. unfold scan_col. rewrite paint_paint. split_and!; [done|lia|done].
    + intros p [Hp|[_ [? _]]%HV'%reach_in]%elem_of_union; [by apply HB|done].
    + done.
    + intros u w [Hu|Hu]%elem_of_union Hw; [pose proof (HBc u w Hu Hw); set_solver|]. destruct (decide (w ∈ B)); [set_solver|].
      apply elem_of_union_r, HV'. apply HV' in Hu. pose proof (reach_in _ _ _ _ Hu) as [_ [HuG _]]. eapply reach_step; [done..|].
      split; [by eapply Hclosed|done].
    + intros b [Hb|Hb]%elem_of_union; [by apply HBh|]. exists v. split_and!; [done..|]. apply HV' in Hb.
      eapply reach_mono; [|done]. by intros x [].
  - split_and!; set_solver.
  - apply elem_of_union_r, HV', reach_refl. done.
Qed.

Lemma scan_white_step v s B W : scanned B W (heap s) -> v ∈ G -> v ∉ B -> v ∉ W -> ext v = 0 ->
  exists h, gc_set_color v GC_WHITE s = Some (tt, put h [] s) /\ scanned B ({[v]} ∪ W) h.
Proof.
  intros (Hd & HB & HW & HBc & HBh & HWe) Hv Hn Hw He.
  destruct (desc_set_color h0 D HD s _ _ _ _ v GC_WHITE Hd) as (h & Hs & Hd'); [by apply HG|done|]. exists h. split; [done|].
  split_and!; [|done|set_solver|done|done|set_solver]. eapply desc_ext; [exact Hd'|]. intros p _. split_and!; [|done..].
  unfold scan_col, paint. destruct (decide (p ∈ B)), (decide (p ∈ {[v]} ∪ W)), (decide (p ∈ W)), (decide (p ∈ ({[v]} : gset positive))); set_solver.
Qed.

Lemma scan_spec black fuel : (size D <= black)%nat -> forall v s B W, v ∈ G -> scanned B W (heap s) -> (size (G ∖ (B ∪ W)) < fuel)%nat ->
  exists B' W' h, scan black fuel v s = Some (tt, put h [] s) /\ scanned B' W' h /\ grown ∅ B W B' W' /\ v ∈ B' ∪ W'.
Proof.
  intros Hblack. induction fuel as [|fuel IH]; [lia|]. intros v s B W Hv Hsc Hf. pose proof Hsc as (Hd & HB & HW & HBc & HBh & HWe).
  assert (v ∈ D) as HvD by by apply HG. cbn [scan].
  rewrite (mbind_Some _ _ _ _ _ (desc_color h0 D HD s _ _ _ _ v Hd HvD)), scan_col_spec by done.
  destruct (decide (v ∈ B)) as [HvB|HvB]; [|destruct (decide (v ∈ W)) as [HvW|HvW]].
  1,2: exists B, W, (heap s); rewrite put_self; split_and!; [done..|apply grown_refl|set_solver].
  rewrite bool_decide_eq_true_2 by done. rewrite (mbind_Some _ _ _ _ _ (desc_refcount h0 D HD s _ _ _ _ v Hd HvD)).
  rewrite (indeg_zero E B v), Z.add_0_r by (intros u Hu Hx; by apply HvB, (HBc u)).
  pose proof (Hext v Hv). unfold to_uint. rewrite wrapU_id by lia. destruct (Z.ltb_spec 0 (ext v)) as [Hpos|Hzero].
  - destruct (scan_black_step black v s B W) as (B' & h & ?); [done..|]. exists B', W, h. set_solver.
  - destruct (scan_white_step v s B W) as (h1 & Hs1 & Hsc1); [done..|lia|]. rewrite (mbind_Some _ _ _ _ _ Hs1).
    set (P := fun (ks : list positive) (st : gcst) => exists B' W' h, st = put h [] (put h1 [] s) /\ scanned B' W' h /\ grown ∅ B ({[v]} ∪ W) B' W' /\ (forall k, k ∈ ks -> k ∈ B' ∪ W')).
    destruct (children_rule h0 D HD P (scan black fuel) v (put h1 [] s) (scan_col B ({[v]} ∪ W)) (fun p => ext p + indeg E B p) bf fr)
      as (s' & Hs' & B' & W' & h & -> & Hsc' & Hg & Hks); [done|by apply Hsc1|intros ks st (B' & W' & h & -> & (Hd' & _) & _); eauto 6|..].
    + intros ks k st _ Hk (B1 & W1 & h & -> & Hsc2 & Hg & Hks).
      destruct (IH k (put h [] (put h1 [] s)) B1 W1) as (B2 & W2 & h2 & Hs2 & Hsc3 & Hg2 & Hk2); [by eapply Hclosed|done|..].
      { assert (size (G ∖ (B1 ∪ W1)) < size (G ∖ (B ∪ W)))%nat; [|lia]. apply subset_size. destruct Hg as (? & ? & _). set_solver. }
      eexists. split; [exact Hs2|]. exists B2, W2, h2. rewrite put_twice. split; [done|]. split; [done|].
      split; [by eapply grown_trans|]. intros x [Hx|Hx]%elem_of_app; [|set_solver]. destruct Hg2 as (? & ? & _). specialize (Hks x Hx). set_solver.
    + exists B, ({[v]} ∪ W), h1. rewrite put_twice. split_and!; [done..|apply grown_refl|intros k ?%not_elem_of_nil; done].
    + exists B', W', h. rewrite put_twice in Hs'. split; [done|]. split; [done|]. destruct Hg as (H1 & H2 & H3).
      split; [|set_solver]. split_and!; [done|set_solver|]. intros w k Hw HnW _ Hk. destruct (decide (w = v)) as [->|Hne]; [by apply Hks|].
      apply (H3 w k); set_solver.
Qed.

(** What is black and what is white after a scan of the roots *)
Lemma scan_list_spec black fuel l : (size D <= black)%nat -> (size D < fuel)%nat -> (forall r, r ∈ l -> r ∈ G) ->
  forall s B W, scanned B W (heap s) ->
  exists B' W' h, foreach (scan black fuel) l s = Some (tt, put h [] s) /\ scanned B' W' h /\ grown ∅ B W B' W' /\ (forall r, r ∈ l -> r ∈ B' ∪ W').
Proof.
  intros Hb Hf. induction l as [|v l IH]; intros Hl s B W Hsc; cbn [foreach].
  { exists B, W, (heap s). rewrite put_self. split_and!; [done..|apply grown_refl|by intros r ?%not_elem_of_nil]. }
  destruct (scan_spec black fuel Hb v s B W) as (B1 & W1 & h1 & Hs1 & Hsc1 & Hg1 & Hv1); [apply Hl; left|done|..].
  { eapply Nat.le_lt_trans; [|exact Hf]. apply subseteq_size. set_solver. }
  rewrite (mbind_Some _ _ _ _ _ Hs1). destruct (IH (fun r Hr => Hl r (list_elem_of_further _ _ _ Hr)) (put h1 [] s) B1 W1 Hsc1) as (B2 & W2 & h2 & Hs2 & Hsc2 & Hg2 & Hl2).
  exists B2, W2, h2. rewrite put_twice in Hs2. split_and!; [done..|by eapply grown_trans|].
  destruct Hg2 as (? & ? & _). intros r [->|Hr]%elem_of_cons; [set_solver|by apply Hl2].
Qed.

Lemma scan_phase black fuel l s : (size D <= black)%nat -> (size D < fuel)%nat -> (forall r, r ∈ l -> r ∈ G) ->
  (forall u, u ∈ G -> reach_any E (fun x => x ∈ G) l u) -> desc h0 D (heap s) col ext bf fr ->
  exists B h, foreach (scan black fuel) l s = Some (tt, put h [] s) /\ (forall u, u ∈ B <-> held u) /\
    (forall u w, u ∈ B -> w ∈ E u -> w ∈ B) /\ B ⊆ G /\
    desc h0 D h (fun p => if decide (p ∈ B) then GC_BLACK else if decide (p ∈ G) then GC_WHITE else col p) (fun p => ext p + indeg E B p) bf fr.
Proof.
  intros Hb Hf Hl HGl Hd. destruct (scan_list_spec black fuel l Hb Hf Hl s ∅ ∅) as (B & W & h & Hs & Hsc & Hg & Hin).
  { split_and!; [|set_solver..]. eapply desc_ext; [exact Hd|]. intros p _. rewrite indeg_empty. unfold scan_col, paint.
    rewrite !decide_False by set_solver. split_and!; [done|lia|done]. }
  destruct Hsc as (Hd' & HB & HW & HBc & HBh & HWe). destruct Hg as (_ & _ & Hwh).
  assert (forall u, u ∈ G -> u ∈ B ∪ W) as Hall.
  { intros u Hu. destruct (HGl u Hu) as (r & Hr & Hru). clear Hu. induction Hru as [|u w Hru IH Hw _]; [by apply Hin|].
    apply elem_of_union in IH as [Hu|Hu]; [apply elem_of_union_l; by eapply HBc|]. apply (Hwh u w); [done|set_solver|set_solver|done]. }
  exists B, h. split; [done|]. split; [|split_and!; [done|done|]].
  - intros u. split; [by apply HBh|]. intros (e & He & Hpos & Hr). assert (e ∈ B) as HeB.
    { pose proof (Hall e He) as [|HeW]%elem_of_union; [done|]. rewrite (HWe e HeW) in Hpos. lia. }
    clear Hpos He. induction Hr; [done|]. by eapply HBc.
  - eapply desc_ext; [exact Hd'|]. intros p _. split_and!; [|done..]. unfold scan_col, paint.
    destruct (decide (p ∈ B)); [done|]. destruct (decide (p ∈ G)) as [Hp|Hp], (decide (p ∈ W)) as [Hw|Hw]; [done| |set_solver|done].
    pose proof (Hall p Hp). set_solver.
Qed.
End phases.
