(* ===== verification/GcMark.v ===== *)
(** * The collector: marking, restoring and collecting the roots

    The loops over the list of possible roots, each with what it leaves in
    the heap. *)
From Stdlib Require Import ZArith Lia.
From stdpp Require Import prelude gmap.
From S2P Require Import Prelude GcSearch GcCode GcScan.

Local Open Scope Z_scope.
Local Open Scope moo_scope.

Lemma bool_iff (b c : bool) : (b = true <-> c = true) -> b = c.
Proof. destruct b, c; naive_solver. Qed.

Lemma set_roots_put l h q s : set_roots l (put h q s) = put h q (set_roots l s).
Proof. done. Qed.
Lemma set_roots_twice l l' s : set_roots l (set_roots l' s) = set_roots l s.
Proof. done. Qed.
Section phases.
Context (h0 : gmap positive cell) (D : gset positive).
Notation E := (follow h0).
Hypothesis HD : domain h0 D.

(** ** [mark_roots] *)

Section mark.
Context (col : positive -> GC_Color) (rc : positive -> Z) (all : list positive).
Hypothesis Hrc : forall p, is_Some (h0 !! p) -> 0 <= rc p < 2 ^ 32.
Hypothesis Hlive : forall p, p ∈ D <-> is_Some (h0 !! p) /\ nongreen h0 p = true /\ rc p <> 0.
Hypothesis Hgray : forall p, p ∈ D -> col p <> GC_GRAY.
Hypothesis Hall : forall p, p ∈ all -> is_Some (h0 !! p) /\ nongreen h0 p = true /\ (col p = GC_PURPLE -> rc p <> 0).

(** A root that is freed: black, with no references *)
Definition dead (p : positive) : Prop := col p = GC_BLACK /\ rc p = 0.
Hypothesis Hdead : forall p r l x b n, p ∈ all -> dead p -> h0 !! p <> Some (mk_cell (ANON r false l) x b n).

(** The state of the loop: [last] has been kept, [head] is to come. *)
Definition marked (V fr : gset positive) (last head : list positive) (s : gcst) : Prop :=
  desc h0 D (heap s) (paint V GC_GRAY col) (fun p => rc p - indeg E V p) (fun p => bool_decide (p ∈ last ++ head)) fr /\
  roots s = rev_append last head /\
  (forall u, u ∈ V <-> reach_any E (fun x => x ∈ D) last u) /\
  (forall r, r ∈ last -> r ∈ D /\ col r = GC_PURPLE) /\
  (forall p, p ∈ fr -> dead p /\ p ∉ head).

Lemma marked_zero V fr last head s v : marked V fr last head s -> is_Some (h0 !! v) -> nongreen h0 v = true -> v ∉ V -> indeg E V v = 0.
Proof.
  intros (_ & _ & HV & _) Hs Hn Hv. apply indeg_zero. intros u Hu Hk. apply Hv, HV. apply HV in Hu.
  assert (u ∈ D) as HuD by (destruct Hu as (? & _ & [_ ?]%reach_in); done). eapply reach_any_step; [done..|]. by eapply follow_domain.
Qed.

Lemma mark_keep fuel V fr last head v s : (size D < fuel)%nat -> marked V fr last (v :: head) s -> v ∈ D -> v ∉ V -> col v = GC_PURPLE ->
  exists V' h, mark_gray fuel v s = Some (tt, put h [] s) /\ V ⊆ V' /\ v ∈ V' /\ marked V' fr (v :: last) head (put h [] s).
Proof.
  intros Hf (Hd & Hro & HV & Hla & Hfr) Hv HvV Hc.
  destruct (mark_gray_spec h0 D HD fuel v s _ _ _ _ Hv Hd Hf) as (V1 & h & Hs & HV1 & Hd1).
  assert (forall u, u ∈ V1 <-> reach E (fun p => p ∈ D /\ p ∉ V) v u) as HV1'.
  { intros u. rewrite HV1. apply reach_ext. intros p. rewrite painted. case_decide; [naive_solver|]. pose proof (Hgray p). naive_solver. }
  assert (V ## V1) as Hdis by (intros x Hx [_ [_ ?]]%HV1'%reach_in; done).
  assert (v ∈ V1) as HvV1 by by apply HV1', reach_refl.
  exists (V ∪ V1), h. split_and!; [done|set_solver|set_solver|]. split_and!.
  - eapply desc_ext; [exact Hd1|]. intros p _. rewrite indeg_union by done. rewrite paint_paint. split_and!; [done|lia|apply bool_decide_ext; clear; set_solver].
  - done.
  - intros u. rewrite elem_of_union, HV1'. rewrite <- (reach_any_snoc E (fun x => x ∈ D) last v V u HV). unfold reach_any.
    split; intros (k & Hk & Hr); (exists k; split; [|done]); set_solver.
  - intros r [->|Hr]%elem_of_cons; [done|by apply Hla].
  - intros p Hp. split; [by apply Hfr|]. destruct (Hfr p Hp). set_solver.
Qed.

Lemma mark_drop V fr last head v s : marked V fr last (v :: head) s -> v ∈ all -> v ∉ last ++ head -> (v ∈ V \/ col v <> GC_PURPLE) ->
  exists fr' h, (REMOVE_ROOT last head ;; gc_clear_buffered v ;;
      (let! c := gc_get_color v in
       let! n := refcount v in
       if bool_decide (c = GC_BLACK) && (n =? 0) then aux_free v else mreturn tt)) s = Some (tt, put h [] (set_roots (rev_append last head) s)) /\
    marked V fr' last head (put h [] (set_roots (rev_append last head) s)) /\ (forall p, p ∈ fr' <-> p ∈ fr \/ p = v /\ dead v).
Proof.
  intros Hm Hv Hn Hk. destruct (Hall v Hv) as ([c Hc] & Hng & Hp). pose proof (Hrc v (ex_intro _ c Hc)) as Hrv.
  pose proof Hm as (Hd & _ & HV & Hla & Hfr). pose proof Hd as (H1 & H2 & H3).
  assert (v ∉ fr) as Hvfr by (intros Hx; destruct (Hfr v Hx); set_solver).
  assert (heap s !! v = Some (mk_cell (contents c) (paint V GC_GRAY col v) true (to_uint (rc v - indeg E V v)))) as Hsv.
  { rewrite H1, Hc, decide_False by done. cbn. by rewrite bool_decide_eq_true_2 by set_solver. }
  assert (forall p, p ∈ V -> p ∈ D) as HVD by (intros p (? & _ & [_ ?]%reach_in)%HV; done).
  set (c1 := mk_cell (contents c) (paint V GC_GRAY col v) false (to_uint (rc v - indeg E V v))).
  assert (forall fr' h', (forall p, p ∈ fr' <-> p ∈ fr \/ p = v /\ dead v) -> (forall p, p ∈ fr' -> p ∉ D /\ nongreen h0 p = true) ->
      (forall p, h' !! p = if decide (p ∈ fr') then None else <[v := c1]> (heap s) !! p) ->
      marked V fr' last head (put h' [] (set_roots (rev_append last head) s))) as Hmk.
  { intros fr' h' Hf' Hg' Hh. split_and!; [|done..|].
    - split_and!; [|done|done]. intros p. cbn. rewrite Hh. destruct (decide (p ∈ fr')) as [Hx|Hx]; [done|].
      destruct (decide (p = v)) as [->|Hne].
      + rewrite lookup_insert_eq, Hc. cbn. by rewrite bool_decide_eq_false_2.
      + rewrite lookup_insert_ne, H1, decide_False by (done || (intros ?; apply Hx, Hf'; by left)). destruct (h0 !! p); [|done]. cbn. do 2 f_equal.
        apply bool_decide_ext. set_solver.
    - intros p [Hx|[-> Hx]]%Hf'; [|set_solver]. destruct (Hfr p Hx). set_solver. }
  unfold REMOVE_ROOT. rewrite (mbind_Some _ _ s tt (set_roots (rev_append last head) s)) by done.
  rewrite (mbind_Some (gc_clear_buffered v) _ _ tt (put (<[v := c1]> (heap s)) [] (set_roots (rev_append last head) s))).
  2: { unfold gc_clear_buffered, update. cbn. by rewrite Hsv, put_heap. }
  set (t := put _ _ _). assert (metadata v t = Some (c1, t)) as Hmt by (unfold metadata, t; cbn; by rewrite lookup_insert_eq).
  unfold gc_get_color, refcount.
  rewrite (mbind_Some _ _ t (color c1) t) by (by rewrite (mbind_Some _ _ _ _ _ Hmt)).
  rewrite (mbind_Some _ _ t (refs c1) t) by (by rewrite (mbind_Some _ _ _ _ _ Hmt)).
  assert (bool_decide (color c1 = GC_BLACK) && (refs c1 =? 0) = true <-> dead v) as Hdd.
  { unfold c1, dead. cbn [color refs]. rewrite painted, andb_true_iff, bool_decide_eq_true, Z.eqb_eq. destruct (decide (v ∈ V)) as [HvV|HvV].
    - apply HVD, Hlive in HvV as (_ & _ & Hz). split; [by intros [? _]|by intros [_ ?]].
    - rewrite (marked_zero _ _ _ _ _ v Hm) by (try done; by eexists). unfold to_uint. rewrite wrapU_id by lia. by rewrite Z.sub_0_r. }
  destruct (bool_decide _ && _) eqn:Eb.
  - assert (dead v) as Hdv by by apply Hdd. unfold aux_free. rewrite (mbind_Some _ _ _ _ _ Hmt). cbn [contents c1].
    assert (forall p, p ∈ {[v]} ∪ fr <-> p = v \/ p ∈ fr) as Hx by (clear; set_solver).
    exists ({[v]} ∪ fr), (delete v (<[v := c1]> (heap s))). split.
    + unfold c1. cbn [contents]. destruct c as [[l|l|r [] l] x b n]; [done..|]. exfalso. by eapply (Hdead v).
    + assert (forall p, p ∈ {[v]} ∪ fr <-> p ∈ fr \/ p = v /\ dead v) as Hy by (intros p; rewrite Hx; tauto).
      split; [|exact Hy]. apply Hmk; [exact Hy|..].
      * intros p [->|Hp']%Hx; [|by apply H3]. split; [|done]. intros (_ & _ & Hz)%Hlive. by apply Hz, Hdv.
      * intros p. destruct (decide (p = v)) as [->|Hne]; [rewrite lookup_delete_eq, decide_True by (apply Hx; by left); done|].
        rewrite lookup_delete_ne by done. destruct (decide (p ∈ {[v]} ∪ fr)) as [[?|Hpf]%Hx|]; [done| |done].
        by rewrite lookup_insert_ne, H1, decide_True.
  - exists fr, (<[v := c1]> (heap s)). split; [done|]. assert (~ dead v) as Hnd by (rewrite <- Hdd; done).
    assert (forall p, p ∈ fr <-> p ∈ fr \/ p = v /\ dead v) as Hy by (intros p; tauto). split; [|exact Hy]. apply Hmk; [exact Hy|done|].
    intros p. destruct (decide (p ∈ fr)) as [Hx|]; [|done]. rewrite lookup_insert_ne by (intros ->; done). by rewrite H1, decide_True.
Qed.

Lemma mark_loop fuel head : (size D < fuel)%nat -> forall last V fr s, NoDup (last ++ head) -> (forall r, r ∈ head -> r ∈ all) -> marked V fr last head s ->
  exists V' fr' last' h, mark_roots_loop fuel last head s = Some (tt, put h [] (set_roots (rev_append last' []) s)) /\
    marked V' fr' last' [] (put h [] (set_roots (rev_append last' []) s)) /\ V ⊆ V' /\ NoDup last' /\
    (forall r, r ∈ last' -> r ∈ last \/ r ∈ head) /\ (forall r, r ∈ head -> col r = GC_PURPLE -> r ∈ V') /\
    (forall p, p ∈ fr' <-> p ∈ fr \/ p ∈ head /\ dead p).
Proof.
  intros Hf. induction head as [|v head IH]; intros last V fr s Hnd Hl Hm; cbn [mark_roots_loop].
  { pose proof Hm as (_ & Hro & _). exists V, fr, last, (heap s). rewrite <- Hro.
    assert (put (heap s) [] (set_roots (roots s) s) = s) as -> by (destruct s; unfold put, set_roots; cbn; by rewrite Z.add_0_r).
    rewrite app_nil_r in Hnd. split_and!; [done..|by left|by intros r ?%not_elem_of_nil|]. set_solver. }
  assert (v ∉ last ++ head /\ NoDup (last ++ head)) as [Hv Hnd'] by (by apply NoDup_cons; rewrite <- Permutation_middle in Hnd).
  assert (forall r, r ∈ head -> r ∈ all) as Hl' by (intros; apply Hl; by right). pose proof (Hl v (list_elem_of_here _ _)) as Hva.
  destruct (Hall v Hva) as ([c Hc] & Hng & Hp).
  assert (gc_get_color v s = Some (paint V GC_GRAY col v, s)) as Hcol.
  { destruct Hm as ((H1 & _) & _ & _ & _ & Hfr). unfold gc_get_color, metadata, mbindM. rewrite H1, Hc, decide_False; [done|].
    intros Hx. destruct (Hfr v Hx). set_solver. }
  rewrite (mbind_Some _ _ _ _ _ Hcol), painted.
  destruct (bool_decide _) eqn:Eb; [apply bool_decide_eq_true in Eb|apply bool_decide_eq_false in Eb].
  - destruct (decide (v ∈ V)) as [|HvV]; [done|]. destruct (mark_keep fuel V fr last head v s) as (V1 & h & Hs & Hsub & HvV1 & Hm1);
      [done|done|apply Hlive; split_and!; [by eexists|done|by apply Hp]|done|done|]. rewrite (mbind_Some _ _ _ _ _ Hs).
    destruct (IH (v :: last) V1 fr (put h [] s)) as (V' & fr' & last' & h' & Hs' & Hm' & Hsub' & Hnl & Hin & Hpu & Hfr'); [by apply NoDup_cons|done|done|].
    rewrite set_roots_put, put_twice in Hs', Hm'. exists V', fr', last', h'. split_and!; [done|done|set_solver|done|..].
    + intros r [[->|?]%elem_of_cons|]%Hin; set_solver.
    + intros r [->|Hr]%elem_of_cons Hrc'; [set_solver|by apply Hpu].
    + intros p. rewrite Hfr', elem_of_cons. assert (p = v -> ~ dead p) as Hx by (intros -> [Hx _]; congruence). clear - Hx. tauto.
  - destruct (mark_drop V fr last head v s) as (fr1 & h & Hs & Hm1 & Hf1); [done|done|done|destruct (decide (v ∈ V)); naive_solver|].
    assert (forall k : M gcst unit, (REMOVE_ROOT last head ;; gc_clear_buffered v ;;
      (let! c := gc_get_color v in
       let! n := refcount v in
       (if bool_decide (c = GC_BLACK) && (n =? 0) then aux_free v else mreturn tt) ;; k)) s = k (put h [] (set_roots (rev_append last head) s))) as Hk.
    { intros k. rewrite <- (mbind_Some _ (fun _ => k) _ _ _ Hs). rewrite !mbind_assoc. unfold mbindM.
      destruct (REMOVE_ROOT last head s) as [[[] t]|]; [|done]. destruct (gc_clear_buffered v t) as [[[] t1]|]; [|done].
      destruct (gc_get_color v t1) as [[x t2]|]; [|done]. by destruct (refcount v t2) as [[n t3]|]. }
    rewrite Hk. destruct (IH last V fr1 _ Hnd' Hl' Hm1) as (V' & fr' & last' & h' & Hs' & Hm' & Hsub' & Hnl & Hin & Hpu & Hfr').
    rewrite set_roots_put, set_roots_twice, put_twice in Hs', Hm'. exists V', fr', last', h'. split_and!; [done|done|done|done|..].
    + intros r [?|?]%Hin; set_solver.
    + intros r [->|Hr]%elem_of_cons Hrc'; [|by apply Hpu]. destruct (decide (v ∈ V)); [set_solver|]. naive_solver.
    + intros p. rewrite Hfr', Hf1, elem_of_cons. clear. split; [intros [[?|[-> ?]]|[]]|intros [?|[[->|?] ?]]]; auto.
Qed.
End mark.

(** ** [restore_white] *)

Section restore.
Context (col : positive -> GC_Color) (rc : positive -> Z) (bf : positive -> bool) (fr W : gset positive).
Hypothesis Hwhite : forall p, p ∈ D -> col p = GC_WHITE <-> p ∈ W.
Hypothesis Hpink : forall p, p ∈ D -> col p <> GC_PINK.

Definition restore_root (fuel : nat) (v : positive) : M gcst unit :=
  let! c := gc_get_color v in if bool_decide (c = GC_WHITE) then scan_white fuel v else mreturn tt.
Definition restored (P : gset positive) (h : gmap positive cell) : Prop :=
  P ⊆ D /\ (forall u w, u ∈ P -> w ∈ E u -> w ∈ P) /\ desc h0 D h (paint P GC_PINK col) (fun p => rc p + indeg E P p) bf fr.

Lemma restore_step fuel v s P : (size D <= fuel)%nat -> v ∈ D -> restored P (heap s) ->
  exists P' h, restore_root fuel v s = Some (tt, put h [] s) /\ restored P' h /\ P ⊆ P' /\
    (forall u, u ∈ P' -> u ∈ P \/ v ∈ W /\ reach E (fun x => x ∈ D) v u) /\ (v ∈ W -> v ∈ P').
Proof.
  intros Hf Hv (HP & HPc & Hd). unfold restore_root. rewrite (mbind_Some _ _ _ _ _ (desc_color h0 D HD s _ _ _ _ v Hd Hv)), painted.
  destruct (decide (v ∈ P)) as [HvP|HvP]; [|destruct (decide (v ∈ W)) as [HvW|HvW]].
  - exists P, (heap s). rewrite put_self. split_and!; [done..|by left|done].
  - rewrite bool_decide_eq_true_2 by by apply Hwhite.
    destruct (walk_spec h0 D HD GC_PINK scan_white fuel v s (paint P GC_PINK col) (fun p => rc p + indeg E P p) bf fr) as (V & h & Hs & HV & Hd');
      [done|done|done|rewrite painted, decide_False by done; by apply Hpink|done..|].
    assert (forall u, u ∈ V <-> reach E (fun p => p ∈ D /\ p ∉ P) v u) as HV'.
    { intros u. rewrite HV. apply reach_ext. intros p. rewrite painted. case_decide; [naive_solver|]. pose proof (Hpink p). naive_solver. }
    assert (P ## V) as Hdis by (intros x Hx [_ [_ ?]]%HV'%reach_in; done).
    exists (P ∪ V), h. split; [done|]. split_and!; [|set_solver|..].
    + split_and!.
      * intros u [Hu|[_ [? _]]%HV'%reach_in]%elem_of_union; [by apply HP|done].
      * intros u w [Hu|Hu]%elem_of_union Hw; [pose proof (HPc u w Hu Hw); set_solver|]. destruct (decide (w ∈ P)); [set_solver|].
        apply elem_of_union_r, HV'. apply HV' in Hu. pose proof (reach_in _ _ _ _ Hu) as [_ [HuD _]]. eapply reach_step; [done..|].
        split; [by eapply follow_domain|done].
      * eapply desc_ext; [exact Hd'|]. intros p _. rewrite indeg_union by done. rewrite paint_paint. split_and!; [done|lia|done].
    + intros u [Hu|Hu]%elem_of_union; [by left|right]. split; [done|]. apply HV' in Hu. eapply reach_mono; [|exact Hu]. by intros x [].
    + intros _. apply elem_of_union_r, HV', reach_refl. done.
  - rewrite bool_decide_eq_false_2 by by rewrite Hwhite. exists P, (heap s). rewrite put_self. split_and!; [done..|by left|done].
Qed.

Lemma restore_list fuel l : (size D <= fuel)%nat -> (forall r, r ∈ l -> r ∈ D) -> forall s P, restored P (heap s) ->
  exists P' h, foreach (restore_root fuel) l s = Some (tt, put h [] s) /\ restored P' h /\ P ⊆ P' /\
    (forall u, u ∈ P' -> u ∈ P \/ exists w, w ∈ l /\ w ∈ W /\ reach E (fun x => x ∈ D) w u) /\ (forall w, w ∈ l -> w ∈ W -> w ∈ P').
Proof.
  intros Hf. induction l as [|v l IH]; intros Hl s P HP; cbn [foreach].
  { exists P, (heap s). rewrite put_self. split_and!; [done..|by left|]. by intros w ?%not_elem_of_nil. }
  destruct (restore_step fuel v s P) as (P1 & h1 & Hs1 & HP1 & Hsub1 & Hr1 & Hin1); [done|apply Hl; left|done|].
  rewrite (mbind_Some _ _ _ _ _ Hs1). destruct (IH (fun r Hr => Hl r (list_elem_of_further _ _ _ Hr)) (put h1 [] s) P1 HP1) as (P2 & h2 & Hs2 & HP2 & Hsub2 & Hr2 & Hin2).
  exists P2, h2. rewrite put_twice in Hs2. split_and!; [done|done|set_solver|..].
  - intros u [Hu|(w & Hw & Hr)]%Hr2; [|right; exists w; set_solver]. apply Hr1 in Hu as [Hu|[Hv Hr]]; [by left|]. right. exists v. set_solver.
  - intros w [->|Hw]%elem_of_cons HwW; [set_solver|by apply Hin2].
Qed.

Lemma restore_phase fuel l s : (size D <= fuel)%nat -> (forall r, r ∈ l -> r ∈ D) -> desc h0 D (heap s) col rc bf fr ->
  exists P h, foreach (restore_root fuel) l s = Some (tt, put h [] s) /\
    (forall u, u ∈ P <-> exists w, w ∈ l /\ w ∈ W /\ reach E (fun x => x ∈ D) w u) /\ restored P h.
Proof.
  intros Hf Hl Hd. destruct (restore_list fuel l Hf Hl s ∅) as (P & h & Hs & HP & _ & Hr & Hin).
  { split_and!; [set_solver..|]. eapply desc_ext; [exact Hd|]. intros p _. rewrite painted, indeg_empty, decide_False by set_solver. split_and!; [done|lia|done]. }
  exists P, h. split; [done|]. split; [|done]. intros u. split; [intros [?|?]%Hr; [set_solver|done]|].
  intros (w & Hw & HwW & Hwu). destruct HP as (_ & HPc & _). induction Hwu; [by apply Hin|by eapply HPc].
Qed.
End restore.

(** ** [collect_roots] *)

Section collect.
Context (col : positive -> GC_Color) (rc : positive -> Z) (fr P : gset positive).
Hypothesis HP : P ⊆ D.
Hypothesis HPc : forall u w, u ∈ P -> w ∈ E u -> w ∈ P.
Hypothesis Hpink : forall p, p ∈ D -> col p = GC_PINK <-> p ∈ P.

Definition anons (V : gset positive) : list positive := queued h0 true V.
Lemma anons_in V p : p ∈ anons V -> p ∈ V.
Proof. apply queued_in. Qed.
Lemma anons_union V W : V ## W -> anons (V ∪ W) ≡ₚ anons V ++ anons W.
Proof. apply queued_union. Qed.
Definition recyclable (q : list positive) (p : positive) : Prop :=
  is_anon h0 p = true -> (exists l c b n, h0 !! p = Some (mk_cell (ANON false false l) c b n)) /\ p ∉ q /\ to_uint (rc p) <> 0.
Definition collected (C : gset positive) (head : list positive) (s : gcst) : Prop :=
  C ⊆ P /\ (forall c k, c ∈ C -> k ∈ E c -> k ∈ C \/ k ∈ head) /\
  desc h0 D (heap s) (paint C GC_BLACK col) (fun p => rc p + cnt (anons C) p) (fun p => bool_decide (p ∈ head)) fr /\
  (forall p, p ∈ P -> p ∉ C -> recyclable (queue s) p).


Lemma collect_white_step fuel v head s C : (size D < fuel)%nat -> v ∈ D -> v ∉ head -> collected C (v :: head) s ->
  exists V Q h s1, gc_clear_buffered v s = Some (tt, s1) /\ collect_white fuel v s1 = Some (tt, put h Q s) /\ C ## V /\
    Q ≡ₚ anons V /\ collected (C ∪ V) head (put h Q s) /\ (v ∈ P -> v ∈ C ∪ V).
Proof.
  intros Hf Hv Hn (HC & HCc & Hd & Hr). destruct fuel as [|fuel]; [lia|].
  destruct (desc_update h0 D HD s _ _ _ fr (paint C GC_BLACK col) (fun p => rc p + cnt (anons C) p) (fun p => bool_decide (p ∈ head)) v
     (fun c => mk_cell (contents c) (color c) false (refs c)) Hd Hv) as (h1 & Hs1 & Hd1).
  { intros c. cbn. by rewrite bool_decide_eq_false_2. }
  { by eapply desc_nongreen. }
  { intros q Hq. split_and!; [done..|]. apply bool_decide_ext. set_solver. }
  destruct (search_spec h0 D HD pink GC_BLACK 0 true (fun p => bool_decide (p ∈ head)) fr) with (fuel := fuel) (v := v) (s := put h1 [] s)
    (col := paint C GC_BLACK col) (rc := fun p => rc p + cnt (anons C) p) as (V & s2 & Hs2 & HV & Q & h2 & -> & HQ & Hd2); [done|done|done|done|exact Hd1|..].
  { pose proof (passing_size D pink (fun p => bool_decide (p ∈ head)) (paint C GC_BLACK col)). lia. }
  { intros _ p [Ht Hp]%elem_of_filter Ha. rewrite painted in Ht. destruct (decide (p ∈ C)) as [|HpC]; [done|].
    assert (p ∈ P) as HpP. { apply Hpink; [done|]. unfold pink in Ht. apply andb_true_iff in Ht as [Ht _]. by apply bool_decide_eq_true in Ht. }
    destruct (Hr p HpP HpC Ha) as (H1 & H2 & H3). split_and!; [done..|]. by rewrite cnt_zero, Z.add_0_r by (by intros ?%anons_in). }
  assert (forall p, p ∈ passing D pink (fun p => bool_decide (p ∈ head)) (paint C GC_BLACK col) <-> p ∈ P /\ p ∉ C /\ p ∉ head) as Hpass.
  { intros p. unfold passing, pink. rewrite elem_of_filter, painted. destruct (decide (p ∈ C)); [cbn; naive_solver|].
    rewrite andb_true_iff, negb_true_iff, bool_decide_eq_true, bool_decide_eq_false. specialize (Hpink p). set_solver. }
  assert (C ## V) as Hdis by (intros x Hx [_ [_ [? _]]%Hpass]%HV%reach_in; done).
  rewrite put_twice, app_nil_r in *. exists V, Q, h2, (put h1 [] s). split; [done|]. split; [by apply collect_white_search|].
  split_and!; [done|done|..].
  - split_and!.
    + intros x [Hx|[_ [? _]%Hpass]%HV%reach_in]%elem_of_union; [by apply HC|done].
    + intros c k [Hc|Hc]%elem_of_union Hk.
      * destruct (HCc c k Hc Hk) as [|[->|]%elem_of_cons]; [set_solver| |by right]. left. destruct (decide (v ∈ C)); [set_solver|].
        apply elem_of_union_r, HV, reach_refl, Hpass. split_and!; [eapply HPc; [by apply HC|done]|done..].
      * apply HV in Hc. pose proof (reach_in _ _ _ _ Hc) as [_ [HcP _]%Hpass]. destruct (decide (k ∈ C)); [set_solver|].
        destruct (decide (k ∈ head)); [by right|]. left. apply elem_of_union_r, HV. eapply reach_step; [done..|].
        apply Hpass. split_and!; [by eapply HPc|done..].
    + eapply desc_ext; [exact Hd2|]. intros p _. lazy beta. rewrite paint_paint, (cnt_perm _ _ p (anons_union C V Hdis)), cnt_app. change (queued h0 true V) with (anons V). split_and!; [done|lia|done].
    + intros p Hp HpC Ha. destruct (Hr p Hp) with (2 := Ha) as (H1 & H2 & H3); [set_solver|]. split_and!; [done| |done]. cbn.
      rewrite not_elem_of_app, HQ. split; [|done]. intros ?%anons_in. set_solver.
  - intros HvP. destruct (decide (v ∈ C)); [set_solver|]. apply elem_of_union_r, HV, reach_refl, Hpass. done.
Qed.

Lemma collect_loop fuel head : (size D < fuel)%nat -> forall s C, NoDup head -> (forall r, r ∈ head -> r ∈ D) -> collected C head s -> roots s = head ->
  exists C' Q h, collect_roots_loop fuel head s = Some (tt, put h Q (set_roots [] s)) /\ C ⊆ C' /\ (forall r, r ∈ head -> r ∈ P -> r ∈ C') /\
    Q ++ anons C ≡ₚ anons C' /\ collected C' [] (put h Q (set_roots [] s)).
Proof.
  intros Hf. induction head as [|v head IH]; intros s C Hnd Hl Hc Hroots; cbn [collect_roots_loop].
  { exists C, [], (heap s). assert (put (heap s) [] (set_roots [] s) = s) as ->.
    { destruct s. cbn in Hroots. subst. unfold put, set_roots. cbn. by rewrite Z.add_0_r. }
    split_and!; [done..| |done|done]. by intros r ?%not_elem_of_nil. }
  apply NoDup_cons in Hnd as [Hv Hnd]. unfold REMOVE_ROOT. cbn [rev_append].
  rewrite (mbind_Some _ _ s tt (set_roots head s)) by done.
  destruct (collect_white_step fuel v head (set_roots head s) C) as (V & Q & h & s1 & Hs1 & Hs2 & Hdis & HQ & Hc1 & Hv1); [done|apply Hl; left|done|done|].
  rewrite (mbind_Some _ _ _ _ _ Hs1), (mbind_Some _ _ _ _ _ Hs2).
  destruct (IH _ _ Hnd (fun r Hr => Hl r (list_elem_of_further _ _ _ Hr)) Hc1) as (C' & Q' & h' & Hs3 & Hsub & Hin & HQ' & Hc'); [done|].
  rewrite set_roots_put, set_roots_twice, put_twice in Hs3, Hc'. exists C', (Q' ++ Q), h'. split; [done|]. split_and!.
  - set_solver.
  - intros r [->|Hr]%elem_of_cons HrP; [specialize (Hv1 HrP); set_solver|by apply Hin].
  - rewrite <- HQ', <- app_assoc. apply Permutation_app_head. rewrite HQ, (anons_union C V Hdis). apply Permutation_app_comm.
  - done.
Qed.
End collect.
End phases.
