(* ===== verification/Garbage.v ===== *)
(** * Garbage collection (garbage.cc): theorems

    Which values a run of the collector takes, in terms of the references
    between the values alone; that it ends, and what it leaves; when it takes
    only garbage, and that it can take more. *)
From Stdlib Require Import ZArith Lia.
From stdpp Require Import prelude gmap.
From S2P Require Import Prelude CString Value ObjCode ObjFun GcSearch GcCode GcScan GcMark.

Local Open Scope Z_scope.
Local Open Scope moo_scope.

(** ** The regions of the heap *)

Definition edges (s : gcst) : positive -> list positive := follow (heap s).
Definition leads_to (s : gcst) : positive -> positive -> Prop := reach (edges s) (fun _ => True).

(** The values that are not green and have references *)
Definition live_cell (h : gmap positive cell) (p : positive) : bool :=
  nongreen h p && match h !! p with Some c => negb (refs c =? 0) | None => false end.
Definition live (s : gcst) : gset positive := filter (fun p => live_cell (heap s) p = true) (dom (heap s)).

Definition purple_root (s : gcst) (r : positive) : Prop := r ∈ roots s /\ exists c, heap s !! r = Some c /\ color c = GC_PURPLE.
(** What the collector looks at; what of it has references from elsewhere;
    what that leads to; the rest; and what the rest leads to *)
Definition candidate (s : gcst) (u : positive) : Prop := exists r, purple_root s r /\ leads_to s r u.
Definition referenced (s : gcst) (e : positive) : Prop :=
  exists (G : gset positive) c, (forall x, x ∈ G <-> candidate s x) /\ e ∈ G /\ heap s !! e = Some c /\ indeg (edges s) G e < refs c.
Definition kept (s : gcst) (u : positive) : Prop := exists e, referenced s e /\ leads_to s e u.
Definition garbage (s : gcst) (u : positive) : Prop := candidate s u /\ ~ kept s u.
Definition taken (s : gcst) (u : positive) : Prop := exists w, garbage s w /\ leads_to s w u.

(** A dead root: its value has been destroyed but for its memory. *)
Definition dead_root (s : gcst) (p : positive) (c : cell) : Prop := p ∈ roots s /\ color c = GC_BLACK /\ refs c = 0.
#[export] Instance dead_root_dec s p c : Decision (dead_root s p c).
Proof. unfold dead_root. apply _. Defined.

(** ** Well-formed states, between two runs *)

Record gc_ok (s : gcst) : Prop := {
  ok_pointer : forall p c q, heap s !! p = Some c -> p ∈ live s -> q ∈ omap pointer (children (contents c)) -> is_Some (heap s !! q);
  ok_count : forall p c, heap s !! p = Some c -> indeg (edges s) (live s) p <= refs c;
  ok_color : forall p c, heap s !! p = Some c -> color c <> GC_GRAY /\ color c <> GC_WHITE /\ color c <> GC_PINK;
  ok_purple : forall p c, heap s !! p = Some c -> color c = GC_PURPLE -> p ∈ roots s;
  ok_nodup : NoDup (roots s);
  ok_buffered : forall p, p ∈ roots s <-> exists c, heap s !! p = Some c /\ buffered c = true;
  ok_root : forall p c, p ∈ roots s -> heap s !! p = Some c ->
    color c <> GC_GREEN /\ (color c = GC_PURPLE -> refs c <> 0) /\ (dead_root s p c -> forall r l, contents c <> ANON r false l) }.
(** Counts that cannot overflow in a run *)
Definition gc_small (s : gcst) : Prop := forall p c, heap s !! p = Some c -> refs c < 2 ^ 31.

(** An object that may be queued *)
Definition recyclable (s : gcst) (p : positive) : Prop :=
  is_anon (heap s) p = true -> p ∉ queue s /\ exists c l, heap s !! p = Some c /\ contents c = ANON false false l.

Lemma live_spec s p : p ∈ live s <-> exists c, heap s !! p = Some c /\ color c <> GC_GREEN /\ refs c <> 0.
Proof.
  unfold live, live_cell, nongreen. rewrite elem_of_filter, elem_of_dom. split.
  - intros [H [c Hc]]. rewrite Hc in H. apply andb_true_iff in H as [H1%bool_decide_eq_true H2%negb_true_iff%Z.eqb_neq]. eauto.
  - intros (c & Hc & H1 & H2). rewrite Hc. split; [|by eexists]. by rewrite bool_decide_eq_true_2, (proj2 (Z.eqb_neq _ _) H2).
Qed.
Lemma live_size s : (size (live s) <= size (heap s))%nat.
Proof. rewrite <- size_dom. apply subseteq_size. unfold live. intros p [_ ?]%elem_of_filter. done. Qed.

Lemma reach_closed E (X : gset positive) v u : (forall u w, u ∈ X -> w ∈ E u -> w ∈ X) -> v ∈ X ->
  reach E (fun _ => True) v u <-> reach E (fun x => x ∈ X) v u.
Proof.
  intros Hc Hv. split; [|by apply reach_mono]. induction 1 as [|u w H IH Hw _]; [by apply reach_refl|].
  eapply reach_step; [done..|]. apply reach_in in IH as [_ IH]. by eapply Hc.
Qed.

Section run.
Context (s : gcst).
Hypothesis Hok : gc_ok s.
Hypothesis Hsmall : gc_small s.
Notation h0 := (heap s).
Notation D := (live s).
Notation E := (edges s).

Definition col0 (p : positive) : GC_Color := match h0 !! p with Some c => color c | None => GC_BLACK end.
Definition rc0 (p : positive) : Z := match h0 !! p with Some c => refs c | None => 0 end.

Lemma rc0_range p : 0 <= rc0 p < 2 ^ 31.
Proof.
  unfold rc0. destruct (h0 !! p) eqn:Hp; [|lia]. pose proof (ok_count s Hok p _ Hp). pose proof (Hsmall p _ Hp). pose proof (indeg_nonneg E D p). lia.
Qed.
Lemma live_domain : domain h0 D.
Proof.
  intros p (c & Hc & Hg & Hr)%live_spec. split; [unfold nongreen; by rewrite Hc, bool_decide_eq_true_2|].
  rewrite Hc. cbn [from_option]. intros q Hq. destruct (ok_pointer s Hok p c q Hc (proj2 (live_spec s p) (ex_intro _ c (conj Hc (conj Hg Hr)))) Hq) as [cq Hcq].
  destruct (nongreen h0 q) eqn:Hn; [left|right; by split; [eexists|]]. apply live_spec. exists cq. split; [done|].
  split; [unfold nongreen in Hn; rewrite Hcq in Hn; by apply bool_decide_eq_true in Hn|].
  pose proof (ok_count s Hok q cq Hcq) as Hi. assert (0 < indeg E D q); [|lia]. apply indeg_pos. exists p.
  split; [by apply live_spec; eauto|]. unfold edges, follow. rewrite Hc. by apply followed_in.
Qed.
Lemma live_closed u w : u ∈ D -> w ∈ E u -> w ∈ D.
Proof. apply (follow_domain h0 D live_domain). Qed.
Lemma indeg_live V p : V ⊆ D -> 0 <= indeg E V p <= rc0 p.
Proof.
  intros HV. pose proof (indeg_nonneg E V p). pose proof (indeg_mono E V D p HV). split; [done|].
  unfold rc0. destruct (h0 !! p) eqn:Hp; [pose proof (ok_count s Hok p _ Hp); lia|].
  assert (indeg E D p = 0); [|lia]. apply indeg_zero. intros u Hu Hx. pose proof (live_closed u p Hu Hx) as (c & Hc & _)%live_spec. congruence.
Qed.

Lemma purple_live r : purple_root s r -> r ∈ D.
Proof. intros (Hr & c & Hc & Hp). apply live_spec. exists c. destruct (ok_root s Hok r c Hr Hc) as (? & Hx & _). auto. Qed.

Lemma start : desc h0 D h0 col0 rc0 (fun p => bool_decide (p ∈ roots s)) ∅.
Proof.
  split_and!; [|..|set_solver].
  - intros p. rewrite decide_False by set_solver. unfold col0. pose proof (rc0_range p) as Hr. unfold rc0 in *.
    destruct (h0 !! p) as [c|] eqn:Hp; [|done]. cbn. unfold to_uint. rewrite wrapU_id by lia. f_equal.
    assert (bool_decide (p ∈ roots s) = buffered c) as ->; [|by destruct c]. apply bool_iff. rewrite bool_decide_eq_true, (ok_buffered s Hok).
    rewrite Hp. naive_solver.
  - intros p [c Hc]. unfold col0, nongreen. rewrite Hc, bool_decide_eq_false. destruct (decide (color c = GC_GREEN)); tauto.
Qed.

(** ** The marking *)

Lemma mark_run fuel : (size D < fuel)%nat ->
  exists (G fr : gset positive) l h, mark_roots fuel s = Some (tt, put h [] (set_roots l s)) /\
    (forall u, u ∈ G <-> candidate s u) /\ G ⊆ D /\ NoDup l /\
    (forall r, r ∈ l -> r ∈ G) /\ (forall u, u ∈ G -> reach_any E (fun x => x ∈ G) l u) /\
    (forall p, p ∈ fr <-> exists c, h0 !! p = Some c /\ dead_root s p c) /\
    desc h0 D h (paint G GC_GRAY col0) (fun p => rc0 p - indeg E G p) (fun p => bool_decide (p ∈ l)) fr.
Proof.
  intros Hf. pose proof live_domain as HD. unfold mark_roots.
  destruct (mark_loop h0 D HD col0 rc0 (roots s)) with (fuel := fuel) (head := roots s) (last := @nil positive) (V := ∅ : gset positive) (fr := ∅ : gset positive) (s := s)
    as (G & fr & last & h & Hs & (Hd & _ & HG & Hla & _) & _ & Hnd & Hin & Hpu & Hfr); try done.
  - intros p _. pose proof (rc0_range p). lia.
  - intros p. rewrite live_spec. unfold nongreen, rc0. split.
    + intros (c & Hc & ? & ?). rewrite Hc, bool_decide_eq_true_2 by done. split_and!; [by eexists|done..].
    + intros ([c Hc] & H1 & H2). rewrite Hc in *. apply bool_decide_eq_true in H1. eauto.
  - intros p (c & Hc & _)%live_spec. unfold col0. rewrite Hc. by apply (ok_color s Hok p).
  - intros p Hp. pose proof Hp as (c & Hc & _)%(ok_buffered s Hok). destruct (ok_root s Hok p c Hp Hc) as (H1 & H2 & _).
    unfold nongreen, col0, rc0. rewrite Hc. split_and!; [by eexists|by apply bool_decide_eq_true_2|done].
  - intros p r l x b n Hp [H1 H2] Hc. unfold col0, rc0 in H1, H2. rewrite Hc in H1, H2. cbn in H1, H2.
    by apply (ok_root s Hok p _ Hp Hc) with (r := r) (l := l).
  - apply (ok_nodup s Hok).
  - split_and!; [|done|intros u; split; [set_solver|by intros ?%reach_any_nil]|by intros r ?%not_elem_of_nil|set_solver].
    eapply desc_ext; [apply start|]. intros p _. rewrite painted, decide_False, indeg_empty by set_solver. split_and!; [done|lia|done].
  - assert (forall r, r ∈ rev_append last [] <-> r ∈ last) as Hrev by (intros r; rewrite rev_append_rev, app_nil_r, !list_elem_of_In; symmetry; apply in_rev).
    exists G, fr, (rev_append last []), h. split; [done|].
    assert (forall p, p ∈ roots s -> col0 p = GC_PURPLE -> purple_root s p) as Hpr.
    { intros p Hp Hc. split; [done|]. pose proof Hp as (c & Hc' & _)%(ok_buffered s Hok). unfold col0 in Hc. rewrite Hc' in Hc. eauto. }
    assert (forall r, r ∈ last -> purple_root s r) as Hlp.
    { intros r Hr. destruct (Hla r Hr) as [_ Hc]. apply Hpr; [|done]. destruct (Hin r Hr) as [?%not_elem_of_nil|]; done. }
    assert (forall u, u ∈ G -> u ∈ D) as HGD by (intros u (r & _ & [_ ?]%reach_in)%HG; done).
    assert (forall u w, u ∈ G -> w ∈ E u -> w ∈ G) as HGc.
    { intros u w Hu Hw. apply HG. eapply reach_any_step; [by apply HG|done|]. by eapply live_closed; [apply HGD|]. }
    split_and!; [|done|..].
    + intros u. split.
      * intros (r & Hr & Hx)%HG. exists r. split; [by apply Hlp|]. by eapply reach_mono; [|exact Hx].
      * intros (r & Hr & Hx). assert (r ∈ G) as HrG.
        { pose proof Hr as (Hrr & c & Hc & Hp). apply Hpu; [done|]. unfold col0. by rewrite Hc. }
        apply (reach_closed E G r u HGc HrG) in Hx. by apply reach_in in Hx as [_ ?].
    + rewrite rev_append_rev, app_nil_r. by rewrite <- (Permutation_rev last).
    + intros r Hr%Hrev. apply HG. exists r. split; [done|]. apply reach_refl. by apply Hla.
    + intros u Hu. apply HG in Hu as (r & Hr & Hx). exists r. split; [by apply Hrev|]. apply (reach_closed E G r u HGc).
      * apply HG. exists r. split; [done|]. apply reach_refl. by apply Hla.
      * by eapply reach_mono; [|exact Hx].
    + intros p. rewrite Hfr. unfold dead, dead_root, col0, rc0. split.
      * intros [?|(Hp & H1 & H2)]; [set_solver|]. pose proof Hp as (c & Hc & _)%(ok_buffered s Hok). rewrite Hc in H1, H2. eauto.
      * intros (c & Hc & Hp & H1 & H2). rewrite Hc. auto.
    + eapply desc_ext; [exact Hd|]. intros p _. split_and!; [done..|]. apply bool_decide_ext. rewrite app_nil_r. apply Hrev.
Qed.

(** ** The scan and what is restored *)

Lemma referenced_iff (G : gset positive) e : (forall u, u ∈ G <-> candidate s u) -> G ⊆ D ->
  referenced s e <-> e ∈ G /\ 0 < rc0 e - indeg E G e.
Proof.
  intros HG HGD. unfold rc0. split.
  - intros (G' & c & HG' & He & Hc & Hlt). assert (G' = G) as -> by (apply set_eq; intros x; by rewrite HG, HG').
    rewrite Hc. split; [done|lia].
  - intros [He Hlt]. pose proof (HGD e He) as (c & Hc & _)%live_spec. rewrite Hc in Hlt. exists G, c. split_and!; [done..|lia].
Qed.

Lemma candidates_closed (G : gset positive) : (forall u, u ∈ G <-> candidate s u) -> forall u w, u ∈ G -> w ∈ E u -> w ∈ G.
Proof. intros HG u w (r & Hr & Hx)%HG Hw. apply HG. exists r. split; [done|]. by eapply reach_step. Qed.

Lemma scan_run fuel (G fr : gset positive) l h t : (size D < fuel)%nat -> (forall u, u ∈ G <-> candidate s u) -> G ⊆ D ->
  (forall r, r ∈ l -> r ∈ G) -> (forall u, u ∈ G -> reach_any E (fun x => x ∈ G) l u) -> roots t = l -> heap t = h ->
  desc h0 D h (paint G GC_GRAY col0) (fun p => rc0 p - indeg E G p) (fun p => bool_decide (p ∈ l)) fr ->
  exists (B P : gset positive) h', (scan_roots fuel ;; restore_white fuel) t = Some (tt, put h' [] t) /\
    (forall u, u ∈ B <-> kept s u) /\ B ⊆ G /\ (forall u w, u ∈ B -> w ∈ E u -> w ∈ B) /\
    (forall u, u ∈ P <-> exists w, w ∈ l /\ w ∈ G ∖ B /\ leads_to s w u) /\ P ⊆ G /\
    desc h0 D h' (fun p => if decide (p ∈ P) then GC_PINK else if decide (p ∈ B) then GC_BLACK else col0 p)
      (fun p => rc0 p + indeg E (P ∖ (G ∖ B)) p) (fun p => bool_decide (p ∈ l)) fr.
Proof.
  intros Hf HG HGD Hl HGl Hro <- Hd. pose proof (live_domain) as HD. pose proof (candidates_closed G HG) as HGc.
  assert (forall p, p ∈ G -> 0 <= rc0 p - indeg E G p < 2 ^ 32) as Hext.
  { intros p Hp. pose proof (indeg_live G p HGD). pose proof (rc0_range p). lia. }
  destruct (scan_phase h0 D HD G (paint G GC_GRAY col0) (fun p => rc0 p - indeg E G p) (fun p => bool_decide (p ∈ l)) fr HGD HGc
     (fun p Hp => decide_True _ _ Hp) Hext fuel fuel l t) as (B & h1 & Hs1 & HB & HBc & HBG & Hd1); [lia|done..|].
  set (W := G ∖ B) in *.
  destruct (restore_phase h0 D HD (fun p => if decide (p ∈ B) then GC_BLACK else if decide (p ∈ G) then GC_WHITE else paint G GC_GRAY col0 p)
     (fun p => rc0 p - indeg E G p + indeg E B p) (fun p => bool_decide (p ∈ l)) fr W) with (fuel := fuel) (l := l) (s := put h1 [] t)
     as (P & h2 & Hs2 & HP & HPD & HPc & Hd2); [| |lia|by intros r ?%Hl%HGD|exact Hd1|].
  { intros p (c & Hc & _)%live_spec. pose proof (ok_color s Hok p c Hc) as (_ & Hw & _). unfold W, col0, paint. rewrite Hc.
    destruct (decide (p ∈ B)), (decide (p ∈ G)); set_solver. }
  { intros p (c & Hc & _)%live_spec. pose proof (ok_color s Hok p c Hc) as (_ & _ & Hw). unfold col0, paint. rewrite Hc.
    destruct (decide (p ∈ B)); [done|]. by destruct (decide (p ∈ G)). }
  assert (forall u, u ∈ P <-> exists w, w ∈ l /\ w ∈ W /\ leads_to s w u) as HP'.
  { intros u. rewrite HP. split; intros (w & Hw & HwW & Hx); exists w; (split; [done|]); (split; [done|]); apply (reach_closed E D w u); try done;
      try (by apply live_closed); by apply HGD, Hl. }
  assert (W ⊆ P) as HWP.
  { intros u HuW. unfold W in HuW. apply elem_of_difference in HuW as [HuG HuB]. destruct (HGl u HuG) as (r & Hr & Hx). apply HP'. exists r.
    split; [done|]. split; [|by eapply reach_mono; [|exact Hx]]. unfold W. apply elem_of_difference. split; [by apply Hl|].
    intros HrB. by apply HuB, (reach_into E _ B r u HBc Hx). }
  assert (P ⊆ G) as HPG.
  { intros u (w & Hw & _ & Hx)%HP'. apply (reach_closed E G w u HGc (Hl w Hw)) in Hx. by apply reach_in in Hx as [_ ?]. }
  exists B, P, h2. split_and!; [| |done|done|done|done|].
  - unfold scan_roots. rewrite (mbind_Some _ _ t tt (put h1 [] t)) by (by rewrite Hro). unfold restore_white. cbn [roots put]. rewrite Hro.
    rewrite put_twice in Hs2. exact Hs2.
  - intros u. rewrite HB. unfold kept, held. split.
    + intros (e & He & Hpos & Hx). exists e. split; [by apply (referenced_iff G e HG HGD)|]. by apply (reach_closed E G e u HGc He).
    + intros (e & [He Hpos]%(referenced_iff G e HG HGD) & Hx). exists e. split_and!; [done..|]. by apply (reach_closed E G e u HGc He).
  - eapply desc_ext; [exact Hd2|]. intros p _. split_and!; [|..|done].
    + rewrite painted. destruct (decide (p ∈ P)) as [|HpP]; [done|]. destruct (decide (p ∈ B)) as [|HpB]; [done|].
      destruct (decide (p ∈ G)) as [HpG|HpG]; [|unfold paint; by rewrite decide_False]. exfalso. apply HpP, HWP. unfold W. set_solver.
    + lazy beta. change (follow h0) with E. assert (indeg E G p = indeg E B p + indeg E W p) as ->.
      { rewrite <- indeg_union by (unfold W; set_solver). f_equal. apply union_difference_L. done. }
      assert (indeg E P p = indeg E W p + indeg E (P ∖ W) p) as ->; [|fold W; lia].
      rewrite <- indeg_union by set_solver. f_equal. by apply union_difference_L.
Qed.

Lemma kept_or_garbage u : candidate s u -> kept s u \/ garbage s u.
Proof.
  intros Hu. destruct (mark_run (S (size D))) as (G & fr & l & h1 & _ & HG & HGD & _ & Hl & HGl & _ & Hd1); [lia|].
  destruct (scan_run (S (size D)) G fr l h1 (put h1 [] (set_roots l s))) as (B & _ & _ & _ & HB & _); [lia|done..|].
  unfold garbage. rewrite <- HB. destruct (decide (u ∈ B)); [by left|by right].
Qed.

(** ** A whole run *)

Lemma gc_collect_run : roots s <> [] -> (forall p, taken s p -> recyclable s p) ->
  exists (G W P : gset positive) Q s', (forall u, u ∈ G <-> candidate s u) /\ (forall u, u ∈ W <-> garbage s u) /\ (forall u, u ∈ P <-> taken s u) /\
    gc_collect s = Some (tt, s') /\ roots s' = [] /\ gc_roots_count s' = 0 /\ gc_run_called s' = false /\
    queue s' = Q ++ queue s /\ Q ≡ₚ anons h0 P /\ pending_count s' = pending_count s + Z.of_nat (length Q) /\
    forall p, heap s' !! p =
      match h0 !! p with
      | Some c => if decide (dead_root s p c) then None
                  else Some (mk_cell (contents c) (if decide (p ∈ G) then GC_BLACK else color c) false
                              (refs c + indeg E (P ∖ W) p + (if decide (p ∈ Q) then 1 else 0)))
      | None => None
      end.
Proof.
  intros Hne Hrec. pose proof (live_size s) as Hsz. pose proof (live_domain) as HD. set (fuel := gc_fuel s).
  assert (size D < fuel)%nat as Hf by (unfold fuel, gc_fuel; lia).
  destruct (mark_run fuel Hf) as (G & fr & l & h1 & Hs1 & HG & HGD & Hnd & Hl & HGl & Hfr & Hd1).
  destruct (scan_run fuel G fr l h1 (put h1 [] (set_roots l s))) as (B & P & h2 & Hs2 & HB & HBG & HBc & HP & HPG & Hd2); [done..|].
  set (W := G ∖ B) in *. pose proof (candidates_closed G HG) as HGc.
  assert (forall u, u ∈ W <-> garbage s u) as HW. { intros u. unfold W, garbage. by rewrite elem_of_difference, HG, HB. }
  assert (forall u, u ∈ P <-> taken s u) as HPt.
  { intros u. rewrite HP. unfold taken. split; [intros (w & _ & Hw%HW & Hx); eauto|]. intros (w & Hw%HW & Hx). pose proof Hw as Hw'.
    unfold W in Hw. apply elem_of_difference in Hw as [HwG HwB]. destruct (HGl w HwG) as (r & Hr & Hrw). exists r. split; [done|]. split.
    - unfold W. apply elem_of_difference. split; [by apply Hl|]. intros HrB. by apply HwB, (reach_into E _ B r w HBc Hrw).
    - eapply reach_trans; [|exact Hx]. by eapply reach_mono; [|exact Hrw]. }
  assert (forall u w, u ∈ P -> w ∈ E u -> w ∈ P) as HPc.
  { intros u w (r & Hr & HrW & Hx)%HP Hw. apply HP. exists r. split_and!; [done..|]. by eapply reach_step. }
  assert (forall p, 0 <= indeg E (P ∖ W) p <= rc0 p) as Hin. { intros p. apply (indeg_live). set_solver. }
  assert (P ⊆ D) as HPD by (clear - HPG HGD; set_solver).
  set (t2 := put h2 [] (put h1 [] (set_roots l s))) in *.
  destruct (collect_loop h0 D HD (fun p => if decide (p ∈ P) then GC_PINK else if decide (p ∈ B) then GC_BLACK else col0 p)
     (fun p => rc0 p + indeg E (P ∖ W) p) fr P HPD HPc) with (fuel := fuel) (head := l) (s := t2) (C := ∅ : gset positive)
     as (C & Q & h3 & Hs3 & _ & HPC & HQ & HCP & HCc & Hd3 & _); [|done|done|by intros r ?%Hl%HGD| |done|].
  { intros p (c & Hc & _)%live_spec. destruct (decide (p ∈ P)); [done|]. split; [|done]. destruct (decide (p ∈ B)); [done|].
    unfold col0. rewrite Hc. by intros ?%(ok_color s Hok p c Hc). }
  { split_and!; [set_solver..| |].
    - eapply desc_ext; [exact Hd2|]. intros p _. rewrite painted, decide_False by set_solver. unfold anons. rewrite queued_empty, cnt_nil.
      split_and!; [done|lia|done].
    - intros p Hp _ Ha. destruct (Hrec p (proj1 (HPt p) Hp) Ha) as (Hq & c & l' & Hc & Hl'). split_and!; [|done|].
      + exists l', (color c), (buffered c), (refs c). rewrite Hc. destruct c. cbn in *. by subst.
      + pose proof (Hin p). pose proof (rc0_range p). assert (rc0 p <> 0) as Hn0.
        { unfold rc0. pose proof (HGD p (HPG p Hp)) as (c' & Hc' & _ & Hn)%live_spec. by rewrite Hc'. }
        unfold to_uint. rewrite wrapU_id; lia. }
  assert (C = P) as ->.
  { apply set_eq. intros u. split; [apply HCP|]. intros (r & Hr & HrW & Hx)%HP. assert (r ∈ C) as HrC.
    { apply HPC; [done|]. apply HP. exists r. split_and!; [done..|]. by apply reach_refl. }
    clear Hr HrW. induction Hx as [|u w _ IH Hw _]; [done|]. by destruct (HCc u w IH Hw) as [|?%not_elem_of_nil]. }
  exists G, W, P, Q, (set_counts 0 false (put h3 Q (set_roots [] t2))).
  assert (Q ≡ₚ anons h0 P) as HQP. { rewrite <- HQ. unfold anons at 1. by rewrite queued_empty, app_nil_r. }
  assert (NoDup Q) as HndQ. { rewrite HQP. unfold anons, queued. apply NoDup_filter, NoDup_elements. }
  split_and!; [done|done|done| |done|done|done|done|done|..].
  - unfold gc_collect. destruct (roots s) as [|r0 rs] eqn:Er; [done|]. fold fuel. rewrite (mbind_Some _ _ _ _ _ Hs1).
    apply mbind_inv in Hs2 as ([] & t1 & Ht1 & Ht2). rewrite (mbind_Some _ _ _ _ _ Ht1), (mbind_Some _ _ _ _ _ Ht2).
    unfold collect_roots. rewrite (mbind_Some _ _ t2 tt (put h3 Q (set_roots [] t2))); [done|]. exact Hs3.
  - cbn. lia.
  - intros p. cbn. destruct Hd3 as (H1 & _). rewrite H1. destruct (h0 !! p) as [c|] eqn:Hc; [|by case_decide]. cbn.
    destruct (decide (p ∈ fr)) as [Hp|Hp].
    + apply Hfr in Hp as (c' & Hc' & Hp). rewrite Hc in Hc'. injection Hc' as <-. by rewrite decide_True.
    + rewrite decide_False by (intros ?; apply Hp, Hfr; eauto). f_equal. f_equal.
      * unfold paint. destruct (decide (p ∈ P)) as [HpP|HpP]; [rewrite decide_True by (by apply HPG); done|].
        destruct (decide (p ∈ B)) as [HpB|HpB]; [rewrite decide_True by (by apply HBG); done|]. unfold col0. rewrite Hc.
        destruct (decide (p ∈ G)) as [HpG|]; [|done]. exfalso. apply HpP, HP. destruct (HGl p HpG) as (r & Hr & Hx). exists r.
        split; [done|]. split; [|by eapply reach_mono; [|exact Hx]]. unfold W. apply elem_of_difference. split; [by apply Hl|].
        intros HrB. by apply HpB, (reach_into E _ B r p HBc Hx).
      * pose proof (Hin p) as Hi. pose proof (ok_count s Hok p c Hc). pose proof (Hsmall p c Hc). unfold rc0 in *. rewrite Hc in *.
        change (base.filter _ (elements P)) with (anons h0 P). rewrite <- (cnt_perm _ _ p HQP), (cnt_NoDup Q p HndQ). pose proof (indeg_nonneg E D p). unfold to_uint. rewrite wrapU_id; [done|]. case_decide; lia.
Qed.
End run.

(** ** Examples *)

(** A test of the two conditions *)
Definition free_anon (c : cell) : bool := match contents c with ANON _ false _ => true | _ => false end.
Definition cell_ok (s : gcst) (p : positive) (c : cell) : Prop :=
  (p ∈ live s -> Forall (fun q => is_Some (heap s !! q)) (omap pointer (children (contents c)))) /\
  indeg (edges s) (live s) p <= refs c < 2 ^ 31 /\
  (color c <> GC_GRAY /\ color c <> GC_WHITE /\ color c <> GC_PINK) /\
  (color c = GC_PURPLE -> p ∈ roots s) /\ (buffered c = true <-> p ∈ roots s) /\
  (p ∈ roots s -> color c <> GC_GREEN /\ (color c = GC_PURPLE -> refs c <> 0) /\ (dead_root s p c -> free_anon c = false)).
#[export] Instance cell_ok_dec s p c : Decision (cell_ok s p c).
Proof. unfold cell_ok. apply _. Defined.
Definition gc_okb (s : gcst) : bool :=
  bool_decide (map_Forall (cell_ok s) (heap s)) && bool_decide (NoDup (roots s)) && bool_decide (Forall (fun r => is_Some (heap s !! r)) (roots s)).

Lemma gc_okb_ok s : gc_okb s = true -> gc_ok s /\ gc_small s.
Proof.
  unfold gc_okb. rewrite !andb_true_iff, !bool_decide_eq_true, Forall_forall. intros [[H Hnd] Hr].
  split; [split|]; try (intros p c Hc; by destruct (H p c Hc) as (? & [? ?] & ? & ? & ?)).
  - intros p c q Hc Hp Hq. destruct (H p c Hc) as (Hx & _). specialize (Hx Hp). rewrite Forall_forall in Hx. by apply Hx.
  - done.
  - intros p. split; [intros Hp; destruct (Hr p Hp) as [c Hc]; exists c; split; [done|]; by apply (H p c Hc)|].
    intros (c & Hc & Hb). by apply (H p c Hc).
  - intros p c Hp Hc. destruct (H p c Hc) as (_ & _ & _ & _ & _ & Hx). destruct (Hx Hp) as (H1 & H2 & H3). split_and!; [done..|].
    intros Hd r l Hl. specialize (H3 Hd). unfold free_anon in H3. by rewrite Hl in H3.
Qed.

Lemma candidates_are s (X : gset positive) : (forall u, u ∈ X -> candidate s u) ->
  forallb (fun r => bool_decide (r ∈ X)) (roots s) && forallb (fun u => forallb (fun w => bool_decide (w ∈ X)) (edges s u)) (elements X) = true ->
  forall u, candidate s u <-> u ∈ X.
Proof.
  intros H1 [H2 H3]%andb_true_iff u. rewrite !forallb_forall in *. split; [|apply H1]. intros (r & [Hr _] & Hx).
  apply (reach_into (edges s) (fun _ => True) X r u); [|done|].
  - intros x w Hx' Hw. specialize (H3 x). rewrite <- list_elem_of_In, elem_of_elements, forallb_forall in H3.
    specialize (H3 Hx' w). rewrite <- list_elem_of_In, bool_decide_eq_true in H3. by apply H3.
  - specialize (H2 r). rewrite <- list_elem_of_In, bool_decide_eq_true in H2. by apply H2.
Qed.
Lemma edge_to s u w : bool_decide (w ∈ edges s u) = true -> leads_to s u w.
Proof. intros H%bool_decide_eq_true. eapply reach_step; [by apply reach_refl|done|done]. Qed.
Lemma referenced_are s (X : gset positive) e : (forall u, candidate s u <-> u ∈ X) ->
  referenced s e -> e ∈ X /\ exists c, heap s !! e = Some c /\ indeg (edges s) X e < refs c.
Proof.
  intros HX (G & c & HG & He & Hc & Hlt). assert (G = X) as -> by (apply set_eq; intros x; by rewrite HG, HX). eauto.
Qed.

(** A cycle of an object and a list, that a list without cycles is in; an
    object that is held *)
Definition ex_cycle : gcst :=
  mk_gcst (list_to_map [
    (1%positive, mk_cell (ANON false false [VOther; VRef 2]) GC_PURPLE true 1);
    (2%positive, mk_cell (LIST [VRef 1; VNull; VRef 4]) GC_YELLOW false 1);
    (3%positive, mk_cell (ANON false false []) GC_BLACK false 1);
    (4%positive, mk_cell (LIST []) GC_GREEN false 1)]) [1%positive] 1 true [3%positive] 1.
(** An object that refers to itself, and to an object that is held, which
    refers to a list *)
Definition ex_held : gcst :=
  mk_gcst (list_to_map [
    (1%positive, mk_cell (ANON false false [VRef 1; VRef 2]) GC_PURPLE true 1);
    (2%positive, mk_cell (ANON false false [VRef 3]) GC_BLACK false 2);
    (3%positive, mk_cell (LIST []) GC_YELLOW false 1)]) [1%positive] 1 true [] 0.

Lemma ex_cycle_ok : gc_ok ex_cycle /\ gc_small ex_cycle.
Proof. apply gc_okb_ok. vm_compute. exact eq_refl. Qed.
Lemma ex_held_ok : gc_ok ex_held /\ gc_small ex_held.
Proof. apply gc_okb_ok. vm_compute. exact eq_refl. Qed.

Definition ex_pair : gset positive := {[1%positive; 2%positive]}.
Lemma ex_cycle_root : purple_root ex_cycle 1.
Proof. split; [left|]. eexists. split; [vm_compute; exact eq_refl|exact eq_refl]. Qed.
Lemma ex_cycle_candidates u : candidate ex_cycle u <-> u ∈ ex_pair.
Proof.
  apply candidates_are; [|vm_compute; exact eq_refl]. intros x Hx. exists 1%positive. split; [apply ex_cycle_root|].
  unfold ex_pair in Hx. apply elem_of_union in Hx as [->%elem_of_singleton| ->%elem_of_singleton]; [by apply reach_refl|].
  apply edge_to. vm_compute. exact eq_refl.
Qed.
Lemma ex_cycle_garbage u : u ∈ ex_pair -> garbage ex_cycle u.
Proof.
  intros Hu. split; [by apply ex_cycle_candidates|]. intros (e & (He & c & Hc & Hlt)%(referenced_are _ _ _ ex_cycle_candidates) & _).
  unfold ex_pair in He. apply elem_of_union in He as [->%elem_of_singleton| ->%elem_of_singleton]; vm_compute in Hc; injection Hc as <-; vm_compute in Hlt; done.
Qed.
Lemma ex_cycle_taken u : taken ex_cycle u -> u ∈ ex_pair.
Proof. intros (w & [(r & Hr & Hx) _] & Hy). apply ex_cycle_candidates. exists r. split; [done|]. by eapply reach_trans. Qed.
Lemma ex_cycle_recyclable u : u ∈ ex_pair -> recyclable ex_cycle u.
Proof.
  unfold ex_pair. intros [->%elem_of_singleton| ->%elem_of_singleton]%elem_of_union Ha; [|by vm_compute in Ha].
  split; [by intros [=]%list_elem_of_singleton|]. eexists _, _. split; [vm_compute; exact eq_refl|exact eq_refl].
Qed.

(** ** Theorems *)

(** C15: a run of the collector on a well-formed state with roots ends,
    whatever the shape of the references, when no count is near its bound
    ([gc_small]: below 2^31) and every object that a piece of garbage leads to
    may be queued ([recyclable]: it is not in the queue, and it has been
    neither recycled nor invalidated; [gc_asserts_recycled] is a well-formed
    state without this on which the run fails).  It queues every anonymous
    object that a piece of cyclic garbage leads to, once, ahead of the queue;
    each count is as it was, but for one more for a queued object and the
    edges counted twice from what was taken and is not garbage; no value is a
    root or buffered; the values it looked at are black; and the roots that
    were destroyed before are freed. *)
Theorem gc_collect_correct s :
  gc_ok s -> gc_small s -> roots s <> [] -> (forall p, taken s p -> recyclable s p) ->
  exists (G W P : gset positive) Q s', (forall u, u ∈ G <-> candidate s u) /\ (forall u, u ∈ W <-> garbage s u) /\ (forall u, u ∈ P <-> taken s u) /\
    gc_collect s = Some (tt, s') /\ roots s' = [] /\ gc_roots_count s' = 0 /\ gc_run_called s' = false /\
    queue s' = Q ++ queue s /\ NoDup Q /\ (forall p, p ∈ Q <-> taken s p /\ is_anon (heap s) p = true) /\
    pending_count s' = pending_count s + Z.of_nat (length Q) /\
    forall p, heap s' !! p =
      match heap s !! p with
      | Some c => if decide (dead_root s p c) then None
                  else Some (mk_cell (contents c) (if decide (p ∈ G) then GC_BLACK else color c) false
                              (refs c + indeg (edges s) (P ∖ W) p + (if decide (p ∈ Q) then 1 else 0)))
      | None => None
      end.
Proof.
  intros Hok Hsm Hne Hrec. destruct (gc_collect_run s Hok Hsm Hne Hrec) as (G & W & P & Q & s' & HG & HW & HP & Hs & H1 & H2 & H3 & H4 & HQ & H5 & H6).
  exists G, W, P, Q, s'. split_and!; try done.
  - rewrite HQ. unfold anons, queued. apply NoDup_filter, NoDup_elements.
  - intros p. rewrite HQ, <- HP. unfold anons, queued. rewrite list_elem_of_filter, elem_of_elements. tauto.
Qed.

Lemma garbage_taken s u : garbage s u -> taken s u.
Proof. intros H. exists u. split; [done|]. by apply reach_refl. Qed.

(** ** Well-formedness after a run *)

Lemma pointer_kept s p c q : gc_ok s -> heap s !! p = Some c -> p ∈ live s -> q ∈ omap pointer (children (contents c)) ->
  exists cq, heap s !! q = Some cq /\ ~ dead_root s q cq.
Proof.
  intros Hok Hc Hp Hq. destruct (ok_pointer s Hok p c q Hc Hp Hq) as [cq Hcq]. exists cq. split; [done|]. intros Hd.
  pose proof Hd as (Hr & _ & Hz). destruct (ok_root s Hok q cq Hr Hcq) as (Hg & _). pose proof (ok_count s Hok q cq Hcq) as Hi.
  assert (0 < indeg (edges s) (live s) q); [|lia]. apply indeg_pos. exists p. split; [done|]. unfold edges, follow. rewrite Hc.
  apply followed_in. split; [|done]. unfold nongreen. by rewrite Hcq, bool_decide_eq_true_2.
Qed.

Section after_run.
Context (s s' : gcst) (x : positive -> cell -> GC_Color) (ex : positive -> Z).
Hypothesis Hok : gc_ok s.
Hypothesis Hheap : forall p, heap s' !! p =
  match heap s !! p with
  | Some c => if decide (dead_root s p c) then None else Some (mk_cell (contents c) (x p c) false (refs c + ex p))
  | None => None
  end.
Hypothesis Hx : forall p c, heap s !! p = Some c -> (x p c = GC_GREEN <-> color c = GC_GREEN) /\
  x p c <> GC_GRAY /\ x p c <> GC_WHITE /\ x p c <> GC_PINK /\ x p c <> GC_PURPLE.
Hypothesis Hex : forall p c, heap s !! p = Some c -> 0 <= ex p /\ (refs c = 0 -> ex p = 0).

Lemma after_lookup p c' : heap s' !! p = Some c' -> exists c, heap s !! p = Some c /\ ~ dead_root s p c /\ c' = mk_cell (contents c) (x p c) false (refs c + ex p).
Proof. rewrite Hheap. destruct (heap s !! p) as [c|]; [|done]. case_decide; [done|]. intros [= <-]. eauto. Qed.
Lemma after_live : live s' = live s.
Proof.
  apply set_eq. intros p. rewrite !live_spec. split.
  - intros (c' & (c & Hc & _ & ->)%after_lookup & Hg & Hr). cbn in Hg, Hr. destruct (Hx p c Hc) as (Hg' & _), (Hex p c Hc) as (_ & Hz).
    exists c. split_and!; [done|tauto|]. intros Hz'. rewrite Hz', (Hz Hz') in Hr. done.
  - intros (c & Hc & Hg & Hr). rewrite Hheap, Hc, decide_False by (by intros (_ & _ & ?)). eexists. split; [done|]. cbn.
    destruct (Hx p c Hc) as (Hg' & _), (Hex p c Hc) as (Hp & _). split; [tauto|]. pose proof (ok_count s Hok p c Hc).
    pose proof (indeg_nonneg (edges s) (live s) p). lia.
Qed.
Lemma after_edges p : p ∈ live s -> edges s' p = edges s p.
Proof.
  intros Hp. pose proof Hp as (c & Hc & _ & Hr)%live_spec. unfold edges, follow.
  rewrite Hheap, Hc, decide_False by (by intros (_ & _ & ?)). cbn [contents]. apply followed_ext. intros q Hq.
  destruct (pointer_kept s p c q Hok Hc Hp Hq) as (cq & Hcq & Hd). unfold nongreen. rewrite Hheap, Hcq, decide_False by done. cbn [color].
  apply bool_decide_ext. destruct (Hx q cq Hcq) as (Hg & _). tauto.
Qed.
Lemma after_run_ok : roots s' = [] -> gc_ok s'.
Proof.
  intros Hro. split.
  - intros p c' q (c & Hc & _ & ->)%after_lookup Hp Hq. rewrite after_live in Hp. destruct (pointer_kept s p c q Hok Hc Hp Hq) as (cq & Hcq & Hd).
    rewrite Hheap, Hcq, decide_False by done. by eexists.
  - intros p c' (c & Hc & _ & ->)%after_lookup. rewrite after_live, (indeg_ext _ (edges s)) by (intros; by apply after_edges). cbn.
    pose proof (ok_count s Hok p c Hc). destruct (Hex p c Hc). lia.
  - intros p c' (c & Hc & _ & ->)%after_lookup. cbn. destruct (Hx p c Hc) as (_ & ? & ? & ? & _). done.
  - intros p c' (c & Hc & _ & ->)%after_lookup. cbn. intros Hpu. by destruct (Hx p c Hc) as (_ & _ & _ & _ & []).
  - rewrite Hro. apply NoDup_nil_2.
  - intros p. rewrite Hro. split; [by intros ?%not_elem_of_nil|]. by intros (c' & (c & _ & _ & ->)%after_lookup & [=]).
  - intros p c' Hp. rewrite Hro in Hp. by apply not_elem_of_nil in Hp.
Qed.
End after_run.

Lemma gc_collect_only_garbage s :
  gc_ok s -> gc_small s -> (forall u, taken s u -> garbage s u) -> (forall p, garbage s p -> recyclable s p) ->
  exists s', gc_collect s = Some (tt, s') /\ gc_ok s' /\ roots s' = [] /\
    (forall p, p ∈ queue s' <-> p ∈ queue s \/ garbage s p /\ is_anon (heap s) p = true) /\
    (forall p c, heap s !! p = Some c -> ~ dead_root s p c -> exists c', heap s' !! p = Some c' /\ contents c' = contents c /\
       refs c' = refs c + (if decide (p ∈ queue s' /\ p ∉ queue s) then 1 else 0)).
Proof.
  intros Hok Hsm Hex Hrec. destruct (decide (roots s = [])) as [Hro|Hne].
  { exists s. split; [unfold gc_collect; by rewrite Hro|]. split_and!; [done..| |].
    - intros p. split; [by left|]. intros [?|[[(r & (Hr & _) & _) _] _]]; [done|]. rewrite Hro in Hr. by apply not_elem_of_nil in Hr.
    - intros p c Hc _. exists c. rewrite decide_False by tauto. split_and!; [done..|lia]. }
  destruct (gc_collect_run s Hok Hsm Hne) as (G & W & P & Q & s' & HG & HW & HP & Hs & Hr & _ & _ & Hq & HQ & _ & Hh).
  { intros p Hp. apply Hrec. by apply Hex. }
  assert (P ∖ W = ∅) as He by (apply set_eq; intros p; rewrite elem_of_difference, HP, HW; pose proof (Hex p); set_solver).
  assert (forall p, p ∈ Q <-> garbage s p /\ is_anon (heap s) p = true) as HQ'.
  { intros p. rewrite HQ. unfold anons, queued. rewrite list_elem_of_filter, elem_of_elements, HP. pose proof (Hex p). pose proof (garbage_taken s p). tauto. }
  assert (forall p, p ∈ Q -> p ∈ live s) as HQl.
  { intros p [[(r & Hr' & Hx) _] _]%HQ'. apply (reach_into (edges s) _ (live s) r p (live_closed s Hok) Hx). by apply purple_live. }
  exists s'. rewrite He in Hh. split; [done|]. split_and!; [|done|..].
  - apply (after_run_ok s s' (fun p c => if decide (p ∈ G) then GC_BLACK else color c) (fun p => if decide (p ∈ Q) then 1 else 0) Hok); [| | |done].
    + intros p. rewrite Hh. destruct (heap s !! p); [|done]. case_decide; [done|]. by rewrite indeg_empty, Z.add_0_r.
    + intros p c Hc. destruct (ok_color s Hok p c Hc) as (? & ? & ?). case_decide as Hp.
      * split_and!; [|done..]. split; [done|]. intros Hg. apply HG in Hp as (r & Hr' & Hx).
        assert (p ∈ live s) as (c' & Hc' & Hn & _)%live_spec; [|congruence].
        apply (reach_into (edges s) _ (live s) r p (live_closed s Hok) Hx). by apply purple_live.
      * split_and!; [done..|]. intros Hpu. apply Hp, HG. exists p. split; [split; [by eapply ok_purple|eauto]|by apply reach_refl].
    + intros p c Hc. case_decide as Hp; [|done]. split; [done|]. apply HQl in Hp as (c' & Hc' & _ & Hz)%live_spec. congruence.
  - intros p. rewrite Hq, elem_of_app, HQ'. tauto.
  - intros p c Hc Hd. rewrite Hh, Hc, decide_False by done. eexists. split; [done|]. cbn. split; [done|]. rewrite indeg_empty, Z.add_0_r. f_equal.
    assert (p ∈ queue s' <-> p ∈ Q \/ p ∈ queue s) as Hm by (rewrite Hq; apply elem_of_app). destruct (decide (p ∈ Q)) as [Hp|Hp].
    + rewrite decide_True; [done|]. split; [tauto|]. pose proof Hp as [Hg Ha]%HQ'. by destruct (Hrec p Hg Ha).
    + rewrite decide_False; [done|]. tauto.
Qed.

(** C14: on a well-formed state with small counts, when all that cyclic
    garbage leads to is garbage ([gc_takes_referenced] is a state where it is
    not) and every anonymous object in it may be queued ([recyclable]: not in
    the queue, not recycled, not invalid; see [gc_asserts_recycled]), a run of
    the collector is exact: the queue gets the anonymous objects that are
    garbage and nothing else, every value that had not been destroyed before
    is still there with its contents and its count, one more if it was queued,
    and the state is well formed again. *)
Theorem gc_collect_exact s :
  gc_ok s -> gc_small s -> (forall u, taken s u -> garbage s u) -> (forall p, garbage s p -> recyclable s p) ->
  exists s', gc_collect s = Some (tt, s') /\ gc_ok s' /\ roots s' = [] /\
    (forall p, p ∈ queue s' <-> p ∈ queue s \/ garbage s p /\ is_anon (heap s) p = true) /\
    (forall p c, heap s !! p = Some c -> ~ dead_root s p c -> exists c', heap s' !! p = Some c' /\ contents c' = contents c /\
       refs c' = refs c + (if decide (p ∈ queue s' /\ p ∉ queue s) then 1 else 0)).
Proof. apply gc_collect_only_garbage. Qed.

(** What the collector calls garbage is not reachable from outside: [held]
    counts the references to a value that are not in a value that is not green
    and has references. *)
Definition counted (s : gcst) (held : positive -> Z) : Prop :=
  forall p c, heap s !! p = Some c -> refs c = held p + indeg (edges s) (live s) p.

Lemma garbage_unreachable s (held : positive -> Z) u :
  gc_ok s -> gc_small s -> counted s held -> garbage s u -> forall e, e ∈ live s -> 0 < held e -> ~ leads_to s e u.
Proof.
  intros Hok Hsm Hheld [Hu Hk] e He Hpos Hx. apply Hk. clear Hk.
  destruct (mark_run s Hok Hsm (S (size (live s)))) as (G & _ & _ & _ & _ & HG & HGD & _); [lia|].
  apply HG in Hu. assert (forall p, p ∈ G -> indeg (edges s) G p < held p + indeg (edges s) (live s) p -> kept s p) as Href.
  { intros p Hp Hlt. exists p. split; [|by apply reach_refl]. apply (referenced_iff s G p HG HGD). split; [done|]. unfold rc0.
    pose proof (HGD p Hp) as (c & Hc & _)%live_spec. rewrite Hc, (Hheld p c Hc). lia. }
  assert (u ∈ live s /\ (u ∈ G -> kept s u)) as [_ H]; [|by apply H]. clear Hu. induction Hx as [_|v w Hx [Hv IH] Hw _].
  - split; [done|]. intros HuG. apply Href; [done|]. pose proof (indeg_mono (edges s) G (live s) e HGD). lia.
  - split; [by eapply live_closed|]. intros HwG. destruct (decide (v ∈ G)) as [HvG|HvG].
    + destruct (IH HvG) as (k & Hk & Hkv). exists k. split; [done|]. by eapply reach_step.
    + apply Href; [done|]. assert (0 <= held w) as Hh.
      { pose proof (HGD w HwG) as (c & Hc & _)%live_spec. pose proof (ok_count s Hok w c Hc). rewrite (Hheld w c Hc) in *. lia. }
      pose proof (indeg_mono (edges s) ({[v]} ∪ G) (live s) w) as Hm. rewrite indeg_union, indeg_singleton in Hm by set_solver.
      pose proof (proj2 (cnt_pos (edges s v) w) Hw). assert ({[v]} ∪ G ⊆ live s) as Hs by set_solver. specialize (Hm Hs). lia.
Qed.

(** C16: under the same conditions (a well-formed state with small counts, in
    which all that garbage leads to is garbage and may be queued) a run is
    sound and complete with respect to the references from outside: if [held]
    counts the references to a value from variables, properties of permanent
    objects, tasks and the queue, so that each count is the references held
    and those from other live values, then no value that is held leads to an
    object that the run queues; and an anonymous candidate that it does not
    queue is in the queue already or is led to by a candidate with more
    references than candidates have edges to it. *)
Theorem gc_collect_sound s (held : positive -> Z) :
  gc_ok s -> gc_small s -> counted s held -> (forall u, taken s u -> garbage s u) -> (forall p, garbage s p -> recyclable s p) ->
  exists s', gc_collect s = Some (tt, s') /\
    (forall p, p ∈ queue s' -> p ∉ queue s -> forall e, e ∈ live s -> 0 < held e -> ~ leads_to s e p) /\
    (forall p, candidate s p -> is_anon (heap s) p = true -> p ∉ queue s' -> kept s p).
Proof.
  intros Hok Hsm Hh Hex Hrec. destruct (gc_collect_only_garbage s Hok Hsm Hex Hrec) as (s' & Hs & _ & _ & Hq & _).
  exists s'. split; [done|]. split.
  - intros p [?|[Hg _]]%Hq Hn; [done|]. by eapply garbage_unreachable.
  - intros p Hc Ha Hn. destruct (kept_or_garbage s Hok Hsm p Hc) as [|Hg]; [done|]. destruct Hn. apply Hq. by right.
Qed.



(** What a run takes can be in use.  An object that refers to itself is
    garbage, and refers to an object that has a reference from outside: the
    collector queues both to be recycled, and leaves the list in the second
    one with a count of 2 for its one reference.  ([cb_scan_white] goes on
    from any value that is not pink, the black ones that [scan_black] has
    restored included.) *)
Theorem gc_takes_referenced :
  gc_ok ex_held /\ gc_small ex_held /\ referenced ex_held 2 /\
  exists s' c, gc_collect ex_held = Some (tt, s') /\ queue s' = [1%positive; 2%positive] /\ indeg (edges ex_held) (live ex_held) 3 = 1 /\
    heap s' !! 3%positive = Some c /\ refs c = 2.
Proof.
  destruct ex_held_ok as [Hok Hsm]. split; [done|]. split; [done|]. split.
  - exists {[1%positive; 2%positive; 3%positive]}, (mk_cell (ANON false false [VRef 3]) GC_BLACK false 2). split_and!.
    + intros x. symmetry. revert x. apply candidates_are; [|vm_compute; exact eq_refl]. intros x Hx. exists 1%positive. split.
      * split; [left|]. eexists. split; [vm_compute; exact eq_refl|exact eq_refl].
      * assert (leads_to ex_held 1 2) as H2 by (apply edge_to; vm_compute; exact eq_refl).
        rewrite !elem_of_union, !elem_of_singleton in Hx. destruct Hx as [[->| ->]| ->]; [by apply reach_refl|done|].
        eapply reach_trans; [exact H2|]. apply edge_to. vm_compute. exact eq_refl.
    + by apply elem_of_union_l, elem_of_union_r, elem_of_singleton.
    + vm_compute. exact eq_refl.
    + vm_compute. exact eq_refl.
  - destruct (gc_collect ex_held) as [[[] s']|] eqn:Hs; [|by vm_compute in Hs]. exists s'. vm_compute in Hs. injection Hs as <-.
    eexists. split; [exact eq_refl|]. split; [exact eq_refl|]. split; [vm_compute; exact eq_refl|]. split; [vm_compute; exact eq_refl|exact eq_refl].
Qed.

(** An object that has been recycled and is in a piece of garbage: the
    assertion of [queue_anonymous_object] fails. *)
Definition ex_recycled (b : bool) : gcst :=
  mk_gcst (list_to_map [
    (1%positive, mk_cell (ANON false false [VRef 1; VRef 2]) GC_PURPLE true 1);
    (2%positive, mk_cell (ANON b b []) GC_BLACK false 1)]) [1%positive] 1 true [] 0.
Lemma gc_asserts_recycled :
  gc_okb (ex_recycled true) = true /\ gc_collect (ex_recycled true) = None /\ is_Some (gc_collect (ex_recycled false)).
Proof. split_and!; [vm_compute; exact eq_refl..|]. vm_compute. eauto. Qed.

(** ** Witnesses *)

Lemma gc_collect_correct_witness :
  gc_ok ex_cycle /\ gc_small ex_cycle /\ roots ex_cycle <> [] /\ (forall p, taken ex_cycle p -> recyclable ex_cycle p) /\
  exists s', gc_collect ex_cycle = Some (tt, s') /\ roots s' = [] /\ 1%positive ∈ queue s'.
Proof.
  assert (forall p, taken ex_cycle p -> recyclable ex_cycle p) as Hr by (intros p Hp; by apply ex_cycle_recyclable, ex_cycle_taken).
  destruct ex_cycle_ok as [Hok Hsm]. assert (roots ex_cycle <> []) as Hne by discriminate. do 4 (split; [done|]).
  destruct (gc_collect_correct ex_cycle Hok Hsm Hne Hr) as (G & W & P & Q & s' & _ & _ & _ & Hs & H1 & _ & _ & H2 & _ & H3 & _).
  exists s'. split; [done|]. split; [done|]. rewrite H2. apply elem_of_app. left. apply H3. split; [|vm_compute; exact eq_refl].
  apply garbage_taken, ex_cycle_garbage. by apply elem_of_union_l, elem_of_singleton.
Defined.

Lemma gc_collect_exact_witness :
  (forall u, taken ex_cycle u -> garbage ex_cycle u) /\ exists s', gc_collect ex_cycle = Some (tt, s') /\ gc_ok s' /\
  (forall p, p ∈ queue s' <-> p = 3%positive \/ p = 1%positive).
Proof.
  assert (forall u, taken ex_cycle u -> garbage ex_cycle u) as Hx by (intros u Hu; by apply ex_cycle_garbage, ex_cycle_taken). split; [done|].
  destruct ex_cycle_ok as [Hok Hsm].
  destruct (gc_collect_exact ex_cycle Hok Hsm Hx (fun p Hp => ex_cycle_recyclable p (proj1 (ex_cycle_candidates p) (proj1 Hp)))) as (s' & Hs & Ho & _ & Hq & _).
  exists s'. split; [done|]. split; [done|]. intros p. rewrite Hq. change (queue ex_cycle) with [3%positive]. rewrite list_elem_of_singleton.
  split; intros [->|Hp]; [by left| |by left|right].
  - destruct Hp as [[Hp%ex_cycle_candidates _] Ha]. unfold ex_pair in Hp.
    apply elem_of_union in Hp as [->%elem_of_singleton| ->%elem_of_singleton]; [by right|by vm_compute in Ha].
  - subst p. split; [|vm_compute; exact eq_refl]. apply ex_cycle_garbage. by apply elem_of_union_l, elem_of_singleton.
Defined.

Lemma gc_collect_sound_witness :
  exists s', gc_collect ex_cycle = Some (tt, s') /\ (1%positive ∈ queue s' -> ~ leads_to ex_cycle 3 1).
Proof.
  destruct ex_cycle_ok as [Hok Hsm].
  set (held := fun p => if bool_decide (p = 3%positive \/ p = 4%positive) then 1 else 0).
  assert (map_Forall (fun p c => refs c = held p + indeg (edges ex_cycle) (live ex_cycle) p) (heap ex_cycle)) as Hh
    by (apply (bool_decide_unpack _); vm_compute; exact I).
  assert (3%positive ∈ live ex_cycle) as H3 by (apply (bool_decide_unpack _); vm_compute; exact I).
  destruct (gc_collect_sound ex_cycle held Hok Hsm Hh (fun u Hu => ex_cycle_garbage u (ex_cycle_taken u Hu))
    (fun p Hp => ex_cycle_recyclable p (proj1 (ex_cycle_candidates p) (proj1 Hp)))) as (s' & Hs & Hq & _).
  exists s'. split; [done|]. intros H1. apply (Hq 1%positive H1); [by intros [=]%list_elem_of_singleton|done|vm_compute; exact eq_refl].
Defined.

