(* ===== verification/DbCode.v ===== *)
(** * Database files (db_io.cc, db_file.cc): reading and writing

    The text of values and of objects in the current format of the database
    file.  What is written is appended to a string; an anonymous object gets a
    number the first time it is written.  What is read comes from a string;
    the object for such a number is allocated the first time it is read.
    [None] is the end of the file, where the code goes on with what its buffer
    held, an access out of bounds, or fuel that ran out.  What is not in
    these files is in [DbioEnv]. *)
From Stdlib Require Import ZArith Lia.
From stdpp Require Import prelude gmap strings.
From S2P Require Import Prelude CString Value RBOrder MooMap Streams NumCode Numbers PropCode.

Local Open Scope Z_scope.
Local Open Scope moo_scope.

(** ** Data *)

(** [Verbdef], without its program, and [Object] (db_private.h) *)
Record file_verb := mk_file_verb { fv_name : bytes; fv_owner : Z; fv_perms : Z; fv_prep : Z }.
Record file_object := mk_file_object {
  fo_name : bytes; fo_flags : Z; fo_owner : Z;
  fo_location : Var; fo_last_move : Var; fo_contents : Var; fo_parents : Var; fo_children : Var;
  fo_verbs : list file_verb; fo_propdefs : list Propdef; fo_propvals : list Pval }.

(** Writing: what has been written, the table of objects, [o->id] of the
    anonymous objects that have a number, and [num_objects] *)
Record wst := mk_wst { out : bytes; w_objects : gmap Z positive; w_ids : gmap positive Z; w_num : Z }.
(** Reading: the rest of the file, the table, the objects ([None]: allocated
    and not filled in), [num_objects], and the map of anonymous objects *)
Record rst := mk_rst { inp : bytes; r_objects : gmap Z positive; r_mem : gmap positive (option file_object); r_num : Z; r_anons : gmap Z (gset positive) }.

Definition set_inp (s : bytes) (r : rst) : rst := mk_rst s (r_objects r) (r_mem r) (r_num r) (r_anons r).

Definition NOTHING : Z := -1.
Definition TYPE_DB_MASK : Z := 127.
Definition DBV_Last_Move : Z := 15.
Definition error_of (n : Z) : option error := find (fun e => error_code e =? n)
  [E_NONE; E_TYPE; E_DIV; E_PERM; E_PROPNF; E_VERBNF; E_VARNF; E_INVIND; E_RECMOVE; E_MAXREC; E_RANGE; E_ARGS; E_NACC; E_INVARG; E_QUOTA; E_FLOAT; E_FILE; E_EXEC; E_INTRPT].

Definition to_short (z : Z) : Z := wrapS 16 z.

(** [m] [n] times *)
Fixpoint times {S A} (n : nat) (m : M S A) : M S (list A) :=
  match n with O => mreturn [] | S n => let! x := m in let! l := times n m in mreturn (x :: l) end.
Fixpoint each {S A} (f : A -> M S unit) (l : list A) : M S unit :=
  match l with [] => mreturn tt | x :: l => f x ;; each f l end.

(** ** Lines and numbers (stdio) *)

Fixpoint line (n : nat) (s : bytes) : bytes * bytes :=
  match n, s with
  | O, _ | _, [] => ([], s)
  | S n, c :: s => if c =? 10 then ([10], s) else let '(l, r) := line n s in (c :: l, r)
  end.
Definition fgets (n : nat) : M rst bytes := fun r =>
  match inp r with [] => None | s => let '(l, s') := line (n - 1) s in Some (c_string l, set_inp s' r) end.

(** [scanf] of a character, of [%lld], and of white space; [None]: no match *)
Definition scan_char (c : Z) : M rst (option unit) := fun r =>
  match inp r with x :: s => if x =? c then Some (Some tt, set_inp s r) else Some (None, r) | [] => Some (None, r) end.
Definition scan_num : M rst (option Z) := fun r =>
  let '(i, s) := strtoimax (inp r) in
  if decide (s = inp r) then Some (None, r) else Some (Some i, set_inp s r).
Definition scan_space : M rst unit := fun r => Some (tt, set_inp (skip_white (inp r)) r).

(** What is not under src/, and what other parts of the server do: [%.19g] and
    [strtod], the number that is written for an error (its union holds 64
    bits), waifs, the value of an iterator, the validity of an anonymous
    object, and the settings of the load *)
Class DbioEnv := {
  print_float : double -> bytes;
  strtod : bytes -> double * bytes;
  err_num : error -> Z;
  read_waif : M rst Var;
  write_waif : positive -> M wst unit;
  iterget : positive -> option Var;
  anon_valid : positive -> bool;
  waif_conversion_type : Z;
  dbio_input_version : Z;
  clear_last_move : bool }.

Section io.
Context `{Env : DbioEnv}.

(** ** Reading values (db_io.cc) *)

Definition dbio_read_num : M rst Z := let! s := fgets 22 in mreturn (strtoimax s).1.
Definition dbio_read_float : M rst double := let! s := fgets 40 in mreturn (strtod s).1.
Definition dbio_read_objid : M rst Z := dbio_read_num.
(** The number of elements for which memory is allocated next *)
Definition read_size : M rst nat := let! n := dbio_read_num in if to_int n <? 0 then mfail else mreturn (Z.to_nat (to_int n)).

(** The end of a line that is too long for the buffer follows in the next
    ones; [str] is what the stream holds. *)
Fixpoint read_string_loop (fuel : nat) (str : bytes) : M rst bytes :=
  match fuel with
  | O => mfail
  | S fuel =>
    let! buffer := fgets 1024 in
    match last buffer with
    | None => mfail
    | Some c =>
      if (length buffer =? 1023)%nat && negb (c =? 10) then read_string_loop fuel (str ++ buffer)
      else mreturn (str ++ (if c =? 10 then take (length buffer - 1) buffer else buffer))
    end
  end.
Definition dbio_read_string : M rst bytes := fun r => read_string_loop (S (length (inp r))) [] r.

(** [ensure_new_object] only grows the table. *)
Definition dbpriv_new_anonymous_object (oid : Z) : M rst positive := fun r =>
  let o := fresh (dom (r_mem r)) in
  Some (o, mk_rst (inp r) (<[oid := o]> (r_objects r)) (<[o := None]> (r_mem r)) (r_num r) (r_anons r)).
Definition db_read_anonymous : M rst Var :=
  let! n := dbio_read_num in
  let oid := to_int n in
  if oid =? NOTHING then mreturn (VAnon None)
  else if oid <? 0 then mfail
  else fun r => match r_objects r !! oid with
                | Some o => Some (VAnon (Some o), r)
                | None => (let! o := dbpriv_new_anonymous_object oid in mreturn (VAnon (Some o))) r
                end.

Fixpoint dbio_read_var (fuel : nat) : M rst Var :=
  match fuel with
  | O => mfail
  | S fuel =>
    let! n := dbio_read_num in
    let l := to_int n in
    if (l =? waif_conversion_type) && negb (waif_conversion_type =? Z.land TYPE_WAIF TYPE_DB_MASK) then read_waif
    else
      let l := if (l =? -1) && (dbio_input_version =? 0) then TYPE_NONE else l in
      if l =? TYPE_CLEAR then mreturn VClear
      else if l =? TYPE_NONE then mreturn VNone
      else if l =? Z.land TYPE_STR TYPE_DB_MASK then let! s := dbio_read_string in mreturn (VStr s)
      else if l =? TYPE_OBJ then let! n := dbio_read_num in mreturn (VObj n)
      else if l =? TYPE_ERR then let! n := dbio_read_num in match error_of (to_int n) with Some e => mreturn (VErr e) | None => mfail end
      else if l =? TYPE_INT then let! n := dbio_read_num in mreturn (VInt n)
      else if l =? TYPE_CATCH then let! n := dbio_read_num in mreturn (VCatch n)
      else if l =? TYPE_FINALLY then let! n := dbio_read_num in mreturn (VFinally n)
      else if l =? TYPE_FLOAT then let! d := dbio_read_float in mreturn (VFloat d)
      else if l =? Z.land TYPE_MAP TYPE_DB_MASK then
        let! n := dbio_read_num in
        let! l := times (Z.to_nat (to_int n)) (let! key := dbio_read_var fuel in let! value := dbio_read_var fuel in mreturn (key, value)) in
        if forallb (fun kv => map_valid_key kv.1) l then mreturn (VMap (fold_left (fun m kv => aput compare_key kv.1 kv.2 m) l [])) else mfail
      else if l =? Z.land TYPE_LIST TYPE_DB_MASK then
        let! n := read_size in let! l := times n (dbio_read_var fuel) in mreturn (VList l)
      else if l =? Z.land TYPE_ITER TYPE_DB_MASK then dbio_read_var fuel
      else if l =? Z.land TYPE_ANON TYPE_DB_MASK then db_read_anonymous
      else if l =? Z.land TYPE_WAIF TYPE_DB_MASK then read_waif
      else if l =? TYPE_BOOL then let! n := dbio_read_num in mreturn (VBool (negb (n =? 0)))
      else mreturn (VInt 0)
  end.
(** A value is in more bytes than it has levels. *)
Definition read_var : M rst Var := fun r => dbio_read_var (S (length (inp r))) r.

(** ** Writing values (db_io.cc) *)

Definition dbio_printf (s : bytes) : M wst unit := fun w => Some (tt, mk_wst (out w ++ s) (w_objects w) (w_ids w) (w_num w)).
Definition dbio_write_num (n : Z) : M wst unit := dbio_printf (decimal n ++ [10]).
Definition dbio_write_float (d : double) : M wst unit := dbio_printf (print_float d ++ [10]).
Definition dbio_write_objid (n : Z) : M wst unit := dbio_write_num n.
Definition dbio_write_string (s : bytes) : M wst unit := dbio_printf (s ++ [10]).

Definition number_anonymous (o : positive) : M wst Z := fun w =>
  match w_ids w !! o with
  | Some id => Some (id, w)
  | None => Some (w_num w, mk_wst (out w) (<[w_num w := o]> (w_objects w)) (<[o := w_num w]> (w_ids w)) (w_num w + 1))
  end.
Definition db_write_anonymous (a : option positive) : M wst unit :=
  match a with
  | Some o => if anon_valid o then let! oid := number_anonymous o in dbio_write_num oid else dbio_write_num NOTHING
  | None => dbio_write_num NOTHING
  end.

Fixpoint dbio_write_var (fuel : nat) (v : Var) : M wst unit :=
  match fuel with
  | O => mfail
  | S fuel =>
    match v with
    | VIter it => dbio_write_var fuel (default VClear (iterget it))
    | _ =>
      dbio_write_num (Z.land (type_of v) TYPE_DB_MASK) ;;
      match v with
      | VClear | VNone => mreturn tt
      | VStr s => dbio_write_string s
      | VObj n | VInt n | VCatch n | VFinally n => dbio_write_num n
      | VErr e => dbio_write_num (err_num e)
      | VFloat d => dbio_write_float d
      | VMap m => dbio_write_num (Z.of_nat (length m)) ;; each (fun kv => dbio_write_var fuel kv.1 ;; dbio_write_var fuel kv.2) m
      | VList l => dbio_write_num (Z.of_nat (length l)) ;; each (dbio_write_var fuel) l
      | VAnon a => db_write_anonymous a
      | VWaif o => write_waif o
      | VBool b => dbio_write_num (Z.b2z b)
      | VIter _ => mreturn tt
      end
    end
  end.
(** The levels of a value *)
Fixpoint value_depth (v : Var) : nat :=
  match v with
  | VList l => S ((fix go l := match l with [] => O | x :: l => max (value_depth x) (go l) end) l)
  | VMap m => S ((fix go m := match m with [] => O | (k, x) :: m => max (value_depth k) (max (value_depth x) (go m)) end) m)
  | _ => 1
  end.
Definition write_var (v : Var) : M wst unit := dbio_write_var (S (value_depth v)) v.

(** ** Verbs, properties and objects (db_file.cc) *)

Definition read_verbdef : M rst file_verb :=
  let! name := dbio_read_string in
  let! owner := dbio_read_objid in
  let! perms := dbio_read_num in
  let! prep := dbio_read_num in
  mreturn (mk_file_verb name owner (to_short perms) (to_short prep)).
Definition write_verbdef (v : file_verb) : M wst unit :=
  dbio_write_string (fv_name v) ;; dbio_write_objid (fv_owner v) ;; dbio_write_num (fv_perms v) ;; dbio_write_num (fv_prep v).

Definition read_propdef : M rst Propdef := let! name := dbio_read_string in mreturn (dbpriv_new_propdef name).
Definition write_propdef (p : Propdef) : M wst unit := dbio_write_string (pd_name p).

Definition read_propval : M rst Pval :=
  let! var := read_var in
  let! owner := dbio_read_objid in
  let! perms := dbio_read_num in
  mreturn (mk_Pval var owner (to_short perms)).
Definition write_propval (p : Pval) : M wst unit := write_var (pv_var p) ;; dbio_write_objid (pv_owner p) ;; dbio_write_num (pv_perms p).

Definition dbpriv_new_object : M rst positive := fun r =>
  let o := fresh (dom (r_mem r)) in
  Some (o, mk_rst (inp r) (<[r_num r := o]> (r_objects r)) (<[o := None]> (r_mem r)) (r_num r + 1) (r_anons r)).
Definition dbpriv_new_recycled_object : M rst unit := fun r => Some (tt, mk_rst (inp r) (r_objects r) (r_mem r) (r_num r + 1) (r_anons r)).
Definition dbpriv_add_anon (parent : Z) (o : positive) : M rst unit := fun r =>
  Some (tt, mk_rst (inp r) (r_objects r) (r_mem r) (r_num r) (<[parent := {[o]} ∪ default ∅ (r_anons r !! parent)]> (r_anons r))).
Definition fill_object (o : positive) (x : file_object) : M rst unit := fun r =>
  Some (tt, mk_rst (inp r) (r_objects r) (<[o := Some x]> (r_mem r)) (r_num r) (r_anons r)).
Definition find_object (oid : Z) : M rst (option positive) := fun r => Some (if oid <? 0 then None else r_objects r !! oid, r).

(** The parents of an anonymous object that has just been read *)
Definition add_anon_to (o : positive) (parent : Z) : M rst unit :=
  let! p := find_object parent in match p with Some _ => dbpriv_add_anon parent o | None => mreturn tt end.
Definition add_anon (o : positive) (parents : Var) : M rst unit :=
  match parents with
  | VObj p => add_anon_to o p
  | VList l => each (fun v => match v with VObj p => add_anon_to o p | _ => mreturn tt end) l
  | _ => mreturn tt
  end.

(** The fields of an object; an anonymous one is entered in the map of its
    parents as soon as these are read. *)
Definition read_fields (anonymous : option positive) : M rst file_object :=
  let! name := dbio_read_string in
  let! flags := dbio_read_num in
  let! owner := dbio_read_objid in
  let! location := read_var in
  let! last_move := if DBV_Last_Move <=? dbio_input_version then
                      let! v := read_var in mreturn (if clear_last_move then VInt 0 else v)
                    else mreturn (VMap []) in
  let! contents := read_var in
  let! parents := read_var in
  (match anonymous with Some o => add_anon o parents | None => mreturn tt end) ;;
  let! children := read_var in
  let! nverbs := dbio_read_num in
  let! verbs := times (Z.to_nat (to_int nverbs)) read_verbdef in
  let! ndefs := read_size in
  let! defs := times ndefs read_propdef in
  let! nvals := read_size in
  let! vals := times nvals read_propval in
  mreturn (mk_file_object name (to_int flags) owner location last_move contents parents children verbs defs vals).

Definition ng_read_object (anonymous : bool) : M rst bool :=
  let! h := scan_char 35 in
  match h with
  | None => mreturn false
  | Some _ =>
    let! oid := scan_num in
    match oid with
    | None => mreturn false
    | Some oid =>
      let! s := fgets 20 in
      if decide (s = str " recycled" ++ [10]) then dbpriv_new_recycled_object ;; mreturn true
      else if decide (s = [10]) then
        if anonymous then
          let! o := find_object oid in
          match o with
          | Some o => let! x := read_fields (Some o) in fill_object o x ;; mreturn true
          | None => mfail
          end
        else let! o := dbpriv_new_object in let! x := read_fields None in fill_object o x ;; mreturn true
      else mreturn false
    end
  end.

Definition valid_slot (oid : Z) : M wst (option positive) := fun w => Some (if oid <? 0 then None else w_objects w !! oid, w).

(** [write_object] of the object at [oid], whose fields are given by
    [fields]; writing does not change them *)
Definition write_fields (o : file_object) : M wst unit :=
  dbio_write_string (fo_name o) ;;
  dbio_write_num (fo_flags o) ;;
  dbio_write_objid (fo_owner o) ;;
  write_var (fo_location o) ;;
  write_var (fo_last_move o) ;;
  write_var (fo_contents o) ;;
  write_var (fo_parents o) ;;
  write_var (fo_children o) ;;
  dbio_write_num (Z.of_nat (length (fo_verbs o))) ;;
  each write_verbdef (fo_verbs o) ;;
  dbio_write_num (Z.of_nat (length (fo_propdefs o))) ;;
  each write_propdef (fo_propdefs o) ;;
  dbio_write_num (Z.of_nat (length (fo_propvals o))) ;;
  each write_propval (fo_propvals o).

Definition ng_write_object (fields : positive -> file_object) (oid : Z) : M wst unit :=
  let! o := valid_slot oid in
  match o with
  | None => dbio_printf ([35; 32] ++ decimal oid ++ str " recycled" ++ [10])
  | Some o => dbio_printf (35 :: decimal oid ++ [10]) ;; write_fields (fields o)
  end.

(** ** The objects of a database *)

(** [#oid] from [first], [n] of them *)
Fixpoint write_range (fields : positive -> file_object) (first : Z) (n : nat) : M wst unit :=
  match n with O => mreturn tt | S n => ng_write_object fields first ;; write_range fields (first + 1) n end.
Fixpoint write_objects (fields : positive -> file_object) (fuel : nat) (last_oid max_oid : Z) : M wst unit :=
  if max_oid <? last_oid then
    match fuel with
    | O => mfail
    | S fuel =>
      dbio_write_num (last_oid - max_oid) ;;
      write_range fields (max_oid + 1) (Z.to_nat (last_oid - max_oid)) ;;
      fun w => write_objects fields fuel (w_num w - 1) last_oid w
    end
  else dbio_write_num 0.

(** [scanf] of [%lld] and a line feed *)
Definition scan_count : M rst (option Z) := let! n := scan_num in match n with Some n => scan_space ;; mreturn (Some n) | None => mreturn None end.
Fixpoint read_range (anonymous : bool) (n : nat) : M rst bool :=
  match n with
  | O => mreturn true
  | S n => let! ok := ng_read_object anonymous in if ok : bool then read_range anonymous n else mreturn false
  end.
Fixpoint read_anonymous (fuel : nat) : M rst bool :=
  match fuel with
  | O => mfail
  | S fuel =>
    let! n := scan_count in
    match n with
    | None => mreturn false
    | Some n => if n =? 0 then mreturn true
                else let! ok := read_range true (Z.to_nat n) in if ok : bool then read_anonymous fuel else mreturn false
    end
  end.
Definition read_objects (fuel : nat) : M rst bool :=
  let! n := scan_count in
  match n with
  | None => mreturn false
  | Some n => let! ok := read_range false (Z.to_nat n) in if ok : bool then read_anonymous fuel else mreturn false
  end.
End io.
