(* ===== verification/DbIO.v ===== *)
(** * Database files: what is written is read back

    Lines and numbers; [Writes] and [Reads], what a computation writes given
    the numbers of the anonymous objects and what it reads given the table of
    objects, with the rules that compose them; values, objects, and the
    objects of a database. *)
From Stdlib Require Import ZArith Lia Sorted.
From stdpp Require Import prelude gmap strings.
From S2P Require Import Prelude CString Value RBOrder MooMap Streams NumCode Numbers PropCode DbCode.

Local Open Scope Z_scope.
Local Open Scope moo_scope.

(** ** Lines *)

Definition line_ok (s : bytes) : Prop := Forall (fun c => 0 < c < 256 /\ c <> 10) s.
Definition num_ok (z : Z) : Prop := - 2 ^ 63 <= z < 2 ^ 63.
Definition text (z : Z) : bytes := decimal z ++ [10].

Lemma line_short n s rest : line_ok s -> (length s < n)%nat -> line n (s ++ 10 :: rest) = (s ++ [10], rest).
Proof.
  intros Hs. revert n. induction Hs as [|c s [Hc Hn] _ IH]; intros [|n] H; cbn [length] in H; try lia; cbn [app line].
  - done.
  - rewrite (proj2 (Z.eqb_neq c 10) Hn), IH by lia. done.
Qed.
Lemma line_long n s rest : line_ok s -> (n <= length s)%nat -> line n (s ++ 10 :: rest) = (take n s, drop n s ++ 10 :: rest).
Proof.
  intros Hs. revert n. induction Hs as [|c s [Hc Hn] _ IH]; intros [|n] H; cbn [length] in H; try lia; cbn [app line]; try done.
  rewrite (proj2 (Z.eqb_neq c 10) Hn), IH by lia. done.
Qed.
Lemma c_string_id s : Forall (fun c => c <> 0) s -> c_string s = s.
Proof. induction 1 as [|c s Hc _ IH]; [done|]. cbn. by rewrite (proj2 (Z.eqb_neq c 0) Hc), IH. Qed.
Lemma line_ok_nonzero s : line_ok s -> Forall (fun c => c <> 0) (s ++ [10]).
Proof. intros H. apply Forall_app. split; [|by repeat constructor]. eapply Forall_impl; [exact H|]. cbn. lia. Qed.
Lemma line_ok_take n s : line_ok s -> line_ok (take n s).
Proof. apply Forall_take. Qed.
Lemma line_ok_drop n s : line_ok s -> line_ok (drop n s).
Proof. apply Forall_drop. Qed.

Lemma set_inp_twice s t r : set_inp s (set_inp t r) = set_inp s r.
Proof. done. Qed.

Lemma fgets_short n r s rest : inp r = s ++ 10 :: rest -> line_ok s -> (S (length s) < n)%nat -> fgets n r = Some (s ++ [10], set_inp rest r).
Proof.
  intros Hi Hs Hn. unfold fgets. rewrite Hi. destruct (s ++ 10 :: rest) eqn:E; [by destruct s|]. rewrite <- E, line_short by (done || lia).
  by rewrite c_string_id by by apply line_ok_nonzero.
Qed.
Lemma fgets_long n r s rest : inp r = s ++ 10 :: rest -> line_ok s -> (n - 1 <= length s)%nat -> fgets n r = Some (take (n - 1) s, set_inp (drop (n - 1) s ++ 10 :: rest) r).
Proof.
  intros Hi Hs Hn. unfold fgets. rewrite Hi. destruct (s ++ 10 :: rest) eqn:E; [by destruct s|]. rewrite <- E, line_long by done.
  rewrite c_string_id; [done|]. apply line_ok_take with (n := (n - 1)%nat) in Hs. eapply Forall_impl; [exact Hs|]. cbn. lia.
Qed.

(** ** Numbers *)

Lemma digits_length fuel : forall n k, 0 <= n -> n < 10 ^ Z.of_nat k -> (0 < k)%nat -> (length (digits fuel n) <= k)%nat.
Proof.
  induction fuel as [|fuel IH]; intros n k H0 Hn Hk; [cbn; lia|]. cbn [digits]. destruct (Z.ltb_spec n 10); [cbn; lia|].
  rewrite length_app. cbn [length]. destruct k as [|[|k]]; [lia|cbn in Hn; lia|]. rewrite Nat2Z.inj_succ, Z.pow_succ_r in Hn by lia.
  assert (length (digits fuel (n / 10)) <= S k)%nat; [|lia]. apply IH; [by apply Z.div_pos|apply Z.div_lt_upper_bound; lia|lia].
Qed.
Lemma decimal_length z : num_ok z -> (length (decimal z) <= 20)%nat.
Proof.
  intros Hz. unfold num_ok in Hz. unfold decimal. destruct (Z.ltb_spec z 0) as [H|H]; cbn [length].
  - assert (length (digits (digit_fuel (- z)) (- z)) <= 19)%nat; [|lia]. apply digits_length; [lia| |lia]. change (10 ^ Z.of_nat 19) with 10000000000000000000. lia.
  - etransitivity; [|by instantiate (1 := 19%nat); lia]. apply digits_length; [lia| |lia]. change (10 ^ Z.of_nat 19) with 10000000000000000000. lia.
Qed.
Lemma decimal_digit z : Forall (fun c => c = 45 \/ isdigit c = true) (decimal z).
Proof.
  destruct (decimal_eq z) as (l & -> & Hl & _). apply Forall_app. split; [destruct (z <? 0); [by constructor; [left|]|constructor]|].
  eapply Forall_impl; [exact Hl|]. intros c Hc. by right.
Qed.
Lemma decimal_line z : line_ok (decimal z).
Proof. eapply Forall_impl; [apply decimal_digit|]. intros c [->|H]; [lia|]. unfold isdigit in H. lia. Qed.
Lemma strtoimax_decimal ws z rest : Forall (fun c => isspace c = true) ws -> num_ok z -> match rest with c :: _ => isdigit c = false | [] => True end -> strtoimax (ws ++ decimal z ++ rest) = (z, rest).
Proof.
  intros Hw Hz Hr. destruct (decimal_eq z) as (l & -> & Hl & Hne & Hs). rewrite <- app_assoc.
  pose proof (strtoimax_sign ws (z <? 0) l rest Hw Hl Hne Hr) as E. rewrite E, Hs. f_equal.
  unfold clamp, num_ok in *. lia.
Qed.
Lemma decimal_nonempty z : decimal z <> [].
Proof. destruct (decimal_eq z) as (l & -> & _ & Hne & _). intros [_ ?]%app_eq_nil. done. Qed.

Lemma read_num_ok r z rest : num_ok z -> inp r = text z ++ rest -> dbio_read_num r = Some (z, set_inp rest r).
Proof.
  intros Hz Hi. unfold text in Hi. rewrite <- app_assoc in Hi. pose proof (decimal_length z Hz). unfold dbio_read_num.
  rewrite (mbind_Some _ _ _ _ _ (fgets_short 22 r (decimal z) rest Hi (decimal_line z) ltac:(lia))).
  pose proof (strtoimax_decimal [] z [10] (Forall_nil_2 _) Hz eq_refl) as E. cbn [app] in E. by rewrite E.
Qed.
Lemma scan_num_ok ws r z rest : Forall (fun c => isspace c = true) ws -> num_ok z -> match rest with c :: _ => isdigit c = false | [] => True end ->
  inp r = ws ++ decimal z ++ rest -> scan_num r = Some (Some z, set_inp rest r).
Proof.
  intros Hw Hz Hr Hi. unfold scan_num. rewrite Hi, strtoimax_decimal by done. rewrite decide_False; [done|].
  intros E%(f_equal length). rewrite !length_app in E. pose proof (decimal_nonempty z). destruct (decimal z); [done|]. cbn in E. lia.
Qed.
Lemma scan_count_ok r z rest : num_ok z -> match rest with c :: _ => isspace c = false | [] => True end -> inp r = text z ++ rest -> scan_count r = Some (Some z, set_inp rest r).
Proof.
  intros Hz Hr Hi. unfold text in Hi. rewrite <- app_assoc in Hi. unfold scan_count. rewrite (mbind_Some _ _ _ _ _ (scan_num_ok [] r z ([10] ++ rest) (Forall_nil_2 _) Hz eq_refl Hi)).
  unfold scan_space, mbindM, mreturn. cbn. destruct rest as [|c rest]; [done|]. cbn. by rewrite Hr.
Qed.

(** ** Strings *)

Lemma read_string_ok fuel : forall r acc s rest, line_ok s -> inp r = s ++ 10 :: rest -> (length s < fuel)%nat ->
  read_string_loop fuel acc r = Some (acc ++ s, set_inp rest r).
Proof.
  induction fuel as [|fuel IH]; intros r acc s rest Hs Hi Hf; [lia|]. cbn [read_string_loop].
  destruct (decide (length s < 1023)%nat) as [Hlt|Hge].
  - rewrite (mbind_Some _ _ _ _ _ (fgets_short 1024 r s rest Hi Hs ltac:(lia))), last_snoc, length_app. cbn [length].
    rewrite Z.eqb_refl, andb_false_r. replace (length s + 1 - 1)%nat with (length s) by lia. by rewrite take_app_length.
  - rewrite (mbind_Some _ _ _ _ _ (fgets_long 1024 r s rest Hi Hs ltac:(lia))). change (1024 - 1)%nat with 1023%nat.
    pose proof (line_ok_take 1023 s Hs) as Ht. assert (length (take 1023 s) = 1023%nat) as Hl by (rewrite length_take; lia).
    destruct (last (take 1023 s)) as [c|] eqn:El; [|apply last_None in El; by rewrite El in Hl].
    apply last_Some in El as [s' El]. assert (c <> 10) as Hc by (rewrite El in Ht; by apply Forall_app in Ht as [_ [[_ ?] _]%Forall_cons]).
    rewrite Hl, (proj2 (Z.eqb_neq c 10) Hc). cbn [negb andb Nat.eqb].
    change ((1023 =? 1023)%nat && true) with true. cbv iota.
    rewrite (IH _ _ (drop 1023 s) rest); [|by apply line_ok_drop|done|rewrite length_drop; lia].
    by rewrite <- app_assoc, take_drop, set_inp_twice.
Qed.
Lemma dbio_read_string_ok r s rest : line_ok s -> inp r = s ++ 10 :: rest -> dbio_read_string r = Some (s, set_inp rest r).
Proof.
  intros Hs Hi. unfold dbio_read_string. apply (read_string_ok _ r [] s rest Hs Hi). rewrite Hi, length_app. lia.
Qed.

(** ** What is written and what is read *)

(** What the round trip relies on: [%.19g] tells the values in [float_ok]
    apart and fits a buffer of 40 bytes; an error is the low half of the number
    that is written for it; the file is in the current format. *)
Class DbioLaws `{DbioEnv} := {
  float_ok : double -> Prop;
  float_read d : float_ok d -> line_ok (print_float d) /\ (length (print_float d) <= 38)%nat /\ (strtod (print_float d ++ [10])).1 = d;
  err_read e : num_ok (err_num e) /\ to_int (err_num e) = error_code e;
  version_read : DBV_Last_Move <= dbio_input_version;
  waif_read : waif_conversion_type = Z.land TYPE_WAIF TYPE_DB_MASK }.

Section io.
Context `{Env : DbioEnv} {Laws : DbioLaws}.

(** The keys of maps, but for anonymous objects: their order is that of their
    addresses *)
Definition plain_key (k : Var) : Prop := match k with VAnon _ | VList _ | VMap _ | VNone | VClear => False | _ => True end.
(** Values that can be written: no waif, no iterator, no line feed *)
Fixpoint storable (v : Var) : Prop :=
  match v with
  | VInt n | VObj n | VCatch n | VFinally n => num_ok n
  | VStr s => line_ok s
  | VFloat d => float_ok d
  | VList l => Z.of_nat (length l) < 2 ^ 31 /\ fold_right (fun x P => storable x /\ P) True l
  | VMap m => Z.of_nat (length m) < 2 ^ 31 /\ StronglySorted (fun x y => compare_key false x.1 y.1 < 0) m /\
              fold_right (fun kv P => (storable kv.1 /\ storable kv.2 /\ plain_key kv.1) /\ P) True m
  | VIter _ | VWaif _ => False
  | _ => True
  end.

(** The text of a value, given the numbers of the anonymous objects *)
Definition anon_text (F : gmap positive Z) (a : option positive) : bytes :=
  text (default NOTHING (a ≫= fun o => if anon_valid o then F !! o else None)).
Fixpoint enc (F : gmap positive Z) (v : Var) : bytes :=
  text (Z.land (type_of v) TYPE_DB_MASK) ++
  match v with
  | VStr s => s ++ [10]
  | VInt n | VObj n | VCatch n | VFinally n => text n
  | VErr e => text (err_num e)
  | VFloat d => print_float d ++ [10]
  | VList l => text (Z.of_nat (length l)) ++ flat_map (enc F) l
  | VMap m => text (Z.of_nat (length m)) ++ flat_map (fun kv => enc F kv.1 ++ enc F kv.2) m
  | VAnon a => anon_text F a
  | VBool b => text (Z.b2z b)
  | _ => []
  end.
(** The valid anonymous objects in a value *)
Fixpoint value_anons (v : Var) : list positive :=
  match v with
  | VAnon (Some o) => if anon_valid o then [o] else []
  | VList l => flat_map value_anons l
  | VMap m => flat_map (fun kv => value_anons kv.1 ++ value_anons kv.2) m
  | _ => []
  end.
(** The value with the objects of a table for its own *)
Definition decode_anon (F : gmap positive Z) (T : gmap Z positive) (a : option positive) : option positive :=
  a ≫= fun o => (if anon_valid o then F !! o else None) ≫= fun i => T !! i.
Fixpoint loaded (F : gmap positive Z) (T : gmap Z positive) (v : Var) : Var :=
  match v with
  | VAnon a => VAnon (decode_anon F T a)
  | VList l => VList (map (loaded F T) l)
  | VMap m => VMap (map (fun kv => (loaded F T kv.1, loaded F T kv.2)) m)
  | v => v
  end.

Lemma fold_and {A} (P : A -> Prop) l : fold_right (fun x Q => P x /\ Q) True l <-> Forall P l.
Proof. induction l as [|x l IH]; cbn; [by split|]. rewrite Forall_cons, IH. done. Qed.
Lemma storable_list l : storable (VList l) <-> Z.of_nat (length l) < 2 ^ 31 /\ Forall storable l.
Proof. cbn. by rewrite (fold_and storable). Qed.
Lemma storable_map m : storable (VMap m) <-> Z.of_nat (length m) < 2 ^ 31 /\ StronglySorted (fun x y => compare_key false x.1 y.1 < 0) m /\
  Forall (fun kv => storable kv.1 /\ storable kv.2 /\ plain_key kv.1) m.
Proof. cbn. by rewrite (fold_and (fun kv : Var * Var => storable kv.1 /\ storable kv.2 /\ plain_key kv.1)). Qed.

Section writes.
Context (N : Z).

Record winv (w : wst) : Prop := {
  wi_ids : forall o i, w_ids w !! o = Some i <-> w_objects w !! i = Some o /\ N <= i;
  wi_range : forall o i, w_ids w !! o = Some i -> i < w_num w;
  wi_keys : forall i, is_Some (w_objects w !! i) -> i < w_num w;
  wi_full : forall i, N <= i < w_num w -> is_Some (w_objects w !! i);
  wi_num : 0 <= N <= w_num w }.
Definition wgrows (w w' : wst) : Prop :=
  w_ids w ⊆ w_ids w' /\ (forall i, i < w_num w -> w_objects w' !! i = w_objects w !! i) /\ w_num w <= w_num w'.

(** [m] numbers the objects of [A] and writes [E]. *)
Definition wrote (m : M wst unit) (w : wst) (A : list positive) (E : gmap positive Z -> bytes) : Prop :=
  exists w' bs, m w = Some (tt, w') /\ winv w' /\ wgrows w w' /\
    (forall o, o ∈ A -> is_Some (w_ids w' !! o)) /\
    (forall o, is_Some (w_ids w' !! o) -> is_Some (w_ids w !! o) \/ o ∈ A) /\
    out w' = out w ++ bs /\ forall F, w_ids w' ⊆ F -> E F = bs.
Definition Writes (m : M wst unit) (A : list positive) (E : gmap positive Z -> bytes) : Prop := forall w, winv w -> wrote m w A E.

Lemma wgrows_refl w : wgrows w w.
Proof. by split_and!. Qed.
Lemma wgrows_trans w w1 w2 : wgrows w w1 -> wgrows w1 w2 -> wgrows w w2.
Proof. intros (? & H & ?) (? & H' & ?). split_and!; [by etransitivity| |lia]. intros i Hi. rewrite H' by lia. by apply H. Qed.

Lemma Writes_ret : Writes (mreturn tt) [] (fun _ => []).
Proof. intros w Hw. exists w, []. rewrite app_nil_r. split_and!; [done|done|apply wgrows_refl|by intros o ?%not_elem_of_nil|by left|done|done]. Qed.
Lemma Writes_print s : Writes (dbio_printf s) [] (fun _ => s).
Proof.
  intros w [H1 H2 H3 H4 H5]. exists (mk_wst (out w ++ s) (w_objects w) (w_ids w) (w_num w)), s.
  split_and!; [done|by split|by split_and!|by intros o ?%not_elem_of_nil|by left|done|done].
Qed.
Lemma wrote_bind m n w A B E G : wrote m w A E -> (forall w', winv w' -> wgrows w w' -> wrote n w' B G) -> wrote (m ;; n) w (A ++ B) (fun F => E F ++ G F).
Proof.
  intros (w1 & bs & H1 & Hw1 & Hg1 & Ha1 & Hb1 & Ho1 & He1) Hn.
  destruct (Hn w1 Hw1 Hg1) as (w2 & cs & H2 & Hw2 & Hg2 & Ha2 & Hb2 & Ho2 & He2). exists w2, (bs ++ cs).
  rewrite (mbind_Some _ _ _ _ _ H1). split_and!; [done|done|by eapply wgrows_trans|..].
  - intros o [Ho|Ho]%elem_of_app; [|by apply Ha2]. destruct (Ha1 o Ho) as [i Hi]. exists i. by eapply lookup_weaken; [|apply Hg2].
  - intros o [Ho|Ho]%Hb2; [|right; set_solver]. apply Hb1 in Ho as [|]; [by left|right; set_solver].
  - by rewrite Ho2, Ho1, app_assoc.
  - intros F HF. rewrite He2 by done. rewrite He1; [done|]. etransitivity; [apply Hg2|done].
Qed.
Lemma Writes_bind m n A B E G : Writes m A E -> Writes n B G -> Writes (m ;; n) (A ++ B) (fun F => E F ++ G F).
Proof. intros Hm Hn w Hw. apply wrote_bind; [by apply Hm|]. intros w' Hw' _. by apply Hn. Qed.
Lemma wrote_ext m w A E B G : wrote m w A E -> (forall o, o ∈ A <-> o ∈ B) -> (forall F, E F = G F) -> wrote m w B G.
Proof.
  intros (w1 & bs & H1 & Hw1 & Hg1 & Ha1 & Hb1 & Ho1 & He1) HA HE. exists w1, bs.
  split_and!; [done..| | |done|].
  - intros o Ho. by apply Ha1, HA.
  - intros o Ho. apply Hb1 in Ho as [|]; [by left|right; by apply HA].
  - intros F HF. rewrite <- HE. by apply He1.
Qed.
Lemma Writes_ext m A E B G : Writes m A E -> (forall o, o ∈ A <-> o ∈ B) -> (forall F, E F = G F) -> Writes m B G.
Proof. intros Hm HA HE w Hw. by apply (wrote_ext m w A E); [apply Hm|..]. Qed.
Lemma Writes_each {X} (f : X -> M wst unit) A E l : (forall x, x ∈ l -> Writes (f x) (A x) (E x)) ->
  Writes (each f l) (flat_map A l) (fun F => flat_map (fun x => E x F) l).
Proof.
  induction l as [|x l IH]; intros H; cbn [each flat_map]; [apply Writes_ret|].
  apply (Writes_bind (f x) (each f l)); [apply H; left|apply IH; intros; apply H; by right].
Qed.
Lemma Writes_num z : Writes (dbio_write_num z) [] (fun _ => text z).
Proof. apply Writes_print. Qed.

Lemma winv_new w : winv w -> w_objects w !! w_num w = None.
Proof. intros [_ _ H _ _]. destruct (w_objects w !! w_num w) eqn:E; [|done]. specialize (H (w_num w) (ex_intro _ _ E)). lia. Qed.
Lemma winv_number w o s : winv w -> w_ids w !! o = None ->
  winv (mk_wst s (<[w_num w := o]> (w_objects w)) (<[o := w_num w]> (w_ids w)) (w_num w + 1)).
Proof.
  intros Hw Ei. pose proof (winv_new w Hw) as Hnew. destruct Hw as [H1 H2 H3 H4 H5]. split; cbn.
  - intros o' i. destruct (decide (o' = o)) as [->|Hne].
    + rewrite lookup_insert_eq. split; [intros [= <-]; rewrite lookup_insert_eq; split; [done|lia]|].
      intros [Hi Hn]. destruct (decide (i = w_num w)) as [->|Hni]; [done|]. rewrite lookup_insert_ne in Hi by done.
      assert (w_ids w !! o = Some i) by (by apply H1). congruence.
    + rewrite lookup_insert_ne by done. rewrite H1. destruct (decide (i = w_num w)) as [->|Hni]; [rewrite lookup_insert_eq, Hnew; naive_solver|].
      by rewrite lookup_insert_ne.
  - intros o' i. intros [[-> <-]|[_ Hi]]%lookup_insert_Some; [lia|]. apply H2 in Hi. lia.
  - intros i. destruct (decide (i = w_num w)) as [->|Hni]; [lia|]. rewrite lookup_insert_ne by done. intros Hi%H3. lia.
  - intros i Hi. destruct (decide (i = w_num w)) as [->|Hni]; [rewrite lookup_insert_eq; by eexists|]. rewrite lookup_insert_ne by done. apply H4. lia.
  - lia.
Qed.
Lemma Writes_anon a : Writes (db_write_anonymous a) (value_anons (VAnon a)) (fun F => anon_text F a).
Proof.
  assert (Writes (dbio_write_num NOTHING) [] (fun _ => text NOTHING)) as Hno by apply Writes_num.
  destruct a as [o|]; [|exact Hno]. cbn [db_write_anonymous value_anons]. unfold anon_text. cbn [mbind option_bind]. destruct (anon_valid o); [|exact Hno].
  intros w Hw. unfold number_anonymous. destruct (w_ids w !! o) as [i|] eqn:Ei.
  - exists (mk_wst (out w ++ text i) (w_objects w) (w_ids w) (w_num w)), (text i). destruct Hw.
    split_and!; [unfold mbindM; by rewrite Ei|by split|by split_and!| |by left|done|].
    + intros o' ->%list_elem_of_singleton. cbn. eauto.
    + intros F HF. cbn in HF. by rewrite (lookup_weaken _ _ _ _ Ei HF).
  - exists (mk_wst (out w ++ text (w_num w)) (<[w_num w := o]> (w_objects w)) (<[o := w_num w]> (w_ids w)) (w_num w + 1)), (text (w_num w)).
    split_and!; [unfold mbindM; by rewrite Ei|by apply winv_number| | | |done|].
    + split_and!; cbn; [by apply insert_subseteq| |lia]. intros i Hi. apply lookup_insert_ne. lia.
    + intros o' ->%list_elem_of_singleton. cbn. rewrite lookup_insert_eq. eauto.
    + intros o' Ho. destruct (decide (o' = o)) as [->|Hne]; [right; by left|]. left. cbn in Ho. by rewrite lookup_insert_ne in Ho.
    + intros F HF. by rewrite (lookup_weaken _ _ o (w_num w) (lookup_insert_eq _ _ _) HF).
Qed.

Lemma Writes_var v : forall fuel, (value_depth v <= fuel)%nat -> storable v -> Writes (dbio_write_var fuel v) (value_anons v) (fun F => enc F v).
Proof.
  induction v as [l IH|m IH|v Hv] using Var_nested_ind; intros fuel Hf Hs.
  - apply storable_list in Hs as [_ Hs]. destruct fuel as [|fuel]; [cbn in Hf; lia|].
    apply (Writes_bind (dbio_write_num _) _ [] _ (fun _ => _) (fun F => text (Z.of_nat (length l)) ++ flat_map (enc F) l)); [apply Writes_num|].
    apply (Writes_bind (dbio_write_num _) _ [] (flat_map value_anons l) (fun _ => _) (fun F => flat_map (enc F) l)); [apply Writes_num|].
    apply (Writes_each (dbio_write_var fuel) value_anons (fun x F => enc F x)). intros x Hx. rewrite Forall_forall in IH, Hs. apply IH; [done| |by apply Hs].
    cbn [value_depth] in Hf. clear - Hf Hx. induction Hx as [x l|x y l Hx IH]; cbn in Hf; [lia|apply IH; cbn; lia].
  - apply storable_map in Hs as (_ & _ & Hs). destruct fuel as [|fuel]; [cbn in Hf; lia|].
    apply (Writes_bind (dbio_write_num _) _ [] _ (fun _ => _) (fun F => text (Z.of_nat (length m)) ++ flat_map (fun kv => enc F kv.1 ++ enc F kv.2) m)); [apply Writes_num|].
    apply (Writes_bind (dbio_write_num _) _ [] (flat_map (fun kv => value_anons kv.1 ++ value_anons kv.2) m) (fun _ => _) (fun F => flat_map (fun kv => enc F kv.1 ++ enc F kv.2) m)); [apply Writes_num|].
    apply (Writes_each (fun kv => dbio_write_var fuel kv.1 ;; dbio_write_var fuel kv.2) (fun kv => value_anons kv.1 ++ value_anons kv.2) (fun kv F => enc F kv.1 ++ enc F kv.2)).
    intros x Hx. rewrite Forall_forall in IH, Hs. destruct (IH x Hx) as [I1 I2], (Hs x Hx) as (S1 & S2 & _).
    assert (value_depth x.1 <= fuel /\ value_depth x.2 <= fuel)%nat as [D1 D2].
    { cbn [value_depth] in Hf. clear - Hf Hx. induction Hx as [[k x] l|x [k y] l Hx IH]; cbn in Hf; [cbn; lia|apply IH; cbn; lia]. }
    apply (Writes_bind (dbio_write_var fuel x.1) (dbio_write_var fuel x.2)); [by apply I1|by apply I2].
  - destruct fuel as [|fuel]; [destruct v; cbn in Hf; lia|].
    destruct v; try done;
      (apply (Writes_bind (dbio_write_num _) _ [] _ (fun _ => _) _); [apply Writes_num|]); try apply Writes_print; try apply Writes_ret.
    apply Writes_anon.
Qed.
End writes.

(** ** What is read *)

Section covered.
Context (F : gmap positive Z).
(** The numbered objects in a value are in the table. *)
Definition covered (T : gmap Z positive) (A : list positive) : Prop := forall o i, o ∈ A -> F !! o = Some i -> is_Some (T !! i).
Lemma covered_app T A B : covered T (A ++ B) <-> covered T A /\ covered T B.
Proof. unfold covered. split; [intros H; split; intros o i Ho; apply H; set_solver|]. intros [H1 H2] o i [Ho|Ho]%elem_of_app; [by apply H1|by apply H2]. Qed.
Lemma covered_nil T : covered T [].
Proof. by intros o i ?%not_elem_of_nil. Qed.
Lemma covered_flat_map {X Y} T (f : X -> list positive) (g : X -> Y -> Prop) l ys :
  Forall2 (fun x y => g x y /\ covered T (f x)) l ys -> covered T (flat_map f l).
Proof. induction 1 as [|x y l ys [_ Hx] _ IH]; [apply covered_nil|]. by apply covered_app. Qed.
End covered.

Section reads.
Context (N : Z) (F : gmap positive Z).
Hypothesis HF : forall o i, F !! o = Some i -> N <= i < 2 ^ 31.

Record rinv (r : rst) : Prop := {
  ri_mem : forall i o, r_objects r !! i = Some o -> is_Some (r_mem r !! o);
  ri_inj : forall i j o, r_objects r !! i = Some o -> r_objects r !! j = Some o -> i = j;
  ri_keys : forall i, is_Some (r_objects r !! i) -> i < r_num r \/ N <= i;
  ri_num : 0 <= r_num r <= N }.
Definition rgrows (r r' : rst) : Prop :=
  r_objects r ⊆ r_objects r' /\ (forall i, i < N -> r_objects r' !! i = r_objects r !! i) /\ r_mem r ⊆ r_mem r' /\ r_num r' = r_num r.
(** [m] reads [bs], and what it gives is in [R] with any table that comes of it. *)
Definition Reads {X} (m : M rst X) (bs : bytes) (R : gmap Z positive -> X -> Prop) : Prop :=
  forall r rest, rinv r -> inp r = bs ++ rest -> exists y r', m r = Some (y, r') /\ inp r' = rest /\ rinv r' /\ rgrows r r' /\
    forall T, r_objects r' ⊆ T -> R T y.

Lemma rgrows_refl r : rgrows r r.
Proof. by split_and!. Qed.
Lemma rgrows_trans r r1 r2 : rgrows r r1 -> rgrows r1 r2 -> rgrows r r2.
Proof. intros (? & H & ? & ?) (? & H' & ? & ?). split_and!; [by etransitivity| |by etransitivity|lia]. intros i Hi. rewrite H' by done. by apply H. Qed.
Lemma rgrows_inp s r : rgrows r (set_inp s r).
Proof. by split_and!. Qed.
Lemma rinv_inp s r : rinv r -> rinv (set_inp s r).
Proof. by intros [H1 H2 H3 H4]; split. Qed.

Lemma Reads_ret {X} (x : X) : Reads (mreturn x) [] (fun _ y => y = x).
Proof. intros r rest Hr Hi. exists x, r. split_and!; [done..|apply rgrows_refl|done]. Qed.
Lemma Reads_bind {X Y} (m : M rst X) (k : X -> M rst Y) bs cs R R' :
  Reads m bs R -> (forall y, (exists T, R T y) -> Reads (k y) cs (R' y)) -> Reads (mbindM m k) (bs ++ cs) (fun T z => exists y, R T y /\ R' y T z).
Proof.
  intros Hm Hk r rest Hr Hi. rewrite <- app_assoc in Hi. destruct (Hm r _ Hr Hi) as (y & r1 & H1 & Hi1 & Hr1 & Hg1 & HR1).
  destruct (Hk y (ex_intro _ _ (HR1 _ (reflexivity _))) r1 rest Hr1 Hi1) as (z & r2 & H2 & Hi2 & Hr2 & Hg2 & HR2). exists z, r2.
  rewrite (mbind_Some _ _ _ _ _ H1). split_and!; [done..|by eapply rgrows_trans|]. intros T HT. exists y.
  split; [apply HR1; etransitivity; [apply Hg2|done]|by apply HR2].
Qed.
Lemma Reads_ext {X} (m : M rst X) bs cs (R R' : gmap Z positive -> X -> Prop) : Reads m bs R -> bs = cs -> (forall T y, R T y -> R' T y) -> Reads m cs R'.
Proof.
  intros Hm <- HR r rest Hr Hi. destruct (Hm r _ Hr Hi) as (y & r1 & H1 & Hi1 & Hr1 & Hg1 & HR1). exists y, r1.
  split_and!; [done..|]. intros T HT. by apply HR, HR1.
Qed.
Lemma Reads_map {X Y} (m : M rst X) (g : X -> Y) bs R R' :
  Reads m bs R -> (forall T y, R T y -> R' T (g y)) -> Reads (let! y := m in mreturn (g y)) bs R'.
Proof.
  intros Hm HR r rest Hr Hi. destruct (Hm r _ Hr Hi) as (y & r1 & H1 & Hi1 & Hr1 & Hg1 & HR1). exists (g y), r1.
  rewrite (mbind_Some _ _ _ _ _ H1). split_and!; [done..|]. intros T HT. by apply HR, HR1.
Qed.
(** A step that reads a line, and gives a value *)
Lemma Reads_line {X} (m : M rst X) bs x : (forall r rest, inp r = bs ++ rest -> m r = Some (x, set_inp rest r)) -> Reads m bs (fun _ y => y = x).
Proof. intros H r rest Hr Hi. exists x, (set_inp rest r). split_and!; [by apply H|done|by apply rinv_inp|apply rgrows_inp|done]. Qed.
Lemma Reads_num z : num_ok z -> Reads dbio_read_num (text z) (fun _ y => y = z).
Proof. intros Hz. apply Reads_line. intros r rest. by apply read_num_ok. Qed.
Lemma Reads_string s : line_ok s -> Reads dbio_read_string (s ++ [10]) (fun _ y => y = s).
Proof. intros Hs. apply Reads_line. intros r rest Hi. rewrite <- app_assoc in Hi. by apply dbio_read_string_ok. Qed.
(** A number is read, and what follows depends on it *)
Lemma Reads_num_bind {X} (k : Z -> M rst X) z bs R : num_ok z -> Reads (k z) bs R -> Reads (let! n := dbio_read_num in k n) (text z ++ bs) R.
Proof.
  intros Hz Hk. eapply Reads_ext; [apply (Reads_bind dbio_read_num k (text z) bs _ (fun _ => R) (Reads_num z Hz))|done|].
  - intros y [_ ->]. exact Hk.
  - by intros T y (_ & _ & H).
Qed.
Lemma Reads_times {X Y} (m : M rst Y) (bs : X -> bytes) (R : X -> gmap Z positive -> Y -> Prop) l :
  (forall x, x ∈ l -> Reads m (bs x) (R x)) -> Reads (times (length l) m) (flat_map bs l) (fun T ys => Forall2 (fun x y => R x T y) l ys).
Proof.
  induction l as [|x l IH]; intros H; cbn [length times flat_map].
  - eapply Reads_ext; [apply Reads_ret|done|]. intros T y ->. constructor.
  - eapply Reads_ext; [eapply (Reads_bind m _ (bs x) (flat_map bs l) (R x) (fun y T zs => Forall2 (fun x y => R x T y) l (tail zs) /\ head zs = Some y)); [apply H; left|]|done|].
    + intros y _. eapply Reads_map; [apply IH; intros; apply H; by right|]. by intros T ys Hys.
    + intros T [|z zs] (y & Hy & Hzs & [= ->]). by constructor.
Qed.

Lemma decode_anon_value T a i p : (a ≫= fun o => if anon_valid o then F !! o else None) = Some i -> T !! i = Some p -> decode_anon F T a = Some p.
Proof. intros Ei HT. destruct a as [o|]; [|done]. unfold decode_anon. cbn in *. destruct (anon_valid o); [|done]. rewrite Ei. exact HT. Qed.
Lemma covered_anon T a i : (a ≫= fun o => if anon_valid o then F !! o else None) = Some i -> is_Some (T !! i) -> covered F T (value_anons (VAnon a)).
Proof.
  intros Ei HT o j. destruct a as [o'|]; [|by intros ?%not_elem_of_nil]. cbn in *. destruct (anon_valid o'); [|done].
  intros ->%list_elem_of_singleton. by intros [= <-]%(eq_trans (eq_sym Ei)).
Qed.
Lemma covered_none T a : (a ≫= fun o => if anon_valid o then F !! o else None) = None -> covered F T (value_anons (VAnon a)).
Proof.
  intros Ei o j. destruct a as [o'|]; [|by intros ?%not_elem_of_nil]. cbn in *. destruct (anon_valid o'); [|by intros ?%not_elem_of_nil].
  intros ->%list_elem_of_singleton. congruence.
Qed.
(** The object for a number that is not in the table *)
Lemma rinv_new r i n s : rinv r -> i < n \/ N <= i -> r_num r <= n <= N -> let p := fresh (dom (r_mem r)) in
  rinv (mk_rst s (<[i := p]> (r_objects r)) (<[p := None]> (r_mem r)) n (r_anons r)) /\ r_mem r !! p = None.
Proof.
  intros [H1 H2 H3 H4] Hi Hn p. pose proof (is_fresh (dom (r_mem r))) as Hf. fold p in Hf. apply not_elem_of_dom in Hf. split; [|done].
  assert (forall j, r_objects r !! j <> Some p) as Hnp by (intros j Hj; apply H1 in Hj as [x Hx]; congruence). split; cbn.
  - intros j o' [[-> <-]|[Hne Hj]]%lookup_insert_Some; [rewrite lookup_insert_eq; by eexists|]. destruct (decide (o' = p)) as [->|Hop]; [rewrite lookup_insert_eq; by eexists|].
    rewrite lookup_insert_ne by done. by eapply H1.
  - intros j k o' [[<- <-]|[Hj Hj']]%lookup_insert_Some [[<- Hk]|[Hk Hk']]%lookup_insert_Some; [done|by apply Hnp in Hk'|subst o'; by apply Hnp in Hj'|by eapply H2].
  - intros j Hj. destruct (decide (j = i)) as [->|Hne]; [done|]. rewrite lookup_insert_ne in Hj by done. apply H3 in Hj. lia.
  - cbn in *. lia.
Qed.
Lemma Reads_anon a : Reads db_read_anonymous (anon_text F a) (fun T y => y = VAnon (decode_anon F T a) /\ covered F T (value_anons (VAnon a))).
Proof.
  unfold anon_text. destruct (a ≫= fun o => if anon_valid o then F !! o else None) as [i|] eqn:Ei; cbn [default]; intros r rest Hr Hi.
  - assert (exists o, F !! o = Some i) as [o Ho] by (destruct a as [o|]; [|done]; cbn in Ei; destruct (anon_valid o); [by exists o|done]).
    pose proof (HF o i Ho) as Hb. pose proof (ri_num r Hr). assert (num_ok i) as Hz by (unfold num_ok; lia).
    unfold db_read_anonymous. rewrite (mbind_Some _ _ _ _ _ (read_num_ok r i rest Hz Hi)). unfold to_int. rewrite wrapS_id by lia.
    rewrite (proj2 (Z.eqb_neq i NOTHING)) by (unfold NOTHING; lia). rewrite (proj2 (Z.ltb_ge i 0)) by lia.
    cbn [set_inp r_objects]. destruct (r_objects r !! i) as [p|] eqn:Ep.
    + exists (VAnon (Some p)), (set_inp rest r). split_and!; [done|done|by apply rinv_inp|apply rgrows_inp|]. intros T HT.
      pose proof (lookup_weaken _ _ _ _ Ep HT) as E. split; [f_equal; symmetry; by apply (decode_anon_value T a i)|by apply (covered_anon T a i)].
    + destruct (rinv_new r i (r_num r) rest Hr ltac:(lia) ltac:(lia)) as [Hr' Hf]. set (p := fresh (dom (r_mem r))) in *.
      eexists (VAnon (Some p)), _. split_and!; [done|done|exact Hr'| |].
      * split_and!; cbn; [by apply insert_subseteq| |by apply insert_subseteq|done]. intros j Hj. apply lookup_insert_ne. lia.
      * intros T HT. assert (T !! i = Some p) as E by (eapply lookup_weaken; [|exact HT]; apply lookup_insert_eq).
        split; [f_equal; symmetry; by apply (decode_anon_value T a i)|by apply (covered_anon T a i)].
  - exists (VAnon None), (set_inp rest r). unfold db_read_anonymous.
    rewrite (mbind_Some _ _ _ _ _ (read_num_ok r NOTHING rest ltac:(unfold num_ok, NOTHING; lia) Hi)).
    split_and!; [done|done|by apply rinv_inp|apply rgrows_inp|]. intros T HT. split; [|by apply covered_none].
    f_equal. destruct a as [o|]; [|done]. unfold decode_anon. cbn in *. by rewrite Ei.
Qed.

(** The insertion of sorted entries, one after the other *)
Lemma aput_last (k : Var) (v : Var) (L : list (Var * Var)) : Forall (fun x => compare_key false x.1 k < 0) L -> aput compare_key k v L = L ++ [(k, v)].
Proof.
  intros H. unfold aput, below, above. rewrite filter_all, filter_none; [done| |].
  - eapply Forall_impl; [exact H|]. cbn. lia.
  - eapply Forall_impl; [exact H|]. cbn. lia.
Qed.
Lemma aput_sorted (m L : list (Var * Var)) : StronglySorted (fun x y => compare_key false x.1 y.1 < 0) (L ++ m) ->
  fold_left (fun M kv => aput compare_key kv.1 kv.2 M) m L = L ++ m.
Proof.
  revert L. induction m as [|[k v] m IH]; intros L Hs; cbn [fold_left]; [by rewrite app_nil_r|]. cbn [fst snd].
  pose proof Hs as Hs'. apply sorted_app_inv in Hs' as (_ & _ & Hlt). rewrite aput_last.
  - rewrite IH; rewrite <- app_assoc; done.
  - eapply Forall_impl; [exact Hlt|]. intros x Hx. by apply Forall_cons in Hx as [Hx _].
Qed.

Lemma key_decode k T : plain_key k -> loaded F T k = k.
Proof. by destruct k. Qed.

Lemma error_of_code e : error_of (error_code e) = Some e.
Proof. by destruct e. Qed.
Lemma to_int_small z : - 2 ^ 31 <= z < 2 ^ 31 -> to_int z = z.
Proof. intros H. unfold to_int. apply wrapS_id; lia. Qed.

Lemma key_valid k T : plain_key k -> map_valid_key (loaded F T k) = true.
Proof. by destruct k. Qed.
Lemma no_conversion l : (l =? waif_conversion_type) && negb (waif_conversion_type =? Z.land TYPE_WAIF TYPE_DB_MASK) = false.
Proof. rewrite waif_read, Z.eqb_refl. apply andb_false_r. Qed.
(** A number of elements, and the elements *)
Lemma Reads_size {X} (k : nat -> M rst X) n bs R : Z.of_nat n < 2 ^ 31 -> Reads (k n) bs R -> Reads (let! n := read_size in k n) (text (Z.of_nat n) ++ bs) R.
Proof.
  intros Hn Hk. eapply Reads_ext; [apply (Reads_bind read_size k (text (Z.of_nat n)) bs (fun _ y => y = n) (fun _ => R))|done|].
  - rewrite <- (app_nil_r (text _)). apply Reads_num_bind; [unfold num_ok; lia|]. rewrite to_int_small by lia.
    rewrite (proj2 (Z.ltb_ge _ 0)), Nat2Z.id by lia. apply Reads_ret.
  - intros y [_ ->]. exact Hk.
  - by intros T y (_ & _ & H).
Qed.

(** [y] is what is read for [v]. *)
Definition read_as (v : Var) (T : gmap Z positive) (y : Var) : Prop := y = loaded F T v /\ covered F T (value_anons v).

Lemma read_as_list l T ys : Forall2 (fun x y => read_as x T y) l ys -> read_as (VList l) T (VList ys).
Proof.
  intros H. split; [|by eapply (covered_flat_map F T value_anons (fun x y => y = loaded F T x))]. cbn [loaded]. f_equal. induction H as [|x y l ys [-> _] _ IH]; [done|]. cbn. by rewrite IH.
Qed.
Lemma value_depth_elem x l fuel : x ∈ l -> (value_depth (VList l) <= S fuel)%nat -> (value_depth x <= fuel)%nat.
Proof. cbn [value_depth]. induction 1 as [x l|x y l Hx IH]; cbn; [lia|]. intros H. apply IH. cbn. lia. Qed.
Lemma depth_entry x m fuel : x ∈ m -> (value_depth (VMap m) <= S fuel)%nat -> (value_depth x.1 <= fuel)%nat /\ (value_depth x.2 <= fuel)%nat.
Proof. cbn [value_depth]. induction 1 as [[k x] m|x [k y] m Hx IH]; cbn; [lia|]. intros H. apply IH. cbn. lia. Qed.

Lemma Reads_var_list l fuel : Z.of_nat (length l) < 2 ^ 31 -> (forall x, x ∈ l -> Reads (dbio_read_var fuel) (enc F x) (read_as x)) ->
  Reads (dbio_read_var (S fuel)) (enc F (VList l)) (read_as (VList l)).
Proof.
  intros Hl H. cbn [enc dbio_read_var]. apply Reads_num_bind; [done|]. cbv zeta. rewrite no_conversion. change (to_int (Z.land (type_of (VList l)) TYPE_DB_MASK)) with 4.
  simpl Z.eqb. cbn [andb]. cbv iota. apply Reads_size; [done|]. 
  eapply Reads_map; [by apply (Reads_times (dbio_read_var fuel) (enc F) read_as)|]. intros T ys. apply read_as_list.
Qed.

Lemma read_as_map m T ys : Forall2 (fun x y => (read_as x.1 T y.1) /\ read_as x.2 T y.2) m ys ->
  ys = map (fun kv => (loaded F T kv.1, loaded F T kv.2)) m /\ covered F T (value_anons (VMap m)).
Proof.
  intros H. split.
  - induction H as [|x [k y] m ys [[E1 _] [E2 _]] _ IH]; [done|]. cbn in E1, E2 |- *. by rewrite IH, E1, E2.
  - eapply (covered_flat_map F T _ (fun _ _ => True)). eapply Forall2_impl; [exact H|]. intros x y [[_ H1] [_ H2]]. split; [done|]. by apply covered_app.
Qed.
Lemma sorted_decode T m : Forall (fun kv => plain_key kv.1) m -> StronglySorted (fun x y => compare_key false x.1 y.1 < 0) m ->
  StronglySorted (fun x y => compare_key false x.1 y.1 < 0) (map (fun kv => (loaded F T kv.1, loaded F T kv.2)) m).
Proof.
  intros Hk Hso. induction Hso as [|x m Hso IH Hx]; [constructor|]. apply Forall_cons in Hk as [Hk Hs]. cbn [map].
  constructor; [by apply IH|]. apply Forall_map. rewrite Forall_forall in Hx, Hs |- *. intros y Hy. cbn. rewrite !key_decode by auto. by apply Hx.
Qed.
Lemma Reads_var_map m fuel : Z.of_nat (length m) < 2 ^ 31 -> StronglySorted (fun x y => compare_key false x.1 y.1 < 0) m ->
  Forall (fun kv => plain_key kv.1) m ->
  (forall x, x ∈ m -> Reads (dbio_read_var fuel) (enc F x.1) (read_as x.1) /\ Reads (dbio_read_var fuel) (enc F x.2) (read_as x.2)) ->
  Reads (dbio_read_var (S fuel)) (enc F (VMap m)) (read_as (VMap m)).
Proof.
  intros Hl Hso Hk H. cbn [enc dbio_read_var]. apply Reads_num_bind; [done|]. cbv zeta. rewrite no_conversion. change (to_int (Z.land (type_of (VMap m)) TYPE_DB_MASK)) with 10.
  simpl Z.eqb. cbn [andb]. cbv iota. apply Reads_num_bind; [unfold num_ok; lia|]. rewrite to_int_small, Nat2Z.id by lia. rewrite <- (app_nil_r (flat_map _ m)).
  eapply Reads_ext; [eapply (Reads_bind _ _ _ _ (fun T ys => ys = map (fun kv => (loaded F T kv.1, loaded F T kv.2)) m /\ covered F T (value_anons (VMap m)))
    (fun ys T y => y = VMap (fold_left (fun m kv => aput compare_key kv.1 kv.2 m) ys [])))|done|].
  - eapply Reads_ext; [apply (Reads_times _ (fun kv => enc F kv.1 ++ enc F kv.2) (fun x T y => read_as x.1 T y.1 /\ read_as x.2 T y.2))|done|intros T y; apply read_as_map].
    intros x Hx. destruct (H x Hx) as [H1 H2]. eapply Reads_ext; [eapply (Reads_bind _ _ _ _ _ (fun y T z => read_as x.2 T z.2 /\ z.1 = y)); [exact H1|]|done|].
    + intros y _. eapply Reads_map; [exact H2|done].
    + by intros T [k v] (y & Hy & Hv & ->).
  - intros ys [T [-> _]]. rewrite (proj2 (forallb_forall _ _)).
    + apply Reads_ret.
    + intros x [y [<- Hy]]%in_map_iff. cbn. apply key_valid. rewrite Forall_forall in Hk. by apply Hk, list_elem_of_In.
  - intros T y (ys & [-> Hc] & ->). split; [|done]. cbn [loaded]. f_equal. by apply (aput_sorted _ []), sorted_decode.
Qed.

Lemma Reads_float d : float_ok d -> Reads dbio_read_float (print_float d ++ [10]) (fun _ y => y = d).
Proof.
  intros Hd. destruct (float_read d Hd) as (H1 & H2 & H3). apply Reads_line. intros r rest Hi. rewrite <- app_assoc in Hi. unfold dbio_read_float.
  rewrite (mbind_Some _ _ _ _ _ (fgets_short 40 r _ rest Hi H1 ltac:(lia))). by rewrite H3.
Qed.

Lemma Reads_var_atom v fuel : match v with VList _ | VMap _ => False | _ => True end -> storable v -> Reads (dbio_read_var (S fuel)) (enc F v) (read_as v).
Proof.
  intros Hv Hs. destruct v; try done; cbn [enc dbio_read_var]; (apply Reads_num_bind; [done|]); cbv zeta; rewrite no_conversion;
    match goal with |- context [to_int (Z.land ?t TYPE_DB_MASK)] => let x := eval vm_compute in (to_int (Z.land t TYPE_DB_MASK)) in change (to_int (Z.land t TYPE_DB_MASK)) with x end;
    simpl Z.eqb; cbn [andb]; cbv iota.
  all: unfold read_as; try (eapply Reads_map; [first [by apply Reads_num|by apply Reads_string|by apply Reads_float]|]; cbn; intros T y ->; split; [done|apply covered_nil]).
  all: try (eapply Reads_ext; [apply Reads_ret|done|]; cbn; intros T y ->; split; [done|apply covered_nil]).
  - rewrite <- (app_nil_r (text _)). apply Reads_num_bind; [apply err_read|]. rewrite (proj2 (err_read e)), error_of_code.
    eapply Reads_ext; [apply Reads_ret|done|]. cbn. intros T y ->. split; [done|apply covered_nil].
  - apply Reads_anon.
  - eapply Reads_map; [apply Reads_num; by destruct b|]. cbn. intros T y ->. split; [by destruct b|apply covered_nil].
Qed.

Lemma Reads_var v : forall fuel, (value_depth v <= fuel)%nat -> storable v -> Reads (dbio_read_var fuel) (enc F v) (read_as v).
Proof.
  induction v as [l IH|m IH|v Hv] using Var_nested_ind; intros fuel Hf Hs; (destruct fuel as [|fuel]; [destruct v || idtac; cbn in Hf; lia|]).
  - apply storable_list in Hs as [Hl Hs]. apply Reads_var_list; [done|]. rewrite Forall_forall in IH, Hs. intros x Hx.
    apply IH; [done| |by apply Hs]. by apply (value_depth_elem x l).
  - apply storable_map in Hs as (Hl & Hso & Hs). apply Reads_var_map; [done|done|eapply Forall_impl; [exact Hs|]; by intros ? (? & ? & ?)|].
    rewrite Forall_forall in IH, Hs. intros x Hx. destruct (IH x Hx) as [I1 I2], (Hs x Hx) as (S1 & S2 & _), (depth_entry x m fuel Hx Hf).
    split; [by apply I1|by apply I2].
  - apply Reads_var_atom; [|done]. by destruct v.
Qed.

Lemma Reads_step {X Y} (m : M rst X) (k : X -> M rst Y) bs cs R P :
  Reads m bs R -> (forall y, (exists T, R T y) -> Reads (k y) cs (fun T z => R T y -> P T z)) -> Reads (mbindM m k) (bs ++ cs) P.
Proof.
  intros Hm Hk. eapply Reads_ext; [exact (Reads_bind m k bs cs R (fun y T z => R T y -> P T z) Hm Hk)|done|].
  intros T z (y & Hy & Hz). by apply Hz.
Qed.
Lemma Reads_return {X} (x : X) P : (forall T, P T x) -> Reads (mreturn x) [] P.
Proof. intros H. eapply Reads_ext; [apply Reads_ret|done|]. by intros T y ->. Qed.

(** A value is in more bytes than it has levels. *)
Lemma text_length z : (2 <= length (text z))%nat.
Proof. unfold text. rewrite length_app. pose proof (decimal_nonempty z). destruct (decimal z); [done|cbn; lia]. Qed.
Lemma value_depth_enc v : (value_depth v <= length (enc F v))%nat.
Proof.
  induction v as [l IH|m IH|v Hv] using Var_nested_ind.
  - cbn [enc value_depth]. rewrite !length_app. pose proof (text_length (Z.land (type_of (VList l)) TYPE_DB_MASK)).
    enough ((fix go l := match l with [] => O | x :: l => max (value_depth x) (go l) end) l <= length (flat_map (enc F) l))%nat by lia.
    clear - IH. induction IH as [|x l Hx _ IH]; [cbn; lia|]. cbn [flat_map]. rewrite length_app. lia.
  - cbn [enc value_depth]. rewrite !length_app. pose proof (text_length (Z.land (type_of (VMap m)) TYPE_DB_MASK)).
    enough ((fix go m := match m with [] => O | (k, x) :: m => max (value_depth k) (max (value_depth x) (go m)) end) m <= length (flat_map (fun kv => enc F kv.1 ++ enc F kv.2) m))%nat by lia.
    clear - IH. induction IH as [|[k x] m [Hk Hx] _ IH]; [cbn; lia|]. cbn [flat_map fst snd] in *. rewrite !length_app. lia.
  - pose proof (text_length (Z.land (type_of v) TYPE_DB_MASK)). destruct v; try done; cbn [enc value_depth]; rewrite length_app; lia.
Qed.
Lemma Reads_read_var v : storable v -> Reads (read_var) (enc F v) (read_as v).
Proof.
  intros Hs r rest Hr Hi. apply (Reads_var v); [|done..]. rewrite Hi, length_app. pose proof (value_depth_enc v). lia.
Qed.
End reads.
End io.
