(* ===== verification/DbFile.v ===== *)
(** * Database files: what is written is read back

    The round trips of values, of objects, and of all the objects of a
    database, the anonymous ones among them, on the lemmas of [DbIO]. *)
From Stdlib Require Import ZArith Lia Sorted.
From stdpp Require Import prelude gmap strings.
From S2P Require Import Prelude CString Value RBOrder MooMap Streams NumCode Numbers PropCode DbCode DbIO.

Local Open Scope Z_scope.
Local Open Scope moo_scope.

Section objects.
Context `{Env : DbioEnv} {Laws : DbioLaws}.

Definition short_ok (z : Z) : Prop := - 2 ^ 15 <= z < 2 ^ 15.
Definition int_ok (z : Z) : Prop := - 2 ^ 31 <= z < 2 ^ 31.
Definition size_ok {A} (l : list A) : Prop := Z.of_nat (length l) < 2 ^ 31.

(** Objects whose fields can be written *)
Record storable_verb (v : file_verb) : Prop := {
  sv_name : line_ok (fv_name v); sv_owner : num_ok (fv_owner v); sv_perms : short_ok (fv_perms v); sv_prep : short_ok (fv_prep v) }.
Definition storable_propdef (p : Propdef) : Prop := line_ok (pd_name p) /\ p = dbpriv_new_propdef (pd_name p).
Record storable_propval (p : Pval) : Prop := {
  sp_var : storable (pv_var p); sp_owner : num_ok (pv_owner p); sp_perms : short_ok (pv_perms p) }.
Record storable_object (x : file_object) : Prop := {
  so_name : line_ok (fo_name x); so_flags : int_ok (fo_flags x); so_owner : num_ok (fo_owner x);
  so_location : storable (fo_location x); so_last_move : storable (fo_last_move x); so_contents : storable (fo_contents x);
  so_parents : storable (fo_parents x); so_children : storable (fo_children x);
  so_verbs : size_ok (fo_verbs x) /\ Forall storable_verb (fo_verbs x);
  so_propdefs : size_ok (fo_propdefs x) /\ Forall storable_propdef (fo_propdefs x);
  so_propvals : size_ok (fo_propvals x) /\ Forall storable_propval (fo_propvals x) }.

(** The text of an object, and what is read for it *)
Definition enc_verb (v : file_verb) : bytes := (fv_name v ++ [10]) ++ text (fv_owner v) ++ text (fv_perms v) ++ text (fv_prep v).
Definition enc_propdef (p : Propdef) : bytes := pd_name p ++ [10].
Definition enc_propval (F : gmap positive Z) (p : Pval) : bytes := enc F (pv_var p) ++ text (pv_owner p) ++ text (pv_perms p).
Definition enc_object (F : gmap positive Z) (x : file_object) : bytes :=
  (fo_name x ++ [10]) ++ text (fo_flags x) ++ text (fo_owner x) ++ enc F (fo_location x) ++ enc F (fo_last_move x) ++ enc F (fo_contents x) ++
  enc F (fo_parents x) ++ enc F (fo_children x) ++ text (Z.of_nat (length (fo_verbs x))) ++ flat_map enc_verb (fo_verbs x) ++
  text (Z.of_nat (length (fo_propdefs x))) ++ flat_map enc_propdef (fo_propdefs x) ++
  text (Z.of_nat (length (fo_propvals x))) ++ flat_map (enc_propval F) (fo_propvals x).
Definition anons_of_object (x : file_object) : list positive :=
  value_anons (fo_location x) ++ value_anons (fo_last_move x) ++ value_anons (fo_contents x) ++ value_anons (fo_parents x) ++ value_anons (fo_children x) ++
  flat_map (fun p => value_anons (pv_var p)) (fo_propvals x).
Definition decode_object (F : gmap positive Z) (T : gmap Z positive) (x : file_object) : file_object :=
  mk_file_object (fo_name x) (fo_flags x) (fo_owner x) (loaded F T (fo_location x))
    (if clear_last_move then VInt 0 else loaded F T (fo_last_move x)) (loaded F T (fo_contents x)) (loaded F T (fo_parents x)) (loaded F T (fo_children x))
    (fo_verbs x) (fo_propdefs x) (map (fun p => mk_Pval (loaded F T (pv_var p)) (pv_owner p) (pv_perms p)) (fo_propvals x)).

(** The objects, and the text of the slots of a table *)
Context (fields : positive -> file_object).
Definition enc_slot (F : gmap positive Z) (o : option positive) (i : Z) : bytes :=
  match o with
  | None => [35; 32] ++ decimal i ++ str " recycled" ++ [10]
  | Some o => (35 :: decimal i ++ [10]) ++ enc_object F (fields o)
  end.
Definition anons_slot (o : option positive) : list positive := match o with None => [] | Some o => anons_of_object (fields o) end.
Fixpoint enc_range (F : gmap positive Z) (objs : Z -> option positive) (k : Z) (n : nat) : bytes :=
  match n with O => [] | S n => enc_slot F (objs k) k ++ enc_range F objs (k + 1) n end.
Fixpoint anons_range (objs : Z -> option positive) (k : Z) (n : nat) : list positive :=
  match n with O => [] | S n => anons_slot (objs k) ++ anons_range objs (k + 1) n end.

Lemma enc_range_ext F objs objs' k n : (forall i, k <= i < k + Z.of_nat n -> objs i = objs' i) -> enc_range F objs k n = enc_range F objs' k n.
Proof. revert k. induction n as [|n IH]; intros k H; [done|]. cbn [enc_range]. rewrite H, (IH (k + 1)); [done|intros; apply H; lia|lia]. Qed.
Lemma anons_range_ext objs objs' k n : (forall i, k <= i < k + Z.of_nat n -> objs i = objs' i) -> anons_range objs k n = anons_range objs' k n.
Proof. revert k. induction n as [|n IH]; intros k H; [done|]. cbn [anons_range]. rewrite H, (IH (k + 1)); [done|intros; apply H; lia|lia]. Qed.
Lemma anons_range_elem objs o k n : o ∈ anons_range objs k n -> exists i, k <= i < k + Z.of_nat n /\ o ∈ anons_slot (objs i).
Proof.
  revert k. induction n as [|n IH]; intros k; cbn [anons_range]; [by intros ?%not_elem_of_nil|]. intros [Ho|(i & Hi & Ho)%IH]%elem_of_app.
  - exists k. split; [lia|done].
  - exists i. split; [lia|done].
Qed.

(** ** Writing an object *)

Section writes.
Context (N : Z).
Hypothesis Hfields : forall o, storable_object (fields o).

Lemma Writes_write_var v : storable v -> Writes N (write_var v) (value_anons v) (fun F => enc F v).
Proof. intros Hs. apply Writes_var; [lia|done]. Qed.
Lemma Writes_line m s (k : M wst unit) A E : Writes N m [] (fun _ => s) -> Writes N k A E -> Writes N (m ;; k) A (fun F => s ++ E F).
Proof. intros Hm Hk. apply (Writes_bind N m k [] A (fun _ => s) E); done. Qed.
Lemma Writes_string s : Writes N (dbio_write_string s) [] (fun _ => s ++ [10]).
Proof. apply Writes_print. Qed.

Lemma Writes_verbdef v : Writes N (write_verbdef v) [] (fun _ => enc_verb v).
Proof. unfold write_verbdef, enc_verb, dbio_write_objid. apply Writes_line; [apply Writes_string|]. repeat (apply Writes_line; [apply Writes_num|]). apply Writes_num. Qed.
Lemma Writes_propval p : storable_propval p -> Writes N (write_propval p) (value_anons (pv_var p)) (fun F => enc_propval F p).
Proof.
  intros [Hv _ _]. unfold write_propval, enc_propval, dbio_write_objid. rewrite <- (app_nil_r (value_anons _)).
  apply (Writes_bind N (write_var _)); [by apply Writes_write_var|]. apply Writes_line; apply Writes_num.
Qed.
Lemma Writes_each_line {X} (f : X -> M wst unit) E l : (forall x, x ∈ l -> Writes N (f x) [] (fun _ => E x)) -> Writes N (each f l) [] (fun _ => flat_map E l).
Proof.
  intros H. eapply Writes_ext; [apply (Writes_each N f (fun _ => []) (fun x _ => E x) l H)| |done]. intros o. clear H. by induction l.
Qed.

Lemma Writes_fields x : storable_object x -> Writes N (write_fields x) (anons_of_object x) (fun F => enc_object F x).
Proof.
  intros []. unfold write_fields, enc_object, anons_of_object, dbio_write_objid.
  apply Writes_line; [apply Writes_string|]. do 2 (apply Writes_line; [apply Writes_num|]).
  do 5 (apply (Writes_bind N (write_var _)); [by apply Writes_write_var|]).
  apply Writes_line; [apply Writes_num|]. apply Writes_line; [apply Writes_each_line; intros; apply Writes_verbdef|].
  apply Writes_line; [apply Writes_num|]. apply Writes_line; [apply Writes_each_line; intros; apply Writes_string|].
  apply Writes_line; [apply Writes_num|]. apply Writes_each. intros p Hp. apply Writes_propval. destruct so_propvals0 as [_ H]. rewrite Forall_forall in H. by apply H.
Qed.

Lemma wrote_slot i w : winv N w -> 0 <= i -> wrote N (ng_write_object fields i) w (anons_slot (w_objects w !! i)) (fun F => enc_slot F (w_objects w !! i) i).
Proof.
  intros Hw Hi. unfold wrote, ng_write_object, valid_slot, mbindM. rewrite (proj2 (Z.ltb_ge i 0)) by lia. destruct (w_objects w !! i) as [o|].
  - exact (Writes_line _ _ _ _ (fun F => enc_object F (fields o)) (Writes_print N _) (Writes_fields (fields o) (Hfields o)) w Hw).
  - exact (Writes_print N _ w Hw).
Qed.
Lemma wrote_range n : forall k w, winv N w -> 0 <= k -> k + Z.of_nat n <= w_num w ->
  wrote N (write_range fields k n) w (anons_range (fun i => w_objects w !! i) k n) (fun F => enc_range F (fun i => w_objects w !! i) k n).
Proof.
  induction n as [|n IH]; intros k w Hw Hk Hn; cbn [write_range enc_range anons_range]; [by apply Writes_ret|].
  apply wrote_bind; [by apply wrote_slot|]. intros w' Hw' (_ & Hsame & Hnum).
  assert (forall i, k + 1 <= i < k + 1 + Z.of_nat n -> w_objects w !! i = w_objects w' !! i) as He by (intros i Hi; symmetry; apply Hsame; lia).
  rewrite (anons_range_ext _ (fun i => w_objects w' !! i)) by exact He.
  eapply wrote_ext; [apply (IH (k + 1) w'); [done|lia|lia]|done|]. intros F. symmetry. by apply enc_range_ext.
Qed.

(** There are no more numbers than anonymous objects. *)
Lemma numbered_bound (U : gset positive) w : winv N w -> dom (w_ids w) ⊆ U -> w_num w <= N + Z.of_nat (size U).
Proof.
  intros [H1 H2 H3 H4 H5] HU. set (f := fun i => default 1%positive (w_objects w !! i)).
  assert (forall i, N <= i < w_num w -> w_ids w !! f i = Some i) as Hf.
  { intros i Hi. apply H1. split; [|lia]. unfold f. by destruct (H4 i Hi) as [o ->]. }
  assert (NoDup (f <$> seqZ N (w_num w - N))) as Hnd.
  { apply NoDup_fmap_2_strong; [|apply NoDup_seqZ]. intros i j Hi%elem_of_seqZ Hj%elem_of_seqZ E.
    pose proof (Hf i ltac:(lia)) as Ei. rewrite E, Hf in Ei by lia. congruence. }
  assert (length (f <$> seqZ N (w_num w - N)) <= length (elements U))%nat as Hle.
  { apply submseteq_length, NoDup_submseteq; [done|]. intros o (i & -> & Hi%elem_of_seqZ)%list_elem_of_fmap. apply elem_of_elements, HU, elem_of_dom.
    exists i. apply Hf. lia. }
  rewrite length_fmap, length_seqZ in Hle. change (length (elements U)) with (size U) in Hle. lia.
Qed.
End writes.

(** ** Reading an object *)

Section reads.
Context (N : Z) (F : gmap positive Z).
Hypothesis HF : forall o i, F !! o = Some i -> N <= i < 2 ^ 31.
Hypothesis HN : N <= 2 ^ 31.
Hypothesis Hfields : forall o, storable_object (fields o).

Lemma to_short_id z : short_ok z -> to_short z = z.
Proof. intros H. unfold to_short, short_ok in *. apply wrapS_id; lia. Qed.
Lemma short_num z : short_ok z -> num_ok z.
Proof. unfold short_ok, num_ok. lia. Qed.

Lemma Reads_verbdef v : storable_verb v -> Reads N read_verbdef (enc_verb v) (fun _ y => y = v).
Proof.
  intros [H1 H2 H3 H4]. unfold read_verbdef, enc_verb, dbio_read_objid. eapply Reads_step; [by apply Reads_string|]. intros name [_ ->].
  apply Reads_num_bind; [done|]. apply Reads_num_bind; [by apply short_num|].
  eapply Reads_map; [by apply Reads_num, short_num|]. intros T y -> _. rewrite !to_short_id by done. by destruct v.
Qed.
Lemma Reads_propdef p : storable_propdef p -> Reads N read_propdef (enc_propdef p) (fun _ y => y = p).
Proof. intros [H1 H2]. eapply Reads_map; [by apply Reads_string|]. by intros T y ->. Qed.
Definition propval_as (p : Pval) (T : gmap Z positive) (y : Pval) : Prop :=
  y = mk_Pval (loaded F T (pv_var p)) (pv_owner p) (pv_perms p) /\ covered F T (value_anons (pv_var p)).
Lemma Reads_propval p : storable_propval p -> Reads N read_propval (enc_propval F p) (propval_as p).
Proof.
  intros [H1 H2 H3]. unfold read_propval, enc_propval, dbio_read_objid. eapply Reads_step; [by apply Reads_read_var|]. intros v _.
  apply Reads_num_bind; [done|]. eapply Reads_map; [by apply Reads_num, short_num|]. intros T y -> [-> Hc]. rewrite to_short_id by done. done.
Qed.

(** Entering an anonymous object in the map of its parents reads nothing. *)
Lemma Reads_add_anon o v : Reads N (add_anon o v) [] (fun _ _ => True).
Proof.
  assert (forall p, Reads N (add_anon_to o p) [] (fun _ _ => True)) as Hto.
  { intros p r rest Hr Hi. unfold add_anon_to, find_object, mbindM, mreturn, dbpriv_add_anon.
    destruct (if p <? 0 then None else r_objects r !! p); eexists tt, _; (split_and!; [done|done|by destruct Hr|by split_and!|done]). }
  assert (Reads N (mreturn tt) [] (fun _ _ => True)) as Hret by (by apply Reads_return).
  destruct v; try exact Hret; [apply Hto|]. cbn [add_anon]. induction l as [|x l IH]; [exact Hret|]. cbn [each].
  apply (Reads_step N _ _ [] [] (fun _ _ => True)); [destruct x; try exact Hret; apply Hto|]. intros y _. eapply Reads_ext; [exact IH|done|done].
Qed.

(** [y] is what is read for [x]. *)
Definition object_as (x : file_object) (T : gmap Z positive) (y : file_object) : Prop :=
  y = decode_object F T x /\ covered F T (anons_of_object x).

Lemma Reads_count {X Y} (m : M rst Y) (k : list Y -> M rst X) n bs cs R P : Z.of_nat n < 2 ^ 31 -> Reads N (times n m) bs R ->
  (forall y, (exists T, R T y) -> Reads N (k y) cs (fun T z => R T y -> P T z)) ->
  Reads N (let! i := dbio_read_num in let! l := times (Z.to_nat (to_int i)) m in k l) (text (Z.of_nat n) ++ bs ++ cs) P.
Proof.
  intros Hn Hm Hk. apply Reads_num_bind; [unfold num_ok; lia|]. rewrite to_int_small, Nat2Z.id by lia. by eapply Reads_step.
Qed.
Lemma Reads_count' {X Y} (m : M rst Y) (k : list Y -> M rst X) n bs cs R P : Z.of_nat n < 2 ^ 31 -> Reads N (times n m) bs R ->
  (forall y, (exists T, R T y) -> Reads N (k y) cs (fun T z => R T y -> P T z)) ->
  Reads N (let! i := read_size in let! l := times i m in k l) (text (Z.of_nat n) ++ bs ++ cs) P.
Proof. intros Hn Hm Hk. apply Reads_size; [done|]. by eapply Reads_step. Qed.
Lemma same_list {X} (l ys : list X) : Forall2 (fun x y => y = x) l ys -> ys = l.
Proof. induction 1; congruence. Qed.
Lemma propvals_as l T ys : Forall2 (fun x y => propval_as x T y) l ys ->
  ys = map (fun p => mk_Pval (loaded F T (pv_var p)) (pv_owner p) (pv_perms p)) l /\ covered F T (flat_map (fun p => value_anons (pv_var p)) l).
Proof.
  intros H. split; [|by eapply (covered_flat_map F T _ (fun p y => y = mk_Pval (loaded F T (pv_var p)) (pv_owner p) (pv_perms p)))].
  induction H as [|p y l ys [-> _] _ IH]; [done|]. cbn. by rewrite IH.
Qed.

Lemma Reads_last_move v : storable v ->
  Reads N (if DBV_Last_Move <=? dbio_input_version then let! v := read_var in mreturn (if clear_last_move then VInt 0 else v) else mreturn (VMap []))
    (enc F v) (fun T y => y = (if clear_last_move then VInt 0 else loaded F T v) /\ covered F T (value_anons v)).
Proof.
  intros Hs. rewrite (proj2 (Z.leb_le _ _) version_read). eapply Reads_map; [by apply (Reads_read_var N F HF v)|].
  intros T y [-> Hc]. by destruct clear_last_move.
Qed.

Lemma Reads_fields a x : storable_object x -> Reads N (read_fields a) (enc_object F x) (object_as x).
Proof.
  intros []. unfold read_fields, enc_object, dbio_read_objid.
  eapply Reads_step; [by apply Reads_string|]. intros name [_ ->].
  apply Reads_num_bind; [unfold num_ok, int_ok in *; lia|]. apply Reads_num_bind; [done|].
  eapply Reads_step; [by apply Reads_read_var|]. intros location _.
  eapply Reads_step; [by apply Reads_last_move|]. intros last_move _.
  eapply Reads_step; [by apply Reads_read_var|]. intros contents _.
  eapply Reads_step; [by apply Reads_read_var|]. intros parents _.
  match goal with |- Reads _ _ ?bs _ => change bs with ([] ++ bs) end.
  eapply Reads_step; [destruct a; [apply Reads_add_anon|by apply (Reads_return N tt (fun _ _ => True))]|]. intros [] _.
  eapply Reads_step; [by apply Reads_read_var|]. intros children _.
  eapply Reads_count; [by destruct so_verbs0|apply (Reads_times N _ enc_verb (fun x _ y => y = x)); intros ? ?; apply Reads_verbdef; destruct so_verbs0 as [_ Hall]; rewrite Forall_forall in Hall; by apply Hall|].
  intros verbs [_ ->%same_list].
  eapply Reads_count'; [by destruct so_propdefs0|apply (Reads_times N _ enc_propdef (fun x _ y => y = x)); intros ? ?; apply Reads_propdef; destruct so_propdefs0 as [_ Hall]; rewrite Forall_forall in Hall; by apply Hall|].
  intros defs [_ ->%same_list].
  rewrite <- (app_nil_r (flat_map (enc_propval F) _)).
  eapply Reads_count'; [by destruct so_propvals0|apply (Reads_times N _ (enc_propval F) propval_as); intros ? ?; apply Reads_propval; destruct so_propvals0 as [_ Hall]; rewrite Forall_forall in Hall; by apply Hall|].
  intros vals _. apply Reads_return. intros T [-> Hc]%propvals_as _ _ [-> H1] _ [-> H2] [-> H3] [-> H4] [-> H5] _.
  unfold object_as, decode_object, anons_of_object. rewrite !covered_app. unfold int_ok in *. rewrite to_int_small by lia. done.
Qed.

(** ** A slot of the table, read *)

(** The object at [i] has been read. *)
Definition slot_ok (o : option positive) (i : Z) (r : rst) : Prop :=
  match o with
  | None => r_objects r !! i = None
  | Some o => exists p y, r_objects r !! i = Some p /\ r_mem r !! p = Some (Some y) /\ forall T, r_objects r ⊆ T -> object_as (fields o) T y
  end.
(** What other objects have is kept while the one at [k] is read. *)
Definition slots_kept (k : Z) (r r' : rst) : Prop :=
  r_objects r ⊆ r_objects r' /\ (forall i, i < N -> i <> k -> r_objects r' !! i = r_objects r !! i) /\
  forall i p y, i <> k -> r_objects r !! i = Some p -> r_mem r !! p = Some (Some y) -> r_mem r' !! p = Some (Some y).

Lemma slots_kept_trans k r r1 r2 : slots_kept k r r1 -> slots_kept k r1 r2 -> slots_kept k r r2.
Proof.
  intros (H1 & H2 & H3) (H4 & H5 & H6). split_and!; [by etransitivity| |].
  - intros i Hi Hk. rewrite H5 by done. by apply H2.
  - intros i p y Hk Hp Hy. eapply H6; [done|by eapply lookup_weaken|]. by eapply H3.
Qed.
Lemma slots_kept_slot k r r' o i : slots_kept k r r' -> i <> k -> (o = None -> i < N) -> slot_ok o i r -> slot_ok o i r'.
Proof.
  intros (H1 & H2 & H3) Hk Ho. destruct o as [o|]; [|by cbn; rewrite H2 by auto]. intros (p & y & Hp & Hy & HT). exists p, y.
  split_and!; [by eapply lookup_weaken|by eapply H3|]. intros T HrT. apply HT. by etransitivity.
Qed.

(** The fields are read into the object that is in the slot. *)
Lemma read_filled a k p o r rest : rinv N r -> r_objects r !! k = Some p -> inp r = enc_object F (fields o) ++ rest ->
  exists r', (let! x := read_fields a in fill_object p x ;; mreturn true) r = Some (true, r') /\
    inp r' = rest /\ rinv N r' /\ r_num r' = r_num r /\ slots_kept k r r' /\ slot_ok (Some o) k r'.
Proof.
  intros Hr Hp Hi. destruct (Reads_fields a (fields o) (Hfields o) r rest Hr Hi) as (y & r1 & H1 & Hi1 & Hr1 & (Hg1 & Hg2 & Hg3 & Hg4) & HT).
  exists (mk_rst (inp r1) (r_objects r1) (<[p := Some y]> (r_mem r1)) (r_num r1) (r_anons r1)).
  rewrite (mbind_Some _ _ _ _ _ H1). destruct Hr1 as [I1 I2 I3 I4]. split_and!; [done|done| |done| |].
  - split; cbn; [|done..]. intros i q Hq. destruct (decide (q = p)) as [->|Hne]; [rewrite lookup_insert_eq; by eexists|]. rewrite lookup_insert_ne by done. by eapply I1.
  - split_and!; cbn; [done|by auto|]. intros i q z Hne Hq Hz. rewrite lookup_insert_ne; [by eapply lookup_weaken|].
    intros <-. apply Hne. by eapply (ri_inj N r Hr).
  - exists p, y. cbn. rewrite lookup_insert_eq. split_and!; [by eapply lookup_weaken|done|done].
Qed.

(** The line of an object *)
Lemma read_head {X} (f : Z -> bytes -> M rst X) (e : M rst X) ws k s r rest : Forall (fun c => isspace c = true) ws -> num_ok k -> line_ok s -> (length s < 19)%nat ->
  match s with c :: _ => isdigit c = false | [] => True end -> inp r = (35 :: ws ++ decimal k ++ s ++ [10]) ++ rest ->
  (let! h := scan_char 35 in
   match h with
   | None => e
   | Some _ => let! oid := scan_num in match oid with None => e | Some oid => let! s := fgets 20 in f oid s end
   end) r = f k (s ++ [10]) (set_inp rest r).
Proof.
  intros Hw Hk Hs Hl Hd Hi. cbn [app] in Hi. rewrite <- !app_assoc in Hi. cbn [app] in Hi. unfold scan_char. unfold mbindM at 1. rewrite Hi, Z.eqb_refl.
  rewrite (mbind_Some _ _ _ _ _ (scan_num_ok ws (set_inp (ws ++ decimal k ++ s ++ 10 :: rest) r) k (s ++ 10 :: rest) Hw Hk ltac:(by destruct s) eq_refl)).
  by rewrite (mbind_Some _ _ _ _ _ (fgets_short 20 (set_inp (s ++ 10 :: rest) r) s rest eq_refl Hs ltac:(lia))).
Qed.

Lemma unread k r : rinv N r -> r_num r <= k < N -> r_objects r !! k = None.
Proof. intros Hr Hk. apply eq_None_not_Some. intros Hs%(ri_keys N r Hr). lia. Qed.
Lemma read_recycled b k r rest : rinv N r -> r_num r = k -> k < N -> inp r = enc_slot F None k ++ rest ->
  exists r', ng_read_object b r = Some (true, r') /\ inp r' = rest /\ rinv N r' /\ r_num r' = k + 1 /\ slots_kept k r r' /\ slot_ok None k r'.
Proof.
  intros Hr Hk HkN Hi. pose proof (ri_num N r Hr).
  exists (mk_rst rest (r_objects r) (r_mem r) (r_num r + 1) (r_anons r)). split_and!.
  - etransitivity; [eapply (read_head _ (mreturn false) [32] k (str " recycled") r rest); [by repeat constructor|unfold num_ok; lia| |cbn; lia|done|exact Hi]|].
    + repeat (constructor; [by split|]). constructor.
    + by rewrite decide_True.
  - done.
  - destruct Hr as [I1 I2 I3 I4]. split; cbn; [done|done| |lia]. intros i Hi'%I3. lia.
  - cbn. lia.
  - by split_and!.
  - apply (unread k r); [done|lia].
Qed.
Lemma read_permanent k o r rest : rinv N r -> r_num r = k -> k < N -> inp r = enc_slot F (Some o) k ++ rest ->
  exists r', ng_read_object false r = Some (true, r') /\ inp r' = rest /\ rinv N r' /\ r_num r' = k + 1 /\ slots_kept k r r' /\ slot_ok (Some o) k r'.
Proof.
  intros Hr Hk HkN Hi. cbn [enc_slot] in Hi. rewrite <- app_assoc in Hi. pose proof (ri_num N r Hr).
  destruct (rinv_new N r k (k + 1) (enc_object F (fields o) ++ rest) Hr ltac:(lia) ltac:(lia)) as [Hr1 Hf]. set (p := fresh (dom (r_mem r))) in *.
  edestruct (read_filled None k p o _ rest Hr1) as (r2 & H2 & Hi2 & Hr2 & Hn2 & Hk2 & Hs2); [apply lookup_insert_eq|done|].
  exists r2. split_and!; [|done|done|by rewrite Hn2| |done].
  - etransitivity; [eapply (read_head _ (mreturn false) [] k [] r); [done|unfold num_ok; lia|constructor|cbn; lia|done|exact Hi]|].
    rewrite decide_False by done. rewrite decide_True by done. rewrite <- H2. unfold dbpriv_new_object, mbindM, set_inp. cbn. by rewrite Hk.
  - eapply slots_kept_trans; [|exact Hk2]. split_and!; cbn.
    + apply insert_subseteq. apply (unread k r); [done|lia].
    + intros i _ Hne. by apply lookup_insert_ne.
    + intros i q y Hne Hq Hy. rewrite lookup_insert_ne; [done|]. intros E. congruence.
Qed.
Lemma read_numbered k o r rest : rinv N r -> N <= k < 2 ^ 31 -> is_Some (r_objects r !! k) -> inp r = enc_slot F (Some o) k ++ rest ->
  exists r', ng_read_object true r = Some (true, r') /\ inp r' = rest /\ rinv N r' /\ r_num r' = r_num r /\ slots_kept k r r' /\ slot_ok (Some o) k r'.
Proof.
  intros Hr Hk [p Hp] Hi. cbn [enc_slot] in Hi. rewrite <- app_assoc in Hi. pose proof (ri_num N r Hr).
  edestruct (read_filled (Some p) k p o (set_inp (enc_object F (fields o) ++ rest) r) rest) as (r2 & H2 & Hi2 & Hr2 & Hn2 & Hk2 & Hs2); [by apply rinv_inp|done|done|].
  exists r2. split_and!; [|done|done|by rewrite Hn2|done|done].
  etransitivity; [eapply (read_head _ (mreturn false) [] k [] r); [done|unfold num_ok; lia|constructor|cbn; lia|done|exact Hi]|].
  rewrite decide_False by done. rewrite decide_True by done. unfold find_object. unfold mbindM at 1. rewrite (proj2 (Z.ltb_ge k 0)) by lia. cbn [r_objects set_inp]. rewrite Hp. exact H2.
Qed.

Lemma read_slot (b : bool) o k r rest : rinv N r ->
  (if b then N <= k < 2 ^ 31 /\ is_Some o /\ is_Some (r_objects r !! k) else r_num r = k /\ k < N) -> inp r = enc_slot F o k ++ rest ->
  exists r', ng_read_object b r = Some (true, r') /\ inp r' = rest /\ rinv N r' /\ r_num r' = (if b then r_num r else k + 1) /\ slots_kept k r r' /\ slot_ok o k r'.
Proof.
  intros Hr Hb Hi. destruct b.
  - destruct Hb as (Hk & [p ->] & Hs). by apply read_numbered.
  - destruct Hb, o; [by apply read_permanent|by apply read_recycled].
Qed.
Lemma read_range_ok (b : bool) objs n : forall k r rest, rinv N r ->
  (if b then N <= k /\ k + Z.of_nat n <= 2 ^ 31 /\ forall i, k <= i < k + Z.of_nat n -> is_Some (objs i) /\ is_Some (r_objects r !! i)
   else r_num r = k /\ k + Z.of_nat n <= N) -> inp r = enc_range F objs k n ++ rest ->
  exists r', read_range b n r = Some (true, r') /\ inp r' = rest /\ rinv N r' /\ r_num r' = (if b then r_num r else k + Z.of_nat n) /\
    r_objects r ⊆ r_objects r' /\ (forall i, k <= i < k + Z.of_nat n -> slot_ok (objs i) i r') /\
    forall i, ~ (k <= i < k + Z.of_nat n) -> (objs i = None -> i < N) -> slot_ok (objs i) i r -> slot_ok (objs i) i r'.
Proof.
  induction n as [|n IH]; intros k r rest Hr Hb Hi; cbn [read_range enc_range] in *.
  { exists r. split_and!; [done|done|done|destruct b; [done|lia]|done|intros; lia|done]. }
  rewrite <- app_assoc in Hi. destruct (read_slot b (objs k) k r (enc_range F objs (k + 1) n ++ rest) Hr) as (r1 & H1 & Hi1 & Hr1 & Hn1 & Hk1 & Hs1); [|exact Hi|].
  { destruct b; [|lia]. destruct Hb as (Hk & Hn & Hs). destruct (Hs k ltac:(lia)) as [[p Hp] Hs']. split; [lia|]. split; [by eexists|done]. }
  destruct (IH (k + 1) r1 rest Hr1) as (r2 & H2 & Hi2 & Hr2 & Hn2 & Hg2 & Hs2 & Ho2); [|done|].
  { destruct b; [|lia]. destruct Hb as (Hk & Hn & Hs). split_and!; [lia|lia|]. intros i Hi'. destruct (Hs i ltac:(lia)) as [Ho [p Hp]]. split; [done|].
    exists p. by eapply lookup_weaken; [|apply Hk1]. }
  exists r2. rewrite (mbind_Some _ _ _ _ _ H1). split_and!; [done|done|done|destruct b; [congruence|lia]|etransitivity; [apply Hk1|done]| |].
  - intros i Hi'. destruct (decide (i = k)) as [->|Hne]; [|apply Hs2; lia]. apply Ho2; [lia| |done]. intros E. destruct b; [|lia].
    destruct Hb as (_ & _ & Hs). destruct (Hs k ltac:(lia)) as [[p Hp] _]. congruence.
  - intros i Hi' Ho Hs. apply Ho2; [lia|done|]. eapply slots_kept_slot; [exact Hk1|lia|done|done].
Qed.
(** A number that an object of the range has is in the table. *)
Lemma range_covered objs k n r o i : (forall j, k <= j < k + Z.of_nat n -> slot_ok (objs j) j r) -> o ∈ anons_range objs k n -> F !! o = Some i -> is_Some (r_objects r !! i).
Proof.
  intros Hs (j & Hj & Ho)%anons_range_elem HF'. specialize (Hs j Hj). destruct (objs j) as [x|]; [|by apply not_elem_of_nil in Ho].
  destruct Hs as (p & y & _ & _ & HT). destruct (HT _ (reflexivity _)) as [_ Hc]. by apply (Hc o).
Qed.
Lemma enc_range_head objs k n rest : (0 < n)%nat -> match enc_range F objs k n ++ rest with c :: _ => isspace c = false | [] => True end.
Proof. destruct n as [|n]; [lia|]. intros _. cbn [enc_range]. by destruct (objs k). Qed.
End reads.

(** ** The objects of a database *)

Section batches.
Context (N : Z) (U : gset positive).
Hypothesis Hfields : forall o, storable_object (fields o).
Hypothesis HU : forall o, (list_to_set (anons_of_object (fields o)) : gset positive) ⊆ U.
Hypothesis Hsize : N + Z.of_nat (size U) <= 2 ^ 31.

Definition no_space (rest : bytes) : Prop := match rest with c :: _ => isspace c = false | [] => True end.
Definition ids_in (w : wst) : Prop := forall o, is_Some (w_ids w !! o) -> o ∈ U.

Lemma range_in objs k n o : o ∈ anons_range objs k n -> o ∈ U.
Proof.
  intros (j & _ & Hj)%anons_range_elem. destruct (objs j) as [x|]; [|by apply not_elem_of_nil in Hj]. apply (HU x). by apply elem_of_list_to_set.
Qed.
Lemma ids_bound w : winv N w -> ids_in w -> w_num w <= N + Z.of_nat (size U).
Proof. intros Hw Hi. apply (numbered_bound N U w Hw). intros o Ho%elem_of_dom. by apply Hi. Qed.
Lemma ids_range w : winv N w -> ids_in w -> forall o i, w_ids w !! o = Some i -> N <= i < 2 ^ 31.
Proof. intros Hw Hi o i Ho. pose proof (ids_bound w Hw Hi). pose proof (wi_range N w Hw o i Ho). apply (wi_ids N w Hw) in Ho. lia. Qed.

(** A batch: the number of its objects, and the objects; the numbers that are
    given to anonymous objects meanwhile *)
Lemma batch_written w k n : winv N w -> ids_in w -> 0 <= k -> k + Z.of_nat n = w_num w \/ k + Z.of_nat n = N -> (0 < n)%nat ->
  exists w1 bs, (dbio_write_num (Z.of_nat n) ;; write_range fields k n) w = Some (tt, w1) /\ winv N w1 /\ ids_in w1 /\ wgrows w w1 /\
    out w1 = out w ++ text (Z.of_nat n) ++ bs /\
    (forall F, w_ids w1 ⊆ F -> enc_range F (fun i => w_objects w !! i) k n = bs) /\
    forall i, w_num w <= i < w_num w1 -> exists o, w_ids w1 !! o = Some i /\ o ∈ anons_range (fun i => w_objects w !! i) k n.
Proof.
  intros Hw Hin Hk Hn Hpos. pose proof (wi_num N w Hw).
  destruct (wrote_bind N (dbio_write_num (Z.of_nat n)) (write_range fields k n) w [] (anons_range (fun i => w_objects w !! i) k n) (fun _ => text (Z.of_nat n))
    (fun F => enc_range F (fun i => w_objects w !! i) k n)) as (w1 & bs & H1 & Hw1 & Hg1 & _ & Hb1 & Ho1 & He1).
  { by apply Writes_num. }
  { intros w' Hw' (_ & Hsame & Hnum). assert (forall i, k <= i < k + Z.of_nat n -> w_objects w !! i = w_objects w' !! i) as He by (intros i Hi; symmetry; apply Hsame; lia).
    eapply wrote_ext; [apply (wrote_range N Hfields n k w'); [done|lia|lia]| |].
    - intros o. by rewrite (anons_range_ext _ _ _ _ He).
    - intros F. symmetry. by apply enc_range_ext. }
  exists w1, (enc_range (w_ids w1) (fun i => w_objects w !! i) k n). pose proof (He1 (w_ids w1) (reflexivity _)) as Hbs.
  split_and!; [done|done| |done|by rewrite Ho1, <- Hbs| |].
  - intros o [Ho|Ho]%Hb1; [by apply Hin|by eapply range_in].
  - intros F HF. pose proof (He1 F HF) as E. rewrite <- Hbs in E. by apply app_inv_head in E.
  - intros i Hi. destruct (wi_full N w1 Hw1 i ltac:(lia)) as [o Ho]. assert (w_ids w1 !! o = Some i) as Hid by (apply (wi_ids N w1 Hw1); split; [done|lia]).
    exists o. split; [done|]. destruct (Hb1 o (ex_intro _ _ Hid)) as [[j Hj]|]; [|done]. pose proof (wi_range N w Hw o j Hj).
    pose proof (lookup_weaken _ _ _ _ Hj (proj1 Hg1)). assert (i = j) by congruence. lia.
Qed.

(** The numbers that were given while the range was written are in the table
    when it has been read. *)
Lemma given_in_table F w w1 k n r : w_ids w1 ⊆ F ->
  (forall i, w_num w <= i < w_num w1 -> exists o, w_ids w1 !! o = Some i /\ o ∈ anons_range (fun i => w_objects w !! i) k n) ->
  (forall j, k <= j < k + Z.of_nat n -> slot_ok F (w_objects w !! j) j r) -> forall i, w_num w <= i < w_num w1 -> is_Some (r_objects r !! i).
Proof.
  intros HF Hg Hs i Hi. destruct (Hg i Hi) as (o & Ho & Hin). eapply (range_covered F (fun i => w_objects w !! i) k n r o i Hs Hin). by eapply lookup_weaken.
Qed.

(** [bs] is what follows the objects up to [max]: when these have been read,
    it gives the other ones. *)
Definition rest_read (fuel : nat) (w : wst) (max : Z) (w1 : wst) (bs : bytes) : Prop :=
  forall F r rest, w_ids w1 ⊆ F -> (forall o i, F !! o = Some i -> N <= i < 2 ^ 31) -> rinv N r -> r_num r = N -> inp r = bs ++ rest -> no_space rest ->
    (forall i, max < i < w_num w -> is_Some (r_objects r !! i)) -> (forall i, 0 <= i <= max -> slot_ok F (w_objects w !! i) i r) ->
    exists r1, read_anonymous (S fuel) r = Some (true, r1) /\ inp r1 = rest /\ rinv N r1 /\ r_num r1 = N /\
      forall i, 0 <= i < w_num w1 -> slot_ok F (w_objects w1 !! i) i r1.

Lemma text_no_space z rest : no_space (text z ++ rest).
Proof.
  unfold text. pose proof (decimal_digit z) as H. pose proof (decimal_nonempty z). destruct (decimal z) as [|c l]; [done|].
  apply Forall_cons in H as [[->|H] _]; [done|]. cbn. unfold isdigit, isspace in *. lia.
Qed.
Lemma rest_done fuel w : rest_read fuel w (w_num w - 1) (mk_wst (out w ++ text 0) (w_objects w) (w_ids w) (w_num w)) (text 0).
Proof.
  intros F r rest HF HF' Hr Hn Hi Hrest _ Hs. exists (set_inp rest r). cbn [read_anonymous].
  rewrite (mbind_Some _ _ _ _ _ (scan_count_ok r 0 rest ltac:(unfold num_ok; lia) Hrest Hi)). split_and!; [done|done|by apply rinv_inp|done|].
  intros i Hi'. exact (Hs i ltac:(cbn in *; lia)).
Qed.
Lemma rest_step fuel w max w1 w2 bs cs : winv N w -> ids_in w -> N - 1 <= max < w_num w - 1 -> wgrows w w1 -> wgrows w1 w2 ->
  (forall F, w_ids w1 ⊆ F -> enc_range F (fun i => w_objects w !! i) (max + 1) (Z.to_nat (w_num w - 1 - max)) = bs) ->
  (forall i, w_num w <= i < w_num w1 -> exists o, w_ids w1 !! o = Some i /\ o ∈ anons_range (fun i => w_objects w !! i) (max + 1) (Z.to_nat (w_num w - 1 - max))) ->
  (forall rest, no_space rest -> no_space (cs ++ rest)) ->
  rest_read fuel w1 (w_num w - 1) w2 cs -> rest_read (S fuel) w max w2 (text (w_num w - 1 - max) ++ bs ++ cs).
Proof.
  intros Hw Hin Hmax (_ & Hsame & Hnum) (Hids & _ & _) Hbs Hgiven Hns Hcs F r rest HF HF' Hr Hn Hi Hrest Htab Hs.
  pose proof (ids_bound w Hw Hin) as Hb. pose proof (wi_num N w Hw). assert (w_ids w1 ⊆ F) as HF1 by by etransitivity. pose proof (Hbs F HF1) as Ebs.
  rewrite <- !app_assoc in Hi. set (n := w_num w - 1 - max) in *. cbn [read_anonymous].
  rewrite (mbind_Some _ _ _ _ _ (scan_count_ok r n (bs ++ cs ++ rest) ltac:(unfold num_ok; lia) ltac:(rewrite <- Ebs; apply enc_range_head; lia) Hi)).
  rewrite (proj2 (Z.eqb_neq n 0)) by lia. rewrite <- Ebs in Hi |- *.
  destruct (read_range_ok N F HF' ltac:(lia) Hfields true (fun i => w_objects w !! i) (Z.to_nat n) (max + 1) (set_inp (enc_range F (fun i => w_objects w !! i) (max + 1) (Z.to_nat n) ++ cs ++ rest) r) (cs ++ rest))
    as (r1 & H1 & Hi1 & Hr1 & Hn1 & Hg1 & Hs1 & Ho1); [by apply rinv_inp| |done|].
  { split_and!; [lia|lia|]. intros i Hi'. split; [apply (wi_full N w Hw); lia|apply Htab; lia]. }
  rewrite (mbind_Some _ _ _ _ _ H1). apply Hcs; [done|done|done|by rewrite Hn1|done|done| |].
  - intros i Hi'. apply (given_in_table F w w1 (max + 1) (Z.to_nat n)); [done|done|done|lia].
  - intros i Hi'. rewrite Hsame by lia. destruct (decide (max < i)) as [Hlt|Hge]; [apply (Hs1 i); lia|]. apply (Ho1 i); [lia| |].
    + intros Hnone. destruct (decide (i < N)) as [|Hi2]; [done|]. destruct (wi_full N w Hw i ltac:(lia)) as [o Ho]. congruence.
    + apply (Hs i). lia.
Qed.

Lemma rest_written fuel : forall w max, winv N w -> ids_in w -> N - 1 <= max <= w_num w - 1 -> N + Z.of_nat (size U) - 1 - max <= Z.of_nat fuel ->
  exists w1 bs, write_objects fields fuel (w_num w - 1) max w = Some (tt, w1) /\ winv N w1 /\ ids_in w1 /\ wgrows w w1 /\ out w1 = out w ++ bs /\
    (forall rest, no_space rest -> no_space (bs ++ rest)) /\ rest_read fuel w max w1 bs.
Proof.
  induction fuel as [|fuel IH]; intros w max Hw Hin Hmax Hfuel; pose proof (ids_bound w Hw Hin) as Hb; pose proof (wi_num N w Hw) as Hn;
    destruct (decide (max = w_num w - 1)) as [->|Hne]; try lia.
  1, 2: exists (mk_wst (out w ++ text 0) (w_objects w) (w_ids w) (w_num w)), (text 0); split_and!;
    [cbn [write_objects]; by rewrite Z.ltb_irrefl|by destruct Hw; split|done|by split_and!|done|done|apply rest_done].
  destruct (batch_written w (max + 1) (Z.to_nat (w_num w - 1 - max))) as (w1 & bs & H1 & Hw1 & Hin1 & Hg1 & Ho1 & Hbs & Hgiven); [done|done|lia|lia|lia|].
  pose proof Hg1 as (_ & _ & Hnum).
  destruct (IH w1 (w_num w - 1)) as (w2 & cs & H2 & Hw2 & Hin2 & Hg2 & Ho2 & Hns & Hcs); [done|done|lia|lia|].
  rewrite Z2Nat.id in H1, Ho1 by lia. exists w2, (text (w_num w - 1 - max) ++ bs ++ cs). split_and!; [|done|done|by eapply wgrows_trans| | |].
  - cbn [write_objects]. rewrite (proj2 (Z.ltb_lt _ _)) by lia. 
unfold mbindM in H1 |- *. destruct (dbio_write_num _ w) as [[[] w']|]; [|done]. by rewrite H1.
  - by rewrite Ho2, Ho1, <- !app_assoc.
  - intros rest _. rewrite <- !app_assoc. apply text_no_space.
  - apply (rest_step fuel w max w1); done || lia.
Qed.
End batches.

(** C19: the objects of a database are written and read back, when each is
    [storable_object]: no string among its names, definitions and values has a
    line feed (see [line_feed_splits]) or another byte that the file does not
    keep; no value is a waif or an iterator, a map has its keys in strict order
    and no anonymous ones, floats are read back from what is printed for them,
    and numbers and lengths fit the types they are read into.  From any state
    that the rest of the dump has left, [write_objects] returns, and what it
    writes is read from any state that the rest of the load has left: every
    object that was written, the permanent ones and the anonymous ones that
    got a number, is in the table at its number with all its fields, the
    anonymous objects among its values being those of the table; a recycled
    object is not in the table, and no two numbers have the same object. *)
Theorem objects_roundtrip N (U : gset positive) w : 0 < N -> N + Z.of_nat (size U) <= 2 ^ 31 ->
  (forall o, storable_object (fields o) /\ (list_to_set (anons_of_object (fields o)) : gset positive) ⊆ U) ->
  winv N w -> (forall o, is_Some (w_ids w !! o) -> o ∈ U) ->
  exists w1 bs, write_objects fields (S (size U)) (N - 1) (-1) w = Some (tt, w1) /\ out w1 = out w ++ bs /\ w_num w <= w_num w1 /\
    forall r rest, inp r = bs ++ rest -> no_space rest -> rinv N r -> r_num r = 0 -> (forall i, N <= i < w_num w -> is_Some (r_objects r !! i)) ->
      exists r1, read_objects (S (size U)) r = Some (true, r1) /\ inp r1 = rest /\ r_num r1 = N /\
        (forall i, 0 <= i < w_num w1 -> match w_objects w1 !! i with
                                        | Some o => exists p, r_objects r1 !! i = Some p /\ r_mem r1 !! p = Some (Some (decode_object (w_ids w1) (r_objects r1) (fields o)))
                                        | None => r_objects r1 !! i = None
                                        end) /\
        forall i j p, r_objects r1 !! i = Some p -> r_objects r1 !! j = Some p -> i = j.
Proof.
  intros HN Hsize Hf Hw Hin. pose proof (wi_num N w Hw). assert (Hfields := fun o => proj1 (Hf o)). assert (HU := fun o => proj2 (Hf o)).
  destruct (batch_written N U Hfields HU w 0 (Z.to_nat N) Hw Hin) as (w1 & bs & H1 & Hw1 & Hin1 & Hg1 & Ho1 & Hbs & Hgiven); [lia|lia|lia|].
  pose proof Hg1 as (Hids1 & Hsame & Hnum). rewrite Z2Nat.id in H1, Ho1 by lia.
  destruct (rest_written N U Hfields HU Hsize (size U) w1 (N - 1) Hw1 Hin1) as (w2 & cs & H2 & Hw2 & Hin2 & Hg2 & Ho2 & Hns & Hcs); [lia|lia|].
  pose proof Hg2 as (Hids2 & Hsame2 & Hnum2).
  exists w2, (text N ++ bs ++ cs). split_and!; [|by rewrite Ho2, Ho1, <- !app_assoc|lia|].
  - cbn [write_objects]. rewrite (proj2 (Z.ltb_lt _ _)) by lia. replace (N - 1 - -1) with N by lia. change (-1 + 1) with 0.
    unfold mbindM in H1 |- *. destruct (dbio_write_num _ w) as [[[] w']|]; [|done]. by rewrite H1.
  - intros r rest Hi Hrest Hr Hnr Htab. set (F := w_ids w2). pose proof (ids_range N U Hsize w2 Hw2 Hin2) as HF.
    pose proof (Hbs F Hids2) as Ebs. rewrite <- !app_assoc in Hi. unfold read_objects.
    rewrite (mbind_Some _ _ _ _ _ (scan_count_ok r N (bs ++ cs ++ rest) ltac:(unfold num_ok; lia) ltac:(rewrite <- Ebs; apply enc_range_head; lia) Hi)).
    rewrite <- Ebs in *.
    destruct (read_range_ok N F HF ltac:(lia) Hfields false (fun i => w_objects w !! i) (Z.to_nat N) 0 (set_inp (enc_range F (fun i => w_objects w !! i) 0 (Z.to_nat N) ++ cs ++ rest) r) (cs ++ rest))
      as (r1 & H3 & Hi1 & Hr1 & Hn1 & Hg3 & Hs1 & _); [by apply rinv_inp|split; [done|lia]|done|].
    rewrite (mbind_Some _ _ _ _ _ H3).
    destruct (Hcs F r1 rest (reflexivity _) HF Hr1) as (r2 & H4 & Hi2 & Hr2 & Hn2 & Hs2); [lia|done|done| | |].
    + intros i Hi'. destruct (decide (i < w_num w)) as [Hlt|Hge].
      * destruct (Htab i ltac:(lia)) as [p Hp]. exists p. by eapply lookup_weaken.
      * apply (given_in_table F w w1 0 (Z.to_nat N)); [done|done|done|lia].
    + intros i Hi'. rewrite Hsame by lia. apply Hs1. lia.
    + exists r2. split_and!; [done|done|done| |apply (ri_inj N r2 Hr2)]. intros i Hi'. specialize (Hs2 i Hi').
      destruct (w_objects w2 !! i) as [o|]; [|done]. destruct Hs2 as (p & y & Hp & Hy & HT). destruct (HT _ (reflexivity _)) as [-> _]. by exists p.
Qed.

(** C20: a value is written and read back.  [dbio_write_var] returns on every
    [storable] value (no waifs, iterators and line feeds; maps with their keys
    in strict order and no anonymous keys; floats that are read back from what
    is printed for them), and [dbio_read_var] reads exactly what it wrote: the
    value itself, with the objects of the table for the anonymous ones that
    got a number and with the invalid anonymous object for those that are not
    valid. *)
Theorem value_roundtrip N v w : storable v -> winv N w ->
  exists w1 bs, write_var v w = Some (tt, w1) /\ out w1 = out w ++ bs /\ winv N w1 /\
    forall r rest, inp r = bs ++ rest -> w_num w1 <= 2 ^ 31 -> rinv N r ->
      exists r1, read_var r = Some (loaded (w_ids w1) (r_objects r1) v, r1) /\ inp r1 = rest /\ rinv N r1 /\
        forall o, o ∈ value_anons v -> exists i, w_ids w1 !! o = Some i /\ is_Some (r_objects r1 !! i).
Proof.
  intros Hs Hw. destruct (Writes_write_var N v Hs w Hw) as (w1 & bs & H1 & Hw1 & _ & Ha & _ & Ho & He). exists w1, bs. split_and!; [done..|].
  intros r rest Hi Hb Hr. assert (forall o i, w_ids w1 !! o = Some i -> N <= i < 2 ^ 31) as HF.
  { intros o i Hoi. pose proof (wi_range N w1 Hw1 o i Hoi). apply (wi_ids N w1 Hw1) in Hoi. lia. }
  rewrite <- (He _ (reflexivity _)) in Hi. destruct (Reads_read_var N (w_ids w1) HF v Hs r rest Hr Hi) as (y & r1 & H2 & Hi1 & Hr1 & _ & HT).
  destruct (HT _ (reflexivity _)) as [-> Hc]. exists r1. split_and!; [done..|]. intros o Hin. destruct (Ha o Hin) as [i Hi']. exists i. split; [done|].
  by apply (Hc o i).
Qed.

(** C23: a string with a line feed, which [chr] gives to a wizard, is not read
    back: it is written as it is, its first line is read for it, and what
    follows the line feed is read for whatever comes next in the file. *)
Theorem line_feed_splits a b w : line_ok a ->
  exists w1 bs, write_var (VStr (a ++ 10 :: b)) w = Some (tt, w1) /\ out w1 = out w ++ bs /\
    forall r rest, inp r = bs ++ rest -> read_var r = Some (VStr a, set_inp (b ++ 10 :: rest) r).
Proof.
  intros Ha. unfold write_var, dbio_write_var, mbindM. eexists _, (text 2 ++ (a ++ 10 :: b) ++ [10]).
  split_and!; [reflexivity|cbn; by rewrite <- !app_assoc|]. intros r rest Hi. rewrite <- !app_assoc in Hi. unfold read_var. cbn [dbio_read_var].
  rewrite (mbind_Some _ _ _ _ _ (read_num_ok r 2 _ ltac:(unfold num_ok; lia) Hi)). cbv zeta. rewrite no_conversion. change (to_int 2) with 2.
  change (2 =? -1) with false. cbn [andb]. cbv iota. change (2 =? TYPE_CLEAR) with false. change (2 =? TYPE_NONE) with false.
  change (2 =? Z.land TYPE_STR TYPE_DB_MASK) with true. cbv iota.
  by rewrite (mbind_Some _ _ _ _ _ (dbio_read_string_ok (set_inp (a ++ (10 :: b) ++ [10] ++ rest) r) a (b ++ [10] ++ rest) Ha eq_refl)).
Qed.
End objects.

(** ** An example *)

(** Zero is the only floating point number; there are no waifs. *)
Definition ex_env : DbioEnv := {|
  print_float _ := [48]; strtod s := (fzero, drop 1 s); err_num := error_code; read_waif := mfail; write_waif _ := mfail; iterget _ := None;
  anon_valid o := negb (Pos.eqb o 9); waif_conversion_type := Z.land TYPE_WAIF TYPE_DB_MASK; dbio_input_version := 17; clear_last_move := false |}.
Lemma ex_laws : @DbioLaws ex_env.
Proof.
  refine (@Build_DbioLaws ex_env (fun d => d = fzero) _ _ _ _).
  - intros d ->. split; [by repeat constructor|]. split; [cbn; lia|done].
  - intros e. split; [by destruct e|by destruct e].
  - done.
  - done.
Defined.
(** Object 0 refers to the anonymous object 6, that one to itself, to 7 and to
    9, which is not valid; object 1 has been recycled. *)
Definition ex_object (name : bytes) (vals : list Var) : file_object :=
  mk_file_object name 3 0 (VObj (-1)) (VMap [(VStr (str "time"), VInt 5)]) (VList []) (VObj 1) (VList [])
    [mk_file_verb (str "look") 0 5 (-1)] [dbpriv_new_propdef (str "size")] (map (fun v => mk_Pval v 0 1) vals).
Definition ex_fields (o : positive) : file_object :=
  if Pos.eqb o 5 then ex_object (str "root") [VAnon (Some 6%positive); VFloat fzero]
  else if Pos.eqb o 6 then ex_object (str "anon") [VList [VAnon (Some 7%positive); VAnon (Some 6%positive); VAnon (Some 9%positive)]; VErr E_PERM]
  else ex_object (str "leaf") [VClear; VStr (str "text")].
Definition ex_w : wst := mk_wst [] {[0 := 5%positive]} ∅ 2.
Definition ex_r (s : bytes) : rst := mk_rst s ∅ ∅ 0 ∅.

Example dump_and_load :
  match @write_objects ex_env ex_fields 4 1 (-1) ex_w with
  | Some (_, w) => w_num w = 4 /\ match @read_objects ex_env 4 (ex_r (out w ++ str "17")) with
                   | Some (ok, r) => ok = true /\ inp r = str "17" /\ r_num r = 2 /\ map_to_list (r_objects r) <> []
                   | None => False
                   end
  | None => False
  end.
Proof. vm_compute. split_and!; done. Qed.

Definition ex_U : gset positive := {[6%positive; 7%positive; 9%positive]}.

Lemma ex_winv : winv 2 ex_w.
Proof.
  split; cbn.
  - intros o i. rewrite lookup_empty. split; [done|]. intros [[<- <-]%lookup_singleton_Some H]. lia.
  - done.
  - intros i [o [<- <-]%lookup_singleton_Some]. lia.
  - lia.
  - lia.
Qed.
Lemma ex_rinv s : rinv 2 (ex_r s).
Proof. split; cbn; [done|done|by intros i [? ?]|lia]. Qed.
Lemma ex_line s : forallb (fun c => (0 <? c) && (c <? 256) && negb (c =? 10)) s = true -> line_ok s.
Proof. intros H. apply Forall_forall. intros c Hc. rewrite forallb_forall in H. specialize (H c (proj1 (list_elem_of_In _ _) Hc)). lia. Qed.
Lemma ex_object_ok name vals : line_ok name -> (length vals < 4)%nat -> Forall (@storable ex_env ex_laws) vals -> @storable_object ex_env ex_laws (ex_object name vals).
Proof.
  intros Hn Hl Hv. split; cbn [ex_object fo_name fo_flags fo_owner fo_location fo_last_move fo_contents fo_parents fo_children fo_verbs fo_propdefs fo_propvals];
    unfold int_ok, num_ok, size_ok; [done|lia|lia|cbn; unfold num_ok; lia| |by split|cbn; unfold num_ok; lia|by split|..].
  - apply storable_map. split; [cbn; lia|]. split; [by repeat constructor|]. apply Forall_cons. split; [|done]. split_and!; [by apply ex_line|cbn; unfold num_ok; lia|done].
  - split; [cbn; lia|]. apply Forall_cons. split; [|done]. split; [by apply ex_line|unfold num_ok; cbn; lia|unfold short_ok; cbn; lia|unfold short_ok; cbn; lia].
  - split; [cbn; lia|]. apply Forall_cons. split; [|done]. split; [by apply ex_line|done].
  - split; [rewrite length_map; lia|]. apply Forall_map. eapply Forall_impl; [exact Hv|]. intros v Hs. split; [done|unfold num_ok; cbn; lia|unfold short_ok; cbn; lia].
Qed.
Lemma ex_fields_ok o : @storable_object ex_env ex_laws (ex_fields o) /\ (list_to_set (@anons_of_object ex_env (ex_fields o)) : gset positive) ⊆ ex_U.
Proof.
  unfold ex_fields. destruct (Pos.eqb o 5); [|destruct (Pos.eqb o 6)]; (split; [apply ex_object_ok; [by apply ex_line|cbn; lia|]|apply (bool_decide_unpack _); by vm_compute]).
  all: repeat (constructor; [first [done|by apply ex_line|by split_and!]|]); constructor.
Qed.

Lemma objects_roundtrip_witness :
  exists w1 bs, @write_objects ex_env ex_fields (S (size ex_U)) 1 (-1) ex_w = Some (tt, w1) /\ out w1 = bs /\
    exists r1, @read_objects ex_env (S (size ex_U)) (ex_r (bs ++ str "17")) = Some (true, r1) /\ inp r1 = str "17".
Proof.
  destruct (@objects_roundtrip ex_env ex_laws ex_fields 2 ex_U ex_w) as (w1 & bs & H1 & Ho & _ & H); [lia|vm_compute; done|exact ex_fields_ok|exact ex_winv|by intros o [? ?]|].
  exists w1, bs. split; [exact H1|]. split; [exact Ho|].
  destruct (H (ex_r (bs ++ str "17")) (str "17")) as (r1 & H2 & Hi & _); [done|done|apply ex_rinv|done|cbn; lia|].
  exists r1. split; [exact H2|exact Hi].
Defined.
Definition ex_value : Var := VList [VStr (str "text"); VAnon (Some 6%positive); VMap [(VInt 1, VBool true); (VObj 4, VFloat fzero)]; VErr E_PERM].
Lemma ex_map_ok : @storable ex_env ex_laws (VMap [(VInt 1, VBool true); (VObj 4, VFloat fzero)]).
Proof. apply storable_map. split; [cbn; lia|]. split; [by repeat constructor|]. rewrite !Forall_cons. by split_and!. Qed.
Lemma value_roundtrip_witness :
  exists w1 bs, @write_var ex_env ex_value ex_w = Some (tt, w1) /\ out w1 = bs /\
    (w_num w1 <= 2 ^ 31 -> exists r1, @read_var ex_env (ex_r (bs ++ str "17")) = Some (@loaded ex_env (w_ids w1) (r_objects r1) ex_value, r1)).
Proof.
  destruct (@value_roundtrip ex_env ex_laws 2 ex_value ex_w) as (w1 & bs & H1 & Ho & _ & H).
  - apply storable_list. split; [cbn; lia|]. rewrite !Forall_cons. split_and!; [by apply ex_line|done|by apply ex_map_ok|done|constructor].
  - exact ex_winv.
  - exists w1, bs. split; [exact H1|]. split; [exact Ho|]. intros Hb.
    destruct (H (ex_r (bs ++ str "17")) (str "17")) as (r1 & H2 & _); [done|exact Hb|apply ex_rinv|]. by exists r1.
Defined.
Lemma line_feed_splits_witness :
  exists w1 bs, @write_var ex_env (VStr (str "one" ++ 10 :: str "two")) ex_w = Some (tt, w1) /\ out w1 = bs /\
    @read_var ex_env (ex_r bs) = Some (VStr (str "one"), ex_r (str "two" ++ [10])).
Proof.
  destruct (@line_feed_splits ex_env ex_laws (str "one") (str "two") ex_w) as (w1 & bs & H1 & Ho & H); [by apply ex_line|].
  exists w1, bs. split; [exact H1|]. split; [exact Ho|]. rewrite (H (ex_r bs) []); [done|by rewrite app_nil_r].
Defined.
