(* ===== verification/ObjCheck.v ===== *)
(** * The check of the hierarchies of a loaded database (db_file.cc)

    [ng_validate_hierarchies] on the object table: references to objects that
    are not there are removed, then the parents and the locations must have no
    cycles, and parents and children, locations and contents must name each
    other.  That the fields hold objects and lists of objects, which the code
    tests first, is in the type of [Object]; the anonymous objects, which a
    loaded table still holds above [num_objects], are left out.

    [validate_correct] says what it answers; [cleared] is what the removal of
    references gives when it stays within the lists, and
    [validate_reads_past_end] when it does not. *)
From Stdlib Require Import ZArith Lia.
From stdpp Require Import prelude gmap relations.
From S2P Require Import Prelude CString Value ObjCode ObjGraph ObjParents ObjLife ObjTask Objects.

Local Open Scope Z_scope.
Local Open Scope moo_scope.

(** ** The code *)

Definition invalid_ref (d : db) (x : Z) : bool := negb (x =? NOTHING) && negb (valid d x).

(** [CHECK] of the first phase.  [FOR_EACH] takes the length of the list once
    and each element from the list that the field has by then: [n] elements
    from index [i] on. *)
Fixpoint check_list (get : Object -> list Z) (set : list Z -> Object -> Object) (l : loc) (i n : nat) : M db unit :=
  match n with
  | O => mreturn tt
  | S n => fun d =>
    (let! o := load l in
     match get o !! i with
     | None => mfail
     | Some tmp =>
       (if invalid_ref d tmp then update l (fun o => set (obj_setremove (get o) tmp) o) else mreturn tt) ;;
       check_list get set l (S i) n
     end) d
  end.
Definition check_field (get : Object -> Z + list Z) (set : Z + list Z -> Object -> Object) (l : loc) : M db unit := fun d =>
  (let! o := load l in
   match get o with
   | inr xs => check_list (fun o => match get o with inr xs => xs | inl _ => [] end) (fun xs => set (inr xs)) l 0 (length xs)
   | inl x => if invalid_ref d x then update l (set (inl NOTHING)) else mreturn tt
   end) d.

Definition set_children (xs : Z + list Z) : Object -> Object := match xs with inr l => with_children l | inl _ => id end.
Definition set_contents (xs : Z + list Z) : Object -> Object := match xs with inr l => with_contents l | inl _ => id end.
Definition set_location (x : Z + list Z) : Object -> Object := match x with inl x => with_location x | inr _ => id end.

Definition check_fields (l : loc) : M db unit :=
  check_field parents with_parents l ;;
  check_field (fun o => inr (children o)) set_children l ;;
  check_field (fun o => inl (location o)) set_location l ;;
  check_field (fun o => inr (contents o)) set_contents l.
(** The first phase, on [n] numbers from [oid] on *)
Fixpoint check_invalid (oid : Z) (n : nat) : M db unit :=
  match n with
  | O => mreturn tt
  | S n => fun d =>
    ((match dbpriv_find_object d oid with Some l => check_fields l | None => mreturn tt end) ;;
     check_invalid (oid + 1) n) d
  end.

(** [ismember] of an object *)
Definition is_member (x : Z) (l : list Var) : bool :=
  existsb (fun v => match equality (VObj x) v true with Some b => b | None => false end) l.

(** The second phase: is there a cycle? *)
Fixpoint check_cycles (fuel : nat) (oid : Z) (n : nat) (broken : bool) : M db bool :=
  match n with
  | O => mreturn broken
  | S n => fun d =>
    (let! broken :=
       match dbpriv_find_object d oid with
       | Some _ =>
         let! all := db_ancestors fuel (VObj oid) false in
         let broken := is_member oid all || broken in
         let! all := db_all_locations fuel (VObj oid) false in
         mreturn (is_member oid all || broken)
       | None => mreturn broken
       end in
     check_cycles fuel (oid + 1) n broken) d
  end.

(** [CHECK] of the third phase: is [oid] in the field [down] of all of
    [tmps]?  No result where a null object is dereferenced. *)
Fixpoint check_inverse (down : Object -> Z + list Z) (oid : Z) (tmps : list Z) : M db bool :=
  match tmps with
  | [] => mreturn true
  | tmp :: tmps =>
    if tmp =? NOTHING then check_inverse down oid tmps
    else
      let! l := slot tmp in
      let! otmp := load l in
      if is_member oid (VObj <$> enlist (down otmp)) then check_inverse down oid tmps else mreturn false
  end.
Definition check_object (oid : Z) (o : Object) : M db bool :=
  let! b1 := check_inverse contents_of oid (enlist (location_of o)) in
  let! b2 := check_inverse location_of oid (enlist (contents_of o)) in
  let! b3 := check_inverse children_of oid (enlist (parents o)) in
  let! b4 := check_inverse parents oid (enlist (children_of o)) in
  mreturn (b1 && b2 && b3 && b4).
Fixpoint check_consistent (oid : Z) (n : nat) (ok : bool) : M db bool :=
  match n with
  | O => mreturn ok
  | S n => fun d =>
    (let! b := match dbpriv_find_object d oid with Some l => let! o := load l in check_object oid o | None => mreturn true end in
     check_consistent (oid + 1) n (b && ok)) d
  end.

Definition ng_validate_hierarchies (fuel : nat) : M db bool := fun d =>
  let size := Z.to_nat (db_last_used_objid d + 1) in
  (check_invalid 0 size ;;
   let! broken := check_cycles fuel 0 size false in
   if broken then mreturn false else check_consistent 0 size true) d.

(** ** The first phase *)

(** What the removal of references leaves of a field, and whether it stays
    within the lists: only the last reference is to an object that is not
    there. *)
Definition cleared (d : db) (l : list Z) : list Z := filter (fun x => invalid_ref d x = false) l.
Definition stays (d : db) (l : list Z) : bool := forallb (fun x => negb (invalid_ref d x)) (removelast l).
Definition cleared_field (d : db) (f : Z + list Z) : Z + list Z :=
  match f with inr l => inr (cleared d l) | inl x => inl (if invalid_ref d x then NOTHING else x) end.
Definition stays_field (d : db) (f : Z + list Z) : bool := match f with inr l => stays d l | inl _ => true end.

Lemma cleared_ok d l : Forall (fun x => invalid_ref d x = false) l -> cleared d l = l.
Proof. induction 1 as [|x l Hx _ IH]; [done|]. unfold cleared in *. rewrite filter_cons_True by done. by rewrite IH. Qed.
Lemma cleared_snoc d l x : Forall (fun x => invalid_ref d x = false) l -> invalid_ref d x = true -> cleared d (l ++ [x]) = l.
Proof.
  intros Hl Hx. unfold cleared. rewrite filter_app, filter_cons_False by congruence. rewrite filter_nil, app_nil_r. by apply cleared_ok.
Qed.
Lemma setremove_snoc d l x : Forall (fun x => invalid_ref d x = false) l -> invalid_ref d x = true -> obj_setremove (l ++ [x]) x = l.
Proof.
  intros Hl Hx. induction Hl as [|y l Hy _ IH]; cbn; [by rewrite Z.eqb_refl|]. destruct (Z.eqb_spec y x) as [->|]; [congruence|]. by rewrite IH.
Qed.
Lemma setremove_length l x : (length (obj_setremove l x) <= length l)%nat.
Proof. induction l as [|y l IH]; cbn; [lia|]. destruct (y =? x); cbn; lia. Qed.
Lemma setremove_in l x : x ∈ l -> S (length (obj_setremove l x)) = length l.
Proof. induction 1 as [y l|y z l Hy IH]; cbn; [by rewrite Z.eqb_refl|]. destruct (z =? y); [done|]. cbn. by rewrite IH. Qed.
Lemma update_heap d l f o : obj_heap d !! l = Some o -> update l f d = Some (tt, with_heap (<[l := f o]> (obj_heap d)) d).
Proof. intros Ho. unfold update. by rewrite Ho. Qed.

Lemma mbind_None {S A B} (m : M S A) (k : A -> M S B) s : m s = None -> mbindM m k s = None.
Proof. intros H. unfold mbindM. by rewrite H. Qed.

Section lists.
Context (get : Object -> list Z) (set : list Z -> Object -> Object) (P : Object -> Prop).
Hypothesis get_set : forall xs o, P o -> get (set xs o) = xs /\ P (set xs o).

(** Once the list is shorter than the count, the loop reads past its end. *)
Lemma check_list_stale n : forall d l o i, P o -> obj_heap d !! l = Some o -> (length (get o) < i + S n)%nat -> check_list get set l i (S n) d = None.
Proof.
  induction n as [|n IH]; intros d l o i HP Ho Hl; cbn [check_list]; erewrite mbind_Some by (by apply load_eq); cbv beta.
  - by rewrite lookup_ge_None_2 by lia.
  - destruct (get o !! i) as [tmp|]; [|done]. destruct (invalid_ref d tmp).
    + erewrite mbind_Some by (by apply update_heap). destruct (get_set (obj_setremove (get o) tmp) o HP) as [Hg HP'].
      apply (IH _ l (set (obj_setremove (get o) tmp) o)); [done|cbn; apply lookup_insert_eq|]. rewrite Hg. pose proof (setremove_length (get o) tmp). lia.
    + erewrite mbind_Some by reflexivity. apply (IH d l o); [done|done|lia].
Qed.
Lemma check_list_eq suf : forall pre d l o, P o -> obj_heap d !! l = Some o -> get o = pre ++ suf -> Forall (fun x => invalid_ref d x = false) pre ->
  check_list get set l (length pre) (length suf) d =
    if stays d suf then if existsb (invalid_ref d) suf then update l (fun o => set (cleared d (get o)) o) d else Some (tt, d) else None.
Proof.
  induction suf as [|x suf IH]; intros pre d l o HP Ho Hg Hpre; [done|].
  assert (get o !! length pre = Some x) as Hx by (rewrite Hg, lookup_app_r, Nat.sub_diag by lia; done).
  cbn [length check_list]. erewrite mbind_Some by (by apply load_eq). cbv beta. rewrite Hx. destruct (invalid_ref d x) eqn:Ex.
  - erewrite mbind_Some by (by apply update_heap). destruct suf as [|y suf].
    + unfold stays. cbn [removelast forallb length check_list existsb]. rewrite Ex. cbn [orb]. rewrite (update_heap d l _ o Ho).
      rewrite Hg, (cleared_snoc d), (setremove_snoc d) by done. done.
    + replace (stays d (x :: y :: suf)) with false by (unfold stays; cbn [removelast forallb]; by rewrite Ex). cbn [length].
      destruct (get_set (obj_setremove (get o) x) o HP) as [Hg' HP']. eapply check_list_stale; [exact HP'|cbn; apply lookup_insert_eq|]. rewrite Hg'.
      assert (x ∈ get o) as Hin by (rewrite Hg; set_solver). apply setremove_in in Hin. rewrite Hg in Hin |- *. rewrite length_app in Hin. cbn in Hin. lia.
  - erewrite mbind_Some by reflexivity. specialize (IH (pre ++ [x]) d l o HP Ho). rewrite length_app in IH. cbn [length] in IH.
    replace (length pre + 1)%nat with (S (length pre)) in IH by lia. rewrite IH; [|by rewrite <- app_assoc|apply Forall_app; by repeat constructor].
    unfold stays. destruct suf as [|y suf]; cbn [removelast forallb existsb]; by rewrite Ex.
Qed.
End lists.

Definition obj_field (get : Object -> Z + list Z) (set : Z + list Z -> Object -> Object) : Prop :=
  (forall o, set (get o) o = o) /\ (forall f o, obj_id (set f o) = obj_id o) /\
  forall xs ys o, get o = inr xs -> get (set (inr ys) o) = inr ys.
Definition clear_field (get : Object -> Z + list Z) (set : Z + list Z -> Object -> Object) (d : db) (o : Object) : Object := set (cleared_field d (get o)) o.

Lemma check_field_ok get set d oid l o : obj_field get set -> table_inv d -> dbpriv_find_object d oid = Some l -> obj_heap d !! l = Some o ->
  if stays_field d (get o) then exists d', check_field get set l d = Some (tt, d') /\ edited d d' (at_one oid (clear_field get set d)) else check_field get set l d = None.
Proof.
  intros (F1 & F2 & F3) Hti Hl Ho. unfold check_field. erewrite mbind_Some by (by apply load_eq). cbv beta.
  assert (forall f, f o = o -> edited d d (at_one oid f)) as Hsame.
  { intros f Hf. eapply edited_ext; [apply edited_refl|]. intros x p Hp. unfold at_one. case_decide as E; [|done]. subst x.
    assert (p = o) as ->; [|done]. unfold object_of in Hp. rewrite Hl in Hp. cbn in Hp. congruence. }
  destruct (get o) as [x|xs] eqn:Eg; cbn [stays_field].
  - destruct (invalid_ref d x) eqn:Ex.
    + destruct (update_edited d oid l o (set (inl NOTHING)) Hti Hl Ho) as (d' & E & Hed). exists d'. split; [done|].
      eapply edited_ext; [exact Hed|]. intros y p Hp. unfold at_one. case_decide as E'; [|done]. subst y.
      assert (p = o) as -> by (unfold object_of in Hp; rewrite Hl in Hp; cbn in Hp; congruence). unfold clear_field. rewrite Eg. cbn. by rewrite Ex.
    + exists d. split; [done|]. apply Hsame. unfold clear_field. rewrite Eg. cbn. by rewrite Ex, <- Eg, F1.
  - pose proof (check_list_eq (fun o => match get o with inr xs => xs | inl _ => [] end) (fun xs => set (inr xs)) (fun o => exists xs, get o = inr xs)) as Hc.
    specialize (Hc ltac:(intros ys p [zs Hz]; rewrite (F3 zs ys p Hz); split; [done|by eexists]) xs [] d l o ltac:(by eexists) Ho ltac:(cbv beta; by rewrite Eg) ltac:(constructor)).
    cbn [length] in Hc. rewrite Hc. destruct (stays d xs); [|done]. destruct (existsb (invalid_ref d) xs) eqn:Ee.
    + destruct (update_edited d oid l o (fun o => set (inr (cleared d match get o with inr xs => xs | inl _ => [] end)) o) Hti Hl Ho) as (d' & E & Hed).
      exists d'. split; [done|]. eapply edited_ext; [exact Hed|]. intros y p Hp. unfold at_one. case_decide as E'; [|done]. subst y.
      assert (p = o) as -> by (unfold object_of in Hp; rewrite Hl in Hp; cbn in Hp; congruence). unfold clear_field. by rewrite Eg.
    + exists d. split; [done|]. apply Hsame. unfold clear_field. rewrite Eg. cbn [cleared_field].
      rewrite cleared_ok, <- Eg, F1; [done|]. apply Forall_forall. intros y Hy. destruct (invalid_ref d y) eqn:Ey; [|done].
      enough (existsb (invalid_ref d) xs = true) by congruence. apply existsb_exists. exists y. split; [by apply list_elem_of_In|done].
Qed.

Lemma parents_field : obj_field parents with_parents.
Proof. split_and!; [by intros []|done|done]. Qed.
Lemma children_field : obj_field children_of set_children.
Proof. split_and!; [by intros []|by intros []|done]. Qed.
Lemma location_field : obj_field location_of set_location.
Proof. split_and!; [by intros []|by intros []|done]. Qed.
Lemma contents_field : obj_field contents_of set_contents.
Proof. split_and!; [by intros []|by intros []|done]. Qed.

(** What is left of an object *)
Definition clear_object (d : db) (o : Object) : Object :=
  mk_Object (obj_id o) (owner o) (name o) (flags o) (cleared_field d (parents o)) (cleared d (children o))
    (if invalid_ref d (location o) then NOTHING else location o) (cleared d (contents o)).
Definition stays_object (d : db) (o : Object) : bool := match parents o with inr l => stays d l | inl _ => true end && stays d (children o) && stays d (contents o).

Lemma invalid_edited d d' f x : edited d d' f -> invalid_ref d' x = invalid_ref d x.
Proof. intros Hed. unfold invalid_ref. by rewrite (edited_valid _ _ _ _ Hed). Qed.
Lemma cleared_edited d d' f l : edited d d' f -> cleared d' l = cleared d l.
Proof. intros Hed. unfold cleared. apply list_filter_iff. intros x. by rewrite (invalid_edited _ _ _ _ Hed). Qed.
Lemma stays_edited d d' f l : edited d d' f -> stays d' l = stays d l.
Proof. intros Hed. unfold stays. induction (removelast l) as [|x r IH]; [done|]. cbn. by rewrite IH, (invalid_edited _ _ _ _ Hed). Qed.
Lemma cleared_field_edited d d' f x : edited d d' f -> cleared_field d' x = cleared_field d x.
Proof. intros Hed. destruct x; cbn; [by rewrite (invalid_edited _ _ _ _ Hed)|by rewrite (cleared_edited _ _ _ _ Hed)]. Qed.
Lemma stays_field_edited d d' f x : edited d d' f -> stays_field d' x = stays_field d x.
Proof. intros Hed. destruct x; cbn; [done|by apply (stays_edited _ _ f)]. Qed.

(** One field after an edit of the same object *)
Lemma check_next get set d d' f oid l o : obj_field get set -> table_inv d -> dbpriv_find_object d oid = Some l -> obj_heap d !! l = Some o ->
  edited d d' (at_one oid f) -> (forall o, obj_id (f o) = obj_id o) -> get (f o) = get o ->
  if stays_field d (get o) then exists d2, check_field get set l d' = Some (tt, d2) /\ edited d d2 (at_one oid (fun o => clear_field get set d (f o)))
  else check_field get set l d' = None.
Proof.
  intros Hf Hti Hl Ho Hed Hid Hg. assert (object_of d oid = Some o) as Hof by (unfold object_of; by rewrite Hl).
  assert (table_inv d') as Hti' by (eapply edited_table; [exact Hed|done|]; intros x p; unfold at_one; case_decide; [apply Hid|done]).
  assert (object_of d' oid = Some (f o)) as Hof' by (rewrite (ed_of _ _ _ Hed), Hof; cbn; unfold at_one; by rewrite decide_True).
  destruct (object_slot d' oid _ Hof') as (l' & Hl' & Ho'). rewrite (edited_find _ _ _ _ Hed), Hl in Hl'. injection Hl' as <-.
  pose proof (check_field_ok get set d' oid l (f o) Hf Hti' ltac:(by rewrite (edited_find _ _ _ _ Hed)) Ho') as H.
  rewrite Hg, (stays_field_edited d d' _ _ Hed) in H. destruct (stays_field d (get o)); [|done]. destruct H as (d2 & E & Hed2). exists d2. split; [done|].
  eapply edited_ext; [by eapply edited_trans|]. intros x p _. cbn. unfold at_one. case_decide; [|done]. unfold clear_field. by rewrite (cleared_field_edited _ _ _ _ Hed).
Qed.

Lemma check_fields_ok d oid l o : table_inv d -> dbpriv_find_object d oid = Some l -> obj_heap d !! l = Some o ->
  if stays_object d o then exists d', check_fields l d = Some (tt, d') /\ edited d d' (at_one oid (clear_object d)) else check_fields l d = None.
Proof.
  intros Hti Hl Ho. unfold check_fields, stays_object. change (match parents o with inr l => stays d l | inl _ => true end) with (stays_field d (parents o)).
  pose proof (check_field_ok parents with_parents d oid l o parents_field Hti Hl Ho) as H1.
  destruct (stays_field d (parents o)); [|by rewrite (mbind_None _ _ _ H1)]. destruct H1 as (d1 & E1 & Hed1). erewrite mbind_Some by exact E1.
  pose proof (check_next children_of set_children d d1 _ oid l o children_field Hti Hl Ho Hed1 ltac:(done) ltac:(done)) as H2.
  cbn [andb]. change (stays d (children o)) with (stays_field d (children_of o)). destruct (stays_field d (children_of o)); [|by rewrite (mbind_None _ _ _ H2)].
  destruct H2 as (d2 & E2 & Hed2). erewrite mbind_Some by exact E2.
  pose proof (check_next location_of set_location d d2 _ oid l o location_field Hti Hl Ho Hed2 ltac:(done) ltac:(done)) as H3. cbn [stays_field location_of] in H3.
  destruct H3 as (d3 & E3 & Hed3). erewrite mbind_Some by exact E3.
  pose proof (check_next contents_of set_contents d d3 _ oid l o contents_field Hti Hl Ho Hed3 ltac:(done) ltac:(done)) as H4.
  cbn [andb]. change (stays d (contents o)) with (stays_field d (contents_of o)). destruct (stays_field d (contents_of o)); [|done].
  destruct H4 as (d4 & E4 & Hed4). exists d4. split; [exact E4|]. done.
Qed.

Definition in_range (oid : Z) (n : nat) (x : Z) : Prop := oid <= x < oid + Z.of_nat n.
#[global] Instance in_range_dec oid n x : Decision (in_range oid n x) := ltac:(unfold in_range; apply _).

Lemma clear_object_edited d d' f o : edited d d' f -> clear_object d' o = clear_object d o.
Proof.
  intros Hed. unfold clear_object. by rewrite (cleared_field_edited _ _ _ _ Hed), !(cleared_edited _ _ _ _ Hed), (invalid_edited _ _ _ _ Hed).
Qed.
Lemma stays_object_edited d d' f o : edited d d' f -> stays_object d' o = stays_object d o.
Proof. intros Hed. unfold stays_object. rewrite !(stays_edited _ _ _ _ Hed). by destruct (parents o); rewrite ?(stays_edited _ _ _ _ Hed). Qed.

(** One number: what the loop does first *)
Lemma check_one d oid : table_inv d -> (forall o, object_of d oid = Some o -> stays_object d o = true) ->
  exists d', match dbpriv_find_object d oid with Some l => check_fields l | None => mreturn tt end d = Some (tt, d') /\ edited d d' (at_one oid (clear_object d)).
Proof.
  intros Hti Hs. destruct (dbpriv_find_object d oid) as [l|] eqn:El.
  - destruct (ti_table d Hti oid l El) as [o Ho]. pose proof (check_fields_ok d oid l o Hti El Ho) as H. rewrite Hs in H; [done|]. unfold object_of. by rewrite El.
  - exists d. split; [done|]. eapply edited_ext; [apply edited_refl|]. intros x o Ho. unfold at_one. case_decide as E; [|done]. subst x.
    unfold object_of in Ho. by rewrite El in Ho.
Qed.
Lemma check_invalid_ok n : forall oid d, table_inv d -> (forall x o, in_range oid n x -> object_of d x = Some o -> stays_object d o = true) ->
  exists d', check_invalid oid n d = Some (tt, d') /\ edited d d' (fun x o => if decide (in_range oid n x) then clear_object d o else o).
Proof.
  induction n as [|n IH]; intros oid d Hti Hs; cbn [check_invalid].
  { exists d. split; [done|]. eapply edited_ext; [apply edited_refl|]. intros x o _. rewrite decide_False; [done|]. unfold in_range. lia. }
  destruct (check_one d oid Hti) as (d1 & E1 & Hed1); [intros o; apply Hs; unfold in_range; lia|]. erewrite mbind_Some by exact E1.
  destruct (IH (oid + 1) d1) as (d2 & E2 & Hed2).
  - eapply edited_table; [exact Hed1|done|]. intros x o. unfold at_one. by case_decide.
  - intros x o Hx. rewrite (ed_of _ _ _ Hed1), (stays_object_edited _ _ _ _ Hed1). destruct (object_of d x) as [p|] eqn:Ep; [|done]. cbn. unfold at_one.
    rewrite decide_False by (unfold in_range in Hx; lia). intros [= <-]. apply (Hs x); [unfold in_range in *; lia|done].
  - exists d2. split; [done|]. eapply edited_ext; [by eapply edited_trans|]. intros x o _. cbn. unfold at_one. rewrite (clear_object_edited _ _ _ _ Hed1).
    unfold in_range. destruct (decide (x = oid)) as [->|Hne].
    + rewrite decide_False, decide_True by lia. done.
    + destruct (decide (oid + 1 <= x < oid + 1 + Z.of_nat n)); [rewrite decide_True by lia|rewrite decide_False by lia]; done.
Qed.
Lemma check_invalid_out n : forall oid d x o, table_inv d -> in_range oid n x -> object_of d x = Some o -> stays_object d o = false -> check_invalid oid n d = None.
Proof.
  induction n as [|n IH]; intros oid d x o Hti Hx Ho Hs; [unfold in_range in Hx; lia|]. cbn [check_invalid].
  destruct (decide (x = oid)) as [->|Hne].
  - destruct (object_slot d oid o Ho) as (l & Hl & Hh). rewrite Hl. pose proof (check_fields_ok d oid l o Hti Hl Hh) as H. rewrite Hs in H. by apply mbind_None.
  - destruct (match object_of d oid with Some p => negb (stays_object d p) | None => false end) eqn:E.
    + destruct (object_of d oid) as [p|] eqn:Ep; [|done]. destruct (object_slot d oid p Ep) as (l & Hl & Hh). rewrite Hl.
      pose proof (check_fields_ok d oid l p Hti Hl Hh) as H. apply negb_true_iff in E. rewrite E in H. by apply mbind_None.
    + destruct (check_one d oid Hti) as (d1 & E1 & Hed1); [intros p Hp; rewrite Hp in E; by apply negb_false_iff in E|]. erewrite mbind_Some by exact E1.
      apply (IH (oid + 1) d1 x o); [|unfold in_range in *; lia| |by rewrite (stays_object_edited _ _ _ _ Hed1)].
      * eapply edited_table; [exact Hed1|done|]. intros y p. unfold at_one. by case_decide.
      * rewrite (ed_of _ _ _ Hed1), Ho. cbn. unfold at_one. by rewrite decide_False.
Qed.

(** ** The second phase *)

Lemma is_member_objs x l : is_member x (VObj <$> l) = bool_decide (x ∈ l).
Proof.
  induction l as [|y l IH]; [done|]. unfold is_member in *. cbn [fmap list_fmap existsb]. rewrite IH. cbn [equality].
  destruct (Z.eqb_spec x y) as [->|Hne]; cbn; [symmetry; apply bool_decide_eq_true; by left|]. apply bool_decide_ext. set_solver.
Qed.

Lemma table_with_cache c d : table_inv d -> table_inv (with_cache c d).
Proof. by intros [H1 H2 H3 H4 H5 H6]; split. Qed.

Definition cyclic (d : db) (x : Z) : Prop := tc (edge parents d) x x \/ tc (edge location_of d) x x.

Lemma check_cycle_one fuel d x o : table_inv d -> cache_ok d -> object_of d x = Some o -> (walk_fuel d <= fuel)%nat ->
  exists c b, (forall broken, (let! all := db_ancestors fuel (VObj x) false in
                               let broken := is_member x all || broken in
                               let! all := db_all_locations fuel (VObj x) false in
                               mreturn (is_member x all || broken)) d = Some (b || broken, with_cache c d)) /\
    cache_ok (with_cache c d) /\ (b = true <-> cyclic d x).
Proof.
  intros Hti Hc Ho Hf. destruct (db_ancestors_ok fuel d x o false Hti Hc Ho Hf) as (new & c & Hnew & Hcok & E).
  destruct (ancestors_list_ok d o Hti) as (new' & Hnew' & _ & Hin). rewrite Hnew in Hnew'. injection Hnew' as <-.
  destruct (object_slot d x o Ho) as (l & Hl & Hh).
  destruct (db_traverse_ok location_of fuel (with_cache c d) (VObj x) false l o) as (locs & E2 & _ & Hlocs).
  { apply (ti_table d Hti). } { by apply slot_eq. } { done. } { by apply (nothing_invalid d). } { unfold walk_fuel in Hf. cbn. lia. }
  exists c, (bool_decide (x ∈ locs) || bool_decide (x ∈ new)). split; [|split; [done|]].
  - intros broken. erewrite mbind_Some by exact E. cbv beta zeta. unfold db_all_locations. change (fun o => inl (location o)) with location_of.
    erewrite mbind_Some by exact E2. cbn [app]. rewrite !is_member_objs. unfold mreturn. by rewrite orb_assoc.
  - rewrite orb_true_iff, !bool_decide_eq_true, Hin, Hlocs, (below_tc d parents x o x Ho). unfold cyclic.
    change (members_below location_of (with_cache c d) o x) with (members_below location_of d o x). rewrite (below_tc d location_of x o x Ho). tauto.
Qed.
Lemma check_cycles_ok fuel n : forall oid broken d, table_inv d -> cache_ok d -> (walk_fuel d <= fuel)%nat ->
  exists c b, check_cycles fuel oid n broken d = Some (b, with_cache c d) /\ cache_ok (with_cache c d) /\
    (b = true <-> broken = true \/ exists x, in_range oid n x /\ cyclic d x).
Proof.
  induction n as [|n IH]; intros oid broken d Hti Hc Hf; cbn [check_cycles].
  { exists (ancestor_cache d), broken. split; [by destruct d|]. split; [by destruct d|]. split; [by left|]. intros [|(x & Hx & _)]; [done|unfold in_range in Hx; lia]. }
  assert (exists c b, (match dbpriv_find_object d oid with
       | Some _ =>
         let! all := db_ancestors fuel (VObj oid) false in
         let broken := is_member oid all || broken in
         let! all := db_all_locations fuel (VObj oid) false in
         mreturn (is_member oid all || broken)
       | None => mreturn broken
       end) d = Some (b, with_cache c d) /\ cache_ok (with_cache c d) /\ (b = true <-> broken = true \/ cyclic d oid)) as (c & b & E & Hcok & Hb).
  { destruct (dbpriv_find_object d oid) as [l|] eqn:El.
    - destruct (ti_table d Hti oid l El) as [o Ho]. assert (object_of d oid = Some o) as Hof by (unfold object_of; by rewrite El).
      destruct (check_cycle_one fuel d oid o Hti Hc Hof Hf) as (c & b & E & Hcok & Hb). exists c, (b || broken). split; [apply E|]. split; [done|].
      rewrite orb_true_iff, Hb. tauto.
    - exists (ancestor_cache d), broken. split; [by destruct d|]. split; [by destruct d|]. split; [by left|]. intros [|H]; [done|].
      assert (exists y, edge parents d oid y \/ edge location_of d oid y) as (y & [(o & Ho & _)|(o & Ho & _)]).
      { destruct H as [H|H]; inversion H; subst; eexists; eauto. }
      all: unfold object_of in Ho; by rewrite El in Ho. }
  erewrite mbind_Some by exact E. destruct (IH (oid + 1) b (with_cache c d)) as (c2 & b2 & E2 & Hc2 & Hb2); [by apply table_with_cache|done|done|].
  exists c2, b2. split; [exact E2|]. split; [exact Hc2|]. rewrite Hb2, Hb. split.
  - intros [[|H]|(x & Hx & H)]; [by left|right; exists oid; split; [unfold in_range; lia|done]|right; exists x; split; [unfold in_range in *; lia|exact H]].
  - intros [|(x & Hx & H)]; [by left; left|]. destruct (decide (x = oid)) as [->|Hne]; [by left; right|right; exists x]. split; [unfold in_range in *; lia|exact H].
Qed.

(** ** The third phase *)

(** Every reference to an object or to [NOTHING] *)
Definition refs_ok (d : db) (f : Z + list Z) : Prop := Forall (fun x => invalid_ref d x = false) (enlist f).
Record all_refs_ok (d : db) : Prop := {
  ar_parents : forall x o, object_of d x = Some o -> refs_ok d (parents o);
  ar_children : forall x o, object_of d x = Some o -> refs_ok d (children_of o);
  ar_location : forall x o, object_of d x = Some o -> refs_ok d (location_of o);
  ar_contents : forall x o, object_of d x = Some o -> refs_ok d (contents_of o) }.

(** Every object among [tmps] has [oid] in the field [down]. *)
Definition linked (d : db) (down : Object -> Z + list Z) (oid : Z) (tmps : list Z) : Prop :=
  forall t, t ∈ tmps -> t <> NOTHING -> exists p, object_of d t = Some p /\ oid ∈ enlist (down p).

Lemma ref_valid d x : invalid_ref d x = false -> x <> NOTHING -> valid d x = true.
Proof. unfold invalid_ref. destruct (Z.eqb_spec x NOTHING); [done|]. by destruct (valid d x). Qed.
Lemma check_inverse_ok d down oid tmps : table_ok d -> Forall (fun x => invalid_ref d x = false) tmps ->
  exists b, check_inverse down oid tmps d = Some (b, d) /\ (b = true <-> linked d down oid tmps).
Proof.
  intros Ht. induction 1 as [|t tmps Hv _ IH]; cbn [check_inverse].
  { exists true. split; [done|]. split; [|done]. by intros _ t ?%not_elem_of_nil. }
  destruct IH as (b & E & Hb). destruct (Z.eqb_spec t NOTHING) as [->|Hne].
  { exists b. split; [done|]. rewrite Hb. unfold linked. split; intros H u; [intros [->|Hu]%elem_of_cons; [done|by apply H]|intros Hu; apply H; by right]. }
  destruct (valid_object d t Ht (ref_valid d t Hv Hne)) as [p Hp]. destruct (object_slot d t p Hp) as (l & Hl & Hh).
  erewrite mbind_Some by (by apply slot_eq). cbv beta. erewrite mbind_Some by (by apply load_eq). cbv beta. rewrite is_member_objs.
  destruct (bool_decide (oid ∈ enlist (down p))) eqn:Em.
  - apply bool_decide_eq_true in Em. exists b. split; [done|]. rewrite Hb. unfold linked.
    split; intros H u; [intros [->|Hu]%elem_of_cons Hn; [by exists p|by apply H]|intros Hu; apply H; by right].
  - apply bool_decide_eq_false in Em. exists false. split; [done|]. split; [done|]. intros H. destruct (H t (list_elem_of_here _ _) Hne) as (q & Hq & Hin). congruence.
Qed.
Definition object_linked (d : db) (x : Z) (o : Object) : Prop :=
  linked d contents_of x (enlist (location_of o)) /\ linked d location_of x (enlist (contents_of o)) /\
  linked d children_of x (enlist (parents o)) /\ linked d parents x (enlist (children_of o)).
Lemma check_object_ok d x o : table_ok d -> all_refs_ok d -> object_of d x = Some o ->
  exists b, check_object x o d = Some (b, d) /\ (b = true <-> object_linked d x o).
Proof.
  intros Ht [R1 R2 R3 R4] Ho. unfold check_object.
  destruct (check_inverse_ok d contents_of x (enlist (location_of o)) Ht (R3 x o Ho)) as (b1 & E1 & H1). erewrite mbind_Some by exact E1.
  destruct (check_inverse_ok d location_of x (enlist (contents_of o)) Ht (R4 x o Ho)) as (b2 & E2 & H2). erewrite mbind_Some by exact E2.
  destruct (check_inverse_ok d children_of x (enlist (parents o)) Ht (R1 x o Ho)) as (b3 & E3 & H3). erewrite mbind_Some by exact E3.
  destruct (check_inverse_ok d parents x (enlist (children_of o)) Ht (R2 x o Ho)) as (b4 & E4 & H4). erewrite mbind_Some by exact E4.
  exists (b1 && b2 && b3 && b4). split; [done|]. rewrite !andb_true_iff, H1, H2, H3, H4. unfold object_linked. tauto.
Qed.
Lemma check_consistent_ok n : forall oid ok d, table_ok d -> all_refs_ok d ->
  exists b, check_consistent oid n ok d = Some (b, d) /\
    (b = true <-> ok = true /\ forall x o, in_range oid n x -> object_of d x = Some o -> object_linked d x o).
Proof.
  induction n as [|n IH]; intros oid ok d Ht Hr; cbn [check_consistent].
  { exists ok. split; [done|]. split; [|by intros []]. intros H. split; [done|]. intros x o Hx. unfold in_range in Hx. lia. }
  assert (exists b, (match dbpriv_find_object d oid with Some l => let! o := load l in check_object oid o | None => mreturn true end) d = Some (b, d) /\
    (b = true <-> forall o, object_of d oid = Some o -> object_linked d oid o)) as (b & E & Hb).
  { destruct (dbpriv_find_object d oid) as [l|] eqn:El.
    - destruct (Ht oid l El) as [o Ho]. assert (object_of d oid = Some o) as Hof by (unfold object_of; by rewrite El).
      destruct (check_object_ok d oid o Ht Hr Hof) as (b & E & Hb). exists b. erewrite mbind_Some by (by apply load_eq). split; [exact E|].
      rewrite Hb. split; [intros H p Hp; congruence|auto].
    - exists true. split; [done|]. split; [|done]. intros _ o Ho. unfold object_of in Ho. by rewrite El in Ho. }
  erewrite mbind_Some by exact E. destruct (IH (oid + 1) (b && ok) d Ht Hr) as (b2 & E2 & Hb2). exists b2. split; [exact E2|].
  rewrite Hb2, andb_true_iff, Hb. split.
  - intros [[H1 H2] H3]. split; [done|]. intros x o Hx Ho. destruct (decide (x = oid)) as [->|]; [by apply H1|apply H3; [unfold in_range in *; lia|done]].
  - intros [H1 H2]. split; [split; [|done]|].
    + intros o. apply H2. unfold in_range. lia.
    + intros x o Hx. apply H2. unfold in_range in *. lia.
Qed.

(** ** What is accepted *)

(** [up] and [down] name each other, and [up] has no cycle. *)
Record hierarchy (d : db) (up down : Object -> Z + list Z) : Prop := {
  hi_inverse : forall x y, edge up d x y <-> edge down d y x;
  hi_acyclic : forall x, ~ tc (edge up d) x x }.

Lemma linked_edges d up down : table_inv d -> (forall x o, object_of d x = Some o -> refs_ok d (up o)) ->
  (forall x o, object_of d x = Some o -> linked d down x (enlist (up o))) <-> forall x y, edge up d x y -> edge down d y x.
Proof.
  intros Hti Hr. split.
  - intros H x y (o & Ho & Hy & Hv). destruct (H x o Ho y Hy) as (p & Hp & Hin); [intros ->; by rewrite (nothing_invalid d Hti) in Hv|].
    exists p. split_and!; [done|done|by eapply object_valid].
  - intros H x o Ho t Ht Hne. specialize (Hr x o Ho). unfold refs_ok in Hr. rewrite Forall_forall in Hr.
    destruct (H x t) as (p & Hp & Hin & _); [exists o; split_and!; [done|done|by apply ref_valid; [apply Hr|]]|]. by exists p.
Qed.

Lemma hierarchies_linked d : table_inv d -> all_refs_ok d ->
  hierarchy d parents children_of /\ hierarchy d location_of contents_of <->
  (forall x, ~ cyclic d x) /\ forall x o, object_of d x = Some o -> object_linked d x o.
Proof.
  intros Hti [R1 R2 R3 R4]. pose proof (linked_edges d parents children_of Hti R1) as L1. pose proof (linked_edges d children_of parents Hti R2) as L2.
  pose proof (linked_edges d location_of contents_of Hti R3) as L3. pose proof (linked_edges d contents_of location_of Hti R4) as L4. unfold cyclic, object_linked. split.
  - intros [[I1 A1] [I2 A2]]. split; [intros x [H|H]; [by apply (A1 x)|by apply (A2 x)]|]. intros x o Ho.
    split_and!; [eapply L3; [|exact Ho]|eapply L4; [|exact Ho]|eapply L1; [|exact Ho]|eapply L2; [|exact Ho]]; intros y z; [apply I2|apply I2|apply I1|apply I1].
  - intros [Hno Hl]. split; split.
    + intros x y. split; [apply L1|apply L2]; intros z p Hp; apply (Hl z p Hp).
    + intros x H. apply (Hno x). by left.
    + intros x y. split; [apply L3|apply L4]; intros z p Hp; apply (Hl z p Hp).
    + intros x H. apply (Hno x). by right.
Qed.
(** Without cycles, the number of objects above is a rank. *)
Lemma no_cycle_acyclic d fl : table_inv d -> (forall x, ~ tc (edge fl d) x x) -> acyclic (edge fl d).
Proof.
  intros Hti Hno. set (above := fun x => match object_of d x with Some o => default [] (fst <$> db2_add fl (walk_fuel d) d o [] ∅) | None => [] end).
  assert (forall x o, object_of d x = Some o -> NoDup (above x) /\ forall y, y ∈ above x <-> tc (edge fl d) x y) as Habove.
  { intros x o Ho. destruct (visit_ok fl d (ti_table d Hti) (walk_fuel d) o ∅) as (new & W & _ & E); [rewrite difference_empty_L; unfold walk_fuel; lia|].
    unfold above. rewrite Ho, E. cbn. split; [apply W|]. intros y. rewrite <- (below_tc d fl x o y Ho). by apply walked_all. }
  exists (fun x => length (above x)). intros x y Hxy. pose proof Hxy as (o & Ho & Hy & Hv). destruct (valid_object d y (ti_table d Hti) Hv) as [p Hp].
  destruct (Habove x o Ho) as [Hndx Hx], (Habove y p Hp) as [Hndy Hy'].
  assert (NoDup (y :: above y)) as Hnd by (apply NoDup_cons; split; [intros Hc%Hy'; by apply (Hno y)|done]).
  assert (length (y :: above y) <= length (above x))%nat as Hle; [|cbn in Hle; lia].
  apply submseteq_length, NoDup_submseteq; [done|]. intros z [->|Hz]%elem_of_cons; apply Hx; [by apply tc_once|]. eapply tc_l; [exact Hxy|by apply Hy'].
Qed.

(** What the check does not look at: [NOTHING] in a list, an object twice *)
Record plain (d : db) : Prop := {
  pl_parents : forall x o, object_of d x = Some o -> match parents o with inr l => NOTHING ∉ l | inl _ => True end;
  pl_children : forall x o, object_of d x = Some o -> NoDup (children o) /\ NOTHING ∉ children o;
  pl_contents : forall x o, object_of d x = Some o -> NoDup (contents o) /\ NOTHING ∉ contents o }.

Lemma refs_valid d l : refs_ok d (inr l) -> NOTHING ∉ l -> Forall (fun x => valid d x = true) l.
Proof.
  unfold refs_ok. cbn. rewrite !Forall_forall. intros H Hn x Hx. apply ref_valid; [by apply H|]. by intros ->.
Qed.
Lemma hierarchy_family d up down : table_inv d -> (forall x o, object_of d x = Some o -> parents_wf d (up o)) ->
  (forall x o, object_of d x = Some o -> NoDup (enlist (down o)) /\ Forall (fun c => valid d c = true) (enlist (down o))) ->
  hierarchy d up down <-> family d up down.
Proof.
  intros Hti Hup Hdown. split.
  - intros [H1 H2]. split; [done|by intros x o Ho; apply Hdown with x|by intros x o Ho; apply Hdown with x|done|by apply no_cycle_acyclic].
  - intros [_ _ _ H1 H2]. split; [done|]. intros x. by apply acyclic_tc.
Qed.
Lemma accepted_ok d : table_inv d -> cache_ok d -> all_refs_ok d -> plain d ->
  hierarchy d parents children_of /\ hierarchy d location_of contents_of <-> db_ok d.
Proof.
  intros Hti Hc [R1 R2 R3 R4] [P1 P2 P3].
  rewrite (hierarchy_family d parents children_of Hti), (hierarchy_family d location_of contents_of Hti).
  - split; [intros []; by split|by intros []].
  - intros x o Ho. specialize (R3 x o Ho). unfold refs_ok in R3. cbn in *. apply Forall_cons in R3 as [R3 _]. destruct (decide (location o = NOTHING)); [by left|right].
    by apply ref_valid.
  - intros x o Ho. destruct (P3 x o Ho). split; [done|]. by apply refs_valid; [apply (R4 x o Ho)|].
  - intros x o Ho. specialize (R1 x o Ho). specialize (P1 x o Ho). unfold parents_wf. destruct (parents o) as [p|l].
    + unfold refs_ok in R1. cbn in R1. apply Forall_cons in R1 as [R1 _]. destruct (decide (p = NOTHING)); [by left|right]. by apply ref_valid.
    + by apply refs_valid.
  - intros x o Ho. destruct (P2 x o Ho). split; [done|]. by apply refs_valid; [apply (R2 x o Ho)|].
Qed.

(** ** The check *)

Lemma cleared_refs d l : Forall (fun x => invalid_ref d x = false) (cleared d l).
Proof. apply Forall_forall. intros x Hx. by apply list_elem_of_filter in Hx as [H _]. Qed.
Lemma cleared_field_refs d f : refs_ok d (cleared_field d f).
Proof.
  destruct f as [x|l]; cbn; [|apply cleared_refs]. unfold refs_ok. cbn. constructor; [|constructor]. destruct (invalid_ref d x) eqn:E; [|done]. done.
Qed.
Lemma cleared_all_refs d d' : edited d d' (fun _ o => clear_object d o) -> all_refs_ok d'.
Proof.
  intros Hed. assert (forall x o', object_of d' x = Some o' -> exists o, o' = clear_object d o) as Hof.
  { intros x o'. rewrite (ed_of _ _ _ Hed). destruct (object_of d x) as [o|]; [|done]. intros [= <-]. by exists o. }
  assert (forall f, refs_ok d f -> refs_ok d' f) as Hr.
  { intros f Hf. eapply Forall_impl; [exact Hf|]. intros x. by rewrite (invalid_edited _ _ _ _ Hed). }
  split; intros x o' (o & ->)%Hof; apply Hr; cbn.
  - apply cleared_field_refs.
  - apply (cleared_field_refs d (inr (children o))).
  - apply (cleared_field_refs d (inl (location o))).
  - apply (cleared_field_refs d (inr (contents o))).
Qed.
Lemma table_range d x o : table_inv d -> object_of d x = Some o -> in_range 0 (Z.to_nat (db_last_used_objid d + 1)) x.
Proof.
  intros Hti Ho. destruct (object_slot d x o Ho) as (l & Hl & _). apply find_slot in Hl. assert (is_Some (objects d !! x)) as H by by eexists.
  apply (ti_range d Hti) in H. unfold in_range, db_last_used_objid. lia.
Qed.
(** C21: The check of a loaded table in which only the last reference of a list
    may be to an object that is not there: exactly the references to such
    objects are removed, the caches stay right, and the answer is yes exactly
    when parents and children, and locations and contents, name each other and
    no object is above itself.  In a table without [NOTHING] in a list and
    without an object twice in one, that is the invariant of the object
    table. *)
Theorem validate_correct fuel d : table_inv d -> ancestor_cache d = ∅ -> (walk_fuel d <= fuel)%nat ->
  (forall x o, object_of d x = Some o -> stays_object d o = true) ->
  exists d1 c b, edited d d1 (fun _ o => clear_object d o) /\ ng_validate_hierarchies fuel d = Some (b, with_cache c d1) /\ cache_ok (with_cache c d1) /\
    (b = true <-> hierarchy d1 parents children_of /\ hierarchy d1 location_of contents_of) /\
    (plain d1 -> b = true <-> db_ok (with_cache c d1)).
Proof.
  intros Hti Hcache Hfuel Hs. set (size := Z.to_nat (db_last_used_objid d + 1)).
  destruct (check_invalid_ok size 0 d Hti) as (d1 & E1 & Hed0); [intros x o _; apply Hs|].
  assert (edited d d1 (fun _ o => clear_object d o)) as Hed.
  { eapply edited_ext; [exact Hed0|]. intros x o Ho. cbv beta. rewrite decide_True; [done|]. by eapply table_range. }
  pose proof (edited_table _ _ _ Hed Hti ltac:(done)) as Hti1. pose proof (cleared_all_refs _ _ Hed) as Hr.
  assert (cache_ok d1) as Hc1 by (intros x l; rewrite (ed_cache _ _ _ Hed), Hcache; by rewrite lookup_empty).
  destruct (check_cycles_ok fuel size 0 false d1 Hti1 Hc1) as (c & b & E2 & Hc2 & Hb); [unfold walk_fuel; by rewrite (ed_objects _ _ _ Hed)|].
  destruct (check_consistent_ok size 0 true (with_cache c d1)) as (b2 & E3 & Hb2); [apply Hti1|by destruct Hr|].
  assert (forall x o, object_of d1 x = Some o -> in_range 0 size x) as Hrange.
  { intros x o Ho. unfold size, db_last_used_objid. rewrite <- (ed_num _ _ _ Hed). by eapply table_range. }
  exists d1, c, (negb b && b2). assert (negb b && b2 = true <-> hierarchy d1 parents children_of /\ hierarchy d1 location_of contents_of) as Hiff.
  { rewrite (hierarchies_linked d1 Hti1 Hr), andb_true_iff, negb_true_iff, <- not_true_iff_false, Hb, Hb2. split.
    - intros [H1 [_ H2]]. split; [|intros x o Ho; by apply (H2 x o (Hrange x o Ho))]. intros x Hx. apply H1. right. exists x. split; [|done].
      assert (exists y, edge parents d1 x y \/ edge location_of d1 x y) as (y & [(o & Ho & _)|(o & Ho & _)]) by (destruct Hx as [H|H]; inversion H; subst; eauto).
      all: by eapply Hrange.
    - intros [H1 H2]. split; [intros [|(x & _ & Hx)]; [done|by apply (H1 x)]|]. split; [done|]. intros x o _ Ho. by apply (H2 x o). }
  split_and!; [done| |done|exact Hiff|].
  - unfold ng_validate_hierarchies. fold size. erewrite mbind_Some by exact E1. erewrite mbind_Some by exact E2. cbv beta. by destruct b.
  - intros Hp. rewrite Hiff, <- (accepted_ok (with_cache c d1)); [|by apply table_with_cache|done|by destruct Hr|by destruct Hp].
    split; intros [[A1 A2] [A3 A4]]; split; split; first [exact A1|exact A2|exact A3|exact A4].
Qed.

(** C22: A list with a reference to an object that is not there before its
    last place makes the check read past the end of the list: the removal
    shortens the list, and the loop goes on to the old length. *)
Theorem validate_reads_past_end fuel d x o : table_inv d -> object_of d x = Some o -> stays_object d o = false -> ng_validate_hierarchies fuel d = None.
Proof.
  intros Hti Ho Hs. unfold ng_validate_hierarchies. apply mbind_None. eapply check_invalid_out; [done|by eapply table_range|done|done].
Qed.

(** ** A loaded table

    The objects of [world], with a reference to an object 77 that is not there
    at the end of the children of object 0, or before them *)
Definition loaded_with (f : list Z -> list Z) : db := after (edit (fun o => with_children (f (children o)) o) 0) (with_cache ∅ world).
Definition loaded : db := loaded_with (fun l => l ++ [77]).
Definition overrun : db := loaded_with (fun l => 77 :: l).

Lemma loaded_table f : table_inv (loaded_with f) /\ ancestor_cache (loaded_with f) = ∅.
Proof.
  assert (table_inv (with_cache ∅ world)) as Hti by apply table_with_cache, world_ok.
  destruct (edit_edited (with_cache ∅ world) 0 (fun o => with_children (f (children o)) o) Hti) as (d' & E & Hed); [by vm_compute|].
  unfold loaded_with, after. rewrite E. split; [|by rewrite (ed_cache _ _ _ Hed)]. eapply edited_table; [exact Hed|done|].
  intros x o. unfold at_one. by case_decide.
Qed.
Lemma all_objects d (Q : Object -> bool) : table_inv d ->
  forallb (fun x => match object_of d x with Some o => Q o | None => true end) (seqZ 0 (num_objects d)) = true ->
  forall x o, object_of d x = Some o -> Q o = true.
Proof.
  intros Hti H x o Ho. pose proof (table_range d x o Hti Ho) as Hx. unfold in_range, db_last_used_objid in Hx.
  rewrite forallb_forall in H. specialize (H x). rewrite Ho in H. apply H, list_elem_of_In, elem_of_seqZ. lia.
Qed.

Example loaded_accepted : fst <$> ng_validate_hierarchies 20 loaded = Some true.
Proof. vm_compute. reflexivity. Qed.
(** An object that is among the children twice is not noticed. *)
Example twice_accepted : fst <$> ng_validate_hierarchies 20 (loaded_with (fun l => l ++ l)) = Some true.
Proof. vm_compute. reflexivity. Qed.

(** [NOTHING] among the children is not noticed either. *)
Example nothing_accepted : fst <$> ng_validate_hierarchies 20 (loaded_with (fun l => NOTHING :: l)) = Some true.
Proof. vm_compute. reflexivity. Qed.

Lemma validate_correct_witness :
  exists d1 c b, edited loaded d1 (fun _ o => clear_object loaded o) /\ ng_validate_hierarchies 20 loaded = Some (b, with_cache c d1) /\ cache_ok (with_cache c d1).
Proof.
  destruct (validate_correct 20 loaded) as (d1 & c & b & H1 & H2 & H3 & _).
  - apply loaded_table.
  - apply loaded_table.
  - fuel_tac.
  - apply (all_objects loaded); [apply loaded_table|]. vm_compute. reflexivity.
  - exists d1, c, b. split; [exact H1|]. split; [exact H2|exact H3].
Defined.
Lemma validate_reads_past_end_witness : ng_validate_hierarchies 20 overrun = None.
Proof.
  destruct (object_of overrun 0) as [o|] eqn:E; [|vm_compute in E; discriminate E].
  apply (validate_reads_past_end 20 overrun 0 o); [apply loaded_table|exact E|].
  vm_compute in E. injection E as <-. vm_compute. reflexivity.
Defined.
